(* ===== verification/_CoqProject ===== *)
-Q . S2P
Prelude.v
Float64.v
GoStrings.v
Json.v
Base64.v
GoPath.v
Protocol.v
Ranges.v
Mux.v
Scheduler.v
Frame.v
Transport.v
Secure.v
Process.v
FileSystem.v
ManifestCheck.v
Hashing.v
ReceiveStore.v
ReceiveProofs.v
RenameProofs.v
Containment.v
Compression.v
TransferHello.v
TransferSession.v
SessionProofs.v
Honest.v
Progress.v
Sender.v
ResumeProofs.v
SenderProofs.v
Receiver.v
ReceiverProofs.v
EndToEnd.v
ParallelSender.v
Collect.v
CollectProofs.v
AtomicFile.v
NoteDocument.v
NoteSession.v
Interactive.v
RecentStore.v
RouteHistory.v
PersistentNote.v
NoteServer.v
NoteSync.v
NoteConverge.v
Routing.v
RelayCredential.v
Netip.v
DirectCandidate.v
DirectHello.v
DirectConnect.v
Rendezvous.v
Negotiation.v
SignalRooms.v
RelayServer.v
RelayClient.v
ClientAddress.v
RateLimit.v
TurnQuota.v
RoutePlan.v
DialRoute.v
Outbound.v
Retry.v
NativeTask.v
Doctor.v
