(* ===== verification/Prelude.v ===== *)
(** * kigo: a verification library

    kigo moves files, text and notepads between two computers that share a
    short code.  The Go sources under [src/internal] are modelled as executable
    functions on explicit states; concurrent parts are step relations whose
    rules are those functions.  This file comes first; it also holds the
    prelude (below).

    * How the program fits together

    A client resolves its options and learns from a service which route to take
    ([app], [routing], [service/negotiate.go]), connects along it, directly, over
    a relay or by rendezvous at the service ([app/direct*.go], [lan_relay.go],
    [relay], [service/direct.go]), and obtains a bundle of message connections
    ([transport]).  Over the bundle a key is agreed from the code ([secure]),
    two hellos are exchanged, and a session of numbered, encrypted messages
    carries the manifest, the resume requests, the chunks and the end of the
    transfer ([transfer/session.go]).  The sender walks the path, schedules the
    streams and sends chunks ([transfer.go], [mux], [parallel_sender.go]); the
    receiver writes them through the receive store ([receive_store.go]).
    Notepads use the same keys, either between two clients ([note/session.go])
    or through records the service keeps sealed ([note/persistent*.go],
    [service/persistent_note.go]).

    * The files

    Foundations: [Float64] (binary64 arithmetic), [GoStrings], [GoPath], [Base64],
    [Json], [Netip] (what is used of Go's standard library), [FileSystem] (a POSIX
    file system with links, inodes and faults), [Process] (two peers over
    reliable queues; a run does not depend on the interleaving).

    Transfer:
    - [Protocol] - [protocol/protocol.go]: the manifest and the messages.
    - [Ranges] - [transfer/ranges.go]; [Mux], [Scheduler] - [mux].
    - [Frame], [Transport] - [transport]: frames, bundles, metrics, the budget.
    - [Secure] - [secure/secure.go]: codes, keys, nonces.
    - [ManifestCheck], [Hashing], [ReceiveStore] with [ReceiveProofs],
      [RenameProofs], [Containment] - [transfer/receive_store.go] and
      [sample_hash.go].
    - [Compression], [TransferHello], [TransferSession] with [SessionProofs] and
      [Honest] - [transfer/compression.go], [session.go].
    - [Progress], [Sender] with [ResumeProofs] and [SenderProofs], [Receiver]
      with [ReceiverProofs], [EndToEnd] - [transfer/transfer.go].
    - [ParallelSender] - [parallel_sender.go]; [Collect] with [CollectProofs] -
      [PreparePath] and [gitignore.go].

    Notepads:
    - [NoteDocument], [NoteSession], [Interactive] - [note/document.go],
      [protocol.go], [session.go], [workspace_sync.go], [interactive.go].
    - [AtomicFile], [RecentStore] - [note/recent_store.go].
    - [PersistentNote], [NoteServer], [NoteSync], [NoteConverge] -
      [note/persistent.go], [persistent_session.go],
      [service/persistent_note.go].

    Service and relay:
    - [Routing] - [routing/negotiate.go].
    - [Rendezvous], [Negotiation], [SignalRooms], [RateLimit], [ClientAddress],
      [TurnQuota] - [service].
    - [RelayCredential], [RelayServer], [RelayClient] - [relay].

    The client:
    - [DirectCandidate] - [directcandidate]; [DirectHello], [DirectConnect] -
      [app/direct.go], [direct_bidirectional.go].
    - [RouteHistory] - [app/route_history.go]; [RoutePlan], [DialRoute],
      [Doctor] - [app/app.go], [negotiate.go], [lan_relay.go],
      [direct_signal.go], [direct_nat.go], [direct_probe.go]; [Outbound] -
      [netpolicy], [app/network_policy.go]; [Retry] - [retry.go],
      [pair_timeout.go]; [NativeTask] - [native_task.go].

    * How the model reads the code

    A struct is a record with the fields of the source, an enumeration an
    inductive type (or the string constants, where the code compares strings
    that come from outside), a map a [gmap].  An [int] or [int64] is a [Z];
    [wrap64] is written where the code can overflow.  A string is its bytes.  A
    function that returns an error returns [result E A], [E] listing the errors
    of its component; a method that changes its receiver takes and returns the
    record; effects on files run in the monad [io] of [FileSystem], where what
    was done before an error stays done.  Shared objects are shared in the model:
    the manifest of session and store in [Receiver], hubs in [NoteServer],
    channels of rooms in [Rendezvous] and [SignalRooms].  Goroutines are rules
    of a step relation, or, where all they do is report over a channel, a list of
    events in any order ([RelayClient], [DirectConnect]).

    * What is a parameter

    Code that is not in the repository is a class with the laws the code relies
    on, and the witnesses use concrete instances: [Crypto] (AES-GCM, HKDF,
    SHA-256, X25519), [Hmac], [Gzip], [JSON] for each type that is encoded,
    [CaseTables] (Unicode case mapping outside ASCII), [GitIgnore] (the matcher
    of ignore rules), [Environment] (clock and random bytes of the sender),
    [Physical] (the connection under a transport).  Go's own library is modelled
    as far as it is used.

    * What the theorems show

    Transfers.  [EndToEnd.files_arrive] joins the parts: what [PreparePath] and
    the sender produce is what the receiver ends up holding.  Under it:
    [sendPath_honest] (the sender ends, chunks tile the files),
    [transfer_received] (the session reports the same events however the
    connections are merged), [Receive_total] (the receiver ends on any input),
    [received_files_are_sources] and [finalize_publishes_source] (content; a
    file is renamed only when complete, and a failing save renames nothing),
    [ensureSafeParent_contains] and [safeRelativePath_contained] (nothing is
    written outside the output directory), [acceptResumeRequests_correct] (which
    requests are answered, and how; a request without a prefix hash, and a skip,
    are taken at their word), [WriteChunk_decides], [byteRanges_Add_correct],
    [PreparePath_sound] (for tidy paths and names without a backslash), and
    [parallel_delivers], [parallel_settles] for the concurrent sender.

    Notepads.  [workspace_convergence], [SyncWorkspace_agrees] and
    [interactive_converges] for two clients, the last over their sessions, for
    lines of UTF-8; [applyPersistentNote_durable] (with the one refused put that
    is on disk all the same), [client_catches_up], [notepad_converges] for
    the notepads of the service under every interleaving; stores on disk are
    replaced atomically or left alone.

    Service and relay.  [signaling_never_faults], [locked_room_admits_token_holder],
    [negotiation_pairs], [relay_isolates_pairs], [race_settles],
    [credential_opens_its_room], [client_address_not_forged],
    [rate_limit_exact] and [turn_quota_exact].

    Clients.  [negotiated_routes_meet], [relay_peers_match],
    [signaled_peers_match]: two ends that follow the code take matching parts,
    but for the cases the theorems name.  A client's verdict on its history is
    one value there; the program asks for it again after it has waited.
    [dialling_settles], [direct_bundle_settles]: nothing stays open.
    [direct_ends_agree], [direct_backs_off], [retry_exact],
    [line_writer_exact], [doctor_ranks].  [outbound_selects], [outbound_order] and
    [policy_binds]: which interface a client uses, and that it keeps to it.

    * Fuel

    Loops of the source that are not structural take fuel, and a theorem shows
    that the fuel given is enough: [Receive_fuel], [receive_fuel], [chunk_fuel]
    count what is left to read or send and the loops decrease it at each turn;
    [walk_fuel] is one more than the depth of the file system; [try_rename] needs
    one try more than there are names taken; [Next_loop] one round per stream;
    the loops over the bytes of a string take its length.  The lock loop of
    [AtomicFile] is driven by a clock that passes its deadline.

    * Not modelled

    The commands and flags (cobra), the terminal interface (bubbletea), the local
    web interface and its embedded pages, the WebRTC transport (callbacks of a
    library), sockets, keep-alives, deadlines of single reads, TLS, log lines and
    the advisor, which passes a report to an HTTP service.  Their effect on the
    modelled parts is an event, an error or a parameter. *)
From Stdlib Require Import ZArith Lia Ascii String.
From stdpp Require Import base tactics numbers list gmap strings sorting relations.

Open Scope Z_scope.

(** ** Results: Go's [(value, error)] pairs *)

(** A Go function with an error result returns the value or the error; the
    zero value that accompanies an error is never read by the callers. *)
Inductive result (E A : Type) : Type :=
  | Ok (a : A)
  | Err (e : E).
Arguments Ok {E A} a.
Arguments Err {E A} e.

#[export] Instance result_ret E : MRet (result E) := fun _ a => Ok a.
#[export] Instance result_bind E : MBind (result E) :=
  fun _ _ k m => match m with Ok a => k a | Err e => Err e end.
#[export] Instance result_fmap E : FMap (result E) :=
  fun _ _ f m => match m with Ok a => Ok (f a) | Err e => Err e end.

(** [fmt.Errorf("...: %w", err)]: wrap the error of a callee. *)
Definition wrap_err {E F A} (f : E → F) (m : result E A) : result F A :=
  match m with Ok a => Ok a | Err e => Err (f e) end.

Definition is_ok {E A} (m : result E A) : bool :=
  match m with Ok _ => true | Err _ => false end.

(** [if cond { return err }]: the guard idiom of the Go sources. *)
Definition fail_if {E} (bad : bool) (e : E) : result E unit :=
  if bad then Err e else Ok tt.

Section result_lemmas.
Context {E A B : Type}.
Implicit Types (m : result E A) (k : A → result E B).

Lemma bind_Ok_inv m k b :
  (m ≫= k) = Ok b → ∃ a, m = Ok a ∧ k a = Ok b.
Proof. destruct m; [eauto|done]. Qed.

Lemma fail_if_Ok (bad : bool) (e : E) u : fail_if bad e = Ok u ↔ bad = false.
Proof. destruct bad, u; done. Qed.

Lemma fail_if_Err (bad : bool) (e e' : E) : fail_if bad e = Err e' ↔ bad = true ∧ e = e'.
Proof. destruct bad; simpl; naive_solver. Qed.

Lemma wrap_err_Ok {F} (f : E → F) m a : wrap_err f m = Ok a ↔ m = Ok a.
Proof. destruct m; simpl; naive_solver. Qed.
End result_lemmas.

(** ** Machine integers *)

Definition int64_min : Z := - 2 ^ 63.
Definition int64_max : Z := 2 ^ 63 - 1.
Definition uint64_max : Z := 2 ^ 64 - 1.

(** Two's complement wrap-around of [int]/[int64] and of [uint64]. *)
Definition wrap64 (z : Z) : Z := (z + 2 ^ 63) mod 2 ^ 64 - 2 ^ 63.
Definition wrapu64 (z : Z) : Z := z mod 2 ^ 64.

Definition in_int64 (z : Z) : Prop := int64_min ≤ z ≤ int64_max.
Definition in_uint64 (z : Z) : Prop := 0 ≤ z ≤ uint64_max.

Lemma wrap64_id z : in_int64 z → wrap64 z = z.
Proof.
  unfold in_int64, int64_min, int64_max, wrap64. intros H.
  rewrite Z.mod_small by lia. lia.
Qed.

Lemma wrap64_range z : in_int64 (wrap64 z).
Proof.
  unfold in_int64, int64_min, int64_max, wrap64.
  pose proof (Z.mod_pos_bound (z + 2 ^ 63) (2 ^ 64) ltac:(lia)). lia.
Qed.

(** The only two values a sum of two [int64]s can wrap to. *)
Lemma wrap64_add_cases a b :
  in_int64 a → in_int64 b →
  wrap64 (a + b) = a + b ∨ wrap64 (a + b) = a + b - 2 ^ 64 ∨
  wrap64 (a + b) = a + b + 2 ^ 64.
Proof.
  unfold in_int64, int64_min, int64_max, wrap64. intros Ha Hb.
  pose proof (Z.div_mod (a + b + 2 ^ 63) (2 ^ 64) ltac:(lia)).
  pose proof (Z.mod_pos_bound (a + b + 2 ^ 63) (2 ^ 64) ltac:(lia)).
  assert ((a + b + 2 ^ 63) / 2 ^ 64 = 0 ∨ (a + b + 2 ^ 63) / 2 ^ 64 = 1 ∨
          (a + b + 2 ^ 63) / 2 ^ 64 = -1) by nia.
  lia.
Qed.

Lemma wrapu64_id z : in_uint64 z → wrapu64 z = z.
Proof. unfold in_uint64, uint64_max, wrapu64. intros. apply Z.mod_small; lia. Qed.

Lemma wrapu64_range z : in_uint64 (wrapu64 z).
Proof.
  unfold in_uint64, uint64_max, wrapu64.
  pose proof (Z.mod_pos_bound z (2 ^ 64) ltac:(lia)). lia.
Qed.

(** ** Automation *)

(** Turn boolean comparisons of the code into propositions. *)
Ltac bool_prop :=
  repeat match goal with
  | H : (_ <? _) = true |- _ => apply Z.ltb_lt in H
  | H : (_ <? _) = false |- _ => apply Z.ltb_ge in H
  | H : (_ <=? _) = true |- _ => apply Z.leb_le in H
  | H : (_ <=? _) = false |- _ => apply Z.leb_gt in H
  | H : (_ >? _) = _ |- _ => rewrite Z.gtb_ltb in H
  | H : (_ >=? _) = _ |- _ => rewrite Z.geb_leb in H
  | H : (_ =? _) = true |- _ => apply Z.eqb_eq in H
  | H : (_ =? _) = false |- _ => apply Z.eqb_neq in H
  | H : (_ =? _)%nat = true |- _ => apply Nat.eqb_eq in H
  | H : (_ =? _)%nat = false |- _ => apply Nat.eqb_neq in H
  | H : (_ <? _)%nat = true |- _ => apply Nat.ltb_lt in H
  | H : (_ <? _)%nat = false |- _ => apply Nat.ltb_ge in H
  | H : (_ <=? _)%nat = true |- _ => apply Nat.leb_le in H
  | H : (_ <=? _)%nat = false |- _ => apply Nat.leb_gt in H
  | H : negb _ = true |- _ => apply negb_true_iff in H
  | H : negb _ = false |- _ => apply negb_false_iff in H
  | H : _ && _ = true |- _ => apply andb_true_iff in H as [? ?]
  | H : _ || _ = false |- _ => apply orb_false_iff in H as [? ?]
  | H : _ || _ = true |- _ => apply orb_true_iff in H
  | H : _ && _ = false |- _ => apply andb_false_iff in H
  | H : bool_decide _ = true |- _ => apply bool_decide_eq_true in H
  | H : bool_decide _ = false |- _ => apply bool_decide_eq_false in H
  end.

(** Peel the binds and guards of a run that succeeded. *)
Ltac res_inv :=
  repeat match goal with
  | H : (_ ≫= _) = Ok _ |- _ => apply bind_Ok_inv in H as (? & ? & ?)
  | H : fail_if _ _ = Ok _ |- _ => apply fail_if_Ok in H
  | H : fail_if _ _ = Err _ |- _ => apply fail_if_Err in H as [? ?]
  | H : wrap_err _ _ = Ok _ |- _ => apply wrap_err_Ok in H
  | H : Ok _ = Ok _ |- _ => injection H as H; subst
  | H : Err _ = Ok _ |- _ => discriminate H
  | H : Ok _ = Err _ |- _ => discriminate H
  | x : unit |- _ => destruct x
  | H : mret _ = Ok _ |- _ => unfold mret, result_ret in H
  end.

(** Case analysis on the scrutinee of the conditionals and matches of a
    definition, in the goal or in a hypothesis. *)
Ltac case_if :=
  match goal with
  | |- context [if ?b then _ else _] => destruct b eqn:?
  | H : context [if ?b then _ else _] |- _ => destruct b eqn:?
  end.

Ltac case_go :=
  repeat (case_if || case_match); bool_prop; simplify_eq/=.

(** ** Helpers on [int64] the sources share *)

Definition maxInt64 (a b : Z) : Z := if a >? b then a else b.

Definition clampInt64 (value minValue maxValue : Z) : Z :=
  if value <? minValue then minValue
  else if value >? maxValue then maxValue
  else value.

Lemma maxInt64_max a b : maxInt64 a b = Z.max a b.
Proof. unfold maxInt64. case_if; bool_prop; lia. Qed.

Lemma clampInt64_spec v lo hi :
  lo ≤ hi → clampInt64 v lo hi = Z.max lo (Z.min v hi).
Proof. intros. unfold clampInt64. repeat case_if; bool_prop; lia. Qed.

Lemma clampInt64_range v lo hi : lo ≤ hi → lo ≤ clampInt64 v lo hi ≤ hi.
Proof. intros. rewrite clampInt64_spec by done. lia. Qed.

Lemma clampInt64_id v lo hi : lo ≤ v ≤ hi → clampInt64 v lo hi = v.
Proof. intros. rewrite clampInt64_spec by lia. lia. Qed.

(** ** Slices *)

(** [append(s[:i], s[i+1:]...)] *)
Definition remove_at {A} (i : nat) (l : list A) : list A := take i l ++ drop (S i) l.

(** [append(s, zero); copy(s[i+1:], s[i:]); s[i] = x] *)
Definition insert_at {A} (i : nat) (x : A) (l : list A) : list A :=
  take i l ++ x :: drop i l.

(** [for _, v := range values { if v == want { return true } }] *)
Fixpoint containsString (values : list string) (want : string) : bool :=
  match values with
  | [] => false
  | value :: values' => if String.eqb value want then true else containsString values' want
  end.

Lemma containsString_elem values want : containsString values want = true ↔ want ∈ values.
Proof.
  induction values as [|v vs IH]; simpl; [split; [done|by intros ?%not_elem_of_nil]|].
  rewrite elem_of_cons, <- IH. destruct (String.eqb_spec v want); naive_solver.
Qed.

(** ** [sort.SliceStable] *)

(** Stable insertion sort: the unique stable ordering of the input when [less]
    is a strict weak order, which is what [sort.SliceStable] returns. *)
Section stable_sort.
Context {A : Type} (less : A → A → bool).

Fixpoint insert_stable (x : A) (l : list A) : list A :=
  match l with
  | [] => [x]
  | y :: l' => if less x y then x :: y :: l' else y :: insert_stable x l'
  end.

Definition sort_stable (l : list A) : list A :=
  foldl (fun acc x => insert_stable x acc) [] l.

(** [a] may stand before [b]. *)
Definition not_after (a b : A) : Prop := less b a = false.

Lemma insert_stable_perm x l : insert_stable x l ≡ₚ x :: l.
Proof.
  induction l as [|y l IH]; simpl; [done|]. case_if; [done|].
  rewrite IH. apply Permutation_swap.
Qed.

Lemma foldl_insert_perm l acc :
  foldl (fun acc x => insert_stable x acc) acc l ≡ₚ acc ++ l.
Proof.
  revert acc. induction l as [|x l IH]; intros acc; simpl; [by rewrite app_nil_r|].
  rewrite IH, insert_stable_perm. by rewrite <- Permutation_middle.
Qed.

Lemma sort_stable_perm l : sort_stable l ≡ₚ l.
Proof. apply foldl_insert_perm. Qed.

Lemma sort_stable_length l : length (sort_stable l) = length l.
Proof. apply Permutation_length, sort_stable_perm. Qed.

Lemma elem_of_sort_stable x l : x ∈ sort_stable l ↔ x ∈ l.
Proof. by rewrite sort_stable_perm. Qed.
End stable_sort.

(** Only the comparisons of elements of the list matter. *)
Lemma insert_stable_ext {A} (f g : A → A → bool) x l :
  (∀ y, y ∈ l → f x y = g x y) → insert_stable f x l = insert_stable g x l.
Proof.
  induction l as [|y l IH]; intros Hfg; cbn; [done|]. rewrite Hfg by by left.
  case_if; [done|]. rewrite IH; [done|]. intros z Hz. apply Hfg. by right.
Qed.

Lemma sort_stable_ext {A} (f g : A → A → bool) l :
  (∀ x y, x ∈ l → y ∈ l → f x y = g x y) → sort_stable f l = sort_stable g l.
Proof.
  unfold sort_stable. intros Hfg. assert (Hacc : ∀ y, y ∈ (@nil A) → y ∈ l) by by intros y ?%not_elem_of_nil.
  revert Hacc. generalize (@nil A). assert (Hsub : ∀ y, y ∈ l → y ∈ l) by done. revert Hsub.
  generalize l at 1 4 5. intros l'. induction l' as [|x l' IH]; intros Hl' acc Hacc; cbn; [done|].
  rewrite (insert_stable_ext f g) by (intros y Hy; apply Hfg; [apply Hl'; by left|by apply Hacc]).
  apply IH; [intros y Hy; apply Hl'; by right|]. intros y. rewrite insert_stable_perm.
  intros [->|Hy]%elem_of_cons; [apply Hl'; by left|by apply Hacc].
Qed.

(** A strict weak order, the contract [sort] asks of its [less] argument. *)
Class StrictWeak {A} (less : A → A → bool) : Prop := {
  less_asym a b : less a b = true → less b a = false;
  less_negtrans a b c : less b a = false → less c b = false → less c a = false;
}.

Section stable_sort_sorted.
Context {A : Type} (less : A → A → bool) `{!StrictWeak less}.

Lemma insert_stable_sorted x l :
  StronglySorted (not_after less) l → StronglySorted (not_after less) (insert_stable less x l).
Proof.
  induction 1 as [|y l Hs IH Hall]; simpl; [repeat constructor|].
  destruct (less x y) eqn:Hxy.
  - constructor; [by constructor|].
    constructor; [by apply less_asym|].
    eapply Forall_impl; [exact Hall|]. intros z Hz. unfold not_after in *.
    eapply less_negtrans; [apply less_asym; exact Hxy|done].
  - constructor; [done|]. rewrite insert_stable_perm. by constructor.
Qed.

Lemma sort_stable_sorted l : StronglySorted (not_after less) (sort_stable less l).
Proof.
  unfold sort_stable. assert (Hnil : StronglySorted (not_after less) []) by constructor.
  revert Hnil. generalize (@nil A). induction l as [|x l IH]; intros acc Hacc; simpl; [done|].
  apply IH. by apply insert_stable_sorted.
Qed.

End stable_sort_sorted.

(** ** Byte-wise string order (Go's [<] on strings) *)

Definition str_ltb (a b : string) : bool := String.ltb a b.

Lemma ascii_compare_N a b : Ascii.compare a b = N.compare (N_of_ascii a) (N_of_ascii b).
Proof. reflexivity. Qed.

Lemma str_compare_trans_lt a b c :
  String.compare a b = Lt → String.compare b c = Lt → String.compare a c = Lt.
Proof.
  revert b c. induction a as [|x a IH]; intros [|y b] [|z c]; simpl; try done.
  rewrite !ascii_compare_N.
  destruct (N.compare_spec (N_of_ascii x) (N_of_ascii y)) as [Hxy|Hxy|Hxy]; try done;
  destruct (N.compare_spec (N_of_ascii y) (N_of_ascii z)) as [Hyz|Hyz|Hyz]; try done; intros H1 H2.
  - rewrite Hxy, Hyz, N.compare_refl. eauto.
  - rewrite Hxy. apply N.compare_lt_iff in Hyz. by rewrite Hyz.
  - rewrite <- Hyz. apply N.compare_lt_iff in Hxy. by rewrite Hxy.
  - assert (Hxz : (N_of_ascii x < N_of_ascii z)%N) by lia.
    apply N.compare_lt_iff in Hxz. by rewrite Hxz.
Qed.

Lemma str_compare_refl a : String.compare a a = Eq.
Proof. induction a; simpl; [done|]. by rewrite ascii_compare_N, N.compare_refl. Qed.

Lemma str_ltb_lt a b : str_ltb a b = true ↔ String.compare a b = Lt.
Proof. unfold str_ltb, String.ltb. destruct (String.compare a b); naive_solver. Qed.

Lemma str_ltb_irrefl a : str_ltb a a = false.
Proof. unfold str_ltb, String.ltb. by rewrite str_compare_refl. Qed.

Lemma str_ltb_trans a b c : str_ltb a b = true → str_ltb b c = true → str_ltb a c = true.
Proof. rewrite !str_ltb_lt. apply str_compare_trans_lt. Qed.

Lemma str_ltb_asym a b : str_ltb a b = true → str_ltb b a = false.
Proof.
  intros H. destruct (str_ltb b a) eqn:E; [|done].
  pose proof (str_ltb_trans _ _ _ H E) as H'. by rewrite str_ltb_irrefl in H'.
Qed.

Lemma str_ltb_total a b : str_ltb a b = false → str_ltb b a = false → a = b.
Proof.
  unfold str_ltb, String.ltb. rewrite (String.compare_antisym b a).
  destruct (String.compare a b) eqn:E; simpl; try done.
  intros _ _. by apply String.compare_eq_iff.
Qed.

#[export] Instance str_ltb_strict_weak : StrictWeak str_ltb.
Proof.
  constructor; [apply str_ltb_asym|].
  intros a b c Hba Hcb. destruct (str_ltb c a) eqn:Hca; [|done]. exfalso.
  destruct (str_ltb a b) eqn:Hab.
  - by rewrite (str_ltb_trans c a b) in Hcb.
  - assert (a = b) as -> by by apply str_ltb_total. congruence.
Qed.

Create HintDb kigo.
#[export] Hint Resolve wrap64_range wrapu64_range str_ltb_irrefl str_ltb_asym : kigo.
Create Rewrite HintDb kigo_rw.
#[export] Hint Rewrite @sort_stable_length maxInt64_max : kigo_rw.
