(* ===== verification/Float64.v ===== *)
(** * IEEE-754 double precision (Go's [float64])

    The operations are those of the Standard Library's specification of
    floating-point arithmetic at 53 bits of precision, so that scores and weights
    are computed with the rounding of the machine.  The comparison of values that
    are not NaN is a strict weak order, which sorting by a score needs. *)
From Stdlib Require Import ZArith Lia SpecFloat.
From stdpp Require Import base tactics numbers list.
From S2P Require Import Prelude.

Notation float64 := spec_float.

Definition f64_add : float64 → float64 → float64 := SFadd 53 1024.
Definition f64_sub : float64 → float64 → float64 := SFsub 53 1024.
Definition f64_mul : float64 → float64 → float64 := SFmul 53 1024.
Definition f64_div : float64 → float64 → float64 := SFdiv 53 1024.
Definition f64_lt : float64 → float64 → bool := SFltb.
Definition f64_le : float64 → float64 → bool := SFleb.
Definition f64_eq : float64 → float64 → bool := SFeqb.

(** The conversion [float64(n)] of an integer. *)
Definition f64_of_Z (n : Z) : float64 := binary_normalize 53 1024 n 0 false.
(** The constant [n / d]. *)
Definition f64_const (n d : Z) : float64 := f64_div (f64_of_Z n) (f64_of_Z d).

(** The value of a 64-bit pattern. *)
Definition f64_of_bits (b : Z) : float64 :=
  let s := Z.testbit b 63 in
  let e := Z.land (Z.shiftr b 52) 2047 in
  let m := Z.land b (2 ^ 52 - 1) in
  if e =? 2047 then (if m =? 0 then S754_infinity s else S754_nan)
  else if e =? 0 then match m with Zpos p => S754_finite s p (-1074) | _ => S754_zero s end
  else S754_finite s (Z.to_pos (m + 2 ^ 52)) (e - 1075).

Definition is_nan (x : float64) : bool := match x with S754_nan => true | _ => false end.

(** [math.Min] on the cases without NaN and signed zeros. *)
Definition f64_min (x y : float64) : float64 :=
  if is_nan x || is_nan y then S754_nan else if f64_lt x y then x else y.

(** [d.Seconds()] of a duration in nanoseconds *)
Definition Seconds (d : Z) : float64 :=
  f64_add (f64_of_Z (Z.quot d 1000000000)) (f64_div (f64_of_Z (Z.rem d 1000000000)) (f64_of_Z 1000000000)).

(** ** Signs

    Sums of values that are not negative, and quotients of a positive number by
    one, are numbers again: no NaN comes out of an average. *)

Definition f64_nonneg (x : float64) : bool :=
  match x with S754_zero s | S754_infinity s | S754_finite s _ _ => negb s | S754_nan => false end.
Definition f64_pos_finite (x : float64) : bool := match x with S754_finite s _ _ => negb s | _ => false end.

Lemma f64_nonneg_nan x : f64_nonneg x = true → is_nan x = false.
Proof. by destruct x. Qed.
Lemma f64_pos_finite_nonneg x : f64_pos_finite x = true → f64_nonneg x = true.
Proof. by destruct x. Qed.

Lemma iter_pos_ind {A} (P : A → Prop) (f : A → A) p x : (∀ y, P y → P (f y)) → P x → P (SpecFloat.iter_pos f p x).
Proof. intros Hf. revert x. induction p as [p IH|p IH|]; intros x Hx; cbn; auto. Qed.

Lemma shr_m_nonneg mx ex lx : 0 ≤ mx → 0 ≤ shr_m (shr_fexp 53 1024 mx ex lx).1.
Proof.
  intros Hm. unfold shr_fexp. set (n := _ - ex). clearbody n. unfold shr. set (mrs := shr_record_of_loc mx lx).
  assert (Hmrs : 0 ≤ shr_m mrs) by (unfold mrs; by destruct lx as [|[]]). clearbody mrs. destruct n as [|p|p]; cbn [fst]; try done.
  apply (iter_pos_ind (fun r => 0 ≤ shr_m r)); [|done]. intros [m r t] Hr. cbn in Hr |- *. by destruct m as [|[]|[]].
Qed.

Lemma binary_round_aux_nonneg mx ex lx : 0 ≤ mx → f64_nonneg (binary_round_aux 53 1024 false mx ex lx) = true.
Proof.
  intros Hm. unfold binary_round_aux. destruct (shr_fexp 53 1024 mx ex lx) as [mrs e] eqn:E1.
  pose proof (shr_m_nonneg mx ex lx Hm) as H1. rewrite E1 in H1. cbn [fst] in H1. set (m2 := round_nearest_even _ _).
  assert (H2 : 0 ≤ m2) by (unfold m2, round_nearest_even; repeat case_match; lia). clearbody m2.
  destruct (shr_fexp 53 1024 m2 e loc_Exact) as [mrs2 e2] eqn:E2. pose proof (shr_m_nonneg m2 e loc_Exact H2) as H3. rewrite E2 in H3. cbn [fst] in H3.
  destruct (shr_m mrs2); [done|by destruct (_ <=? _)|lia].
Qed.

Lemma binary_normalize_nonneg m e : 0 ≤ m → f64_nonneg (binary_normalize 53 1024 m e false) = true.
Proof.
  intros Hm. destruct m as [|p|p]; [done| |lia]. cbn. unfold binary_round. destruct (shl_align _ _ _). by apply binary_round_aux_nonneg.
Qed.

Lemma f64_add_nonneg x y : f64_nonneg x = true → f64_nonneg y = true → f64_nonneg (f64_add x y) = true.
Proof.
  destruct x as [[]|[]| |[] mx ex], y as [[]|[]| |[] my ey]; try done. intros _ _. unfold f64_add, SFadd. cbn [cond_Zopp].
  apply binary_normalize_nonneg. lia.
Qed.

Lemma f64_div_nonneg x y : f64_pos_finite x = true → f64_nonneg y = true → f64_nonneg (f64_div x y) = true.
Proof.
  destruct x as [| | |[] mx ex]; try done. destruct y as [[]|[]| |[] my ey]; try done. intros _ _. unfold f64_div, SFdiv, SFdiv_core_binary.
  set (m' := match _ with Z0 => _ | _ => _ end). assert (Hm : 0 ≤ m').
  { unfold m'. destruct (_ - _) as [|p|p] eqn:E; [lia| |lia]. apply Z.shiftl_nonneg. lia. }
  clearbody m'. pose proof (Z.div_pos m' (Zpos my) Hm ltac:(lia)) as Hq. unfold Z.div in Hq. destruct (Z.div_eucl m' _) as [q r].
  by apply binary_round_aux_nonneg.
Qed.

Lemma f64_of_Z_nonneg n : 0 ≤ n → f64_nonneg (f64_of_Z n) = true.
Proof. apply binary_normalize_nonneg. Qed.

(** Small integers are converted exactly, so that a count is a positive number. *)
Lemma digits2_bound p : 2 ^ (Zpos (digits2_pos p) - 1) ≤ Zpos p.
Proof.
  induction p as [p IH|p IH|]; [| |done]; cbn [digits2_pos]; rewrite Pos2Z.inj_succ, Z.sub_1_r, Z.pred_succ.
  all: replace (Zpos (digits2_pos p)) with (Z.succ (Zpos (digits2_pos p) - 1)) by lia; rewrite Z.pow_succ_r by lia; lia.
Qed.
Lemma digits2_iter d m : Zpos (digits2_pos (Pos.iter xO m d)) = Zpos (digits2_pos m) + Zpos d.
Proof.
  induction d as [|d IH] using Pos.peano_ind; [cbn; lia|]. rewrite Pos.iter_succ. cbn [digits2_pos]. rewrite !Pos2Z.inj_succ, IH. lia.
Qed.

Lemma f64_of_Z_pos n : 0 < n < 2 ^ 53 → f64_pos_finite (f64_of_Z n) = true.
Proof.
  intros [H1 H2]. destruct n as [|p|p]; [lia| |lia]. unfold f64_of_Z, binary_normalize, binary_round.
  assert (Hd : Zpos (digits2_pos p) ≤ 53).
  { pose proof (digits2_bound p). destruct (Z.le_gt_cases (Zpos (digits2_pos p)) 53) as [|Hgt]; [done|].
    assert (2 ^ 53 ≤ 2 ^ (Zpos (digits2_pos p) - 1)) by (apply Z.pow_le_mono_r; lia). lia. }
  assert (He : fexp 53 1024 (Zpos (digits2_pos p) + 0) = Zpos (digits2_pos p) - 53) by (unfold fexp, emin; lia). rewrite He.
  set (d := Zpos (digits2_pos p) - 53) in *. assert (Hdig : ∃ mz, shl_align p 0 d = (mz, d) ∧ Zpos (digits2_pos mz) + d = Zpos (digits2_pos p)).
  { unfold shl_align. rewrite Z.sub_0_r. destruct d as [|q|q] eqn:E; [by exists p; rewrite Z.add_0_r|lia|]. eexists. split; [done|]. rewrite digits2_iter. lia. }
  destruct Hdig as (mz & -> & Hm). unfold binary_round_aux.
  assert (Hs : ∀ m e, m = mz → e = d → shr_fexp 53 1024 (Zpos m) e loc_Exact = (Build_shr_record (Zpos mz) false false, d)).
  { intros m e -> ->. unfold shr_fexp. cbn [Zdigits2]. rewrite Hm. rewrite Z.add_0_r in He. rewrite He, Z.sub_diag. done. }
  rewrite Hs by done. cbn [shr_m loc_of_shr_record round_nearest_even]. rewrite Hs by done. cbn [shr_m].
  destruct (Z.leb_spec d (1024 - 53)); [done|lia].
Qed.

Lemma f64_div_pos x y : f64_nonneg x = true → f64_pos_finite y = true → f64_nonneg (f64_div x y) = true.
Proof.
  intros Hx Hy. destruct x as [[]|[]| |[] mx ex] eqn:E; try done.
  - by destruct y as [| | |[] my ey].
  - by destruct y as [| | |[] my ey].
  - apply f64_div_nonneg; [done|]. by apply f64_pos_finite_nonneg.
Qed.

(** ** The order *)

(** A number is placed by its class, then its exponent, then its mantissa. *)
Definition f64_rank (x : float64) : Z * Z * Z :=
  match x with
  | S754_nan => (3, 0, 0)
  | S754_infinity s => (if s then -2 else 2, 0, 0)
  | S754_zero _ => (0, 0, 0)
  | S754_finite s m e => if s then (-1, - e, - Zpos m) else (1, e, Zpos m)
  end.

Definition rank_lt (a b : Z * Z * Z) : Prop :=
  let '(a1, a2, a3) := a in let '(b1, b2, b3) := b in
  a1 < b1 ∨ (a1 = b1 ∧ (a2 < b2 ∨ (a2 = b2 ∧ a3 < b3))).

Lemma f64_lt_rank x y :
  is_nan x = false → is_nan y = false → f64_lt x y = true ↔ rank_lt (f64_rank x) (f64_rank y).
Proof.
  intros Hx Hy. unfold f64_lt, SFltb, SFcompare, rank_lt.
  destruct x as [sx|sx| |sx mx ex], y as [sy|sy| |sy my ey]; try done;
    repeat match goal with s : bool |- _ => destruct s end; cbn; try (split; [done|lia]); try (split; [lia|done]).
  - fold (Pos.compare mx my). destruct (Z.compare_spec ex ey); [subst|split; [done|lia]|split; [lia|done]].
    destruct (Pos.compare_spec mx my); cbn; split; (lia || done).
  - fold (Pos.compare mx my). destruct (Z.compare_spec ex ey); [subst|split; [lia|done]|split; [done|lia]].
    destruct (Pos.compare_spec mx my); cbn; split; (lia || done).
Qed.

Lemma f64_eq_lt x y : is_nan x = false → is_nan y = false → f64_eq x y = true ↔ f64_lt x y = false ∧ f64_lt y x = false.
Proof.
  intros Hx Hy. split.
  - unfold f64_eq, f64_lt, SFeqb, SFltb, SFcompare.
    destruct x as [sx|sx| |sx mx ex], y as [sy|sy| |sy my ey]; try done;
      repeat match goal with s : bool |- _ => destruct s end; try done; cbn;
      fold (Pos.compare mx my) (Pos.compare my mx);
      destruct (Z.compare_spec ex ey); try done; subst; rewrite Z.compare_refl, (Pos.compare_antisym mx my);
      by destruct (Pos.compare mx my).
  - intros [H1 H2]. apply not_true_iff_false in H1, H2. rewrite f64_lt_rank in H1, H2 by done. revert H1 H2.
    unfold f64_eq, SFeqb, SFcompare, rank_lt.
    destruct x as [sx|sx| |sx mx ex], y as [sy|sy| |sy my ey]; try done;
      repeat match goal with s : bool |- _ => destruct s end; try done; cbn; try lia;
      fold (Pos.compare mx my); destruct (Z.compare_spec ex ey); try lia; subst;
      destruct (Pos.compare_spec mx my); try done; lia.
Qed.

(** Sorting by a score without NaN. *)
Lemma f64_strict_weak {A} (score : A → float64) :
  (∀ x, is_nan (score x) = false) → StrictWeak (fun a b => f64_lt (score a) (score b)).
Proof.
  intros Hs. constructor.
  - intros a b Hab. apply not_true_is_false. intros Hba.
    apply (f64_lt_rank _ _ (Hs a) (Hs b)) in Hab. apply (f64_lt_rank _ _ (Hs b) (Hs a)) in Hba.
    destruct (f64_rank (score a)) as [[? ?] ?], (f64_rank (score b)) as [[? ?] ?]. cbn in *. lia.
  - intros a b c Hba Hcb. apply not_true_is_false. intros Hca.
    apply not_true_iff_false in Hba, Hcb. rewrite f64_lt_rank in * by apply Hs.
    destruct (f64_rank (score a)) as [[? ?] ?], (f64_rank (score b)) as [[? ?] ?], (f64_rank (score c)) as [[? ?] ?]. cbn in *. lia.
Qed.

(** By score, then by rank. *)
Definition score_before {A} (score : A → float64) (rank : A → Z) (a b : A) : bool :=
  if negb (f64_eq (score a) (score b)) then f64_lt (score a) (score b) else rank a <? rank b.

Lemma score_before_weak {A} (score : A → float64) (rank : A → Z) :
  (∀ x, is_nan (score x) = false) → StrictWeak (score_before score rank).
Proof.
  intros Hn. pose proof (f64_strict_weak score Hn) as [Ha Ht].
  assert (Heq : ∀ a b, score_before score rank a b = true ↔
    f64_lt (score a) (score b) = true ∨ (f64_lt (score a) (score b) = false ∧ f64_lt (score b) (score a) = false ∧ rank a < rank b)).
  { intros a b. unfold score_before. destruct (f64_eq (score a) (score b)) eqn:E; cbn.
    - apply f64_eq_lt in E as [-> ->]; [|done..]. split; [intros; right; split_and!; lia|intros [?|?]; [done|lia]].
    - split; [by left|]. intros [?|(E1 & E2 & _)]; [done|].
      exfalso. assert (f64_eq (score a) (score b) = true); [by apply f64_eq_lt|congruence]. }
  constructor.
  - intros a b Hab. apply not_true_iff_false. rewrite Heq in *. destruct Hab as [Hab|(H1 & H2 & Hr)].
    + intros [?|(? & ? & ?)]; [by rewrite (Ha a b Hab) in *|congruence].
    + intros [?|(? & ? & ?)]; [congruence|lia].
  - intros a b c Hba Hcb. apply not_true_iff_false. apply not_true_iff_false in Hba, Hcb. rewrite Heq in *.
    assert (Hba1 : f64_lt (score b) (score a) = false) by (apply not_true_iff_false; tauto).
    assert (Hcb1 : f64_lt (score c) (score b) = false) by (apply not_true_iff_false; tauto).
    assert (Hca1 := Ht _ _ _ Hba1 Hcb1). cbn in Hca1. rewrite Hca1. intros [?|(_ & Hac & Hr)]; [done|].
    assert (Hab1 : f64_lt (score a) (score b) = false) by (eapply (Ht b c a); [exact Hcb1|exact Hac]).
    assert (Hbc1 : f64_lt (score b) (score c) = false) by (eapply (Ht c a b); [exact Hac|exact Hba1]).
    assert (¬ rank b < rank a) by (intros ?; apply Hba; by right). apply Hcb. right. split_and!; [done|done|lia].
Qed.

(** Constants, bit patterns and rounding. *)
Example f64_half : f64_const 1 2 = S754_finite false 4503599627370496 (-53).
Proof. reflexivity. Qed.
Example f64_bits_one : f64_of_bits 4607182418800017408 = f64_of_Z 1.
Proof. reflexivity. Qed.
Example f64_third : f64_lt (f64_div (f64_of_Z 1) (f64_of_Z 3)) (f64_const 3334 10000) = true.
Proof. reflexivity. Qed.
