(* ===== verification/GoStrings.v ===== *)
(** * The part of Go's [strings], [strconv] and [net] packages kigo relies on

    Go strings are byte sequences; they are modelled by [string], one [ascii]
    per byte.  Everything here is executable.  [ToLower]/[ToUpper]/[EqualFold]
    have Go's ASCII fast path written out and take the Unicode case tables,
    used on non-ASCII input only, from the class [CaseTables]. *)
From Stdlib Require Import ZArith Lia Ascii String.
From Stdlib Require Import Decimal DecimalString DecimalFacts DecimalPos DecimalZ DecimalN.
From stdpp Require Import base tactics numbers list gmap strings.
From S2P Require Import Prelude.

Abbreviation bytes := (list ascii).
Abbreviation to_bytes := list_ascii_of_string.
Abbreviation of_bytes := string_of_list_ascii.

Definition str_len (s : string) : Z := Z.of_nat (String.length s).

Definition byte_of (n : nat) : ascii := ascii_of_nat n.
Definition in_byte_range (lo hi : ascii) (c : ascii) : bool :=
  (N_of_ascii lo <=? N_of_ascii c)%N && (N_of_ascii c <=? N_of_ascii hi)%N.

Lemma to_bytes_app a b : to_bytes (a +:+ b) = to_bytes a ++ to_bytes b.
Proof. induction a as [|c a IH]; simpl; [done|]. by rewrite IH. Qed.

Lemma of_bytes_app a b : of_bytes (a ++ b) = of_bytes a +:+ of_bytes b.
Proof. induction a as [|c a IH]; simpl; [done|]. by rewrite IH. Qed.

Lemma str_app_assoc a b c : (a +:+ b) +:+ c = a +:+ (b +:+ c).
Proof.
  induction a as [|x a IH]; [done|]. change (String x ((a +:+ b) +:+ c) = String x (a +:+ (b +:+ c))). by f_equal.
Qed.

Lemma length_to_bytes s : length (to_bytes s) = String.length s.
Proof. induction s; simpl; congruence. Qed.

(** ** Prefixes *)

Fixpoint strip_prefix (p l : bytes) : option bytes :=
  match p, l with
  | [], _ => Some l
  | a :: p', b :: l' => if Ascii.eqb a b then strip_prefix p' l' else None
  | _ :: _, [] => None
  end.

Lemma strip_prefix_Some p l k : strip_prefix p l = Some k ↔ l = p ++ k.
Proof.
  revert l. induction p as [|a p IH]; intros [|b l]; simpl; try naive_solver.
  destruct (Ascii.eqb_spec a b); [rewrite IH|]; naive_solver.
Qed.

Definition has_prefix (s p : string) : bool :=
  match strip_prefix (to_bytes p) (to_bytes s) with Some _ => true | None => false end.
Definition has_suffix (s p : string) : bool :=
  match strip_prefix (rev (to_bytes p)) (rev (to_bytes s)) with Some _ => true | None => false end.

(** [strings.TrimPrefix] *)
Definition trim_prefix (s p : string) : string :=
  match strip_prefix (to_bytes p) (to_bytes s) with Some k => of_bytes k | None => s end.
(** [strings.TrimSuffix] *)
Definition trim_suffix (s p : string) : string :=
  match strip_prefix (rev (to_bytes p)) (rev (to_bytes s)) with
  | Some k => of_bytes (rev k) | None => s end.

Fixpoint contains_bytes (sub l : bytes) : bool :=
  match strip_prefix sub l with
  | Some _ => true
  | None => match l with [] => false | _ :: l' => contains_bytes sub l' end
  end.
(** [strings.Contains] *)
Definition str_contains (s sub : string) : bool := contains_bytes (to_bytes sub) (to_bytes s).

(** ** [strings.TrimSpace] *)

(** The UTF-8 encodings of the code points [unicode.IsSpace] accepts. *)
Definition space_runes : list bytes :=
  ([byte_of <$> [9%nat]; byte_of <$> [10%nat]; byte_of <$> [11%nat]; byte_of <$> [12%nat];
    byte_of <$> [13%nat]; byte_of <$> [32%nat];
    byte_of <$> [194; 133]%nat; byte_of <$> [194; 160]%nat; byte_of <$> [225; 154; 128]%nat]
   ++ ((fun k => byte_of <$> [226; 128; k]%nat) <$> seq 128 11)
   ++ [byte_of <$> [226; 128; 168]%nat; byte_of <$> [226; 128; 169]%nat;
       byte_of <$> [226; 128; 175]%nat; byte_of <$> [226; 129; 159]%nat;
       byte_of <$> [227; 128; 128]%nat])%list.

Fixpoint strip_any (pats : list bytes) (l : bytes) : option bytes :=
  match pats with
  | [] => None
  | p :: pats' => match strip_prefix p l with Some k => Some k | None => strip_any pats' l end
  end.

(** At most one pattern per byte of the input can be stripped, so the length of
    the input is enough fuel. *)
Fixpoint trim_fuel (n : nat) (pats : list bytes) (l : bytes) : bytes :=
  match n with
  | O => l
  | S n' => match strip_any pats l with Some k => trim_fuel n' pats k | None => l end
  end.
Definition trim_left (pats : list bytes) (l : bytes) : bytes := trim_fuel (length l) pats l.

Definition trim_bytes (pats : list bytes) (l : bytes) : bytes :=
  rev (trim_left (@rev ascii <$> pats) (rev (trim_left pats l))).
Definition TrimSpace (s : string) : string := of_bytes (trim_bytes space_runes (to_bytes s)).

Section trim.
Context (pats : list bytes) (Hne : Forall (fun p => p ≠ []) pats).

Lemma strip_any_Some l k : strip_any pats l = Some k → ∃ p, p ∈ pats ∧ l = p ++ k.
Proof.
  clear Hne. induction pats as [|p ps IH]; simpl; [done|].
  destruct (strip_prefix p l) eqn:E.
  - intros [= ->]. apply strip_prefix_Some in E. exists p. split; [by left|done].
  - intros (q & ? & ?)%IH. exists q. split; [by right|done].
Qed.

Lemma strip_any_None l : strip_any pats l = None ↔ ∀ p k, p ∈ pats → l ≠ p ++ k.
Proof.
  clear Hne. induction pats as [|p ps IH]; simpl.
  - split; [intros _ ?? []%not_elem_of_nil|done].
  - destruct (strip_prefix p l) as [k|] eqn:E.
    + split; [done|]. intros H. apply strip_prefix_Some in E. by destruct (H p k ltac:(left)).
    + rewrite IH. setoid_rewrite elem_of_cons. split; [|naive_solver].
      intros H q k [->|?]; [|eauto]. intros Hl. apply strip_prefix_Some in Hl. congruence.
Qed.

Lemma strip_any_app_None l k : strip_any pats (l ++ k) = None → strip_any pats l = None.
Proof.
  rewrite !strip_any_None. intros H p q Hp ->. apply (H p (q ++ k) Hp). by rewrite (assoc_L (++)).
Qed.

Lemma trim_fuel_suffix n l : ∃ k, l = k ++ trim_fuel n pats l.
Proof.
  clear Hne. revert l. induction n as [|n IH]; intros l; simpl; [by exists []|].
  destruct (strip_any pats l) as [l'|] eqn:E; [|by exists []].
  apply strip_any_Some in E as (p & _ & ->). destruct (IH l') as [k Hk].
  exists (p ++ k). by rewrite <- (assoc_L (++)), <- Hk.
Qed.

Lemma trim_fuel_None n l : (length l ≤ n)%nat → strip_any pats (trim_fuel n pats l) = None.
Proof using Hne.
  revert l. induction n as [|n IH]; intros l Hl; simpl.
  - destruct l; [|simpl in Hl; lia]. apply strip_any_None. intros [|? p] k Hp; [|done].
    rewrite Forall_forall in Hne. by apply Hne in Hp.
  - destruct (strip_any pats l) as [l'|] eqn:E; [|done].
    apply strip_any_Some in E as (p & Hp & ->). apply IH.
    rewrite Forall_forall in Hne. apply Hne in Hp. rewrite length_app in Hl.
    destruct p; simpl in Hl; [done|lia].
Qed.

Lemma trim_left_None l : strip_any pats (trim_left pats l) = None.
Proof using Hne. by apply trim_fuel_None. Qed.

Lemma trim_left_id l : strip_any pats l = None → trim_left pats l = l.
Proof. clear Hne. unfold trim_left. destruct (length l); simpl; [done|]. by intros ->. Qed.
End trim.

Section trim_both.
Context (pats : list bytes) (Hne : Forall (fun p => p ≠ []) pats).

Lemma rev_pats_ne : Forall (fun p => p ≠ []) (@rev ascii <$> pats).
Proof using Hne.
  apply Forall_fmap. eapply Forall_impl; [exact Hne|].
  intros p Hp Hr. apply Hp. by rewrite <- (rev_involutive p), Hr.
Qed.

Lemma trim_bytes_infix l : ∃ k1 k2, l = k1 ++ trim_bytes pats l ++ k2.
Proof.
  unfold trim_bytes, trim_left.
  destruct (trim_fuel_suffix pats (length l) l) as [k1 H1]. set (m := trim_fuel _ _ l) in *.
  destruct (trim_fuel_suffix (@rev ascii <$> pats) (length (rev m)) (rev m)) as [k2 H2].
  apply (f_equal (@rev ascii)) in H2. rewrite rev_involutive, rev_app_distr in H2.
  exists k1, (rev k2). by rewrite <- H2.
Qed.

Lemma trim_bytes_prefix_None l : strip_any pats (trim_bytes pats l) = None.
Proof using Hne.
  unfold trim_bytes. set (m := trim_left pats l).
  destruct (trim_fuel_suffix (@rev ascii <$> pats) (length (rev m)) (rev m)) as [k Hk].
  fold (trim_left (@rev ascii <$> pats) (rev m)) in Hk.
  apply (f_equal (@rev ascii)) in Hk. rewrite rev_involutive, rev_app_distr in Hk.
  apply (strip_any_app_None _ _ (rev k)). rewrite <- Hk. by apply trim_left_None.
Qed.

Lemma trim_bytes_suffix_None l : strip_any (@rev ascii <$> pats) (rev (trim_bytes pats l)) = None.
Proof using Hne. unfold trim_bytes. rewrite rev_involutive. apply trim_left_None, rev_pats_ne. Qed.

Lemma trim_bytes_idemp l : trim_bytes pats (trim_bytes pats l) = trim_bytes pats l.
Proof using Hne.
  unfold trim_bytes at 1. rewrite (trim_left_id pats (trim_bytes pats l)) by apply trim_bytes_prefix_None.
  rewrite trim_left_id by apply trim_bytes_suffix_None. apply rev_involutive.
Qed.
End trim_both.

Lemma space_runes_ne : Forall (fun p => p ≠ []) space_runes.
Proof. vm_compute. repeat constructor; discriminate. Qed.

Lemma TrimSpace_idemp s : TrimSpace (TrimSpace s) = TrimSpace s.
Proof.
  unfold TrimSpace. rewrite list_ascii_of_string_of_list_ascii.
  by rewrite trim_bytes_idemp by apply space_runes_ne.
Qed.

Lemma TrimSpace_infix s : ∃ a b, s = a +:+ TrimSpace s +:+ b.
Proof.
  destruct (trim_bytes_infix space_runes (to_bytes s)) as (k1 & k2 & H).
  exists (of_bytes k1), (of_bytes k2). unfold TrimSpace.
  by rewrite <- !of_bytes_app, <- H, string_of_list_ascii_of_string.
Qed.

Lemma TrimSpace_length s : str_len (TrimSpace s) ≤ str_len s.
Proof.
  destruct (TrimSpace_infix s) as (a & b & H). unfold str_len. rewrite H at 2.
  rewrite <- !length_to_bytes, !to_bytes_app, !length_app. lia.
Qed.
#[export] Hint Rewrite TrimSpace_idemp : kigo_rw.

(** ** Splitting and joining on one separator byte *)

(** [strings.Split(s, string(c))] *)
Fixpoint split_on (c : ascii) (s : string) : list string :=
  match s with
  | EmptyString => [""%string]
  | String a s' =>
      if Ascii.eqb a c then ""%string :: split_on c s'
      else match split_on c s' with
           | [] => [String a ""]
           | p :: ps => String a p :: ps
           end
  end.

(** [strings.Join(parts, string(c))] *)
Fixpoint join_with (c : ascii) (parts : list string) : string :=
  match parts with
  | [] => ""
  | [p] => p
  | p :: ps => p +:+ String c (join_with c ps)
  end.

Fixpoint has_byte (c : ascii) (s : string) : bool :=
  match s with
  | EmptyString => false
  | String a s' => if Ascii.eqb a c then true else has_byte c s'
  end.

(** [strings.ReplaceAll] of one byte by another *)
Fixpoint replace_byte (a b : ascii) (s : string) : string :=
  match s with
  | EmptyString => EmptyString
  | String c s' => String (if Ascii.eqb c a then b else c) (replace_byte a b s')
  end.

(** [strings.ContainsAny] on a set of bytes *)
Fixpoint contains_any (s chars : string) : bool :=
  match s with
  | EmptyString => false
  | String a s' => has_byte a chars || contains_any s' chars
  end.

Fixpoint forall_bytes (f : ascii → bool) (s : string) : bool :=
  match s with
  | EmptyString => true
  | String a s' => f a && forall_bytes f s'
  end.

Fixpoint map_bytes (f : ascii → ascii) (s : string) : string :=
  match s with
  | EmptyString => EmptyString
  | String a s' => String (f a) (map_bytes f s')
  end.

Lemma has_byte_app c a b : has_byte c (a +:+ b) = has_byte c a || has_byte c b.
Proof. induction a as [|x a IH]; simpl; [done|]. destruct (Ascii.eqb x c); done. Qed.

Lemma split_on_cons c s : ∃ p ps, split_on c s = p :: ps.
Proof.
  destruct s as [|a s]; simpl; [eauto|]. destruct (Ascii.eqb a c); [eauto|].
  destruct (split_on c s); eauto.
Qed.

Lemma join_split c s : join_with c (split_on c s) = s.
Proof.
  induction s as [|a s IH]; simpl; [done|].
  destruct (split_on_cons c s) as (p & ps & E). rewrite E in IH |- *.
  destruct (Ascii.eqb_spec a c) as [->|]; simpl in *; [by rewrite IH|].
  destruct ps as [|q ps]; simpl in *; by rewrite <- IH.
Qed.

Lemma split_on_no_byte c p s :
  has_byte c p = false → split_on c (p +:+ String c s) = p :: split_on c s.
Proof.
  induction p as [|a p IH]; simpl; [by rewrite Ascii.eqb_refl|].
  destruct (Ascii.eqb a c); [done|]. intros H. by rewrite IH.
Qed.

Lemma split_on_single c p : has_byte c p = false → split_on c p = [p].
Proof.
  induction p as [|a p IH]; simpl; [done|].
  destruct (Ascii.eqb a c); [done|]. intros H. by rewrite IH.
Qed.

Lemma split_join c parts :
  parts ≠ [] → Forall (fun p => has_byte c p = false) parts →
  split_on c (join_with c parts) = parts.
Proof.
  intros Hne H. induction H as [|p ps Hp Hps IH]; [done|].
  destruct ps as [|q ps]; [by apply split_on_single|].
  change (join_with c (p :: q :: ps)) with (p +:+ String c (join_with c (q :: ps))).
  rewrite split_on_no_byte by done. f_equal. by apply IH.
Qed.

Lemma split_on_parts c s : Forall (fun p => has_byte c p = false) (split_on c s).
Proof.
  induction s as [|a s IH]; simpl; [by repeat constructor|].
  destruct (Ascii.eqb a c) eqn:E; [by constructor|].
  destruct (split_on c s); inversion IH; subst; constructor; simpl; try done; by rewrite E.
Qed.

(** ** Case mapping *)

Definition is_upper := in_byte_range "A"%char "Z"%char.
Definition is_lower := in_byte_range "a"%char "z"%char.
Definition is_digit := in_byte_range "0"%char "9"%char.
Definition is_ascii_byte (c : ascii) : bool := (N_of_ascii c <? 128)%N.

Definition lower_byte (c : ascii) : ascii :=
  if is_upper c then ascii_of_N (N_of_ascii c + 32) else c.
Definition upper_byte (c : ascii) : ascii :=
  if is_lower c then ascii_of_N (N_of_ascii c - 32) else c.

(** The Unicode tables of the Go runtime, used for strings with a non-ASCII byte. *)
Class CaseTables := {
  unicode_lower : string → string;
  unicode_upper : string → string;
  unicode_fold : string → string → bool;
}.

Definition ToLower `{CaseTables} (s : string) : string :=
  if forall_bytes is_ascii_byte s then map_bytes lower_byte s else unicode_lower s.
Definition ToUpper `{CaseTables} (s : string) : string :=
  if forall_bytes is_ascii_byte s then map_bytes upper_byte s else unicode_upper s.
Definition EqualFold `{CaseTables} (a b : string) : bool :=
  if forall_bytes is_ascii_byte a && forall_bytes is_ascii_byte b
  then String.eqb (map_bytes lower_byte a) (map_bytes lower_byte b)
  else unicode_fold a b.

(** A concrete instance for the examples: non-ASCII input is left alone. *)
Definition ascii_tables : CaseTables :=
  {| unicode_lower s := s; unicode_upper s := s; unicode_fold a b := String.eqb a b |}.

(** Decide a property of bytes by running it on all 256 of them. *)
Lemma ascii_forall (f : ascii → bool) :
  forallb f (ascii_of_nat <$> seq 0 256) = true → ∀ c, f c = true.
Proof.
  intros H c. rewrite forallb_forall in H. apply H. apply list_elem_of_In.
  apply list_elem_of_fmap. exists (nat_of_ascii c). split; [by rewrite ascii_nat_embedding|].
  apply elem_of_seq. pose proof (nat_ascii_bounded c). lia.
Qed.

Lemma lower_byte_idemp c : lower_byte (lower_byte c) = lower_byte c.
Proof.
  apply Ascii.eqb_eq. revert c.
  apply (ascii_forall (fun c => Ascii.eqb (lower_byte (lower_byte c)) (lower_byte c))). by vm_compute.
Qed.

Lemma lower_byte_ascii c : is_ascii_byte c = true → is_ascii_byte (lower_byte c) = true.
Proof.
  intros H. pose proof (ascii_forall (fun c => negb (is_ascii_byte c) || is_ascii_byte (lower_byte c))
    ltac:(by vm_compute) c) as E. cbv beta in E. by rewrite H in E.
Qed.

Lemma map_lower_idemp s : map_bytes lower_byte (map_bytes lower_byte s) = map_bytes lower_byte s.
Proof. induction s; simpl; [done|]. rewrite lower_byte_idemp. congruence. Qed.

Lemma map_lower_ascii s :
  forall_bytes is_ascii_byte s = true → forall_bytes is_ascii_byte (map_bytes lower_byte s) = true.
Proof.
  induction s; simpl; [done|]. intros [??]%andb_true_iff. rewrite lower_byte_ascii by done. auto.
Qed.

Lemma ToLower_ascii `{CaseTables} s :
  forall_bytes is_ascii_byte s = true → ToLower s = map_bytes lower_byte s.
Proof. intros E. unfold ToLower. by rewrite E. Qed.

Lemma ToLower_idemp `{CaseTables} s :
  forall_bytes is_ascii_byte s = true → ToLower (ToLower s) = ToLower s.
Proof.
  intros H1. rewrite (ToLower_ascii s), ToLower_ascii; auto using map_lower_ascii, map_lower_idemp.
Qed.

(** ** [strconv] *)

(** [strconv.FormatInt(z, 10)] and [strconv.Itoa] *)
Definition Itoa (z : Z) : string := NilZero.string_of_int (Z.to_int z).

(** The digits of a non-empty decimal numeral. *)
Definition parse_digits (s : string) : option Z :=
  match NilZero.uint_of_string s with
  | Some u => Some (Z.of_uint u)
  | None => None
  end.

Definition in_int64b (z : Z) : bool := (int64_min <=? z) && (z <=? int64_max).

(** [strconv.Atoi] and [strconv.ParseInt(s, 10, 64)]: an optional sign, at least
    one digit, and the range check. *)
Definition ParseInt (s : string) : option Z :=
  let value :=
    match s with
    | String "+"%char d => parse_digits d
    | String "-"%char d => Z.opp <$> parse_digits d
    | _ => parse_digits s
    end in
  match value with
  | Some z => if in_int64b z then Some z else None
  | None => None
  end.

Lemma parse_digits_format u :
  u ≠ Decimal.Nil → parse_digits (NilZero.string_of_uint u) = Some (Z.of_uint u).
Proof. intros H. unfold parse_digits. by rewrite NilZero.usu. Qed.

Lemma string_of_uint_head u :
  ∃ c s, NilZero.string_of_uint u = String c s ∧ c ≠ "+"%char ∧ c ≠ "-"%char.
Proof. destruct u; simpl; eexists _, _; (split; [reflexivity|done]). Qed.

Lemma parse_unsigned s c s' :
  s = String c s' → c ≠ "+"%char → c ≠ "-"%char →
  ParseInt s = match parse_digits s with
               | Some z => if in_int64b z then Some z else None | None => None end.
Proof.
  intros -> Hp Hm. unfold ParseInt.
  destruct c as [[] [] [] [] [] [] [] []]; try reflexivity; by exfalso.
Qed.

Lemma ParseInt_Itoa z : in_int64 z → ParseInt (Itoa z) = Some z.
Proof.
  intros Hz. assert (Hb : in_int64b z = true).
  { unfold in_int64b, in_int64 in *. apply andb_true_iff. split; apply Z.leb_le; lia. }
  pose proof (DecimalZ.of_to z) as Hof. unfold Itoa.
  assert (Hn : ∀ u, Z.to_int z = Decimal.Pos u ∨ Z.to_int z = Decimal.Neg u → u ≠ Decimal.Nil).
  { intros u Hu. destruct z as [|p|p]; simpl in Hu; destruct Hu as [[= <-]|[= <-]]; try done;
      apply DecimalPos.Unsigned.to_uint_nonnil. }
  destruct (Z.to_int z) as [u|u] eqn:E; simpl in Hof |- *.
  - destruct (string_of_uint_head u) as (c & s & Hs & ? & ?).
    rewrite (parse_unsigned _ c s Hs) by done.
    rewrite parse_digits_format by eauto. unfold Z.of_int in Hof. by rewrite Hof, Hb.
  - change (match (Z.opp <$> parse_digits (NilZero.string_of_uint u)) with
            | Some z => if in_int64b z then Some z else None | None => None end = Some z).
    rewrite parse_digits_format by eauto. simpl. unfold Z.of_int in Hof. by rewrite Hof, Hb.
Qed.

Lemma string_app_inj_l a b c : a +:+ b = a +:+ c → b = c.
Proof. induction a as [|x a IH]; simpl; [done|]. intros [= E]. auto. Qed.

Lemma string_app_inj_r a b c : a +:+ c = b +:+ c → a = b.
Proof.
  intros E. apply (f_equal list_ascii_of_string) in E. rewrite !to_bytes_app in E.
  apply app_inv_tail in E. by rewrite <- (string_of_list_ascii_of_string a), E, string_of_list_ascii_of_string.
Qed.

Lemma Itoa_inj n m : in_int64 n → in_int64 m → Itoa n = Itoa m → n = m.
Proof. intros Hn Hm E. apply ParseInt_Itoa in Hn, Hm. rewrite E in Hn. congruence. Qed.

(** ** [net.SplitHostPort] and [net.JoinHostPort] *)

Fixpoint index_byte (c : ascii) (l : bytes) : option nat :=
  match l with
  | [] => None
  | a :: l' => if Ascii.eqb a c then Some O else S <$> index_byte c l'
  end.

Fixpoint last_index_byte (c : ascii) (l : bytes) : option nat :=
  match l with
  | [] => None
  | a :: l' =>
      match last_index_byte c l' with
      | Some i => Some (S i)
      | None => if Ascii.eqb a c then Some O else None
      end
  end.

Definition byte_in (c : ascii) (l : bytes) : bool :=
  match index_byte c l with Some _ => true | None => false end.

Definition SplitHostPort (hostport : string) : option (string * string) :=
  let l := to_bytes hostport in
  match last_index_byte ":"%char l with
  | None => None
  | Some i =>
      let finish (host : bytes) (j k : nat) :=
        if byte_in "["%char (drop j l) then None
        else if byte_in "]"%char (drop k l) then None
        else Some (of_bytes host, of_bytes (drop (S i) l)) in
      match l with
      | "["%char :: _ =>
          match index_byte "]"%char l with
          | None => None
          | Some e =>
              if (S e =? length l)%nat then None
              else if (S e =? i)%nat then finish (take (e - 1) (drop 1 l)) 1%nat (S e)
              else None
          end
      | _ =>
          let host := take i l in
          if byte_in ":"%char host then None else finish host O O
      end
  end.

Definition JoinHostPort (host port : string) : string :=
  if has_byte ":"%char host then "[" +:+ host +:+ "]:" +:+ port else host +:+ ":" +:+ port.

Example SplitHostPort_v4 : SplitHostPort "10.0.0.1:9000" = Some ("10.0.0.1", "9000")%string.
Proof. by vm_compute. Qed.
Example SplitHostPort_v6 : SplitHostPort "[fe80::1]:9000" = Some ("fe80::1", "9000")%string.
Proof. by vm_compute. Qed.
Example SplitHostPort_many : SplitHostPort "fe80::1:9000" = None.
Proof. by vm_compute. Qed.
Example SplitHostPort_none : SplitHostPort "localhost" = None.
Proof. by vm_compute. Qed.
