(* ===== verification/Json.v ===== *)
(** * [encoding/json] as an interface

    [json.Marshal] followed by [json.Unmarshal] returns the value, provided its
    strings are valid UTF-8 (the encoder replaces invalid bytes).  The class
    [JSON] states this for one type; [faithful] is the side condition of the
    type.  [utf8_valid] is [utf8.ValidString]. *)
From Stdlib Require Import ZArith Lia Ascii String.
From stdpp Require Import base tactics numbers list gmap strings countable.
From S2P Require Import Prelude GoStrings.

Class JSON (A : Type) (faithful : A → Prop) := {
  Marshal : A → bytes;
  Unmarshal : bytes → option A;
  Unmarshal_Marshal a : faithful a → Unmarshal (Marshal a) = Some a;
}.
#[global] Hint Mode JSON ! - : typeclass_instances.

(** ** UTF-8 *)

Definition cont_byte : ascii → bool := in_byte_range (byte_of 128) (byte_of 191).

(** One rune: the number of bytes it takes, [None] when the bytes are not the
    shortest encoding of a code point that is no surrogate. *)
Definition utf8_rune (l : bytes) : option nat :=
  let between a b c := in_byte_range (byte_of a) (byte_of b) c in
  match l with
  | c :: _ => 
    if is_ascii_byte c then Some 1%nat
    else if between 194%nat 223%nat c then
      match l with _ :: d :: _ => if cont_byte d then Some 2%nat else None | _ => None end
    else if between 224%nat 239%nat c then
      match l with
      | _ :: d :: e :: _ =>
          let lo := if Ascii.eqb c (byte_of 224) then 160%nat else 128%nat in
          let hi := if Ascii.eqb c (byte_of 237) then 159%nat else 191%nat in
          if between lo hi d && cont_byte e then Some 3%nat else None
      | _ => None
      end
    else if between 240%nat 244%nat c then
      match l with
      | _ :: d :: e :: f :: _ =>
          let lo := if Ascii.eqb c (byte_of 240) then 144%nat else 128%nat in
          let hi := if Ascii.eqb c (byte_of 244) then 143%nat else 191%nat in
          if between lo hi d && cont_byte e && cont_byte f then Some 4%nat else None
      | _ => None
      end
    else None
  | [] => None
  end.

Fixpoint utf8_valid_bytes (fuel : nat) (l : bytes) : bool :=
  match l, fuel with
  | [], _ => true
  | _, O => false
  | _, S fuel => match utf8_rune l with Some n => utf8_valid_bytes fuel (drop n l) | None => false end
  end.

(** Every rune takes a byte at least, so the length is enough fuel. *)
Definition utf8_valid (s : string) : bool := utf8_valid_bytes (String.length s) (to_bytes s).

(** ** A concrete codec for the examples *)

Fixpoint pos_bits (p : positive) : bytes :=
  match p with xH => [] | xO p => "0"%char :: pos_bits p | xI p => "1"%char :: pos_bits p end.
Fixpoint bits_pos (l : bytes) : option positive :=
  match l with
  | [] => Some xH
  | c :: l =>
      p ← bits_pos l;
      if Ascii.eqb c "0" then Some (xO p) else if Ascii.eqb c "1" then Some (xI p) else None
  end.

Lemma bits_pos_bits p : bits_pos (pos_bits p) = Some p.
Proof. induction p as [p IH|p IH|]; simpl; rewrite ?IH; done. Qed.

Lemma countable_json_law `{Countable A} (a : A) :
  (bits_pos (pos_bits (encode a)) ≫= decode) = Some a.
Proof. rewrite bits_pos_bits. simpl. apply decode_encode. Qed.

(** Fields one after another: a data byte is escaped by ['x'], a field ends in
    ["||"]. *)
Fixpoint enc_field (f : bytes) : bytes :=
  match f with [] => ["|"; "|"]%char | c :: f => "x"%char :: c :: enc_field f end.
Definition enc_fields (fs : list bytes) : bytes := concat (enc_field <$> fs).

Fixpoint dec_fields (cur : bytes) (l : bytes) : list bytes :=
  match l with
  | c :: d :: l => if Ascii.eqb c "x" then dec_fields (cur ++ [d]) l else cur :: dec_fields [] l
  | _ => []
  end.

Lemma dec_enc_fields fs : dec_fields [] (enc_fields fs) = fs.
Proof.
  unfold enc_fields. induction fs as [|f fs IH]; [done|]. cbn [fmap list_fmap concat].
  assert (Hf : ∀ cur rest, dec_fields cur (enc_field f ++ rest) = (cur ++ f) :: dec_fields [] rest).
  { clear IH. induction f as [|c f IH]; intros cur rest; cbn [enc_field app dec_fields].
    - by rewrite app_nil_r.
    - cbn. rewrite IH. by rewrite <- (assoc_L (++)). }
  rewrite Hf, IH. done.
Qed.

Definition num_field (z : Z) : bytes := pos_bits (encode z).
Definition field_num (f : bytes) : option Z := bits_pos f ≫= decode.
Definition bool_field (b : bool) : bytes := if b then ["1"%char] else [].
Definition field_bool (f : bytes) : bool := match f with [] => false | _ => true end.

Lemma field_num_field z : field_num (num_field z) = Some z.
Proof. apply countable_json_law. Qed.
Lemma field_bool_field b : field_bool (bool_field b) = b.
Proof. by destruct b. Qed.

(** A record that goes to fields and back. *)
Section fields.
Context {A : Type} (faithful : A → Prop) (to_fields : A → list bytes) (of_fields : list bytes → option A).
Hypothesis fields_law : ∀ a, of_fields (to_fields a) = Some a.

Lemma fields_json_law a : faithful a → of_fields (dec_fields [] (enc_fields (to_fields a))) = Some a.
Proof using fields_law. intros _. rewrite dec_enc_fields. apply fields_law. Qed.

Definition fields_json : JSON A faithful := {|
  Marshal a := enc_fields (to_fields a);
  Unmarshal l := of_fields (dec_fields [] l);
  Unmarshal_Marshal := fields_json_law;
|}.
End fields.

Definition countable_json (A : Type) `{Countable A} (faithful : A → Prop) : JSON A faithful := {|
  Marshal a := pos_bits (encode a);
  Unmarshal l := bits_pos l ≫= decode;
  Unmarshal_Marshal a _ := countable_json_law a;
|}.

(** ** Fields of nested records

    A value is a run of fields that its reader takes off the front: a single
    field, one value after another, a list behind its length, a map as the list
    of its entries. *)

Definition field_reader (A : Type) : Type := list bytes → option (A * list bytes).
Definition reads_back {A} (f : A → list bytes) (r : field_reader A) : Prop := ∀ a rest, r (f a ++ rest) = Some (a, rest).

Definition leaf_fields `{Countable A} (a : A) : list bytes := [pos_bits (encode a)].
Definition read_leaf `{Countable A} : field_reader A :=
  fun l => match l with f :: l => a ← bits_pos f ≫= decode; Some (a, l) | [] => None end.
Definition pair_fields {A B} (f : A → list bytes) (g : B → list bytes) (ab : A * B) : list bytes := f ab.1 ++ g ab.2.
Definition read_pair {A B} (r : field_reader A) (s : field_reader B) : field_reader (A * B) :=
  fun l => '(a, l) ← r l; '(b, l) ← s l; Some ((a, b), l).
Definition list_fields {A} (f : A → list bytes) (l : list A) : list bytes := num_field (Z.of_nat (length l)) :: concat (f <$> l).
Fixpoint read_many {A} (r : field_reader A) (n : nat) : field_reader (list A) :=
  fun l => match n with O => Some ([], l) | S n => '(a, l) ← r l; '(rest, l) ← read_many r n l; Some (a :: rest, l) end.
Definition read_list {A} (r : field_reader A) : field_reader (list A) :=
  fun l => match l with f :: l => n ← field_num f; read_many r (Z.to_nat n) l | [] => None end.
Definition map_fields `{Countable K} {A} (f : A → list bytes) (m : gmap K A) : list bytes := list_fields (pair_fields leaf_fields f) (map_to_list m).
Definition read_map `{Countable K} {A} (r : field_reader A) : field_reader (gmap K A) :=
  fun l => '(kvs, l) ← read_list (read_pair read_leaf r) l; Some (list_to_map kvs, l).
Definition read_as {A B} (g : A → B) (r : field_reader A) : field_reader B := fun l => '(a, l) ← r l; Some (g a, l).

Lemma read_leaf_law `{Countable A} : reads_back (A := A) leaf_fields read_leaf.
Proof. intros a rest. cbn. by rewrite countable_json_law. Qed.
Lemma read_pair_law {A B} f (r : field_reader A) g (s : field_reader B) : reads_back f r → reads_back g s → reads_back (pair_fields f g) (read_pair r s).
Proof. intros Hr Hs [a b] rest. unfold pair_fields, read_pair. cbn [fst snd]. rewrite <- (assoc_L (++)), Hr. cbn. by rewrite Hs. Qed.
Lemma read_list_law {A} f (r : field_reader A) : reads_back f r → reads_back (list_fields f) (read_list r).
Proof.
  intros Hr l rest. unfold list_fields, read_list. cbn [app]. rewrite field_num_field. cbn [mbind option_bind]. rewrite Nat2Z.id.
  induction l as [|a l IH]; [done|]. cbn [length read_many fmap list_fmap concat]. rewrite <- (assoc_L (++)), Hr. cbn [mbind option_bind]. by rewrite IH.
Qed.
Lemma read_map_law `{Countable K} {A} f (r : field_reader A) : reads_back f r → reads_back (map_fields (K := K) f) (read_map r).
Proof.
  intros Hr m rest. unfold map_fields, read_map. rewrite (read_list_law _ _ (read_pair_law _ _ _ _ read_leaf_law Hr)).
  cbn. by rewrite list_to_map_to_list.
Qed.
Lemma read_as_law {A B} f (r : field_reader A) (g : A → B) (h : B → A) : reads_back f r → (∀ b, g (h b) = b) → reads_back (f ∘ h) (read_as g r).
Proof. intros Hr Hg b rest. unfold read_as. cbn. rewrite Hr. cbn. by rewrite Hg. Qed.

Section nested.
Context {A : Type} (faithful : A → Prop) (f : A → list bytes) (r : field_reader A).
Hypothesis reads : reads_back f r.

Lemma nested_json_law a : faithful a → fst <$> r (dec_fields [] (enc_fields (f a))) = Some a.
Proof using reads. intros _. rewrite dec_enc_fields, <- (app_nil_r (f a)), reads. done. Qed.

Definition nested_json : JSON A faithful := {|
  Marshal a := enc_fields (f a);
  Unmarshal l := fst <$> r (dec_fields [] l);
  Unmarshal_Marshal := nested_json_law;
|}.
End nested.
