(* ===== verification/Base64.v ===== *)
(** * [encoding/base64]: the standard encoding

    [EncodeToString] and [DecodeString] of [base64.StdEncoding], as the chunk
    and envelope bodies use them: groups of three bytes, [=] padding, CR and LF
    ignored by the decoder, trailing bits not checked. *)
From Stdlib Require Import ZArith Lia Ascii String.
From stdpp Require Import base tactics numbers list strings.
From S2P Require Import Prelude GoStrings Json.

Definition base64_alphabet : bytes :=
  to_bytes "ABCDEFGHIJKLMNOPQRSTUVWXYZabcdefghijklmnopqrstuvwxyz0123456789+/".

Definition base64_char (d : N) : ascii := nth (N.to_nat d) base64_alphabet "="%char.

Fixpoint index_in (c : ascii) (l : bytes) (i : N) : option N :=
  match l with
  | [] => None
  | a :: l => if Ascii.eqb a c then Some i else index_in c l (N.succ i)
  end.
Definition base64_digit (c : ascii) : option N := index_in c base64_alphabet 0.

Definition byte_N (n : N) : ascii := ascii_of_N (n mod 256).

Fixpoint base64_encode (l : bytes) : bytes :=
  match l with
  | [] => []
  | [a] =>
      let a := N_of_ascii a in
      [base64_char (a / 4); base64_char (a mod 4 * 16); "="; "="]%char
  | [a; b] =>
      let a := N_of_ascii a in let b := N_of_ascii b in
      [base64_char (a / 4); base64_char (a mod 4 * 16 + b / 16); base64_char (b mod 16 * 4); "="]%char
  | a :: b :: c :: l =>
      let a := N_of_ascii a in let b := N_of_ascii b in let c := N_of_ascii c in
      base64_char (a / 4) :: base64_char (a mod 4 * 16 + b / 16) ::
      base64_char (b mod 16 * 4 + c / 64) :: base64_char (c mod 64) :: base64_encode l
  end.

Fixpoint base64_decode (l : bytes) : option bytes :=
  match l with
  | [] => Some []
  | w :: x :: y :: z :: l =>
      w ← base64_digit w; x ← base64_digit x;
      if Ascii.eqb y "=" && Ascii.eqb z "=" && bool_decide (l = []) then
        Some [byte_N (w * 4 + x / 16)]
      else
        y ← base64_digit y;
        if Ascii.eqb z "=" && bool_decide (l = []) then
          Some [byte_N (w * 4 + x / 16); byte_N (x mod 16 * 16 + y / 4)]
        else
          z ← base64_digit z;
          rest ← base64_decode l;
          Some (byte_N (w * 4 + x / 16) :: byte_N (x mod 16 * 16 + y / 4) :: byte_N (y mod 4 * 64 + z) :: rest)
  | _ => None
  end.

Definition EncodeToString (data : bytes) : string := of_bytes (base64_encode data).
Definition line_break (c : ascii) : bool := Ascii.eqb c (byte_of 10) || Ascii.eqb c (byte_of 13).
Definition DecodeString (s : string) : option bytes :=
  base64_decode (List.filter (fun c => negb (line_break c)) (to_bytes s)).

(** ** Round trip *)

Lemma digit_char_run :
  forallb (fun n => match base64_digit (base64_char (N.of_nat n)) with Some d => (d =? N.of_nat n)%N | None => false end &&
                    negb (Ascii.eqb (base64_char (N.of_nat n)) "=") && negb (line_break (base64_char (N.of_nat n))))
    (seq 0 64) = true.
Proof. vm_compute. reflexivity. Qed.

Lemma digit_char d :
  (d < 64)%N → base64_digit (base64_char d) = Some d ∧ Ascii.eqb (base64_char d) "=" = false ∧
               line_break (base64_char d) = false.
Proof.
  intros Hd. pose proof digit_char_run as Hr. rewrite forallb_forall in Hr.
  specialize (Hr (N.to_nat d)). rewrite N2Nat.id in Hr.
  specialize (Hr ltac:(apply in_seq; lia)). bool_prop.
  destruct (base64_digit (base64_char d)) as [d'|]; [|done].
  match goal with Hx : (d' =? d)%N = true |- _ => apply N.eqb_eq in Hx as -> end. by split_and!.
Qed.

Lemma N_ascii_lt c : (N_of_ascii c < 256)%N.
Proof. apply N_ascii_bounded. Qed.

Lemma byte_N_of c n : n = N_of_ascii c → byte_N n = c.
Proof.
  intros ->. unfold byte_N. rewrite N.mod_small by apply N_ascii_lt. apply ascii_N_embedding.
Qed.

Ltac digit_bound :=
  match goal with
  | |- (_ < 64)%N =>
      repeat match goal with c : ascii |- _ =>
        let H := fresh in pose proof (N_ascii_lt c) as H; generalize dependent (N_of_ascii c); clear c; intros end;
      zify; Z.to_euclidean_division_equations; lia
  end.

Ltac byte_eq c :=
  apply (byte_N_of c);
  repeat match goal with a : ascii |- _ =>
    let H := fresh in pose proof (N_ascii_lt a) as H; generalize dependent (N_of_ascii a); clear a; intros end;
  zify; Z.to_euclidean_division_equations; lia.

(** Induction by groups of three. *)
Lemma triple_ind {A} (P : list A → Prop) :
  P [] → (∀ a, P [a]) → (∀ a b, P [a; b]) → (∀ a b c l, P l → P (a :: b :: c :: l)) → ∀ l, P l.
Proof.
  intros H0 H1 H2 H3. fix IH 1. intros [|a [|b [|c l]]]; [exact H0|apply H1|apply H2|apply H3, IH].
Qed.

Lemma base64_no_break l : List.filter (fun c => negb (line_break c)) (base64_encode l) = base64_encode l.
Proof.
  induction l as [|a|a b|a b c l IH] using triple_ind; [done|..]; cbn [base64_encode List.filter].
  1,2,3: repeat match goal with |- context [line_break (base64_char ?d)] =>
      destruct (digit_char d) as (_ & _ & ->); [digit_bound|] end; cbn [negb]; try done.
  by rewrite IH.
Qed.

Lemma base64_roundtrip l : base64_decode (base64_encode l) = Some l.
Proof.
  induction l as [|a|a b|a b c l IH] using triple_ind; [done|..]; cbn [base64_encode base64_decode];
  repeat match goal with |- context [base64_digit (base64_char ?d)] =>
    let H1 := fresh in let H2 := fresh in
    destruct (digit_char d) as (H1 & H2 & _); [digit_bound|]; rewrite H1, ?H2 end;
  cbn [mbind option_bind andb]; rewrite ?andb_false_r; cbn [andb].
  - do 2 f_equal. byte_eq a.
  - rewrite (bool_decide_eq_true_2 ([] = [])) by done. cbn. f_equal. f_equal; [byte_eq a|].
    f_equal. byte_eq b.
  - rewrite IH. cbn. f_equal. f_equal; [byte_eq a|]. f_equal; [byte_eq b|]. f_equal. byte_eq c.
Qed.

Lemma DecodeString_EncodeToString data : DecodeString (EncodeToString data) = Some data.
Proof.
  unfold DecodeString, EncodeToString. rewrite list_ascii_of_string_of_list_ascii, base64_no_break.
  apply base64_roundtrip.
Qed.

(** ** The encoding is ASCII, so it is valid UTF-8 *)

Lemma ascii_utf8 n l :
  (length l ≤ n)%nat → Forall (fun c => is_ascii_byte c = true) l → utf8_valid_bytes n l = true.
Proof.
  revert l. induction n as [|n IH]; intros [|c l] Hn Hl; simpl in Hn; try lia; [done|done|].
  inversion Hl as [|? ? Hc Hl']; subst. cbn [utf8_valid_bytes utf8_rune]. rewrite Hc. change (drop 1 (c :: l)) with l.
  apply IH; [lia|done].
Qed.

Lemma base64_char_ascii d : is_ascii_byte (base64_char d) = true.
Proof.
  unfold base64_char. destruct (nth_in_or_default (N.to_nat d) base64_alphabet "="%char) as [Hin| ->]; [|done].
  assert (Hall : forallb is_ascii_byte base64_alphabet = true) by by vm_compute.
  rewrite forallb_forall in Hall. by apply Hall.
Qed.

Lemma base64_encode_ascii l : Forall (fun c => is_ascii_byte c = true) (base64_encode l).
Proof.
  induction l as [|a|a b|a b c l IH] using triple_ind; cbn [base64_encode];
    repeat (apply List.Forall_cons; [first [apply base64_char_ascii|done]|]); first [done|constructor].
Qed.

Lemma base64_utf8 data : utf8_valid (EncodeToString data) = true.
Proof.
  unfold utf8_valid, EncodeToString. rewrite list_ascii_of_string_of_list_ascii.
  apply ascii_utf8; [|apply base64_encode_ascii]. by rewrite <- length_to_bytes, list_ascii_of_string_of_list_ascii.
Qed.
