(* ===== verification/GoPath.v ===== *)
(** * Go's [path/filepath] on a Unix system

    Lexical path operations: [Clean], [Join], [Dir], [Ext], [IsAbs] and [Rel].
    A path is a string; [path_comps] is the component list of its cleaned form,
    the view the containment theorems use. *)
From Stdlib Require Import ZArith Lia Ascii String.
From stdpp Require Import base tactics numbers list gmap strings.
From S2P Require Import Prelude GoStrings.

Definition slash : ascii := "/"%char.

Definition IsAbs (p : string) : bool := has_prefix p "/".

(** One component against the stack of kept components (top first). *)
Definition clean_step (rooted : bool) (stack : list string) (part : string) : list string :=
  if String.eqb part "" || String.eqb part "." then stack
  else if String.eqb part ".." then
    match stack with
    | top :: rest => if String.eqb top ".." then part :: stack else rest
    | [] => if rooted then [] else [part]
    end
  else part :: stack.

Definition clean_parts (rooted : bool) (parts : list string) : list string :=
  rev (foldl (clean_step rooted) [] parts).

Definition path_comps (p : string) : list string := clean_parts (IsAbs p) (split_on slash p).

Definition render_path (rooted : bool) (parts : list string) : string :=
  let body := join_with slash parts in
  if rooted then String slash body
  else if String.eqb body "" then "."%string else body.

Definition Clean (p : string) : string := render_path (IsAbs p) (path_comps p).

(** [filepath.Join] of two elements *)
Definition Join (a b : string) : string :=
  if negb (String.eqb a "") then Clean (a +:+ String slash b)
  else if negb (String.eqb b "") then Clean b
  else ""%string.

(** [path[:i+1]] for the last slash [i], cleaned *)
Definition Dir (p : string) : string :=
  let l := to_bytes p in
  match last_index_byte slash l with
  | Some i => Clean (of_bytes (take (S i) l))
  | None => Clean ""
  end.

(** The suffix from the last dot of the last element, or the empty string. *)
Definition Ext (p : string) : string :=
  let l := to_bytes p in
  let last := match last_index_byte slash l with Some i => drop (S i) l | None => l end in
  match last_index_byte "."%char last with
  | Some i => of_bytes (drop i last)
  | None => ""%string
  end.

Fixpoint strip_common (base targ : list string) : list string * list string :=
  match base, targ with
  | b :: base', t :: targ' =>
      if String.eqb b t then strip_common base' targ' else (base, targ)
  | _, _ => (base, targ)
  end.

(** [filepath.Rel]: [None] is its error. *)
Definition Rel (basepath targpath : string) : option string :=
  let base := Clean basepath in
  let targ := Clean targpath in
  if String.eqb targ base then Some "."%string
  else if negb (Bool.eqb (IsAbs base) (IsAbs targ)) then None
  else
    let '(b, t) := strip_common (path_comps base) (path_comps targ) in
    match b with
    | ".."%string :: _ => None
    | _ => Some (join_with slash (((fun _ => ".."%string) <$> b) ++ t))
    end.

(** ** Safe components *)

(** A component a received name may contain. *)
Definition safe_part (p : string) : bool :=
  negb (String.eqb p "") && negb (String.eqb p ".") && negb (String.eqb p "..").

Lemma clean_step_safe rooted stack p :
  safe_part p = true → clean_step rooted stack p = p :: stack.
Proof.
  unfold safe_part, clean_step. rewrite !andb_true_iff, !negb_true_iff.
  by intros [[-> ->] ->].
Qed.

Lemma foldl_clean_safe rooted stack parts :
  Forall (fun p => safe_part p = true) parts →
  foldl (clean_step rooted) stack parts = rev parts ++ stack.
Proof.
  intros H. revert stack. induction H as [|p ps Hp Hps IH]; intros stack; simpl; [done|].
  rewrite clean_step_safe, IH by done. by rewrite <- (assoc_L (++)).
Qed.

Lemma clean_parts_app_safe rooted base parts :
  Forall (fun p => safe_part p = true) parts →
  clean_parts rooted (base ++ parts) = clean_parts rooted base ++ parts.
Proof.
  intros H. unfold clean_parts. rewrite foldl_app, foldl_clean_safe by done.
  by rewrite rev_app_distr, rev_involutive.
Qed.

Lemma clean_parts_safe rooted parts :
  Forall (fun p => safe_part p = true) parts → clean_parts rooted parts = parts.
Proof. intros. by rewrite <- (app_nil_l parts), clean_parts_app_safe. Qed.

(** What cleaning keeps: no empty and no dot component, and every [..] is a
    leading one of a relative path. *)
Lemma clean_parts_kept rooted parts p :
  p ∈ clean_parts rooted parts → p ≠ ""%string ∧ p ≠ "."%string.
Proof.
  unfold clean_parts. rewrite list_elem_of_In, <- in_rev, <- list_elem_of_In.
  assert (∀ stack, Forall (fun p => p ≠ "" ∧ p ≠ ".")%string stack →
          Forall (fun p => p ≠ "" ∧ p ≠ ".")%string (foldl (clean_step rooted) stack parts)) as H.
  { induction parts as [|q qs IH]; intros stack Hs; simpl; [done|]. apply IH.
    unfold clean_step. destruct (String.eqb_spec q ""), (String.eqb_spec q "."); simpl; try done.
    destruct (String.eqb_spec q "..").
    - destruct stack as [|t rest]; [destruct rooted; repeat constructor; congruence|].
      destruct (String.eqb t ".."); [by constructor|by inversion Hs].
    - by constructor. }
  specialize (H [] ltac:(constructor)). rewrite Forall_forall in H. apply H.
Qed.

(** ** Components of a joined path *)

Lemma split_on_app_sep c a b : split_on c (a +:+ String c b) = split_on c a ++ split_on c b.
Proof.
  induction a as [|x a IH]; simpl; [by rewrite Ascii.eqb_refl|].
  destruct (Ascii.eqb x c); [by rewrite IH|].
  rewrite IH. by destruct (split_on_cons c a) as (p & ps & ->).
Qed.

Lemma IsAbs_cons c s : IsAbs (String c s) = Ascii.eqb slash c.
Proof. unfold IsAbs, has_prefix, slash. cbn [list_ascii_of_string strip_prefix]. by destruct (Ascii.eqb "/"%char c). Qed.

Lemma IsAbs_app a b : a ≠ ""%string → IsAbs (a +:+ b) = IsAbs a.
Proof. destruct a as [|c a]; [done|]. intros _. change (String c a +:+ b) with (String c (a +:+ b)). by rewrite !IsAbs_cons. Qed.

Lemma split_slash_join (parts : list string) :
  Forall (fun p => has_byte slash p = false) parts → parts ≠ [] →
  split_on slash (join_with slash parts) = parts.
Proof. intros. by apply split_join. Qed.

Lemma IsAbs_false_head p : has_byte slash p = false → IsAbs p = false.
Proof.
  destruct p as [|c p]; [done|]. rewrite IsAbs_cons. cbn [has_byte]. rewrite Ascii.eqb_sym.
  by destruct (Ascii.eqb slash c).
Qed.

Lemma join_with_head_abs parts :
  Forall (fun p => has_byte slash p = false ∧ p ≠ ""%string) parts →
  IsAbs (join_with slash parts) = false.
Proof.
  intros H. destruct H as [|p ps [Hp Hne] _]; [done|].
  destruct ps; simpl; [by apply IsAbs_false_head|].
  rewrite IsAbs_app by done. by apply IsAbs_false_head.
Qed.

Lemma join_with_nonempty c p ps : p ≠ ""%string → join_with c (p :: ps) ≠ ""%string.
Proof. destruct ps, p; simpl; done. Qed.

(** Rendering a component list and cutting it again gives it back. *)
Lemma render_comps rooted parts :
  Forall (fun p => has_byte slash p = false) parts →
  Forall (fun p => safe_part p = true) parts → parts ≠ [] →
  path_comps (render_path rooted parts) = parts ∧
  IsAbs (render_path rooted parts) = rooted.
Proof.
  intros Hs Hsafe Hne. unfold render_path. destruct rooted.
  - split; [|done]. unfold path_comps. simpl. change (IsAbs (String slash (join_with slash parts))) with true.
    rewrite split_slash_join by done.
    change (""%string :: parts) with ([""%string] ++ parts). by rewrite clean_parts_app_safe.
  - destruct parts as [|p ps]; [done|].
    assert (p ≠ ""%string) as Hp.
    { intros ->. by inversion Hsafe. }
    destruct (String.eqb_spec (join_with slash (p :: ps)) "") as [E|_].
    { by apply join_with_nonempty in E. }
    assert (Habs : IsAbs (join_with slash (p :: ps)) = false).
    { apply join_with_head_abs. apply Forall_and. split; [done|].
      eapply Forall_impl; [exact Hsafe|]. by intros q Hq ->. }
    split; [|done]. unfold path_comps. rewrite Habs, split_slash_join by done.
    by apply clean_parts_safe.
Qed.
