(* ===== verification/Protocol.v ===== *)
(** * The transfer protocol's data ([internal/protocol/protocol.go])

    The manifest a sender offers, the resume entries a receiver answers with
    and the messages both exchange.  [int], [int64] and [uint32] fields are
    [Z]; an optional pointer is an [option]; a JSON raw message is its text. *)
From Stdlib Require Import ZArith Ascii String.
From stdpp Require Import base tactics numbers list gmap strings.
From S2P Require Import Prelude.

Definition Version : Z := 1.
Definition ChunkSize : Z := 64 * 1024.

(** [ItemKind] is a string type: a peer can send a value that is none of the
    four constants. *)
Abbreviation ItemKind := string.
Definition ItemFile : ItemKind := "file"%string.
Definition ItemText : ItemKind := "text"%string.
Definition ItemDirectory : ItemKind := "directory"%string.
Definition ItemSymlink : ItemKind := "symlink"%string.

Record Item := MkItem {
  Kind : ItemKind;
  Name : string;
  Size : Z;
  MTime : Z;
  Mode : Z;
  SHA256 : string;
  SampleSHA256 : string;
  Target : string;
  ItemChunkSize : Z;
  ResumeSupported : bool;
}.

Record StreamBinding := MkStreamBinding { ID : Z; BindItem : Z }.

Record Manifest := MkManifest {
  MVersion : Z;
  Items : list Item;
  Streams : list StreamBinding;
}.

Record ResumeEntry := MkResumeEntry {
  REItem : Z;
  REStream : option Z;
  REOffset : Z;
  REPrefixSHA256 : string;
  RESHA256 : string;
  RESkip : bool;
  REComplete : bool;
}.

Record Message := MkMessage {
  MType : string;
  MsgVersion : Z;
  MManifest : option Manifest;
  MResume : list ResumeEntry;
  MItem : Z;
  MStream : option Z;
  MOffset : Z;
  MData : string;
  MEncoding : string;
  MError : string;
  MAt : Z;
  MExtra : string;
}.

Definition NewManifest (items : list Item) : Manifest :=
  {| MVersion := Version; Items := items; Streams := [] |}.

(** The zero values of Go's composite literals. *)
Definition zero_item : Item := MkItem "" "" 0 0 0 "" "" "" 0 false.
Definition zero_entry : ResumeEntry := MkResumeEntry 0 None 0 "" "" false false.
Definition msg (ty : string) : Message :=
  MkMessage ty 0 None [] 0 None 0 "" "" "" 0 "".

#[export] Instance Item_eq_dec : EqDecision Item.
Proof. solve_decision. Defined.
#[export] Instance StreamBinding_eq_dec : EqDecision StreamBinding.
Proof. solve_decision. Defined.
#[export] Instance Manifest_eq_dec : EqDecision Manifest.
Proof. solve_decision. Defined.
#[export] Instance ResumeEntry_eq_dec : EqDecision ResumeEntry.
Proof. solve_decision. Defined.
#[export] Instance Message_eq_dec : EqDecision Message.
Proof. solve_decision. Defined.

(** Slice access [s[i]] with an [int] index; the callers guard the bounds. *)
Definition zlookup {A} (l : list A) (i : Z) : option A :=
  if i <? 0 then None else l !! Z.to_nat i.

Definition zlen {A} (l : list A) : Z := Z.of_nat (length l).

Lemma zlookup_Some {A} (l : list A) i x :
  zlookup l i = Some x → 0 ≤ i < zlen l.
Proof.
  unfold zlookup, zlen. case_if; [done|]. intros H%lookup_lt_Some. bool_prop. lia.
Qed.

Lemma zlookup_is_Some {A} (l : list A) i : is_Some (zlookup l i) ↔ 0 ≤ i < zlen l.
Proof.
  split; [intros [x Hx]; by eapply zlookup_Some|].
  intros H. unfold zlookup, zlen in *. case_if; bool_prop; [lia|].
  apply lookup_lt_is_Some. lia.
Qed.

Lemma zlookup_of_nat {A} (l : list A) (n : nat) : zlookup l (Z.of_nat n) = l !! n.
Proof. unfold zlookup. case_if; bool_prop; [lia|]. by rewrite Nat2Z.id. Qed.
