(* ===== verification/Ranges.v ===== *)
(** * Received byte ranges ([internal/transfer/ranges.go])

    [byteRanges] records which half-open intervals of a file have arrived.
    Chunks of one file may arrive out of order on parallel channels, so the
    set is kept sorted, disjoint and merged; [Complete] is the test that lets
    the receiver publish a file. *)
From Stdlib Require Import ZArith Lia Ascii String.
From stdpp Require Import base tactics numbers list gmap strings sorting.
From S2P Require Import Prelude.

Record byteRange := MkRange { rstart : Z; rend : Z }.

Abbreviation byteRanges := (list byteRange).

#[export] Instance byteRange_eq_dec : EqDecision byteRange.
Proof. solve_decision. Defined.

Inductive range_error :=
  | InvalidByteRange (start stop : Z)
  | OverlappingByteRange (start stop : Z) (old : byteRange).

Definition newByteRanges (prefix : Z) : byteRanges :=
  if prefix >? 0 then [MkRange 0 prefix] else [].

(** [for insert < len(r.ranges) && r.ranges[insert].end <= start { insert++ }] *)
Fixpoint insert_pos (start : Z) (ranges : byteRanges) : nat :=
  match ranges with
  | [] => 0
  | r :: rest => if rend r <=? start then S (insert_pos start rest) else 0
  end.

(** Lines 37-41: swallow the range that ends where the new one starts. *)
Definition merge_left (i : nat) (m : byteRange) (rs : byteRanges) : nat * byteRange * byteRanges :=
  match i with
  | O => (i, m, rs)
  | S j =>
      match rs !! j with
      | Some p => if rend p =? rstart m
                  then (j, MkRange (rstart p) (rend m), remove_at j rs)
                  else (i, m, rs)
      | None => (i, m, rs)
      end
  end.

(** Lines 42-45: swallow the range that starts where the new one ends. *)
Definition merge_right (i : nat) (m : byteRange) (rs : byteRanges) : byteRange * byteRanges :=
  match rs !! i with
  | Some q => if rend m =? rstart q
              then (MkRange (rstart m) (rend q), remove_at i rs)
              else (m, rs)
  | None => (m, rs)
  end.

Definition byteRanges_Add (r : byteRanges) (start stop : Z) : result range_error byteRanges :=
  if (start <? 0) || (stop <? start) then Err (InvalidByteRange start stop)
  else if start =? stop then Ok r
  else
    let i := insert_pos start r in
    let overlap :=
      match r !! i with
      | Some q => if (rstart q <? stop) && (start <? rend q) then Some q else None
      | None => None
      end in
    match overlap with
    | Some q => Err (OverlappingByteRange start stop q)
    | None =>
        let '(i, m, rs) := merge_left i (MkRange start stop) r in
        let '(m, rs) := merge_right i m rs in
        Ok (insert_at i m rs)
    end.

(** The receiver is a pointer; a nil one has no prefix. *)
Definition byteRanges_Prefix (r : option byteRanges) : Z :=
  match r with
  | Some (x :: _) => if negb (rstart x =? 0) then 0 else rend x
  | _ => 0
  end.

Definition byteRanges_Complete (r : option byteRanges) (size : Z) : bool :=
  match r with None => false | Some _ => byteRanges_Prefix r =? size end.

(** ** The specification: a canonical set of bytes *)

Definition range_before (a b : byteRange) : Prop := rend a < rstart b.
Definition range_proper (r : byteRange) : Prop := 0 ≤ rstart r < rend r.

(** Sorted, separated by gaps, no empty and no negative range. *)
Definition ranges_wf (rs : byteRanges) : Prop := StronglySorted range_before rs ∧ Forall range_proper rs.

Definition in_range (r : byteRange) (b : Z) : Prop := rstart r ≤ b < rend r.
Definition covered (rs : byteRanges) (b : Z) : Prop := ∃ r, r ∈ rs ∧ in_range r b.

Lemma covered_app r1 r2 b : covered (r1 ++ r2) b ↔ covered r1 b ∨ covered r2 b.
Proof. unfold covered. setoid_rewrite elem_of_app. naive_solver. Qed.

Lemma covered_cons r rs b : covered (r :: rs) b ↔ in_range r b ∨ covered rs b.
Proof. unfold covered. setoid_rewrite elem_of_cons. naive_solver. Qed.

Lemma covered_nil b : covered [] b ↔ False.
Proof. unfold covered. setoid_rewrite elem_of_nil. naive_solver. Qed.

Lemma ranges_wf_app r1 r2 :
  ranges_wf (r1 ++ r2) ↔
  ranges_wf r1 ∧ ranges_wf r2 ∧ (∀ a b, a ∈ r1 → b ∈ r2 → range_before a b).
Proof. unfold ranges_wf. rewrite StronglySorted_app, Forall_app. naive_solver. Qed.

Lemma ranges_wf_cons r rs :
  ranges_wf (r :: rs) ↔ range_proper r ∧ ranges_wf rs ∧ (∀ b, b ∈ rs → range_before r b).
Proof.
  unfold ranges_wf. rewrite Forall_cons. split.
  - intros [H [??]]. apply StronglySorted_inv in H as [? Hall].
    rewrite Forall_forall in Hall. naive_solver.
  - intros (? & [??] & ?). split; [|done]. constructor; [done|]. by apply Forall_forall.
Qed.

Lemma ranges_wf_nil : ranges_wf [].
Proof. split; constructor. Qed.
#[export] Hint Resolve ranges_wf_nil : kigo.

Lemma newByteRanges_wf p : ranges_wf (newByteRanges p).
Proof.
  unfold newByteRanges. case_if; [|apply ranges_wf_nil]. bool_prop.
  apply ranges_wf_cons. split; [unfold range_proper; simpl; lia|].
  split; [apply ranges_wf_nil|]. by intros ? ?%not_elem_of_nil.
Qed.

Lemma newByteRanges_covered p b : covered (newByteRanges p) b ↔ 0 ≤ b < p.
Proof.
  unfold newByteRanges, in_range. case_if; bool_prop.
  - rewrite covered_cons, covered_nil. unfold in_range. simpl. naive_solver lia.
  - rewrite covered_nil. lia.
Qed.

(** ** The position the loop stops at, as a split of the list *)

Lemma insert_pos_split start rs :
  ∃ pre post, rs = pre ++ post ∧ insert_pos start rs = length pre ∧
    Forall (fun r => rend r ≤ start) pre ∧
    match post with [] => True | q :: _ => start < rend q end.
Proof.
  induction rs as [|r rs IH]; simpl; [by exists [], []|].
  destruct (rend r <=? start) eqn:E; bool_prop.
  - destruct IH as (pre & post & -> & -> & ? & ?).
    exists (r :: pre), post. repeat split; try done. by constructor.
  - by exists [], (r :: rs).
Qed.

Lemma lookup_length_app {A} (pre post : list A) : (pre ++ post) !! length pre = head post.
Proof. rewrite lookup_app_r, Nat.sub_diag by lia. by destruct post. Qed.

Lemma remove_at_app {A} (pre post : list A) x :
  remove_at (length pre) (pre ++ x :: post) = pre ++ post.
Proof.
  unfold remove_at. rewrite take_app_length.
  replace (S (length pre)) with (length (pre ++ [x])) by (rewrite length_app; simpl; lia).
  change (x :: post) with ([x] ++ post). by rewrite (assoc_L (++)), drop_app_length.
Qed.

Lemma insert_at_app {A} (pre post : list A) x :
  insert_at (length pre) x (pre ++ post) = pre ++ x :: post.
Proof. unfold insert_at. by rewrite take_app_length, drop_app_length. Qed.

(** The left merge on a split list. *)
Definition merge_left_split (pre : byteRanges) (m : byteRange) : byteRanges * byteRange :=
  match rev pre with
  | p :: pre' => if rend p =? rstart m then (rev pre', MkRange (rstart p) (rend m)) else (pre, m)
  | [] => (pre, m)
  end.

Lemma merge_left_app pre post m :
  merge_left (length pre) m (pre ++ post) =
  (let '(pre', m') := merge_left_split pre m in (length pre', m', pre' ++ post)).
Proof.
  unfold merge_left_split. destruct pre as [|p pre _] using rev_ind; [done|].
  rewrite rev_unit, last_length.
  replace ((pre ++ [p]) ++ post) with (pre ++ p :: post) by by rewrite <- (assoc_L (++)).
  unfold merge_left. rewrite lookup_length_app, remove_at_app. cbn [head].
  case_if; [by rewrite rev_involutive|].
  by rewrite last_length, <- (assoc_L (++)).
Qed.

Definition merge_right_split (m : byteRange) (post : byteRanges) : byteRange * byteRanges :=
  match post with
  | q :: post' => if rend m =? rstart q then (MkRange (rstart m) (rend q), post') else (m, post)
  | [] => (m, post)
  end.

Lemma merge_right_app pre m post :
  merge_right (length pre) m (pre ++ post) =
  (let '(m', post') := merge_right_split m post in (m', pre ++ post')).
Proof.
  unfold merge_right, merge_right_split. rewrite lookup_length_app.
  destruct post as [|q post]; simpl; [done|]. case_if; [by rewrite remove_at_app|done].
Qed.

Lemma Add_split rs start stop :
  0 ≤ start < stop →
  ∃ pre post, rs = pre ++ post ∧ Forall (fun r => rend r ≤ start) pre ∧
    match post with [] => True | q :: _ => start < rend q end ∧
    byteRanges_Add rs start stop =
      match post with
      | q :: _ => if rstart q <? stop then Err (OverlappingByteRange start stop q)
                  else let '(pre', m) := merge_left_split pre (MkRange start stop) in
                       let '(m', post') := merge_right_split m post in Ok (pre' ++ m' :: post')
      | [] => let '(pre', m) := merge_left_split pre (MkRange start stop) in Ok (pre' ++ [m])
      end.
Proof.
  intros Hb. destruct (insert_pos_split start rs) as (pre & post & -> & Hi & Hpre & Hpost).
  exists pre, post. do 3 (split; [done|]). unfold byteRanges_Add. rewrite Hi.
  replace ((start <? 0) || (stop <? start)) with false by
    (symmetry; apply orb_false_iff; split; apply Z.ltb_ge; lia).
  replace (start =? stop) with false by (symmetry; apply Z.eqb_neq; lia).
  rewrite lookup_length_app, merge_left_app.
  destruct (merge_left_split pre (MkRange start stop)) as [pre' m].
  rewrite merge_right_app. destruct post as [|q post]; cbn [head].
  - simpl. by rewrite insert_at_app.
  - replace (start <? rend q) with true by (symmetry; apply Z.ltb_lt; lia).
    rewrite andb_true_r. case_if; [done|].
    destruct (merge_right_split m (q :: post)) as [m' post']. by rewrite insert_at_app.
Qed.

(** The merges keep the covered set and the canonical form. *)
Lemma merge_left_ok pre m pre' m' :
  merge_left_split pre m = (pre', m') →
  ranges_wf pre → range_proper m → Forall (fun r => rend r ≤ rstart m) pre →
  ranges_wf pre' ∧ range_proper m' ∧ (∀ r, r ∈ pre' → r ∈ pre ∧ range_before r m') ∧
  rend m' = rend m ∧ (∀ b, covered pre' b ∨ in_range m' b ↔ covered pre b ∨ in_range m b).
Proof.
  unfold merge_left_split. destruct pre as [|p pre _] using rev_ind; simpl.
  - intros [= <- <-] **. split_and!; auto using ranges_wf_nil; try tauto.
    by intros ? ?%not_elem_of_nil.
  - rewrite rev_unit. intros E Hwf Hm [Hall Hle]%Forall_app. apply Forall_cons in Hle as [Hle _].
    pose proof Hwf as (Hpre & [Hp _]%ranges_wf_cons & Hbef)%ranges_wf_app.
    assert (Hbp : ∀ r, r ∈ pre → range_before r p) by (intros; apply Hbef; [done|by left]).
    unfold range_proper, range_before in *.
    destruct (rend p =? rstart m) eqn:Ee; bool_prop; injection E as <- <-; simpl.
    + rewrite rev_involutive. split_and!; try done; try lia.
      * intros r Hr. split; [|by apply Hbp]. apply elem_of_app. by left.
      * intros b. rewrite covered_app, covered_cons, covered_nil. unfold in_range; simpl.
        pose proof (Z.lt_ge_cases b (rend p)). intuition lia.
    + split_and!; try done; try lia. intros r Hr. split; [done|].
      apply elem_of_app in Hr as [Hr| ->%list_elem_of_singleton]; [|lia].
      specialize (Hbp _ Hr). lia.
Qed.

Lemma merge_right_ok m post m' post' :
  merge_right_split m post = (m', post') →
  ranges_wf post → range_proper m → (∀ r, r ∈ post → rend m ≤ rstart r) →
  ranges_wf post' ∧ range_proper m' ∧ (∀ r, r ∈ post' → range_before m' r) ∧
  rstart m' = rstart m ∧ (∀ b, in_range m' b ∨ covered post' b ↔ in_range m b ∨ covered post b).
Proof.
  unfold merge_right_split. destruct post as [|q post].
  - intros [= <- <-] **. split_and!; auto using ranges_wf_nil; try tauto.
    by intros ? ?%not_elem_of_nil.
  - intros E Hwf Hm Hle. pose proof Hwf as (Hq & Hpost & Hbq)%ranges_wf_cons.
    pose proof (Hle q ltac:(by left)) as Hmq. unfold range_proper, range_before in *.
    destruct (rend m =? rstart q) eqn:Ee; bool_prop; injection E as <- <-; simpl.
    + split_and!; try done; try lia.
      intros b. rewrite covered_cons. unfold in_range; simpl.
      pose proof (Z.lt_ge_cases b (rend m)). intuition lia.
    + split_and!; try done; try lia.
      intros r [->|Hr]%elem_of_cons; [lia|]. specialize (Hbq _ Hr). lia.
Qed.

Lemma merged_wf pre m post :
  ranges_wf pre → range_proper m → ranges_wf post →
  (∀ r, r ∈ pre → range_before r m) → (∀ r, r ∈ post → range_before m r) →
  ranges_wf (pre ++ m :: post).
Proof.
  intros Hpre Hm Hpost Hl Hr. rewrite ranges_wf_app, ranges_wf_cons. split_and!; try done.
  intros a b Ha [->|Hb]%elem_of_cons; [by apply Hl|].
  specialize (Hl _ Ha). specialize (Hr _ Hb). unfold range_before, range_proper in *. lia.
Qed.

(** ** The theorems *)

Section add.
Context (rs : byteRanges) (start stop : Z).
Hypothesis (Hwf : ranges_wf rs) (Hb : 0 ≤ start < stop).

Lemma Add_ok rs' :
  byteRanges_Add rs start stop = Ok rs' →
  ranges_wf rs' ∧ (∀ b, covered rs' b ↔ covered rs b ∨ start ≤ b < stop) ∧
  (∀ b, start ≤ b < stop → ¬ covered rs b).
Proof using Hwf Hb.
  destruct (Add_split rs start stop Hb) as (pre & post & -> & Hpre & Hpost & ->).
  pose proof Hwf as (Wpre & Wpost & Hbef)%ranges_wf_app. intros H.
  assert (Hq : ∀ r, r ∈ post → stop ≤ rstart r).
  { destruct post as [|q post]; [by intros ? ?%not_elem_of_nil|].
    destruct (rstart q <? stop) eqn:E; [done|bool_prop].
    apply ranges_wf_cons in Wpost as (Wq & _ & Hbq).
    intros r [->|Hr]%elem_of_cons; [done|].
    specialize (Hbq _ Hr). unfold range_before, range_proper in *. lia. }
  destruct (merge_left_split pre (MkRange start stop)) as [pre' m] eqn:El.
  destruct (merge_right_split m post) as [m' post'] eqn:Er.
  apply merge_left_ok in El as (Wl & Pm & Hpm & Em & Cl); [|done|done|done].
  pose proof Er as Er'. apply merge_right_ok in Er as (Wr & Pm' & Hpm' & Em' & Cr); [|done|done|rewrite Em; done].
  assert (H' : rs' = pre' ++ m' :: post').
  { destruct post as [|q post]; [injection Er' as <- <-|]; res_inv; [done|].
    destruct (rstart q <? stop); [done|]. by injection H. }
  subst rs'. split_and!.
  - apply merged_wf; try done. intros r Hr. destruct (Hpm _ Hr) as [_ Hrm].
    unfold range_before in *. by rewrite Em'.
  - intros b. rewrite !covered_app, covered_cons. specialize (Cl b). specialize (Cr b).
    unfold in_range in Cl, Cr |- *. simpl in Cl. tauto.
  - intros b Hbb [[r [Hr Hin]]|[r [Hr Hin]]]%covered_app; unfold in_range in Hin.
    + rewrite Forall_forall in Hpre. specialize (Hpre _ Hr). lia.
    + specialize (Hq _ Hr). lia.
Qed.

Lemma Add_err e :
  byteRanges_Add rs start stop = Err e → ∃ b, start ≤ b < stop ∧ covered rs b.
Proof using Hwf Hb.
  destruct (Add_split rs start stop Hb) as (pre & post & -> & Hpre & Hpost & ->).
  pose proof Hwf as (_ & Wpost & _)%ranges_wf_app. intros H.
  destruct (merge_left_split _ _). destruct post as [|q post]; [done|].
  destruct (rstart q <? stop) eqn:E; [bool_prop|by destruct (merge_right_split _ _)].
  apply ranges_wf_cons in Wpost as ([??] & _ & _).
  exists (Z.max start (rstart q)). split; [lia|]. apply covered_app. right.
  apply covered_cons. left. unfold in_range. lia.
Qed.
End add.

Lemma Add_Ok_iff rs start stop :
  ranges_wf rs → 0 ≤ start < stop →
  is_ok (byteRanges_Add rs start stop) = true ↔ (∀ b, start ≤ b < stop → ¬ covered rs b).
Proof.
  intros Hwf Hb. destruct (byteRanges_Add rs start stop) as [rs'|e] eqn:E; simpl.
  - split; [|done]. intros _. by apply (Add_ok rs start stop Hwf Hb rs' E).
  - split; [done|]. intros Hn. destruct (Add_err rs start stop Hwf Hb e E) as (b & ? & ?).
    by destruct (Hn b).
Qed.

Lemma Add_empty rs start : 0 ≤ start → byteRanges_Add rs start start = Ok rs.
Proof.
  intros. unfold byteRanges_Add. replace (start <? 0) with false by (symmetry; apply Z.ltb_ge; lia).
  by rewrite Z.ltb_irrefl, Z.eqb_refl.
Qed.

Lemma wf_head_least r rs b :
  ranges_wf (r :: rs) → covered (r :: rs) b → rstart r ≤ b.
Proof.
  intros ([??] & Hrs & Hb)%ranges_wf_cons [Hin|(q & Hq & Hin)]%covered_cons.
  - by destruct Hin.
  - specialize (Hb _ Hq). destruct Hin. unfold range_before in *. lia.
Qed.

(** In canonical form the covered set determines the list. *)
Lemma ranges_canonical r1 r2 :
  ranges_wf r1 → ranges_wf r2 → (∀ b, covered r1 b ↔ covered r2 b) → r1 = r2.
Proof.
  revert r2. induction r1 as [|x r1 IH]; intros [|y r2] W1 W2 Heq; [done|..].
  - exfalso. apply ranges_wf_cons in W2 as ([??] & _ & _).
    apply (covered_nil (rstart y)), Heq, covered_cons. left. split; lia.
  - exfalso. apply ranges_wf_cons in W1 as ([??] & _ & _).
    apply (covered_nil (rstart x)), Heq, covered_cons. left. split; lia.
  - pose proof W1 as (Px & Wr1 & Bx)%ranges_wf_cons.
    pose proof W2 as (Py & Wr2 & By)%ranges_wf_cons. unfold range_proper, range_before in *.
    assert (Hin : ∀ z rs, rstart z < rend z → covered (z :: rs) (rstart z) ∧ covered (z :: rs) (rend z - 1)).
    { intros z rs Hz. split; apply covered_cons; left; split; lia. }
    assert (Hout : ∀ z rs, (∀ b, b ∈ rs → rend z < rstart b) → rstart z < rend z → ¬ covered (z :: rs) (rend z)).
    { intros z rs Hz ? [[??]|(q & Hq & ? & ?)]%covered_cons; [lia|]. specialize (Hz _ Hq). lia. }
    assert (Es : rstart x = rstart y).
    { apply Z.le_antisymm; [apply (wf_head_least x r1)|apply (wf_head_least y r2)]; try done;
        apply Heq; apply Hin; lia. }
    assert (Ee : rend x = rend y).
    { destruct (Z.lt_trichotomy (rend x) (rend y)) as [Hl|[?|Hl]]; [|done|]; exfalso.
      - apply (Hout x r1 Bx ltac:(lia)), Heq, covered_cons. left. split; lia.
      - apply (Hout y r2 By ltac:(lia)), Heq, covered_cons. left. split; lia. }
    destruct x as [xs xe], y as [ys ye]. simpl in *. subst ys ye. f_equal.
    apply IH; [done..|]. intros b. specialize (Heq b). rewrite !covered_cons in Heq.
    assert (Hd : ∀ rs, (∀ b, b ∈ rs → xe < rstart b) → covered rs b → ¬ in_range (MkRange xs xe) b).
    { intros rs Hrs (q & Hq & ? & ?) [? ?]. specialize (Hrs _ Hq). simpl in *. lia. }
    specialize (Hd r1 Bx) as Hd1. specialize (Hd r2 By) as Hd2. tauto.
Qed.

(** A sequence of chunks, each recorded with [Add]. *)
Fixpoint add_all (rs : byteRanges) (chunks : list byteRange) : result range_error byteRanges :=
  match chunks with
  | [] => Ok rs
  | c :: chunks' => r' ← byteRanges_Add rs (rstart c) (rend c); add_all r' chunks'
  end.

Lemma add_swap rs a b r :
  ranges_wf rs → range_proper a → range_proper b →
  add_all rs [a; b] = Ok r → add_all rs [b; a] = Ok r.
Proof.
  intros Hwf Ha Hb. simpl. intros H. res_inv. rename x into r1.
  destruct (Add_ok _ _ _ Hwf Ha _ H) as (W1 & C1 & D1).
  destruct (Add_ok _ _ _ W1 Hb _ H0) as (W2 & C2 & D2).
  destruct (byteRanges_Add rs (rstart b) (rend b)) as [r3|e] eqn:E3; simpl.
  2:{ exfalso. apply Add_err in E3 as (x & Hx & Hc); [|done..]. apply (D2 x Hx), C1. by left. }
  destruct (Add_ok _ _ _ Hwf Hb _ E3) as (W3 & C3 & D3).
  destruct (byteRanges_Add r3 (rstart a) (rend a)) as [r4|e] eqn:E4; simpl.
  2:{ exfalso. apply Add_err in E4 as (x & Hx & Hc); [|done..].
      apply C3 in Hc as [Hc|Hc]; [by apply (D1 x)|]. apply (D2 x Hc), C1. by right. }
  destruct (Add_ok _ _ _ W3 Ha _ E4) as (W4 & C4 & D4).
  unfold mret, result_ret. f_equal. apply ranges_canonical; [done..|].
  intros x. rewrite C4, C3, C2, C1. tauto.
Qed.

Lemma add_all_wf rs chunks r :
  ranges_wf rs → Forall range_proper chunks → add_all rs chunks = Ok r → ranges_wf r.
Proof.
  intros Hwf H. revert rs Hwf. induction H as [|c cs Hc _ IH]; intros rs Hwf E; simpl in E; res_inv; [done|].
  eapply IH; [|done]. by eapply Add_ok.
Qed.

Lemma Add_spec rs start stop :
  ranges_wf rs → 0 ≤ start ≤ stop →
  match byteRanges_Add rs start stop with
  | Ok rs' => ranges_wf rs' ∧ (∀ b, covered rs' b ↔ covered rs b ∨ start ≤ b < stop) ∧
              (∀ b, start ≤ b < stop → ¬ covered rs b)
  | Err _ => ∃ b, start ≤ b < stop ∧ covered rs b
  end.
Proof.
  intros Hwf Hb. destruct (decide (start = stop)) as [<-|].
  - rewrite Add_empty by lia. split_and!; [done| |]; intros b; [|lia].
    split; [by left|]. intros [?|?]; [done|lia].
  - destruct (byteRanges_Add rs start stop) as [rs'|e] eqn:E;
      [eapply Add_ok|eapply Add_err]; eauto; lia.
Qed.

(** C10: recording a chunk keeps the range set canonical (sorted, disjoint,
    merged), adds exactly the chunk's bytes when none of them was recorded, and
    is refused exactly when one of them was. *)
Theorem byteRanges_Add_correct rs start stop :
  ranges_wf rs → 0 ≤ start ≤ stop →
  match byteRanges_Add rs start stop with
  | Ok rs' => ranges_wf rs' ∧ (∀ b, covered rs' b ↔ covered rs b ∨ start ≤ b < stop) ∧
              (∀ b, start ≤ b < stop → ¬ covered rs b)
  | Err _ => ∃ b, start ≤ b < stop ∧ covered rs b
  end.
Proof. apply Add_spec. Qed.

Lemma byteRanges_Add_correct_witness :
  ∃ rs', byteRanges_Add [MkRange 0 4; MkRange 8 12] 4 8 = Ok rs' ∧ ranges_wf rs'.
Proof.
  exists [MkRange 0 12]. split; [by vm_compute|].
  apply (byteRanges_Add_correct [MkRange 0 4; MkRange 8 12] 4 8); [|lia].
  split; repeat constructor; simpl; lia.
Defined.

(** The state after a set of chunks does not depend on their arrival order:
    a permutation of an accepted sequence is accepted and gives the same set. *)
Theorem add_all_any_order rs chunks chunks' r :
  ranges_wf rs → Forall range_proper chunks → chunks ≡ₚ chunks' →
  add_all rs chunks = Ok r → add_all rs chunks' = Ok r.
Proof.
  intros Hwf Hp Hperm. revert rs Hwf r Hp.
  induction Hperm as [|c cs cs' _ IH|a b cs|? ? ? P1 IH1 _ IH2]; intros rs Hwf r Hp H.
  - done.
  - simpl in *. apply Forall_cons in Hp as [Hc Hcs]. res_inv. rewrite H. simpl.
    apply IH; try done. by eapply Add_ok.
  - apply Forall_cons in Hp as [Hb [Ha Hcs]%Forall_cons].
    assert (H2 : ∃ r2, add_all rs [b; a] = Ok r2 ∧ add_all r2 cs = Ok r).
    { simpl in *. res_inv. exists x0. by rewrite H; simpl; rewrite H0. }
    destruct H2 as (r2 & H2 & H3). apply add_swap in H2; try done.
    simpl in H2 |- *. apply bind_Ok_inv in H2 as (x & E1 & (y & E2 & [= ->])%bind_Ok_inv).
    rewrite E1; simpl. by rewrite E2; simpl.
  - eapply IH2; [done| |by eapply IH1]. by rewrite <- P1.
Qed.

Lemma add_all_any_order_witness :
  add_all [] [MkRange 8 12; MkRange 0 4; MkRange 4 8] = Ok [MkRange 0 12].
Proof.
  apply (add_all_any_order [] [MkRange 0 4; MkRange 4 8; MkRange 8 12]).
  - apply ranges_wf_nil.
  - repeat constructor; simpl; lia.
  - change [MkRange 8 12; MkRange 0 4; MkRange 4 8] with ([MkRange 8 12] ++ [MkRange 0 4; MkRange 4 8]).
    apply (Permutation_app_comm [MkRange 0 4; MkRange 4 8] [MkRange 8 12]).
  - by vm_compute.
Defined.

Lemma Prefix_covered rs b :
  ranges_wf rs → 0 ≤ b < byteRanges_Prefix (Some rs) → covered rs b.
Proof.
  destruct rs as [|x rs]; simpl; [lia|]. intros Hwf. case_if; bool_prop; [lia|].
  intros. apply covered_cons. left. split; lia.
Qed.

Lemma Prefix_not_covered rs :
  ranges_wf rs → ¬ covered rs (byteRanges_Prefix (Some rs)).
Proof.
  destruct rs as [|x rs]; simpl; [by intros _ ?%covered_nil|].
  intros Hwf Hc. pose proof Hwf as ([??] & _ & Hb)%ranges_wf_cons.
  destruct (rstart x =? 0) eqn:E; simpl in Hc; bool_prop.
  - apply covered_cons in Hc as [[? ?]|(q & Hq & ? & ?)]; [lia|].
    specialize (Hb _ Hq). unfold range_before in *. lia.
  - pose proof (wf_head_least _ _ _ Hwf Hc). lia.
Qed.

Lemma Prefix_nonneg rs : ranges_wf rs → 0 ≤ byteRanges_Prefix (Some rs).
Proof.
  intros Hwf. destruct rs as [|x rs]; simpl; [lia|]. apply ranges_wf_cons in Hwf as ([??] & _). case_if; lia.
Qed.

Lemma Complete_spec rs size :
  ranges_wf rs → 0 ≤ size → (∀ b, covered rs b → b < size) →
  byteRanges_Complete (Some rs) size = true ↔ (∀ b, 0 ≤ b < size → covered rs b).
Proof.
  intros Hwf Hs Hmax. unfold byteRanges_Complete. rewrite Z.eqb_eq. split.
  - intros <- b Hb. by apply Prefix_covered.
  - intros Hall. pose proof (Prefix_not_covered rs Hwf) as Hn.
    assert (Hp : byteRanges_Prefix (Some rs) ≤ size).
    { destruct (Z.le_gt_cases (byteRanges_Prefix (Some rs)) size) as [|Hgt]; [done|].
      pose proof (Hmax size (Prefix_covered rs size Hwf ltac:(lia))). lia. }
    pose proof (Prefix_nonneg rs Hwf).
    destruct (Z.eq_dec (byteRanges_Prefix (Some rs)) size) as [|Hne]; [done|].
    exfalso. apply Hn, Hall. lia.
Qed.

(** A file is complete exactly when every one of its bytes was recorded. *)
Theorem byteRanges_Complete_iff rs size :
  ranges_wf rs → 0 ≤ size → (∀ b, covered rs b → b < size) →
  byteRanges_Complete (Some rs) size = true ↔ (∀ b, 0 ≤ b < size → covered rs b).
Proof. apply Complete_spec. Qed.

Lemma byteRanges_Complete_iff_witness :
  byteRanges_Complete (Some [MkRange 0 12]) 12 = true.
Proof.
  apply (byteRanges_Complete_iff [MkRange 0 12] 12).
  - split; repeat constructor; simpl; lia.
  - lia.
  - intros b [[? ?]|[]%covered_nil]%covered_cons. simpl in *. lia.
  - intros b Hb. apply covered_cons. left. split; simpl; lia.
Defined.
