(* ===== verification/Mux.v ===== *)
(** * Stream multiplexing ([internal/mux/mux.go])

    Every item of a manifest travels on its own stream id.  [Plan] is the
    bijection between items and stream ids; [ResolveFrame] and
    [ValidateResumeEntry] check the frames of a peer against it; [Tracker]
    holds the open/ended state of the streams of one direction. *)
From Stdlib Require Import ZArith Lia Ascii String.
From stdpp Require Import base tactics numbers list gmap strings.
From S2P Require Import Prelude GoStrings Protocol.

Record Plan := MkPlan {
  bindings : list StreamBinding;
  byItem : gmap Z Z;
  byStream : gmap Z Z;
}.

Inductive mux_error :=
  | ManifestMissing
  | ManifestNoItems
  | StreamCountMismatch (streams items : Z)
  | NegativeStreamID (id : Z)
  | StreamItemOutOfRange (id item : Z)
  | DuplicateStreamID (id : Z)
  | DuplicateItemBinding (item : Z)
  | ItemWithoutBinding (item : Z)
  | ChunkItemOutOfRange (item : Z)
  | MissingStream (ty : string)
  | StreamMismatch (stream item bound : Z)
  | ResumeItemOutOfRange (item : Z)
  | ResumeStreamMismatch (stream item bound : Z)
  | NegativeResumeOffset (name : string) (offset : Z)
  | InvalidPrefixSHA256 (name : string)
  | InvalidResumeSHA256 (name : string)
  | CompleteWithoutSkip (name : string)
  | SkipNonFile (name : string)
  | SkipOffsetMismatch (name : string)
  | SkipWithPrefix (name : string)
  | StreamOpenedTwice (id : Z)
  | EndBeforeOpen (id : Z)
  | StreamEndedTwice (id : Z)
  | ChunkAfterEnd (id : Z).

Definition add_binding (p : Plan) (b : StreamBinding) : Plan :=
  MkPlan (bindings p) (<[BindItem b := ID b]> (byItem p)) (<[ID b := BindItem b]> (byStream p)).

Definition newPlan (bs : list StreamBinding) : Plan :=
  foldl add_binding (MkPlan bs ∅ ∅) bs.

(** [for item := range n { bindings[item] = {ID: item + base, Item: item} }] *)
Definition sequential_bindings (base : Z) (n : nat) : list StreamBinding :=
  (fun i => MkStreamBinding (Z.of_nat i + base) (Z.of_nat i)) <$> seq 0 n.

Definition NewPlan (itemCount : nat) : Plan := newPlan (sequential_bindings 1 itemCount).

(** The loop over [manifest.Streams], lines 54-70. *)
Fixpoint bind_streams (items : list Item) (bs : list StreamBinding) (p : Plan)
    : result mux_error Plan :=
  match bs with
  | [] => Ok p
  | b :: bs' =>
      _ ← fail_if (ID b <? 0) (NegativeStreamID (ID b));
      _ ← fail_if ((BindItem b <? 0) || (BindItem b >=? zlen items))
                  (StreamItemOutOfRange (ID b) (BindItem b));
      _ ← fail_if (bool_decide (is_Some (byStream p !! ID b))) (DuplicateStreamID (ID b));
      _ ← fail_if (bool_decide (is_Some (byItem p !! BindItem b))) (DuplicateItemBinding (BindItem b));
      bind_streams items bs'
        (add_binding (MkPlan (bindings p ++ [b]) (byItem p) (byStream p)) b)
  end.

(** The loop over the items, lines 71-75. *)
Fixpoint check_bound (p : Plan) (items : list nat) : result mux_error unit :=
  match items with
  | [] => Ok tt
  | i :: items' =>
      _ ← fail_if (bool_decide (byItem p !! Z.of_nat i = None)) (ItemWithoutBinding (Z.of_nat i));
      check_bound p items'
  end.

Definition PlanFromManifest (manifest : option Manifest) : result mux_error Plan :=
  match manifest with
  | None => Err ManifestMissing
  | Some m =>
      _ ← fail_if (zlen (Items m) =? 0) ManifestNoItems;
      if zlen (Streams m) =? 0
      then Ok (newPlan (sequential_bindings 0 (length (Items m))))
      else
        _ ← fail_if (negb (zlen (Streams m) =? zlen (Items m)))
                    (StreamCountMismatch (zlen (Streams m)) (zlen (Items m)));
        plan ← bind_streams (Items m) (Streams m) (newPlan []);
        _ ← check_bound plan (seq 0 (length (Items m)));
        Ok plan
  end.

(** The methods are called on a pointer that may be nil. *)
Definition Plan_Bindings (p : option Plan) : list StreamBinding :=
  match p with None => [] | Some p => bindings p end.

Definition Plan_Apply (p : option Plan) (manifest : option Manifest) : option Manifest :=
  match p, manifest with
  | Some _, Some m => Some (MkManifest (MVersion m) (Items m) (Plan_Bindings p))
  | _, _ => manifest
  end.

Definition StreamForItem (p : option Plan) (item : Z) : option Z :=
  match p with None => None | Some p => byItem p !! item end.

Definition ItemForStream (p : option Plan) (stream : Z) : option Z :=
  match p with None => None | Some p => byStream p !! stream end.

(** [ptr != nil && *ptr != v] *)
Definition ptr_differs (ptr : option Z) (v : Z) : bool :=
  match ptr with Some x => negb (x =? v) | None => false end.

Definition ResolveFrame (p : option Plan) (manifest : option Manifest) (msg : Message)
    (requireStream : bool) : result mux_error StreamBinding :=
  let item := MItem msg in
  _ ← fail_if (match manifest with
               | None => true
               | Some m => (item <? 0) || (item >=? zlen (Items m))
               end) (ChunkItemOutOfRange item);
  _ ← fail_if (requireStream && bool_decide (MStream msg = None)) (MissingStream (MType msg));
  match StreamForItem p item with
  | None => Err (ItemWithoutBinding item)
  | Some stream =>
      _ ← fail_if (ptr_differs (MStream msg) stream)
                  (StreamMismatch (default 0 (MStream msg)) item stream);
      Ok (MkStreamBinding stream item)
  end.

(** [for _, r := range strings.ToLower(value)]: a rune outside ASCII fails the
    test, and so does each byte of its encoding. *)
Definition is_hex_lower (c : ascii) : bool :=
  is_digit c || in_byte_range "a"%char "f"%char c.
Definition validSHA256 `{CaseTables} (value : string) : bool :=
  if negb (str_len value =? 64) then false
  else forall_bytes is_hex_lower (ToLower value).

Definition ValidateResumeEntry `{CaseTables} (p : option Plan) (items : list Item)
    (entry : ResumeEntry) : result mux_error Z :=
  match zlookup items (REItem entry) with
  | None => Err (ResumeItemOutOfRange (REItem entry))
  | Some it =>
      match StreamForItem p (REItem entry) with
      | None => Err (ItemWithoutBinding (REItem entry))
      | Some stream =>
          _ ← fail_if (ptr_differs (REStream entry) stream)
                (ResumeStreamMismatch (default 0 (REStream entry)) (REItem entry) stream);
          _ ← fail_if (REOffset entry <? 0) (NegativeResumeOffset (Name it) (REOffset entry));
          _ ← fail_if (negb (String.eqb (REPrefixSHA256 entry) "") && negb (validSHA256 (REPrefixSHA256 entry)))
                (InvalidPrefixSHA256 (Name it));
          _ ← fail_if (negb (String.eqb (RESHA256 entry) "") && negb (validSHA256 (RESHA256 entry)))
                (InvalidResumeSHA256 (Name it));
          _ ← fail_if (REComplete entry && negb (RESkip entry)) (CompleteWithoutSkip (Name it));
          _ ← (if RESkip entry then
                 _ ← fail_if (negb (String.eqb (Kind it) ItemFile)) (SkipNonFile (Name it));
                 _ ← fail_if (negb (REOffset entry =? Size it)) (SkipOffsetMismatch (Name it));
                 fail_if (negb (String.eqb (REPrefixSHA256 entry) "")) (SkipWithPrefix (Name it))
               else Ok tt);
          Ok (clampInt64 (REOffset entry) 0 (Size it))
      end
  end.

(** ** Stream states *)

Record StreamState := MkStreamState { SItem : Z; Opened : bool; Ended : bool }.

Record Tracker := MkTracker { tplan : option Plan; states : gmap Z StreamState }.

Definition NewTracker (plan : option Plan) : Tracker := MkTracker plan ∅.

Definition Tracker_state (t : Tracker) (streamID : Z) : StreamState :=
  default (MkStreamState 0 false false) (states t !! streamID).

Definition set_state (t : Tracker) (streamID : Z) (st : StreamState) : Tracker :=
  MkTracker (tplan t) (<[streamID := st]> (states t)).

Definition AcceptOpen (t : Tracker) (manifest : option Manifest) (msg : Message)
    : result mux_error (StreamBinding * Tracker) :=
  b ← ResolveFrame (tplan t) manifest msg true;
  _ ← fail_if (Opened (Tracker_state t (ID b))) (StreamOpenedTwice (ID b));
  Ok (b, set_state t (ID b) (MkStreamState (BindItem b) true false)).

Definition AcceptEnd (t : Tracker) (manifest : option Manifest) (msg : Message)
    : result mux_error (StreamBinding * Tracker) :=
  b ← ResolveFrame (tplan t) manifest msg true;
  let st := Tracker_state t (ID b) in
  _ ← fail_if (negb (Opened st)) (EndBeforeOpen (ID b));
  _ ← fail_if (Ended st) (StreamEndedTwice (ID b));
  Ok (b, set_state t (ID b) (MkStreamState (SItem st) (Opened st) true)).

Definition acceptChunk (t : Tracker) (manifest : option Manifest) (msg : Message)
    (allowAfterEnd : bool) : result mux_error StreamBinding :=
  b ← ResolveFrame (tplan t) manifest msg false;
  _ ← fail_if (Ended (Tracker_state t (ID b)) && negb allowAfterEnd) (ChunkAfterEnd (ID b));
  Ok b.

Definition AcceptChunk (t : Tracker) (manifest : option Manifest) (msg : Message)
    : result mux_error StreamBinding := acceptChunk t manifest msg false.
Definition AcceptChunkAfterEnd (t : Tracker) (manifest : option Manifest) (msg : Message)
    : result mux_error StreamBinding := acceptChunk t manifest msg true.

(** ** The plan is a bijection *)

Definition plan_bij (p : Plan) : Prop :=
  ∀ i s, byItem p !! i = Some s ↔ byStream p !! s = Some i.

(** What a plan for [n] items promises its clients. *)
Record plan_ok (n : nat) (p : Plan) : Prop := {
  plan_ok_bij : plan_bij p;
  plan_ok_items : ∀ i, is_Some (byItem p !! i) ↔ 0 ≤ i < Z.of_nat n;
  plan_ok_streams : ∀ i s, byItem p !! i = Some s → 0 ≤ s;
  plan_ok_bindings : ∀ i s, byItem p !! i = Some s ↔ MkStreamBinding s i ∈ bindings p;
}.

(** A stream list that binds each of [n] items once, to distinct ids. *)
Record valid_bindings (n : nat) (bs : list StreamBinding) : Prop := {
  vb_ids : Forall (fun b => 0 ≤ ID b) bs;
  vb_nodup : NoDup (ID <$> bs);
  vb_items : BindItem <$> bs ≡ₚ Z.of_nat <$> seq 0 n;
}.

Lemma add_binding_bij p b :
  plan_bij p → byStream p !! ID b = None → byItem p !! BindItem b = None →
  plan_bij (add_binding p b).
Proof.
  intros Hp Hs Hi i s. simpl. rewrite !lookup_insert_Some. specialize (Hp i s) as Hp1.
  pose proof (Hp i (ID b)). pose proof (Hp (BindItem b) s). split.
  - intros [[<- <-]|[? ?]]; [by left|]. right. split; [|by apply Hp1].
    intros <-. naive_solver.
  - intros [[<- <-]|[? ?]]; [by left|]. right. split; [|by apply Hp1].
    intros <-. naive_solver.
Qed.

(** Fresh bindings only: what the loop needs, and what it establishes. *)
Record fresh_bindings (n : nat) (p : Plan) (bs : list StreamBinding) : Prop := {
  fb_range : Forall (fun b => 0 ≤ ID b ∧ 0 ≤ BindItem b < Z.of_nat n) bs;
  fb_ids : NoDup (ID <$> bs);
  fb_items : NoDup (BindItem <$> bs);
  fb_new : ∀ b, b ∈ bs → byStream p !! ID b = None ∧ byItem p !! BindItem b = None;
}.

Lemma fresh_cons n p b bs :
  fresh_bindings n p (b :: bs) ↔
  0 ≤ ID b ∧ 0 ≤ BindItem b < Z.of_nat n ∧ byStream p !! ID b = None ∧
  byItem p !! BindItem b = None ∧ fresh_bindings n (add_binding p b) bs.
Proof.
  split.
  - intros [Hr Hi Ht Hn]. inversion Hr as [|?? [? ?] ?]; subst.
    rewrite !fmap_cons in Hi, Ht. apply NoDup_cons in Hi as [Ni Hi]. apply NoDup_cons in Ht as [Nt Ht].
    destruct (Hn b ltac:(by left)). split_and!; try done; try lia.
    constructor; [done..|]. intros c Hc. simpl. destruct (Hn c ltac:(by right)).
    rewrite !lookup_insert_ne; [done|..]; intros E.
    + apply Nt. apply list_elem_of_fmap. by exists c.
    + apply Ni. apply list_elem_of_fmap. by exists c.
  - intros (? & ? & ? & ? & [Hr Hi Ht Hn]). simpl in Hn.
    assert (Hne : ∀ c, c ∈ bs → ID b ≠ ID c ∧ BindItem b ≠ BindItem c).
    { intros c Hc. destruct (Hn c Hc) as [G1 G2].
      split; intros E; rewrite E, lookup_insert_eq in *; done. }
    constructor; [by constructor|..].
    + rewrite fmap_cons. apply NoDup_cons. split; [|done].
      intros (c & E & Hc)%list_elem_of_fmap. by destruct (Hne c Hc).
    + rewrite fmap_cons. apply NoDup_cons. split; [|done].
      intros (c & E & Hc)%list_elem_of_fmap. by destruct (Hne c Hc).
    + intros c [->|Hc]%elem_of_cons; [done|]. destruct (Hn c Hc), (Hne c Hc).
      by rewrite !lookup_insert_ne in * by done.
Qed.

Lemma fresh_ext n p p' bs :
  byItem p = byItem p' → byStream p = byStream p' →
  fresh_bindings n p bs → fresh_bindings n p' bs.
Proof. intros E1 E2 [????]. constructor; try done. by rewrite <- E1, <- E2. Qed.

(** The loop succeeds exactly on fresh bindings, and folds them in. *)
Lemma bind_streams_fresh items bs p :
  is_ok (bind_streams items bs p) = true ↔ fresh_bindings (length items) p bs.
Proof.
  revert p. induction bs as [|b bs IH]; intros p.
  { split; [|done]. intros _. constructor; [constructor|by apply NoDup_nil_2..|].
    by intros ? ?%not_elem_of_nil. }
  rewrite fresh_cons. simpl. unfold fail_if.
  destruct (ID b <? 0) eqn:E1; simpl; bool_prop; [split; [done|lia]|].
  destruct ((BindItem b <? 0) || _) eqn:E2; simpl; bool_prop; unfold zlen in *.
  { split; [done|]. intros (? & ? & _). destruct E2; bool_prop; lia. }
  destruct (bool_decide (is_Some (byStream p !! ID b))) eqn:E3; simpl; bool_prop.
  { split; [done|]. intros (_ & _ & E & _). rewrite E in E3. by apply is_Some_None in E3. }
  destruct (bool_decide (is_Some (byItem p !! BindItem b))) eqn:E4; simpl; bool_prop.
  { split; [done|]. intros (_ & _ & _ & E & _). rewrite E in E4. by apply is_Some_None in E4. }
  rewrite <- eq_None_not_Some in E3, E4. rewrite IH. split.
  - intros Hf. split_and!; try done; try lia. by eapply fresh_ext; [| |exact Hf].
  - intros (_ & _ & _ & _ & Hf). by eapply fresh_ext; [| |exact Hf].
Qed.

Lemma foldl_add_ext bs p q :
  byItem p = byItem q → byStream p = byStream q →
  byItem (foldl add_binding p bs) = byItem (foldl add_binding q bs) ∧
  byStream (foldl add_binding p bs) = byStream (foldl add_binding q bs).
Proof.
  revert p q. induction bs as [|b bs IH]; intros p q E1 E2; simpl; [done|].
  apply IH; simpl; congruence.
Qed.

Lemma bind_streams_result items bs p p' :
  bind_streams items bs p = Ok p' →
  p' = MkPlan (bindings p ++ bs) (byItem (foldl add_binding p bs)) (byStream (foldl add_binding p bs)).
Proof.
  revert p. induction bs as [|b bs IH]; intros p H; simpl in H; res_inv.
  - destruct p'. by rewrite app_nil_r.
  - apply IH in H3 as ->. simpl. rewrite <- (assoc_L (++)). simpl.
    set (q := add_binding (MkPlan (bindings p ++ [b]) (byItem p) (byStream p)) b).
    destruct (foldl_add_ext bs q (add_binding p b)) as [E1 E2]; [done..|].
    by rewrite E1, E2.
Qed.

Lemma foldl_add_binding n bs p :
  plan_bij p → fresh_bindings n p bs →
  plan_bij (foldl add_binding p bs) ∧
  ∀ i s, byItem (foldl add_binding p bs) !! i = Some s ↔
         byItem p !! i = Some s ∨ MkStreamBinding s i ∈ bs.
Proof.
  revert p. induction bs as [|b bs IH]; intros p Hp Hf; simpl.
  { split; [done|]. intros. rewrite elem_of_nil. tauto. }
  apply fresh_cons in Hf as (_ & _ & Hs & Hi & Hf).
  destruct (IH (add_binding p b)) as [Hb Hl]; [by apply add_binding_bij|done|].
  split; [done|]. intros i s. rewrite Hl, elem_of_cons. simpl. rewrite lookup_insert_Some.
  destruct b as [bi bt]; simpl in *. split.
  - intros [[[-> ->]|[? ?]]|?]; auto.
  - intros [H|[[= -> ->]|H]]; auto. left. right. split; [|done]. intros ->. congruence.
Qed.

Lemma nat_seq_mem n i : i ∈ Z.of_nat <$> seq 0 n ↔ 0 ≤ i < Z.of_nat n.
Proof.
  rewrite list_elem_of_fmap. setoid_rewrite elem_of_seq. split.
  - intros (k & -> & ?). lia.
  - intros. exists (Z.to_nat i). lia.
Qed.

Lemma nat_seq_nodup n : NoDup (Z.of_nat <$> seq 0 n).
Proof. apply NoDup_fmap_2; [intros ???; lia|apply NoDup_seq]. Qed.

(** With as many bindings as items, fresh bindings bind every item. *)
Lemma fresh_valid n bs l :
  fresh_bindings n (MkPlan l ∅ ∅) bs ∧ length bs = n ↔ valid_bindings n bs.
Proof.
  split.
  - intros [[Hr Hi Ht _] Hl]. constructor; [|done|].
    + eapply Forall_impl; [exact Hr|]. by intros ? [? _].
    + apply submseteq_length_Permutation.
      * apply NoDup_submseteq; [done|]. intros x (b & -> & Hb)%list_elem_of_fmap.
        rewrite Forall_forall in Hr. apply nat_seq_mem. by apply Hr.
      * rewrite !length_fmap, length_seq. lia.
  - intros [Hr Hi Ht]. split.
    + constructor; try done.
      * apply Forall_forall. intros b Hb. rewrite Forall_forall in Hr. split; [by apply Hr|].
        apply nat_seq_mem. rewrite <- Ht. apply list_elem_of_fmap. by exists b.
      * rewrite Ht. apply nat_seq_nodup.
    + apply Permutation_length in Ht. by rewrite !length_fmap, length_seq in Ht.
Qed.

Lemma valid_plan_ok n bs p0 :
  valid_bindings n bs → byItem p0 = ∅ → byStream p0 = ∅ →
  plan_ok n (MkPlan bs (byItem (foldl add_binding p0 bs)) (byStream (foldl add_binding p0 bs))).
Proof.
  intros Hv Ei Es. destruct (proj2 (fresh_valid n bs (bindings p0)) Hv) as [Hf _].
  destruct p0 as [l bi bt]; simpl in *; subst bi bt.
  destruct (foldl_add_binding n bs (MkPlan l ∅ ∅)) as [Hb Hl]; [|done|].
  { intros i s. simpl. by rewrite !lookup_empty. }
  setoid_rewrite lookup_empty in Hl. constructor; simpl.
  - exact Hb.
  - intros i. rewrite <- nat_seq_mem, <- (vb_items _ _ Hv), list_elem_of_fmap. split.
    + intros [s Hs]. apply Hl in Hs as [?|Hs]; [done|]. by exists (MkStreamBinding s i).
    + intros ([s j] & -> & Hin). exists s. apply Hl. by right.
  - intros i s Hs. apply Hl in Hs as [?|Hs]; [done|].
    pose proof (vb_ids _ _ Hv) as Hr. rewrite Forall_forall in Hr. by apply (Hr _ Hs).
  - intros i s. rewrite Hl. naive_solver.
Qed.

Lemma foldl_add_bindings bs p : bindings (foldl add_binding p bs) = bindings p.
Proof. revert p. induction bs; intros p; simpl; [done|]. by rewrite IHbs. Qed.

Lemma newPlan_ok n bs : valid_bindings n bs → plan_ok n (newPlan bs).
Proof.
  intros Hv. pose proof (valid_plan_ok n bs (MkPlan bs ∅ ∅) Hv eq_refl eq_refl) as H.
  pose proof (foldl_add_bindings bs (MkPlan bs ∅ ∅)) as El. unfold newPlan.
  destruct (foldl add_binding (MkPlan bs ∅ ∅) bs) as [l bi bt]. simpl in *. by subst l.
Qed.

Lemma sequential_valid base n : 0 ≤ base → valid_bindings n (sequential_bindings base n).
Proof.
  intros Hb. unfold sequential_bindings. constructor.
  - apply Forall_fmap, Forall_forall. intros i _. simpl. lia.
  - rewrite <- list_fmap_compose. apply NoDup_fmap_2; [|apply NoDup_seq]. intros ??. simpl. lia.
  - by rewrite <- list_fmap_compose.
Qed.

Lemma check_bound_ok p items :
  is_ok (check_bound p items) = true ↔ ∀ i, i ∈ items → is_Some (byItem p !! Z.of_nat i).
Proof.
  induction items as [|i items IH]; simpl.
  - split; [by intros _ ? ?%not_elem_of_nil|done].
  - unfold fail_if. destruct (bool_decide (byItem p !! Z.of_nat i = None)) eqn:E; simpl; bool_prop.
    + split; [done|]. intros Hs. destruct (Hs i ltac:(by left)) as [? Hi]. by rewrite E in Hi.
    + rewrite IH. setoid_rewrite elem_of_cons. split; [|naive_solver].
      intros Hs j [->|?]; [by apply not_eq_None_Some|by apply Hs].
Qed.

Lemma zlen_nil {A} (l : list A) : zlen l = 0 ↔ l = [].
Proof. unfold zlen. destruct l; simpl; split; (done || lia). Qed.

Lemma PlanFromManifest_spec m :
  match PlanFromManifest (Some m) with
  | Ok p => plan_ok (length (Items m)) p ∧
            (Streams m = [] ∨ (bindings p = Streams m ∧ valid_bindings (length (Items m)) (Streams m)))
  | Err _ => Items m = [] ∨ (Streams m ≠ [] ∧ ¬ valid_bindings (length (Items m)) (Streams m))
  end.
Proof.
  unfold PlanFromManifest, fail_if.
  destruct (zlen (Items m) =? 0) eqn:E0; simpl; bool_prop; [left; by apply zlen_nil|].
  destruct (zlen (Streams m) =? 0) eqn:E1; bool_prop.
  { apply zlen_nil in E1. split; [|by left]. by apply newPlan_ok, sequential_valid. }
  assert (Hne : Streams m ≠ []) by (intros E; apply zlen_nil in E; done).
  assert (Hlen : (zlen (Streams m) =? zlen (Items m)) = true ↔ length (Streams m) = length (Items m)).
  { unfold zlen. rewrite Z.eqb_eq. lia. }
  destruct (zlen (Streams m) =? zlen (Items m)) eqn:E2; simpl.
  2:{ right. split; [done|]. intros [_ Hl]%(fresh_valid _ _ []). apply Hlen in Hl. congruence. }
  pose proof (proj1 Hlen eq_refl) as El. clear Hlen.
  pose proof (bind_streams_fresh (Items m) (Streams m) (newPlan [])) as Hf.
  pose proof (fresh_valid (length (Items m)) (Streams m) []) as Hfv.
  destruct (bind_streams (Items m) (Streams m) (newPlan [])) as [p|e] eqn:Eb; simpl in Hf |- *.
  2:{ right. split; [done|]. intros [Hv _]%Hfv. by apply Hf in Hv. }
  assert (Hv : valid_bindings (length (Items m)) (Streams m)) by (apply Hfv; split; [by apply Hf|done]).
  apply bind_streams_result in Eb. simpl in Eb. subst p.
  pose proof (valid_plan_ok _ _ (newPlan []) Hv eq_refl eq_refl) as Hok.
  match type of Hok with plan_ok _ ?q => set (p := q) in * end.
  destruct (check_bound p (seq 0 (length (Items m)))) as [[]|e] eqn:Ec; simpl; [split; [done|by right]|].
  exfalso. assert (is_ok (check_bound p (seq 0 (length (Items m)))) = true) as Hc.
  { apply check_bound_ok. intros i Hi%elem_of_seq. apply (plan_ok_items _ _ Hok). lia. }
  by rewrite Ec in Hc.
Qed.

(** A manifest is accepted exactly when it has items and its stream list
    is absent or binds every item to a distinct non-negative stream id, and the
    plan is then the bijection between the items and their streams. *)
Theorem PlanFromManifest_correct m :
  match PlanFromManifest (Some m) with
  | Ok p => plan_ok (length (Items m)) p ∧
            (Streams m = [] ∨ (bindings p = Streams m ∧ valid_bindings (length (Items m)) (Streams m)))
  | Err _ => Items m = [] ∨ (Streams m ≠ [] ∧ ¬ valid_bindings (length (Items m)) (Streams m))
  end.
Proof. apply PlanFromManifest_spec. Qed.

(** A sender's plan survives the manifest: what [NewPlan] writes with
    [Apply], [PlanFromManifest] reads back. *)
Theorem NewPlan_roundtrip m :
  Items m ≠ [] →
  PlanFromManifest (Plan_Apply (Some (NewPlan (length (Items m)))) (Some m)) =
  Ok (NewPlan (length (Items m))).
Proof.
  intros Hne. set (n := length (Items m)). set (bs := sequential_bindings 1 n).
  assert (Hb : bindings (NewPlan n) = bs) by apply foldl_add_bindings.
  pose proof (PlanFromManifest_spec (MkManifest (MVersion m) (Items m) bs)) as H.
  unfold Plan_Apply, Plan_Bindings. rewrite Hb.
  destruct (PlanFromManifest _) as [p|e] eqn:E.
  2:{ exfalso. destruct H as [H|[_ H]]; [done|]. apply H. by apply sequential_valid. }
  f_equal. unfold PlanFromManifest in E. cbn [Items Streams] in E. res_inv.
  assert (bs ≠ []) as Hbs.
  { intros E. apply (f_equal length) in E. unfold bs, sequential_bindings in E.
    rewrite length_fmap, length_seq in E. simpl in E. by apply nil_length_inv in E. }
  destruct (zlen bs =? 0) eqn:E1; [bool_prop; by apply zlen_nil in E1|]. res_inv.
  match goal with Hr : bind_streams _ _ _ = Ok _ |- _ => apply bind_streams_result in Hr as -> end.
  unfold NewPlan, newPlan. fold bs. simpl.
  pose proof (foldl_add_bindings bs (MkPlan bs ∅ ∅)) as El.
  destruct (foldl_add_ext bs (MkPlan [] ∅ ∅) (MkPlan bs ∅ ∅)) as [F1 F2]; [done..|].
  rewrite F1, F2. destruct (foldl add_binding (MkPlan bs ∅ ∅) bs); simpl in *. by subst.
Qed.

Lemma NewPlan_roundtrip_witness :
  let m := MkManifest 1 [zero_item; zero_item] [] in
  PlanFromManifest (Plan_Apply (Some (NewPlan 2)) (Some m)) = Ok (NewPlan 2).
Proof. apply (NewPlan_roundtrip (MkManifest 1 [zero_item; zero_item] [])). done. Defined.

(** ** Resume entries *)

Lemma ValidateResumeEntry_inv `{CaseTables} p items e off :
  ValidateResumeEntry p items e = Ok off →
  ∃ it, zlookup items (REItem e) = Some it ∧ is_Some (StreamForItem p (REItem e)) ∧
    0 ≤ REOffset e ∧ off = clampInt64 (REOffset e) 0 (Size it) ∧
    (RESkip e = true → Kind it = ItemFile ∧ REOffset e = Size it ∧ REPrefixSHA256 e = ""%string) ∧
    (REComplete e = true → RESkip e = true).
Proof.
  unfold ValidateResumeEntry.
  destruct (zlookup items (REItem e)) as [it|]; [|done].
  destruct (StreamForItem p (REItem e)) as [s|]; [|done]. intros Hv. res_inv. bool_prop.
  exists it. split_and!; try done.
  - intros Hs. rewrite Hs in *. res_inv. bool_prop.
    split_and!; [by apply String.eqb_eq|lia|by apply String.eqb_eq].
  - intros Hc. match goal with Hx : REComplete e = false ∨ _ |- _ => destruct Hx; bool_prop; congruence end.
Qed.

(** ** The language of the frames of one direction *)

Inductive tracker_frame := FrOpen (m : Message) | FrChunk (m : Message) | FrEnd (m : Message).

Definition tracker_step (man : option Manifest) (t : Tracker) (f : tracker_frame)
    : result mux_error Tracker :=
  match f with
  | FrOpen m => snd <$> AcceptOpen t man m
  | FrChunk m => (fun _ => t) <$> AcceptChunk t man m
  | FrEnd m => snd <$> AcceptEnd t man m
  end.

Fixpoint tracker_run (man : option Manifest) (t : Tracker) (fs : list tracker_frame)
    : result mux_error Tracker :=
  match fs with
  | [] => Ok t
  | f :: fs' => t' ← tracker_step man t f; tracker_run man t' fs'
  end.

Inductive stream_event := SOpen (s : Z) | SChunk (s : Z) | SEnd (s : Z).

(** What a peer may do with each stream: open it at most once, end it at most
    once and after opening it, and send no chunk after its end.  (A chunk may
    come before the open: a peer without the stream extension sends no open.) *)
Inductive trace_ok : list stream_event → Prop :=
  | trace_nil : trace_ok []
  | trace_open tr s : trace_ok tr → SOpen s ∉ tr → trace_ok (tr ++ [SOpen s])
  | trace_chunk tr s : trace_ok tr → SEnd s ∉ tr → trace_ok (tr ++ [SChunk s])
  | trace_end tr s : trace_ok tr → SOpen s ∈ tr → SEnd s ∉ tr → trace_ok (tr ++ [SEnd s]).

Definition resolves (p : option Plan) (man : option Manifest) (f : tracker_frame)
    (ev : stream_event) : Prop :=
  match f with
  | FrOpen m => ∃ b, ResolveFrame p man m true = Ok b ∧ ev = SOpen (ID b)
  | FrChunk m => ∃ b, ResolveFrame p man m false = Ok b ∧ ev = SChunk (ID b)
  | FrEnd m => ∃ b, ResolveFrame p man m true = Ok b ∧ ev = SEnd (ID b)
  end.

Definition tracks (p : option Plan) (t : Tracker) (tr : list stream_event) : Prop :=
  tplan t = p ∧ ∀ s, (Opened (Tracker_state t s) = true ↔ SOpen s ∈ tr) ∧
                     (Ended (Tracker_state t s) = true ↔ SEnd s ∈ tr).

Lemma elem_of_snoc {A} (x y : A) l : x ∈ l ++ [y] ↔ x ∈ l ∨ x = y.
Proof. by rewrite elem_of_app, list_elem_of_singleton. Qed.

Definition may_follow (tr : list stream_event) (ev : stream_event) : Prop :=
  match ev with
  | SOpen s => SOpen s ∉ tr
  | SChunk s => SEnd s ∉ tr
  | SEnd s => SOpen s ∈ tr ∧ SEnd s ∉ tr
  end.

Lemma trace_ok_snoc_inv tr ev : trace_ok (tr ++ [ev]) → trace_ok tr ∧ may_follow tr ev.
Proof.
  intros H. remember (tr ++ [ev]) as l eqn:E. destruct H as [|? ? ? ?|? ? ? ?|? ? ? ? ?];
    [by destruct tr|..]; apply app_inj_tail in E as [<- <-]; simpl; auto.
Qed.

Lemma trace_end_open tr s : trace_ok tr → SEnd s ∈ tr → SOpen s ∈ tr.
Proof.
  induction 1; rewrite ?elem_of_snoc; [by intros ?%not_elem_of_nil|..];
    intros [?|?]; simplify_eq; auto.
Qed.

Lemma Tracker_state_set t id st s :
  Tracker_state (set_state t id st) s = if decide (id = s) then st else Tracker_state t s.
Proof.
  unfold Tracker_state, set_state. simpl. case_decide as E; [by subst; rewrite lookup_insert_eq|].
  by rewrite lookup_insert_ne.
Qed.

(** One frame: accepted exactly when it resolves and extends the trace. *)
Lemma tracker_step_trace p man t tr f :
  tracks p t tr → trace_ok tr →
  match tracker_step man t f with
  | Ok t' => ∃ ev, resolves p man f ev ∧ trace_ok (tr ++ [ev]) ∧ tracks p t' (tr ++ [ev])
  | Err _ => ∀ ev, resolves p man f ev → ¬ trace_ok (tr ++ [ev])
  end.
Proof.
  intros [Hp Hs] Htr.
  assert (Hinv : ∀ ev, trace_ok (tr ++ [ev]) → may_follow tr ev)
    by (intros ev Hev; by apply trace_ok_snoc_inv).
  destruct f as [m|m|m]; simpl; unfold AcceptOpen, AcceptChunk, acceptChunk, AcceptEnd; rewrite Hp;
    destruct (ResolveFrame p man m _) as [b|e] eqn:Er; simpl; try (by intros ev (? & ? & _));
    destruct (Hs (ID b)) as [Ho He]; unfold fail_if.
  - destruct (Opened _) eqn:E; simpl.
    { intros ev (b' & [= <-] & ->) Hno%Hinv. apply Hno. by apply Ho. }
    exists (SOpen (ID b)). assert (Hno : SOpen (ID b) ∉ tr) by (intros Hin; apply Ho in Hin; congruence).
    split; [eauto|].
    split; [by constructor|]. split; [done|]. intros s. rewrite Tracker_state_set, !elem_of_snoc.
    specialize (Hs s). case_decide; subst; simpl; [|naive_solver].
    split; [naive_solver|]. split; [done|]. intros [Hend|]; [|done].
    exfalso. by apply Hno, (trace_end_open tr).
  - rewrite andb_true_r. destruct (Ended _) eqn:E; simpl.
    { intros ev (b' & [= <-] & ->) Hno%Hinv. apply Hno. by apply He. }
    exists (SChunk (ID b)). assert (Hno : SEnd (ID b) ∉ tr) by (intros Hin; apply He in Hin; congruence).
    split; [eauto|].
    split; [by constructor|]. split; [done|]. intros s. rewrite !elem_of_snoc.
    specialize (Hs s). naive_solver.
  - destruct (Opened _) eqn:E; simpl.
    2:{ intros ev (b' & [= <-] & ->) [Hno _]%Hinv. apply Ho in Hno. congruence. }
    destruct (Ended _) eqn:E'; simpl.
    { intros ev (b' & [= <-] & ->) [_ Hno]%Hinv. apply Hno. by apply He. }
    exists (SEnd (ID b)). assert (Hno : SEnd (ID b) ∉ tr) by (intros Hin; apply He in Hin; congruence).
    assert (Hyes : SOpen (ID b) ∈ tr) by (apply Ho; congruence). split; [eauto|].
    split; [by constructor|]. split; [done|]. intros s. rewrite Tracker_state_set, !elem_of_snoc.
    specialize (Hs s). case_decide; subst; simpl; naive_solver.
Qed.

Lemma trace_ok_prefix tr1 tr2 : trace_ok (tr1 ++ tr2) → trace_ok tr1.
Proof.
  induction tr2 as [|e tr2 IH] using rev_ind; [by rewrite app_nil_r|].
  rewrite (assoc_L (++)). intros H. apply IH.
  by apply trace_ok_snoc_inv in H as [? _].
Qed.

Lemma resolves_fun p man f e1 e2 : resolves p man f e1 → resolves p man f e2 → e1 = e2.
Proof.
  destruct f; simpl; intros (b1 & E1 & ->) (b2 & E2 & ->); rewrite E1 in E2; by injection E2 as ->.
Qed.

Lemma tracker_run_trace p man fs t tr0 :
  tracks p t tr0 → trace_ok tr0 →
  is_ok (tracker_run man t fs) = true ↔
  ∃ tr, Forall2 (resolves p man) fs tr ∧ trace_ok (tr0 ++ tr).
Proof.
  revert t tr0. induction fs as [|f fs IH]; intros t tr0 Ht Htr; simpl.
  { split; [|done]. intros _. exists []. by rewrite app_nil_r. }
  pose proof (tracker_step_trace p man t tr0 f Ht Htr) as Hstep.
  destruct (tracker_step man t f) as [t'|e]; simpl.
  - destruct Hstep as (ev & Hr & Hok & Ht'). rewrite (IH t' _ Ht' Hok). split.
    + intros (tr & Hf & Hall). exists (ev :: tr). rewrite <- (assoc_L (++)) in Hall.
      split; [by constructor|done].
    + intros (tr & Hf & Hall). inversion Hf as [|? ev' ? tr' Hr' Hf']; subst.
      assert (ev' = ev) as -> by by eapply resolves_fun.
      exists tr'. by rewrite <- (assoc_L (++)).
  - split; [done|]. intros (tr & Hf & Hall). inversion Hf as [|? ev' ? tr' Hr' Hf']; subst.
    exfalso. apply (Hstep ev' Hr').
    replace (tr0 ++ ev' :: tr') with ((tr0 ++ [ev']) ++ tr') in Hall by by rewrite <- (assoc_L (++)).
    by eapply trace_ok_prefix.
Qed.

(** The tracker accepts a sequence of open, chunk and end frames exactly
    when every frame names the stream bound to its item and each stream is
    opened at most once, ended at most once after its open, and receives no
    chunk after its end. *)
Theorem tracker_language p man fs :
  is_ok (tracker_run man (NewTracker p) fs) = true ↔
  ∃ tr, Forall2 (resolves p man) fs tr ∧ trace_ok tr.
Proof.
  apply (tracker_run_trace p man fs (NewTracker p) []); [|constructor].
  split; [done|]. intros s. unfold Tracker_state. simpl. rewrite lookup_empty. simpl.
  by rewrite !elem_of_nil.
Qed.
