(* ===== verification/Scheduler.v ===== *)
(** * Weighted stream scheduling ([internal/mux/scheduler.go])

    Deficit round robin over the streams of a transfer: [Next] grants a turn
    with a byte budget, [Commit] charges what was sent and moves on.  [current]
    is the index of the stream whose turn is open (the Go code keeps a pointer
    to its state); [int] arithmetic on deficits wraps at 64 bits. *)
From Stdlib Require Import ZArith Lia Ascii String.
From stdpp Require Import base tactics numbers list gmap strings.
From S2P Require Import Prelude.

Record WeightedStream := MkWeightedStream { WSID : Z; WSWeight : Z }.
Record Turn := MkTurn { TStreamID : Z; TBudget : Z; TOK : bool }.
Record weightedState := MkWeightedState {
  ws_id : Z; ws_weight : Z; ws_deficit : Z; ws_active : bool
}.
Record WeightedScheduler := MkScheduler {
  streams : list weightedState;
  byID : gset Z;
  quantum : Z;
  cursor : nat;
  active : Z;
  current : option nat;
  budget : Z;
}.

Inductive sched_error :=
  | QuantumNotPositive (quantum : Z)
  | NegativeSchedulerID (id : Z)
  | InvalidWeight (id weight : Z)
  | DuplicateSchedulerID (id : Z)
  | MaxTurnNotPositive (maxBytes : Z)
  | TurnNotCommitted (id : Z)
  | NoActiveTurn
  | CommittedOtherStream (id active : Z)
  | OutsideBudget (id used budget : Z)
  | NoProgress (id : Z).

(** The loop of the constructor, lines 42-56. *)
Fixpoint add_streams (ss : list WeightedStream) (s : WeightedScheduler)
    : result sched_error WeightedScheduler :=
  match ss with
  | [] => Ok s
  | x :: ss' =>
      _ ← fail_if (WSID x <? 0) (NegativeSchedulerID (WSID x));
      _ ← fail_if (WSWeight x <=? 0) (InvalidWeight (WSID x) (WSWeight x));
      _ ← fail_if (bool_decide (WSID x ∈ byID s)) (DuplicateSchedulerID (WSID x));
      add_streams ss'
        (MkScheduler (streams s ++ [MkWeightedState (WSID x) (WSWeight x) 0 true])
           ({[WSID x]} ∪ byID s) (quantum s) (cursor s) (active s + 1) (current s) (budget s))
  end.

Definition NewWeightedScheduler (ss : list WeightedStream) (quantum : Z)
    : result sched_error WeightedScheduler :=
  _ ← fail_if (quantum <=? 0) (QuantumNotPositive quantum);
  add_streams ss (MkScheduler [] ∅ quantum 0 0 None 0).

Definition set_stream (s : WeightedScheduler) (i : nat) (st : weightedState) : WeightedScheduler :=
  MkScheduler (<[i := st]> (streams s)) (byID s) (quantum s) (cursor s) (active s) (current s) (budget s).
Definition set_cursor (s : WeightedScheduler) (c : nat) : WeightedScheduler :=
  MkScheduler (streams s) (byID s) (quantum s) c (active s) (current s) (budget s).
Definition set_turn (s : WeightedScheduler) (cur : option nat) (b : Z) : WeightedScheduler :=
  MkScheduler (streams s) (byID s) (quantum s) (cursor s) (active s) cur b.
Definition set_active (s : WeightedScheduler) (a : Z) : WeightedScheduler :=
  MkScheduler (streams s) (byID s) (quantum s) (cursor s) a (current s) (budget s).

Definition sched_advance (s : WeightedScheduler) : WeightedScheduler :=
  if (length (streams s) =? 0)%nat then s
  else set_cursor s ((cursor s + 1) mod length (streams s)).

(** The [for] loop of [Next]: skip the finished streams.  [None] is a run that
    has not stopped within the fuel, or an index out of range. *)
Fixpoint Next_loop (fuel : nat) (s : WeightedScheduler) (maxBytes : Z)
    : option (Turn * WeightedScheduler) :=
  match fuel with
  | O => None
  | S fuel' =>
      state ← streams s !! cursor s;
      if negb (ws_active state) then Next_loop fuel' (sched_advance s) maxBytes
      else
        let state :=
          if ws_deficit state <=? 0
          then MkWeightedState (ws_id state) (ws_weight state)
                 (wrap64 (ws_deficit state + wrap64 (quantum s * ws_weight state))) (ws_active state)
          else state in
        let b := Z.min maxBytes (ws_deficit state) in
        Some (MkTurn (ws_id state) b true,
              set_turn (set_stream s (cursor s) state) (Some (cursor s)) b)
  end.

(** [None]: the call does not return (ruled out by [Next_total]). *)
Definition Next (s : WeightedScheduler) (maxBytes : Z)
    : option (result sched_error (Turn * WeightedScheduler)) :=
  if maxBytes <=? 0 then Some (Err (MaxTurnNotPositive maxBytes))
  else match current s with
  | Some i => state ← streams s !! i; Some (Err (TurnNotCommitted (ws_id state)))
  | None =>
      if active s =? 0 then Some (Ok (MkTurn 0 0 false, s))
      else Ok <$> Next_loop (S (length (streams s))) s maxBytes
  end.

Definition Commit (s : WeightedScheduler) (streamID usedBytes : Z) (done : bool)
    : result sched_error WeightedScheduler :=
  match current s with
  | None => Err NoActiveTurn
  | Some i =>
      match streams s !! i with
      | None => Err NoActiveTurn
      | Some state =>
          _ ← fail_if (negb (ws_id state =? streamID)) (CommittedOtherStream streamID (ws_id state));
          _ ← fail_if ((usedBytes <? 0) || (usedBytes >? budget s)) (OutsideBudget streamID usedBytes (budget s));
          _ ← fail_if ((usedBytes =? 0) && negb done) (NoProgress streamID);
          let deficit := wrap64 (ws_deficit state - usedBytes) in
          let state' := if done then MkWeightedState (ws_id state) (ws_weight state) 0 false
                        else MkWeightedState (ws_id state) (ws_weight state) deficit (ws_active state) in
          let s' := set_stream s i state' in
          let s' := if done then set_active s' (active s' - 1) else s' in
          let advance := done || (ws_deficit state' <=? 0) || (usedBytes <? budget s) in
          let s' := set_turn s' None 0 in
          Ok (if advance && (active s' >? 0) then sched_advance s' else s')
      end
  end.

(** ** The invariant *)

Fixpoint count_active (l : list weightedState) : Z :=
  match l with
  | [] => 0
  | st :: l' => (if ws_active st then 1 else 0) + count_active l'
  end.

(** A stream's deficit stays within its weighted quantum, which fits an [int]. *)
Record stream_ok (q : Z) (st : weightedState) : Prop := {
  so_weight : 0 < ws_weight st;
  so_fits : q * ws_weight st ≤ int64_max;
  so_deficit : 0 ≤ ws_deficit st ≤ q * ws_weight st;
  so_done : ws_active st = false → ws_deficit st = 0;
}.

Definition turn_ok (s : WeightedScheduler) : Prop :=
  match current s with
  | None => budget s = 0
  | Some i => i = cursor s ∧
      ∃ st, streams s !! i = Some st ∧ ws_active st = true ∧ 0 < budget s ≤ ws_deficit st
  end.

Record sched_inv (s : WeightedScheduler) : Prop := {
  si_quantum : 0 < quantum s;
  si_streams : Forall (stream_ok (quantum s)) (streams s);
  si_active : active s = count_active (streams s);
  si_cursor : (cursor s < length (streams s))%nat ∨ streams s = [];
  si_turn : turn_ok s;
}.

Lemma count_active_app l1 l2 : count_active (l1 ++ l2) = count_active l1 + count_active l2.
Proof. induction l1; simpl; lia. Qed.

Lemma count_active_insert l i st st' :
  l !! i = Some st →
  count_active (<[i := st']> l) =
    count_active l - (if ws_active st then 1 else 0) + (if ws_active st' then 1 else 0).
Proof.
  revert i. induction l as [|x l IH]; intros [|i] H; simpl in *; simplify_eq.
  - lia.
  - rewrite (IH _ H). lia.
Qed.

Lemma count_active_nonneg l : 0 ≤ count_active l.
Proof. induction l as [|st l]; simpl; [lia|]. destruct (ws_active st); lia. Qed.

Lemma count_active_pos l : 0 < count_active l → ∃ i st, l !! i = Some st ∧ ws_active st = true.
Proof.
  induction l as [|st l IH]; simpl; [lia|].
  destruct (ws_active st) eqn:E; [intros _; by exists O, st|].
  intros H. destruct IH as (i & st' & ? & ?); [lia|]. by exists (S i), st'.
Qed.

Lemma add_streams_inv ss s s' :
  sched_inv s → cursor s = O → current s = None →
  Forall (fun x => quantum s * WSWeight x ≤ int64_max) ss →
  add_streams ss s = Ok s' →
  sched_inv s' ∧ quantum s' = quantum s ∧ cursor s' = O ∧ current s' = None ∧ budget s' = budget s ∧
  streams s' = streams s ++ ((fun x => MkWeightedState (WSID x) (WSWeight x) 0 true) <$> ss).
Proof.
  revert s. induction ss as [|x ss IH]; intros s Hinv Hc Hcur Hfit H; simpl in H; res_inv.
  - split_and!; try done. by rewrite app_nil_r.
  - apply Forall_cons in Hfit as [Hx Hfit]. bool_prop.
    match goal with Hr : add_streams _ _ = Ok _ |- _ => rename Hr into Hadd end.
    eapply IH in Hadd as (? & Hq & ? & ? & ? & Hs); simpl in *; try done.
    + split_and!; try done. rewrite Hs. by rewrite <- (assoc_L (++)).
    + destruct Hinv as [Hq Hst Ha _ Ht]. constructor; simpl; try done.
      * apply Forall_app. split; [done|]. constructor; [|constructor].
        constructor; simpl; try done; lia.
      * rewrite count_active_app, Ha. simpl. lia.
      * left. rewrite length_app. simpl. lia.
      * unfold turn_ok in *. simpl. by rewrite Hcur in *.
Qed.

Lemma NewWeightedScheduler_inv ss q s :
  Forall (fun x => q * WSWeight x ≤ int64_max) ss →
  NewWeightedScheduler ss q = Ok s →
  sched_inv s ∧ quantum s = q ∧ cursor s = O ∧ current s = None ∧ budget s = 0 ∧
  streams s = (fun x => MkWeightedState (WSID x) (WSWeight x) 0 true) <$> ss.
Proof.
  intros Hfit H. unfold NewWeightedScheduler in H. res_inv. bool_prop.
  match goal with Hr : add_streams _ _ = Ok _ |- _ => rename Hr into Hadd end.
  eapply add_streams_inv in Hadd; [exact Hadd|..]; try done.
  constructor; simpl; try done. by right.
Qed.

(** ** [Next] stops and grants a turn *)

(** The state of the stream at the cursor once its turn opens. *)
Definition refill (q : Z) (st : weightedState) : weightedState :=
  if ws_deficit st <=? 0
  then MkWeightedState (ws_id st) (ws_weight st)
         (wrap64 (ws_deficit st + wrap64 (q * ws_weight st))) (ws_active st)
  else st.

Lemma refill_ok q st :
  0 < q → stream_ok q st → ws_active st = true →
  stream_ok q (refill q st) ∧ 0 < ws_deficit (refill q st) ∧ ws_active (refill q st) = true ∧
  ws_id (refill q st) = ws_id st ∧
  ws_deficit (refill q st) = if ws_deficit st <=? 0 then q * ws_weight st else ws_deficit st.
Proof.
  intros Hq [Hw Hf Hd Hi] Ha. unfold refill.
  assert (E : wrap64 (q * ws_weight st) = q * ws_weight st).
  { apply wrap64_id. unfold in_int64, int64_min, int64_max in *. nia. }
  destruct (ws_deficit st <=? 0) eqn:E0; bool_prop; simpl.
  - rewrite E. replace (ws_deficit st) with 0 in * by lia. rewrite Z.add_0_l, E.
    split_and!; try done; try nia. constructor; simpl; try done; [nia|]. intros Hn. congruence.
  - split_and!; try done; lia.
Qed.

Lemma mod_succ_shift c k n :
  (0 < n)%nat → (((c + 1) mod n + k) mod n = (c + S k) mod n)%nat.
Proof. intros. rewrite Nat.Div0.add_mod_idemp_l. f_equal. lia. Qed.

Lemma advance_cursor s :
  streams s ≠ [] → sched_advance s = set_cursor s ((cursor s + 1) mod length (streams s)).
Proof. intros H. unfold sched_advance. destruct (streams s) eqn:E; [done|]. done. Qed.

(** After [k] finished streams the loop stops at the first active one. *)
Lemma Next_loop_reach k fuel s maxBytes st :
  (k < fuel)%nat → streams s ≠ [] → (cursor s < length (streams s))%nat →
  let c := ((cursor s + k) mod length (streams s))%nat in
  streams s !! c = Some st → ws_active st = true →
  (∀ j, (j < k)%nat → ∃ st', streams s !! ((cursor s + j) mod length (streams s))%nat = Some st' ∧
                              ws_active st' = false) →
  Next_loop fuel s maxBytes =
    Some (MkTurn (ws_id st) (Z.min maxBytes (ws_deficit (refill (quantum s) st))) true,
          set_turn (set_stream (set_cursor s c) c (refill (quantum s) st)) (Some c)
            (Z.min maxBytes (ws_deficit (refill (quantum s) st)))).
Proof.
  revert fuel s. induction k as [|k IH]; intros [|fuel] s Hk Hne Hc c Hst Ha Hskip; [lia| |lia|].
  - assert (Hcs : c = cursor s) by (unfold c; rewrite Nat.add_0_r; by apply Nat.mod_small).
    clearbody c. subst c. simpl. rewrite Hst. simpl. rewrite Ha. simpl.
    unfold refill. rewrite ?Ha. destruct (ws_deficit st <=? 0); [|destruct st]; destruct s; simpl in *; rewrite ?Ha; reflexivity.
  - destruct (Hskip O ltac:(lia)) as (st0 & H0 & Ha0). rewrite Nat.add_0_r, Nat.mod_small in H0 by done.
    assert (Hn : (0 < length (streams s))%nat) by lia.
    cbn [Next_loop]. rewrite H0. simpl. rewrite Ha0. simpl. rewrite advance_cursor by done.
    assert (Hc' : (((cursor s + 1) mod length (streams s) + k) mod length (streams s) = c)%nat)
      by by apply mod_succ_shift.
    rewrite (IH fuel (set_cursor s ((cursor s + 1) mod length (streams s)))); simpl; try done.
    + rewrite Hc'. done.
    + lia.
    + apply Nat.mod_upper_bound. lia.
    + by rewrite Hc'.
    + intros j Hj. rewrite mod_succ_shift by done. apply Hskip. lia.
Qed.

(** The first active stream at or after the cursor. *)
Lemma first_active s :
  streams s ≠ [] → (cursor s < length (streams s))%nat → 0 < count_active (streams s) →
  ∃ k st, (k < length (streams s))%nat ∧
    streams s !! ((cursor s + k) mod length (streams s))%nat = Some st ∧ ws_active st = true ∧
    (∀ j, (j < k)%nat → ∃ st', streams s !! ((cursor s + j) mod length (streams s))%nat = Some st' ∧
                                ws_active st' = false).
Proof.
  intros Hne Hc (i & sti & Hi & Hai)%count_active_pos. set (n := length (streams s)) in *.
  assert (Hil : (i < n)%nat) by by eapply lookup_lt_Some.
  assert (Hreach : ∃ k, (k < n)%nat ∧ ((cursor s + k) mod n = i)%nat).
  { destruct (Nat.le_gt_cases (cursor s) i).
    - exists (i - cursor s)%nat. split; [lia|]. rewrite Nat.mod_small; lia.
    - exists (n + i - cursor s)%nat. split; [lia|].
      replace (cursor s + (n + i - cursor s))%nat with (i + 1 * n)%nat by lia.
      rewrite Nat.Div0.mod_add. by apply Nat.mod_small. }
  destruct Hreach as (k & Hk & Ek). revert i sti Hi Hai Hil Ek.
  induction k as [k IH] using lt_wf_ind. intros i sti Hi Hai Hil Ek.
  assert (Hdec : (∃ j, (j < k)%nat ∧ ∃ st, streams s !! ((cursor s + j) mod n)%nat = Some st ∧ ws_active st = true) ∨
                 (∀ j, (j < k)%nat → ∃ st', streams s !! ((cursor s + j) mod n)%nat = Some st' ∧ ws_active st' = false)).
  { clear IH Ek Hk. induction k as [|k [(j & ? & ?)|Hall]]; [right; lia|left; exists j; split; [lia|done]|].
    destruct (lookup_lt_is_Some_2 (streams s) ((cursor s + k) mod n)%nat) as [st Hst].
    { apply Nat.mod_upper_bound. lia. }
    destruct (ws_active st) eqn:Ea; [left; exists k; split; [lia|eauto]|].
    right. intros j Hj. destruct (decide (j = k)) as [->|]; [eauto|]. apply Hall. lia. }
  destruct Hdec as [(j & Hj & st & Hst & Ha)|Hall].
  - apply (IH j Hj ltac:(lia) ((cursor s + j) mod n)%nat st); try done.
    apply Nat.mod_upper_bound. lia.
  - exists k, sti. rewrite Ek. done.
Qed.

Lemma count_zero_iff s : sched_inv s → active s = 0 ↔ ∀ i st, streams s !! i = Some st → ws_active st = false.
Proof.
  intros Hs. rewrite (si_active _ Hs). clear. induction (streams s) as [|x l IH]; simpl.
  - split; [|done]. intros _ ? ? ?%lookup_nil_Some || (intros _ i st; by rewrite lookup_nil).
  - pose proof (count_active_nonneg l). split.
    + intros H0 [|i] st Hi; simpl in Hi; simplify_eq.
      * destruct (ws_active st); [lia|done].
      * destruct (ws_active x); [lia|]. by apply (proj1 IH H0 i).
    + intros H0. rewrite (H0 O x eq_refl), (proj2 IH); [done|]. intros i. apply (H0 (S i)).
Qed.

(** An idle scheduler with an active stream grants a turn. *)
Lemma Next_grants s maxBytes :
  sched_inv s → current s = None → 0 < active s → 0 < maxBytes →
  ∃ k c st, c = ((cursor s + k) mod length (streams s))%nat ∧
    streams s !! c = Some st ∧ ws_active st = true ∧
    (∀ j, (j < k)%nat → ∃ st', streams s !! ((cursor s + j) mod length (streams s))%nat = Some st' ∧
                                ws_active st' = false) ∧
    let st1 := refill (quantum s) st in
    let b := Z.min maxBytes (ws_deficit st1) in
    Next s maxBytes =
      Some (Ok (MkTurn (ws_id st) b true,
                set_turn (set_stream (set_cursor s c) c st1) (Some c) b)).
Proof.
  intros Hs Hcur Ha Hm. pose proof (si_active _ Hs) as Hcount.
  destruct (si_cursor _ Hs) as [Hc|Hnil]; [|rewrite Hnil in Hcount; simpl in Hcount; lia].
  assert (Hne : streams s ≠ []) by (intros E; rewrite E in Hc; simpl in Hc; lia).
  destruct (first_active s) as (k & st & Hk & Hst & Hact & Hskip); [done..|lia|].
  exists k, ((cursor s + k) mod length (streams s))%nat, st.
  split_and!; try done. cbv zeta. unfold Next. rewrite Hcur.
  replace (maxBytes <=? 0) with false by (symmetry; apply Z.leb_gt; lia).
  replace (active s =? 0) with false by (symmetry; apply Z.eqb_neq; lia).
  rewrite (Next_loop_reach k _ s maxBytes st); try done. lia.
Qed.

Lemma granted_inv s c st b :
  sched_inv s → streams s !! c = Some st → ws_active st = true →
  0 < b ≤ ws_deficit (refill (quantum s) st) →
  sched_inv (set_turn (set_stream (set_cursor s c) c (refill (quantum s) st)) (Some c) b).
Proof.
  intros Hs Hst Ha Hb. pose proof Hs as [Hq Hall Hact Hc Ht].
  assert (Hok : stream_ok (quantum s) st).
  { rewrite Forall_forall in Hall. apply Hall. by eapply list_elem_of_lookup_2. }
  destruct (refill_ok _ _ Hq Hok Ha) as (Hrok & Hpos & Hra & _ & _).
  constructor; simpl; try done.
  - by apply Forall_insert.
  - rewrite (count_active_insert _ _ _ _ Hst), Ha, Hra, Hact. lia.
  - left. rewrite length_insert. by eapply lookup_lt_Some.
  - unfold turn_ok; simpl. split; [done|]. exists (refill (quantum s) st).
    rewrite list_lookup_insert_eq by by eapply lookup_lt_Some. done.
Qed.

Lemma advance_inv s :
  sched_inv s → current s = None → sched_inv (sched_advance s).
Proof.
  intros [Hq Hall Hact Hc Ht] Hcur. unfold sched_advance.
  destruct (length (streams s) =? 0)%nat eqn:E; bool_prop; [by constructor|].
  constructor; simpl; try done.
  - left. by apply Nat.mod_upper_bound.
  - unfold turn_ok in *. simpl. by rewrite Hcur in *.
Qed.

Lemma advance_current s : current (sched_advance s) = current s.
Proof. unfold sched_advance. by case_if. Qed.

Lemma advance_budget s : budget (sched_advance s) = budget s.
Proof. unfold sched_advance. by case_if. Qed.

Lemma Commit_inv s id used done s' :
  sched_inv s → Commit s id used done = Ok s' → sched_inv s' ∧ current s' = None ∧ budget s' = 0.
Proof.
  intros Hs H. pose proof Hs as [Hq Hall Hact Hc Ht]. unfold Commit, turn_ok in *.
  destruct (current s) as [i|]; [|done]. destruct Ht as (-> & st & Hst & Ha & Hb).
  rewrite Hst in H. res_inv. bool_prop.
  assert (Hok : stream_ok (quantum s) st).
  { rewrite Forall_forall in Hall. apply Hall. by eapply list_elem_of_lookup_2. }
  destruct Hok as [Hw Hf Hd Hi].
  assert (Hlen : (cursor s < length (streams s))%nat) by by eapply lookup_lt_Some.
  rewrite wrap64_id by (unfold in_int64, int64_min, int64_max in *; lia).
  set (st' := if done then MkWeightedState (ws_id st) (ws_weight st) 0 false
              else MkWeightedState (ws_id st) (ws_weight st) (ws_deficit st - used) (ws_active st)).
  assert (Hok' : stream_ok (quantum s) st').
  { unfold st'. destruct done; constructor; simpl; try done; try lia. intros; congruence. }
  set (s1 := set_turn (if done then set_active (set_stream s (cursor s) st') (active (set_stream s (cursor s) st') - 1)
                       else set_stream s (cursor s) st') None 0).
  assert (Hs1 : sched_inv s1).
  { unfold s1. destruct done; constructor; simpl; try done.
    all: try (by apply Forall_insert).
    all: try (left; by rewrite length_insert).
    all: rewrite (count_active_insert _ _ _ _ Hst), Ha, Hact; simpl; rewrite ?Ha; lia. }
  assert (Hcur1 : current s1 = None ∧ budget s1 = 0) by done.
  destruct (_ && _); [|done]. split; [by apply advance_inv|].
  by rewrite advance_current, advance_budget.
Qed.

(** ** The properties *)

Inductive sched_op := OpNext (maxBytes : Z) | OpCommit (id used : Z) (done : bool).

(** One call; a refused call leaves the scheduler as it was. *)
Definition sched_call (s : WeightedScheduler) (op : sched_op) : option WeightedScheduler :=
  match op with
  | OpNext m => (fun r => match r with Ok (_, s') => s' | Err _ => s end) <$> Next s m
  | OpCommit id used done =>
      Some (match Commit s id used done with Ok s' => s' | Err _ => s end)
  end.

Fixpoint sched_calls (s : WeightedScheduler) (ops : list sched_op) : option WeightedScheduler :=
  match ops with
  | [] => Some s
  | op :: ops' => s' ← sched_call s op; sched_calls s' ops'
  end.

Lemma Next_total_inv s maxBytes :
  sched_inv s →
  ∃ r, Next s maxBytes = Some r ∧
    match r with
    | Err _ => True
    | Ok (t, s') => sched_inv s' ∧
        (TOK t = false → t = MkTurn 0 0 false ∧ s' = s ∧
           ∀ i st, streams s !! i = Some st → ws_active st = false) ∧
        (TOK t = true → 0 < TBudget t ≤ maxBytes ∧ current s' = Some (cursor s') ∧
           budget s' = TBudget t ∧
           ∃ st, streams s' !! cursor s' = Some st ∧ ws_active st = true ∧ ws_id st = TStreamID t)
    end.
Proof.
  intros Hs. destruct (maxBytes <=? 0) eqn:Em.
  { exists (Err (MaxTurnNotPositive maxBytes)). unfold Next. by rewrite Em. }
  destruct (current s) as [i|] eqn:Ec.
  { pose proof (si_turn _ Hs) as Ht. unfold turn_ok in Ht. rewrite Ec in Ht.
    destruct Ht as (-> & st & Hst & _). exists (Err (TurnNotCommitted (ws_id st))).
    unfold Next. rewrite Em, Ec, Hst. done. }
  bool_prop. destruct (decide (active s = 0)) as [E0|Hne].
  { exists (Ok (MkTurn 0 0 false, s)). split.
    - unfold Next. rewrite Ec, E0. by replace (maxBytes <=? 0) with false by (symmetry; apply Z.leb_gt; lia).
    - split; [done|]. split; [|done]. intros _. split_and!; try done. by apply count_zero_iff. }
  assert (Ha : 0 < active s).
  { pose proof (si_active _ Hs). pose proof (count_active_nonneg (streams s)). lia. }
  destruct (Next_grants s maxBytes Hs Ec Ha Em) as (k & c & st & Hk & Hst & Hact & _ & HN).
  eexists. split; [exact HN|]. cbv beta iota zeta.
  assert (Hok : stream_ok (quantum s) st).
  { pose proof (si_streams _ Hs) as Hall. rewrite Forall_forall in Hall. apply Hall. by eapply list_elem_of_lookup_2. }
  destruct (refill_ok _ _ (si_quantum _ Hs) Hok Hact) as (Hrok & Hpos & Hra & Hid & _).
  split; [apply granted_inv; try done; lia|]. split; [done|]. intros _. simpl.
  split_and!; try done; try lia. exists (refill (quantum s) st).
  rewrite list_lookup_insert_eq by by eapply lookup_lt_Some. done.
Qed.

(** From construction on, every sequence of [Next] and [Commit] calls, the
    refused ones included, returns and keeps the deficit invariant; so no
    deficit leaves [0 .. quantum * weight] and the index is always in range. *)
Theorem sched_calls_inv ss q s ops :
  NewWeightedScheduler ss q = Ok s →
  Forall (fun x => q * WSWeight x ≤ int64_max) ss →
  ∃ s', sched_calls s ops = Some s' ∧ sched_inv s'.
Proof.
  intros Hn Hfit. destruct (NewWeightedScheduler_inv ss q s Hfit Hn) as [Hs _].
  clear Hn Hfit. revert s Hs. induction ops as [|op ops IH]; intros s Hs; [by exists s|].
  destruct op as [m|id used d]; simpl.
  - destruct (Next_total_inv s m Hs) as (r & -> & Hr). simpl.
    destruct r as [[t s']|e]; apply IH; [by destruct Hr|done].
  - apply IH. destruct (Commit s id used d) as [s'|e] eqn:E; [|done].
    by destruct (Commit_inv _ _ _ _ _ Hs E).
Qed.

Lemma sched_calls_inv_witness :
  ∃ s', sched_calls (MkScheduler [MkWeightedState 1 2 0 true] {[1]} 10 0 1 None 0)
          [OpNext 15; OpCommit 1 15 false; OpNext 15] = Some s' ∧ sched_inv s'.
Proof.
  apply (sched_calls_inv [MkWeightedStream 1 2] 10).
  - vm_compute. reflexivity.
  - repeat constructor; simpl; vm_compute; discriminate.
Defined.

(** [Next] always returns; on an idle scheduler it grants a turn with a
    budget of [1 .. maxBytes] to a stream that is not done, and it reports that
    there is none exactly when every stream is done. *)
Theorem Next_total s maxBytes :
  sched_inv s →
  ∃ r, Next s maxBytes = Some r ∧
    match r with
    | Err _ => True
    | Ok (t, s') => sched_inv s' ∧
        (TOK t = false → t = MkTurn 0 0 false ∧ s' = s ∧
           ∀ i st, streams s !! i = Some st → ws_active st = false) ∧
        (TOK t = true → 0 < TBudget t ≤ maxBytes ∧ current s' = Some (cursor s') ∧
           budget s' = TBudget t ∧
           ∃ st, streams s' !! cursor s' = Some st ∧ ws_active st = true ∧ ws_id st = TStreamID t)
    end.
Proof. apply Next_total_inv. Qed.

Lemma Next_total_witness :
  ∃ r, Next (MkScheduler [MkWeightedState 1 2 0 true] {[1]} 10 0 1 None 0) 15 = Some r.
Proof.
  destruct (Next_total (MkScheduler [MkWeightedState 1 2 0 true] {[1]} 10 0 1 None 0) 15) as (r & Hr & _).
  - constructor; simpl; try done; try lia.
    constructor; [|constructor]. constructor; simpl; try done; vm_compute; discriminate.
  - by exists r.
Defined.

(** ** Weighted shares *)

(** [n] turns, each used to its full budget, no stream finishing: the served
    (stream, bytes) log and the scheduler after it. *)
Fixpoint full_turns (n : nat) (s : WeightedScheduler) (maxBytes : Z)
    : option (list (Z * Z) * WeightedScheduler) :=
  match n with
  | O => Some ([], s)
  | S n' =>
      match Next s maxBytes with
      | Some (Ok (t, s1)) =>
          match Commit s1 (TStreamID t) (TBudget t) false with
          | Ok s2 => '(log, s') ← full_turns n' s2 maxBytes; Some ((TStreamID t, TBudget t) :: log, s')
          | Err _ => None
          end
      | _ => None
      end
  end.

(** The bytes a log grants to one stream. *)
Fixpoint served (id : Z) (log : list (Z * Z)) : Z :=
  match log with
  | [] => 0
  | (i, b) :: log' => (if i =? id then b else 0) + served id log'
  end.

Lemma served_app id l1 l2 : served id (l1 ++ l2) = served id l1 + served id l2.
Proof. induction l1 as [|[i b] l1]; simpl; lia. Qed.

Lemma full_turns_app n1 n2 s m log1 s1 log2 s2 :
  full_turns n1 s m = Some (log1, s1) → full_turns n2 s1 m = Some (log2, s2) →
  full_turns (n1 + n2) s m = Some (log1 ++ log2, s2).
Proof.
  revert s log1. induction n1 as [|n1 IH]; intros s log1 H1 H2; simpl in *; simplify_eq; [done|].
  destruct (Next s m) as [[[t s']|]|]; [|done|done].
  destruct (Commit s' (TStreamID t) (TBudget t) false) as [s''|]; [|done].
  destruct (full_turns n1 s'' m) as [[log s3]|] eqn:E; simpl in H1; [|done]. simplify_eq.
  by rewrite (IH s'' log E H2).
Qed.

(** One fully used turn of the stream at the cursor. *)
Lemma full_turn s m st :
  sched_inv s → current s = None → 0 < m →
  streams s !! cursor s = Some st → ws_active st = true →
  let d := ws_deficit (refill (quantum s) st) in
  let b := Z.min m d in
  let st' := MkWeightedState (ws_id st) (ws_weight st) (d - b) true in
  let s1 := set_stream s (cursor s) st' in
  full_turns 1 s m =
    Some ([(ws_id st, b)], if d - b <=? 0 then sched_advance s1 else s1).
Proof.
  intros Hs Hcur Hm Hst Ha d b st' s1. pose proof Hs as [Hq Hall Hact Hc Ht].
  assert (Hlen : (cursor s < length (streams s))%nat) by by eapply lookup_lt_Some.
  assert (Hok : stream_ok (quantum s) st).
  { rewrite Forall_forall in Hall. apply Hall. by eapply list_elem_of_lookup_2. }
  destruct (refill_ok _ _ Hq Hok Ha) as (Hrok & Hpos & Hra & Hid & _). fold d in Hpos.
  destruct Hrok as [_ Hf Hd _]. fold d in Hd.
  assert (Hpos_act : 0 < active s).
  { rewrite Hact. rewrite <- (take_drop_middle _ _ _ Hst), count_active_app. simpl. rewrite Ha.
    pose proof (count_active_nonneg (take (cursor s) (streams s))).
    pose proof (count_active_nonneg (drop (S (cursor s)) (streams s))). lia. }
  assert (Hne : streams s ≠ []) by (intros E; rewrite E in Hlen; simpl in Hlen; lia).
  unfold full_turns, Next. rewrite Hcur.
  replace (m <=? 0) with false by (symmetry; apply Z.leb_gt; lia).
  replace (active s =? 0) with false by (symmetry; apply Z.eqb_neq; lia).
  rewrite (Next_loop_reach 0 _ s m st); [|lia|done|done|by rewrite Nat.add_0_r, Nat.mod_small|done|lia].
  rewrite Nat.add_0_r, Nat.mod_small by done. fold d b.
  cbn [fmap option_fmap option_map TStreamID TBudget]. unfold Commit. cbn [current set_turn streams set_stream set_cursor budget].
  rewrite list_lookup_insert_eq by done. rewrite Hid, Z.eqb_refl. simpl.
  assert (Hbp : 0 < b ≤ m) by lia.
  assert (Hdf : d ≤ int64_max) by lia.
  replace (b <? 0) with false by (symmetry; apply Z.ltb_ge; lia).
  replace (b >? b) with false by (symmetry; rewrite Z.gtb_ltb; apply Z.ltb_irrefl).
  replace (b =? 0) with false by (symmetry; apply Z.eqb_neq; lia). simpl.
  fold d. rewrite Z.ltb_irrefl, orb_false_r.
  rewrite wrap64_id by (unfold in_int64, int64_min, int64_max in *; lia).
  replace (active s >? 0) with true by (symmetry; rewrite Z.gtb_ltb; apply Z.ltb_lt; lia).
  rewrite andb_true_r. do 2 f_equal. unfold s1, st'. rewrite Hra.
  pose proof (si_turn _ Hs) as Hb0. unfold turn_ok in Hb0. rewrite Hcur in Hb0.
  assert (Hw : ws_weight (refill (quantum s) st) = ws_weight st) by (unfold refill; by case_if).
  rewrite Hw. match goal with |- (if _ then sched_advance ?x else _) = _ => replace x with s1; [done|] end.
  unfold s1, st'. destruct s; simpl in *. subst. unfold set_turn, set_stream, set_cursor; simpl.
  by rewrite list_insert_insert_eq.
Qed.

(** The scheduler with the stream at [i] fully charged. *)
Definition charged (s : WeightedScheduler) (i : nat) (st : weightedState) (d : Z) : WeightedScheduler :=
  set_stream s i (MkWeightedState (ws_id st) (ws_weight st) d true).

Section visit.
Context (s : WeightedScheduler) (m : Z) (st : weightedState).
Hypothesis (Hs : sched_inv s) (Hcur : current s = None) (Hm : 0 < m).
Hypothesis (Hst : streams s !! cursor s = Some st) (Ha : ws_active st = true) (H0 : ws_deficit st = 0).

Let c := cursor s.
Let qw := quantum s * ws_weight st.

Lemma visit_stream_ok : stream_ok (quantum s) st.
Proof using Hs Hst.
  pose proof (si_streams _ Hs) as Hall. rewrite Forall_forall in Hall.
  apply Hall. by eapply list_elem_of_lookup_2.
Qed.

Lemma charged_inv d : 0 < d ≤ qw → sched_inv (charged s c st d).
Proof using Hs Hcur Hst Ha.
  intros Hd. destruct visit_stream_ok as [Hw Hf _ _]. destruct Hs as [Hq Hall Hact Hc Ht].
  constructor; simpl; try done.
  - apply Forall_insert; [done|]. by constructor; simpl; try done; lia.
  - rewrite (count_active_insert _ _ _ _ Hst), Ha, Hact. simpl. lia.
  - left. rewrite length_insert. by eapply lookup_lt_Some.
  - unfold turn_ok in *. simpl. by rewrite Hcur in *.
Qed.

Lemma charged_zero : charged s c st 0 = s.
Proof using Hst Ha H0.
  clear Hs Hcur Hm. unfold charged, set_stream, c. rewrite list_insert_id; [by destruct s|].
  rewrite Hst. f_equal. destruct st; simpl in *; congruence.
Qed.

Lemma charged_turn d :
  0 < d ≤ qw →
  full_turns 1 (charged s c st d) m =
    Some ([(ws_id st, Z.min m d)],
          if d - Z.min m d <=? 0 then sched_advance (charged s c st (d - Z.min m d))
          else charged s c st (d - Z.min m d)).
Proof using Hs Hcur Hm Hst Ha.
  intros Hd. assert (Hlen : (cursor s < length (streams s))%nat) by by eapply lookup_lt_Some.
  assert (Hst' : streams (charged s c st d) !! c = Some (MkWeightedState (ws_id st) (ws_weight st) d true))
    by (simpl; by apply list_lookup_insert_eq).
  pose proof (full_turn _ m _ (charged_inv d Hd) Hcur Hm Hst' eq_refl) as Hone. cbv zeta in Hone.
  assert (Hr : refill (quantum s) (MkWeightedState (ws_id st) (ws_weight st) d true) =
               MkWeightedState (ws_id st) (ws_weight st) d true).
  { unfold refill; simpl. by replace (d <=? 0) with false by (symmetry; apply Z.leb_gt; lia). }
  simpl in Hone. rewrite Hr in Hone. simpl in Hone. etransitivity; [exact Hone|].
  assert (Hset : ∀ st', set_stream (charged s c st d) c st' = set_stream s c st').
  { intros st'. unfold charged, set_stream; simpl. by rewrite list_insert_insert_eq. }
  fold c. by rewrite Hset.
Qed.

(** Serving a positive deficit [d] turn by turn. *)
Lemma charged_visit k d :
  Z.to_nat d = k → 0 < d ≤ qw →
  ∃ n log, full_turns (S n) (charged s c st d) m = Some (log, sched_advance s) ∧
    Forall (fun x => fst x = ws_id st) log ∧ served (ws_id st) log = d.
Proof using Hs Hcur Hm Hst Ha H0.
  revert d. induction k as [k IH] using lt_wf_ind. intros d Hk Hd.
  pose proof (charged_turn d Hd) as Hone.
  destruct (d - m `min` d <=? 0) eqn:E; bool_prop.
  - exists O, [(ws_id st, m `min` d)]. split.
    + rewrite Hone. replace (d - m `min` d) with 0 by lia. by rewrite charged_zero.
    + split; [by constructor|]. simpl. rewrite Z.eqb_refl. lia.
  - destruct (IH (Z.to_nat (d - m `min` d)) ltac:(lia) (d - m `min` d) eq_refl ltac:(lia)) as (n & log & Hn & Hl & Hsv).
    exists (S n), ([(ws_id st, m `min` d)] ++ log).
    split; [by apply (full_turns_app 1 (S n) _ _ _ _ _ _ Hone)|].
    split; [by constructor|]. simpl. rewrite Z.eqb_refl, Hsv. lia.
Qed.

Lemma active_pos : 0 < active s.
Proof using Hs Hst Ha.
  rewrite (si_active _ Hs), <- (take_drop_middle _ _ _ Hst), count_active_app. simpl. rewrite Ha.
  pose proof (count_active_nonneg (take (cursor s) (streams s))).
  pose proof (count_active_nonneg (drop (S (cursor s)) (streams s))). lia.
Qed.

(** The refill of an empty deficit is the same turn as a full one. *)
Lemma Next_charged : Next s m = Next (charged s c st qw) m.
Proof using Hs Hcur Hm Hst Ha H0.
  assert (Hlen : (cursor s < length (streams s))%nat) by by eapply lookup_lt_Some.
  pose proof active_pos as Hp. destruct visit_stream_ok as [Hw Hf _ _].
  pose proof (si_quantum _ Hs) as Hq. unfold Next. simpl. rewrite Hcur.
  destruct (m <=? 0); [done|].
  replace (active s =? 0) with false by (symmetry; apply Z.eqb_neq; lia). f_equal. unfold c.
  rewrite Hst, list_lookup_insert_eq by done. simpl. rewrite Ha, H0. simpl.
  replace (qw <=? 0) with false by (symmetry; apply Z.leb_gt; unfold qw; nia).
  fold qw. rewrite !wrap64_id by (rewrite ?wrap64_id; unfold in_int64, int64_min, int64_max, qw in *; nia).
  unfold charged, set_turn, set_stream; simpl. rewrite list_insert_insert_eq. done.
Qed.

(** A visit: the stream at the cursor is served its whole weighted quantum, in
    turns of at most [m] bytes, and the cursor moves on. *)
Lemma full_visit :
  ∃ n log, full_turns n s m = Some (log, sched_advance s) ∧
    Forall (fun x => fst x = ws_id st) log ∧ served (ws_id st) log = qw.
Proof using Hs Hcur Hm Hst Ha H0.
  destruct visit_stream_ok as [Hw Hf _ _]. pose proof (si_quantum _ Hs) as Hq.
  destruct (charged_visit (Z.to_nat qw) qw eq_refl ltac:(unfold qw; nia)) as (n & log & Hn & Hl & Hsv).
  exists (S n), log. split; [|done]. rewrite <- Hn. cbn [full_turns]. by rewrite Next_charged.
Qed.
End visit.

(** What a round owes to stream [id]. *)
Fixpoint share (q id : Z) (l : list weightedState) : Z :=
  match l with
  | [] => 0
  | st :: l' => (if ws_id st =? id then q * ws_weight st else 0) + share q id l'
  end.

Definition fresh (st : weightedState) : Prop := ws_active st = true ∧ ws_deficit st = 0.

Lemma served_other id id' log :
  Forall (fun x : Z * Z => fst x = id') log → id ≠ id' → served id log = 0.
Proof.
  induction 1 as [|[i b] log Hi _ IH]; intros Hne; simpl in *; [done|].
  subst i. apply Z.eqb_neq in Hne. rewrite Z.eqb_sym in Hne. rewrite Hne. rewrite IH; [done|].
  apply Z.eqb_neq. by rewrite Z.eqb_sym.
Qed.

Lemma set_cursor_inv s c :
  sched_inv s → current s = None → (c < length (streams s))%nat → sched_inv (set_cursor s c).
Proof.
  intros [Hq Hall Hact _ Ht] Hcur Hc. constructor; simpl; try done; [by left|].
  unfold turn_ok in *. simpl. by rewrite Hcur in *.
Qed.

Lemma full_round_from s m k :
  sched_inv s → current s = None → 0 < m → Forall fresh (streams s) →
  (cursor s + k ≤ length (streams s))%nat → (0 < length (streams s))%nat →
  ∃ n log, full_turns n s m = Some (log, set_cursor s ((cursor s + k) mod length (streams s))) ∧
    ∀ id, served id log = share (quantum s) id (take k (drop (cursor s) (streams s))).
Proof.
  revert s. induction k as [|k IH]; intros s Hs Hcur Hm Hfresh Hk Hpos.
  - exists O, []. destruct (si_cursor _ Hs) as [Hc|E]; [|rewrite E in Hpos; simpl in Hpos; lia].
    rewrite Nat.add_0_r, Nat.mod_small by done. split; [by destruct s|done].
  - assert (Hc : (cursor s < length (streams s))%nat) by lia.
    destruct (lookup_lt_is_Some_2 _ _ Hc) as [st Hst].
    assert (Hf : fresh st) by (rewrite Forall_forall in Hfresh; apply Hfresh; by eapply list_elem_of_lookup_2).
    destruct Hf as [Ha H0].
    destruct (full_visit s m st Hs Hcur Hm Hst Ha H0) as (n1 & log1 & Hn1 & Hl1 & Hs1).
    assert (Hne : streams s ≠ []) by (intros E; rewrite E in Hpos; simpl in Hpos; lia).
    rewrite advance_cursor in Hn1 by done. rewrite (drop_S _ _ _ Hst). simpl.
    assert (Hsv : ∀ id, served id log1 = if ws_id st =? id then quantum s * ws_weight st else 0).
    { intros id. destruct (ws_id st =? id) eqn:E; bool_prop; [by subst|].
      eapply served_other; [exact Hl1|done]. }
    destruct (decide (S (cursor s) = length (streams s))) as [Elast|Hmore].
    + assert (k = O) as -> by lia. exists n1, log1. replace (cursor s + 1)%nat with (S (cursor s)) in * by lia.
      split; [done|]. intros id. rewrite Hsv. simpl. lia.
    + assert (Hsm : ((cursor s + 1) mod length (streams s) = S (cursor s))%nat).
      { rewrite Nat.mod_small; lia. }
      rewrite Hsm in Hn1.
      destruct (IH (set_cursor s (S (cursor s)))) as (n2 & log2 & Hn2 & Hs2); simpl; try done; try lia.
      { apply set_cursor_inv; try done. lia. }
      simpl in Hn2, Hs2. exists (n1 + n2)%nat, (log1 ++ log2). split.
      * replace (cursor s + S k)%nat with (S (cursor s) + k)%nat by lia.
        by eapply full_turns_app.
      * intros id. rewrite served_app, Hsv, Hs2. done.
Qed.

Lemma add_streams_ids ss s s' :
  add_streams ss s = Ok s' → (∀ x, x ∈ (ws_id <$> streams s) → x ∈ byID s) →
  NoDup (ws_id <$> streams s) → NoDup (ws_id <$> streams s').
Proof.
  revert s. induction ss as [|x ss IH]; intros s H Hin Hnd; simpl in H; res_inv; [done|]. bool_prop.
  match goal with Hr : add_streams _ _ = Ok _ |- _ => apply IH in Hr; [done|..] end; simpl.
  - intros y. rewrite fmap_app, elem_of_app. simpl. rewrite list_elem_of_singleton. set_solver.
  - rewrite fmap_app. simpl. apply NoDup_app. split; [done|]. split; [|apply NoDup_singleton].
    intros y Hy ->%list_elem_of_singleton. by apply Hin in Hy.
Qed.

Lemma share_nodup q l st :
  NoDup (ws_id <$> l) → st ∈ l → share q (ws_id st) l = q * ws_weight st.
Proof.
  intros Hnd. induction l as [|x l IH]; [by intros ?%not_elem_of_nil|].
  rewrite fmap_cons in Hnd. apply NoDup_cons in Hnd as [Hx Hnd]. simpl.
  assert (Hz : ∀ id l, id ∉ (ws_id <$> l) → share q id l = 0).
  { clear. intros id l. induction l as [|x l IH]; [done|]. intros Hn. simpl.
    rewrite fmap_cons, not_elem_of_cons in Hn. destruct Hn as [Hne Hn]. rewrite IH by done.
    destruct (ws_id x =? id) eqn:E; bool_prop; [congruence|lia]. }
  intros [->|Hin]%elem_of_cons.
  - rewrite Z.eqb_refl, Hz by done. lia.
  - rewrite IH by done. destruct (ws_id x =? ws_id st) eqn:E; bool_prop; [|lia].
    exfalso. apply Hx. rewrite E. by apply list_elem_of_fmap_2.
Qed.

(** Weighted fairness.  While every stream has more to send, one round of
    the scheduler serves each stream exactly [quantum * weight] bytes, whatever
    the turn size is, and then the scheduler is back in its initial state. *)
Theorem sched_round_fair ss q s m :
  NewWeightedScheduler ss q = Ok s → ss ≠ [] → 0 < m →
  Forall (fun x => q * WSWeight x ≤ int64_max) ss →
  ∃ n log, full_turns n s m = Some (log, s) ∧
    ∀ x, x ∈ ss → served (WSID x) log = q * WSWeight x.
Proof.
  intros Hnew Hne Hm Hfit.
  destruct (NewWeightedScheduler_inv ss q s Hfit Hnew) as (Hs & Hq & Hc & Hcur & _ & Hst).
  assert (Hnd : NoDup (ws_id <$> streams s)).
  { unfold NewWeightedScheduler in Hnew. res_inv.
    match goal with Hr : add_streams _ _ = Ok _ |- _ => eapply add_streams_ids; [exact Hr|..] end; simpl;
      [by intros ? ?%not_elem_of_nil|by apply NoDup_nil_2]. }
  assert (Hlen : length (streams s) = length ss) by by rewrite Hst, length_fmap.
  assert (Hpos : (0 < length (streams s))%nat) by (rewrite Hlen; destruct ss; simpl; [done|lia]).
  destruct (full_round_from s m (length (streams s))) as (n & log & Hn & Hsv); try done; [|lia|].
  { rewrite Hst. by apply Forall_fmap, Forall_forall. }
  exists n, log. split.
  - rewrite Hn, Hc, Nat.add_0_l, Nat.Div0.mod_same. do 2 f_equal. destruct s; simpl in *. by subst.
  - intros x Hx. rewrite Hsv, Hc. simpl. rewrite drop_0, firstn_all, Hq.
    apply (share_nodup q (streams s) (MkWeightedState (WSID x) (WSWeight x) 0 true)); [done|].
    rewrite Hst. apply list_elem_of_fmap. by exists x.
Qed.

Lemma sched_round_fair_witness :
  let s := MkScheduler [MkWeightedState 1 2 0 true; MkWeightedState 2 1 0 true] {[2; 1]} 10 0 2 None 0 in
  ∃ n log, full_turns n s 8 = Some (log, s) ∧
    ∀ x, x ∈ [MkWeightedStream 1 2; MkWeightedStream 2 1] → served (WSID x) log = 10 * WSWeight x.
Proof.
  apply (sched_round_fair [MkWeightedStream 1 2; MkWeightedStream 2 1] 10).
  - vm_compute. reflexivity.
  - done.
  - lia.
  - repeat constructor; vm_compute; discriminate.
Defined.

(** ** What a client sees of the scheduler *)

(** The streams and whether they are still scheduled. *)
Definition sched_view (s : WeightedScheduler) : list (Z * bool) := (fun st => (ws_id st, ws_active st)) <$> streams s.

Lemma add_streams_total ss s :
  Forall (fun x => 0 ≤ WSID x ∧ 0 < WSWeight x) ss → NoDup (WSID <$> ss) →
  (∀ x, x ∈ ss → WSID x ∉ byID s) → ∃ s', add_streams ss s = Ok s'.
Proof.
  revert s. induction ss as [|x ss IH]; intros s Hok Hnd Hfresh; [by eexists|]. cbn [add_streams].
  apply Forall_cons in Hok as [[Hx Hw] Hok]. apply NoDup_cons in Hnd as [Hn Hnd].
  replace (WSID x <? 0) with false by (symmetry; apply Z.ltb_ge; lia).
  replace (WSWeight x <=? 0) with false by (symmetry; apply Z.leb_gt; lia).
  rewrite bool_decide_eq_false_2 by (apply Hfresh; by left). cbn [fail_if mbind result_bind].
  apply IH; [done|done|]. intros y Hy. cbn [byID]. intros [Heq%elem_of_singleton|Hin]%elem_of_union.
  - apply Hn. rewrite <- Heq. by apply list_elem_of_fmap_2.
  - by apply (Hfresh y); [right|].
Qed.

Lemma NewWeightedScheduler_total ss q :
  0 < q → Forall (fun x => 0 ≤ WSID x ∧ 0 < WSWeight x ∧ q * WSWeight x ≤ int64_max) ss → NoDup (WSID <$> ss) →
  ∃ s, NewWeightedScheduler ss q = Ok s ∧ sched_inv s ∧ quantum s = q ∧ current s = None ∧
    sched_view s = (fun x => (WSID x, true)) <$> ss.
Proof.
  intros Hq Hok Hnd. destruct (add_streams_total ss (MkScheduler [] ∅ q 0 0 None 0)) as [s Hs].
  - eapply Forall_impl; [exact Hok|]. naive_solver.
  - done.
  - set_solver.
  - assert (Hn : NewWeightedScheduler ss q = Ok s).
    { unfold NewWeightedScheduler. by replace (q <=? 0) with false by (symmetry; apply Z.leb_gt; lia). }
    exists s. split; [done|]. apply NewWeightedScheduler_inv in Hn as (? & ? & _ & ? & _ & Hst);
      [|eapply Forall_impl; [exact Hok|]; naive_solver].
    split_and!; try done. unfold sched_view. rewrite Hst, <- list_fmap_compose. done.
Qed.

Lemma fmap_insert_same {A B} (f : A → B) (l : list A) i x :
  (∀ y, l !! i = Some y → f x = f y) → f <$> <[i := x]> l = f <$> l.
Proof.
  revert i. induction l as [|y l IH]; intros [|i] Hf; cbn; [done|done|by rewrite (Hf y)|].
  f_equal. apply (IH i). intros z Hz. by apply Hf.
Qed.

Lemma advance_view s : sched_view (sched_advance s) = sched_view s ∧ quantum (sched_advance s) = quantum s.
Proof. unfold sched_advance. by case_if. Qed.

(** A turn from [Next] to its [Commit]. *)
Lemma sched_turn w m :
  sched_inv w → current w = None → 0 < m →
  (Next w m = Some (Ok (MkTurn 0 0 false, w)) ∧ ∀ v, v ∈ sched_view w → snd v = false) ∨
  ∃ c id b w1, Next w m = Some (Ok (MkTurn id b true, w1)) ∧ sched_view w !! c = Some (id, true) ∧ 0 < b ≤ m ∧
    ∀ used done, 0 ≤ used ≤ b → (0 < used ∨ done = true) →
      ∃ w2, Commit w1 id used done = Ok w2 ∧ sched_inv w2 ∧ quantum w2 = quantum w ∧ current w2 = None ∧
        sched_view w2 = <[c := (id, negb done)]> (sched_view w).
Proof.
  intros Hs Hc Hm. pose proof (count_active_nonneg (streams w)) as Hnn. rewrite <- (si_active _ Hs) in Hnn.
  destruct (decide (active w = 0)) as [H0|H0].
  { left. split.
    - unfold Next. rewrite Hc, H0. by replace (m <=? 0) with false by (symmetry; apply Z.leb_gt; lia).
    - intros v (st & -> & (i & Hi)%list_elem_of_lookup)%list_elem_of_fmap. cbn.
      by apply (proj1 (count_zero_iff w Hs) H0 i). }
  right. destruct (Next_grants w m Hs Hc ltac:(lia) Hm) as (k & c & st & _ & Hst & Hact & _ & HN). cbn zeta in HN.
  set (st1 := refill (quantum w) st) in *. set (b := Z.min m (ws_deficit st1)) in *.
  assert (Hok : stream_ok (quantum w) st).
  { pose proof (si_streams _ Hs) as Hall. rewrite Forall_forall in Hall. apply Hall. by eapply list_elem_of_lookup_2. }
  destruct (refill_ok _ _ (si_quantum _ Hs) Hok Hact) as (Hok1 & Hpos & Hra & Hrid & _). fold st1 in Hok1, Hpos, Hra, Hrid.
  set (w1 := set_turn (set_stream (set_cursor w c) c st1) (Some c) b) in *.
  assert (Hb : 0 < b ≤ ws_deficit st1) by (unfold b; lia).
  assert (Hw1 : sched_inv w1) by (by apply granted_inv).
  assert (Hl1 : streams w1 !! c = Some st1) by (cbn; apply list_lookup_insert_eq; by eapply lookup_lt_Some).
  assert (Hv1 : sched_view w1 = sched_view w).
  { unfold sched_view. cbn. apply fmap_insert_same. intros y Hy. rewrite Hst in Hy. injection Hy as <-. by rewrite Hrid, Hra, Hact. }
  exists c, (ws_id st), b, w1. split; [exact HN|]. split.
  { unfold sched_view. rewrite list_lookup_fmap, Hst. cbn. by rewrite Hact. }
  split; [unfold b; lia|]. intros used done Hu Hp.
  assert (Hcom : ∃ w2, Commit w1 (ws_id st) used done = Ok w2 ∧ quantum w2 = quantum w ∧
      sched_view w2 = <[c := (ws_id st, negb done)]> (sched_view w1)).
  { unfold Commit. cbn [current w1 set_turn]. rewrite Hl1. change (budget w1) with b. rewrite Hrid, Z.eqb_refl. cbn [negb fail_if mbind result_bind].
    replace (used <? 0) with false by (symmetry; apply Z.ltb_ge; lia).
    replace (used >? b) with false by (symmetry; rewrite Z.gtb_ltb; apply Z.ltb_ge; lia). cbn [orb fail_if mbind result_bind].
    replace ((used =? 0) && negb done) with false
      by (symmetry; apply andb_false_iff; destruct Hp as [Hp| ->]; [left; apply Z.eqb_neq; lia|by right]).
    cbn [fail_if mbind result_bind].
    set (st2 := if done then _ else _). set (w' := set_turn (if done then _ else _) None 0).
    assert (Hw' : quantum w' = quantum w ∧ sched_view w' = <[c := (ws_id st, negb done)]> (sched_view w1)).
    { unfold w', st2. destruct done; (split; [done|]); unfold sched_view; cbn; rewrite list_fmap_insert; cbn; by rewrite ?Hrid, ?Hra. }
    eexists. split; [reflexivity|]. destruct (_ && _); [|done].
    by rewrite (proj1 (advance_view w')), (proj2 (advance_view w')). }
  destruct Hcom as (w2 & Hw2 & Hq & Hv). exists w2. split; [done|].
  destruct (Commit_inv _ _ _ _ _ Hw1 Hw2) as (? & ? & _). split_and!; try done. by rewrite Hv, Hv1.
Qed.
