(* ===== verification/Frame.v ===== *)
(** * Length-prefixed frames ([internal/transport/frame.go])

    [writeFrame] and [readFrame] over a byte stream.  The writer is the bytes
    written so far and how many more the connection takes before it fails (a
    failing [Write] may have written a part); the reader is the bytes that will
    arrive before the stream ends. *)
From Stdlib Require Import ZArith Lia Ascii String.
From stdpp Require Import base tactics numbers list gmap strings.
From S2P Require Import Prelude GoStrings.

Definition maxFrameSize : Z := 8 * 1024 * 1024.

Inductive frame_error := FrameTooLarge | WriteFailed | EOF | UnexpectedEOF.

Record writer := MkWriter { written : bytes; room : nat }.

(** [w.Write(p)]: all of [p], or a part and an error. *)
Definition Write (w : writer) (p : bytes) : writer * option frame_error :=
  if (length p <=? room w)%nat
  then (MkWriter (written w ++ p) (room w - length p), None)
  else (MkWriter (written w ++ take (room w) p) 0, Some WriteFailed).

Definition byte_at (v shift : Z) : ascii := ascii_of_N (Z.to_N (Z.land (Z.shiftr v shift) 255)).

(** [binary.BigEndian.PutUint32] and [Uint32] *)
Definition PutUint32 (v : Z) : bytes := [byte_at v 24; byte_at v 16; byte_at v 8; byte_at v 0].

Definition byte_val (c : ascii) : Z := Z.of_N (N_of_ascii c).
Definition Uint32 (b : bytes) : Z :=
  match b with
  | [b0; b1; b2; b3] =>
      Z.lor (byte_val b3) (Z.lor (Z.shiftl (byte_val b2) 8)
        (Z.lor (Z.shiftl (byte_val b1) 16) (Z.shiftl (byte_val b0) 24)))
  | _ => 0
  end.

Definition uint32 (z : Z) : Z := z mod 2 ^ 32.

Definition writeFrame (w : writer) (payload : bytes) : writer * option frame_error :=
  if Z.of_nat (length payload) >? maxFrameSize then (w, Some FrameTooLarge)
  else
    let '(w, err) := Write w (PutUint32 (uint32 (Z.of_nat (length payload)))) in
    match err with
    | Some _ => (w, err)
    | None => Write w payload
    end.

(** [io.ReadFull(r, buf)] with [len(buf) = n] *)
Definition ReadFull (r : bytes) (n : nat) : result frame_error bytes * bytes :=
  if (n <=? length r)%nat then (Ok (take n r), drop n r)
  else (Err (if (length r =? 0)%nat then EOF else UnexpectedEOF), []).

Definition readFrame (r : bytes) : result frame_error bytes * bytes :=
  match ReadFull r 4 with
  | (Err e, r) => (Err e, r)
  | (Ok header, r) =>
      let size := Uint32 header in
      if size >? maxFrameSize then (Err FrameTooLarge, r)
      else ReadFull r (Z.to_nat size)
  end.

(** ** Round trip *)

Lemma byte_at_val v s : 0 ≤ v → 0 ≤ s → byte_val (byte_at v s) = v / 2 ^ s mod 256.
Proof.
  intros Hv Hs. unfold byte_val, byte_at. rewrite Z.shiftr_div_pow2 by done.
  change 255 with (Z.ones 8). rewrite Z.land_ones by lia.
  change (2 ^ 8) with 256. assert (0 ≤ v / 2 ^ s mod 256 < 256) by (apply Z.mod_pos_bound; lia).
  rewrite N_ascii_embedding by lia. lia.
Qed.

Lemma lor_add_shift a b n : 0 ≤ n → 0 ≤ a < 2 ^ n → Z.lor a (Z.shiftl b n) = a + b * 2 ^ n.
Proof.
  intros Hn Ha. rewrite Z.shiftl_mul_pow2 by done. symmetry. apply Z.add_nocarry_lor.
  apply Z.bits_inj'. intros k Hk. rewrite Z.land_spec, Z.bits_0.
  destruct (Z.lt_ge_cases k n).
  - rewrite Z.mul_pow2_bits_low by done. apply andb_false_r.
  - destruct (decide (a = 0)) as [->|]; [by rewrite Z.bits_0|].
    rewrite (Z.bits_above_log2 a k); [done|lia|].
    apply Z.lt_le_trans with n; [|done]. apply Z.log2_lt_pow2; lia.
Qed.

Lemma Uint32_PutUint32 v : 0 ≤ v < 2 ^ 32 → Uint32 (PutUint32 v) = v.
Proof.
  intros Hv. unfold Uint32, PutUint32. rewrite !byte_at_val by lia.
  change (2 ^ 0) with 1. change (2 ^ 8) with 256. change (2 ^ 16) with 65536. change (2 ^ 24) with 16777216.
  rewrite Z.div_1_r.
  pose proof (Z.mod_pos_bound v 256 ltac:(lia)). pose proof (Z.mod_pos_bound (v / 256) 256 ltac:(lia)).
  pose proof (Z.mod_pos_bound (v / 65536) 256 ltac:(lia)). pose proof (Z.mod_pos_bound (v / 16777216) 256 ltac:(lia)).
  set (b0 := v / 16777216 mod 256) in *. set (b1 := v / 65536 mod 256) in *.
  set (b2 := v / 256 mod 256) in *. set (b3 := v mod 256) in *.
  replace (Z.shiftl b1 16) with (Z.shiftl (Z.shiftl b1 8) 8) by (rewrite Z.shiftl_shiftl by lia; done).
  replace (Z.shiftl b0 24) with (Z.shiftl (Z.shiftl (Z.shiftl b0 8) 8) 8) by (rewrite !Z.shiftl_shiftl by lia; done).
  rewrite <- !Z.shiftl_lor. rewrite !lor_add_shift by (change (2 ^ 8) with 256; lia).
  change (2 ^ 8) with 256. unfold b0, b1, b2, b3.
  assert (E1 : v / 65536 = v / 256 / 256) by (rewrite Z.div_div by lia; done).
  assert (E2 : v / 16777216 = v / 256 / 256 / 256) by (rewrite !Z.div_div by lia; done).
  rewrite E1, E2.
  pose proof (Z.div_mod v 256 ltac:(lia)). pose proof (Z.div_mod (v / 256) 256 ltac:(lia)).
  pose proof (Z.div_mod (v / 256 / 256) 256 ltac:(lia)).
  rewrite (Z.mod_small (v / 256 / 256 / 256)); [lia|].
  split; [apply Z.div_pos; [apply Z.div_pos; [apply Z.div_pos|]|]; lia|].
  rewrite !Z.div_div by lia. apply Z.div_lt_upper_bound; lia.
Qed.

Lemma length_PutUint32 v : Datatypes.length (PutUint32 v) = 4%nat.
Proof. done. Qed.

Lemma ReadFull_app p r : ReadFull (p ++ r) (length p) = (Ok p, r).
Proof.
  unfold ReadFull. rewrite length_app. replace (length p <=? length p + length r)%nat with true
    by (symmetry; apply Nat.leb_le; lia). by rewrite take_app_length, drop_app_length.
Qed.

(** The encoding of one frame. *)
Definition frame_bytes (payload : bytes) : bytes :=
  PutUint32 (uint32 (Z.of_nat (length payload))) ++ payload.

Lemma frame_size (payload : bytes) :
  Z.of_nat (length payload) ≤ maxFrameSize →
  Uint32 (PutUint32 (uint32 (Z.of_nat (length payload)))) = Z.of_nat (length payload).
Proof.
  intros H. unfold maxFrameSize, uint32 in *. rewrite Z.mod_small by lia. apply Uint32_PutUint32. lia.
Qed.

Lemma readFrame_frame payload r :
  Z.of_nat (length payload) ≤ maxFrameSize →
  readFrame (frame_bytes payload ++ r) = (Ok payload, r).
Proof.
  intros H. unfold readFrame, frame_bytes. rewrite <- (assoc_L (++)).
  change 4%nat with (List.length (PutUint32 (uint32 (Z.of_nat (length payload))))).
  rewrite ReadFull_app, frame_size by done.
  replace (Z.of_nat (length payload) >? maxFrameSize) with false
    by (symmetry; rewrite Z.gtb_ltb; apply Z.ltb_ge; lia).
  by rewrite Nat2Z.id, ReadFull_app.
Qed.

Lemma Write_ok w p w' : Write w p = (w', None) → written w' = written w ++ p.
Proof. unfold Write. case_if; by intros [= <-]. Qed.

Lemma writeFrame_ok w payload w' :
  writeFrame w payload = (w', None) →
  written w' = written w ++ frame_bytes payload ∧ Z.of_nat (length payload) ≤ maxFrameSize.
Proof.
  unfold writeFrame. destruct (_ >? _) eqn:E; [done|]. bool_prop.
  destruct (Write w _) as [w1 [e|]] eqn:E1; [done|]. intros E2.
  apply Write_ok in E1, E2. split; [|done]. rewrite E2, E1. unfold frame_bytes.
  by rewrite <- (assoc_L (++)).
Qed.

(** A sender writes payloads until one fails; a receiver reads [n] frames. *)
Fixpoint write_all (w : writer) (ps : list bytes) : writer * option frame_error :=
  match ps with
  | [] => (w, None)
  | p :: ps' => match writeFrame w p with
                | (w', None) => write_all w' ps'
                | (w', Some e) => (w', Some e)
                end
  end.

Fixpoint read_n (r : bytes) (n : nat) : result frame_error (list bytes) * bytes :=
  match n with
  | O => (Ok [], r)
  | S n' => match readFrame r with
            | (Ok p, r') => match read_n r' n' with
                            | (Ok ps, r'') => (Ok (p :: ps), r'')
                            | (Err e, r'') => (Err e, r'')
                            end
            | (Err e, r') => (Err e, r')
            end
  end.

Lemma write_all_bytes w ps w' :
  write_all w ps = (w', None) →
  written w' = written w ++ concat (frame_bytes <$> ps) ∧
  Forall (fun p => Z.of_nat (length p) ≤ maxFrameSize) ps.
Proof.
  revert w. induction ps as [|p ps IH]; intros w H; simpl in *.
  - injection H as <-. by rewrite app_nil_r.
  - destruct (writeFrame w p) as [w1 [e|]] eqn:E; [done|].
    apply writeFrame_ok in E as [E ?]. apply IH in H as [-> ?]. split; [|by constructor].
    by rewrite E, <- (assoc_L (++)).
Qed.

Lemma read_n_frames ps r :
  Forall (fun p => Z.of_nat (length p) ≤ maxFrameSize) ps →
  read_n (concat (frame_bytes <$> ps) ++ r) (length ps) = (Ok ps, r).
Proof.
  induction 1 as [|p ps Hp _ IH]; [done|]. rewrite fmap_cons, concat_cons, <- (assoc_L (++)).
  cbn [length read_n]. rewrite readFrame_frame by done. by rewrite IH.
Qed.

(** A failed write leaves whole frames and one strict prefix of a frame. *)
Lemma writeFrame_err w payload w' e :
  writeFrame w payload = (w', Some e) →
  ∃ part, written w' = written w ++ part ∧ part `prefix_of` frame_bytes payload ∧
          (length part < length (frame_bytes payload))%nat.
Proof.
  unfold writeFrame. destruct (_ >? _) eqn:E.
  { intros [= <- <-]. exists []. rewrite app_nil_r. split_and!; [done|apply prefix_nil|].
    unfold frame_bytes. rewrite length_app, length_PutUint32. simpl. lia. }
  unfold frame_bytes. set (h := PutUint32 _). assert (Hh : length h = 4%nat) by done. clearbody h.
  unfold Write at 1. destruct (length h <=? room w)%nat eqn:E1; bool_prop.
  - unfold Write. simpl. destruct (length payload <=? room w - length h)%nat eqn:E2; bool_prop; [done|].
    intros [= <- <-]. exists (h ++ take (room w - length h) payload). simpl.
    split; [by rewrite (assoc_L (++))|]. split.
    + apply prefix_app. exists (drop (room w - length h) payload). by rewrite take_drop.
    + rewrite !length_app, length_take. lia.
  - intros [= <- <-]. exists (take (room w) h). split; [done|]. split.
    + exists (drop (room w) h ++ payload). by rewrite (assoc_L (++)), take_drop.
    + rewrite length_app, length_take. lia.
Qed.

Lemma readFrame_partial payload part :
  Z.of_nat (length payload) ≤ maxFrameSize →
  part `prefix_of` frame_bytes payload → (length part < length (frame_bytes payload))%nat →
  ∃ e, readFrame part = (Err e, []) ∧ e ≠ FrameTooLarge.
Proof.
  intros Hmax [k Hk] Hlen. unfold readFrame.
  destruct (decide (4 ≤ length part)%nat) as [Hge|Hlt].
  - assert (Htake : take 4 part = PutUint32 (uint32 (Z.of_nat (length payload)))).
    { pose proof (f_equal (take 4) Hk) as Ht. unfold frame_bytes in Ht.
      rewrite take_app_le in Ht by (rewrite length_PutUint32; lia).
      rewrite take_app_le in Ht by done. by rewrite <- Ht. }
    unfold ReadFull at 1. replace (4 <=? length part)%nat with true by (symmetry; by apply Nat.leb_le).
    rewrite Htake, frame_size by done.
    replace (Z.of_nat (length payload) >? maxFrameSize) with false
      by (symmetry; rewrite Z.gtb_ltb; apply Z.ltb_ge; lia).
    rewrite Nat2Z.id. unfold ReadFull. unfold frame_bytes in Hlen. rewrite length_app, length_PutUint32 in Hlen.
    rewrite length_drop. replace (length payload <=? length part - 4)%nat with false
      by (symmetry; apply Nat.leb_gt; lia).
    eexists. split; [done|]. by case_if.
  - unfold ReadFull. replace (4 <=? length part)%nat with false by (symmetry; apply Nat.leb_gt; lia).
    eexists. split; [done|]. by case_if.
Qed.

(** Framing is a faithful channel.  Whatever a sender's frames, the reader
    gets back exactly the payloads that were written, in order, and leaves what
    follows; and if the next write fails, even after a part of the frame, the
    reader still gets the earlier payloads and then an error, never a payload
    that was not sent. *)
Theorem frames_roundtrip ps rest room0 w :
  write_all (MkWriter [] room0) ps = (w, None) →
  read_n (written w ++ rest) (length ps) = (Ok ps, rest) ∧
  ∀ p w' e, writeFrame w p = (w', Some e) →
    ∃ part e', read_n (written w') (length ps) = (Ok ps, part) ∧ readFrame part = (Err e', []).
Proof.
  intros (Hw & Hall)%write_all_bytes. simpl in Hw. split.
  - rewrite Hw. by apply read_n_frames.
  - intros p w' e He. pose proof (writeFrame_err _ _ _ _ He) as (part & Hpart & Hpre & Hlen).
    rewrite Hpart, Hw, read_n_frames by done.
    destruct (decide (Z.of_nat (length p) ≤ maxFrameSize)) as [Hmax|Hbig].
    + destruct (readFrame_partial p part Hmax Hpre Hlen) as (e' & ? & _). by exists part, e'.
    + unfold writeFrame in He. replace (Z.of_nat (length p) >? maxFrameSize) with true in He
        by (symmetry; rewrite Z.gtb_ltb; apply Z.ltb_lt; lia).
      injection He as <- <-. assert (part = []) as ->.
      { apply (f_equal length) in Hpart. rewrite length_app in Hpart. apply length_zero_iff_nil. lia. }
      by exists [], EOF.
Qed.

Lemma frames_roundtrip_witness :
  let ps := [to_bytes "hello"; []; to_bytes "world"] in
  read_n (written (fst (write_all (MkWriter [] 100) ps)) ++ to_bytes "x") 3 = (Ok ps, to_bytes "x").
Proof.
  intros ps. refine (proj1 (frames_roundtrip ps (to_bytes "x") 100 (fst (write_all (MkWriter [] 100) ps)) _)).
  vm_compute. reflexivity.
Defined.

Lemma byte_val_range c : 0 ≤ byte_val c < 256.
Proof. unfold byte_val. pose proof (N_ascii_bounded c). lia. Qed.

Lemma Uint32_range b : 0 ≤ Uint32 b < 2 ^ 32.
Proof.
  unfold Uint32. destruct b as [|b0 [|b1 [|b2 [|b3 [|]]]]]; try (simpl; lia).
  pose proof (byte_val_range b0). pose proof (byte_val_range b1).
  pose proof (byte_val_range b2). pose proof (byte_val_range b3).
  replace (Z.shiftl (byte_val b1) 16) with (Z.shiftl (Z.shiftl (byte_val b1) 8) 8) by (rewrite Z.shiftl_shiftl by lia; done).
  replace (Z.shiftl (byte_val b0) 24) with (Z.shiftl (Z.shiftl (Z.shiftl (byte_val b0) 8) 8) 8) by (rewrite !Z.shiftl_shiftl by lia; done).
  rewrite <- !Z.shiftl_lor, !lor_add_shift by (change (2 ^ 8) with 256; lia).
  change (2 ^ 8) with 256. change (2 ^ 32) with 4294967296. lia.
Qed.

(** A hostile length prefix cannot make the reader allocate or return more
    than the frame limit, and a payload is only returned when all of its bytes
    arrived: the stream then starts with four header bytes and the payload. *)
Theorem readFrame_bounded r p r' :
  readFrame r = (Ok p, r') →
  Z.of_nat (length p) ≤ maxFrameSize ∧
  ∃ header, length header = 4%nat ∧ Uint32 header = Z.of_nat (length p) ∧ r = header ++ p ++ r'.
Proof.
  unfold readFrame. unfold ReadFull at 1. destruct (4 <=? length r)%nat eqn:E4; [|done]. bool_prop.
  destruct (Uint32 (take 4 r) >? maxFrameSize) eqn:Es; [done|]. bool_prop.
  unfold ReadFull. destruct (_ <=? _)%nat eqn:El; [|done]. bool_prop. intros [= <- <-].
  pose proof (Uint32_range (take 4 r)). rewrite length_take, Nat.min_l by done. split; [lia|].
  exists (take 4 r). rewrite length_take, take_drop, take_drop. split_and!; lia || done.
Qed.

Lemma readFrame_bounded_witness :
  Z.of_nat (length (to_bytes "hi")) ≤ maxFrameSize.
Proof.
  apply (readFrame_bounded (frame_bytes (to_bytes "hi") ++ to_bytes "rest") (to_bytes "hi") (to_bytes "rest")).
  vm_compute. reflexivity.
Defined.
