(* ===== verification/Transport.v ===== *)
(** * Transports ([internal/transport/transport.go], [observed.go])

    A [Transport] value is a tree: a physical channel at the leaves, a [Bundle]
    of channels, an [ObservedTransport] that counts what passes.  The dynamic
    type tests of the Go code ([t.(ChannelProvider)] and the like) are matches
    on the constructor.  The physical channels are an interface, the class
    [Physical]; counters live in a store, because an observed transport and the
    channels it hands out share one pair of counters. *)
From Stdlib Require Import ZArith Lia Ascii String.
From stdpp Require Import base tactics numbers list gmap strings.
From S2P Require Import Prelude GoStrings.

(** ** Data *)

Record SendMetrics := MkSendMetrics {
  BufferedBytes : Z; BufferLimit : Z; LastWait : Z   (* nanoseconds *)
}.
Definition zero_metrics : SendMetrics := MkSendMetrics 0 0 0.

(** [PathWeights] are float64 values, carried as their IEEE bit patterns. *)
Record RouteInfo := MkRouteInfo { RIKind : string; Connections : Z; PathWeights : list Z }.

Record PhysicalPathStats := MkPathStats {
  PSConnection : Z; PSSentBytes : Z; PSSentChunks : Z; PSSendNanos : Z
}.

Record RouteStats := MkRouteStats {
  RSInfo : RouteInfo; SentBytes : Z; ReceivedBytes : Z; Paths : list PhysicalPathStats
}.

Inductive transport_error := ErrClosed | NetErrClosed | ErrIO (code : Z).

(** [oid] names an [ObservedTransport] object and its [observedCounters]; [bid]
    a [Bundle] object with its [sync.Once]. *)
Inductive transport :=
  | Channel (id : nat)
  | Bundle (bid : nat) (channels : list transport)
  | ObservedTransport (oid : nat) (info : RouteInfo) (inner : transport)
  | observedChannel (oid : nat) (inner : transport).

(** What a physical channel does.  [ch_metrics] is [None] for a channel that is
    no [SendMetricsProvider]. *)
Class Physical (W : Type) := {
  ch_send : W → nat → bytes → result transport_error W;
  ch_recv : W → nat → result transport_error (bytes * W);
  ch_close : W → nat → option transport_error * W;
  ch_metrics : W → nat → option SendMetrics;
}.

Record observedCounters := MkCounters { sent : Z; received : Z }.

(** The store: the channels' own state, the counters and path statistics of
    the observed transports, the result of the bundles already closed. *)
Record world (W : Type) := MkWorld {
  phys : W;
  counters : gmap nat observedCounters;
  paths : gmap nat (list PhysicalPathStats);
  closed : gmap nat (option transport_error);
}.
Arguments MkWorld {W}. Arguments phys {W}. Arguments counters {W}.
Arguments paths {W}. Arguments closed {W}.

Section transport.
Context {W : Type} `{Physical W}.
Implicit Types (w : world W) (t : transport).

Definition set_phys w (p : W) : world W := MkWorld p (counters w) (paths w) (closed w).
Definition counters_at w (oid : nat) : observedCounters := default (MkCounters 0 0) (counters w !! oid).
Definition set_counters w oid c : world W := MkWorld (phys w) (<[oid := c]> (counters w)) (paths w) (closed w).

(** [append] over the channels that are not nil *)
Definition NewBundle (bid : nat) (channels : list (option transport)) : transport :=
  Bundle bid (omap id channels).

Fixpoint Channels (t : transport) : list transport :=
  match t with
  | Bundle _ [] => [t]
  | Bundle _ channels => channels
  | ObservedTransport oid _ inner =>
      match observedChannel oid <$> Channels inner with
      | [] => [t]
      | channels => channels
      end
  | _ => [t]
  end.

(** [Observe] of a fresh object [oid]; a nil transport stays nil. *)
Definition Observe (oid : nat) (t : option transport) (info : RouteInfo) : option transport :=
  match t with
  | None => None
  | Some t =>
      let info := if Connections info <=? 0
                  then MkRouteInfo (RIKind info) (Z.of_nat (length (Channels t))) (PathWeights info)
                  else info in
      Some (ObservedTransport oid info t)
  end.

Definition add_sent w oid (n : nat) : world W :=
  let c := counters_at w oid in
  set_counters w oid (MkCounters (wrap64 (sent c + Z.of_nat n)) (received c)).
Definition add_received w oid (n : nat) : world W :=
  let c := counters_at w oid in
  set_counters w oid (MkCounters (sent c) (wrap64 (received c + Z.of_nat n))).

Fixpoint Send (t : transport) (w : world W) (payload : bytes) : result transport_error (world W) :=
  match t with
  | Channel id => set_phys w <$> ch_send (phys w) id payload
  | Bundle _ [] => Err ErrClosed
  | Bundle _ (c :: _) => Send c w payload
  | ObservedTransport oid _ inner | observedChannel oid inner =>
      w ← Send inner w payload;
      Ok (add_sent w oid (length payload))
  end.

Fixpoint Recv (t : transport) (w : world W) : result transport_error (bytes * world W) :=
  match t with
  | Channel id => '(p, s) ← ch_recv (phys w) id; Ok (p, set_phys w s)
  | Bundle _ [] => Err ErrClosed
  | Bundle _ (c :: _) => Recv c w
  | ObservedTransport oid _ inner | observedChannel oid inner =>
      '(p, w) ← Recv inner w;
      Ok (p, add_received w oid (length p))
  end.

(** The loop of [Bundle.Close]: close every channel, keep the first error that
    is not [net.ErrClosed]. *)
Definition keep_error (old new : option transport_error) : option transport_error :=
  match new, old with
  | Some NetErrClosed, _ => old
  | Some e, None => Some e
  | _, _ => old
  end.

Fixpoint Close (t : transport) (w : world W) : option transport_error * world W :=
  match t with
  | Channel id => let '(e, s) := ch_close (phys w) id in (e, set_phys w s)
  | Bundle bid channels =>
      match closed w !! bid with
      | Some e => (e, w)
      | None =>
          let '(e, w) :=
            (fix close_all (cs : list transport) (acc : option transport_error * world W) :=
               match cs with
               | [] => acc
               | c :: cs' =>
                   let '(e, w) := acc in
                   let '(e', w) := Close c w in
                   close_all cs' (keep_error e e', w)
               end) channels (None, w) in
          (e, MkWorld (phys w) (counters w) (paths w) (<[bid := e]> (closed w)))
      end
  | ObservedTransport _ _ inner | observedChannel _ inner => Close inner w
  end.

(** ** Metrics *)

(** Only a physical channel can be a [SendMetricsProvider]. *)
Definition SnapshotSendMetrics w (t : transport) : SendMetrics :=
  match t with
  | Channel id => default zero_metrics (ch_metrics (phys w) id)
  | _ => zero_metrics
  end.

Definition combine_metrics (combined m : SendMetrics) : SendMetrics :=
  MkSendMetrics (wrapu64 (BufferedBytes combined + BufferedBytes m))
    (wrapu64 (BufferLimit combined + BufferLimit m))
    (if LastWait m >? LastWait combined then LastWait m else LastWait combined).

Definition SnapshotBundleSendMetrics w (t : option transport) : SendMetrics :=
  foldl (fun c t => combine_metrics c (SnapshotSendMetrics w t)) zero_metrics
    (match t with Some t => Channels t | None => [] end).

Definition ObservedTransport_RouteStats w (oid : nat) (info : RouteInfo) : RouteStats :=
  let c := counters_at w oid in
  MkRouteStats info (sent c) (received c) (default [] (paths w !! oid)).

Definition SnapshotRouteStats w (t : transport) : option RouteStats :=
  match t with
  | ObservedTransport oid info _ => Some (ObservedTransport_RouteStats w oid info)
  | _ => None
  end.

Definition RecordPhysicalPathStats w (t : transport) (stats : list PhysicalPathStats) : world W :=
  match t with
  | ObservedTransport oid _ _ =>
      MkWorld (phys w) (counters w) (<[oid := stats]> (paths w)) (closed w)
  | _ => w
  end.

Definition SnapshotPhysicalPathWeights (t : transport) : list Z :=
  match t with ObservedTransport _ info _ => PathWeights info | _ => [] end.
End transport.

(** ** The adaptive send budget *)

Definition millisecond : Z := 1000000.

Definition AdaptiveSendBudget (maxBytes minBytes : Z) (metrics : SendMetrics) : Z :=
  if maxBytes <=? 0 then 0
  else
    let minBytes := if (minBytes <=? 0) || (minBytes >? maxBytes) then maxBytes else minBytes in
    let limit := BufferLimit metrics in
    let budget :=
      if limit >? 0 then
        let quarter := limit / 4 + (if negb (limit mod 4 =? 0) then 1 else 0) in
        let half := limit / 2 + (if negb (limit mod 2 =? 0) then 1 else 0) in
        let threeQuarter := limit - limit / 4 in
        if BufferedBytes metrics >=? threeQuarter then minBytes
        else if BufferedBytes metrics >=? half then Z.max (Z.quot maxBytes 4) minBytes
        else if BufferedBytes metrics >=? quarter then Z.max (Z.quot maxBytes 2) minBytes
        else maxBytes
      else maxBytes in
    let budget :=
      if LastWait metrics >=? 100 * millisecond then minBytes
      else if LastWait metrics >=? 20 * millisecond then Z.min budget (Z.max (Z.quot maxBytes 4) minBytes)
      else if LastWait metrics >=? 5 * millisecond then Z.min budget (Z.max (Z.quot maxBytes 2) minBytes)
      else budget in
    Z.max (Z.min budget maxBytes) minBytes.

(** ** The budget is bounded and falls with pressure *)

Definition effective_min (maxBytes minBytes : Z) : Z :=
  if (minBytes <=? 0) || (minBytes >? maxBytes) then maxBytes else minBytes.

Lemma effective_min_range maxBytes minBytes :
  0 < maxBytes → 0 < effective_min maxBytes minBytes ≤ maxBytes.
Proof. intros. unfold effective_min. case_if; bool_prop; lia. Qed.

(** The budget the queue pressure leaves, and the one the last wait leaves. *)
Definition queue_budget (M m limit buffered : Z) : Z :=
  if limit >? 0 then
    if buffered >=? limit - limit / 4 then m
    else if buffered >=? limit / 2 + (if negb (limit mod 2 =? 0) then 1 else 0) then Z.max (Z.quot M 4) m
    else if buffered >=? limit / 4 + (if negb (limit mod 4 =? 0) then 1 else 0) then Z.max (Z.quot M 2) m
    else M
  else M.
Definition wait_budget (M m b wait : Z) : Z :=
  if wait >=? 100 * millisecond then m
  else if wait >=? 20 * millisecond then Z.min b (Z.max (Z.quot M 4) m)
  else if wait >=? 5 * millisecond then Z.min b (Z.max (Z.quot M 2) m)
  else b.

Lemma AdaptiveSendBudget_eq M minBytes x :
  0 < M →
  let m := effective_min M minBytes in
  AdaptiveSendBudget M minBytes x =
  Z.max (Z.min (wait_budget M m (queue_budget M m (BufferLimit x) (BufferedBytes x)) (LastWait x)) M) m.
Proof.
  intros HM m. unfold AdaptiveSendBudget.
  by replace (M <=? 0) with false by (symmetry; apply Z.leb_gt; lia).
Qed.

Section budget.
Context (M m : Z) (Hm : 0 < m ≤ M).

Lemma quot_parts : Z.quot M 4 ≤ Z.quot M 2 ≤ M.
Proof using Hm. rewrite !Z.quot_div_nonneg by lia. split; [apply Z.div_le_compat_l; lia|apply Z.div_le_upper_bound; lia]. Qed.

Lemma queue_budget_range limit b : m ≤ queue_budget M m limit b ≤ M.
Proof using Hm. pose proof quot_parts. unfold queue_budget. repeat case_if; lia. Qed.

Lemma wait_budget_range b t : m ≤ b ≤ M → m ≤ wait_budget M m b t ≤ M.
Proof using Hm. pose proof quot_parts. unfold wait_budget. repeat case_if; lia. Qed.

Lemma thresholds limit :
  0 < limit →
  limit / 4 + (if negb (limit mod 4 =? 0) then 1 else 0) ≤
  limit / 2 + (if negb (limit mod 2 =? 0) then 1 else 0) ≤ limit - limit / 4.
Proof.
  clear. intros H. pose proof (Z.div_mod limit 4 ltac:(lia)). pose proof (Z.mod_pos_bound limit 4 ltac:(lia)).
  pose proof (Z.div_mod limit 2 ltac:(lia)). pose proof (Z.mod_pos_bound limit 2 ltac:(lia)).
  destruct (limit mod 4 =? 0) eqn:E4, (limit mod 2 =? 0) eqn:E2; bool_prop; simpl; lia.
Qed.

Lemma queue_budget_anti limit b b' : b ≤ b' → queue_budget M m limit b' ≤ queue_budget M m limit b.
Proof using Hm.
  intros Hb. pose proof quot_parts. unfold queue_budget.
  destruct (limit >? 0) eqn:El; bool_prop; [|lia]. pose proof (thresholds limit ltac:(lia)) as Ht.
  set (q := limit / 4 + _) in *. set (h := limit / 2 + _) in *. set (tq := limit - limit / 4) in *.
  clearbody q h tq. repeat case_if; bool_prop; lia.
Qed.

Lemma wait_budget_anti b b' t t' :
  m ≤ b' ≤ b → b ≤ M → t ≤ t' → wait_budget M m b' t' ≤ wait_budget M m b t.
Proof using Hm.
  intros Hb HM Ht. pose proof quot_parts. unfold wait_budget, millisecond.
  repeat case_if; bool_prop; lia.
Qed.
End budget.

(** C12: the adaptive budget always lies between the (corrected) minimum and
    the maximum, and more queued bytes or a longer wait never raise it. *)
Theorem AdaptiveSendBudget_bounds maxBytes minBytes limit b b' t t' :
  0 < maxBytes → b ≤ b' → t ≤ t' →
  let budget b t := AdaptiveSendBudget maxBytes minBytes (MkSendMetrics b limit t) in
  effective_min maxBytes minBytes ≤ budget b t ≤ maxBytes ∧ budget b' t' ≤ budget b t.
Proof.
  intros HM Hb Ht budget. unfold budget. rewrite !AdaptiveSendBudget_eq by done. simpl.
  pose proof (effective_min_range maxBytes minBytes HM) as Hm. set (m := effective_min _ _) in *.
  pose proof (queue_budget_range maxBytes m Hm limit b). pose proof (queue_budget_range maxBytes m Hm limit b').
  pose proof (queue_budget_anti maxBytes m Hm limit b b' Hb).
  pose proof (wait_budget_range maxBytes m Hm (queue_budget maxBytes m limit b) t ltac:(done)).
  pose proof (wait_budget_anti maxBytes m Hm (queue_budget maxBytes m limit b)
    (queue_budget maxBytes m limit b') t t' ltac:(lia) ltac:(lia) Ht). lia.
Qed.

Lemma AdaptiveSendBudget_bounds_witness :
  AdaptiveSendBudget 65536 16384 (MkSendMetrics 900 1000 0) ≤
  AdaptiveSendBudget 65536 16384 (MkSendMetrics 300 1000 0).
Proof. apply (AdaptiveSendBudget_bounds 65536 16384 1000 300 900 0 0); lia. Defined.

(** ** Accounting *)

(** Induction that reaches the channels of a bundle. *)
Section transport_induction.
Context (P : transport → Prop).
Hypothesis (HChannel : ∀ id, P (Channel id)).
Hypothesis (HBundle : ∀ bid cs, Forall P cs → P (Bundle bid cs)).
Hypothesis (HObserved : ∀ oid info inner, P inner → P (ObservedTransport oid info inner)).
Hypothesis (HobsChannel : ∀ oid inner, P inner → P (observedChannel oid inner)).

Fixpoint transport_tree_ind (t : transport) : P t :=
  match t with
  | Channel id => HChannel id
  | Bundle bid cs => HBundle bid cs
      ((fix go cs : Forall P cs :=
          match cs with
          | [] => List.Forall_nil P
          | c :: cs' => @List.Forall_cons _ P c cs' (transport_tree_ind c) (go cs')
          end) cs)
  | ObservedTransport oid info inner => HObserved oid info inner (transport_tree_ind inner)
  | observedChannel oid inner => HobsChannel oid inner (transport_tree_ind inner)
  end.
End transport_induction.

(** The observed transport objects of a tree. *)
Fixpoint observers (t : transport) : list nat :=
  match t with
  | Channel _ => []
  | Bundle _ cs => mjoin (observers <$> cs)
  | ObservedTransport oid _ inner | observedChannel oid inner => oid :: observers inner
  end.

Section accounting.
Context {W : Type} `{Physical W}.
Implicit Types (w : world W) (t : transport).

Lemma counters_at_set w oid oid' c :
  counters_at (set_counters w oid c) oid' = if decide (oid = oid') then c else counters_at w oid'.
Proof.
  unfold counters_at, set_counters. simpl. case_decide as E; [by subst; rewrite lookup_insert_eq|].
  by rewrite lookup_insert_ne.
Qed.

(** Sending through a tree touches the counters of its own observers only. *)
Lemma Send_frame t w p w' oid :
  Send t w p = Ok w' → oid ∉ observers t → counters_at w' oid = counters_at w oid.
Proof.
  revert w w'. induction t as [id|bid cs IH|o info inner IH|o inner IH] using transport_tree_ind;
    intros w w' Hs Hn; simpl in Hs.
  - destruct (ch_send _ _ _); [|done]. by injection Hs as <-.
  - destruct cs as [|c cs]; [done|]. apply Forall_cons in IH as [IH _]. eapply IH; [done|].
    intros Hin. apply Hn. simpl. apply elem_of_app. by left.
  - res_inv. simpl in Hn. apply not_elem_of_cons in Hn as [Hne Hn].
    unfold add_sent. rewrite counters_at_set. case_decide; [congruence|by eapply IH].
  - res_inv. simpl in Hn. apply not_elem_of_cons in Hn as [Hne Hn].
    unfold add_sent. rewrite counters_at_set. case_decide; [congruence|by eapply IH].
Qed.

(** A sequence of sends, each on a channel of the same transport. *)
Fixpoint send_seq (w : world W) (sends : list (transport * bytes)) : result transport_error (world W) :=
  match sends with
  | [] => Ok w
  | (c, p) :: sends' => w ← Send c w p; send_seq w sends'
  end.

Definition total_bytes (sends : list (transport * bytes)) : Z :=
  foldr (fun x acc => Z.of_nat (length (snd x)) + acc) 0 sends.

Lemma wrap64_add_l a b : wrap64 (wrap64 a + b) = wrap64 (a + b).
Proof.
  unfold wrap64. f_equal. replace ((a + 2 ^ 63) mod 2 ^ 64 - 2 ^ 63 + b + 2 ^ 63)
    with ((a + 2 ^ 63) mod 2 ^ 64 + b) by lia.
  rewrite Zplus_mod_idemp_l. f_equal. lia.
Qed.

Lemma Channels_observers c t oid : c ∈ Channels t → oid ∈ observers c → oid ∈ observers t.
Proof.
  revert c. induction t as [id|bid cs IH|o info inner IH|o inner IH] using transport_tree_ind; intros c Hc Ho.
  - simpl in Hc. apply list_elem_of_singleton in Hc. by subst.
  - destruct cs as [|x cs]; simpl in Hc; [apply list_elem_of_singleton in Hc; by subst|].
    change (oid ∈ mjoin (observers <$> (x :: cs))). apply list_elem_of_join. exists (observers c).
    split; [done|]. apply list_elem_of_fmap. by exists c.
  - simpl in Hc. destruct (observedChannel o <$> Channels inner) as [|y l] eqn:E.
    + apply list_elem_of_singleton in Hc. by subst.
    + rewrite <- E in Hc. apply list_elem_of_fmap in Hc as (c' & -> & Hc'). simpl in *.
      apply elem_of_cons in Ho as [->|Ho]; [by left|]. right. by eapply IH.
  - simpl in Hc. apply list_elem_of_singleton in Hc. by subst.
Qed.
End accounting.

(** An observed transport's byte count is shared by every channel it hands
    out: after any sequence of successful sends over those channels and the
    transport itself, in any order, [RouteStats.SentBytes] has grown by exactly
    the payload bytes (modulo 2^64, as the Go counter). *)
Theorem observed_accounting `{Physical W} (w w' : world W) oid info inner sends stats :
  let t := ObservedTransport oid info inner in
  oid ∉ observers inner →
  Forall (fun x => fst x = t ∨ fst x ∈ Channels t) sends →
  send_seq w sends = Ok w' →
  SnapshotRouteStats w' t = Some stats →
  SentBytes stats = wrap64 (SentBytes (ObservedTransport_RouteStats w oid info) + total_bytes sends) ∨ sends = [].
Proof.
  intros t Hoid Hall Hrun [= <-]. simpl.
  assert (Hone : ∀ c p w w', c = t ∨ c ∈ Channels t → Send c w p = Ok w' →
            sent (counters_at w' oid) = wrap64 (sent (counters_at w oid) + Z.of_nat (length p))).
  { intros c p v v' Hc Hs.
    assert (∃ i, Send c v p = (u ← Send i v p; Ok (add_sent u oid (length p))) ∧ oid ∉ observers i) as (i & Ei & Hi).
    { destruct Hc as [->|Hc]; [by exists inner|]. unfold t in Hc. cbn [Channels] in Hc.
      destruct (observedChannel oid <$> Channels inner) as [|y l] eqn:E.
      - apply list_elem_of_singleton in Hc as ->. by exists inner.
      - rewrite <- E in Hc. apply list_elem_of_fmap in Hc as (i & -> & Hin). exists i.
        split; [done|]. intros Ho. apply Hoid. by eapply Channels_observers. }
    rewrite Ei in Hs. res_inv. unfold add_sent. rewrite counters_at_set, decide_True by done. simpl.
    by rewrite (Send_frame _ _ _ _ oid H0). }
  destruct sends as [|x sends]; [by right|left].
  assert (Hgen : ∀ sends w, Forall (fun x => fst x = t ∨ fst x ∈ Channels t) sends →
    send_seq w sends = Ok w' → sends ≠ [] →
    sent (counters_at w' oid) = wrap64 (sent (counters_at w oid) + total_bytes sends)).
  { clear -Hone. induction sends as [|[c p] sends IH]; intros w Hall Hrun Hne; [done|].
    apply Forall_cons in Hall as [Hc Hall]. simpl in Hrun, Hc. res_inv.
    destruct sends as [|y sends].
    - simpl in *. res_inv. rewrite (Hone c p w _ Hc H0). f_equal. lia.
    - rewrite (IH x Hall ltac:(done)) by done. rewrite (Hone c p w x Hc H0), wrap64_add_l.
      f_equal. simpl. lia. }
  by apply Hgen.
Qed.

(** A concrete store of physical channels: each keeps what was sent on it. *)
Definition log_channels : Physical (gmap nat (list bytes)) := {|
  ch_send s id p := Ok (<[id := default [] (s !! id) ++ [p]]> s);
  ch_recv s id := match default [] (s !! id) with
                  | [] => Err ErrClosed
                  | p :: ps => Ok (p, <[id := ps]> s)
                  end;
  ch_close s id := (None, delete id s);
  ch_metrics s id := Some (MkSendMetrics (Z.of_nat (length (concat (default [] (s !! id))))) 1000000 0);
|}.

Lemma observed_accounting_witness :
  let t := ObservedTransport 7 (MkRouteInfo "direct" 2 []) (Bundle 0 [Channel 1; Channel 2]) in
  let H := log_channels in
  let sends := [(observedChannel 7 (Channel 2), to_bytes "abc"); (t, to_bytes "de")] in
  let w := MkWorld ∅ ∅ ∅ ∅ in
  ∃ w' stats, send_seq w sends = Ok w' ∧ SnapshotRouteStats w' t = Some stats ∧
    (SentBytes stats = wrap64 (0 + total_bytes sends) ∨ sends = []).
Proof.
  intros t H sends w. eexists _, _. split; [vm_compute; reflexivity|].
  split; [reflexivity|]. eapply (observed_accounting w _ 7 (MkRouteInfo "direct" 2 []) (Bundle 0 [Channel 1; Channel 2]) sends).
  - vm_compute. intros Hin. inversion Hin.
  - constructor; [simpl; right; right; left|constructor; [by left|constructor]].
  - vm_compute. reflexivity.
  - reflexivity.
Defined.

(** The channels an observed transport hands out hide the send metrics of the
    physical channels below them, so the session's budget never adapts. *)
Lemma observed_hides_metrics `{Physical W} (w : world W) oid info inner c :
  c ∈ Channels (ObservedTransport oid info inner) → SnapshotSendMetrics w c = zero_metrics.
Proof.
  cbn [Channels]. destruct (observedChannel oid <$> Channels inner) as [|y l] eqn:E.
  - by intros ->%list_elem_of_singleton.
  - rewrite <- E. by intros (i & -> & _)%list_elem_of_fmap.
Qed.
