(* ===== verification/Secure.v ===== *)
(** * Pairing codes and the encrypted session ([internal/secure/secure.go])

    Both peers derive the same AES-GCM session from the pairing code and the
    two hello nonces.  SHA-256, HKDF and AES-GCM come from the class [Crypto]
    with the one fact the code relies on, that opening undoes sealing; the
    normalisation of codes, the nonce layout and the key schedule are written
    out. *)
From Stdlib Require Import ZArith Lia Ascii String.
From stdpp Require Import base tactics numbers list gmap strings.
From S2P Require Import Prelude GoStrings Frame.

(** ** The primitives *)

Class Crypto := {
  sha256 : bytes → bytes;
  hkdf : bytes → bytes → bytes → nat → bytes;      (* secret, salt, info, size *)
  gcm_seal : bytes → bytes → bytes → bytes → bytes;  (* key, nonce, plaintext, aad *)
  gcm_open : bytes → bytes → bytes → bytes → option bytes;
  gcm_open_seal key nonce pt aad : gcm_open key nonce (gcm_seal key nonce pt aad) aad = Some pt;
}.

(** [encoding/hex] *)
Definition hex_digit (n : N) : ascii := ascii_of_N (if (n <? 10)%N then 48 + n else 87 + n).
Definition hex_encode (b : bytes) : string :=
  of_bytes (concat ((fun c => [hex_digit (N_of_ascii c / 16); hex_digit (N_of_ascii c mod 16)]) <$> b)).

(** ** Codes *)

Definition CodeAlphabet : string := "ABCDEFGHJKLMNPQRSTUVWXYZ23456789".
Definition CodeLength : Z := 6.
Definition MaxCodeLength : Z := 64.

Inductive code_error :=
  | CodeLengthError
  | EmptyMnemonicSegment
  | CodeSegmentCharacters
  | CodeCharacters
  | SecureSessionNil
  | AuthenticationFailed.

(** [rand.Read(buf)] is an argument: the random bytes. *)
Definition GenerateCode (buf : bytes) : string :=
  of_bytes ((fun b => nth (Z.to_nat (byte_val b mod str_len CodeAlphabet)) (to_bytes CodeAlphabet) "0"%char) <$> buf).

Definition pairingAlphanumeric (value : string) : bool :=
  if String.eqb value "" then false
  else forall_bytes (fun c => is_upper c || is_digit c) value.

(** [strings.Map] dropping ['-'] and Unicode spaces: at each position a space's
    encoding is skipped, any other byte is kept.  (Bytes that are no valid
    UTF-8 are kept; the result is only used when all its bytes are
    alphanumeric.) *)
Definition dropped_runes : list bytes := [["-"%char]] ++ space_runes.
Fixpoint drop_runes (fuel : nat) (l : bytes) : bytes :=
  match fuel with
  | O => []
  | S fuel' =>
      match strip_any dropped_runes l with
      | Some l' => drop_runes fuel' l'
      | None => match l with [] => [] | c :: l' => c :: drop_runes fuel' l' end
      end
  end.
Definition compact_code (code : string) : string :=
  of_bytes (drop_runes (S (String.length code)) (to_bytes code)).

Definition NormalizeCode `{CaseTables} (code : string) : string :=
  let code := ToUpper (TrimSpace code) in
  let compact := compact_code code in
  if (str_len compact =? CodeLength) && pairingAlphanumeric compact then compact else code.

Definition ValidateCode `{CaseTables} (code : string) : result code_error string :=
  let normalized := NormalizeCode code in
  _ ← fail_if ((str_len normalized <? CodeLength) || (str_len normalized >? MaxCodeLength)) CodeLengthError;
  if str_contains normalized "-" then
    _ ← fail_if (has_prefix normalized "-" || has_suffix normalized "-" || str_contains normalized "--")
          EmptyMnemonicSegment;
    _ ← fail_if (negb (forallb pairingAlphanumeric (split_on "-"%char normalized))) CodeSegmentCharacters;
    Ok normalized
  else
    _ ← fail_if (negb (pairingAlphanumeric normalized)) CodeCharacters;
    Ok normalized.

Definition ResolveSenderCode `{CaseTables} (random : bytes) (code : string) : result code_error string :=
  if String.eqb (TrimSpace code) "" then Ok (GenerateCode random) else ValidateCode code.

Definition RoomToken `{CaseTables} `{Crypto} (code : string) : string :=
  hex_encode (sha256 (to_bytes ("kigo-room:" +:+ NormalizeCode code))).

(** ** Sessions *)

Record Session := MkSession { aead_key : bytes; noncePrefix : bytes }.

Definition NewSessionWithInfo `{CaseTables} `{Crypto} (code senderNonce receiverNonce info : string) : Session :=
  let salt := to_bytes (senderNonce +:+ ":" +:+ receiverNonce) in
  let material := hkdf (to_bytes (NormalizeCode code)) salt (to_bytes info) 20 in
  MkSession (take 16 material) (take 4 (drop 16 material)).

Definition NewSession `{CaseTables} `{Crypto} (code senderNonce receiverNonce : string) : Session :=
  NewSessionWithInfo code senderNonce receiverNonce "kigo-v1 aes-128-gcm".

(** Four prefix bytes, then the sequence number in big-endian order. *)
Definition session_nonce (s : Session) (seq : Z) : bytes :=
  noncePrefix s ++ [byte_at seq 56; byte_at seq 48; byte_at seq 40; byte_at seq 32;
                    byte_at seq 24; byte_at seq 16; byte_at seq 8; byte_at seq 0].

Definition aad (seq : Z) : bytes := to_bytes ("kigo-v1:" +:+ Itoa seq).

Definition Encrypt `{Crypto} (s : option Session) (seq : Z) (plaintext : bytes) : result code_error bytes :=
  match s with
  | None => Err SecureSessionNil
  | Some s => Ok (gcm_seal (aead_key s) (session_nonce s seq) plaintext (aad seq))
  end.

Definition Decrypt `{Crypto} (s : option Session) (seq : Z) (ciphertext : bytes) : result code_error bytes :=
  match s with
  | None => Err SecureSessionNil
  | Some s =>
      match gcm_open (aead_key s) (session_nonce s seq) ciphertext (aad seq) with
      | Some pt => Ok pt
      | None => Err AuthenticationFailed
      end
  end.

(** ** Nonces never repeat *)

Lemma byte_at_inj v v' s : 0 ≤ v → 0 ≤ v' → 0 ≤ s →
  byte_at v s = byte_at v' s → v / 2 ^ s mod 256 = v' / 2 ^ s mod 256.
Proof. intros ??? E. rewrite <- !byte_at_val by done. by rewrite E. Qed.

Lemma session_nonce_inj s seq seq' :
  in_uint64 seq → in_uint64 seq' → session_nonce s seq = session_nonce s seq' → seq = seq'.
Proof.
  unfold in_uint64, uint64_max, session_nonce. intros Hs Hs' E. apply app_inv_head in E.
  assert (Hb : ∀ k, k ∈ [56; 48; 40; 32; 24; 16; 8; 0] → seq / 2 ^ k mod 256 = seq' / 2 ^ k mod 256).
  { intros k Hk. apply byte_at_inj; try lia.
    - repeat (apply elem_of_cons in Hk as [->|Hk]; [lia|]). by apply not_elem_of_nil in Hk.
    - injection E as E7 E6 E5 E4 E3 E2 E1 E0.
      repeat (apply elem_of_cons in Hk as [->|Hk]; [assumption|]). by apply not_elem_of_nil in Hk. }
  assert (Hdec : ∀ v, 0 ≤ v < 2 ^ 64 → v = v / 2 ^ 0 mod 256 + 256 * (v / 2 ^ 8 mod 256 + 256 * (v / 2 ^ 16 mod 256 +
     256 * (v / 2 ^ 24 mod 256 + 256 * (v / 2 ^ 32 mod 256 + 256 * (v / 2 ^ 40 mod 256 +
     256 * (v / 2 ^ 48 mod 256 + 256 * (v / 2 ^ 56 mod 256)))))))).
  { clear. intros v Hv.
    assert (Hstep : ∀ k k', 0 ≤ k → k' = k + 8 → v / 2 ^ k = v / 2 ^ k mod 256 + 256 * (v / 2 ^ k')).
    { intros k k' Hk ->. rewrite Z.pow_add_r, <- Z.div_div by lia. change (2 ^ 8) with 256.
      pose proof (Z.div_mod (v / 2 ^ k) 256 ltac:(lia)). lia. }
    assert (E0 : v / 2 ^ 64 = 0) by (apply Z.div_small; lia).
    assert (Ev : v / 2 ^ 0 = v) by (rewrite Z.pow_0_r; apply Z.div_1_r).
    rewrite <- Ev at 1.
    rewrite (Hstep 0 8) at 1 by lia. do 2 f_equal. rewrite (Hstep 8 16) at 1 by lia. do 2 f_equal.
    rewrite (Hstep 16 24) at 1 by lia. do 2 f_equal. rewrite (Hstep 24 32) at 1 by lia. do 2 f_equal.
    rewrite (Hstep 32 40) at 1 by lia. do 2 f_equal. rewrite (Hstep 40 48) at 1 by lia. do 2 f_equal.
    rewrite (Hstep 48 56) at 1 by lia. do 2 f_equal. rewrite (Hstep 56 64) at 1 by lia. lia. }
  rewrite (Hdec seq), (Hdec seq') by lia.
  rewrite !Hb by (repeat (first [left|right])). reflexivity.
Qed.

(** ** Codes are canonical *)

Definition code_byte (c : ascii) : bool := is_upper c || is_digit c || Ascii.eqb c "-"%char.

Lemma forall_bytes_In f s c : forall_bytes f s = true → c ∈ to_bytes s → f c = true.
Proof.
  induction s as [|a s IH]; simpl; [by intros _ ?%not_elem_of_nil|].
  intros [??]%andb_true_iff [->|?]%elem_of_cons; auto.
Qed.

Lemma forall_bytes_of f l : (∀ c, c ∈ l → f c = true) → forall_bytes f (of_bytes l) = true.
Proof.
  induction l as [|a l IH]; simpl; [done|]. intros Hl.
  rewrite (Hl a) by by left. apply IH. intros. apply Hl. by right.
Qed.

Lemma forall_bytes_impl f g s :
  (∀ c, f c = true → g c = true) → forall_bytes f s = true → forall_bytes g s = true.
Proof.
  intros Hfg. induction s as [|a s IH]; simpl; [done|].
  intros [??]%andb_true_iff. rewrite Hfg by done. auto.
Qed.

Lemma alnum_code_byte s : pairingAlphanumeric s = true → forall_bytes code_byte s = true.
Proof.
  unfold pairingAlphanumeric. case_if; [done|]. apply forall_bytes_impl.
  intros c Hc. unfold code_byte. by rewrite Hc.
Qed.

(** A byte decided by running all 256 of them. *)
Lemma code_byte_upper c : code_byte c = true → upper_byte c = c ∧ is_ascii_byte c = true.
Proof.
  intros Hc. pose proof (ascii_forall (fun c => negb (code_byte c) || (Ascii.eqb (upper_byte c) c && is_ascii_byte c))
    ltac:(by vm_compute) c) as E. cbv beta in E. rewrite Hc in E. simpl in E. bool_prop.
  split; [by apply Ascii.eqb_eq|done].
Qed.

Lemma ToUpper_code `{CaseTables} s : forall_bytes code_byte s = true → ToUpper s = s.
Proof.
  intros Hs. unfold ToUpper. rewrite (forall_bytes_impl code_byte is_ascii_byte s) by
    (done || by (intros c Hc; apply code_byte_upper in Hc as [_ Hc])). clear -Hs.
  induction s as [|a s IH]; simpl in *; [done|]. apply andb_true_iff in Hs as [Ha Hs].
  apply code_byte_upper in Ha as [-> _]. by rewrite IH.
Qed.

(** No space starts with a code byte. *)
Lemma strip_any_first (pats : list bytes) (f : ascii → bool) c l :
  forallb (fun p => match p with [] => false | a :: _ => negb (f a) end) pats = true →
  f c = true → strip_any pats (c :: l) = None.
Proof.
  intros Hp Hc. induction pats as [|p ps IH]; simpl in *; [done|]. apply andb_true_iff in Hp as [Hp Hps].
  destruct p as [|a p]; [done|]. simpl. destruct (Ascii.eqb_spec a c); [|auto].
  subst. by rewrite Hc in Hp.
Qed.

Lemma trim_code_bytes (pats : list bytes) l :
  forallb (fun p => match p with [] => false | a :: _ => negb (code_byte a) end) pats = true →
  (∀ c, c ∈ l → code_byte c = true) → trim_left pats l = l.
Proof.
  intros Hp Hl. destruct l as [|c l]; [done|]. apply trim_left_id.
  eapply strip_any_first; [exact Hp|]. apply Hl. by left.
Qed.

Lemma TrimSpace_code s : forall_bytes code_byte s = true → TrimSpace s = s.
Proof.
  intros Hs. unfold TrimSpace, trim_bytes.
  rewrite (trim_code_bytes space_runes); [|by vm_compute|intros c Hc; exact (forall_bytes_In _ s c Hs Hc)].
  rewrite trim_code_bytes; [by rewrite rev_involutive, string_of_list_ascii_of_string|by vm_compute|].
  intros c Hc. eapply forall_bytes_In; [done|]. apply list_elem_of_In in Hc.
  apply list_elem_of_In. by apply in_rev.
Qed.

Lemma drop_runes_alnum n l :
  (∀ c, c ∈ l → is_upper c || is_digit c = true) → (length l < n)%nat → drop_runes n l = l.
Proof.
  revert n. induction l as [|c l IH]; intros [|n] Hl Hn; simpl in Hn; try lia; [done|].
  cbn [drop_runes]. rewrite (strip_any_first _ (fun c => is_upper c || is_digit c)); [|by vm_compute|apply Hl; by left].
  rewrite IH; [done| |lia]. intros. apply Hl. by right.
Qed.

Lemma compact_alnum s : pairingAlphanumeric s = true → compact_code s = s.
Proof.
  unfold pairingAlphanumeric, compact_code. case_if; [done|]. intros Hs.
  rewrite drop_runes_alnum, string_of_list_ascii_of_string; [done| |rewrite length_to_bytes; lia].
  intros c Hc. exact (forall_bytes_In _ s c Hs Hc).
Qed.

Lemma NormalizeCode_code `{CaseTables} s :
  forall_bytes code_byte s = true →
  NormalizeCode s = if (str_len (compact_code s) =? CodeLength) && pairingAlphanumeric (compact_code s)
                    then compact_code s else s.
Proof. intros Hs. unfold NormalizeCode. by rewrite TrimSpace_code, ToUpper_code. Qed.

Lemma NormalizeCode_fixpoint `{CaseTables} code :
  forall_bytes code_byte (NormalizeCode code) = true →
  NormalizeCode (NormalizeCode code) = NormalizeCode code.
Proof.
  intros Hn. rewrite NormalizeCode_code by done. revert Hn. unfold NormalizeCode.
  set (c := ToUpper (TrimSpace code)).
  destruct ((str_len (compact_code c) =? CodeLength) && pairingAlphanumeric (compact_code c)) eqn:E.
  - intros _. bool_prop. rewrite compact_alnum by done. by case_if.
  - intros _. by rewrite E.
Qed.

Lemma forall_bytes_app f a b : forall_bytes f (a +:+ b) = forall_bytes f a && forall_bytes f b.
Proof. induction a as [|c a IH]; simpl; [done|]. by rewrite IH, andb_assoc. Qed.

Lemma split_code_bytes s :
  forallb pairingAlphanumeric (split_on "-"%char s) = true → forall_bytes code_byte s = true.
Proof.
  rewrite <- (join_split "-"%char s) at 2. induction (split_on "-"%char s) as [|p ps IH]; [done|].
  cbn [forallb]. intros [Hp Hps]%andb_true_iff. apply alnum_code_byte in Hp.
  destruct ps as [|q ps]; [done|].
  change (join_with "-" (p :: q :: ps)) with (p +:+ String "-" (join_with "-" (q :: ps))).
  rewrite forall_bytes_app, Hp. simpl. by apply IH.
Qed.

(** The shape of an accepted code. *)
Definition canonical_code (n : string) : Prop :=
  CodeLength ≤ str_len n ≤ MaxCodeLength ∧ forall_bytes code_byte n = true.

Lemma ValidateCode_inv `{CaseTables} code n :
  ValidateCode code = Ok n → n = NormalizeCode code ∧ canonical_code n.
Proof.
  unfold ValidateCode. intros Hv. res_inv. bool_prop. unfold canonical_code.
  destruct (str_contains (NormalizeCode code) "-"); res_inv; bool_prop;
    (split; [done|]); (split; [lia|]); by auto using split_code_bytes, alnum_code_byte.
Qed.

Lemma ValidateCode_idemp `{CaseTables} code n : ValidateCode code = Ok n → ValidateCode n = Ok n.
Proof.
  intros Hv. pose proof (ValidateCode_inv code n Hv) as [-> [_ Hb]].
  revert Hv. unfold ValidateCode. by rewrite (NormalizeCode_fixpoint code Hb).
Qed.

(** An accepted pairing code is canonical: it has 6 to 64 characters from
    [A-Z], [0-9] and ['-'], validating it again returns it unchanged, and it
    opens the same rendezvous room and the same session keys as what the user
    typed. *)
Theorem ValidateCode_canonical `{CaseTables} `{Crypto} code n :
  ValidateCode code = Ok n →
  canonical_code n ∧ ValidateCode n = Ok n ∧ RoomToken n = RoomToken code ∧
  ∀ a b info, NewSessionWithInfo n a b info = NewSessionWithInfo code a b info.
Proof.
  intros Hv. pose proof (ValidateCode_inv code n Hv) as [-> [Hlen Hb]].
  pose proof (NormalizeCode_fixpoint code Hb) as Hfix.
  split; [done|]. split; [|unfold RoomToken, NewSessionWithInfo; by rewrite Hfix].
  revert Hv. unfold ValidateCode. by rewrite Hfix.
Qed.

(** A concrete instance for the examples: the plaintext with its associated
    data and key as a tag. *)
Definition tagged_seal (key nonce pt aad : bytes) : bytes := key ++ nonce ++ aad ++ pt.
Definition tagged_open (key nonce ct aad : bytes) : option bytes := strip_prefix (key ++ nonce ++ aad) ct.

Lemma tagged_open_seal key nonce pt aad :
  tagged_open key nonce (tagged_seal key nonce pt aad) aad = Some pt.
Proof. apply strip_prefix_Some. unfold tagged_seal. by rewrite <- !(assoc_L (++)). Qed.

Definition tagged_crypto : Crypto := {|
  sha256 b := b;
  hkdf secret salt info n := take n (secret ++ salt ++ info ++ replicate n "0"%char);
  gcm_seal := tagged_seal;
  gcm_open := tagged_open;
  gcm_open_seal := tagged_open_seal;
|}.

(** The same with hashes of the right length. *)
Definition fixed_crypto : Crypto := {|
  sha256 b := take 32 (b ++ replicate 32 "0"%char);
  hkdf := @hkdf tagged_crypto;
  gcm_seal := @gcm_seal tagged_crypto;
  gcm_open := @gcm_open tagged_crypto;
  gcm_open_seal := @gcm_open_seal tagged_crypto;
|}.

Lemma fixed_sha256_length b : length (@sha256 fixed_crypto b) = 32%nat.
Proof.
  change (length (take 32 (b ++ replicate 32 "0"%char)) = 32%nat).
  rewrite length_take, length_app, length_replicate. lia.
Qed.

Lemma ValidateCode_canonical_witness :
  let Ht := ascii_tables in let Hc := tagged_crypto in
  canonical_code "AB2C3D" ∧ ValidateCode "AB2C3D" = Ok "AB2C3D"%string ∧
  RoomToken "AB2C3D" = RoomToken " ab2-c3d " ∧
  ∀ a b info, NewSessionWithInfo "AB2C3D" a b info = NewSessionWithInfo " ab2-c3d " a b info.
Proof.
  intros Ht Hc. apply (ValidateCode_canonical " ab2-c3d " "AB2C3D"). vm_compute. reflexivity.
Defined.

(** C11: two peers who typed the same code up to case, spaces and dashes, and
    exchanged the same nonces, read each other: what one encrypts under a
    sequence number the other decrypts under it; and two different 64-bit
    sequence numbers never use the same AES-GCM nonce. *)
Theorem peers_agree `{CaseTables} `{Crypto} code code' sn rn info :
  NormalizeCode code = NormalizeCode code' →
  let mine := NewSessionWithInfo code sn rn info in
  let theirs := NewSessionWithInfo code' sn rn info in
  (∀ seq pt, (Encrypt (Some mine) seq pt ≫= Decrypt (Some theirs) seq) = Ok pt) ∧
  (∀ seq seq', in_uint64 seq → in_uint64 seq' →
     session_nonce mine seq = session_nonce mine seq' → seq = seq').
Proof.
  intros Hn mine theirs. assert (mine = theirs) as -> by (unfold mine, theirs, NewSessionWithInfo; by rewrite Hn).
  split; [|intros; by eapply session_nonce_inj]. intros seq pt. simpl. by rewrite gcm_open_seal.
Qed.

Lemma peers_agree_witness :
  let Ht := ascii_tables in let Hc := tagged_crypto in
  let a := NewSessionWithInfo "ab2-c3d" "n1" "n2" "kigo" in
  let b := NewSessionWithInfo "AB2C3D " "n1" "n2" "kigo" in
  (Encrypt (Some a) 7 (to_bytes "hi") ≫= Decrypt (Some b) 7) = Ok (to_bytes "hi").
Proof.
  intros Ht Hc a b. apply (peers_agree "ab2-c3d" "AB2C3D " "n1" "n2" "kigo"). vm_compute. reflexivity.
Defined.

(** A generated code is valid as it is. *)
Lemma GenerateCode_valid `{CaseTables} buf :
  length buf = 6%nat → ValidateCode (GenerateCode buf) = Ok (GenerateCode buf).
Proof.
  intros Hl.
  assert (Halnum : forall_bytes (fun c => is_upper c || is_digit c) (GenerateCode buf) = true).
  { apply forall_bytes_of. intros c (b & -> & _)%list_elem_of_fmap.
    pose proof (ascii_forall (fun b => let c := nth (Z.to_nat (byte_val b mod str_len CodeAlphabet)) (to_bytes CodeAlphabet) "0"%char in
      is_upper c || is_digit c) ltac:(by vm_compute) b) as E. exact E. }
  assert (Hlen : String.length (GenerateCode buf) = 6%nat).
  { rewrite <- length_to_bytes. unfold GenerateCode. by rewrite list_ascii_of_string_of_list_ascii, length_fmap. }
  assert (Ha : pairingAlphanumeric (GenerateCode buf) = true).
  { unfold pairingAlphanumeric. case_if; [|done]. apply String.eqb_eq in Heqb. by rewrite Heqb in Hlen. }
  assert (Hn : NormalizeCode (GenerateCode buf) = GenerateCode buf).
  { rewrite NormalizeCode_code by by apply alnum_code_byte. rewrite compact_alnum by done. by case_if. }
  unfold ValidateCode. rewrite Hn. unfold str_len. rewrite Hlen. simpl.
  assert (Hd : ∀ s, forall_bytes (fun c => is_upper c || is_digit c) s = true → str_contains s "-" = false).
  { clear. unfold str_contains. induction s as [|c s IH]; [done|].
    cbn [forall_bytes list_ascii_of_string contains_bytes strip_prefix]. intros [Hc Hs]%andb_true_iff.
    destruct (Ascii.eqb_spec "-"%char c) as [<-|]; [done|]. by apply IH. }
  by rewrite Hd, Ha.
Qed.
