(* ===== verification/Process.v ===== *)
(** * Two peers exchanging messages

    The handshakes and exchanges of kigo are Go functions that call [Send] and
    [Recv] on a reliable, ordered transport.  Such a function is modelled as a
    [proc]: a tree of sends and receives.  A [config] holds both peers and the
    messages in flight; [step] lets either peer make its next move, in any
    order.  The two peers share nothing but the queues, so the outcome does not
    depend on the interleaving ([run_confluent]): one complete run decides. *)
From Stdlib Require Import ZArith Lia Ascii String FunctionalExtensionality.
From stdpp Require Import base tactics numbers list relations.
From S2P Require Import Prelude GoStrings Transport.

(** A function under way: its result, or the next call on the transport with
    what it does with the answer. *)
Inductive proc (A : Type) : Type :=
  | Ret (a : A)
  | SendMsg (payload : bytes) (k : option transport_error → proc A)
  | RecvMsg (k : result transport_error bytes → proc A).
Arguments Ret {A} a. Arguments SendMsg {A} payload k. Arguments RecvMsg {A} k.

#[export] Instance proc_ret : MRet proc := fun _ a => Ret a.
#[export] Instance proc_bind : MBind proc := fun A B f =>
  fix go (p : proc A) : proc B :=
    match p with
    | Ret a => f a
    | SendMsg payload k => SendMsg payload (fun e => go (k e))
    | RecvMsg k => RecvMsg (fun r => go (k r))
    end.

Lemma proc_bind_assoc {A B C} (p : proc A) (f : A → proc B) (g : B → proc C) :
  (p ≫= f) ≫= g = p ≫= (fun x => f x ≫= g).
Proof.
  induction p as [a|payload k IH|k IH]; cbn [mbind proc_bind]; [done|f_equal; extensionality e; apply IH..].
Qed.

Lemma proc_bind_ret {A} (p : proc A) : p ≫= Ret = p.
Proof. induction p as [a|payload k IH|k IH]; cbn [mbind proc_bind]; [done|f_equal; extensionality e; apply IH..]. Qed.

(** A method under way: it reads and writes its receiver of type [S], and ends
    with Go's [(A, error)]. *)
Definition sproc (S E A : Type) : Type := S → proc (S * result E A).

Section sproc.
Context {S E : Type}.

#[export] Instance sproc_ret : MRet (sproc S E) := fun _ a s => Ret (s, Ok a).
#[export] Instance sproc_bind : MBind (sproc S E) := fun A B f m s =>
  '(s, r) ← m s;
  match r with Ok a => f a s | Err e => Ret (s, Err e) end.

Definition lift_result {A} (r : result E A) : sproc S E A := fun s => Ret (s, r).
Definition get_state : sproc S E S := fun s => Ret (s, Ok s).
Definition put_state (s : S) : sproc S E unit := fun _ => Ret (s, Ok tt).
Definition fail_if_proc (bad : bool) (e : E) : sproc S E unit := lift_result (fail_if bad e).

(** [t.Send(ctx, payload)] and [t.Recv(ctx)] *)
Definition transport_send (wrap : transport_error → E) (payload : bytes) : sproc S E unit := fun s =>
  SendMsg payload (fun e => Ret (s, match e with None => Ok tt | Some e => Err (wrap e) end)).
Definition transport_recv (wrap : transport_error → E) : sproc S E bytes := fun s =>
  RecvMsg (fun r => Ret (s, wrap_err wrap r)).
End sproc.

Lemma sproc_bind_eq {S E A B X} (m : sproc S E A) (f : A → sproc S E B) s (k : S * result E B → proc X) :
  (m ≫= f) s ≫= k =
  m s ≫= (fun '(s, r) => match r with Ok a => f a s ≫= k | Err e => k (s, Err e) end).
Proof.
  unfold mbind at 2, sproc_bind. rewrite proc_bind_assoc. f_equal. extensionality x.
  by destruct x as [s' [a|e]].
Qed.

Lemma lift_bind {S E A X} (r : result E A) (s : S) (k : S * result E A → proc X) :
  lift_result r s ≫= k = k (s, r).
Proof. done. Qed.

Lemma get_bind {S E X} (s : S) (k : S * result E S → proc X) : get_state s ≫= k = k (s, Ok s).
Proof. done. Qed.

Lemma send_bind {S E X} w payload (s : S) (k : S * result E unit → proc X) :
  transport_send w payload s ≫= k =
  SendMsg payload (fun e => k (s, match e with None => Ok tt | Some e => Err (w e) end)).
Proof. done. Qed.

(** Run a method on a part of the state. *)
Definition on_part {S T E A} (get : T → S) (set : S → T → T) (m : sproc S E A) : sproc T E A := fun t =>
  '(s, r) ← m (get t); Ret (set s t, r).

Section pair.
Context {A B : Type}.

(** [to_a], [to_b]: the messages sent and not yet received, oldest first. *)
Record config := MkConfig {
  peer_a : proc A; peer_b : proc B; to_a : list bytes; to_b : list bytes
}.

Inductive step : config → config → Prop :=
  | step_a_send payload k q ta tb :
      step (MkConfig (SendMsg payload k) q ta tb) (MkConfig (k None) q ta (tb ++ [payload]))
  | step_a_recv k payload q ta tb :
      step (MkConfig (RecvMsg k) q (payload :: ta) tb) (MkConfig (k (Ok payload)) q ta tb)
  | step_b_send payload k p ta tb :
      step (MkConfig p (SendMsg payload k) ta tb) (MkConfig p (k None) (ta ++ [payload]) tb)
  | step_b_recv k payload p ta tb :
      step (MkConfig p (RecvMsg k) ta (payload :: tb)) (MkConfig p (k (Ok payload)) ta tb).

(** One schedule, executable: the first peer moves when it can. *)
Definition next (c : config) : option config :=
  match peer_a c, to_a c with
  | SendMsg payload k, _ => Some (MkConfig (k None) (peer_b c) (to_a c) (to_b c ++ [payload]))
  | RecvMsg k, payload :: ta => Some (MkConfig (k (Ok payload)) (peer_b c) ta (to_b c))
  | _, _ =>
      match peer_b c, to_b c with
      | SendMsg payload k, _ => Some (MkConfig (peer_a c) (k None) (to_a c ++ [payload]) (to_b c))
      | RecvMsg k, payload :: tb => Some (MkConfig (peer_a c) (k (Ok payload)) (to_a c) tb)
      | _, _ => None
      end
  end.

Fixpoint run (fuel : nat) (c : config) : config :=
  match fuel with
  | O => c
  | S fuel => match next c with Some c' => run fuel c' | None => c end
  end.

Lemma next_step c c' : next c = Some c' → step c c'.
Proof.
  destruct c as [p q ta tb]. unfold next. cbn [peer_a peer_b to_a to_b].
  intros Hn. destruct p, q, ta, tb; simplify_eq/=; constructor.
Qed.

Lemma run_steps fuel c : rtc step c (run fuel c).
Proof.
  revert c. induction fuel as [|fuel IH]; intros c; simpl; [done|].
  destruct (next c) as [c'|] eqn:E; [|done]. eapply rtc_l; [by apply next_step|apply IH].
Qed.

(** Two different moves are by different peers and commute. *)
Lemma step_diamond c c1 c2 :
  step c c1 → step c c2 → c1 = c2 ∨ ∃ c3, step c1 c3 ∧ step c2 c3.
Proof.
  intros H1 H2. inversion H1; subst; inversion H2; subst; try (by left); right;
    eexists; (split; [|]); constructor.
Qed.

(** No peer can move. *)
Definition finished (c : config) : Prop := ∀ c', ¬ step c c'.

(** Whatever the peers did so far, they can go on to the same end, and no
    execution is longer than the one known. *)
Lemma run_confluent n c f k c' :
  nsteps step n c f → finished f → nsteps step k c c' →
  (k ≤ n)%nat ∧ nsteps step (n - k) c' f.
Proof.
  intros Hn Hf. revert n c Hn. induction k as [|k IH]; intros n c Hn Hk.
  { inversion Hk; subst. split; [lia|]. by rewrite Nat.sub_0_r. }
  inversion Hk as [|? ? c1 ? Hs Hk']; subst.
  assert (Hex : ∃ m, n = S m ∧ nsteps step m c1 f).
  { clear IH Hk Hk' k. revert c c1 Hn Hs. induction n as [|n IHn]; intros c c1 Hn Hs.
    { inversion Hn; subst. by destruct (Hf c1). }
    inversion Hn as [|? ? c2 ? Hs2 Hn2]; subst.
    destruct (step_diamond _ _ _ Hs Hs2) as [<-|(c3 & H13 & H23)]; [by exists n|].
    destruct (IHn c2 c3 Hn2 H23) as (m & -> & H3). exists (S m). split; [done|]. by econstructor. }
  destruct Hex as (m & -> & Hm). destruct (IH m c1 Hm Hk') as [? ?]. split; [lia|]. done.
Qed.

(** Every execution from [c] ends, and ends with these results. *)
Definition always_ends (c : config) (a : A) (b : B) : Prop :=
  ∃ n, ∀ k c', nsteps step k c c' →
    (k ≤ n)%nat ∧ rtc step c' (MkConfig (Ret a) (Ret b) [] []) .

Lemma ret_finished a b ta tb : finished (MkConfig (Ret a) (Ret b) ta tb).
Proof. intros c' Hs. inversion Hs. Qed.

Lemma rtc_always_ends c a b :
  rtc step c (MkConfig (Ret a) (Ret b) [] []) → always_ends c a b.
Proof.
  intros [n Hn]%rtc_nsteps. exists n. intros k c' Hk.
  destruct (run_confluent n c _ k c' Hn (ret_finished _ _ _ _) Hk) as [? H].
  split; [done|]. apply rtc_nsteps. by eexists.
Qed.

(** The executable schedule decides. *)
Lemma run_always_ends fuel c a b :
  run fuel c = MkConfig (Ret a) (Ret b) [] [] → always_ends c a b.
Proof. intros Hr. apply rtc_always_ends. rewrite <- Hr. apply run_steps. Qed.
End pair.
Arguments config : clear implicits.

(** The peers' roles can be exchanged. *)
Definition flip_config {A B} (c : config A B) : config B A :=
  MkConfig (peer_b c) (peer_a c) (to_b c) (to_a c).

Lemma rtc_flip {A B} (c c' : config A B) : rtc step c c' → rtc step (flip_config c) (flip_config c').
Proof. induction 1 as [|? ? ? Hs _ IH]; [done|]. eapply rtc_l; [|exact IH]. destruct Hs; constructor. Qed.

(** One message from a sender that is ready to a receiver that waits. *)
Lemma rtc_deliver_ab {A B} payload k k' ta (c' : config A B) :
  rtc step (MkConfig (k None) (k' (Ok payload)) ta []) c' →
  rtc step (MkConfig (SendMsg payload k) (RecvMsg k') ta []) c'.
Proof.
  intros Hr. eapply rtc_l; [apply step_a_send|]. eapply rtc_l; [apply step_b_recv|]. done.
Qed.

Lemma rtc_deliver_ba {A B} payload k k' tb (c' : config A B) :
  rtc step (MkConfig (k' (Ok payload)) (k None) [] tb) c' →
  rtc step (MkConfig (RecvMsg k') (SendMsg payload k) [] tb) c'.
Proof.
  intros Hr. eapply rtc_l; [apply step_b_send|]. eapply rtc_l; [apply step_a_recv|]. done.
Qed.
