(* ===== verification/FileSystem.v ===== *)
(** * A POSIX file system for the [os] calls of the sources

    A tree of directory entries over inodes.  Keys are the component lists of
    resolved absolute paths; [walk] resolves a path name the way the kernel
    does, following symbolic links.  An open file is its inode number, so a
    rename or an unlink does not disturb it.  The operations run in [io], a
    state and error monad over the file system: effects made before an error
    stay. *)
From Stdlib Require Import ZArith Lia Ascii String.
From stdpp Require Import base tactics numbers list gmap strings.
From S2P Require Import Prelude GoStrings GoPath.

Abbreviation key := (list string).

Inductive node :=
  | NFile (ino : nat)
  | NDir (mode mtime : Z)
  | NLink (target : string).

Record inode := MkInode { content : bytes; imode : Z; imtime : Z }.

Record fs := MkFS {
  entries : gmap key node;
  inodes : gmap nat inode;
  next_ino : nat;
  cwd : key;
}.

Inductive fs_error :=
  | ENOENT | ENOTDIR | EEXIST | EISDIR | ELOOP | ENOTEMPTY | EBADF | EINVAL.

#[export] Instance fs_error_eq_dec : EqDecision fs_error.
Proof. solve_decision. Defined.

Definition IsNotExist (e : fs_error) : bool := bool_decide (e = ENOENT).
Definition IsExist (e : fs_error) : bool := bool_decide (e = EEXIST) || bool_decide (e = ENOTEMPTY).

(** ** The monad *)

Definition io (E A : Type) : Type := fs → result E A * fs.

#[export] Instance io_ret E : MRet (io E) := fun _ a s => (Ok a, s).
#[export] Instance io_bind E : MBind (io E) := fun _ _ k m s =>
  match m s with
  | (Ok a, s') => k a s'
  | (Err e, s') => (Err e, s')
  end.

Definition fail {E A} (e : E) : io E A := fun s => (Err e, s).
Definition lift {E A} (r : result E A) : io E A := fun s => (r, s).
Definition gets {E A} (f : fs → A) : io E A := fun s => (Ok (f s), s).
(** [x, err := f()]: run and hand the error to the caller as a value. *)
Definition attempt {E F A} (m : io E A) : io F (result E A) := fun s =>
  let '(r, s') := m s in (Ok r, s').
(** [if err := f(); err != nil { return err }] under another error type *)
Definition wrap_io {E F A} (f : E → F) (m : io E A) : io F A := fun s =>
  let '(r, s') := m s in (wrap_err f r, s').
Definition fail_if_io {E} (bad : bool) (e : E) : io E unit := lift (fail_if bad e).

(** ** Name resolution *)

(** The components the kernel walks: empty ones and [.] are skipped. *)
Definition name_comps (p : string) : list string :=
  filter (fun c => negb (String.eqb c "" || String.eqb c ".") = true) (split_on slash p).

(** Linux follows at most 40 links. *)
Definition max_links : nat := 40.

(** Walk [comps] from the directory [cur].  The last component need not exist;
    it is followed when it is a link and [follow] holds. *)
Fixpoint walk (links : nat) (s : fs) (follow : bool) (cur : key) (comps : list string)
    : result fs_error key :=
  (fix step (cur : key) (comps : list string) : result fs_error key :=
     match comps with
     | [] => Ok cur
     | c :: rest =>
         if String.eqb c ".." then step (removelast cur) rest
         else
           let k := cur ++ [c] in
           match entries s !! k, rest with
           | None, [] => Ok k
           | None, _ :: _ => Err ENOENT
           | Some (NFile _), [] => Ok k
           | Some (NFile _), _ :: _ => Err ENOTDIR
           | Some (NDir _ _), _ => step k rest
           | Some (NLink t), [] =>
               if follow then
                 match links with
                 | O => Err ELOOP
                 | S links' => walk links' s follow (if IsAbs t then [] else cur) (name_comps t)
                 end
               else Ok k
           | Some (NLink t), _ :: _ =>
               match links with
               | O => Err ELOOP
               | S links' => walk links' s follow (if IsAbs t then [] else cur) (name_comps t ++ rest)
               end
           end
     end) cur comps.

Definition resolve (s : fs) (follow : bool) (p : string) : result fs_error key :=
  if String.eqb p "" then Err ENOENT
  else walk max_links s follow (if IsAbs p then [] else cwd s) (name_comps p).

(** The node of a resolved key; the root is a directory. *)
Definition node_at (s : fs) (k : key) : option node :=
  match k with [] => Some (NDir 493 0) | _ => entries s !! k end.

Definition lookup_path (s : fs) (follow : bool) (p : string) : result fs_error (key * node) :=
  k ← resolve s follow p;
  match node_at s k with Some n => Ok (k, n) | None => Err ENOENT end.

(** ** [os.FileInfo] *)

Inductive file_kind := Regular | Directory | SymbolicLink.
#[export] Instance file_kind_eq_dec : EqDecision file_kind.
Proof. solve_decision. Defined.

Record FileInfo := MkInfo { fi_kind : file_kind; fi_size : Z; fi_mode : Z; fi_mtime : Z }.

Definition is_dir (i : FileInfo) : bool := bool_decide (fi_kind i = Directory).
Definition is_regular (i : FileInfo) : bool := bool_decide (fi_kind i = Regular).
Definition is_symlink (i : FileInfo) : bool := bool_decide (fi_kind i = SymbolicLink).

Definition inode_at (s : fs) (ino : nat) : inode := default (MkInode [] 0 0) (inodes s !! ino).

Definition node_info (s : fs) (n : node) : FileInfo :=
  match n with
  | NFile ino => let i := inode_at s ino in
                 MkInfo Regular (Z.of_nat (length (content i))) (imode i) (imtime i)
  | NDir mode mtime => MkInfo Directory 0 mode mtime
  | NLink t => MkInfo SymbolicLink (str_len t) 511 0
  end.

Definition stat_with (follow : bool) (p : string) : io fs_error FileInfo := fun s =>
  ((fun kn => node_info s (snd kn)) <$> lookup_path s follow p, s).
Definition Lstat : string → io fs_error FileInfo := stat_with false.
Definition Stat : string → io fs_error FileInfo := stat_with true.

(** ** Changes *)

Definition set_entry (s : fs) (k : key) (n : node) : fs :=
  MkFS (<[k := n]> (entries s)) (inodes s) (next_ino s) (cwd s).
Definition del_entry (s : fs) (k : key) : fs :=
  MkFS (delete k (entries s)) (inodes s) (next_ino s) (cwd s).
Definition set_inode (s : fs) (ino : nat) (i : inode) : fs :=
  MkFS (entries s) (<[ino := i]> (inodes s)) (next_ino s) (cwd s).

Definition Mkdir (p : string) (mode : Z) : io fs_error unit := fun s =>
  match resolve s false p with
  | Err e => (Err e, s)
  | Ok k => match node_at s k with
            | Some _ => (Err EEXIST, s)
            | None => (Ok tt, set_entry s k (NDir mode 0))
            end
  end.

(** [os.MkdirAll]: make the missing prefixes of the path, the longest last. *)
Fixpoint mkdir_prefixes (ps : list string) (mode : Z) : io fs_error unit :=
  match ps with
  | [] => mret tt
  | p :: ps' =>
      st ← attempt (Stat p);
      match st with
      | Ok i => if is_dir i then mkdir_prefixes ps' mode else fail ENOTDIR
      | Err _ =>
          made ← attempt (Mkdir p mode);
          match made with
          | Ok _ => mkdir_prefixes ps' mode
          | Err e =>
              again ← attempt (Lstat p);
              match again with
              | Ok i => if is_dir i then mkdir_prefixes ps' mode else fail e
              | Err _ => fail e
              end
          end
      end
  end.

Definition path_prefixes (p : string) : list string :=
  (fun n => (if IsAbs p then "/" else "") +:+ join_with slash (take (S n) (name_comps p)))
    <$> seq 0 (length (name_comps p)).

Definition MkdirAll (p : string) (mode : Z) : io fs_error unit := mkdir_prefixes (path_prefixes p) mode.

(** [os.OpenFile(p, os.O_CREATE|os.O_WRONLY, mode)] *)
Definition OpenFile (p : string) (mode : Z) : io fs_error nat := fun s =>
  match resolve s true p with
  | Err e => (Err e, s)
  | Ok k =>
      match node_at s k with
      | Some (NFile ino) => (Ok ino, s)
      | Some (NDir _ _) => (Err EISDIR, s)
      | Some (NLink _) => (Err ELOOP, s)
      | None =>
          let ino := next_ino s in
          (Ok ino, MkFS (<[k := NFile ino]> (entries s)) (<[ino := MkInode [] mode 0]> (inodes s))
                     (S ino) (cwd s))
      end
  end.

(** [data] cut or zero-filled to [n] bytes *)
Definition resize_to (n : nat) (data : bytes) : bytes :=
  take n data ++ replicate (n - length data) Ascii.zero.

Definition Truncate (ino : nat) (n : Z) : io fs_error unit := fun s =>
  if n <? 0 then (Err EINVAL, s)
  else
    let i := inode_at s ino in
    (Ok tt, set_inode s ino (MkInode (resize_to (Z.to_nat n) (content i)) (imode i) (imtime i))).

(** [pwrite]: overwrite from [off], zero-filling a gap; nothing for no data *)
Definition write_at (data : bytes) (off : nat) (old : bytes) : bytes :=
  match data with
  | [] => old
  | _ => take off (resize_to (Nat.max off (length old)) old) ++ data ++ drop (off + length data) old
  end.

Definition WriteAt (ino : nat) (data : bytes) (off : Z) : io fs_error unit := fun s =>
  if off <? 0 then (Err EINVAL, s)
  else
    let i := inode_at s ino in
    (Ok tt, set_inode s ino (MkInode (write_at data (Z.to_nat off) (content i)) (imode i) (imtime i))).

(** [os.ReadFile] of a regular file *)
Definition ReadFile (p : string) : io fs_error bytes := fun s =>
  (match lookup_path s true p with
   | Ok (_, NFile ino) => Ok (content (inode_at s ino))
   | Ok (_, NDir _ _) => Err EISDIR
   | Ok (_, NLink _) => Err ELOOP
   | Err e => Err e
   end, s).

(** [os.Rename] of a file or link onto a name; Go refuses a directory target. *)
Definition Rename (old new : string) : io fs_error unit := fun s =>
  match lookup_path s false old with
  | Err e => (Err e, s)
  | Ok (_, NDir _ _) => (Err EISDIR, s)
  | Ok (ko, n) =>
      match resolve s false new with
      | Err e => (Err e, s)
      | Ok kn =>
          match node_at s kn with
          | Some (NDir _ _) => (Err EEXIST, s)
          | _ => (Ok tt, set_entry (del_entry s ko) kn n)
          end
      end
  end.

Definition Remove (p : string) : io fs_error unit := fun s =>
  match lookup_path s false p with
  | Err e => (Err e, s)
  | Ok (k, NDir _ _) =>
      if bool_decide (map_Forall (fun k' _ => removelast k' = k → k' = []) (entries s))
      then (Ok tt, del_entry s k) else (Err ENOTEMPTY, s)
  | Ok (k, _) => (Ok tt, del_entry s k)
  end.

Definition update_meta (f : inode → inode) (g : node → node) (p : string) : io fs_error unit := fun s =>
  match lookup_path s true p with
  | Err e => (Err e, s)
  | Ok (_, NFile ino) => (Ok tt, set_inode s ino (f (inode_at s ino)))
  | Ok (k, n) => (Ok tt, set_entry s k (g n))
  end.

Definition Chmod (p : string) (mode : Z) : io fs_error unit :=
  update_meta (fun i => MkInode (content i) mode (imtime i))
    (fun n => match n with NDir _ t => NDir mode t | _ => n end) p.
Definition Chtimes (p : string) (mtime : Z) : io fs_error unit :=
  update_meta (fun i => MkInode (content i) (imode i) mtime)
    (fun n => match n with NDir m _ => NDir m mtime | _ => n end) p.

Definition Symlink (target p : string) : io fs_error unit := fun s =>
  match resolve s false p with
  | Err e => (Err e, s)
  | Ok k => match node_at s k with
            | Some _ => (Err EEXIST, s)
            | None => (Ok tt, set_entry s k (NLink target))
            end
  end.

Definition Readlink (p : string) : io fs_error string := fun s =>
  (match lookup_path s false p with
   | Ok (_, NLink t) => Ok t
   | Ok _ => Err EINVAL
   | Err e => Err e
   end, s).

(** ** Lemmas of the monad *)

Section io_lemmas.
Context {E A B : Type}.

Lemma io_bind_Ok (m : io E A) (k : A → io E B) s b s' :
  (m ≫= k) s = (Ok b, s') ↔ ∃ a s1, m s = (Ok a, s1) ∧ k a s1 = (Ok b, s').
Proof.
  unfold mbind, io_bind. destruct (m s) as [[a|e] s1]; split.
  - intros Hk. by exists a, s1.
  - by intros (a' & s1' & [= <- <-] & ?).
  - done.
  - by intros (? & ? & [=] & _).
Qed.

Lemma attempt_Ok {F} (m : io E A) s (r : result E A) s' :
  attempt (F:=F) m s = (Ok r, s') ↔ m s = (r, s').
Proof. unfold attempt. destruct (m s). naive_solver. Qed.

Lemma wrap_io_Ok {F} (f : E → F) (m : io E A) s a s' :
  wrap_io f m s = (Ok a, s') ↔ m s = (Ok a, s').
Proof. unfold wrap_io. destruct (m s) as [[|] ?]; naive_solver. Qed.

Lemma lift_Ok (r : result E A) s a s' : lift r s = (Ok a, s') ↔ r = Ok a ∧ s' = s.
Proof. unfold lift. naive_solver. Qed.

Lemma gets_Ok (f : fs → A) s a s' : gets (E:=E) f s = (Ok a, s') ↔ a = f s ∧ s' = s.
Proof. unfold gets. naive_solver. Qed.

Lemma fail_Ok (e : E) s a s' : fail (A:=A) e s = (Ok a, s') ↔ False.
Proof. unfold fail. naive_solver. Qed.

Lemma mret_Ok (a : A) s a' s' : (mret a : io E A) s = (Ok a', s') ↔ a' = a ∧ s' = s.
Proof. unfold mret, io_ret. naive_solver. Qed.
End io_lemmas.

Lemma fail_if_io_Ok {E} (bad : bool) (e : E) s u s' :
  fail_if_io bad e s = (Ok u, s') ↔ bad = false ∧ s' = s.
Proof. unfold fail_if_io. rewrite lift_Ok, fail_if_Ok. tauto. Qed.

(** Peel a run in [io] that returned. *)
Ltac io_inv :=
  repeat match goal with
  | H : (_ ≫= _) _ = (Ok _, _) |- _ => apply io_bind_Ok in H as (? & ? & ? & ?)
  | H : lift _ _ = (Ok _, _) |- _ => apply lift_Ok in H as [? ->]
  | H : gets _ _ = (Ok _, _) |- _ => apply gets_Ok in H as [? ?]; subst
  | H : fail _ _ = (Ok _, _) |- _ => by apply fail_Ok in H
  | H : mret _ _ = (Ok _, _) |- _ => apply mret_Ok in H as [? ?]; subst
  | H : fail_if_io _ _ _ = (Ok _, _) |- _ => apply fail_if_io_Ok in H as [? ->]
  | H : wrap_io _ _ _ = (Ok _, _) |- _ => apply wrap_io_Ok in H
  | H : attempt _ _ = (Ok _, _) |- _ => apply attempt_Ok in H
  end; res_inv.

(** ** Lemmas on file data *)

Lemma resize_to_length n data : length (resize_to n data) = n.
Proof. unfold resize_to. rewrite length_app, length_take, length_replicate. lia. Qed.

Lemma resize_to_lookup n data i :
  (i < n)%nat → resize_to n data !! i = Some (default Ascii.zero (data !! i)).
Proof.
  intros Hi. unfold resize_to. destruct (decide (i < length data)%nat) as [Hd|Hd].
  - rewrite lookup_app_l by (rewrite length_take; lia). rewrite lookup_take_lt by done.
    destruct (lookup_lt_is_Some_2 _ _ Hd) as [c Hc]. by rewrite Hc.
  - rewrite lookup_app_r by (rewrite length_take; lia). rewrite lookup_replicate_2 by (rewrite length_take; lia).
    by rewrite lookup_ge_None_2 by lia.
Qed.

Lemma resize_to_take n data : (n ≤ length data)%nat → resize_to n data = take n data.
Proof. intros. unfold resize_to. by replace (n - length data)%nat with 0%nat by lia; rewrite app_nil_r. Qed.

Lemma write_at_length data off old :
  data ≠ [] → length (write_at data off old) = Nat.max (length old) (off + length data).
Proof.
  intros Hd. destruct data as [|c data]; [done|]. unfold write_at.
  rewrite !length_app, length_take, resize_to_length, length_drop. lia.
Qed.

Lemma write_at_lookup data off old i :
  (i < off + length data)%nat → data ≠ [] →
  write_at data off old !! i =
    if decide (i < off)%nat then Some (default Ascii.zero (old !! i)) else data !! (i - off)%nat.
Proof.
  intros Hi Hd. destruct data as [|c data]; [done|]. unfold write_at.
  assert (Hl : length (take off (resize_to (off `max` length old) old)) = off)
    by (rewrite length_take, resize_to_length; lia).
  case_decide.
  - rewrite lookup_app_l by lia. rewrite lookup_take_lt by done. apply resize_to_lookup. lia.
  - rewrite lookup_app_r, Hl by lia. rewrite lookup_app_l by lia. done.
Qed.

Lemma write_at_lookup_after data off old i :
  (off + length data ≤ i)%nat → write_at data off old !! i = old !! i.
Proof.
  intros Hi. destruct data as [|c data]; [done|]. unfold write_at.
  rewrite lookup_app_r; rewrite length_take, resize_to_length; [|lia].
  rewrite lookup_app_r by lia. rewrite lookup_drop. f_equal. lia.
Qed.

Lemma inode_at_set s ino i ino' :
  inode_at (set_inode s ino i) ino' = if decide (ino = ino') then i else inode_at s ino'.
Proof.
  unfold inode_at, set_inode. simpl. case_decide as E; [by subst; rewrite lookup_insert_eq|].
  by rewrite lookup_insert_ne.
Qed.

(** ** Walking through directories *)

Definition plain_part (c : string) : Prop := safe_part c = true ∧ has_byte slash c = false.

Lemma plain_not_dotdot c : safe_part c = true → String.eqb c ".." = false.
Proof. unfold safe_part. intros H. by bool_prop. Qed.

(** A chain of real directories is walked through without following a link. *)
Lemma walk_dirs links s follow cur parts rest :
  Forall (fun c => safe_part c = true) parts →
  (∀ n, (0 < n ≤ length parts)%nat → ∃ m t, entries s !! (cur ++ take n parts) = Some (NDir m t)) →
  walk links s follow cur (parts ++ rest) = walk links s follow (cur ++ parts) rest.
Proof.
  intros Hsafe. revert cur. induction Hsafe as [|c parts Hc _ IH]; intros cur Hd.
  - by rewrite app_nil_r.
  - destruct (Hd 1%nat) as (m & t & Hk); [simpl; lia|].
    simpl in Hk. rewrite take_0 in Hk.
    assert (Hstep : walk links s follow cur ((c :: parts) ++ rest) = walk links s follow (cur ++ [c]) (parts ++ rest)).
    { destruct links; simpl; rewrite plain_not_dotdot, Hk by done; reflexivity. }
    rewrite Hstep, IH; [by rewrite <- (assoc_L (++))|].
    intros n Hn. destruct (Hd (S n)) as (m' & t' & Hk'); [simpl; lia|].
    exists m', t'. by rewrite <- (assoc_L (++)).
Qed.

(** The last component, when it is not a link that is followed. *)
Lemma walk_last links s cur c :
  safe_part c = true →
  walk links s false cur [c] = Ok (cur ++ [c]).
Proof.
  intros Hc. destruct links; simpl; rewrite plain_not_dotdot by done;
    destruct (entries s !! (cur ++ [c])) as [[]|]; done.
Qed.
