(* ===== verification/ManifestCheck.v ===== *)
(** * Manifest validation ([internal/transfer/receive_store.go], lines 756-938)

    What the receiver demands of a manifest before it touches the disk, of a
    received name and of a symbolic link target.  On Linux [filepath.ToSlash]
    and [filepath.FromSlash] are the identity. *)
From Stdlib Require Import ZArith Lia Ascii String.
From stdpp Require Import base tactics numbers list gmap strings.
From S2P Require Import Prelude GoStrings GoPath Protocol.

Inductive manifest_error :=
  | MissingManifest
  | UnsupportedVersion (v : Z)
  | NoItems
  | EmptyName (item : Z)
  | NegativeSize (name : string)
  | InvalidChunkSize (name : string)
  | InvalidSHA256 (name : string)
  | InvalidSampleSHA256 (name : string)
  | FileWithTarget (name : string)
  | TextWithSample (name : string)
  | DirectoryWithData (name : string)
  | SymlinkWithData (name : string)
  | EmptySymlinkTarget (name : string)
  | AbsoluteSymlinkTarget (name : string)
  | DriveSymlinkTarget (name : string)
  | UnsafeSymlinkTarget (name : string)
  | UnsupportedKind (kind : string)
  | EmptyPath
  | AbsolutePath (name : string)
  | UnsafePath (name : string)
  | DuplicatePath (name : string)
  | NonDirectoryParent (path parent : string)
  | NegativeChunkOffset (name : string) (off : Z)
  | ChunkExceedsSize (name : string) (stop : Z)
  | UnexpectedChunkOffset (name : string) (got want : Z)
  | ReceivedSizeMismatch (name : string)
  | SHA256Mismatch (name : string).

Definition backslash : ascii := "\"%char.

Definition safeRelativePath (name0 : string) : result manifest_error string :=
  let name := replace_byte backslash slash name0 in
  let clean := Clean name in
  _ ← fail_if (String.eqb clean "." || String.eqb clean "/" || String.eqb clean "") EmptyPath;
  _ ← fail_if (IsAbs clean) (AbsolutePath name);
  let parts := split_on slash clean in
  _ ← fail_if (negb (forallb safe_part parts)) (UnsafePath name);
  Ok (join_with slash parts).

Definition validateSafeSymlinkTarget (name target : string) : result manifest_error unit :=
  _ ← fail_if (String.eqb target "" || has_byte Ascii.zero target) (EmptySymlinkTarget name);
  let normalized := replace_byte backslash slash target in
  _ ← fail_if (has_prefix normalized "/" || IsAbs normalized) (AbsoluteSymlinkTarget name);
  _ ← fail_if (match to_bytes normalized with _ :: ":"%char :: _ => true | _ => false end)
        (DriveSymlinkTarget name);
  fail_if (existsb (fun part => String.eqb part "..") (split_on slash normalized)) (UnsafeSymlinkTarget name).

(** The runes of a string outside ASCII fail the test, like their bytes. *)
Definition is_hex (c : ascii) : bool :=
  is_digit c || in_byte_range "a"%char "f"%char c || in_byte_range "A"%char "F"%char c.
Definition isHexSHA256 (value : string) : bool :=
  if negb (str_len value =? 64) then false else forall_bytes is_hex value.

(** The checks of one item, lines 768-809; the result says whether the item has
    a path. *)
Definition check_item (i : Z) (it : Item) : result manifest_error bool :=
  _ ← fail_if (String.eqb (Name it) "") (EmptyName i);
  _ ← fail_if (Size it <? 0) (NegativeSize (Name it));
  _ ← fail_if ((ItemChunkSize it <=? 0) || (ItemChunkSize it >? ChunkSize)) (InvalidChunkSize (Name it));
  _ ← fail_if (negb (String.eqb (SHA256 it) "") && negb (isHexSHA256 (SHA256 it))) (InvalidSHA256 (Name it));
  _ ← fail_if (negb (String.eqb (SampleSHA256 it) "") && negb (isHexSHA256 (SampleSHA256 it)))
        (InvalidSampleSHA256 (Name it));
  if String.eqb (Kind it) ItemFile then
    _ ← fail_if (negb (String.eqb (Target it) "")) (FileWithTarget (Name it));
    Ok true
  else if String.eqb (Kind it) ItemText then
    _ ← fail_if (negb (String.eqb (SampleSHA256 it) "")) (TextWithSample (Name it));
    Ok false
  else if String.eqb (Kind it) ItemDirectory then
    _ ← fail_if (negb (Size it =? 0) || negb (String.eqb (SHA256 it) "") || negb (String.eqb (SampleSHA256 it) "")
                 || negb (String.eqb (Target it) "") || ResumeSupported it) (DirectoryWithData (Name it));
    Ok true
  else if String.eqb (Kind it) ItemSymlink then
    _ ← fail_if (negb (Size it =? 0) || negb (String.eqb (SHA256 it) "") || negb (String.eqb (SampleSHA256 it) "")
                 || ResumeSupported it) (SymlinkWithData (Name it));
    _ ← validateSafeSymlinkTarget (Name it) (Target it);
    Ok true
  else Err (UnsupportedKind (Kind it)).

(** The loop over the items, with the map of paths seen so far. *)
Fixpoint check_items (i : Z) (items : list Item) (paths : gmap string ItemKind)
    : result manifest_error (gmap string ItemKind) :=
  match items with
  | [] => Ok paths
  | it :: items' =>
      hasPath ← check_item i it;
      match hasPath with
      | true =>
        k ← safeRelativePath (Name it);
        _ ← fail_if (bool_decide (is_Some (paths !! k))) (DuplicatePath (Name it));
        check_items (i + 1) items' (<[k := Kind it]> paths)
      | false => check_items (i + 1) items' paths
      end
  end.

(** The proper ancestors of a path: [parts[:n]] for [1 <= n < len(parts)]. *)
Definition proper_parents (k : string) : list string :=
  let parts := split_on slash k in
  (fun n => join_with slash (take (S n) parts)) <$> seq 0 (length parts - 1).

Definition bad_parent (paths : gmap string ItemKind) (parent : string) : bool :=
  match paths !! parent with
  | Some kind => negb (String.eqb kind ItemDirectory)
  | None => false
  end.

(** The loop over the map; Go visits it in an unspecified order, which decides
    only which error is reported. *)
Fixpoint check_parents (paths : gmap string ItemKind) (keys : list string) : result manifest_error unit :=
  match keys with
  | [] => Ok tt
  | k :: keys' =>
      match List.find (bad_parent paths) (proper_parents k) with
      | Some parent => Err (NonDirectoryParent k parent)
      | None => check_parents paths keys'
      end
  end.

Definition validateManifest (manifest : option Manifest) : result manifest_error unit :=
  match manifest with
  | None => Err MissingManifest
  | Some m =>
      _ ← fail_if (negb (MVersion m =? Version)) (UnsupportedVersion (MVersion m));
      _ ← fail_if (zlen (Items m) =? 0) NoItems;
      paths ← check_items 0 (Items m) ∅;
      check_parents paths ((map_to_list paths).*1)
  end.

(** ** Chunks and contents *)

Definition validateChunkRange (it : Item) (offset dataLen : Z) : result manifest_error unit :=
  _ ← fail_if (offset <? 0) (NegativeChunkOffset (Name it) offset);
  let stop := wrap64 (offset + dataLen) in
  fail_if ((stop <? offset) || (stop >? Size it)) (ChunkExceedsSize (Name it) stop).

Definition validateChunkBounds (it : Item) (offset dataLen expectedOffset : Z) : result manifest_error unit :=
  _ ← validateChunkRange it offset dataLen;
  fail_if (negb (offset =? expectedOffset)) (UnexpectedChunkOffset (Name it) offset expectedOffset).

Section content.
Context `{CaseTables} (bytesSHA256 : bytes → string).

Definition verifyTextItem (text : bytes) (it : Item) : result manifest_error unit :=
  _ ← fail_if (negb (Z.of_nat (length text) =? Size it)) (ReceivedSizeMismatch (Name it));
  if String.eqb (SHA256 it) "" then Ok tt
  else fail_if (negb (String.eqb (bytesSHA256 text) (ToLower (SHA256 it)))) (SHA256Mismatch (Name it)).
End content.

(** ** Received names stay below the output directory *)

Definition plain_parts (parts : list string) : Prop :=
  parts ≠ [] ∧ Forall (fun p => safe_part p = true) parts ∧
  Forall (fun p => has_byte slash p = false) parts.

Lemma safeRelativePath_inv name p :
  safeRelativePath name = Ok p → plain_parts (split_on slash p) ∧ IsAbs p = false.
Proof.
  unfold safeRelativePath. intros Hs. res_inv. bool_prop.
  set (clean := Clean (replace_byte backslash slash name)) in *.
  rewrite join_split. split; [|done]. split; [|split].
  - destruct (split_on_cons slash clean) as (a & l & ->). done.
  - apply Forall_forall. intros q Hq.
    match goal with Hf : forallb safe_part _ = true |- _ => rewrite forallb_forall in Hf; apply Hf end.
    by apply list_elem_of_In.
  - apply split_on_parts.
Qed.

Lemma IsAbs_app_slash a b : IsAbs (a +:+ String slash b) = match a with EmptyString => true | _ => IsAbs a end.
Proof. destruct a as [|c a]; [done|]. by rewrite IsAbs_app. Qed.

(** Joining safe parts extends the components of the root. *)
Lemma path_comps_join root p :
  root ≠ ""%string → plain_parts (split_on slash p) →
  path_comps (root +:+ String slash p) = path_comps root ++ split_on slash p.
Proof.
  intros Hr (_ & Hsafe & _). unfold path_comps. rewrite split_on_app_sep.
  rewrite IsAbs_app by done. by rewrite clean_parts_app_safe.
Qed.

(** A name a sender puts in a manifest cannot escape: whatever its
    separators and dots, an accepted name has only ordinary components, and
    joined to an output directory it names a path strictly below it. *)
Theorem safeRelativePath_contained name p :
  safeRelativePath name = Ok p →
  plain_parts (split_on slash p) ∧
  ∀ root, root ≠ ""%string →
    path_comps (root +:+ String slash p) = path_comps root ++ split_on slash p ∧
    IsAbs (root +:+ String slash p) = IsAbs root.
Proof.
  intros Hs. apply safeRelativePath_inv in Hs as [Hp _]. split; [done|].
  intros root Hr. split; [by apply path_comps_join|]. by apply IsAbs_app.
Qed.

Lemma safeRelativePath_contained_witness :
  plain_parts (split_on slash "docs/a.txt") ∧
  ∀ root, root ≠ ""%string →
    path_comps (root +:+ String slash "docs/a.txt") = path_comps root ++ split_on slash "docs/a.txt" ∧
    IsAbs (root +:+ String slash "docs/a.txt") = IsAbs root.
Proof. apply (safeRelativePath_contained ".\docs\\x/../a.txt" "docs/a.txt"). vm_compute. reflexivity. Defined.

(** Replacing one separator by the other cuts every part once more. *)
Lemma split_on_replace_parts c d t :
  c ≠ d → split_on d (replace_byte c d t) = mjoin (split_on c <$> split_on d t).
Proof.
  intros Hcd. induction t as [|a t IH]; [done|]. cbn [replace_byte split_on].
  destruct (split_on_cons d t) as (q & qs & E). rewrite E in IH |- *.
  destruct (Ascii.eqb_spec a c) as [->|Hac].
  - rewrite Ascii.eqb_refl. apply Ascii.eqb_neq in Hcd. rewrite Hcd, IH.
    rewrite !fmap_cons. cbn [split_on]. by rewrite Ascii.eqb_refl.
  - destruct (Ascii.eqb_spec a d) as [->|Had]; [by rewrite IH|].
    rewrite IH, !fmap_cons. cbn [split_on mjoin list_join]. apply Ascii.eqb_neq in Hac. rewrite Hac.
    by destruct (split_on_cons c q) as (y & ys & ->).
Qed.

Lemma split_on_replace c d p t :
  c ≠ d → p ∈ split_on d t → has_byte c p = false → p ∈ split_on d (replace_byte c d t).
Proof.
  intros Hcd Hp Hn. rewrite split_on_replace_parts by done. apply list_elem_of_join.
  exists (split_on c p). rewrite split_on_single by done. split; [by left|].
  apply list_elem_of_fmap. exists p. by rewrite split_on_single.
Qed.

(** A walk through components without [..] only goes down. *)
Lemma foldl_clean_down rooted stack parts :
  Forall (fun p => p ≠ ".."%string) parts →
  ∃ l, foldl (clean_step rooted) stack parts = l ++ stack ∧ Forall (fun p => safe_part p = true) l.
Proof.
  intros H. revert stack. induction H as [|p ps Hp Hps IH]; intros stack; simpl; [by exists []|].
  assert (Hs : clean_step rooted stack p = stack ∨ (clean_step rooted stack p = p :: stack ∧ safe_part p = true)).
  { unfold clean_step, safe_part.
    destruct (String.eqb_spec p ""), (String.eqb_spec p "."), (String.eqb_spec p ".."); simpl; auto; congruence. }
  destruct Hs as [->|[-> Hsafe]]; [apply IH|].
  destruct (IH (p :: stack)) as (l & -> & Hl). exists (l ++ [p]).
  rewrite <- (assoc_L (++)). split; [done|]. apply Forall_app. by repeat constructor.
Qed.

(** An accepted link target cannot lead out of the directory of the link:
    from any directory, following it goes down only. *)
Theorem symlink_target_contained name target dir :
  validateSafeSymlinkTarget name target = Ok tt → dir ≠ ""%string →
  IsAbs target = false ∧
  ∃ extra, Forall (fun p => safe_part p = true) extra ∧
           path_comps (dir +:+ String slash target) = path_comps dir ++ extra.
Proof.
  unfold validateSafeSymlinkTarget. intros Hv Hd. res_inv. bool_prop.
  match goal with Hx : existsb _ _ = false |- _ => rename Hx into Hdots end.
  assert (Hparts : Forall (fun p => p ≠ ".."%string) (split_on slash target)).
  { apply Forall_forall. intros p Hp ->.
    assert (Hin : ".."%string ∈ split_on slash (replace_byte backslash slash target))
      by (apply split_on_replace; done).
    assert (Hex : existsb (fun part => String.eqb part "..") (split_on slash (replace_byte backslash slash target)) = true).
    { apply existsb_exists. exists ".."%string. split; [by apply list_elem_of_In|done]. }
    congruence. }
  split.
  - destruct (IsAbs target) eqn:Ea; [|done]. destruct target as [|c t]; [done|].
    rewrite IsAbs_cons in Ea. apply Ascii.eqb_eq in Ea as <-.
    match goal with Hx : IsAbs (replace_byte _ _ _) = false |- _ => revert Hx end.
    cbn [replace_byte]. rewrite IsAbs_cons. done.
  - unfold path_comps, clean_parts. rewrite split_on_app_sep, foldl_app, IsAbs_app by done.
    destruct (foldl_clean_down (IsAbs dir) (foldl (clean_step (IsAbs dir)) [] (split_on slash dir)) _ Hparts)
      as (l & -> & Hl).
    exists (rev l). rewrite rev_app_distr. split; [|done].
    apply Forall_forall. intros p Hp. rewrite Forall_forall in Hl. apply Hl.
    apply list_elem_of_In. apply in_rev. by apply list_elem_of_In.
Qed.

Lemma symlink_target_contained_witness :
  IsAbs "sub/x" = false ∧
  ∃ extra, Forall (fun p => safe_part p = true) extra ∧
           path_comps ("/out/d" +:+ String slash "sub/x") = path_comps "/out/d" ++ extra.
Proof. apply (symlink_target_contained "link" "sub/x" "/out/d"); [vm_compute; reflexivity|done]. Defined.

(** ** An accepted manifest is a well-formed tree *)

Definition has_path (it : Item) : bool := negb (String.eqb (Kind it) ItemText).

Record item_ok (it : Item) : Prop := {
  io_name : Name it ≠ ""%string;
  io_size : 0 ≤ Size it;
  io_chunk : 0 < ItemChunkSize it ≤ ChunkSize;
  io_kind : Kind it ∈ [ItemFile; ItemText; ItemDirectory; ItemSymlink];
  io_path : has_path it = true → ∃ p, safeRelativePath (Name it) = Ok p;
  io_link : Kind it = ItemSymlink → validateSafeSymlinkTarget (Name it) (Target it) = Ok tt;
  io_data : Kind it = ItemDirectory ∨ Kind it = ItemSymlink → Size it = 0 ∧ ResumeSupported it = false;
}.

Record manifest_ok (m : Manifest) : Prop := {
  mo_version : MVersion m = Version;
  mo_nonempty : Items m ≠ [];
  mo_items : Forall item_ok (Items m);
  mo_unique : ∀ i j a b p, Items m !! i = Some a → Items m !! j = Some b →
    has_path a = true → has_path b = true →
    safeRelativePath (Name a) = Ok p → safeRelativePath (Name b) = Ok p → i = j;
  mo_tree : ∀ a b p q rest, a ∈ Items m → b ∈ Items m → has_path a = true → has_path b = true →
    safeRelativePath (Name a) = Ok p → safeRelativePath (Name b) = Ok q →
    split_on slash p = split_on slash q ++ rest → rest ≠ [] → Kind b = ItemDirectory;
}.

Lemma eqb_spec_ne a b : String.eqb a b = false → a ≠ b.
Proof. by intros ?%String.eqb_neq. Qed.

Lemma check_item_inv i it hp :
  check_item i it = Ok hp →
  hp = has_path it ∧ Name it ≠ ""%string ∧ 0 ≤ Size it ∧ 0 < ItemChunkSize it ≤ ChunkSize ∧
  Kind it ∈ [ItemFile; ItemText; ItemDirectory; ItemSymlink] ∧
  (Kind it = ItemSymlink → validateSafeSymlinkTarget (Name it) (Target it) = Ok tt) ∧
  (Kind it = ItemDirectory ∨ Kind it = ItemSymlink → Size it = 0 ∧ ResumeSupported it = false).
Proof.
  unfold check_item, has_path. intros Hc. res_inv. bool_prop.
  match goal with Hn : (Name it =? "")%string = false |- _ => apply eqb_spec_ne in Hn end.
  destruct (String.eqb_spec (Kind it) ItemFile) as [E|N1]; [|destruct (String.eqb_spec (Kind it) ItemText) as [E|N2];
    [|destruct (String.eqb_spec (Kind it) ItemDirectory) as [E|N3]; [|destruct (String.eqb_spec (Kind it) ItemSymlink) as [E|N4]; [|done]]]];
    res_inv; bool_prop; rewrite ?E; (split_and!; try done; try lia; try set_solver).
  all: try (by intros [?|?]). all: try (intros _; split; (lia || done)).
Qed.

(** What the loop's map records. *)
Definition path_of (it : Item) : option string :=
  if has_path it then match safeRelativePath (Name it) with Ok p => Some p | Err _ => None end else None.

Lemma check_items_inv i items paths0 paths :
  check_items i items paths0 = Ok paths →
  Forall item_ok items ∧
  (∀ k kind, paths !! k = Some kind ↔
     paths0 !! k = Some kind ∨ (paths0 !! k = None ∧ ∃ it, it ∈ items ∧ path_of it = Some k ∧ Kind it = kind)) ∧
  (∀ a b x y p, items !! a = Some x → items !! b = Some y → path_of x = Some p → path_of y = Some p → a = b) ∧
  (∀ it p, it ∈ items → path_of it = Some p → paths0 !! p = None).
Proof.
  revert i paths0. induction items as [|it items IH]; intros i paths0 Hc; simpl in Hc; res_inv.
  { split_and!; [done| |done|by intros ?? ?%not_elem_of_nil].
    intros k kind. split; [by left|]. intros [?|(_ & ? & ?%not_elem_of_nil & _)]; done. }
  match goal with Hi : check_item _ _ = Ok _ |- _ => apply check_item_inv in Hi as (-> & ? & ? & ? & ? & ? & ?) end.
  destruct (has_path it) eqn:Hp; res_inv; bool_prop.
  - rename x into k. match goal with Hk : safeRelativePath _ = Ok k |- _ => rename Hk into Hsafe end.
    match goal with Hr : check_items _ _ _ = Ok _ |- _ => apply IH in Hr as (Hall & Hmap & Hinj & Hnew) end.
    assert (Hpo : path_of it = Some k) by (unfold path_of; by rewrite Hp, Hsafe).
    match goal with Hx : ¬ is_Some _ |- _ => apply eq_None_not_Some in Hx; rename Hx into Hfresh end.
    assert (Hdiff : ∀ y p, y ∈ items → path_of y = Some p → p ≠ k).
    { intros y p Hy Hpy ->. specialize (Hnew y k Hy Hpy). by rewrite lookup_insert_eq in Hnew. }
    split_and!.
    + constructor; [|done]. constructor; eauto.
    + intros k' kind. rewrite Hmap, lookup_insert_Some, lookup_insert_None. split.
      * intros [[[<- <-]|[? ?]]|[[? ?] (y & ? & ? & ?)]].
        -- right. split; [done|]. exists it. split_and!; [by left|done|done].
        -- by left.
        -- right. split; [done|]. exists y. split_and!; [by right|done|done].
      * intros [Hk|[Hk (y & [->|Hy]%elem_of_cons & Hpy & <-)]].
        -- left. right. split; [|done]. intros ->. congruence.
        -- left. left. split; [congruence|done].
        -- right. split; [split; [done|]|by exists y]. intros ->. by eapply Hdiff.
    + intros [|a] [|b] x y p Ha Hb Hx Hy; simpl in Ha, Hb; simplify_eq; [done|..].
      * exfalso. eapply Hdiff; [by eapply list_elem_of_lookup_2|exact Hy|congruence].
      * exfalso. eapply Hdiff; [by eapply list_elem_of_lookup_2|exact Hx|congruence].
      * f_equal. by eapply Hinj.
    + intros y p [->|Hy]%elem_of_cons Hpy; [congruence|].
      specialize (Hnew y p Hy Hpy). by apply lookup_insert_None in Hnew as [? _].
  - match goal with Hr : check_items _ _ _ = Ok _ |- _ => apply IH in Hr as (Hall & Hmap & Hinj & Hnew) end.
    assert (Hpo : path_of it = None) by (unfold path_of; by rewrite Hp).
    split_and!.
    + constructor; [|done]. constructor; try done. congruence.
    + intros k kind. rewrite Hmap. setoid_rewrite elem_of_cons. naive_solver.
    + intros [|a] [|b] x y p Ha Hb Hx Hy; simpl in Ha, Hb; simplify_eq; try done. f_equal. by eapply Hinj.
    + intros y p [->|Hy]%elem_of_cons Hpy; [congruence|]. by eapply Hnew.
Qed.

Lemma check_parents_inv paths keys k parent :
  check_parents paths keys = Ok tt → k ∈ keys → parent ∈ proper_parents k → bad_parent paths parent = false.
Proof.
  induction keys as [|x keys IH]; simpl; [by intros _ ?%not_elem_of_nil|].
  destruct (List.find _ _) eqn:E; [done|]. intros Hc [->|Hk]%elem_of_cons Hp; [|by apply IH].
  eapply find_none; [exact E|]. by apply list_elem_of_In.
Qed.

Lemma path_of_Some it p : has_path it = true → safeRelativePath (Name it) = Ok p → path_of it = Some p.
Proof. intros Hp Hs. unfold path_of. by rewrite Hp, Hs. Qed.

(** A manifest the receiver accepts is a well-formed tree: its names are
    safe and pairwise different paths, everything that has entries below it is
    a directory, sizes are not negative and links stay inside. *)
Theorem validateManifest_sound m : validateManifest (Some m) = Ok tt → manifest_ok m.
Proof.
  unfold validateManifest. intros Hv. res_inv. bool_prop.
  match goal with Hr : check_items _ _ _ = Ok ?ps |- _ =>
    rename ps into paths; apply check_items_inv in Hr as (Hall & Hmap & Hinj & _)
  end.
  match goal with Hr : check_parents _ _ = Ok _ |- _ => rename Hr into Hpar end.
  constructor; [done| |done|..].
  - intros E. rewrite E in *. done.
  - intros i j a b p Ha Hb Hpa Hpb Hsa Hsb. eapply Hinj; eauto using path_of_Some.
  - intros a b p q rest Ha Hb Hpa Hpb Hsa Hsb Hsplit Hrest.
    assert (Hkp : paths !! p = Some (Kind a)).
    { apply Hmap. right. split; [apply lookup_empty|]. exists a. eauto using path_of_Some. }
    assert (Hkq : paths !! q = Some (Kind b)).
    { apply Hmap. right. split; [apply lookup_empty|]. exists b. eauto using path_of_Some. }
    assert (Hbad : bad_parent paths q = false).
    { eapply (check_parents_inv paths _ p); [exact Hpar| |].
      - apply list_elem_of_fmap. exists (p, Kind a). split; [done|]. by apply elem_of_map_to_list.
      - unfold proper_parents. rewrite Hsplit. apply list_elem_of_fmap.
        destruct (split_on_cons slash q) as (h & t & Eq). exists (length t). split.
        + rewrite <- (join_split slash q) at 1. rewrite Eq. f_equal.
          change (S (length t)) with (length (h :: t)). by rewrite take_app_length.
        + apply elem_of_seq. rewrite Eq, length_app. destruct rest; [done|]. simpl. lia. }
    unfold bad_parent in Hbad. rewrite Hkq in Hbad. bool_prop. by apply String.eqb_eq.
Qed.

Definition sample_file (name : string) : Item := MkItem ItemFile name 3 0 0 "" "" "" 65536 true.
Definition sample_dir (name : string) : Item := MkItem ItemDirectory name 0 0 0 "" "" "" 65536 false.

Lemma validateManifest_sound_witness :
  manifest_ok (MkManifest 1 [sample_dir "d"; sample_file "d/a.txt"; sample_file "b.txt"] []).
Proof. apply validateManifest_sound. vm_compute. reflexivity. Defined.

Lemma validateChunkRange_Ok it off n :
  in_int64 off → 0 ≤ n < 2 ^ 62 → in_int64 (Size it) →
  validateChunkRange it off n = Ok tt ↔ 0 ≤ off ∧ off + n ≤ Size it.
Proof.
  unfold validateChunkRange, in_int64, int64_min, int64_max. intros Ho Hn Hs. split.
  - intros Hv. res_inv. bool_prop.
    destruct (wrap64_add_cases off n) as [E|[E|E]]; unfold in_int64, int64_min, int64_max; lia.
  - intros [H0 H1]. rewrite wrap64_id by (unfold in_int64, int64_min, int64_max; lia). unfold fail_if.
    replace (off <? 0) with false by (symmetry; apply Z.ltb_ge; lia).
    replace (off + n <? off) with false by (symmetry; apply Z.ltb_ge; lia).
    replace (off + n >? Size it) with false by (symmetry; rewrite Z.gtb_ltb; apply Z.ltb_ge; lia). done.
Qed.
