(* ===== verification/Hashing.v ===== *)
(** * File fingerprints ([internal/transfer/sample_hash.go] and the hash
    helpers of [transfer.go]) *)
From Stdlib Require Import ZArith Lia Ascii String.
From stdpp Require Import base tactics numbers list gmap strings.
From S2P Require Import Prelude GoStrings Secure FileSystem.

Definition sampleHashChunkSize : Z := 128 * 1024.
Definition sampleHashWindow : Z := 1024 * 1024.
Definition sampleHashMaxBytes : Z := 1024 * 1024.

Inductive hash_error :=
  | SampleSizeNegative
  | SampleRangeExceeds
  | SampleNotRegular
  | PrefixSizeNegative
  | HashEOF
  | HashFS (e : fs_error).

(** One interior sample per window while the byte limit allows (lines 64-73);
    a window is visited at most once, and eight samples exhaust the limit. *)
Fixpoint interior_samples (fuel : nat) (size windows window sampled : Z) : list (Z * Z) :=
  match fuel with
  | O => []
  | S fuel' =>
      if (window <? windows) && (sampled <? sampleHashMaxBytes) then
        let offset := window * sampleHashWindow + sampleHashWindow / 2 in
        if offset + sampleHashChunkSize >? size then []
        else (offset, sampleHashChunkSize)
               :: interior_samples fuel' size windows (window + 1) (sampled + sampleHashChunkSize)
      else []
  end.

(** The [(offset, length)] ranges the fingerprint of a file of [size] bytes reads. *)
Definition sample_ranges (size : Z) : list (Z * Z) :=
  if size <=? sampleHashChunkSize * 2 then [(0, size)]
  else
    let windows := Z.max 1 ((size - sampleHashChunkSize) / sampleHashWindow) in
    (0, sampleHashChunkSize) :: (size - sampleHashChunkSize, sampleHashChunkSize)
      :: interior_samples 8 size windows 0 (sampleHashChunkSize * 2).

Definition slice (data : bytes) (off len : Z) : bytes := take (Z.to_nat len) (drop (Z.to_nat off) data).

Section hashing.
Context `{Crypto}.

(** [io.CopyN] from a section of the reader: short data is [io.EOF]. *)
Fixpoint readSamples (data : bytes) (size : Z) (rs : list (Z * Z)) : result hash_error bytes :=
  match rs with
  | [] => Ok []
  | (off, len) :: rs' =>
      _ ← fail_if ((off <? 0) || (len <? 0) || (off >? size) || (len >? size - off)) SampleRangeExceeds;
      _ ← fail_if (Z.of_nat (length (slice data off len)) <? len) HashEOF;
      rest ← readSamples data size rs';
      Ok (slice data off len ++ rest)
  end.

Definition sampleSHA256 (data : bytes) (size : Z) : result hash_error string :=
  _ ← fail_if (size <? 0) SampleSizeNegative;
  sampled ← readSamples data size (sample_ranges size);
  Ok (hex_encode (sha256 sampled)).

Definition bytesSHA256 (data : bytes) : string := hex_encode (sha256 data).

Definition fileSHA256 (path : string) : io fs_error string :=
  data ← ReadFile path;
  mret (bytesSHA256 data).

Definition filePrefixSHA256 (path : string) (size : Z) : io hash_error string :=
  _ ← fail_if_io (size <? 0) PrefixSizeNegative;
  data ← wrap_io HashFS (ReadFile path);
  _ ← fail_if_io (Z.of_nat (length data) <? size) HashEOF;
  mret (bytesSHA256 (take (Z.to_nat size) data)).

Definition fileSampleSHA256 (path : string) : io hash_error string :=
  data ← wrap_io HashFS (ReadFile path);
  info ← wrap_io HashFS (Stat path);
  _ ← fail_if_io (negb (is_regular info)) SampleNotRegular;
  lift (sampleSHA256 data (fi_size info)).
End hashing.

(** ** The samples lie inside the file and stay within the read budget *)

Definition total_length (rs : list (Z * Z)) : Z := foldr (fun r acc => snd r + acc) 0 rs.
Definition inside (size : Z) (r : Z * Z) : Prop := 0 ≤ fst r ∧ 0 ≤ snd r ∧ fst r + snd r ≤ size.

Lemma interior_samples_ok fuel size windows window sampled :
  0 ≤ window → 0 ≤ sampled ≤ sampleHashMaxBytes → (sampleHashMaxBytes - sampled) mod sampleHashChunkSize = 0 →
  let rs := interior_samples fuel size windows window sampled in
  Forall (inside size) rs ∧ 0 ≤ total_length rs ≤ sampleHashMaxBytes - sampled.
Proof.
  revert window sampled. induction fuel as [|fuel IH]; intros window sampled Hw Hs Hm; simpl.
  { split; [constructor|]. simpl. lia. }
  destruct ((window <? windows) && (sampled <? sampleHashMaxBytes)) eqn:E; bool_prop.
  2:{ split; [constructor|]. simpl. lia. }
  destruct (_ >? size) eqn:Eo; bool_prop; [split; [constructor|simpl; lia]|].
  unfold sampleHashMaxBytes, sampleHashChunkSize, sampleHashWindow in *. change (1024 * 1024 / 2) with 524288 in *.
  pose proof (Z.div_mod (1024 * 1024 - sampled) (128 * 1024) ltac:(lia)) as Hd.
  destruct (IH (window + 1) (sampled + 128 * 1024)) as [Hall Htot]; [lia|lia| |].
  { replace (1024 * 1024 - (sampled + 128 * 1024)) with ((1024 * 1024 - sampled) + (-1) * (128 * 1024)) by lia.
    by rewrite Z.mod_add. }
  split; [constructor; [unfold inside; simpl; lia|done]|]. simpl. lia.
Qed.

(** The fingerprint of a file reads only inside it and at most 1 MiB of
    it; a file of up to 256 KiB is read whole. *)
Theorem sample_ranges_bounded size :
  0 ≤ size →
  Forall (inside size) (sample_ranges size) ∧
  total_length (sample_ranges size) ≤ sampleHashMaxBytes ∧
  (size ≤ 2 * sampleHashChunkSize → sample_ranges size = [(0, size)]).
Proof.
  intros Hs. unfold sample_ranges. destruct (size <=? sampleHashChunkSize * 2) eqn:E; bool_prop.
  - split; [repeat constructor; simpl; lia|]. split; [|done].
    simpl. unfold sampleHashMaxBytes, sampleHashChunkSize in *. lia.
  - destruct (interior_samples_ok 8 size (Z.max 1 ((size - sampleHashChunkSize) / sampleHashWindow)) 0
      (sampleHashChunkSize * 2)) as [Hall Htot]; [lia|unfold sampleHashMaxBytes, sampleHashChunkSize; lia|done|].
    assert (0 < sampleHashChunkSize) by done.
    split; [|split; [|lia]].
    + constructor; [unfold inside; simpl; lia|]. constructor; [unfold inside; simpl; lia|done].
    + cbn [total_length foldr snd]. unfold total_length in Htot. lia.
Qed.

Lemma sample_ranges_bounded_witness :
  total_length (sample_ranges 10000000) ≤ sampleHashMaxBytes.
Proof. apply (sample_ranges_bounded 10000000). lia. Defined.
