(* ===== verification/ReceiveStore.v ===== *)
(** * The receive store ([internal/transfer/receive_store.go])

    Where received items go: it decides, per item, whether to skip, resume,
    rename or overwrite, writes chunks to [.kigopart] files, and publishes a
    part file under its final name only when every byte arrived and the hash
    matches.  The manifest is shared with the session by pointer: the store's
    copy is the one the session reads back.  Log lines are not modelled. *)
From Stdlib Require Import ZArith Lia Ascii String.
From stdpp Require Import base tactics numbers list gmap strings.
From S2P Require Import Prelude GoStrings GoPath Protocol Ranges Mux Secure FileSystem ManifestCheck Hashing.

Inductive ConflictPolicy := ConflictOverwrite | ConflictSkip | ConflictRename.
#[export] Instance ConflictPolicy_eq_dec : EqDecision ConflictPolicy.
Proof. solve_decision. Defined.

Inductive receive_error :=
  | RManifest (e : manifest_error)
  | RMux (e : mux_error)
  | RFS (e : fs_error)
  | RRange (name : string) (e : range_error)
  | InvalidConflictPolicy (value : string)
  | PathEscapes (path : string)
  | RelFailed
  | ParentNotDirectory (path : string)
  | NonRegularTarget (path : string)
  | NonRegularPart (path : string)
  | DirectoryTargetNotDirectory (path : string)
  | OverwriteDirectoryWithSymlink (path : string)
  | RenameSearchExhausted
  | RNoBinding (item : Z)
  | DuplicateAccept (item : Z)
  | AcceptSHA256Conflict (name : string)
  | AcceptMissing (item : Z)
  | AcceptOffsetExceeds (name : string) (got requested : Z)
  | SkipRejected (name : string)
  | CompletedRejected (name : string)
  | UnexpectedSkip (name : string)
  | FileOutputNotOpen
  | TextOutputNotOpen
  | SymlinkNotPlanned
  | ItemOutOfRange (item : Z)
  | ChunkForDoneFile (name : string)
  | ROffsetUnexpected (name : string) (got want : Z)
  | RUnsupportedKind (kind : string)
  | RIncomplete (name : string)
  | DestinationAppeared (path : string).

Record receiveFile := MkReceiveFile {
  rf_file : option nat;
  rf_finalPath : string;
  rf_partPath : string;
  rf_offset : Z;
  rf_complete : bool;
  rf_skipped : bool;
  rf_overwrite : bool;
  rf_ranges : byteRanges;
}.
Record receiveText := MkReceiveText { rt_builder : bytes; rt_offset : Z }.
Record receiveDirectory := MkReceiveDirectory { rd_finalPath : string }.
Record receiveSymlink := MkReceiveSymlink {
  rl_finalPath : string; rl_target : string; rl_skipped : bool; rl_overwrite : bool
}.

Record ReceiveStore := MkStore {
  rs_manifest : Manifest;
  rs_plan : Plan;
  outputDir : string;
  rs_files : gmap Z receiveFile;
  rs_texts : gmap Z receiveText;
  rs_dirs : gmap Z receiveDirectory;
  rs_symlinks : gmap Z receiveSymlink;
  rs_resume : list ResumeEntry;
  conflict : ConflictPolicy;
  claimed : gset string;
  reserved : gset string;
  outOfOrder : bool;
}.

Record ReceivedText := MkReceivedText { RTName : string; RTText : bytes }.

Definition set_file (s : ReceiveStore) (i : Z) (f : receiveFile) : ReceiveStore :=
  MkStore (rs_manifest s) (rs_plan s) (outputDir s) (<[i := f]> (rs_files s)) (rs_texts s) (rs_dirs s)
    (rs_symlinks s) (rs_resume s) (conflict s) (claimed s) (reserved s) (outOfOrder s).
Definition set_files (s : ReceiveStore) (fs : gmap Z receiveFile) : ReceiveStore :=
  MkStore (rs_manifest s) (rs_plan s) (outputDir s) fs (rs_texts s) (rs_dirs s)
    (rs_symlinks s) (rs_resume s) (conflict s) (claimed s) (reserved s) (outOfOrder s).
Definition set_text (s : ReceiveStore) (i : Z) (t : receiveText) : ReceiveStore :=
  MkStore (rs_manifest s) (rs_plan s) (outputDir s) (rs_files s) (<[i := t]> (rs_texts s)) (rs_dirs s)
    (rs_symlinks s) (rs_resume s) (conflict s) (claimed s) (reserved s) (outOfOrder s).
Definition set_dir (s : ReceiveStore) (i : Z) (d : receiveDirectory) : ReceiveStore :=
  MkStore (rs_manifest s) (rs_plan s) (outputDir s) (rs_files s) (rs_texts s) (<[i := d]> (rs_dirs s))
    (rs_symlinks s) (rs_resume s) (conflict s) (claimed s) (reserved s) (outOfOrder s).
Definition set_symlink (s : ReceiveStore) (i : Z) (l : receiveSymlink) : ReceiveStore :=
  MkStore (rs_manifest s) (rs_plan s) (outputDir s) (rs_files s) (rs_texts s) (rs_dirs s)
    (<[i := l]> (rs_symlinks s)) (rs_resume s) (conflict s) (claimed s) (reserved s) (outOfOrder s).
Definition set_resume (s : ReceiveStore) (r : list ResumeEntry) : ReceiveStore :=
  MkStore (rs_manifest s) (rs_plan s) (outputDir s) (rs_files s) (rs_texts s) (rs_dirs s)
    (rs_symlinks s) r (conflict s) (claimed s) (reserved s) (outOfOrder s).
Definition set_manifest (s : ReceiveStore) (m : Manifest) : ReceiveStore :=
  MkStore m (rs_plan s) (outputDir s) (rs_files s) (rs_texts s) (rs_dirs s)
    (rs_symlinks s) (rs_resume s) (conflict s) (claimed s) (reserved s) (outOfOrder s).
Definition claim (s : ReceiveStore) (p : string) : ReceiveStore :=
  MkStore (rs_manifest s) (rs_plan s) (outputDir s) (rs_files s) (rs_texts s) (rs_dirs s)
    (rs_symlinks s) (rs_resume s) (conflict s) ({[p]} ∪ claimed s) (reserved s) (outOfOrder s).
Definition reserve (s : ReceiveStore) (p : string) : ReceiveStore :=
  MkStore (rs_manifest s) (rs_plan s) (outputDir s) (rs_files s) (rs_texts s) (rs_dirs s)
    (rs_symlinks s) (rs_resume s) (conflict s) (claimed s) ({[p]} ∪ reserved s) (outOfOrder s).

(** [s.resume = append(s.resume, entry)] *)
Definition add_resume (s : ReceiveStore) (e : ResumeEntry) : ReceiveStore :=
  set_resume s (rs_resume s ++ [e]).

(** ** Paths *)

Definition pathState (path : string) : io receive_error (bool * bool) :=
  info ← attempt (Lstat path);
  match info with
  | Ok i => mret (true, is_regular i)
  | Err e => if IsNotExist e then mret (false, false) else fail (RFS e)
  end.

(** The loop over the parts of [rel], lines 381-403. *)
Fixpoint make_parents (current : string) (parts : list string) : io receive_error unit :=
  match parts with
  | [] => mret tt
  | part :: parts' =>
      let current := Join current part in
      info ← attempt (Lstat current);
      match info with
      | Ok i =>
          _ ← fail_if_io (negb (is_dir i)) (ParentNotDirectory current);
          make_parents current parts'
      | Err e =>
          if negb (IsNotExist e) then fail (RFS e)
          else
            made ← attempt (Mkdir current 493);
            match made with
            | Err e => if IsExist e then mret tt else fail (RFS e)
            | Ok _ => mret tt
            end ;;
            info ← wrap_io RFS (Lstat current);
            _ ← fail_if_io (negb (is_dir info)) (ParentNotDirectory current);
            make_parents current parts'
      end
  end.

Definition ensureSafeParent (root path : string) : io receive_error unit :=
  match Rel root (Dir path) with
  | None => fail RelFailed
  | Some rel =>
      if String.eqb rel "." then mret tt
      else if String.eqb rel ".." || has_prefix rel "../" then fail (PathEscapes path)
      else make_parents root (split_on slash rel)
  end.

Definition symlinkMatches (path target : string) : io receive_error bool :=
  info ← attempt (Lstat path);
  match info with
  | Ok i =>
      if negb (is_symlink i) then mret false
      else got ← attempt (Readlink path);
           match got with Ok t => mret (String.eqb t target) | Err _ => mret false end
  | Err _ => mret false
  end.

(** The search for a free name tries [n = 1, 2, ...]; [fuel] bounds the number
    of tries ([availableRenamePath_total]: as many as there are taken names). *)
Definition rename_candidate (path : string) (n : Z) : string :=
  let ext := Ext path in
  trim_suffix path ext +:+ " (" +:+ Itoa n +:+ ")" +:+ ext.

Fixpoint try_rename (fuel : nat) (s : ReceiveStore) (path : string) (n : Z) : io receive_error string :=
  match fuel with
  | O => fail RenameSearchExhausted
  | S fuel' =>
      let candidate := rename_candidate path n in
      if bool_decide (candidate ∈ claimed s) || bool_decide (candidate ∈ reserved s)
      then try_rename fuel' s path (n + 1)
      else
        st ← pathState candidate;
        if negb (fst st) then mret candidate else try_rename fuel' s path (n + 1)
  end.

Definition availableRenamePath (s : ReceiveStore) (path : string) : io receive_error string :=
  n ← gets (fun fs => size (entries fs));
  try_rename (S (size (claimed s) + size (reserved s) + n)) s path 1.

Section store.
Context `{CaseTables} `{Crypto}.

Definition ParseConflictPolicy (value : string) : result receive_error ConflictPolicy :=
  let policy := ToLower (TrimSpace value) in
  if String.eqb policy "" || String.eqb policy "overwrite" then Ok ConflictOverwrite
  else if String.eqb policy "skip" then Ok ConflictSkip
  else if String.eqb policy "rename" then Ok ConflictRename
  else Err (InvalidConflictPolicy value).

Definition resumableOffset (partPath : string) (item : Item) : io receive_error Z :=
  if negb (ResumeSupported item) then mret 0
  else
    info ← attempt (Stat partPath);
    match info with
    | Ok i => if is_dir i then mret 0 else mret (clampInt64 (fi_size i) 0 (Size item))
    | Err _ => mret 0
    end.

Definition completedFileMatches (finalPath : string) (item : Item) : io receive_error bool :=
  if negb (String.eqb (Kind item) ItemFile) then mret false
  else
    info ← attempt (Lstat finalPath);
    match info with
    | Err _ => mret false
    | Ok i =>
        if negb (is_regular i) || negb (fi_size i =? Size item) then mret false
        else if negb (String.eqb (SampleSHA256 item) "") then
          hash ← attempt (fileSampleSHA256 finalPath);
          match hash with
          | Ok h => mret (String.eqb h (ToLower (SampleSHA256 item)))
          | Err _ => mret false
          end
        else if String.eqb (SHA256 item) "" then mret true
        else
          hash ← attempt (fileSHA256 finalPath);
          match hash with
          | Ok h => mret (String.eqb h (ToLower (SHA256 item)))
          | Err _ => mret false
          end
    end.

(** Lines 222-261: open the part file and announce how much of it is kept. *)
Definition open_part (s : ReceiveStore) (itemID : Z) (item : Item) (streamID : Z) (finalPath : string)
    (overwrite : bool) : io receive_error ReceiveStore :=
  let s := claim s finalPath in
  let partPath := finalPath +:+ ".kigopart" in
  part ← pathState partPath;
  _ ← fail_if_io (fst part && negb (snd part)) (NonRegularPart partPath);
  resumeOffset ← resumableOffset partPath item;
  file ← wrap_io RFS (OpenFile partPath 384);
  _ ← wrap_io RFS (Truncate file resumeOffset);
  let s := set_file s itemID
             (MkReceiveFile (Some file) finalPath partPath resumeOffset false false overwrite
                (newByteRanges resumeOffset)) in
  prefix ← (if resumeOffset >? 0 then wrap_io RFS (fileSHA256 partPath) else mret ""%string);
  mret (add_resume s (MkResumeEntry itemID (Some streamID) resumeOffset prefix "" false false)).

Definition openFile (s : ReceiveStore) (itemID : Z) (item : Item) : io receive_error ReceiveStore :=
  name ← lift (wrap_err RManifest (safeRelativePath (Name item)));
  let finalPath := Join (outputDir s) name in
  _ ← ensureSafeParent (outputDir s) finalPath;
  match StreamForItem (Some (rs_plan s)) itemID with
  | None => fail (RNoBinding itemID)
  | Some streamID =>
      matches ← completedFileMatches finalPath item;
      if (matches : bool) then
        let s := claim s finalPath in
        let s := set_file s itemID
                   (MkReceiveFile None finalPath "" (Size item) true false false (newByteRanges (Size item))) in
        mret (add_resume s (MkResumeEntry itemID (Some streamID) (Size item) "" "" true true))
      else
        st ← pathState finalPath;
        let known := bool_decide (finalPath ∈ claimed s) in
        let exists_ := fst st || known in
        let regular := snd st || known in
        match exists_, conflict s with
        | true, ConflictSkip =>
            let s := claim s finalPath in
            let s := set_file s itemID
                       (MkReceiveFile None finalPath "" (Size item) false true false (newByteRanges (Size item))) in
            mret (add_resume s (MkResumeEntry itemID (Some streamID) (Size item) "" "" true false))
        | true, ConflictRename =>
            finalPath ← availableRenamePath s finalPath;
            open_part s itemID item streamID finalPath false
        | true, ConflictOverwrite =>
            _ ← fail_if_io (negb regular) (NonRegularTarget finalPath);
            open_part s itemID item streamID finalPath true
        | false, _ => open_part s itemID item streamID finalPath false
        end
  end.

Definition openDirectory (s : ReceiveStore) (itemID : Z) (item : Item) : io receive_error ReceiveStore :=
  name ← lift (wrap_err RManifest (safeRelativePath (Name item)));
  let finalPath := Join (outputDir s) name in
  _ ← ensureSafeParent (outputDir s) finalPath;
  info ← attempt (Lstat finalPath);
  _ ← (match info with
       | Ok i => fail_if_io (negb (is_dir i)) (DirectoryTargetNotDirectory finalPath)
       | Err e =>
           if negb (IsNotExist e) then fail (RFS e)
           else
             made ← attempt (Mkdir finalPath 493);
             match made with
             | Err e => if IsExist e then mret tt else fail (RFS e)
             | Ok _ => mret tt
             end ;;
             info ← wrap_io RFS (Lstat finalPath);
             fail_if_io (negb (is_dir info)) (DirectoryTargetNotDirectory finalPath)
       end);
  mret (set_dir (claim s finalPath) itemID (MkReceiveDirectory finalPath)).

Definition planSymlink (s : ReceiveStore) (itemID : Z) (item : Item) : io receive_error ReceiveStore :=
  name ← lift (wrap_err RManifest (safeRelativePath (Name item)));
  _ ← lift (wrap_err RManifest (validateSafeSymlinkTarget (Name item) (Target item)));
  let finalPath := Join (outputDir s) name in
  _ ← ensureSafeParent (outputDir s) finalPath;
  matches ← symlinkMatches finalPath (Target item);
  if (matches : bool) then
    mret (set_symlink (claim s finalPath) itemID (MkReceiveSymlink finalPath (Target item) true false))
  else
    st ← pathState finalPath;
    let exists_ := fst st || bool_decide (finalPath ∈ claimed s) in
    state ← (match exists_, conflict s with
             | true, ConflictSkip => mret (MkReceiveSymlink finalPath (Target item) true false)
             | true, ConflictRename =>
                 p ← availableRenamePath s finalPath;
                 mret (MkReceiveSymlink p (Target item) false false)
             | true, ConflictOverwrite =>
                 info ← wrap_io RFS (Lstat finalPath);
                 _ ← fail_if_io (is_dir info) (OverwriteDirectoryWithSymlink finalPath);
                 mret (MkReceiveSymlink finalPath (Target item) false true)
             | false, _ => mret (MkReceiveSymlink finalPath (Target item) false false)
             end);
    mret (set_symlink (claim s (rl_finalPath state)) itemID state).

(** ** Close *)

(** The loop of [Close] over the map of files (in some order); the first error
    is kept, the others are dropped. *)
Fixpoint close_files (ids : list Z) (s : ReceiveStore) : fs → option fs_error * ReceiveStore * fs := fun w =>
  match ids with
  | [] => (None, s, w)
  | i :: ids' =>
      match rs_files s !! i with
      | Some f =>
          match rf_file f with
          | None => close_files ids' s w
          | Some ino =>
              let '(r, w) := if outOfOrder s then Truncate ino (rf_offset f) w else (Ok tt, w) in
              let s := set_file s i (MkReceiveFile None (rf_finalPath f) (rf_partPath f) (rf_offset f)
                                       (rf_complete f) (rf_skipped f) (rf_overwrite f) (rf_ranges f)) in
              let '(e, s, w) := close_files ids' s w in
              ((match r with Err e => Some e | Ok _ => e end), s, w)
          end
      | None => close_files ids' s w
      end
  end.

Definition Close (s : ReceiveStore) : fs → option fs_error * ReceiveStore * fs :=
  close_files ((map_to_list (rs_files s)).*1) s.

(** ** Opening a store *)

Definition open_item (s : ReceiveStore) (i : Z) (item : Item) : io receive_error ReceiveStore :=
  if String.eqb (Kind item) ItemFile then openFile s i item
  else if String.eqb (Kind item) ItemText then mret (set_text s i (MkReceiveText [] 0))
  else if String.eqb (Kind item) ItemDirectory then openDirectory s i item
  else if String.eqb (Kind item) ItemSymlink then planSymlink s i item
  else mret s.

(** An error closes what the earlier items opened. *)
Fixpoint open_items (s : ReceiveStore) (i : Z) (items : list Item) : io receive_error ReceiveStore :=
  match items with
  | [] => mret s
  | item :: items' => fun w =>
      match open_item s i item w with
      | (Ok s', w') => open_items s' (i + 1) items' w'
      | (Err e, w') => let '(_, _, w'') := Close s w' in (Err e, w'')
      end
  end.

Fixpoint reserve_items (s : ReceiveStore) (items : list Item) : result receive_error ReceiveStore :=
  match items with
  | [] => Ok s
  | item :: items' =>
      if String.eqb (Kind item) ItemFile || String.eqb (Kind item) ItemDirectory || String.eqb (Kind item) ItemSymlink then
        name ← wrap_err RManifest (safeRelativePath (Name item));
        reserve_items (reserve s (Join (outputDir s) name)) items'
      else reserve_items s items'
  end.

Definition NewReceiveStoreWithOptions (manifest : option Manifest) (dir policy : string) (ooo : bool)
    : io receive_error ReceiveStore :=
  _ ← lift (wrap_err RManifest (validateManifest manifest));
  conflict ← lift (ParseConflictPolicy policy);
  plan ← lift (wrap_err RMux (PlanFromManifest manifest));
  _ ← wrap_io RFS (MkdirAll dir 493);
  match manifest with
  | None => fail (RManifest MissingManifest)
  | Some m =>
      s ← lift (reserve_items (MkStore m plan dir ∅ ∅ ∅ ∅ [] conflict ∅ ∅ ooo) (Items m));
      open_items s 0 (Items m)
  end.

Definition NewReceiveStore (manifest : option Manifest) (dir : string) : io receive_error ReceiveStore :=
  NewReceiveStoreWithOptions manifest dir "overwrite" false.
End store.

(** ** Resume acceptance *)

Definition set_item_sha256 (m : Manifest) (i : Z) (hash : string) : Manifest :=
  MkManifest (MVersion m)
    (alter (fun it => MkItem (Kind it) (Name it) (Size it) (MTime it) (Mode it) hash (SampleSHA256 it)
                        (Target it) (ItemChunkSize it) (ResumeSupported it)) (Z.to_nat i) (Items m))
    (Streams m).

Definition entry_with_offset (e : ResumeEntry) (off : Z) : ResumeEntry :=
  MkResumeEntry (REItem e) (REStream e) off (REPrefixSHA256 e) (RESHA256 e) (RESkip e) (REComplete e).

Section transfer.
Context `{CaseTables} `{Crypto}.

(** The loop over the entries, lines 436-454. *)
Fixpoint accept_entries (s : ReceiveStore) (entries : list ResumeEntry) (accepted : gmap Z ResumeEntry)
    : result receive_error (ReceiveStore * gmap Z ResumeEntry) :=
  match entries with
  | [] => Ok (s, accepted)
  | entry :: entries' =>
      offset ← wrap_err RMux (ValidateResumeEntry (Some (rs_plan s)) (Items (rs_manifest s)) entry);
      _ ← fail_if (bool_decide (is_Some (accepted !! REItem entry))) (DuplicateAccept (REItem entry));
      s ← (if String.eqb (RESHA256 entry) "" then Ok s
           else
             match zlookup (Items (rs_manifest s)) (REItem entry) with
             | None => Err (ItemOutOfRange (REItem entry))
             | Some it =>
                 let declared := ToLower (SHA256 it) in
                 let acceptedSHA256 := ToLower (RESHA256 entry) in
                 _ ← fail_if (negb (String.eqb declared "") && negb (String.eqb declared acceptedSHA256))
                       (AcceptSHA256Conflict (Name it));
                 Ok (set_manifest s (set_item_sha256 (rs_manifest s) (REItem entry) acceptedSHA256))
             end);
      accept_entries s entries' (<[REItem entry := entry_with_offset entry offset]> accepted)
  end.

Definition item_name (s : ReceiveStore) (i : Z) : string :=
  match zlookup (Items (rs_manifest s)) i with Some it => Name it | None => "" end.

(** What the sender's answer does to one file, lines 460-490. *)
Definition accept_file (name : string) (entry : ResumeEntry) (f : receiveFile) : io receive_error receiveFile :=
  _ ← fail_if_io (REOffset entry >? rf_offset f) (AcceptOffsetExceeds name (REOffset entry) (rf_offset f));
  if rf_skipped f then
    _ ← fail_if_io (negb (RESkip entry) || negb (REOffset entry =? rf_offset f)) (SkipRejected name);
    mret f
  else if rf_complete f then
    _ ← fail_if_io (negb (RESkip entry) || negb (REOffset entry =? rf_offset f)) (CompletedRejected name);
    mret f
  else
    _ ← fail_if_io (RESkip entry) (UnexpectedSkip name);
    match rf_file f with
    | None => fail FileOutputNotOpen
    | Some ino =>
        if REOffset entry =? rf_offset f then mret f
        else
          _ ← wrap_io RFS (Truncate ino (REOffset entry));
          mret (MkReceiveFile (rf_file f) (rf_finalPath f) (rf_partPath f) (REOffset entry) (rf_complete f)
                  (rf_skipped f) (rf_overwrite f) (newByteRanges (REOffset entry)))
    end.

(** The loop over the map of files (Go's order is unspecified). *)
Fixpoint accept_files (ids : list Z) (accepted : gmap Z ResumeEntry) (s : ReceiveStore)
    : io receive_error ReceiveStore :=
  match ids with
  | [] => mret s
  | i :: ids' =>
      match rs_files s !! i with
      | None => accept_files ids' accepted s
      | Some f =>
          match accepted !! i with
          | None => fail (AcceptMissing i)
          | Some entry =>
              f' ← accept_file (item_name s i) entry f;
              accept_files ids' accepted (set_file s i f')
          end
      end
  end.

Definition ApplyResumeAccept (s : ReceiveStore) (entries : list ResumeEntry) : io receive_error ReceiveStore :=
  '(s, accepted) ← lift (accept_entries s entries ∅);
  s ← accept_files ((map_to_list (rs_files s)).*1) accepted s;
  mret (set_resume s entries).

Definition ResumeEntries (s : ReceiveStore) : list ResumeEntry := rs_resume s.

(** ** Chunks *)

Definition write_file_chunk (s : ReceiveStore) (itemID : Z) (item : Item) (offset : Z) (data : bytes)
    : io receive_error ReceiveStore :=
  match rs_files s !! itemID with
  | None => fail FileOutputNotOpen
  | Some f =>
      _ ← fail_if_io (rf_complete f || rf_skipped f) (ChunkForDoneFile (Name item));
      match rf_file f with
      | None => fail FileOutputNotOpen
      | Some ino =>
          let n := Z.of_nat (length data) in
          _ ← lift (wrap_err RManifest (validateChunkRange item offset n));
          _ ← fail_if_io (negb (outOfOrder s) && negb (offset =? rf_offset f))
                (ROffsetUnexpected (Name item) offset (rf_offset f));
          nextRanges ← lift (wrap_err (RRange (Name item)) (byteRanges_Add (rf_ranges f) offset (wrap64 (offset + n))));
          _ ← wrap_io RFS (WriteAt ino data offset);
          mret (set_file s itemID
                  (MkReceiveFile (rf_file f) (rf_finalPath f) (rf_partPath f) (byteRanges_Prefix (Some nextRanges))
                     (rf_complete f) (rf_skipped f) (rf_overwrite f) nextRanges))
      end
  end.

Definition WriteChunk (s : ReceiveStore) (itemID offset : Z) (data : bytes) : io receive_error ReceiveStore :=
  match zlookup (Items (rs_manifest s)) itemID with
  | None => fail (ItemOutOfRange itemID)
  | Some item =>
      if String.eqb (Kind item) ItemFile then write_file_chunk s itemID item offset data
      else if String.eqb (Kind item) ItemText then
        match rs_texts s !! itemID with
        | None => fail TextOutputNotOpen
        | Some t =>
            _ ← lift (wrap_err RManifest (validateChunkBounds item offset (Z.of_nat (length data)) (rt_offset t)));
            mret (set_text s itemID
                    (MkReceiveText (rt_builder t ++ data) (wrap64 (rt_offset t + Z.of_nat (length data)))))
        end
      else fail (RUnsupportedKind (Kind item))
  end.

(** ** Finalize *)

Definition applyPathMetadata (path : string) (item : Item) : io receive_error unit :=
  _ ← (if Mode item =? 0 then mret tt else wrap_io RFS (Chmod path (Z.land (Mode item) 511)));
  if MTime item =? 0 then mret tt else wrap_io RFS (Chtimes path (MTime item)).

Definition verifyPartFile (partPath : string) (item : Item) : io receive_error unit :=
  info ← wrap_io RFS (Stat partPath);
  _ ← fail_if_io (negb (fi_size info =? Size item)) (RManifest (ReceivedSizeMismatch (Name item)));
  if String.eqb (SHA256 item) "" then mret tt
  else
    got ← wrap_io RFS (fileSHA256 partPath);
    fail_if_io (negb (String.eqb got (ToLower (SHA256 item)))) (RManifest (SHA256Mismatch (Name item))).

Definition finalizeReceivedFile (f : receiveFile) (item : Item) : io receive_error unit :=
  _ ← applyPathMetadata (rf_partPath f) item;
  st ← pathState (rf_finalPath f);
  _ ← (if (fst st : bool) then
         _ ← fail_if_io (negb (rf_overwrite f)) (DestinationAppeared (rf_finalPath f));
         fail_if_io (negb (snd st : bool)) (NonRegularTarget (rf_finalPath f))
       else mret tt);
  wrap_io RFS (Rename (rf_partPath f) (rf_finalPath f)).

(** One file of the first loop of [Finalize], lines 551-589. *)
Definition finalize_file (s : ReceiveStore) (i : Z) (item : Item) : io receive_error ReceiveStore :=
  match rs_files s !! i with
  | None => fail FileOutputNotOpen
  | Some f =>
      if rf_skipped f then mret s
      else if rf_complete f then
        _ ← applyPathMetadata (rf_finalPath f) item;
        mret s
      else
        match rf_file f with
        | None => fail FileOutputNotOpen
        | Some _ =>
            _ ← fail_if_io (negb (byteRanges_Complete (Some (rf_ranges f)) (Size item))) (RIncomplete (Name item));
            let f := MkReceiveFile None (rf_finalPath f) (rf_partPath f) (rf_offset f)
                       (rf_complete f) (rf_skipped f) (rf_overwrite f) (rf_ranges f) in
            _ ← verifyPartFile (rf_partPath f) item;
            _ ← finalizeReceivedFile f item;
            mret (set_file s i f)
        end
  end.

Fixpoint finalize_items (s : ReceiveStore) (i : Z) (items : list Item) (texts : list ReceivedText)
    : io receive_error (ReceiveStore * list ReceivedText) :=
  match items with
  | [] => mret (s, texts)
  | item :: items' =>
      if String.eqb (Kind item) ItemFile then
        s ← finalize_file s i item;
        finalize_items s (i + 1) items' texts
      else if String.eqb (Kind item) ItemText then
        match rs_texts s !! i with
        | None => fail TextOutputNotOpen
        | Some t =>
            _ ← lift (wrap_err RManifest (verifyTextItem bytesSHA256 (rt_builder t) item));
            finalize_items s (i + 1) items' (texts ++ [MkReceivedText (Name item) (rt_builder t)])
        end
      else finalize_items s (i + 1) items' texts
  end.

Definition finalizeSymlink (l : receiveSymlink) : io receive_error unit :=
  _ ← (if rl_overwrite l then
         info ← attempt (Lstat (rl_finalPath l));
         match info with
         | Ok i =>
             _ ← fail_if_io (is_dir i) (OverwriteDirectoryWithSymlink (rl_finalPath l));
             wrap_io RFS (Remove (rl_finalPath l))
         | Err e => if negb (IsNotExist e) then fail (RFS e) else mret tt
         end
       else
         st ← pathState (rl_finalPath l);
         fail_if_io (fst st) (DestinationAppeared (rl_finalPath l)));
  wrap_io RFS (Symlink (rl_target l) (rl_finalPath l)).

Fixpoint finalize_symlinks (s : ReceiveStore) (i : Z) (items : list Item) : io receive_error unit :=
  match items with
  | [] => mret tt
  | item :: items' =>
      if negb (String.eqb (Kind item) ItemSymlink) then finalize_symlinks s (i + 1) items'
      else
        match rs_symlinks s !! i with
        | None => fail SymlinkNotPlanned
        | Some l =>
            _ ← (if rl_skipped l then mret tt else finalizeSymlink l);
            finalize_symlinks s (i + 1) items'
        end
  end.

Definition pathDepth (path : string) : Z := zlen (split_on slash (Clean path)).

(** Deepest directories first, so that a parent's times are set last. *)
Definition sorted_dirs (s : ReceiveStore) : list (Z * receiveDirectory) :=
  sort_stable (fun a b => pathDepth (rd_finalPath (snd a)) >? pathDepth (rd_finalPath (snd b)))
    (map_to_list (rs_dirs s)).

Fixpoint finalize_dirs (s : ReceiveStore) (dirs : list (Z * receiveDirectory)) : io receive_error unit :=
  match dirs with
  | [] => mret tt
  | (i, d) :: dirs' =>
      _ ← (match zlookup (Items (rs_manifest s)) i with
           | Some item => applyPathMetadata (rd_finalPath d) item
           | None => fail (ItemOutOfRange i)
           end);
      finalize_dirs s dirs'
  end.

Definition Finalize (s : ReceiveStore) : io receive_error (ReceiveStore * list ReceivedText) :=
  let items := Items (rs_manifest s) in
  '(s, texts) ← finalize_items s 0 items [];
  _ ← finalize_symlinks s 0 items;
  _ ← finalize_dirs s (sorted_dirs s);
  mret (s, texts).
End transfer.
