(* ===== verification/ReceiveProofs.v ===== *)
(** * Correctness of the receive store

    The store keeps every open part file equal to the source file on the bytes
    it has recorded, whatever order the chunks arrive in; a complete file is
    the source file; publishing it moves exactly those bytes to the final
    name. *)
From Stdlib Require Import ZArith Lia Ascii String.
From stdpp Require Import base tactics numbers list gmap strings.
From S2P Require Import Prelude GoStrings GoPath Protocol Ranges Mux Secure FileSystem ManifestCheck Hashing ReceiveStore.

(** ** One file *)

Definition byte_of_file (data : bytes) (b : Z) : option ascii := data !! Z.to_nat b.

(** What the store knows of an open file: [data] is the part file's content,
    [src] the file being sent. *)
Record file_ok (data src : bytes) (f : receiveFile) : Prop := {
  fo_ranges : ranges_wf (rf_ranges f);
  fo_bounded : ∀ b, covered (rf_ranges f) b → 0 ≤ b < Z.of_nat (length src);
  fo_agrees : ∀ b, covered (rf_ranges f) b → byte_of_file data b = byte_of_file src b;
  fo_length : (length data ≤ length src)%nat;
  fo_offset : rf_offset f = byteRanges_Prefix (Some (rf_ranges f));
}.

(** A chunk a correct sender sends: the source's own bytes at its offset. *)
Definition chunk_of (src : bytes) (offset : Z) (data : bytes) : Prop :=
  slice src offset (Z.of_nat (length data)) = data.

Lemma slice_lookup src off n i :
  0 ≤ off → (i < Z.to_nat n)%nat → slice src off n !! i = src !! (Z.to_nat off + i)%nat.
Proof. intros. unfold slice. rewrite lookup_take_lt by done. apply lookup_drop. Qed.

Lemma chunk_of_lookup src off data i :
  chunk_of src off data → 0 ≤ off → (i < length data)%nat → data !! i = src !! (Z.to_nat off + i)%nat.
Proof.
  unfold chunk_of. intros E Ho Hi. rewrite <- E at 1. apply slice_lookup; [done|lia].
Qed.

Lemma chunk_of_fits src off data :
  chunk_of src off data → 0 ≤ off → data ≠ [] → off + Z.of_nat (length data) ≤ Z.of_nat (length src).
Proof.
  unfold chunk_of, slice. intros E Ho Hd. apply (f_equal length) in E.
  rewrite length_take, length_drop in E. assert (length data ≠ O) by by destruct data. lia.
Qed.

Definition with_ranges (f : receiveFile) (r : byteRanges) : receiveFile :=
  MkReceiveFile (rf_file f) (rf_finalPath f) (rf_partPath f) (byteRanges_Prefix (Some r))
    (rf_complete f) (rf_skipped f) (rf_overwrite f) r.

(** Recording and writing a source chunk keeps the file correct. *)
Lemma file_ok_write data src f off chunk r :
  file_ok data src f → chunk_of src off chunk → 0 ≤ off →
  off + Z.of_nat (length chunk) ≤ Z.of_nat (length src) →
  byteRanges_Add (rf_ranges f) off (off + Z.of_nat (length chunk)) = Ok r →
  file_ok (write_at chunk (Z.to_nat off) data) src (with_ranges f r).
Proof.
  intros [Hwf Hb Ha Hl Ho] Hc Hoff Hfit Hadd.
  destruct (decide (chunk = [])) as [->|Hne].
  { simpl in *. rewrite Z.add_0_r, Add_empty in Hadd by done. injection Hadd as <-. by constructor. }
  assert (Hn : (0 < length chunk)%nat) by (destruct chunk; simpl; [done|lia]).
  assert (Hrange : 0 ≤ off < off + Z.of_nat (length chunk)) by lia.
  destruct (Add_ok _ _ _ Hwf Hrange _ Hadd) as (Hwf' & Hcov & Hnew).
  constructor; simpl; try done.
  - intros b [?|?]%Hcov; [by apply Hb|lia].
  - intros b Hbc. apply Hcov in Hbc. unfold byte_of_file in *.
    assert (Hb0 : 0 ≤ b) by (destruct Hbc as [?%Hb|]; lia).
    destruct (Z.lt_ge_cases b (off + Z.of_nat (length chunk))) as [Hlt|Hge].
    + rewrite write_at_lookup by (done || lia). case_decide as Hd.
      * destruct Hbc as [Hbc|?]; [|lia]. rewrite (Ha b Hbc).
        destruct (lookup_lt_is_Some_2 src (Z.to_nat b)) as [c Hc']; [apply Hb in Hbc; lia|].
        by rewrite Hc'.
      * destruct Hbc as [Hbc|?]; [exfalso; apply (Hnew b); [lia|done]|].
        rewrite (chunk_of_lookup src off) by (done || lia). f_equal. lia.
    + rewrite write_at_lookup_after by lia. destruct Hbc as [Hbc|]; [by apply Ha|lia].
  - rewrite write_at_length by done. lia.
Qed.

(** A complete file is the source. *)
Lemma file_ok_complete data src f :
  file_ok data src f →
  byteRanges_Complete (Some (rf_ranges f)) (Z.of_nat (length src)) = true → data = src.
Proof.
  intros [Hwf Hb Ha Hl _] Hc. unfold byteRanges_Complete in Hc. bool_prop.
  assert (Hall : ∀ b, 0 ≤ b < Z.of_nat (length src) → covered (rf_ranges f) b).
  { intros b Hbr. apply Prefix_covered; [done|]. by rewrite Hc. }
  apply list_eq. intros i. destruct (decide (i < length src)%nat) as [Hi|Hi].
  - assert (Hir : 0 ≤ Z.of_nat i < Z.of_nat (length src)) by lia.
    specialize (Ha (Z.of_nat i) (Hall _ Hir)). unfold byte_of_file in Ha.
    by rewrite Nat2Z.id in Ha.
  - rewrite (lookup_ge_None_2 data), (lookup_ge_None_2 src) by lia. done.
Qed.

(** An opened or re-opened file: its first [off] bytes are the source's. *)
Lemma file_ok_prefix src f off data :
  rf_ranges f = newByteRanges off → rf_offset f = off → 0 ≤ off →
  data = take (Z.to_nat off) src → off ≤ Z.of_nat (length src) →
  file_ok data src f.
Proof.
  intros Hr Ho Hoff -> Hle. constructor; rewrite ?Hr.
  - apply newByteRanges_wf.
  - intros b Hb%newByteRanges_covered. lia.
  - intros b Hb%newByteRanges_covered. unfold byte_of_file. rewrite lookup_take_lt by lia. done.
  - rewrite length_take. lia.
  - rewrite Ho. unfold newByteRanges. destruct (off >? 0) eqn:E; bool_prop; simpl; lia.
Qed.

(** ** The store *)

Section store_inv.
Context `{CaseTables} `{Crypto}.
Variable srcs : Z → bytes.

(** Every open file is correct, and no two share an inode. *)
Record store_ok (w : fs) (s : ReceiveStore) : Prop := {
  so_files : ∀ i f ino, rs_files s !! i = Some f → rf_file f = Some ino →
    file_ok (content (inode_at w ino)) (srcs i) f;
  so_items : ∀ i f item, rs_files s !! i = Some f → zlookup (Items (rs_manifest s)) i = Some item →
    Size item = Z.of_nat (length (srcs i)) ∧ in_int64 (Size item);
  so_inodes : ∀ i j f g ino, rs_files s !! i = Some f → rs_files s !! j = Some g →
    rf_file f = Some ino → rf_file g = Some ino → i = j;
}.

Lemma write_file_chunk_ok w s i item off chunk s' w' :
  store_ok w s → zlookup (Items (rs_manifest s)) i = Some item →
  chunk_of (srcs i) off chunk → in_int64 off → Z.of_nat (length chunk) < 2 ^ 62 →
  write_file_chunk s i item off chunk w = (Ok s', w') →
  store_ok w' s' ∧ rs_manifest s' = rs_manifest s.
Proof.
  intros [Hf Hit Hino] Hitem Hc Hoff Hlen Hw. unfold write_file_chunk in Hw.
  destruct (rs_files s !! i) as [f|] eqn:Ef; [|done]. io_inv. bool_prop.
  destruct (rf_file f) as [ino|] eqn:Eino; [|done]. io_inv. bool_prop.
  destruct (Hit _ _ _ Ef Hitem) as [Hsize Hs64].
  assert (Hn : 0 ≤ Z.of_nat (length chunk) < 2 ^ 62) by lia.
  match goal with Hv : validateChunkRange _ _ _ = Ok _ |- _ =>
    apply (proj1 (validateChunkRange_Ok item off _ Hoff Hn Hs64)) in Hv as [H0' Hend] end.
  rewrite wrap64_id in * by (unfold in_int64, int64_min, int64_max in *; lia).
  match goal with Hv : byteRanges_Add _ _ _ = Ok ?r |- _ => rename Hv into Hadd; rename r into ranges' end.
  match goal with Hv : WriteAt _ _ _ _ = _ |- _ => unfold WriteAt in Hv; rename Hv into Hwr end.
  replace (off <? 0) with false in Hwr by (symmetry; apply Z.ltb_ge; lia).
  injection Hwr as <-. rewrite <- Eino. split; [|done]. constructor; simpl.
  - intros j g ino' Hj Hg. apply lookup_insert_Some in Hj as [[<- <-]|[Hij Hj]]; simpl in Hg.
    + rewrite Eino in Hg. injection Hg as <-. rewrite inode_at_set, decide_True by done. simpl.
      change (file_ok (write_at chunk (Z.to_nat off) (content (inode_at w ino))) (srcs i) (with_ranges f ranges')).
      eapply file_ok_write; try done; [by eapply Hf|lia].
    + rewrite inode_at_set. case_decide as E; [|by eapply Hf].
      subst ino'. exfalso. apply Hij. by eapply Hino.
  - intros j g item' Hj Hjt. apply lookup_insert_Some in Hj as [[<- <-]|[Hij Hj]]; [|by eapply Hit].
    by eapply Hit.
  - intros j k g g' ino' Hj Hk Hg Hg'.
    apply lookup_insert_Some in Hj as [[<- <-]|[Hij Hj]]; apply lookup_insert_Some in Hk as [[<- <-]|[Hik Hk]];
      simpl in *; [done|eapply (Hino i k); eauto|eapply (Hino j i); eauto|by eapply Hino].
Qed.

(** Chunks for several items, in the order they arrive. *)
Fixpoint write_chunks (s : ReceiveStore) (cs : list (Z * Z * bytes)) : io receive_error ReceiveStore :=
  match cs with
  | [] => mret s
  | (i, off, data) :: cs' => s' ← WriteChunk s i off data; write_chunks s' cs'
  end.

(** The chunks of a correct sender. *)
Definition sent_from (s : ReceiveStore) (c : Z * Z * bytes) : Prop :=
  let '(i, off, data) := c in
  in_int64 off ∧ Z.of_nat (length data) < 2 ^ 62 ∧ chunk_of (srcs i) off data.

Lemma WriteChunk_ok w s i off data s' w' :
  store_ok w s → sent_from s (i, off, data) →
  WriteChunk s i off data w = (Ok s', w') → store_ok w' s' ∧ rs_manifest s' = rs_manifest s.
Proof.
  intros Hs (Ho & Hl & Hc) Hw. unfold WriteChunk in Hw.
  destruct (zlookup (Items (rs_manifest s)) i) as [item|] eqn:Eit; [|done].
  destruct (String.eqb (Kind item) ItemFile).
  { by eapply write_file_chunk_ok. }
  destruct (String.eqb (Kind item) ItemText); [|done].
  destruct (rs_texts s !! i) as [t|]; [|done]. io_inv. split; [|done].
  destruct Hs as [Hf Hit Hino]. by constructor.
Qed.

Lemma write_chunks_ok w s cs s' w' :
  store_ok w s → Forall (sent_from s) cs → write_chunks s cs w = (Ok s', w') →
  store_ok w' s' ∧ rs_manifest s' = rs_manifest s.
Proof.
  revert w s. induction cs as [|[[i off] data] cs IH]; intros w s Hs Hall Hw; simpl in Hw; io_inv; [done|].
  apply Forall_cons in Hall as [Hc Hall].
  match goal with Hx : WriteChunk _ _ _ _ _ = _ |- _ => eapply WriteChunk_ok in Hx as [Hs' Hm]; [|done|exact Hc] end.
  rewrite <- Hm. eapply IH; [exact Hs'| |done]. exact Hall.
Qed.

End store_inv.

(** C6: the receiver rebuilds the file.  If every chunk it accepts carries the
    source's own bytes at its offset, then after any sequence of accepted
    chunks, for any number of files and in any order, a file whose ranges are
    complete has exactly the source's content on disk. *)
Theorem received_files_are_sources `{CaseTables} `{Crypto} srcs w s cs s' w' i f ino item :
  store_ok srcs w s → Forall (sent_from srcs s) cs →
  write_chunks s cs w = (Ok s', w') →
  rs_files s' !! i = Some f → rf_file f = Some ino →
  zlookup (Items (rs_manifest s)) i = Some item →
  byteRanges_Complete (Some (rf_ranges f)) (Size item) = true →
  content (inode_at w' ino) = srcs i.
Proof.
  intros Hs Hall Hw Hf Hino Hitem Hc.
  destruct (write_chunks_ok srcs w s cs s' w' Hs Hall Hw) as [Hs' Hm].
  eapply file_ok_complete; [by eapply so_files|]. rewrite <- Hm in Hitem.
  destruct (so_items _ _ _ Hs' _ _ _ Hf Hitem) as [<- _]. done.
Qed.

(** A store with one open file of three bytes. *)
Definition demo_fs : fs := MkFS {[ ["o"; "a.kigopart"]%string := NFile 0; ["o"]%string := NDir 493 0 ]} {[ 0%nat := MkInode [] 0 0 ]} 1 [].
Definition demo_file : receiveFile := MkReceiveFile (Some 0%nat) "/o/a" "/o/a.kigopart" 0 false false false [].
Definition demo_store : ReceiveStore :=
  MkStore (MkManifest 1 [sample_file "a"] []) (NewPlan 1) "/o" {[ 0 := demo_file ]} ∅ ∅ ∅ []
    ConflictOverwrite ∅ ∅ true.
Definition demo_srcs (_ : Z) : bytes := to_bytes "abc".

Lemma demo_store_ok : store_ok demo_srcs demo_fs demo_store.
Proof.
  constructor; simpl.
  - intros i f ino [<- <-]%lookup_singleton_Some [= <-]. constructor; simpl; try done; try lia.
    + apply ranges_wf_nil.
    + by intros b ?%covered_nil.
    + by intros b ?%covered_nil.
    + vm_compute. lia.
  - intros i f item [<- <-]%lookup_singleton_Some [= <-]. split; [done|]. vm_compute. split; discriminate.
  - intros i j f g ino [<- <-]%lookup_singleton_Some [<- <-]%lookup_singleton_Some. done.
Qed.

Lemma received_files_are_sources_witness :
  let Ht := ascii_tables in let Hc := tagged_crypto in
  content (inode_at (snd (write_chunks demo_store [(0, 2, to_bytes "c"); (0, 0, to_bytes "ab")] demo_fs)) 0) = to_bytes "abc".
Proof.
  intros Ht Hc.
  refine (received_files_are_sources demo_srcs demo_fs demo_store [(0, 2, to_bytes "c"); (0, 0, to_bytes "ab")]
    (set_file demo_store 0 (with_ranges demo_file [MkRange 0 3])) _ 0 (with_ranges demo_file [MkRange 0 3]) 0 (sample_file "a")
    demo_store_ok _ _ _ _ _ _).
  - repeat constructor; vm_compute; discriminate.
  - vm_compute. reflexivity.
  - vm_compute. reflexivity.
  - reflexivity.
  - reflexivity.
  - vm_compute. reflexivity.
Defined.

(** C9: a chunk for an open file is accepted exactly when it lies inside the
    declared size, comes at the expected offset (or the store reorders) and
    touches no byte already received; a refused chunk changes nothing on disk. *)
Theorem WriteChunk_decides `{CaseTables} `{Crypto} w s i off data item f ino :
  zlookup (Items (rs_manifest s)) i = Some item → Kind item = ItemFile →
  rs_files s !! i = Some f → rf_file f = Some ino → rf_complete f = false → rf_skipped f = false →
  ranges_wf (rf_ranges f) → in_int64 off → in_int64 (Size item) → Z.of_nat (length data) < 2 ^ 62 →
  let n := Z.of_nat (length data) in
  let good := 0 ≤ off ∧ off + n ≤ Size item ∧ (outOfOrder s = true ∨ off = rf_offset f) ∧
              ∀ b, off ≤ b < off + n → ¬ covered (rf_ranges f) b in
  match WriteChunk s i off data w with
  | (Ok s', w') => good ∧ content (inode_at w' ino) = write_at data (Z.to_nat off) (content (inode_at w ino))
  | (Err _, w') => ¬ good ∧ w' = w
  end.
Proof.
  intros Hit Hk Hf Hino Hcomp Hskip Hwf Hoff Hsz Hlen n good. unfold WriteChunk.
  rewrite Hit, Hk. cbn [String.eqb]. rewrite String.eqb_refl. unfold write_file_chunk.
  rewrite Hf, Hcomp, Hskip, Hino. fold n. unfold mbind, io_bind, fail_if_io, lift. simpl.
  assert (Hn : 0 ≤ n < 2 ^ 62) by (unfold n; lia).
  pose proof (validateChunkRange_Ok item off n Hoff Hn Hsz) as Hrange.
  destruct (validateChunkRange item off n) as [[]|e]; simpl.
  2:{ split; [|done]. intros (? & ? & _). by assert (Err e = Ok tt) by (apply Hrange; lia). }
  destruct (proj1 Hrange eq_refl) as [H0' Hend].
  unfold fail_if. destruct (negb (outOfOrder s) && negb (off =? rf_offset f)) eqn:Eo.
  { simpl. bool_prop. split; [|done]. intros (_ & _ & [?|?] & _); congruence. }
  assert (Horder : outOfOrder s = true ∨ off = rf_offset f).
  { destruct (outOfOrder s); [by left|right]. simpl in Eo. by bool_prop. }
  rewrite wrap64_id by (unfold in_int64, int64_min, int64_max in *; lia).
  assert (Hadd : is_ok (byteRanges_Add (rf_ranges f) off (off + n)) = true ↔
                 ∀ b, off ≤ b < off + n → ¬ covered (rf_ranges f) b).
  { destruct (decide (n = 0)) as [->|]; [rewrite Z.add_0_r, Add_empty by done; split; [lia|done]|].
    apply Add_Ok_iff; [done|lia]. }
  destruct (byteRanges_Add (rf_ranges f) off (off + n)) as [r|e]; simpl in *.
  - unfold WriteAt. replace (off <? 0) with false by (symmetry; apply Z.ltb_ge; lia). simpl.
    split; [split_and!; try done; by apply Hadd|]. by rewrite inode_at_set, decide_True by done.
  - split; [|done]. intros (_ & _ & _ & Hnew). by apply Hadd in Hnew.
Qed.

Lemma WriteChunk_decides_witness :
  let Ht := ascii_tables in let Hc := tagged_crypto in
  match WriteChunk demo_store 0 1 (to_bytes "bc") demo_fs with
  | (Ok s', w') => True
  | (Err _, w') => False
  end.
Proof.
  intros Ht Hc.
  assert (Hw : ranges_wf []) by apply ranges_wf_nil.
  pose proof (WriteChunk_decides demo_fs demo_store 0 1 (to_bytes "bc") (sample_file "a") demo_file 0
    eq_refl eq_refl eq_refl eq_refl eq_refl eq_refl Hw ltac:(vm_compute; split; discriminate)
    ltac:(vm_compute; split; discriminate) ltac:(vm_compute; reflexivity)) as Hd.
  destruct (WriteChunk _ _ _ _ _) as [[s'|e] w']; [exact I|]. destruct Hd as [Hbad _]. apply Hbad.
  split_and!; [lia|vm_compute; discriminate|by left|]. intros b _ Hcov. by apply covered_nil in Hcov.
Defined.

(** ** Publishing *)

(** Same directories and links; files may appear, vanish or be replaced. *)
Definition file_like (n : option node) : Prop :=
  match n with Some (NDir _ _) | Some (NLink _) => False | _ => True end.

Definition same_tree (s s' : fs) : Prop :=
  cwd s' = cwd s ∧ ∀ k, (file_like (entries s !! k) ∧ file_like (entries s' !! k)) ∨ entries s !! k = entries s' !! k.

#[export] Instance same_tree_refl : Reflexive same_tree.
Proof. intros s. split; [done|]. by right. Qed.

Lemma walk_same_tree links s s' cur comps k :
  same_tree s s' → walk links s false cur comps = Ok k → walk links s' false cur comps = Ok k.
Proof.
  intros [_ Ht]. revert cur comps. induction links as [|links IHl].
  - intros cur comps. revert cur. induction comps as [|c rest IH]; intros cur; simpl; [done|].
    destruct (String.eqb c ".."); [apply IH|].
    destruct (Ht (cur ++ [c])) as [[H1 H2]|E]; [|rewrite E; destruct (entries s' !! _) as [[]|], rest; try done; apply IH].
    destruct (entries s !! (cur ++ [c])) as [[]|], rest; try done; intros [= <-];
      destruct (entries s' !! (cur ++ [c])) as [[]|]; done.
  - intros cur comps. revert cur. induction comps as [|c rest IH]; intros cur; [done|].
    cbn [walk]. destruct (String.eqb c ".."); [apply IH|].
    destruct (Ht (cur ++ [c])) as [[H1 H2]|E].
    + destruct (entries s !! (cur ++ [c])) as [[]|], rest; try done; intros [= <-];
        destruct (entries s' !! (cur ++ [c])) as [[]|]; done.
    + rewrite E. destruct (entries s' !! _) as [[| |t]|], rest; try done; (apply IH || apply IHl).
Qed.

Lemma resolve_same_tree s s' p k :
  same_tree s s' → resolve s false p = Ok k → resolve s' false p = Ok k.
Proof.
  intros Ht. unfold resolve. case_if; [done|]. destruct Ht as [Hc Ht]. rewrite <- Hc at 1.
  apply walk_same_tree. by split.
Qed.

(** [p] names the regular file [ino], and no link is followed for it. *)
Definition names_file (w : fs) (p : string) (ino : nat) : Prop :=
  ∃ k, resolve w false p = Ok k ∧ k ≠ [] ∧ entries w !! k = Some (NFile ino).

Lemma names_file_lookup w p ino :
  names_file w p ino → ∃ k, lookup_path w false p = Ok (k, NFile ino) ∧ k ≠ [].
Proof.
  intros (k & Hr & Hk & He). exists k. unfold lookup_path. rewrite Hr. simpl.
  destruct k; [done|]. simpl. by rewrite He.
Qed.

(** A name that resolves without following resolves the same when following,
    unless it is a link. *)
Lemma walk_follow links s cur comps k :
  walk links s false cur comps = Ok k → (∀ t, entries s !! k ≠ Some (NLink t)) →
  walk links s true cur comps = Ok k.
Proof.
  revert cur comps. induction links as [|links IHl]; intros cur comps; revert cur;
    induction comps as [|c rest IH]; intros cur; try done; cbn [walk];
    (destruct (String.eqb c ".."); [apply IH|]);
    destruct (entries s !! (cur ++ [c])) as [[| |t]|] eqn:E, rest; try done; try (by apply IH); try (by apply IHl);
    intros [= <-] Hn; by destruct (Hn t).
Qed.

Lemma names_file_follow w p ino :
  names_file w p ino → ∃ k, lookup_path w true p = Ok (k, NFile ino).
Proof.
  intros (k & Hr & Hk & He). exists k. unfold lookup_path, resolve in *.
  destruct (String.eqb p ""); [done|].
  rewrite (walk_follow _ _ _ _ _ Hr) by (intros t; congruence). simpl. destruct k; [done|]. simpl. by rewrite He.
Qed.

Lemma names_file_set_inode w p ino j i :
  names_file w p ino → names_file (set_inode w j i) p ino.
Proof.
  intros (k & Hr & Hk & He). exists k. split; [|done].
  apply (resolve_same_tree w); [|done]. split; [done|]. by right.
Qed.

Lemma update_meta_file f g p w ino :
  names_file w p ino →
  update_meta f g p w = (Ok tt, set_inode w ino (f (inode_at w ino))).
Proof. intros Hn. destruct (names_file_follow _ _ _ Hn) as [k Hk]. unfold update_meta. by rewrite Hk. Qed.

Section publish.
Context `{CaseTables} `{Crypto}.

(** Only the metadata of the named file changes. *)
Lemma applyPathMetadata_file p item w w' u ino :
  names_file w p ino → applyPathMetadata p item w = (Ok u, w') →
  entries w' = entries w ∧ cwd w' = cwd w ∧ ∀ j, content (inode_at w' j) = content (inode_at w j).
Proof.
  intros Hn Ha. unfold applyPathMetadata in Ha.
  assert (Hmeta : ∀ f g w1 w2, names_file w1 p ino → (∀ x, content (f x) = content x) →
            update_meta f g p w1 = (Ok tt, w2) →
            names_file w2 p ino ∧ entries w2 = entries w1 ∧ cwd w2 = cwd w1 ∧
            ∀ j, content (inode_at w2 j) = content (inode_at w1 j)).
  { intros f g w1 w2 Hn1 Hf Hu. rewrite (update_meta_file f g _ _ _ Hn1) in Hu. injection Hu as <-.
    split; [by apply names_file_set_inode|]. split_and!; [done..|]. intros j.
    rewrite inode_at_set. case_decide as E; [subst; apply Hf|done]. }
  io_inv. destruct (Mode item =? 0); io_inv.
  - destruct (MTime item =? 0); io_inv; [by split_and!|].
    match goal with Hc : Chtimes _ _ _ = _ |- _ => apply Hmeta in Hc as (_ & ? & ? & ?); done end.
  - match goal with Hc : Chmod _ _ _ = _ |- _ => apply Hmeta in Hc as (Hn' & He & Hc' & Hcont); [|done..] end.
    destruct (MTime item =? 0); io_inv; [by split_and!|].
    match goal with Hc : Chtimes _ _ _ = _ |- _ => apply Hmeta in Hc as (_ & He2 & Hc2 & Hcont2); [|done..] end.
    rewrite He2, Hc2. split_and!; try done. intros j. by rewrite Hcont2.
Qed.

Lemma names_file_entries w w' p ino :
  entries w' = entries w → cwd w' = cwd w → names_file w p ino → names_file w' p ino.
Proof.
  intros He Hc (k & Hr & Hk & Hn). exists k. split; [|by rewrite He].
  apply (resolve_same_tree w); [|done]. split; [done|]. intros k'. right. by rewrite He.
Qed.

Lemma pathState_Ok p w b r w' :
  pathState p w = (Ok (b, r), w') →
  w' = w ∧
  ((b = true ∧ ∃ k n, lookup_path w false p = Ok (k, n) ∧ r = is_regular (node_info w n)) ∨
   (b = false ∧ r = false ∧ lookup_path w false p = Err ENOENT)).
Proof.
  unfold pathState, mbind, io_bind, attempt, Lstat, stat_with.
  destruct (lookup_path w false p) as [[k n]|e]; simpl.
  - intros [= <- <- <-]. eauto 10.
  - unfold IsNotExist. destruct (bool_decide (e = ENOENT)) eqn:E; [|done].
    bool_prop. subst. intros [= <- <- <-]. eauto 10.
Qed.

Lemma regular_node w n : is_regular (node_info w n) = true → ∃ ino, n = NFile ino.
Proof. unfold is_regular. destruct n; simpl; intros Hb; bool_prop; [eauto|done|done]. Qed.

(** A rename onto a name that is free or a file moves the file there. *)
Lemma Rename_publishes w w' old new ino u :
  names_file w old ino → Rename old new w = (Ok u, w') →
  (∀ k n, lookup_path w false new = Ok (k, n) → ∃ j, n = NFile j) →
  names_file w' new ino ∧ inodes w' = inodes w ∧ same_tree w w'.
Proof.
  intros Hold Hren Hnew. destruct (names_file_lookup _ _ _ Hold) as (ko & Hko & Hkone).
  unfold Rename in Hren. rewrite Hko in Hren.
  assert (Hoe : entries w !! ko = Some (NFile ino)).
  { destruct Hold as (k & Hr & Hk & He). unfold lookup_path in Hko. rewrite Hr in Hko. simpl in Hko.
    destruct k; [done|]. simpl in Hko. rewrite He in Hko. by injection Hko as <-. }
  destruct (resolve w false new) as [kn|e] eqn:Er; [|done].
  assert (Hlk : ∀ n, node_at w kn = Some n → ∃ j, n = NFile j).
  { intros n Hn. apply (Hnew kn). unfold lookup_path. rewrite Er. simpl. by rewrite Hn. }
  assert (Hkn : kn ≠ []) by (intros ->; by destruct (Hlk _ eq_refl) as [? [=]]).
  assert (Hw' : w' = set_entry (del_entry w ko) kn (NFile ino)).
  { destruct (node_at w kn) as [[]|]; try done; by injection Hren. }
  assert (Hfl : file_like (entries w !! kn)).
  { destruct kn as [|c kn]; [done|]. simpl in Hlk. destruct (entries w !! (c :: kn)) as [n|]; [|done].
    by destruct (Hlk n eq_refl) as [j ->]. }
  assert (Hst : same_tree w w').
  { subst w'. split; [done|]. intros k. simpl. destruct (decide (k = kn)) as [->|Hk].
    - left. split; [done|]. by rewrite lookup_insert_eq.
    - rewrite lookup_insert_ne by done. destruct (decide (k = ko)) as [->|Hk'].
      + left. by rewrite Hoe, lookup_delete_eq.
      + right. by rewrite lookup_delete_ne. }
  split; [|split; [by subst|done]]. exists kn. split; [by eapply resolve_same_tree|].
  split; [done|]. subst w'. simpl. by rewrite lookup_insert_eq.
Qed.

Lemma verifyPartFile_Ok w p item ino w' u :
  names_file w p ino → verifyPartFile p item w = (Ok u, w') →
  w' = w ∧ (SHA256 item ≠ ""%string → bytesSHA256 (content (inode_at w ino)) = ToLower (SHA256 item)).
Proof.
  intros Hn Hv. destruct (names_file_follow _ _ _ Hn) as [k Hk]. unfold verifyPartFile in Hv. io_inv.
  match goal with Hx : Stat _ _ = _ |- _ => unfold Stat, stat_with in Hx; injection Hx as _ <- end.
  destruct (String.eqb_spec (SHA256 item) "") as [E|E]; io_inv; [done|].
  unfold fileSHA256 in *. io_inv.
  match goal with Hx : ReadFile _ _ = _ |- _ => unfold ReadFile in Hx; rewrite Hk in Hx; injection Hx as <- <- end.
  split; [done|]. intros _. bool_prop. by apply String.eqb_eq.
Qed.

Lemma finalizeReceivedFile_Ok w f item ino w' u :
  names_file w (rf_partPath f) ino → finalizeReceivedFile f item w = (Ok u, w') →
  names_file w' (rf_finalPath f) ino ∧ content (inode_at w' ino) = content (inode_at w ino).
Proof.
  intros Hn Hv. unfold finalizeReceivedFile in Hv. io_inv.
  match goal with Hx : applyPathMetadata _ _ _ = _ |- _ =>
    apply (applyPathMetadata_file _ _ _ _ _ ino) in Hx as (He & Hc & Hcont); [|done] end.
  match goal with Hx : pathState _ _ = (Ok ?st, _) |- _ =>
    destruct st as [present regular]; apply pathState_Ok in Hx as [-> Hst] end. simpl in *.
  match goal with Hx : Rename _ _ _ = _ |- _ => rename Hx into Hren end.
  match goal with Hx : (if present then _ else _) ?w1 = (_, ?w2) |- _ =>
    assert (w2 = w1 ∧ (present = true → regular = true)) as [-> Hreg]
      by (destruct present; io_inv; bool_prop; simplify_eq; split; auto; by destruct regular) end.
  assert (Hn1 : names_file x0 (rf_partPath f) ino) by by eapply names_file_entries.
  destruct (Rename_publishes x0 w' _ _ ino tt Hn1 Hren) as (Hfinal & Hino & _).
  { intros k n Hk. destruct Hst as [(Hp & k' & n' & Hk' & Hr)|(_ & _ & Hk')]; rewrite Hk' in Hk; [|done].
    injection Hk as <- <-. apply (regular_node x0). rewrite <- Hr. by apply Hreg. }
  split; [done|]. rewrite <- Hcont. unfold inode_at. by rewrite Hino.
Qed.
End publish.

(** ** What a failing save leaves *)

(** Names and contents are as they were; only permissions and times may differ. *)
Definition untouched (w w' : fs) : Prop :=
  entries w' = entries w ∧ cwd w' = cwd w ∧ ∀ j, content (inode_at w' j) = content (inode_at w j).

#[export] Instance untouched_refl : Reflexive untouched.
Proof. by intros w. Qed.
#[export] Instance untouched_trans : Transitive untouched.
Proof. intros a b c (He & Hc & Hi) (He' & Hc' & Hi'). split_and!; [congruence..|]. intros j. by rewrite Hi'. Qed.

Section untouched.
Context (part : string) (ino : nat).

(** An operation that touches nothing, and one that touches nothing when it
    fails, while [part] names the file [ino]. *)
Definition touches_nothing {E A} (m : io E A) : Prop :=
  ∀ w, names_file w part ino → untouched w (snd (m w)).
Definition fails_untouched {E A} (m : io E A) : Prop :=
  ∀ w e w', names_file w part ino → m w = (Err e, w') → untouched w w'.

Lemma touches_fails {E A} (m : io E A) : touches_nothing m → fails_untouched m.
Proof. intros Hm w e w' Hn Hr. specialize (Hm w Hn). by rewrite Hr in Hm. Qed.

Lemma touches_state {E A} (m : io E A) : (∀ w, snd (m w) = w) → touches_nothing m.
Proof. intros Hm w _. by rewrite Hm. Qed.

Lemma touches_bind {E A B} (m : io E A) (k : A → io E B) :
  touches_nothing m → (∀ a, touches_nothing (k a)) → touches_nothing (m ≫= k).
Proof.
  intros Hm Hk w Hn. specialize (Hm w Hn). unfold mbind, io_bind. destruct (m w) as [[a|e] w1]; [|done]. cbn [snd] in *.
  transitivity w1; [done|]. apply Hk. by eapply names_file_entries; [apply Hm..|].
Qed.

Lemma fails_bind {E A B} (m : io E A) (k : A → io E B) :
  touches_nothing m → (∀ a, fails_untouched (k a)) → fails_untouched (m ≫= k).
Proof.
  intros Hm Hk w e w' Hn. specialize (Hm w Hn). unfold mbind, io_bind. destruct (m w) as [[a|e'] w1]; cbn [snd] in *.
  - intros Hr. transitivity w1; [done|]. eapply Hk; [|exact Hr]. by eapply names_file_entries; [apply Hm..|].
  - by intros [= _ <-].
Qed.

Lemma touches_wrap {E F A} (g : E → F) (m : io E A) : touches_nothing m → touches_nothing (wrap_io g m).
Proof. intros Hm w Hn. specialize (Hm w Hn). unfold wrap_io. by destruct (m w). Qed.

Lemma touches_attempt {E F A} (m : io E A) : touches_nothing m → touches_nothing (attempt (F := F) m).
Proof. intros Hm w Hn. specialize (Hm w Hn). unfold attempt. by destruct (m w). Qed.

Lemma touches_meta f g : (∀ x, content (f x) = content x) → touches_nothing (update_meta f g part).
Proof.
  intros Hf w Hn. rewrite (update_meta_file f g _ _ _ Hn). split_and!; [done..|]. intros j. cbn [snd].
  rewrite inode_at_set. case_decide as E; [subst; apply Hf|done].
Qed.

Lemma touches_metadata item : touches_nothing (applyPathMetadata part item).
Proof.
  unfold applyPathMetadata. apply touches_bind; [|intros _].
  - destruct (Mode item =? 0); [by apply touches_state|]. by apply touches_wrap, touches_meta.
  - destruct (MTime item =? 0); [by apply touches_state|]. by apply touches_wrap, touches_meta.
Qed.

Lemma touches_pathState p : touches_nothing (pathState p).
Proof.
  apply touches_bind; [by apply touches_attempt, touches_state|]. intros [i|e]; [by apply touches_state|].
  destruct (IsNotExist e); by apply touches_state.
Qed.

Lemma fails_Rename old new : fails_untouched (Rename old new).
Proof.
  intros w e w' _. unfold Rename. destruct (lookup_path w false old) as [[ko n]|e1]; [|by intros [= _ <-]].
  destruct n; try (by intros [= _ <-]); destruct (resolve w false new) as [kn|e2]; try (by intros [= _ <-]);
    destruct (node_at w kn) as [[]|]; by intros [= ? <-].
Qed.

Lemma fails_wrap {E F A} (g : E → F) (m : io E A) : fails_untouched m → fails_untouched (wrap_io g m).
Proof.
  intros Hm w e w' Hn Hr. unfold wrap_io in Hr. destruct (m w) as [[a|e'] w1] eqn:E1; [done|]. injection Hr as _ <-. by eapply Hm.
Qed.

Lemma fails_then_ret {E A B} (m : io E A) (b : B) : fails_untouched m → fails_untouched (m ≫= λ _, mret b).
Proof.
  intros Hm w e w' Hn. unfold mbind, io_bind. destruct (m w) as [[a|e'] w1] eqn:E1; [done|]. intros [= _ <-]. by eapply Hm.
Qed.

Lemma touches_fail_if {E} bad (e : E) : touches_nothing (fail_if_io bad e).
Proof. by apply touches_state. Qed.

Lemma touches_verify `{CaseTables} `{Crypto} p item : touches_nothing (verifyPartFile p item).
Proof.
  apply touches_bind; [by apply touches_wrap, touches_state|]. intros info. apply touches_bind; [apply touches_fail_if|].
  intros _. destruct (String.eqb _ _); [by apply touches_state|]. apply touches_bind; [|intros; apply touches_fail_if].
  apply touches_wrap, touches_bind; [by apply touches_state|]. intros. by apply touches_state.
Qed.

Lemma fails_finalizeReceivedFile f item : rf_partPath f = part → fails_untouched (finalizeReceivedFile f item).
Proof.
  intros Hp. unfold finalizeReceivedFile. rewrite Hp. apply fails_bind; [apply touches_metadata|intros _]. apply fails_bind; [apply touches_pathState|intros st].
  apply fails_bind; [|intros _; apply fails_wrap, fails_Rename].
  destruct (fst st); [|by apply touches_state]. apply touches_bind; [apply touches_fail_if|]. intros _. apply touches_fail_if.
Qed.

Lemma fails_finalize_file `{CaseTables} `{Crypto} s i f item :
  rs_files s !! i = Some f → rf_partPath f = part → rf_skipped f = false → rf_complete f = false →
  fails_untouched (finalize_file s i item).
Proof.
  intros Hf Hp Hsk Hc. unfold finalize_file. rewrite Hf, Hsk, Hc. destruct (rf_file f) as [h|]; [|by apply touches_fails, touches_state].
  apply fails_bind; [apply touches_fail_if|intros _]. apply fails_bind; [apply touches_verify|intros _].
  apply fails_then_ret. by apply fails_finalizeReceivedFile.
Qed.
End untouched.

(** C7: a file is published only as the source.  When [Finalize] saves an open
    file of a correct store without an error, every byte of it was received, its
    final name denotes the inode the chunks were written to, that inode holds
    exactly the source's bytes, and, where the manifest declares a hash, the
    bytes have that hash (one that declares none is not checked again).  When it
    fails, no name and no content has changed: nothing was renamed. *)
Theorem finalize_publishes_source `{CaseTables} `{Crypto} srcs w s i f ino item :
  store_ok srcs w s → rs_files s !! i = Some f → rf_file f = Some ino →
  rf_skipped f = false → rf_complete f = false →
  zlookup (Items (rs_manifest s)) i = Some item →
  names_file w (rf_partPath f) ino →
  match finalize_file s i item w with
  | (Ok s', w') =>
      byteRanges_Complete (Some (rf_ranges f)) (Size item) = true ∧
      names_file w' (rf_finalPath f) ino ∧ content (inode_at w' ino) = srcs i ∧
      (SHA256 item ≠ ""%string → bytesSHA256 (srcs i) = ToLower (SHA256 item))
  | (Err _, w') => untouched w w'
  end.
Proof.
  intros Hs Hf Hino Hsk Hcomp Hitem Hpart. destruct (finalize_file s i item w) as [[s'|e] w'] eqn:Hfin.
  2:{ by eapply (fails_finalize_file (rf_partPath f) ino). }
  unfold finalize_file in Hfin. rewrite Hf, Hsk, Hcomp, Hino in Hfin. io_inv. bool_prop.
  destruct (so_items _ _ _ Hs _ _ _ Hf Hitem) as [Hsize _].
  assert (Hcont : content (inode_at w ino) = srcs i).
  { eapply file_ok_complete; [by eapply (so_files _ _ _ Hs)|]. by rewrite <- Hsize. }
  match goal with Hv : verifyPartFile _ _ _ = _ |- _ => rename Hv into Hver end.
  match goal with Hv : finalizeReceivedFile _ _ _ = _ |- _ => rename Hv into Hpub end.
  apply (verifyPartFile_Ok _ _ _ ino) in Hver as (-> & Hhash); [|done].
  rewrite Hcont in Hhash. apply (finalizeReceivedFile_Ok _ _ _ ino) in Hpub as [Hnew Hsame]; [|done].
  rewrite Hsame, Hcont. by split_and!.
Qed.

Definition full_fs : fs :=
  MkFS {[ ["o"; "a.kigopart"]%string := NFile 0; ["o"]%string := NDir 493 0 ]}
    {[ 0%nat := MkInode (to_bytes "abc") 0 0 ]} 1 [].
Definition full_file : receiveFile := MkReceiveFile (Some 0%nat) "/o/a" "/o/a.kigopart" 3 false false false [MkRange 0 3].
Definition full_store : ReceiveStore := set_file demo_store 0 full_file.

Lemma full_store_ok : store_ok demo_srcs full_fs full_store.
Proof.
  assert (Hl : ∀ i f, rs_files full_store !! i = Some f → i = 0 ∧ f = full_file).
  { intros i f Hf. unfold full_store, set_file, demo_store in Hf. cbn [rs_files] in Hf. apply lookup_insert_Some in Hf as [[<- <-]|[Hi Hf]]; [done|].
    apply lookup_singleton_Some in Hf as [? _]. congruence. }
  constructor.
  - intros i f ino [-> ->]%Hl [= <-].
    apply (file_ok_prefix _ _ 3); try done.
  - intros i f item [-> ->]%Hl [= <-]. split; [done|]. vm_compute. split; discriminate.
  - by intros i j f g ino [-> _]%Hl [-> _]%Hl.
Qed.

(** The same file with its last byte missing. *)
Definition partial_fs : fs :=
  MkFS {[ ["o"; "a.kigopart"]%string := NFile 0; ["o"]%string := NDir 493 0 ]}
    {[ 0%nat := MkInode (to_bytes "ab") 0 0 ]} 1 [].
Definition partial_file : receiveFile := MkReceiveFile (Some 0%nat) "/o/a" "/o/a.kigopart" 2 false false false [MkRange 0 2].
Definition partial_store : ReceiveStore := set_file demo_store 0 partial_file.

Lemma partial_store_ok : store_ok demo_srcs partial_fs partial_store.
Proof.
  assert (Hl : ∀ i f, rs_files partial_store !! i = Some f → i = 0 ∧ f = partial_file).
  { intros i f Hf. unfold partial_store, set_file, demo_store in Hf. cbn [rs_files] in Hf. apply lookup_insert_Some in Hf as [[<- <-]|[Hi Hf]]; [done|].
    apply lookup_singleton_Some in Hf as [? _]. congruence. }
  constructor.
  - intros i f ino [-> ->]%Hl [= <-]. apply (file_ok_prefix _ _ 2); try done.
  - intros i f item [-> ->]%Hl [= <-]. split; [done|]. vm_compute. split; discriminate.
  - by intros i j f g ino [-> _]%Hl [-> _]%Hl.
Qed.

Lemma finalize_publishes_source_witness :
  let Ht := ascii_tables in let Hc := tagged_crypto in
  let saved := snd (finalize_file full_store 0 (sample_file "a") full_fs) in
  let refused := finalize_file partial_store 0 (sample_file "a") partial_fs in
  (names_file saved "/o/a" 0 ∧ content (inode_at saved 0) = to_bytes "abc") ∧
  fst refused = Err (RIncomplete "a") ∧ untouched partial_fs (snd refused).
Proof.
  intros Ht Hc saved refused.
  assert (Hn : names_file full_fs "/o/a.kigopart" 0 ∧ names_file partial_fs "/o/a.kigopart" 0)
    by (split; exists ["o"; "a.kigopart"]%string; split_and!; try discriminate; vm_compute; reflexivity).
  destruct Hn as [Hn Hn']. split.
  - pose proof (finalize_publishes_source demo_srcs full_fs full_store 0 full_file 0 (sample_file "a")
      full_store_ok eq_refl eq_refl eq_refl eq_refl eq_refl Hn) as Hm.
    assert (Hok : is_ok (fst (finalize_file full_store 0 (sample_file "a") full_fs)) = true) by (vm_compute; reflexivity).
    fold saved in Hm. unfold saved. destruct (finalize_file full_store 0 (sample_file "a") full_fs) as [[s'|e] w']; [|done].
    by destruct Hm as (_ & ? & ? & _).
  - pose proof (finalize_publishes_source demo_srcs partial_fs partial_store 0 partial_file 0 (sample_file "a")
      partial_store_ok eq_refl eq_refl eq_refl eq_refl eq_refl Hn') as Hm. fold refused in Hm.
    assert (Herr : fst refused = Err (RIncomplete "a")) by (vm_compute; reflexivity).
    split; [done|]. destruct refused as [r w']. cbn [fst snd] in *. by rewrite Herr in Hm.
Defined.

(** ** Resume acceptance *)

Section accept.
Context `{CaseTables} `{Crypto}.

(** The file after it was cut back to the offset the sender will resume from. *)
Definition cut_back (f : receiveFile) (off : Z) : receiveFile :=
  MkReceiveFile (rf_file f) (rf_finalPath f) (rf_partPath f) off (rf_complete f)
    (rf_skipped f) (rf_overwrite f) (newByteRanges off).

(** What the sender's answer leaves of a file. *)
Definition accepted_as (e : ResumeEntry) (f f' : receiveFile) : Prop :=
  REOffset e ≤ rf_offset f ∧ rf_offset f' = REOffset e ∧
  RESkip e = (rf_skipped f || rf_complete f) ∧ (f' = f ∨ (RESkip e = false ∧ f' = cut_back f (REOffset e))).

Lemma accept_file_Ok name e f f' w w' :
  accept_file name e f w = (Ok f', w') →
  accepted_as e f f' ∧
  ((w' = w ∧ f' = f) ∨
   ∃ ino, rf_file f = Some ino ∧ f' = cut_back f (REOffset e) ∧ 0 ≤ REOffset e ∧
     w' = set_inode w ino (MkInode (resize_to (Z.to_nat (REOffset e)) (content (inode_at w ino)))
            (imode (inode_at w ino)) (imtime (inode_at w ino)))).
Proof.
  unfold accept_file, accepted_as. intros Ha. io_inv. bool_prop.
  destruct (rf_skipped f) eqn:Es; simpl; io_inv; bool_prop.
  { split; [|by left]. split_and!; [lia|lia|done|by left]. }
  destruct (rf_complete f) eqn:Ec; simpl; io_inv; bool_prop.
  { split; [|by left]. split_and!; [lia|lia|done|by left]. }
  destruct (rf_file f) as [ino|] eqn:Ef; [|done].
  destruct (REOffset e =? rf_offset f) eqn:Eo; io_inv; bool_prop.
  - split; [|by left]. split_and!; [lia|lia|done|by left].
  - match goal with Hx : Truncate _ _ _ = _ |- _ => unfold Truncate in Hx; rename Hx into Ht end.
    destruct (REOffset e <? 0) eqn:En; [done|bool_prop]. injection Ht as <-.
    unfold cut_back. rewrite Es, Ec, Ef. split.
    + split_and!; [lia|done|done|by right].
    + right. by exists ino.
Qed.

(** Truncating to a shorter recorded prefix keeps a correct file correct. *)
Lemma file_ok_truncate data src f f' off :
  file_ok data src f → 0 ≤ off ≤ rf_offset f →
  rf_ranges f' = newByteRanges off → rf_offset f' = off →
  file_ok (resize_to (Z.to_nat off) data) src f'.
Proof.
  intros [Hwf Hb Ha Hl Ho] Hoff Hr Hf'.
  assert (Hcov : ∀ b, 0 ≤ b < off → covered (rf_ranges f) b).
  { intros b Hbb. apply Prefix_covered; [done|]. rewrite <- Ho. lia. }
  assert (Hlen : off ≤ Z.of_nat (length src)).
  { destruct (Z.eq_dec off 0) as [->|]; [lia|]. pose proof (Hb (off - 1) (Hcov (off - 1) ltac:(lia))). lia. }
  eapply (file_ok_prefix src f' off); try done; [lia|].
  apply list_eq. intros i. destruct (decide (i < Z.to_nat off)%nat) as [Hi|Hi].
  - rewrite resize_to_lookup, lookup_take_lt by done.
    assert (Hbr : 0 ≤ Z.of_nat i < off) by lia.
    pose proof (Ha _ (Hcov _ Hbr)) as Hag. unfold byte_of_file in Hag. rewrite Nat2Z.id in Hag. rewrite Hag.
    destruct (lookup_lt_is_Some_2 src i) as [c Hc]; [lia|]. by rewrite Hc.
  - rewrite !lookup_ge_None_2; [done|rewrite length_take; lia|rewrite resize_to_length; lia].
Qed.

Lemma accept_entries_frame es s acc s' acc' :
  accept_entries s es acc = Ok (s', acc') →
  rs_files s' = rs_files s ∧ rs_plan s' = rs_plan s ∧
  (∀ i it', zlookup (Items (rs_manifest s')) i = Some it' →
     ∃ it, zlookup (Items (rs_manifest s)) i = Some it ∧ Size it' = Size it ∧ Name it' = Name it) ∧
  (∀ i e, acc' !! i = Some e → acc !! i = Some e ∨
     ∃ it, zlookup (Items (rs_manifest s)) i = Some it ∧ (0 ≤ Size it → 0 ≤ REOffset e)).
Proof.
  revert s acc. induction es as [|e es IH]; intros s acc Ha; simpl in Ha; res_inv.
  { simplify_eq. split_and!; eauto. }
  match goal with Hx : ValidateResumeEntry _ _ _ = Ok ?o |- _ => rename o into off; rename Hx into Hval end.
  apply ValidateResumeEntry_inv in Hval as (it & Hit & _ & Hoff & Hclamp & _).
  match goal with Hx : accept_entries ?sx _ _ = Ok _ |- _ => rename sx into s1; rename Hx into Hrest end.
  apply IH in Hrest as (Hf & Hp & Hm & Hacc).
  assert (Hs1 : rs_files s1 = rs_files s ∧ rs_plan s1 = rs_plan s ∧
    ∀ i it', zlookup (Items (rs_manifest s1)) i = Some it' →
      ∃ it, zlookup (Items (rs_manifest s)) i = Some it ∧ Size it' = Size it ∧ Name it' = Name it).
  { destruct (String.eqb (RESHA256 e) ""); res_inv; [split_and!; eauto|].
    rewrite Hit in *. res_inv. split_and!; [done..|]. intros i it'. simpl. unfold zlookup. case_if; [done|].
    destruct (decide (Z.to_nat (REItem e) = Z.to_nat i)) as [Ei|Ei].
    - rewrite Ei, list_lookup_alter_eq. destruct (Items (rs_manifest s) !! Z.to_nat i) as [it0|]; [|done].
      simpl. intros [= <-]. eauto.
    - rewrite list_lookup_alter_ne by done. eauto. }
  destruct Hs1 as (Hf1 & Hp1 & Hm1). split_and!; [congruence|congruence| |].
  - intros i it' Hi. apply Hm in Hi as (it1 & Hi1 & ? & ?). apply Hm1 in Hi1 as (it0 & ? & ? & ?).
    exists it0. split_and!; congruence.
  - intros i e' He. apply Hacc in He as [He|(it1 & Hi1 & Hsz)].
    + apply lookup_insert_Some in He as [[<- <-]|[_ He]]; [|by left]. right. exists it. split; [done|].
      intros Hsize. simpl. subst off. by apply clampInt64_range.
    + right. apply Hm1 in Hi1 as (it0 & ? & Hs0 & _). exists it0. split; [done|]. by rewrite <- Hs0.
Qed.

Lemma accept_entries_source es s acc s' acc' i e :
  accept_entries s es acc = Ok (s', acc') → acc' !! i = Some e →
  acc !! i = Some e ∨ ∃ e0, e0 ∈ es ∧ REItem e0 = i ∧ RESkip e = RESkip e0.
Proof.
  revert s acc. induction es as [|x es IH]; intros s acc Ha Hi; simpl in Ha; res_inv.
  { simplify_eq. by left. }
  match goal with Hx : accept_entries _ es _ = Ok _ |- _ => apply IH in Hx; [|done] end.
  match goal with Hx : _ ∨ _ |- _ => destruct Hx as [Hl|(e0 & ? & ? & ?)] end.
  - apply lookup_insert_Some in Hl as [[<- <-]|[_ Hl]]; [|by left]. right. exists x. split_and!; [by left|done|done].
  - right. exists e0. split_and!; [by right|done|done].
Qed.

Variable srcs : Z → bytes.

Lemma store_ok_set_file w s i f f' w' ino :
  store_ok srcs w s → rs_files s !! i = Some f → rf_file f = Some ino → rf_file f' = Some ino →
  (∀ j, j ≠ ino → inode_at w' j = inode_at w j) →
  file_ok (content (inode_at w' ino)) (srcs i) f' →
  store_ok srcs w' (set_file s i f').
Proof.
  intros [Hf Hit Hin] Hi Hino Hino' Hframe Hok. constructor; simpl.
  - intros j g ino2 Hj Hg. apply lookup_insert_Some in Hj as [[<- <-]|[Hij Hj]].
    + congruence.
    + rewrite Hframe; [by eapply Hf|]. intros ->. apply Hij. by eapply Hin.
  - intros j g item Hj Hjt. apply lookup_insert_Some in Hj as [[<- <-]|[Hij Hj]]; by eapply Hit.
  - intros j k g g' ino2 Hj Hk Hg Hg'.
    apply lookup_insert_Some in Hj as [[<- <-]|[Hij Hj]]; apply lookup_insert_Some in Hk as [[<- <-]|[Hik Hk]];
      simplify_eq; [done|by eapply (Hin i k)|by eapply (Hin j i)|by eapply Hin].
Qed.

Lemma accept_files_ok ids accepted s w s' w' :
  NoDup ids → store_ok srcs w s →
  (∀ i, i ∈ ids → is_Some (rs_files s !! i)) →
  accept_files ids accepted s w = (Ok s', w') →
  store_ok srcs w' s' ∧ rs_manifest s' = rs_manifest s ∧
  (∀ i, i ∉ ids → rs_files s' !! i = rs_files s !! i) ∧
  (∀ i f, i ∈ ids → rs_files s !! i = Some f →
     ∃ e f', accepted !! i = Some e ∧ rs_files s' !! i = Some f' ∧ accepted_as e f f').
Proof.
  intros Hnd. revert s w. induction Hnd as [|i ids Hi Hnd IH]; intros s w Hs Hdom Ha; simpl in Ha; io_inv.
  { simplify_eq. split_and!; try done. by intros ?? ?%not_elem_of_nil. }
  destruct (Hdom i ltac:(by left)) as [f Hf]. rewrite Hf in Ha.
  destruct (accepted !! i) as [e|] eqn:He; [|done]. io_inv.
  match goal with Hx : accept_file _ _ _ _ = (Ok ?g, ?v) |- _ =>
    rename g into f1; rename v into w1; apply accept_file_Ok in Hx as [Has Hfw] end.
  match goal with Hx : accept_files _ _ _ _ = _ |- _ => rename Hx into Hrest end.
  assert (Hs1 : store_ok srcs w1 (set_file s i f1)).
  { destruct Hfw as [[-> ->]|(ino & Hino & -> & H0' & ->)].
    - replace (set_file s i f) with s; [done|]. unfold set_file. rewrite insert_id by done. by destruct s.
    - eapply store_ok_set_file; [exact Hs|exact Hf|exact Hino|done| |].
      + intros j Hj. by rewrite inode_at_set, decide_False.
      + rewrite inode_at_set, decide_True by done. simpl. destruct Has as (Hle & _).
        eapply file_ok_truncate; [by eapply (so_files _ _ _ Hs)|lia|done|done]. }
  eapply IH in Hrest as (Hok & Hm & Hout & Hin); [|done|].
  - split_and!; try done.
    + intros j Hj. apply not_elem_of_cons in Hj as [Hji Hj]. rewrite Hout by done. simpl. by rewrite lookup_insert_ne.
    + intros j g [->|Hj]%elem_of_cons Hg.
      * exists e, f1. rewrite Hout by done. simpl. rewrite lookup_insert_eq. split_and!; try done. by simplify_eq.
      * apply Hin; [done|]. simpl. rewrite lookup_insert_ne; [done|]. by intros ->.
  - intros j Hj. simpl. rewrite lookup_insert_is_Some'. right. apply Hdom. by right.
Qed.
End accept.

(** After the sender's answer is applied, every file stands exactly where
    the sender will continue: not beyond what the receiver asked for, skipped
    only if the receiver had it, cut back on disk when the sender wants an
    earlier offset, and the store is still correct for the same sources. *)
Theorem ApplyResumeAccept_correct `{CaseTables} srcs w s es s' w' :
  store_ok srcs w s → ApplyResumeAccept s es w = (Ok s', w') →
  store_ok srcs w' s' ∧ rs_resume s' = es ∧
  ∀ i f, rs_files s !! i = Some f →
    ∃ e f', rs_files s' !! i = Some f' ∧ accepted_as e f f' ∧
            ∃ e0, e0 ∈ es ∧ REItem e0 = i ∧ RESkip e = RESkip e0.
Proof.
  intros Hs Ha. unfold ApplyResumeAccept in Ha. io_inv.
  match goal with Hx : accept_entries _ _ _ = Ok ?p |- _ => destruct p as [s1 accepted]; rename Hx into He end.
  io_inv. match goal with Hx : accept_files _ _ _ _ = (Ok ?t, _) |- _ => rename t into s2; rename Hx into Hfiles end.
  pose proof (accept_entries_frame _ _ _ _ _ He) as (Hf & _ & Hm & _).
  assert (Hs1 : store_ok srcs w s1).
  { destruct Hs as [Hfo Hit Hin]. constructor; rewrite ?Hf; [done| |done].
    intros i f it' Hi Hit'. destruct (Hm _ _ Hit') as (it & Hiti & -> & _). by eapply Hit. }
  assert (Hkeys : ∀ i, i ∈ (map_to_list (rs_files s1)).*1 ↔ is_Some (rs_files s1 !! i)).
  { intros i. rewrite list_elem_of_fmap. split.
    - intros ([j f] & -> & Hj). apply elem_of_map_to_list in Hj. by exists f.
    - intros [f Hi]. exists (i, f). by rewrite elem_of_map_to_list. }
  apply (accept_files_ok srcs) in Hfiles as (Hok & _ & _ & Hin);
    [|apply NoDup_fst_map_to_list|done|intros i; apply Hkeys].
  split; [destruct Hok; by constructor|]. split; [done|]. simpl. intros i f Hi.
  rewrite <- Hf in Hi. destruct (Hin i f) as (e & f' & Hacc & Hf' & Has); [apply Hkeys; by exists f|done|].
  exists e, f'. split_and!; try done.
  destruct (accept_entries_source _ _ _ _ _ _ _ He Hacc) as [?|?]; [|done]. by rewrite lookup_empty in *.
Qed.

Lemma ApplyResumeAccept_correct_witness :
  let Ht := ascii_tables in
  let es := [MkResumeEntry 0 None 1 "" "" false false] in
  store_ok demo_srcs (snd (ApplyResumeAccept full_store es full_fs))
    (set_resume (set_file full_store 0 (cut_back full_file 1)) es).
Proof.
  intros Ht es.
  apply (ApplyResumeAccept_correct demo_srcs full_fs full_store es _ _ full_store_ok).
  vm_compute. reflexivity.
Defined.
