(* ===== verification/RenameProofs.v ===== *)
(** * The search for a free name ends

    [availableRenamePath] tries [name (1).ext], [name (2).ext], ... until one is
    neither claimed, nor reserved, nor on disk.  Different numbers give
    different names and different directory entries, so a bounded number of
    tries is enough. *)
From Stdlib Require Import ZArith Lia Ascii String.
From stdpp Require Import base tactics numbers list gmap strings.
From S2P Require Import Prelude GoStrings GoPath Protocol Ranges Mux FileSystem ManifestCheck ReceiveStore ReceiveProofs.

(** ** Counting *)

Lemma filter_image_size {A B} `{Countable B} (f : A → B) (P : A → Prop) `{∀ x, Decision (P x)} (ns : list A) (X : gset B) :
  NoDup ns → (∀ x y, x ∈ ns → y ∈ ns → f x = f y → x = y) →
  (∀ x, x ∈ ns → P x → f x ∈ X) → (length (filter P ns) ≤ size X)%nat.
Proof.
  intros Hnd Hinj Hin.
  assert (Hl : length (f <$> filter P ns) = length (filter P ns)) by apply length_fmap.
  assert (Hnd' : NoDup (f <$> filter P ns)).
  { apply NoDup_fmap_2_strong; [|by apply NoDup_filter].
    intros x y [_ Hx]%list_elem_of_filter [_ Hy]%list_elem_of_filter. by apply Hinj. }
  rewrite <- Hl, <- (size_list_to_set (C:=gset B)) by done. apply subseteq_size.
  intros b Hb. apply elem_of_list_to_set, list_elem_of_fmap in Hb as (x & -> & [HP Hx]%list_elem_of_filter).
  by apply Hin.
Qed.

Lemma filter_complement_length {A} (P : A → Prop) `{∀ x, Decision (P x)} (ns : list A) :
  length ns = (length (filter P ns) + length (filter (λ x, ¬ P x) ns))%nat.
Proof.
  induction ns as [|x ns IH]; [done|]. rewrite !filter_cons.
  destruct (decide (P x)), (decide (¬ P x)); simpl; try done; lia.
Qed.

(** ** Candidates *)

Definition numbered (n : Z) (ext : string) : string := " (" +:+ Itoa n +:+ ")" +:+ ext.

Lemma candidate_eq path n : rename_candidate path n = trim_suffix path (Ext path) +:+ numbered n (Ext path).
Proof. done. Qed.

Lemma numbered_inj a ext n m :
  in_int64 n → in_int64 m → a +:+ numbered n ext = a +:+ numbered m ext → n = m.
Proof.
  intros Hn Hm E%string_app_inj_l. unfold numbered in E.
  change (String " " (String "(" (Itoa n +:+ ")" +:+ ext)) = String " " (String "(" (Itoa m +:+ ")" +:+ ext))) in E.
  injection E as E. apply string_app_inj_r in E. by apply Itoa_inj.
Qed.

(** No slash in a number or an extension. *)
Lemma last_index_drop c l i : last_index_byte c l = Some i → c ∉ drop (S i) l.
Proof.
  revert i. induction l as [|a l IH]; intros i; [done|]. cbn [last_index_byte].
  destruct (last_index_byte c l) as [j|] eqn:E.
  - intros [= <-]. by apply IH.
  - destruct (Ascii.eqb a c); [|done]. intros [= <-]. simpl. rewrite drop_0.
    clear -E. induction l as [|a l IH]; [by apply not_elem_of_nil|]. cbn [last_index_byte] in E.
    destruct (last_index_byte c l) eqn:E'; [done|]. destruct (Ascii.eqb_spec a c); [done|].
    apply not_elem_of_cons. split; [congruence|by apply IH].
Qed.

Lemma last_index_None c l : last_index_byte c l = None → c ∉ l.
Proof.
  induction l as [|a l IH]; [intros _; apply not_elem_of_nil|]. cbn [last_index_byte].
  destruct (last_index_byte c l); [done|]. destruct (Ascii.eqb_spec a c); [done|]. intros _.
  apply not_elem_of_cons. split; [congruence|by apply IH].
Qed.

Lemma has_byte_of_bytes c l : c ∉ l → has_byte c (of_bytes l) = false.
Proof.
  induction l as [|a l IH]; [done|]. intros [Hne Hl]%not_elem_of_cons. simpl.
  destruct (Ascii.eqb_spec a c); [congruence|auto].
Qed.

Lemma Ext_no_slash p : has_byte slash (Ext p) = false.
Proof.
  unfold Ext. set (l := match last_index_byte slash (to_bytes p) with Some i => drop (S i) (to_bytes p) | None => to_bytes p end).
  assert (Hl : slash ∉ l).
  { unfold l. destruct (last_index_byte slash (to_bytes p)) eqn:E; [by apply last_index_drop|by apply last_index_None]. }
  destruct (last_index_byte "." l) as [i|]; [|done]. apply has_byte_of_bytes.
  intros Hin. apply Hl. rewrite <- (take_drop i l). apply elem_of_app. by right.
Qed.

Lemma uint_no_slash u : has_byte slash (DecimalString.NilEmpty.string_of_uint u) = false.
Proof. induction u; simpl; done. Qed.

Lemma Itoa_no_slash n : has_byte slash (Itoa n) = false.
Proof.
  unfold Itoa. destruct (Z.to_int n) as [u|u]; simpl; destruct u; simpl; try done; apply uint_no_slash.
Qed.

Lemma numbered_no_slash n ext : has_byte slash ext = false → has_byte slash (numbered n ext) = false.
Proof. intros He. unfold numbered. rewrite !has_byte_app, Itoa_no_slash, He. done. Qed.

(** The last component of a candidate. *)
Lemma split_on_app_last c a b :
  has_byte c b = false →
  ∃ ps p, split_on c a = ps ++ [p] ∧ split_on c (a +:+ b) = ps ++ [p +:+ b].
Proof.
  intros Hb. induction a as [|x a (ps & p & E1 & E2)].
  - exists [], ""%string. split; [done|]. by apply split_on_single.
  - cbn [split_on]. change (String x a +:+ b) with (String x (a +:+ b)). cbn [split_on].
    rewrite E1, E2. destruct (Ascii.eqb x c).
    + by exists (""%string :: ps), p.
    + destruct ps as [|q ps]; simpl; [by exists [], (String x p)|by exists (String x q :: ps), p].
Qed.

Lemma safe_with_paren c : has_byte "("%char c = true → safe_part c = true.
Proof.
  intros Hc. unfold safe_part.
  destruct (String.eqb_spec c "") as [->|]; [done|]. destruct (String.eqb_spec c ".") as [->|]; [done|].
  by destruct (String.eqb_spec c "..") as [->|].
Qed.

Lemma candidate_comps path :
  ∃ ps p, ∀ n, name_comps (rename_candidate path n) = ps ++ [p +:+ numbered n (Ext path)] ∧
               safe_part (p +:+ numbered n (Ext path)) = true.
Proof.
  destruct (split_on_app_last slash (trim_suffix path (Ext path)) "") as (ps & p & E1 & _); [done|].
  exists (filter (fun c => negb (String.eqb c "" || String.eqb c ".") = true) ps), p. intros n.
  assert (Hsafe : safe_part (p +:+ numbered n (Ext path)) = true).
  { apply safe_with_paren. unfold numbered. rewrite !has_byte_app. simpl. by rewrite !orb_true_r. }
  split; [|done]. rewrite candidate_eq. unfold name_comps.
  destruct (split_on_app_last slash (trim_suffix path (Ext path)) (numbered n (Ext path))) as (ps' & p' & E1' & E2').
  { apply numbered_no_slash, Ext_no_slash. }
  rewrite E1 in E1'. apply app_inj_tail in E1' as [<- <-]. rewrite E2', filter_app. f_equal.
  rewrite filter_cons. unfold safe_part in Hsafe. bool_prop.
  rewrite decide_True by by (apply negb_true_iff, orb_false_iff). done.
Qed.

(** ** One parent directory for all candidates *)

Lemma walk_snoc links s cur ps :
  (∃ e, ∀ c, safe_part c = true → walk links s false cur (ps ++ [c]) = Err e) ∨
  (∃ d, ∀ c, safe_part c = true → walk links s false cur (ps ++ [c]) = Ok (d ++ [c])).
Proof.
  revert cur ps. induction links as [|links IHl]; intros cur ps; revert cur; induction ps as [|x ps IH]; intros cur.
  1,3: right; exists cur; intros c Hc; by apply walk_last.
  all: cbn [walk app]; destruct (String.eqb x ".."); [apply IH|];
    destruct (entries s !! (cur ++ [x])) as [[ino|m t|t]|]; [left; exists ENOTDIR|apply IH| |left; exists ENOENT].
  all: try (intros c Hc; by destruct ps).
  - left. exists ELOOP. intros c Hc. by destruct ps.
  - destruct (IHl (if IsAbs t then [] else cur) (name_comps t ++ ps)) as [[e He]|[d Hd]]; [left; exists e|right; exists d];
      intros c Hc; [specialize (He c Hc)|specialize (Hd c Hc)]; rewrite <- (assoc_L (++)) in *; by destruct ps.
Qed.

(** What [Lstat] says of every candidate: they all fail alike, or they are
    different entries of one directory. *)
Lemma candidate_lookup w path :
  (∃ e, ∀ n, lookup_path w false (rename_candidate path n) = Err e) ∨
  (∃ d p, ∀ n, lookup_path w false (rename_candidate path n) =
     match entries w !! (d ++ [p +:+ numbered n (Ext path)]) with
     | Some x => Ok (d ++ [p +:+ numbered n (Ext path)], x)
     | None => Err ENOENT
     end).
Proof.
  destruct (candidate_comps path) as (ps & p & Hc).
  assert (Hne : ∀ n, String.eqb (rename_candidate path n) "" = false).
  { intros n. apply String.eqb_neq. intros E. destruct (Hc n) as [Hn _]. rewrite E in Hn.
    vm_compute in Hn. by destruct ps. }
  assert (Habs : ∃ a : bool, ∀ n, IsAbs (rename_candidate path n) = a).
  { destruct (trim_suffix path (Ext path)) as [|x s] eqn:E.
    - exists false. intros n. by rewrite candidate_eq, E.
    - exists (IsAbs (String x s)). intros n. rewrite candidate_eq, E. by apply IsAbs_app. }
  destruct Habs as [a Ha].
  destruct (walk_snoc max_links w (if a then [] else cwd w) ps) as [[e He]|[d Hd]].
  - left. exists e. intros n. unfold lookup_path, resolve. destruct (Hc n) as [-> Hsafe]. by rewrite Hne, Ha, He.
  - right. exists d, p. intros n. unfold lookup_path, resolve. destruct (Hc n) as [-> Hsafe].
    rewrite Hne, Ha, Hd by done. simpl. unfold node_at.
    by destruct (d ++ [p +:+ numbered n (Ext path)]) eqn:E; [destruct d|].
Qed.

Definition zrange (start : Z) (k : nat) : list Z := (λ i, start + Z.of_nat i) <$> seq 0 k.

Lemma elem_of_zrange start k n : n ∈ zrange start k ↔ start ≤ n < start + Z.of_nat k.
Proof.
  unfold zrange. rewrite list_elem_of_fmap. setoid_rewrite elem_of_seq. split.
  - intros (i & -> & ?). lia.
  - intros. exists (Z.to_nat (n - start)). lia.
Qed.

(** A candidate that is taken, by name or on disk. *)
Definition taken (s : ReceiveStore) (w : fs) (path : string) (n : Z) : Prop :=
  rename_candidate path n ∈ claimed s ∪ reserved s ∨
  ∃ k x, lookup_path w false (rename_candidate path n) = Ok (k, x).

Lemma try_rename_fails fuel s path n w w' :
  try_rename fuel s path n w = (Err RenameSearchExhausted, w') →
  ∀ m, n ≤ m < n + Z.of_nat fuel → taken s w path m.
Proof.
  revert n. induction fuel as [|fuel IH]; intros n Hf m Hm; [lia|]. simpl in Hf.
  assert (Hrest : try_rename fuel s path (n + 1) w = (Err RenameSearchExhausted, w') →
                  taken s w path n → taken s w path m).
  { intros Hr Hn. destruct (Z.eq_dec m n) as [->|]; [done|]. eapply IH; [exact Hr|lia]. }
  destruct (bool_decide _ || bool_decide _) eqn:E.
  { apply Hrest; [done|]. left. bool_prop. destruct E; bool_prop; set_solver. }
  unfold mbind, io_bind in Hf. destruct (pathState (rename_candidate path n) w) as [[[present reg]|e] w1] eqn:Ep.
  - apply pathState_Ok in Ep as [-> [(-> & k & x & Hk & _)|(-> & _ & _)]]; simpl in Hf; [|done].
    apply Hrest; [done|]. right. by exists k, x.
  - exfalso. injection Hf as -> <-. unfold pathState, mbind, io_bind, attempt, Lstat, stat_with in Ep.
    destruct (lookup_path w false (rename_candidate path n)) as [[]|e]; simpl in Ep; [done|].
    by destruct (IsNotExist e).
Qed.

Lemma try_rename_Ok fuel s path n w w' p :
  try_rename fuel s path n w = (Ok p, w') →
  w' = w ∧ p ∉ claimed s ∧ p ∉ reserved s ∧ lookup_path w false p = Err ENOENT ∧
  ∃ m, n ≤ m ∧ p = rename_candidate path m ∧ ∀ j, n ≤ j < m → taken s w path j.
Proof.
  revert n. induction fuel as [|fuel IH]; intros n Hf; [done|]. simpl in Hf.
  assert (Hrest : try_rename fuel s path (n + 1) w = (Ok p, w') → taken s w path n →
    w' = w ∧ p ∉ claimed s ∧ p ∉ reserved s ∧ lookup_path w false p = Err ENOENT ∧
    ∃ m, n ≤ m ∧ p = rename_candidate path m ∧ ∀ j, n ≤ j < m → taken s w path j).
  { intros Hr Hn. apply IH in Hr as (-> & ? & ? & ? & m & ? & ? & Hall). split_and!; try done.
    exists m. split_and!; [lia|done|]. intros j Hj. destruct (Z.eq_dec j n) as [->|]; [done|]. apply Hall. lia. }
  destruct (bool_decide _ || bool_decide _) eqn:E.
  { apply Hrest; [done|]. left. bool_prop. destruct E; bool_prop; set_solver. }
  unfold mbind, io_bind in Hf. destruct (pathState (rename_candidate path n) w) as [[[present reg]|e] w1] eqn:Ep; [|done].
  bool_prop. apply pathState_Ok in Ep as [-> [(-> & k & x & Hk & _)|(-> & _ & Hk)]]; simpl in Hf.
  - apply Hrest; [done|]. right. by exists k, x.
  - injection Hf as <- <-. split_and!; try done. exists n. split_and!; [lia|done|]. lia.
Qed.

Lemma availableRenamePath_ends s path w w' :
  Z.of_nat (S (size (claimed s) + size (reserved s) + size (entries w))) < 2 ^ 63 →
  availableRenamePath s path w ≠ (Err RenameSearchExhausted, w').
Proof.
  intros Hbig Hf. unfold availableRenamePath, mbind, io_bind, gets in Hf. simpl in Hf.
  set (k := S (size (claimed s) + size (reserved s) + size (entries w))) in *.
  pose proof (try_rename_fails k s path 1 w w' Hf) as Htaken.
  set (ns := zrange 1 k).
  assert (Hnd : NoDup ns) by (apply NoDup_fmap_2; [intros ???; lia|apply NoDup_seq]).
  assert (Hlen : length ns = k) by (unfold ns, zrange; by rewrite length_fmap, length_seq).
  assert (H64 : ∀ n, n ∈ ns → in_int64 n).
  { intros n Hn%elem_of_zrange. unfold in_int64, int64_min, int64_max. lia. }
  set (P n := rename_candidate path n ∈ claimed s ∪ reserved s).
  pose proof (filter_complement_length P ns) as Hsplit.
  assert (H1 : (length (filter P ns) ≤ size (claimed s ∪ reserved s))%nat).
  { apply (filter_image_size (rename_candidate path)); [done| |done].
    intros x y Hx Hy E. rewrite !candidate_eq in E. eapply numbered_inj; eauto. }
  assert (Hu : (size (claimed s ∪ reserved s) ≤ size (claimed s) + size (reserved s))%nat).
  { rewrite size_union_alt. assert (size (reserved s ∖ claimed s) ≤ size (reserved s))%nat; [|lia].
    apply subseteq_size. set_solver. }
  assert (H2 : (length (filter (λ x, ¬ P x) ns) ≤ size (entries w))%nat).
  { destruct (candidate_lookup w path) as [[e He]|(d & p & Hd)].
    - assert (Hnil : filter (λ x, ¬ P x) ns = []); [|rewrite Hnil; simpl; lia].
      destruct (filter (λ x, ¬ P x) ns) as [|x l] eqn:E; [done|]. exfalso.
      assert (Hx : x ∈ filter (λ x, ¬ P x) ns) by (rewrite E; left).
      apply list_elem_of_filter in Hx as [Hnp Hx%elem_of_zrange].
      destruct (Htaken x) as [?|(? & ? & Hk)]; [lia|by apply Hnp|]. by rewrite He in Hk.
    - rewrite <- size_dom. apply (filter_image_size (λ n, d ++ [p +:+ numbered n (Ext path)])); [done|..].
      + intros x y Hx Hy E. apply app_inj_tail in E as [_ E]. eapply numbered_inj; eauto.
      + intros n Hn Hnp. apply elem_of_zrange in Hn. destruct (Htaken n) as [?|(k' & x & Hk)]; [lia|by apply Hnp in H|].
        rewrite Hd in Hk. apply elem_of_dom. destruct (entries w !! _); [by eexists|done]. }
  lia.
Qed.

(** Renaming on conflict always ends, and the name it picks is free: not
    claimed by another item, not the name of a manifest item, not on disk; it
    is the first numbered variant that is. *)
Theorem availableRenamePath_fresh s path w :
  Z.of_nat (S (size (claimed s) + size (reserved s) + size (entries w))) < 2 ^ 63 →
  match availableRenamePath s path w with
  | (Ok p, w') => w' = w ∧ p ∉ claimed s ∧ p ∉ reserved s ∧ lookup_path w false p = Err ENOENT ∧
      ∃ m, 1 ≤ m ∧ p = rename_candidate path m ∧ ∀ j, 1 ≤ j < m → taken s w path j
  | (Err e, _) => e ≠ RenameSearchExhausted
  end.
Proof.
  intros Hbig. destruct (availableRenamePath s path w) as [[p|e] w'] eqn:E.
  - unfold availableRenamePath, mbind, io_bind, gets in E. cbv beta iota in E. by eapply try_rename_Ok.
  - intros ->. exact (availableRenamePath_ends s path w w' Hbig E).
Qed.

Lemma availableRenamePath_fresh_witness :
  match availableRenamePath demo_store "/o/a.txt" demo_fs with
  | (Ok p, _) => p ∉ claimed demo_store
  | (Err e, _) => e ≠ RenameSearchExhausted
  end.
Proof.
  assert (Hb : Z.of_nat (S (size (claimed demo_store) + size (reserved demo_store) + size (entries demo_fs))) < 2 ^ 63)
    by (vm_compute; reflexivity).
  pose proof (availableRenamePath_fresh demo_store "/o/a.txt" demo_fs Hb) as Hf.
  destruct (availableRenamePath demo_store "/o/a.txt" demo_fs) as [[p|e] w']; [|done].
  by destruct Hf as (_ & Hc & _).
Defined.
