(* ===== verification/Containment.v ===== *)
(** * Received items stay inside the output directory

    For an absolute output directory without symbolic links on its path,
    [ensureSafeParent] leaves real directories all the way down to the parent
    of the item, so that the item's path resolves, without following any link,
    to the key below the output directory that its name spells. *)
From Stdlib Require Import ZArith Lia Ascii String.
From stdpp Require Import base tactics numbers list gmap strings.
From S2P Require Import Prelude GoStrings GoPath Protocol FileSystem ManifestCheck ReceiveStore RenameProofs.

(** ** Rendered absolute paths *)

Definition plain (parts : list string) : Prop :=
  Forall (fun p => has_byte slash p = false) parts ∧ Forall (fun p => safe_part p = true) parts.

Lemma plain_app a b : plain (a ++ b) ↔ plain a ∧ plain b.
Proof. unfold plain. rewrite !Forall_app. tauto. Qed.

Abbreviation abs_path := (render_path true).

Lemma abs_comps parts : plain parts → path_comps (abs_path parts) = parts ∧ IsAbs (abs_path parts) = true.
Proof.
  intros [Hs Hp]. destruct (decide (parts = [])) as [->|Hne]; [done|]. by apply render_comps.
Qed.

Lemma abs_Clean parts : plain parts → Clean (abs_path parts) = abs_path parts.
Proof. intros Hp. unfold Clean. by destruct (abs_comps parts Hp) as [-> ->]. Qed.

Lemma abs_nonempty parts : abs_path parts ≠ ""%string.
Proof. done. Qed.

Lemma abs_Join parts p :
  plain parts → plain (split_on slash p) →
  Join (abs_path parts) p = abs_path (parts ++ split_on slash p).
Proof.
  intros Hr [Hs Hp]. unfold Join. destruct (String.eqb_spec (abs_path parts) "") as [E|_]; [done|]. simpl negb. cbv iota.
  unfold Clean, path_comps. rewrite split_on_app_sep, IsAbs_app by done.
  rewrite clean_parts_app_safe by done. destruct (abs_comps parts Hr) as [Hc Ha].
  unfold path_comps in Hc. rewrite Ha in *. by rewrite Hc.
Qed.

Lemma join_with_snoc c ps p : ps ≠ [] → join_with c (ps ++ [p]) = join_with c ps +:+ String c p.
Proof.
  induction ps as [|q ps IH]; [done|]. intros _. destruct ps as [|r ps]; [done|].
  change ((q :: r :: ps) ++ [p]) with (q :: (r :: ps) ++ [p]).
  change (join_with c (q :: (r :: ps) ++ [p])) with (q +:+ String c (join_with c ((r :: ps) ++ [p]))).
  rewrite IH by done. change (join_with c (q :: r :: ps)) with (q +:+ String c (join_with c (r :: ps))).
  by rewrite str_app_assoc.
Qed.

Lemma last_index_app c a b : has_byte c b = false →
  last_index_byte c (to_bytes (a +:+ String c b)) = Some (length (to_bytes a)).
Proof.
  intros Hb. induction a as [|x a IH].
  - simpl. assert (Hn : last_index_byte c (to_bytes b) = None).
    { clear -Hb. induction b as [|y b IH]; [done|]. simpl in *. destruct (Ascii.eqb y c); [done|]. by rewrite IH. }
    by rewrite Hn, Ascii.eqb_refl.
  - change (String x a +:+ String c b) with (String x (a +:+ String c b)). cbn [list_ascii_of_string last_index_byte].
    by rewrite IH.
Qed.

Lemma abs_Dir parts c : plain parts → has_byte slash c = false → Dir (abs_path (parts ++ [c])) = abs_path parts.
Proof.
  intros Hp Hc.
  assert (Hsplit : ∃ a, abs_path (parts ++ [c]) = a +:+ String slash c ∧ Clean (a +:+ String slash "") = abs_path parts).
  { destruct (decide (parts = [])) as [->|Hne].
    - exists ""%string. done.
    - exists (abs_path parts). split; [unfold render_path; rewrite join_with_snoc by done; done|].
      unfold Clean, path_comps. rewrite split_on_app_sep, IsAbs_app by done.
      destruct (abs_comps parts Hp) as [Hcmp Ha]. unfold path_comps in Hcmp. rewrite Ha in *.
      unfold clean_parts in *. rewrite foldl_app. cbn [split_on foldl]. unfold clean_step at 1. simpl orb. cbv iota.
      by rewrite Hcmp. }
  destruct Hsplit as (a & Ha & Hclean). unfold Dir. rewrite Ha, last_index_app by done.
  rewrite <- Hclean. f_equal. rewrite to_bytes_app. cbn [list_ascii_of_string].
  replace (S (length (to_bytes a))) with (length (to_bytes a ++ [slash])) by (rewrite length_app; simpl; lia).
  change (slash :: to_bytes c) with ([slash] ++ to_bytes c). rewrite (assoc_L (++)), take_app_length, of_bytes_app.
  by rewrite string_of_list_ascii_of_string.
Qed.

Lemma strip_common_prefix a b : strip_common a (a ++ b) = ([], b).
Proof. induction a as [|x a IH]; [by destruct b|]. simpl. by rewrite String.eqb_refl. Qed.

Lemma abs_path_inj a b : plain a → plain b → abs_path a = abs_path b → a = b.
Proof. intros Ha Hb E. apply abs_comps in Ha as [<- _]. apply abs_comps in Hb as [<- _]. by rewrite E. Qed.

Lemma abs_Rel root dirs :
  plain root → plain dirs →
  Rel (abs_path root) (abs_path (root ++ dirs)) = Some (if decide (dirs = []) then "."%string else join_with slash dirs).
Proof.
  intros Hr Hd. assert (Hrd : plain (root ++ dirs)) by by apply plain_app.
  unfold Rel. rewrite !abs_Clean by done.
  destruct (String.eqb_spec (abs_path (root ++ dirs)) (abs_path root)) as [E|E].
  - apply abs_path_inj in E; [|done..]. assert (dirs = []) as ->; [|done].
    apply (app_inv_head root). by rewrite E, app_nil_r.
  - destruct (abs_comps root Hr) as [-> ->]. destruct (abs_comps _ Hrd) as [-> ->]. simpl.
    rewrite strip_common_prefix. case_decide as Hn; [|done]. subst. by rewrite app_nil_r in E.
Qed.

(** ** Directories on the way *)

Definition dir_at (w : fs) (k : key) : Prop := ∃ m t, entries w !! k = Some (NDir m t).
Definition real_dirs (w : fs) (parts : list string) : Prop :=
  ∀ n, (0 < n ≤ length parts)%nat → dir_at w (take n parts).

Lemma name_comps_abs parts : plain parts → name_comps (abs_path parts) = parts.
Proof.
  intros [Hs Hp]. unfold name_comps, render_path. cbn [split_on]. rewrite Ascii.eqb_refl.
  destruct (decide (parts = [])) as [->|Hne]; [done|]. rewrite split_slash_join by done.
  rewrite filter_cons_False by done. clear Hs Hne. induction Hp as [|p ps Hp _ IH]; [done|].
  unfold safe_part in Hp. bool_prop. rewrite filter_cons_True; [by rewrite IH|].
  by apply negb_true_iff, orb_false_iff.
Qed.

Lemma resolve_abs w parts c :
  plain parts → plain [c] → real_dirs w parts → resolve w false (abs_path (parts ++ [c])) = Ok (parts ++ [c]).
Proof.
  intros Hp Hc Hd. assert (Hpc : plain (parts ++ [c])) by by apply plain_app.
  unfold resolve. destruct (String.eqb_spec (abs_path (parts ++ [c])) "") as [E|_]; [done|].
  destruct (abs_comps _ Hpc) as [_ ->]. rewrite name_comps_abs by done.
  rewrite (walk_dirs max_links w false [] parts [c]); [|by destruct Hp|by intros n Hn; apply Hd].
  apply walk_last. destruct Hc as [_ Hc]. by inversion Hc.
Qed.

Lemma node_at_snoc w parts c : node_at w (parts ++ [c]) = entries w !! (parts ++ [c]).
Proof. unfold node_at. by destruct (parts ++ [c]) eqn:E; [destruct parts|]. Qed.

(** What the loop may change: missing directories below [cur] appear. *)
Definition only_dirs_added (w w' : fs) : Prop :=
  cwd w' = cwd w ∧ inodes w' = inodes w ∧
  ∀ k, entries w' !! k = entries w !! k ∨ (entries w !! k = None ∧ dir_at w' k).

Lemma only_dirs_refl w : only_dirs_added w w.
Proof. split_and!; [done..|]. by left. Qed.

Lemma only_dirs_trans w1 w2 w3 : only_dirs_added w1 w2 → only_dirs_added w2 w3 → only_dirs_added w1 w3.
Proof.
  intros (C1 & I1 & E1) (C2 & I2 & E2). split_and!; [congruence..|]. intros k.
  destruct (E1 k) as [E|[En (m & t & Hd)]], (E2 k) as [E'|[En' Hd']].
  - left. congruence.
  - right. split; [congruence|done].
  - right. split; [done|]. exists m, t. congruence.
  - right. by split.
Qed.

Lemma real_dirs_mono w w' parts : only_dirs_added w w' → real_dirs w parts → real_dirs w' parts.
Proof.
  intros (_ & _ & E) Hr n Hn. destruct (Hr n Hn) as (m & t & Hd).
  destruct (E (take n parts)) as [He|[Hnone _]]; [exists m, t|]; congruence.
Qed.

Lemma real_dirs_snoc w parts c : real_dirs w parts → dir_at w (parts ++ [c]) → real_dirs w (parts ++ [c]).
Proof.
  intros Hr Hd n Hn. rewrite length_app in Hn. simpl in Hn.
  destruct (decide (n ≤ length parts)%nat).
  - rewrite take_app_le by done. apply Hr. lia.
  - by rewrite take_ge by (rewrite length_app; simpl; lia).
Qed.

Lemma lookup_abs w parts c :
  plain parts → plain [c] → real_dirs w parts →
  lookup_path w false (abs_path (parts ++ [c])) =
    match entries w !! (parts ++ [c]) with Some n => Ok (parts ++ [c], n) | None => Err ENOENT end.
Proof.
  intros Hp Hc Hr. unfold lookup_path. rewrite resolve_abs by done. simpl. by rewrite node_at_snoc.
Qed.

Lemma is_dir_node w n : is_dir (node_info w n) = true → ∃ m t, n = NDir m t.
Proof. unfold is_dir. destruct n; simpl; intros Hb; bool_prop; by eauto. Qed.

Lemma make_parents_dirs parts cur w w' u :
  plain cur → plain parts → real_dirs w cur →
  make_parents (abs_path cur) parts w = (Ok u, w') →
  real_dirs w' (cur ++ parts) ∧ only_dirs_added w w'.
Proof.
  revert cur w. induction parts as [|c parts IH]; intros cur w Hcur Hparts Hr Hm; cbn [make_parents] in Hm.
  { io_inv. simplify_eq. rewrite app_nil_r. split; [done|apply only_dirs_refl]. }
  change (c :: parts) with ([c] ++ parts) in Hparts. apply plain_app in Hparts as [Hc Hparts].
  assert (Hcc : plain (cur ++ [c])) by by apply plain_app.
  assert (Hj : Join (abs_path cur) c = abs_path (cur ++ [c])).
  { pose proof Hc as [Hs _]. inversion Hs as [|?? Hs1 _]; subst.
    rewrite abs_Join; [by rewrite split_on_single|done|by rewrite split_on_single]. }
  rewrite Hj in Hm. replace (cur ++ c :: parts) with ((cur ++ [c]) ++ parts) by by rewrite <- (assoc_L (++)).
  remember (abs_path (cur ++ [c])) as pth eqn:Hpth.
  assert (Hres : ∀ v, real_dirs v cur → resolve v false pth = Ok (cur ++ [c])) by (intros; subst; by apply resolve_abs).
  assert (Hlook : ∀ v, real_dirs v cur → lookup_path v false pth =
    match entries v !! (cur ++ [c]) with Some n => Ok (cur ++ [c], n) | None => Err ENOENT end)
    by (intros; subst; by apply lookup_abs).
  unfold mbind, io_bind, attempt, Lstat, stat_with in Hm. rewrite Hlook in Hm by done.
  destruct (entries w !! (cur ++ [c])) as [n|] eqn:En; simpl in Hm.
  - unfold fail_if_io, lift, fail_if in Hm. destruct (is_dir (node_info w n)) eqn:Ed; [|done]. simpl in Hm.
    apply is_dir_node in Ed as (m & t & ->). subst pth. eapply IH; [done..| |exact Hm].
    apply real_dirs_snoc; [done|]. by exists m, t.
  - unfold Mkdir in Hm. rewrite Hres, node_at_snoc, En in Hm by done. simpl in Hm.
    set (w1 := set_entry w (cur ++ [c]) (NDir 493 0)) in *.
    assert (Hw1 : only_dirs_added w w1).
    { split_and!; [done..|]. intros k. simpl. destruct (decide (cur ++ [c] = k)) as [<-|Hk].
      - right. split; [done|]. exists 493, 0. simpl. by rewrite lookup_insert_eq.
      - left. by rewrite lookup_insert_ne. }
    assert (Hr1 : real_dirs w1 (cur ++ [c])).
    { apply real_dirs_snoc; [by eapply real_dirs_mono|]. exists 493, 0. simpl. by rewrite lookup_insert_eq. }
    unfold wrap_io in Hm. rewrite Hlook in Hm by by eapply real_dirs_mono.
    replace (entries w1 !! (cur ++ [c])) with (Some (NDir 493 0)) in Hm by (simpl; by rewrite lookup_insert_eq).
    simpl in Hm. subst pth. destruct (IH _ _ Hcc Hparts Hr1 Hm) as [? ?].
    split; [done|by eapply only_dirs_trans].
Qed.

(** A relative path that starts with an ordinary component does not go up. *)
Lemma not_up s d ds :
  split_on slash s = d :: ds → safe_part d = true →
  String.eqb s "." = false ∧ String.eqb s ".." = false ∧ has_prefix s "../" = false.
Proof.
  intros Hs Hd. split_and!.
  - apply String.eqb_neq. intros ->. simpl in Hs. by injection Hs as <- _.
  - apply String.eqb_neq. intros ->. simpl in Hs. by injection Hs as <- _.
  - unfold has_prefix. destruct (strip_prefix _ _) as [k|] eqn:E; [|done]. exfalso.
    apply strip_prefix_Some in E. apply (f_equal string_of_list_ascii) in E.
    rewrite string_of_list_ascii_of_string, of_bytes_app in E. rewrite E in Hs.
    change (of_bytes (to_bytes "../") +:+ of_bytes k) with (".." +:+ String slash (of_bytes k)) in Hs.
    rewrite split_on_no_byte in Hs by done. by injection Hs as <- _.
Qed.

(** C8: before anything is written for an item, its path is safe: for an output
    directory [root] reached through real directories, a successful
    [ensureSafeParent] only creates missing directories, and the item's path
    then resolves, following no link at all, to the key below [root] that its
    name spells. *)
Theorem ensureSafeParent_contains root name p w w' u :
  plain root → real_dirs w root → safeRelativePath name = Ok p →
  ensureSafeParent (abs_path root) (Join (abs_path root) p) w = (Ok u, w') →
  resolve w' false (Join (abs_path root) p) = Ok (root ++ split_on slash p) ∧
  only_dirs_added w w'.
Proof.
  intros Hroot Hreal Hsafe He. apply safeRelativePath_inv in Hsafe as [(Hne & Hsp & Hns) _].
  assert (Hp : plain (split_on slash p)) by by split.
  rewrite abs_Join in * by done.
  destruct (split_on slash p) as [|c0 l0] eqn:Ep using rev_ind; [done|clear IHl0].
  apply plain_app in Hp as [Hd Hc]. destruct Hc as [Hcs Hcp].
  assert (Hc1 : has_byte slash c0 = false) by by inversion Hcs.
  unfold ensureSafeParent in He. rewrite (assoc_L (++)) in He |- *.
  rewrite abs_Dir in He by (done || by apply plain_app). rewrite abs_Rel in He by done.
  assert (Hcc : plain [c0]) by by split.
  assert (Hdirs : real_dirs w' (root ++ l0) ∧ only_dirs_added w w').
  { case_decide as El.
    - simpl in He. io_inv. simplify_eq. rewrite app_nil_r. split; [done|apply only_dirs_refl].
    - destruct l0 as [|d ds]; [done|].
      assert (Hsplit : split_on slash (join_with slash (d :: ds)) = d :: ds) by (apply split_slash_join; by destruct Hd).
      assert (Hdot : String.eqb (join_with slash (d :: ds)) "." = false ∧
                     String.eqb (join_with slash (d :: ds)) ".." = false ∧
                     has_prefix (join_with slash (d :: ds)) "../" = false).
      { apply (not_up _ _ _ Hsplit). destruct Hd as [_ Hd]. by inversion Hd. }
      destruct Hdot as (E1 & E2 & E3). rewrite E1, E2, E3 in He. cbn [orb] in He. rewrite Hsplit in He. by eapply make_parents_dirs. }
  destruct Hdirs as [Hrd Honly]. split; [|done]. apply resolve_abs; try done. by apply plain_app.
Qed.

Lemma ensureSafeParent_contains_witness :
  let w := MkFS {[ ["o"]%string := NDir 493 0 ]} ∅ 0 [] in
  resolve (snd (ensureSafeParent "/o" "/o/d/a.txt" w)) false "/o/d/a.txt" = Ok ["o"; "d"; "a.txt"]%string.
Proof.
  intros w.
  refine (proj1 (ensureSafeParent_contains ["o"]%string "d/a.txt" "d/a.txt" w _ tt _ _ _ _)).
  - split; repeat constructor.
  - intros [|[|n]] Hn; simpl in Hn; try lia. exists 493, 0. vm_compute. reflexivity.
  - vm_compute. reflexivity.
  - vm_compute. reflexivity.
Defined.
