(* ===== verification/Compression.v ===== *)
(** * Chunk compression ([internal/transfer/compression.go], [encodeChunk])

    The sender compresses a chunk when gzip was negotiated and it pays, and
    gives up on an item whose first chunks do not compress; the receiver
    decodes within a size limit.  Gzip itself is the class [Gzip]. *)
From Stdlib Require Import ZArith Lia Ascii String.
From stdpp Require Import base tactics numbers list gmap strings.
From S2P Require Import Prelude GoStrings Protocol.

(** [gunzip] is what a reader of the stream gets: [None] for a bad header, else
    the bytes up to the end or the first error, and whether it ended well. *)
Class Gzip := {
  gzip : bytes → bytes;
  gunzip : bytes → option (bytes * bool);
  gunzip_gzip data : gunzip (gzip data) = Some (data, true);
}.

Definition compressionGzip : string := "gzip".

Record chunkCompressionState := MkChunkState { attempts : Z; misses : Z; disabled : bool }.
Record CompressionStats := MkCompressionStats { OriginalBytes : Z; WireBytes : Z; CompressedChunks : Z }.

Inductive compression_error :=
  | EncodedTooLarge
  | InvalidGzip
  | DecodedTooLarge
  | GzipNotNegotiated
  | EncodingUnsupported (encoding : string).

Definition maxInt (a b : Z) : Z := if a >? b then a else b.

Definition compressionWorthwhile (original encoded : Z) : bool :=
  if original <? 256 then false
  else
    let minSavings := maxInt 32 (Z.quot original 100) in
    encoded + minSavings <? original.

Section gzip.
Context `{Gzip}.

Definition compressGzipChunk (data : bytes) : bytes := gzip data.

(** [io.ReadAll(io.LimitReader(reader, ChunkSize+1))] stops without an error
    when the limit is reached. *)
Definition decompressGzipChunk (data : bytes) : result compression_error bytes :=
  _ ← fail_if (zlen data >? ChunkSize * 2) EncodedTooLarge;
  match gunzip data with
  | None => Err InvalidGzip
  | Some (out, complete) =>
      let decoded := take (Z.to_nat (ChunkSize + 1)) out in
      _ ← fail_if (negb complete && (zlen out <=? ChunkSize)) InvalidGzip;
      _ ← fail_if (zlen decoded >? ChunkSize) DecodedTooLarge;
      Ok decoded
  end.

Definition decodeTransferChunk (negotiated encoding : string) (data : bytes) : result compression_error bytes :=
  if String.eqb encoding "" then Ok data
  else if String.eqb encoding compressionGzip then
    _ ← fail_if (negb (String.eqb negotiated compressionGzip)) GzipNotNegotiated;
    decompressGzipChunk data
  else Err (EncodingUnsupported encoding).

(** The compression state of a sending session. *)
Record compressor := MkCompressor {
  compressionState : gmap Z chunkCompressionState;
  compressionStats : CompressionStats;
}.
Definition new_compressor : compressor := MkCompressor ∅ (MkCompressionStats 0 0 0).

Definition add_stats (s : CompressionStats) (original wire chunks : Z) : CompressionStats :=
  MkCompressionStats (wrap64 (OriginalBytes s + original)) (wrap64 (WireBytes s + wire))
    (wrap64 (CompressedChunks s + chunks)).

(** [negotiated] is the compression of the first pipe. *)
Definition encodeChunk (negotiated : string) (c : compressor) (itemID : Z) (data : bytes)
    : compressor * (bytes * string) :=
  let plain states := (MkCompressor states (add_stats (compressionStats c) (zlen data) (zlen data) 0), (data, ""%string)) in
  if negb (String.eqb negotiated compressionGzip) then plain (compressionState c)
  else
    let state := default (MkChunkState 0 0 false) (compressionState c !! itemID) in
    let states := <[itemID := state]> (compressionState c) in
    if disabled state then plain states
    else
      let encoded := compressGzipChunk data in
      let attempts := wrap64 (attempts state + 1) in
      if compressionWorthwhile (zlen data) (zlen encoded) then
        (MkCompressor (<[itemID := MkChunkState attempts (misses state) false]> states)
           (add_stats (compressionStats c) (zlen data) (zlen encoded) 1), (encoded, compressionGzip))
      else
        let misses := wrap64 (misses state + 1) in
        plain (<[itemID := MkChunkState attempts misses ((attempts >=? 3) && (misses =? attempts))]> states).

Fixpoint encode_chunks (negotiated : string) (c : compressor) (itemID : Z) (chunks : list bytes)
    : compressor * list (bytes * string) :=
  match chunks with
  | [] => (c, [])
  | data :: chunks =>
      let '(c, e) := encodeChunk negotiated c itemID data in
      let '(c, es) := encode_chunks negotiated c itemID chunks in
      (c, e :: es)
  end.

Lemma compressionWorthwhile_smaller original encoded :
  compressionWorthwhile original encoded = true → encoded + 32 < original.
Proof.
  unfold compressionWorthwhile, maxInt. case_if; [done|]. intros Hw. case_if; bool_prop; lia.
Qed.

Lemma decompress_gzip data :
  zlen (gzip data) ≤ ChunkSize * 2 → zlen data ≤ ChunkSize → decompressGzipChunk (gzip data) = Ok data.
Proof.
  intros He Hd. unfold decompressGzipChunk, fail_if. rewrite Z.gtb_ltb.
  replace (_ <? _) with false by (symmetry; apply Z.ltb_ge; lia). cbn [mbind result_bind].
  rewrite gunzip_gzip. cbn [negb andb]. cbn [mbind result_bind].
  rewrite take_ge by (unfold zlen in *; unfold ChunkSize in *; lia).
  rewrite Z.gtb_ltb. by replace (_ <? _) with false by (symmetry; apply Z.ltb_ge; lia).
Qed.

Lemma encodeChunk_cases negotiated c i data :
  let '(_, (payload, encoding)) := encodeChunk negotiated c i data in
  (payload = data ∧ encoding = ""%string) ∨
  (payload = gzip data ∧ encoding = compressionGzip ∧ negotiated = compressionGzip ∧ zlen payload + 32 < zlen data).
Proof.
  unfold encodeChunk. destruct (String.eqb_spec negotiated compressionGzip); cbn [negb]; [|by left].
  cbv zeta. case_if; [by left|]. case_if; [|by left]. right. split_and!; try done.
  by apply compressionWorthwhile_smaller.
Qed.

Lemma decode_encodeChunk negotiated c i data :
  zlen data ≤ ChunkSize →
  let '(_, (payload, encoding)) := encodeChunk negotiated c i data in
  decodeTransferChunk negotiated encoding payload = Ok data ∧ zlen payload ≤ zlen data.
Proof.
  intros Hd. pose proof (encodeChunk_cases negotiated c i data) as Hc.
  destruct (encodeChunk negotiated c i data) as [c' [payload encoding]].
  destruct Hc as [[-> ->]|(-> & -> & -> & Hs)]; [by split|].
  unfold decodeTransferChunk. cbn. split; [|lia]. apply decompress_gzip; [unfold ChunkSize in *; lia|done].
Qed.

(** The counters of one item never overflow: a miss streak of three stops them. *)
Definition state_ok (s : chunkCompressionState) : Prop := 0 ≤ misses s ≤ attempts s.

(** What the sender encodes the receiver decodes to the same chunks, for any
    sequence of chunks of at most the protocol's chunk size and any state of the
    compressor; no chunk grows on the wire, and nothing is compressed unless
    gzip was negotiated. *)
Theorem compression_roundtrip negotiated c i chunks :
  Forall (fun d => zlen d ≤ ChunkSize) chunks →
  let encoded := snd (encode_chunks negotiated c i chunks) in
  Forall2 (fun data '(payload, encoding) =>
    decodeTransferChunk negotiated encoding payload = Ok data ∧ zlen payload ≤ zlen data ∧
    (negotiated ≠ compressionGzip → payload = data)) chunks encoded.
Proof.
  intros Hc. revert c. induction Hc as [|data chunks Hd Hc IH]; intros c; [constructor|]. cbn [encode_chunks].
  pose proof (decode_encodeChunk negotiated c i data Hd) as H1. pose proof (encodeChunk_cases negotiated c i data) as H2.
  destruct (encodeChunk negotiated c i data) as [c1 [payload encoding]]. specialize (IH c1).
  destruct (encode_chunks negotiated c1 i chunks) as [c2 es]. cbn [snd] in *. constructor; [|done].
  destruct H1. split_and!; [done|done|]. intros Hn. destruct H2 as [[-> _]|(_ & _ & ? & _)]; done.
Qed.

(** A chunk above the chunk size that compresses well is refused by the
    receiver: [SendText] sends its whole text as one chunk. *)
Lemma large_chunk_refused c i data :
  zlen data > ChunkSize → compressionWorthwhile (zlen data) (zlen (gzip data)) = true →
  compressionState c !! i = None →
  ∃ e, decodeTransferChunk compressionGzip (snd (snd (encodeChunk compressionGzip c i data)))
         (fst (snd (encodeChunk compressionGzip c i data))) = Err e.
Proof.
  intros Hd Hw Hi. unfold encodeChunk, compressGzipChunk. rewrite Hi. change (negb (String.eqb compressionGzip compressionGzip)) with false.
  cbv zeta. cbn [default disabled attempts misses]. rewrite Hw. cbn [fst snd].
  unfold decodeTransferChunk. change (String.eqb compressionGzip "") with false.
  change (String.eqb compressionGzip compressionGzip) with true. cbn [negb fail_if mbind result_bind].
  unfold decompressGzipChunk, fail_if. case_if; cbn [mbind result_bind]; [by eexists|].
  rewrite gunzip_gzip. cbn [negb andb mbind result_bind].
  assert (zlen (take (Z.to_nat (ChunkSize + 1)) data) >? ChunkSize = true) as ->; [|by eexists].
  apply Z.gtb_lt. unfold zlen in *. rewrite length_take. unfold ChunkSize in *. lia.
Qed.
End gzip.

(** A concrete instance for the examples: a run of one byte becomes the byte and
    a count in unary blocks of 64. *)
Definition demo_gzip_bytes (d : bytes) : bytes :=
  match d with
  | c :: _ =>
      if bool_decide (d = replicate (length d) c) && bool_decide (64 ≤ length d)%nat
      then "r"%char :: c :: replicate (length d `div` 64) "+"%char ++ replicate (length d `mod` 64) "."%char
      else "x"%char :: d
  | [] => ["x"%char]
  end.
Definition demo_gunzip (l : bytes) : option (bytes * bool) :=
  match l with
  | "x"%char :: d => Some (d, true)
  | "r"%char :: c :: marks =>
      Some (replicate (64 * length (List.filter (Ascii.eqb "+") marks) + length (List.filter (Ascii.eqb ".") marks)) c, true)
  | _ => None
  end.

Lemma filter_replicate (f : ascii → bool) n c : List.filter f (replicate n c) = if f c then replicate n c else [].
Proof. induction n as [|n IH]; cbn; [by destruct (f c)|]. rewrite IH. by destruct (f c). Qed.

Lemma demo_gunzip_gzip d : demo_gunzip (demo_gzip_bytes d) = Some (d, true).
Proof.
  destruct d as [|c d]; [done|]. unfold demo_gzip_bytes. case_if; [|done]. apply andb_true_iff in Heqb as [Hr%bool_decide_eq_true _]. cbn [demo_gunzip].
  rewrite !List.filter_app, !filter_replicate.
  change (Ascii.eqb "+" "+") with true. change (Ascii.eqb "." ".") with true.
  change (Ascii.eqb "+" ".") with false. change (Ascii.eqb "." "+") with false. cbv iota. cbn [app].
  rewrite app_nil_r, !length_replicate. do 2 f_equal.
  transitivity (replicate (length (c :: d)) c); [|done]. f_equal.
  rewrite length_cons. pose proof (Nat.div_mod_eq (S (length d)) 64). lia.
Qed.

Definition demo_gzip : Gzip := {| gzip := demo_gzip_bytes; gunzip := demo_gunzip; gunzip_gzip := demo_gunzip_gzip |}.

Lemma compression_roundtrip_witness :
  let Hg := demo_gzip in
  let chunks := [to_bytes "abc"; replicate 300 "z"%char] in
  let encoded := snd (encode_chunks "gzip" new_compressor 0 chunks) in
  snd <$> encoded = [""; "gzip"]%string ∧
  Forall2 (fun data '(payload, encoding) =>
    decodeTransferChunk "gzip" encoding payload = Ok data ∧ zlen payload ≤ zlen data ∧
    (("gzip" ≠ compressionGzip)%string → payload = data)) chunks encoded.
Proof.
  intros Hg chunks encoded. split; [vm_compute; reflexivity|].
  apply (compression_roundtrip "gzip" new_compressor 0 chunks).
  repeat (constructor; [vm_compute; discriminate|]). constructor.
Defined.
