(* ===== verification/TransferHello.v ===== *)
(** * The hello exchange ([internal/transfer/session.go], first part)

    Sender and receiver agree on the number of connections, the compression and
    the features over the first channel, and derive one pair of keys per
    connection.  Both are processes over that channel; the connections are
    numbered, and the channels left unused are closed. *)
From Stdlib Require Import ZArith Lia Ascii String FunctionalExtensionality.
From stdpp Require Import base tactics numbers list gmap strings countable relations.
From S2P Require Import Prelude GoStrings Json Transport Secure Process Protocol Compression.

Record helloMessage := MkHello {
  HelloType : string;
  HelloVersion : Z;
  HelloSenderNonce : string;
  HelloReceiverNonce : string;
  Compressions : list string;
  HelloCompression : string;
  HelloConnections : Z;
  Features : list string;
}.

Definition featureChunkStriping : string := "chunk-striping".
Definition featureDeferredFileSHA256 : string := "deferred-file-sha256".

Record securePipe := MkPipe {
  index : Z;
  sendSession : Secure.Session;
  recvSession : Secure.Session;
  nextSeq : Z;     (* uint64 *)
  recvSeq : Z;     (* uint64 *)
  compression : string;
  pstriping : bool;
  pdeferred : bool;
}.

Inductive hello_error :=
  | HClosed
  | HTransport (e : transport_error)
  | HDecode
  | HType (got want : string)
  | HVersion (v : Z)
  | HSenderNonce
  | HReceiverNonce
  | HCompression (c : string)
  | HSelectedCompression (c : string)
  | HSelectedFeature (f : string)
  | HSelectedConnections (n have : Z).

Definition hello_utf8 (h : helloMessage) : Prop :=
  Forall (fun s => utf8_valid s = true)
    (HelloType h :: HelloSenderNonce h :: HelloReceiverNonce h :: HelloCompression h :: Compressions h ++ Features h).

Definition normalizedConnectionCount (count : Z) : Z := if count <=? 0 then 1 else count.

Definition channelKeyInfo (direction : string) (index : Z) : string :=
  if index =? 0 then "kigo-v1 " +:+ direction +:+ " aes-128-gcm"
  else "kigo-v1 " +:+ direction +:+ " channel-" +:+ Itoa index +:+ " aes-128-gcm".

Definition selectCompression (offered : list string) : string :=
  if containsString offered compressionGzip then compressionGzip else "".

Definition selectFeatures (offered : list string) (connectionCount : Z) : list string :=
  (if (connectionCount >? 1) && containsString offered featureChunkStriping then [featureChunkStriping] else []) ++
  (if containsString offered featureDeferredFileSHA256 then [featureDeferredFileSHA256] else []).

Definition validateHello (m : helloMessage) (wantType : string) : result hello_error unit :=
  _ ← fail_if (negb (String.eqb (HelloType m) wantType)) (HType (HelloType m) wantType);
  _ ← fail_if (negb (HelloVersion m =? Version)) (HVersion (HelloVersion m));
  if String.eqb wantType "hello" then fail_if (String.eqb (HelloSenderNonce m) "") HSenderNonce
  else if String.eqb wantType "hello_ack" then
    _ ← fail_if (String.eqb (HelloReceiverNonce m) "") HReceiverNonce;
    fail_if (negb (String.eqb (HelloCompression m) "") && negb (String.eqb (HelloCompression m) compressionGzip))
      (HCompression (HelloCompression m))
  else Ok tt.

(** The loop over the features the receiver selected. *)
Fixpoint check_features (offered selected : list string) : result hello_error unit :=
  match selected with
  | [] => Ok tt
  | feature :: selected =>
      _ ← fail_if (negb (containsString offered feature)) (HSelectedFeature feature);
      check_features offered selected
  end.

Section hello.
Context `{CaseTables} `{Crypto} `{JSON helloMessage hello_utf8}.

Definition newSecurePipe (i : Z) (code senderNonce receiverNonce : string) (sender : bool) (compression : string)
    (striping deferred : bool) : securePipe :=
  let '(sendDirection, recvDirection) :=
    if sender then ("sender-to-receiver", "receiver-to-sender")%string
    else ("receiver-to-sender", "sender-to-receiver")%string in
  MkPipe i (NewSessionWithInfo code senderNonce receiverNonce (channelKeyInfo sendDirection i))
         (NewSessionWithInfo code senderNonce receiverNonce (channelKeyInfo recvDirection i))
         0 0 compression striping deferred.

Definition new_pipes (n : Z) (code senderNonce receiverNonce : string) (sender : bool) (compression : string)
    (striping deferred : bool) : list securePipe :=
  (fun i => newSecurePipe (Z.of_nat i) code senderNonce receiverNonce sender compression striping deferred)
    <$> seq 0 (Z.to_nat n).

(** The channels [channels[used:]], by number. *)
Definition closeUnusedChannels (channels used : Z) : list nat := seq (Z.to_nat used) (Z.to_nat (channels - used)).

Definition hello_sendPlain (m : helloMessage) : sproc unit hello_error unit := transport_send HTransport (Marshal m).
Definition hello_recvPlain : sproc unit hello_error helloMessage := fun s =>
  RecvMsg (fun r => Ret (s,
    match r with
    | Err e => Err (HTransport e)
    | Ok payload => match Unmarshal payload with Some m => Ok m | None => Err HDecode end
    end)).

Definition offered_compressions : list string := [compressionGzip].
Definition offered_features : list string := [featureChunkStriping; featureDeferredFileSHA256].

(** [channels] is [len(transport.Channels(t))], [nonce] what [secure.RandomNonce]
    draws.  Returned: the pipes and the channels closed. *)
Definition initSenderPipes (channels : Z) (code nonce : string) : sproc unit hello_error (list securePipe * list nat) :=
  _ ← fail_if_proc (channels =? 0) HClosed;
  _ ← hello_sendPlain (MkHello "hello" Version nonce "" offered_compressions "" channels offered_features);
  ack ← hello_recvPlain;
  _ ← lift_result (validateHello ack "hello_ack");
  _ ← fail_if_proc (negb (String.eqb (HelloCompression ack) "") &&
                    negb (containsString offered_compressions (HelloCompression ack)))
        (HSelectedCompression (HelloCompression ack));
  _ ← lift_result (check_features offered_features (Features ack));
  let connectionCount := normalizedConnectionCount (HelloConnections ack) in
  _ ← fail_if_proc (connectionCount >? channels) (HSelectedConnections connectionCount channels);
  let striping := (connectionCount >? 1) && containsString (Features ack) featureChunkStriping in
  let deferred := containsString (Features ack) featureDeferredFileSHA256 in
  mret (new_pipes connectionCount code nonce (HelloReceiverNonce ack) true (HelloCompression ack) striping deferred,
        closeUnusedChannels channels connectionCount).

Definition initReceiverPipes (channels : Z) (code nonce : string) : sproc unit hello_error (list securePipe * list nat) :=
  _ ← fail_if_proc (channels =? 0) HClosed;
  hello ← hello_recvPlain;
  _ ← lift_result (validateHello hello "hello");
  let compression := selectCompression (Compressions hello) in
  let connectionCount := Z.min (normalizedConnectionCount (HelloConnections hello)) channels in
  let features := selectFeatures (Features hello) connectionCount in
  _ ← hello_sendPlain (MkHello "hello_ack" Version "" nonce [] compression connectionCount features);
  mret (new_pipes connectionCount code (HelloSenderNonce hello) nonce false compression
          (containsString features featureChunkStriping) (containsString features featureDeferredFileSHA256),
        closeUnusedChannels channels connectionCount).

(** ** Agreement *)

(** The two ends of one connection. *)
Definition pipe_linked (a b : securePipe) : Prop :=
  index a = index b ∧ sendSession a = recvSession b ∧ recvSession a = sendSession b ∧
  nextSeq a = recvSeq b ∧ recvSeq a = nextSeq b ∧ compression a = compression b ∧
  pstriping a = pstriping b ∧ pdeferred a = pdeferred b.

Definition sender_hello (nonce : string) (channels : Z) : helloMessage :=
  MkHello "hello" Version nonce "" offered_compressions "" channels offered_features.
Definition receiver_ack (nonce : string) (count : Z) : helloMessage :=
  MkHello "hello_ack" Version "" nonce [] compressionGzip count
    ((if count >? 1 then [featureChunkStriping] else []) ++ [featureDeferredFileSHA256]).

Lemma hello_recv_bind {X} (s : unit) (k : unit * result hello_error helloMessage → proc X) :
  hello_recvPlain s ≫= k = RecvMsg (fun r => k (s,
    match r with
    | Err e => Err (HTransport e)
    | Ok payload => match Unmarshal payload with Some m => Ok m | None => Err HDecode end
    end)).
Proof. done. Qed.

Lemma new_pipes_linked n code code' sn rn c st d :
  NormalizeCode code = NormalizeCode code' →
  Forall2 pipe_linked (new_pipes n code sn rn true c st d) (new_pipes n code' sn rn false c st d).
Proof.
  intros Hn. unfold new_pipes. apply Forall2_fmap_2. apply Forall_Forall2_diag, Forall_forall.
  intros i _. unfold newSecurePipe, NewSessionWithInfo. rewrite Hn. done.
Qed.

Lemma striping_selected count :
  containsString ((if count >? 1 then [featureChunkStriping] else []) ++ [featureDeferredFileSHA256]) featureChunkStriping
  = (count >? 1).
Proof. by destruct (count >? 1). Qed.
Lemma deferred_selected count :
  containsString ((if count >? 1 then [featureChunkStriping] else []) ++ [featureDeferredFileSHA256]) featureDeferredFileSHA256
  = true.
Proof. by destruct (count >? 1). Qed.

(** The keys of different connections or directions are derived from different
    labels. *)
Definition direction (d : bool) : string := if d then "sender-to-receiver" else "receiver-to-sender".

Lemma channelKeyInfo_inj d i d' j :
  in_int64 i → in_int64 j →
  channelKeyInfo (direction d) i = channelKeyInfo (direction d') j → d = d' ∧ i = j.
Proof.
  intros Hi Hj. unfold channelKeyInfo. destruct (i =? 0) eqn:Ei, (j =? 0) eqn:Ej; bool_prop.
  - destruct d, d'; intros E; try discriminate E; by split; [|lia].
  - destruct d, d'; intros E; discriminate E.
  - destruct d, d'; intros E; discriminate E.
  - destruct d, d'; intros E; try discriminate E; (split; [done|]);
      do 2 apply string_app_inj_l in E; apply string_app_inj_l in E; apply string_app_inj_r in E; by apply Itoa_inj.
Qed.

(** A sender and a receiver with the same code finish the hello exchange,
    whatever the interleaving, with the same number of connections, the smaller
    of what both have, linked pairwise under keys labelled differently for
    every connection and direction, striping exactly when there are several;
    each closes its other channels. *)
Theorem hello_agrees sc rc code code' sn rn :
  1 ≤ sc → 1 ≤ rc → NormalizeCode code = NormalizeCode code' →
  sn ≠ ""%string → rn ≠ ""%string → utf8_valid sn = true → utf8_valid rn = true →
  let count := Z.min sc rc in
  ∃ ps qs,
    always_ends (MkConfig (initSenderPipes sc code sn tt) (initReceiverPipes rc code' rn tt) [] [])
      (tt, Ok (ps, closeUnusedChannels sc count)) (tt, Ok (qs, closeUnusedChannels rc count)) ∧
    Forall2 pipe_linked ps qs ∧ zlen ps = count ∧ index <$> ps = Z.of_nat <$> seq 0 (Z.to_nat count) ∧
    Forall (fun p => compression p = compressionGzip ∧ pstriping p = (count >? 1) ∧ pdeferred p = true ∧
                     nextSeq p = 0 ∧ recvSeq p = 0) ps ∧
    (∀ d i d' j, in_int64 i → in_int64 j → (d, i) ≠ (d', j) →
       channelKeyInfo (direction d) i ≠ channelKeyInfo (direction d') j).
Proof.
  intros Hs Hr Hn Hsn Hrn Hus Hur count.
  exists (new_pipes count code sn rn true compressionGzip (count >? 1) true),
         (new_pipes count code' sn rn false compressionGzip (count >? 1) true).
  assert (Hc : normalizedConnectionCount sc = sc ∧ normalizedConnectionCount count = count).
  { unfold normalizedConnectionCount. split; case_if; bool_prop; subst count; lia. }
  destruct Hc as [Hc1 Hc2].
  split.
  2:{ split_and!; [by apply new_pipes_linked| | | |].
      - unfold zlen, new_pipes. rewrite length_fmap, length_seq. subst count. lia.
      - unfold new_pipes. rewrite <- list_fmap_compose. apply list_fmap_ext. done.
      - unfold new_pipes. apply Forall_fmap, Forall_forall. done.
      - intros d i d' j Hi Hj Hne E. apply Hne. apply channelKeyInfo_inj in E as [-> ->]; done. }
  apply rtc_always_ends.
  rewrite <- (proc_bind_ret (initSenderPipes sc code sn tt)), <- (proc_bind_ret (initReceiverPipes rc code' rn tt)).
  unfold initSenderPipes, initReceiverPipes, fail_if_proc.
  replace (sc =? 0) with false by (symmetry; apply Z.eqb_neq; lia).
  replace (rc =? 0) with false by (symmetry; apply Z.eqb_neq; lia). cbn [fail_if].
  rewrite !sproc_bind_eq, !lift_bind, !sproc_bind_eq, hello_recv_bind. unfold hello_sendPlain at 1. rewrite send_bind.
  apply rtc_deliver_ab. rewrite Unmarshal_Marshal by (repeat constructor; done). cbv beta iota.
  rewrite !sproc_bind_eq, hello_recv_bind, lift_bind.
  assert (E1 : validateHello (sender_hello sn sc) "hello" = Ok tt).
  { unfold validateHello. simpl. unfold fail_if. by destruct (String.eqb_spec sn ""). }
  fold (sender_hello sn sc). rewrite E1. cbv beta iota zeta. cbn [Compressions HelloConnections Features sender_hello HelloSenderNonce].
  rewrite Hc1. fold count. change (selectCompression offered_compressions) with compressionGzip.
  assert (Ef : selectFeatures offered_features count =
    (if count >? 1 then [featureChunkStriping] else []) ++ [featureDeferredFileSHA256]).
  { unfold selectFeatures. by destruct (count >? 1). }
  rewrite Ef, striping_selected, deferred_selected. rewrite sproc_bind_eq. unfold hello_sendPlain. rewrite send_bind.
  apply rtc_deliver_ba. rewrite Unmarshal_Marshal.
  2:{ unfold hello_utf8. cbn. destruct (count >? 1); repeat constructor; done. }
  fold (receiver_ack rn count). cbv beta iota.
  assert (E2 : validateHello (receiver_ack rn count) "hello_ack" = Ok tt).
  { unfold validateHello. simpl. unfold fail_if. by destruct (String.eqb_spec rn ""). }
  rewrite !sproc_bind_eq, lift_bind, E2. cbv beta iota.
  rewrite sproc_bind_eq. cbn [receiver_ack HelloCompression Features HelloConnections HelloReceiverNonce].
  change (negb (String.eqb compressionGzip "") && negb (containsString offered_compressions compressionGzip)) with false.
  cbn [fail_if]. rewrite lift_bind. cbv beta iota. rewrite sproc_bind_eq, lift_bind.
  assert (E3 : check_features offered_features ((if count >? 1 then [featureChunkStriping] else []) ++ [featureDeferredFileSHA256]) = Ok tt)
    by (by destruct (count >? 1)).
  rewrite E3. cbv beta iota zeta. rewrite Hc2, sproc_bind_eq.
  replace (count >? sc) with false by (symmetry; rewrite Z.gtb_ltb; apply Z.ltb_ge; subst count; lia).
  cbn [fail_if]. rewrite lift_bind. cbv beta iota. rewrite striping_selected, deferred_selected.
  by rewrite andb_diag.
Qed.
End hello.

(** ** Example *)

Definition hello_fields (h : helloMessage) : list bytes :=
  to_bytes (HelloType h) :: num_field (HelloVersion h) :: to_bytes (HelloSenderNonce h) ::
  to_bytes (HelloReceiverNonce h) :: to_bytes (HelloCompression h) :: num_field (HelloConnections h) ::
  num_field (zlen (Compressions h)) :: ((fun s => to_bytes s) <$> Compressions h) ++ ((fun s => to_bytes s) <$> Features h).
Definition fields_hello (l : list bytes) : option helloMessage :=
  match l with
  | ty :: v :: sn :: rn :: c :: n :: k :: rest =>
      v ← field_num v; n ← field_num n; k ← field_num k;
      let rest := (fun b => of_bytes b) <$> rest in
      Some (MkHello (of_bytes ty) v (of_bytes sn) (of_bytes rn) (take (Z.to_nat k) rest) (of_bytes c) n
              (drop (Z.to_nat k) rest))
  | _ => None
  end.

Lemma of_to_bytes (l : list string) : (fun b => of_bytes b) <$> ((fun s => to_bytes s) <$> l) = l.
Proof.
  rewrite <- list_fmap_compose. induction l as [|s l IH]; [done|]. cbn. f_equal; [|exact IH].
  apply string_of_list_ascii_of_string.
Qed.

Lemma hello_fields_law h : fields_hello (hello_fields h) = Some h.
Proof.
  destruct h as [ty v sn rn cs c n fs]. unfold hello_fields, fields_hello. cbn [HelloType HelloVersion
    HelloSenderNonce HelloReceiverNonce Compressions HelloCompression HelloConnections Features].
  rewrite !field_num_field. cbn [mbind option_bind]. rewrite fmap_app, !of_to_bytes.
  unfold zlen. rewrite Nat2Z.id, take_app_length, drop_app_length.
  by rewrite !string_of_list_ascii_of_string.
Qed.

Definition demo_hello_json : JSON helloMessage hello_utf8 :=
  fields_json hello_utf8 hello_fields fields_hello hello_fields_law.

Lemma hello_agrees_witness :
  let Ht := ascii_tables in let Hc := tagged_crypto in let Hj := demo_hello_json in
  ∃ ps qs, always_ends (MkConfig (initSenderPipes 3 "ab2-c3d" "n1" tt) (initReceiverPipes 2 "AB2C3D" "n2" tt) [] [])
      (tt, Ok (ps, [2%nat])) (tt, Ok (qs, [])) ∧ Forall2 pipe_linked ps qs ∧ zlen ps = 2.
Proof.
  intros Ht Hc Hj.
  destruct (hello_agrees 3 2 "ab2-c3d" "AB2C3D" "n1" "n2") as (ps & qs & He & Hl & Hn & _);
    [lia|lia|by vm_compute|discriminate|discriminate|by vm_compute|by vm_compute|].
  exists ps, qs. split_and!; [exact He|done|done].
Defined.
