(* ===== verification/TransferSession.v ===== *)
(** * Transfer sessions ([internal/transfer/session.go])

    A session numbers and encrypts the messages of every connection, merges the
    incoming connections, checks each message against the manifest and turns it
    into an event.  The pipe goroutines deliver into one channel; what they
    deliver is the argument [inbox], in the order of arrival, which any
    interleaving of the connections can be. *)
From Stdlib Require Import ZArith Lia Ascii String.
From stdpp Require Import base tactics numbers list gmap strings.
From S2P Require Import Prelude GoStrings Json Base64 Transport Secure Protocol Ranges Mux ManifestCheck Compression TransferHello.

Record tenvelope := MkTEnvelope { TVersion : Z; TSeq : Z; TBody : string }.
Definition tenvelope_utf8 (e : tenvelope) : Prop := utf8_valid (TBody e) = true.

Definition item_utf8 (i : Item) : Prop :=
  Forall (fun s => utf8_valid s = true) [Kind i; Name i; SHA256 i; SampleSHA256 i; Target i].
Definition entry_utf8 (e : ResumeEntry) : Prop :=
  Forall (fun s => utf8_valid s = true) [REPrefixSHA256 e; RESHA256 e].
Definition message_utf8 (m : Message) : Prop :=
  Forall (fun s => utf8_valid s = true) [MType m; MData m; MEncoding m; MError m; MExtra m] ∧
  match MManifest m with Some man => Forall item_utf8 (Items man) | None => True end ∧
  Forall entry_utf8 (MResume m).

Inductive session_error :=
  | TClosed
  | TTransport (e : transport_error)
  | TDecode
  | TEnvelopeVersion (v : Z)
  | TSequence (got want : Z)
  | TBodyEncoding
  | TDecrypt (e : code_error)
  | TMissingManifest
  | TManifestTwice
  | TBeforeManifest (ty : string)
  | TMux (e : mux_error)
  | TDataEncoding
  | TCompression (e : compression_error)
  | TChunk (e : manifest_error)
  | TRange (name : string) (e : range_error)
  | TUnknownType (ty : string)
  | TChannel (ty : string) (item conn : Z)
  | TRemote (text : string)
  | TExpected (what got : string)
  | TDuplicateEntry (item : Z)
  | TNoBinding (item : Z)
  | TItemRange (item : Z)
  | TBeforeSendManifest
  | IndexPanic.       (* a Go index out of range *)

Record receivedPipeMessage := MkReceived { pipeIndex : Z; content : result session_error Message }.

(** The fields the sending methods use. *)
Record sending := MkSending {
  sendManifest : option Manifest;
  sendPlan : option Plan;
  chunkCompressor : compressor;
  sendChunkCursor : gmap Z Z;
}.

(** The fields the receiving methods use; [receiveStreams] is nil before the
    manifest. *)
Record receiving := MkReceiving {
  receiveManifest : option Manifest;
  receivePlan : option Plan;
  receiveStreams : Tracker;
  deferredMessages : list receivedPipeMessage;
  pendingDone : bool;
  receiveEnded : Z;
  receiveCoverage : gmap Z byteRanges;
}.

Record TransferSession := MkSession {
  pipes : list securePipe;
  striping : bool;
  deferredFileSHA256 : bool;
  pathWeights : list Z;
  tx : sending;
  rx : receiving;
}.

Definition with_tx (s : TransferSession) (t : sending) : TransferSession :=
  MkSession (pipes s) (striping s) (deferredFileSHA256 s) (pathWeights s) t (rx s).
Definition with_rx (s : TransferSession) (r : receiving) : TransferSession :=
  MkSession (pipes s) (striping s) (deferredFileSHA256 s) (pathWeights s) (tx s) r.
Definition with_deferred (r : receiving) (d : list receivedPipeMessage) : receiving :=
  MkReceiving (receiveManifest r) (receivePlan r) (receiveStreams r) d (pendingDone r) (receiveEnded r) (receiveCoverage r).
Definition with_pendingDone (r : receiving) (b : bool) : receiving :=
  MkReceiving (receiveManifest r) (receivePlan r) (receiveStreams r) (deferredMessages r) b (receiveEnded r) (receiveCoverage r).
Definition with_streams (r : receiving) (t : Tracker) (ended : Z) : receiving :=
  MkReceiving (receiveManifest r) (receivePlan r) t (deferredMessages r) (pendingDone r) ended (receiveCoverage r).
Definition with_coverage (r : receiving) (c : gmap Z byteRanges) : receiving :=
  MkReceiving (receiveManifest r) (receivePlan r) (receiveStreams r) (deferredMessages r) (pendingDone r) (receiveEnded r) c.

(** The flags of the first pipe are the session's. *)
Definition newTransferSessionWithPipes (ps : list securePipe) (weights : list Z) : TransferSession :=
  MkSession ps
    (match ps with p :: _ => pstriping p | [] => false end)
    (match ps with p :: _ => pdeferred p | [] => false end) weights
    (MkSending None None new_compressor ∅)
    (MkReceiving None None (NewTracker None) [] false 0 ∅).

Definition session_compression (s : TransferSession) : string :=
  match pipes s with p :: _ => compression p | [] => "" end.

(** ** Which connection carries what *)

(** [s.pipes[1+itemID%(len(s.pipes)-1)]], with Go's remainder and bounds check. *)
Definition data_pipe (s : TransferSession) (k : Z) : result session_error securePipe :=
  match zlookup (pipes s) (1 + Z.rem k (zlen (pipes s) - 1)) with
  | Some p => Ok p
  | None => Err IndexPanic
  end.

Definition pipeForItem (s : TransferSession) (itemID : Z) : result session_error securePipe :=
  if zlen (pipes s) <=? 1 then
    match pipes s with p :: _ => Ok p | [] => Err IndexPanic end
  else data_pipe s itemID.

Definition chunkPipeForItem (s : TransferSession) (itemID : Z) : result session_error (securePipe * TransferSession) :=
  if negb (striping s) || (zlen (pipes s) <=? 1) then p ← pipeForItem s itemID; Ok (p, s)
  else
    let cursor := default itemID (sendChunkCursor (tx s) !! itemID) in
    p ← data_pipe s cursor;
    Ok (p, with_tx s (MkSending (sendManifest (tx s)) (sendPlan (tx s)) (chunkCompressor (tx s))
                        (<[itemID := wrap64 (cursor + 1)]> (sendChunkCursor (tx s))))).

Definition validateMessageChannel (s : TransferSession) (conn : Z) (m : Message) : result session_error unit :=
  let on_item_pipe :=
    expected ← pipeForItem s (MItem m);
    fail_if (negb (conn =? index expected)) (TChannel (MType m) (MItem m) conn) in
  if String.eqb (MType m) "chunk" then
    if striping s && (zlen (pipes s) >? 1) then
      fail_if ((conn =? 0) || (conn >=? zlen (pipes s))) (TChannel (MType m) (MItem m) conn)
    else on_item_pipe
  else if String.eqb (MType m) "stream_open" || String.eqb (MType m) "stream_end" then on_item_pipe
  else fail_if (negb (conn =? 0)) (TChannel (MType m) 0 conn).

Section session.
Context `{CaseTables} `{Crypto} `{Gzip} `{JSON Message message_utf8} `{JSON tenvelope tenvelope_utf8}.

(** ** Messages on one connection *)

(** [sendMessage] up to the payload for [p.t.Send]. *)
Definition sendMessage (p : securePipe) (m : Message) : securePipe * bytes :=
  let plain := Marshal m in
  let seq := nextSeq p in
  let ciphertext := gcm_seal (aead_key (sendSession p)) (session_nonce (sendSession p) seq) plain (aad seq) in
  (MkPipe (index p) (sendSession p) (recvSession p) (wrapu64 (seq + 1)) (recvSeq p) (compression p) (pstriping p) (pdeferred p),
   Marshal (MkTEnvelope Version seq (EncodeToString ciphertext))).

(** [recvMessage] from the payload [p.t.Recv] returned. *)
Definition recvMessage (p : securePipe) (payload : bytes) : result session_error (Message * securePipe) :=
  match Unmarshal payload with
  | None => Err TDecode
  | Some env =>
      _ ← fail_if (negb (TVersion env =? Version)) (TEnvelopeVersion (TVersion env));
      _ ← fail_if (negb (TSeq env =? recvSeq p)) (TSequence (TSeq env) (recvSeq p));
      match DecodeString (TBody env) with
      | None => Err TBodyEncoding
      | Some ciphertext =>
          plain ← wrap_err TDecrypt (Decrypt (Some (recvSession p)) (TSeq env) ciphertext);
          match Unmarshal plain with
          | None => Err TDecode
          | Some m =>
              Ok (m, MkPipe (index p) (sendSession p) (recvSession p) (nextSeq p) (wrapu64 (recvSeq p + 1))
                       (compression p) (pstriping p) (pdeferred p))
          end
      end
  end.

(** The goroutine [receivePipe]: deliver until the first error, which is
    delivered too. *)
Fixpoint receivePipe (p : securePipe) (payloads : list (result transport_error bytes)) : list receivedPipeMessage :=
  match payloads with
  | [] => []
  | Err e :: _ => [MkReceived (index p) (Err (TTransport e))]
  | Ok payload :: payloads =>
      match recvMessage p payload with
      | Ok (m, p') => MkReceived (index p) (Ok m) :: receivePipe p' payloads
      | Err e => [MkReceived (index p) (Err e)]
      end
  end.

(** ** Events *)

Inductive TransferEvent :=
  | EventManifest (m : Manifest)
  | EventResume (entries : list ResumeEntry)
  | EventResumeAccept (entries : list ResumeEntry)
  | EventStreamOpen (stream item : Z)
  | EventChunk (stream item offset : Z) (data : bytes)
  | EventStreamEnd (stream item : Z)
  | EventDone
  | EventComplete
  | EventError (text : string).

Definition coverage_at (r : receiving) (item : Z) : byteRanges := default [] (receiveCoverage r !! item).

Definition items_ready (r : receiving) (items : list Item) (from : nat) : bool :=
  forallb (fun '(i, it) =>
    match receiveCoverage r !! Z.of_nat i with
    | Some ranges => byteRanges_Complete (Some ranges) (Size it)
    | None => false
    end) (zip (seq from (length items)) items).

Definition receiveReady (r : receiving) : bool :=
  match receiveManifest r with
  | None => false
  | Some m => (receiveEnded r =? zlen (Items m)) && items_ready r (Items m) 0
  end.

Definition fresh_coverage (n : nat) : gmap Z byteRanges :=
  list_to_map ((fun i => (Z.of_nat i, newByteRanges 0)) <$> seq 0 n).

(** The switch of [ReceiveEvent] on the message type. *)
Definition message_event (s : TransferSession) (m : Message) : result session_error (TransferEvent * receiving) :=
  let r := rx s in
  let before := fail_if (bool_decide (receiveManifest r = None)) (TBeforeManifest (MType m)) in
  if String.eqb (MType m) "manifest" then
    match MManifest m with
    | None => Err TMissingManifest
    | Some man =>
        _ ← fail_if (bool_decide (is_Some (receiveManifest r))) TManifestTwice;
        plan ← wrap_err TMux (PlanFromManifest (Some man));
        Ok (EventManifest man,
            MkReceiving (Some man) (Some plan) (NewTracker (Some plan)) (deferredMessages r) (pendingDone r)
              (receiveEnded r) (fresh_coverage (length (Items man))))
    end
  else if String.eqb (MType m) "resume" then Ok (EventResume (MResume m), r)
  else if String.eqb (MType m) "resume_accept" then Ok (EventResumeAccept (MResume m), r)
  else if String.eqb (MType m) "stream_open" then
    _ ← before;
    '(b, t) ← wrap_err TMux (AcceptOpen (receiveStreams r) (receiveManifest r) m);
    Ok (EventStreamOpen (ID b) (BindItem b), with_streams r t (receiveEnded r))
  else if String.eqb (MType m) "chunk" then
    _ ← before;
    b ← wrap_err TMux (if striping s then AcceptChunkAfterEnd (receiveStreams r) (receiveManifest r) m
                       else AcceptChunk (receiveStreams r) (receiveManifest r) m);
    match DecodeString (MData m) with
    | None => Err TDataEncoding
    | Some data =>
        data ← wrap_err TCompression (decodeTransferChunk (session_compression s) (MEncoding m) data);
        match receiveManifest r with
        | None => Err (TBeforeManifest (MType m))
        | Some man =>
            match zlookup (Items man) (BindItem b) with
            | None => Err IndexPanic
            | Some it =>
                _ ← wrap_err TChunk (validateChunkRange it (MOffset m) (zlen data));
                ranges ← wrap_err (TRange (Name it))
                  (byteRanges_Add (coverage_at r (BindItem b)) (MOffset m) (wrap64 (MOffset m + zlen data)));
                Ok (EventChunk (ID b) (BindItem b) (MOffset m) data,
                    with_coverage r (<[BindItem b := ranges]> (receiveCoverage r)))
            end
        end
    end
  else if String.eqb (MType m) "stream_end" then
    _ ← before;
    '(b, t) ← wrap_err TMux (AcceptEnd (receiveStreams r) (receiveManifest r) m);
    Ok (EventStreamEnd (ID b) (BindItem b), with_streams r t (wrap64 (receiveEnded r + 1)))
  else if String.eqb (MType m) "done" then _ ← before; Ok (EventDone, r)
  else if String.eqb (MType m) "complete" then Ok (EventComplete, r)
  else if String.eqb (MType m) "error" then Ok (EventError (MError m), r)
  else Err (TUnknownType (MType m)).

(** ** The receive loop *)

(** A call returned an event or an error, or waits for the connections. *)
Inductive outcome :=
  | Event (ev : TransferEvent) (s : TransferSession) (inbox : list receivedPipeMessage)
  | Failed (e : session_error) (s : TransferSession) (inbox : list receivedPipeMessage)
  | Waiting (s : TransferSession)
  | OutOfFuel.

(** Deferred messages first, once the manifest is there. *)
Definition receiveMessage (s : TransferSession) (inbox : list receivedPipeMessage)
    : option (receivedPipeMessage * TransferSession * list receivedPipeMessage) :=
  match receiveManifest (rx s), deferredMessages (rx s) with
  | Some _, received :: rest => Some (received, with_rx s (with_deferred (rx s) rest), inbox)
  | _, _ => match inbox with [] => None | received :: inbox => Some (received, s, inbox) end
  end.

Definition defer (s : TransferSession) (received : receivedPipeMessage) : TransferSession :=
  with_rx s (with_deferred (rx s) (deferredMessages (rx s) ++ [received])).

Fixpoint receive_loop (fuel : nat) (s : TransferSession) (inbox : list receivedPipeMessage) : outcome :=
  match fuel with
  | O => OutOfFuel
  | S fuel =>
      if pendingDone (rx s) && receiveReady (rx s) then Event EventDone (with_rx s (with_pendingDone (rx s) false)) inbox
      else
        match receiveMessage s inbox with
        | None => Waiting s
        | Some (received, s, inbox) =>
            match content received with
            | Err e => Failed e s inbox
            | Ok m =>
                if bool_decide (receiveManifest (rx s) = None) && negb (pipeIndex received =? 0)
                then receive_loop fuel (defer s received) inbox
                else
                  match validateMessageChannel s (pipeIndex received) m with
                  | Err e => Failed e s inbox
                  | Ok _ =>
                      if String.eqb (MType m) "done" && bool_decide (is_Some (receiveManifest (rx s))) && negb (receiveReady (rx s))
                      then receive_loop fuel (with_rx s (with_pendingDone (rx s) true)) inbox
                      else
                        match message_event s m with
                        | Err e => Failed e s inbox
                        | Ok (ev, r) => Event ev (with_rx s r) inbox
                        end
                  end
            end
        end
  end.

(** Every turn takes a message from the inbox or the deferred list; a message is
    deferred at most once. *)
Definition receive_fuel (s : TransferSession) (inbox : list receivedPipeMessage) : nat :=
  S (2 * length inbox + length (deferredMessages (rx s))).
Definition ReceiveEvent (s : TransferSession) (inbox : list receivedPipeMessage) : outcome :=
  receive_loop (receive_fuel s inbox) s inbox.

(** [receiveControlMessage]: a message of the first connection, the others are
    deferred. *)
Fixpoint receiveControlMessage (s : TransferSession) (inbox : list receivedPipeMessage)
    : option (result session_error Message * TransferSession * list receivedPipeMessage) :=
  match inbox with
  | [] => None
  | received :: inbox =>
      match content received with
      | Err e => Some (Err e, s, inbox)
      | Ok m =>
          if pipeIndex received =? 0
          then Some (_ ← validateMessageChannel s (pipeIndex received) m; Ok m, s, inbox)
          else receiveControlMessage (defer s received) inbox
      end
  end.

(** ** Resume *)

(** The loop of [WaitResume] and [WaitResumeAccept]. *)
Fixpoint check_entries (plan : option Plan) (items : list Item) (seen : list Z) (entries : list ResumeEntry)
    : result session_error (list ResumeEntry) :=
  match entries with
  | [] => Ok []
  | e :: entries =>
      _ ← fail_if (bool_decide (plan = None)) (TBeforeManifest "resume");
      offset ← wrap_err TMux (ValidateResumeEntry plan items e);
      _ ← fail_if (bool_decide (REItem e ∈ seen)) (TDuplicateEntry (REItem e));
      rest ← check_entries plan items (REItem e :: seen) entries;
      Ok (MkResumeEntry (REItem e) (REStream e) offset (REPrefixSHA256 e) (RESHA256 e) (RESkip e) (REComplete e) :: rest)
  end.

Definition resume_of_event (s : TransferSession) (items : list Item) (ev : TransferEvent)
    : result session_error (list ResumeEntry) :=
  match ev with
  | EventError text => Err (TRemote text)
  | EventResume entries => check_entries (sendPlan (tx s)) items [] entries
  | _ => Err (TExpected "resume" "")
  end.

Definition WaitResume (s : TransferSession) (items : list Item) (inbox : list receivedPipeMessage)
    : option (result session_error (list ResumeEntry) * TransferSession * list receivedPipeMessage) :=
  match ReceiveEvent s inbox with
  | Event ev s inbox => Some (resume_of_event s items ev, s, inbox)
  | Failed e s inbox => Some (Err e, s, inbox)
  | _ => None
  end.

(** [s.receiveCoverage[entry.Item] = newByteRanges(entry.Offset)] *)
Definition applyReceiveResume (r : receiving) (entries : list ResumeEntry) : receiving :=
  if bool_decide (receiveManifest r = None) then r
  else with_coverage r (foldl (fun c e => <[REItem e := newByteRanges (REOffset e)]> c) (receiveCoverage r) entries).

Definition WaitResumeAccept (s : TransferSession) (items : list Item) (inbox : list receivedPipeMessage)
    : option (result session_error (list ResumeEntry) * TransferSession * list receivedPipeMessage) :=
  match receiveControlMessage s inbox with
  | None => None
  | Some (Err e, s, inbox) => Some (Err e, s, inbox)
  | Some (Ok m, s, inbox) =>
      if String.eqb (MType m) "error" then Some (Err (TRemote (MError m)), s, inbox)
      else if negb (String.eqb (MType m) "resume_accept") then Some (Err (TExpected "resume_accept" (MType m)), s, inbox)
      else match check_entries (receivePlan (rx s)) items [] (MResume m) with
           | Err e => Some (Err e, s, inbox)
           | Ok entries => Some (Ok entries, with_rx s (applyReceiveResume (rx s) entries), inbox)
           end
  end.

Definition WaitComplete (s : TransferSession) (inbox : list receivedPipeMessage)
    : option (result session_error unit * TransferSession * list receivedPipeMessage) :=
  match ReceiveEvent s inbox with
  | Event EventComplete s inbox => Some (Ok tt, s, inbox)
  | Event (EventError text) s inbox => Some (Err (TRemote text), s, inbox)
  | Event _ s inbox => Some (Err (TExpected "complete" ""), s, inbox)
  | Failed e s inbox => Some (Err e, s, inbox)
  | _ => None
  end.

(** ** Sending

    A sending method hands messages to connections: [sent] is the connection's
    number and the message, in the order of the calls of [sendMessage].  [now]
    is [protocol.NowMillis()]. *)
Abbreviation sent := (Z * Message)%type.

Definition first_pipe (s : TransferSession) : result session_error Z :=
  match pipes s with p :: _ => Ok (index p) | [] => Err IndexPanic end.

Definition typed_message (ty : string) (now : Z) : Message :=
  MkMessage ty 0 None [] 0 None 0 "" "" "" now "".
Definition stream_message (ty : string) (itemID streamID now : Z) : Message :=
  MkMessage ty 0 None [] itemID (Some streamID) 0 "" "" "" now "".
Definition resume_message (ty : string) (entries : list ResumeEntry) (now : Z) : Message :=
  MkMessage ty 0 None entries 0 None 0 "" "" "" now "".

Definition SendManifest (s : TransferSession) (items : list Item) : result session_error (TransferSession * sent) :=
  let plan := NewPlan (length items) in
  let manifest := default (NewManifest items) (Plan_Apply (Some plan) (Some (NewManifest items))) in
  i ← first_pipe s;
  Ok (with_tx s (MkSending (Some manifest) (Some plan) (chunkCompressor (tx s)) (sendChunkCursor (tx s))),
      (i, MkMessage "manifest" Version (Some manifest) [] 0 None 0 "" "" "" 0 "")).

Definition SendResume (s : TransferSession) (entries : list ResumeEntry) (now : Z) : result session_error sent :=
  i ← first_pipe s; Ok (i, resume_message "resume" entries now).
Definition SendResumeAccept (s : TransferSession) (entries : list ResumeEntry) (now : Z) : result session_error sent :=
  i ← first_pipe s; Ok (i, resume_message "resume_accept" entries now).
Definition SendDone (s : TransferSession) (now : Z) : result session_error sent :=
  i ← first_pipe s; Ok (i, typed_message "done" now).
Definition SendComplete (s : TransferSession) (now : Z) : result session_error sent :=
  i ← first_pipe s; Ok (i, typed_message "complete" now).

Definition sendStreamForItem (s : TransferSession) (itemID : Z) : result session_error Z :=
  match sendManifest (tx s), sendPlan (tx s) with
  | Some man, Some plan =>
      _ ← fail_if ((itemID <? 0) || (itemID >=? zlen (Items man))) (TItemRange itemID);
      match StreamForItem (Some plan) itemID with
      | Some streamID => Ok streamID
      | None => Err (TNoBinding itemID)
      end
  | _, _ => Err TBeforeSendManifest
  end.

Definition OpenStream (s : TransferSession) (itemID now : Z) : result session_error sent :=
  streamID ← sendStreamForItem s itemID;
  p ← pipeForItem s itemID;
  Ok (index p, stream_message "stream_open" itemID streamID now).

Definition EndStream (s : TransferSession) (itemID now : Z) : result session_error sent :=
  streamID ← sendStreamForItem s itemID;
  p ← pipeForItem s itemID;
  Ok (index p, stream_message "stream_end" itemID streamID now).

Definition buildChunkMessage (s : TransferSession) (itemID offset : Z) (data : bytes) (now : Z)
    : result session_error (TransferSession * Message) :=
  streamID ← sendStreamForItem s itemID;
  let '(c, (payload, encoding)) := encodeChunk (session_compression s) (chunkCompressor (tx s)) itemID data in
  Ok (with_tx s (MkSending (sendManifest (tx s)) (sendPlan (tx s)) c (sendChunkCursor (tx s))),
      MkMessage "chunk" 0 None [] itemID (Some streamID) offset (EncodeToString payload) encoding "" now "").

Definition SendChunk (s : TransferSession) (itemID offset : Z) (data : bytes) (now : Z)
    : result session_error (TransferSession * sent) :=
  '(s, m) ← buildChunkMessage s itemID offset data now;
  '(p, s) ← chunkPipeForItem s itemID;
  Ok (s, (index p, m)).

(** ** One connection delivers *)

Fixpoint send_on (p : securePipe) (ms : list Message) : securePipe * list bytes :=
  match ms with
  | [] => (p, [])
  | m :: ms =>
      let '(p, payload) := sendMessage p m in
      let '(p, payloads) := send_on p ms in
      (p, payload :: payloads)
  end.

Lemma recvMessage_sendMessage a b m :
  recvSession b = sendSession a → recvSeq b = nextSeq a → message_utf8 m →
  let '(a', payload) := sendMessage a m in
  ∃ b', recvMessage b payload = Ok (m, b') ∧ index b' = index b ∧
        recvSession b' = sendSession a' ∧ recvSeq b' = nextSeq a'.
Proof.
  intros Hk Hq Hm. cbn [sendMessage]. unfold recvMessage.
  rewrite Unmarshal_Marshal by apply base64_utf8. cbn [TVersion TSeq TBody].
  rewrite !Z.eqb_refl, Hq, Z.eqb_refl. cbn [negb fail_if mbind result_bind].
  rewrite DecodeString_EncodeToString. unfold Decrypt. rewrite Hk, gcm_open_seal. cbn [wrap_err mbind result_bind].
  rewrite Unmarshal_Marshal by done. eexists. split; [done|]. by split_and!.
Qed.

(** The messages sent on a connection are received on its other end in
    order and unchanged, and nothing else. *)
Theorem pipe_delivers a b ms :
  pipe_linked a b → Forall message_utf8 ms →
  receivePipe b (Ok <$> snd (send_on a ms)) = (fun m => MkReceived (index b) (Ok m)) <$> ms.
Proof.
  intros (_ & Hk & _ & Hq & _) Hms. symmetry in Hk, Hq. revert a b Hk Hq.
  induction Hms as [|m ms Hm Hms IH]; intros a b Hk Hq; [done|]. cbn [send_on].
  pose proof (recvMessage_sendMessage a b m Hk Hq Hm) as Hr.
  destruct (sendMessage a m) as [a' payload]. destruct Hr as (b' & Hr & Hi & Hk' & Hq').
  specialize (IH a' b' Hk' Hq'). destruct (send_on a' ms) as [a'' payloads]. cbn [snd fmap list_fmap receivePipe] in *.
  rewrite Hr. f_equal. rewrite IH. by rewrite Hi.
Qed.
End session.

(** ** Example: three messages on one connection *)

#[export] Instance Item_countable : Countable Item.
Proof.
  refine (inj_countable'
    (fun i => (Kind i, Name i, Size i, MTime i, Mode i, SHA256 i, SampleSHA256 i, Target i, ItemChunkSize i, ResumeSupported i))
    (fun '(a, b, c, d, e, f, g, h, i, j) => MkItem a b c d e f g h i j) _). by intros [].
Defined.
#[export] Instance StreamBinding_countable : Countable StreamBinding.
Proof. refine (inj_countable' (fun b => (ID b, BindItem b)) (fun '(a, b) => MkStreamBinding a b) _). by intros []. Defined.
#[export] Instance Manifest_countable : Countable Manifest.
Proof.
  refine (inj_countable' (fun m => (MVersion m, Items m, Streams m)) (fun '(a, b, c) => MkManifest a b c) _). by intros [].
Defined.
#[export] Instance ResumeEntry_countable : Countable ResumeEntry.
Proof.
  refine (inj_countable'
    (fun e => (REItem e, REStream e, REOffset e, REPrefixSHA256 e, RESHA256 e, RESkip e, REComplete e))
    (fun '(a, b, c, d, e, f, g) => MkResumeEntry a b c d e f g) _). by intros [].
Defined.
#[export] Instance Message_countable : Countable Message.
Proof.
  refine (inj_countable'
    (fun m => (MType m, MsgVersion m, MManifest m, MResume m, MItem m, MStream m, MOffset m, MData m, MEncoding m, MError m, MAt m, MExtra m))
    (fun '(a, b, c, d, e, f, g, h, i, j, k, l) => MkMessage a b c d e f g h i j k l) _). by intros [].
Defined.
#[export] Instance tenvelope_eq_dec : EqDecision tenvelope.
Proof. solve_decision. Defined.
#[export] Instance tenvelope_countable : Countable tenvelope.
Proof. refine (inj_countable' (fun e => (TVersion e, TSeq e, TBody e)) (fun '(a, b, c) => MkTEnvelope a b c) _). by intros []. Defined.

Definition demo_message_json : JSON Message message_utf8 := countable_json Message message_utf8.
Definition demo_tenvelope_json : JSON tenvelope tenvelope_utf8 := countable_json tenvelope tenvelope_utf8.

Lemma pipe_delivers_witness :
  let Ht := ascii_tables in let Hc := tagged_crypto in let Hj := demo_message_json in let He := demo_tenvelope_json in
  let k := NewSessionWithInfo "AB2C3D" "n1" "n2" "s" in let k' := NewSessionWithInfo "AB2C3D" "n1" "n2" "r" in
  let a := MkPipe 1 k k' (2 ^ 64 - 1) 4 "" false false in let b := MkPipe 1 k' k 4 (2 ^ 64 - 1) "" false false in
  let ms := [stream_message "stream_open" 0 1 7; stream_message "stream_end" 0 1 8; typed_message "done" 9] in
  receivePipe b (Ok <$> snd (send_on a ms)) = (fun m => MkReceived 1 (Ok m)) <$> ms.
Proof.
  intros Ht Hc Hj He k k' a b ms. apply (pipe_delivers a b ms).
  - repeat split.
  - repeat constructor.
Defined.
