(* ===== verification/SessionProofs.v ===== *)
(** * Any interleaving of the connections is received completely

    A sender hands the messages of a transfer to several connections; the
    receiver sees them in any order that keeps each connection's own.  The
    messages are abstracted to [action]s; [honest] says what a sender may hand
    over; the theorem is that the receiver then accepts every interleaving,
    reports each action once and [EventDone] last. *)
From Stdlib Require Import ZArith Lia Ascii String.
From stdpp Require Import base tactics numbers list gmap strings.
From S2P Require Import Prelude GoStrings Json Base64 Transport Secure Protocol Ranges Mux ManifestCheck Compression TransferHello TransferSession.

(** ** Interleavings *)

Section interleaving.
Context {A : Type}.
Implicit Types (l sent arrived : list (Z * A)).

Definition on_conn (k : Z) (x : Z * A) : Prop := fst x = k.
#[export] Instance on_conn_dec k x : Decision (on_conn k x).
Proof. unfold on_conn. apply _. Defined.

(** The same messages, each connection's in its order. *)
Definition interleaves sent arrived : Prop := ∀ k, filter (on_conn k) arrived = filter (on_conn k) sent.

(** [x] stands before [y]. *)
Definition precedes (l : list (Z * A)) (x y : Z * A) : Prop := ∃ l1 l2, l = l1 ++ x :: l2 ∧ y ∈ l2.

Lemma interleaves_elem sent arrived x : interleaves sent arrived → x ∈ arrived ↔ x ∈ sent.
Proof.
  intros Hi. assert (Hf : ∀ l, x ∈ l ↔ x ∈ filter (on_conn (fst x)) l).
  { intros l. rewrite list_elem_of_filter. unfold on_conn. naive_solver. }
  by rewrite Hf, Hi, <- Hf.
Qed.

Lemma precedes_elem l x y : precedes l x y → x ∈ l ∧ y ∈ l.
Proof. intros (l1 & l2 & -> & ?). set_solver. Qed.

Lemma precedes_filter (P : Z * A → Prop) `{∀ x, Decision (P x)} l x y :
  precedes l x y → P x → P y → precedes (filter P l) x y.
Proof.
  intros (l1 & l2 & -> & Hy) Hx HPy. exists (filter P l1), (filter P l2).
  rewrite filter_app, filter_cons_True by done. split; [done|]. by apply list_elem_of_filter.
Qed.

(** A message that must come first on its connection has arrived. *)
Lemma interleaves_before sent arrived pre x y rest :
  interleaves sent arrived → NoDup sent → precedes sent x y → fst x = fst y →
  arrived = pre ++ y :: rest → x ∈ pre.
Proof.
  intros Hi Hnd Hp Hxy ->. apply (precedes_filter (on_conn (fst y))) in Hp; [|done|done].
  rewrite <- Hi in Hp. destruct Hp as (l1 & l2 & El & Hy).
  rewrite filter_app, filter_cons_True in El by done.
  assert (Hnd' : NoDup (filter (on_conn (fst y)) pre ++ y :: filter (on_conn (fst y)) rest)).
  { rewrite <- filter_cons_True with (P := on_conn (fst y)), <- filter_app by done.
    rewrite Hi. by apply NoDup_filter. }
  assert (Hx : x ∈ filter (on_conn (fst y)) pre); [|by apply list_elem_of_filter in Hx as [_ ?]].
  apply list_elem_of_In. revert l1 El Hnd'. induction (filter (on_conn (fst y)) pre) as [|z l IH]; intros l1 El Hnd'.
  - exfalso. destruct l1 as [|w l1]; injection El as <- El.
    + apply NoDup_cons in Hnd' as [Hn _]. by rewrite El in Hn.
    + apply NoDup_cons in Hnd' as [Hn _]. apply Hn. rewrite El. set_solver.
  - destruct l1 as [|w l1]; injection El as -> El; [by left|]. right.
    apply (IH l1); [done|]. by apply NoDup_cons in Hnd' as [_ ?].
Qed.

Lemma interleaves_NoDup sent arrived : interleaves sent arrived → NoDup sent → NoDup arrived.
Proof.
  intros Hi Hnd. assert (Hf : ∀ k, NoDup (filter (on_conn k) arrived)) by (intros k; rewrite Hi; by apply NoDup_filter).
  clear Hi Hnd sent. induction arrived as [|x l IH]; constructor.
  - intros Hx. specialize (Hf (fst x)). rewrite filter_cons_True in Hf by done.
    apply NoDup_cons in Hf as [Hn _]. apply Hn, list_elem_of_filter. by split.
  - apply IH. intros k. specialize (Hf k). rewrite filter_cons in Hf. case_decide; [|done].
    by apply NoDup_cons in Hf as [_ ?].
Qed.
End interleaving.

(** ** What a sender hands over *)

Inductive action :=
  | AOpen (item : Z)
  | AChunk (item offset : Z) (data : bytes)
  | AEnd (item : Z)
  | ADone.

#[export] Instance action_eq_dec : EqDecision action.
Proof. solve_decision. Defined.

(** The connection of an item's stream. *)
Definition item_conn (conns item : Z) : Z := if conns <=? 1 then 0 else 1 + item mod (conns - 1).

Definition in_chunk (offset : Z) (data : bytes) (b : Z) : Prop := offset ≤ b < offset + zlen data.

Section honest.
Context (conns : Z) (stripe : bool) (items : list Item) (base : Z → Z).
Implicit Types (sent l : list (Z * action)).

(** A sender may hand over: each stream opened and then ended on its item's
    connection, non-empty chunks within the item that do not overlap and fill
    it from the resume offset on, between them unless chunks are striped, and
    one [done] on the first connection. *)
Record honest sent : Prop := {
  honest_nodup : NoDup sent;
  honest_done : (0, ADone) ∈ sent ∧ ∀ k, (k, ADone) ∈ sent → k = 0;
  honest_open k i : (k, AOpen i) ∈ sent → 0 ≤ i < zlen items ∧ k = item_conn conns i;
  honest_end k i : (k, AEnd i) ∈ sent → 0 ≤ i < zlen items ∧ k = item_conn conns i;
  honest_stream i : 0 ≤ i < zlen items → precedes sent (item_conn conns i, AOpen i) (item_conn conns i, AEnd i);
  honest_chunk k i off data : (k, AChunk i off data) ∈ sent →
    ∃ it, zlookup items i = Some it ∧ data ≠ [] ∧ 0 ≤ base i ≤ off ∧ off + zlen data ≤ Size it ∧
    if stripe && (conns >? 1) then 0 < k < conns
    else k = item_conn conns i ∧ precedes sent (k, AChunk i off data) (k, AEnd i);
  honest_disjoint k k' i off off' data data' b :
    (k, AChunk i off data) ∈ sent → (k', AChunk i off' data') ∈ sent →
    in_chunk off data b → in_chunk off' data' b → (k, AChunk i off data) = (k', AChunk i off' data');
  honest_full i it b : zlookup items i = Some it → base i ≤ b < Size it →
    ∃ k off data, (k, AChunk i off data) ∈ sent ∧ in_chunk off data b;
}.

(** The items ended in [l], in order. *)
Definition ended l : list Z := omap (fun x => match snd x with AEnd i => Some i | _ => None end) l.

Definition arrived_chunk l (i b : Z) : Prop := ∃ k off data, (k, AChunk i off data) ∈ l ∧ in_chunk off data b.
End honest.

(** ** Messages of actions *)

Section receive.
Context `{CaseTables} `{Crypto} `{Gzip} `{JSON Message message_utf8} `{JSON tenvelope tenvelope_utf8}.
Context (conns : Z) (stripe : bool) (zip : string) (man : Manifest) (plan : Plan) (base : Z → Z).

Definition renders (a : action) (m : Message) : Prop :=
  match a with
  | AOpen i => MType m = "stream_open"%string ∧ MItem m = i ∧ MStream m = byItem plan !! i
  | AChunk i off data =>
      MType m = "chunk"%string ∧ MItem m = i ∧ MStream m = byItem plan !! i ∧ MOffset m = off ∧
      ∃ payload, DecodeString (MData m) = Some payload ∧ decodeTransferChunk zip (MEncoding m) payload = Ok data
  | AEnd i => MType m = "stream_end"%string ∧ MItem m = i ∧ MStream m = byItem plan !! i
  | ADone => MType m = "done"%string
  end.

Definition stream_of (i : Z) : Z := default 0 (byItem plan !! i).
Definition event_of (a : action) : TransferEvent :=
  match a with
  | AOpen i => EventStreamOpen (stream_of i) i
  | AChunk i off data => EventChunk (stream_of i) i off data
  | AEnd i => EventStreamEnd (stream_of i) i
  | ADone => EventDone
  end.

(** The parts of a session that stay as they are while it receives. *)
Record session_for (s : TransferSession) : Prop := {
  sf_conns : 1 ≤ conns;
  sf_pipes : index <$> pipes s = Z.of_nat <$> seq 0 (Z.to_nat conns);
  sf_stripe : striping s = stripe;
  sf_zip : session_compression s = zip;
}.

(** Sizes are Go values. *)
Record manifest_for : Prop := {
  mf_plan : plan_ok (length (Items man)) plan;
  mf_count : zlen (Items man) ≤ int64_max;
  mf_size i it : zlookup (Items man) i = Some it → Size it ≤ int64_max;
}.

Lemma sf_zlen s : session_for s → zlen (pipes s) = conns.
Proof.
  intros [Hc Hp _ _]. apply (f_equal length) in Hp. rewrite !length_fmap, length_seq in Hp.
  unfold zlen. lia.
Qed.

Lemma sf_lookup s k : session_for s → 0 ≤ k < conns → ∃ p, zlookup (pipes s) k = Some p ∧ index p = k.
Proof.
  intros Hs Hk. pose proof Hs as [Hc Hp _ _]. destruct (proj2 (zlookup_is_Some (pipes s) k)) as [p Hl].
  { by rewrite sf_zlen. }
  exists p. split; [done|]. unfold zlookup in Hl. case_if; [done|].
  assert (Hi : (index <$> pipes s) !! Z.to_nat k = Some (index p)) by (by rewrite list_lookup_fmap, Hl).
  rewrite Hp, list_lookup_fmap, lookup_seq_lt in Hi by lia. injection Hi as Hi. lia.
Qed.

Lemma pipeForItem_conn s i : session_for s → 0 ≤ i → ∃ p, pipeForItem s i = Ok p ∧ index p = item_conn conns i.
Proof.
  intros Hs Hi. pose proof Hs as [Hc Hp _ _]. unfold pipeForItem, item_conn. rewrite sf_zlen by done.
  destruct (conns <=? 1) eqn:E; bool_prop.
  - destruct (sf_lookup s 0 Hs ltac:(lia)) as (p & Hl & Hpi). unfold zlookup in Hl. simpl in Hl.
    destruct (pipes s) as [|q ps]; [done|]. injection Hl as ->. by exists p.
  - unfold data_pipe. rewrite sf_zlen, Z.rem_mod_nonneg by (done || lia).
    pose proof (Z.mod_pos_bound i (conns - 1) ltac:(lia)).
    destruct (sf_lookup s (1 + i mod (conns - 1)) Hs ltac:(lia)) as (p & -> & Hpi). by exists p.
Qed.

(** A message of an honest sender is on a connection it may use. *)
Lemma channel_ok s sent k a m :
  session_for s → honest conns stripe (Items man) base sent → (k, a) ∈ sent → renders a m →
  validateMessageChannel s k m = Ok tt.
Proof.
  intros Hs Hh Hin Hr. unfold validateMessageChannel.
  destruct a as [i|i off data|i|]; simpl in Hr.
  - destruct Hr as (-> & -> & _). simpl. destruct (honest_open _ _ _ _ _ Hh k i Hin) as [Hi ->].
    destruct (pipeForItem_conn s i Hs ltac:(lia)) as (p & -> & Hpi). cbn. by rewrite Hpi, Z.eqb_refl.
  - destruct Hr as (-> & -> & _). simpl. rewrite (sf_stripe s Hs), sf_zlen by done.
    destruct (honest_chunk _ _ _ _ _ Hh k i off data Hin) as (it & Hl & _ & _ & _ & Hk).
    destruct (stripe && (conns >? 1)).
    + unfold fail_if. replace (k =? 0) with false by (symmetry; apply Z.eqb_neq; lia).
      rewrite Z.geb_leb. by replace (conns <=? k) with false by (symmetry; apply Z.leb_gt; lia).
    + destruct Hk as [-> _]. apply zlookup_Some in Hl.
      destruct (pipeForItem_conn s i Hs ltac:(lia)) as (p & -> & Hpi). cbn. by rewrite Hpi, Z.eqb_refl.
  - destruct Hr as (-> & -> & _). simpl. destruct (honest_end _ _ _ _ _ Hh k i Hin) as [Hi ->].
    destruct (pipeForItem_conn s i Hs ltac:(lia)) as (p & -> & Hpi). cbn. by rewrite Hpi, Z.eqb_refl.
  - rewrite Hr. simpl. apply (honest_done _ _ _ _ _ Hh) in Hin as ->. done.
Qed.

(** ** The receiver's state after the messages [pre] *)

Record rx_inv (r : receiving) (pre : list (Z * action)) : Prop := {
  ri_manifest : receiveManifest r = Some man;
  ri_plan : tplan (receiveStreams r) = Some plan;
  ri_streams i st : byItem plan !! i = Some st →
    (Opened (Tracker_state (receiveStreams r) st) = true ↔ (item_conn conns i, AOpen i) ∈ pre) ∧
    (Ended (Tracker_state (receiveStreams r) st) = true ↔ (item_conn conns i, AEnd i) ∈ pre);
  ri_ended : receiveEnded r = zlen (ended pre);
  ri_coverage i : 0 ≤ i < zlen (Items man) →
    ∃ rs, receiveCoverage r !! i = Some rs ∧ ranges_wf rs ∧
          ∀ b, covered rs b ↔ 0 ≤ b < base i ∨ arrived_chunk pre i b;
}.

Lemma resolve_item i m b :
  manifest_for → 0 ≤ i < zlen (Items man) → MItem m = i → MStream m = byItem plan !! i →
  ResolveFrame (Some plan) (Some man) m b = Ok (MkStreamBinding (stream_of i) i) ∧ byItem plan !! i = Some (stream_of i).
Proof.
  intros [Hp _ _] Hi Hm Hst. destruct (proj2 (plan_ok_items _ _ Hp i)) as [st Hl]; [unfold zlen in Hi; lia|].
  unfold stream_of. rewrite Hl. split; [|done].
  unfold ResolveFrame, fail_if. rewrite Hm, Hst, Hl. rewrite Z.geb_leb.
  replace (i <? 0) with false by (symmetry; apply Z.ltb_ge; lia).
  replace (zlen (Items man) <=? i) with false by (symmetry; apply Z.leb_gt; lia).
  rewrite bool_decide_eq_false_2 by done. rewrite andb_false_r. cbn [orb mbind result_bind StreamForItem].
  rewrite Hl. cbn [ptr_differs default]. by rewrite Z.eqb_refl.
Qed.

Lemma stream_inj i j st : manifest_for → byItem plan !! i = Some st → byItem plan !! j = Some st → i = j.
Proof.
  intros [Hp _ _] Hi Hj. pose proof (plan_ok_bij _ _ Hp) as Hb. apply Hb in Hi, Hj. congruence.
Qed.

(** ** Counting the ended streams *)

Lemma elem_of_ended l i : i ∈ ended l ↔ ∃ k, (k, AEnd i) ∈ l.
Proof.
  unfold ended. rewrite list_elem_of_omap. split.
  - intros ([k a] & Hin & Ha). destruct a; simplify_eq/=. by exists k.
  - intros [k Hin]. by exists (k, AEnd i).
Qed.

Lemma ended_app l1 l2 : ended (l1 ++ l2) = ended l1 ++ ended l2.
Proof. apply omap_app. Qed.

Definition own_ends (l : list (Z * action)) : Prop :=
  ∀ k i, (k, AEnd i) ∈ l → 0 ≤ i < zlen (Items man) ∧ k = item_conn conns i.

Lemma ended_NoDup l : NoDup l → own_ends l → NoDup (ended l).
Proof.
  induction 1 as [|[k a] l Hn _ IH]; intros Ho; [constructor|].
  assert (Ho' : own_ends l) by (intros k' i Hin; apply Ho; by right). specialize (IH Ho').
  destruct a as [i|i off d|i|]; try exact IH. change (ended ((k, AEnd i) :: l)) with (i :: ended l).
  constructor; [|done]. rewrite elem_of_ended. intros [k' Hin]. apply Hn.
  destruct (Ho k i ltac:(by left)) as [_ ->]. by destruct (Ho' k' i Hin) as [_ ->].
Qed.

Lemma ended_le l : NoDup l → own_ends l → zlen (ended l) ≤ zlen (Items man).
Proof.
  intros Hnd Ho. pose proof (ended_NoDup l Hnd Ho) as Hn.
  assert (Hs : ended l ⊆+ (Z.of_nat <$> seq 0 (length (Items man)))).
  { apply NoDup_submseteq; [done|]. intros i [k Hi]%elem_of_ended. destruct (Ho k i Hi) as [Hr _].
    apply list_elem_of_fmap. exists (Z.to_nat i). rewrite elem_of_seq. unfold zlen in Hr. lia. }
  apply submseteq_length in Hs. rewrite length_fmap, length_seq in Hs. unfold zlen. lia.
Qed.

Lemma ended_all l : NoDup l → own_ends l → zlen (ended l) = zlen (Items man) →
  ∀ i, 0 ≤ i < zlen (Items man) → (item_conn conns i, AEnd i) ∈ l.
Proof.
  intros Hnd Ho Hlen i Hi. pose proof (ended_NoDup l Hnd Ho) as Hn.
  assert (Hs : ended l ⊆+ (Z.of_nat <$> seq 0 (length (Items man)))).
  { apply NoDup_submseteq; [done|]. intros j [k Hj]%elem_of_ended. destruct (Ho k j Hj) as [Hr _].
    apply list_elem_of_fmap. exists (Z.to_nat j). rewrite elem_of_seq. unfold zlen in Hr. lia. }
  assert (Hp : ended l ≡ₚ (Z.of_nat <$> seq 0 (length (Items man)))).
  { apply submseteq_length_Permutation; [done|]. rewrite length_fmap, length_seq. unfold zlen in Hlen. lia. }
  assert (Hin : i ∈ ended l).
  { rewrite Hp. apply list_elem_of_fmap. exists (Z.to_nat i). rewrite elem_of_seq. unfold zlen in Hi. lia. }
  apply elem_of_ended in Hin as [k Hin]. by destruct (Ho k i Hin) as [_ <-].
Qed.

(** ** One message *)

Section arrival.
Context (sent arrived : list (Z * action)).
Context (Hh : honest conns stripe (Items man) base sent) (Hi : interleaves sent arrived).

Lemma arrived_sent x : x ∈ arrived ↔ x ∈ sent.
Proof. by apply interleaves_elem. Qed.

Lemma before_in x y l1 l2 : arrived = l1 ++ y :: l2 → precedes sent x y → fst x = fst y → x ∈ l1.
Proof.
  intros Ea Hp Hf. by apply (interleaves_before sent arrived l1 x y l2 Hi (honest_nodup _ _ _ _ _ Hh)).
Qed.

Lemma prefix_NoDup pre k a rest :
  arrived = pre ++ (k, a) :: rest → NoDup (pre ++ [(k, a)]) ∧ (k, a) ∉ pre ∧ (k, a) ∈ sent.
Proof.
  intros Ea. pose proof (interleaves_NoDup _ _ Hi (honest_nodup _ _ _ _ _ Hh)) as Hnd. rewrite Ea in Hnd.
  assert (E : pre ++ (k, a) :: rest = (pre ++ [(k, a)]) ++ rest) by (by rewrite <- (assoc_L (++))).
  rewrite E in Hnd. apply NoDup_app in Hnd as (Hn & _ & _). split; [done|]. split.
  - apply NoDup_app in Hn as (_ & Hn & _). intros Hin. apply (Hn _ Hin). by left.
  - apply arrived_sent. rewrite Ea. set_solver.
Qed.

Lemma own_ends_prefix l l' : arrived = l ++ l' → own_ends l.
Proof.
  intros Ea k' i Hin. apply (honest_end _ _ _ _ _ Hh), arrived_sent. rewrite Ea. set_solver.
Qed.
End arrival.

Section one_message.
Context (s : TransferSession) (sent arrived pre rest : list (Z * action)).
Context (Hs : session_for s) (Hm : manifest_for) (Hh : honest conns stripe (Items man) base sent).
Context (Hi : interleaves sent arrived).

Lemma coverage_snoc_other r k a :
  (∀ i off data, a ≠ AChunk i off data) →
  (∀ i, 0 ≤ i < zlen (Items man) → ∃ rs, receiveCoverage r !! i = Some rs ∧ ranges_wf rs ∧
     ∀ b, covered rs b ↔ 0 ≤ b < base i ∨ arrived_chunk pre i b) →
  ∀ i, 0 ≤ i < zlen (Items man) → ∃ rs, receiveCoverage r !! i = Some rs ∧ ranges_wf rs ∧
     ∀ b, covered rs b ↔ 0 ≤ b < base i ∨ arrived_chunk (pre ++ [(k, a)]) i b.
Proof.
  intros Ha Hc i Hr. destruct (Hc i Hr) as (rs & Hl & Hw & Hb). exists rs. split; [done|]. split; [done|].
  intros b. rewrite Hb. unfold arrived_chunk. setoid_rewrite elem_of_snoc. split; [naive_solver|].
  intros [?|(k' & off & d & [?|[= -> E]] & ?)]; [by left|right; eauto|]. by destruct (Ha _ _ _ (eq_sym E)).
Qed.

Lemma step_open k i m :
  arrived = pre ++ (k, AOpen i) :: rest → renders (AOpen i) m → rx_inv (rx s) pre →
  ∃ r', message_event s m = Ok (event_of (AOpen i), r') ∧ rx_inv r' (pre ++ [(k, AOpen i)]) ∧
    deferredMessages r' = deferredMessages (rx s) ∧ pendingDone r' = pendingDone (rx s).
Proof.
  intros Ea (Ety & Emi & Est) Hr. destruct (prefix_NoDup sent arrived Hh Hi pre _ _ rest Ea) as (Hnd & Hnew & Hsent).
  destruct (honest_open _ _ _ _ _ Hh k i Hsent) as [Hri ->].
  destruct (resolve_item i m true Hm Hri Emi Est) as [Hres Hst].
  destruct (ri_streams _ _ Hr i _ Hst) as [Ho He].
  unfold message_event. rewrite Ety. simpl. rewrite (ri_manifest _ _ Hr). cbn [bool_decide].
  rewrite bool_decide_eq_false_2 by done. cbn [fail_if mbind result_bind].
  unfold AcceptOpen. rewrite (ri_plan _ _ Hr), Hres. cbn [mbind result_bind ID BindItem].
  destruct (Opened (Tracker_state (receiveStreams (rx s)) (stream_of i))) eqn:Eo.
  { exfalso. apply Hnew. by apply Ho. }
  cbn [fail_if mbind result_bind wrap_err]. eexists. split; [done|]. split; [|done].
  constructor; cbn [with_streams receiveManifest receiveStreams receiveEnded receiveCoverage].
  - apply (ri_manifest _ _ Hr).
  - apply (ri_plan _ _ Hr).
  - intros j st Hj. rewrite Tracker_state_set, !elem_of_snoc. case_decide as Hd.
    + subst st. rewrite (stream_inj _ _ _ Hm Hj Hst). simpl. split; [naive_solver|].
      split; [done|]. intros [Hin|]; [|done]. exfalso. apply Hnew.
      apply list_elem_of_split in Hin as (p1 & p2 & ->).
      assert (Hx : (item_conn conns i, AOpen i) ∈ p1); [|set_solver].
      apply (before_in sent arrived Hh Hi _ _ p1 (p2 ++ (item_conn conns i, AOpen i) :: rest)
        ltac:(rewrite Ea, <- (assoc_L (++)); reflexivity) (honest_stream _ _ _ _ _ Hh i Hri) eq_refl).
    + destruct (ri_streams _ _ Hr j st Hj) as [-> ->]. split; (split; [naive_solver|]); intros [?|E];
        first [done | discriminate E | injection E as _ ->; congruence].
  - rewrite (ri_ended _ _ Hr), ended_app. cbn. by rewrite app_nil_r.
  - apply coverage_snoc_other; [done|]. apply (ri_coverage _ _ Hr).
Qed.

Lemma step_end k i m :
  arrived = pre ++ (k, AEnd i) :: rest → renders (AEnd i) m → rx_inv (rx s) pre →
  ∃ r', message_event s m = Ok (event_of (AEnd i), r') ∧ rx_inv r' (pre ++ [(k, AEnd i)]) ∧
    deferredMessages r' = deferredMessages (rx s) ∧ pendingDone r' = pendingDone (rx s).
Proof.
  intros Ea (Ety & Emi & Est) Hr. destruct (prefix_NoDup sent arrived Hh Hi pre _ _ rest Ea) as (Hnd & Hnew & Hsent).
  destruct (honest_end _ _ _ _ _ Hh k i Hsent) as [Hri Hk].
  destruct (resolve_item i m true Hm Hri Emi Est) as [Hres Hst].
  destruct (ri_streams _ _ Hr i _ Hst) as [Ho He].
  pose proof (before_in sent arrived Hh Hi _ _ _ _ Ea (eq_rect_r (fun c => precedes sent (_, _) (c, _)) (honest_stream _ _ _ _ _ Hh i Hri) Hk) (eq_sym Hk)) as Hopened.
  unfold message_event. rewrite Ety. simpl. rewrite (ri_manifest _ _ Hr).
  rewrite bool_decide_eq_false_2 by done. cbn [fail_if mbind result_bind].
  unfold AcceptEnd. rewrite (ri_plan _ _ Hr), Hres. cbn [mbind result_bind ID BindItem].
  apply Ho in Hopened. rewrite Hopened. cbn [negb fail_if mbind result_bind].
  destruct (Ended (Tracker_state (receiveStreams (rx s)) (stream_of i))) eqn:Ee.
  { exfalso. apply Hnew. rewrite Hk. by apply He. }
  cbn [fail_if mbind result_bind wrap_err]. eexists. split; [done|]. split; [|done].
  constructor; cbn [with_streams receiveManifest receiveStreams receiveEnded receiveCoverage].
  - apply (ri_manifest _ _ Hr).
  - apply (ri_plan _ _ Hr).
  - intros j st Hj. rewrite Tracker_state_set, !elem_of_snoc. case_decide as Hd.
    + subst st. rewrite (stream_inj _ _ _ Hm Hj Hst). simpl. split; (split; [|done]); intros _.
      * left. by apply Ho.
      * right. by rewrite Hk.
    + destruct (ri_streams _ _ Hr j st Hj) as [-> ->]. split; (split; [naive_solver|]); intros [?|E];
        first [done | discriminate E | injection E as _ ->; congruence].
  - rewrite (ri_ended _ _ Hr), ended_app.
    assert (Hle : zlen (ended (pre ++ [(k, AEnd i)])) ≤ zlen (Items man)).
    { apply ended_le; [done|]. apply (own_ends_prefix sent arrived Hh Hi _ rest). by rewrite <- (assoc_L (++)). }
    rewrite ended_app in Hle. unfold zlen in *. rewrite length_app in *. cbn in *.
    pose proof (mf_count Hm). unfold zlen in *. rewrite wrap64_id; [lia|]. unfold in_int64, int64_min. lia.
  - apply coverage_snoc_other; [done|]. apply (ri_coverage _ _ Hr).
Qed.

Lemma step_chunk k i off data m :
  (∀ j, 0 ≤ j < zlen (Items man) → 0 ≤ base j) →
  arrived = pre ++ (k, AChunk i off data) :: rest → renders (AChunk i off data) m → rx_inv (rx s) pre →
  ∃ r', message_event s m = Ok (event_of (AChunk i off data), r') ∧ rx_inv r' (pre ++ [(k, AChunk i off data)]) ∧
    deferredMessages r' = deferredMessages (rx s) ∧ pendingDone r' = pendingDone (rx s).
Proof.
  intros Hbase Ea (Ety & Emi & Est & Eoff & payload & Hdec & Hdata) Hr.
  destruct (prefix_NoDup sent arrived Hh Hi pre _ _ rest Ea) as (Hnd & Hnew & Hsent).
  destruct (honest_chunk _ _ _ _ _ Hh k i off data Hsent) as (it & Hit & Hne & Hoff & Hend & Hk).
  pose proof (zlookup_Some _ _ _ Hit) as Hri.
  destruct (resolve_item i m false Hm Hri Emi Est) as [Hres Hst].
  destruct (ri_streams _ _ Hr i _ Hst) as [Ho He].
  destruct (ri_coverage _ _ Hr i Hri) as (rs & Hcov & Hwf & Hcb).
  pose proof (mf_size Hm _ _ Hit) as Hsz.
  assert (Hpos : 0 < zlen data) by (unfold zlen; destruct data; [done|]; cbn [length]; lia).
  unfold message_event. rewrite Ety. simpl. rewrite (ri_manifest _ _ Hr).
  rewrite bool_decide_eq_false_2 by done. cbn [fail_if mbind result_bind].
  assert (Hacc : (if striping s then AcceptChunkAfterEnd (receiveStreams (rx s)) (Some man) m
                  else AcceptChunk (receiveStreams (rx s)) (Some man) m) = Ok (MkStreamBinding (stream_of i) i)).
  { rewrite (sf_stripe s Hs). unfold AcceptChunkAfterEnd, AcceptChunk, acceptChunk.
    rewrite (ri_plan _ _ Hr), Hres. cbn [mbind result_bind ID].
    assert (stripe = true ∨ stripe = false) as [Es|Es] by (destruct stripe; auto); [by rewrite Es, andb_false_r|].
    rewrite Es in Hk |- *. cbn [andb] in Hk. destruct Hk as [Hk Hp].
    destruct (Ended (Tracker_state (receiveStreams (rx s)) (stream_of i))) eqn:Ee; [|done].
    exfalso. apply Hnew. assert (Hin : (k, AEnd i) ∈ pre) by (rewrite Hk; by apply He).
    apply list_elem_of_split in Hin as (p1 & p2 & Epre).
    assert (Hx : (k, AChunk i off data) ∈ p1); [|rewrite Epre; set_solver].
    apply (before_in sent arrived Hh Hi _ (k, AEnd i) p1 (p2 ++ (k, AChunk i off data) :: rest)); [|done|done].
    rewrite Ea, Epre, <- (assoc_L (++)). reflexivity. }
  rewrite Hacc. cbn [wrap_err mbind result_bind BindItem ID]. rewrite Hdec.
  rewrite (sf_zip s Hs), Hdata. cbn [wrap_err mbind result_bind]. rewrite Hit.
  assert (Hrange : validateChunkRange it (MOffset m) (zlen data) = Ok tt).
  { unfold validateChunkRange, fail_if. rewrite Eoff, wrap64_id by (unfold in_int64, int64_min, int64_max in *; lia).
    replace (off <? 0) with false by (symmetry; apply Z.ltb_ge; lia).
    replace (off + zlen data <? off) with false by (symmetry; apply Z.ltb_ge; lia).
    rewrite Z.gtb_ltb. by replace (Size it <? off + zlen data) with false by (symmetry; apply Z.ltb_ge; lia). }
  rewrite Hrange. cbn [wrap_err mbind result_bind].
  rewrite Eoff, wrap64_id by (unfold in_int64, int64_min, int64_max in *; lia).
  unfold coverage_at. rewrite Hcov. change (default [] (Some rs)) with rs.
  pose proof (Add_spec rs off (off + zlen data) Hwf ltac:(lia)) as Hadd.
  destruct (byteRanges_Add rs off (off + zlen data)) as [rs'|e].
  2:{ exfalso. destruct Hadd as (b & Hb & Hcovd). apply Hcb in Hcovd as [?|(k' & off' & d' & Hin & Hb')]; [lia|].
      apply Hnew. assert ((k, AChunk i off data) = (k', AChunk i off' d')) as ->; [|done].
      apply (honest_disjoint _ _ _ _ _ Hh k k' i off off' data d' b); [done| |done|done].
      apply (arrived_sent sent arrived Hi). rewrite Ea. set_solver. }
  destruct Hadd as (Hwf' & Hcb' & _). cbn [wrap_err mbind result_bind]. eexists. split; [done|]. split; [|done].
  constructor; cbn [with_coverage receiveManifest receiveStreams receiveEnded receiveCoverage].
  - apply (ri_manifest _ _ Hr).
  - apply (ri_plan _ _ Hr).
  - intros j st Hj. rewrite !elem_of_snoc. destruct (ri_streams _ _ Hr j st Hj) as [-> ->].
    split; (split; [naive_solver|]); intros [?|E]; first [done | discriminate E].
  - rewrite (ri_ended _ _ Hr), ended_app. cbn. by rewrite app_nil_r.
  - intros j Hj. destruct (decide (j = i)) as [->|Hne'].
    + exists rs'. rewrite lookup_insert_eq. split; [done|]. split; [done|]. intros b. rewrite Hcb', Hcb.
      unfold arrived_chunk. setoid_rewrite elem_of_snoc. split.
      * intros [[?|(k' & o & d & ? & ?)]|?]; [by left|right; eauto 10|right].
        exists k, off, data. split; [by right|done].
      * intros [?|(k' & o & d & [?|[= -> -> ->]] & ?)]; [by left; left|left; right; eauto|by right].
    + destruct (ri_coverage _ _ Hr j Hj) as (rs0 & Hl0 & Hw0 & Hb0). exists rs0.
      rewrite lookup_insert_ne by done. split; [done|]. split; [done|]. intros b. rewrite Hb0.
      unfold arrived_chunk. setoid_rewrite elem_of_snoc. split; [naive_solver|].
      intros [?|(k' & o & d & [?|[= _ E _ _]] & ?)]; [by left|right; eauto|by subst].
Qed.
End one_message.

(** ** Ready means all data has arrived *)

Lemma items_ready_iff r items from :
  items_ready r items from = true ↔
  ∀ i it, items !! i = Some it →
    ∃ rs, receiveCoverage r !! Z.of_nat (from + i) = Some rs ∧ byteRanges_Complete (Some rs) (Size it) = true.
Proof.
  unfold items_ready. revert from. induction items as [|it items IH]; intros from; cbn.
  { split; [|done]. intros _ i it Hl. by rewrite lookup_nil in Hl. }
  rewrite andb_true_iff, IH. split.
  - intros [H0' Hall] [|i] it' Hl.
    + injection Hl as <-. rewrite Nat.add_0_r. destruct (receiveCoverage r !! Z.of_nat from); [by eexists|done].
    + destruct (Hall i it' Hl) as (rs & Hrs & Hc). exists rs. by rewrite <- Nat.add_succ_comm.
  - intros Hall. split.
    + destruct (Hall 0%nat it eq_refl) as (rs & Hrs & Hc). rewrite Nat.add_0_r in Hrs. by rewrite Hrs.
    + intros i it' Hl. destruct (Hall (S i) it' Hl) as (rs & Hrs & Hc). exists rs. by rewrite Nat.add_succ_comm.
Qed.

(** The resume offsets lie within the items. *)
Definition base_ok : Prop := ∀ i it, zlookup (Items man) i = Some it → 0 ≤ base i ≤ Size it.

Definition is_done (x : Z * action) : Prop := snd x = ADone.
#[local] Instance is_done_dec x : Decision (is_done x).
Proof. unfold is_done. apply _. Defined.

Lemma ready_iff r sent arrived pre rest :
  manifest_for → honest conns stripe (Items man) base sent → base_ok → interleaves sent arrived →
  arrived = pre ++ rest → rx_inv r pre → receiveReady r = true ↔ Forall is_done rest.
Proof.
  intros Hm Hh Hb Hi Ea Hr. pose proof (interleaves_NoDup _ _ Hi (honest_nodup _ _ _ _ _ Hh)) as Hnd.
  assert (Hown : own_ends pre) by exact (own_ends_prefix sent arrived Hh Hi pre rest Ea).
  assert (Hsent : ∀ x, x ∈ pre ∨ x ∈ rest ↔ x ∈ sent).
  { intros x. rewrite <- (interleaves_elem _ _ x Hi), Ea. set_solver. }
  rewrite Ea in Hnd. apply NoDup_app in Hnd as (Hnp & Hdisj & Hnr).
  unfold receiveReady. rewrite (ri_manifest _ _ Hr), (ri_ended _ _ Hr), andb_true_iff, Z.eqb_eq, items_ready_iff.
  split.
  - intros [Hended Hcomp]. pose proof (ended_all pre Hnp Hown Hended) as Hall.
    apply Forall_forall. intros [k a] Hx. assert (Hxs : (k, a) ∈ sent) by (apply Hsent; by right).
    unfold is_done. destruct a as [i|i off d|i|]; [..|done]; exfalso; apply (Hdisj (k, _)) in Hx; try done.
    + destruct (honest_open _ _ _ _ _ Hh k i Hxs) as [Hri ->].
      pose proof (Hall i Hri) as Hin. apply list_elem_of_split in Hin as (p1 & p2 & Epre).
      assert ((item_conn conns i, AOpen i) ∈ p1); [|rewrite Epre; set_solver].
      apply (before_in sent arrived Hh Hi _ (item_conn conns i, AEnd i) p1 (p2 ++ rest)); [|by apply (honest_stream _ _ _ _ _ Hh)|done].
      by rewrite Ea, Epre, <- (assoc_L (++)).
    + destruct (honest_chunk _ _ _ _ _ Hh k i off d Hxs) as (it & Hit & Hne & Hoff & Hend & _).
      assert (Hpos : 0 < zlen d) by (unfold zlen; destruct d; [done|]; cbn [length]; lia).
      destruct (ri_coverage _ _ Hr i (zlookup_Some _ _ _ Hit)) as (rs & Hl & Hwf & Hcb).
      assert (Hn : Items man !! Z.to_nat i = Some it) by (unfold zlookup in Hit; by case_if).
      destruct (Hcomp _ _ Hn) as (rs' & Hl' & Hc). rewrite Nat.add_0_l, Z2Nat.id in Hl' by (apply zlookup_Some in Hit; lia).
      rewrite Hl in Hl'. injection Hl' as <-.
      assert (Hcov : covered rs off).
      { apply (Complete_spec rs (Size it)); try done; [lia|intros b Hb'; apply Hcb in Hb' as [?|(k' & o & d' & Hin & ?)]|lia].
        - pose proof (Hb i it Hit). lia.
        - destruct (honest_chunk _ _ _ _ _ Hh k' i o d') as (it' & Hit' & _ & _ & ? & _); [apply Hsent; by left|].
          rewrite Hit in Hit'. injection Hit' as <-. unfold in_chunk in *. lia. }
      apply Hcb in Hcov as [?|(k' & o & d' & Hin & Hb')]; [lia|].
      assert ((k, AChunk i off d) = (k', AChunk i o d')) as ->; [|done].
      apply (honest_disjoint _ _ _ _ _ Hh k k' i off o d d' off); [done|apply Hsent; by left|unfold in_chunk; lia|done].
    + destruct (honest_end _ _ _ _ _ Hh k i Hxs) as [Hri ->]. by apply Hall.
  - intros Hdone. rewrite Forall_forall in Hdone.
    assert (Hpre : ∀ k a, (k, a) ∈ sent → a ≠ ADone → (k, a) ∈ pre).
    { intros k a Hin Hne. apply Hsent in Hin as [?|Hin]; [done|]. by apply Hdone in Hin. }
    split.
    + assert (Hsub : (Z.of_nat <$> seq 0 (length (Items man))) ⊆+ ended pre).
      { apply NoDup_submseteq; [apply NoDup_fmap_2; [intros ??; lia|apply NoDup_seq]|].
        intros i (n & -> & Hn)%list_elem_of_fmap. apply elem_of_seq in Hn. apply elem_of_ended.
        exists (item_conn conns (Z.of_nat n)). apply Hpre; [|done].
        destruct (precedes_elem _ _ _ (honest_stream _ _ _ _ _ Hh (Z.of_nat n) ltac:(unfold zlen; lia))). done. }
      apply submseteq_length in Hsub. rewrite length_fmap, length_seq in Hsub.
      pose proof (ended_le pre Hnp Hown). unfold zlen in *. lia.
    + intros n it Hl. assert (Hit : zlookup (Items man) (Z.of_nat n) = Some it) by (by rewrite zlookup_of_nat).
      destruct (ri_coverage _ _ Hr (Z.of_nat n) (zlookup_Some _ _ _ Hit)) as (rs & Hrs & Hwf & Hcb).
      exists rs. split; [done|]. pose proof (Hb _ _ Hit). apply Complete_spec; [done|lia| |].
      * intros b Hb'. apply Hcb in Hb' as [?|(k' & o & d' & Hin & ?)]; [lia|].
        destruct (honest_chunk _ _ _ _ _ Hh k' (Z.of_nat n) o d') as (it' & Hit' & _ & _ & ? & _); [apply Hsent; by left|].
        rewrite Hit in Hit'. injection Hit' as <-. unfold in_chunk in *. lia.
      * intros b Hbb. apply Hcb. destruct (decide (b < base (Z.of_nat n))); [left; lia|right].
        destruct (honest_full _ _ _ _ _ Hh _ _ b Hit ltac:(lia)) as (k & o & d & Hin & ?).
        exists k, o, d. split; [by apply Hpre|done].
Qed.

(** ** The loop *)

Definition delivers (received : receivedPipeMessage) (x : Z * action) : Prop :=
  pipeIndex received = fst x ∧ ∃ m, content received = Ok m ∧ renders (snd x) m.

(** Events up to [EventDone], as [Receive] takes them; [true] when it came. *)
Fixpoint receive_until_done (fuel : nat) (s : TransferSession) (inbox : list receivedPipeMessage)
    : list TransferEvent * bool :=
  match fuel with
  | O => ([], false)
  | S fuel =>
      match ReceiveEvent s inbox with
      | Event EventDone _ _ => ([EventDone], true)
      | Event ev s inbox => let '(evs, done) := receive_until_done fuel s inbox in (ev :: evs, done)
      | _ => ([], false)
      end
  end.

Section loop.
Context (sent arrived : list (Z * action)).
Context (Hm : manifest_for) (Hh : honest conns stripe (Items man) base sent) (Hb : base_ok).
Context (Hi : interleaves sent arrived).

(** What has arrived before, and what is still to come. *)
Record loop_inv (s : TransferSession) (inbox : list receivedPipeMessage) (pre rest : list (Z * action)) : Prop := {
  li_session : session_for s;
  li_arrived : arrived = pre ++ rest;
  li_rx : rx_inv (rx s) pre;
  li_done : pendingDone (rx s) = true ↔ (0, ADone) ∈ pre;
  li_rest : Forall2 delivers (deferredMessages (rx s) ++ inbox) rest;
}.

Lemma session_for_rx s r : session_for s → session_for (with_rx s r).
Proof. intros [? ? ? ?]. by constructor. Qed.

Lemma rx_inv_deferred r d b pre : rx_inv r pre → rx_inv (with_pendingDone (with_deferred r d) b) pre.
Proof. intros [? ? ? ? ?]. by constructor. Qed.

Lemma receiveMessage_next s inbox pre x rest :
  loop_inv s inbox pre (x :: rest) →
  ∃ received d inbox', receiveMessage s inbox = Some (received, with_rx s (with_deferred (rx s) d), inbox') ∧
    delivers received x ∧ Forall2 delivers (d ++ inbox') rest.
Proof.
  intros [_ _ Hr _ Hf]. unfold receiveMessage. rewrite (ri_manifest _ _ Hr).
  destruct (deferredMessages (rx s)) as [|received d] eqn:Ed.
  - destruct inbox as [|received inbox]; inversion Hf; subst. exists received, [], inbox.
    split; [|done]. do 2 f_equal. destruct s as [? ? ? ? ? []]. cbn in *. by subst.
  - inversion Hf; subst. by exists received, d, inbox.
Qed.

Lemma rx_inv_done r pre k : rx_inv r pre → rx_inv r (pre ++ [(k, ADone)]).
Proof.
  intros [? ? Hst He Hc]. constructor; try done.
  - intros i st Hi'. rewrite !elem_of_snoc. destruct (Hst i st Hi') as [-> ->]. naive_solver.
  - rewrite He, ended_app. cbn. by rewrite app_nil_r.
  - by apply coverage_snoc_other.
Qed.

(** Everything but [done] has arrived: the event is [EventDone]. *)
Lemma loop_done fuel s inbox pre rest :
  loop_inv s inbox pre rest → (0 < fuel)%nat → Forall is_done rest →
  ∃ s' inbox', receive_loop fuel s inbox = Event EventDone s' inbox'.
Proof.
  intros Hl Hfuel Hd. pose proof Hl as [Hs Ea Hr Hp Hf]. destruct fuel as [|fuel]; [lia|]. cbn [receive_loop].
  assert (Hready : receiveReady (rx s) = true) by (by apply (ready_iff _ sent arrived pre rest)). rewrite Hready.
  destruct (pendingDone (rx s)) eqn:Epd; [by do 2 eexists|]. cbn [andb].
  assert (Hin : (0, ADone) ∈ rest).
  { destruct (honest_done _ _ _ _ _ Hh) as [Hd0 _]. apply (arrived_sent sent arrived Hi) in Hd0.
    rewrite Ea in Hd0. apply elem_of_app in Hd0 as [Hd0|?]; [|done]. apply Hp in Hd0. congruence. }
  destruct rest as [|x rest]; [by apply not_elem_of_nil in Hin|].
  destruct (receiveMessage_next s inbox pre x rest Hl) as (received & d & inbox' & -> & [Hc (m & Hcm & Hren)] & _).
  rewrite Hcm. set (s1 := with_rx s (with_deferred (rx s) d)).
  assert (Hr1 : rx_inv (rx s1) pre) by (destruct Hr; by constructor).
  assert (Hs1 : session_for s1) by by apply session_for_rx.
  rewrite (ri_manifest _ _ Hr1). rewrite bool_decide_eq_false_2 by done. cbn [andb].
  assert (Hx : x ∈ sent) by (apply (arrived_sent sent arrived Hi); rewrite Ea; set_solver).
  destruct x as [k a]. inversion Hd as [|? ? Hxd _]; subst. unfold is_done in Hxd. cbn [snd fst] in *. subst a.
  rewrite Hc, (channel_ok s1 sent k ADone m) by done. rewrite Hren. cbn [String.eqb Ascii.eqb Bool.eqb].
  assert (Hready1 : receiveReady (rx s1) = true) by exact Hready. rewrite Hready1, andb_false_r.
  unfold message_event. rewrite Hren. cbn. rewrite (ri_manifest _ _ Hr). cbn. by do 2 eexists.
Qed.

(** Some data is missing: the event is that of the first message that is no
    [done]. *)
Lemma loop_data dones fuel s inbox pre k a rest :
  loop_inv s inbox pre (dones ++ (k, a) :: rest) → (length dones < fuel)%nat → Forall is_done dones → a ≠ ADone →
  ∃ s' inbox', receive_loop fuel s inbox = Event (event_of a) s' inbox' ∧
    loop_inv s' inbox' (pre ++ dones ++ [(k, a)]) rest.
Proof.
  revert fuel s inbox pre. induction dones as [|x dones IH]; intros fuel s inbox pre Hl Hfuel Hd Ha;
    pose proof Hl as [Hs Ea Hr Hp Hf]; (destruct fuel as [|fuel]; [simpl in Hfuel; lia|]); cbn [receive_loop];
    (assert (Hready : receiveReady (rx s) = false);
      [apply not_true_is_false; rewrite (ready_iff _ sent arrived pre _ Hm Hh Hb Hi Ea Hr);
       intros Hall; rewrite Forall_forall in Hall; apply Ha, (Hall (k, a)); set_solver|]);
    rewrite Hready, andb_false_r.
  - destruct (receiveMessage_next s inbox pre (k, a) rest Hl) as (received & d & inbox' & -> & [Hc (m & Hcm & Hren)] & Hf').
    rewrite Hcm. cbn [fst snd] in *. set (s1 := with_rx s (with_deferred (rx s) d)).
    assert (Hr1 : rx_inv (rx s1) pre) by (destruct Hr; by constructor).
    assert (Hs1 : session_for s1) by by apply session_for_rx.
    rewrite (ri_manifest _ _ Hr1). rewrite bool_decide_eq_false_2 by done. cbn [andb].
    assert (Hx : (k, a) ∈ sent) by (apply (arrived_sent sent arrived Hi); rewrite Ea; set_solver).
    rewrite Hc, (channel_ok s1 sent k a m) by done.
    assert (Hty : String.eqb (MType m) "done" = false).
    { destruct a; simpl in Hren; try done; by destruct Hren as [-> _]. }
    rewrite Hty. cbn [andb].
    assert (Hstep : ∃ r', message_event s1 m = Ok (event_of a, r') ∧ rx_inv r' (pre ++ [(k, a)]) ∧
      deferredMessages r' = deferredMessages (rx s1) ∧ pendingDone r' = pendingDone (rx s1)).
    { destruct a as [i|i off data|i|]; [| | |done].
      - by apply (step_open s1 sent arrived pre rest Hs1 Hm Hh Hi k i m).
      - apply (step_chunk s1 sent arrived pre rest Hs1 Hm Hh Hi k i off data m); try done.
        intros j Hj. destruct (proj2 (zlookup_is_Some (Items man) j) Hj) as [it Hit]. by apply (Hb j it).
      - by apply (step_end s1 sent arrived pre rest Hm Hh Hi k i m). }
    destruct Hstep as (r' & -> & Hr' & Hdef & Hpend). do 2 eexists. split; [done|]. constructor.
    + apply session_for_rx, Hs1.
    + by rewrite Ea, <- (assoc_L (++)).
    + done.
    + cbn [with_rx rx]. rewrite Hpend. cbn [s1 with_rx rx with_deferred pendingDone app]. rewrite Hp, elem_of_snoc.
      split; [by left|]. intros [?|E]; [done|]. injection E as _ E. by destruct Ha.
    + cbn [with_rx rx]. rewrite Hdef. done.
  - inversion Hd as [|? ? Hx Hd']; subst. destruct x as [k0 a0]. unfold is_done in Hx. cbn [snd] in Hx. subst a0.
    destruct (receiveMessage_next s inbox pre (k0, ADone) (dones ++ (k, a) :: rest) Hl)
      as (received & d & inbox' & -> & [Hc (m & Hcm & Hren)] & Hf').
    rewrite Hcm. cbn [fst snd renders] in *. set (s1 := with_rx s (with_deferred (rx s) d)).
    assert (Hr1 : rx_inv (rx s1) pre) by (destruct Hr; by constructor).
    assert (Hs1 : session_for s1) by by apply session_for_rx.
    rewrite (ri_manifest _ _ Hr1). rewrite bool_decide_eq_false_2 by done. cbn [andb].
    assert (Hxs : (k0, ADone) ∈ sent) by (apply (arrived_sent sent arrived Hi); rewrite Ea; set_solver).
    rewrite Hc, (channel_ok s1 sent k0 ADone m) by done. rewrite Hren. cbn [String.eqb Ascii.eqb Bool.eqb].
    rewrite bool_decide_eq_true_2 by done. assert (receiveReady (rx s1) = false) as -> by exact Hready. cbn [andb negb].
    destruct (IH fuel (with_rx s1 (with_pendingDone (rx s1) true)) inbox' (pre ++ [(k0, ADone)])) as (s' & i' & El & Hl');
      [|simpl in Hfuel; lia|done|done|].
    + constructor.
      * by apply session_for_rx.
      * by rewrite Ea, <- (assoc_L (++)).
      * cbn [with_rx rx]. apply rx_inv_done. destruct Hr1; by constructor.
      * cbn. split; [|done]. intros _. apply elem_of_snoc. right.
        by destruct (honest_done _ _ _ _ _ Hh) as [_ Hk]; rewrite (Hk k0 Hxs).
      * exact Hf'.
    + exists s', i'. split; [done|]. by rewrite <- (assoc_L (++)) in Hl'.
Qed.
End loop.

Lemma split_first_data (rest : list (Z * action)) :
  Forall is_done rest ∨ ∃ dones k a rest', rest = dones ++ (k, a) :: rest' ∧ Forall is_done dones ∧ a ≠ ADone.
Proof.
  induction rest as [|[k a] rest IH]; [by left|]. destruct (decide (a = ADone)) as [->|Hne].
  - destruct IH as [?|(dones & k' & a' & rest' & -> & ? & ?)]; [left; by constructor|].
    right. exists ((k, ADone) :: dones), k', a', rest'. split_and!; [done|by constructor|done].
  - right. by exists [], k, a, rest.
Qed.

Definition is_data (x : Z * action) : bool := match snd x with ADone => false | _ => true end.

Lemma dones_no_data dones : Forall is_done dones → List.filter is_data dones = [].
Proof.
  induction 1 as [|[k a] l Hx _ IH]; [done|]. unfold is_done in Hx. cbn [snd] in Hx. subst a. exact IH.
Qed.

Lemma receive_all sent arrived s inbox pre rest n :
  manifest_for → honest conns stripe (Items man) base sent → base_ok → interleaves sent arrived →
  loop_inv arrived s inbox pre rest → (length rest < n)%nat →
  receive_until_done n s inbox =
    (((fun x => event_of (snd x)) <$> List.filter is_data rest) ++ [EventDone], true).
Proof.
  intros Hm Hh Hb Hi. revert s inbox pre rest. induction n as [|n IH]; intros s inbox pre rest Hl Hn; [lia|].
  cbn [receive_until_done]. unfold ReceiveEvent.
  assert (Hlen : (length rest < receive_fuel s inbox)%nat).
  { pose proof (Forall2_length _ _ _ (li_rest _ _ _ _ _ Hl)) as Hlen. rewrite length_app in Hlen. unfold receive_fuel. lia. }
  destruct (split_first_data rest) as [Hd|(dones & k & a & rest' & -> & Hd & Ha)].
  - destruct (loop_done sent arrived Hm Hh Hb Hi (receive_fuel s inbox) s inbox pre rest Hl ltac:(lia) Hd) as (s' & i' & ->).
    by rewrite dones_no_data.
  - rewrite length_app in Hlen, Hn. cbn [length] in *.
    destruct (loop_data sent arrived Hm Hh Hb Hi dones (receive_fuel s inbox) s inbox pre k a rest' Hl ltac:(lia) Hd Ha)
      as (s' & i' & -> & Hl').
    rewrite List.filter_app, dones_no_data by done. cbn [app List.filter].
    assert (Hdat : is_data (k, a) = true) by (by destruct a). rewrite Hdat. cbn [fmap list_fmap app].
    rewrite (IH s' i' _ rest' Hl') by lia. by destruct a.
Qed.
End receive.

(** ** From the first message to [EventDone] *)

(** The offset an item is resumed from. *)
Definition base_of (entries : list ResumeEntry) : Z → Z :=
  foldl (fun f e i => if i =? REItem e then REOffset e else f i) (fun _ => 0) entries.

(** Messages of the data connections, which wait for the manifest. *)
Definition data_messages (l : list receivedPipeMessage) : Prop :=
  Forall (fun r => pipeIndex r ≠ 0 ∧ ∃ m, content r = Ok m) l.

Section transfer.
Context `{CaseTables} `{Crypto} `{Gzip} `{JSON Message message_utf8} `{JSON tenvelope tenvelope_utf8}.
Context (conns : Z) (stripe : bool) (zip : string) (man : Manifest) (plan : Plan).

Lemma fresh_coverage_lookup n i :
  0 ≤ i < Z.of_nat n → fresh_coverage n !! i = Some (newByteRanges 0).
Proof.
  intros Hi. unfold fresh_coverage. apply elem_of_list_to_map_1'.
  - intros y (j & [= -> ->] & _)%list_elem_of_fmap. done.
  - apply list_elem_of_fmap. exists (Z.to_nat i). rewrite elem_of_seq. split; [f_equal|]; lia.
Qed.

Lemma resume_coverage (cov : gmap Z byteRanges) entries base i :
  cov !! i = Some (newByteRanges (base i)) →
  foldl (fun c e => <[REItem e := newByteRanges (REOffset e)]> c) cov entries !! i =
  Some (newByteRanges (foldl (fun f e j => if j =? REItem e then REOffset e else f j) base entries i)).
Proof.
  revert cov base. induction entries as [|e entries IH]; intros cov base Hc; cbn [foldl]; [done|].
  apply (IH _ (fun j => if j =? REItem e then REOffset e else base j)).
  destruct (Z.eqb_spec i (REItem e)) as [->|Hne]; [by rewrite lookup_insert_eq|]. by rewrite lookup_insert_ne.
Qed.

Lemma check_entries_base plan' items seen entries entries' :
  (∀ i it, zlookup items i = Some it → 0 ≤ Size it) →
  check_entries plan' items seen entries = Ok entries' →
  Forall (fun e => ∀ it, zlookup items (REItem e) = Some it → 0 ≤ REOffset e ≤ Size it) entries'.
Proof.
  intros Hsz. revert seen entries'. induction entries as [|e entries IH]; intros seen entries' Hc; cbn [check_entries] in Hc; res_inv; [constructor|].
  constructor; [|by eapply IH].
  match goal with Hv : ValidateResumeEntry _ _ _ = Ok _ |- _ => apply ValidateResumeEntry_inv in Hv as (it & Hit & _ & _ & -> & _) end.
  cbn [REItem REOffset]. intros it' Hit'. rewrite Hit in Hit'. injection Hit' as <-. apply clampInt64_range, (Hsz _ _ Hit).
Qed.

Lemma base_of_ok items entries :
  (∀ i it, zlookup items i = Some it → 0 ≤ Size it) →
  Forall (fun e => ∀ it, zlookup items (REItem e) = Some it → 0 ≤ REOffset e ≤ Size it) entries →
  ∀ i it, zlookup items i = Some it → 0 ≤ base_of entries i ≤ Size it.
Proof.
  intros Hsz He. unfold base_of. assert (Hz : ∀ i it, zlookup items i = Some it → 0 ≤ (fun _ : Z => 0) i ≤ Size it).
  { intros i it Hit. pose proof (Hsz i it Hit). lia. }
  revert Hz. generalize (fun _ : Z => 0) as base. induction He as [|e entries He _ IH]; intros base Hz; cbn [foldl]; [done|].
  apply IH. intros i it Hit. cbv beta. case_if; bool_prop; [subst; by apply He|by apply Hz].
Qed.

Definition waiting_rx (d : list receivedPipeMessage) : receiving := MkReceiving None None (NewTracker None) d false 0 ∅.
Definition manifest_rx (d : list receivedPipeMessage) : receiving :=
  MkReceiving (Some man) (Some plan) (NewTracker (Some plan)) d false 0 (fresh_coverage (length (Items man))).

(** Data messages before the manifest are kept for later. *)
Lemma manifest_loop s before mm tail d fuel :
  data_messages before → MType mm = "manifest"%string → MManifest mm = Some man →
  PlanFromManifest (Some man) = Ok plan → rx s = waiting_rx d → (length before < fuel)%nat →
  receive_loop fuel s (before ++ MkReceived 0 (Ok mm) :: tail) =
  Event (EventManifest man) (with_rx s (manifest_rx (d ++ before))) tail.
Proof.
  intros Hb Hty Hman Hplan. revert s d fuel. induction Hb as [|r before [Hne [m Hc]] _ IH]; intros s d fuel Hr Hf;
    (destruct fuel as [|fuel]; [simpl in Hf; lia|]); cbn [receive_loop app]; rewrite Hr; cbn [waiting_rx pendingDone andb];
    unfold receiveMessage; rewrite Hr; cbn [waiting_rx receiveManifest pipeIndex content].
  - rewrite Hr. cbn [waiting_rx receiveManifest]. rewrite Z.eqb_refl, andb_false_r.
    unfold validateMessageChannel. rewrite Hty. cbn [String.eqb Ascii.eqb Bool.eqb orb andb negb fail_if Z.eqb].
    unfold message_event. rewrite Hty, Hman, Hr. cbn [String.eqb Ascii.eqb Bool.eqb waiting_rx receiveManifest].
    rewrite bool_decide_eq_false_2 by (by intros []). cbn [fail_if mbind result_bind]. rewrite Hplan.
    cbn [wrap_err mbind result_bind]. by rewrite app_nil_r.
  - rewrite Hc, Hr. cbn [waiting_rx receiveManifest]. rewrite bool_decide_eq_true_2 by done.
    replace (pipeIndex r =? 0) with false by (symmetry; by apply Z.eqb_neq). cbn [andb negb].
    rewrite (IH _ (d ++ [r])); [|unfold defer; rewrite Hr; done|simpl in Hf; lia].
    unfold defer. rewrite <- (assoc_L (++)). done.
Qed.

Lemma accept_loop s mid am rest d :
  data_messages mid → MType am = "resume_accept"%string → rx s = manifest_rx d →
  receiveControlMessage s (mid ++ MkReceived 0 (Ok am) :: rest) =
  Some (Ok am, with_rx s (manifest_rx (d ++ mid)), rest).
Proof.
  intros Hb Hty. revert s d. induction Hb as [|r mid [Hne [m Hc]] _ IH]; intros s d Hr; cbn [receiveControlMessage app content pipeIndex].
  - rewrite Z.eqb_refl. unfold validateMessageChannel. rewrite Hty. cbn. rewrite app_nil_r.
    do 2 f_equal. f_equal. destruct s. cbn in *. by subst.
  - rewrite Hc. replace (pipeIndex r =? 0) with false by (symmetry; by apply Z.eqb_neq).
    rewrite (IH _ (d ++ [r])) by (unfold defer; rewrite Hr; done). unfold defer.
    rewrite <- (assoc_L (++)). done.
Qed.

(** C2: whatever order the connections deliver an honest transfer in, the data
    messages that overtake the manifest and the resume answer included, the
    receiver returns the manifest, then the agreed resume entries, then one
    event per data message, and at the end [EventDone], without an error and
    without waiting for a message that does not come. *)
Theorem transfer_received s0 mm am before mid rest entries sent arrived :
  session_for conns stripe zip s0 → rx s0 = waiting_rx [] →
  MType mm = "manifest"%string → MManifest mm = Some man → PlanFromManifest (Some man) = Ok plan →
  zlen (Items man) ≤ int64_max → (∀ i it, zlookup (Items man) i = Some it → 0 ≤ Size it ≤ int64_max) →
  MType am = "resume_accept"%string → check_entries (Some plan) (Items man) [] (MResume am) = Ok entries →
  data_messages before → data_messages mid →
  honest conns stripe (Items man) (base_of entries) sent → interleaves sent arrived →
  Forall2 (delivers zip plan) (before ++ mid ++ rest) arrived →
  ∃ s1 s2,
    ReceiveEvent s0 (before ++ MkReceived 0 (Ok mm) :: mid ++ MkReceived 0 (Ok am) :: rest) =
      Event (EventManifest man) s1 (mid ++ MkReceived 0 (Ok am) :: rest) ∧
    WaitResumeAccept s1 (Items man) (mid ++ MkReceived 0 (Ok am) :: rest) = Some (Ok entries, s2, rest) ∧
    receive_until_done (S (length arrived)) s2 rest =
      (((fun x => event_of plan (snd x)) <$> List.filter is_data arrived) ++ [EventDone], true).
Proof.
  intros Hs Hr Hmt Hmm Hplan Hcount Hsize Hat Hent Hbef Hmid Hh Hi Hdel.
  set (s1 := with_rx s0 (manifest_rx before)).
  set (s2 := with_rx s1 (applyReceiveResume (manifest_rx (before ++ mid)) entries)).
  exists s1, s2. split; [|split].
  - unfold ReceiveEvent. rewrite (manifest_loop _ _ _ _ []); try done.
    unfold receive_fuel. rewrite length_app. lia.
  - unfold WaitResumeAccept. rewrite (accept_loop _ _ _ _ before) by done. rewrite Hat. cbn.
    by rewrite Hent.
  - pose proof (PlanFromManifest_spec man) as Hp. rewrite Hplan in Hp. destruct Hp as [Hp _].
    assert (Hsz : ∀ i it, zlookup (Items man) i = Some it → 0 ≤ Size it)
      by (intros i it Hit; pose proof (Hsize i it Hit); lia).
    assert (Hmf : manifest_for man plan)
      by (constructor; [done|done|intros i it Hit; pose proof (Hsize i it Hit); lia]).
    apply (receive_all conns stripe zip man plan (base_of entries) sent arrived s2 rest [] arrived); try done.
    + intros i it Hit. apply (base_of_ok (Items man)); [done| |done]. by eapply check_entries_base.
    + constructor; try done.
      * destruct Hs. by constructor.
      * constructor; try done.
        -- intros i st _. unfold Tracker_state. cbn. rewrite lookup_empty. cbn. rewrite !elem_of_nil. done.
        -- intros i Hi'. cbn. exists (newByteRanges (base_of entries i)). split.
           { apply resume_coverage. apply fresh_coverage_lookup. by unfold zlen in Hi'. }
           split; [apply newByteRanges_wf|]. intros b. rewrite newByteRanges_covered.
           unfold arrived_chunk. split; [by left|]. intros [?|(? & ? & ? & Hin & _)]; [done|by apply not_elem_of_nil in Hin].
      * cbn. by rewrite elem_of_nil.
      * cbn. by rewrite <- (assoc_L (++)).
    + lia.
Qed.
End transfer.

(** ** Example: two items, three connections, a resumed file *)

Definition demo_pipe (i : Z) : securePipe :=
  MkPipe i (Secure.MkSession [] []) (Secure.MkSession [] []) 0 0 compressionGzip true true.
Definition demo_session : TransferSession := newTransferSessionWithPipes (demo_pipe <$> [0; 1; 2]) [].
Definition demo_file : Item := MkItem ItemFile "a.txt" 3 0 420 "" "" "" ChunkSize true.
Definition demo_dir : Item := MkItem ItemDirectory "d" 0 0 493 "" "" "" ChunkSize false.
Definition demo_manifest : Manifest := MkManifest Version [demo_file; demo_dir] (sequential_bindings 1 2).
Definition demo_accept : ResumeEntry := MkResumeEntry 0 None 1 "" "" false false.

Definition demo_sent : list (Z * action) :=
  [(2, AOpen 1); (2, AEnd 1); (1, AOpen 0); (1, AChunk 0 1 ["b"%char]); (2, AChunk 0 2 ["c"%char]);
   (1, AEnd 0); (0, ADone)].
Definition demo_arrived : list (Z * action) :=
  [(1, AOpen 0); (2, AOpen 1); (0, ADone); (2, AEnd 1); (2, AChunk 0 2 ["c"%char]); (1, AChunk 0 1 ["b"%char]); (1, AEnd 0)].

Definition demo_message (a : action) : Message :=
  match a with
  | AOpen i => stream_message "stream_open" i (i + 1) 7
  | AChunk i off data => MkMessage "chunk" 0 None [] i (Some (i + 1)) off (EncodeToString data) "" "" 7 ""
  | AEnd i => stream_message "stream_end" i (i + 1) 7
  | ADone => typed_message "done" 7
  end.
Definition demo_received (x : Z * action) : receivedPipeMessage := MkReceived (fst x) (Ok (demo_message (snd x))).

Ltac elem_cases :=
  repeat match goal with
  | Hx : _ ∈ _ :: _ |- _ => apply elem_of_cons in Hx as [Hx|Hx]
  | Hx : _ ∈ [] |- _ => by apply not_elem_of_nil in Hx
  end; simplify_eq.

Lemma demo_items i it : zlookup (Items demo_manifest) i = Some it → (i = 0 ∧ it = demo_file) ∨ (i = 1 ∧ it = demo_dir).
Proof.
  intros Hi. assert (Hr : 0 ≤ i < 2) by by apply zlookup_Some in Hi.
  assert (i = 0 ∨ i = 1) as [-> | ->] by lia; injection Hi as <-; auto.
Qed.

Lemma demo_honest : honest 3 true (Items demo_manifest) (base_of [demo_accept]) demo_sent.
Proof.
  constructor.
  - apply (bool_decide_unpack _). by vm_compute.
  - split; [by repeat (first [left|right])|]. intros k Hin. unfold demo_sent in Hin. by elem_cases.
  - intros k i Hin. unfold demo_sent in Hin. elem_cases; done.
  - intros k i Hin. unfold demo_sent in Hin. elem_cases; done.
  - intros i Hi. change (zlen (Items demo_manifest)) with 2 in Hi. assert (i = 0 ∨ i = 1) as [-> | ->] by lia.
    + exists [(2, AOpen 1); (2, AEnd 1)], (drop 3 demo_sent). split; [done|]. cbn. set_solver.
    + exists [], (drop 1 demo_sent). split; [done|]. cbn. set_solver.
  - intros k i off data Hin. unfold demo_sent in Hin. elem_cases; exists demo_file; by split_and!.
  - intros k k' i off off' data data' b Hin Hin'. unfold demo_sent in Hin, Hin'.
    elem_cases; unfold in_chunk, zlen; cbn; intros; (done || lia).
  - intros i it b [[-> ->]|[-> ->]]%demo_items Hb; cbn in Hb; [|lia].
    assert (b = 1 ∨ b = 2) as [-> | ->] by lia.
    + exists 1, 1, ["b"%char]. split; [|unfold in_chunk, zlen; cbn; lia]. unfold demo_sent. set_solver.
    + exists 2, 2, ["c"%char]. split; [|unfold in_chunk, zlen; cbn; lia]. unfold demo_sent. set_solver.
Qed.

Lemma demo_interleaves : interleaves demo_sent demo_arrived.
Proof.
  intros k. destruct (decide (k = 0)) as [->|]; [by vm_compute|]. destruct (decide (k = 1)) as [->|]; [by vm_compute|].
  destruct (decide (k = 2)) as [->|]; [by vm_compute|].
  unfold demo_sent, demo_arrived. rewrite !filter_cons_False by (cbn; unfold on_conn; cbn; congruence). done.
Qed.

Lemma demo_delivers `{Gzip} l :
  (∀ x, x ∈ l → x ∈ demo_arrived) → Forall2 (delivers compressionGzip (NewPlan 2)) (demo_received <$> l) l.
Proof.
  intros Hl. apply Forall2_fmap_l, Forall_Forall2_diag, Forall_forall. intros x Hx%Hl. unfold demo_arrived in Hx.
  split; [done|]. exists (demo_message (snd x)). split; [done|].
  elem_cases; unfold renders; cbn [fst snd demo_message]; try done; split_and!; try done; try by vm_compute.
  - exists ["c"%char]. split; [by vm_compute|done].
  - exists ["b"%char]. split; [by vm_compute|done].
Qed.

Lemma transfer_received_witness :
  let Ht := ascii_tables in let Hg := demo_gzip in
  let before := demo_received <$> take 1 demo_arrived in
  let mid := demo_received <$> take 1 (drop 1 demo_arrived) in
  let rest := demo_received <$> drop 2 demo_arrived in
  let mm := MkMessage "manifest" Version (Some demo_manifest) [] 0 None 0 "" "" "" 0 "" in
  let am := resume_message "resume_accept" [demo_accept] 7 in
  ∃ s1 s2,
    ReceiveEvent demo_session (before ++ MkReceived 0 (Ok mm) :: mid ++ MkReceived 0 (Ok am) :: rest) =
      Event (EventManifest demo_manifest) s1 (mid ++ MkReceived 0 (Ok am) :: rest) ∧
    WaitResumeAccept s1 (Items demo_manifest) (mid ++ MkReceived 0 (Ok am) :: rest) = Some (Ok [demo_accept], s2, rest) ∧
    receive_until_done 8 s2 rest =
      ([EventStreamOpen 1 0; EventStreamOpen 2 1; EventStreamEnd 2 1; EventChunk 1 0 2 ["c"%char];
        EventChunk 1 0 1 ["b"%char]; EventStreamEnd 1 0; EventDone], true).
Proof.
  intros Ht Hg before mid rest mm am.
  apply (transfer_received 3 true compressionGzip demo_manifest (NewPlan 2) demo_session mm am before mid rest
           [demo_accept] demo_sent demo_arrived); try reflexivity.
  - constructor; (done || reflexivity).
  - by vm_compute.
  - intros i it [[-> ->]|[-> ->]]%demo_items; by vm_compute.
  - repeat constructor; try done. by eexists.
  - repeat constructor; try done. by eexists.
  - exact demo_honest.
  - exact demo_interleaves.
  - apply (demo_delivers demo_arrived). done.
Defined.
