(* ===== verification/Honest.v ===== *)
(** * Honest message lists

    How the messages of a transfer are put together so that they are [honest]:
    the chunks of a file tile it, the streams of the other items and of the
    finished files end at once, the rest end after all chunks. *)
From Stdlib Require Import ZArith Lia Ascii String.
From stdpp Require Import base tactics numbers list gmap strings.
From S2P Require Import Prelude GoStrings Protocol SessionProofs.

(** ** Chunks that follow each other *)

Fixpoint tiles (from : Z) (cs : list (Z * bytes)) (to : Z) : Prop :=
  match cs with
  | [] => from = to
  | (off, data) :: cs => off = from ∧ data ≠ [] ∧ tiles (from + zlen data) cs to
  end.

Lemma zlen_pos {A} (l : list A) : l ≠ [] → 0 < zlen l.
Proof. destruct l; [done|]. unfold zlen. simpl. lia. Qed.

Lemma tiles_snoc from cs to data : tiles from cs to → data ≠ [] → tiles from (cs ++ [(to, data)]) (to + zlen data).
Proof.
  revert from. induction cs as [|[off d] cs IH]; intros from; cbn.
  - intros -> Hd. by split_and!.
  - intros (-> & Hne & Ht) Hd. split_and!; try done. by apply IH.
Qed.

Lemma tiles_le from cs to : tiles from cs to → from ≤ to.
Proof.
  revert from. induction cs as [|[off d] cs IH]; intros from; cbn; [lia|].
  intros (-> & Hne%zlen_pos & Ht%IH). lia.
Qed.

Lemma tiles_elem from cs to off data : tiles from cs to → (off, data) ∈ cs → from ≤ off ∧ off + zlen data ≤ to ∧ data ≠ [].
Proof.
  revert from. induction cs as [|[o d] cs IH]; intros from; cbn; [by intros _ ?%not_elem_of_nil|].
  intros (-> & Hne & Ht) [[= -> ->]|Hin]%elem_of_cons.
  - split; [lia|]. split; [by eapply tiles_le|done].
  - destruct (IH _ Ht Hin) as (? & ? & ?). pose proof (zlen_pos d Hne). split_and!; try done. lia.
Qed.

Lemma tiles_disjoint from cs to off off' data data' b :
  tiles from cs to → (off, data) ∈ cs → (off', data') ∈ cs → in_chunk off data b → in_chunk off' data' b →
  (off, data) = (off', data').
Proof.
  unfold in_chunk. revert from. induction cs as [|[o d] cs IH]; intros from; cbn; [by intros _ ?%not_elem_of_nil|].
  intros (-> & Hne & Ht) [Hx|Hx]%elem_of_cons [Hy|Hy]%elem_of_cons Hb Hb'; [congruence| | |by eapply IH].
  - injection Hx as -> ->. destruct (tiles_elem _ _ _ _ _ Ht Hy) as (? & ? & _). lia.
  - injection Hy as -> ->. destruct (tiles_elem _ _ _ _ _ Ht Hx) as (? & ? & _). lia.
Qed.

Lemma tiles_full from cs to b : tiles from cs to → from ≤ b < to → ∃ off data, (off, data) ∈ cs ∧ in_chunk off data b.
Proof.
  unfold in_chunk. revert from. induction cs as [|[o d] cs IH]; intros from; cbn; [lia|].
  intros (-> & Hne & Ht) Hb. destruct (decide (b < from + zlen d)).
  - exists from, d. split; [by left|lia].
  - destruct (IH _ Ht) as (off & data & Hin & ?); [lia|]. exists off, data. split; [by right|done].
Qed.

Lemma tiles_NoDup from cs to : tiles from cs to → NoDup cs.
Proof.
  revert from. induction cs as [|[o d] cs IH]; intros from; cbn; [constructor|].
  intros (-> & Hne & Ht). constructor; [|by eapply IH].
  intros Hin. destruct (tiles_elem _ _ _ _ _ Ht Hin) as (? & _). pose proof (zlen_pos d Hne). lia.
Qed.

(** ** The parts of an action list *)

Implicit Types l : list (Z * action).

Definition opened l : list Z := omap (fun x => match snd x with AOpen i => Some i | _ => None end) l.
Definition chunks_of (i : Z) l : list (Z * bytes) :=
  omap (fun x => match snd x with AChunk j off data => if j =? i then Some (off, data) else None | _ => None end) l.
Definition dones l : list unit := omap (fun x => match snd x with ADone => Some tt | _ => None end) l.

Lemma elem_of_opened i l : i ∈ opened l ↔ ∃ k, (k, AOpen i) ∈ l.
Proof.
  unfold opened. rewrite list_elem_of_omap. split.
  - intros ([k [j|j off d|j|]] & Hin & Hx); cbn in Hx; simplify_eq. by exists k.
  - intros [k Hin]. by exists (k, AOpen i).
Qed.
Lemma elem_of_ended_at i l : i ∈ ended l ↔ ∃ k, (k, AEnd i) ∈ l.
Proof.
  unfold ended. rewrite list_elem_of_omap. split.
  - intros ([k [j|j off d|j|]] & Hin & Hx); cbn in Hx; simplify_eq. by exists k.
  - intros [k Hin]. by exists (k, AEnd i).
Qed.
Lemma elem_of_chunks i off data l : (off, data) ∈ chunks_of i l ↔ ∃ k, (k, AChunk i off data) ∈ l.
Proof.
  unfold chunks_of. rewrite list_elem_of_omap. split.
  - intros ([k [j|j o d|j|]] & Hin & Hx); cbn in Hx; try done. destruct (Z.eqb_spec j i) as [->|]; simplify_eq. by exists k.
  - intros [k Hin]. exists (k, AChunk i off data). split; [done|]. cbn. by rewrite Z.eqb_refl.
Qed.

Lemma chunks_of_app i l1 l2 : chunks_of i (l1 ++ l2) = chunks_of i l1 ++ chunks_of i l2.
Proof. apply omap_app. Qed.
Lemma chunks_of_none i l : (∀ k j off data, (k, AChunk j off data) ∈ l → j ≠ i) → chunks_of i l = [].
Proof.
  intros Hn. destruct (chunks_of i l) as [|[off data] cs] eqn:E; [done|]. exfalso.
  destruct (proj1 (elem_of_chunks i off data l)) as [k Hk]; [rewrite E; by left|]. by eapply Hn.
Qed.

Lemma NoDup_actions l :
  NoDup (opened l) → NoDup (ended l) → (∀ i, NoDup (chunks_of i l)) → NoDup (dones l) → NoDup l.
Proof.
  induction l as [|[k a] l IH]; intros Ho He Hc Hd; [constructor|]. constructor.
  - intros Hin. destruct a as [i|i off data|i|].
    + cbn in Ho. apply NoDup_cons in Ho as [Hn _]. apply Hn, elem_of_opened. by exists k.
    + specialize (Hc i). cbn in Hc. rewrite Z.eqb_refl in Hc. apply NoDup_cons in Hc as [Hn _].
      apply Hn, elem_of_chunks. by exists k.
    + cbn in He. apply NoDup_cons in He as [Hn _]. apply Hn, elem_of_ended_at. by exists k.
    + cbn in Hd. apply NoDup_cons in Hd as [Hn _]. apply Hn. unfold dones. apply list_elem_of_omap. by exists (k, ADone).
  - destruct a as [i|i off data|i|]; cbn in Ho, He, Hd; try apply NoDup_cons in Ho as [_ Ho];
      try apply NoDup_cons in He as [_ He]; try apply NoDup_cons in Hd as [_ Hd]; (apply IH; [done|done| |done]);
      intros j; specialize (Hc j); cbn in Hc; try done.
    case_match; [by apply NoDup_cons in Hc as [_ ?]|done].
Qed.

(** One chunk is on one connection. *)
Lemma chunk_unique i off data k k' l :
  NoDup (chunks_of i l) → (k, AChunk i off data) ∈ l → (k', AChunk i off data) ∈ l → k = k'.
Proof.
  induction l as [|[k0 a] l IH]; intros Hnd; [by intros ?%not_elem_of_nil|].
  intros Hx Hy. destruct (decide (a = AChunk i off data)) as [->|Hne].
  - cbn in Hnd. rewrite Z.eqb_refl in Hnd. apply NoDup_cons in Hnd as [Hn _].
    apply elem_of_cons in Hx as [[= ->]|Hx]; [|exfalso; apply Hn, elem_of_chunks; by exists k].
    apply elem_of_cons in Hy as [[= ->]|Hy]; [done|]. exfalso. apply Hn, elem_of_chunks. by exists k'.
  - apply elem_of_cons in Hx as [[= -> <-]|Hx]; [done|]. apply elem_of_cons in Hy as [[= -> <-]|Hy]; [done|].
    apply IH; try done. destruct a; cbn in Hnd; try done. case_match; [by apply NoDup_cons in Hnd as [_ ?]|done].
Qed.

Lemma precedes_app_l {A} (l l' : list (Z * A)) x y : precedes l x y → precedes (l ++ l') x y.
Proof. intros (l1 & l2 & -> & Hy). exists l1, (l2 ++ l'). split; [by rewrite <- (assoc_L (++))|]. apply elem_of_app. by left. Qed.
Lemma precedes_app_r {A} (l l' : list (Z * A)) x y : precedes l' x y → precedes (l ++ l') x y.
Proof. intros (l1 & l2 & -> & Hy). exists (l ++ l1), l2. split; [by rewrite <- (assoc_L (++))|done]. Qed.
Lemma precedes_across {A} (l l' : list (Z * A)) x y : x ∈ l → y ∈ l' → precedes (l ++ l') x y.
Proof.
  intros (l1 & l2 & ->)%list_elem_of_split Hy. exists l1, (l2 ++ l').
  split; [by rewrite <- (assoc_L (++))|]. apply elem_of_app. by right.
Qed.

(** ** The messages of a run, in order *)

Section assemble.
Context (conns : Z) (stripe : bool) (items : list Item) (base : Z → Z).
Context (others : list Z) (files : list (Z * bool)) (chunks : list (Z * action)).

Abbreviation at_conn i := (item_conn conns i).
Definition other_actions (ids : list Z) : list (Z * action) := ids ≫= fun i => [(at_conn i, AOpen i); (at_conn i, AEnd i)].
(** A file without anything to send ends at once. *)
Definition open_actions (fs : list (Z * bool)) : list (Z * action) :=
  fs ≫= fun '(i, finished) => (at_conn i, AOpen i) :: if finished : bool then [(at_conn i, AEnd i)] else [].
Definition end_actions (fs : list (Z * bool)) : list (Z * action) :=
  fs ≫= fun '(i, finished) => if finished : bool then [] else [(at_conn i, AEnd i)].
Definition all_actions : list (Z * action) :=
  other_actions others ++ open_actions files ++ chunks ++ end_actions files ++ [(0, ADone)].

Record assembled : Prop := {
  as_nodup : NoDup (others ++ files.*1);
  as_items i : 0 ≤ i < zlen items ↔ i ∈ others ++ files.*1;
  as_base i : 0 ≤ base i;
  as_other i it : i ∈ others → zlookup items i = Some it → Size it ≤ base i;
  as_finished i it : (i, true) ∈ files → zlookup items i = Some it → Size it ≤ base i;
  as_tiles i : (i, false) ∈ files → ∃ it, zlookup items i = Some it ∧ tiles (base i) (chunks_of i chunks) (Size it);
  as_chunks k a : (k, a) ∈ chunks →
    ∃ i off data, a = AChunk i off data ∧ (i, false) ∈ files ∧
      if stripe && (conns >? 1) then 0 < k < conns else k = at_conn i;
}.

Lemma other_actions_elem ids x : x ∈ other_actions ids ↔ ∃ i, i ∈ ids ∧ (x = (at_conn i, AOpen i) ∨ x = (at_conn i, AEnd i)).
Proof using Type. unfold other_actions. rewrite list_elem_of_bind. setoid_rewrite elem_of_cons. setoid_rewrite list_elem_of_singleton. clear base; naive_solver. Qed.
Lemma open_actions_elem fs x :
  x ∈ open_actions fs ↔ ∃ i b, (i, b) ∈ fs ∧ (x = (at_conn i, AOpen i) ∨ (b = true ∧ x = (at_conn i, AEnd i))).
Proof using Type.
  unfold open_actions. rewrite list_elem_of_bind. split.
  - intros ([i b] & Hx & Hin). exists i, b. split; [done|]. apply elem_of_cons in Hx as [->|Hx]; [by left|].
    destruct b; [|by apply not_elem_of_nil in Hx]. apply list_elem_of_singleton in Hx. by right.
  - intros (i & b & Hin & Hx). exists (i, b). split; [|done]. destruct Hx as [->|[-> ->]]; [by left|by right; left].
Qed.
Lemma end_actions_elem fs x : x ∈ end_actions fs ↔ ∃ i, (i, false) ∈ fs ∧ x = (at_conn i, AEnd i).
Proof using Type.
  unfold end_actions. rewrite list_elem_of_bind. split.
  - intros ([i b] & Hx & Hin). destruct b; [by apply not_elem_of_nil in Hx|]. apply list_elem_of_singleton in Hx. by exists i.
  - intros (i & Hin & ->). exists (i, false). split; [by left|done].
Qed.

Lemma other_parts ids : opened (other_actions ids) = ids ∧ ended (other_actions ids) = ids ∧ dones (other_actions ids) = [].
Proof. induction ids as [|i ids (IH1 & IH2 & IH3)]; [done|]. unfold opened, ended, dones, other_actions in *. cbn. by rewrite IH1, IH2, IH3. Qed.
Lemma open_parts fs :
  opened (open_actions fs) = fs.*1 ∧ ended (open_actions fs) = (List.filter snd fs).*1 ∧ dones (open_actions fs) = [].
Proof.
  induction fs as [|[i []] fs (IH1 & IH2 & IH3)]; [done|..]; unfold opened, ended, dones, open_actions in *; cbn;
    by rewrite IH1, IH2, IH3.
Qed.
Lemma end_parts fs :
  opened (end_actions fs) = [] ∧ ended (end_actions fs) = (List.filter (fun x => negb (snd x)) fs).*1 ∧ dones (end_actions fs) = [].
Proof.
  induction fs as [|[i []] fs (IH1 & IH2 & IH3)]; [done|..]; unfold opened, ended, dones, end_actions in *; cbn;
    by rewrite ?IH1, ?IH2, ?IH3.
Qed.

Hypothesis Ha : assembled.

Lemma chunk_parts : opened chunks = [] ∧ ended chunks = [] ∧ dones chunks = [].
Proof using Ha.
  pose proof (as_chunks Ha) as Hc. clear Ha. induction chunks as [|[k a] l IH]; [done|].
  destruct (Hc k a) as (i & off & data & -> & _); [by left|].
  destruct IH as (H1 & H2 & H3); [intros k' a' Hin; apply Hc; by right|].
  unfold opened, ended, dones in *. cbn. done.
Qed.

Lemma opened_all : opened all_actions = others ++ files.*1.
Proof using Ha.
  unfold all_actions. unfold opened. rewrite !omap_app. fold (opened (other_actions others)) (opened (open_actions files)) (opened chunks) (opened (end_actions files)).
  rewrite (proj1 (other_parts _)), (proj1 (open_parts _)), (proj1 chunk_parts), (proj1 (end_parts _)). cbn. by rewrite app_nil_r.
Qed.

Lemma filter_split {A} (f : A → bool) (l : list A) : List.filter f l ++ List.filter (fun x => negb (f x)) l ≡ₚ l.
Proof.
  induction l as [|x l IH]; [done|]. cbn. destruct (f x); cbn; [by rewrite IH|]. by rewrite <- Permutation_middle, IH.
Qed.

Lemma ended_actions : ended all_actions ≡ₚ others ++ files.*1.
Proof using Ha.
  unfold all_actions, ended. rewrite !omap_app. fold (ended (other_actions others)) (ended (open_actions files)) (ended chunks) (ended (end_actions files)).
  rewrite (proj1 (proj2 (other_parts _))), (proj1 (proj2 (open_parts _))), (proj1 (proj2 chunk_parts)), (proj1 (proj2 (end_parts _))).
  cbn. rewrite app_nil_r, <- fmap_app. by rewrite (filter_split snd).
Qed.

Lemma chunks_of_all i : chunks_of i all_actions = chunks_of i chunks.
Proof using Ha.
  unfold all_actions. rewrite !chunks_of_app.
  rewrite (chunks_of_none i (other_actions others)), (chunks_of_none i (open_actions files)), (chunks_of_none i (end_actions files)).
  - cbn. by rewrite !app_nil_r.
  - intros k j off data (i' & _ & [=])%end_actions_elem.
  - intros k j off data (i' & b & _ & [[=]|[_ [=]]])%open_actions_elem.
  - intros k j off data (i' & _ & [[=]|[=]])%other_actions_elem.
Qed.

Lemma chunk_in_all k i off data : (k, AChunk i off data) ∈ all_actions ↔ (k, AChunk i off data) ∈ chunks.
Proof.
  unfold all_actions. rewrite !elem_of_app, other_actions_elem, open_actions_elem, end_actions_elem, list_elem_of_singleton. naive_solver.
Qed.

Lemma stream_in_all k a :
  (k, a) ∈ all_actions → (∀ i, a = AOpen i ∨ a = AEnd i → (i ∈ others ++ files.*1) ∧ k = at_conn i) ∧ (a = ADone → k = 0).
Proof using Ha.
  assert (Hf : ∀ i b, (i, b) ∈ files → i ∈ others ++ files.*1).
  { intros i b Hin. apply elem_of_app. right. apply list_elem_of_fmap. by exists (i, b). }
  assert (Ho : ∀ i, i ∈ others → i ∈ others ++ files.*1) by (intros i Hin; apply elem_of_app; by left).
  unfold all_actions. rewrite !elem_of_app, other_actions_elem, open_actions_elem, end_actions_elem, list_elem_of_singleton.
  intros [(i & Hi & Hx)|[(i & b & Hi & Hx)|[Hin|[(i & Hi & Hx)|Hx]]]].
  - destruct Hx as [Hx|Hx]; injection Hx as -> ->; (split; [|done]); intros j [Hj|Hj]; try discriminate Hj; injection Hj as <-; (split; [by apply Ho|done]).
  - destruct Hx as [Hx|[_ Hx]]; injection Hx as -> ->; (split; [|done]); intros j [Hj|Hj]; try discriminate Hj; injection Hj as <-; (split; [by eapply Hf|done]).
  - destruct (as_chunks Ha _ _ Hin) as (i & off & data & -> & _). split; [|done]. intros j [Hj|Hj]; discriminate Hj.
  - injection Hx as -> ->. split; [|done]. intros j [Hj|Hj]; try discriminate Hj. injection Hj as <-. split; [by eapply Hf|done].
  - injection Hx as -> ->. split; [|done]. intros j [Hj|Hj]; discriminate Hj.
Qed.

Lemma stream_order i : i ∈ others ++ files.*1 → precedes all_actions (at_conn i, AOpen i) (at_conn i, AEnd i).
Proof.
  intros [Hi|Hi]%elem_of_app; unfold all_actions.
  - apply precedes_app_l. apply list_elem_of_split in Hi as (l1 & l2 & ->).
    unfold other_actions. rewrite bind_app. apply precedes_app_r. cbn. exists [], ((at_conn i, AEnd i) :: other_actions l2).
    split; [done|by left].
  - apply precedes_app_r. apply list_elem_of_fmap in Hi as ([j b] & -> & Hi). cbn. destruct b.
    + apply precedes_app_l. apply list_elem_of_split in Hi as (l1 & l2 & ->).
      unfold open_actions. rewrite bind_app. apply precedes_app_r. cbn. exists [], ((at_conn j, AEnd j) :: open_actions l2).
      split; [done|by left].
    + apply precedes_across; [apply open_actions_elem; exists j, false; split; [done|by left]|].
      rewrite !elem_of_app. right. left. apply end_actions_elem. by exists j.
Qed.

Lemma assembled_honest : honest conns stripe items base all_actions.
Proof using Ha.
  assert (Htile : ∀ i, (i, false) ∈ files → NoDup (chunks_of i chunks)).
  { intros i Hi. destruct (as_tiles Ha i Hi) as (it & _ & Ht). by eapply tiles_NoDup. }
  assert (Hcn : ∀ i, NoDup (chunks_of i chunks)).
  { intros i. destruct (decide ((i, false) ∈ files)) as [Hi|Hn]; [by apply Htile|]. rewrite chunks_of_none; [constructor|].
    intros k j off data (j' & off' & data' & [= <- <- <-] & Hj & _)%(as_chunks Ha) ->. done. }
  constructor.
  - apply NoDup_actions; [rewrite opened_all; apply Ha|rewrite ended_actions; apply Ha|intros i; rewrite chunks_of_all; apply Hcn|].
    unfold dones, all_actions. rewrite !omap_app. fold (dones (other_actions others)) (dones (open_actions files)) (dones chunks) (dones (end_actions files)).
    rewrite (proj2 (proj2 (other_parts _))), (proj2 (proj2 (open_parts _))), (proj2 (proj2 chunk_parts)), (proj2 (proj2 (end_parts _))).
    apply NoDup_singleton.
  - split; [unfold all_actions; rewrite !elem_of_app, list_elem_of_singleton; tauto|]. intros k Hin. by apply stream_in_all in Hin as [_ Hk]; apply Hk.
  - intros k i Hin. apply stream_in_all in Hin as [Hk _]. destruct (Hk i) as [Hi ->]; [by left|]. by apply Ha in Hi.
  - intros k i Hin. apply stream_in_all in Hin as [Hk _]. destruct (Hk i) as [Hi ->]; [by right|]. by apply Ha in Hi.
  - intros i Hi. by apply stream_order, (as_items Ha).
  - intros k i off data Hin%chunk_in_all. pose proof (as_chunks Ha _ _ Hin) as (i' & off' & data' & [= <- <- <-] & Hf & Hk).
    destruct (as_tiles Ha i Hf) as (it & Hit & Ht). destruct (tiles_elem _ _ _ off data Ht) as (H1 & H2 & H3).
    { apply elem_of_chunks. by exists k. }
    exists it. pose proof (as_base Ha i). split_and!; try done. destruct (stripe && (conns >? 1)); [done|]. split; [done|]. subst k.
    unfold all_actions. apply precedes_app_r, precedes_app_r, precedes_across; [done|].
    rewrite elem_of_app. left. apply end_actions_elem. by exists i.
  - intros k k' i off off' data data' b Hx%chunk_in_all Hy%chunk_in_all Hb Hb'.
    pose proof (as_chunks Ha _ _ Hx) as (i' & o' & d' & [= <- <- <-] & Hf & _). destruct (as_tiles Ha i Hf) as (it & Hit & Ht).
    assert (Heq : (off, data) = (off', data')) by (eapply tiles_disjoint; try done; apply elem_of_chunks; eauto).
    injection Heq as <- <-. by rewrite (chunk_unique i off data k k' chunks (Hcn i) Hx Hy).
  - intros i it b Hit Hb. assert (Hi : i ∈ others ++ files.*1) by (apply (as_items Ha); by eapply zlookup_Some).
    apply elem_of_app in Hi as [Hi|Hi]; [pose proof (as_other Ha _ _ Hi Hit); lia|].
    apply list_elem_of_fmap in Hi as ([j [|]] & -> & Hi); cbn in *; [pose proof (as_finished Ha _ _ Hi Hit); lia|].
    destruct (as_tiles Ha j Hi) as (it' & Hit' & Ht). rewrite Hit in Hit'. injection Hit' as <-.
    destruct (tiles_full _ _ _ b Ht Hb) as (off & data & [k Hk]%elem_of_chunks & Hc). exists k, off, data. split; [|done].
    by apply chunk_in_all.
Qed.

(** The chunks of an item with something to send tile it. *)
Lemma assembled_tiles i it :
  zlookup items i = Some it → base i < Size it → tiles (base i) (chunks_of i all_actions) (Size it).
Proof using Ha.
  intros Hit Hb. assert (Hi : i ∈ others ++ files.*1) by (apply (as_items Ha); by eapply zlookup_Some).
  apply elem_of_app in Hi as [Hi|Hi]; [pose proof (as_other Ha _ _ Hi Hit); lia|].
  apply list_elem_of_fmap in Hi as ([j [|]] & -> & Hi); cbn in *; [pose proof (as_finished Ha _ _ Hi Hit); lia|].
  rewrite chunks_of_all. destruct (as_tiles Ha j Hi) as (it' & Hit' & Ht). rewrite Hit in Hit'. by injection Hit' as <-.
Qed.
End assemble.
