(* ===== verification/Progress.v ===== *)
(** * Progress accounting ([internal/transfer/transfer.go])

    The counters behind the progress lines: what every stream and the whole
    transfer has done, clamped to the announced sizes.  The clock and the text
    of the lines are not modelled, except for the percentage. *)
From Stdlib Require Import ZArith Lia Ascii String.
From stdpp Require Import base tactics numbers list gmap strings.
From S2P Require Import Prelude GoStrings Protocol Mux.

Record progressStream := MkStream { sname : string; ssize : Z; sdone : Z }.
Record progressReporter := MkReporter {
  label : string;
  total : Z;
  done : Z;
  transferred : Z;
  streams : gmap Z progressStream;
}.

Definition totalItemSize (items : list Item) : Z :=
  foldl (fun t it => if Size it >? 0 then wrap64 (t + Size it) else t) 0 items.

Definition totalResumeEntries (entries : list ResumeEntry) : Z :=
  foldl (fun t e => if REOffset e >? 0 then wrap64 (t + REOffset e) else t) 0 entries.

(** Later entries of an item replace earlier ones. *)
Definition resumeEntriesToOffsets (entries : list ResumeEntry) : gmap Z Z :=
  foldl (fun m e => <[REItem e := REOffset e]> m) ∅ entries.

Definition newProgressReporter (lbl : string) (tot initial : Z) : progressReporter :=
  MkReporter lbl (maxInt64 tot 0) (clampInt64 initial 0 (maxInt64 tot 0)) 0 ∅.

(** [initial[i]] of a Go map *)
Definition offset_at (m : gmap Z Z) (i : Z) : Z := default 0 (m !! i).

(** The loop over the items: the stream of item [i] is [id_of i]; a missing
    binding is an error. *)
Fixpoint item_streams (id_of : Z → option Z) (i : Z) (items : list Item) (initial : gmap Z Z)
    (acc : gmap Z progressStream) (d : Z) : result Z (gmap Z progressStream * Z) :=
  match items with
  | [] => Ok (acc, d)
  | it :: items =>
      match id_of i with
      | None => Err i
      | Some stream =>
          let size := maxInt64 (Size it) 0 in
          let streamDone := clampInt64 (offset_at initial i) 0 size in
          item_streams id_of (i + 1) items initial (<[stream := MkStream (Name it) size streamDone]> acc)
            (wrap64 (d + streamDone))
      end
  end.

Definition with_counts (p : progressReporter) (ss : gmap Z progressStream) (d : Z) : progressReporter :=
  MkReporter (label p) (total p) (clampInt64 d 0 (total p)) (transferred p) ss.

(** The sender's streams are keyed by item; the loop cannot fail. *)
Definition newStreamProgressReporter (lbl : string) (items : list Item) (initial : gmap Z Z) : progressReporter :=
  let p := newProgressReporter lbl (totalItemSize items) 0 in
  match item_streams Some 0 items initial ∅ 0 with
  | Ok (ss, d) => with_counts p ss d
  | Err _ => p
  end.

Inductive progress_error := PPlan (e : mux_error) | PNoBinding (item : Z).

(** The receiver's are keyed by the manifest's stream ids. *)
Definition newManifestProgressReporter (lbl : string) (m : Manifest) (initial : gmap Z Z)
    : result progress_error progressReporter :=
  plan ← wrap_err PPlan (PlanFromManifest (Some m));
  let p := newProgressReporter lbl (totalItemSize (Items m)) 0 in
  '(ss, d) ← wrap_err PNoBinding (item_streams (StreamForItem (Some plan)) 0 (Items m) initial ∅ 0);
  Ok (with_counts p ss d).

Definition Add (p : progressReporter) (delta : Z) : progressReporter :=
  let before := done p in
  let d := clampInt64 (wrap64 (done p + delta)) 0 (total p) in
  MkReporter (label p) (total p) d
    (if d >? before then wrap64 (transferred p + (d - before)) else transferred p) (streams p).

Definition AddStream (p : progressReporter) (streamID delta : Z) : progressReporter :=
  match streams p !! streamID with
  | None => Add p delta
  | Some st =>
      let before := sdone st in
      let st' := MkStream (sname st) (ssize st) (clampInt64 (wrap64 (sdone st + delta)) 0 (ssize st)) in
      let advanced := sdone st' - before in
      MkReporter (label p) (total p) (clampInt64 (wrap64 (done p + advanced)) 0 (total p))
        (if advanced >? 0 then wrap64 (transferred p + advanced) else transferred p)
        (<[streamID := st']> (streams p))
  end.

(** The percentage of [Log]. *)
Definition log_percent (p : progressReporter) : Z :=
  if total p >? 0 then Z.quot (wrap64 (done p * 100)) (total p) else 100.

(** ** The counters agree *)

Definition sum_done (ss : gmap Z progressStream) : Z := map_fold (fun _ st t => sdone st + t) 0 ss.
Definition sum_size (ss : gmap Z progressStream) : Z := map_fold (fun _ st t => ssize st + t) 0 ss.

Definition streams_ok (ss : gmap Z progressStream) : Prop := map_Forall (fun _ st => 0 ≤ sdone st ≤ ssize st) ss.

(** The reporter of a transfer whose sizes add up within an [int64]. *)
Record reporter_ok (p : progressReporter) : Prop := {
  ro_total : total p = sum_size (streams p);
  ro_fits : total p ≤ int64_max;
  ro_streams : streams_ok (streams p);
  ro_done : done p = sum_done (streams p);
}.

Lemma sum_insert_fresh (f : progressStream → Z) (ss : gmap Z progressStream) i st :
  ss !! i = None →
  map_fold (fun _ st t => f st + t) 0 (<[i := st]> ss) = f st + map_fold (fun _ st t => f st + t) 0 ss.
Proof. intros Hi. apply (map_fold_insert_L (fun _ st t => f st + t)); [intros; lia|done]. Qed.

Lemma sum_insert (f : progressStream → Z) (ss : gmap Z progressStream) i st st' :
  ss !! i = Some st →
  map_fold (fun _ st t => f st + t) 0 (<[i := st']> ss) = map_fold (fun _ st t => f st + t) 0 ss - f st + f st'.
Proof.
  intros Hi. rewrite <- (insert_delete_id ss i st Hi) at 2. rewrite <- (insert_delete_eq ss).
  rewrite !sum_insert_fresh by apply lookup_delete_eq. lia.
Qed.

Lemma sums_bound ss : streams_ok ss → 0 ≤ sum_done ss ≤ sum_size ss.
Proof.
  unfold sum_done, sum_size, streams_ok. induction ss as [|i st ss Hi IH] using map_ind; [done|].
  rewrite map_Forall_insert by done. intros [? ?%IH]. rewrite !sum_insert_fresh by done. lia.
Qed.

Lemma sum_done_others ss i st : streams_ok ss → ss !! i = Some st → sum_done ss - sdone st ≤ sum_size ss - ssize st.
Proof.
  intros Hok Hi. pose proof (sum_insert sdone ss i st (MkStream "" 0 0) Hi) as H1.
  pose proof (sum_insert ssize ss i st (MkStream "" 0 0) Hi) as H2. cbn [sdone ssize] in H1, H2.
  assert (Hok' : streams_ok (<[i := MkStream "" 0 0]> ss)) by (apply map_Forall_insert_2; [done|exact Hok]).
  apply sums_bound in Hok'. unfold sum_done, sum_size in *. lia.
Qed.

Lemma AddStream_ok p i delta st :
  reporter_ok p → streams p !! i = Some st → 0 ≤ delta → ssize st + delta ≤ int64_max →
  let p' := AddStream p i delta in
  let advanced := Z.min delta (ssize st - sdone st) in
  reporter_ok p' ∧ total p' = total p ∧ done p' = done p + advanced ∧
  transferred p' = (if advanced >? 0 then wrap64 (transferred p + advanced) else transferred p) ∧
  streams p' = <[i := MkStream (sname st) (ssize st) (sdone st + advanced)]> (streams p).
Proof.
  intros [Ht Hf Hs Hd] Hi Hdelta Hfit p' advanced. pose proof (Hs _ _ Hi) as Hst. cbn beta in Hst.
  assert (Hw : wrap64 (sdone st + delta) = sdone st + delta)
    by (apply wrap64_id; unfold in_int64, int64_min, int64_max in *; lia).
  assert (Ha : clampInt64 (sdone st + delta) 0 (ssize st) = sdone st + advanced)
    by (rewrite clampInt64_spec by lia; unfold advanced; lia).
  pose proof (sums_bound _ Hs) as Hb. pose proof (sum_done_others _ _ _ Hs Hi) as Ho.
  pose proof (sum_insert sdone (streams p) i st (MkStream (sname st) (ssize st) (sdone st + advanced)) Hi) as H1.
  pose proof (sum_insert ssize (streams p) i st (MkStream (sname st) (ssize st) (sdone st + advanced)) Hi) as H2.
  cbn [sdone ssize] in H1, H2. fold (sum_done (streams p)) in H1. fold (sum_size (streams p)) in H2.
  assert (Hadv : 0 ≤ advanced ≤ ssize st - sdone st) by (unfold advanced; lia).
  assert (Hp : p' = MkReporter (label p) (total p) (done p + advanced)
      (if advanced >? 0 then wrap64 (transferred p + advanced) else transferred p)
      (<[i := MkStream (sname st) (ssize st) (sdone st + advanced)]> (streams p))).
  { unfold p', AddStream. rewrite Hi. cbn [sdone]. rewrite Hw, Ha. replace (sdone st + advanced - sdone st) with advanced by lia.
    rewrite (wrap64_id (done p + advanced)) by (unfold in_int64, int64_min, int64_max in *; lia).
    by rewrite (clampInt64_id (done p + advanced)) by lia. }
  clearbody p'. subst p'. cbn [total done transferred streams]. split_and!; try done.
  constructor; cbn [total done streams]; try done.
  - unfold sum_size at 1. rewrite H2. lia.
  - apply map_Forall_insert_2; [cbn; lia|done].
  - unfold sum_done at 1. rewrite H1. lia.
Qed.

(** ** The constructors *)

Definition items_size (items : list Item) : Z := foldr (fun it t => Z.max (Size it) 0 + t) 0 items.

Lemma items_size_nonneg items : 0 ≤ items_size items.
Proof. induction items; simpl; lia. Qed.

Lemma totalItemSize_sum items : items_size items ≤ int64_max → totalItemSize items = items_size items.
Proof.
  unfold totalItemSize. intros Hf.
  assert (Hg : ∀ t, 0 ≤ t → t + items_size items ≤ int64_max →
    foldl (fun t it => if Size it >? 0 then wrap64 (t + Size it) else t) t items = t + items_size items).
  { clear Hf. induction items as [|it items IH]; intros t Ht Hf; simpl in *; [lia|].
    pose proof (items_size_nonneg items). destruct (Size it >? 0) eqn:E; bool_prop.
    - rewrite wrap64_id by (unfold in_int64, int64_min, int64_max in *; lia). rewrite IH; lia.
    - rewrite IH; lia. }
  rewrite Hg; lia.
Qed.

(** The stream of an item at the start. *)
Definition initial_stream (it : Item) (offset : Z) : progressStream :=
  MkStream (Name it) (maxInt64 (Size it) 0) (clampInt64 offset 0 (maxInt64 (Size it) 0)).

Lemma item_streams_spec id_of i items initial acc :
  (∀ j k s, id_of j = Some s → id_of k = Some s → j = k) →
  (∀ j, i ≤ j < i + zlen items → is_Some (id_of j)) →
  (∀ j s, i ≤ j → id_of j = Some s → acc !! s = None) →
  streams_ok acc → sum_size acc + items_size items ≤ int64_max →
  ∃ ss, item_streams id_of i items initial acc (sum_done acc) = Ok (ss, sum_done ss) ∧
    streams_ok ss ∧ sum_size ss = sum_size acc + items_size items ∧
    (∀ s, is_Some (acc !! s) → ss !! s = acc !! s) ∧
    (∀ n it, items !! n = Some it →
       ∃ s, id_of (i + Z.of_nat n) = Some s ∧ ss !! s = Some (initial_stream it (offset_at initial (i + Z.of_nat n)))).
Proof.
  intros Hinj. revert i acc. induction items as [|it items IH]; intros i acc Hsome Hfresh Hok Hfit; cbn [item_streams].
  - exists acc. split_and!; try done. simpl. lia.
  - destruct (Hsome i) as [s Hs]; [unfold zlen; simpl; lia|]. rewrite Hs.
    fold (initial_stream it (offset_at initial i)). set (st := initial_stream it (offset_at initial i)).
    cbn [items_size foldr] in Hfit. fold (items_size items) in Hfit.
    pose proof (items_size_nonneg items) as Hn. pose proof (sums_bound _ Hok) as Hb.
    assert (Hst : 0 ≤ sdone st ≤ ssize st ∧ ssize st = Z.max (Size it) 0).
    { unfold st, initial_stream. cbn. rewrite !maxInt64_max. split; [apply clampInt64_range|]; lia. }
    assert (Hnone : acc !! s = None) by (by apply (Hfresh i)).
    assert (Hd : wrap64 (sum_done acc + sdone st) = sum_done (<[s := st]> acc)).
    { unfold sum_done at 2. rewrite sum_insert_fresh by done. fold (sum_done acc).
      rewrite wrap64_id by (unfold in_int64, int64_min, int64_max in *; lia). lia. }
    assert (Hz : sum_size (<[s := st]> acc) = ssize st + sum_size acc).
    { unfold sum_size at 1. by rewrite sum_insert_fresh. }
    change (clampInt64 (offset_at initial i) 0 (maxInt64 (Size it) 0)) with (sdone st). rewrite Hd.
    destruct (IH (i + 1) (<[s := st]> acc)) as (ss & Hr & Hok' & Hsz & Hkeep & Hit).
    + intros j Hj. apply Hsome. unfold zlen in *. simpl in *. lia.
    + intros j s' Hj Hs'. rewrite lookup_insert_ne; [by apply (Hfresh j); [lia|]|].
      intros <-. pose proof (Hinj _ _ _ Hs Hs'). lia.
    + apply map_Forall_insert_2; [apply Hst|done].
    + lia.
    + exists ss. split_and!; try done.
      * cbn [items_size foldr]. fold (items_size items). lia.
      * intros s' Hs'. rewrite Hkeep; [apply lookup_insert_ne|]; [intros <-; rewrite Hnone in Hs'; by destruct Hs'|].
        rewrite lookup_insert_ne; [done|]. intros <-. rewrite Hnone in Hs'. by destruct Hs'.
      * intros [|n] it' Hl; cbn [lookup list_lookup] in Hl.
        -- injection Hl as <-. exists s. rewrite Z.add_0_r. split; [done|]. rewrite Hkeep; by rewrite lookup_insert_eq.
        -- destruct (Hit n it' Hl) as (s' & H1 & H2). exists s'.
           replace (i + Z.of_nat (S n)) with (i + 1 + Z.of_nat n) by lia. done.
Qed.

(** What a constructor returns: the streams of the items at their offsets. *)
Definition starts (p : progressReporter) (id_of : Z → option Z) (items : list Item) (initial : gmap Z Z) : Prop :=
  reporter_ok p ∧ total p = items_size items ∧ transferred p = 0 ∧
  ∀ n it, items !! n = Some it →
    ∃ s, id_of (Z.of_nat n) = Some s ∧ streams p !! s = Some (initial_stream it (offset_at initial (Z.of_nat n))).

Lemma with_counts_starts lbl id_of items initial :
  (∀ j k s, id_of j = Some s → id_of k = Some s → j = k) →
  (∀ j, 0 ≤ j < zlen items → is_Some (id_of j)) → items_size items ≤ int64_max →
  ∃ ss d, item_streams id_of 0 items initial ∅ 0 = Ok (ss, d) ∧
    starts (with_counts (newProgressReporter lbl (totalItemSize items) 0) ss d) id_of items initial.
Proof.
  intros Hinj Hsome Hfit. destruct (item_streams_spec id_of 0 items initial ∅) as (ss & Hr & Hok & Hsz & _ & Hit).
  - done.
  - intros j Hj. apply Hsome. lia.
  - intros. apply lookup_empty.
  - apply map_Forall_empty.
  - done.
  - change (sum_done ∅) with 0 in Hr. change (sum_size ∅) with 0 in Hsz.
    pose proof (items_size_nonneg items). pose proof (sums_bound _ Hok).
    exists ss, (sum_done ss). split; [done|].
    unfold with_counts, newProgressReporter. cbn [total label transferred done].
    rewrite totalItemSize_sum, maxInt64_max, Z.max_l by lia. rewrite clampInt64_id by lia.
    split; [constructor; cbn [total streams done]; done || lia|]. done.
Qed.

Lemma newStreamProgressReporter_starts lbl items initial :
  items_size items ≤ int64_max → starts (newStreamProgressReporter lbl items initial) Some items initial.
Proof.
  intros Hfit. destruct (with_counts_starts lbl Some items initial) as (ss & d & Hr & Hs).
  { naive_solver. }
  { by eexists. }
  { done. }
  unfold newStreamProgressReporter. by rewrite Hr.
Qed.

Lemma newManifestProgressReporter_starts lbl m initial plan :
  PlanFromManifest (Some m) = Ok plan → items_size (Items m) ≤ int64_max →
  ∃ p, newManifestProgressReporter lbl m initial = Ok p ∧ starts p (StreamForItem (Some plan)) (Items m) initial.
Proof.
  intros Hp Hfit. unfold newManifestProgressReporter. rewrite Hp. cbn [wrap_err mbind result_bind].
  pose proof (PlanFromManifest_spec m) as Hs. rewrite Hp in Hs. destruct Hs as [Hs _].
  destruct (with_counts_starts lbl (StreamForItem (Some plan)) (Items m) initial) as (ss & d & Hr & Hst).
  3: done.
  - intros j k s Hj Hk. cbn in Hj, Hk. apply (plan_ok_bij _ _ Hs) in Hj, Hk. congruence.
  - intros j Hj. by apply (plan_ok_items _ _ Hs).
  - rewrite Hr. cbn [wrap_err mbind result_bind]. by eexists.
Qed.

(** ** Any sequence of reports *)

Definition report_all (p : progressReporter) (ops : list (Z * Z)) : progressReporter :=
  foldl (fun p '(i, delta) => AddStream p i delta) p ops.

(** The bytes reported for stream [i]. *)
Definition reported (i : Z) (ops : list (Z * Z)) : Z :=
  foldr (fun '(j, delta) t => (if j =? i then delta else 0) + t) 0 ops.

(** Every report is of a known stream, and a chunk's worth. *)
Definition op_ok (p : progressReporter) (op : Z * Z) : Prop :=
  ∃ st, streams p !! fst op = Some st ∧ 0 ≤ snd op ∧ ssize st + snd op ≤ int64_max.

Lemma reported_nonneg i ops : Forall (fun op => 0 ≤ snd op) ops → 0 ≤ reported i ops.
Proof. induction 1 as [|[j d] ops Hd _ IH]; simpl in *; [lia|]. case_if; lia. Qed.

Lemma report_all_ok p ops :
  reporter_ok p → Forall (op_ok p) ops → 0 ≤ transferred p → transferred p + (total p - done p) ≤ int64_max →
  let p' := report_all p ops in
  reporter_ok p' ∧ total p' = total p ∧ transferred p' - transferred p = done p' - done p ∧ done p ≤ done p' ∧
  ∀ i st, streams p !! i = Some st →
    streams p' !! i = Some (MkStream (sname st) (ssize st) (Z.min (ssize st) (sdone st + reported i ops))).
Proof.
  intros Hok Hops. revert p Hok Hops. induction ops as [|[j delta] ops IH]; intros p Hok Hops Htr Hfit p'.
  - change p' with p. clear p'. split_and!; [done|done|lia|lia|]. intros i st Hi. cbn. rewrite Hi. pose proof (ro_streams _ Hok _ _ Hi) as Hr. cbn in Hr.
    rewrite Z.min_r, Z.add_0_r by lia. by destruct st.
  - apply Forall_cons in Hops as [(stj & Hj & Hd & Hs) Hops]. cbn [fst snd] in *.
    destruct (AddStream_ok p j delta stj Hok Hj Hd Hs) as (Hok1 & Ht1 & Hd1 & Htr1 & Hst1). cbn zeta in *.
    set (p1 := AddStream p j delta) in *. pose proof (ro_streams _ Hok _ _ Hj) as Hrj. cbn in Hrj.
    pose proof (sums_bound _ (ro_streams _ Hok)) as Hb. rewrite <- (ro_total _ Hok), <- (ro_done _ Hok) in Hb.
    pose proof (sums_bound _ (ro_streams _ Hok1)) as Hb1. rewrite <- (ro_total _ Hok1), <- (ro_done _ Hok1) in Hb1.
    assert (Htr2 : transferred p1 = transferred p + Z.min delta (ssize stj - sdone stj)).
    { rewrite Htr1. destruct (_ >? 0) eqn:E; bool_prop; [|lia]. apply wrap64_id. unfold in_int64, int64_min, int64_max in *. lia. }
    assert (Hops1 : Forall (op_ok p1) ops).
    { rewrite Forall_forall in Hops |- *. intros [i d] (st & Hi & ? & ?)%Hops. cbn [fst snd] in *. unfold op_ok. cbn [fst snd]. rewrite Hst1.
      destruct (decide (i = j)) as [->|]; [rewrite lookup_insert_eq|rewrite lookup_insert_ne by done]; simplify_eq; by eexists. }
    destruct (IH p1 Hok1 Hops1) as (Hok' & Ht' & Htr' & Hd' & Hst'); [lia|lia|]. cbn zeta in *.
    change (report_all p1 ops) with p' in *. split_and!; try done; try lia.
    intros i st Hi. cbn [reported foldr]. fold (reported i ops).
    assert (Hnn : 0 ≤ reported i ops)
      by (apply reported_nonneg; rewrite Forall_forall in Hops |- *; intros op (? & _ & ? & _)%Hops; done).
    pose proof (ro_streams _ Hok _ _ Hi) as Hri. cbn in Hri.
    destruct (Z.eqb_spec j i) as [->|Hne].
    + rewrite Hj in Hi. injection Hi as <-.
      rewrite (Hst' i (MkStream (sname stj) (ssize stj) (sdone stj + Z.min delta (ssize stj - sdone stj))));
        [|by rewrite Hst1, lookup_insert_eq]. cbn [sname ssize sdone]. do 2 f_equal. lia.
    + rewrite (Hst' i st); [|by rewrite Hst1, lookup_insert_ne]. by rewrite Z.add_0_l.
Qed.

Lemma sum_complete ss : (∀ i st, ss !! i = Some st → sdone st = ssize st) → sum_done ss = sum_size ss.
Proof.
  unfold sum_done, sum_size. induction ss as [|i st ss Hi IH] using map_ind; intros Hall; [done|].
  rewrite !sum_insert_fresh by done. rewrite IH; [by rewrite (Hall i st) by apply lookup_insert_eq|].
  intros j st' Hj. apply (Hall j). rewrite lookup_insert_ne; [done|]. intros ->. congruence.
Qed.

(** The counters of a transfer, from any reporter that starts at the
    resumed offsets and after any reports of received chunks: each stream has
    done what was reported for it and no more than its size, the total is the
    sum of the streams and within the announced bytes, [transferred] counts
    what was new, the percentage is between 0 and 100, and it is the whole
    transfer exactly when every stream is complete. *)
Theorem progress_accounts p id_of items initial ops :
  starts p id_of items initial → Forall (op_ok p) ops →
  let p' := report_all p ops in
  done p' = sum_done (streams p') ∧ 0 ≤ done p' ≤ items_size items ∧
  transferred p' = done p' - done p ∧
  (∀ n it s, items !! n = Some it → id_of (Z.of_nat n) = Some s →
     ∃ st, streams p' !! s = Some st ∧ ssize st = Z.max (Size it) 0 ∧
       sdone st = Z.min (ssize st) (clampInt64 (offset_at initial (Z.of_nat n)) 0 (ssize st) + reported s ops)) ∧
  (done p' = items_size items ↔ ∀ i st, streams p' !! i = Some st → sdone st = ssize st) ∧
  (items_size items * 100 ≤ int64_max → 0 ≤ log_percent p' ≤ 100).
Proof.
  intros (Hok & Ht & Htr & Hit) Hops p'.
  pose proof (sums_bound _ (ro_streams _ Hok)) as Hb. rewrite <- (ro_total _ Hok), <- (ro_done _ Hok) in Hb.
  pose proof (ro_fits _ Hok) as Hf.
  destruct (report_all_ok p ops Hok Hops) as (Hok' & Ht' & Htr' & Hd' & Hst'); [lia|lia|]. cbn zeta in Hok', Ht', Htr', Hd', Hst'. fold p' in Hok', Ht', Htr', Hd', Hst'.
  pose proof (sums_bound _ (ro_streams _ Hok')) as Hb'. rewrite <- (ro_total _ Hok'), <- (ro_done _ Hok') in Hb'.
  split; [apply Hok'|]. split; [lia|]. split; [lia|]. split; [|split].
  - intros n it s Hn Hs. destruct (Hit n it Hn) as (s' & Hs' & Hl). rewrite Hs in Hs'. injection Hs' as <-.
    eexists. split; [by apply Hst'|]. cbn. by rewrite !maxInt64_max.
  - split.
    + intros Hd i st Hi. pose proof (sum_done_others _ i st (ro_streams _ Hok') Hi) as Ho.
      rewrite <- (ro_total _ Hok'), <- (ro_done _ Hok') in Ho. pose proof (ro_streams _ Hok' _ _ Hi) as Hr. cbn in Hr. lia.
    + intros Hall%sum_complete. rewrite (ro_done _ Hok'), Hall, <- (ro_total _ Hok'). lia.
  - intros H100. unfold log_percent. rewrite Ht', Ht. destruct (_ >? 0) eqn:E; bool_prop; [|lia].
    rewrite wrap64_id by (unfold in_int64, int64_min, int64_max in *; lia).
    rewrite Z.quot_div_nonneg by lia. split; [apply Z.div_pos; lia|].
    apply Z.div_le_upper_bound; lia.
Qed.

Definition demo_counted (name : string) (size : Z) : Item := MkItem ItemFile name size 0 420 "" "" "" ChunkSize true.
Lemma progress_accounts_witness :
  let items := [demo_counted "a" 100; demo_counted "b" 50] in let initial := {[0 := 30]} in
  let p := newStreamProgressReporter "sent" items initial in
  let p' := report_all p [(1, 20); (0, 70); (1, 40)] in
  starts p Some items initial ∧ done p' = 150 ∧ transferred p' = 120 ∧ 0 ≤ log_percent p' ≤ 100.
Proof.
  intros items initial p p'. assert (Hs : starts p Some items initial) by (by apply newStreamProgressReporter_starts).
  assert (Hops : Forall (op_ok p) [(1, 20); (0, 70); (1, 40)]) by (repeat constructor; eexists; (split; [by vm_compute|by vm_compute])).
  destruct (progress_accounts p Some items initial _ Hs Hops) as (_ & _ & _ & _ & _ & Hp). cbn zeta in Hp.
  split; [done|]. split; [by vm_compute|]. split; [by vm_compute|]. by apply Hp.
Defined.
