(* ===== verification/Sender.v ===== *)
(** * Sending a prepared path ([internal/transfer/transfer.go])

    What [PreparedPath.Send] and [SendText] do once the session is established:
    the manifest, the answer to the receiver's resume requests, the streams of
    the items, the chunks in the order of the weighted scheduler, the end.  The
    functions run in [sm], a state and error monad over everything they change:
    the prepared path (hashes are filled in on demand), the session, the states
    of the open files, the progress counters, the messages received and those
    handed to the connections, in order.

    What the code takes from its surroundings is the class [Environment]: the
    clock, the queue metrics of the transports, and which worker of the parallel
    sender has room for a chunk. *)
From Stdlib Require Import ZArith Lia Ascii String.
From stdpp Require Import base tactics numbers list gmap strings.
From S2P Require Import Prelude GoStrings Json Base64 GoPath Transport Secure Protocol Ranges Mux ManifestCheck FileSystem Hashing.
From S2P Require Import Compression TransferHello TransferSession Scheduler Progress.

Class Environment := {
  NowMillis : nat → Z;                (* at the n-th message *)
  observed_metrics : nat → SendMetrics;
  free_worker : nat → nat;
}.

(** A message and the number of the connection it is handed to. *)
Abbreviation sent_message := (Z * Message)%type.

Record sendFileEntry := MkSendFile { SPath : string; SItemID : Z; SItem : Item }.
Record PreparedPath := MkPrepared { pfiles : list sendFileEntry; pitems : list Item; pignored : Z }.

(** An open file: [None] for a directory, which opens but cannot be read. *)
Abbreviation handle := (option nat).
Record fileSendState := MkFileState {
  fs_index : Z;
  fs_stream : Z;
  fs_entry : sendFileEntry;
  fs_file : option (handle * Z);      (* and the file position *)
  fs_offset : Z;
  fs_done : bool;
  fs_ended : bool;
}.

Inductive send_error :=
  | SSession (e : session_error)
  | SHash (e : hash_error)
  | SFile (e : fs_error)
  | SSched (e : sched_error)
  | SItemRange (item : Z)
  | SNoSource (item : Z)
  | SResumeRange (item : Z)
  | SNonFile (name : string)
  | SSkipOffset (name : string) (offset : Z)
  | SUnknownStream (stream : Z)
  | SNoProgress
  | SEmptyPath
  | SWaiting        (* the run waits for a message that has not come *)
  | SOutOfFuel.

Record sender := MkSender {
  disk : fs;
  prepared : PreparedPath;
  session : TransferSession;
  file_states : list fileSendState;
  progress : progressReporter;
  incoming : list receivedPipeMessage;
  output : list sent_message;
}.

Definition sm (A : Type) : Type := sender → result send_error A * sender.
#[export] Instance sm_ret : MRet sm := fun _ a s => (Ok a, s).
#[export] Instance sm_bind : MBind sm := fun _ _ k m s =>
  match m s with (Ok a, s') => k a s' | (Err e, s') => (Err e, s') end.
Definition sm_fail {A} (e : send_error) : sm A := fun s => (Err e, s).
Definition sm_get {A} (f : sender → A) : sm A := fun s => (Ok (f s), s).
Definition sm_modify (f : sender → sender) : sm unit := fun s => (Ok tt, f s).
Definition sm_lift {A} (r : result send_error A) : sm A := fun s => (r, s).
Definition sm_check (bad : bool) (e : send_error) : sm unit := sm_lift (fail_if bad e).
(** A read of the disk, which no step of the sender changes. *)
Definition sm_read {E A} (f : E → send_error) (m : io E A) : sm A := fun s => (wrap_err f (fst (m (disk s))), s).

Definition set_prepared (s : sender) (p : PreparedPath) : sender :=
  MkSender (disk s) p (session s) (file_states s) (progress s) (incoming s) (output s).
Definition set_session (s : sender) (t : TransferSession) : sender :=
  MkSender (disk s) (prepared s) t (file_states s) (progress s) (incoming s) (output s).
Definition set_files (s : sender) (l : list fileSendState) : sender :=
  MkSender (disk s) (prepared s) (session s) l (progress s) (incoming s) (output s).
Definition set_progress (s : sender) (p : progressReporter) : sender :=
  MkSender (disk s) (prepared s) (session s) (file_states s) p (incoming s) (output s).
Definition set_incoming (s : sender) (t : TransferSession) (l : list receivedPipeMessage) : sender :=
  MkSender (disk s) (prepared s) t (file_states s) (progress s) l (output s).
Definition add_output (s : sender) (m : sent_message) : sender :=
  MkSender (disk s) (prepared s) (session s) (file_states s) (progress s) (incoming s) (output s ++ [m]).

(** ** Summary *)

Record PreparedSummary := MkSummary { Files : Z; Directories : Z; Symlinks : Z; Bytes : Z; SIgnored : Z }.

Definition count_item (acc : PreparedSummary) (it : Item) : PreparedSummary :=
  let '(MkSummary f d l b g) := acc in
  if String.eqb (Kind it) ItemFile then MkSummary (wrap64 (f + 1)) d l (wrap64 (b + Size it)) g
  else if String.eqb (Kind it) ItemDirectory then MkSummary f (wrap64 (d + 1)) l b g
  else if String.eqb (Kind it) ItemSymlink then MkSummary f d (wrap64 (l + 1)) b g
  else acc.

Definition Summary (p : option PreparedPath) : PreparedSummary :=
  match p with
  | None => MkSummary 0 0 0 0 0
  | Some p => foldl count_item (MkSummary 0 0 0 0 (pignored p)) (pitems p)
  end.

Section sender.
Context `{CaseTables} `{Crypto} `{Gzip} `{Environment}.

(** ** Handing messages over *)

Definition now_millis (s : sender) : Z := NowMillis (length (output s)).

(** A sending method that leaves the session as it is. *)
Definition emit (f : TransferSession → Z → result session_error sent_message) : sm unit := fun s =>
  match f (session s) (now_millis s) with
  | Ok m => (Ok tt, add_output s m)
  | Err e => (Err (SSession e), s)
  end.
Definition emit_update (f : TransferSession → Z → result session_error (TransferSession * sent_message)) : sm unit := fun s =>
  match f (session s) (now_millis s) with
  | Ok (t, m) => (Ok tt, add_output (set_session s t) m)
  | Err e => (Err (SSession e), s)
  end.

(** ** The interface [chunkMessageSender] *)

Definition chunkMessageSender : Type :=
  TransferSession → nat → Z → Z → bytes → Z → result session_error (TransferSession * sent_message).

Definition session_chunks : chunkMessageSender := fun t _ itemID offset data now => SendChunk t itemID offset data now.

(** [parallelChunkSender.SendChunk]: the message is built by the session and
    queued with a worker, one for each connection but the first. *)
Definition parallel_chunks : chunkMessageSender := fun t n itemID offset data now =>
  '(t, m) ← buildChunkMessage t itemID offset data now;
  let workers := tail (pipes t) in
  match workers !! (free_worker n mod length workers)%nat with
  | Some p => Ok (t, (index p, m))
  | None => Err IndexPanic
  end.

(** ** Hashes of the sources *)

Definition set_item_hash (it : Item) (hash : string) : Item :=
  MkItem (Kind it) (Name it) (Size it) (MTime it) (Mode it) hash (SampleSHA256 it) (Target it) (ItemChunkSize it) (ResumeSupported it).

(** The first source of the item. *)
Fixpoint file_index (files : list sendFileEntry) (itemID : Z) : option (nat * sendFileEntry) :=
  match files with
  | [] => None
  | f :: files => if SItemID f =? itemID then Some (O, f) else '(n, g) ← file_index files itemID; Some (S n, g)
  end.

Definition ensureFileSHA256 (itemID : Z) : sm string := fun s =>
  let p := prepared s in
  match zlookup (pitems p) itemID with
  | None => (Err (SItemRange itemID), s)
  | Some it =>
      if negb (String.eqb (SHA256 it) "") then (Ok (ToLower (SHA256 it)), s)
      else match file_index (pfiles p) itemID with
           | None => (Err (SNoSource itemID), s)
           | Some (n, f) =>
               match fst (fileSHA256 (SPath f) (disk s)) with
               | Err e => (Err (SFile e), s)
               | Ok hash =>
                   (Ok hash,
                    set_prepared s (MkPrepared
                      (<[n := MkSendFile (SPath f) (SItemID f) (set_item_hash (SItem f) hash)]> (pfiles p))
                      (<[Z.to_nat itemID := set_item_hash it hash]> (pitems p)) (pignored p)))
               end
           end
  end.

Fixpoint ensure_all (files : list sendFileEntry) : sm unit :=
  match files with
  | [] => mret tt
  | f :: files => _ ← ensureFileSHA256 (SItemID f); ensure_all files
  end.

Definition manifestItems (deferredSHA256 : bool) : sm (list Item) :=
  files ← sm_get (fun s => pfiles (prepared s));
  _ ← (if deferredSHA256 then mret tt else ensure_all files);
  items ← sm_get (fun s => pitems (prepared s));
  mret (if deferredSHA256
        then (fun it => if String.eqb (Kind it) ItemFile then set_item_hash it "" else it) <$> items
        else items).

Definition hasResumableFiles (p : PreparedPath) : bool :=
  existsb (fun it => String.eqb (Kind it) ItemFile && ResumeSupported it) (pitems p).

(** ** Answering resume requests *)

(** Later entries of an item replace earlier ones. *)
Definition files_by_item (files : list sendFileEntry) : gmap Z sendFileEntry :=
  foldl (fun m f => <[SItemID f := f]> m) ∅ files.

(** The offset of a request that is not skipped: 0 when the receiver's prefix
    is not the source's. *)
Definition checked_offset (entry : sendFileEntry) (request : ResumeEntry) (sourceSHA256 : string) (offset : Z) : sm Z :=
  if (offset >? 0) && negb (String.eqb (REPrefixSHA256 request) "") then
    sourcePrefix ←
      (if negb (offset =? Size (SItem entry)) || String.eqb sourceSHA256 ""
       then sm_read SHash (filePrefixSHA256 (SPath entry) offset)
       else mret sourceSHA256);
    mret (if String.eqb sourcePrefix (ToLower (REPrefixSHA256 request)) then offset else 0)
  else mret offset.

Definition accept_request (files : gmap Z sendFileEntry) (request : ResumeEntry) : sm (ResumeEntry) :=
  items ← sm_get (fun s => pitems (prepared s));
  match zlookup items (REItem request) with
  | None => sm_fail (SResumeRange (REItem request))
  | Some it =>
      match files !! REItem request with
      | None => sm_fail (SNonFile (Name it))
      | Some entry =>
          let size := Size (SItem entry) in
          let offset := clampInt64 (REOffset request) 0 size in
          _ ← sm_check (negb (String.eqb (Kind (SItem entry)) ItemFile)) (SNonFile (Name (SItem entry)));
          if RESkip request then
            _ ← sm_check (REComplete request && negb (REOffset request =? size)) (SSkipOffset (Name (SItem entry)) (REOffset request));
            mret (MkResumeEntry (REItem request) (REStream request) size "" "" true (REComplete request))
          else
            sourceSHA256 ← ensureFileSHA256 (REItem request);
            offset ← checked_offset entry request sourceSHA256 offset;
            mret (MkResumeEntry (REItem request) (REStream request) offset "" (ToLower sourceSHA256) false (REComplete request))
      end
  end.

Fixpoint accept_requests (files : gmap Z sendFileEntry) (requests : list ResumeEntry) : sm (list ResumeEntry) :=
  match requests with
  | [] => mret []
  | request :: requests =>
      entry ← accept_request files request;
      rest ← accept_requests files requests;
      mret (entry :: rest)
  end.

Definition acceptResumeRequests (requests : list ResumeEntry) : sm (list ResumeEntry * gmap Z Z) :=
  files ← sm_get (fun s => files_by_item (pfiles (prepared s)));
  accepted ← accept_requests files requests;
  mret (accepted, resumeEntriesToOffsets accepted).

(** ** Streams *)

Definition fileStreamWeight (remaining : Z) : Z :=
  if remaining <=? 2 ^ 20 then 4 else if remaining <=? 16 * 2 ^ 20 then 2 else 1.

(** [os.Open]: a file or a directory. *)
Definition os_Open (p : string) : io fs_error handle := fun s =>
  (match lookup_path s true p with
   | Ok (_, NFile ino) => Ok (Some ino)
   | Ok (_, NDir _ _) => Ok None
   | Ok (_, NLink _) => Err ELOOP
   | Err e => Err e
   end, s).

(** [file.Read(buf)] at [pos]: the bytes and [io.EOF]; POSIX fills the buffer
    when the file has the bytes. *)
Definition os_Read (h : handle) (pos n : Z) : io fs_error (bytes * bool) := fun s =>
  match h with
  | None => (Err EISDIR, s)
  | Some ino =>
      let data := slice (FileSystem.content (inode_at s ino)) pos n in
      (Ok (data, (0 <? n) && (zlen data =? 0)), s)
  end.

Definition init_file (resumeOffsets : gmap Z Z) (entry : sendFileEntry) : sm fileSendState :=
  let size := Size (SItem entry) in
  let resumeOffset := clampInt64 (offset_at resumeOffsets (SItemID entry)) 0 size in
  t ← sm_get session;
  streamID ← sm_lift (wrap_err SSession (sendStreamForItem t (SItemID entry)));
  if resumeOffset >=? size
  then mret (MkFileState (SItemID entry) streamID entry None resumeOffset true false)
  else
    h ← sm_read SFile (os_Open (SPath entry));
    mret (MkFileState (SItemID entry) streamID entry (Some (h, resumeOffset)) resumeOffset false false).

Fixpoint init_files (resumeOffsets : gmap Z Z) (files : list sendFileEntry) : sm (list fileSendState) :=
  match files with
  | [] => mret []
  | entry :: files =>
      st ← init_file resumeOffsets entry;
      rest ← init_files resumeOffsets files;
      mret (st :: rest)
  end.

(** The streams that still have something to send, and where their states are. *)
Definition weighted_streams (states : list fileSendState) : list WeightedStream :=
  (fun st => let size := Size (SItem (fs_entry st)) in
             MkWeightedStream (fs_stream st) (fileStreamWeight (wrap64 (size - fs_offset st))))
    <$> List.filter (fun st => negb (fs_done st)) states.

Fixpoint state_by_stream (from : nat) (states : list fileSendState) : gmap Z nat :=
  match states with
  | [] => ∅
  | st :: states =>
      let m := state_by_stream (S from) states in
      if fs_done st then m else if bool_decide (is_Some (m !! fs_stream st)) then m else <[fs_stream st := from]> m
  end.

(** The loop over the items without a file. *)
Fixpoint open_others (fileItems : list Z) (itemIDs : list Z) : sm unit :=
  match itemIDs with
  | [] => mret tt
  | itemID :: itemIDs =>
      _ ← (if bool_decide (itemID ∈ fileItems) then mret tt
           else _ ← emit (fun t now => OpenStream t itemID now); emit (fun t now => EndStream t itemID now));
      open_others fileItems itemIDs
  end.

Definition set_ended (st : fileSendState) : fileSendState :=
  MkFileState (fs_index st) (fs_stream st) (fs_entry st) (fs_file st) (fs_offset st) (fs_done st) true.
Definition set_done (st : fileSendState) : fileSendState :=
  MkFileState (fs_index st) (fs_stream st) (fs_entry st) (fs_file st) (fs_offset st) true (fs_ended st).
Definition add_offset (count : Z) (st : fileSendState) : fileSendState :=
  MkFileState (fs_index st) (fs_stream st) (fs_entry st) (fs_file st) (wrap64 (fs_offset st + count)) (fs_done st) (fs_ended st).
Definition set_position (h : handle) (pos : Z) (st : fileSendState) : fileSendState :=
  MkFileState (fs_index st) (fs_stream st) (fs_entry st) (Some (h, pos)) (fs_offset st) (fs_done st) (fs_ended st).

(** An assignment through the pointer to the [n]-th state. *)
Definition update_file (n : nat) (f : fileSendState → fileSendState) : sm unit := 
  sm_modify (fun s => set_files s (alter f n (file_states s))).
Definition get_file (n : nat) : sm fileSendState := fun s =>
  match file_states s !! n with Some st => (Ok st, s) | None => (Err SOutOfFuel, s) end.
Definition report (i count : Z) : sm unit :=
  sm_modify (fun s => set_progress s (AddStream (progress s) i count)).

Definition sendFileStreamEnd (n : nat) : sm unit :=
  st ← get_file n;
  if fs_ended st then mret tt
  else _ ← update_file n set_ended; emit (fun t now => EndStream t (fs_index st) now).

Fixpoint open_files (from : nat) (states : list fileSendState) : sm unit :=
  match states with
  | [] => mret tt
  | st :: states =>
      _ ← emit (fun t now => OpenStream t (fs_index st) now);
      _ ← (if fs_done st then sendFileStreamEnd from else mret tt);
      open_files (S from) states
  end.

Fixpoint end_files (ns : list nat) : sm unit :=
  match ns with
  | [] => mret tt
  | n :: ns => _ ← sendFileStreamEnd n; end_files ns
  end.

(** ** Chunks *)

(** The bytes used and whether the file is done. *)
Definition sendNextFileChunk (chunks : chunkMessageSender) (n : nat) (budget : Z) : sm (Z * bool) :=
  st ← get_file n;
  match fs_file st with
  | None => sm_fail (SFile EBADF)
  | Some (h, pos) =>
      r ← sm_read SFile (os_Read h pos budget);
      let '(data, eof) := r : bytes * bool in
      let count := zlen data in
      _ ← update_file n (set_position h (pos + count));
      _ ← (if count >? 0 then
             k ← sm_get (fun s => length (output s));
             _ ← emit_update (fun t now => chunks t k (fs_index st) (fs_offset st) data now);
             _ ← update_file n (add_offset count);
             report (fs_index st) count
           else mret tt);
      st ← get_file n;
      if eof then _ ← update_file n set_done; mret (count, true)
      else if fs_offset st >=? Size (SItem (fs_entry st)) then _ ← update_file n set_done; mret (count, true)
      else if count =? 0 then sm_fail SNoProgress
      else mret (count, false)
  end.

Definition minimumAdaptiveChunkSize : Z := 16 * 1024.

Fixpoint chunk_loop (fuel : nat) (chunks : chunkMessageSender) (byStream : gmap Z nat) (w : WeightedScheduler) : sm unit :=
  match fuel with
  | O => sm_fail SOutOfFuel
  | S fuel =>
      metrics ← sm_get (fun s => observed_metrics (length (output s)));
      match Next w (AdaptiveSendBudget ChunkSize minimumAdaptiveChunkSize metrics) with
      | None => sm_fail SOutOfFuel
      | Some (Err e) => sm_fail (SSched e)
      | Some (Ok (turn, w)) =>
          if negb (TOK turn) then mret tt
          else match byStream !! TStreamID turn with
               | None => sm_fail (SUnknownStream (TStreamID turn))
               | Some n =>
                   '(used, done) ← sendNextFileChunk chunks n (TBudget turn);
                   w ← sm_lift (wrap_err SSched (Commit w (TStreamID turn) used done));
                   chunk_loop fuel chunks byStream w
               end
      end
  end.

(** A turn sends a byte at least or finishes a file. *)
Definition chunk_fuel (states : list fileSendState) : nat :=
  S (foldr (fun st n => n + S (Z.to_nat (Size (SItem (fs_entry st)) - fs_offset st)))%nat O states).

Definition sendPathItemsWeighted (items : list Item) (resumeOffsets : gmap Z Z) : sm unit :=
  files ← sm_get (fun s => pfiles (prepared s));
  states ← init_files resumeOffsets files;
  _ ← sm_modify (fun s => set_files s states);
  _ ← open_others (SItemID <$> files) (Z.of_nat <$> seq 0 (length items));
  _ ← open_files 0 states;
  w ← sm_lift (wrap_err SSched (NewWeightedScheduler (weighted_streams states) ChunkSize));
  t ← sm_get session;
  _ ← chunk_loop (chunk_fuel states) (if striping t then parallel_chunks else session_chunks) (state_by_stream 0 states) w;
  end_files (seq 0 (length states)).

(** ** The transfer *)

Definition wait_for {A} (f : TransferSession → list receivedPipeMessage →
    option (result session_error A * TransferSession * list receivedPipeMessage)) : sm A := fun s =>
  match f (session s) (incoming s) with
  | None => (Err SWaiting, s)
  | Some (r, t, inbox) => (wrap_err SSession r, set_incoming s t inbox)
  end.

Definition PreparedPath_Send : sm unit :=
  p ← sm_get prepared;
  _ ← sm_check (bool_decide (pitems p = [])) SEmptyPath;
  t ← sm_get session;
  items ← manifestItems (deferredFileSHA256 t);
  _ ← emit_update (fun t _ => SendManifest t items);
  resumeOffsets ←
    (if hasResumableFiles p then
       requests ← wait_for (fun t inbox => WaitResume t items inbox);
       '(accepted, offsets) ← acceptResumeRequests requests;
       _ ← emit (fun t now => SendResumeAccept t accepted now);
       mret offsets
     else mret ∅);
  _ ← sm_modify (fun s => set_progress s (newStreamProgressReporter "sent" items resumeOffsets));
  _ ← sendPathItemsWeighted items resumeOffsets;
  _ ← emit (fun t now => SendDone t now);
  wait_for WaitComplete.

Definition text_item (text : string) : Item :=
  MkItem ItemText "message.txt" (str_len text) 0 0 (bytesSHA256 (to_bytes text)) "" "" ChunkSize false.

Definition SendText (text : string) : sm unit :=
  let item := text_item text in
  _ ← sm_modify (fun s => set_progress s (newStreamProgressReporter "sent" [item] ∅));
  _ ← emit_update (fun t _ => SendManifest t [item]);
  _ ← emit (fun t now => OpenStream t 0 now);
  _ ← emit_update (fun t now => SendChunk t 0 0 (to_bytes text) now);
  _ ← sm_modify (fun s => set_progress s (AddStream (progress s) 0 (str_len text)));
  _ ← emit (fun t now => EndStream t 0 now);
  _ ← emit (fun t now => SendDone t now);
  wait_for WaitComplete.
End sender.
