(* ===== verification/ResumeProofs.v ===== *)
(** * The answer to resume requests

    Which requests the sender answers, where each file is continued, and the
    hash it answers with.  A request that carries the hash of the receiver's
    prefix is continued only when the source's prefix has that hash; the protocol
    also allows a request without one, which is taken at its word, and a skip,
    which the receiver alone decides. *)
From Stdlib Require Import ZArith Lia Ascii String.
From stdpp Require Import base tactics numbers list gmap strings.
From S2P Require Import Prelude GoStrings Json Base64 GoPath Transport Secure Protocol Ranges Mux ManifestCheck FileSystem Hashing.
From S2P Require Import Compression TransferHello TransferSession Scheduler Progress Sender.

(** Hashes are written in lower case. *)
Lemma hex_digit_lower n : (n < 16)%N → is_ascii_byte (hex_digit n) = true ∧ lower_byte (hex_digit n) = hex_digit n.
Proof.
  intros Hn. assert (Hall : Forall (fun n => is_ascii_byte (hex_digit n) = true ∧ lower_byte (hex_digit n) = hex_digit n)
    (N.of_nat <$> seq 0 16)) by (repeat constructor).
  rewrite Forall_forall in Hall. apply Hall, list_elem_of_fmap. exists (N.to_nat n). rewrite elem_of_seq. lia.
Qed.

Lemma hex_encode_cons c b :
  hex_encode (c :: b) = String (hex_digit (N_of_ascii c / 16)) (String (hex_digit (N_of_ascii c mod 16)) (hex_encode b)).
Proof. done. Qed.

Lemma ToLower_hex `{CaseTables} b : ToLower (hex_encode b) = hex_encode b.
Proof.
  assert (Hall : forall_bytes is_ascii_byte (hex_encode b) = true ∧ map_bytes lower_byte (hex_encode b) = hex_encode b).
  { induction b as [|c b [IH1 IH2]]; [done|]. rewrite hex_encode_cons.
    pose proof (N_ascii_bounded c) as Hc.
    destruct (hex_digit_lower (N_of_ascii c / 16)) as [H1 H2]; [apply N.Div0.div_lt_upper_bound; lia|].
    destruct (hex_digit_lower (N_of_ascii c mod 16)) as [H3 H4]; [by apply N.mod_lt|].
    cbn [forall_bytes map_bytes]. by rewrite H1, H2, H3, H4, IH1, IH2. }
  destruct Hall as [H1 H2]. unfold ToLower. by rewrite H1.
Qed.

(** Taking runs apart. *)
Lemma sm_bind_inv {A B} (m : sm A) (k : A → sm B) s b s' :
  (m ≫= k) s = (Ok b, s') → ∃ a s1, m s = (Ok a, s1) ∧ k a s1 = (Ok b, s').
Proof. unfold mbind, sm_bind. destruct (m s) as [[a|e] s1]; [by exists a, s1|done]. Qed.
Lemma sm_check_inv bad e s u s' : sm_check bad e s = (Ok u, s') → bad = false ∧ s' = s.
Proof. unfold sm_check, sm_lift. intros [= Hf <-]. split; [|done]. by apply fail_if_Ok in Hf. Qed.

Section resume.
Context `{CaseTables} `{Crypto} `{Gzip} `{Environment}.
Context (source : Z → bytes).

(** The file of an entry is its item's source. *)
Definition from_source (d : fs) (f : sendFileEntry) : Prop :=
  Size (SItem f) = zlen (source (SItemID f)) ∧
  ∃ k ino, lookup_path d true (SPath f) = Ok (k, NFile ino) ∧ FileSystem.content (inode_at d ino) = source (SItemID f).

(** Every source file has the content of its item, and a hash already computed
    is its hash. *)
Record sources_ok (s : sender) : Prop := {
  so_source f : f ∈ pfiles (prepared s) → from_source (disk s) f;
  so_hash i it : zlookup (pitems (prepared s)) i = Some it →
    SHA256 it = ""%string ∨ SHA256 it = bytesSHA256 (source i);
}.

(** Only hashes change. *)
Definition no_hash (it : Item) : Item := set_item_hash it "".
Definition file_no_hash (f : sendFileEntry) : string * Z * Item := (SPath f, SItemID f, no_hash (SItem f)).
Definition same_path (s s' : sender) : Prop :=
  session s' = session s ∧ disk s' = disk s ∧ output s' = output s ∧ incoming s' = incoming s ∧
  file_no_hash <$> pfiles (prepared s') = file_no_hash <$> pfiles (prepared s) ∧
  no_hash <$> pitems (prepared s') = no_hash <$> pitems (prepared s).

#[export] Instance same_path_refl : Reflexive same_path.
Proof. intros s. by split_and!. Qed.
#[export] Instance same_path_trans : Transitive same_path.
Proof. intros a b c (A1 & A2 & A3 & A4 & A5 & A6) (B1 & B2 & B3 & B4 & B5 & B6). split_and!; congruence. Qed.

Lemma fmap_insert_eq {A B} (f : A → B) (l : list A) n x y : l !! n = Some x → f y = f x → f <$> <[n := y]> l = f <$> l.
Proof. intros Hn Hf. rewrite list_fmap_insert, Hf. apply list_insert_id. by rewrite list_lookup_fmap, Hn. Qed.

Lemma file_index_spec files i n f : file_index files i = Some (n, f) → files !! n = Some f ∧ SItemID f = i.
Proof.
  revert n. induction files as [|g files IH]; intros n; cbn [file_index]; [done|].
  destruct (Z.eqb_spec (SItemID g) i) as [Heq|]; [by intros [= <- <-]|].
  destruct (file_index files i) as [[m h]|]; [|done]. cbn. intros [= <- <-]. by apply IH.
Qed.

Lemma read_source s f :
  from_source (disk s) f → fst (ReadFile (SPath f) (disk s)) = Ok (source (SItemID f)).
Proof.
  intros (_ & k & ino & Hl & Hc). unfold ReadFile. cbn. by rewrite Hl, Hc.
Qed.

Lemma ensureFileSHA256_run s i it :
  sources_ok s → zlookup (pitems (prepared s)) i = Some it →
  (SHA256 it ≠ ""%string ∨ ∃ f, f ∈ pfiles (prepared s) ∧ SItemID f = i) →
  ∃ s', ensureFileSHA256 i s = (Ok (bytesSHA256 (source i)), s') ∧ sources_ok s' ∧ same_path s s'.
Proof.
  intros Hs Hit Hsrc. unfold ensureFileSHA256. rewrite Hit. destruct (decide (SHA256 it = ""%string)) as [He|He].
  - rewrite He. cbn [String.eqb negb]. destruct Hsrc as [?|(f & Hf & Hfi)]; [done|].
    assert (Hidx : ∃ n g, file_index (pfiles (prepared s)) i = Some (n, g)).
    { clear Hs. induction (pfiles (prepared s)) as [|g l IH]; [by apply not_elem_of_nil in Hf|]. cbn [file_index].
      destruct (Z.eqb_spec (SItemID g) i); [by eexists _, _|]. apply elem_of_cons in Hf as [->|Hf]; [done|].
      destruct (IH Hf) as (n' & g' & ->). by eexists _, _. }
    destruct Hidx as (n & g & Hidx). rewrite Hidx. apply file_index_spec in Hidx as [Hn Hgi].
    assert (Hg : g ∈ pfiles (prepared s)) by (by eapply list_elem_of_lookup_2).
    pose proof (read_source s g (so_source _ Hs g Hg)) as Hrd. rewrite Hgi in Hrd.
    assert (Hh : fst (fileSHA256 (SPath g) (disk s)) = Ok (bytesSHA256 (source i))).
    { unfold fileSHA256, mbind, io_bind. destruct (ReadFile (SPath g) (disk s)) as [r w]. cbn in Hrd. subst r. done. }
    rewrite Hh. eexists. split; [reflexivity|]. unfold zlookup in Hit. destruct (i <? 0) eqn:Ei; [done|]. bool_prop. split.
    + constructor; cbn.
      * intros f' (m & Hm)%list_elem_of_lookup. destruct (decide (m = n)) as [->|Hne].
        -- rewrite list_lookup_insert_eq in Hm by (by eapply lookup_lt_Some). injection Hm as <-. cbn. by apply (so_source _ Hs g).
        -- rewrite list_lookup_insert_ne in Hm by done. apply (so_source _ Hs). by eapply list_elem_of_lookup_2.
      * intros j jt Hj. unfold zlookup in Hj. destruct (j <? 0) eqn:Ej; [done|]. bool_prop. destruct (decide (j = i)) as [->|Hne].
        -- rewrite list_lookup_insert_eq in Hj by (by eapply lookup_lt_Some). injection Hj as <-. by right.
        -- rewrite list_lookup_insert_ne in Hj by lia. apply (so_hash _ Hs). unfold zlookup.
           by replace (j <? 0) with false by (symmetry; by apply Z.ltb_ge).
    + split_and!; try done; cbn; by eapply fmap_insert_eq.
  - destruct (so_hash _ Hs i it Hit) as [?|Hh]; [done|]. rewrite (proj2 (String.eqb_neq _ _) He). cbn [negb].
    exists s. split; [|by split]. rewrite Hh. unfold bytesSHA256. by rewrite ToLower_hex.
Qed.

Lemma ensureFileSHA256_Ok s i hash s' :
  sources_ok s → ensureFileSHA256 i s = (Ok hash, s') → hash = bytesSHA256 (source i) ∧ sources_ok s' ∧ same_path s s'.
Proof.
  intros Hs He. pose proof He as He'. unfold ensureFileSHA256 in He. destruct (zlookup (pitems (prepared s)) i) as [it|] eqn:Hit; [|done].
  assert (Hsrc : SHA256 it ≠ ""%string ∨ ∃ f, f ∈ pfiles (prepared s) ∧ SItemID f = i).
  { destruct (String.eqb_spec (SHA256 it) ""); cbn [negb] in He; [|by left].
    destruct (file_index (pfiles (prepared s)) i) as [[n f]|] eqn:Hf; [|done]. apply file_index_spec in Hf as [Hn <-].
    right. exists f. split; [by eapply list_elem_of_lookup_2|done]. }
  destruct (ensureFileSHA256_run s i it Hs Hit Hsrc) as (s1 & Hr & ? & ?). rewrite Hr in He'. by injection He' as <- <-.
Qed.

Lemma filePrefix_run s f n :
  from_source (disk s) f → 0 ≤ n ≤ zlen (source (SItemID f)) →
  sm_read SHash (filePrefixSHA256 (SPath f) n) s = (Ok (bytesSHA256 (take (Z.to_nat n) (source (SItemID f)))), s).
Proof.
  intros Hf Hn. pose proof (read_source s f Hf) as Hrd. unfold sm_read, filePrefixSHA256, mbind, io_bind.
  replace (n <? 0) with false by (symmetry; apply Z.ltb_ge; lia). cbn in *. rewrite Hrd. cbn.
  replace (Z.of_nat (length (source (SItemID f))) <? n) with false by (symmetry; apply Z.ltb_ge; unfold zlen in Hn; lia).
  done.
Qed.

(** What the entry that answers a request says. *)
Definition answers (files : gmap Z sendFileEntry) (request entry : ResumeEntry) : Prop :=
  let i := REItem request in
  let wanted := clampInt64 (REOffset request) 0 (zlen (source i)) in
  is_Some (files !! i) ∧
  REItem entry = i ∧ REStream entry = REStream request ∧ RESkip entry = RESkip request ∧ REComplete entry = REComplete request ∧
  0 ≤ REOffset entry ≤ zlen (source i) ∧
  if RESkip request then REOffset entry = zlen (source i) ∧ RESHA256 entry = ""%string
  else
    RESHA256 entry = bytesSHA256 (source i) ∧
    let matches := wanted = 0 ∨ REPrefixSHA256 request = ""%string ∨
                   bytesSHA256 (take (Z.to_nat wanted) (source i)) = ToLower (REPrefixSHA256 request) in
    (matches → REOffset entry = wanted) ∧ (¬ matches → REOffset entry = 0).

Lemma checked_offset_run s f request offset :
  from_source (disk s) f → 0 ≤ offset ≤ zlen (source (SItemID f)) →
  ∃ o, checked_offset f request (bytesSHA256 (source (SItemID f))) offset s = (Ok o, s) ∧
    let matches := offset = 0 ∨ REPrefixSHA256 request = ""%string ∨
                   bytesSHA256 (take (Z.to_nat offset) (source (SItemID f))) = ToLower (REPrefixSHA256 request) in
    (matches → o = offset) ∧ (¬ matches → o = 0).
Proof.
  intros Hf Ho. unfold checked_offset. destruct (offset >? 0) eqn:E0; bool_prop; cbn [andb].
  2:{ exists offset. split; [done|]. split; [done|]. intros Hn. lia. }
  destruct (String.eqb_spec (REPrefixSHA256 request) ""); cbn [negb].
  { exists offset. split; [done|]. split; [done|]. intros Hn. exfalso. apply Hn. by right; left. }
  assert (Hp : (if negb (offset =? Size (SItem f)) || String.eqb (bytesSHA256 (source (SItemID f))) ""
                then sm_read SHash (filePrefixSHA256 (SPath f) offset)
                else mret (bytesSHA256 (source (SItemID f)))) s =
               (Ok (bytesSHA256 (take (Z.to_nat offset) (source (SItemID f)))), s)).
  { destruct (_ || _) eqn:E; [by apply filePrefix_run|]. bool_prop. rewrite (proj1 Hf) in *.
    unfold mret, sm_ret. do 3 f_equal. symmetry. apply take_ge. unfold zlen in *. lia. }
  unfold mbind, sm_bind. unfold mbind, sm_bind in Hp. rewrite Hp. eexists. split; [reflexivity|]. cbv zeta.
  destruct (String.eqb_spec (bytesSHA256 (take (Z.to_nat offset) (source (SItemID f)))) (ToLower (REPrefixSHA256 request))) as [Heq|Hne].
  - split; [done|]. intros Hn. exfalso. apply Hn. by right; right.
  - split; [|done]. intros [?|[?|?]]; [lia|done|done].
Qed.

Lemma checked_cases `{CaseTables} offset prefix src o :
  let matches := offset = 0 ∨ prefix = ""%string ∨ bytesSHA256 (take (Z.to_nat offset) src) = ToLower prefix in
  (matches → o = offset) → (¬ matches → o = 0) → o = offset ∨ o = 0.
Proof.
  cbv zeta. intros Hm Hn. destruct (decide (offset = 0)) as [?|]; [by left; apply Hm; left|].
  destruct (decide (prefix = ""%string)) as [?|]; [by left; apply Hm; right; left|].
  destruct (decide (bytesSHA256 (take (Z.to_nat offset) src) = ToLower prefix)) as [?|]; [by left; apply Hm; right; right|].
  right. apply Hn. by intros [?|[?|?]].
Qed.

(** The requests the sender answers: for a file it sends, and when the receiver
    skips a file it says is complete, at the file's whole size. *)
Definition acceptable (s : sender) (files : gmap Z sendFileEntry) (request : ResumeEntry) : Prop :=
  let i := REItem request in
  is_Some (zlookup (pitems (prepared s)) i) ∧
  ∃ f, files !! i = Some f ∧ Kind (SItem f) = ItemFile ∧
    (RESkip request = true → REComplete request = true → REOffset request = zlen (source i)).

(** What a table of the source files must be for the answers to be about them. *)
Definition table_of (s : sender) (files : gmap Z sendFileEntry) : Prop :=
  ∀ i f, files !! i = Some f → from_source (disk s) f ∧ SItemID f = i ∧ i ∈ SItemID <$> pfiles (prepared s).

Lemma same_path_ids s s' : same_path s s' → SItemID <$> pfiles (prepared s') = SItemID <$> pfiles (prepared s).
Proof.
  intros (_ & _ & _ & _ & Hf & _). change (SItemID <$> ?l) with ((snd ∘ fst) ∘ file_no_hash <$> l).
  by rewrite !list_fmap_compose, Hf.
Qed.

Lemma same_path_table s s' files : same_path s s' → table_of s files → table_of s' files.
Proof.
  intros Hs Ht i f Hf. destruct (Ht i f Hf) as (? & ? & ?). rewrite (same_path_ids _ _ Hs). by rewrite (proj1 (proj2 Hs)).
Qed.

Lemma zlookup_range {A} (l : list A) i : is_Some (zlookup l i) ↔ 0 ≤ i < zlen l.
Proof.
  unfold zlookup, zlen. destruct (Z.ltb_spec i 0) as [Hi|Hi].
  - split; [by intros [? ?]|lia].
  - rewrite lookup_lt_is_Some. lia.
Qed.

Lemma same_path_acceptable s s' files request : same_path s s' → acceptable s files request ↔ acceptable s' files request.
Proof.
  intros Hs. unfold acceptable. rewrite !zlookup_range. destruct Hs as (_ & _ & _ & _ & _ & Hi).
  apply (f_equal length) in Hi. rewrite !length_fmap in Hi. unfold zlen. by rewrite Hi.
Qed.

Lemma accept_request_run files s request :
  sources_ok s → table_of s files →
  ∃ result s', accept_request files request s = (result, s') ∧ sources_ok s' ∧ same_path s s' ∧
    match result with
    | Ok entry => acceptable s files request ∧ answers files request entry
    | Err _ => ¬ acceptable s files request
    end.
Proof.
  intros Hs Hfiles. unfold accept_request, acceptable, answers. cbv zeta. unfold mbind at 1, sm_bind at 1, sm_get.
  destruct (zlookup (pitems (prepared s)) (REItem request)) as [it|] eqn:Hit.
  2:{ eexists _, s. split; [reflexivity|]. split_and!; try done. by intros [[? ?] _]. }
  destruct (files !! REItem request) as [f|] eqn:Hf.
  2:{ eexists _, s. split; [reflexivity|]. split_and!; try done. by intros (_ & ? & ? & _). }
  destruct (Hfiles _ _ Hf) as (Hin & Hfi & Hids). pose proof (proj1 Hin) as Hsz. rewrite Hfi in Hsz. rewrite Hsz.
  set (size := zlen (source (REItem request))) in *.
  assert (Hsz0 : 0 ≤ size) by (unfold size, zlen; lia).
  pose proof (clampInt64_range (REOffset request) 0 size Hsz0) as Hw.
  unfold mbind, sm_bind, sm_check, sm_lift, fail_if.
  destruct (String.eqb_spec (Kind (SItem f)) ItemFile) as [Hk|Hk]; cbn [negb].
  2:{ eexists _, s. split; [reflexivity|]. split_and!; try done. by intros (_ & ? & [= <-] & ? & _). }
  destruct (RESkip request) eqn:Hskip.
  - destruct (REComplete request) eqn:Hc, (Z.eqb_spec (REOffset request) size) as [Ho|Ho]; cbn [andb negb].
    2:{ eexists _, s. split; [reflexivity|]. split_and!; try done. intros (_ & ? & [= <-] & _ & Hoff). by apply Ho, Hoff. }
    all: eexists _, s; split; [reflexivity|]; split; [done|]; split; [done|];
      cbn [REItem REStream REOffset RESkip REComplete RESHA256]; split;
      [split; [by eexists|]; exists f; by split_and!|split_and!; try done; try lia; by eexists].
  - assert (Hsrc : SHA256 it ≠ ""%string ∨ ∃ g, g ∈ pfiles (prepared s) ∧ SItemID g = REItem request).
    { right. by apply list_elem_of_fmap in Hids as (g & -> & ?); exists g. }
    destruct (ensureFileSHA256_run s _ it Hs Hit Hsrc) as (s1 & -> & Hs1 & Hsame).
    assert (Hin1 : from_source (disk s1) f) by (by rewrite (proj1 (proj2 Hsame))).
    destruct (checked_offset_run s1 f request (clampInt64 (REOffset request) 0 size) Hin1) as (o & Ho & Hm1 & Hm2); [by rewrite Hfi|].
    rewrite Hfi in Ho, Hm1, Hm2. rewrite Ho. eexists _, s1. split; [reflexivity|]. split; [done|]. split; [done|].
    cbn [REItem REStream REOffset RESkip REComplete RESHA256]. split; [split; [by eexists|]; exists f; by split_and!|].
    split; [by eexists|]. do 4 (split; [done|]). split; [|split; [|by split]].
    + destruct (checked_cases (clampInt64 (REOffset request) 0 size) (REPrefixSHA256 request) (source (REItem request)) o Hm1 Hm2); lia.
    + unfold bytesSHA256. by rewrite !ToLower_hex.
Qed.

Lemma accept_requests_run files requests s :
  sources_ok s → table_of s files →
  ∃ result s', accept_requests files requests s = (result, s') ∧ sources_ok s' ∧ same_path s s' ∧
    match result with
    | Ok entries => Forall (acceptable s files) requests ∧ Forall2 (answers files) requests entries
    | Err _ => ¬ Forall (acceptable s files) requests
    end.
Proof.
  revert s. induction requests as [|r requests IH]; intros s Hs Ht; cbn [accept_requests].
  { eexists _, s. split; [reflexivity|]. by split_and!. }
  destruct (accept_request_run files s r Hs Ht) as (result & s1 & Hr & Hs1 & Hsame & Ha).
  unfold mbind, sm_bind. rewrite Hr. destruct result as [entry|e].
  2:{ eexists _, s1. split; [reflexivity|]. split; [done|]. split; [done|]. by intros [? _]%Forall_cons. }
  destruct (IH s1 Hs1 (same_path_table _ _ _ Hsame Ht)) as (rest & s2 & -> & Hs2 & Hsame2 & Hrest).
  assert (Hall : Forall (acceptable s1 files) requests ↔ Forall (acceptable s files) requests).
  { split; intros Hall; (eapply Forall_impl; [exact Hall|]); intros q Hq; by apply (same_path_acceptable _ _ _ _ Hsame). }
  destruct rest as [entries|e]; (eexists _, s2; split; [reflexivity|]; split; [done|]; split; [by transitivity s1|]).
  - destruct Ha as [Hr1 Hr2], Hrest as [Hq1 Hq2]. split; constructor; try done. by apply Hall.
  - intros [_ Hq]%Forall_cons. by apply Hrest, Hall.
Qed.

Lemma files_by_item_spec files i f : files_by_item files !! i = Some f → f ∈ files ∧ SItemID f = i.
Proof.
  unfold files_by_item. assert (Hg : ∀ m : gmap Z sendFileEntry, (∀ j g, m !! j = Some g → SItemID g = j) →
    foldl (fun m f => <[SItemID f := f]> m) m files !! i = Some f → (f ∈ files ∨ m !! i = Some f) ∧ SItemID f = i).
  { induction files as [|g files IH]; intros m Hm Hl; cbn [foldl] in Hl; [split; [by right|by apply Hm]|].
    apply IH in Hl as [Hl Hi].
    - split; [|done]. destruct Hl as [Hl|Hl]; [left; by right|]. apply lookup_insert_Some in Hl as [[_ ->]|[_ ?]]; [left; by left|by right].
    - intros j h [[<- <-]|[_ Hh]]%lookup_insert_Some; [done|by apply Hm]. }
  intros Hl. destruct (Hg ∅) as [[?|He] ?]; [by intros j g ?%lookup_empty_Some|done|done|].
  by apply lookup_empty_Some in He.
Qed.

Lemma files_by_item_table s : sources_ok s → table_of s (files_by_item (pfiles (prepared s))).
Proof.
  intros Hs i f [Hf Hi]%files_by_item_spec. split; [by apply (so_source _ Hs)|]. split; [done|].
  apply list_elem_of_fmap. by exists f.
Qed.

(** C4: the requests are answered exactly when each is for a file that is sent
    and none reports a finished file at another size than the file's; then there
    is one entry for each, in order.  A request to continue is answered with the
    hash of the whole source file, and its offset is the one asked for (clamped
    to the file) when the request gives no prefix hash or the hash of the
    source's prefix, and 0 when it gives another hash; a request to skip is
    answered with the file's size and no hash, and nothing is compared.  Answered
    or not, only cached hashes change. *)
Theorem acceptResumeRequests_correct s requests :
  sources_ok s →
  let files := files_by_item (pfiles (prepared s)) in
  ∃ result s', acceptResumeRequests requests s = (result, s') ∧ sources_ok s' ∧ same_path s s' ∧
    match result with
    | Ok (entries, offsets) =>
        Forall (acceptable s files) requests ∧ Forall2 (answers files) requests entries ∧
        offsets = resumeEntriesToOffsets entries
    | Err _ => ¬ Forall (acceptable s files) requests
    end.
Proof.
  intros Hs files. unfold acceptResumeRequests.
  destruct (accept_requests_run files requests s Hs (files_by_item_table s Hs)) as (result & s' & Hr & Hs' & Hsame & Ha).
  unfold mbind, sm_bind. cbn [sm_get]. fold files. rewrite Hr.
  destruct result as [entries|e]; (eexists _, s'; split; [reflexivity|]); [destruct Ha; by split_and!|by split_and!].
Qed.
End resume.

(** ** Example: a prefix that is the source's, one that is not, and a skip *)

Definition resume_disk : fs :=
  MkFS {[ ["a"]%string := NFile 0; ["b"]%string := NFile 1; ["c"]%string := NFile 2 ]}
    {[ 0%nat := MkInode (to_bytes "hello world") 420 0; 1%nat := MkInode (to_bytes "xyz") 420 0;
       2%nat := MkInode (to_bytes "done") 420 0 ]} 3 [].
Definition resume_item (name : string) (size : Z) : Item := MkItem ItemFile name size 0 420 "" "" "" ChunkSize true.
Definition resume_items : list Item := [resume_item "a" 11; resume_item "b" 3; resume_item "c" 4].
Definition resume_sender : sender :=
  MkSender resume_disk
    (MkPrepared [MkSendFile "/a" 0 (resume_item "a" 11); MkSendFile "/b" 1 (resume_item "b" 3); MkSendFile "/c" 2 (resume_item "c" 4)]
       resume_items 0)
    (newTransferSessionWithPipes [] []) [] (newStreamProgressReporter "sent" resume_items ∅) [] [].
Definition resume_source (i : Z) : bytes :=
  if i =? 0 then to_bytes "hello world" else if i =? 1 then to_bytes "xyz" else to_bytes "done".

Lemma acceptResumeRequests_correct_witness :
  let Ht := ascii_tables in let Hc := tagged_crypto in
  let hash s := bytesSHA256 (to_bytes s) in
  let requests := [MkResumeEntry 0 (Some 1) 5 (hash "hello") "" false false; MkResumeEntry 1 None 2 (hash "xx") "" false false;
                   MkResumeEntry 2 (Some 3) 4 "" "" true true] in
  let entries := [MkResumeEntry 0 (Some 1) 5 "" (hash "hello world") false false; MkResumeEntry 1 None 0 "" (hash "xyz") false false;
                  MkResumeEntry 2 (Some 3) 4 "" "" true true] in
  (∃ s', acceptResumeRequests requests resume_sender = (Ok (entries, resumeEntriesToOffsets entries), s')) ∧
  Forall2 (answers resume_source (files_by_item (pfiles (prepared resume_sender)))) requests entries ∧
  ¬ Forall (acceptable resume_source resume_sender (files_by_item (pfiles (prepared resume_sender))))
      [MkResumeEntry 2 None 3 "" "" true true].
Proof.
  intros Ht Hc hash requests entries.
  assert (Hs : sources_ok resume_source resume_sender).
  { constructor.
    - intros f Hf. cbn in Hf. apply elem_of_cons in Hf as [->|Hf]; [|apply elem_of_cons in Hf as [->|Hf]; [|apply list_elem_of_singleton in Hf as ->]];
        (split; [by vm_compute|]).
      + exists ["a"]%string, 0%nat. split; by vm_compute.
      + exists ["b"]%string, 1%nat. split; by vm_compute.
      + exists ["c"]%string, 2%nat. split; by vm_compute.
    - intros i it Hi. left. unfold zlookup in Hi. destruct (i <? 0); [done|].
      apply list_elem_of_lookup_2 in Hi. cbn in Hi.
      do 3 (apply elem_of_cons in Hi as [->|Hi]; [done|]). by apply not_elem_of_nil in Hi. }
  split; [eexists; by vm_compute|]. split.
  - destruct (acceptResumeRequests_correct resume_source resume_sender requests Hs) as (result & s' & Hr & _ & _ & Hm).
    assert (Hok : fst (acceptResumeRequests requests resume_sender) = Ok (entries, resumeEntriesToOffsets entries)) by (by vm_compute).
    rewrite Hr in Hok. cbn [fst] in Hok. rewrite Hok in Hm. by destruct Hm as (_ & ? & _).
  - destruct (acceptResumeRequests_correct resume_source resume_sender [MkResumeEntry 2 None 3 "" "" true true] Hs) as (result & s' & Hr & _ & _ & Hm).
    assert (Hok : match fst (acceptResumeRequests [MkResumeEntry 2 None 3 "" "" true true] resume_sender) with Ok _ => False | Err _ => True end)
      by (by vm_compute).
    rewrite Hr in Hok. cbn [fst] in Hok. by destruct result as [[? ?]|].
Defined.
