(* ===== verification/SenderProofs.v ===== *)
(** * The sender is honest

    A run of [sendPathItemsWeighted] over files that are as they were announced
    ends, and what it hands to the connections is [honest]: the streams open
    and end where they must, the chunks of a file follow each other without gap
    or overlap from the resumed offset to the end of the file, and carry its
    bytes. *)
From Stdlib Require Import ZArith Lia Ascii String.
From stdpp Require Import base tactics numbers list gmap strings.
From S2P Require Import Prelude GoStrings Json Base64 GoPath Transport Secure Protocol Ranges Mux ManifestCheck FileSystem Hashing.
From S2P Require Import Compression TransferHello TransferSession SessionProofs Scheduler Progress Sender Honest.

Implicit Types l : list (Z * action).

(** ** Runs *)

Definition hand (s : sender) (ms : list sent_message) : sender :=
  MkSender (disk s) (prepared s) (session s) (file_states s) (progress s) (incoming s) (output s ++ ms).

Lemma hand_nil s : hand s [] = s.
Proof. unfold hand. rewrite app_nil_r. by destruct s. Qed.
Lemma hand_hand s ms ms' : hand (hand s ms) ms' = hand s (ms ++ ms').
Proof. unfold hand. cbn. by rewrite <- (assoc_L (++)). Qed.

Lemma sm_bind_Ok {A B} (m : sm A) (k : A → sm B) s a s' : m s = (Ok a, s') → (m ≫= k) s = k a s'.
Proof. intros Hm. unfold mbind, sm_bind. by rewrite Hm. Qed.

Lemma list_insert_middle {A} (l1 l2 : list A) x y : <[length l1 := y]> (l1 ++ x :: l2) = l1 ++ y :: l2.
Proof. by rewrite insert_app_r_alt, Nat.sub_diag by lia. Qed.

Section run.
Context `{CaseTables} `{Crypto} `{Gzip} `{Environment}.
Context (conns : Z) (stripe : bool) (zip : string) (man : Manifest) (plan : Plan).

Definition hands (x : sent_message) (y : Z * action) : Prop := fst x = fst y ∧ renders zip plan (snd y) (snd x).

(** A session that sent the manifest. *)
Record sending_for (t : TransferSession) : Prop := {
  sd_for : session_for conns stripe zip t;
  sd_man : sendManifest (tx t) = Some man;
  sd_plan : sendPlan (tx t) = Some plan;
  sd_ok : plan_ok (length (Items man)) plan;
  sd_stripe : stripe = true → 1 < conns;
}.

Lemma hands_1 m x : hands m x → Forall2 hands [m] [x].
Proof. intros Hm. by constructor. Qed.
Lemma hands_2 m x m' x' : hands m x → hands m' x' → Forall2 hands [m; m'] [x; x'].
Proof. intros Hm Hm'. constructor; [done|by apply hands_1]. Qed.

Lemma sendStreamForItem_ok t i :
  sending_for t → 0 ≤ i < zlen (Items man) → ∃ stream, sendStreamForItem t i = Ok stream ∧ byItem plan !! i = Some stream.
Proof.
  intros Ht Hi. unfold sendStreamForItem. rewrite (sd_man _ Ht), (sd_plan _ Ht).
  replace (i <? 0) with false by (symmetry; apply Z.ltb_ge; lia).
  replace (i >=? zlen (Items man)) with false by (symmetry; rewrite Z.geb_leb; apply Z.leb_gt; lia). cbn.
  destruct (proj2 (plan_ok_items _ _ (sd_ok _ Ht) i)) as [stream Hs]; [by unfold zlen in Hi|]. exists stream. by rewrite Hs.
Qed.

Lemma emit_open i s :
  sending_for (session s) → 0 ≤ i < zlen (Items man) →
  ∃ m, emit (fun t now => OpenStream t i now) s = (Ok tt, hand s [m]) ∧ hands m (item_conn conns i, AOpen i).
Proof.
  intros Ht Hi. unfold emit, OpenStream. destruct (sendStreamForItem_ok _ i Ht Hi) as (stream & -> & Hs). cbn [mbind result_bind].
  destruct (pipeForItem_conn conns stripe zip _ i (sd_for _ Ht) ltac:(lia)) as (p & -> & Hp). cbn [mbind result_bind].
  eexists. split; [reflexivity|]. unfold hands. cbn. by rewrite Hs.
Qed.

Lemma emit_end i s :
  sending_for (session s) → 0 ≤ i < zlen (Items man) →
  ∃ m, emit (fun t now => EndStream t i now) s = (Ok tt, hand s [m]) ∧ hands m (item_conn conns i, AEnd i).
Proof.
  intros Ht Hi. unfold emit, EndStream. destruct (sendStreamForItem_ok _ i Ht Hi) as (stream & -> & Hs). cbn [mbind result_bind].
  destruct (pipeForItem_conn conns stripe zip _ i (sd_for _ Ht) ltac:(lia)) as (p & -> & Hp). cbn [mbind result_bind].
  eexists. split; [reflexivity|]. unfold hands. cbn. by rewrite Hs.
Qed.

Lemma open_others_run fileItems ids s :
  sending_for (session s) → Forall (fun i => 0 ≤ i < zlen (Items man)) ids →
  ∃ ms, open_others fileItems ids s = (Ok tt, hand s ms) ∧
    Forall2 hands ms (other_actions conns (filter (fun i => i ∉ fileItems) ids)).
Proof.
  intros Ht Hids. revert s Ht. induction Hids as [|i ids Hi _ IH]; intros s Ht; cbn [open_others].
  - exists []. by rewrite hand_nil.
  - destruct (decide (i ∈ fileItems)) as [Hin|Hn].
    + rewrite bool_decide_eq_true_2, filter_cons_False by (done || tauto). by apply IH.
    + rewrite bool_decide_eq_false_2, filter_cons_True by done.
      destruct (emit_open i s Ht Hi) as (m1 & R1 & Hm1). destruct (emit_end i (hand s [m1]) Ht Hi) as (m2 & R2 & Hm2).
      destruct (IH (hand (hand s [m1]) [m2]) Ht) as (ms & Hr & Hms). exists (m1 :: m2 :: ms). split.
      * erewrite sm_bind_Ok; [|erewrite sm_bind_Ok; [exact R2|exact R1]]. by rewrite Hr, !hand_hand.
      * change (Forall2 hands ([m1; m2] ++ ms) ([(item_conn conns i, AOpen i); (item_conn conns i, AEnd i)] ++ other_actions conns (filter (fun j => j ∉ fileItems) ids))).
        apply Forall2_app; [|exact Hms]. by apply hands_2.
Qed.

Lemma get_file_run n st s : file_states s !! n = Some st → get_file n s = (Ok st, s).
Proof. intros Hn. unfold get_file. by rewrite Hn. Qed.
Lemma update_file_run n f st s :
  file_states s !! n = Some st → update_file n f s = (Ok tt, set_files s (<[n := f st]> (file_states s))).
Proof.
  intros Hn. unfold update_file, sm_modify. do 3 f_equal.
  revert n Hn. induction (file_states s) as [|x l IH]; intros [|n] Hn; cbn in *; [done|done|by simplify_eq|]. f_equal. by apply IH.
Qed.

Lemma sendFileStreamEnd_run n st s :
  sending_for (session s) → file_states s !! n = Some st → fs_ended st = false → 0 ≤ fs_index st < zlen (Items man) →
  ∃ m, sendFileStreamEnd n s = (Ok tt, hand (set_files s (<[n := set_ended st]> (file_states s))) [m]) ∧
    hands m (item_conn conns (fs_index st), AEnd (fs_index st)).
Proof.
  intros Ht Hn He Hi. unfold sendFileStreamEnd. erewrite sm_bind_Ok by by apply get_file_run. rewrite He.
  erewrite sm_bind_Ok by by apply update_file_run. by apply emit_end.
Qed.

Definition view_done (st : fileSendState) : Z * bool := (fs_index st, fs_done st).
Definition view_ended (st : fileSendState) : Z * bool := (fs_index st, fs_ended st).
Definition end_if_done (st : fileSendState) : fileSendState := if fs_done st then set_ended st else st.
Definition state_in (st : fileSendState) : Prop := 0 ≤ fs_index st < zlen (Items man).

Lemma set_files_id s : set_files s (file_states s) = s.
Proof. by destruct s. Qed.

Lemma open_files_run pre states s :
  sending_for (session s) → file_states s = pre ++ states → Forall (fun st => state_in st ∧ fs_ended st = false) states →
  ∃ ms, open_files (length pre) states s = (Ok tt, hand (set_files s (pre ++ (end_if_done <$> states))) ms) ∧
    Forall2 hands ms (open_actions conns (view_done <$> states)).
Proof.
  intros Ht Hf Hst. revert pre s Ht Hf. induction Hst as [|st states [Hin He] _ IH]; intros pre s Ht Hf; cbn [open_files].
  - exists []. split; [|constructor]. rewrite hand_nil. cbn. rewrite <- Hf. by rewrite set_files_id.
  - destruct (emit_open (fs_index st) s Ht Hin) as (m1 & R1 & Hm1).
    assert (Hn : file_states (hand s [m1]) !! length pre = Some st) by (cbn; rewrite Hf; by apply list_lookup_middle).
    assert (Hstep : ∃ ms1, (if fs_done st then sendFileStreamEnd (length pre) else mret tt) (hand s [m1]) =
        (Ok tt, hand (set_files s (pre ++ end_if_done st :: states)) (m1 :: ms1)) ∧
        Forall2 hands (m1 :: ms1) (open_actions conns [view_done st])).
    { unfold end_if_done, view_done. destruct (fs_done st).
      - destruct (sendFileStreamEnd_run (length pre) st (hand s [m1]) Ht Hn He Hin) as (m2 & R2 & Hm2).
        exists [m2]. split; [|by apply hands_2]. rewrite R2. cbn. rewrite Hf, list_insert_middle. unfold set_files, hand. cbn.
        by rewrite <- (assoc_L (++)).
      - exists []. split; [|by apply hands_1]. rewrite <- Hf, set_files_id. done. }
    destruct Hstep as (ms1 & R2 & Hm2).
    destruct (IH (pre ++ [end_if_done st]) (hand (set_files s (pre ++ end_if_done st :: states)) (m1 :: ms1))) as (ms & Hr & Hms).
    { done. } { cbn. by rewrite <- (assoc_L (++)). }
    exists ((m1 :: ms1) ++ ms). split.
    + erewrite sm_bind_Ok by exact R1. erewrite sm_bind_Ok by exact R2.
      rewrite length_app, Nat.add_1_r in Hr. rewrite Hr. cbn. rewrite <- (assoc_L (++)). unfold hand, set_files. cbn.
      by rewrite <- (assoc_L (++)).
    + cbn [fmap list_fmap]. change (view_done st :: (view_done <$> states)) with ([view_done st] ++ (view_done <$> states)).
      unfold open_actions. rewrite bind_app. by apply Forall2_app.
Qed.

Lemma end_files_run pre states s :
  sending_for (session s) → file_states s = pre ++ states → Forall state_in states →
  ∃ ms, end_files (seq (length pre) (length states)) s = (Ok tt, hand (set_files s (pre ++ (set_ended <$> states))) ms) ∧
    Forall2 hands ms (end_actions conns (view_ended <$> states)).
Proof.
  intros Ht Hf Hst. revert pre s Ht Hf. induction Hst as [|st states Hin _ IH]; intros pre s Ht Hf; cbn [end_files length seq].
  - exists []. split; [|constructor]. rewrite hand_nil. cbn. rewrite <- Hf. by rewrite set_files_id.
  - assert (Hn : file_states s !! length pre = Some st) by (rewrite Hf; by apply list_lookup_middle).
    assert (Hstep : ∃ ms1, sendFileStreamEnd (length pre) s = (Ok tt, hand (set_files s (pre ++ set_ended st :: states)) ms1) ∧
        Forall2 hands ms1 (end_actions conns [view_ended st])).
    { unfold view_ended. destruct (fs_ended st) eqn:He.
      - exists []. split; [|constructor]. unfold sendFileStreamEnd. erewrite sm_bind_Ok by by apply get_file_run. rewrite He.
        replace (set_ended st) with st by (unfold set_ended; rewrite <- He; by destruct st).
        rewrite hand_nil, <- Hf. by rewrite set_files_id.
      - destruct (sendFileStreamEnd_run (length pre) st s Ht Hn He Hin) as (m2 & R2 & Hm2).
        exists [m2]. split; [|by apply hands_1]. rewrite R2. by rewrite Hf, list_insert_middle. }
    destruct Hstep as (ms1 & R2 & Hm2).
    destruct (IH (pre ++ [set_ended st]) (hand (set_files s (pre ++ set_ended st :: states)) ms1)) as (ms & Hr & Hms).
    { done. } { cbn. by rewrite <- (assoc_L (++)). }
    exists (ms1 ++ ms). split.
    + erewrite sm_bind_Ok by exact R2. rewrite length_app, Nat.add_1_r in Hr. rewrite Hr. cbn. rewrite <- (assoc_L (++)).
      unfold hand, set_files. cbn. by rewrite <- (assoc_L (++)).
    + cbn [fmap list_fmap]. change (view_ended st :: (view_ended <$> states)) with ([view_ended st] ++ (view_ended <$> states)).
      unfold end_actions. rewrite bind_app. by apply Forall2_app.
Qed.

(** ** Opening the files *)

Context (d : fs) (source : Z → bytes) (offsets : gmap Z Z).

(** The file of an entry is what was announced. *)
Record file_ready (f : sendFileEntry) : Prop := {
  fr_item : ∃ it, zlookup (Items man) (SItemID f) = Some it ∧ Size it = Size (SItem f);
  fr_size : Size (SItem f) = zlen (source (SItemID f));
  fr_fits : zlen (source (SItemID f)) ≤ int64_max;
  fr_disk : ∃ k ino, lookup_path d true (SPath f) = Ok (k, NFile ino) ∧
    FileSystem.content (inode_at d ino) = source (SItemID f);
}.

(** Where a file is resumed. *)
Definition start_at (i : Z) : Z := clampInt64 (offset_at offsets i) 0 (zlen (source i)).

(** A file with something left, of which the chunks in [l] were sent. *)
Record live l (st : fileSendState) : Prop := {
  lv_in : state_in st;
  lv_size : Size (SItem (fs_entry st)) = zlen (source (fs_index st));
  lv_fits : zlen (source (fs_index st)) ≤ int64_max;
  lv_file : ∃ ino, fs_file st = Some (Some ino, fs_offset st) ∧
    FileSystem.content (inode_at d ino) = source (fs_index st);
  lv_tiles : tiles (start_at (fs_index st)) (chunks_of (fs_index st) l) (fs_offset st);
  lv_offset : fs_offset st ≤ zlen (source (fs_index st));
  lv_done : fs_done st = (fs_offset st >=? zlen (source (fs_index st)));
}.

Definition started (f : sendFileEntry) (st : fileSendState) : Prop :=
  fs_index st = SItemID f ∧ state_in st ∧ byItem plan !! fs_index st = Some (fs_stream st) ∧ fs_ended st = false ∧
  fs_entry st = f ∧ fs_offset st = start_at (SItemID f) ∧
  if fs_done st then zlen (source (SItemID f)) ≤ start_at (SItemID f) else live [] st.

Lemma start_at_range i : 0 ≤ start_at i ≤ zlen (source i).
Proof. apply clampInt64_range. unfold zlen. lia. Qed.

Lemma init_file_run f s :
  sending_for (session s) → disk s = d → file_ready f → ∃ st, init_file offsets f s = (Ok st, s) ∧ started f st.
Proof.
  intros Ht Hd Hf. destruct (fr_item _ Hf) as (it & Hit & Hsz). pose proof (zlookup_Some _ _ _ Hit) as Hr.
  destruct (sendStreamForItem_ok _ _ Ht Hr) as (stream & Hs & Hb).
  pose proof (start_at_range (SItemID f)) as Hst. unfold init_file.
  erewrite sm_bind_Ok by reflexivity. erewrite sm_bind_Ok by (unfold sm_lift; rewrite Hs; reflexivity).
  rewrite (fr_size _ Hf). fold (start_at (SItemID f)).
  destruct (start_at (SItemID f) >=? zlen (source (SItemID f))) eqn:E; bool_prop.
  - eexists. split; [reflexivity|]. split_and!; try done.
  - destruct (fr_disk _ Hf) as (k & ino & Hl & Hc).
    assert (Ho : sm_read SFile (os_Open (SPath f)) s = (Ok (Some ino), s)) by (unfold sm_read, os_Open; rewrite Hd, Hl; done).
    erewrite sm_bind_Ok by exact Ho. eexists. split; [reflexivity|]. split_and!; try done. constructor; cbn; try done; try apply Hf.
    + exists ino. done.
    + lia.
    + rewrite Z.geb_leb. symmetry. apply Z.leb_gt. lia.
Qed.

Lemma init_files_run files s :
  sending_for (session s) → disk s = d → Forall file_ready files →
  ∃ sts, init_files offsets files s = (Ok sts, s) ∧ Forall2 started files sts.
Proof.
  intros Ht Hd Hf. induction Hf as [|f files Hf _ (sts & IH & Hall)]; cbn [init_files].
  - by exists [].
  - destruct (init_file_run f s Ht Hd Hf) as (st & Hr & Hst). exists (st :: sts). split; [|by constructor].
    erewrite sm_bind_Ok by exact Hr. by erewrite sm_bind_Ok by exact IH.
Qed.

(** ** One chunk *)

Definition conn_ok (k i : Z) : Prop := if stripe && (conns >? 1) then 0 < k < conns else k = item_conn conns i.

Lemma sending_for_tx t tx' :
  sending_for t → sendManifest tx' = Some man → sendPlan tx' = Some plan → sending_for (with_tx t tx').
Proof. intros [Hf Hm Hp Hok Hs] ? ?. constructor; try done. by destruct Hf. Qed.

Lemma buildChunkMessage_run t i off data now :
  sending_for t → 0 ≤ i < zlen (Items man) → zlen data ≤ ChunkSize →
  ∃ t' m, buildChunkMessage t i off data now = Ok (t', m) ∧ sending_for t' ∧ renders zip plan (AChunk i off data) m ∧ pipes t' = pipes t.
Proof.
  intros Ht Hi Hd. unfold buildChunkMessage. destruct (sendStreamForItem_ok _ _ Ht Hi) as (stream & -> & Hb). cbn [mbind result_bind].
  pose proof (decode_encodeChunk (session_compression t) (chunkCompressor (tx t)) i data Hd) as He.
  destruct (encodeChunk _ _ _ _) as [c [payload encoding]]. destruct He as [He _].
  eexists _, _. split; [reflexivity|]. split; [|split; [|done]].
  - apply sending_for_tx; [done|by apply sd_man|by apply sd_plan].
  - cbn. rewrite Hb. split_and!; try done. exists payload. split; [apply DecodeString_EncodeToString|].
    by rewrite <- (sf_zip _ _ _ _ (sd_for _ Ht)).
Qed.

Definition chunk_sender : chunkMessageSender := if stripe then parallel_chunks else session_chunks.

Lemma chunk_sender_run t n i off data now :
  sending_for t → 0 ≤ i < zlen (Items man) → zlen data ≤ ChunkSize →
  ∃ t' k m, chunk_sender t n i off data now = Ok (t', (k, m)) ∧ sending_for t' ∧ hands (k, m) (k, AChunk i off data) ∧ conn_ok k i.
Proof.
  intros Ht Hi Hd. destruct (buildChunkMessage_run t i off data now Ht Hi Hd) as (t' & m & Hb & Ht' & Hm & Hp).
  unfold chunk_sender, conn_ok. assert (stripe = true ∨ stripe = false) as [Es|Es] by (destruct stripe; auto); rewrite Es.
  - pose proof (sd_stripe _ Ht Es) as Hc. replace (conns >? 1) with true by (symmetry; rewrite Z.gtb_ltb; by apply Z.ltb_lt). cbn [andb].
    unfold parallel_chunks. rewrite Hb. cbn [mbind result_bind].
    pose proof (sf_zlen conns stripe zip _ (sd_for _ Ht')) as Hlen. unfold zlen in Hlen.
    destruct (pipes t') as [|p0 ps] eqn:Ep; [cbn in Hlen; lia|]. cbn [tail]. cbn [length] in Hlen.
    set (j := (free_worker n mod length ps)%nat).
    assert (Hj : (j < length ps)%nat) by (apply Nat.mod_upper_bound; lia).
    destruct (sf_lookup conns stripe zip _ (Z.of_nat (S j)) (sd_for _ Ht') ltac:(lia)) as (p & Hl & Hi').
    rewrite zlookup_of_nat, Ep in Hl. change (ps !! j = Some p) in Hl. rewrite Hl.
    exists t', (index p), m. split_and!; try done; lia.
  - cbn [andb]. unfold session_chunks, SendChunk. rewrite Hb. cbn [mbind result_bind]. unfold chunkPipeForItem.
    rewrite (sf_stripe _ _ _ _ (sd_for _ Ht')), Es. cbn [negb orb].
    destruct (pipeForItem_conn conns stripe zip _ i (sd_for _ Ht') ltac:(lia)) as (p & -> & Hpi). cbn [mbind result_bind].
    exists t', (index p), m. by split_and!.
Qed.

Lemma emit_update_run f s t k m :
  f (session s) (now_millis s) = Ok (t, (k, m)) → emit_update f s = (Ok tt, hand (set_session s t) [(k, m)]).
Proof. intros Hf. unfold emit_update. by rewrite Hf. Qed.

Lemma slice_length data off n :
  0 ≤ off ≤ zlen data → 0 ≤ n → zlen (slice data off n) = Z.min n (zlen data - off).
Proof. intros Ho Hn. unfold zlen, slice in *. rewrite length_take, length_drop. lia. Qed.

Lemma chunks_of_snoc i l k off data : chunks_of i (l ++ [(k, AChunk i off data)]) = chunks_of i l ++ [(off, data)].
Proof. rewrite chunks_of_app. cbn. by rewrite Z.eqb_refl. Qed.
Lemma chunks_of_snoc_other i j l k off data : j ≠ i → chunks_of i (l ++ [(k, AChunk j off data)]) = chunks_of i l.
Proof. intros Hne. rewrite chunks_of_app. cbn. rewrite (proj2 (Z.eqb_neq j i)) by done. by rewrite app_nil_r. Qed.

Lemma slice_slice src off n : slice src off n = slice src off (zlen (slice src off n)).
Proof.
  unfold slice, zlen. rewrite Nat2Z.id. set (x := drop _ _).
  rewrite <- (take_drop (Z.to_nat n) x) at 3. by rewrite take_app_length.
Qed.

(** What a turn does to the run: a chunk is handed over. *)
Lemma sendNextFileChunk_run l n st b s :
  sending_for (session s) → disk s = d → file_states s !! n = Some st → live l st → fs_done st = false →
  0 < b ≤ ChunkSize →
  ∃ k data m st' t' p', let off := fs_offset st in
    sendNextFileChunk chunk_sender n b s =
      (Ok (zlen data, fs_done st'), hand (set_progress (set_files (set_session s t') (<[n := st']> (file_states s))) p') [(k, m)]) ∧
    sending_for t' ∧ hands (k, m) (k, AChunk (fs_index st) off data) ∧ conn_ok k (fs_index st) ∧
    0 < zlen data ≤ b ∧ data = slice (source (fs_index st)) off (zlen data) ∧
    live (l ++ [(k, AChunk (fs_index st) off data)]) st' ∧
    fs_index st' = fs_index st ∧ fs_stream st' = fs_stream st ∧ fs_ended st' = fs_ended st ∧ fs_entry st' = fs_entry st ∧
    fs_offset st' = off + zlen data.
Proof.
  intros Ht Hd Hn Hl Hdone Hb. destruct (lv_file _ _ Hl) as (ino & Hfile & Hcont).
  pose proof (lv_done _ _ Hl) as Hdn. rewrite Hdone in Hdn. symmetry in Hdn. bool_prop.
  pose proof (tiles_le _ _ _ (lv_tiles _ _ Hl)) as Hle. pose proof (start_at_range (fs_index st)) as Hsr.
  set (data := slice (source (fs_index st)) (fs_offset st) b).
  assert (Hlen : zlen data = Z.min b (zlen (source (fs_index st)) - fs_offset st)) by (apply slice_length; lia).
  assert (Hpos : 0 < zlen data) by lia. assert (Hne : data ≠ []) by (intros E; rewrite E in Hpos; unfold zlen in Hpos; cbn in Hpos; lia).
  pose proof (lv_in _ _ Hl) as Hin. pose proof (lv_fits _ _ Hl) as Hfits.
  set (s1 := set_files s (<[n := set_position (Some ino) (fs_offset st + zlen data) st]> (file_states s))).
  destruct (chunk_sender_run (session s) (length (output s)) (fs_index st) (fs_offset st) data (now_millis s1) Ht Hin ltac:(lia))
    as (t' & k & m & Hc & Ht' & Hm & Hk).
  assert (Hw : wrap64 (fs_offset st + zlen data) = fs_offset st + zlen data)
    by (apply wrap64_id; unfold in_int64, int64_min, int64_max in *; lia).
  assert (Heof : (0 <? b) && (zlen data =? 0) = false) by (apply andb_false_iff; right; apply Z.eqb_neq; lia).
  set (st2 := add_offset (zlen data) (set_position (Some ino) (fs_offset st + zlen data) st)).
  set (fin := fs_offset st + zlen data >=? zlen (source (fs_index st))).
  set (st' := if fin then set_done st2 else st2).
  exists k, data, m, st', t', (AddStream (progress s) (fs_index st) (zlen data)). cbv zeta.
  assert (Hst' : fs_index st' = fs_index st ∧ fs_stream st' = fs_stream st ∧ fs_ended st' = fs_ended st ∧
    fs_entry st' = fs_entry st ∧ fs_offset st' = fs_offset st + zlen data ∧ fs_file st' = Some (Some ino, fs_offset st + zlen data) ∧
    fs_done st' = fin).
  { unfold st', st2. destruct fin; cbn; by rewrite ?Hw. }
  destruct Hst' as (Hi' & Hs' & He' & Hen' & Ho' & Hf' & Hd').
  split; [|split_and!; try done].
  - unfold sendNextFileChunk. erewrite sm_bind_Ok by by apply get_file_run. rewrite Hfile.
    assert (Hrd : sm_read SFile (os_Read (Some ino) (fs_offset st) b) s = (Ok (data, false), s)).
    { unfold sm_read, os_Read. cbn. rewrite Hd, Hcont. fold data. by rewrite Heof. }
    erewrite sm_bind_Ok by exact Hrd. cbn beta iota zeta.
    erewrite sm_bind_Ok by by apply update_file_run. fold s1.
    replace (zlen data >? 0) with true by (symmetry; rewrite Z.gtb_ltb; by apply Z.ltb_lt).
    assert (Hn1 : file_states s1 !! n = Some (set_position (Some ino) (fs_offset st + zlen data) st))
      by (cbn; apply list_lookup_insert_eq; by eapply lookup_lt_Some).
    set (s2 := hand (set_session s1 t') [(k, m)]).
    set (s3 := set_files s2 (<[n := st2]> (file_states s2))).
    assert (Hn3 : file_states s3 !! n = Some st2)
      by (cbn; apply list_lookup_insert_eq; rewrite length_insert; by eapply lookup_lt_Some).
    erewrite sm_bind_Ok.
    2:{ erewrite sm_bind_Ok by reflexivity. erewrite sm_bind_Ok by (apply emit_update_run; exact Hc).
        fold s2. erewrite sm_bind_Ok by (apply update_file_run; exact Hn1). reflexivity. }
    change (set_files s2 (<[n := _]> (file_states s2))) with s3.
    erewrite sm_bind_Ok by (apply get_file_run; exact Hn3).
    assert (Hcond : (fs_offset st2 >=? Size (SItem (fs_entry st2))) = fin)
      by (unfold st2, fin; cbn; by rewrite Hw, (lv_size _ _ Hl)).
    rewrite Hcond, Hd'. unfold st'. destruct fin.
    + erewrite sm_bind_Ok by (apply update_file_run; exact Hn3). cbn. unfold hand, set_progress, set_files. cbn.
      by rewrite !list_insert_insert_eq.
    + replace (zlen data =? 0) with false by (symmetry; apply Z.eqb_neq; lia). cbn. unfold mret, sm_ret, hand, set_progress, set_files. cbn.
      by rewrite !list_insert_insert_eq.
  - lia.
  - by apply slice_slice.
  - constructor; rewrite ?Hi', ?Hen', ?Ho'; try done; try apply Hl.
    + unfold state_in. by rewrite Hi'.
    + exists ino. done.
    + rewrite chunks_of_snoc. apply tiles_snoc; [apply Hl|done].
    + lia.
Qed.

(** ** The loop *)

Definition same_stream (a b : fileSendState) : Prop :=
  fs_index b = fs_index a ∧ fs_stream b = fs_stream a ∧ fs_ended b = fs_ended a ∧ fs_entry b = fs_entry a.

Definition view_at (states : list fileSendState) (n : nat) : Z * bool :=
  match states !! n with Some st => (fs_stream st, negb (fs_done st)) | None => (0, false) end.

(** The bytes left to send. *)
Definition left_of (st : fileSendState) : nat := Z.to_nat (Size (SItem (fs_entry st)) - fs_offset st).
Definition left_all (states : list fileSendState) : nat := foldr (fun st n => left_of st + n)%nat O states.

Lemma left_insert states n st st' :
  states !! n = Some st → (left_all (<[n := st']> states) + left_of st = left_all states + left_of st')%nat.
Proof.
  revert n. induction states as [|x l IH]; intros [|n] Hn; [done|done| |]; unfold left_all in *; simpl in *; [injection Hn as ->; lia|].
  specialize (IH n Hn). lia.
Qed.

Lemma view_insert states ns c n st' :
  NoDup ns → ns !! c = Some n → (n < length states)%nat →
  view_at (<[n := st']> states) <$> ns = <[c := (fs_stream st', negb (fs_done st'))]> (view_at states <$> ns).
Proof.
  intros Hnd Hc Hn. apply list_eq. intros j. rewrite list_lookup_fmap.
  destruct (decide (j = c)) as [->|Hne].
  - rewrite list_lookup_insert_eq by (rewrite length_fmap; by eapply lookup_lt_Some). rewrite Hc. cbn. unfold view_at.
    by rewrite list_lookup_insert_eq.
  - rewrite list_lookup_insert_ne, list_lookup_fmap by done. destruct (ns !! j) as [m|] eqn:Hj; [|done]. cbn. unfold view_at.
    rewrite list_lookup_insert_ne; [done|]. intros ->. apply Hne. by eapply NoDup_lookup.
Qed.

Lemma chunks_of_other_list i (l : list (Z * action)) k a :
  (∀ off data, a ≠ AChunk i off data) → chunks_of i (l ++ [(k, a)]) = chunks_of i l.
Proof.
  intros Hn. rewrite chunks_of_app. destruct a as [j|j off data|j|]; cbn; rewrite ?app_nil_r; try done.
  destruct (Z.eqb_spec j i) as [->|]; [by specialize (Hn off data)|by rewrite app_nil_r].
Qed.

Section loop.
Context (states0 : list fileSendState) (ns : list nat) (byStream : gmap Z nat).
Context (ns_nodup : NoDup ns) (index_nodup : NoDup (fs_index <$> states0)).
Context (by_stream : ∀ n st, n ∈ ns → states0 !! n = Some st → byStream !! fs_stream st = Some n).

Record turn_inv (w : WeightedScheduler) l (s : sender) : Prop := {
  ti_sess : sending_for (session s);
  ti_disk : disk s = d;
  ti_same : Forall2 same_stream states0 (file_states s);
  ti_live n st : n ∈ ns → file_states s !! n = Some st → live l st;
  ti_rest n : n ∉ ns → file_states s !! n = states0 !! n;
  ti_sched : sched_inv w;
  ti_idle : current w = None;
  ti_view : sched_view w = view_at (file_states s) <$> ns;
  ti_chunks k a : (k, a) ∈ l → ∃ n st0 off data, n ∈ ns ∧ states0 !! n = Some st0 ∧ a = AChunk (fs_index st0) off data ∧
    conn_ok k (fs_index st0) ∧ data = slice (source (fs_index st0)) off (zlen data) ∧ zlen data ≤ ChunkSize;
}.

Lemma live_other l st k i off data : i ≠ fs_index st → live l st → live (l ++ [(k, AChunk i off data)]) st.
Proof. intros Hne [? ? ? ? ? ? ?]. constructor; try done. by rewrite chunks_of_snoc_other. Qed.

Lemma one_turn w l s c id b w1 :
  turn_inv w l s → sched_view w !! c = Some (id, true) → 0 < b ≤ ChunkSize →
  (∀ used done, 0 ≤ used ≤ b → (0 < used ∨ done = true) →
     ∃ w2, Commit w1 id used done = Ok w2 ∧ sched_inv w2 ∧ quantum w2 = quantum w ∧ current w2 = None ∧
       sched_view w2 = <[c := (id, negb done)]> (sched_view w)) →
  ∃ n k x used dn w2 s2 m, byStream !! id = Some n ∧
    sendNextFileChunk chunk_sender n b s = (Ok (used, dn), s2) ∧ Commit w1 id used dn = Ok w2 ∧
    turn_inv w2 (l ++ [(k, x)]) s2 ∧ (left_all (file_states s2) < left_all (file_states s))%nat ∧
    output s2 = output s ++ [m] ∧ hands m (k, x) ∧ prepared s2 = prepared s ∧ incoming s2 = incoming s.
Proof using ns_nodup index_nodup by_stream.
  intros Hi Hv Hb Hcommit. pose proof Hi as [Ht Hd Hsame Hlive Hrest Hsi Hidle Hview Hch].
  rewrite Hview, list_lookup_fmap in Hv. destruct (ns !! c) as [n|] eqn:Hc; [|done]. cbn in Hv. injection Hv as Hv.
  assert (Hin : n ∈ ns) by (by eapply list_elem_of_lookup_2).
  unfold view_at in Hv. destruct (file_states s !! n) as [st|] eqn:Hn; [|done]. injection Hv as Hid Hdone. apply negb_true_iff in Hdone.
  destruct (Forall2_lookup_r _ _ _ _ _ Hsame Hn) as (st0 & Hst0 & Hsi0 & Hss0 & Hse0 & Hsn0).
  pose proof (Hlive n st Hin Hn) as Hl.
  destruct (sendNextFileChunk_run l n st b s Ht Hd Hn Hl Hdone Hb)
    as (k & data & m & st' & t' & p' & Hrun & Ht' & Hm & Hk & Hz & Hdata & Hl' & Hi' & Hs' & He' & Hen' & Ho').
  set (x := AChunk (fs_index st) (fs_offset st) data) in *.
  destruct (Hcommit (zlen data) (fs_done st')) as (w2 & Hw2 & Hinv2 & Hq2 & Hidle2 & Hview2); [lia|left; lia|].
  eexists n, k, x, (zlen data), (fs_done st'), w2, _, (k, m). split; [by rewrite <- Hid, Hss0; apply by_stream|].
  split; [exact Hrun|]. split; [exact Hw2|].
  assert (Hlt : (n < length (file_states s))%nat) by (by eapply lookup_lt_Some).
  split; [|split_and!]; try done.
  - constructor; cbn; try done.
    + apply Forall2_same_length_lookup. split; [by rewrite length_insert, (Forall2_length _ _ _ Hsame)|].
      intros j a b' Ha Hb'. destruct (decide (j = n)) as [->|Hne].
      * rewrite list_lookup_insert_eq in Hb' by done. rewrite Hst0 in Ha. injection Ha as <-. injection Hb' as <-.
        unfold same_stream. by rewrite Hi', Hs', He', Hen'.
      * rewrite list_lookup_insert_ne in Hb' by done. by eapply Forall2_lookup_lr.
    + intros j stj Hj Hlj. destruct (decide (j = n)) as [->|Hne].
      * rewrite list_lookup_insert_eq in Hlj by done. by injection Hlj as <-.
      * rewrite list_lookup_insert_ne in Hlj by done. apply live_other; [|by apply (Hlive j)].
        destruct (Forall2_lookup_r _ _ _ _ _ Hsame Hlj) as (stj0 & Hj0 & Hij & _). intros Heq. apply Hne.
        eapply (NoDup_lookup (fs_index <$> states0)); [done|by rewrite list_lookup_fmap, Hj0|].
        rewrite list_lookup_fmap, Hst0. cbn. f_equal. congruence.
    + intros j Hj. rewrite list_lookup_insert_ne by congruence. by apply Hrest.
    + rewrite Hview2, Hview. rewrite (view_insert _ _ c n) by done. by rewrite Hs', Hid.
    + intros k' a [Hin'|[= -> ->]%list_elem_of_singleton]%elem_of_app; [by apply Hch|].
      exists n, st0, (fs_offset st), data. rewrite <- Hsi0. split_and!; try done. lia.
  - cbn [hand set_progress set_files set_session file_states]. pose proof (left_insert (file_states s) n st st' Hn) as Hleft. unfold left_of in Hleft.
    rewrite Hen', Ho', (lv_size _ _ Hl) in Hleft. pose proof (lv_offset _ _ Hl') as Hoff. rewrite Ho', Hi' in Hoff. lia.
Qed.

Lemma budget_range metrics : 0 < AdaptiveSendBudget ChunkSize minimumAdaptiveChunkSize metrics ≤ ChunkSize.
Proof.
  rewrite AdaptiveSendBudget_eq by done. change (effective_min ChunkSize minimumAdaptiveChunkSize) with (16 * 1024).
  unfold ChunkSize. lia.
Qed.

(** The loop stops when every file is sent. *)
Lemma chunk_loop_run fuel w l s :
  turn_inv w l s → (left_all (file_states s) < fuel)%nat →
  ∃ w' l' s' ms, chunk_loop fuel chunk_sender byStream w s = (Ok tt, s') ∧ turn_inv w' (l ++ l') s' ∧
    (∀ n st, n ∈ ns → file_states s' !! n = Some st → fs_done st = true) ∧
    output s' = output s ++ ms ∧ Forall2 hands ms l' ∧ prepared s' = prepared s ∧ incoming s' = incoming s.
Proof using ns_nodup index_nodup by_stream.
  revert w l s. induction fuel as [|fuel IH]; intros w l s Hi Hf; [lia|]. cbn [chunk_loop].
  erewrite sm_bind_Ok by reflexivity. cbn beta.
  set (m := AdaptiveSendBudget ChunkSize minimumAdaptiveChunkSize _).
  assert (Hm : 0 < m ≤ ChunkSize) by apply budget_range.
  destruct (sched_turn w m (ti_sched _ _ _ Hi) (ti_idle _ _ _ Hi) ltac:(lia)) as [[HN Hall]|(c & id & b & w1 & HN & Hv & Hb & Hcommit)]; rewrite HN.
  - cbn [TOK negb]. exists w, [], s, []. rewrite !app_nil_r. split_and!; try done.
    intros n st Hn Hst. rewrite (ti_view _ _ _ Hi) in Hall. specialize (Hall (view_at (file_states s) n)).
    unfold view_at in Hall. rewrite Hst in Hall. apply negb_false_iff, Hall. apply list_elem_of_fmap. exists n. unfold view_at. by rewrite Hst.
  - cbn [TOK negb TStreamID TBudget].
    destruct (one_turn w l s c id b w1 Hi Hv ltac:(lia) Hcommit) as (n & k & x & used & dn & w2 & s2 & msg & Hn & Hrun & Hw2 & Hi2 & Hlt & Ho & Hmsg & Hp & Hinc).
    rewrite Hn. erewrite sm_bind_Ok by exact Hrun. cbn beta iota.
    erewrite sm_bind_Ok by (unfold sm_lift; rewrite Hw2; reflexivity).
    destruct (IH w2 (l ++ [(k, x)]) s2 Hi2 ltac:(lia)) as (w' & l' & s' & ms & Hr & Hi' & Hd' & Ho' & Hms & Hp' & Hinc').
    exists w', ((k, x) :: l'), s', (msg :: ms). rewrite <- (assoc_L (++)) in Hi'. split_and!; try done; try congruence.
    + by rewrite Ho', Ho, <- (assoc_L (++)).
    + by constructor.
Qed.
End loop.

(** ** Which states are scheduled *)

Fixpoint positions (from : nat) (states : list fileSendState) : list nat :=
  match states with
  | [] => []
  | st :: states => if fs_done st then positions (S from) states else from :: positions (S from) states
  end.

Lemma positions_elem from states n :
  n ∈ positions from states ↔ ∃ j st, n = (from + j)%nat ∧ states !! j = Some st ∧ fs_done st = false.
Proof.
  revert from. induction states as [|st states IH]; intros from; cbn [positions].
  - split; [by intros ?%not_elem_of_nil|]. by intros (j & ? & _ & ? & _).
  - assert (Hs : n ∈ positions (S from) states ↔ ∃ j st', n = (from + S j)%nat ∧ states !! j = Some st' ∧ fs_done st' = false).
    { rewrite IH. split; intros (j & st' & -> & ? & ?); exists j, st'; split_and!; try done; lia. }
    destruct (fs_done st) eqn:E; [|rewrite elem_of_cons]; rewrite Hs; split.
    + intros (j & st' & ? & ? & ?). by exists (S j), st'.
    + intros ([|j] & st' & ? & Hj & ?); cbn in Hj; [injection Hj as <-; congruence|]. by exists j, st'.
    + intros [->|(j & st' & ? & ? & ?)]; [exists O, st; split_and!; [lia|done..]|by exists (S j), st'].
    + intros ([|j] & st' & -> & Hj & ?); cbn in Hj; [left; lia|]. right. by exists j, st'.
Qed.

Lemma positions_NoDup from states : NoDup (positions from states).
Proof.
  revert from. induction states as [|st states IH]; intros from; cbn [positions]; [constructor|].
  case_if; [done|]. constructor; [|done]. intros (j & st' & ? & _)%positions_elem. lia.
Qed.

Lemma positions_view from pre states (states0 : list fileSendState) :
  length pre = from → Forall2 (fun a b => fs_stream b = fs_stream a ∧ fs_done b = fs_done a) (pre ++ states) states0 →
  view_at states0 <$> positions from states =
  (fun st => (fs_stream st, true)) <$> List.filter (fun st => negb (fs_done st)) states.
Proof.
  revert from pre. induction states as [|st states IH]; intros from pre Hp Hall; [done|]. cbn [positions List.filter].
  assert (Hst : ∃ b, states0 !! from = Some b ∧ fs_stream b = fs_stream st ∧ fs_done b = fs_done st).
  { destruct (Forall2_lookup_l _ _ _ (length pre) st Hall) as (b & ? & ? & ?); [by apply list_lookup_middle|]. subst. by exists b. }
  destruct Hst as (b & Hb & Hs & Hd).
  specialize (IH (S from) (pre ++ [st])). rewrite <- (assoc_L (++)) in IH. rewrite length_app in IH.
  assert (IHs := IH ltac:(cbn; lia) Hall). destruct (fs_done st) eqn:E; cbn [negb]; [done|].
  cbn [fmap list_fmap]. f_equal; [|exact IHs]. unfold view_at. by rewrite Hb, Hs, Hd.
Qed.

Lemma state_by_stream_lookup from states n st :
  NoDup (fs_stream <$> states) → states !! n = Some st → fs_done st = false →
  state_by_stream from states !! fs_stream st = Some (from + n)%nat.
Proof.
  revert from n. induction states as [|x states IH]; intros from n Hnd Hn Hd; [done|]. cbn [state_by_stream].
  apply NoDup_cons in Hnd as [Hx Hnd]. destruct n as [|n]; cbn in Hn.
  - injection Hn as ->. rewrite Hd. destruct (state_by_stream (S from) states !! fs_stream st) as [j|] eqn:E.
    + exfalso. apply Hx. clear -E. revert from E. induction states as [|y states IH]; intros from E; cbn [state_by_stream] in E; [done|].
      destruct (fs_done y) eqn:Ey; [right; by eapply IH|].
      destruct (bool_decide _) eqn:Eb; [right; by eapply IH|].
      destruct (decide (fs_stream y = fs_stream st)) as [Heq|Hne]; [rewrite <- Heq; by left|].
      rewrite lookup_insert_ne in E by done. right. by eapply IH.
    + rewrite bool_decide_eq_false_2 by (by intros []). rewrite lookup_insert_eq. f_equal. lia.
  - assert (Hl : state_by_stream (S from) states !! fs_stream st = Some (from + S n)%nat)
      by (rewrite (IH (S from) n) by done; f_equal; lia).
    destruct (fs_done x); [done|]. destruct (bool_decide _) eqn:Eb; [done|].
    rewrite lookup_insert_ne; [done|]. intros Heq. apply Hx. rewrite Heq.
    apply list_elem_of_fmap. exists st. split; [done|by eapply list_elem_of_lookup_2].
Qed.

Lemma left_end_if_done states : left_all (end_if_done <$> states) = left_all states.
Proof.
  induction states as [|st states IH]; [done|]. unfold left_all in *. cbn. rewrite IH.
  f_equal. unfold end_if_done. by destruct (fs_done st).
Qed.

Lemma chunk_fuel_enough states : (left_all states < chunk_fuel states)%nat.
Proof.
  unfold chunk_fuel, left_all, left_of. induction states as [|st states IH]; cbn; [lia|].
  cbn in IH. lia.
Qed.

(** ** The whole run *)

(** What the sender needs: its files are as announced, and what has no file has
    no content. *)
Record send_ready (s : sender) : Prop := {
  sr_sess : sending_for (session s);
  sr_disk : disk s = d;
  sr_files : Forall file_ready (pfiles (prepared s));
  sr_nodup : NoDup (SItemID <$> pfiles (prepared s));
  sr_others i it : zlookup (Items man) i = Some it → i ∉ (SItemID <$> pfiles (prepared s)) → Size it ≤ 0;
}.

Lemma started_streams files sts :
  plan_ok (length (Items man)) plan → Forall2 started files sts → NoDup (SItemID <$> files) →
  fs_index <$> sts = SItemID <$> files ∧ NoDup (fs_index <$> sts) ∧ NoDup (fs_stream <$> sts) ∧
  Forall (fun st => 0 ≤ fs_stream st) sts ∧ Forall (fun st => state_in st ∧ fs_ended st = false) sts.
Proof.
  intros Hok Hall Hnd.
  assert (Hidx : fs_index <$> sts = SItemID <$> files).
  { clear Hnd. induction Hall as [|f st files sts Hst _ IH]; [done|]. cbn. rewrite IH. f_equal. apply Hst. }
  assert (Hst : ∀ st, st ∈ sts → ∃ f, started f st).
  { intros st (j & Hj)%list_elem_of_lookup. destruct (Forall2_lookup_r _ _ _ _ _ Hall Hj) as (f & _ & ?). by exists f. }
  split; [done|]. rewrite Hidx. split; [done|]. split; [|split].
  - rewrite <- Hidx in Hnd. clear Hall Hidx. induction sts as [|st sts IH]; cbn in *; [constructor|].
    apply NoDup_cons in Hnd as [Hn Hnd]. constructor; [|apply IH; [done|intros; apply Hst; by right]].
    intros (st' & Heq & Hin)%list_elem_of_fmap. apply Hn. apply list_elem_of_fmap. exists st'. split; [|done].
    destruct (Hst st) as (f & _ & _ & Hb & _); [by left|]. destruct (Hst st') as (f' & _ & _ & Hb' & _); [by right|].
    rewrite <- Heq in Hb'. apply (plan_ok_bij _ _ Hok) in Hb, Hb'. congruence.
  - apply Forall_forall. intros st Hin. destruct (Hst st Hin) as (f & _ & _ & Hb & _). by eapply plan_ok_streams.
  - apply Forall_forall. intros st Hin. destruct (Hst st Hin) as (f & _ & ? & _ & ? & _). done.
Qed.

Lemma fileStreamWeight_fits n : 0 < fileStreamWeight n ∧ ChunkSize * fileStreamWeight n ≤ int64_max.
Proof. unfold fileStreamWeight. repeat case_if; by vm_compute. Qed.

Lemma scheduler_starts sts :
  NoDup (fs_stream <$> sts) → Forall (fun st => 0 ≤ fs_stream st) sts →
  ∃ w, NewWeightedScheduler (weighted_streams sts) ChunkSize = Ok w ∧ sched_inv w ∧ current w = None ∧
    sched_view w = (fun st => (fs_stream st, true)) <$> List.filter (fun st => negb (fs_done st)) sts.
Proof.
  intros Hnd Hpos. assert (Hsub : List.filter (fun st => negb (fs_done st)) sts `sublist_of` sts).
  { clear. induction sts as [|st sts IH]; cbn; [constructor|]. case_match; by constructor. }
  destruct (NewWeightedScheduler_total (weighted_streams sts) ChunkSize) as (w & Hw & Hi & _ & Hc & Hv).
  - done.
  - unfold weighted_streams. apply Forall_fmap, Forall_forall. intros st Hin. cbn.
    pose proof (fileStreamWeight_fits (wrap64 (Size (SItem (fs_entry st)) - fs_offset st))). split; [|done].
    rewrite Forall_forall in Hpos. apply Hpos. eapply elem_of_sublist; [exact Hin|done].
  - unfold weighted_streams. rewrite <- list_fmap_compose. eapply sublist_NoDup; [exact Hnd|].
    by apply fmap_sublist.
  - exists w. split_and!; try done. rewrite Hv. unfold weighted_streams. by rewrite <- list_fmap_compose.
Qed.

Definition seg_items : list Z := Z.of_nat <$> seq 0 (length (Items man)).

Lemma elem_of_seg_items i : i ∈ seg_items ↔ 0 ≤ i < zlen (Items man).
Proof.
  unfold seg_items, zlen. rewrite list_elem_of_fmap. split.
  - intros (n & -> & Hn%elem_of_seq). lia.
  - intros Hi. exists (Z.to_nat i). rewrite elem_of_seq. lia.
Qed.

(** What the loop leaves of the states it began with. *)
Lemma sent_states files sts ns w l s :
  Forall file_ready files → Forall2 started files sts → ns = positions 0 sts →
  turn_inv (end_if_done <$> sts) ns w l s → (∀ n st, n ∈ ns → file_states s !! n = Some st → fs_done st = true) →
  view_ended <$> file_states s = view_done <$> sts ∧ Forall state_in (file_states s) ∧
  (∀ i, (i, false) ∈ (view_done <$> sts) →
     ∃ it, zlookup (Items man) i = Some it ∧ tiles (start_at i) (chunks_of i l) (Size it)) ∧
  (∀ k a, (k, a) ∈ l → ∃ i off data, a = AChunk i off data ∧ (i, false) ∈ (view_done <$> sts) ∧ conn_ok k i ∧
     data = slice (source i) off (zlen data) ∧ zlen data ≤ ChunkSize).
Proof.
  intros Hready Hst Hns Hi Hdone. pose proof (ti_same _ _ _ _ _ Hi) as Hsame.
  assert (Hview : ∀ n st, sts !! n = Some st → ∃ st', file_states s !! n = Some st' ∧ same_stream (end_if_done st) st').
  { intros n st Hn. eapply Forall2_lookup_l in Hsame as (st' & ? & ?); [by exists st'|]. by rewrite list_lookup_fmap, Hn. }
  assert (Hstart : ∀ n st, sts !! n = Some st → ∃ f, started f st ∧ f ∈ files).
  { intros n st Hn. destruct (Forall2_lookup_r _ _ _ _ _ Hst Hn) as (f & Hf & ?). exists f. split; [done|]. by eapply list_elem_of_lookup_2. }
  split; [|split; [|split]].
  - apply list_eq. intros n. rewrite !list_lookup_fmap. destruct (sts !! n) as [st|] eqn:Hn.
    + destruct (Hview n st Hn) as (st' & -> & Hx & _ & He & _). cbn. unfold view_ended, view_done. rewrite Hx, He.
      destruct (Hstart n st Hn) as (f & (_ & _ & _ & Hen & _) & _). unfold end_if_done. by destruct (fs_done st); cbn; rewrite ?Hen.
    + assert (Hlen : (length (file_states s) = length sts)%nat)
        by (rewrite <- (Forall2_length _ _ _ Hsame); by rewrite length_fmap).
      rewrite (lookup_ge_None_2 (file_states s)); [done|]. rewrite Hlen. by apply lookup_ge_None_1.
  - apply Forall_forall. intros st' (n & Hn)%list_elem_of_lookup.
    destruct (Forall2_lookup_r _ _ _ _ _ Hsame Hn) as (st0 & Hn0 & Hx & _). rewrite list_lookup_fmap in Hn0.
    destruct (sts !! n) as [st|] eqn:Hs; [|done]. injection Hn0 as <-. destruct (Hstart n st Hs) as (f & (_ & Hin & _) & _).
    unfold state_in. rewrite Hx. unfold end_if_done. by destruct (fs_done st).
  - intros i (st & Heq & (n & Hn)%list_elem_of_lookup)%list_elem_of_fmap. unfold view_done in Heq. injection Heq as Hidx Hd. subst i. symmetry in Hd.
    destruct (Hview n st Hn) as (st' & Hn' & Hx & _ & _ & Hent).
    assert (Hns' : n ∈ ns) by (rewrite Hns; apply positions_elem; exists n, st; done).
    pose proof (ti_live _ _ _ _ _ Hi n st' Hns' Hn') as Hl. pose proof (Hdone n st' Hns' Hn') as Hd'.
    assert (Hxi : fs_index st' = fs_index st) by (rewrite Hx; unfold end_if_done; by destruct (fs_done st)).
    rewrite (lv_done _ _ Hl), Hxi in Hd'. bool_prop.
    destruct (Forall2_lookup_r _ _ _ _ _ Hst Hn) as (f & Hf & Hsf).
    destruct Hsf as (Hfi & Hin & _ & _ & Hfe & _ & Hlv). rewrite Hd in Hlv.
    unfold state_in in Hin. destruct (proj2 (zlookup_is_Some (Items man) (fs_index st)) Hin) as [it Hit]. exists it. split; [done|].
    pose proof (lv_tiles _ _ Hl) as Ht. pose proof (lv_offset _ _ Hl) as Ho. rewrite Hxi in Ht, Ho.
    replace (fs_offset st') with (zlen (source (fs_index st))) in Ht by lia.
    rewrite Forall_forall in Hready. pose proof (Hready f ltac:(by eapply list_elem_of_lookup_2)) as Hr.
    destruct (fr_item _ Hr) as (it' & Hit' & Hsz). rewrite <- Hfi, Hit in Hit'. injection Hit' as <-.
    by rewrite Hsz, (fr_size _ Hr), <- Hfi.
  - intros k a Hin. destruct (ti_chunks _ _ _ _ _ Hi k a Hin) as (n & st0 & off & data & Hn & Hl0 & -> & Hk & Hdata & Hsmall).
    rewrite Hns in Hn. apply positions_elem in Hn as (j & st & -> & Hj & Hd). cbn in Hl0. rewrite list_lookup_fmap, Hj in Hl0. injection Hl0 as <-.
    assert (Hx : fs_index (end_if_done st) = fs_index st) by (unfold end_if_done; by destruct (fs_done st)). rewrite Hx in *.
    exists (fs_index st), off, data. split_and!; try done. apply list_elem_of_fmap. exists st. unfold view_done. rewrite Hd.
    split; [done|]. by eapply list_elem_of_lookup_2.
Qed.

Lemma turn_inv_start files sts w ms s :
  Forall2 started files sts → sending_for (session s) → disk s = d → file_states s = end_if_done <$> sts →
  sched_inv w → current w = None →
  sched_view w = (fun st => (fs_stream st, true)) <$> List.filter (fun st => negb (fs_done st)) sts →
  turn_inv (end_if_done <$> sts) (positions 0 sts) w [] (hand s ms).
Proof.
  intros Hst Ht Hd Hf Hw Hc Hv. constructor; cbn; try done.
  - rewrite Hf. apply Forall_Forall2_diag, Forall_forall. done.
  - intros n st' (j & st & -> & Hj & Hdone)%positions_elem Hn. cbn in Hn. rewrite Hf, list_lookup_fmap, Hj in Hn. injection Hn as <-.
    destruct (Forall2_lookup_r _ _ _ _ _ Hst Hj) as (f & _ & _ & _ & _ & _ & _ & _ & Hlv). unfold end_if_done. rewrite Hdone in Hlv |- *. exact Hlv.
  - intros n _. by rewrite Hf.
  - rewrite Hv, Hf. symmetry. apply (positions_view 0 []); [done|]. cbn.
    apply Forall2_fmap_r, Forall_Forall2_diag, Forall_forall. intros [? ? ? ? ? [] ?] _; done.
  - intros k a ?%not_elem_of_nil. done.
Qed.

(** The run ends; what it hands over is honest and carries the sources. *)
Lemma sendPath_run s :
  send_ready s →
  ∃ s' ms l, sendPathItemsWeighted (Items man) offsets s = (Ok tt, s') ∧ output s' = output s ++ ms ∧ Forall2 hands ms l ∧
    honest conns stripe (Items man) start_at (l ++ [(0, ADone)]) ∧
    (∀ k i off data, (k, AChunk i off data) ∈ l → data = slice (source i) off (zlen data) ∧ zlen data ≤ ChunkSize) ∧
    (∀ i it, zlookup (Items man) i = Some it → start_at i < Size it → tiles (start_at i) (chunks_of i (l ++ [(0, ADone)])) (Size it)) ∧
    sending_for (session s') ∧ prepared s' = prepared s ∧ incoming s' = incoming s.
Proof.
  intros [Ht Hd Hfiles Hnd Hothers]. set (files := pfiles (prepared s)) in *.
  destruct (init_files_run files s Ht Hd Hfiles) as (sts & Hinit & Hst).
  destruct (started_streams files sts (sd_ok _ Ht) Hst Hnd) as (Hidx & Hndi & Hnds & Hpos & Hok).
  set (s1 := set_files s sts).
  destruct (open_others_run (SItemID <$> files) seg_items s1 Ht) as (ms1 & R1 & Hms1).
  { apply Forall_forall. by intros i ?%elem_of_seg_items. }
  destruct (open_files_run [] sts (hand s1 ms1) Ht eq_refl Hok) as (ms2 & R2 & Hms2). cbn [app length] in R2.
  destruct (scheduler_starts sts Hnds Hpos) as (w & Hw & Hwi & Hwc & Hwv).
  set (s2 := hand (set_files (hand s1 ms1) (end_if_done <$> sts)) ms2) in *.
  assert (Hinv : turn_inv (end_if_done <$> sts) (positions 0 sts) w [] s2) by (by eapply turn_inv_start).
  destruct (chunk_loop_run (end_if_done <$> sts) (positions 0 sts) (state_by_stream 0 sts) (positions_NoDup 0 sts)) with (fuel := chunk_fuel sts) (w := w) (l := @nil (Z * action)) (s := s2)
    as (w' & l & s3 & ms3 & R3 & Hinv3 & Hdone & Ho3 & Hms3 & Hp3 & Hi3).
  { rewrite <- list_fmap_compose. assert (Heq : compose fs_index end_if_done <$> sts = fs_index <$> sts); [|by rewrite Heq].
    apply list_fmap_ext. intros n st _. unfold compose, end_if_done. by destruct (fs_done st). }
  { intros n st0 (j & st & -> & Hj & Hdn)%positions_elem Hl. cbn in Hl. rewrite list_lookup_fmap, Hj in Hl. injection Hl as <-.
    unfold end_if_done. rewrite Hdn. cbn. by apply (state_by_stream_lookup 0). }
  { done. }
  { cbn. rewrite left_end_if_done. apply chunk_fuel_enough. }
  rewrite app_nil_l in Hinv3.
  destruct (sent_states files sts _ w' l s3 Hfiles Hst eq_refl Hinv3 Hdone) as (Hve & Hin3 & Htiles & Hch).
  destruct (end_files_run [] (file_states s3) s3 (ti_sess _ _ _ _ _ Hinv3) eq_refl Hin3) as (ms4 & R4 & Hms4). cbn [app length] in R4.
  rewrite Hve in Hms4.
  assert (Hlen : length (file_states s3) = length sts)
    by (apply (f_equal length) in Hve; by rewrite !length_fmap in Hve).
  rewrite Hlen in R4.
  eexists _, (ms1 ++ ms2 ++ ms3 ++ ms4), _. split.
  { unfold sendPathItemsWeighted. erewrite sm_bind_Ok by reflexivity. fold files.
    erewrite sm_bind_Ok by exact Hinit. erewrite sm_bind_Ok by reflexivity. fold s1.
    erewrite sm_bind_Ok by exact R1. erewrite sm_bind_Ok by exact R2.
    erewrite sm_bind_Ok by (unfold sm_lift; rewrite Hw; reflexivity).
    erewrite sm_bind_Ok by reflexivity.
    assert (Hcs : striping (session s2) = stripe) by (apply (sf_stripe _ _ _ _ (sd_for _ Ht))).
    rewrite Hcs. fold chunk_sender. erewrite sm_bind_Ok by exact R3. exact R4. }
  split. { cbn. rewrite Ho3. cbn. by rewrite !(assoc_L (++)). }
  split. { apply Forall2_app; [exact Hms1|]. apply Forall2_app; [exact Hms2|]. apply Forall2_app; [exact Hms3|exact Hms4]. }
  set (others := filter (fun i => i ∉ SItemID <$> files) seg_items).
  assert (Has : assembled conns stripe (Items man) start_at others (view_done <$> sts) l).
  { assert (Hfst : (view_done <$> sts).*1 = SItemID <$> files) by (rewrite <- list_fmap_compose, <- Hidx; done).
    constructor.
    + rewrite Hfst. apply NoDup_app. split; [|split; [|done]].
      * apply NoDup_filter. unfold seg_items. apply NoDup_fmap; [intros ? ? ?; lia|apply NoDup_seq].
      * intros i [Hn _]%list_elem_of_filter. done.
    + intros i. rewrite Hfst, elem_of_app. unfold others. rewrite list_elem_of_filter, elem_of_seg_items. split.
      * intros Hi. destruct (decide (i ∈ SItemID <$> files)); [by right|by left].
      * intros [[_ ?]|(f & -> & Hf)%list_elem_of_fmap]; [done|]. rewrite Forall_forall in Hfiles.
        destruct (fr_item _ (Hfiles f Hf)) as (it & Hit & _). by eapply zlookup_Some.
    + intros i. apply start_at_range.
    + intros i it [Hn _]%list_elem_of_filter Hit. pose proof (Hothers i it Hit Hn). pose proof (start_at_range i). lia.
    + intros i it (st & Heq & (n & Hn)%list_elem_of_lookup)%list_elem_of_fmap Hit. unfold view_done in Heq. injection Heq as -> Hdn. symmetry in Hdn.
      destruct (Forall2_lookup_r _ _ _ _ _ Hst Hn) as (f & Hf & Hfi & _ & _ & _ & _ & _ & Hsz). rewrite Hdn in Hsz.
      rewrite Forall_forall in Hfiles. pose proof (Hfiles f ltac:(by eapply list_elem_of_lookup_2)) as Hr.
      destruct (fr_item _ Hr) as (it' & Hit' & Hs'). rewrite Hfi in Hit |- *. rewrite Hit in Hit'. injection Hit' as <-.
      rewrite Hs', (fr_size _ Hr). lia.
    + done.
    + intros k a Hin. destruct (Hch k a Hin) as (i & off & data & -> & Hi & Hk & _). by exists i, off, data. }
  pose proof (assembled_honest _ _ _ _ _ _ _ Has) as Hhon. pose proof (assembled_tiles _ _ _ _ _ _ _ Has) as Htil.
  unfold all_actions in Hhon, Htil. rewrite <- !(assoc_L (++)). split; [exact Hhon|]. split; [|split; [exact Htil|split; [exact (ti_sess _ _ _ _ _ Hinv3)|split; [exact Hp3|exact Hi3]]]].
    intros k i off data Hin. rewrite !elem_of_app, other_actions_elem, open_actions_elem, end_actions_elem in Hin.
    destruct Hin as [(? & _ & [[=]|[=]])|[(? & ? & _ & [[=]|[_ [=]]])|[Hin|(? & _ & [=])]]].
    destruct (Hch _ _ Hin) as (i' & o' & d' & [= <- <- <-] & _ & _ & ? & ?). done.
Qed.
End run.

(** C3: sending a prepared path whose files are as announced always ends without
    an error, whatever the queue metrics and the workers with room; what it
    hands to the connections is honest — every stream is opened and ended on
    its connection, the chunks of a file fill it from the resumed offset to its
    end without gap or overlap — and every chunk carries the file's bytes. *)
Theorem sendPath_honest `{CaseTables} `{Crypto} `{Gzip} `{Environment} conns stripe zip man plan d source offsets s :
  send_ready conns stripe zip man plan d source s →
  ∃ s' ms l, sendPathItemsWeighted (Items man) offsets s = (Ok tt, s') ∧ output s' = output s ++ ms ∧
    Forall2 (hands zip plan) ms l ∧ honest conns stripe (Items man) (start_at source offsets) (l ++ [(0, ADone)]) ∧
    (∀ k i off data, (k, AChunk i off data) ∈ l → data = slice (source i) off (zlen data)).
Proof.
  intros Hs. destruct (sendPath_run conns stripe zip man plan d source offsets s Hs) as (s' & ms & l & ? & ? & ? & ? & Hc & _).
  exists s', ms, l. split_and!; try done. intros k i off data Hin. by destruct (Hc k i off data Hin).
Qed.

(** ** Example: a directory and two files over two data connections *)

Definition demo_env : Environment := {|
  NowMillis n := Z.of_nat n;
  observed_metrics n := MkSendMetrics (Z.of_nat n) 10 0;
  free_worker n := n;
|}.

Definition demo_disk : fs :=
  MkFS {[ ["a"]%string := NFile 0; ["b"]%string := NFile 1 ]}
    {[ 0%nat := MkInode (to_bytes "hello world") 420 0; 1%nat := MkInode (to_bytes "xyz") 420 0 ]} 2 [].
Definition demo_a : Item := MkItem ItemFile "d/a" 11 0 420 "" "" "" ChunkSize true.
Definition demo_b : Item := MkItem ItemFile "d/b" 3 0 420 "" "" "" ChunkSize true.
Definition demo_items : list Item := [MkItem ItemDirectory "d" 0 0 493 "" "" "" ChunkSize false; demo_a; demo_b].
Definition demo_path : PreparedPath := MkPrepared [MkSendFile "/a" 1 demo_a; MkSendFile "/b" 2 demo_b] demo_items 0.
Definition demo_sent_manifest : Manifest := MkManifest Version demo_items (sequential_bindings 1 3).
Definition demo_sender (disk : fs) (conns : nat) : sender :=
  let session := newTransferSessionWithPipes ((fun i => demo_pipe (Z.of_nat i)) <$> seq 0 conns) [] in
  MkSender disk demo_path
    (with_tx session (MkSending (Some demo_sent_manifest) (Some (NewPlan 3)) (chunkCompressor (tx session)) ∅))
    [] (newStreamProgressReporter "sent" demo_items ∅) [] [].
Definition demo_source (i : Z) : bytes :=
  if i =? 1 then to_bytes "hello world" else if i =? 2 then to_bytes "xyz" else [].

Lemma demo_send_ready :
  send_ready 3 true compressionGzip demo_sent_manifest (NewPlan 3) demo_disk demo_source (demo_sender demo_disk 3).
Proof.
  constructor.
  - constructor; try done. by apply newPlan_ok, sequential_valid.
  - done.
  - constructor; [|constructor; [|constructor]]; (constructor; [by eexists|by vm_compute|by vm_compute|]).
    + exists ["a"]%string, 0%nat. split; by vm_compute.
    + exists ["b"]%string, 1%nat. split; by vm_compute.
  - cbn. apply NoDup_cons. split; [set_solver|apply NoDup_singleton].
  - intros i it Hi Hn. pose proof (zlookup_Some _ _ _ Hi) as Hr. change (zlen (Items demo_sent_manifest)) with 3 in Hr.
    cbn in Hn. assert (i = 0) as -> by (assert (i ≠ 1 ∧ i ≠ 2) by (split; intros ->; set_solver); lia). by injection Hi as <-.
Qed.

Lemma sendPath_honest_witness :
  let Ht := ascii_tables in let Hc := tagged_crypto in let Hg := demo_gzip in let He := demo_env in
  let offsets := {[1 := 6]} in
  ∃ s' ms l, sendPathItemsWeighted demo_items offsets (demo_sender demo_disk 3) = (Ok tt, s') ∧
    output s' = ms ∧ Forall2 (hands compressionGzip (NewPlan 3)) ms l ∧
    honest 3 true demo_items (start_at demo_source offsets) (l ++ [(0, ADone)]).
Proof.
  intros Ht Hc Hg He offsets.
  destruct (sendPath_honest 3 true compressionGzip demo_sent_manifest (NewPlan 3) demo_disk demo_source offsets
    (demo_sender demo_disk 3) demo_send_ready) as (s' & ms & l & Hr & Ho & Hms & Hh & _).
  exists s', ms, l. split; [exact Hr|]. split; [exact Ho|]. split; [exact Hms|exact Hh].
Defined.

(** ** A file that shrank *)

(** The announced size of [a] is 11, but it has 5 bytes left when it is read:
    the sender reads to the end of the file, ends the stream and is done without
    an error; the receiver, which has not got the announced bytes, keeps the
    [done] message back and waits for ever. *)
Definition shrunk_disk : fs :=
  MkFS (entries demo_disk) {[ 0%nat := MkInode (to_bytes "hello") 420 0; 1%nat := MkInode (to_bytes "xyz") 420 0 ]} 2 [].

Definition shrunk_run `{CaseTables} `{Crypto} `{Gzip} `{Environment} : result send_error unit * list receivedPipeMessage :=
  let '(r, s) := (_ ← sendPathItemsWeighted demo_items ∅; emit (fun t now => SendDone t now)) (demo_sender shrunk_disk 3) in
  (r, (fun '(k, m) => MkReceived k (Ok m)) <$> output s).

Definition receiver_with_manifest (conns : nat) : TransferSession :=
  with_rx (newTransferSessionWithPipes ((fun i => demo_pipe (Z.of_nat i)) <$> seq 0 conns) [])
    (manifest_rx demo_sent_manifest (NewPlan 3) []).

(** The events up to the first call of [ReceiveEvent] that returns none. *)
Fixpoint drain_events `{CaseTables} `{Gzip} (fuel : nat) (s : TransferSession) (inbox : list receivedPipeMessage)
    : list TransferEvent * bool :=
  match fuel with
  | O => ([], false)
  | S fuel =>
      match ReceiveEvent s inbox with
      | Event ev s inbox => let '(evs, waits) := drain_events fuel s inbox in (ev :: evs, waits)
      | Waiting _ => ([], true)
      | _ => ([], false)
      end
  end.

Lemma shrunk_file_stalls :
  let Ht := ascii_tables in let Hc := tagged_crypto in let Hg := demo_gzip in let He := demo_env in
  fst shrunk_run = Ok tt ∧
  drain_events 20 (receiver_with_manifest 3) (snd shrunk_run) =
    ([EventStreamOpen 1 0; EventStreamEnd 1 0; EventStreamOpen 2 1; EventStreamOpen 3 2;
      EventChunk 2 1 0 (to_bytes "hello"); EventChunk 3 2 0 (to_bytes "xyz"); EventStreamEnd 2 1; EventStreamEnd 3 2], true).
Proof. intros Ht Hc Hg He. split; by vm_compute. Qed.

(** ** A stream message with a negative item *)

(** With three data connections a peer's message for item -2 makes the receiver
    index its connections out of range, before the item is checked. *)
Lemma negative_item_panics :
  validateMessageChannel (receiver_with_manifest 4) 1 (stream_message "stream_open" (-2) 1 0) = Err IndexPanic.
Proof. by vm_compute. Qed.
