(* ===== verification/Receiver.v ===== *)
(** * Receiving ([Receive] in [internal/transfer/transfer.go])

    The loop that turns the events of a session into calls of the receive
    store, answers the manifest with the resume entries, and confirms the
    transfer once the store is finalized.  The manifest is shared by pointer
    between session and store: the hashes the store fills in are seen by both. *)
From Stdlib Require Import ZArith Lia Ascii String.
From stdpp Require Import base tactics numbers list gmap strings.
From S2P Require Import Prelude GoStrings Json Base64 GoPath Transport Secure Protocol Ranges Mux ManifestCheck FileSystem Hashing.
From S2P Require Import Compression ReceiveStore TransferHello TransferSession Progress.

Record ReceiverOptions := MkReceiverOptions { OutputDir : string; Conflict : string }.

Inductive recv_error :=
  | VSession (e : session_error)
  | VStore (e : receive_error)
  | VProgress (e : progress_error)
  | VMissingHash (name : string)
  | VNoStore
  | VRemote (text : string)
  | VUnexpectedEvent
  | VWaiting         (* the run waits for a message that has not come *)
  | VOutOfFuel.

Record receiver := MkReceiver {
  rdisk : fs;
  rsession : TransferSession;
  arriving : list receivedPipeMessage;
  replies : list (Z * Message);
  rmanifest : option Manifest;
  rstore : option ReceiveStore;
  rprogress : option progressReporter;
}.

Definition rm (A : Type) : Type := receiver → result recv_error A * receiver.
#[export] Instance rm_ret : MRet rm := fun _ a s => (Ok a, s).
#[export] Instance rm_bind : MBind rm := fun _ _ k m s =>
  match m s with (Ok a, s') => k a s' | (Err e, s') => (Err e, s') end.
Definition rm_fail {A} (e : recv_error) : rm A := fun s => (Err e, s).
Definition rm_get {A} (f : receiver → A) : rm A := fun s => (Ok (f s), s).
Definition rm_modify (f : receiver → receiver) : rm unit := fun s => (Ok tt, f s).
Definition rm_lift {A} (r : result recv_error A) : rm A := fun s => (r, s).

Definition put_rdisk (s : receiver) (w : fs) : receiver :=
  MkReceiver w (rsession s) (arriving s) (replies s) (rmanifest s) (rstore s) (rprogress s).
Definition put_rsession (s : receiver) (t : TransferSession) (inbox : list receivedPipeMessage) : receiver :=
  MkReceiver (rdisk s) t inbox (replies s) (rmanifest s) (rstore s) (rprogress s).
Definition add_reply (s : receiver) (m : Z * Message) : receiver :=
  MkReceiver (rdisk s) (rsession s) (arriving s) (replies s ++ [m]) (rmanifest s) (rstore s) (rprogress s).
Definition put_rmanifest (s : receiver) (m : Manifest) : receiver :=
  MkReceiver (rdisk s) (rsession s) (arriving s) (replies s) (Some m) (rstore s) (rprogress s).
Definition put_rprogress (s : receiver) (p : progressReporter) : receiver :=
  MkReceiver (rdisk s) (rsession s) (arriving s) (replies s) (rmanifest s) (rstore s) (Some p).

(** The store's manifest is the session's and the loop's. *)
Definition share_manifest (t : TransferSession) (m : Manifest) : TransferSession :=
  let r := rx t in
  with_rx t (MkReceiving (match receiveManifest r with Some _ => Some m | None => None end) (receivePlan r)
               (receiveStreams r) (deferredMessages r) (pendingDone r) (receiveEnded r) (receiveCoverage r)).
Definition put_rstore (s : receiver) (st : ReceiveStore) : receiver :=
  MkReceiver (rdisk s) (share_manifest (rsession s) (rs_manifest st)) (arriving s) (replies s)
    (Some (rs_manifest st)) (Some st) (rprogress s).

(** A call of the store. *)
Definition on_store {A} (m : io receive_error A) : rm A := fun s =>
  let '(r, w) := m (rdisk s) in (wrap_err VStore r, put_rdisk s w).

Section receive.
Context `{CaseTables} `{Crypto} `{Gzip}.
(** The clock at the n-th reply. *)
Context (now : nat → Z).

Definition reply (f : TransferSession → Z → result session_error (Z * Message)) : rm unit := fun s =>
  match f (rsession s) (now (length (replies s))) with
  | Ok m => (Ok tt, add_reply s m)
  | Err e => (Err (VSession e), s)
  end.

Definition next_event : rm TransferEvent := fun s =>
  match ReceiveEvent (rsession s) (arriving s) with
  | Event ev t inbox => (Ok ev, put_rsession s t inbox)
  | Failed e t inbox => (Err (VSession e), put_rsession s t inbox)
  | Waiting t => (Err VWaiting, put_rsession s t [])
  | TransferSession.OutOfFuel => (Err VOutOfFuel, s)
  end.

Definition wait_accept (items : list Item) : rm (list ResumeEntry) := fun s =>
  match WaitResumeAccept (rsession s) items (arriving s) with
  | None => (Err VWaiting, s)
  | Some (r, t, inbox) => (wrap_err VSession r, put_rsession s t inbox)
  end.

(** With deferred hashes, the answer carries the hash of every file to come. *)
Definition check_hashes (items : list Item) (accepted : list ResumeEntry) : rm unit :=
  match List.find (fun e => match zlookup items (REItem e) with
                            | Some it => String.eqb (Kind it) ItemFile && negb (RESkip e) && String.eqb (RESHA256 e) ""
                            | None => false
                            end) accepted with
  | Some e => rm_fail (VMissingHash (match zlookup items (REItem e) with Some it => Name it | None => "" end))
  | None => mret tt
  end.

Definition handle_manifest (opts : ReceiverOptions) (m : Manifest) : rm unit :=
  _ ← rm_modify (fun s => put_rmanifest s m);
  t ← rm_get rsession;
  store ← on_store (NewReceiveStoreWithOptions (Some m) (OutputDir opts) (Conflict opts) (striping t));
  _ ← rm_modify (fun s => put_rstore s store);
  let resume := ResumeEntries store in
  p ← rm_lift (wrap_err VProgress (newManifestProgressReporter "received" m (resumeEntriesToOffsets resume)));
  _ ← rm_modify (fun s => put_rprogress s p);
  if (0 <? length resume)%nat then
    _ ← reply (fun t now => SendResume t resume now);
    accepted ← wait_accept (Items m);
    t ← rm_get rsession;
    _ ← (if deferredFileSHA256 t then check_hashes (Items m) accepted else mret tt);
    store ← on_store (ApplyResumeAccept store accepted);
    _ ← rm_modify (fun s => put_rstore s store);
    p ← rm_lift (wrap_err VProgress (newManifestProgressReporter "received" (rs_manifest store) (resumeEntriesToOffsets accepted)));
    rm_modify (fun s => put_rprogress s p)
  else mret tt.

Definition handle_chunk (stream item offset : Z) (data : bytes) : rm unit :=
  st ← rm_get rstore;
  match st with
  | None => rm_fail VNoStore
  | Some store =>
      store ← on_store (WriteChunk store item offset data);
      _ ← rm_modify (fun s => put_rstore s store);
      rm_modify (fun s => match rprogress s with
                          | Some p => put_rprogress s (AddStream p stream (zlen data))
                          | None => s
                          end)
  end.

Definition handle_done : rm (list ReceivedText) :=
  st ← rm_get rstore;
  match st with
  | None => rm_fail VNoStore
  | Some store =>
      r ← on_store (Finalize store);
      _ ← rm_modify (fun s => put_rstore s (fst r));
      _ ← reply SendComplete;
      mret (snd r)
  end.

Fixpoint Receive_loop (fuel : nat) (opts : ReceiverOptions) : rm (list ReceivedText) :=
  match fuel with
  | O => rm_fail VOutOfFuel
  | S fuel =>
      ev ← next_event;
      match ev with
      | EventManifest m => _ ← handle_manifest opts m; Receive_loop fuel opts
      | EventStreamOpen _ _ | EventStreamEnd _ _ => Receive_loop fuel opts
      | EventChunk stream item offset data => _ ← handle_chunk stream item offset data; Receive_loop fuel opts
      | EventDone => handle_done
      | EventError text => rm_fail (VRemote text)
      | _ => rm_fail VUnexpectedEvent
      end
  end.

(** An event takes a message, the last one the held-back [done]. *)
Definition Receive_fuel (s : receiver) : nat :=
  S (S (length (arriving s) + length (deferredMessages (rx (rsession s))))).

(** The store is closed on the way out. *)
Definition close_store (s : receiver) : receiver :=
  match rstore s with
  | None => s
  | Some store => let '(_, store, w) := Close store (rdisk s) in put_rstore (put_rdisk s w) store
  end.

Definition Receive (opts : ReceiverOptions) : rm (list ReceivedText) := fun s =>
  let '(r, s') := Receive_loop (Receive_fuel s) opts s in (r, close_store s').
End receive.
