(* ===== verification/ReceiverProofs.v ===== *)
(** * The receive loop ends, whatever arrives *)
From Stdlib Require Import ZArith Lia Ascii String.
From stdpp Require Import base tactics numbers list gmap strings.
From S2P Require Import Prelude GoStrings Json Base64 GoPath Transport Secure Protocol Ranges Mux ManifestCheck FileSystem Hashing.
From S2P Require Import Compression ReceiveStore TransferHello TransferSession Progress Receiver.

Section total.
Context `{CaseTables} `{Crypto} `{Gzip}.

(** The messages a session still has to look at. *)
Definition messages (t : TransferSession) (inbox : list receivedPipeMessage) : nat :=
  (length inbox + length (deferredMessages (rx t)))%nat.

Definition fewer (t : TransferSession) (inbox : list receivedPipeMessage) (o : outcome) : Prop :=
  match o with
  | Event EventDone t' inbox' => (messages t' inbox' ≤ messages t inbox)%nat
  | Event _ t' inbox' | Failed _ t' inbox' => (messages t' inbox' < messages t inbox)%nat
  | Waiting _ => True
  | TransferSession.OutOfFuel => False
  end.

Lemma fewer_mono t inbox t' inbox' o : (messages t' inbox' ≤ messages t inbox)%nat → fewer t' inbox' o → fewer t inbox o.
Proof. intros Hm. unfold fewer. destruct o as [[]| | |]; try lia; done. Qed.

Lemma message_event_deferred t m ev r : message_event t m = Ok (ev, r) → deferredMessages r = deferredMessages (rx t).
Proof.
  unfold message_event. intros He.
  repeat first [case_match; try discriminate He | progress res_inv]; simplify_eq; try done.
  all: repeat match goal with Hx : (let '(_, _) := ?p in _) = Ok _ |- _ => destruct p end; res_inv; simplify_eq; try done.
  all: repeat first [case_match; try done | progress res_inv]; simplify_eq; done.
Qed.

(** The turns the loop can take. *)
Definition turns (t : TransferSession) (inbox : list receivedPipeMessage) : nat :=
  (2 * length inbox + length (deferredMessages (rx t)))%nat.

Lemma receiveMessage_takes t inbox received t' inbox' :
  receiveMessage t inbox = Some (received, t', inbox') →
  S (messages t' inbox') = messages t inbox ∧ (turns t' inbox' < turns t inbox)%nat ∧
  (receiveManifest (rx t') = None → t' = t ∧ inbox = received :: inbox').
Proof.
  unfold receiveMessage, messages, turns. intros Hx.
  assert (Hc : (t' = t ∧ inbox = received :: inbox') ∨
               (is_Some (receiveManifest (rx t)) ∧ ∃ d, deferredMessages (rx t) = received :: d ∧
                t' = with_rx t (with_deferred (rx t) d) ∧ inbox' = inbox)).
  { destruct (receiveManifest (rx t)) as [m|], (deferredMessages (rx t)) as [|r d];
      try (injection Hx as -> <- <-; right; split; [done|]; by exists d);
      destruct inbox as [|r0 l]; try discriminate Hx; injection Hx as -> <- <-; by left. }
  destruct Hc as [[-> ->]|([m Em] & d & Ed & -> & ->)].
  - cbn. split_and!; try done; lia.
  - rewrite Ed. cbn. split; [lia|]. split; [lia|]. by rewrite Em.
Qed.

Lemma receive_loop_fewer fuel t inbox : (turns t inbox < fuel)%nat → fewer t inbox (receive_loop fuel t inbox).
Proof.
  revert t inbox. induction fuel as [|fuel IH]; intros t inbox Hf; [lia|]. cbn [receive_loop].
  destruct (pendingDone (rx t) && receiveReady (rx t)); [unfold fewer, messages; cbn; lia|].
  destruct (receiveMessage t inbox) as [[[received t'] inbox']|] eqn:Er; [|done].
  destruct (receiveMessage_takes _ _ _ _ _ Er) as (Hm & Ht & Hnone).
  destruct (content received) as [m|e]; [|cbn; lia].
  match goal with |- context [if ?b then receive_loop fuel (defer _ _) _ else _] => destruct b eqn:Ed end.
  - bool_prop. destruct (Hnone ltac:(done)) as [-> ->].
    assert (Hd : (turns (defer t received) inbox' < turns t (received :: inbox'))%nat ∧
                 messages (defer t received) inbox' = messages t (received :: inbox')).
    { unfold turns, messages, defer. cbn. rewrite length_app. cbn. lia. }
    apply (fewer_mono _ _ (defer t received) inbox'); [lia|]. apply IH. lia.
  - destruct (validateMessageChannel _ _ _) as [?|e]; [|cbn; lia].
    match goal with |- context [if ?b then receive_loop fuel _ _ else _] => destruct b eqn:Edone end.
    + apply (fewer_mono _ _ (with_rx t' (with_pendingDone (rx t') true)) inbox'); [unfold messages in *; cbn; lia|].
      apply IH. unfold turns in *. cbn. lia.
    + destruct (message_event t' m) as [[ev r]|e] eqn:Em; [|cbn; lia].
      apply message_event_deferred in Em. unfold fewer, messages in *. cbn. destruct ev; rewrite Em; lia.
Qed.

(** [ReceiveEvent] returns or waits, for any messages at all. *)
Lemma ReceiveEvent_fewer t inbox : fewer t inbox (ReceiveEvent t inbox).
Proof. apply receive_loop_fewer. unfold turns, receive_fuel. lia. Qed.

Lemma receiveControlMessage_fewer t inbox r t' inbox' :
  receiveControlMessage t inbox = Some (r, t', inbox') → (messages t' inbox' ≤ messages t inbox)%nat.
Proof.
  revert t. induction inbox as [|received inbox IH]; intros t; cbn [receiveControlMessage]; [done|].
  destruct (content received) as [m|e]; [|intros [= <- <- <-]; unfold messages; cbn; lia].
  case_if; [intros [= <- <- <-]; unfold messages; cbn; lia|].
  intros Hr%IH. unfold messages, defer in *. cbn in *. rewrite length_app in Hr. cbn in Hr. lia.
Qed.

Lemma WaitResumeAccept_fewer t items inbox r t' inbox' :
  WaitResumeAccept t items inbox = Some (r, t', inbox') → (messages t' inbox' ≤ messages t inbox)%nat.
Proof.
  unfold WaitResumeAccept. destruct (receiveControlMessage t inbox) as [[[[m|e] s] l]|] eqn:Er; [| |done].
  - apply receiveControlMessage_fewer in Er. repeat case_match; intros [= <- <- <-]; try done.
    unfold messages, applyReceiveResume in *. cbn. by case_if.
  - intros [= <- <- <-]. by eapply receiveControlMessage_fewer.
Qed.

(** ** The loop of [Receive] *)

Context (now : nat → Z).

(** A step that cannot run out of fuel and adds no messages. *)
Definition calm {A} (m : rm A) : Prop := ∀ s, let '(r, s') := m s in
  r ≠ Err VOutOfFuel ∧ (messages (rsession s') (arriving s') ≤ messages (rsession s) (arriving s))%nat.

Lemma calm_bind {A B} (m : rm A) (k : A → rm B) : calm m → (∀ a, calm (k a)) → calm (m ≫= k).
Proof.
  intros Hm Hk s. unfold mbind, rm_bind. specialize (Hm s). destruct (m s) as [[a|e] s1];
    [|destruct Hm as [Hne ?]; split; [intros [= ->]; by apply Hne|done]].
  destruct Hm as [_ Hm]. specialize (Hk a s1). destruct (k a s1) as [r s2]. destruct Hk. split; [done|lia].
Qed.
Lemma calm_ret {A} (a : A) : calm (mret a).
Proof. intros s. by split. Qed.
Lemma calm_get {A} (f : receiver → A) : calm (rm_get f).
Proof. intros s. by split. Qed.
Lemma calm_fail {A} e : e ≠ VOutOfFuel → calm (@rm_fail A e).
Proof. intros He s. split; [intros [= ->]; by apply He|done]. Qed.
Lemma calm_modify f : (∀ s, messages (rsession (f s)) (arriving (f s)) = messages (rsession s) (arriving s)) → calm (rm_modify f).
Proof. intros Hf s. split; [done|]. by rewrite Hf. Qed.
Lemma calm_store {A} (m : io receive_error A) : calm (on_store m).
Proof. intros s. unfold on_store. destruct (m (rdisk s)) as [[a|e] w]; by split. Qed.
Lemma calm_reply f : calm (reply now f).
Proof. intros s. unfold reply. by destruct (f _ _). Qed.
Lemma calm_progress {A} (m : result progress_error A) : calm (rm_lift (wrap_err VProgress m)).
Proof. intros s. by destruct m. Qed.
Lemma calm_put_rstore store : calm (rm_modify (fun s => put_rstore s store)).
Proof. by apply calm_modify. Qed.
Lemma calm_wait items : calm (wait_accept items).
Proof.
  intros s. unfold wait_accept. destruct (WaitResumeAccept _ _ _) as [[[r t] inbox]|] eqn:Ew; [|done].
  split; [by destruct r|]. by eapply WaitResumeAccept_fewer.
Qed.
Lemma calm_check items accepted : calm (check_hashes items accepted).
Proof. unfold check_hashes. case_match; [by apply calm_fail|apply calm_ret]. Qed.

#[local] Hint Resolve calm_ret calm_get calm_store calm_reply calm_progress calm_put_rstore calm_wait calm_check : core.
Ltac calm :=
  repeat first
    [ progress auto
    | apply calm_bind; [|intros ?]
    | apply calm_modify; intros ?; repeat case_match; done
    | apply calm_fail; done
    | case_match ].

Lemma calm_manifest opts m : calm (handle_manifest now opts m).
Proof. unfold handle_manifest. calm. Qed.
Lemma calm_chunk stream item offset data : calm (handle_chunk stream item offset data).
Proof. unfold handle_chunk. calm. Qed.
Lemma calm_done : calm (handle_done now).
Proof. unfold handle_done. calm. Qed.

Lemma Receive_loop_total fuel opts s :
  (messages (rsession s) (arriving s) < fuel)%nat → fst (Receive_loop now fuel opts s) ≠ Err VOutOfFuel.
Proof.
  revert s. induction fuel as [|fuel IH]; intros s Hf; [lia|]. cbn [Receive_loop]. unfold mbind, rm_bind. unfold next_event at 1.
  pose proof (ReceiveEvent_fewer (rsession s) (arriving s)) as Hev.
  destruct (ReceiveEvent _ _) as [ev t inbox|e t inbox|t|]; [|done|done|done].
  set (s1 := put_rsession s t inbox). unfold fewer in Hev.
  assert (Hgo : ∀ m : rm unit, calm m → ev ≠ EventDone →
    fst (match m s1 with (Ok a, s') => Receive_loop now fuel opts s' | (Err e, s') => (Err e, s') end) ≠ Err VOutOfFuel).
  { intros m Hm Hne. specialize (Hm s1). destruct (m s1) as [[a|e] s2]; destruct Hm as [H1' H2']; [|intros [= ->]; by apply H1'].
    apply IH. destruct ev; try done; unfold s1 in H2'; cbn [put_rsession rsession arriving] in H2'; lia. }
  destruct ev; try done.
  - apply (Hgo _ (calm_manifest opts m)). done.
  - apply IH. unfold s1. cbn [put_rsession rsession arriving]. lia.
  - apply (Hgo _ (calm_chunk stream item offset data)). done.
  - apply IH. unfold s1. cbn [put_rsession rsession arriving]. lia.
  - pose proof (calm_done s1) as Hd. destruct (handle_done now s1) as [r s2]. apply Hd.
Qed.
End total.

(** C5: whatever a peer sends, in whatever order, [Receive] ends: with the
    texts, with an error, or waiting for a message that has not come; the
    session never defers and replays messages for ever. *)
Theorem Receive_total `{CaseTables} `{Crypto} `{Gzip} now opts s : fst (Receive now opts s) ≠ Err VOutOfFuel.
Proof.
  unfold Receive. pose proof (Receive_loop_total now (Receive_fuel s) opts s) as Hl.
  destruct (Receive_loop now (Receive_fuel s) opts s) as [r s']. apply Hl. unfold messages, Receive_fuel. lia.
Qed.
