(* ===== verification/EndToEnd.v ===== *)
(** * From the sender's files to the receiver's

    The chunks of an honest transfer, in any order the connections deliver them,
    are all accepted by the receive store, and the part files end up with the
    content of the sources. *)
From Stdlib Require Import ZArith Lia Ascii String.
From stdpp Require Import base tactics numbers list gmap strings.
From S2P Require Import Prelude GoStrings Json Base64 GoPath Transport Secure Protocol Ranges Mux ManifestCheck FileSystem Hashing.
From S2P Require Import Compression ReceiveStore ReceiveProofs TransferHello TransferSession SessionProofs Honest Scheduler Progress Sender SenderProofs Receiver.

Section chunks.
Context `{CaseTables} `{Crypto}.

(** An accepted chunk. *)
Lemma WriteChunk_run w s i off data item f ino :
  zlookup (Items (rs_manifest s)) i = Some item → Kind item = ItemFile →
  rs_files s !! i = Some f → rf_file f = Some ino → rf_complete f = false → rf_skipped f = false →
  ranges_wf (rf_ranges f) → in_int64 (Size item) → zlen data < 2 ^ 62 →
  0 ≤ off → off + zlen data ≤ Size item → (outOfOrder s = true ∨ off = rf_offset f) →
  (∀ b, off ≤ b < off + zlen data → ¬ covered (rf_ranges f) b) →
  ∃ r w', byteRanges_Add (rf_ranges f) off (off + zlen data) = Ok r ∧
    WriteChunk s i off data w = (Ok (ReceiveStore.set_file s i (with_ranges f r)), w').
Proof.
  intros Hit Hk Hf Hino Hcomp Hskip Hwf Hsz Hlen Ho Hend Hord Hnew.
  pose proof (Add_spec (rf_ranges f) off (off + zlen data) Hwf ltac:(unfold zlen in *; lia)) as Hadd.
  destruct (byteRanges_Add (rf_ranges f) off (off + zlen data)) as [r|e] eqn:Er; [|destruct Hadd as (b & Hb & Hc); by apply Hnew in Hc].
  exists r. unfold WriteChunk. rewrite Hit, Hk. rewrite String.eqb_refl. unfold write_file_chunk.
  rewrite Hf, Hcomp, Hskip, Hino. fold (zlen data). unfold mbind, io_bind, fail_if_io, lift. cbn [orb fail_if].
  rewrite (proj2 (validateChunkRange_Ok item off (zlen data) ltac:(unfold in_int64, int64_min, int64_max in *; unfold zlen in *; lia) ltac:(unfold zlen in *; lia) Hsz) (conj Ho Hend)).
  cbn [wrap_err].
  replace (negb (outOfOrder s) && negb (off =? rf_offset f)) with false
    by (symmetry; apply andb_false_iff; destruct Hord as [-> | ->]; [by left|right; by rewrite Z.eqb_refl]).
  cbn [fail_if]. rewrite wrap64_id by (unfold in_int64, int64_min, int64_max in *; unfold zlen in *; lia). rewrite Er. cbn [wrap_err].
  unfold wrap_io, WriteAt. replace (off <? 0) with false by (symmetry; apply Z.ltb_ge; lia). cbn [wrap_err].
  eexists. split; [done|]. unfold with_ranges. rewrite Hino, Hcomp, Hskip. reflexivity.
Qed.
End chunks.

Section transfer.
Context `{CaseTables} `{Crypto} `{Gzip}.
Context (conns : Z) (stripe : bool) (zip : string) (man : Manifest) (plan : Plan) (base : Z → Z) (source : Z → bytes).
Context (sent arrived : list (Z * action)).

(** The files with something to come. *)
Definition expected (i : Z) (it : Item) : Prop := zlookup (Items man) i = Some it ∧ base i < Size it.

(** What the sender guarantees: it is honest, its chunks carry the source, and
    without striping a file's chunks are in order. *)
Record true_sender : Prop := {
  ts_manifest : manifest_for man plan;
  ts_honest : honest conns stripe (Items man) base sent;
  ts_base : base_ok man base;
  ts_content k i off data : (k, AChunk i off data) ∈ sent → data = slice (source i) off (zlen data) ∧ zlen data < 2 ^ 62;
  ts_tiles i it : expected i it → tiles (base i) (chunks_of i sent) (Size it);
}.

(** The store after the chunks of [pre]. *)
Record store_inv (w : fs) (st : ReceiveStore) (pre : list (Z * action)) : Prop := {
  sv_ok : store_ok source w st;
  sv_manifest : rs_manifest st = man;
  sv_order : outOfOrder st = stripe;
  sv_files i it : expected i it → Kind it = ItemFile ∧ ∃ f ino, rs_files st !! i = Some f ∧ rf_file f = Some ino ∧
    rf_complete f = false ∧ rf_skipped f = false ∧
    ∀ b, covered (rf_ranges f) b ↔ 0 ≤ b < base i ∨ arrived_chunk pre i b;
}.

Context (Hts : true_sender) (Hi : interleaves sent arrived).

Lemma chunk_expected k i off data :
  (k, AChunk i off data) ∈ sent → ∃ it, expected i it ∧ base i ≤ off ∧ off + zlen data ≤ Size it ∧ 0 < zlen data ∧ in_int64 (Size it).
Proof using Hts.
  intros Hin. destruct (honest_chunk _ _ _ _ _ (ts_honest Hts) _ _ _ _ Hin) as (it & Hit & Hne & Hb & He & _).
  pose proof (zlen_pos data Hne) as Hz. exists it. unfold expected.
  pose proof (mf_size _ _ (ts_manifest Hts) i it Hit). split_and!; try done; try lia. unfold in_int64, int64_min, int64_max in *. lia.
Qed.

Lemma arrived_chunk_snoc pre k i off data j b :
  arrived_chunk (pre ++ [(k, AChunk i off data)]) j b ↔ arrived_chunk pre j b ∨ (j = i ∧ in_chunk off data b).
Proof.
  unfold arrived_chunk. split.
  - intros (k' & off' & data' & Hin & Hb). apply elem_of_app in Hin as [Hin|[= -> -> -> ->]%list_elem_of_singleton].
    + left. by exists k', off', data'.
    + by right.
  - intros [(k' & off' & data' & Hin & Hb)|[-> Hb]].
    + exists k', off', data'. rewrite elem_of_app. split; [by left|done].
    + exists k, off, data. rewrite elem_of_app, list_elem_of_singleton. split; [by right|done].
Qed.

Lemma arrived_chunk_other pre k a j b : (∀ i off data, a ≠ AChunk i off data) → arrived_chunk (pre ++ [(k, a)]) j b ↔ arrived_chunk pre j b.
Proof.
  intros Hn. unfold arrived_chunk. setoid_rewrite elem_of_app. setoid_rewrite list_elem_of_singleton. split.
  - intros (k' & off & data & [?|[= -> <-]] & ?); [by exists k', off, data|by destruct (Hn j off data)].
  - intros (k' & off & data & ? & ?). exists k', off, data. split; [by left|done].
Qed.

(** Without striping the chunks of an item keep their order. *)
Lemma chunks_in_order i pre rest :
  stripe = false → arrived = pre ++ rest → chunks_of i arrived = chunks_of i sent.
Proof using Hts Hi.
  intros Hs _. assert (Hf : ∀ l, (∀ x, x ∈ l → x ∈ sent) → chunks_of i l = chunks_of i (filter (on_conn (item_conn conns i)) l)).
  { intros l Hl. induction l as [|[k a] l IH]; [done|]. rewrite filter_cons.
    assert (IHl := IH ltac:(intros x Hx; apply Hl; by right)). unfold on_conn at 1. cbn [fst].
    destruct a as [j|j off data|j|]; cbn [chunks_of omap list_omap]; try (case_decide; cbn; exact IHl).
    destruct (Z.eqb_spec j i) as [->|Hne].
    - assert (Hk : k = item_conn conns i).
      { destruct (honest_chunk _ _ _ _ _ (ts_honest Hts) k i off data) as (it & _ & _ & _ & _ & Hk); [apply Hl; by left|].
        rewrite Hs in Hk. cbn in Hk. by destruct Hk. }
      rewrite decide_True by done. cbn. rewrite Z.eqb_refl. f_equal. exact IHl.
    - case_decide; cbn; rewrite ?(proj2 (Z.eqb_neq j i)) by done; exact IHl. }
  rewrite (Hf arrived), (Hf sent); [by rewrite Hi|done|]. intros x Hx. by apply (interleaves_elem _ _ _ Hi).
Qed.

Lemma tiles_app from cs1 cs2 to : tiles from (cs1 ++ cs2) to → ∃ mid, tiles from cs1 mid ∧ tiles mid cs2 to.
Proof.
  revert from. induction cs1 as [|[off d] cs1 IH]; intros from Ht; cbn in *; [by exists from|].
  destruct Ht as (-> & Hne & Ht). destruct (IH _ Ht) as (mid & ? & ?). by exists mid.
Qed.

(** In order, the next chunk of a file is where its prefix ends. *)
Lemma next_offset pre k i off data rest rs :
  stripe = false → arrived = pre ++ (k, AChunk i off data) :: rest → ranges_wf rs →
  (∀ b, covered rs b ↔ 0 ≤ b < base i ∨ arrived_chunk pre i b) → byteRanges_Prefix (Some rs) = off.
Proof using Hts Hi.
  intros Hs Ea Hwf Hcov.
  assert (Hin : (k, AChunk i off data) ∈ sent) by (apply (interleaves_elem _ _ _ Hi); rewrite Ea; set_solver).
  destruct (chunk_expected _ _ _ _ Hin) as (it & Hex & Hb & He & Hz & _).
  pose proof (ts_tiles Hts i it Hex) as Ht. rewrite <- (chunks_in_order i _ _ Hs Ea), Ea, chunks_of_app in Ht.
  cbn [chunks_of omap list_omap snd] in Ht. rewrite Z.eqb_refl in Ht. apply tiles_app in Ht as (mid & Ht1 & Ht2).
  cbn [tiles] in Ht2. destruct Ht2 as (<- & _ & _). fold (chunks_of i pre) in Ht1.
  assert (Hc : ∀ b, covered rs b ↔ 0 ≤ b < off).
  { intros b. rewrite Hcov. split.
    - intros [?|(k' & o' & d' & Hin' & Hb')]; [lia|]. destruct (tiles_elem _ _ _ o' d' Ht1) as (? & ? & _);
        [apply elem_of_chunks; by exists k'|]. unfold in_chunk in Hb'.
      destruct (ts_base Hts i it (proj1 Hex)). lia.
    - intros Hr. destruct (decide (b < base i)); [left; lia|right].
      destruct (tiles_full _ _ _ b Ht1) as (o' & d' & [k' Hk']%elem_of_chunks & Hc'); [lia|]. by exists k', o', d'. }
  pose proof (Prefix_not_covered rs Hwf) as Hn. rewrite Hc in Hn.
  assert (Hp : ∀ b, 0 ≤ b < byteRanges_Prefix (Some rs) → b < off) by (intros b Hr; apply (Prefix_covered rs b Hwf) in Hr; apply Hc in Hr; lia).
  assert (0 ≤ byteRanges_Prefix (Some rs)) by (by apply Prefix_nonneg).
  destruct (Z.lt_trichotomy (byteRanges_Prefix (Some rs)) off) as [|[|Hgt]]; [lia|done|].
  destruct (ts_base Hts i it (proj1 Hex)). specialize (Hp off). lia.
Qed.

(** A chunk that arrives is stored. *)
Lemma store_chunk w st pre k i off data rest :
  store_inv w st pre → arrived = pre ++ (k, AChunk i off data) :: rest →
  ∃ st' w', WriteChunk st i off data w = (Ok st', w') ∧ store_inv w' st' (pre ++ [(k, AChunk i off data)]).
Proof using Hts Hi.
  intros Hst Ea. pose proof Hst as [Hok Hman Hord Hfiles].
  assert (Hin : (k, AChunk i off data) ∈ sent) by (apply (interleaves_elem _ _ _ Hi); rewrite Ea; set_solver).
  destruct (chunk_expected _ _ _ _ Hin) as (it & Hex & Hb & He & Hz & Hsz).
  destruct (ts_content Hts _ _ _ _ Hin) as [Hdata Hlen].
  destruct (Hfiles i it Hex) as (Hk & f & ino & Hf & Hino & Hcomp & Hskip & Hcov).
  pose proof (so_files _ _ _ Hok i f ino Hf Hino) as Hfo.
  destruct (ts_base Hts i it (proj1 Hex)) as [Hb0 _].
  assert (Hnd : NoDup arrived) by (eapply interleaves_NoDup; [exact Hi|apply (ts_honest Hts)]).
  destruct (WriteChunk_run w st i off data it f ino) as (r & w' & Hr & Hw); try done.
  - by rewrite Hman, (proj1 Hex).
  - apply Hfo.
  - lia.
  - rewrite Hord. assert (stripe = true ∨ stripe = false) as [->|Es] by (destruct stripe; auto); [by left|right].
    rewrite (fo_offset _ _ _ Hfo). symmetry. by apply (next_offset pre k i off data rest (rf_ranges f) Es Ea (fo_ranges _ _ _ Hfo)).
  - intros b Hbr Hc. apply Hcov in Hc as [?|(k' & o' & d' & Hin' & Hb')]; [lia|].
    assert (Hin2 : (k', AChunk i o' d') ∈ sent) by (apply (interleaves_elem _ _ _ Hi); rewrite Ea; set_solver).
    pose proof (honest_disjoint _ _ _ _ _ (ts_honest Hts) _ _ _ _ _ _ _ b Hin2 Hin Hb' ltac:(unfold in_chunk; lia)) as Heq.
    rewrite Heq in Hin'. rewrite Ea in Hnd. apply NoDup_app in Hnd as (_ & Hn & _). apply (Hn _ Hin'). by left.
  - exists (ReceiveStore.set_file st i (with_ranges f r)), w'. split; [done|].
    assert (Hsf : sent_from source st (i, off, data)).
    { split_and!; [unfold in_int64, int64_min, int64_max in *; lia|done|unfold chunk_of; by symmetry]. }
    pose proof (WriteChunk_ok source _ _ _ _ _ _ _ Hok Hsf Hw) as [Hok' _].
    constructor; try done. intros j jt Hj. destruct (Hfiles j jt Hj) as (Hkj & fj & inoj & Hfj & Hinoj & Hcj & Hsj & Hcovj).
    split; [done|]. cbn [rs_files ReceiveStore.set_file].
    pose proof (Add_spec (rf_ranges f) off (off + zlen data) (fo_ranges _ _ _ Hfo) ltac:(lia)) as Ha. rewrite Hr in Ha. destruct Ha as (_ & Hrc & _).
    destruct (decide (j = i)) as [->|Hne].
    + exists (with_ranges f r), ino. rewrite lookup_insert_eq. split_and!; try done. intros b. cbn [rf_ranges with_ranges].
      rewrite Hrc, arrived_chunk_snoc, Hcov. unfold in_chunk. naive_solver.
    + exists fj, inoj. rewrite lookup_insert_ne by done. split_and!; try done. intros b. rewrite Hcovj, arrived_chunk_snoc. naive_solver.
Qed.

Lemma store_other w st pre k a : (∀ i off data, a ≠ AChunk i off data) → store_inv w st pre → store_inv w st (pre ++ [(k, a)]).
Proof using Type.
  intros Hn [? ? ? Hf]. constructor; try done. intros i it Hex. destruct (Hf i it Hex) as (? & f & ino & ? & ? & ? & ? & Hc).
  split; [done|]. exists f, ino. split_and!; try done. intros b. by rewrite Hc, arrived_chunk_other.
Qed.

(** Once everything has arrived, the part files are the sources. *)
Definition all_stored (w : fs) (st : ReceiveStore) : Prop :=
  store_ok source w st ∧ rs_manifest st = man ∧
  ∀ i it, expected i it → ∃ f ino, rs_files st !! i = Some f ∧ rf_file f = Some ino ∧
    byteRanges_Complete (Some (rf_ranges f)) (Size it) = true ∧ FileSystem.content (inode_at w ino) = source i.

Lemma store_complete w st : store_inv w st arrived → all_stored w st.
Proof using Hts Hi.
  intros [Hok Hman _ Hf]. split_and!; try done. intros i it Hex. destruct (Hf i it Hex) as (Hk & f & ino & Hfi & Hino & _ & _ & Hc).
  pose proof (so_files _ _ _ Hok i f ino Hfi Hino) as Hfo. destruct (ts_base Hts i it (proj1 Hex)) as [Hb0 Hb1].
  destruct (so_items _ _ _ Hok i f it Hfi) as [Hsz _]; [by rewrite Hman, (proj1 Hex)|].
  assert (Hcp : byteRanges_Complete (Some (rf_ranges f)) (Size it) = true).
  { apply Complete_spec; [apply Hfo|lia| |].
    - intros b Hb. rewrite Hsz. by apply (fo_bounded _ _ _ Hfo).
    - intros b Hb. apply Hc. destruct (decide (b < base i)); [left; lia|right].
      destruct (honest_full _ _ _ _ _ (ts_honest Hts) i it b (proj1 Hex)) as (k & off & data & Hin & Hbc); [lia|].
      exists k, off, data. split; [|done]. by apply (interleaves_elem _ _ _ Hi). }
  exists f, ino. split_and!; try done. apply (file_ok_complete _ _ f Hfo). by rewrite <- Hsz.
Qed.

(** ** The loop *)

Context (now : nat → Z) (opts : ReceiverOptions).

Lemma share_manifest_id t : receiveManifest (rx t) = Some man → share_manifest t man = t.
Proof using Type. intros Hm. destruct t as [? ? ? ? ? [? ? ? ? ? ? ?]]. unfold share_manifest, with_rx. cbn in *. by rewrite Hm. Qed.

Lemma stored_dones w st pre dones : store_inv w st pre → Forall is_done dones → store_inv w st (pre ++ dones).
Proof using Type.
  intros Hst Hd. revert pre Hst. induction Hd as [|[k a] dones Hx _ IH]; intros pre Hst; [by rewrite app_nil_r|].
  unfold is_done in Hx. cbn in Hx. subst a. replace (pre ++ (k, ADone) :: dones) with ((pre ++ [(k, ADone)]) ++ dones) by by rewrite <- (assoc_L (++)).
  apply IH. by apply store_other.
Qed.

(** A chunk event is stored; the session stays as it is. *)
Lemma handle_chunk_run r st pre stream k i off data rest :
  rstore r = Some st → receiveManifest (rx (rsession r)) = Some man → store_inv (rdisk r) st pre →
  arrived = pre ++ (k, AChunk i off data) :: rest →
  ∃ r' st', handle_chunk stream i off data r = (Ok tt, r') ∧ rstore r' = Some st' ∧ store_inv (rdisk r') st' (pre ++ [(k, AChunk i off data)]) ∧
    rsession r' = rsession r ∧ arriving r' = arriving r.
Proof using Hts Hi.
  intros Hs Hm Hst Ea. destruct (store_chunk (rdisk r) st pre k i off data rest Hst Ea) as (st' & w' & Hw & Hst').
  unfold handle_chunk, mbind, rm_bind, rm_get. rewrite Hs. unfold on_store. rewrite Hw. cbn [wrap_err rm_modify].
  set (r1 := put_rstore (put_rdisk r w') st').
  assert (Hses : rsession r1 = rsession r) by (cbn; rewrite (sv_manifest _ _ _ Hst'); by apply share_manifest_id).
  exists (match rprogress r1 with Some p => put_rprogress r1 (AddStream p stream (zlen data)) | None => r1 end), st'.
  split; [reflexivity|]. destruct (rprogress r1); (split; [reflexivity|]); (split; [exact Hst'|]); (split; [exact Hses|reflexivity]).
Qed.

Lemma Receive_loop_run fuel r st pre rest :
  loop_inv conns stripe zip man plan base arrived (rsession r) (arriving r) pre rest →
  rstore r = Some st → store_inv (rdisk r) st pre → (length rest < fuel)%nat →
  ∃ r' st', Receive_loop now fuel opts r = handle_done now r' ∧ rstore r' = Some st' ∧ all_stored (rdisk r') st'.
Proof using Hts Hi.
  revert r st pre rest. induction fuel as [|fuel IH]; intros r st pre rest Hl Hs Hst Hf; [lia|].
  pose proof Hts as [Hm Hh Hb _ _]. cbn [Receive_loop]. unfold mbind at 1, rm_bind at 1. unfold next_event, ReceiveEvent.
  assert (Hfuel : (length rest < receive_fuel (rsession r) (arriving r))%nat).
  { pose proof (Forall2_length _ _ _ (li_rest _ _ _ _ _ _ _ _ _ _ _ Hl)) as Hlen. rewrite length_app in Hlen. unfold receive_fuel. lia. }
  pose proof (li_arrived _ _ _ _ _ _ _ _ _ _ _ Hl) as Ea.
  destruct (split_first_data rest) as [Hd|(dones & k & a & rest' & -> & Hd & Ha)].
  - destruct (loop_done conns stripe zip man plan base sent arrived Hm Hh Hb Hi (receive_fuel (rsession r) (arriving r)) (rsession r) (arriving r) pre rest Hl ltac:(lia) Hd) as (t' & inbox' & ->).
    eexists _, st. split; [reflexivity|]. split; [done|]. cbn [put_rsession rdisk]. apply store_complete.
    rewrite Ea. by apply stored_dones.
  - rewrite length_app in Hfuel, Hf. cbn [length] in Hfuel, Hf.
    destruct (loop_data conns stripe zip man plan base sent arrived Hm Hh Hb Hi dones (receive_fuel (rsession r) (arriving r)) (rsession r) (arriving r) pre k a rest' Hl ltac:(lia) Hd Ha)
      as (t' & inbox' & -> & Hl').
    assert (Hst1 : store_inv (rdisk r) st (pre ++ dones)) by by apply stored_dones.
    assert (Ea' : arrived = (pre ++ dones) ++ (k, a) :: rest') by by rewrite <- (assoc_L (++)).
    rewrite (assoc_L (++)) in Hl'.
    destruct a as [i|i off data|i|]; cbn [event_of]; [| | |done].
    + apply (IH (put_rsession r t' inbox') st _ rest' Hl' Hs); [by apply store_other|lia].
    + destruct (handle_chunk_run (put_rsession r t' inbox') st (pre ++ dones) (stream_of plan i) k i off data rest' Hs) as (r2 & st2 & Hc & Hs2 & Hst2 & Hses & Harr).
      { pose proof (li_rx _ _ _ _ _ _ _ _ _ _ _ Hl') as Hrx. by destruct Hrx. }
      { done. } { done. }
      unfold mbind, rm_bind. rewrite Hc. apply (IH r2 st2 (pre ++ dones ++ [(k, AChunk i off data)]) rest'); [|done| |lia].
      * rewrite Hses, Harr. cbn. by rewrite (assoc_L (++)).
      * by rewrite (assoc_L (++)).
    + apply (IH (put_rsession r t' inbox') st _ rest' Hl' Hs); [by apply store_other|lia].
Qed.
End transfer.

(** ** Messages that arrive as the messages that were sent *)

Lemma filter_split_first (k : Z) {A} (l : list (Z * A)) x rest :
  filter (on_conn k) l = x :: rest → ∃ l1 l2, l = l1 ++ x :: l2 ∧ filter (on_conn k) l1 = [] ∧ filter (on_conn k) l2 = rest.
Proof.
  induction l as [|y l IH]; [done|]. rewrite filter_cons. case_decide as Hy.
  - intros [= <- Hr]. exists [], l. done.
  - intros Hr%IH. destruct Hr as (l1 & l2 & -> & H1 & H2). exists (y :: l1), l2. split; [done|]. split; [|done].
    by rewrite filter_cons_False.
Qed.

Lemma filter_conn_nil {A B} (R : Z * A → Z * B → Prop) k l m :
  (∀ x y, R x y → fst x = fst y) → Forall2 R l m → filter (on_conn k) l = [] → filter (on_conn k) m = [].
Proof.
  intros HR. induction 1 as [|u v l m Huv _ IH]; [done|]. intros Hl. destruct (decide (on_conn k u)) as [Hu|Hu].
  - by rewrite filter_cons_True in Hl.
  - rewrite filter_cons_False in Hl by done. rewrite filter_cons_False; [by apply IH|]. unfold on_conn in *. by rewrite <- (HR _ _ Huv).
Qed.

Lemma interleaves_lift {A B} (R : Z * A → Z * B → Prop) sentA (sentB : list (Z * B)) arrA :
  (∀ x y, R x y → fst x = fst y) → Forall2 R sentA sentB → interleaves sentA arrA →
  ∃ arrB, Forall2 R arrA arrB ∧ interleaves sentB arrB.
Proof.
  intros HR. revert sentA sentB. induction arrA as [|x arr IH]; intros sentA sentB Hall Hi.
  - exists []. split; [constructor|]. assert (sentA = []) as ->.
    { destruct sentA as [|y l]; [done|]. specialize (Hi (fst y)). by rewrite filter_cons_True in Hi. }
    by inversion Hall.
  - pose proof (Hi (fst x)) as Hx. rewrite filter_cons_True in Hx by done. symmetry in Hx.
    apply filter_split_first in Hx as (l1 & l2 & -> & Hl1 & Hl2).
    apply Forall2_app_inv_l in Hall as (m1 & m2' & Hm1 & Hm2 & ->). inversion Hm2 as [|? y ? m2 Hxy Hm2']; subst.
    destruct (IH (l1 ++ l2) (m1 ++ m2)) as (arrB & Harr & HiB).
    + by apply Forall2_app.
    + intros k. specialize (Hi k). rewrite filter_app in Hi |- *. destruct (decide (k = fst x)) as [->|Hne].
      * rewrite Hl1. cbn. by rewrite Hl2.
      * rewrite !filter_cons_False in Hi by (intros E; by apply Hne). done.
    + exists (y :: arrB). split; [by constructor|]. intros k. specialize (HiB k). pose proof (HR _ _ Hxy) as Hk.
      rewrite filter_app in HiB |- *. destruct (decide (k = fst x)) as [->|Hne].
      * rewrite !filter_cons_True by done. rewrite HiB.
        by rewrite (filter_conn_nil R (fst x) l1 m1).
      * rewrite !filter_cons_False by (intros E; apply Hne; unfold on_conn in E; congruence). done.
Qed.

(** Only sizes of items matter. *)
Lemma honest_sizes conns stripe items items' base sent :
  Size <$> items' = Size <$> items → honest conns stripe items base sent → honest conns stripe items' base sent.
Proof.
  intros Hsz [Hnd Hd Ho He Hst Hc Hdis Hf].
  assert (Hlen : zlen items' = zlen items) by (apply (f_equal length) in Hsz; rewrite !length_fmap in Hsz; unfold zlen; lia).
  assert (Hl : ∀ l l' i it, Size <$> l' = Size <$> l → zlookup l i = Some it → ∃ it', zlookup l' i = Some it' ∧ Size it' = Size it).
  { intros l l' i it Heq Hi. unfold zlookup in *. destruct (i <? 0); [done|].
    apply (f_equal (.!! Z.to_nat i)) in Heq. rewrite !list_lookup_fmap, Hi in Heq. destruct (l' !! Z.to_nat i) as [it'|]; [|done].
    exists it'. split; [done|]. injection Heq as Heq. exact Heq. }
  constructor; rewrite ?Hlen; try done.
  - intros k i off data Hin. destruct (Hc k i off data Hin) as (it & Hit & ? & ? & ? & ?).
    destruct (Hl items items' i it Hsz Hit) as (it' & Hit' & Hs). exists it'. rewrite Hs. repeat (split; [done|]). done.
  - intros i it' b Hit' Hb. destruct (Hl items' items i it' (eq_sym Hsz) Hit') as (it & Hit & Hs). apply (Hf i it b Hit). lia.
Qed.

Section end_to_end.
Context `{CaseTables} `{Crypto} `{Gzip} `{Environment}.
Context (conns : Z) (stripe : bool) (zip : string) (plan : Plan) (source : Z → bytes) (offsets : gmap Z Z).

(** A receiver that has applied the sender's answer to its resume entries:
    [inbox] are the messages it has put aside and those to come. *)
Record receiver_ready (man : Manifest) (r : receiver) (inbox : list receivedPipeMessage) : Prop := {
  rr_session : session_for conns stripe zip (rsession r);
  rr_rx : ∃ early cov, rx (rsession r) = MkReceiving (Some man) (Some plan) (NewTracker (Some plan)) early false 0 cov ∧
    early ++ arriving r = inbox ∧
    ∀ i, 0 ≤ i < zlen (Items man) → cov !! i = Some (newByteRanges (start_at source offsets i));
  rr_store : ∃ st, rstore r = Some st ∧ store_inv stripe man (start_at source offsets) source (rdisk r) st [];
}.

Lemma receiver_loop_inv man r inbox arrived :
  receiver_ready man r inbox → Forall2 (delivers zip plan) inbox arrived →
  loop_inv conns stripe zip man plan (start_at source offsets) arrived (rsession r) (arriving r) [] arrived.
Proof.
  intros [Hs (early & cov & Hrx & Hin & Hcov) _] Hd. constructor; rewrite ?Hrx; cbn; try done.
  - constructor; cbn; try done.
    + intros i st _. unfold Tracker_state. cbn. rewrite lookup_empty. cbn. rewrite !elem_of_nil. done.
    + intros i Hi. eexists. split; [by apply Hcov|]. split; [apply newByteRanges_wf|]. intros b. rewrite newByteRanges_covered.
      unfold arrived_chunk. split; [by left|]. intros [?|(? & ? & ? & ?%not_elem_of_nil & _)]; done.
  - by rewrite elem_of_nil.
  - by rewrite Hin.
Qed.

Definition received_message (x : Z * Message) : receivedPipeMessage := MkReceived (fst x) (Ok (snd x)).

Lemma deliver_messages arr arrived :
  Forall2 (hands zip plan) arr arrived → Forall2 (delivers zip plan) (received_message <$> arr) arrived.
Proof.
  intros Hall. apply Forall2_fmap_l. eapply Forall2_impl; [exact Hall|]. intros x y [Hk Hr]. split; [done|]. by exists (snd x).
Qed.
End end_to_end.

(** C1: from the sender's disk to the receiver's.  Sending a prepared path whose
    files are as announced hands over messages such that a receiver which gets
    them, and a [done] message, in any order that keeps each connection's own,
    accepts them all, goes on to finalize, and then holds in its part files the
    content of the sender's files, complete. *)
Theorem files_arrive `{CaseTables} `{Crypto} `{Gzip} `{Environment} conns stripe zip man plan d source offsets s :
  send_ready conns stripe zip man plan d source s →
  (∀ i it, zlookup (Items man) i = Some it → Size it = zlen (source i)) →
  ∃ s' ms, sendPathItemsWeighted (Items man) offsets s = (Ok tt, s') ∧ output s' = output s ++ ms ∧
    ∀ now opts man' r finish arr fuel,
      MType finish = "done"%string → interleaves (ms ++ [(0, finish)]) arr →
      Size <$> Items man' = Size <$> Items man → manifest_for man' plan →
      (∀ i it, expected man' (start_at source offsets) i it → Kind it = ItemFile) →
      receiver_ready conns stripe zip plan source offsets man' r (received_message <$> arr) → (length arr < fuel)%nat →
      ∃ r' st, Receive_loop now fuel opts r = handle_done now r' ∧ rstore r' = Some st ∧
        all_stored man' (start_at source offsets) source (rdisk r') st.
Proof.
  intros Hs Hsizes. destruct (sendPath_run conns stripe zip man plan d source offsets s Hs) as (s' & ms & l & Hr & Ho & Hms & Hh & Hc & Ht & _).
  exists s', ms. split; [done|]. split; [done|]. intros now opts man' r finish arr fuel Hfin Hi Hsz Hmf Hk Hrr Hfuel.
  assert (Hall : Forall2 (hands zip plan) (ms ++ [(0, finish)]) (l ++ [(0, ADone)])) by (apply Forall2_app; [done|by apply hands_1]).
  destruct (interleaves_lift (hands zip plan) _ _ arr (fun x y Hxy => proj1 Hxy) Hall Hi) as (arrived & Harr & Hia).
  assert (Hlk : ∀ i it', zlookup (Items man') i = Some it' → ∃ it, zlookup (Items man) i = Some it ∧ Size it = Size it').
  { intros i it' Hit. unfold zlookup in *. destruct (i <? 0); [done|].
    apply (f_equal (.!! Z.to_nat i)) in Hsz. rewrite !list_lookup_fmap, Hit in Hsz. destruct (Items man !! Z.to_nat i) as [it|]; [|done].
    exists it. split; [done|]. injection Hsz as Hsz. by rewrite Hsz. }
  assert (Hts : true_sender conns stripe man' plan (start_at source offsets) source (l ++ [(0, ADone)])).
  { constructor; [done|by eapply honest_sizes| | |].
    - intros i it' Hit. destruct (Hlk i it' Hit) as (it & Hit0 & <-). rewrite (Hsizes _ _ Hit0). apply start_at_range.
    - intros k i off data [Hin|[=]%list_elem_of_singleton]%elem_of_app. destruct (Hc _ _ _ _ Hin) as [? Hle]. split; [done|]. unfold ChunkSize in Hle. lia.
    - intros i it' [Hit Hb]. destruct (Hlk i it' Hit) as (it & Hit0 & Hs0). rewrite <- Hs0. apply Ht; [done|by rewrite Hs0]. }
  destruct (rr_store _ _ _ _ _ _ _ _ _ Hrr) as (st & Hst & Hsi).
  eapply (Receive_loop_run conns stripe zip man' plan (start_at source offsets) source (l ++ [(0, ADone)]) arrived Hts Hia now opts fuel r st [] arrived); try done.
  - eapply receiver_loop_inv; [exact Hrr|]. by apply deliver_messages.
  - by rewrite <- (Forall2_length _ _ _ Harr).
Qed.

(** ** The sender's demonstration disk arrives *)

Definition part_file (ino : nat) (dst : string) : receiveFile :=
  MkReceiveFile (Some ino) dst (dst ++ ".kigopart") 0 false false false [].
Definition part_disk : fs :=
  MkFS {[ ["o"]%string := NDir 493 0; ["o"; "d"]%string := NDir 493 0;
          ["o"; "d"; "a.kigopart"]%string := NFile 0; ["o"; "d"; "b.kigopart"]%string := NFile 1 ]}
    {[ 0%nat := MkInode [] 384 0; 1%nat := MkInode [] 384 0 ]} 2 [].
Definition part_store : ReceiveStore :=
  MkStore demo_sent_manifest (NewPlan 3) "/o" {[ 1 := part_file 0 "/o/d/a"; 2 := part_file 1 "/o/d/b" ]} ∅ ∅ ∅ []
    ConflictRename ∅ ∅ true.
Definition demo_receiver `{CaseTables} (inbox : list receivedPipeMessage) : receiver :=
  MkReceiver part_disk (receiver_with_manifest 3) inbox [] (Some demo_sent_manifest) (Some part_store) None.

Lemma demo_sent_items i it : zlookup demo_items i = Some it →
  (i = 0 ∧ Size it = 0) ∨ (i = 1 ∧ it = demo_a) ∨ (i = 2 ∧ it = demo_b).
Proof.
  intros Hi. pose proof (zlookup_Some _ _ _ Hi) as Hr. change (zlen demo_items) with 3 in Hr.
  assert (i = 0 ∨ i = 1 ∨ i = 2) as [-> |[-> | ->]] by lia; injection Hi as <-; auto.
Qed.

Lemma start_at_none source i : start_at source ∅ i = 0.
Proof. unfold start_at, offset_at. rewrite lookup_empty. apply clampInt64_id. unfold zlen. cbn. lia. Qed.

Lemma part_file_ok x ino dst : file_ok [] (demo_source x) (part_file ino dst).
Proof.
  constructor; simpl; try done; try lia.
  - apply ranges_wf_nil.
  - by intros b ?%covered_nil.
  - by intros b ?%covered_nil.
Qed.

Lemma demo_sizes i it : zlookup demo_items i = Some it → Size it = zlen (demo_source i).
Proof. by intros [[-> ->]|[[-> ->]|[-> ->]]]%demo_sent_items. Qed.

Lemma part_store_inv `{CaseTables} :
  store_inv true demo_sent_manifest (start_at demo_source ∅) demo_source part_disk part_store [].
Proof.
  constructor; [|done|done|].
  - constructor; cbn [rs_files part_store].
    + intros i f ino Hi Hf. apply lookup_insert_Some in Hi as [[<- <-]|[_ [<- <-]%lookup_singleton_Some]]; injection Hf as <-; exact (part_file_ok _ _ _).
    + intros i f it Hi Hit. cbn [rs_manifest part_store Items demo_sent_manifest] in Hit. rewrite (demo_sizes _ _ Hit). split; [done|].
      apply demo_sent_items in Hit as [[-> _]|[[-> _]|[-> _]]]; vm_compute; split; discriminate.
    + intros i j f g ino Hi Hj. apply lookup_insert_Some in Hi as [[<- <-]|[_ [<- <-]%lookup_singleton_Some]];
        apply lookup_insert_Some in Hj as [[<- <-]|[_ [<- <-]%lookup_singleton_Some]]; cbn; congruence.
  - intros i it [Hit Hb]. rewrite start_at_none in Hb.
    apply demo_sent_items in Hit as [[_ Hz]|[[-> ->]|[-> ->]]]; [lia|split; [done|]..].
    + exists (part_file 0 "/o/d/a"), 0%nat. repeat (split; [done|]). intros b. rewrite start_at_none. unfold arrived_chunk. split; [by intros ?%covered_nil|].
      intros [?|(? & ? & ? & ?%not_elem_of_nil & _)]; [lia|done].
    + exists (part_file 1 "/o/d/b"), 1%nat. repeat (split; [done|]). intros b. rewrite start_at_none. unfold arrived_chunk. split; [by intros ?%covered_nil|].
      intros [?|(? & ? & ? & ?%not_elem_of_nil & _)]; [lia|done].
Qed.

Lemma demo_receiver_ready `{CaseTables} `{Gzip} inbox :
  receiver_ready 3 true compressionGzip (NewPlan 3) demo_source ∅ demo_sent_manifest (demo_receiver inbox) inbox.
Proof.
  constructor.
  - by constructor.
  - exists [], (fresh_coverage 3). split; [done|]. split; [done|]. intros i Hi. rewrite start_at_none. by apply fresh_coverage_lookup.
  - exists part_store. split; [done|]. apply part_store_inv.
Qed.

Lemma demo_manifest_for : manifest_for demo_sent_manifest (NewPlan 3).
Proof.
  constructor; [by apply newPlan_ok, sequential_valid|done|]. intros i it Hit. rewrite (demo_sizes _ _ Hit).
  apply demo_sent_items in Hit as [[-> _]|[[-> _]|[-> _]]]; by vm_compute.
Qed.

Lemma files_arrive_witness :
  let Ht := ascii_tables in let Hc := tagged_crypto in let Hg := demo_gzip in let He := demo_env in
  ∃ s', fst (sendPathItemsWeighted demo_items ∅ (demo_sender demo_disk 3)) = Ok tt ∧
    let arr := output s' ++ [(0, typed_message "done" 7)] in
    ∃ r' st, Receive_loop (fun _ => 7) (S (length arr)) (MkReceiverOptions "/o" "") (demo_receiver (received_message <$> arr)) =
        handle_done (fun _ => 7) r' ∧
      rstore r' = Some st ∧ all_stored demo_sent_manifest (start_at demo_source ∅) demo_source (rdisk r') st.
Proof.
  intros Ht Hc Hg He.
  destruct (files_arrive 3 true compressionGzip demo_sent_manifest (NewPlan 3) demo_disk demo_source ∅
    (demo_sender demo_disk 3) demo_send_ready demo_sizes) as (s' & ms & Hr & Ho & Harr).
  exists s'. split; [change demo_items with (Items demo_sent_manifest); rewrite Hr; reflexivity|].
  intros arr. apply (Harr (fun _ => 7) _ demo_sent_manifest _ (typed_message "done" 7) arr).
  - reflexivity.
  - unfold arr. rewrite Ho. intros k. reflexivity.
  - reflexivity.
  - exact demo_manifest_for.
  - intros i it [Hit Hb]. rewrite start_at_none in Hb.
    apply demo_sent_items in Hit as [[_ Hz]|[[-> ->]|[-> ->]]]; [lia|reflexivity..].
  - apply demo_receiver_ready.
  - lia.
Defined.
