(* ===== verification/ParallelSender.v ===== *)
(** * The parallel chunk sender ([internal/transfer/parallel_sender.go])

    With chunk striping, a worker per data connection takes chunks from a queue
    of its own; the sending loop puts each chunk into the first queue with room,
    in an order given by the connections' speed, and sleeps on a channel of
    capacity one when all queues are full.  The workers, the loop and the
    cancellation run concurrently: they are the rules of a step relation.  Every
    run loses, repeats and reorders nothing on a connection, never sleeps while
    there is room, and comes to rest. *)
From Stdlib Require Import ZArith Lia SpecFloat String Sorted.
From stdpp Require Import base tactics numbers list gmap strings relations.
From S2P Require Import Prelude Float64 Json Transport Secure Protocol Mux Compression TransferHello TransferSession SessionProofs.

Definition chunkPathQueueDepth : nat := 8.

Record chunkSendJob := MkJob { jmessage : Message; jbytes : Z }.
#[export] Instance chunkSendJob_eq_dec : EqDecision chunkSendJob.
Proof. solve_decision. Defined.

Inductive path_error := PathCancelled | PathFailed (text : string).
#[export] Instance path_error_eq_dec : EqDecision path_error.
Proof. solve_decision. Defined.

(** What the goroutine of a worker is doing with a job. *)
Inductive activity :=
  | Waiting                                  (* at [range worker.jobs] *)
  | Taken (job : chunkSendJob)               (* before the wake-up of the loop *)
  | Ready (job : chunkSendJob)               (* before [s.ctx.Err()] *)
  | Sending (job : chunkSendJob)             (* in [sendMessage] *)
  | Sent (job : chunkSendJob) (r : option path_error)
  | Exited.

Record chunkPathWorker := MkWorker {
  wpipe : Z;
  jobs : list chunkSendJob;
  historyWeight : float64;
  pendingBytes : Z;
  scheduledBytes : Z;
  sentBytes : Z;
  sentChunks : Z;
  sendNanos : Z;
  doing : activity;
}.

(** The sending loop: in [SendChunk] with a job and the workers left to try,
    asleep in it, back from it with an error, in [finishWorkers], or done. *)
Inductive loop_state :=
  | Idle
  | Trying (job : chunkSendJob) (todo : list nat)
  | Asleep (job : chunkSendJob)
  | Returned (e : path_error)
  | Closing
  | Finished (r : option path_error).

(** [cancelled] is the sender's context, [outer_cancelled] that of the caller.
    [submitted] and [wire] are histories: the jobs queued and the jobs sent,
    with their connection. *)
Record parallelChunkSender := MkParallel {
  workers : list chunkPathWorker;
  cursor : Z;
  available : bool;
  firstErr : option path_error;
  cancelled : bool;
  outer_cancelled : bool;
  loop : loop_state;
  submitted : list (Z * chunkSendJob);
  wire : list (Z * chunkSendJob);
}.

(** ** Weights and the order of the workers *)

Definition clampPathWeight (weight : float64) : float64 :=
  if f64_lt weight (f64_const 1 2) then f64_const 1 2
  else if f64_lt (f64_of_Z 2) weight then f64_of_Z 2
  else weight.

(** [TransferSession.PhysicalPathWeight] *)
Definition PhysicalPathWeight (s : TransferSession) (connection : Z) : float64 :=
  match zlookup (pathWeights s) connection with
  | Some b => if f64_le (f64_of_bits b) (f64_of_Z 0) then f64_of_Z 1 else f64_of_bits b
  | None => f64_of_Z 1
  end.

(** Bytes per second of a worker that has sent something. *)
Definition live_rate (w : chunkPathWorker) : option float64 :=
  if (sendNanos w <=? 0) || (sentBytes w <=? 0) then None
  else Some (f64_div (f64_of_Z (sentBytes w)) (f64_div (f64_of_Z (sendNanos w)) (f64_of_Z 1000000000))).

Definition average_rate (ws : list chunkPathWorker) : float64 :=
  let rates := omap live_rate ws in
  if (0 <? length rates)%nat then f64_div (foldl f64_add (f64_of_Z 0) rates) (f64_of_Z (Z.of_nat (length rates)))
  else f64_of_Z 0.

(** The weight [livePathWeights] gives a worker, for an average rate. *)
Definition live_weight (averageRate : float64) (w : chunkPathWorker) : float64 :=
  let history := clampPathWeight (historyWeight w) in
  let rate := default (f64_of_Z 0) (live_rate w) in
  if f64_le averageRate (f64_of_Z 0) || f64_le rate (f64_of_Z 0) then history
  else
    let live := clampPathWeight (f64_div rate averageRate) in
    let alpha := f64_min (f64_div (f64_of_Z (sentChunks w)) (f64_of_Z 16)) (f64_const 3 4) in
    clampPathWeight (f64_add (f64_mul history (f64_sub (f64_of_Z 1) alpha)) (f64_mul live alpha)).

Definition livePathWeights (ws : list chunkPathWorker) : list float64 := live_weight (average_rate ws) <$> ws.

Definition workerSchedulingScore (w : chunkPathWorker) (weight : float64) : float64 :=
  f64_div (f64_of_Z (wrap64 (scheduledBytes w + wrap64 (pendingBytes w * 2)))) (clampPathWeight weight).

(** The distance of a connection from the one used last. *)
Definition cursor_rank (s : parallelChunkSender) (w : chunkPathWorker) : Z :=
  Z.rem (wpipe w - 1 - cursor s + zlen (workers s)) (zlen (workers s)).

Definition worker_score (w : chunkPathWorker * float64) : float64 := workerSchedulingScore (fst w) (snd w).
Definition worker_before (s : parallelChunkSender) : chunkPathWorker * float64 → chunkPathWorker * float64 → bool :=
  score_before worker_score (fun w => cursor_rank s (fst w)).

Definition orderedWorkers (s : parallelChunkSender) : list chunkPathWorker :=
  fst <$> sort_stable (worker_before s) (zip (workers s) (livePathWeights (workers s))).

(** ** The steps *)

Definition new_worker (s : TransferSession) (pipe : securePipe) : chunkPathWorker :=
  MkWorker (index pipe) [] (clampPathWeight (PhysicalPathWeight s (index pipe))) 0 0 0 0 0 Waiting.
Definition newParallelChunkSender (s : TransferSession) : parallelChunkSender :=
  MkParallel (new_worker s <$> tail (pipes s)) 0 false None false false Idle [] [].

Definition with_loop (s : parallelChunkSender) (l : loop_state) : parallelChunkSender :=
  MkParallel (workers s) (cursor s) (available s) (firstErr s) (cancelled s) (outer_cancelled s) l (submitted s) (wire s).
Definition with_available (s : parallelChunkSender) (b : bool) : parallelChunkSender :=
  MkParallel (workers s) (cursor s) b (firstErr s) (cancelled s) (outer_cancelled s) (loop s) (submitted s) (wire s).
Definition cancel (s : parallelChunkSender) : parallelChunkSender :=
  MkParallel (workers s) (cursor s) (available s) (firstErr s) true (outer_cancelled s) (loop s) (submitted s) (wire s).
Definition cancel_outer (s : parallelChunkSender) : parallelChunkSender :=
  MkParallel (workers s) (cursor s) (available s) (firstErr s) true true (loop s) (submitted s) (wire s).
Definition with_worker (s : parallelChunkSender) (n : nat) (w : chunkPathWorker) : parallelChunkSender :=
  MkParallel (<[n := w]> (workers s)) (cursor s) (available s) (firstErr s) (cancelled s) (outer_cancelled s) (loop s) (submitted s) (wire s).
Definition put_on_wire (s : parallelChunkSender) (k : Z) (job : chunkSendJob) : parallelChunkSender :=
  MkParallel (workers s) (cursor s) (available s) (firstErr s) (cancelled s) (outer_cancelled s) (loop s) (submitted s) (wire s ++ [(k, job)]).

Definition recordError (s : parallelChunkSender) (e : path_error) : parallelChunkSender :=
  match firstErr s with
  | None => MkParallel (workers s) (cursor s) (available s) (Some e) true (outer_cancelled s) (loop s) (submitted s) (wire s)
  | Some _ => s
  end.

Definition with_jobs (w : chunkPathWorker) (q : list chunkSendJob) (a : activity) : chunkPathWorker :=
  MkWorker (wpipe w) q (historyWeight w) (pendingBytes w) (scheduledBytes w) (sentBytes w) (sentChunks w) (sendNanos w) a.
Definition at_work (w : chunkPathWorker) (a : activity) : chunkPathWorker := with_jobs w (jobs w) a.

(** [worker.jobs <- job] with its accounting. *)
Definition push_job (w : chunkPathWorker) (job : chunkSendJob) : chunkPathWorker :=
  MkWorker (wpipe w) (jobs w ++ [job]) (historyWeight w) (wrap64 (pendingBytes w + jbytes job))
    (wrap64 (scheduledBytes w + jbytes job)) (sentBytes w) (sentChunks w) (sendNanos w) (doing w).
(** The end of a turn of [runWorker]: the counters of a job that was sent, or not. *)
Definition count_unsent (w : chunkPathWorker) (job : chunkSendJob) : chunkPathWorker :=
  MkWorker (wpipe w) (jobs w) (historyWeight w) (wrap64 (pendingBytes w - jbytes job))
    (scheduledBytes w) (sentBytes w) (sentChunks w) (sendNanos w) Waiting.
Definition count_sent (w : chunkPathWorker) (job : chunkSendJob) (elapsed : Z) : chunkPathWorker :=
  MkWorker (wpipe w) (jobs w) (historyWeight w) (wrap64 (pendingBytes w - jbytes job))
    (scheduledBytes w) (wrap64 (sentBytes w + jbytes job)) (wrap64 (sentChunks w + 1)) (wrap64 (sendNanos w + elapsed)) Waiting.

Definition enqueue (s : parallelChunkSender) (n : nat) (w : chunkPathWorker) (job : chunkSendJob) : parallelChunkSender :=
  MkParallel (<[n := push_job w job]> (workers s)) (Z.rem (wpipe w) (zlen (workers s))) (available s) (firstErr s) (cancelled s) (outer_cancelled s)
    Idle (submitted s ++ [(wpipe w, job)]) (wire s).

Definition has_room (w : chunkPathWorker) : bool := (length (jobs w) <? chunkPathQueueDepth)%nat.

(** The workers in the order of a pass of the loop.  The scores are read while
    the workers change them, so the result of the sort can be any order of them. *)
Definition some_order (s : parallelChunkSender) (order : list nat) : Prop := order ≡ₚ seq 0 (length (workers s)).

(** Steps of the loop inside a call and of the workers. *)
Inductive run_step (s : parallelChunkSender) : parallelChunkSender → Prop :=
  | try_room job n todo w :
      loop s = Trying job (n :: todo) → workers s !! n = Some w → has_room w = true → run_step s (enqueue s n w job)
  | try_full job n todo w :
      loop s = Trying job (n :: todo) → workers s !! n = Some w → has_room w = false → run_step s (with_loop s (Trying job todo))
  | fall_asleep job : loop s = Trying job [] → run_step s (with_loop s (Asleep job))
  | wake_up job order :
      loop s = Asleep job → available s = true → some_order s order →
      run_step s (with_loop (with_available s false) (Trying job order))
  | abandon_send job :
      loop s = Asleep job → cancelled s = true → run_step s (with_loop s (Returned (default PathCancelled (firstErr s))))
  | give_up_outer job : loop s = Asleep job → outer_cancelled s = true → run_step s (with_loop s (Returned PathCancelled))
  | finish_workers :
      loop s = Closing → Forall (fun w => doing w = Exited) (workers s) → run_step s (with_loop (cancel s) (Finished (firstErr s)))
  | take_job n w job q :
      workers s !! n = Some w → doing w = Waiting → jobs w = job :: q → run_step s (with_worker s n (with_jobs w q (Taken job)))
  | announce n w job :
      workers s !! n = Some w → doing w = Taken job → run_step s (with_available (with_worker s n (at_work w (Ready job))) true)
  | skip_job n w job :
      workers s !! n = Some w → doing w = Ready job → cancelled s = true →
      run_step s (with_worker s n (at_work w (Sent job (Some PathCancelled))))
  | begin_job n w job :
      workers s !! n = Some w → doing w = Ready job → cancelled s = false → run_step s (with_worker s n (at_work w (Sending job)))
  | send_job n w job :
      workers s !! n = Some w → doing w = Sending job →
      run_step s (put_on_wire (with_worker s n (at_work w (Sent job None))) (wpipe w) job)
  | send_fails n w job e :
      workers s !! n = Some w → doing w = Sending job → run_step s (with_worker s n (at_work w (Sent job (Some e))))
  | turn_ends n w job elapsed :
      workers s !! n = Some w → doing w = Sent job None → run_step s (with_worker s n (count_sent w job elapsed))
  | turn_fails n w job e :
      workers s !! n = Some w → doing w = Sent job (Some e) → run_step s (recordError (with_worker s n (count_unsent w job)) e)
  | exit_worker n w :
      workers s !! n = Some w → doing w = Waiting → jobs w = [] → loop s = Closing →
      run_step s (with_worker s n (at_work w Exited)).

(** Calls of [SendChunk], [Close] and [Abort], and the cancellation of the
    context they were given. *)
Inductive call_step (s : parallelChunkSender) : parallelChunkSender → Prop :=
  | call_SendChunk job order :
      loop s = Idle → firstErr s = None → some_order s order → call_step s (with_loop s (Trying job order))
  | call_SendChunk_fails e : loop s = Idle → firstErr s = Some e → call_step s (with_loop s (Returned e))
  | call_Close : loop s = Idle → call_step s (with_loop s Closing)
  | call_Abort : loop s = Idle ∨ (∃ e, loop s = Returned e) → call_step s (with_loop (cancel s) Closing)
  | context_cancelled : call_step s (cancel_outer s).

Definition any_step (s s' : parallelChunkSender) : Prop := run_step s s' ∨ call_step s s'.

Definition is_exited (w : chunkPathWorker) : Prop := doing w = Exited.
#[export] Instance is_exited_dec w : Decision (is_exited w).
Proof. unfold is_exited. destruct (doing w); (by left) || (by right). Defined.

(** ** Order of the workers *)

Lemma orderedWorkers_perm s : orderedWorkers s ≡ₚ workers s.
Proof.
  unfold orderedWorkers. rewrite sort_stable_perm. unfold livePathWeights.
  rewrite fst_zip; [done|]. by rewrite length_fmap.
Qed.

(** The order is by score, then by the distance from the cursor: without NaN no
    worker stands after a worse one. *)
Lemma orderedWorkers_sorted s :
  (∀ x, x ∈ zip (workers s) (livePathWeights (workers s)) → is_nan (worker_score x) = false) →
  ∃ l, orderedWorkers s = fst <$> l ∧ l ≡ₚ zip (workers s) (livePathWeights (workers s)) ∧
    StronglySorted (fun a b => f64_lt (worker_score b) (worker_score a) = false ∧
      (f64_eq (worker_score b) (worker_score a) = true → cursor_rank s (fst a) <= cursor_rank s (fst b))) l.
Proof.
  intros Hn. set (score x := if is_nan (worker_score x) then f64_of_Z 0 else worker_score x).
  set (less := score_before score (fun w => cursor_rank s (fst w))).
  assert (StrictWeak less) by (apply score_before_weak; intros x; unfold score; by destruct (is_nan (worker_score x)) eqn:E).
  assert (Hscore : ∀ x, x ∈ zip (workers s) (livePathWeights (workers s)) → score x = worker_score x).
  { intros x Hx. unfold score. by rewrite Hn. }
  exists (sort_stable less (zip (workers s) (livePathWeights (workers s)))). split; [|split].
  - unfold orderedWorkers. f_equal. apply sort_stable_ext. intros x y Hx Hy. unfold less, worker_before, score_before. by rewrite !Hscore.
  - apply sort_stable_perm.
  - pose proof (sort_stable_sorted less (zip (workers s) (livePathWeights (workers s)))) as Hs.
    assert (Hel : ∀ x, x ∈ sort_stable less (zip (workers s) (livePathWeights (workers s))) → score x = worker_score x)
      by (intros x Hx; apply Hscore; by rewrite elem_of_sort_stable in Hx).
    revert Hs Hel. generalize (sort_stable less (zip (workers s) (livePathWeights (workers s)))). intros l.
    induction 1 as [|a l _ IH Ha]; intros Hel; constructor.
    + apply IH. intros x Hx. apply Hel. by right.
    + rewrite Forall_forall in Ha |- *. intros b Hb. specialize (Ha b Hb). unfold not_after, less, score_before in Ha.
      rewrite (Hel a), (Hel b) in Ha by (by first [left|right]).
      destruct (f64_eq (worker_score b) (worker_score a)) eqn:E; cbn in Ha; [|done].
      assert (is_nan (worker_score a) = false ∧ is_nan (worker_score b) = false) as [Ea Eb].
      { rewrite <- (Hel a), <- (Hel b) by (by first [left|right]). unfold score.
        split; [by destruct (is_nan (worker_score a)) eqn:Ex|by destruct (is_nan (worker_score b)) eqn:Ex]. }
      apply f64_eq_lt in E as [? ?]; [|done..]. split; [done|]. lia.
Qed.

(** ** What the steps keep *)

Definition bytes_of (js : list chunkSendJob) : Z := foldr (fun j n => jbytes j + n) 0 js.

(** The jobs a worker was given and has not sent: in hand, then queued. *)
Definition in_hand (w : chunkPathWorker) : list chunkSendJob :=
  match doing w with
  | Taken j | Ready j | Sending j | Sent j (Some _) => [j]
  | _ => []
  end.
Definition unsent (w : chunkPathWorker) : list chunkSendJob := in_hand w ++ jobs w.
(** The jobs whose turn is not over. *)
Definition open_jobs (w : chunkPathWorker) : list chunkSendJob :=
  match doing w with Taken j | Ready j | Sending j | Sent j _ => [j] | _ => [] end ++ jobs w.
Definition uncounted (w : chunkPathWorker) : list chunkSendJob := match doing w with Sent j None => [j] | _ => [] end.

Definition jobs_on (k : Z) (l : list (Z * chunkSendJob)) : list chunkSendJob := snd <$> filter (on_conn k) l.

Lemma jobs_on_app k l l' : jobs_on k (l ++ l') = jobs_on k l ++ jobs_on k l'.
Proof. unfold jobs_on. by rewrite filter_app, fmap_app. Qed.
Lemma jobs_on_one k k' j : jobs_on k [(k', j)] = if decide (k' = k) then [j] else [].
Proof. unfold jobs_on. rewrite filter_cons, filter_nil. unfold on_conn. cbn. by destruct (decide (k' = k)). Qed.

Lemma bytes_of_app l l' : bytes_of (l ++ l') = bytes_of l + bytes_of l'.
Proof. induction l as [|j l IH]; cbn; [done|]. unfold bytes_of in *. cbn in *. lia. Qed.

Definition busy_elsewhere (s : parallelChunkSender) (todo : list nat) : Prop :=
  ∀ n w, n ∉ todo → workers s !! n = Some w → has_room w = true →
    available s = true ∨ ∃ m v j, workers s !! m = Some v ∧ doing v = Taken j.

Record worker_ok (s : parallelChunkSender) (w : chunkPathWorker) : Prop := {
  wk_depth : (length (jobs w) ≤ chunkPathQueueDepth)%nat;
  wk_pending : pendingBytes w = wrap64 (bytes_of (open_jobs w));
  wk_scheduled : scheduledBytes w = wrap64 (bytes_of (jobs_on (wpipe w) (submitted s)));
  wk_sent : wrap64 (sentBytes w + bytes_of (uncounted w)) = wrap64 (bytes_of (jobs_on (wpipe w) (wire s)));
  wk_order : sublist (jobs_on (wpipe w) (wire s) ++ unsent w) (jobs_on (wpipe w) (submitted s));
  wk_all : firstErr s = None → jobs_on (wpipe w) (wire s) ++ unsent w = jobs_on (wpipe w) (submitted s);
  wk_exited : doing w = Exited → jobs w = [] ∧ (loop s = Closing ∨ ∃ r, loop s = Finished r);
}.

Record sender_ok (s : parallelChunkSender) : Prop := {
  sk_workers n w : workers s !! n = Some w → wpipe w = Z.of_nat (S n) ∧ worker_ok s w;
  sk_conns k j : (k, j) ∈ submitted s → 1 ≤ k ≤ zlen (workers s);
  sk_wire k j : (k, j) ∈ wire s → 1 ≤ k ≤ zlen (workers s);
  sk_error : is_Some (firstErr s) → cancelled s = true;
  sk_awake : match loop s with
             | Trying _ todo => busy_elsewhere s todo
             | Asleep _ => busy_elsewhere s []
             | Finished r => r = firstErr s ∧ Forall is_exited (workers s)
             | _ => True
             end;
}.

(** A change of one worker and the histories that others do not see. *)
Lemma step_worker s s' n w w' :
  sender_ok s → workers s !! n = Some w → workers s' = <[n := w']> (workers s) → wpipe w' = wpipe w →
  worker_ok s' w' →
  (∀ m v, m ≠ n → workers s !! m = Some v → worker_ok s v → worker_ok s' v) →
  (∀ k j, (k, j) ∈ submitted s' → (k, j) ∈ submitted s ∨ k = wpipe w) →
  (∀ k j, (k, j) ∈ wire s' → (k, j) ∈ wire s ∨ k = wpipe w) →
  (is_Some (firstErr s') → cancelled s' = true) →
  match loop s' with
  | Trying _ todo => busy_elsewhere s' todo
  | Asleep _ => busy_elsewhere s' []
  | Finished r => r = firstErr s' ∧ Forall is_exited (workers s')
  | _ => True
  end → sender_ok s'.
Proof.
  intros Hok Hn Hw Hp Hw' Hoth Hsub Hwire Herr Hawake. destruct (sk_workers _ Hok n w Hn) as [Hpn _].
  assert (Hlen : zlen (workers s') = zlen (workers s)) by (rewrite Hw; unfold zlen; by rewrite length_insert).
  pose proof (lookup_lt_Some _ _ _ Hn) as Hlt.
  constructor; try done.
  - intros m v Hm. rewrite Hw in Hm. destruct (decide (m = n)) as [->|Hne].
    + rewrite list_lookup_insert_eq in Hm by done. injection Hm as <-. by rewrite Hp.
    + rewrite list_lookup_insert_ne in Hm by done. destruct (sk_workers _ Hok m v Hm). split; [done|]. by eapply Hoth.
  - intros k j [Hin| ->]%Hsub; rewrite Hlen; [by eapply sk_conns|]. unfold zlen. lia.
  - intros k j [Hin| ->]%Hwire; rewrite Hlen; [by eapply sk_wire|]. unfold zlen. lia.
Qed.

Definition ending (l : loop_state) : Prop := l = Closing ∨ ∃ r, l = Finished r.

Lemma worker_ok_frame s s' v :
  worker_ok s v → jobs_on (wpipe v) (submitted s') = jobs_on (wpipe v) (submitted s) →
  jobs_on (wpipe v) (wire s') = jobs_on (wpipe v) (wire s) →
  (firstErr s' = None → firstErr s = None) → (ending (loop s) → ending (loop s')) → worker_ok s' v.
Proof.
  intros [Hd Hp Hs Hw Ho Ha He] Es Ew Hf Hl. constructor; rewrite ?Es, ?Ew; try done.
  - auto.
  - intros Hx. destruct (He Hx) as [? ?]. split; [done|]. by apply Hl.
Qed.

(** A step that changes neither workers nor histories. *)
Lemma step_loop s s' :
  sender_ok s → workers s' = workers s → submitted s' = submitted s → wire s' = wire s →
  firstErr s' = firstErr s → (cancelled s = true → cancelled s' = true) → (ending (loop s) → ending (loop s')) →
  match loop s' with
  | Trying _ todo => busy_elsewhere s' todo
  | Asleep _ => busy_elsewhere s' []
  | Finished r => r = firstErr s' ∧ Forall is_exited (workers s')
  | _ => True
  end → sender_ok s'.
Proof.
  intros Hok Ew Es Ewi Ef Hc Hl Ha. constructor; [rewrite Ew|rewrite Es, Ew|rewrite Ewi, Ew|rewrite Ef|exact Ha].
  - intros n w Hn. destruct (sk_workers _ Hok n w Hn) as [? ?]. split; [done|].
    eapply worker_ok_frame; try done; by rewrite ?Es, ?Ewi, ?Ef.
  - apply (sk_conns _ Hok).
  - apply (sk_wire _ Hok).
  - intros He. by apply Hc, (sk_error _ Hok).
Qed.

(** Queues that were full, and pending wake-ups, after a change of a worker. *)
Lemma busy_worker s s' n w w' todo :
  busy_elsewhere s todo → workers s !! n = Some w → workers s' = <[n := w']> (workers s) →
  (available s = true → available s' = true) →
  (has_room w' = true → has_room w = true ∨ ∃ j, doing w' = Taken j) →
  (∀ j, doing w = Taken j → available s' = true ∨ ∃ j', doing w' = Taken j') → busy_elsewhere s' todo.
Proof.
  intros Hb Hn Ew Ha Hr Ht m v Hm Hv Hroom. pose proof (lookup_lt_Some _ _ _ Hn) as Hlt.
  assert (Hself : workers s' !! n = Some w') by (rewrite Ew; by apply list_lookup_insert_eq).
  assert (Hold : available s = true ∨ (∃ m0 v0 j, workers s !! m0 = Some v0 ∧ doing v0 = Taken j) →
            available s' = true ∨ ∃ m0 v0 j, workers s' !! m0 = Some v0 ∧ doing v0 = Taken j).
  { intros [?|(m0 & v0 & j & H0 & Hd)]; [left; by apply Ha|]. destruct (decide (m0 = n)) as [->|Hne].
    - rewrite Hn in H0. injection H0 as ->. destruct (Ht j Hd) as [?|[j' ?]]; [by left|right]. by exists n, w', j'.
    - right. exists m0, v0, j. by rewrite Ew, list_lookup_insert_ne. }
  destruct (decide (m = n)) as [->|Hne].
  - rewrite Hself in Hv. injection Hv as <-. destruct (Hr Hroom) as [Hr'|[j ?]]; [|right; by exists n, w', j].
    apply Hold, (Hb n w); done.
  - rewrite Ew, list_lookup_insert_ne in Hv by done. by apply Hold, (Hb m v).
Qed.

Lemma wrap64_mod a b : (a - b) mod 2 ^ 64 = 0 → wrap64 a = wrap64 b.
Proof.
  intros Hm. unfold wrap64. f_equal. apply Z.mod_divide in Hm as [k Hk]; [|done].
  replace (a + 2 ^ 63) with (b + 2 ^ 63 + k * 2 ^ 64) by lia. by apply Z_mod_plus_full.
Qed.
Lemma wrap64_spec z : ∃ k, wrap64 z = z + k * 2 ^ 64.
Proof.
  unfold wrap64. exists (- ((z + 2 ^ 63) / 2 ^ 64)). pose proof (Z.div_mod (z + 2 ^ 63) (2 ^ 64) ltac:(lia)). lia.
Qed.
Lemma wrap64_add_wrap a b : wrap64 (wrap64 a + b) = wrap64 (a + b).
Proof.
  destruct (wrap64_spec a) as [k ->]. apply wrap64_mod. replace (a + k * 2 ^ 64 + b - (a + b)) with (k * 2 ^ 64) by lia.
  by apply Z_mod_mult.
Qed.

(** A worker that goes on with what it has in hand. *)
Lemma worker_ok_doing s s' w q a :
  worker_ok s w → (length q ≤ length (jobs w))%nat →
  open_jobs (with_jobs w q a) = open_jobs w → uncounted (with_jobs w q a) = uncounted w → unsent (with_jobs w q a) = unsent w →
  submitted s' = submitted s → wire s' = wire s → firstErr s' = firstErr s →
  (a = Exited → q = [] ∧ ending (loop s')) → worker_ok s' (with_jobs w q a).
Proof.
  intros [Hd Hp Hs Hw Ho Ha He] Hq Eo Eu Eun Es Ew Ef Hx. constructor; rewrite ?Eo, ?Eu, ?Eun, ?Es, ?Ew, ?Ef; cbn; try done. lia.
Qed.

Lemma step_doing s s' n w q a b :
  sender_ok s → workers s !! n = Some w → (length q ≤ length (jobs w))%nat →
  open_jobs (with_jobs w q a) = open_jobs w → uncounted (with_jobs w q a) = uncounted w → unsent (with_jobs w q a) = unsent w →
  (a = Exited → q = [] ∧ ending (loop s)) → ¬ Forall is_exited (workers s) →
  (length q < length (jobs w) → ∃ j, a = Taken j)%nat →
  (∀ j, doing w = Taken j → b = true) → (available s = true → b = true) →
  s' = with_available (with_worker s n (with_jobs w q a)) b → sender_ok s'.
Proof.
  intros Hok Hn Hq Eo Eu Eun Hx Hnf Hroom Htaken Hav ->. destruct (sk_workers _ Hok n w Hn) as [Hpn Hw].
  eapply (step_worker _ _ n w (with_jobs w q a) Hok Hn); try done.
  - by eapply worker_ok_doing.
  - intros m v _ _ Hv. by apply (worker_ok_frame s).
  - intros k j. cbn. by left.
  - intros k j. cbn. by left.
  - apply (sk_error _ Hok).
  - pose proof (sk_awake _ Hok) as Ha. cbn [loop with_available with_worker]. destruct (loop s) eqn:El; try done; [..|by destruct Ha].
    all: eapply (busy_worker s _ n w (with_jobs w q a)); try done.
    all: first [ intros Hr; cbn; destruct (decide (length q = length (jobs w))) as [Eq|Eq];
                 [left; unfold has_room in *; cbn in Hr; by rewrite <- Eq|right; apply Hroom; lia]
               | intros j Hj; left; by eapply Htaken ].
Qed.

Lemma not_all_exited s n w : workers s !! n = Some w → doing w ≠ Exited → ¬ Forall is_exited (workers s).
Proof. intros Hn Hd Hall. by apply (Forall_lookup_1 _ _ _ _ Hall) in Hn. Qed.

(** [jobs_on] of histories that grew by one job. *)
Lemma jobs_on_snoc k l k' j : jobs_on k (l ++ [(k', j)]) = jobs_on k l ++ if decide (k' = k) then [j] else [].
Proof. by rewrite jobs_on_app, jobs_on_one. Qed.

Lemma pipe_ne s n m w v : sender_ok s → workers s !! n = Some w → workers s !! m = Some v → m ≠ n → wpipe w ≠ wpipe v.
Proof.
  intros Hok Hn Hm Hne. destruct (sk_workers _ Hok n w Hn) as [-> _], (sk_workers _ Hok m v Hm) as [-> _]. lia.
Qed.

Lemma step_enqueue s job n todo w :
  sender_ok s → loop s = Trying job (n :: todo) → workers s !! n = Some w → has_room w = true → sender_ok (enqueue s n w job).
Proof.
  intros Hok El Hn Hroom. destruct (sk_workers _ Hok n w Hn) as [Hpn [Hd Hp Hs Hw Ho Ha He]].
  eapply (step_worker _ _ n w (push_job w job) Hok Hn); try done.
  - unfold has_room in Hroom. apply Nat.ltb_lt in Hroom.
    constructor; cbn [jobs pendingBytes scheduledBytes sentBytes wpipe doing push_job submitted wire firstErr enqueue loop].
    + rewrite length_app. cbn. lia.
    + rewrite Hp, wrap64_add_wrap. f_equal. unfold open_jobs. cbn. rewrite app_assoc, (bytes_of_app _ [job]). cbn. lia.
    + rewrite Hs, wrap64_add_wrap, jobs_on_snoc, decide_True, bytes_of_app by done. f_equal. cbn. lia.
    + done.
    + rewrite jobs_on_snoc, decide_True by done. unfold unsent, in_hand. cbn. rewrite !app_assoc. apply sublist_app; [|done]. by rewrite <- app_assoc.
    + intros Hf. rewrite jobs_on_snoc, decide_True by done. rewrite <- Ha by done. unfold unsent, in_hand. cbn. by rewrite !app_assoc.
    + intros Hx. destruct (He Hx) as [_ [E|[r E]]]; by rewrite El in E.
  - intros m v Hne Hm Hv. apply (worker_ok_frame s); cbn [submitted wire firstErr loop enqueue put_on_wire with_worker]; try done.
    + rewrite jobs_on_snoc, decide_False, app_nil_r; [done|]. by eapply pipe_ne.
    + rewrite El. intros [?|[? ?]]; done.
  - intros k j. cbn. rewrite elem_of_app, list_elem_of_singleton. intros [?|[= -> _]]; [by left|by right].
  - intros k j. cbn. by left.
  - apply (sk_error _ Hok).
Qed.

Lemma step_send s n w job :
  sender_ok s → workers s !! n = Some w → doing w = Sending job →
  sender_ok (put_on_wire (with_worker s n (at_work w (Sent job None))) (wpipe w) job).
Proof.
  intros Hok Hn Hdo. destruct (sk_workers _ Hok n w Hn) as [Hpn [Hd Hp Hs Hw Ho Ha He]].
  unfold open_jobs, uncounted, unsent, in_hand in *. rewrite Hdo in Hp, Hw, Ho, Ha.
  eapply (step_worker _ _ n w (at_work w (Sent job None)) Hok Hn); try done.
  - constructor; unfold open_jobs, uncounted, unsent, in_hand;
      cbn [jobs pendingBytes scheduledBytes sentBytes wpipe doing at_work with_jobs submitted wire firstErr put_on_wire with_worker loop]; try done.
    + rewrite jobs_on_snoc, decide_True, bytes_of_app by done. rewrite <- (wrap64_add_wrap (bytes_of (jobs_on (wpipe w) (wire s)))), <- Hw, wrap64_add_wrap. f_equal. cbn. lia.
    + rewrite jobs_on_snoc, decide_True, <- app_assoc by done. done.
    + intros Hf. rewrite jobs_on_snoc, decide_True, <- app_assoc by done. by apply Ha.
  - intros m v Hne Hm Hv. apply (worker_ok_frame s); cbn [submitted wire firstErr loop enqueue put_on_wire with_worker]; try done.
    rewrite jobs_on_snoc, decide_False, app_nil_r; [done|]. by eapply pipe_ne.
  - intros k j. cbn. by left.
  - intros k j. cbn. rewrite elem_of_app, list_elem_of_singleton. intros [?|[= -> _]]; [by left|by right].
  - apply (sk_error _ Hok).
  - pose proof (sk_awake _ Hok) as Haw. cbn [loop put_on_wire with_worker]. destruct (loop s) eqn:El; try done.
    1,2: eapply (busy_worker s _ n w (at_work w (Sent job None))); try done; [by left|intros j Hj; by rewrite Hdo in Hj].
    destruct Haw as [_ Hall]. exfalso. revert Hall. eapply not_all_exited; [done|]. by rewrite Hdo.
Qed.

(** The end of a turn: the worker waits again. *)
Lemma step_turn s s' n w w' job r :
  sender_ok s → workers s !! n = Some w → doing w = Sent job r →
  workers s' = <[n := w']> (workers s) → wpipe w' = wpipe w → jobs w' = jobs w → doing w' = Waiting →
  pendingBytes w' = wrap64 (pendingBytes w - jbytes job) → scheduledBytes w' = scheduledBytes w →
  wrap64 (sentBytes w') = wrap64 (sentBytes w + bytes_of (uncounted w)) →
  submitted s' = submitted s → wire s' = wire s → loop s' = loop s → available s' = available s →
  (firstErr s' = None → firstErr s = None ∧ r = None) → (is_Some (firstErr s') → cancelled s' = true) → sender_ok s'.
Proof.
  intros Hok Hn Hdo Ew' Ep Ej Ed Epend Esch Esent Es Ew El Ea Hf Hc.
  destruct (sk_workers _ Hok n w Hn) as [Hpn [Hd Hp Hs Hw Ho Ha He]].
  eapply (step_worker _ _ n w w' Hok Hn); try done.
  - constructor; rewrite ?Es, ?Ew, ?Ep, ?Ej, ?Esch; try done.
    + rewrite Epend. unfold open_jobs. rewrite Ed, Ej. unfold open_jobs in Hp. rewrite Hdo in Hp. rewrite Hp.
      replace (wrap64 (bytes_of ([job] ++ jobs w)) - jbytes job) with (wrap64 (bytes_of ([job] ++ jobs w)) + - jbytes job) by lia.
      rewrite wrap64_add_wrap. f_equal. cbn. unfold bytes_of. lia.
    + rewrite <- Hw, <- Esent. unfold uncounted. rewrite Ed. cbn. by rewrite Z.add_0_r.
    + unfold unsent, in_hand. rewrite Ed, Ej. cbn. unfold unsent, in_hand in Ho. rewrite Hdo in Ho. destruct r; [|done].
      etrans; [|exact Ho]. cbn. apply sublist_app; [done|]. by constructor.
    + intros Hne. apply Hf in Hne as [Hne ->]. unfold unsent, in_hand in *. rewrite Hdo in Ha. rewrite Ed, Ej. by apply Ha.
    + by rewrite Ed.
  - intros m v Hne Hm Hv. apply (worker_ok_frame s); rewrite ?Es, ?Ew; try done; [by intros [? _]%Hf|by rewrite El].
  - rewrite Es. by left.
  - rewrite Ew. by left.
  - pose proof (sk_awake _ Hok) as Haw. rewrite El. destruct (loop s) eqn:Els; try done.
    1,2: eapply (busy_worker s _ n w w'); try done;
      [by rewrite Ea|unfold has_room; rewrite Ej; by left|intros j Hj; by rewrite Hdo in Hj].
    destruct Haw as [_ Hall]. exfalso. revert Hall. eapply not_all_exited; [done|]. by rewrite Hdo.
Qed.

Lemma step_turn_ends s n w job elapsed :
  sender_ok s → workers s !! n = Some w → doing w = Sent job None → sender_ok (with_worker s n (count_sent w job elapsed)).
Proof.
  intros Hok Hn Hdo. eapply (step_turn s _ n w (count_sent w job elapsed) job None); try done.
  - cbn. unfold uncounted. rewrite Hdo. rewrite wrap64_id by auto with kigo. f_equal. cbn. lia.
  - apply (sk_error _ Hok).
Qed.

Lemma step_turn_fails s n w job e :
  sender_ok s → workers s !! n = Some w → doing w = Sent job (Some e) →
  sender_ok (recordError (with_worker s n (count_unsent w job)) e).
Proof.
  intros Hok Hn Hdo. unfold recordError. cbn [firstErr with_worker].
  destruct (firstErr s) as [e0|] eqn:Ef; eapply (step_turn s _ n w (count_unsent w job) job (Some e)); try done;
    try (cbn; unfold uncounted; rewrite Hdo; cbn; by rewrite Z.add_0_r).
  - cbn. by rewrite Ef.
  - intros _. cbn. apply (sk_error _ Hok). by rewrite Ef.
Qed.

Lemma busy_all s order : some_order s order → busy_elsewhere s order.
Proof.
  intros Ho n w Hn Hw. exfalso. apply Hn. rewrite Ho. apply elem_of_seq. apply lookup_lt_Some in Hw. lia.
Qed.

Lemma with_worker_same s n w : with_available (with_worker s n w) (available (with_worker s n w)) = with_worker s n w.
Proof. done. Qed.

Ltac doing_side H :=
  first [done|lia|by unfold open_jobs; cbn; rewrite H|by unfold uncounted; cbn; rewrite H
    |by unfold unsent, in_hand; cbn; rewrite H|by eapply not_all_exited; [done|rewrite H]|by rewrite H].

Lemma run_step_ok s s' : sender_ok s → run_step s s' → sender_ok s'.
Proof.
  intros Hok Hstep. pose proof (sk_awake _ Hok) as Haw.
  destruct Hstep as [job n todo w El Hn Hr|job n todo w El Hn Hr|job El|job order El Ha Ho|job El Hc|job El Hc|El Hx
    |n w job q Hn Hd Hj|n w job Hn Hd|n w job Hn Hd Hc|n w job Hn Hd Hc|n w job Hn Hd|n w job e Hn Hd
    |n w job elapsed Hn Hd|n w job e Hn Hd|n w Hn Hd Hj El].
  - by eapply step_enqueue.
  - apply (step_loop s); try done; cbn; rewrite ?El; [by intros [?|[? ?]]|]. rewrite El in Haw.
    intros m v Hm Hv Hroom. cbn in Hv. destruct (decide (m = n)) as [->|Hne]; [congruence|].
    apply (Haw m v); [|done..]. intros [->|?]%elem_of_cons; done.
  - apply (step_loop s); try done; cbn; rewrite ?El; [by intros [?|[? ?]]|]. by rewrite El in Haw.
  - apply (step_loop s); try done; cbn; rewrite ?El; [by intros [?|[? ?]]|]. by apply busy_all.
  - apply (step_loop s); try done; cbn; rewrite ?El. by intros [?|[? ?]].
  - apply (step_loop s); try done; cbn; rewrite ?El. by intros [?|[? ?]].
  - apply (step_loop s); try done; cbn. right. by eexists.
  - assert (Hlen : length (jobs w) = S (length q)) by by rewrite Hj.
    eapply (step_doing s _ n w q (Taken job) (available s)); try doing_side Hd.
    intros _. by eexists.
  - eapply (step_doing s _ n w (jobs w) (Ready job) true); try doing_side Hd.
  - eapply (step_doing s _ n w (jobs w) (Sent job (Some PathCancelled)) (available s)); try doing_side Hd.
  - eapply (step_doing s _ n w (jobs w) (Sending job) (available s)); try doing_side Hd.
  - by eapply step_send.
  - eapply (step_doing s _ n w (jobs w) (Sent job (Some e)) (available s)); try doing_side Hd.
  - by eapply step_turn_ends.
  - by eapply step_turn_fails.
  - eapply (step_doing s _ n w (jobs w) Exited (available s)); try doing_side Hd. intros _. split; [done|by left].
Qed.

Lemma call_step_ok s s' : sender_ok s → call_step s s' → sender_ok s'.
Proof.
  intros Hok Hstep. pose proof (sk_awake _ Hok) as Haw.
  destruct Hstep as [job order El Hf Ho|e El Hf|El|El|]; apply (step_loop s); try done; cbn.
  - rewrite El. by intros [?|[? ?]].
  - by apply busy_all.
  - rewrite El. by intros [?|[? ?]].
  - by left.
  - by left.
Qed.

(** Numbered pipes, the first of which is not for chunks. *)
Definition numbered (s : TransferSession) : Prop := index <$> pipes s = Z.of_nat <$> seq 0 (length (pipes s)).

Lemma newParallelChunkSender_ok s : numbered s → sender_ok (newParallelChunkSender s).
Proof.
  intros Hnum. constructor; cbn; try done; [|by intros k j ?%not_elem_of_nil|by intros k j ?%not_elem_of_nil].
  intros n w Hn. rewrite list_lookup_fmap in Hn. destruct (tail (pipes s) !! n) as [p|] eqn:Ep; [|done]. injection Hn as <-.
  split; [|constructor; cbn; try done; unfold chunkPathQueueDepth; lia].
  assert (Hp : pipes s !! S n = Some p) by by rewrite <- Ep; destruct (pipes s).
  apply (f_equal (.!! S n)) in Hnum. rewrite !list_lookup_fmap, Hp in Hnum.
  rewrite lookup_seq_lt in Hnum by by eapply lookup_lt_Some. by injection Hnum.
Qed.

(** A state that calls and concurrent steps can lead to. *)
Definition parallel_reachable (t : TransferSession) (s : parallelChunkSender) : Prop :=
  rtc any_step (newParallelChunkSender t) s.

Lemma parallel_reachable_ok t s : numbered t → parallel_reachable t s → sender_ok s.
Proof.
  intros Hn Hr. pose proof (newParallelChunkSender_ok t Hn) as Hok. revert Hok.
  induction Hr as [|s1 s2 s3 [Hs|Hs] _ IH]; [done|..]; intros Hok; apply IH; [by eapply run_step_ok|by eapply call_step_ok].
Qed.

(** ** Every run comes to rest *)

(** A wake-up is worth more than a pass over all workers, a queued job more than
    its turn with the wake-up. *)
Definition wake_weight (s : parallelChunkSender) : nat := length (workers s) + 4.
Definition doing_weight (t : nat) (a : activity) : nat :=
  match a with Exited => 0 | Waiting => 1 | Sent _ _ => 2 | Sending _ => 3 | Ready _ => 4 | Taken _ => t + 5 end.
Definition worker_weight (t : nat) (w : chunkPathWorker) : nat := length (jobs w) * (t + 8) + doing_weight t (doing w).
Definition loop_weight (t : nat) (l : loop_state) : nat :=
  match l with Trying _ todo => t + 10 + length todo | Asleep _ => t + 9 | Closing => 1 | _ => 0 end.
Definition work (s : parallelChunkSender) : nat :=
  loop_weight (wake_weight s) (loop s) + (if available s then wake_weight s else 0) +
  sum_list_with (worker_weight (wake_weight s)) (workers s).

Lemma sum_list_with_insert {A} (f : A → nat) l n x y :
  l !! n = Some x → (sum_list_with f (<[n := y]> l) + f x = sum_list_with f l + f y)%nat.
Proof.
  revert n. induction l as [|z l IH]; intros [|n] Hn; cbn in *; [done|done|..].
  - injection Hn as ->. lia.
  - specialize (IH n Hn). change (f z + sum_list_with f (<[n := y]> l) + f x = f z + sum_list_with f l + f y)%nat. lia.
Qed.

Lemma weigh_worker s n w w' t :
  workers s !! n = Some w →
  (sum_list_with (worker_weight t) (<[n := w']> (workers s)) + length (jobs w) * (t + 8) + doing_weight t (doing w) =
   sum_list_with (worker_weight t) (workers s) + length (jobs w') * (t + 8) + doing_weight t (doing w'))%nat.
Proof. intros Hn. pose proof (sum_list_with_insert (worker_weight t) _ n w w' Hn) as Hs. unfold worker_weight at 2 4 in Hs. lia. Qed.

Ltac weigh Hn w' :=
  match goal with |- context [sum_list_with (worker_weight ?t) (<[_ := _]> _)] =>
    let Hs := fresh "Hs" in pose proof (weigh_worker _ _ _ w' t Hn) as Hs;
    cbn [jobs doing with_jobs at_work push_job count_sent count_unsent doing_weight] in Hs
  end.

Lemma run_step_work s s' : run_step s s' → (work s' < work s)%nat.
Proof.
  assert (Hrec : ∀ n w e, work (recordError (with_worker s n w) e) = work (with_worker s n w))
    by (intros n w e; unfold recordError; by destruct (firstErr _)).
  destruct 1 as [job n todo w El Hn Hr|job n todo w El Hn Hr|job El|job order El Ha Ho|job El Hc|job El Hc|El Hx
    |n w job q Hn Hd Hj|n w job Hn Hd|n w job Hn Hd Hc|n w job Hn Hd Hc|n w job Hn Hd|n w job e Hn Hd
    |n w job elapsed Hn Hd|n w job e Hn Hd|n w Hn Hd Hj El]; rewrite ?Hrec; unfold work, wake_weight;
    cbn [workers loop available with_loop with_available with_worker cancel enqueue put_on_wire]; rewrite ?El, ?length_insert; cbn [loop_weight length].
  1: weigh Hn (push_job w job); rewrite length_app, Nat.mul_add_distr_r in Hs; cbn [length] in Hs.
  8: weigh Hn (with_jobs w q (Taken job)); rewrite Hj, Hd in Hs; cbn [length doing_weight] in Hs.
  9: weigh Hn (at_work w (Ready job)); rewrite Hd in Hs; cbn [doing_weight] in Hs.
  10: weigh Hn (at_work w (Sent job (Some PathCancelled))); rewrite Hd in Hs; cbn [doing_weight] in Hs.
  11: weigh Hn (at_work w (Sending job)); rewrite Hd in Hs; cbn [doing_weight] in Hs.
  12: weigh Hn (at_work w (Sent job None)); rewrite Hd in Hs; cbn [doing_weight] in Hs.
  13: weigh Hn (at_work w (Sent job (Some e))); rewrite Hd in Hs; cbn [doing_weight] in Hs.
  14: weigh Hn (count_sent w job elapsed); rewrite Hd in Hs; cbn [doing_weight] in Hs.
  15: weigh Hn (count_unsent w job); rewrite Hd in Hs; cbn [doing_weight] in Hs.
  16: weigh Hn (at_work w Exited); rewrite Hd in Hs; cbn [doing_weight] in Hs.
  4: rewrite Ha; pose proof (Permutation_length Ho) as Hlen; rewrite length_seq in Hlen.
  all: destruct (available s); lia.
Qed.

Lemma run_steps_work k s s' : nsteps run_step k s s' → (k + work s' ≤ work s)%nat.
Proof. induction 1 as [|k s1 s2 s3 Hs%run_step_work _ IH]; lia. Qed.

(** ** No run gets stuck *)

Lemma worker_moves s n w :
  workers s !! n = Some w → doing w ≠ Exited → (doing w = Waiting → jobs w ≠ [] ∨ loop s = Closing) → ∃ s', run_step s s'.
Proof.
  intros Hn Hx Hw. destruct (doing w) as [|job|job|job|job [e|]|] eqn:Hd; [..|done].
  - destruct (jobs w) as [|j q] eqn:Hj; [|eexists; by eapply take_job]. destruct (Hw eq_refl) as [?|El]; [done|].
    eexists. by eapply exit_worker.
  - eexists. by eapply announce.
  - destruct (cancelled s) eqn:Hc; eexists; [by eapply skip_job|by eapply begin_job].
  - eexists. by eapply send_job.
  - eexists. by eapply turn_fails.
  - eexists. by apply (turn_ends s n w job 0).
Qed.

(** The workers still to try exist. *)
Definition todo_ok (s : parallelChunkSender) : Prop :=
  match loop s with Trying _ todo => Forall (fun n => n < length (workers s))%nat todo | _ => True end.

Lemma order_todo s order : some_order s order → Forall (fun n => n < length (workers s))%nat order.
Proof. intros Ho. rewrite Ho. apply Forall_forall. intros n Hn%elem_of_seq. lia. Qed.

Lemma any_step_todo s s' : todo_ok s → any_step s s' → todo_ok s' ∧ length (workers s') = length (workers s).
Proof.
  assert (Hrec : ∀ n w e, loop (recordError (with_worker s n w) e) = loop s ∧ workers (recordError (with_worker s n w) e) = <[n := w]> (workers s))
    by (intros n w e; unfold recordError; by destruct (firstErr _)).
  unfold todo_ok. intros Ht [Hs|Hs].
  - destruct Hs as [? ? ? ? El|? ? ? ? El|? El|? ? El ? Ho|? El|? El|El| | | | | | | |n w job e Hn Hd|];
      try (destruct (Hrec n (count_unsent w job) e) as [-> ->]); cbn; rewrite ?length_insert; try done.
    + rewrite El in Ht. by apply Forall_cons in Ht as [_ ?].
    + split; [|done]. by apply order_todo.
  - destruct Hs as [? ? ? ? Ho| | | |]; cbn; try done. split; [|done]. by apply order_todo.
Qed.

Lemma loop_moves s :
  sender_ok s → todo_ok s → (0 < length (workers s))%nat → (∀ s', ¬ run_step s s') →
  loop s = Idle ∨ (∃ e, loop s = Returned e) ∨ ∃ r, loop s = Finished r.
Proof.
  intros Hok Ht Hlen Hstuck. pose proof (sk_awake _ Hok) as Ha. unfold todo_ok in Ht.
  destruct (loop s) as [|job todo|job|e| |r] eqn:El; [by left| | |right; left; by eexists| |right; right; by eexists]; exfalso.
  - destruct todo as [|n todo]; [by eapply Hstuck, fall_asleep|]. apply Forall_cons in Ht as [Hn _].
    apply lookup_lt_is_Some in Hn as [w Hn]. destruct (has_room w) eqn:Hr; [by eapply Hstuck, try_room|by eapply Hstuck, try_full].
  - destruct (available s) eqn:Hav; [exact (Hstuck _ (wake_up s job (seq 0 (length (workers s))) El Hav (Permutation_refl _)))|].
    destruct (proj2 (lookup_lt_is_Some (workers s) 0) Hlen) as [w Hw]. destruct (has_room w) eqn:Hr.
    + destruct (Ha 0%nat w ltac:(set_solver) Hw Hr) as [?|(m & v & j & Hv & Hd)]; [congruence|]. by eapply Hstuck, announce.
    + destruct (sk_workers _ Hok 0 w Hw) as [_ Hwk]. destruct (worker_moves s 0 w Hw) as [s' Hs'].
      * intros Hd. destruct (wk_exited _ _ Hwk Hd) as [_ [?|[? ?]]]; congruence.
      * intros _. left. intros Hj. unfold has_room in Hr. by rewrite Hj in Hr.
      * by eapply Hstuck.
  - destruct (decide (Forall is_exited (workers s))) as [Hall|Hall].
    { by eapply Hstuck, finish_workers. }
    apply not_Forall_Exists, Exists_exists in Hall as (w & [n Hn]%list_elem_of_lookup & Hd); [|apply _].
    destruct (worker_moves s n w Hn Hd) as [s' Hs']; [by right|]. by eapply Hstuck.
Qed.

(** ** The contract of the parallel sender *)

Lemma filter_jobs_on k (l l' : list (Z * chunkSendJob)) : jobs_on k l = jobs_on k l' → filter (on_conn k) l = filter (on_conn k) l'.
Proof.
  assert (Hf : ∀ l, filter (on_conn k) l = (fun j => (k, j)) <$> jobs_on k l).
  { intros m. unfold jobs_on. induction m as [|[k' j] m IH]; [done|]. destruct (decide (on_conn k (k', j))) as [E|E].
    - rewrite !filter_cons_True by done. cbn. rewrite <- IH. by unfold on_conn in E; cbn in E; subst.
    - by rewrite !filter_cons_False. }
  intros Hj. by rewrite (Hf l), (Hf l'), Hj.
Qed.

Lemma jobs_on_outside s k (l : list (Z * chunkSendJob)) :
  (∀ k j, (k, j) ∈ l → 1 ≤ k ≤ zlen (workers s)) → ¬ 1 ≤ k ≤ zlen (workers s) → jobs_on k l = [].
Proof.
  intros Hin Hk. unfold jobs_on. induction l as [|[k' j] l IH]; [done|]. rewrite filter_cons_False.
  - apply IH. intros ? ? ?. eapply Hin. by right.
  - intros E. apply Hk. rewrite <- E. eapply Hin. by left.
Qed.

Lemma worker_at s k : sender_ok s → 1 ≤ k ≤ zlen (workers s) → ∃ n w, workers s !! n = Some w ∧ wpipe w = k ∧ worker_ok s w.
Proof.
  intros Hok Hk. destruct (proj2 (lookup_lt_is_Some (workers s) (Z.to_nat (k - 1)))) as [w Hw]; [unfold zlen in Hk; lia|].
  exists (Z.to_nat (k - 1)), w. destruct (sk_workers _ Hok _ w Hw) as [-> ?]. split; [done|]. split; [lia|done].
Qed.

(** C17: at any time, and however the workers, the loop, failures and
    cancellations interleave, each connection has carried some of the jobs
    queued for it, in their order and none twice.  When [Close] returns without
    an error every job was sent: the messages on the wire are an interleaving of
    those queued, nothing is pending, and the counters of a worker are the bytes
    it sent. *)
Theorem parallel_delivers t s :
  numbered t → parallel_reachable t s →
  (∀ k, sublist (jobs_on k (wire s)) (jobs_on k (submitted s))) ∧
  (loop s = Finished None →
     interleaves (submitted s) (wire s) ∧
     ∀ n w, workers s !! n = Some w →
       wrap64 (sentBytes w) = wrap64 (bytes_of (jobs_on (wpipe w) (wire s))) ∧ pendingBytes w = 0).
Proof.
  intros Hnum Hr. pose proof (parallel_reachable_ok t s Hnum Hr) as Hok. split.
  - intros k. destruct (decide (1 ≤ k ≤ zlen (workers s))) as [Hk|Hk].
    + destruct (worker_at s k Hok Hk) as (n & w & Hw & <- & Hwk). etrans; [|apply (wk_order _ _ Hwk)]. by apply sublist_inserts_r.
    + by rewrite (jobs_on_outside s k (wire s) (sk_wire _ Hok) Hk), (jobs_on_outside s k (submitted s) (sk_conns _ Hok) Hk).
  - intros Hf. pose proof (sk_awake _ Hok) as Ha. rewrite Hf in Ha. destruct Ha as [Hne Hx].
    assert (Hrest : ∀ n w, workers s !! n = Some w → doing w = Exited ∧ jobs w = []).
    { intros n w Hn. pose proof (Forall_lookup_1 _ _ _ _ Hx Hn) as Hd. split; [done|].
      destruct (sk_workers _ Hok n w Hn) as [_ Hwk]. by destruct (wk_exited _ _ Hwk Hd). }
    split.
    + intros k. apply filter_jobs_on. destruct (decide (1 ≤ k ≤ zlen (workers s))) as [Hk|Hk].
      * destruct (worker_at s k Hok Hk) as (n & w & Hw & <- & Hwk). destruct (Hrest n w Hw) as [Hd Hj].
        rewrite <- (wk_all _ _ Hwk (eq_sym Hne)). unfold unsent, in_hand. by rewrite Hd, Hj, !app_nil_r.
      * by rewrite (jobs_on_outside s k (wire s) (sk_wire _ Hok) Hk), (jobs_on_outside s k (submitted s) (sk_conns _ Hok) Hk).
    + intros n w Hn. destruct (Hrest n w Hn) as [Hd Hj], (sk_workers _ Hok n w Hn) as [_ Hwk]. split.
      * rewrite <- (wk_sent _ _ Hwk). unfold uncounted. rewrite Hd. cbn. by rewrite Z.add_0_r.
      * rewrite (wk_pending _ _ Hwk). unfold open_jobs. by rewrite Hd, Hj.
Qed.

Lemma reachable_todo t s :
  parallel_reachable t s → todo_ok s ∧ length (workers s) = length (workers (newParallelChunkSender t)).
Proof.
  unfold parallel_reachable. assert (Ht : todo_ok (newParallelChunkSender t)) by done.
  generalize dependent (newParallelChunkSender t). intros s0 Ht Hr. induction Hr as [s0|s1 s2 s3 Hs _ IH]; [done|].
  apply any_step_todo in Hs as [Ht2 Hlen]; [|done]. rewrite <- Hlen. by apply IH.
Qed.

(** C18: no call hangs.  Between two calls there are at most [work s] steps, and
    when no step is left the call of [SendChunk], [Close] or [Abort] in progress
    has returned: in particular the loop never sleeps while a queue has room. *)
Theorem parallel_settles t s :
  numbered t → (1 < length (pipes t))%nat → parallel_reachable t s →
  (∀ n s', nsteps run_step n s s' → (n ≤ work s)%nat) ∧
  ∀ s', rtc run_step s s' → (∀ s'', ¬ run_step s' s'') →
    loop s' = Idle ∨ (∃ e, loop s' = Returned e) ∨ ∃ r, loop s' = Finished r.
Proof.
  intros Hnum Hlen Hr. split; [intros n s' Hs%run_steps_work; lia|]. intros s' Hs Hstuck.
  assert (Hr' : parallel_reachable t s') by (unfold parallel_reachable in *; etrans; [exact Hr|]; eapply (rtc_subrel _ _ _ _ (fun _ _ Hx => or_introl Hx)), Hs).
  destruct (reachable_todo t s' Hr') as [Ht' Hlen']. apply loop_moves; [by eapply parallel_reachable_ok|done| |done].
  rewrite Hlen'. cbn. rewrite length_fmap. destruct (pipes t); cbn in *; lia.
Qed.

(** ** Statistics of the paths *)

Record chunkPathStats := MkChunkPathStats { Connection : Z; Bytes : Z; Chunks : Z; SendTime : Z }.
Definition Stats (s : parallelChunkSender) : list chunkPathStats :=
  (fun w => MkChunkPathStats (wpipe w) (sentBytes w) (sentChunks w) (sendNanos w)) <$> workers s.
Definition physicalPathStats (stats : list chunkPathStats) : list PhysicalPathStats :=
  (fun stat => MkPathStats (Connection stat) (Bytes stat) (Chunks stat) (SendTime stat)) <$> stats.

(** ** Example: two connections, the chunks overtake each other *)

Definition two_workers (h1 h2 : float64) : parallelChunkSender :=
  MkParallel [MkWorker 1 [] h1 0 0 0 0 0 Waiting; MkWorker 2 [] h2 0 0 0 0 0 Waiting] 0 false None false false Idle [] [].
Definition demo_job (n : Z) : chunkSendJob := MkJob (typed_message "chunk" n) n.

Lemma two_workers_run h1 h2 :
  ∃ s, rtc any_step (two_workers h1 h2) s ∧ loop s = Finished None ∧
    submitted s = [(1, demo_job 5); (2, demo_job 7)] ∧ wire s = [(2, demo_job 7); (1, demo_job 5)].
Proof.
  eexists. split; [|].
  - eapply rtc_l; [right; apply (call_SendChunk _ (demo_job 5) [0%nat; 1%nat]); [reflexivity|reflexivity|apply Permutation_refl]|]. 
    eapply rtc_l; [left; eapply (try_room _ (demo_job 5) 0%nat); reflexivity|].
    eapply rtc_l; [right; apply (call_SendChunk _ (demo_job 7) [1%nat; 0%nat]); [reflexivity|reflexivity|apply Permutation_swap]|].
    eapply rtc_l; [left; eapply (try_room _ (demo_job 7) 1%nat); reflexivity|].
    eapply rtc_l; [left; eapply (take_job _ 1%nat); reflexivity|].
    eapply rtc_l; [left; eapply (announce _ 1%nat); reflexivity|].
    eapply rtc_l; [left; eapply (begin_job _ 1%nat); reflexivity|].
    eapply rtc_l; [left; eapply (send_job _ 1%nat); reflexivity|].
    eapply rtc_l; [left; eapply (take_job _ 0%nat); reflexivity|].
    eapply rtc_l; [left; eapply (announce _ 0%nat); reflexivity|].
    eapply rtc_l; [left; eapply (begin_job _ 0%nat); reflexivity|].
    eapply rtc_l; [left; eapply (send_job _ 0%nat); reflexivity|].
    eapply rtc_l; [right; apply call_Close; reflexivity|].
    eapply rtc_l; [left; eapply (turn_ends _ 0%nat _ _ 3); reflexivity|].
    eapply rtc_l; [left; eapply (turn_ends _ 1%nat _ _ 4); reflexivity|].
    eapply rtc_l; [left; eapply (exit_worker _ 0%nat); reflexivity|].
    eapply rtc_l; [left; eapply (exit_worker _ 1%nat); reflexivity|].
    eapply rtc_l; [left; eapply finish_workers; [reflexivity|repeat constructor]|].
    apply rtc_refl.
  - split; [|split]; reflexivity.
Qed.

Lemma demo_numbered : numbered demo_session.
Proof. reflexivity. Qed.

Lemma parallel_delivers_witness :
  ∃ s, parallel_reachable demo_session s ∧ wire s = [(2, demo_job 7); (1, demo_job 5)] ∧
    interleaves [(1, demo_job 5); (2, demo_job 7)] (wire s).
Proof.
  destruct (two_workers_run (clampPathWeight (PhysicalPathWeight demo_session 1)) (clampPathWeight (PhysicalPathWeight demo_session 2)))
    as (s & Hr & Hf & Hs & Hw).
  exists s. split; [exact Hr|]. split; [exact Hw|]. rewrite <- Hs.
  exact (proj1 (proj2 (parallel_delivers demo_session s demo_numbered Hr) Hf)).
Defined.

Lemma two_pipes : (1 < length (pipes demo_session))%nat.
Proof. cbn. lia. Qed.

Lemma parallel_settles_witness :
  ∃ s, parallel_reachable demo_session s ∧ wire s = [(2, demo_job 7); (1, demo_job 5)] ∧
    (∀ n s', nsteps run_step n s s' → (n ≤ work s)%nat).
Proof.
  destruct (two_workers_run (clampPathWeight (PhysicalPathWeight demo_session 1)) (clampPathWeight (PhysicalPathWeight demo_session 2)))
    as (s & Hr & Hf & Hs & Hw).
  exists s. split; [exact Hr|]. split; [exact Hw|].
  exact (proj1 (parallel_settles demo_session s demo_numbered two_pipes Hr)).
Defined.

(** With equal histories the connection after the one used last comes first; a
    connection twice as fast may carry twice the bytes before it comes second. *)
Example order_round_robin h :
  h = f64_of_Z 1 →
  wpipe <$> orderedWorkers (MkParallel [MkWorker 1 [] h 0 0 0 0 0 Waiting; MkWorker 2 [] h 0 0 0 0 0 Waiting] 1 false None false false Idle [] []) = [2; 1].
Proof. intros ->. by vm_compute. Qed.
Example order_by_speed :
  wpipe <$> orderedWorkers (MkParallel
    [MkWorker 1 [] (f64_of_Z 1) 0 90 0 0 0 Waiting; MkWorker 2 [] (f64_of_Z 2) 0 150 0 0 0 Waiting] 1 false None false false Idle [] []) = [2; 1].
Proof. by vm_compute. Qed.
