(* ===== verification/Collect.v ===== *)
(** * Preparing a path for sending ([PreparePath] in [internal/transfer/transfer.go]
    and [gitignore.go])

    The walk over the file system that turns a path into manifest items and
    source files.  The library that matches ignore rules is the parameter
    [MatchesPath]; [filepath.WalkDir] and [filepath.EvalSymlinks] are written out
    over the file system of [FileSystem.v], which the functions only read. *)
From Stdlib Require Import ZArith Lia Ascii String.
From stdpp Require Import base tactics numbers list gmap strings.
From S2P Require Import Prelude GoStrings GoPath Protocol Secure FileSystem ManifestCheck Hashing Json Base64 Transport Ranges Mux.
From S2P Require Import Compression TransferHello TransferSession Scheduler Progress Sender.

Definition SymlinkMode : Type := string.
Definition SymlinkFollow : SymlinkMode := "follow".
Definition SymlinkPreserve : SymlinkMode := "preserve".

Record PrepareOptions := MkPrepareOptions { Symlinks : SymlinkMode; NoGitIgnore : bool }.

Inductive collect_error :=
  | CFS (e : fs_error)
  | CHash (e : hash_error)
  | CTarget (e : manifest_error)
  | CNotRegular (path : string)
  | CRel (path : string)
  | CTooManyLinks
  | CTokenTooLong
  | CSymlinkMode (value : string)
  | CNothing
  | COutOfFuel.

(** The compiled rules of the lines of the ignore files. *)
Class GitIgnore := { MatchesPath : list string → string → bool }.

(** A call that only reads. *)
Definition reads {E A} (f : E → collect_error) (m : io E A) (w : fs) : result collect_error A := wrap_err f (fst (m w)).

(** ** The standard library's walk *)

(** The last element of a cleaned path. *)
Definition Base (p : string) : string :=
  if String.eqb p "" then "."%string
  else match rev (filter (fun c => negb (String.eqb c "") = true) (split_on slash p)) with
       | last :: _ => last
       | [] => "/"%string
       end.

Definition Abs (w : fs) (p : string) : string :=
  if IsAbs p then Clean p else Join (render_path true (cwd w)) p.

(** The entries of a directory in the order of their names. *)
Definition children (w : fs) (k : key) : list (string * node) :=
  sort_stable (fun a b => str_ltb (fst a) (fst b))
    (omap (fun x : key * node =>
             match rev (fst x) with
             | name :: up => if decide (rev up = k) then Some (name, snd x) else None
             | [] => None
             end) (map_to_list (entries w))).

Definition ReadDir (w : fs) (path : string) : result fs_error (list (string * node)) :=
  match lookup_path w true path with
  | Ok (k, NDir _ _) => Ok (children w k)
  | Ok _ => Err ENOTDIR
  | Err e => Err e
  end.

Definition is_dir_node (n : node) : bool := match n with NDir _ _ => true | _ => false end.

(** [filepath.WalkDir] of a directory whose visit is [fn]: the flag of a visit
    is [filepath.SkipDir], which only directories return. *)
Section walk.
Context {St : Type} (fn : string → bool → St → result collect_error (St * bool)).

Fixpoint walkDir (fuel : nat) (w : fs) (path : string) (d_is_dir : bool) (st : St) : result collect_error St :=
  match fuel with
  | O => Err COutOfFuel
  | S fuel =>
      '(st, skip) ← fn path d_is_dir st;
      if skip || negb d_is_dir then Ok st
      else
        names ← wrap_err CFS (ReadDir w path);
        (fix visit (names : list (string * node)) (st : St) : result collect_error St :=
           match names with
           | [] => Ok st
           | (name, n) :: names => st ← walkDir fuel w (Join path name) (is_dir_node n) st; visit names st
           end) names st
  end.
End walk.

(** Deeper than every entry below the first two levels. *)
Definition walk_fuel (w : fs) : nat := S (S (S (foldr Nat.max 0 ((fun x => length (fst x)) <$> map_to_list (entries w)))))%nat.

Definition WalkDir {St} (fn : string → bool → St → result collect_error (St * bool)) (w : fs) (root : string) (st : St)
    : result collect_error St :=
  info ← reads CFS (Lstat root) w;
  walkDir fn (walk_fuel w) w root (is_dir info) st.

(** [filepath.EvalSymlinks]: [dest] are the components already resolved; at most
    255 links are followed. *)
Definition render_dest (rooted : bool) (dest : list string) : string :=
  if rooted then String slash (join_with slash dest) else join_with slash dest.

Fixpoint walkSymlinks (links : nat) (w : fs) (rooted : bool) (dest : list string) (comps : list string)
    : result collect_error string :=
  (fix step (dest : list string) (comps : list string) : result collect_error string :=
     match comps with
     | [] => Ok (Clean (render_dest rooted dest))
     | c :: rest =>
         if String.eqb c ".." then
           match dest with
           | [] | [_] => step (dest ++ [c]) rest
           | _ => if String.eqb (List.last dest "") ".." then step (dest ++ [c]) rest else step (removelast dest) rest
           end
         else
           let dest' := dest ++ [c] in
           info ← reads CFS (Lstat (render_dest rooted dest')) w;
           if negb (is_symlink info) then
             if negb (is_dir info) && negb (bool_decide (rest = [])) then Err (CFS ENOTDIR) else step dest' rest
           else
             match links with
             | O => Err CTooManyLinks
             | S links =>
                 t ← reads CFS (Readlink (render_dest rooted dest')) w;
                 if IsAbs t then walkSymlinks links w true [] (name_comps t ++ rest)
                 else walkSymlinks links w rooted dest (name_comps t ++ rest)
             end
     end) dest comps.

Definition EvalSymlinks (w : fs) (p : string) : result collect_error string :=
  walkSymlinks 255 w (IsAbs p) [] (name_comps p).

(** ** Ignore files *)

(** [bufio.Scanner] over lines: the text of a line without its line ending;
    a line that fills the buffer is an error. *)
Definition MaxScanTokenSize : Z := 64 * 1024.
Definition scan_lines (data : bytes) : result collect_error (list string) :=
  let parts := split_on (byte_of 10) (of_bytes data) in
  let lines := if String.eqb (List.last parts "") "" then removelast parts else parts in
  _ ← fail_if (existsb (fun l => str_len l >=? MaxScanTokenSize) parts) CTokenTooLong;
  Ok ((fun l => trim_suffix l (String (byte_of 13) "")) <$> lines).

(** The lines of the ignore files from a directory up to the root. *)
Fixpoint ignore_lines (fuel : nat) (w : fs) (current : string) : result collect_error (list string) :=
  match fuel with
  | O => Err COutOfFuel
  | S fuel =>
      let path := Join current ".gitignore" in
      lines ← match fst (Stat path w) with
              | Ok info => if is_regular info then data ← reads CFS (ReadFile path) w; scan_lines data else Ok []
              | Err e => if IsNotExist e then Ok [] else Err (CFS e)
              end;
      let parent := Dir current in
      if String.eqb parent current then Ok lines
      else rest ← ignore_lines fuel w parent; Ok (lines ++ rest)
  end.

Definition loadGitIgnoreStack (w : fs) (root : string) : result collect_error (list string) :=
  let current := Abs w root in
  ignore_lines (S (length (path_comps current))) w current.

Section collect.
Context `{CaseTables} `{Crypto} `{GitIgnore}.

Definition Ignored (rules : option (list string)) (relative : string) (directory : bool) : bool :=
  match rules with
  | None => false
  | Some lines =>
      if String.eqb relative "." || String.eqb relative "" then false
      else MatchesPath lines (if directory then relative +:+ "/" else relative)
  end.

(** ** Items *)

(** [uint32(info.Mode().Perm())] *)
Definition Perm (mode : Z) : Z := Z.land mode 511.

Definition makeSendFileEntry (w : fs) (path name : string) (info : FileInfo) : result collect_error sendFileEntry :=
  sampleHash ← reads CHash (fileSampleSHA256 path) w;
  Ok (MkSendFile path 0 (MkItem ItemFile name (fi_size info) (fi_mtime info) (Perm (fi_mode info)) "" sampleHash "" ChunkSize true)).

Definition makeDirectoryItem (name : string) (info : FileInfo) : Item :=
  MkItem ItemDirectory name 0 (fi_mtime info) (Perm (fi_mode info)) "" "" "" ChunkSize false.

Definition makeSymlinkItem (w : fs) (path name : string) (info : FileInfo) : result collect_error Item :=
  target ← reads CFS (Readlink path) w;
  _ ← wrap_err CTarget (validateSafeSymlinkTarget name target);
  Ok (MkItem ItemSymlink name 0 (fi_mtime info) (Perm (fi_mode info)) "" "" target ChunkSize false).

Definition ParseSymlinkMode (value : string) : result collect_error SymlinkMode :=
  let mode := ToLower (TrimSpace value) in
  if String.eqb mode "" || String.eqb mode SymlinkFollow then Ok SymlinkFollow
  else if String.eqb mode SymlinkPreserve then Ok mode
  else Err (CSymlinkMode value).

(** ** The walk *)

Definition collected : Type := list sendFileEntry * list Item * Z.

Definition add_item (st : collected) (it : Item) : collected := let '(files, items, ignored) := st in (files, items ++ [it], ignored).
(** [entry.ItemID = len(items)] *)
Definition add_file (st : collected) (f : sendFileEntry) : collected :=
  let '(files, items, ignored) := st in (files ++ [MkSendFile (SPath f) (zlen items) (SItem f)], items ++ [SItem f], ignored).
Definition add_ignored (st : collected) : collected := let '(files, items, ignored) := st in (files, items, wrap64 (ignored + 1)).

(** The function given to [filepath.WalkDir]. *)
Definition visit_entry (w : fs) (symlinks : SymlinkMode) (rules : option (list string)) (walkRoot rootName : string)
    (current : string) (d_is_dir : bool) (st : collected) : result collect_error (collected * bool) :=
  rel ← match Rel walkRoot current with Some rel => Ok rel | None => Err (CRel current) end;
  let name := if String.eqb rel "." then rootName else Join rootName rel in
  if Ignored rules rel d_is_dir then Ok (add_ignored st, d_is_dir)
  else
    linkInfo ← reads CFS (Lstat current) w;
    if is_symlink linkInfo then
      if String.eqb symlinks SymlinkPreserve then
        it ← makeSymlinkItem w current name linkInfo;
        Ok (add_item st it, false)
      else
        targetInfo ← reads CFS (Stat current) w;
        if is_regular targetInfo then
          entry ← makeSendFileEntry w current name targetInfo;
          Ok (add_file st entry, false)
        else Ok (st, false)
    else if d_is_dir then Ok (add_item st (makeDirectoryItem name linkInfo), false)
    else if negb (is_regular linkInfo) then Ok (st, false)
    else
      entry ← makeSendFileEntry w current name linkInfo;
      Ok (add_file st entry, false).

Definition collectSendItems (w : fs) (path : string) (symlinks : SymlinkMode) (useGitIgnore : bool) : result collect_error collected :=
  linkInfo ← reads CFS (Lstat path) w;
  if is_symlink linkInfo && String.eqb symlinks SymlinkPreserve then
    it ← makeSymlinkItem w path (Base path) linkInfo;
    Ok ([], [it], 0)
  else
    info ← reads CFS (Stat path) w;
    if negb (is_dir info) then
      _ ← fail_if (negb (is_regular info)) (CNotRegular path);
      entry ← makeSendFileEntry w path (Base path) info;
      Ok ([entry], [SItem entry], 0)
    else
      walkRoot ← (if is_symlink linkInfo then EvalSymlinks w path else Ok path);
      rules ← (if useGitIgnore then lines ← loadGitIgnoreStack w walkRoot; Ok (Some lines) else Ok None);
      WalkDir (visit_entry w symlinks rules walkRoot (Base (Clean path))) w walkRoot ([], [], 0).

Definition PreparePathWithOptions (w : fs) (path : string) (opts : PrepareOptions) : result collect_error PreparedPath :=
  symlinks ← ParseSymlinkMode (Symlinks opts);
  '(files, items, ignored) ← collectSendItems w path symlinks (negb (NoGitIgnore opts));
  _ ← fail_if (zlen items =? 0) CNothing;
  Ok (MkPrepared files items ignored).

Definition PreparePath (w : fs) (path : string) : result collect_error PreparedPath :=
  PreparePathWithOptions w path (MkPrepareOptions SymlinkFollow false).
End collect.

(** ** Examples *)

Definition no_rules : GitIgnore := {| MatchesPath lines path := existsb (fun l => String.eqb l path) lines |}.

(** Work in /w: a directory p with a file, a link to it and an ignored directory. *)
Definition tree_fs : fs :=
  MkFS {[ ["w"] := NDir 493 0; ["w"; "p"] := NDir 493 0; ["w"; "p"; "b.txt"] := NFile 0; ["w"; "p"; "a"] := NLink "b.txt";
          ["w"; "p"; "out"] := NDir 493 0; ["w"; "p"; "out"; "x"] := NFile 0; ["w"; ".gitignore"] := NFile 1; ["w"; "l"] := NLink "/w/p" ]}%string
    {[ 0%nat := MkInode (to_bytes "hello") 420 7; 1%nat := MkInode (to_bytes "out/" ++ [byte_of 13; byte_of 10]) 420 0 ]} 2 ["w"%string].

Definition item_names (r : result collect_error PreparedPath) : result collect_error (list (string * string) * Z) :=
  p ← r; Ok ((fun it => (Kind it, Name it)) <$> pitems p, pignored p).

Example prepare_tree :
  let Ht := ascii_tables in let Hc := tagged_crypto in let Hg := no_rules in
  item_names (PreparePath tree_fs "l") = Ok ([("directory", "l"); ("file", "l/a"); ("file", "l/b.txt")]%string, 1) ∧
  item_names (PreparePathWithOptions tree_fs "p/" (MkPrepareOptions " Preserve" true)) =
    Ok ([("directory", "p"); ("symlink", "p/a"); ("file", "p/b.txt"); ("directory", "p/out"); ("file", "p/out/x")]%string, 0) ∧
  item_names (PreparePath tree_fs "p/out/..") = Ok ([("directory", "p"); ("file", "p/a"); ("file", "p/b.txt")]%string, 1) ∧
  item_names (PreparePath tree_fs "nope") = Err (CFS ENOENT).
Proof. split_and!; by vm_compute. Qed.
