(* ===== verification/CollectProofs.v ===== *)
(** * A prepared path can be sent and is accepted

    What the walk collects is a manifest the receiver's validation accepts, and
    source files as the sending loop needs them; the walk ends. *)
From Stdlib Require Import ZArith Lia Ascii String.
From stdpp Require Import base tactics numbers list gmap strings.
From S2P Require Import Prelude GoStrings GoPath Protocol Secure FileSystem ManifestCheck Hashing Json Base64 Transport Ranges Mux.
From S2P Require Import ReceiveStore ReceiveProofs RenameProofs Containment Compression TransferHello TransferSession SessionProofs Honest Scheduler Progress Sender SenderProofs Collect.

(** ** Cleaned components *)

(** A stack [clean_step] builds: parent references below, names above. *)
Fixpoint clean_stack (rooted : bool) (st : list string) : Prop :=
  match st with
  | [] => True
  | top :: rest => (top = ".."%string ∧ rooted = false ∧ Forall (fun p => p = ".."%string) rest) ∨ (safe_part top = true ∧ clean_stack rooted rest)
  end.

Lemma clean_stack_ups rooted st : rooted = false → Forall (fun p => p = ".."%string) st → clean_stack rooted st.
Proof. intros Hr. induction 1 as [|p st -> Hst IH]; cbn; [done|by left]. Qed.

Lemma clean_step_stack rooted st p : clean_stack rooted st → clean_stack rooted (clean_step rooted st p).
Proof.
  intros Hs. unfold clean_step. destruct (String.eqb_spec p ""), (String.eqb_spec p "."); cbn [orb]; try done.
  destruct (String.eqb_spec p "..") as [->|].
  - destruct st as [|top rest]; [destruct rooted; cbn; auto|]. destruct (String.eqb_spec top "..") as [->|Hne].
    + cbn in Hs. destruct Hs as [(_ & Hr & Hall)|[? _]]; [|done]. cbn. left. split; [done|]. split; [done|]. by constructor.
    + destruct Hs as [[? _]|[_ ?]]; done.
  - cbn. right. split; [|done]. unfold safe_part. rewrite !andb_true_iff, !negb_true_iff. by rewrite !String.eqb_neq.
Qed.

Lemma clean_foldl_stack rooted st parts : clean_stack rooted st → clean_stack rooted (foldl (clean_step rooted) st parts).
Proof. revert st. induction parts as [|p parts IH]; intros st Hs; cbn; [done|]. by apply IH, clean_step_stack. Qed.

Lemma clean_stack_fix rooted st : clean_stack rooted st → foldl (clean_step rooted) [] (rev st) = st.
Proof.
  induction st as [|top st IH]; [done|]. cbn [rev]. rewrite foldl_app. intros Hs.
  assert (Hst : clean_stack rooted st) by (destruct Hs as [(_ & Hr & Hall)|[_ ?]]; [by apply clean_stack_ups|done]).
  rewrite IH by done. cbn. destruct Hs as [(-> & -> & Hall)|[Hsafe _]]; [|by apply clean_step_safe].
  unfold clean_step. cbn. destruct st as [|q st]; [done|]. by inversion Hall as [|? ? ->]; subst.
Qed.

Lemma clean_parts_idemp rooted parts : clean_parts rooted (clean_parts rooted parts) = clean_parts rooted parts.
Proof. unfold clean_parts. f_equal. by apply clean_stack_fix, clean_foldl_stack. Qed.

(** Components as [path_comps] gives them. *)
Record kept (rooted : bool) (parts : list string) : Prop := {
  kp_fix : clean_parts rooted parts = parts;
  kp_noslash : Forall (fun p => has_byte slash p = false) parts;
  kp_names : Forall (fun p => p ≠ ""%string ∧ p ≠ "."%string) parts;
}.

Lemma path_comps_kept p : kept (IsAbs p) (path_comps p).
Proof.
  constructor.
  - apply clean_parts_idemp.
  - apply Forall_forall. intros q Hq. unfold path_comps, clean_parts in Hq. rewrite list_elem_of_In, <- in_rev, <- list_elem_of_In in Hq.
    assert (Hall : ∀ st parts, Forall (fun p => has_byte slash p = false) parts → Forall (fun p => has_byte slash p = false) st →
      Forall (fun p => has_byte slash p = false) (foldl (clean_step (IsAbs p)) st parts)).
    { intros st parts Hp. revert st. induction Hp as [|x parts Hx _ IH]; intros st Hst; cbn; [done|]. apply IH. unfold clean_step.
      destruct (_ || _); [done|]. destruct (String.eqb x ".."); [|by constructor].
      destruct st as [|t st]; [destruct (IsAbs p); by repeat constructor|]. destruct (String.eqb t ".."); [by constructor|by inversion Hst]. }
    specialize (Hall [] (split_on slash p) (split_on_parts slash p) ltac:(constructor)). rewrite Forall_forall in Hall. by apply Hall.
  - apply Forall_forall. intros q Hq. by eapply clean_parts_kept.
Qed.

Lemma kept_render rooted parts :
  kept rooted parts → path_comps (render_path rooted parts) = parts ∧ IsAbs (render_path rooted parts) = rooted ∧
    name_comps (render_path rooted parts) = parts.
Proof.
  intros [Hfix Hs Hn]. destruct (decide (parts = [])) as [->|Hne]; [by destruct rooted|].
  assert (Hfilter : filter (fun c => negb (String.eqb c "" || String.eqb c ".") = true) parts = parts).
  { clear Hfix Hs Hne. induction Hn as [|p ps [H1 H2] _ IH]; [done|]. rewrite filter_cons_True; [by rewrite IH|].
    rewrite (proj2 (String.eqb_neq p "") H1), (proj2 (String.eqb_neq p ".") H2). done. }
  unfold render_path. destruct rooted.
  - split; [|split; [done|]].
    + unfold path_comps. change (IsAbs (String slash (join_with slash parts))) with true. cbn [split_on]. rewrite Ascii.eqb_refl.
      rewrite split_slash_join by done. by rewrite <- Hfix at 2.
    + unfold name_comps. cbn [split_on]. rewrite Ascii.eqb_refl, split_slash_join by done. by rewrite filter_cons_False.
  - destruct parts as [|p ps]; [done|]. inversion Hn as [|? ? [Hp _] _]; subst.
    destruct (String.eqb_spec (join_with slash (p :: ps)) "") as [E|_]; [by apply join_with_nonempty in E|].
    assert (Habs : IsAbs (join_with slash (p :: ps)) = false).
    { apply join_with_head_abs. apply Forall_and. split; [done|]. eapply Forall_impl; [exact Hn|]. by intros q [? _]. }
    split; [|split; [done|]].
    + unfold path_comps. by rewrite Habs, split_slash_join.
    + unfold name_comps. by rewrite split_slash_join.
Qed.

Lemma Clean_comps p : path_comps (Clean p) = path_comps p ∧ IsAbs (Clean p) = IsAbs p ∧ name_comps (Clean p) = path_comps p.
Proof. apply kept_render, path_comps_kept. Qed.

(** Going down to a name. *)
Definition plain_name (n : string) : Prop := safe_part n = true ∧ has_byte slash n = false.

Lemma kept_snoc rooted parts n : kept rooted parts → plain_name n → kept rooted (parts ++ [n]).
Proof.
  intros [Hf Hs Hn] [Hsafe Hslash]. constructor.
  - by rewrite clean_parts_app_safe, Hf by by constructor.
  - apply Forall_app. split; [done|by constructor].
  - apply Forall_app. split; [done|]. constructor; [|done]. unfold safe_part in Hsafe. rewrite !andb_true_iff, !negb_true_iff in Hsafe.
    destruct Hsafe as [[?%String.eqb_neq ?%String.eqb_neq] _]. done.
Qed.

Lemma Join_down root n : root ≠ ""%string → plain_name n →
  path_comps (Join root n) = path_comps root ++ [n] ∧ IsAbs (Join root n) = IsAbs root ∧
  name_comps (Join root n) = path_comps root ++ [n] ∧ Join root n ≠ ""%string.
Proof.
  intros Hr [Hsafe Hslash]. unfold Join. rewrite (proj2 (String.eqb_neq root "") Hr). cbn [negb]. cbv iota.
  destruct (Clean_comps (root +:+ String slash n)) as (Hc & Ha & Hnc).
  assert (Hpc : path_comps (root +:+ String slash n) = path_comps root ++ [n]).
  { unfold path_comps. rewrite split_on_app_sep, (IsAbs_app root) by done. rewrite (split_on_single slash n) by done.
    rewrite clean_parts_app_safe; [done|]. by apply Forall_singleton. }
  rewrite Hc, Ha, Hnc, Hpc, IsAbs_app by done. split; [done|]. split; [done|]. split; [done|].
  intros E. rewrite E in Hc. rewrite Hpc in Hc. cbn in Hc. by destruct (path_comps root).
Qed.

Definition down (root : string) (ns : list string) : string := foldl Join root ns.

Lemma down_comps root ns : root ≠ ""%string → Forall plain_name ns →
  path_comps (down root ns) = path_comps root ++ ns ∧ IsAbs (down root ns) = IsAbs root ∧ down root ns ≠ ""%string.
Proof.
  intros Hr Hns. unfold down. induction ns as [|n ns IH] using rev_ind; [by rewrite app_nil_r|].
  apply Forall_app in Hns as [Hns Hn]. inversion Hn; subst. destruct (IH Hns) as (Hc & Ha & Hne).
  rewrite foldl_app. cbn [foldl]. destruct (Join_down _ n Hne) as (Hc' & Ha' & _ & Hne'); [done|].
  by rewrite Hc', Ha', Hc, Ha, (assoc_L (++)).
Qed.

Lemma Rel_down root ns : root ≠ ""%string → Forall plain_name ns →
  Rel root (down root ns) = Some (if decide (ns = []) then "."%string else join_with slash ns).
Proof.
  intros Hr Hns. destruct (down_comps root ns Hr Hns) as (Hc & Ha & _). unfold Rel.
  destruct (Clean_comps root) as (Hcr & Har & _), (Clean_comps (down root ns)) as (Hcd & Had & _).
  destruct (String.eqb_spec (Clean (down root ns)) (Clean root)) as [E|E].
  - rewrite E, Hcr, Hc in Hcd. rewrite <- (app_nil_r (path_comps root)) in Hcd at 1. apply app_inv_head in Hcd. by subst.
  - rewrite Har, Had, Ha, Bool.eqb_reflx, Hcr, Hcd, Hc, strip_common_prefix. cbn. case_decide as Hn; [|done].
    subst. cbn in E. done.
Qed.

(** ** Resolving below a directory *)

(** Entries have names a file system can have, none with a backslash, and files
    have sizes Go can count. *)
Record portable (w : fs) : Prop := {
  pt_names k n nd : entries w !! (k ++ [n]) = Some nd → plain_name n ∧ has_byte backslash n = false;
  pt_root : entries w !! [] = None;
  pt_sizes ino : zlen (FileSystem.content (inode_at w ino)) ≤ int64_max;
}.

Lemma walk_down links s cur comps k n m t :
  walk links s true cur comps = Ok k → node_at s k = Some (NDir m t) → plain_name n →
  walk links s false cur (comps ++ [n]) = Ok (k ++ [n]).
Proof.
  intros Hw Hk [Hn _]. revert cur comps Hw. induction links as [|links IHl]; intros cur comps; revert cur;
    induction comps as [|c rest IH]; intros cur; try (intros [= <-]; by apply walk_last);
    cbn [walk app]; (destruct (String.eqb c ".."); [apply IH|]).
  - destruct (entries s !! (cur ++ [c])) as [[i|m' t'|tg]|] eqn:E, rest as [|r rest]; cbn [app]; try discriminate; try apply IH;
      intros Hw; injection Hw as <-; rewrite node_at_snoc, E in Hk; discriminate.
  - destruct (entries s !! (cur ++ [c])) as [[i|m' t'|tg]|] eqn:E, rest as [|r rest]; cbn [app]; try discriminate; try apply IH.
    + intros Hw. injection Hw as <-. rewrite node_at_snoc, E in Hk. discriminate.
    + intros Hw. apply (IHl _ _ Hw).
    + intros Hw. apply (IHl _ _) in Hw. rewrite <- (assoc_L (++)) in Hw. exact Hw.
    + intros Hw. injection Hw as <-. rewrite node_at_snoc, E in Hk. discriminate.
Qed.

Lemma lookup_follow w p k n : portable w →
  lookup_path w false p = Ok (k, n) → (∀ t, n ≠ NLink t) → lookup_path w true p = Ok (k, n).
Proof.
  intros Hp. unfold lookup_path, resolve. destruct (String.eqb p ""); [done|]. generalize max_links. intros links.
  destruct (walk links w false _ _) as [k0|e] eqn:Ew; cbn; [|discriminate]. intros Hk Hn.
  assert (Hnl : ∀ t, entries w !! k0 ≠ Some (NLink t)).
  { intros t Ht. destruct k0 as [|c k0]; [rewrite (pt_root _ Hp) in Ht; discriminate|]. cbn in Hk. rewrite Ht in Hk. injection Hk as _ <-. by apply (Hn t). }
  by rewrite (walk_follow _ _ _ _ _ Ew Hnl).
Qed.

(** A path that cleaning only tidies. *)
Definition tidy (p : string) : Prop := p ≠ ""%string ∧ name_comps p = path_comps p.

Lemma tidy_Join p n : tidy p → plain_name n → tidy (Join p n).
Proof. intros [Hp Hc] Hn. destruct (Join_down p n Hp Hn) as (H1 & _ & H3 & H4). split; [done|congruence]. Qed.

Lemma lookup_Join w p k m t n : tidy p → plain_name n →
  lookup_path w true p = Ok (k, NDir m t) → 
  lookup_path w false (Join p n) = match entries w !! (k ++ [n]) with Some nd => Ok (k ++ [n], nd) | None => Err ENOENT end.
Proof.
  intros [Hp Hc] Hn. unfold lookup_path, resolve. rewrite (proj2 (String.eqb_neq p "") Hp).
  generalize max_links. intros links.
  destruct (walk links w true _ _) as [k0|e] eqn:Ew; cbn; [|discriminate]. destruct (node_at w k0) as [nd|] eqn:Ek; [|discriminate].
  intros [= -> ->]. destruct (Join_down p n Hp Hn) as (_ & Ha & Hnc & Hne).
  rewrite (proj2 (String.eqb_neq _ "") Hne), Ha, Hnc, <- Hc, (walk_down _ _ _ _ k n m t Ew Ek Hn).
  cbn. rewrite node_at_snoc. by destruct (entries w !! (k ++ [n])).
Qed.

(** The children of a directory are its entries. *)
Lemma elem_of_children w k n nd : (n, nd) ∈ children w k ↔ entries w !! (k ++ [n]) = Some nd.
Proof.
  unfold children. rewrite elem_of_sort_stable, list_elem_of_omap. split.
  - intros ([k' nd'] & Hin%elem_of_map_to_list & He). cbn in He. destruct (rev k') as [|name up] eqn:Er; [done|].
    destruct (decide (rev up = k)) as [<-|]; [|done]. injection He as -> ->.
    apply (f_equal (@rev string)) in Er. rewrite rev_involutive in Er. by rewrite Er in Hin.
  - intros He. exists (k ++ [n], nd). split; [by apply elem_of_map_to_list|]. cbn. rewrite rev_app_distr. cbn. rewrite rev_involutive.
    by rewrite decide_True.
Qed.

Lemma children_NoDup w k : NoDup (fst <$> children w k).
Proof.
  unfold children. rewrite sort_stable_perm. pose proof (NoDup_fst_map_to_list (entries w)) as Hnd.
  revert Hnd. generalize (map_to_list (entries w)). intros l. induction l as [|[k' nd] l IH]; intros Hnd; [constructor|].
  cbn in Hnd. apply NoDup_cons in Hnd as [Hni Hnd]. cbn. specialize (IH Hnd).
  destruct (rev k') as [|name up] eqn:Er; [done|]. destruct (decide (rev up = k)) as [<-|]; [|done]. cbn. apply NoDup_cons. split; [|done].
  intros ([n' nd'] & E & Hin)%list_elem_of_fmap. cbn in E. subst n'. apply Hni.
  apply list_elem_of_omap in Hin as ([k2 nd2] & Hin & He). cbn in He. destruct (rev k2) as [|name2 up2] eqn:Er2; [done|].
  destruct (decide (rev up2 = rev up)) as [Eu|]; [|done]. injection He as -> ->.
  apply list_elem_of_fmap. exists (k2, nd'). split; [|done]. cbn. rewrite <- (rev_involutive k'), Er, <- (rev_involutive k2), Er2. cbn. by rewrite Eu.
Qed.

(** ** Manifests of named items *)

(** A name the receiver takes as it is. *)
Definition name_part (n : string) : Prop := plain_name n ∧ has_byte backslash n = false.
Definition name_of (parts : list string) : string := join_with slash parts.

Lemma has_byte_join c parts : c ≠ slash → Forall (fun p => has_byte c p = false) parts → has_byte c (join_with slash parts) = false.
Proof.
  intros Hc. induction 1 as [|p ps Hp Hps IH]; [done|]. destruct ps as [|q ps]; [done|].
  change (join_with slash (p :: q :: ps)) with (p +:+ String slash (join_with slash (q :: ps))).
  rewrite has_byte_app, Hp. cbn [has_byte orb]. rewrite IH. destruct (Ascii.eqb_spec slash c); [by subst|done].
Qed.

Lemma replace_byte_none a b s : has_byte a s = false → replace_byte a b s = s.
Proof. induction s as [|c s IH]; cbn; [done|]. destruct (Ascii.eqb c a); [done|]. intros ?. by rewrite IH. Qed.

Lemma name_parts_kept parts : Forall name_part parts → kept false parts.
Proof.
  intros Hp. induction parts as [|p parts IH] using rev_ind; [by constructor|].
  apply Forall_app in Hp as [Hps Hp]. inversion Hp as [|? ? [? _]]; subst. apply kept_snoc; [by apply IH|done].
Qed.

Lemma name_of_split parts : Forall name_part parts → parts ≠ [] → split_on slash (name_of parts) = parts.
Proof. intros Hp Hne. apply split_slash_join; [|done]. eapply Forall_impl; [exact Hp|]. by intros p [[_ ?] _]. Qed.

Lemma safeRelativePath_name parts : Forall name_part parts → parts ≠ [] → safeRelativePath (name_of parts) = Ok (name_of parts).
Proof.
  intros Hp Hne. unfold safeRelativePath.
  rewrite replace_byte_none by (apply has_byte_join; [done|]; eapply Forall_impl; [exact Hp|]; by intros p [_ ?]).
  destruct (kept_render _ _ (name_parts_kept parts Hp)) as (Hc & Ha & _).
  assert (Hr : render_path false parts = name_of parts).
  { unfold render_path. destruct parts as [|p ps]; [done|]. inversion Hp as [|? ? [[Hs _] _]]; subst.
    destruct (String.eqb_spec (join_with slash (p :: ps)) ""); [|done]. exfalso. revert e. apply join_with_nonempty. by intros ->. }
  rewrite Hr in Hc, Ha.
  assert (Hcl : Clean (name_of parts) = name_of parts) by by unfold Clean; rewrite Ha, Hc, Hr.
  rewrite Hcl, Ha. rewrite (name_of_split parts) by done.
  assert (Hbad : ∀ x, split_on slash x ≠ parts → (name_of parts =? x)%string = false)
    by (intros x Hx; apply String.eqb_neq; intros E; apply Hx; rewrite <- E; by apply name_of_split).
  inversion Hp as [|p ps [[Hs Hsl] _] Hps]; subst; [done|].
  rewrite !Hbad by (cbn; intros [= <- _]; done). cbn [orb fail_if mbind result_bind].
  assert (Hall : forallb safe_part (p :: ps) = true).
  { apply forallb_forall. intros q Hq. rewrite <- list_elem_of_In in Hq. rewrite Forall_forall in Hp. by apply Hp in Hq as [[? _] _]. }
  rewrite Hall. done.
Qed.

(** An item with the components of its name. *)
Definition named (x : list string * Item) : Prop :=
  fst x ≠ [] ∧ Forall name_part (fst x) ∧ Name (snd x) = name_of (fst x) ∧ ∀ i, check_item i (snd x) = Ok true.

Definition below_dirs (l : list (list string * Item)) : Prop :=
  ∀ p q a b, (p, a) ∈ l → (q, b) ∈ l → q ≠ p → q `prefix_of` p → Kind b = ItemDirectory.

Lemma name_of_inj p q : Forall name_part p → Forall name_part q → p ≠ [] → q ≠ [] → name_of p = name_of q → p = q.
Proof. intros Hp Hq Hnp Hnq E. by rewrite <- (name_of_split p), <- (name_of_split q), E. Qed.

Lemma check_items_named i l paths :
  Forall named l → NoDup (fst <$> l) → (∀ x, x ∈ l → paths !! name_of (fst x) = None) →
  ∃ paths', check_items i (snd <$> l) paths = Ok paths' ∧
    ∀ k kind, paths' !! k = Some kind → paths !! k = Some kind ∨ ∃ x, x ∈ l ∧ name_of (fst x) = k ∧ Kind (snd x) = kind.
Proof.
  revert i paths. induction l as [|[p it] l IH]; intros i paths Hn Hnd Hp; [exists paths; split; [done|by left]|].
  inversion Hn as [|? ? (Hne & Hparts & Hname & Hchk) Hn']; subst. cbn in Hne, Hparts, Hname, Hchk, Hnd. apply NoDup_cons in Hnd as [Hni Hnd].
  cbn [fmap list_fmap snd check_items]. rewrite Hchk. cbn. rewrite Hname, safeRelativePath_name by done. cbn.
  assert (Hfresh : paths !! name_of p = None) by (apply (Hp (p, it)); by left). rewrite Hfresh. cbn.
  destruct (IH (i + 1) (<[name_of p := Kind it]> paths) Hn' Hnd) as (paths' & Hc & Hin).
  { intros [q b] Hq. rewrite lookup_insert_ne; [apply (Hp (q, b)); by right|]. cbn. intros E. apply Hni.
    rewrite Forall_forall in Hn'. destruct (Hn' _ Hq) as (Hqne & Hqp & _). apply name_of_inj in E as ->; [|done..].
    apply list_elem_of_fmap. by exists (q, b). }
  exists paths'. split; [done|]. intros k kind [Hk|(x & Hx & ? & ?)]%Hin.
  - apply lookup_insert_Some in Hk as [[<- <-]|[_ ?]]; [|by left]. right. exists (p, it). split; [by left|done].
  - right. exists x. split; [by right|done].
Qed.

Lemma validate_named l : l ≠ [] → Forall named l → NoDup (fst <$> l) → below_dirs l →
  validateManifest (Some (NewManifest (snd <$> l))) = Ok tt.
Proof.
  intros Hne Hn Hnd Hb. unfold validateManifest. cbn [NewManifest MVersion Items]. rewrite Z.eqb_refl. cbn [negb fail_if mbind result_bind].
  replace (zlen (snd <$> l) =? 0) with false by (symmetry; apply Z.eqb_neq; unfold zlen; rewrite length_fmap; destruct l; cbn; [done|lia]).
  cbn [fail_if mbind result_bind]. destruct (check_items_named 0 l ∅ Hn Hnd) as (paths & Hc & Hin); [by intros ? _|].
  rewrite Hc. cbn. assert (Hsrc : ∀ k kind, paths !! k = Some kind → ∃ x, x ∈ l ∧ name_of (fst x) = k ∧ Kind (snd x) = kind)
    by (intros k kind [?|?]%Hin; done).
  assert (Hkeys : ∀ k, k ∈ (map_to_list paths).*1 → ∃ kind, paths !! k = Some kind).
  { intros k ([k' kind] & -> & Hk%elem_of_map_to_list)%list_elem_of_fmap. by exists kind. }
  revert Hkeys. generalize ((map_to_list paths).*1). intros keys. induction keys as [|k keys IH]; intros Hk; [done|].
  cbn [check_parents]. destruct (List.find (bad_parent paths) (proper_parents k)) as [parent|] eqn:Ef; [exfalso|apply IH; intros; apply Hk; by right].
  apply find_some in Ef as [Hpar Hbad]. unfold bad_parent in Hbad. destruct (paths !! parent) as [kind|] eqn:Ekp; [|done].
  destruct (Hk k ltac:(by left)) as [kk Hkk]. destruct (Hsrc _ _ Hkk) as ([p a] & Hpa & <- & _), (Hsrc _ _ Ekp) as ([q b] & Hqb & <- & <-).
  rewrite Forall_forall in Hn. destruct (Hn _ Hpa) as (Hpne & Hpp & _), (Hn _ Hqb) as (Hqne & Hqp & _). cbn [fst snd] in *.
  unfold proper_parents in Hpar. rewrite <- list_elem_of_In in Hpar. rewrite (name_of_split p) in Hpar by done.
  apply list_elem_of_fmap in Hpar as (n & Epar & Hlt%elem_of_seq).
  assert (Htake : Forall name_part (take (S n) p)) by by apply Forall_take.
  apply (name_of_inj q (take (S n) p)) in Epar as ->; [|done|done|done|by destruct p].
  rewrite (Hb p (take (S n) p) a b) in Hbad; [by vm_compute in Hbad|done|done| |].
  - intros E. apply (f_equal length) in E. rewrite length_take in E. lia.
  - exists (drop (S n) p). by rewrite take_drop.
Qed.

(** ** What a visit adds *)

Section walked.
Context `{CaseTables} `{Crypto} `{GitIgnore}.
Context (sha256_size : ∀ b, length (sha256 b) = 32%nat).

Lemma hex_encode_hex b : forall_bytes is_hex (hex_encode b) = true ∧ String.length (hex_encode b) = (2 * length b)%nat.
Proof.
  induction b as [|c b [IH1 IH2]]; [done|].
  change (hex_encode (c :: b)) with (String (hex_digit (N_of_ascii c / 16)) (String (hex_digit (N_of_ascii c mod 16)) (hex_encode b))).
  assert (Hd : is_hex (hex_digit (N_of_ascii c / 16)) = true ∧ is_hex (hex_digit (N_of_ascii c mod 16)) = true).
  { apply andb_true_iff. apply (ascii_forall (fun c => is_hex (hex_digit (N_of_ascii c / 16)) && is_hex (hex_digit (N_of_ascii c mod 16)))). by vm_compute. }
  destruct Hd as [Hx1 Hx2]. cbn [forall_bytes String.length length]. rewrite Hx1, Hx2, IH1, IH2. split; [done|lia].
Qed.

Lemma isHexSHA256_hex b : isHexSHA256 (hex_encode (sha256 b)) = true.
Proof.
  unfold isHexSHA256, str_len. destruct (hex_encode_hex (sha256 b)) as [Hh Hl]. rewrite Hl, sha256_size. cbn. exact Hh.
Qed.

(** The source of an entry is a regular file of the announced size. *)
Definition file_found (w : fs) (f : sendFileEntry) : Prop :=
  ∃ k ino, lookup_path w true (SPath f) = Ok (k, NFile ino) ∧ Size (SItem f) = zlen (FileSystem.content (inode_at w ino)).

Definition checked (it : Item) (name : string) : Prop := Name it = name ∧ ∀ i, name ≠ ""%string → check_item i it = Ok true.

Lemma makeSendFileEntry_ok w path name k ino info f :
  lookup_path w true path = Ok (k, NFile ino) → info = node_info w (NFile ino) →
  makeSendFileEntry w path name info = Ok f →
  file_found w f ∧ checked (SItem f) name ∧ Kind (SItem f) = ItemFile.
Proof.
  intros Hl -> Hm. unfold makeSendFileEntry in Hm. destruct (reads CHash _ w) as [h|e] eqn:Eh; [|done]. injection Hm as <-.
  assert (Hhex : ∃ b, h = hex_encode (sha256 b)).
  { unfold reads, fileSampleSHA256, mbind, io_bind, wrap_io, lift, fail_if_io in Eh.
    destruct (ReadFile path w) as [[data|e] w1]; [|done]. destruct (Stat path w1) as [[i|e] w2]; [|done].
    cbn in Eh. destruct (negb (is_regular i)); [done|]. cbn in Eh. unfold sampleSHA256 in Eh.
    destruct (fi_size i <? 0); [done|]. cbn in Eh. destruct (readSamples _ _ _) as [s|]; [|done]. injection Eh as <-. by exists s. }
  destruct Hhex as [b ->]. split; [by exists k, ino|]. split; [|done]. split; [done|]. intros i Hne. unfold check_item. cbn -[isHexSHA256].
  rewrite (proj2 (String.eqb_neq name "") Hne), isHexSHA256_hex. cbn.
  replace (Z.of_nat (length (FileSystem.content (inode_at w ino))) <? 0) with false by (symmetry; apply Z.ltb_ge; lia).
  cbn. by rewrite andb_false_r.
Qed.

Lemma makeDirectoryItem_ok name info : checked (makeDirectoryItem name info) name ∧ Kind (makeDirectoryItem name info) = ItemDirectory.
Proof. split; [|done]. split; [done|]. intros i Hne. unfold check_item. cbn. by rewrite (proj2 (String.eqb_neq name "") Hne). Qed.

Lemma makeSymlinkItem_ok w path name info it :
  makeSymlinkItem w path name info = Ok it → checked it name ∧ Kind it = ItemSymlink ∧ Size it = 0.
Proof.
  unfold makeSymlinkItem. destruct (reads CFS _ w) as [t|e]; [|done]. cbn.
  destruct (validateSafeSymlinkTarget name t) as [[]|e] eqn:Ev; [|done]. intros [= <-]. split; [|done]. split; [done|].
  intros i Hne. unfold check_item. cbn -[validateSafeSymlinkTarget]. rewrite (proj2 (String.eqb_neq name "") Hne). cbn -[validateSafeSymlinkTarget]. by rewrite Ev.
Qed.

(** A visit leaves the collection as it is, or adds an item under its name. *)
Inductive visits (w : fs) (name : string) (d : bool) (st : collected) : collected → bool → Prop :=
  | visit_ignored : visits w name d st (add_ignored st) d
  | visit_nothing : d = false → visits w name d st st false
  | visit_directory it : d = true → checked it name → Kind it = ItemDirectory → Size it = 0 → visits w name d st (add_item st it) false
  | visit_link it : d = false → checked it name → Kind it = ItemSymlink → Size it = 0 → visits w name d st (add_item st it) false
  | visit_file f : d = false → checked (SItem f) name → file_found w f → Kind (SItem f) = ItemFile → visits w name d st (add_file st f) false.

Definition entry_name (rootName rel : string) : string := if String.eqb rel "." then rootName else Join rootName rel.

Lemma visit_entry_visits w symlinks rules walkRoot rootName p rel k n st st' skip :
  portable w → Rel walkRoot p = Some rel → lookup_path w false p = Ok (k, n) →
  visit_entry w symlinks rules walkRoot rootName p (is_dir_node n) st = Ok (st', skip) →
  visits w (entry_name rootName rel) (is_dir_node n) st st' skip.
Proof using sha256_size.
  intros Hport Hrel Hl Hv. unfold visit_entry in Hv. rewrite Hrel in Hv. cbn in Hv. fold (entry_name rootName rel) in Hv.
  destruct (Ignored rules rel (is_dir_node n)); [injection Hv as <- <-; constructor|].
  unfold reads, Lstat, Stat, stat_with in Hv. cbv beta in Hv. rewrite Hl in Hv. cbn [fst snd fmap result_fmap wrap_err mbind result_bind] in Hv.
  destruct n as [ino|m t|target]; cbn [is_dir_node] in Hv |- *.
  - change (is_symlink (node_info w (NFile ino))) with false in Hv. change (is_regular (node_info w (NFile ino))) with true in Hv. cbn [negb] in Hv. cbv iota in Hv.
    destruct (makeSendFileEntry _ _ _ _) as [f|e] eqn:Em; [|done]. cbn in Hv. injection Hv as <- <-.
    eapply makeSendFileEntry_ok in Em as (? & ? & ?); [|by eapply lookup_follow|done]. by constructor.
  - change (is_symlink (node_info w (NDir m t))) with false in Hv. injection Hv as <- <-.
    destruct (makeDirectoryItem_ok (entry_name rootName rel) (MkInfo Directory 0 m t)). by constructor.
  - change (is_symlink (node_info w (NLink target))) with true in Hv. cbv iota in Hv. destruct (String.eqb symlinks SymlinkPreserve).
    + destruct (makeSymlinkItem _ _ _ _) as [it|e] eqn:Em; [|done]. injection Hv as <- <-.
      apply makeSymlinkItem_ok in Em as (? & ? & ?). by constructor.
    + destruct (lookup_path w true p) as [[k' n']|e] eqn:Eft; [|done].
      cbn [fst snd fmap result_fmap wrap_err mbind result_bind] in Hv. destruct n' as [ino|m t|tg].
      * change (is_regular (node_info w (NFile ino))) with true in Hv. cbv iota in Hv.
        destruct (makeSendFileEntry _ _ _ _) as [f|e] eqn:Em; [|done]. injection Hv as <- <-.
        eapply makeSendFileEntry_ok in Em as (? & ? & ?); [|done|done]. by constructor.
      * injection Hv as <- <-. by constructor.
      * injection Hv as <- <-. by constructor.
Qed.

(** ** The items of a walk form a tree *)

Lemma entry_name_down rootName ns :
  name_part rootName → Forall name_part ns →
  entry_name rootName (if decide (ns = []) then "." else join_with slash ns) = name_of (rootName :: ns).
Proof.
  intros Hr Hns. unfold entry_name. destruct (decide (ns = [])) as [->|Hne]; [done|].
  assert (Hdot : join_with slash ns ≠ "."%string).
  { intros E. assert (Hs : split_on slash (join_with slash ns) = split_on slash ".") by by rewrite E.
    change (split_on slash (name_of ns) = ["."%string]) in Hs. rewrite (name_of_split ns) in Hs by done. subst. inversion Hns as [|? ? [[Hs _] _]]. done. }
  rewrite (proj2 (String.eqb_neq _ ".") Hdot). pose proof Hr as [[Hsafe Hslash] _].
  unfold Join. assert (rootName ≠ ""%string) by by intros ->. rewrite (proj2 (String.eqb_neq rootName "")) by done. cbn [negb]. cbv iota.
  assert (Hcat : rootName +:+ String slash (join_with slash ns) = name_of (rootName :: ns)) by by destruct ns.
  rewrite Hcat. assert (Hall : Forall name_part (rootName :: ns)) by by constructor.
  destruct (kept_render _ _ (name_parts_kept _ Hall)) as (Hc & Ha & _).
  assert (Hren : render_path false (rootName :: ns) = name_of (rootName :: ns)).
  { unfold render_path. destruct (String.eqb_spec (join_with slash (rootName :: ns)) ""); [|done]. by apply join_with_nonempty in e. }
  rewrite Hren in Hc, Ha. unfold Clean. by rewrite Ha, Hc, Hren.
Qed.

Definition items_of (st : collected) : list Item := snd (fst st).
Definition files_of (st : collected) : list sendFileEntry := fst (fst st).

(** What a walk from [base] adds to the items. *)
Record grows (base : list string) (ok : list string → Prop) (st st' : collected) (l : list (list string * Item)) : Prop := {
  gr_items : items_of st' = items_of st ++ (snd <$> l);
  gr_named : Forall named l;
  gr_nodup : NoDup (fst <$> l);
  gr_tree : below_dirs l;
  gr_below x : x ∈ l → ∃ more, fst x = base ++ more ∧ ok more;
}.

Lemma visits_grows w rootName ns d st st' skip :
  name_part rootName → Forall name_part ns → visits w (name_of (rootName :: ns)) d st st' skip →
  ∃ l, grows (rootName :: ns) (fun more => more = []) st st' l ∧
    (skip = false → d = true → ∃ it, l = [(rootName :: ns, it)] ∧ Kind it = ItemDirectory).
Proof.
  intros Hr Hns Hv. assert (Hall : Forall name_part (rootName :: ns)) by by constructor.
  assert (Hne : name_of (rootName :: ns) ≠ ""%string) by (apply join_with_nonempty; destruct Hr as [[? _] _]; by intros ->).
  assert (Hnone : ∀ st', items_of st' = items_of st → grows (rootName :: ns) (fun more => more = []) st st' []).
  { intros s E. constructor; cbn; [by rewrite app_nil_r|constructor|constructor|intros ? ? ? ? Hin; by apply not_elem_of_nil in Hin|intros ? Hin; by apply not_elem_of_nil in Hin]. }
  assert (Hone : ∀ it st', items_of st' = items_of st ++ [it] → checked it (name_of (rootName :: ns)) →
            grows (rootName :: ns) (fun more => more = []) st st' [(rootName :: ns, it)]).
  { intros it s E [Hn Hc]. constructor; cbn.
    - done.
    - apply Forall_singleton. split; [done|]. split; [done|]. split; [done|]. intros i. by apply Hc.
    - apply NoDup_singleton.
    - intros p q a b [= -> ->]%list_elem_of_singleton [= -> ->]%list_elem_of_singleton. done.
    - intros x ->%list_elem_of_singleton. exists []. by rewrite app_nil_r. }
  destruct st as [[files items] ignored]. destruct Hv as [|Hd|it Hd Hc Hk Hs|it Hd Hc Hk Hs|f Hd Hc Hf].
  - exists []. split; [by apply Hnone|]. by intros -> .
  - exists []. split; [by apply Hnone|]. by rewrite Hd.
  - exists [(rootName :: ns, it)]. split; [by apply Hone|]. intros _ _. by exists it.
  - exists [(rootName :: ns, it)]. split; [by apply Hone|]. by rewrite Hd.
  - exists [(rootName :: ns, SItem f)]. split; [by apply Hone|]. by rewrite Hd.
Qed.

(** Two walks one after the other. *)
Lemma grows_app base (P Q : list string → Prop) st1 st2 st3 l1 l2 :
  grows base P st1 st2 l1 → grows base Q st2 st3 l2 →
  (∀ p q, P p → Q q → p ≠ q ∧ ¬ q `prefix_of` p ∧ (p `prefix_of` q → ∀ a, (base ++ p, a) ∈ l1 → Kind a = ItemDirectory)) →
  grows base (fun more => P more ∨ Q more) st1 st3 (l1 ++ l2).
Proof.
  intros [Hi1 Hn1 Hd1 Ht1 Hb1] [Hi2 Hn2 Hd2 Ht2 Hb2] Hsep. constructor.
  - rewrite Hi2, Hi1, <- (assoc_L (++)), fmap_app. done.
  - by apply Forall_app.
  - rewrite fmap_app. apply NoDup_app. split; [done|]. split; [|done].
    intros p (x & -> & Hx)%list_elem_of_fmap (y & E & Hy)%list_elem_of_fmap.
    destruct (Hb1 _ Hx) as (m1 & E1 & Hm1), (Hb2 _ Hy) as (m2 & E2 & Hm2). rewrite E1, E2 in E. apply app_inv_head in E.
    by destruct (Hsep m1 m2 Hm1 Hm2) as [? _].
  - intros p q a b [Hp|Hp]%elem_of_app [Hq|Hq]%elem_of_app Hne Hpre.
    + exact (Ht1 p q a b Hp Hq Hne Hpre).
    + exfalso. destruct (Hb1 _ Hp) as (m1 & E1 & Hm1), (Hb2 _ Hq) as (m2 & E2 & Hm2). cbn in *. subst.
      destruct (Hsep m1 m2 Hm1 Hm2) as (_ & Hnp & _). apply Hnp. by eapply prefix_app_inv.
    + destruct (Hb1 _ Hq) as (m1 & E1 & Hm1), (Hb2 _ Hp) as (m2 & E2 & Hm2). cbn in *. subst.
      destruct (Hsep m1 m2 Hm1 Hm2) as (_ & _ & Hd). eapply Hd; [|done]. by eapply prefix_app_inv.
    + exact (Ht2 p q a b Hp Hq Hne Hpre).
  - intros x [Hx|Hx]%elem_of_app.
    + destruct (Hb1 _ Hx) as (m & ? & ?). exists m. auto.
    + destruct (Hb2 _ Hx) as (m & ? & ?). exists m. auto.
Qed.

Lemma grows_weaken base (P Q : list string → Prop) st st' l : (∀ m, P m → Q m) → grows base P st st' l → grows base Q st st' l.
Proof. intros Hpq [Hi Hn Hd Ht Hb]. constructor; try done. intros x Hx. destruct (Hb x Hx) as (m & ? & ?). exists m. auto. Qed.

Lemma grows_child base n st st' l : grows (base ++ [n]) (fun _ => True) st st' l → grows base (fun more => ∃ rest, more = n :: rest) st st' l.
Proof.
  intros [Hi Hn Hd Ht Hb]. constructor; try done. intros x Hx. destruct (Hb x Hx) as (m & E & _). exists (n :: m).
  rewrite E, <- (assoc_L (++)). split; [done|by exists m].
Qed.

Section one_walk.
Context (w : fs) (symlinks : SymlinkMode) (rules : option (list string)) (walkRoot rootName : string).
Context (P : collected → Prop) (HP : ∀ name d st st' skip, visits w name d st st' skip → P st → P st').
Context (Hport : portable w) (Htidy : tidy walkRoot) (Hroot : name_part rootName).

Definition the_visit := visit_entry w symlinks rules walkRoot rootName.

Lemma down_snoc ns n : Join (down walkRoot ns) n = down walkRoot (ns ++ [n]).
Proof. unfold down. by rewrite foldl_app. Qed.

Lemma parts_plain ns : Forall name_part ns → Forall plain_name ns.
Proof. intros Hns. eapply Forall_impl; [exact Hns|]. by intros n [? _]. Qed.

Lemma tidy_down ns : Forall name_part ns → tidy (down walkRoot ns).
Proof using Htidy.
  induction ns as [|n ns IH] using rev_ind; [done|]. intros [Hns Hn]%Forall_app. inversion Hn as [|? ? [? _]]; subst.
  rewrite <- down_snoc. apply tidy_Join; [by apply IH|done].
Qed.

(** The children of a directory, each walked with [go]. *)
Fixpoint walk_children (fuel : nat) (path : string) (names : list (string * node)) (st : collected) : result collect_error collected :=
  match names with
  | [] => Ok st
  | (name, n) :: names => st ← walkDir the_visit fuel w (Join path name) (is_dir_node n) st; walk_children fuel path names st
  end.

Lemma walkDir_unfold fuel path d st :
  walkDir the_visit (S fuel) w path d st =
    ('(st, skip) ← the_visit path d st;
     if skip || negb d then Ok st else names ← wrap_err CFS (ReadDir w path); walk_children fuel path names st).
Proof.
  cbn [walkDir]. destruct (the_visit path d st) as [[st1 skip]|e]; [|done]. cbn [mbind result_bind].
  destruct (skip || negb d); [done|]. destruct (wrap_err CFS (ReadDir w path)) as [names|e]; [|done]. cbn [mbind result_bind].
  revert st1. induction names as [|[name n] names IH]; intros st1; [done|]. cbn [walk_children].
  destruct (walkDir the_visit fuel w (Join path name) (is_dir_node n) st1); [|done]. cbn [mbind result_bind]. apply IH.
Qed.

Lemma lookup_true_dir p k m t : lookup_path w false p = Ok (k, NDir m t) → lookup_path w true p = Ok (k, NDir m t).
Proof using Hport. intros Hl. by apply lookup_follow. Qed.

Lemma walk_grows fuel ns k n st st' :
  Forall name_part ns → lookup_path w false (down walkRoot ns) = Ok (k, n) →
  walkDir the_visit fuel w (down walkRoot ns) (is_dir_node n) st = Ok st' →
  ∃ l, grows (rootName :: ns) (fun _ => True) st st' l ∧ (P st → P st').
Proof using All.
  revert ns k n st st'. induction fuel as [|fuel IH]; intros ns k n st st' Hns Hl Hw; [done|].
  rewrite walkDir_unfold in Hw. destruct (the_visit _ _ st) as [[st1 skip]|e] eqn:Ev; [|done]. cbn [mbind result_bind] in Hw.
  pose proof (Rel_down walkRoot ns (proj1 Htidy) (parts_plain _ Hns)) as Hrel.
  eapply (visit_entry_visits w symlinks rules walkRoot rootName _ _ k n) in Ev; [|done|exact Hrel|done].
  rewrite entry_name_down in Ev by done. pose proof (HP _ _ _ _ _ Ev) as HP1. apply visits_grows in Ev as (l1 & Hg1 & Hdir); [|done|done].
  destruct (skip || negb (is_dir_node n)) eqn:Eskip.
  { injection Hw as <-. exists l1. split; [by eapply grows_weaken|done]. }
  apply orb_false_iff in Eskip as [-> Hd]. destruct n as [|m t|]; try done. cbn in Hdir. destruct (Hdir eq_refl eq_refl) as (it & -> & Hkind).
  unfold ReadDir in Hw. rewrite (lookup_true_dir _ _ _ _ Hl) in Hw. cbn [wrap_err mbind result_bind] in Hw.
  pose proof (children_NoDup w k) as Hcnd. assert (Hcin : ∀ x nd, (x, nd) ∈ children w k → entries w !! (k ++ [x]) = Some nd) by (intros x nd; by rewrite elem_of_children).
  assert (Hkids : ∃ l2, grows (rootName :: ns) (fun more => ∃ x rest, more = x :: rest ∧ x ∈ (children w k).*1) st1 st' l2 ∧ (P st1 → P st')).
  { clear HP1. revert Hw Hcnd Hcin. generalize (children w k). clear Hg1 Hdir st. intros names. revert st1.
    induction names as [|[x nd] names IHn]; intros st1 Hw Hcnd Hcin; cbn [walk_children] in Hw.
    { injection Hw as <-. exists []. split; [|done]. constructor; cbn; [by rewrite app_nil_r|constructor|constructor|intros ? ? ? ? Hin; by apply not_elem_of_nil in Hin|intros ? Hin; by apply not_elem_of_nil in Hin]. }
    destruct (walkDir _ _ _ _ _ st1) as [st2|e] eqn:Ew; [|done]. cbn [mbind result_bind] in Hw. cbn in Hcnd. apply NoDup_cons in Hcnd as [Hni Hcnd].
    pose proof (Hcin x nd ltac:(by left)) as Hx. destruct (pt_names _ Hport _ _ _ Hx) as [Hplain Hbs].
    rewrite down_snoc in Ew. eapply IH in Ew as (l1 & Hl1 & HPa); [|apply Forall_app; split; [done|by apply Forall_singleton]|].
    2:{ rewrite <- down_snoc. rewrite (lookup_Join w _ k m t x (tidy_down _ Hns) Hplain (lookup_true_dir _ _ _ _ Hl)). by rewrite Hx. }
    destruct (IHn st2 Hw Hcnd) as (l2 & Hl2 & HPb); [intros; apply Hcin; by right|].
    exists (l1 ++ l2). split; [|auto]. change (rootName :: ns ++ [x]) with ((rootName :: ns) ++ [x]) in Hl1. apply grows_child in Hl1.
    eapply grows_weaken; [|eapply (grows_app _ _ _ _ _ _ _ _ Hl1 Hl2)].
    - intros more [(rest & ->)|(y & rest & -> & Hy)]; [exists x, rest|exists y, rest]; (split; [done|]); [by left|by right].
    - intros p q (r1 & ->) (y & r2 & -> & Hy). assert (x ≠ y) by (intros ->; by apply Hni).
      split; [congruence|]. split; [intros Hp%prefix_cons_inv_1; congruence|]. intros Hp%prefix_cons_inv_1. congruence. }
  destruct Hkids as (l2 & Hl2 & HP2). exists ([(rootName :: ns, it)] ++ l2). split; [|auto]. eapply grows_weaken; [|eapply (grows_app _ _ _ _ _ _ _ _ Hg1 Hl2)]; [done|].
  intros p q -> (x & rest & -> & _). split; [done|]. split; [by intros ?%prefix_nil_inv|].
  intros _ a [= _ ->]%list_elem_of_singleton. done.
Qed.
End one_walk.

(** The files of a collection are sources of its items, one each; the other
    items have no content. *)
Record files_ok (w : fs) (st : collected) : Prop := {
  fo_files : Forall (fun f => zlookup (items_of st) (SItemID f) = Some (SItem f) ∧ file_found w f) (files_of st);
  fo_nodup : NoDup (SItemID <$> files_of st);
  fo_kinds : Forall (fun f => Kind (SItem f) = ItemFile) (files_of st);
  fo_rest i it : zlookup (items_of st) i = Some it → i ∉ SItemID <$> files_of st → Size it = 0 ∧ Kind it ≠ ItemFile;
}.

Lemma zlookup_snoc {A} (l : list A) x i : zlookup (l ++ [x]) i = if decide (i = zlen l) then Some x else zlookup l i.
Proof.
  unfold zlookup, zlen. destruct (i <? 0) eqn:E; bool_prop; [by rewrite decide_False by lia|].
  case_decide as Hi; [subst; by rewrite Nat2Z.id, list_lookup_middle|].
  destruct (decide (Z.to_nat i < length l)%nat); [by rewrite lookup_app_l|]. rewrite lookup_app_r by lia.
  rewrite (lookup_ge_None_2 l) by lia. destruct (Z.to_nat i - length l)%nat eqn:En; [lia|done].
Qed.

Lemma visits_files w name d st st' skip : visits w name d st st' skip → files_ok w st → files_ok w st'.
Proof.
  destruct st as [[files items] ignored]. intros Hv [Hf Hn Hkf Hr]. unfold items_of, files_of in *; cbn in *.
  assert (Hlt : ∀ f, f ∈ files → SItemID f ≠ zlen items).
  { intros f Hin. rewrite Forall_forall in Hf. destruct (Hf f Hin) as [Hl _]. apply zlookup_Some in Hl. lia. }
  destruct Hv as [|Hd|it Hd Hc Hk Hs|it Hd Hc Hk Hs|f Hd Hc Hff Hk]; try done.
  1,2: constructor; unfold items_of, files_of; cbn; [|done|done|].
  1,3: (eapply Forall_impl; [exact Hf|]; intros f [Hl ?]; split; [|done]; rewrite zlookup_snoc; case_decide as E; [|done]; apply zlookup_Some in Hl; lia).
  1,2: (intros i it'; rewrite zlookup_snoc; case_decide; [intros [= <-] _; by rewrite Hs, Hk|apply Hr]).
  constructor; unfold items_of, files_of; cbn.
  - apply Forall_app. split.
    + rewrite Forall_forall in Hf |- *. intros g Hg. destruct (Hf g Hg). split; [|done]. rewrite zlookup_snoc, decide_False; [done|by apply Hlt].
    + apply Forall_singleton. cbn. split; [by rewrite zlookup_snoc, decide_True|done].
  - rewrite fmap_app. cbn. apply NoDup_app. split; [done|]. split; [|apply NoDup_singleton].
    intros i (g & -> & Hg)%list_elem_of_fmap E%list_elem_of_singleton. by apply (Hlt g).
  - apply Forall_app. split; [done|]. by apply Forall_singleton.
  - intros i it'. rewrite zlookup_snoc, fmap_app, not_elem_of_app. cbn. case_decide as E.
    + intros _ [_ Hne]. exfalso. apply Hne. rewrite E. by left.
    + intros Hi [Hni _]. by eapply Hr.
Qed.

(** ** The whole preparation *)

Lemma tidy_Clean p : tidy (Clean p).
Proof.
  destruct (Clean_comps p) as (Hc & Ha & Hn). split; [|congruence]. unfold Clean, render_path.
  destruct (IsAbs p); [done|]. case_if; [done|]. by apply String.eqb_neq.
Qed.

Lemma walkSymlinks_tidy links w rooted dest comps p : walkSymlinks links w rooted dest comps = Ok p → tidy p.
Proof.
  revert rooted dest comps. induction links as [|links IHl]; intros rooted dest comps; revert dest;
    induction comps as [|c rest IH]; intros dest; cbn [walkSymlinks]; try (intros [= <-]; apply tidy_Clean).
  all: destruct (String.eqb c ".."); [destruct dest as [|? [|? ?]]; [apply IH|apply IH|destruct (String.eqb _ _); apply IH]|].
  all: destruct (reads CFS (Lstat _) w) as [info|e]; [cbn [mbind result_bind]|discriminate].
  all: destruct (negb (is_symlink info)); [destruct (_ && _); [discriminate|apply IH]|].
  - discriminate.
  - destruct (reads CFS (Readlink _) w) as [t|e]; [cbn [mbind result_bind]|discriminate]. destruct (IsAbs t); apply IHl.
Qed.

Lemma EvalSymlinks_tidy w p q : EvalSymlinks w p = Ok q → tidy q.
Proof. unfold EvalSymlinks. apply walkSymlinks_tidy. Qed.

Lemma empty_files_ok w : files_ok w ([], [], 0).
Proof. constructor; unfold items_of, files_of; cbn; [constructor|constructor|constructor|]. intros i it Hi. apply zlookup_Some in Hi. unfold zlen in Hi. cbn in Hi. lia. Qed.

Definition accepted_items (st : collected) : Prop :=
  ∃ l, items_of st = snd <$> l ∧ Forall named l ∧ NoDup (fst <$> l) ∧ below_dirs l.

Lemma single_accepted w name it st :
  name_part name → visits w name false ([], [], 0) st false → items_of st = [it] → accepted_items st ∧ files_ok w st.
Proof.
  intros Hn Hv Hi. split; [|by eapply visits_files; [exact Hv|apply empty_files_ok]].
  assert (Hv' : visits w (name_of [name]) false ([], [], 0) st false) by done.
  apply (visits_grows w name []) in Hv' as (l & [Hg Hnm Hnd Ht _] & _); [|done|done]. by exists l.
Qed.

Lemma reads_stat b p w : reads CFS (stat_with b p) w =
  match lookup_path w b p with Ok kn => Ok (node_info w (snd kn)) | Err e => Err (CFS e) end.
Proof. unfold reads, stat_with. cbn [fst]. by destruct (lookup_path w b p). Qed.

Lemma single_file_ok w path name info f :
  name_part name → reads CFS (Stat path) w = Ok info → is_regular info = true → makeSendFileEntry w path name info = Ok f →
  accepted_items ([f], [SItem f], 0) ∧ files_ok w ([f], [SItem f], 0).
Proof using sha256_size.
  intros Hn Hs Hr Hm. unfold Stat in Hs. rewrite reads_stat in Hs. destruct (lookup_path w true path) as [[k n]|e] eqn:El; [|discriminate].
  injection Hs as <-. destruct n as [ino|m t|tg]; [|discriminate|discriminate].
  assert (Hid : SItemID f = 0) by (unfold makeSendFileEntry in Hm; destruct (reads CHash _ w); [by injection Hm as <-|discriminate]).
  eapply makeSendFileEntry_ok in Hm as (Hf & Hc & Hk); [|exact El|reflexivity].
  apply (single_accepted w name (SItem f) ([f], [SItem f], 0)); [done| |done].
  replace ([f], [SItem f], 0) with (add_file ([], [], 0) f) by (unfold add_file; cbn; destruct f; cbn in *; by subst). by apply visit_file.
Qed.

Lemma walked_ok w symlinks rules walkRoot rootName st :
  portable w → tidy walkRoot → name_part rootName →
  WalkDir (visit_entry w symlinks rules walkRoot rootName) w walkRoot ([], [], 0) = Ok st → accepted_items st ∧ files_ok w st.
Proof using All.
  intros Hport Hroot Hn Hc. unfold WalkDir, Lstat in Hc. rewrite reads_stat in Hc.
  destruct (lookup_path w false walkRoot) as [[k n]|e] eqn:Elk; [|discriminate]. cbn [mbind result_bind snd] in Hc.
  replace (is_dir (node_info w n)) with (is_dir_node n) in Hc by by destruct n.
  destruct (walk_grows w symlinks rules walkRoot rootName (files_ok w) (visits_files w) Hport Hroot Hn (walk_fuel w) [] k n ([], [], 0) st
    (Forall_nil_2 _) Elk Hc) as (l & [Hg Hnm Hnd Ht _] & Hf).
  split; [by exists l|]. apply Hf, empty_files_ok.
Qed.

Lemma collect_ok w path symlinks useGitIgnore st :
  portable w → tidy path → name_part (Base path) → name_part (Base (Clean path)) →
  collectSendItems w path symlinks useGitIgnore = Ok st → accepted_items st ∧ files_ok w st.
Proof using All.
  intros Hport Htidy Hb Hbc Hc. unfold collectSendItems in Hc.
  destruct (reads CFS (Lstat path) w) as [linkInfo|e] eqn:El; [|discriminate]. cbn [mbind result_bind] in Hc.
  destruct (is_symlink linkInfo && String.eqb symlinks SymlinkPreserve).
  { destruct (makeSymlinkItem _ _ _ _) as [it|e] eqn:Em; [|discriminate]. injection Hc as <-.
    apply makeSymlinkItem_ok in Em as (? & ? & ?). apply (single_accepted w (Base path) it ([], [it], 0)); [done| |done].
    by apply (visit_link w _ _ ([], [], 0) it). }
  destruct (reads CFS (Stat path) w) as [info|e] eqn:Es; [|discriminate]. cbn [mbind result_bind] in Hc.
  destruct (negb (is_dir info)).
  { destruct (is_regular info) eqn:Er; [|discriminate]. cbn [negb fail_if mbind result_bind] in Hc.
    destruct (makeSendFileEntry _ _ _ _) as [f|e] eqn:Em; [|discriminate]. injection Hc as <-. exact (single_file_ok w path (Base path) info f Hb Es Er Em). }
  destruct (if is_symlink linkInfo then EvalSymlinks w path else Ok path) as [walkRoot|e] eqn:Ew; [|discriminate]. cbn [mbind result_bind] in Hc.
  destruct (if useGitIgnore then _ else _) as [rules|e]; [|discriminate]. cbn [mbind result_bind] in Hc.
  eapply walked_ok in Hc; [done|done| |done].
  destruct (is_symlink linkInfo); [exact (EvalSymlinks_tidy _ _ _ Ew)|by injection Ew as <-].
Qed.
End walked.

Lemma files_ok_ids w st i it :
  files_ok w st → zlookup (items_of st) i = Some it →
  (Kind it = ItemFile ↔ i ∈ SItemID <$> files_of st) ∧ (Kind it ≠ ItemFile → Size it = 0).
Proof.
  intros [Hf _ Hk Hr] Hi. destruct (decide (i ∈ SItemID <$> files_of st)) as [Hin|Hni].
  - pose proof Hin as (f & -> & Hff)%list_elem_of_fmap. rewrite Forall_forall in Hf, Hk.
    destruct (Hf f Hff) as [Hl _]. rewrite Hl in Hi. injection Hi as <-. by rewrite (Hk f Hff).
  - destruct (Hr i it Hi Hni). done.
Qed.

(** C16: what [PreparePath] collects the receiver accepts and the sending loop
    can send.  The conditions: no name of the file system has a backslash, no
    file is larger than an int64, the path is tidy (not empty, and cleaning it
    cancels no name against a ".."), and its last component is a safe name, which
    "." is not.  Then
    the manifest of the items passes the receiver's validation; every source is
    for the item under its id and is a regular file of the announced size; the
    ids are distinct, and are those of the items that are files; every other item
    has no content. *)
Theorem PreparePath_sound `{CaseTables} `{Crypto} `{GitIgnore} w path opts p :
  (∀ b, length (sha256 b) = 32%nat) → portable w → tidy path → name_part (Base path) → name_part (Base (Clean path)) →
  PreparePathWithOptions w path opts = Ok p →
  validateManifest (Some (NewManifest (pitems p))) = Ok tt ∧
  Forall (fun f => zlookup (pitems p) (SItemID f) = Some (SItem f) ∧ file_found w f) (pfiles p) ∧
  NoDup (SItemID <$> pfiles p) ∧
  ∀ i it, zlookup (pitems p) i = Some it →
    (Kind it = ItemFile ↔ i ∈ SItemID <$> pfiles p) ∧ (Kind it ≠ ItemFile → Size it = 0).
Proof.
  intros Hsha Hport Htidy Hb Hbc Hp. unfold PreparePathWithOptions in Hp.
  destruct (ParseSymlinkMode (Symlinks opts)) as [mode|e]; [|done]. cbn [mbind result_bind] in Hp.
  destruct (collectSendItems w path mode _) as [[[files items] ignored]|e] eqn:Ec; [|done]. cbn [mbind result_bind] in Hp.
  destruct (zlen items =? 0) eqn:Ez; [done|]. injection Hp as <-.
  apply (collect_ok Hsha) in Ec as [(l & Hi & Hn & Hnd & Ht) Hok]; [|done..].
  pose proof Hok as [Hf1 Hf2 _ _]. pose proof (fun i it => files_ok_ids w _ i it Hok) as Hids.
  cbn [pitems pfiles]. unfold items_of, files_of in *. cbn [fst snd] in *. split; [|done].
  rewrite Hi. apply validate_named; [|done..]. intros ->. cbn in Hi. by rewrite Hi in Ez.
Qed.

(** ** The walk ends *)

Definition depth (w : fs) : nat := foldr Nat.max 0%nat ((fun x => length (fst x)) <$> map_to_list (entries w)).

Lemma entries_depth w k n : entries w !! k = Some n → (length k ≤ depth w)%nat.
Proof.
  unfold depth. intros Hk%elem_of_map_to_list. revert Hk. generalize (map_to_list (entries w)). intros l.
  induction l as [|[k' n'] l IH]; [by intros ?%not_elem_of_nil|]. cbn. intros [[= -> ->]|Hin]%elem_of_cons; [lia|]. specialize (IH Hin). lia.
Qed.

Lemma node_at_depth w k n : node_at w k = Some n → (length k ≤ depth w)%nat.
Proof. destruct k as [|c k]; [cbn; lia|]. apply entries_depth. Qed.

Section ends.
Context `{CaseTables} `{Crypto} `{GitIgnore}.

Lemma reads_fuel {E A} (f : E → collect_error) (m : io E A) w : (∀ e, f e ≠ COutOfFuel) → reads f m w ≠ Err COutOfFuel.
Proof. intros Hf. unfold reads. destruct (fst (m w)) as [a|e]; cbn; [done|]. intros [= Hx]. by apply (Hf e). Qed.

Lemma bind_fuel {A B} (m : result collect_error A) (k : A → result collect_error B) :
  m ≠ Err COutOfFuel → (∀ a, m = Ok a → k a ≠ Err COutOfFuel) → (m ≫= k) ≠ Err COutOfFuel.
Proof. destruct m as [a|e]; cbn; [|congruence]. intros _ Hk. by apply Hk. Qed.

Lemma makeSendFileEntry_fuel w path name info : makeSendFileEntry w path name info ≠ Err COutOfFuel.
Proof. unfold makeSendFileEntry. apply bind_fuel; [by apply reads_fuel|done]. Qed.

Lemma makeSymlinkItem_fuel w path name info : makeSymlinkItem w path name info ≠ Err COutOfFuel.
Proof.
  unfold makeSymlinkItem. apply bind_fuel; [by apply reads_fuel|]. intros t _. apply bind_fuel; [|done].
  by destruct (validateSafeSymlinkTarget name t).
Qed.

Lemma visit_entry_fuel w symlinks rules walkRoot rootName p d st : visit_entry w symlinks rules walkRoot rootName p d st ≠ Err COutOfFuel.
Proof.
  unfold visit_entry. apply bind_fuel; [by destruct (Rel walkRoot p)|]. intros rel _. destruct (Ignored rules rel d); [done|].
  apply bind_fuel; [by apply reads_fuel|]. intros info _. destruct (is_symlink info).
  - destruct (String.eqb _ _); [apply bind_fuel; [apply makeSymlinkItem_fuel|done]|].
    apply bind_fuel; [by apply reads_fuel|]. intros i _. destruct (is_regular i); [|done]. apply bind_fuel; [apply makeSendFileEntry_fuel|done].
  - destruct d; [done|]. destruct (negb (is_regular info)); [done|]. apply bind_fuel; [apply makeSendFileEntry_fuel|done].
Qed.

Lemma lookup_node w b p k n : lookup_path w b p = Ok (k, n) → node_at w k = Some n.
Proof.
  unfold lookup_path. destruct (resolve w b p) as [k'|e]; cbn; [|discriminate]. destruct (node_at w k') eqn:E; [|discriminate].
  by intros [= -> ->].
Qed.

Lemma walkDir_ends w symlinks rules walkRoot rootName fuel ns k n st :
  portable w → tidy walkRoot → Forall name_part ns → lookup_path w false (down walkRoot ns) = Ok (k, n) →
  (depth w < length k + fuel)%nat →
  walkDir (the_visit w symlinks rules walkRoot rootName) fuel w (down walkRoot ns) (is_dir_node n) st ≠ Err COutOfFuel.
Proof.
  intros Hport Hroot. revert ns k n st. induction fuel as [|fuel IH]; intros ns k n st Hns Hl Hlt.
  { apply lookup_node, node_at_depth in Hl. lia. }
  rewrite walkDir_unfold. apply bind_fuel; [apply visit_entry_fuel|]. intros [st1 skip] _.
  destruct (skip || negb (is_dir_node n)) eqn:Es; [done|]. apply orb_false_iff in Es as [_ Hd]. destruct n as [|m t|]; try done.
  assert (Ht : lookup_path w true (down walkRoot ns) = Ok (k, NDir m t)) by by eapply lookup_true_dir.
  apply bind_fuel; [unfold ReadDir; by rewrite Ht|]. unfold ReadDir. rewrite Ht. cbn [wrap_err]. intros names [= <-].
  assert (Hin : ∀ x nd, (x, nd) ∈ children w k → entries w !! (k ++ [x]) = Some nd) by (intros x nd; by rewrite elem_of_children).
  revert st1 Hin. generalize (children w k). intros names. induction names as [|[x nd] names IHn]; intros st1 Hin; [done|]. cbn [walk_children].
  apply bind_fuel; [|intros st2 _; apply IHn; intros; apply Hin; by right].
  pose proof (Hin x nd ltac:(by left)) as Hx. destruct (pt_names _ Hport _ _ _ Hx) as [Hplain Hbs].
  rewrite down_snoc. eapply (IH (ns ++ [x]) (k ++ [x])).
  - apply Forall_app. split; [done|by apply Forall_singleton].
  - rewrite <- down_snoc. rewrite (lookup_Join w _ k m t x (tidy_down _ Hroot _ Hns) Hplain Ht). by rewrite Hx.
  - rewrite length_app. cbn. lia.
Qed.

(** Absolute paths have no parent references left. *)
Lemma kept_plain parts : kept true parts → plain parts.
Proof.
  intros [Hf Hs _]. split; [done|]. rewrite <- Hf. unfold clean_parts.
  assert (Hst : clean_stack true (foldl (clean_step true) [] parts)) by by apply clean_foldl_stack.
  apply Forall_rev. induction (foldl (clean_step true) [] parts) as [|t st IH]; [constructor|].
  destruct Hst as [(_ & ? & _)|[? Hst]]; [done|]. constructor; [done|by apply IH].
Qed.

Lemma Abs_abs w p : ∃ parts, plain parts ∧ Abs w p = abs_path parts.
Proof.
  unfold Abs. destruct (IsAbs p) eqn:Ea.
  - exists (path_comps p). unfold Clean. rewrite Ea. split; [|done]. apply kept_plain. rewrite <- Ea. apply path_comps_kept.
  - unfold Join. cbn [render_path String.eqb negb]. cbv iota.
    set (x := _ +:+ _). assert (Hx : IsAbs x = true) by done. exists (path_comps x). unfold Clean. rewrite Hx. split; [|done].
    apply kept_plain. rewrite <- Hx. apply path_comps_kept.
Qed.

Lemma ignore_lines_ends w parts fuel : plain parts → (length parts < fuel)%nat → ignore_lines fuel w (abs_path parts) ≠ Err COutOfFuel.
Proof.
  revert fuel. induction parts as [|c parts IH] using rev_ind; intros fuel Hp Hlt; (destruct fuel as [|fuel]; [lia|]); cbn [ignore_lines].
  - apply bind_fuel; [|done]. destruct (fst (Stat _ w)) as [info|e]; [|by destruct (IsNotExist e)].
    destruct (is_regular info); [|done]. apply bind_fuel; [by apply reads_fuel|]. intros data _. unfold scan_lines. by destruct (existsb _ _).
  - apply bind_fuel.
    + destruct (fst (Stat _ w)) as [info|e]; [|by destruct (IsNotExist e)].
      destruct (is_regular info); [|done]. apply bind_fuel; [by apply reads_fuel|]. intros data _. unfold scan_lines. by destruct (existsb _ _).
    + intros lines _. apply plain_app in Hp as [Hp [Hs Hsafe]]. inversion Hs; subst.
      rewrite abs_Dir by done. destruct (String.eqb _ _); [done|]. apply bind_fuel; [|done]. apply IH; [done|]. rewrite length_app in Hlt. cbn in Hlt. lia.
Qed.

Lemma walkSymlinks_ends links w rooted dest comps : walkSymlinks links w rooted dest comps ≠ Err COutOfFuel.
Proof.
  revert rooted dest comps. induction links as [|links IHl]; intros rooted dest comps; revert dest;
    induction comps as [|c rest IH]; intros dest; cbn [walkSymlinks]; try done.
  all: destruct (String.eqb c ".."); [destruct dest as [|? [|? ?]]; [apply IH|apply IH|destruct (String.eqb _ _); apply IH]|].
  all: apply bind_fuel; [by apply reads_fuel|]; intros info _.
  all: destruct (negb (is_symlink info)); [destruct (_ && _); [done|apply IH]|].
  - done.
  - apply bind_fuel; [by apply reads_fuel|]. intros t _. destruct (IsAbs t); apply IHl.
Qed.
End ends.

(** Preparing a path ends on every file system of that kind: the fuel of the
    walk, of the climb to the ignore files and of the resolution of links is
    enough, and the result is a prepared path or an error of the calls made. *)
Theorem PreparePath_ends `{CaseTables} `{Crypto} `{GitIgnore} w path opts :
  portable w → tidy path → name_part (Base (Clean path)) → PreparePathWithOptions w path opts ≠ Err COutOfFuel.
Proof.
  intros Hport Htidy Hbc. unfold PreparePathWithOptions. apply bind_fuel.
  { unfold ParseSymlinkMode. by repeat case_if. }
  intros mode _. apply bind_fuel; [|intros [[files items] ignored] _; by destruct (zlen items =? 0)].
  unfold collectSendItems. apply bind_fuel; [by apply reads_fuel|]. intros linkInfo Hli.
  destruct (is_symlink linkInfo && _); [apply bind_fuel; [apply makeSymlinkItem_fuel|done]|].
  apply bind_fuel; [by apply reads_fuel|]. intros info _. destruct (negb (is_dir info)).
  { apply bind_fuel; [by destruct (is_regular info)|]. intros _ _. apply bind_fuel; [apply makeSendFileEntry_fuel|done]. }
  apply bind_fuel; [destruct (is_symlink linkInfo); [unfold EvalSymlinks; apply walkSymlinks_ends|done]|]. intros walkRoot Hw.
  apply bind_fuel.
  { destruct (negb (NoGitIgnore opts)); [|done]. apply bind_fuel; [|done]. unfold loadGitIgnoreStack.
    destruct (Abs_abs w walkRoot) as (parts & Hp & ->). rewrite (proj1 (abs_comps parts Hp)). apply ignore_lines_ends; [done|lia]. }
  intros rules _. unfold WalkDir. apply bind_fuel; [by apply reads_fuel|]. intros i Hi. unfold Lstat in Hi. rewrite reads_stat in Hi.
  destruct (lookup_path w false walkRoot) as [[k n]|e] eqn:El; [|discriminate]. injection Hi as <-.
  cbn [snd]. replace (is_dir (node_info w n)) with (is_dir_node n) by by destruct n.
  assert (Hroot : tidy walkRoot) by (destruct (is_symlink linkInfo); [exact (EvalSymlinks_tidy _ _ _ Hw)|by injection Hw as <-]).
  assert (Hd : (depth w < length k + walk_fuel w)%nat) by (unfold walk_fuel; fold (depth w); lia).
  pose proof (walkDir_ends w mode rules walkRoot (Base (Clean path)) (walk_fuel w) [] k n ([], [], 0) Hport Hroot (Forall_nil_2 _) El Hd) as Hend.
  revert Hend. generalize (walk_fuel w). intros fuel Hend. exact Hend.
Qed.

(** ** Examples *)

Definition name_partb (n : string) : bool := safe_part n && negb (has_byte slash n) && negb (has_byte backslash n).

Lemma name_partb_spec n : name_partb n = true → name_part n.
Proof. unfold name_partb. rewrite !andb_true_iff, !negb_true_iff. by intros [[? ?] ?]. Qed.

Lemma portable_check w :
  forallb (fun x : key * node => match rev (fst x) with n :: _ => name_partb n | [] => false end) (map_to_list (entries w)) = true →
  forallb (fun x : nat * inode => zlen (FileSystem.content (snd x)) <=? int64_max) (map_to_list (inodes w)) = true → portable w.
Proof.
  rewrite !forallb_forall. intros He Hi. constructor.
  - intros k n nd Hk%elem_of_map_to_list. specialize (He (k ++ [n], nd) ltac:(by apply list_elem_of_In)). cbn in He.
    rewrite rev_app_distr in He. cbn in He. by apply name_partb_spec in He as [? ?].
  - destruct (entries w !! []) as [nd|] eqn:E; [|done]. apply elem_of_map_to_list in E.
    specialize (He ([], nd) ltac:(by apply list_elem_of_In)). done.
  - intros ino. unfold inode_at. destruct (inodes w !! ino) as [x|] eqn:E; cbn; [|done].
    apply elem_of_map_to_list in E. specialize (Hi (ino, x) ltac:(by apply list_elem_of_In)). cbn in Hi. by bool_prop.
Qed.

Lemma tree_portable : portable tree_fs.
Proof. apply portable_check; by vm_compute. Qed.

Lemma tidy_check p : negb (String.eqb p "") && bool_decide (name_comps p = path_comps p) = true → tidy p.
Proof. intros [Hp Hc]%andb_true_iff. split; [by apply String.eqb_neq, negb_true_iff|by apply bool_decide_eq_true in Hc]. Qed.

Definition prepared_tree : PreparedPath :=
  let Ht := ascii_tables in let Hc := fixed_crypto in let Hg := no_rules in
  match PreparePath tree_fs "l" with Ok p => p | Err _ => MkPrepared [] [] 0 end.

Lemma PreparePath_sound_witness :
  let Ht := ascii_tables in let Hc := fixed_crypto in let Hg := no_rules in
  PreparePath tree_fs "l" = Ok prepared_tree ∧ validateManifest (Some (NewManifest (pitems prepared_tree))) = Ok tt ∧
  Forall (fun f => zlookup (pitems prepared_tree) (SItemID f) = Some (SItem f) ∧ file_found tree_fs f) (pfiles prepared_tree).
Proof.
  intros Ht Hc Hg. assert (Hp : PreparePath tree_fs "l" = Ok prepared_tree) by by vm_compute. split; [exact Hp|].
  destruct (PreparePath_sound tree_fs "l" (MkPrepareOptions SymlinkFollow false) prepared_tree) as (Hv & Hf & _).
  - exact fixed_sha256_length.
  - exact tree_portable.
  - apply tidy_check. by vm_compute.
  - apply name_partb_spec. by vm_compute.
  - apply name_partb_spec. by vm_compute.
  - exact Hp.
  - split; [exact Hv|exact Hf].
Defined.

Lemma PreparePath_ends_witness :
  let Ht := ascii_tables in let Hc := fixed_crypto in let Hg := no_rules in
  PreparePathWithOptions tree_fs "p/" (MkPrepareOptions " Preserve" true) ≠ Err COutOfFuel.
Proof.
  intros Ht Hc Hg. apply (PreparePath_ends tree_fs "p/" (MkPrepareOptions " Preserve" true)).
  - exact tree_portable.
  - apply tidy_check. by vm_compute.
  - apply name_partb_spec. by vm_compute.
Defined.

(** The current directory has no name of its own: it is prepared and sent as an
    item the receiver always refuses. *)
Lemma dot_is_refused :
  let Ht := ascii_tables in let Hc := fixed_crypto in let Hg := no_rules in
  (p ← PreparePath tree_fs "."; Ok (validateManifest (Some (NewManifest (pitems p))))) = Ok (Err EmptyPath).
Proof. by vm_compute. Qed.



(** A backslash in a name is a separator to the receiver. *)
Definition backslash_fs : fs :=
  MkFS {[ ["d"] := NDir 493 0; ["d"; "a\b"] := NFile 0; ["d"; "a"] := NDir 493 0; ["d"; "a"; "b"] := NFile 0 ]}%string
    {[ 0%nat := MkInode (to_bytes "x") 420 0 ]} 1 [].
Lemma backslash_name_is_refused :
  let Ht := ascii_tables in let Hc := fixed_crypto in let Hg := no_rules in
  (p ← PreparePath backslash_fs "d"; Ok (validateManifest (Some (NewManifest (pitems p))))) = Ok (Err (DuplicatePath "d/a\b")).
Proof. by vm_compute. Qed.

(** ** What was prepared can be sent *)

(** The content behind an item of a prepared path. *)
Definition source_of (w : fs) (p : PreparedPath) (i : Z) : bytes :=
  match List.find (fun f => SItemID f =? i) (pfiles p) with
  | Some f => match lookup_path w true (SPath f) with Ok (_, NFile ino) => FileSystem.content (inode_at w ino) | _ => [] end
  | None => []
  end.

Lemma find_file p f : NoDup (SItemID <$> pfiles p) → f ∈ pfiles p → List.find (fun g => SItemID g =? SItemID f) (pfiles p) = Some f.
Proof.
  generalize (pfiles p). intros l Hnd. induction l as [|g l IH]; [by intros ?%not_elem_of_nil|]. cbn in Hnd. apply NoDup_cons in Hnd as [Hni Hnd].
  cbn. intros [->|Hin]%elem_of_cons; [by rewrite Z.eqb_refl|].
  replace (SItemID g =? SItemID f) with false; [by apply IH|]. symmetry. apply Z.eqb_neq. intros E. apply Hni. rewrite E.
  apply list_elem_of_fmap. by exists f.
Qed.

(** A session that has sent the manifest of a prepared path is ready to send its
    files: what [files_arrive] asks of a sender is what [PreparePath] gives. *)
Lemma prepared_send_ready `{CaseTables} `{Crypto} `{Gzip} `{Environment} conns stripe zip man plan w s :
  let p := prepared s in
  portable w → disk s = w → sending_for conns stripe zip man plan (session s) → Size <$> Items man = Size <$> pitems p →
  Forall (fun f => zlookup (pitems p) (SItemID f) = Some (SItem f) ∧ file_found w f) (pfiles p) → NoDup (SItemID <$> pfiles p) →
  (∀ i it, zlookup (pitems p) i = Some it → i ∉ SItemID <$> pfiles p → Size it = 0) →
  send_ready conns stripe zip man plan w (source_of w p) s ∧
  ∀ i it, zlookup (Items man) i = Some it → i ∈ SItemID <$> pfiles p → Size it = zlen (source_of w p i).
Proof.
  intros p Hport Hd Hs Hsz Hf Hnd Hrest. rewrite Forall_forall in Hf.
  assert (Hlk : ∀ l l' i it, Size <$> l = Size <$> l' → zlookup l i = Some it → ∃ it', zlookup l' i = Some it' ∧ Size it' = Size it).
  { intros l l' i it Heq Hi. unfold zlookup in *. destruct (i <? 0); [done|].
    apply (f_equal (.!! Z.to_nat i)) in Heq. rewrite !list_lookup_fmap, Hi in Heq. destruct (l' !! Z.to_nat i) as [it'|]; [|done].
    exists it'. split; [done|]. injection Heq as Heq. by rewrite Heq. }
  assert (Hsrc : ∀ f, f ∈ pfiles p → ∃ k ino, lookup_path w true (SPath f) = Ok (k, NFile ino) ∧
    FileSystem.content (inode_at w ino) = source_of w p (SItemID f) ∧ Size (SItem f) = zlen (source_of w p (SItemID f)) ∧
    zlen (source_of w p (SItemID f)) ≤ int64_max).
  { intros f Hin. destruct (Hf f Hin) as [_ (k & ino & Hl & Hsize)]. exists k, ino.
    assert (Hso : source_of w p (SItemID f) = FileSystem.content (inode_at w ino)) by (unfold source_of; by rewrite (find_file p f Hnd Hin), Hl).
    rewrite Hso. repeat (split; [done|]). apply (pt_sizes _ Hport). }
  split; [constructor; try done|].
  - apply Forall_forall. intros f Hin. destruct (Hf f Hin) as [Hit _], (Hsrc f Hin) as (k & ino & Hl & Hc & Hsize & Hfit).
    constructor; [|done|done|by exists k, ino]. destruct (Hlk (pitems p) (Items man) _ _ (eq_sym Hsz) Hit) as (it & ? & ?). by exists it.
  - intros i it Hi Hni. destruct (Hlk _ _ _ _ Hsz Hi) as (it' & Hi' & <-). by rewrite (Hrest i it' Hi' Hni).
  - intros i it Hi (f & -> & Hin)%list_elem_of_fmap. destruct (Hlk _ _ _ _ Hsz Hi) as (it' & Hi' & <-).
    destruct (Hf f Hin) as [Hit _]. rewrite Hi' in Hit. injection Hit as ->. by destruct (Hsrc f Hin) as (_ & _ & _ & _ & ? & _).
Qed.
