(* ===== verification/AtomicFile.v ===== *)
(** * Small files that are replaced as a whole

    The stores of kigo (note drafts, recent notepads, the user configuration,
    the route history, the notepads of the service) keep JSON files which they
    write to a temporary name in the same directory and then rename.  Here are
    the steps they share, over the file system of [FileSystem.v] with a fault
    injected at any of them, and the loop that takes a lock file.  Theorems:
    a write that returns an error leaves the old file, one that succeeds leaves
    the new one, and nothing else changes. *)
From Stdlib Require Import ZArith Lia Ascii String.
From stdpp Require Import base tactics numbers list gmap strings.
From S2P Require Import Prelude GoStrings GoPath FileSystem Containment.

(** ** Temporary files *)

(** [os.OpenFile(p, os.O_CREATE|os.O_EXCL|..., mode)] at the time [mtime] *)
Definition OpenExcl (p : string) (mode mtime : Z) : io fs_error nat := fun s =>
  match resolve s false p with
  | Err e => (Err e, s)
  | Ok k =>
      match node_at s k with
      | Some _ => (Err EEXIST, s)
      | None =>
          let ino := next_ino s in
          (Ok ino, MkFS (<[k := NFile ino]> (entries s)) (<[ino := MkInode [] mode mtime]> (inodes s))
                     (S ino) (cwd s))
      end
  end.

(** [os.joinPath] *)
Definition join_path (dir name : string) : string :=
  if has_suffix dir "/" then dir +:+ name else dir +:+ "/" +:+ name.

(** [os.CreateTemp(dir, prefix+"*"+suffix)]: [randoms] are the names it draws;
    one that exists already is skipped. *)
Fixpoint CreateTemp (dir prefix suffix : string) (randoms : list string) : io fs_error (nat * string) :=
  match randoms with
  | [] => fail EEXIST
  | r :: randoms =>
      let name := join_path dir (prefix +:+ r +:+ suffix) in
      opened ← attempt (OpenExcl name 384 0);
      match opened with
      | Ok ino => mret (ino, name)
      | Err e => if IsExist e then CreateTemp dir prefix suffix randoms else fail e
      end
  end.

(** What goes wrong outside the tree: a full disk, an I/O error, a rename the
    system refuses. *)
Record disk_faults := MkFaults {
  chmod_fault : option fs_error;
  encode_fault : option (nat * fs_error);  (* after so many bytes *)
  sync_fault : option fs_error;
  close_fault : option fs_error;
  rename_fault : option fs_error;
  remove_fault : option fs_error;
  retry_fault : option fs_error;
  dirsync_fault : option fs_error;
}.
Definition no_faults : disk_faults := MkFaults None None None None None None None None.

Definition fault {A} (f : option fs_error) (m : io fs_error A) : io fs_error A :=
  match f with Some e => fail e | None => m end.

Definition FileChmod (ino : nat) (mode : Z) : io fs_error unit := fun s =>
  let i := inode_at s ino in (Ok tt, set_inode s ino (MkInode (content i) mode (imtime i))).

(** The [Write] of an encoder. *)
Definition encode_to (f : option (nat * fs_error)) (ino : nat) (data : bytes) : io fs_error unit :=
  match f with
  | None => WriteAt ino data 0
  | Some (n, e) => _ ← WriteAt ino (take n data) 0; fail e
  end.

(** [if err := m; err != nil { _ = os.Remove(temp); return err }] *)
Definition or_remove {A} (temp : string) (m : io fs_error A) : io fs_error A :=
  r ← attempt m;
  match r with
  | Ok a => mret a
  | Err e => _ ← attempt (E:=fs_error) (Remove temp); fail e
  end.

(** [os.MkdirAll], [os.CreateTemp], [Chmod], [Encode], [Sync], [Close]: the
    temporary file holds [data]; an error removes it. *)
Definition write_temp (fl : disk_faults) (randoms : list string) (dir prefix suffix : string) (data : bytes)
    : io fs_error string :=
  _ ← MkdirAll dir 448;
  '(ino, temp) ← CreateTemp dir prefix suffix randoms;
  _ ← or_remove temp (fault (chmod_fault fl) (FileChmod ino 384));
  _ ← or_remove temp (encode_to (encode_fault fl) ino data);
  _ ← or_remove temp (fault (sync_fault fl) (mret tt));
  _ ← or_remove temp (fault (close_fault fl) (mret tt));
  mret temp.

(** The rename of the draft, recent and configuration files: where a rename onto
    an existing file is refused the old file is removed first. *)
Definition commit_retry (fl : disk_faults) (temp path : string) : io fs_error unit :=
  renamed ← attempt (fault (rename_fault fl) (Rename temp path));
  match renamed with
  | Ok _ => mret tt
  | Err e =>
      removed ← attempt (fault (remove_fault fl) (Remove path));
      match removed with
      | Err e' =>
          if negb (IsNotExist e') then _ ← attempt (E:=fs_error) (Remove temp); fail e
          else or_remove temp (fault (retry_fault fl) (Rename temp path))
      | Ok _ => or_remove temp (fault (retry_fault fl) (Rename temp path))
      end
  end.

(** The rename of the route history: [defer os.Remove(tempPath)]. *)
Definition commit_defer (fl : disk_faults) (temp path : string) : io fs_error unit :=
  r ← attempt (fault (rename_fault fl) (Rename temp path));
  _ ← attempt (E:=fs_error) (Remove temp);
  lift r.

(** The rename of the service's notepads: the directory is synced. *)
Definition commit_sync (fl : disk_faults) (temp path : string) : io fs_error unit :=
  _ ← or_remove temp (fault (rename_fault fl) (Rename temp path));
  fault (dirsync_fault fl) (mret tt).

Definition replace_file (commit : disk_faults → string → string → io fs_error unit)
    (fl : disk_faults) (randoms : list string) (prefix path : string) (data : bytes) : io fs_error unit :=
  temp ← write_temp fl randoms (Dir path) prefix ".tmp" data;
  commit fl temp path.

(** ** Lock files *)

Inductive lock_error := LFS (e : fs_error) | LTimedOut | LOutOfFuel.

Definition second : Z := 1000000000.
Definition lock_timeout : Z := 2 * second.
Definition lock_stale : Z := 30 * second.

(** One turn of the loop per reading of the clock; the modification time of the
    lock is in the clock's unit. *)
Fixpoint lock_loop (fuel : nat) (clock : nat → Z) (n : nat) (deadline : Z) (lockPath : string) : io lock_error unit :=
  match fuel with
  | O => fail LOutOfFuel
  | S fuel =>
      lock ← attempt (OpenExcl lockPath 384 (clock n));
      match lock with
      | Ok _ => mret tt
      | Err e =>
          _ ← fail_if_io (negb (IsExist e)) (LFS e);
          info ← attempt (E:=fs_error) (Stat lockPath);
          let stale := match info with Ok i => clock n - fi_mtime i >? lock_stale | Err _ => false end in
          if stale then
            _ ← attempt (E:=fs_error) (Remove lockPath);
            lock_loop fuel clock (S n) deadline lockPath
          else if clock n >? deadline then fail LTimedOut
          else lock_loop fuel clock (S n) deadline lockPath
      end
  end.

(** [withDraftFileLock], [withRouteHistoryLock] *)
Definition with_file_lock {E A} (inj : lock_error → E) (fuel : nat) (clock : nat → Z) (path : string) (fn : io E A)
    : io E A :=
  _ ← wrap_io (fun e => inj (LFS e)) (MkdirAll (Dir path) 448);
  let lockPath := path +:+ ".lock" in
  _ ← wrap_io inj (lock_loop fuel clock 1 (clock 0%nat + lock_timeout) lockPath);
  r ← attempt fn;
  _ ← attempt (E:=fs_error) (Remove lockPath);
  lift r.

(** ** What a write does to the tree *)

(** The files that existed hold what they held. *)
Definition keeps_files (s s' : fs) : Prop :=
  cwd s' = cwd s ∧ (next_ino s ≤ next_ino s')%nat ∧ ∀ i, (i < next_ino s)%nat → inodes s' !! i = inodes s !! i.

(** The same entries, and the same data in every file that existed. *)
Definition unchanged (s s' : fs) : Prop := entries s' = entries s ∧ keeps_files s s'.

(** One entry now names a new file that holds [data]. *)
Definition replaced (s : fs) (k : key) (data : bytes) (s' : fs) : Prop :=
  entries s' = <[k := NFile (next_ino s)]> (entries s) ∧ keeps_files s s' ∧
  content (inode_at s' (next_ino s)) = data ∧ (next_ino s < next_ino s')%nat.

#[export] Instance keeps_files_preorder : PreOrder keeps_files.
Proof.
  split; [intros s; split; [done|split; [lia|done]]|]. intros s1 s2 s3 (Hc & Hn & Hi) (Hc' & Hn' & Hi'). split; [congruence|]. split; [lia|].
  intros i Hlt. rewrite Hi' by lia. by apply Hi.
Qed.

#[export] Instance unchanged_preorder : PreOrder unchanged.
Proof.
  split; [intros s; split; [done|reflexivity]|]. intros s1 s2 s3 (He & Hk) (He' & Hk'). split; [congruence|]. by etrans.
Qed.

Lemma has_suffix_slash a p : safe_part p = true → has_byte slash p = false → has_suffix (a +:+ p) "/" = false.
Proof.
  intros Hs Hb. unfold has_suffix. rewrite to_bytes_app, rev_app_distr.
  destruct (rev (to_bytes p)) as [|c l] eqn:E.
  - apply (f_equal (@rev ascii)) in E. rewrite rev_involutive in E. destruct p; [by vm_compute in Hs|done].
  - change (rev (to_bytes "/")) with [slash]. cbn [strip_prefix app].
    destruct (Ascii.eqb_spec slash c) as [<-|]; [|done]. exfalso.
    assert (Hin : slash ∈ to_bytes p) by (apply list_elem_of_In, in_rev; rewrite E; by left).
    clear -Hin Hb. induction p as [|d p IH]; [by apply not_elem_of_nil in Hin|].
    cbn [list_ascii_of_string has_byte] in *. destruct (Ascii.eqb_spec d slash) as [|Hd]; [done|].
    apply elem_of_cons in Hin as [?|?]; [by subst|auto].
Qed.

Lemma join_path_abs parts t : plain parts → plain [t] → join_path (abs_path parts) t = abs_path (parts ++ [t]).
Proof.
  intros Hp Ht. unfold join_path. destruct (decide (parts = [])) as [->|Hne]; [done|].
  assert (has_suffix (abs_path parts) "/" = false) as ->.
  { destruct (exists_last Hne) as (ps & p & ->). apply plain_app in Hp as [_ [Hs Hp]].
    rewrite Forall_singleton in Hs, Hp. unfold render_path.
    destruct ps as [|q ps]; [change (String slash (join_with slash ([] ++ [p]))) with ("/" +:+ p); exact (has_suffix_slash "/" p Hp Hs)|].
    rewrite join_with_snoc by done.
    change (String slash (join_with slash (q :: ps) +:+ String slash p)) with ("/" +:+ (join_with slash (q :: ps) +:+ ("/" +:+ p))).
    rewrite <- !str_app_assoc. exact (has_suffix_slash _ p Hp Hs). }
  unfold render_path. rewrite join_with_snoc by done. done.
Qed.

Section replace.
Context (parts : list string) (name : string).
Hypothesis parts_plain : plain parts.
Hypothesis name_plain : plain [name].

Definition target : key := parts ++ [name].
Definition target_path : string := abs_path target.

(** The directory is there and the target is no directory. *)
Definition replaceable (s : fs) : Prop :=
  real_dirs s parts ∧ ∀ m t, entries s !! target ≠ Some (NDir m t).

(** A name the temporary file can have. *)
Definition temp_name (s : fs) (t : string) : Prop :=
  plain [t] ∧ t ≠ name ∧ entries s !! (parts ++ [t]) = None.

(** The directory survives a change of a file in it. *)
Lemma real_dirs_file s s' c :
  (entries s' = delete (parts ++ [c]) (entries s) ∨ ∃ n, entries s' = <[parts ++ [c] := n]> (entries s)) →
  real_dirs s parts → real_dirs s' parts.
Proof using Type.
  intros He Hd i Hi. destruct (Hd i Hi) as (m & t & Hk). exists m, t.
  assert (parts ++ [c] ≠ take i parts)
    by (intros E; apply (f_equal length) in E; rewrite length_app, length_take in E; simpl in E; lia).
  destruct He as [-> | [n ->]]; [by rewrite lookup_delete_ne|by rewrite lookup_insert_ne].
Qed.

Lemma OpenExcl_abs s t mode mtime :
  real_dirs s parts → plain [t] →
  match OpenExcl (abs_path (parts ++ [t])) mode mtime s with
  | (Ok ino, s') => ino = next_ino s ∧ entries s !! (parts ++ [t]) = None ∧ replaced s (parts ++ [t]) [] s'
  | (Err e, s') => e = EEXIST ∧ s' = s ∧ is_Some (entries s !! (parts ++ [t]))
  end.
Proof using parts_plain.
  intros Hd Ht. unfold OpenExcl. rewrite resolve_abs by done. rewrite node_at_snoc.
  destruct (entries s !! (parts ++ [t])) as [n|] eqn:E; [by split_and!|].
  split; [done|]. split; [done|]. unfold replaced, keeps_files, inode_at. cbn [entries inodes cwd next_ino].
  rewrite lookup_insert_eq. split_and!; [done|done|lia| |done|lia].
  intros i Hi. by rewrite lookup_insert_ne by lia.
Qed.

Lemma Remove_temp s t data s' :
  real_dirs s parts → plain [t] → entries s !! (parts ++ [t]) = None → replaced s (parts ++ [t]) data s' →
  ∃ s2, Remove (abs_path (parts ++ [t])) s' = (Ok tt, s2) ∧ unchanged s s2.
Proof using parts_plain.
  intros Hd Ht Hno (He & Hk & _). eexists. unfold Remove.
  rewrite lookup_abs; [|done..|by eapply real_dirs_file; [right; by eexists|]].
  rewrite He, lookup_insert_eq. split; [done|]. unfold unchanged, del_entry. cbn [entries].
  rewrite He, delete_insert_id by done. by split.
Qed.

Lemma Rename_temp s t data s' :
  replaceable s → temp_name s t → replaced s (parts ++ [t]) data s' →
  ∃ s2, Rename (abs_path (parts ++ [t])) target_path s' = (Ok tt, s2) ∧ replaced s target data s2.
Proof using parts_plain name_plain.
  intros [Hd Hdir] (Ht & Hne & Hno) (He & Hf & Hcont & Hlt). eexists. unfold Rename.
  assert (Hd' : real_dirs s' parts) by (eapply real_dirs_file; [right; by eexists|done]).
  assert (Hk : parts ++ [t] ≠ target) by (unfold target; intros E%app_inv_head; by injection E).
  rewrite lookup_abs by done. rewrite He, lookup_insert_eq. unfold target_path.
  unfold target at 1. rewrite resolve_abs by done. rewrite node_at_snoc, He. fold target.
  rewrite lookup_insert_ne by done. unfold replaced. 
  assert (Hgoal : replaced s target data (set_entry (del_entry s' (parts ++ [t])) target (NFile (next_ino s)))).
  { unfold replaced, set_entry, del_entry, inode_at in *. cbn [entries inodes next_ino].
    rewrite He, delete_insert_id by done. by split_and!. }
  destruct (entries s !! target) as [[| |]|] eqn:E; [done| |done|done]. exfalso. by eapply Hdir.
Qed.

Context (prefix : string) (randoms : list string).
Hypothesis temps : Forall (λ r, plain [prefix +:+ r +:+ ".tmp"] ∧ prefix +:+ r +:+ ".tmp" ≠ name) randoms.

Lemma CreateTemp_spec s : real_dirs s parts →
  match CreateTemp (abs_path parts) prefix ".tmp" randoms s with
  | (Ok (ino, temp), s') =>
      ino = next_ino s ∧ ∃ t, temp = abs_path (parts ++ [t]) ∧ temp_name s t ∧ replaced s (parts ++ [t]) [] s'
  | (Err _, s') => s' = s
  end.
Proof using parts_plain temps.
  intros Hd. induction temps as [|r rs [Hp Hne] _ IH]; [done|]. cbn [CreateTemp].
  rewrite join_path_abs by done. unfold mbind, io_bind, attempt.
  pose proof (OpenExcl_abs s (prefix +:+ r +:+ ".tmp") 384 0 Hd Hp) as Ho.
  destruct (OpenExcl _ _ _ s) as [[ino|e] s'].
  - destruct Ho as (-> & Hno & Hr). split; [done|]. eexists. split; [done|]. by split.
  - destruct Ho as (-> & -> & _). apply IH. by inversion temps.
Qed.

(** A step on the temporary file that is undone when it fails. *)
Lemma or_remove_spec {A} (m : io fs_error A) s t data s1 :
  real_dirs s parts → temp_name s t →
  (∀ r s2, m s1 = (r, s2) → ∃ data', replaced s (parts ++ [t]) data' s2 ∧ (is_ok r = true → data' = data)) →
  match or_remove (abs_path (parts ++ [t])) m s1 with
  | (Ok _, s2) => replaced s (parts ++ [t]) data s2
  | (Err _, s2) => unchanged s s2
  end.
Proof using parts_plain.
  intros Hd (Ht & _ & Hno) Hm. unfold or_remove, mbind, io_bind, attempt.
  destruct (m s1) as [r s2] eqn:E. destruct (Hm r s2 eq_refl) as (data' & Hr & Hok).
  destruct r as [a|e]; [rewrite <- Hok by done; exact Hr|].
  destruct (Remove_temp s t data' s2 Hd Ht Hno Hr) as (s3 & -> & Hu). exact Hu.
Qed.

(** The new file may be rewritten. *)
Lemma replaced_set_inode s k old s1 i :
  replaced s k old s1 → replaced s k (content i) (set_inode s1 (next_ino s) i).
Proof using Type.
  intros (He & (Hc & Hn & Hi) & _ & Hlt). unfold replaced, keeps_files.
  rewrite inode_at_set, decide_True by done. split_and!; try done.
  intros j Hj. cbn. rewrite lookup_insert_ne by lia. by apply Hi.
Qed.

Lemma replaced_write s k old data s1 :
  replaced s k old s1 → ∀ r s2, WriteAt (next_ino s) data 0 s1 = (r, s2) → 
  r = Ok tt ∧ replaced s k (write_at data 0 old) s2.
Proof using Type.
  intros Hr r s2. unfold WriteAt. cbn [Z.ltb Z.compare]. intros [= <- <-]. split; [done|].
  pose proof Hr as (_ & _ & <- & _). by eapply (replaced_set_inode _ _ _ _ (MkInode _ _ _)).
Qed.

Lemma write_at_empty data : write_at data 0 [] = data.
Proof using Type. destruct data as [|c data]; [done|]. unfold write_at. cbn. by rewrite app_nil_r. Qed.

Lemma encode_to_spec f s k data s1 :
  replaced s k [] s1 → ∀ r s2, encode_to f (next_ino s) data s1 = (r, s2) →
  ∃ data', replaced s k data' s2 ∧ (is_ok r = true → data' = data).
Proof using Type.
  intros Hr r s2. unfold encode_to. destruct f as [[n e]|].
  - unfold mbind, io_bind. destruct (WriteAt (next_ino s) (take n data) 0 s1) as [r1 s3] eqn:E.
    destruct (replaced_write _ _ _ _ _ Hr _ _ E) as [-> Hr']. intros [= <- <-]. by eexists.
  - intros E. destruct (replaced_write _ _ _ _ _ Hr _ _ E) as [-> Hr']. exists data.
    by rewrite write_at_empty in Hr'.
Qed.

Lemma fault_spec {A} (f : option fs_error) (m : io fs_error A) s r s' :
  fault f m s = (r, s') → m s = (r, s') ∨ (is_ok r = false ∧ s' = s).
Proof using Type. destruct f; cbn; [|by left]. intros [= <- <-]. by right. Qed.

Lemma replaced_chmod s k data mode s1 : replaced s k data s1 →
  ∀ r s2, FileChmod (next_ino s) mode s1 = (r, s2) → r = Ok tt ∧ replaced s k data s2.
Proof using Type.
  intros Hr r s2. unfold FileChmod. intros [= <- <-]. split; [done|].
  pose proof Hr as (_ & _ & <- & _). by eapply (replaced_set_inode _ _ _ _ (MkInode _ _ _)).
Qed.

Lemma write_temp_spec fl s0 s data :
  MkdirAll (abs_path parts) 448 s0 = (Ok tt, s) → real_dirs s parts →
  match write_temp fl randoms (abs_path parts) prefix ".tmp" data s0 with
  | (Ok temp, s') => ∃ t, temp = abs_path (parts ++ [t]) ∧ temp_name s t ∧ replaced s (parts ++ [t]) data s'
  | (Err _, s') => unchanged s s'
  end.
Proof using parts_plain temps.
  intros Hmk Hd. unfold write_temp, mbind, io_bind. rewrite Hmk.
  pose proof (CreateTemp_spec s Hd) as Hc. destruct (CreateTemp _ _ _ _ s) as [[[ino temp]|e] s1]; [|subst; reflexivity].
  destruct Hc as (-> & t & -> & Ht & Hr1).
  pose proof (or_remove_spec (fault (chmod_fault fl) (FileChmod (next_ino s) 384)) s t [] s1 Hd Ht) as H1.
  destruct (or_remove _ (fault (chmod_fault fl) _) s1) as [[[]|e] s2].
  2:{ apply H1. intros r s2' Hf. exists []. split; [|done]. apply fault_spec in Hf as [Hf|[_ ->]]; [|done]. by eapply replaced_chmod. }
  assert (Hr2 : replaced s (parts ++ [t]) [] s2).
  { apply H1. intros r s2' Hf. exists []. split; [|done]. apply fault_spec in Hf as [Hf|[_ ->]]; [|done]. by eapply replaced_chmod. }
  pose proof (or_remove_spec (encode_to (encode_fault fl) (next_ino s) data) s t data s2 Hd Ht (encode_to_spec _ _ _ _ _ Hr2)) as H3.
  destruct (or_remove _ (encode_to _ _ _) s2) as [[[]|e] s3]; [|exact H3].
  assert (Hnop : ∀ f (u : unit) r s4, fault f (mret u) s3 = (r, s4) →
    ∃ data', replaced s (parts ++ [t]) data' s4 ∧ (is_ok r = true → data' = data)).
  { intros f u r s4 Hf. exists data. split; [|done]. apply fault_spec in Hf as [[= _ <-]|[_ ->]]; exact H3. }
  pose proof (or_remove_spec _ s t data s3 Hd Ht (Hnop (sync_fault fl) tt)) as H4.
  destruct (or_remove _ (fault (sync_fault fl) _) s3) as [[[]|e] s4]; [|exact H4].
  pose proof (or_remove_spec (fault (close_fault fl) (mret tt)) s t data s4 Hd Ht) as H5.
  destruct (or_remove _ (fault (close_fault fl) _) s4) as [[[]|e] s5].
  - exists t. split; [done|]. split; [done|]. apply H5. intros r s5' Hf. exists data. split; [|done].
    by apply fault_spec in Hf as [[= _ <-]|[_ ->]].
  - apply H5. intros r s5' Hf. exists data. split; [|done]. by apply fault_spec in Hf as [[= _ <-]|[_ ->]].
Qed.
End replace.

(** ** The contract of the final rename *)

(** Under the faults [safe] allows, a commit either puts the temporary file in
    the place of the target or removes it and leaves the target. *)
Class AtomicCommit (commit : disk_faults → string → string → io fs_error unit) (safe : disk_faults → Prop) : Prop :=
  commit_atomic parts name fl s t data s1 :
    plain parts → plain [name] → replaceable parts name s → temp_name parts name s t →
    replaced s (parts ++ [t]) data s1 → safe fl →
    match commit fl (abs_path (parts ++ [t])) (target_path parts name) s1 with
    | (Ok _, s2) => replaced s (target parts name) data s2
    | (Err _, s2) => unchanged s s2
    end.

(** A rename that fails before or after it removes the temporary file. *)
Lemma or_remove_rename parts name f s t data s1 :
  plain parts → plain [name] → replaceable parts name s → temp_name parts name s t → replaced s (parts ++ [t]) data s1 →
  match or_remove (abs_path (parts ++ [t])) (fault f (Rename (abs_path (parts ++ [t])) (target_path parts name))) s1 with
  | (Ok _, s2) => replaced s (target parts name) data s2
  | (Err _, s2) => unchanged s s2 ∧ is_Some f
  end.
Proof.
  intros Hp Hn Hs Ht Hr. unfold or_remove, mbind, io_bind, attempt. destruct f as [e|]; cbn [fault].
  - unfold fail. destruct (Remove_temp parts Hp s t data s1) as (s2 & -> & Hu); [apply Hs|apply Ht|apply Ht|done|].
    split; [exact Hu|done].
  - destruct (Rename_temp parts name Hp Hn s t data s1 Hs Ht Hr) as (s2 & -> & Hr2). exact Hr2.
Qed.

#[export] Instance commit_sync_atomic : AtomicCommit commit_sync (fun fl => dirsync_fault fl = None).
Proof.
  intros parts name fl s t data s1 Hp Hn Hs Ht Hr Hf. unfold commit_sync, mbind, io_bind. rewrite Hf.
  pose proof (or_remove_rename parts name (rename_fault fl) s t data s1 Hp Hn Hs Ht Hr) as H.
  destruct (or_remove _ _ s1) as [[[]|e] s2]; [exact H|apply H].
Qed.

#[export] Instance commit_retry_atomic :
  AtomicCommit commit_retry (fun fl => rename_fault fl = None ∨ ∃ e, remove_fault fl = Some e ∧ IsNotExist e = false).
Proof.
  intros parts name fl s t data s1 Hp Hn Hs Ht Hr Hf. unfold commit_retry, mbind, io_bind, attempt.
  destruct (rename_fault fl) as [e|].
  - destruct Hf as [[=]|(e' & -> & He)]. cbn [fault]. unfold fail. rewrite He.
    destruct (Remove_temp parts Hp s t data s1) as (s2 & Hrm & Hu); [apply Hs|apply Ht|apply Ht|done|].
    cbn [fault negb]. rewrite Hrm. exact Hu.
  - cbn [fault]. destruct (Rename_temp parts name Hp Hn s t data s1 Hs Ht Hr) as (s2 & -> & Hr2). exact Hr2.
Qed.

#[export] Instance commit_defer_atomic : AtomicCommit commit_defer (fun _ => True).
Proof.
  intros parts name fl s t data s1 Hp Hn Hs Ht Hr _. unfold commit_defer, mbind, io_bind, attempt.
  destruct (rename_fault fl) as [e|]; cbn [fault].
  - unfold fail. destruct (Remove_temp parts Hp s t data s1) as (s2 & -> & Hu); [apply Hs|apply Ht|apply Ht|done|]. exact Hu.
  - destruct (Rename_temp parts name Hp Hn s t data s1 Hs Ht Hr) as (s2 & -> & Hr2). destruct Hr2 as (He & Hrest).
    assert (Remove (abs_path (parts ++ [t])) s2 = (Err ENOENT, s2)) as ->; [|by split].
    unfold Remove. destruct Ht as (Htp & Hne & Hno). rewrite lookup_abs; [|done..|].
    + rewrite He, lookup_insert_ne; [by rewrite Hno|]. unfold target. intros E%app_inv_head. by injection E as ->.
    + eapply real_dirs_file; [|apply Hs]. right. eexists. exact He.
Qed.

(** ** Reading back *)

(** Every file of the tree has an inode the system has handed out. *)
Definition inodes_known (s : fs) : Prop := ∀ k i, entries s !! k = Some (NFile i) → (i < next_ino s)%nat.

Lemma walk_last_file links s cur c ino :
  safe_part c = true → entries s !! (cur ++ [c]) = Some (NFile ino) → walk links s true cur [c] = Ok (cur ++ [c]).
Proof. intros Hc He. destruct links; simpl; rewrite plain_not_dotdot, He by done; done. Qed.

Lemma ReadFile_abs s parts c ino :
  plain parts → plain [c] → real_dirs s parts → entries s !! (parts ++ [c]) = Some (NFile ino) →
  ReadFile (abs_path (parts ++ [c])) s = (Ok (content (inode_at s ino)), s).
Proof.
  intros Hp Hc Hd He. assert (Hpc : plain (parts ++ [c])) by by apply plain_app.
  unfold ReadFile, lookup_path, resolve. destruct (String.eqb_spec (abs_path (parts ++ [c])) "") as [E|_]; [done|].
  destruct (abs_comps _ Hpc) as [_ ->]. rewrite name_comps_abs by done.
  rewrite (walk_dirs max_links s true [] parts [c]); [|by destruct Hp|by intros n Hn; apply Hd].
  rewrite (walk_last_file _ _ _ _ ino) by (done || by destruct Hc as [_ [? _]%Forall_cons]).
  cbn [mbind result_bind]. rewrite node_at_snoc. cbn [app]. by rewrite He.
Qed.

(** Resolution only looks at the entries. *)
Lemma walk_entries e i n c i' n' c' links f cur comps :
  walk links (MkFS e i n c) f cur comps = walk links (MkFS e i' n' c') f cur comps.
Proof.
  revert cur comps. induction links as [|links IHl]; intros cur comps; revert cur;
    (induction comps as [|x rest IH]; intros cur; [done|]); cbn [walk entries];
    (destruct (String.eqb x ".."); [apply IH|]);
    destruct (e !! (cur ++ [x])) as [[]|], rest; try done; first [apply IH|apply IHl|destruct f; [apply IHl|done]].
Qed.

Lemma resolve_unchanged s s' f p : unchanged s s' → resolve s' f p = resolve s f p.
Proof.
  intros (He & Hc & _). unfold resolve. rewrite Hc. destruct (String.eqb p ""); [reflexivity|].
  generalize max_links. intros links. destruct s as [e i n c], s' as [e' i' n' c']. cbn [entries] in He. subst e'. apply walk_entries.
Qed.

Lemma ReadFile_unchanged s s' p : inodes_known s → unchanged s s' → fst (ReadFile p s') = fst (ReadFile p s).
Proof.
  intros Hk Hu. unfold ReadFile, lookup_path. rewrite (resolve_unchanged s s') by done. destruct Hu as (He & _ & _ & Hi). cbn.
  destruct (resolve s true p) as [k|e]; [|done]. cbn.
  unfold node_at. destruct k as [|c k]; [done|]. rewrite He.
  destruct (entries s !! (c :: k)) as [[ino| |]|] eqn:E; [|done..]. cbn. unfold inode_at. rewrite Hi; [done|by eapply Hk].
Qed.

(** Replacing a file is atomic, whatever fails: when it reports success the
    path reads back as the new data and no other entry or file is touched; when
    it reports an error no entry has changed and every path reads as before, the
    old file included.  This holds for each way the stores rename the finished
    file, under the faults its instance of [AtomicCommit] names. *)
Lemma replace_file_spec commit safe `{!AtomicCommit commit safe} parts name prefix randoms fl data s0 s :
  plain parts → plain [name] → replaceable parts name s → inodes_known s →
  Forall (λ r, plain [prefix +:+ r +:+ ".tmp"] ∧ prefix +:+ r +:+ ".tmp" ≠ name) randoms →
  MkdirAll (abs_path parts) 448 s0 = (Ok tt, s) → safe fl →
  match replace_file commit fl randoms prefix (target_path parts name) data s0 with
  | (Ok _, s') => replaced s (target parts name) data s' ∧ fst (ReadFile (target_path parts name) s') = Ok data
  | (Err _, s') => unchanged s s' ∧ ∀ p, fst (ReadFile p s') = fst (ReadFile p s)
  end.
Proof.
  intros Hp Hn Hs Hk Hr Hm Hf. unfold replace_file, mbind, io_bind. unfold target_path at 1.
  unfold target. rewrite abs_Dir by (done || by destruct Hn as [[? _]%Forall_cons _]).
  pose proof (write_temp_spec parts name Hp prefix randoms Hr fl s0 s data Hm (proj1 Hs)) as Hw.
  destruct (write_temp _ _ _ _ _ _ s0) as [[temp|e] s1].
  - destruct Hw as (t & -> & Ht & Hr1).
    pose proof (commit_atomic parts name fl s t data s1 Hp Hn Hs Ht Hr1 Hf) as Hc.
    unfold target_path, target in Hc. 
    destruct (commit fl _ _ s1) as [[[]|e] s2].
    + split; [exact Hc|]. destruct Hc as (He & _ & Hcont & _).
      unfold target_path, target. rewrite (ReadFile_abs s2 parts name (next_ino s)); [by rewrite Hcont|done|done| |].
      * eapply real_dirs_file; [right; eexists; exact He|apply Hs].
      * rewrite He. by rewrite lookup_insert_eq.
    + split; [exact Hc|]. intros p. by apply ReadFile_unchanged.
  - split; [exact Hw|]. intros p. by apply ReadFile_unchanged.
Qed.

(** The rename of the service's notepads reports a failed sync of the directory
    after the file is already in place. *)
Definition dirsync_ok (fl : disk_faults) : disk_faults :=
  MkFaults (chmod_fault fl) (encode_fault fl) (sync_fault fl) (close_fault fl) (rename_fault fl) (remove_fault fl) (retry_fault fl) None.

Lemma replace_file_dirsync fl randoms prefix path data s :
  replace_file commit_sync fl randoms prefix path data s =
  match replace_file commit_sync (dirsync_ok fl) randoms prefix path data s with
  | (Ok u, s') => (match dirsync_fault fl with Some e => Err e | None => Ok u end, s')
  | (Err e, s') => (Err e, s')
  end.
Proof.
  unfold replace_file, commit_sync, mbind, io_bind. change (write_temp (dirsync_ok fl)) with (write_temp fl). cbn [dirsync_ok rename_fault dirsync_fault fault].
  destruct (write_temp fl randoms (Dir path) prefix ".tmp" data s) as [[temp|e] s1]; [|done].
  destruct (or_remove temp (fault (rename_fault fl) (Rename temp path)) s1) as [[[]|e] s2]; [|done]. by destruct (dirsync_fault fl).
Qed.

(** ** Taking the lock ends *)

Section lock.
Context (parts : list string) (lock : string) (clock : nat → Z) (deadline : Z).
Hypothesis parts_plain : plain parts.
Hypothesis lock_plain : plain [lock].
Local Abbreviation lockPath := (abs_path (parts ++ [lock])).

Lemma Stat_pure p s : Stat p s = (fst (Stat p s), s).
Proof using Type. unfold Stat, stat_with. cbn [fst]. reflexivity. Qed.

Lemma fail_if_EEXIST s : fail_if_io (negb (IsExist EEXIST)) (LFS EEXIST) s = (Ok tt, s).
Proof using Type. reflexivity. Qed.

(** A free lock is taken at once. *)
Lemma lock_free fuel n s :
  real_dirs s parts → entries s !! (parts ++ [lock]) = None →
  ∃ s', lock_loop (S fuel) clock n deadline lockPath s = (Ok tt, s') ∧ replaced s (parts ++ [lock]) [] s'.
Proof using parts_plain lock_plain.
  intros Hd Hno. cbn [lock_loop]. unfold mbind at 1, io_bind at 1, attempt at 1.
  pose proof (OpenExcl_abs parts parts_plain s lock 384 (clock n) Hd lock_plain) as Ho.
  destruct (OpenExcl _ _ _ s) as [[ino|e] s'].
  - destruct Ho as (-> & _ & Hr). by exists s'.
  - destruct Ho as (_ & _ & [x Hx]). congruence.
Qed.

(** One turn while somebody holds it. *)
Lemma lock_turn fuel n s node :
  real_dirs s parts → entries s !! (parts ++ [lock]) = Some node →
  lock_loop (S fuel) clock n deadline lockPath s =
    let stale := match fst (Stat lockPath s) with Ok i => clock n - fi_mtime i >? lock_stale | Err _ => false end in
    if stale then lock_loop fuel clock (S n) deadline lockPath (snd (Remove lockPath s))
    else if clock n >? deadline then (Err LTimedOut, s)
    else lock_loop fuel clock (S n) deadline lockPath s.
Proof using parts_plain lock_plain.
  intros Hd Hno. cbn [lock_loop]. unfold mbind at 1, io_bind at 1, attempt at 1.
  pose proof (OpenExcl_abs parts parts_plain s lock 384 (clock n) Hd lock_plain) as Ho.
  destruct (OpenExcl _ _ _ s) as [[ino|e] s']; [destruct Ho as (_ & ? & _); congruence|]. destruct Ho as (-> & -> & _).
  unfold mbind, io_bind, attempt. cbv beta iota. rewrite fail_if_EEXIST, Stat_pure.
  generalize (fst (Stat lockPath s)). intros st. cbv beta iota zeta.
  destruct (match st with Ok _ => _ | Err _ => _ end).
  - destruct (Remove lockPath s) as [r s2]. reflexivity.
  - by destruct (clock n >? deadline).
Qed.

(** Whoever holds the lock file, the attempt to take it ends: it is taken or it
    times out. *)
Lemma lock_loop_ends N fuel n s :
  real_dirs s parts → (∀ m t, entries s !! (parts ++ [lock]) ≠ Some (NDir m t)) →
  (∀ m, (N ≤ m)%nat → deadline < clock m) → (N - n + 1 < fuel)%nat →
  fst (lock_loop fuel clock n deadline lockPath s) ≠ Err LOutOfFuel.
Proof using parts_plain lock_plain.
  intros Hd Hdir Hc. revert n. induction fuel as [|fuel IH]; intros n Hlt; [lia|].
  destruct (entries s !! (parts ++ [lock])) as [node|] eqn:E.
  - rewrite (lock_turn _ _ _ node) by done. cbv zeta.
    destruct (match fst (Stat lockPath s) with Ok _ => _ | Err _ => _ end).
    + destruct fuel as [|fuel]; [lia|].
      assert (∃ s2, Remove lockPath s = (Ok tt, s2) ∧ entries s2 = delete (parts ++ [lock]) (entries s)) as (s2 & -> & He).
      { unfold Remove. rewrite lookup_abs by done. rewrite E. destruct node; [by eexists| |by eexists].
        exfalso. by eapply Hdir. }
      destruct (lock_free fuel (S n) s2) as (s3 & Hl & _).
      * eapply real_dirs_file; [left; exact He|done].
      * by rewrite He, lookup_delete_eq.
      * cbn [snd]. by rewrite Hl.
    + destruct (clock n >? deadline) eqn:Ec; [done|]. apply IH. bool_prop.
      destruct (decide (N ≤ n)%nat) as [Hn|Hn]; [specialize (Hc n Hn); lia|lia].
  - destruct (lock_free fuel n s Hd E) as (s3 & Hl & _). by rewrite Hl.
Qed.

(** A stale lock that is a directory with something in it cannot be removed, and
    the loop neither sleeps nor looks at the deadline any more. *)
Lemma lock_loop_spins m t fuel n s :
  real_dirs s parts → entries s !! (parts ++ [lock]) = Some (NDir m t) →
  snd (Remove lockPath s) = s → (∀ k, (n ≤ k)%nat → t + lock_stale < clock k) →
  fst (Stat lockPath s) = Ok (MkInfo Directory 0 m t) →
  fst (lock_loop fuel clock n deadline lockPath s) = Err LOutOfFuel.
Proof using parts_plain lock_plain.
  intros Hd E Hrm Hc Hst. revert n Hc. induction fuel as [|fuel IH]; intros n Hc; [done|].
  rewrite (lock_turn _ _ _ (NDir m t)) by done. cbv zeta. rewrite Hst. cbn [fi_mtime].
  replace (clock n - t >? lock_stale) with true by (specialize (Hc n); symmetry; apply Z.gtb_lt; lia).
  rewrite Hrm. apply IH. intros k Hk. apply Hc. lia.
Qed.
End lock.

(** ** A critical section *)

Lemma MkdirAll_noop s parts mode : plain parts → real_dirs s parts → MkdirAll (abs_path parts) mode s = (Ok tt, s).
Proof.
  intros Hp Hd. unfold MkdirAll, path_prefixes. rewrite name_comps_abs by done.
  destruct (abs_comps _ Hp) as [_ ->].
  assert (Hall : Forall (λ p, ∃ i, Stat p s = (Ok i, s) ∧ is_dir i = true)
    ((λ n, "/" +:+ join_with slash (take (S n) parts)) <$> seq 0 (length parts))).
  { apply Forall_fmap, Forall_forall. intros n Hn%list_elem_of_In%in_seq. cbn [compose].
    assert (Hlen : (0 < length (take (S n) parts) ≤ length parts)%nat) by (rewrite length_take; lia).
    assert (Hne : take (S n) parts ≠ []) by (intros E; rewrite E in Hlen; cbn in Hlen; lia).
    destruct (Hd (length (take (S n) parts)) Hlen) as (m & t & Hk).
    exists (MkInfo Directory 0 m t). split; [|done].
    assert (Hpt : plain (take (S n) parts)) by (destruct Hp; split; by apply Forall_take).
    unfold Stat, stat_with, lookup_path, resolve.
    change ("/" +:+ join_with slash (take (S n) parts)) with (abs_path (take (S n) parts)).
    destruct (String.eqb_spec (abs_path (take (S n) parts)) "") as [E|_]; [done|].
    destruct (abs_comps _ Hpt) as [_ ->]. rewrite name_comps_abs by done.
    rewrite <- (app_nil_r (take (S n) parts)) at 1.
    rewrite (walk_dirs max_links s true [] (take (S n) parts) []).
    - rewrite length_take in Hk. rewrite length_take in Hlen. replace (Nat.min (S n) (length parts)) with (S n) in Hk by lia.
      unfold max_links. cbn [walk app mbind result_bind].
      unfold node_at. destruct (take (S n) parts) eqn:Et; [done|]. rewrite Hk. done.
    - by destruct Hpt.
    - intros k Hk'. rewrite take_take. cbn [app]. apply Hd. rewrite length_take in Hk'. lia. }
  revert Hall. generalize ((λ n, "/" +:+ join_with slash (take (S n) parts)) <$> seq 0 (length parts)).
  intros ps Hall. induction Hall as [|p ps (i & Hi & Hdir) _ IH]; [done|]. cbn [mkdir_prefixes].
  unfold mbind, io_bind, attempt. rewrite Hi, Hdir. exact IH.
Qed.

(** What [with_file_lock] comes down to when the directory is there: the lock is
    not taken, or the body runs while the lock file exists and the lock file is
    removed afterwards. *)
Lemma with_file_lock_cases {E A} (inj : lock_error → E) fuel clock parts name (fn : io E A) s :
  plain parts → plain [name] → plain [name +:+ ".lock"] → real_dirs s parts →
  (∀ m t, entries s !! (parts ++ [name +:+ ".lock"]) ≠ Some (NDir m t)) →
  let lockPath := abs_path (parts ++ [name +:+ ".lock"]) in
  with_file_lock inj fuel clock (target_path parts name) fn s =
    match lock_loop fuel clock 1 (clock 0%nat + lock_timeout) lockPath s with
    | (Ok _, s1) => (fst (fn s1), snd (Remove lockPath (snd (fn s1))))
    | (Err e, s1) => (Err (inj e), s1)
    end.
Proof.
  intros Hp Hn Hl Hd Hdir lockPath. unfold with_file_lock, mbind, io_bind, wrap_io, attempt, lift.
  unfold target_path at 1, target at 1. rewrite abs_Dir by (done || by destruct Hn as [[? _]%Forall_cons _]).
  rewrite MkdirAll_noop by done. cbn [wrap_err].
  assert (target_path parts name +:+ ".lock" = lockPath) as ->.
  { unfold target_path, target, lockPath, render_path.
    destruct (decide (parts = [])) as [->|Hne]; [done|]. rewrite !join_with_snoc by done.
    change (String slash (join_with slash parts +:+ String slash name) +:+ ".lock")
      with (String slash ((join_with slash parts +:+ String slash name) +:+ ".lock")). by rewrite str_app_assoc. }
  destruct (lock_loop _ _ _ _ _ s) as [[[]|e] s1]; cbn [wrap_err]; [|done].
  destruct (fn s1) as [r s2]. cbn [fst snd]. by destruct (Remove lockPath s2).
Qed.

Lemma with_file_lock_ext {E A} (inj : lock_error → E) fuel clock path (f g : io E A) s :
  (∀ w, f w = g w) → with_file_lock inj fuel clock path f s = with_file_lock inj fuel clock path g s.
Proof.
  intros Hfg. unfold with_file_lock, mbind, io_bind, attempt. 
  destruct (wrap_io _ (MkdirAll _ _) s) as [[[]|] s1]; [|done]. destruct (wrap_io inj _ s1) as [[[]|] s2]; [|done].
  by rewrite Hfg.
Qed.

(** ** Read, modify, write *)

Lemma replaced_dirs s parts k data s' : replaced s (parts ++ [k]) data s' → real_dirs s parts → real_dirs s' parts.
Proof. intros (He & _) Hd. eapply real_dirs_file; [right; eexists; exact He|done]. Qed.

Lemma inodes_known_replaced s k data s' : inodes_known s → replaced s k data s' → inodes_known s'.
Proof.
  intros Hk (He & (_ & Hn & _) & _ & Hlt) k' i. rewrite He.
  intros [[_ [= <-]]|[_ Hl]]%lookup_insert_Some; [done|]. apply Hk in Hl. lia.
Qed.

(** Taking the lock adds the lock file, after removing a stale one. *)
Lemma lock_loop_taken parts lock clock deadline fuel n s r s' :
  plain parts → plain [lock] → real_dirs s parts → (∀ m t, entries s !! (parts ++ [lock]) ≠ Some (NDir m t)) →
  lock_loop fuel clock n deadline (abs_path (parts ++ [lock])) s = (r, s') →
  match r with
  | Ok _ => (∃ i, entries s' = <[parts ++ [lock] := NFile i]> (entries s) ∧ (i < next_ino s')%nat) ∧ keeps_files s s'
  | Err e => e ≠ LOutOfFuel → s' = s
  end.
Proof.
  intros Hp Hl Hd Hdir. revert n. induction fuel as [|fuel IH]; intros n; [by intros [= <- <-]|].
  destruct (entries s !! (parts ++ [lock])) as [node|] eqn:E.
  - rewrite (lock_turn parts lock clock deadline Hp Hl fuel n s node Hd E). cbv zeta.
    destruct (match fst (Stat _ s) with Ok _ => _ | Err _ => _ end).
    + assert (∃ s2, Remove (abs_path (parts ++ [lock])) s = (Ok tt, s2) ∧
        entries s2 = delete (parts ++ [lock]) (entries s) ∧ keeps_files s s2) as (s2 & -> & He & Hk).
      { unfold Remove. rewrite lookup_abs by done. rewrite E.
        destruct node; [|exfalso; by eapply Hdir|]; (eexists; split; [done|]; split; [done|split; [done|split; [cbn; lia|done]]]). }
      cbn [snd]. destruct fuel as [|fuel]; [by intros [= <- <-]|].
      destruct (lock_free parts lock clock deadline Hp Hl fuel (S n) s2) as (s3 & Hf & He3 & Hk3 & _ & Hlt).
      * eapply real_dirs_file; [left; exact He|done].
      * by rewrite He, lookup_delete_eq.
      * rewrite Hf. intros [= <- <-]. split; [|by etrans]. eexists. split; [|exact Hlt].
        by rewrite He3, He, insert_delete_eq.
    + destruct (clock n >? deadline); [by intros [= <- <-]|]. apply IH.
  - destruct (lock_free parts lock clock deadline Hp Hl fuel n s Hd E) as (s3 & -> & He & Hk & _ & Hlt).
    intros [= <- <-]. split; [|done]. by eexists.
Qed.

Lemma walk_last_missing links s cur c :
  safe_part c = true → entries s !! (cur ++ [c]) = None → walk links s true cur [c] = Ok (cur ++ [c]).
Proof. intros Hc He. destruct links; simpl; rewrite plain_not_dotdot, He by done; done. Qed.

Lemma ReadFile_pure p s : ReadFile p s = (fst (ReadFile p s), s).
Proof. unfold ReadFile. cbn [fst]. reflexivity. Qed.

(** What a regular file or its absence reads as. *)
Lemma ReadFile_missing s parts c :
  plain parts → plain [c] → real_dirs s parts → entries s !! (parts ++ [c]) = None →
  ReadFile (abs_path (parts ++ [c])) s = (Err ENOENT, s).
Proof.
  intros Hp Hc Hd He. assert (Hpc : plain (parts ++ [c])) by by apply plain_app.
  unfold ReadFile, lookup_path, resolve. destruct (String.eqb_spec (abs_path (parts ++ [c])) "") as [E|_]; [done|].
  destruct (abs_comps _ Hpc) as [_ ->]. rewrite name_comps_abs by done.
  rewrite (walk_dirs max_links s true [] parts [c]); [|by destruct Hp|by intros n Hn; apply Hd].
  rewrite walk_last_missing by (done || by destruct Hc as [_ [? _]%Forall_cons]).
  cbn [mbind result_bind]. rewrite node_at_snoc. cbn [app]. by rewrite He.
Qed.

Definition file_or_none (s : fs) (k : key) : Prop := ∀ n, entries s !! k = Some n → ∃ i, n = NFile i.

Lemma ReadFile_same s s' parts c :
  plain parts → plain [c] → real_dirs s parts → real_dirs s' parts →
  file_or_none s (parts ++ [c]) → entries s' !! (parts ++ [c]) = entries s !! (parts ++ [c]) →
  inodes_known s → keeps_files s s' →
  fst (ReadFile (abs_path (parts ++ [c])) s') = fst (ReadFile (abs_path (parts ++ [c])) s).
Proof.
  intros Hp Hc Hd Hd' Hf He Hk (_ & _ & Hi). destruct (entries s !! (parts ++ [c])) as [n|] eqn:E.
  - destruct (Hf n E) as (i & ->). rewrite (ReadFile_abs s' parts c i) by done.
    rewrite (ReadFile_abs s parts c i) by done. cbn. unfold inode_at. rewrite Hi; [done|by eapply Hk].
  - rewrite (ReadFile_missing s' parts c), (ReadFile_missing s parts c) by done. done.
Qed.

(** The body of the locked updates: read the file, compute the new data, replace
    the file. *)
Definition read_modify_write {E} (inj : fs_error → E) (commit : disk_faults → string → string → io fs_error unit)
    (fl : disk_faults) (randoms : list string) (prefix path : string) (modify : result fs_error bytes → result E bytes)
    : io E unit :=
  old ← attempt (ReadFile path);
  data ← lift (modify old);
  wrap_io inj (replace_file commit fl randoms prefix path data).

Section update.
Context {E : Type} (injl : lock_error → E) (inj : fs_error → E).
Context (commit : disk_faults → string → string → io fs_error unit) (safe : disk_faults → Prop) `{!AtomicCommit commit safe}.
Context (parts : list string) (name prefix : string) (randoms : list string).
Hypothesis parts_plain : plain parts.
Hypothesis name_plain : plain [name].
Hypothesis lock_plain : plain [name +:+ ".lock"].
Hypothesis temps : Forall (λ r, plain [prefix +:+ r +:+ ".tmp"] ∧ prefix +:+ r +:+ ".tmp" ≠ name) randoms.

(** The directory exists, the file is a regular file or missing, the lock is no
    directory. *)
Record updatable (s : fs) : Prop := {
  up_dirs : real_dirs s parts;
  up_file : file_or_none s (parts ++ [name]);
  up_lock : ∀ m t, entries s !! (parts ++ [name +:+ ".lock"]) ≠ Some (NDir m t);
  up_known : inodes_known s;
}.

Lemma lock_not_target : parts ++ [name +:+ ".lock"] ≠ parts ++ [name].
Proof using Type.
  intros Hx%app_inv_head. injection Hx as Hx. apply (f_equal to_bytes), (f_equal length) in Hx.
  rewrite to_bytes_app, length_app in Hx. change (length (to_bytes ".lock")) with 5%nat in Hx. lia.
Qed.

(** Removing the lock keeps what the body left. *)
Lemma remove_lock s li :
  real_dirs s parts → entries s !! (parts ++ [name +:+ ".lock"]) = Some (NFile li) →
  file_or_none s (parts ++ [name]) → inodes_known s →
  let s' := snd (Remove (abs_path (parts ++ [name +:+ ".lock"])) s) in
  updatable s' ∧ fst (ReadFile (target_path parts name) s') = fst (ReadFile (target_path parts name) s).
Proof using parts_plain name_plain lock_plain.
  intros Hd Hl Hf Hk. unfold Remove. rewrite lookup_abs by done. rewrite Hl. cbn [snd].
  assert (Hd' : real_dirs (del_entry s (parts ++ [name +:+ ".lock"])) parts)
    by (eapply real_dirs_file; [left; reflexivity|done]).
  assert (Ht : entries (del_entry s (parts ++ [name +:+ ".lock"])) !! (parts ++ [name]) = entries s !! (parts ++ [name]))
    by (cbn; apply lookup_delete_ne, lock_not_target).
  split; [split; [done| | |]|].
  - intros n. rewrite Ht. apply Hf.
  - intros m t. cbn. by rewrite lookup_delete_eq.
  - intros k i. cbn. intros [_ Hx]%lookup_delete_Some. by eapply Hk.
  - unfold target_path, target. by apply ReadFile_same.
Qed.

Lemma locked_update fl fuel clock modify s N :
  updatable s → safe fl → (∀ m, (N ≤ m)%nat → clock 0%nat + lock_timeout < clock m) → (N + 1 < fuel)%nat →
  let path := target_path parts name in
  let old := fst (ReadFile path s) in
  match with_file_lock injl fuel clock path
          (read_modify_write inj commit fl randoms prefix path modify) s with
  | (Ok _, s') => updatable s' ∧ ∃ data, modify old = Ok data ∧ fst (ReadFile path s') = Ok data
  | (Err e, s') => updatable s' ∧ fst (ReadFile path s') = old ∧
      (e = injl LTimedOut ∨ (∃ fe, e = injl (LFS fe)) ∨ modify old = Err e ∨ ∃ fe, e = inj fe)
  end.
Proof using All.
  intros [Hd Hf Hl Hk] Hsafe Hclock Hfuel path old. unfold path at 1. rewrite with_file_lock_cases by done.
  set (lockPath := abs_path (parts ++ [name +:+ ".lock"])).
  pose proof lock_not_target as Hne.
  pose proof (lock_loop_ends parts (name +:+ ".lock") clock (clock 0%nat + lock_timeout) parts_plain lock_plain N fuel 1 s Hd Hl Hclock ltac:(lia)) as Hends.
  destruct (lock_loop _ _ _ _ _ s) as [r s1] eqn:El.
  pose proof (lock_loop_taken parts (name +:+ ".lock") clock _ fuel 1 s r s1 parts_plain lock_plain Hd Hl El) as Ht.
  destruct r as [u|e].
  2:{ cbn [fst] in Hends. assert (Hne' : e ≠ LOutOfFuel) by (intros ->; by apply Hends). rewrite (Ht Hne').
      split; [by split|]. split; [done|]. destruct e; [right; left; by eexists|by left|done]. }
  destruct Ht as [(li & He1 & Hli) Hk1]. clear Hends El.
  assert (Hd1 : real_dirs s1 parts) by (eapply real_dirs_file; [right; eexists; exact He1|done]).
  assert (Ht1 : entries s1 !! (parts ++ [name]) = entries s !! (parts ++ [name])) by (rewrite He1; by apply lookup_insert_ne).
  assert (Hk1' : inodes_known s1).
  { intros k i. rewrite He1. intros [[_ [= <-]]|[_ Hx]]%lookup_insert_Some; [done|].
    apply Hk in Hx. destruct Hk1 as (_ & ? & _). lia. }
  assert (Hf1 : file_or_none s1 (parts ++ [name])) by (intros n; rewrite Ht1; apply Hf).
  assert (Hl1 : entries s1 !! (parts ++ [name +:+ ".lock"]) = Some (NFile li)) by (rewrite He1; by rewrite lookup_insert_eq).
  assert (Hold : fst (ReadFile path s1) = old) by (by apply ReadFile_same).
  unfold read_modify_write, mbind, io_bind, attempt, lift.
  rewrite ReadFile_pure, Hold. cbv beta iota.
  destruct (modify old) as [data|e] eqn:Em; cbv beta iota.
  2:{ cbn [fst snd]. pose proof (remove_lock s1 li Hd1 Hl1 Hf1 Hk1') as [? Hs1].
      fold lockPath path in Hs1. split; [done|]. rewrite Hs1. split; [done|]. right; right; by left. }
  assert (Hrep : replaceable parts name s1).
  { split; [done|]. intros m t Hx. by destruct (Hf1 _ Hx). }
  pose proof (replace_file_spec commit safe parts name prefix randoms fl data s1 s1 parts_plain name_plain Hrep Hk1' temps
    (MkdirAll_noop s1 parts 448 parts_plain Hd1) Hsafe) as Hrf.
  unfold wrap_io. fold path in Hrf. destruct (replace_file commit fl randoms prefix path data s1) as [[[]|fe] s2]; cbn [wrap_err fst snd].
  - destruct Hrf as [Hr Hread]. destruct Hr as (He2 & Hk2 & Hrest).
    assert (Hr : replaced s1 (parts ++ [name]) data s2) by by split.
    destruct (remove_lock s2 li) as [? Hsame].
    + by eapply replaced_dirs.
    + rewrite He2. by rewrite lookup_insert_ne.
    + intros n. rewrite He2. unfold target. rewrite lookup_insert_eq. intros [= <-]. by eexists.
    + by eapply inodes_known_replaced.
    + fold lockPath path in Hsame. split; [done|]. exists data. split; [done|]. by rewrite Hsame.
  - destruct Hrf as [(He2 & Hk2) Hread]. destruct (remove_lock s2 li) as [? Hsame].
    + intros i Hi. destruct (Hd1 i Hi) as (m & t & Hx). exists m, t. by rewrite He2.
    + by rewrite He2.
    + intros n. rewrite He2. apply Hf1.
    + intros k i. rewrite He2. intros Hx%Hk1'. destruct Hk2 as (_ & ? & _). lia.
    + fold lockPath path in Hsame. split; [done|]. rewrite Hsame, Hread. split; [done|]. do 3 right. by eexists.
Qed.
End update.
