(* ===== verification/NoteDocument.v ===== *)
(** * Notepad documents and frames ([internal/note/document.go], [protocol.go])

    A workspace maps pad names to documents.  Replicas exchange documents and
    keep, per pad, the greatest in the order revision, timestamp, text; the
    theorems show that this order is total, that replicas which saw the same
    documents agree whatever the order of arrival, and that a local edit wins
    over what it replaced as long as the counters do not overflow. *)
From Stdlib Require Import ZArith Lia Ascii String.
From stdpp Require Import base tactics numbers list gmap strings.
From S2P Require Import Prelude GoStrings.

Definition DefaultPad : string := "main".
Definition MaxTextSize : Z := Z.shiftl 1 20.
Definition MaxPadSize : Z := 64.

Record Document := MkDocument {
  Pad : string;
  Text : string;
  Revision : Z;    (* uint64 *)
  Timestamp : Z;   (* int64 *)
}.
Definition zero_document : Document := MkDocument "" "" 0 0.

#[export] Instance Document_eq_dec : EqDecision Document.
Proof. solve_decision. Defined.
#[export] Instance Document_countable : Countable Document.
Proof.
  by apply (inj_countable' (fun d => (Pad d, Text d, Revision d, Timestamp d))
    (fun '(p, t, r, s) => MkDocument p t r s)); intros [].
Defined.

(** The map of a [Workspace]; its mutex serialises the operations. *)
Record Workspace := MkWorkspace { docs : gmap string Document }.
Definition NewWorkspace : Workspace := MkWorkspace ∅.

Inductive note_error :=
  | PadEmpty
  | PadTooLong
  | PadCharacters
  | TextTooLong
  | RevisionNotPositive
  | TimestampNotPositive
  | FrameVersion (v : Z)
  | AckRevisionNotPositive
  | FrameTypeUnsupported (ty : string).

#[export] Instance note_error_eq_dec : EqDecision note_error.
Proof. solve_decision. Defined.

Definition NormalizePad (pad : string) : string :=
  let pad := TrimSpace pad in
  if String.eqb pad "" then DefaultPad else pad.

(** ["\x00\r\n"] *)
Definition pad_forbidden : string := of_bytes (byte_of <$> [0; 13; 10]%nat).

Definition ValidatePad (pad : string) : result note_error unit :=
  _ ← fail_if (String.eqb pad "") PadEmpty;
  _ ← fail_if (str_len pad >? MaxPadSize) PadTooLong;
  fail_if (contains_any pad pad_forbidden) PadCharacters.

Definition ValidateText (text : string) : result note_error unit :=
  fail_if (str_len text >? MaxTextSize) TextTooLong.

Definition ValidateDocument (document : Document) : result note_error unit :=
  _ ← ValidatePad (Pad document);
  _ ← ValidateText (Text document);
  _ ← fail_if (Revision document =? 0) RevisionNotPositive;
  fail_if (Timestamp document <=? 0) TimestampNotPositive.

Definition compareDocuments (left right : Document) : Z :=
  if Revision left <? Revision right then -1
  else if Revision left >? Revision right then 1
  else if Timestamp left <? Timestamp right then -1
  else if Timestamp left >? Timestamp right then 1
  else if str_ltb (Text left) (Text right) then -1
  else if str_ltb (Text right) (Text left) then 1
  else 0.

Definition currentDocument (pad : string) (document : Document) : Document :=
  if String.eqb (Pad document) ""
  then MkDocument pad (Text document) (Revision document) (Timestamp document)
  else document.

(** [w.docs[pad]]: a missing key reads as the zero document. *)
Definition doc_at (w : Workspace) (pad : string) : Document := default zero_document (docs w !! pad).

Definition Snapshot (w : Workspace) (pad : string) : Document :=
  let pad := NormalizePad pad in
  match docs w !! pad with
  | Some document => document
  | None => MkDocument pad "" 0 0
  end.

(** [now] is [now.UnixMilli()]. *)
Definition Update (w : Workspace) (pad text : string) (now : Z) : result note_error (Document * Workspace) :=
  let pad := NormalizePad pad in
  _ ← ValidatePad pad;
  _ ← ValidateText text;
  let current := doc_at w pad in
  let timestamp := if now <=? Timestamp current then wrap64 (Timestamp current + 1) else now in
  let document := MkDocument pad text (wrapu64 (Revision current + 1)) timestamp in
  Ok (document, MkWorkspace (<[pad := document]> (docs w))).

Definition Clear (w : Workspace) (pad : string) (now : Z) : result note_error (Document * Workspace) :=
  Update w pad "" now.

Definition with_pad (document : Document) (pad : string) : Document :=
  MkDocument pad (Text document) (Revision document) (Timestamp document).

Definition ApplyRemote (w : Workspace) (document : Document)
    : result note_error (bool * Document * Workspace) :=
  let document := with_pad document (NormalizePad (Pad document)) in
  _ ← ValidateDocument document;
  let current := doc_at w (Pad document) in
  if compareDocuments document current <=? 0
  then Ok (false, currentDocument (Pad document) current, w)
  else Ok (true, document, MkWorkspace (<[Pad document := document]> (docs w))).

(** ** Frames *)

Definition ProtocolVersion : Z := 1.
Definition FrameUpdate : string := "update".
Definition FrameClear : string := "clear".
Definition FrameAck : string := "ack".
Definition FramePing : string := "ping".
Definition FramePong : string := "pong".
Definition FrameBye : string := "bye".

Record Frame := MkFrame {
  FType : string;
  FVersion : Z;
  FPad : string;
  FRevision : Z;
  FTimestamp : Z;
  FText : string;
}.

#[export] Instance Frame_eq_dec : EqDecision Frame.
Proof. solve_decision. Defined.
#[export] Instance Frame_countable : Countable Frame.
Proof.
  by apply (inj_countable' (fun f => (FType f, FVersion f, FPad f, FRevision f, FTimestamp f, FText f))
    (fun '(a, b, c, d, e, g) => MkFrame a b c d e g)); intros [].
Defined.

Definition Frame_Document (f : Frame) : Document :=
  MkDocument (NormalizePad (FPad f)) (FText f) (FRevision f) (FTimestamp f).

Definition FrameFromDocument (frameType : string) (document : Document) : Frame :=
  MkFrame frameType ProtocolVersion (Pad document) (Revision document) (Timestamp document) (Text document).

Definition IsDocumentUpdate (f : Frame) : bool :=
  String.eqb (FType f) FrameUpdate || String.eqb (FType f) FrameClear.

Definition Frame_Validate (f : Frame) : result note_error unit :=
  _ ← fail_if (negb (FVersion f =? ProtocolVersion)) (FrameVersion (FVersion f));
  if String.eqb (FType f) FrameUpdate || String.eqb (FType f) FrameClear then
    ValidateDocument (Frame_Document f)
  else if String.eqb (FType f) FrameAck then
    _ ← ValidatePad (NormalizePad (FPad f));
    fail_if (FRevision f =? 0) AckRevisionNotPositive
  else if String.eqb (FType f) FramePing || String.eqb (FType f) FramePong || String.eqb (FType f) FrameBye then
    if negb (String.eqb (FPad f) "") then ValidatePad (NormalizePad (FPad f)) else Ok tt
  else Err (FrameTypeUnsupported (FType f)).

(** ** The order of documents *)

Definition doc_le (a b : Document) : Prop := compareDocuments a b ≤ 0.

Lemma compare_cases a b :
  (compareDocuments a b = -1 ∧ compareDocuments b a = 1) ∨
  (compareDocuments a b = 1 ∧ compareDocuments b a = -1) ∨
  (compareDocuments a b = 0 ∧ compareDocuments b a = 0 ∧
   Revision a = Revision b ∧ Timestamp a = Timestamp b ∧ Text a = Text b).
Proof.
  unfold compareDocuments. pose proof (str_ltb_asym (Text a) (Text b)).
  pose proof (str_ltb_total (Text a) (Text b)).
  repeat case_if; bool_prop; try lia; try (exfalso; by intuition congruence);
    first [left; split; reflexivity | right; left; split; reflexivity
          | right; right; split_and!; auto; lia].
Qed.

Lemma doc_le_refl a : doc_le a a.
Proof. unfold doc_le. destruct (compare_cases a a); lia. Qed.

Lemma doc_le_total a b : doc_le a b ∨ doc_le b a.
Proof. unfold doc_le. destruct (compare_cases a b); lia. Qed.

Lemma doc_le_antisym a b : doc_le a b → doc_le b a → Pad a = Pad b → a = b.
Proof.
  unfold doc_le. destruct (compare_cases a b) as [?|[?|(_ & _ & ? & ? & ?)]]; [lia|lia|].
  intros _ _ ?. destruct a, b; simpl in *; by subst.
Qed.

Lemma doc_le_lex a b :
  doc_le a b ↔ Revision a < Revision b ∨
    (Revision a = Revision b ∧
     (Timestamp a < Timestamp b ∨
      (Timestamp a = Timestamp b ∧ (str_ltb (Text a) (Text b) = true ∨ Text a = Text b)))).
Proof.
  unfold doc_le, compareDocuments. pose proof (str_ltb_asym (Text a) (Text b)).
  pose proof (str_ltb_total (Text a) (Text b)). pose proof (str_ltb_irrefl (Text a)) as Hi.
  split.
  - repeat case_if; bool_prop; try lia; intros _; intuition (try lia; auto).
  - repeat case_if; bool_prop; try lia; intros Hc; exfalso; intuition (try lia; try congruence).
Qed.

Lemma doc_le_trans a b c : doc_le a b → doc_le b c → doc_le a c.
Proof.
  rewrite !doc_le_lex. pose proof (str_ltb_trans (Text a) (Text b) (Text c)).
  intros [?|(?&[?|(?&[?|E])])] [?|(?&[?|(?&[?|E'])])];
    rewrite ?E, ?E' in *; intuition (try lia; auto).
Qed.

(** ** Workspaces *)

Lemma NormalizePad_idemp pad : NormalizePad (NormalizePad pad) = NormalizePad pad.
Proof.
  unfold NormalizePad. destruct (String.eqb (TrimSpace pad) "") eqn:E; [by vm_compute|].
  by rewrite TrimSpace_idemp, E.
Qed.

Lemma NormalizePad_ne pad : NormalizePad pad ≠ ""%string.
Proof. unfold NormalizePad. case_if; [done|]. by apply String.eqb_neq. Qed.

(** A document as a replica stores it. *)
Definition doc_ok (d : Document) : Prop := ValidateDocument d = Ok tt ∧ NormalizePad (Pad d) = Pad d.

Definition ws_ok (w : Workspace) : Prop :=
  ∀ p d, docs w !! p = Some d → Pad d = p ∧ doc_ok d ∧ in_uint64 (Revision d) ∧ in_int64 (Timestamp d).

(** The counters of a decoded document fit their Go types. *)
Definition doc_typed (d : Document) : Prop := in_uint64 (Revision d) ∧ in_int64 (Timestamp d).

Lemma doc_ok_pos d : ValidateDocument d = Ok tt → Revision d ≠ 0 ∧ 0 < Timestamp d.
Proof. unfold ValidateDocument. intros ?. res_inv. bool_prop. lia. Qed.

Lemma zero_lt_doc d : ValidateDocument d = Ok tt → in_uint64 (Revision d) → 0 < compareDocuments d zero_document.
Proof.
  intros [? ?]%doc_ok_pos Hu. unfold in_uint64 in Hu. unfold compareDocuments. cbn [zero_document Revision].
  repeat case_if; bool_prop; lia.
Qed.

Lemma doc_at_le_refl w p : doc_le (doc_at w p) (doc_at w p).
Proof. apply doc_le_refl. Qed.

(** What accepting a document does to the pads. *)
Lemma ApplyRemote_spec w d :
  match ApplyRemote w d with
  | Err e => ValidateDocument (with_pad d (NormalizePad (Pad d))) = Err e
  | Ok (changed, shown, w') =>
      let d' := with_pad d (NormalizePad (Pad d)) in
      ValidateDocument d' = Ok tt ∧
      (∀ p, doc_at w' p = if decide (p = Pad d' ∧ changed = true) then d' else doc_at w p) ∧
      (changed = true ↔ ¬ doc_le d' (doc_at w (Pad d'))) ∧
      doc_le d' (doc_at w' (Pad d')) ∧ doc_le (doc_at w (Pad d')) (doc_at w' (Pad d')) ∧
      (docs w' = if changed then <[Pad d' := d']> (docs w) else docs w) ∧
      shown = currentDocument (Pad d') (doc_at w' (Pad d'))
  end.
Proof.
  unfold ApplyRemote. set (d' := with_pad d _).
  destruct (ValidateDocument d') as [[]|e]; [|done]. cbn [mbind result_bind].
  destruct (compareDocuments d' (doc_at w (Pad d')) <=? 0) eqn:E; bool_prop; cbn zeta.
  - split_and!; try done; try apply doc_le_refl.
    intros p. case_decide as Hd; [by destruct Hd|done].
  - split; [done|]. split.
    { intros p. unfold doc_at at 1. cbn [docs]. case_decide as Hd.
      - destruct Hd as [-> _]. by rewrite lookup_insert_eq.
      - rewrite lookup_insert_ne; [done|]. intros <-. by apply Hd. }
    assert (Hat : doc_at (MkWorkspace (<[Pad d' := d']> (docs w))) (Pad d') = d')
      by (unfold doc_at; cbn [docs]; by rewrite lookup_insert_eq).
    assert (doc_le (doc_at w (Pad d')) d').
    { destruct (doc_le_total (doc_at w (Pad d')) d') as [?|Hle]; [done|]. unfold doc_le in Hle. exfalso. lia. }
    rewrite Hat. split; [|split_and!; try done; try apply doc_le_refl].
    + split; [|done]. unfold doc_le. intros _ ?. lia.
    + unfold currentDocument. destruct (String.eqb (Pad d') "") eqn:Ep; [|done].
      apply String.eqb_eq in Ep. by apply NormalizePad_ne in Ep.
Qed.

Lemma ApplyRemote_ok w d changed shown w' :
  ws_ok w → doc_typed d → ApplyRemote w d = Ok (changed, shown, w') → ws_ok w'.
Proof.
  intros Hw [Hr Ht] Ha. pose proof (ApplyRemote_spec w d) as Hs. rewrite Ha in Hs.
  destruct Hs as (Hv & _ & _ & _ & _ & Hd & _). unfold ws_ok. rewrite Hd. destruct changed; [|done].
  intros p d0 [[<- <-]|[_ Hl]]%lookup_insert_Some; [|by apply Hw].
  split_and!; try done. split; [done|]. apply NormalizePad_idemp.
Qed.

(** Remote documents arriving one after another; refused ones are dropped. *)
Fixpoint apply_all (w : Workspace) (ds : list Document) : Workspace :=
  match ds with
  | [] => w
  | d :: ds' => apply_all (match ApplyRemote w d with Ok (_, _, w') => w' | Err _ => w end) ds'
  end.

(** The documents of [ds] a replica accepts for pad [p]. *)
Definition accepted_for (ds : list Document) (p : string) (d' : Document) : Prop :=
  ∃ d, d ∈ ds ∧ d' = with_pad d (NormalizePad (Pad d)) ∧ Pad d' = p ∧ ValidateDocument d' = Ok tt.

(** The final document of a pad is the greatest of the initial and the accepted. *)
Lemma apply_all_max w ds p :
  (∀ d', accepted_for ds p d' → doc_le d' (doc_at (apply_all w ds) p)) ∧
  doc_le (doc_at w p) (doc_at (apply_all w ds) p) ∧
  (doc_at (apply_all w ds) p = doc_at w p ∨ accepted_for ds p (doc_at (apply_all w ds) p)).
Proof.
  revert w. induction ds as [|d ds IH]; intros w; simpl.
  { split_and!; [by intros ? (? & ?%not_elem_of_nil & _)|apply doc_le_refl|by left]. }
  set (w1 := match ApplyRemote w d with Ok (_, _, w') => w' | Err _ => w end).
  destruct (IH w1) as (H1 & H2 & H3). set (f := doc_at (apply_all w1 ds) p) in *.
  assert (Hacc : ∀ d', accepted_for (d :: ds) p d' ↔
    (d' = with_pad d (NormalizePad (Pad d)) ∧ Pad d' = p ∧ ValidateDocument d' = Ok tt) ∨ accepted_for ds p d').
  { intros d'. unfold accepted_for. setoid_rewrite elem_of_cons. naive_solver. }
  pose proof (ApplyRemote_spec w d) as Hs.
  destruct (ApplyRemote w d) as [[[changed shown] w']|e]; cbn zeta in Hs.
  - destruct Hs as (Hv & Hat & Hch & Hle & Hold & _ & _). subst w1.
    assert (Hmono : doc_le (doc_at w p) (doc_at w' p)).
    { destruct (decide (p = Pad (with_pad d (NormalizePad (Pad d))))) as [->|Hp]; [exact Hold|].
      rewrite (Hat p), decide_False by (by intros []). apply doc_le_refl. }
    split_and!.
    + intros d' [(-> & <- & _)|?]%Hacc; [|by apply H1]. by eapply doc_le_trans; [exact Hle|].
    + by eapply doc_le_trans.
    + destruct H3 as [H3|H3]; [|right; apply Hacc; by right]. rewrite H3, (Hat p). destruct (decide _) as [Hd|_]; [|by left].
      destruct Hd as [-> _]. right. apply Hacc. left. by split_and!.
  - subst w1. split_and!; [|done|].
    + intros d' [(-> & _ & Hv)|?]%Hacc; [congruence|by apply H1].
    + destruct H3; [by left|right; apply Hacc; by right].
Qed.

Lemma accepted_for_pad ds p d : accepted_for ds p d → Pad d = p.
Proof. by intros (? & _ & _ & ? & _). Qed.

Lemma accepted_for_incl ds1 ds2 p d :
  (∀ d, d ∈ ds1 → d ∈ ds2) → accepted_for ds1 p d → accepted_for ds2 p d.
Proof. intros Hi (d0 & ? & ?). exists d0. split; [by apply Hi|done]. Qed.

Lemma apply_all_ok w ds : ws_ok w → Forall doc_typed ds → ws_ok (apply_all w ds).
Proof.
  intros Hw Hds. revert w Hw. induction Hds as [|d ds Hd _ IH]; intros w Hw; simpl; [done|].
  apply IH. destruct (ApplyRemote w d) as [[[c s] w']|e] eqn:E; [|done]. by eapply ApplyRemote_ok.
Qed.

Lemma Snapshot_doc_at w pad :
  ws_ok w → Snapshot w pad = with_pad (doc_at w (NormalizePad pad)) (NormalizePad pad).
Proof.
  intros Hw. unfold Snapshot, doc_at. destruct (docs w !! NormalizePad pad) as [d|] eqn:E; [|done].
  apply Hw in E as [E _]. rewrite <- E. by destruct d.
Qed.

(** C13: replicas converge: workspaces that started equal and received the same
    documents, in any order and any number of times, show the same document for
    every pad, and that is the greatest of the original and all accepted ones. *)
Theorem workspace_convergence w ds1 ds2 :
  ws_ok w → (∀ d, d ∈ ds1 ↔ d ∈ ds2) → Forall doc_typed ds1 →
  ∀ pad, Snapshot (apply_all w ds1) pad = Snapshot (apply_all w ds2) pad ∧
    ∀ d', accepted_for ds1 (NormalizePad pad) d' → doc_le d' (Snapshot (apply_all w ds1) pad).
Proof.
  intros Hw Hds Hty pad. set (p := NormalizePad pad).
  destruct (apply_all_max w ds1 p) as (A1 & A2 & A3). destruct (apply_all_max w ds2 p) as (B1 & B2 & B3).
  assert (Hinc1 : ∀ d, accepted_for ds1 p d → accepted_for ds2 p d)
    by (intros d; apply accepted_for_incl; intros; by apply Hds).
  assert (Hinc2 : ∀ d, accepted_for ds2 p d → accepted_for ds1 p d)
    by (intros d; apply accepted_for_incl; intros; by apply Hds).
  assert (L1 : doc_le (doc_at (apply_all w ds1) p) (doc_at (apply_all w ds2) p))
    by (destruct A3 as [->|A3]; eauto).
  assert (L2 : doc_le (doc_at (apply_all w ds2) p) (doc_at (apply_all w ds1) p))
    by (destruct B3 as [->|B3]; eauto).
  assert (Hok1 : ws_ok (apply_all w ds1)) by by apply apply_all_ok.
  assert (Hok2 : ws_ok (apply_all w ds2)).
  { apply apply_all_ok; [done|]. apply Forall_forall. intros d Hd. rewrite Forall_forall in Hty.
    by apply Hty, Hds. }
  rewrite !Snapshot_doc_at by done. fold p. split.
  - apply doc_le_antisym; done.
  - intros d' Hd'. by apply A1.
Qed.

Definition demo_docs : list Document :=
  [MkDocument "main" "b" 1 20; MkDocument " main " "a" 1 20; MkDocument "side" "x" 4 9; MkDocument "main" "old" 1 3].

Lemma workspace_convergence_witness :
  Snapshot (apply_all NewWorkspace demo_docs) "main" = MkDocument "main" "b" 1 20 ∧
  Snapshot (apply_all NewWorkspace demo_docs) "main" =
  Snapshot (apply_all NewWorkspace (demo_docs ++ demo_docs)) "main".
Proof.
  split; [by vm_compute|]. refine (proj1 (workspace_convergence NewWorkspace demo_docs _ _ _ _ "main")).
  - intros p d. unfold NewWorkspace. cbn [docs]. by rewrite lookup_empty.
  - intros d. rewrite elem_of_app. tauto.
  - repeat constructor; vm_compute; discriminate.
Defined.

(** A local edit replaces the pad's document by a valid one that is strictly
    greater, so every replica that is not ahead takes it over, as long as the
    current revision and timestamp are not the last of their types; only a bad
    pad name or text is refused. *)
Theorem Update_wins w pad text now :
  let p := NormalizePad pad in
  ws_ok w → in_int64 now → Revision (doc_at w p) < uint64_max → Timestamp (doc_at w p) < int64_max →
  match Update w pad text now with
  | Err e => ValidatePad p = Err e ∨ ValidateText text = Err e
  | Ok (d, w') =>
      ws_ok w' ∧ Snapshot w' pad = d ∧ Pad d = p ∧ Text d = text ∧ ¬ doc_le d (doc_at w p) ∧
      (∀ q, q ≠ p → docs w' !! q = docs w !! q) ∧
      ∀ r, doc_le (doc_at r p) (doc_at w p) → ∃ r', ApplyRemote r d = Ok (true, d, r') ∧ doc_at r' p = d
  end.
Proof.
  intros p Hw Hnow Hr Ht. unfold Update. fold p.
  destruct (ValidatePad p) as [[]|e] eqn:Hp; [|by left]. cbn [mbind result_bind].
  destruct (ValidateText text) as [[]|e] eqn:Htx; [|by right]. cbn [mbind result_bind].
  set (cur := doc_at w p) in *. set (ts := if now <=? Timestamp cur then _ else _).
  assert (Hcur : 0 ≤ Revision cur ∧ 0 ≤ Timestamp cur).
  { unfold cur, doc_at. destruct (docs w !! p) as [c|] eqn:E; [|done].
    apply Hw in E as (_ & [Hv _] & [? _] & _). simpl. apply doc_ok_pos in Hv. lia. }
  assert (Hrev : wrapu64 (Revision cur + 1) = Revision cur + 1)
    by (apply wrapu64_id; unfold in_uint64, uint64_max in *; lia).
  assert (Hts : Timestamp cur < ts ∧ in_int64 ts).
  { unfold ts. case_if; bool_prop; [|done]. rewrite wrap64_id; unfold in_int64, int64_min, int64_max in *; lia. }
  set (d := MkDocument p text (wrapu64 (Revision cur + 1)) ts).
  assert (Hpn : NormalizePad p = p) by apply NormalizePad_idemp.
  assert (Hok : ValidateDocument d = Ok tt).
  { unfold ValidateDocument, d. cbn [Pad Text Revision Timestamp]. rewrite Hp, Htx, Hrev. cbn [mbind result_bind].
    unfold fail_if. replace (Revision cur + 1 =? 0) with false by (symmetry; apply Z.eqb_neq; lia).
    cbn [mbind result_bind]. by replace (ts <=? 0) with false by (symmetry; apply Z.leb_gt; lia). }
  assert (Hlt : ¬ doc_le d cur).
  { rewrite doc_le_lex. unfold d. cbn [Revision Timestamp Text]. rewrite Hrev. lia. }
  split_and!; try done.
  - intros q d0. cbn [docs]. intros [[<- <-]|[_ Hl]]%lookup_insert_Some; [|by apply Hw].
    split; [done|]. split; [by split|]. split; [apply wrapu64_range|by destruct Hts].
  - unfold Snapshot. fold p. cbn [docs]. by rewrite lookup_insert_eq.
  - intros q Hq. cbn [docs]. by rewrite lookup_insert_ne.
  - intros r Hle. unfold ApplyRemote.
    assert (with_pad d (NormalizePad (Pad d)) = d) as -> by (unfold with_pad, d; simpl; by rewrite Hpn).
    rewrite Hok. cbn [mbind result_bind].
    destruct (compareDocuments d (doc_at r (Pad d)) <=? 0) eqn:E; bool_prop.
    + exfalso. apply Hlt. by eapply doc_le_trans; [exact E|].
    + eexists. split; [done|]. unfold doc_at. cbn [docs d Pad]. by rewrite lookup_insert_eq.
Qed.

Definition demo_ws : Workspace := apply_all NewWorkspace demo_docs.

Lemma demo_ws_ok : ws_ok demo_ws.
Proof.
  apply apply_all_ok; [intros p d; unfold NewWorkspace; cbn [docs]; by rewrite lookup_empty|].
  repeat constructor; vm_compute; discriminate.
Qed.

Lemma Update_wins_witness :
  match Update demo_ws "main" "new" 7 with
  | Ok (d, w') => Snapshot w' "main" = d ∧ ¬ doc_le d (doc_at demo_ws "main")
  | Err _ => False
  end.
Proof.
  assert (E : is_ok (Update demo_ws "main" "new" 7) = true) by by vm_compute.
  pose proof (Update_wins demo_ws "main" "new" 7 demo_ws_ok) as H. cbv zeta in H.
  destruct (Update demo_ws "main" "new" 7) as [[d w']|e]; [|discriminate E].
  destruct H as (_ & ? & _ & _ & ? & _); [vm_compute; split; discriminate|by vm_compute..|]. by split.
Defined.

(** At the end of the counter the edit wraps to revision 0: a remote document
    with the last revision is accepted, and every later local edit is one that
    all peers refuse. *)
Lemma revision_wraps :
  ∃ w1 d w2, ApplyRemote NewWorkspace (MkDocument "main" "x" uint64_max 5) = Ok (true, MkDocument "main" "x" uint64_max 5, w1) ∧
    Update w1 "main" "mine" 9 = Ok (d, w2) ∧ Revision d = 0 ∧ ApplyRemote NewWorkspace d = Err RevisionNotPositive.
Proof. do 3 eexists. split; [by vm_compute|]. split; [by vm_compute|]. by vm_compute. Qed.

(** ** Frames carry documents *)

Lemma FrameFromDocument_Document ty d : NormalizePad (Pad d) = Pad d → Frame_Document (FrameFromDocument ty d) = d.
Proof. intros Hp. unfold Frame_Document, FrameFromDocument. simpl. rewrite Hp. by destruct d. Qed.

Lemma FrameFromDocument_valid ty d :
  (ty = FrameUpdate ∨ ty = FrameClear) → doc_ok d → Frame_Validate (FrameFromDocument ty d) = Ok tt.
Proof.
  intros Hty [Hv Hp]. unfold Frame_Validate. rewrite FrameFromDocument_Document by done. simpl.
  by destruct Hty as [-> | ->].
Qed.
