(* ===== verification/NoteSession.v ===== *)
(** * Notepad sessions ([internal/note/session.go], [workspace_sync.go])

    A session encrypts frames in each direction under its own key and numbers
    them.  The theorems: two peers with the same code finish the handshake with
    matching sessions; frames arrive as they were sent, in order, and a
    replayed, reordered or dropped envelope is refused; the exchange of
    snapshots leaves both workspaces with the greater document. *)
From Stdlib Require Import ZArith Lia Ascii String FunctionalExtensionality.
From stdpp Require Import base tactics numbers list gmap strings countable relations.
From S2P Require Import Prelude GoStrings Json Transport Secure Process NoteDocument.

Definition sessionInfoHostToJoin : string := "kigo-note-v1:host-to-join".
Definition sessionInfoJoinToHost : string := "kigo-note-v1:join-to-host".
Definition maxEnvelopeSize : Z := Z.shiftl 4 20.

(** [send] and [recv] are the two secure sessions. *)
Record Session := MkNoteSession {
  send : Secure.Session;
  recv : Secure.Session;
  sendSeq : Z;    (* uint64 *)
  recvSeq : Z;    (* uint64 *)
  host : bool;
  workspaceSync : bool;
  sclosed : bool;
}.

Record handshakeMessage := MkHandshake {
  HType : string; HVersion : Z; SenderNonce : string; ReceiverNonce : string; WorkspaceSync : bool
}.
Record envelope := MkEnvelope { EVersion : Z; Sequence : Z; Ciphertext : bytes }.

#[export] Instance handshake_eq_dec : EqDecision handshakeMessage.
Proof. solve_decision. Defined.
#[export] Instance handshake_countable : Countable handshakeMessage.
Proof.
  by apply (inj_countable' (fun h => (HType h, HVersion h, SenderNonce h, ReceiverNonce h, WorkspaceSync h))
    (fun '(a, b, c, d, e) => MkHandshake a b c d e)); intros [].
Defined.
#[export] Instance envelope_eq_dec : EqDecision envelope.
Proof. solve_decision. Defined.
#[export] Instance envelope_countable : Countable envelope.
Proof.
  by apply (inj_countable' (fun e => (EVersion e, Sequence e, Ciphertext e))
    (fun '(a, b, c) => MkEnvelope a b c)); intros [].
Defined.

Inductive session_error :=
  | SClosed
  | SCode (e : code_error)
  | SNote (e : note_error)
  | STransport (e : transport_error)
  | SEnvelopeTooLarge
  | SDecodeEnvelope
  | SEnvelopeVersion (v : Z)
  | SSequence (got want : Z)
  | SDecrypt (e : code_error)
  | SDecodeFrame
  | SHandshakeTooLarge
  | SDecodeHandshake
  | SHandshakeType (expected got : string)
  | SHandshakeVersion (v : Z)
  | SMissingSenderNonce
  | SMissingReceiverNonce
  | SPeerPad (peer local : string)
  | SExpectedPong (got : string)
  | SExpectedAck (got : string)
  | SExpectedSnapshot (got : string).

(** The strings [encoding/json] carries unchanged. *)
Definition frame_utf8 (f : Frame) : Prop :=
  utf8_valid (FType f) = true ∧ utf8_valid (FPad f) = true ∧ utf8_valid (FText f) = true.
Definition handshake_utf8 (h : handshakeMessage) : Prop :=
  utf8_valid (HType h) = true ∧ utf8_valid (SenderNonce h) = true ∧ utf8_valid (ReceiverNonce h) = true.
Definition envelope_any (e : envelope) : Prop := True.

Class NoteJSON := {
  note_frame_json :: JSON Frame frame_utf8;
  note_handshake_json :: JSON handshakeMessage handshake_utf8;
  note_envelope_json :: JSON envelope envelope_any;
}.

Section session.
Context `{CaseTables} `{Crypto} `{NoteJSON}.

(** ** Handshake *)

Definition sendPlain {S} (value : handshakeMessage) : sproc S session_error unit :=
  transport_send STransport (Marshal value).

Definition recvPlain {S} : sproc S session_error handshakeMessage :=
  payload ← transport_recv STransport;
  _ ← fail_if_proc (Z.of_nat (length payload) >? maxEnvelopeSize) SHandshakeTooLarge;
  match Unmarshal payload with
  | Some value => mret value
  | None => lift_result (Err SDecodeHandshake)
  end.

Definition validateHandshake (message : handshakeMessage) (expectedType : string) : result session_error unit :=
  _ ← fail_if (negb (String.eqb (HType message) expectedType)) (SHandshakeType expectedType (HType message));
  _ ← fail_if (negb (HVersion message =? ProtocolVersion)) (SHandshakeVersion (HVersion message));
  if String.eqb expectedType "hello" then fail_if (String.eqb (SenderNonce message) "") SMissingSenderNonce
  else if String.eqb expectedType "hello_ack" then
    fail_if (String.eqb (ReceiverNonce message) "") SMissingReceiverNonce
  else Ok tt.

(** [nonce] is what [secure.RandomNonce] draws; the pipe is the first channel of
    the transport. *)
Definition newSession (code : string) (is_host : bool) (nonce : string) : sproc unit session_error Session :=
  code ← lift_result (wrap_err SCode (ValidateCode code));
  '(senderNonce, receiverNonce, sync) ←
    (if is_host then
       _ ← sendPlain (MkHandshake "hello" ProtocolVersion nonce "" true);
       ack ← recvPlain;
       _ ← lift_result (validateHandshake ack "hello_ack");
       mret (nonce, ReceiverNonce ack, WorkspaceSync ack)
     else
       hello ← recvPlain;
       _ ← lift_result (validateHandshake hello "hello");
       _ ← sendPlain (MkHandshake "hello_ack" ProtocolVersion "" nonce (WorkspaceSync hello));
       mret (SenderNonce hello, nonce, WorkspaceSync hello));
  let '(sendInfo, recvInfo) :=
    if is_host then (sessionInfoHostToJoin, sessionInfoJoinToHost)
    else (sessionInfoJoinToHost, sessionInfoHostToJoin) in
  mret (MkNoteSession (NewSessionWithInfo code senderNonce receiverNonce sendInfo)
                      (NewSessionWithInfo code senderNonce receiverNonce recvInfo) 0 0 is_host sync false).

Definition NewHost (code nonce : string) := newSession code true nonce.
Definition NewJoin (code nonce : string) := newSession code false nonce.

(** ** Frames *)

Definition set_sendSeq (s : Session) (n : Z) : Session :=
  MkNoteSession (send s) (recv s) n (recvSeq s) (host s) (workspaceSync s) (sclosed s).
Definition set_recvSeq (s : Session) (n : Z) : Session :=
  MkNoteSession (send s) (recv s) (sendSeq s) n (host s) (workspaceSync s) (sclosed s).

(** The version is set, a document frame without a pad goes to the default. *)
Definition outgoing_frame (frame : Frame) : Frame :=
  MkFrame (FType frame) ProtocolVersion
    (if String.eqb (FPad frame) "" && IsDocumentUpdate frame then DefaultPad else FPad frame)
    (FRevision frame) (FTimestamp frame) (FText frame).

(** From the counter to the payload; the counter advances even when the
    payload turns out too large. *)
Definition seal_frame (s : Session) (body : bytes) : Session * result session_error bytes :=
  let sequence := wrapu64 (sendSeq s + 1) in
  let s := set_sendSeq s sequence in
  (s, ciphertext ← wrap_err SCode (Encrypt (Some (send s)) sequence body);
      let payload := Marshal (MkEnvelope ProtocolVersion sequence ciphertext) in
      _ ← fail_if (Z.of_nat (length payload) >? maxEnvelopeSize) SEnvelopeTooLarge;
      Ok payload).

Definition Session_Send (frame : Frame) : sproc Session session_error unit := fun s =>
  let frame := outgoing_frame frame in
  match Frame_Validate frame with
  | Err e => Ret (s, Err (SNote e))
  | Ok _ =>
      let body := Marshal frame in
      if sclosed s then Ret (s, Err SClosed)
      else match seal_frame s body with
           | (s, Err e) => Ret (s, Err e)
           | (s, Ok payload) => transport_send STransport payload s
           end
  end.

Definition open_envelope (s : Session) (payload : bytes) : result session_error (Frame * Session) :=
  _ ← fail_if (Z.of_nat (length payload) >? maxEnvelopeSize) SEnvelopeTooLarge;
  message ← match Unmarshal payload with Some m => Ok m | None => Err SDecodeEnvelope end;
  _ ← fail_if (negb (EVersion message =? ProtocolVersion)) (SEnvelopeVersion (EVersion message));
  let want := wrapu64 (recvSeq s + 1) in
  _ ← fail_if (negb (Sequence message =? want)) (SSequence (Sequence message) want);
  body ← wrap_err SDecrypt (Decrypt (Some (recv s)) (Sequence message) (Ciphertext message));
  frame ← match Unmarshal body with Some f => Ok f | None => Err SDecodeFrame end;
  _ ← wrap_err SNote (Frame_Validate frame);
  Ok (frame, set_recvSeq s (Sequence message)).

(** A session is unchanged by a payload it refuses. *)
Definition accept_payload (s : Session) (r : result session_error bytes) : Session * result session_error Frame :=
  match r with
  | Err e => (s, Err e)
  | Ok payload =>
      match open_envelope s payload with
      | Ok (frame, s') => (s', Ok frame)
      | Err e => (s, Err e)
      end
  end.

Definition Session_Recv : sproc Session session_error Frame := fun s =>
  if sclosed s then Ret (s, Err SClosed)
  else RecvMsg (fun r => Ret (accept_payload s (wrap_err STransport r))).

Definition Host (s : option Session) : bool := match s with Some s => host s | None => false end.
Definition WorkspaceSyncSupported (s : option Session) : bool :=
  match s with Some s => workspaceSync s | None => false end.

(** ** The exchange of snapshots *)

(** The state of [SyncWorkspace]: the session and the caller's workspace. *)
Definition sync_state : Type := Session * Workspace.
Definition on_session {A} : sproc Session session_error A → sproc sync_state session_error A :=
  on_part fst (fun s t => (s, snd t)).
Definition sync_fail {A} (e : session_error) : sproc sync_state session_error A := lift_result (Err e).

Definition snapshot_frame (document : Document) : Frame :=
  if Revision document =? 0 then MkFrame FramePing ProtocolVersion (Pad document) 0 0 ""
  else FrameFromDocument (if String.eqb (Text document) "" then FrameClear else FrameUpdate) document.

Definition check_snapshot_response (document : Document) (response : Frame) : result session_error unit :=
  _ ← fail_if (negb (String.eqb (NormalizePad (FPad response)) (NormalizePad (Pad document))))
        (SPeerPad (FPad response) (Pad document));
  if Revision document =? 0
  then fail_if (negb (String.eqb (FType response) FramePong)) (SExpectedPong (FType response))
  else fail_if (negb (String.eqb (FType response) FrameAck)) (SExpectedAck (FType response)).

Definition sendWorkspaceSnapshot (document : Document) : sproc sync_state session_error unit :=
  _ ← on_session (Session_Send (snapshot_frame document));
  response ← on_session Session_Recv;
  lift_result (check_snapshot_response document response).

Definition receiveWorkspaceSnapshot (pad : string) : sproc sync_state session_error (Document * bool) :=
  frame ← on_session Session_Recv;
  _ ← fail_if_proc (negb (String.eqb (NormalizePad (FPad frame)) pad)) (SPeerPad (FPad frame) pad);
  if String.eqb (FType frame) FramePing then
    _ ← on_session (Session_Send (MkFrame FramePong ProtocolVersion pad 0 0 ""));
    mret (zero_document, false)
  else if String.eqb (FType frame) FrameUpdate || String.eqb (FType frame) FrameClear then
    '(s, w) ← get_state;
    '(changed, current, w') ← lift_result (wrap_err SNote (ApplyRemote w (Frame_Document frame)));
    _ ← put_state (s, w');
    _ ← on_session (Session_Send (MkFrame FrameAck ProtocolVersion pad (Revision current) (Timestamp current) ""));
    mret (current, changed)
  else sync_fail (SExpectedSnapshot (FType frame)).

Definition SyncWorkspace (pad : string) : sproc sync_state session_error (list Document) :=
  '(s, _) ← get_state;
  if negb (WorkspaceSyncSupported (Some s)) then mret []
  else
    let pad := NormalizePad pad in
    _ ← lift_result (wrap_err SNote (ValidatePad pad));
    if Host (Some s) then
      '(_, w) ← get_state;
      _ ← sendWorkspaceSnapshot (Snapshot w pad);
      '(document, changed) ← receiveWorkspaceSnapshot pad;
      mret (if (changed : bool) then [document] else [])
    else
      '(document, changed) ← receiveWorkspaceSnapshot pad;
      '(_, w) ← get_state;
      _ ← sendWorkspaceSnapshot (Snapshot w pad);
      mret (if (changed : bool) then [document] else []).

(** ** Two linked sessions *)

(** What [a] sends next, [b] expects next. *)
Definition linked (a b : Session) : Prop := send a = recv b ∧ sendSeq a = recvSeq b.
Definition session_open (s : Session) : Prop := sclosed s = false.

(** The size of the envelope of a frame under a sequence number. *)
Definition envelope_of (s : Secure.Session) (seq : Z) (f : Frame) : bytes :=
  Marshal (MkEnvelope ProtocolVersion seq (gcm_seal (aead_key s) (session_nonce s seq) (Marshal f) (aad seq))).
(** The next [n] envelopes have room for [f]. *)
Definition fits (s : Session) (n : nat) (f : Frame) : Prop :=
  ∀ i, (1 ≤ i ≤ n)%nat →
    Z.of_nat (length (envelope_of (send s) (wrapu64 (sendSeq s + Z.of_nat i)) f)) ≤ maxEnvelopeSize.

Definition after_send (s : Session) : Session := set_sendSeq s (wrapu64 (sendSeq s + 1)).
Definition after_recv (s : Session) : Session := set_recvSeq s (wrapu64 (recvSeq s + 1)).

Lemma wrapu64_succ n i : wrapu64 (wrapu64 (n + i) + 1) = wrapu64 (n + (i + 1)).
Proof. unfold wrapu64. rewrite Zplus_mod_idemp_l. f_equal. lia. Qed.

Lemma fits_after s n f : fits s (S n) f → fits (after_send s) n f.
Proof.
  intros Hf i Hi. unfold after_send. cbn [set_sendSeq send sendSeq].
  replace (wrapu64 (wrapu64 (sendSeq s + 1) + Z.of_nat i)) with (wrapu64 (sendSeq s + Z.of_nat (S i))).
  { apply Hf. lia. }
  unfold wrapu64. rewrite Zplus_mod_idemp_l. f_equal. lia.
Qed.

Lemma seal_frame_fits s f :
  fits s 1 f →
  seal_frame s (Marshal f) = (after_send s, Ok (envelope_of (send s) (wrapu64 (sendSeq s + 1)) f)).
Proof.
  intros Hf. specialize (Hf 1%nat ltac:(lia)). unfold seal_frame, Encrypt. cbn [set_sendSeq send wrap_err mbind result_bind].
  unfold fail_if. fold (envelope_of (send s) (wrapu64 (sendSeq s + 1)) f).
  rewrite Z.gtb_ltb. change (Z.of_nat 1) with 1 in Hf.
  replace (_ <? _) with false by (symmetry; by apply Z.ltb_ge). done.
Qed.

(** One frame on a linked pair. *)
Lemma Session_Send_eq s f :
  session_open s → Frame_Validate (outgoing_frame f) = Ok tt → fits s 1 (outgoing_frame f) →
  Session_Send f s = SendMsg (envelope_of (send s) (wrapu64 (sendSeq s + 1)) (outgoing_frame f))
    (fun e => Ret (after_send s, match e with None => Ok tt | Some e => Err (STransport e) end)).
Proof.
  intros Hopen Hv Hf. unfold Session_Send. rewrite Hv, Hopen, seal_frame_fits by done. done.
Qed.

Lemma open_envelope_linked a b f :
  linked a b → frame_utf8 f → Frame_Validate f = Ok tt → fits a 1 f →
  open_envelope b (envelope_of (send a) (wrapu64 (sendSeq a + 1)) f) = Ok (f, after_recv b).
Proof.
  intros [Hs Hq] Hu Hv Hf. specialize (Hf 1%nat ltac:(lia)). change (Z.of_nat 1) with 1 in Hf.
  unfold open_envelope, fail_if. rewrite Z.gtb_ltb.
  replace (_ <? _) with false by (symmetry; by apply Z.ltb_ge). cbn [mbind result_bind].
  unfold envelope_of at 1. rewrite Unmarshal_Marshal by done. cbn [mbind result_bind EVersion Sequence Ciphertext].
  rewrite Z.eqb_refl. cbn [negb mbind result_bind]. rewrite Hq, Z.eqb_refl. cbn [negb mbind result_bind].
  unfold Decrypt. rewrite Hs, gcm_open_seal. cbn [wrap_err mbind result_bind].
  rewrite Unmarshal_Marshal by done. cbn [mbind result_bind]. rewrite Hv. done.
Qed.

Lemma linked_after a b : linked a b → linked (after_send a) (after_recv b).
Proof. intros [Hs Hq]. split; [done|]. unfold after_send, after_recv. simpl. by rewrite Hq. Qed.

(** ** Frames in sequence *)

Fixpoint send_frames (fs : list Frame) : sproc Session session_error unit :=
  match fs with
  | [] => mret tt
  | f :: fs => _ ← Session_Send f; send_frames fs
  end.
Fixpoint recv_frames (n : nat) : sproc Session session_error (list Frame) :=
  match n with
  | O => mret []
  | S n => f ← Session_Recv; fs ← recv_frames n; mret (f :: fs)
  end.

Definition sendable (f : Frame) : Prop :=
  Frame_Validate (outgoing_frame f) = Ok tt ∧ frame_utf8 (outgoing_frame f).

Fixpoint advance (n : nat) (next : Session → Session) (s : Session) : Session :=
  match n with O => s | S n => advance n next (next s) end.

Lemma deliver_frames fs a b {X Y} (ka : Session * result session_error unit → proc X)
    (kb : Session * result session_error (list Frame) → proc Y) :
  linked a b → session_open a → session_open b → Forall sendable fs →
  Forall (fun f => fits a (length fs) (outgoing_frame f)) fs →
  rtc step (MkConfig (send_frames fs a ≫= ka) (recv_frames (length fs) b ≫= kb) [] [])
    (MkConfig (ka (advance (length fs) after_send a, Ok tt))
              (kb (advance (length fs) after_recv b, Ok (outgoing_frame <$> fs))) [] []).
Proof.
  revert a b ka kb. induction fs as [|f fs IH]; intros a b ka kb Hl Ha Hb Hs Hf; [done|].
  inversion Hs as [|? ? [Hv Hu] Hs']; subst. inversion Hf as [|? ? Hff Hf']; subst.
  assert (Hf1 : fits a 1 (outgoing_frame f)) by (intros i Hi; apply Hff; simpl; lia).
  cbn [send_frames recv_frames length]. rewrite !sproc_bind_eq.
  rewrite Session_Send_eq by done. unfold Session_Recv. rewrite Hb.
  cbn [mbind proc_bind]. apply rtc_deliver_ab. cbn [wrap_err accept_payload].
  rewrite (open_envelope_linked a b) by done. cbn [mbind proc_bind]. rewrite sproc_bind_eq.
  etransitivity; [apply IH; [by apply linked_after|done|done|done|]|].
  { eapply Forall_impl; [exact Hf'|]. intros g Hg. by apply fits_after. }
  done.
Qed.

(** Frames sent on one end of a linked pair of sessions are received on the
    other in order and as they were sent, whatever the interleaving of the two
    ends, and the pair stays linked. *)
Theorem session_delivers fs a b :
  linked a b → session_open a → session_open b → Forall sendable fs →
  Forall (fun f => fits a (length fs) (outgoing_frame f)) fs →
  let a' := advance (length fs) after_send a in
  let b' := advance (length fs) after_recv b in
  always_ends (MkConfig (send_frames fs a) (recv_frames (length fs) b) [] [])
    (a', Ok tt) (b', Ok (outgoing_frame <$> fs)) ∧ linked a' b'.
Proof.
  intros Hl Ha Hb Hs Hf a' b'. split.
  - apply rtc_always_ends. pose proof (deliver_frames fs a b Ret Ret Hl Ha Hb Hs Hf) as Hr.
    by rewrite !proc_bind_ret in Hr.
  - subst a' b'. clear -Hl. revert a b Hl. induction fs as [|f fs IH]; intros a b Hl; [done|].
    cbn [length advance]. by apply IH, linked_after.
Qed.

(** ** No payload is accepted twice *)

(** Payloads arriving one after another, from whoever: the accepted ones. *)
Fixpoint accept_all (b : Session) (payloads : list bytes) : list bytes * Session :=
  match payloads with
  | [] => ([], b)
  | p :: ps =>
      match accept_payload b (Ok p) with
      | (b', Ok _) => let '(acc, b'') := accept_all b' ps in (p :: acc, b'')
      | (b', Err _) => accept_all b' ps
      end
  end.

Definition payload_seq (p : bytes) : option Z :=
  Sequence <$> (Unmarshal p : option envelope).

Lemma accept_payload_cases b p :
  match accept_payload b (Ok p) with
  | (b', Ok _) => payload_seq p = Some (wrapu64 (recvSeq b + 1)) ∧ b' = after_recv b
  | (b', Err _) => b' = b
  end.
Proof.
  unfold accept_payload. destruct (open_envelope b p) as [[f s']|e] eqn:E; [|done].
  unfold open_envelope in E. res_inv. unfold payload_seq.
  destruct (Unmarshal p) as [m|]; res_inv.
  match goal with Hx : negb (Sequence _ =? _) = false |- _ => rename Hx into Hseq end.
  bool_prop. simplify_eq/=. rewrite Hseq. by split.
Qed.

Lemma accept_all_seqs ps b acc b' :
  accept_all b ps = (acc, b') →
  payload_seq <$> acc = (fun i => Some (wrapu64 (recvSeq b + 1 + Z.of_nat i))) <$> seq 0 (length acc) ∧
  acc `sublist_of` ps.
Proof.
  revert b acc. induction ps as [|p ps IH]; intros b acc; cbn [accept_all].
  { intros [= <- <-]. done. }
  pose proof (accept_payload_cases b p) as Hc. destruct (accept_payload b (Ok p)) as [b1 [f|e]].
  - destruct Hc as [Hp ->]. destruct (accept_all (after_recv b) ps) as [acc' b''] eqn:E.
    intros [= <- <-]. destruct (IH _ _ E) as [Ha Hb]. split; [|by constructor].
    cbn [fmap list_fmap length]. rewrite Ha, Hp. cbn [seq fmap list_fmap]. f_equal; [do 2 f_equal; lia|].
    rewrite <- (fmap_S_seq 0), <- list_fmap_compose. apply list_fmap_ext. intros _ i _. cbn.
    f_equal. unfold after_recv, wrapu64. cbn [set_recvSeq recvSeq].
    rewrite <- Z.add_assoc, Zplus_mod_idemp_l. f_equal. lia.
  - subst b1. intros E. destruct (IH _ _ E). split; [done|]. by constructor.
Qed.

(** A session accepts a payload only under the next sequence number and is
    unchanged by one it refuses; so of any incoming payloads, replayed and
    reordered ones included, those it accepts have consecutive numbers and none
    is accepted twice (below 2^64 of them). *)
Theorem no_replay b payloads :
  let '(acc, b') := accept_all b payloads in
  acc `sublist_of` payloads ∧
  payload_seq <$> acc = (fun i => Some (wrapu64 (recvSeq b + 1 + Z.of_nat i))) <$> seq 0 (length acc) ∧
  (Z.of_nat (length acc) ≤ 2 ^ 64 → NoDup acc).
Proof.
  destruct (accept_all b payloads) as [acc b'] eqn:E. apply accept_all_seqs in E as [Hs Hsub].
  split; [done|]. split; [done|]. intros Hn. apply (NoDup_fmap_1 payload_seq). rewrite Hs.
  apply NoDup_fmap_2_strong; [|apply NoDup_seq]. intros i j Hi Hj [= Hij].
  apply elem_of_seq in Hi, Hj. unfold wrapu64 in Hij.
  pose proof (Z.div_mod (recvSeq b + 1 + Z.of_nat i) (2 ^ 64) ltac:(lia)).
  pose proof (Z.div_mod (recvSeq b + 1 + Z.of_nat j) (2 ^ 64) ltac:(lia)). nia.
Qed.

(** ** Handshake *)

Definition hello_message (nonce : string) : handshakeMessage :=
  MkHandshake "hello" ProtocolVersion nonce "" true.
Definition hello_ack_message (nonce : string) : handshakeMessage :=
  MkHandshake "hello_ack" ProtocolVersion "" nonce true.
Definition handshake_fits (h : handshakeMessage) : Prop := Z.of_nat (length (Marshal h)) ≤ maxEnvelopeSize.

Lemma recvPlain_eq {S X} (s : S) (k : S * result session_error handshakeMessage → proc X) :
  recvPlain s ≫= k = RecvMsg (fun r => k (s,
    match r with
    | Err e => Err (STransport e)
    | Ok payload =>
        if Z.of_nat (length payload) >? maxEnvelopeSize then Err SHandshakeTooLarge
        else match Unmarshal payload with Some h => Ok h | None => Err SDecodeHandshake end
    end)).
Proof.
  unfold recvPlain. rewrite sproc_bind_eq. unfold transport_recv. cbn [mbind proc_bind]. f_equal.
  extensionality r. destruct r as [payload|e]; cbn [wrap_err]; [|done].
  rewrite sproc_bind_eq. unfold fail_if_proc, lift_result, fail_if. case_if; [done|].
  cbn [mbind proc_bind]. by destruct (Unmarshal payload).
Qed.

Lemma handshake_read h :
  handshake_fits h → handshake_utf8 h →
  (if Z.of_nat (length (Marshal h)) >? maxEnvelopeSize then Err SHandshakeTooLarge
   else match Unmarshal (Marshal h) with Some h => Ok h | None => Err SDecodeHandshake end) = Ok h.
Proof.
  intros Hf Hu. unfold handshake_fits in Hf. rewrite Z.gtb_ltb.
  replace (_ <? _) with false by (symmetry; by apply Z.ltb_ge). by rewrite Unmarshal_Marshal.
Qed.

(** A host and a joiner with the same code, up to case, spaces and dashes,
    finish the handshake with a pair of open sessions linked in both
    directions, whatever the interleaving. *)
Theorem handshake_links code code' c c' n1 n2 :
  ValidateCode code = Ok c → ValidateCode code' = Ok c' → NormalizeCode code = NormalizeCode code' →
  n1 ≠ ""%string → n2 ≠ ""%string → handshake_utf8 (hello_message n1) → handshake_utf8 (hello_ack_message n2) →
  handshake_fits (hello_message n1) → handshake_fits (hello_ack_message n2) →
  ∃ a b, always_ends (MkConfig (NewHost code n1 tt) (NewJoin code' n2 tt) [] []) (tt, Ok a) (tt, Ok b) ∧
    linked a b ∧ linked b a ∧ session_open a ∧ session_open b ∧
    (Host (Some a), Host (Some b)) = (true, false) ∧
    WorkspaceSyncSupported (Some a) = true ∧ WorkspaceSyncSupported (Some b) = true.
Proof.
  intros Hc Hc' Hn Hne1 Hne2 Hu1 Hu2 Hf1 Hf2.
  assert (c' = c) as -> by (apply ValidateCode_inv in Hc as [-> _]; apply ValidateCode_inv in Hc' as [-> _]; done).
  exists (MkNoteSession (NewSessionWithInfo c n1 n2 sessionInfoHostToJoin)
            (NewSessionWithInfo c n1 n2 sessionInfoJoinToHost) 0 0 true true false),
         (MkNoteSession (NewSessionWithInfo c n1 n2 sessionInfoJoinToHost)
            (NewSessionWithInfo c n1 n2 sessionInfoHostToJoin) 0 0 false true false).
  split; [|done]. apply rtc_always_ends.
  rewrite <- (proc_bind_ret (NewHost code n1 tt)), <- (proc_bind_ret (NewJoin code' n2 tt)).
  unfold NewHost, NewJoin, newSession. rewrite Hc, Hc'. cbn [wrap_err].
  rewrite !sproc_bind_eq, !lift_bind, !sproc_bind_eq, recvPlain_eq. unfold sendPlain at 1. rewrite send_bind.
  apply rtc_deliver_ab. rewrite handshake_read by done. cbv beta iota.
  rewrite !sproc_bind_eq, recvPlain_eq, lift_bind.
  assert (E1 : validateHandshake (hello_message n1) "hello" = Ok tt).
  { unfold validateHandshake. simpl. unfold fail_if. by destruct (String.eqb_spec n1 ""). }
  assert (E2 : validateHandshake (hello_ack_message n2) "hello_ack" = Ok tt).
  { unfold validateHandshake. simpl. unfold fail_if. by destruct (String.eqb_spec n2 ""). }
  fold (hello_message n1). rewrite E1. cbv beta iota. rewrite sproc_bind_eq. unfold sendPlain. rewrite send_bind.
  cbn [hello_message WorkspaceSync]. fold (hello_ack_message n2).
  apply rtc_deliver_ba. rewrite handshake_read by done. cbv beta iota.
  rewrite sproc_bind_eq, lift_bind. fold (hello_ack_message n2). by rewrite E2.
Qed.

(** ** The exchange of snapshots *)

Lemma on_session_send a w f {X} (k : sync_state * result session_error unit → proc X) :
  session_open a → Frame_Validate (outgoing_frame f) = Ok tt → fits a 1 (outgoing_frame f) →
  on_session (Session_Send f) (a, w) ≫= k =
  SendMsg (envelope_of (send a) (wrapu64 (sendSeq a + 1)) (outgoing_frame f))
    (fun e => k ((after_send a, w), match e with None => Ok tt | Some e => Err (STransport e) end)).
Proof.
  intros Ho Hv Hf. unfold on_session, on_part. cbn [fst snd]. by rewrite Session_Send_eq.
Qed.

Lemma on_session_recv b w {X} (k : sync_state * result session_error Frame → proc X) :
  session_open b →
  on_session Session_Recv (b, w) ≫= k =
  RecvMsg (fun r => let '(b', r') := accept_payload b (wrap_err STransport r) in k ((b', w), r')).
Proof.
  intros Ho. unfold on_session, on_part, Session_Recv. cbn [fst snd]. rewrite Ho.
  cbn [mbind proc_bind]. f_equal. extensionality r. by destruct (accept_payload b _).
Qed.

Lemma accept_linked a b f :
  linked a b → frame_utf8 f → Frame_Validate f = Ok tt → fits a 1 f →
  accept_payload b (wrap_err STransport (Ok (envelope_of (send a) (wrapu64 (sendSeq a + 1)) f))) = (after_recv b, Ok f).
Proof. intros. cbn [wrap_err accept_payload]. by rewrite (open_envelope_linked a b). Qed.

(** What the receiver of the snapshot [d] is left with, returns and answers. *)
Definition merge (w : Workspace) (d : Document) : Workspace :=
  if Revision d =? 0 then w else match ApplyRemote w d with Ok (_, _, w') => w' | Err _ => w end.
Definition merge_result (w : Workspace) (d : Document) : Document * bool :=
  if Revision d =? 0 then (zero_document, false)
  else match ApplyRemote w d with Ok (changed, current, _) => (current, changed) | Err _ => (zero_document, false) end.
Definition reply_frame (w : Workspace) (p : string) (d : Document) : Frame :=
  if Revision d =? 0 then MkFrame FramePong ProtocolVersion p 0 0 ""
  else MkFrame FrameAck ProtocolVersion p (Revision (doc_at (merge w d) p)) (Timestamp (doc_at (merge w d) p)) "".

(** A pad name both peers accept. *)
Definition pad_ok (p : string) : Prop :=
  NormalizePad p = p ∧ ValidatePad p = Ok tt ∧ utf8_valid p = true.

(** The snapshot of pad [p]: a stored document, or the empty one. *)
Definition snapshot_ok (p : string) (d : Document) : Prop :=
  Pad d = p ∧ utf8_valid (Text d) = true ∧ (d = MkDocument p "" 0 0 ∨ doc_ok d ∧ doc_typed d).

Lemma snapshot_frame_ok p d :
  pad_ok p → snapshot_ok p d →
  outgoing_frame (snapshot_frame d) = snapshot_frame d ∧ Frame_Validate (snapshot_frame d) = Ok tt ∧
  frame_utf8 (snapshot_frame d) ∧ FPad (snapshot_frame d) = p.
Proof.
  intros (Hn & Hv & Hu) (Hp & Ht & Hd).
  assert (Hne : String.eqb p "" = false) by (apply String.eqb_neq; rewrite <- Hn; apply NormalizePad_ne).
  destruct Hd as [->|[[Hok Hpn] _]].
  - unfold snapshot_frame. cbn [Revision Pad]. cbn. unfold outgoing_frame, Frame_Validate, frame_utf8. cbn.
    rewrite Hne, Hn. cbn. rewrite Hv. by split_and!.
  - destruct (doc_ok_pos d Hok) as [Hr _]. unfold snapshot_frame.
    replace (Revision d =? 0) with false by (symmetry; by apply Z.eqb_neq).
    set (ty := if String.eqb (Text d) "" then FrameClear else FrameUpdate).
    assert (Hty : ty = FrameUpdate ∨ ty = FrameClear) by (unfold ty; case_if; auto).
    split; [|split; [by apply FrameFromDocument_valid|split; [|done]]].
    + unfold outgoing_frame, FrameFromDocument. cbn [FPad FType FRevision FTimestamp FText]. by rewrite Hp, Hne.
    + unfold frame_utf8, FrameFromDocument. cbn [FPad FType FText]. rewrite Hp.
      by destruct Hty as [-> | ->].
Qed.

Lemma reply_frame_ok w p d :
  pad_ok p → snapshot_ok p d → ws_ok w →
  outgoing_frame (reply_frame w p d) = reply_frame w p d ∧ Frame_Validate (reply_frame w p d) = Ok tt ∧
  frame_utf8 (reply_frame w p d) ∧ check_snapshot_response d (reply_frame w p d) = Ok tt.
Proof.
  intros (Hn & Hv & Hu) (Hp & Ht & Hd) Hw.
  assert (Hne : String.eqb p "" = false) by (apply String.eqb_neq; rewrite <- Hn; apply NormalizePad_ne).
  assert (Hrev : Revision d ≠ 0 → 0 < Revision (doc_at (merge w d) p)).
  { intros Hr. destruct Hd as [->|[[Hok Hpn] [Hty _]]]; [done|]. unfold merge.
    replace (Revision d =? 0) with false by (symmetry; by apply Z.eqb_neq).
    pose proof (ApplyRemote_spec w d) as Hs. rewrite Hpn in Hs.
    assert (with_pad d (Pad d) = d) as Ewp by (by destruct d). rewrite Ewp in Hs.
    destruct (ApplyRemote w d) as [[[ch sh] w']|e]; [|congruence]. destruct Hs as (_ & _ & _ & Hle & _).
    rewrite Hp in Hle. apply doc_le_lex in Hle. unfold in_uint64 in Hty. lia. }
  unfold reply_frame, check_snapshot_response. rewrite Hp. destruct (Revision d =? 0) eqn:Er; bool_prop.
  - unfold outgoing_frame, Frame_Validate, frame_utf8. cbn. rewrite Hne, Hn, String.eqb_refl. cbn.
    rewrite Hv. by split_and!.
  - specialize (Hrev Er). unfold outgoing_frame, Frame_Validate, frame_utf8. cbn.
    rewrite Hn, String.eqb_refl, Hne, Hv. cbn. unfold fail_if.
    replace (_ =? 0) with false by (symmetry; apply Z.eqb_neq; lia). by split_and!.
Qed.

Lemma exchange_snapshot a b w1 w2 p d {X Y}
    (ka : sync_state * result session_error unit → proc X)
    (kb : sync_state * result session_error (Document * bool) → proc Y) :
  pad_ok p → snapshot_ok p d → ws_ok w2 → session_open a → session_open b → linked a b → linked b a →
  fits a 1 (snapshot_frame d) → fits b 1 (reply_frame w2 p d) →
  rtc step (MkConfig (sendWorkspaceSnapshot d (a, w1) ≫= ka) (receiveWorkspaceSnapshot p (b, w2) ≫= kb) [] [])
    (MkConfig (ka ((after_recv (after_send a), w1), Ok tt))
              (kb ((after_send (after_recv b), merge w2 d), Ok (merge_result w2 d))) [] []).
Proof.
  intros Hp Hd Hw Ha Hb Hab Hba Hfa Hfb.
  destruct (snapshot_frame_ok p d Hp Hd) as (Eo & Hv & Hu & Hpad).
  destruct (reply_frame_ok w2 p d Hp Hd Hw) as (Ro & Rv & Ru & Rc).
  unfold sendWorkspaceSnapshot, receiveWorkspaceSnapshot. rewrite !sproc_bind_eq.
  rewrite on_session_send by (done || by rewrite Eo). rewrite on_session_recv by done.
  rewrite Eo. apply rtc_deliver_ab. rewrite (accept_linked a b) by done. cbv beta iota.
  rewrite !sproc_bind_eq. unfold fail_if_proc. rewrite lift_bind, Hpad.
  destruct Hp as (Hpn & Hpv & Hpu). rewrite Hpn, String.eqb_refl. cbn [negb fail_if]. cbv beta iota.
  rewrite (on_session_recv (after_send a)) by done.
  assert (Hba' : linked (after_recv b) (after_send a)) by (destruct Hba; by split).
  assert (Hfb' : fits (after_recv b) 1 (reply_frame w2 p d)) by exact Hfb.
  unfold snapshot_frame, reply_frame, merge, merge_result in *.
  destruct (Revision d =? 0) eqn:Er.
  - cbn [FType]. change (String.eqb FramePing FramePing) with true. cbv iota.
    rewrite sproc_bind_eq, on_session_send by (done || by rewrite Ro). rewrite Ro.
    apply rtc_deliver_ba. rewrite (accept_linked (after_recv b) (after_send a)) by done.
    cbv beta iota. rewrite lift_bind, Rc. done.
  - destruct Hd as (Hdp & _ & [->|[[Hok Hdn] Hty]]); [by bool_prop|].
    pose proof (ApplyRemote_spec w2 d) as Hs.
    assert (with_pad d (NormalizePad (Pad d)) = d) as Ewp by (rewrite Hdn; by destruct d). rewrite Ewp in Hs.
    destruct (ApplyRemote w2 d) as [[[ch sh] w2']|e] eqn:Ea; [|congruence].
    destruct Hs as (_ & _ & _ & _ & _ & _ & Hsh). rewrite Hdp in Hsh.
    set (ty := if String.eqb (Text d) "" then FrameClear else FrameUpdate) in *.
    replace (String.eqb (FType (FrameFromDocument ty d)) FramePing) with false by (unfold ty; by case_if).
    replace (String.eqb (FType (FrameFromDocument ty d)) FrameUpdate ||
             String.eqb (FType (FrameFromDocument ty d)) FrameClear) with true by (unfold ty; by case_if).
    rewrite sproc_bind_eq, get_bind. cbv beta iota. rewrite sproc_bind_eq, lift_bind.
    rewrite FrameFromDocument_Document, Ea by done. cbn [wrap_err]. cbv beta iota.
    rewrite sproc_bind_eq. unfold put_state at 1. cbn [mbind proc_bind]. rewrite sproc_bind_eq.
    assert (Hshr : Revision sh = Revision (doc_at w2' p) ∧ Timestamp sh = Timestamp (doc_at w2' p))
      by (rewrite Hsh; unfold currentDocument; by case_if).
    destruct Hshr as [-> ->]. rewrite on_session_send by (done || by rewrite Ro). rewrite Ro.
    apply rtc_deliver_ba. rewrite (accept_linked (after_recv b) (after_send a)) by done.
    cbv beta iota. rewrite lift_bind, Rc. done.
Qed.

#[export] Instance doc_le_dec : RelDecision doc_le := fun a b => decide (compareDocuments a b ≤ 0).

(** The greater of two snapshots; the first where they are equal. *)
Definition later (c d : Document) : Document := if decide (doc_le d c) then c else d.

Lemma Snapshot_ok w p :
  ws_ok w → NormalizePad p = p → utf8_valid (Text (Snapshot w p)) = true → snapshot_ok p (Snapshot w p).
Proof.
  intros Hw Hp Hu. split; [|split; [done|]]; unfold Snapshot; rewrite Hp;
    (destruct (docs w !! p) as [d|] eqn:E; [|by auto]); apply Hw in E as (E & Hok & ? & ?); [done|].
  right. by split.
Qed.

Lemma empty_le p c : snapshot_ok p c → doc_le (MkDocument p "" 0 0) c.
Proof.
  intros (Hp & _ & [->|[[Hok _] [Hr _]]]); [apply doc_le_refl|]. apply doc_le_lex. left.
  destruct (doc_ok_pos c Hok). cbn [Revision]. unfold in_uint64 in Hr. lia.
Qed.

Lemma merge_spec w p d :
  ws_ok w → NormalizePad p = p → snapshot_ok p d → snapshot_ok p (Snapshot w p) →
  let c := Snapshot w p in
  ws_ok (merge w d) ∧ Snapshot (merge w d) p = later c d ∧
  (∀ q, q ≠ p → docs (merge w d) !! q = docs w !! q) ∧
  ((snd (merge_result w d) = true ∧ fst (merge_result w d) = d ∧ ¬ doc_le d c) ∨
   (snd (merge_result w d) = false ∧ doc_le d c)).
Proof.
  intros Hw Hp Hd Hc c. unfold later, merge, merge_result. destruct Hd as (Hdp & Hu & [->|[[Hok Hpn] Hty]]).
  { cbn [Revision]. cbn. rewrite decide_True by by apply empty_le. split_and!; try done. right. split; [done|]. by apply empty_le. }
  destruct (doc_ok_pos d Hok) as [Hr _]. replace (Revision d =? 0) with false by (symmetry; by apply Z.eqb_neq).
  pose proof (ApplyRemote_spec w d) as Hs. pose proof (ApplyRemote_ok w d) as Hwok.
  assert (with_pad d (NormalizePad (Pad d)) = d) as Ewp by (rewrite Hpn; by destruct d). rewrite Ewp in Hs.
  destruct (ApplyRemote w d) as [[[ch sh] w']|e]; [|congruence]. specialize (Hwok ch sh w' Hw Hty eq_refl).
  destruct Hs as (_ & Hat & Hch & _ & _ & Hdocs & Hsh). rewrite Hdp in *.
  assert (Hcat : doc_at w p = c ∨ (doc_at w p = zero_document ∧ c = MkDocument p "" 0 0)).
  { subst c. unfold doc_at, Snapshot. rewrite Hp. destruct (docs w !! p); auto. }
  assert (Hcmp : doc_le d (doc_at w p) ↔ doc_le d c).
  { destruct Hcat as [-> | [-> ->]]; [done|]. unfold doc_le, compareDocuments. done. }
  rewrite Hcmp in Hch. split; [done|]. rewrite Snapshot_doc_at by done. rewrite Hp, Hat.
  destruct ch; cbn [fst snd].
  - assert (¬ doc_le d c) by by apply Hch. rewrite decide_True, decide_False by done.
    split_and!; [by rewrite <- Hdp; destruct d|intros q Hq; rewrite Hdocs; by apply lookup_insert_ne|].
    left. split_and!; [done| |done]. rewrite Hsh, Hat, decide_True by done. unfold currentDocument.
    case_if; [|done]. apply String.eqb_eq in Heqb. exfalso. apply (NormalizePad_ne p). congruence.
  - assert (doc_le d c) by (destruct (decide (doc_le d c)); [done|]; by apply Hch in n).
    rewrite decide_False by (by intros []). rewrite decide_True by done.
    split_and!; [|intros q Hq; by rewrite Hdocs|by right].
    destruct Hcat as [-> | [-> ->]]; [|done]. destruct Hc as [Hc _]. fold c in Hc. rewrite <- Hc. by destruct c.
Qed.

Definition applied_list (r : Document * bool) : list Document := if snd r then [fst r] else [].

(** The frames the exchange sends. *)
Definition sync_frames (w1 w2 : Workspace) (p : string) : list Frame :=
  let d1 := Snapshot w1 p in let m := later (Snapshot w2 p) d1 in
  [snapshot_frame d1; reply_frame w2 p d1; snapshot_frame m; reply_frame w1 p m].

Lemma SyncWorkspace_start s w pad {X} (k : sync_state * result session_error (list Document) → proc X) :
  workspaceSync s = true → ValidatePad (NormalizePad pad) = Ok tt →
  SyncWorkspace pad (s, w) ≫= k =
  (let pad := NormalizePad pad in
   if host s then
      '(_, w) ← get_state;
      _ ← sendWorkspaceSnapshot (Snapshot w pad);
      '(document, changed) ← receiveWorkspaceSnapshot pad;
      mret (if (changed : bool) then [document] else [])
   else
      '(document, changed) ← receiveWorkspaceSnapshot pad;
      '(_, w) ← get_state;
      _ ← sendWorkspaceSnapshot (Snapshot w pad);
      mret (if (changed : bool) then [document] else [])) (s, w) ≫= k.
Proof.
  intros Hs Hv. unfold SyncWorkspace. rewrite sproc_bind_eq, get_bind. cbv beta iota.
  cbn [WorkspaceSyncSupported Host]. rewrite Hs. cbn [negb]. cbv zeta. by rewrite sproc_bind_eq, lift_bind, Hv.
Qed.

Lemma exchange_snapshot_ba a b w1 w2 p d {X Y}
    (ka : sync_state * result session_error (Document * bool) → proc X)
    (kb : sync_state * result session_error unit → proc Y) :
  pad_ok p → snapshot_ok p d → ws_ok w1 → session_open a → session_open b → linked a b → linked b a →
  fits b 1 (snapshot_frame d) → fits a 1 (reply_frame w1 p d) →
  rtc step (MkConfig (receiveWorkspaceSnapshot p (a, w1) ≫= ka) (sendWorkspaceSnapshot d (b, w2) ≫= kb) [] [])
    (MkConfig (ka ((after_send (after_recv a), merge w1 d), Ok (merge_result w1 d)))
              (kb ((after_recv (after_send b), w2), Ok tt)) [] []).
Proof. intros. by apply (rtc_flip _ _ (exchange_snapshot b a w2 w1 p d kb ka ltac:(done) ltac:(done) ltac:(done) ltac:(done) ltac:(done) ltac:(done) ltac:(done) ltac:(done) ltac:(done))). Qed.

(** C14: [SyncWorkspace] on the two ends of a linked pair always ends without
    error, whatever the interleaving, and leaves both workspaces with the
    greater of the two documents of the pad and all other pads as they were; a
    side reports exactly the document it took over. *)
Theorem SyncWorkspace_agrees a b w1 w2 pad :
  let p := NormalizePad pad in
  let d1 := Snapshot w1 p in let d2 := Snapshot w2 p in let m := later d2 d1 in
  linked a b → linked b a → session_open a → session_open b → host a = true → host b = false →
  workspaceSync a = true → workspaceSync b = true → ws_ok w1 → ws_ok w2 →
  pad_ok p → utf8_valid (Text d1) = true → utf8_valid (Text d2) = true →
  Forall (fun f => fits a 2 f ∧ fits b 2 f) (sync_frames w1 w2 p) →
  ∃ a' b' w1' w2' l1 l2,
    always_ends (MkConfig (SyncWorkspace pad (a, w1)) (SyncWorkspace pad (b, w2)) [] [])
      ((a', w1'), Ok l1) ((b', w2'), Ok l2) ∧
    linked a' b' ∧ linked b' a' ∧ Snapshot w1' p = m ∧ Snapshot w2' p = m ∧
    (∀ q, q ≠ p → docs w1' !! q = docs w1 !! q ∧ docs w2' !! q = docs w2 !! q) ∧
    l1 = (if decide (doc_le m d1) then [] else [m]) ∧ l2 = (if decide (doc_le d1 d2) then [] else [d1]).
Proof.
  intros p d1 d2 m Hab Hba Ha Hb Hha Hhb Hwa Hwb Hw1 Hw2 Hp Hu1 Hu2 Hfits.
  pose proof Hp as (Hpn & Hpv & Hpu).
  assert (Hd1 : snapshot_ok p d1) by by apply Snapshot_ok.
  assert (Hd2 : snapshot_ok p d2) by by apply Snapshot_ok.
  assert (Hm : snapshot_ok p m) by (unfold m, later; by case_decide).
  destruct (merge_spec w2 p d1 Hw2 Hpn Hd1 Hd2) as (Hw2' & HS2 & Ho2 & Hr2). fold d2 m in HS2.
  destruct (merge_spec w1 p m Hw1 Hpn Hm Hd1) as (Hw1' & HS1 & Ho1 & Hr1). fold d1 in HS1, Hr1.
  unfold sync_frames in Hfits. fold d1 d2 m in Hfits.
  repeat match goal with Hx : Forall _ (_ :: _) |- _ => inversion Hx; clear Hx; subst end.
  repeat match goal with Hx : fits _ _ _ ∧ fits _ _ _ |- _ => destruct Hx end.
  set (a1 := after_recv (after_send a)). set (b1 := after_send (after_recv b)).
  set (a2 := after_send (after_recv a1)). set (b2 := after_recv (after_send b1)).
  assert (Hfit1 : ∀ s f, fits s 2 f → fits s 1 f) by (intros s f Hf i Hi; apply Hf; lia).
  assert (Hfit2a : ∀ f, fits a 2 f → fits a1 1 f) by (intros f Hf; exact (fits_after a 1 f Hf)).
  assert (Hfit2b : ∀ f, fits b 2 f → fits b1 1 f) by (intros f Hf; exact (fits_after (after_recv b) 1 f Hf)).
  assert (Hl1 : linked a1 b1 ∧ linked b1 a1).
  { destruct (linked_after a b Hab), (linked_after b a Hba). by repeat split. }
  assert (Hl2 : linked a2 b2 ∧ linked b2 a2).
  { destruct Hl1 as [[??] [??]]. destruct (linked_after a1 b1) as [??], (linked_after b1 a1) as [??]; [done..|]. by repeat split. }
  exists a2, b2, (merge w1 m), (merge w2 d1), (applied_list (merge_result w1 m)), (applied_list (merge_result w2 d1)).
  split.
  2:{ destruct Hl2. split_and!; try done.
      - rewrite HS1. unfold m, later. repeat case_decide; try done;
          destruct (doc_le_total d1 d2); try done; apply doc_le_antisym; try done;
          destruct Hd1, Hd2; congruence.
      - intros q Hq. split; [by apply Ho1|by apply Ho2].
      - unfold applied_list. destruct Hr1 as [(-> & -> & ?)|(-> & ?)]; by case_decide.
      - unfold applied_list. destruct Hr2 as [(-> & -> & ?)|(-> & ?)]; by case_decide. }
  apply rtc_always_ends.
  rewrite <- (proc_bind_ret (SyncWorkspace pad (a, w1))), <- (proc_bind_ret (SyncWorkspace pad (b, w2))).
  rewrite (SyncWorkspace_start a), (SyncWorkspace_start b) by done. fold p. rewrite Hha, Hhb.
  cbn [Host]. rewrite sproc_bind_eq, get_bind. cbv beta iota. rewrite !sproc_bind_eq. fold d1.
  etransitivity; [apply exchange_snapshot; auto|]. cbv beta iota. fold a1 b1.
  unfold applied_list. destruct (merge_result w2 d1) as [doc2 ch2]. rewrite !sproc_bind_eq, get_bind.
  cbv beta iota. rewrite sproc_bind_eq, HS2.
  etransitivity; [apply (exchange_snapshot_ba a1 b1); try done; (destruct Hl1; auto)|]. cbv beta iota.
  unfold a1, b1, a2, b2. destruct (merge_result w1 m) as [doc1 ch1]. done.
Qed.
End session.

(** ** Examples *)

Definition frame_fields (f : Frame) : list bytes :=
  [to_bytes (FType f); num_field (FVersion f); to_bytes (FPad f); num_field (FRevision f);
   num_field (FTimestamp f); to_bytes (FText f)].
Definition fields_frame (l : list bytes) : option Frame :=
  match l with
  | [ty; v; p; r; t; x] =>
      v ← field_num v; r ← field_num r; t ← field_num t;
      Some (MkFrame (of_bytes ty) v (of_bytes p) r t (of_bytes x))
  | _ => None
  end.
Definition handshake_fields (h : handshakeMessage) : list bytes :=
  [to_bytes (HType h); num_field (HVersion h); to_bytes (SenderNonce h); to_bytes (ReceiverNonce h);
   bool_field (WorkspaceSync h)].
Definition fields_handshake (l : list bytes) : option handshakeMessage :=
  match l with
  | [ty; v; s; r; w] =>
      v ← field_num v; Some (MkHandshake (of_bytes ty) v (of_bytes s) (of_bytes r) (field_bool w))
  | _ => None
  end.
Definition envelope_fields (e : envelope) : list bytes :=
  [num_field (EVersion e); num_field (Sequence e); Ciphertext e].
Definition fields_envelope (l : list bytes) : option envelope :=
  match l with
  | [v; s; c] => v ← field_num v; s ← field_num s; Some (MkEnvelope v s c)
  | _ => None
  end.

Lemma frame_fields_law f : fields_frame (frame_fields f) = Some f.
Proof.
  destruct f as [a b c d e g]. unfold frame_fields, fields_frame. cbn [FType FVersion FPad FRevision FTimestamp FText].
  rewrite !field_num_field. cbn. by rewrite !string_of_list_ascii_of_string.
Qed.
Lemma handshake_fields_law h : fields_handshake (handshake_fields h) = Some h.
Proof.
  destruct h as [a b c d e]. unfold handshake_fields, fields_handshake. cbn [HType HVersion SenderNonce ReceiverNonce WorkspaceSync].
  rewrite field_num_field, field_bool_field. cbn. by rewrite !string_of_list_ascii_of_string.
Qed.
Lemma envelope_fields_law e : fields_envelope (envelope_fields e) = Some e.
Proof. destruct e. unfold envelope_fields, fields_envelope. cbn. by rewrite !field_num_field. Qed.

Definition demo_note_json : NoteJSON := {|
  note_frame_json := fields_json frame_utf8 frame_fields fields_frame frame_fields_law;
  note_handshake_json := fields_json handshake_utf8 handshake_fields fields_handshake handshake_fields_law;
  note_envelope_json := fields_json envelope_any envelope_fields fields_envelope envelope_fields_law;
|}.

Lemma handshake_links_witness :
  let Ht := ascii_tables in let Hc := tagged_crypto in let Hj := demo_note_json in
  ∃ a b, always_ends (MkConfig (NewHost "ab2-c3d" "n1" tt) (NewJoin "AB2C3D " "n2" tt) [] []) (tt, Ok a) (tt, Ok b) ∧
    linked a b ∧ linked b a.
Proof.
  intros Ht Hc Hj.
  destruct (handshake_links "ab2-c3d" "AB2C3D " "AB2C3D" "AB2C3D" "n1" "n2") as (a & b & He & H1 & H2 & _);
    [vm_compute; done..|discriminate|discriminate|by vm_compute|by vm_compute|vm_compute; discriminate|vm_compute; discriminate|].
  by exists a, b.
Defined.

(** The two ends of one notepad. *)
Definition demo_end (is_host : bool) : Session :=
  let Ht := ascii_tables in let Hc := tagged_crypto in
  let k1 := NewSessionWithInfo "AB2C3D" "n1" "n2" sessionInfoHostToJoin in
  let k2 := NewSessionWithInfo "AB2C3D" "n1" "n2" sessionInfoJoinToHost in
  if is_host then MkNoteSession k1 k2 0 0 true true false else MkNoteSession k2 k1 0 0 false true false.

(** [fits] decided by running the encoder. *)
Definition fits_run `{Crypto} `{NoteJSON} (s : Session) (n : nat) (f : Frame) : bool :=
  forallb (fun i => Z.of_nat (length (envelope_of (send s) (wrapu64 (sendSeq s + Z.of_nat i)) f)) <=? maxEnvelopeSize)
    (seq 1 n).
Lemma fits_run_sound `{Crypto} `{NoteJSON} s n f : fits_run s n f = true → fits s n f.
Proof.
  unfold fits_run. intros Hr i Hi. rewrite forallb_forall in Hr. apply Z.leb_le, (Hr i), in_seq. lia.
Qed.
Ltac run_fits := apply fits_run_sound; vm_compute; reflexivity.

Lemma session_delivers_witness :
  let Ht := ascii_tables in let Hc := tagged_crypto in let Hj := demo_note_json in
  let fs := [MkFrame FrameUpdate 0 "" 3 9 "hello"; MkFrame FrameBye 7 "" 0 0 ""] in
  let a := demo_end true in let b := demo_end false in
  always_ends (MkConfig (send_frames fs a) (recv_frames 2 b) [] [])
    (advance 2 after_send a, Ok tt)
    (advance 2 after_recv b, Ok [MkFrame FrameUpdate 1 "main" 3 9 "hello"; MkFrame FrameBye 1 "" 0 0 ""]).
Proof.
  intros Ht Hc Hj fs a b. refine (proj1 (session_delivers fs a b _ _ _ _ _)).
  - by split.
  - done.
  - done.
  - repeat constructor; by vm_compute.
  - constructor; [run_fits|constructor; [run_fits|constructor]].
Defined.

Definition demo_other : Workspace := apply_all NewWorkspace [MkDocument "main" "c" 2 5].

Lemma demo_other_ok : ws_ok demo_other.
Proof.
  apply apply_all_ok; [intros p d; unfold NewWorkspace; cbn [docs]; by rewrite lookup_empty|].
  repeat constructor; vm_compute; discriminate.
Qed.

Lemma SyncWorkspace_agrees_witness :
  let Ht := ascii_tables in let Hc := tagged_crypto in let Hj := demo_note_json in
  ∃ a' b' w1' w2',
    always_ends (MkConfig (SyncWorkspace "main" (demo_end true, demo_ws)) (SyncWorkspace "main" (demo_end false, demo_other)) [] [])
      ((a', w1'), Ok [MkDocument "main" "c" 2 5]) ((b', w2'), Ok []) ∧
    Snapshot w1' "main" = Snapshot w2' "main".
Proof.
  intros Ht Hc Hj.
  destruct (SyncWorkspace_agrees (demo_end true) (demo_end false) demo_ws demo_other "main")
    as (a' & b' & w1' & w2' & l1 & l2 & He & _ & _ & Hs1 & Hs2 & _ & E1 & E2);
    [by split|by split|done|done|done|done|done|done|exact demo_ws_ok|exact demo_other_ok
    |split; [|split]; vm_compute; reflexivity|vm_compute; reflexivity|vm_compute; reflexivity
    |repeat (constructor; [split; run_fits|]); constructor|].
  assert (l1 = [MkDocument "main" "c" 2 5]) as -> by (rewrite E1; vm_compute; reflexivity).
  assert (l2 = []) as -> by (rewrite E2; vm_compute; reflexivity).
  exists a', b', w1', w2'. split; [exact He|exact (eq_trans Hs1 (eq_sym Hs2))].
Defined.
