(* ===== verification/Interactive.v ===== *)
(** * The interactive notepad ([internal/note/interactive.go])

    [RunInteractive] as a loop over what its [select] receives, the lines the
    input is cut into, and two clients that run it over the sessions of
    [NoteSession.v], with the payloads between them.  The theorem
    [interactive_converges]: however the lines of both, in UTF-8, and the
    deliveries interleave, deliveries alone come to an end, and then both show the
    same document, no less than any document either showed before; a client
    returns an error only for a line of its own that is too long, or for a frame
    of its own that does not fit an envelope. *)
From Stdlib Require Import ZArith Lia Ascii String.
From stdpp Require Import base tactics numbers list gmap strings relations.
From S2P Require Import Prelude GoStrings Json Secure Process NoteDocument NoteSession.

(** ** Lines *)

Definition bufferSize : Z := Z.shiftl 64 10.
Definition maxLine : Z := MaxTextSize + bufferSize.

Definition newline : Ascii.ascii := byte_of 10.

(** [dropCR] of [bufio]. *)
Definition drop_cr (line : bytes) : bytes :=
  match rev line with c :: l => if Ascii.eqb c (byte_of 13) then rev l else line | [] => line end.

(** What [bufio.Scanner] makes of an input that ends: its lines, and whether one
    did not fit the buffer.  [line] is the line read so far. *)
Fixpoint scan_lines (line input : bytes) : list string * bool :=
  if Z.of_nat (length line) >=? maxLine then ([], true)
  else match input with
       | [] => (match line with [] => [] | _ => [of_bytes (drop_cr line)] end, false)
       | c :: input =>
           if Ascii.eqb c newline then
             let '(lines, long) := scan_lines [] input in (of_bytes (drop_cr line) :: lines, long)
           else scan_lines (line ++ [c]) input
       end.

Inductive input_error := ErrTooLong.

(** [readLines]: what arrives on the two channels. *)
Definition readLines (input : bytes) : list string * option input_error :=
  let '(lines, long) := scan_lines [] input in (lines, if long then Some ErrTooLong else None).

(** ** The loop *)

Section loop.
Context {E : Type}.

Inductive interactive_error :=
  | InteractiveClosed
  | InteractiveNote (e : note_error)
  | InteractiveSync (e : E)
  | InteractiveContext (e : string)
  | InteractiveInput (e : input_error)
  | InteractiveSend (e : E)
  | InteractiveRecv (e : E)
  | PeerSelectedPad (peer local : string).

(** What the loop has done so far: the text written, the documents handed to
    [OnChange]. *)
Record interactive := MkInteractive {
  iworkspace : Workspace;
  iout : string;
  ichanges : list Document;
}.

Definition write (text : string) (s : interactive) : interactive :=
  MkInteractive (iworkspace s) (iout s +:+ text) (ichanges s).
Definition notifyDocumentChange (d : Document) (s : interactive) : interactive :=
  MkInteractive (iworkspace s) (iout s) (ichanges s ++ [d]).
Definition with_workspace (w : Workspace) (s : interactive) : interactive :=
  MkInteractive w (iout s) (ichanges s).

Definition nl : string := of_bytes [newline].

Definition writeDocument (owner : string) (d : Document) (s : interactive) : interactive :=
  let s := write (owner +:+ " revision " +:+ Itoa (Revision d) +:+ ":" +:+ nl) s in
  if String.eqb (Text d) "" then write ("(empty)" +:+ nl) s else write (Text d +:+ nl) s.

(** What the [select] of the loop receives: the end of the context with its
    error, the end of the input, a line and the time in milliseconds, a frame. *)
Inductive recv_result := Received (f : Frame) | RecvCanceled (ctx : option string) | RecvFailed (e : E).
Inductive event :=
  | ContextDone (e : string)
  | InputError (e : option input_error)
  | Line (line : string) (now : Z)
  | Recv (r : recv_result).

Definition bye (pad : string) : Frame := MkFrame FrameBye ProtocolVersion pad 0 0 "".
Definition pong (pad : string) : Frame := MkFrame FramePong ProtocolVersion pad 0 0 "".
Definition ack (pad : string) (d : Document) : Frame :=
  MkFrame FrameAck ProtocolVersion pad (Revision d) (Timestamp d) "".

(** How the loop goes on: it returns or takes the next event. *)
Definition outcome : Type := option (result interactive_error unit).
Definition next : Type := interactive * list Frame * outcome.

(** [session.Send], on which the loop returns if it fails. *)
Definition sending (send : Frame → option E) (f : Frame) (s : interactive) (k : interactive → next) : next :=
  match send f with
  | Some e => (s, [], Some (Err (InteractiveSend e)))
  | None => let '(s, fs, o) := k s in (s, f :: fs, o)
  end.

Definition go_on (s : interactive) : next := (s, [], None).
Definition returns (s : interactive) (r : result interactive_error unit) : next := (s, [], Some r).

(** [_ = session.Send(...bye...)] and [return nil]. *)
Definition say_bye (send : Frame → option E) (pad : string) (s : interactive) : next :=
  (s, if send (bye pad) then [] else [bye pad], Some (Ok tt)).

Definition publish_edit (send : Frame → option E) (frameType said : string)
    (edited : result note_error (Document * Workspace)) (s : interactive) : next :=
  match edited with
  | Err e => returns s (Err (InteractiveNote e))
  | Ok (d, w) =>
      let s := notifyDocumentChange d (with_workspace w s) in
      sending send (FrameFromDocument frameType d) s (fun s =>
        go_on (write ("Sent " +:+ said +:+ "revision " +:+ Itoa (Revision d) +:+ nl) s))
  end.

Definition handle_line (send : Frame → option E) (pad line : string) (now : Z) (s : interactive) : next :=
  let command := TrimSpace line in
  if String.eqb command "/show" then go_on (writeDocument "Local" (Snapshot (iworkspace s) pad) s)
  else if String.eqb command "/clear" then publish_edit send FrameClear "clear " (Clear (iworkspace s) pad now) s
  else if String.eqb command "/quit" then say_bye send pad s
  else publish_edit send FrameUpdate "" (Update (iworkspace s) pad line now) s.

Definition handle_frame (send : Frame → option E) (pad : string) (f : Frame) (s : interactive) : next :=
  if negb (String.eqb (FPad f) "") && negb (String.eqb (NormalizePad (FPad f)) pad) then
    returns s (Err (PeerSelectedPad (FPad f) pad))
  else if IsDocumentUpdate f then
    match ApplyRemote (iworkspace s) (Frame_Document f) with
    | Err e => returns s (Err (InteractiveNote e))
    | Ok (applied, d, w) =>
        let s := with_workspace w s in
        let s := if applied then notifyDocumentChange d s else s in
        sending send (ack pad d) s (fun s => go_on (if applied then writeDocument "Remote" d s else s))
    end
  else if String.eqb (FType f) FrameAck then go_on (write ("Synced revision " +:+ Itoa (FRevision f) +:+ nl) s)
  else if String.eqb (FType f) FramePing then sending send (pong pad) s go_on
  else if String.eqb (FType f) FramePong then go_on (write ("Pong" +:+ nl) s)
  else if String.eqb (FType f) FrameBye then returns (write ("Peer closed the notepad." +:+ nl) s) (Ok tt)
  else go_on s.

Definition handle_event (send : Frame → option E) (pad : string) (ev : event) (s : interactive) : next :=
  match ev with
  | ContextDone e => returns s (Err (InteractiveContext e))
  | InputError (Some e) => returns s (Err (InteractiveInput e))
  | InputError None => say_bye send pad s
  | Line line now => handle_line send pad line now s
  | Recv (RecvCanceled ctx) => returns s (match ctx with Some e => Err (InteractiveContext e) | None => Ok tt end)
  | Recv (RecvFailed e) => returns s (Err (InteractiveRecv e))
  | Recv (Received f) => handle_frame send pad f s
  end.

(** The events come with what [session.Send] does while they are handled. *)
Fixpoint interactive_loop (pad : string) (events : list (event * (Frame → option E))) (s : interactive) : next :=
  match events with
  | [] => go_on s
  | (ev, send) :: events =>
      match handle_event send pad ev s with
      | (s, fs, Some r) => (s, fs, Some r)
      | (s, fs, None) => let '(s, fs', o) := interactive_loop pad events s in (s, fs ++ fs', o)
      end
  end.

Definition recovered (d : Document) (s : interactive) : interactive :=
  notifyDocumentChange d (writeDocument "Recovered" d s).

(** [sync] is what [session.SyncWorkspace] makes of the workspace, when it is
    asked for; a nil session is [None]. *)
Definition RunInteractive (session : option (Workspace → string → result E (list Document) * Workspace))
    (pad : string) (workspace : option Workspace) (sync : bool) (events : list (event * (Frame → option E))) : next :=
  let w := default NewWorkspace workspace in
  let s := MkInteractive w "" [] in
  match session with
  | None => returns s (Err InteractiveClosed)
  | Some exchange =>
      let pad := NormalizePad pad in
      match ValidatePad pad with
      | Err e => returns s (Err (InteractiveNote e))
      | Ok _ =>
          let started (s : interactive) :=
            interactive_loop pad events
              (write ("Enter a line to publish it. Commands: /show, /clear, /quit" +:+ nl)
                 (write ("Connected. Pad: " +:+ pad +:+ nl) s)) in
          if sync then
            match exchange w pad with
            | (Err e, w) => returns (with_workspace w s) (Err (InteractiveSync e))
            | (Ok applied, w) => started (foldl (fun s d => recovered d s) (with_workspace w s) applied)
            end
          else started s
      end
  end.
End loop.
Arguments interactive_error : clear implicits.
Arguments recv_result : clear implicits.
Arguments event : clear implicits.
Arguments outcome : clear implicits.
Arguments next : clear implicits.

(** ** Two clients *)

Section clients.
Context `{CaseTables} `{Crypto} `{NoteJSON}.

(** [session.Send] over a transport that takes what it is given: the error, the
    session after it, and the payload sent. *)
Definition session_send (x : Session) (f : Frame) : option session_error * Session * list bytes :=
  match Session_Send f x with
  | Ret (x, Err e) => (Some e, x, [])
  | SendMsg payload k =>
      match k None with
      | Ret (x, Err e) => (Some e, x, [payload])
      | Ret (x, Ok _) => (None, x, [payload])
      | _ => (None, x, [payload])
      end
  | _ => (None, x, [])
  end.
Definition send_error (x : Session) (f : Frame) : option session_error := (session_send x f).1.1.
Fixpoint send_all (x : Session) (fs : list Frame) : Session * list bytes :=
  match fs with
  | [] => (x, [])
  | f :: fs => let '(_, x, ps) := session_send x f in let '(x, ps') := send_all x fs in (x, ps ++ ps')
  end.

(** [session.Recv] of a payload that has arrived. *)
Definition session_recv (x : Session) (payload : bytes) : Session * recv_result session_error :=
  match Session_Recv x with
  | RecvMsg k =>
      match k (Ok payload) with
      | Ret (x, Ok f) => (x, Received f)
      | Ret (x, Err e) => (x, RecvFailed e)
      | _ => (x, RecvCanceled None)
      end
  | Ret (x, Err e) => (x, RecvFailed e)
  | _ => (x, RecvCanceled None)
  end.

(** A client: its loop, how it ended, its session, the payloads on their way to
    it. *)
Record peer := MkPeer {
  pstate : interactive;
  pended : outcome session_error;
  psession : Session;
  pinbox : list bytes;
}.

(** The first client of a pair takes an event; the other gets what it sent.  An
    event sends at most one frame ([handle_line_effect], [handle_frame_effect]),
    so the session is asked as it was before the event. *)
Definition peer_event (pad : string) (ev : event session_error) (a b : peer) : peer * peer :=
  let '(s, fs, o) := handle_event (send_error (psession a)) pad ev (pstate a) in
  let '(x, ps) := send_all (psession a) fs in
  (MkPeer s o x (pinbox a), MkPeer (pstate b) (pended b) (psession b) (pinbox b ++ ps)).

(** The session takes a payload and hands the loop what it makes of it. *)
Definition receive_payload (pad : string) (a b : peer) (payload : bytes) (rest : list bytes) : peer * peer :=
  let '(x, r) := session_recv (psession a) payload in
  peer_event pad (Recv r) (MkPeer (pstate a) (pended a) x rest) b.

Inductive delivery (pad : string) : peer * peer → peer * peer → Prop :=
  | DeliverLeft a b payload rest :
      pended a = None → pinbox a = payload :: rest → delivery pad (a, b) (receive_payload pad a b payload rest)
  | DeliverRight a b b' a' :
      delivery pad (b, a) (b', a') → delivery pad (a, b) (a', b').

(** A line of UTF-8 typed, before the counters run out; the end of the input. *)
Inductive typing (pad : string) : peer * peer → peer * peer → Prop :=
  | TypeLeft a b line now :
      pended a = None → in_int64 now → utf8_valid line = true →
      Revision (doc_at (iworkspace (pstate a)) pad) < uint64_max →
      Timestamp (doc_at (iworkspace (pstate a)) pad) < int64_max →
      typing pad (a, b) (peer_event pad (Line line now) a b)
  | CloseLeft a b :
      pended a = None → typing pad (a, b) (peer_event pad (InputError None) a b)
  | TypeRight a b b' a' :
      typing pad (b, a) (b', a') → typing pad (a, b) (a', b').

Definition peers_step (pad : string) (s s' : peer * peer) : Prop := delivery pad s s' ∨ typing pad s s'.

Definition shows (pad : string) (a : peer) : Document := Snapshot (iworkspace (pstate a)) pad.

(** ** What a session makes of a frame *)

Lemma session_send_cases x f :
  session_open x → Frame_Validate (outgoing_frame f) = Ok tt →
  fits x 1 (outgoing_frame f) ∧
    session_send x f = (None, after_send x, [envelope_of (send x) (wrapu64 (sendSeq x + 1)) (outgoing_frame f)]) ∨
  send_error x f = Some SEnvelopeTooLarge.
Proof.
  intros Ho Hv.
  destruct (decide (Z.of_nat (length (envelope_of (send x) (wrapu64 (sendSeq x + 1)) (outgoing_frame f))) ≤ maxEnvelopeSize)) as [Hle|Hgt].
  - left. assert (Hf : fits x 1 (outgoing_frame f)) by (intros i Hi; by replace i with 1%nat by lia).
    split; [done|]. unfold session_send. by rewrite Session_Send_eq.
  - right. unfold send_error, session_send, Session_Send. rewrite Hv, Ho.
    unfold seal_frame, Encrypt. cbn [set_sendSeq send wrap_err mbind result_bind]. unfold fail_if.
    fold (envelope_of (send x) (wrapu64 (sendSeq x + 1)) (outgoing_frame f)).
    rewrite Z.gtb_ltb. replace (maxEnvelopeSize <? _) with true by (symmetry; apply Z.ltb_lt; lia). done.
Qed.

Lemma session_recv_eq x p :
  session_open x → session_recv x p = let '(x', r) := accept_payload x (Ok p) in (x', match r with Ok f => Received f | Err e => RecvFailed e end).
Proof.
  intros Ho. unfold session_recv, Session_Recv. rewrite Ho. cbn [wrap_err]. by destruct (accept_payload x (Ok p)) as [x' [f|e]].
Qed.

(** Frames on their way under consecutive sequence numbers. *)
Fixpoint wire (key : Secure.Session) (seq : Z) (fs : list Frame) : list bytes :=
  match fs with [] => [] | f :: fs => envelope_of key (wrapu64 (seq + 1)) f :: wire key (wrapu64 (seq + 1)) fs end.
Fixpoint seq_after (seq : Z) (n : nat) : Z :=
  match n with O => seq | S n => seq_after (wrapu64 (seq + 1)) n end.

Lemma wire_app key seq fs gs : wire key seq (fs ++ gs) = wire key seq fs ++ wire key (seq_after seq (length fs)) gs.
Proof. revert seq. induction fs as [|f fs IH]; intros seq; [done|]. cbn. by rewrite IH. Qed.
Lemma seq_after_S seq n : seq_after seq (S n) = wrapu64 (seq_after seq n + 1).
Proof. revert seq. induction n as [|n IH]; intros seq; [done|]. cbn [seq_after]. by rewrite <- IH. Qed.

(** What [x] has sent and [y] not yet received. *)
Record carries (x y : Session) (fs : list Frame) (inbox : list bytes) : Prop := {
  ca_key : send x = recv y;
  ca_seq : sendSeq x = seq_after (recvSeq y) (length fs);
  ca_wire : inbox = wire (send x) (recvSeq y) fs;
  ca_size : Forall (fun p => Z.of_nat (length p) ≤ maxEnvelopeSize) inbox;
  ca_utf8 : Forall frame_utf8 fs;
}.

Lemma carries_linked x y : linked x y → carries x y [] [].
Proof. intros [? ?]. by constructor. Qed.

Lemma carries_send x y fs inbox f :
  carries x y fs inbox → fits x 1 f → frame_utf8 f →
  carries (after_send x) y (fs ++ [f]) (inbox ++ [envelope_of (send x) (wrapu64 (sendSeq x + 1)) f]).
Proof.
  intros [Hk Hq Hw Hs Hu] Hf Hfu. constructor.
  - done.
  - unfold after_send. cbn [set_sendSeq sendSeq]. by rewrite length_app, Nat.add_1_r, seq_after_S, Hq.
  - rewrite wire_app, <- Hq. cbn. by rewrite Hw.
  - apply Forall_app. split; [done|]. apply Forall_singleton. by apply (Hf 1%nat ltac:(lia)).
  - apply Forall_app. split; [done|]. by apply Forall_singleton.
Qed.

(** A waiting payload is the first frame, and the session accepts it. *)
Lemma carries_recv x y fs p rest :
  session_open y → Forall (fun f => Frame_Validate f = Ok tt) fs → carries x y fs (p :: rest) →
  ∃ f fs', fs = f :: fs' ∧ session_recv y p = (after_recv y, Received f) ∧ carries x (after_recv y) fs' rest.
Proof.
  intros Ho Hv [Hk Hq Hw Hs Hu]. destruct fs as [|f fs]; [done|]. cbn in Hw. injection Hw as -> ->.
  apply Forall_cons in Hv as [Hv Hvs], Hs as [Hs Hss], Hu as [Hu Hus]. exists f, fs. split; [done|].
  set (x0 := set_sendSeq x (recvSeq y)).
  assert (Hl : linked x0 y) by (by split). assert (Hf : fits x0 1 f) by (intros i Hi; by replace i with 1%nat by lia).
  pose proof (accept_linked x0 y f Hl Hu Hv Hf) as Ha. cbn [wrap_err] in Ha. change (send x0) with (send x) in Ha. change (sendSeq x0) with (recvSeq y) in Ha.
  split; [by rewrite session_recv_eq, Ha|]. by constructor.
Qed.

(** ** What one event does *)

Section pair.
Context (pad : string) (x : Session).
Hypothesis pad_good : pad_ok pad.
Hypothesis x_open : session_open x.

Local Abbreviation at_pad s := (doc_at (iworkspace s) pad).
Local Abbreviation session_says := (send_error x).

(** A frame as a client that holds the document [d] sends it. *)
Definition frame_from (d : Document) (f : Frame) : Prop :=
  Frame_Validate f = Ok tt ∧ FPad f = pad ∧
  (IsDocumentUpdate f = true → doc_le (Frame_Document f) d ∧ doc_typed (Frame_Document f)).
Definition sendable_from (d : Document) (f : Frame) : Prop :=
  frame_from d f ∧ FVersion f = ProtocolVersion ∧ frame_utf8 f.

Lemma frame_from_mono d d' f : doc_le d d' → frame_from d f → frame_from d' f.
Proof using Type. intros Hle (? & ? & Hu). split_and!; try done. intros ?. destruct Hu; [done|]. split; [by eapply doc_le_trans|done]. Qed.

(** A client is in order, its state and the way it ended. *)
Definition peer_ok (s : interactive) (o : outcome session_error) : Prop :=
  ws_ok (iworkspace s) ∧ ∀ e, o = Some (Err e) → e = InteractiveNote TextTooLong ∨ e = InteractiveSend SEnvelopeTooLarge.

Definition mentions (fs : list Frame) (d : Document) : Prop :=
  ∃ f, f ∈ fs ∧ IsDocumentUpdate f = true ∧ doc_le d (Frame_Document f).

(** What a client makes of an event: it stays in order, its document only
    grows, it sends at most one frame, one it stands for and the session takes. *)
Record effect (s : interactive) (n : next session_error) : Prop := {
  ef_ok : peer_ok n.1.1 n.2;
  ef_grows : doc_le (at_pad s) (at_pad n.1.1);
  ef_frames : n.1.2 = [] ∨ ∃ f, n.1.2 = [f] ∧ sendable_from (at_pad n.1.1) f ∧ session_says f = None;
}.

Lemma pad_ne : pad ≠ ""%string.
Proof using pad_good. destruct pad_good as [<- _]. apply NormalizePad_ne. Qed.

Lemma outgoing_id f : FVersion f = ProtocolVersion → FPad f = pad → outgoing_frame f = f.
Proof using pad_good.
  intros Hv Hp. unfold outgoing_frame. rewrite Hp. destruct (String.eqb_spec pad "") as [E|_]; [by destruct pad_ne|].
  destruct f. cbn in *. by subst.
Qed.

Lemma control_from ty d : ty = FramePing ∨ ty = FramePong ∨ ty = FrameBye →
  sendable_from d (MkFrame ty ProtocolVersion pad 0 0 "").
Proof using pad_good.
  destruct pad_good as (Hn & Hv & Hu).
  intros Hty. unfold sendable_from, frame_from, frame_utf8, Frame_Validate, IsDocumentUpdate. cbn [FVersion FType FPad FText]. rewrite Hn.
  destruct (String.eqb_spec pad "") as [E|_]; [by destruct pad_ne|].
  destruct Hty as [-> | [-> | ->]]; cbn; rewrite Hv; by split_and!.
Qed.

Lemma ack_from d d' : Revision d ≠ 0 → sendable_from d' (ack pad d).
Proof using pad_good.
  destruct pad_good as (Hn & Hv & Hu).
  intros Hr. unfold sendable_from, frame_from, frame_utf8, Frame_Validate, IsDocumentUpdate, ack. cbn. rewrite Hn, Hv. cbn.
  unfold fail_if. destruct (Z.eqb_spec (Revision d) 0); by split_and!.
Qed.

Lemma document_from ty d d' : ty = FrameUpdate ∨ ty = FrameClear →
  Pad d = pad → utf8_valid (Text d) = true → doc_ok d → doc_typed d → doc_le d d' → sendable_from d' (FrameFromDocument ty d).
Proof using pad_good.
  intros Hty Hp Hu Hok Ht Hle. split; [|split; [done|]].
  - split; [by apply FrameFromDocument_valid|]. split; [done|]. intros _. rewrite FrameFromDocument_Document by apply Hok. done.
  - unfold frame_utf8, FrameFromDocument. cbn. rewrite Hp. destruct pad_good as (_ & _ & ?). by destruct Hty as [-> | ->].
Qed.

(** The session refuses such a frame only for the size of its envelope. *)
Lemma session_says_cases d f : sendable_from d f → session_says f = None ∨ session_says f = Some SEnvelopeTooLarge.
Proof using pad_good x_open.
  intros ((Hv & Hp & _) & Hver & _). destruct (session_send_cases x f) as [[_ E]|E]; [done|by rewrite outgoing_id| |by right].
  left. unfold send_error. by rewrite E.
Qed.

Lemma go_on_effect s s' : ws_ok (iworkspace s) → iworkspace s' = iworkspace s → effect s (go_on s').
Proof using Type. intros Hw E. split; cbn; [split; [by rewrite E|done]|rewrite E; apply doc_le_refl|by left]. Qed.

(** Sending one frame and going on: either it is sent, or the client ends. *)
Lemma sending_effect s s' s'' f k :
  k s' = go_on s'' → iworkspace s'' = iworkspace s' → ws_ok (iworkspace s') → doc_le (at_pad s) (at_pad s') →
  sendable_from (at_pad s') f →
  let n := sending session_says f s' k in
  effect s n ∧ at_pad n.1.1 = at_pad s' ∧ (n.1.2 = [] ∨ n.1.2 = [f]) ∧ (n.2 = None → n.1.2 = [f]).
Proof using pad_good x_open.
  intros Hk Hs Hw Hle Hf. unfold sending. pose proof (session_says_cases _ _ Hf) as Hc. destruct (session_says f) as [e|] eqn:Ee.
  - destruct Hc as [|[= ->]]; [done|]. cbn. split; [|split; [done|split; [by left|done]]]. split; cbn; [|done|by left].
    split; [done|]. intros ? [= <-]. by right.
  - rewrite Hk. cbn. rewrite Hs. split; [|split; [done|split; [by right|done]]]. split; cbn; rewrite ?Hs; [|done|].
    + split; [by rewrite Hs|done].
    + right. by exists f.
Qed.

Lemma say_bye_effect s : ws_ok (iworkspace s) → effect s (say_bye session_says pad s).
Proof using pad_good.
  intros Hw. unfold say_bye. split; cbn; [by split|apply doc_le_refl|].
  destruct (session_says (bye pad)) eqn:E; [by left|]. right. exists (bye pad). split; [done|]. split; [|done]. apply control_from; auto.
Qed.

Lemma writeDocument_state o d s : iworkspace (writeDocument o d s) = iworkspace s.
Proof using Type. unfold writeDocument. by case_if. Qed.

(** An edit is refused, or becomes the client's document and is sent, if it fits. *)
Lemma publish_edit_effect s ty said text now :
  ty = FrameUpdate ∨ ty = FrameClear → ws_ok (iworkspace s) → in_int64 now → utf8_valid text = true →
  Revision (at_pad s) < uint64_max → Timestamp (at_pad s) < int64_max →
  let n := publish_edit session_says ty said (Update (iworkspace s) pad text now) s in
  effect s n ∧ (n.2 = None → at_pad n.1.1 = at_pad s ∨ mentions n.1.2 (at_pad n.1.1)).
Proof using pad_good x_open.
  intros Hty Hw Hnow Htext Hr Ht. pose proof (Update_wins (iworkspace s) pad text now) as Hu. cbv zeta in Hu.
  destruct pad_good as (pad_norm & pad_valid & _).
  rewrite pad_norm in Hu. specialize (Hu Hw Hnow Hr Ht). unfold publish_edit.
  destruct (Update (iworkspace s) pad text now) as [[d w']|e] eqn:Eu.
  - destruct Hu as (Hw' & Hs & Hp & Htx & Hnle & _ & _).
    assert (Hd : doc_at w' pad = d).
    { rewrite Snapshot_doc_at, pad_norm in Hs by done. unfold Update in Eu. res_inv. unfold doc_at. cbn.
      by rewrite pad_norm, lookup_insert_eq. }
    assert (Hdok : doc_ok d ∧ doc_typed d).
    { destruct (docs w' !! pad) as [d0|] eqn:El; unfold doc_at in Hd; rewrite El in Hd; cbn in Hd.
      - apply Hw' in El as (_ & ? & ? & ?). rewrite <- Hd. by split.
      - exfalso. apply pad_ne. by rewrite <- Hp, <- Hd. }
    set (s' := notifyDocumentChange d (with_workspace w' s)).
    assert (Hat : at_pad s' = d) by exact Hd.
    assert (Hf : sendable_from (at_pad s') (FrameFromDocument ty d)).
    { destruct Hdok. apply document_from; try done; [by rewrite Htx|]. rewrite Hat. apply doc_le_refl. }
    assert (Hle : doc_le (at_pad s) (at_pad s')) by (rewrite Hat; destruct (doc_le_total (at_pad s) d); done).
    destruct (sending_effect s s' (write ("Sent " +:+ said +:+ "revision " +:+ Itoa (Revision d) +:+ nl) s') (FrameFromDocument ty d)
      (fun s => go_on (write ("Sent " +:+ said +:+ "revision " +:+ Itoa (Revision d) +:+ nl) s))) as (He & Ha & _ & Hone); try done.
    cbv zeta. fold s'. split; [exact He|]. intros Hn. right. rewrite (Hone Hn), Ha. change (doc_at w' pad) with (at_pad s').
    exists (FrameFromDocument ty d). rewrite Hat. split_and!; [by left| |].
    + unfold IsDocumentUpdate. cbn. destruct Hty as [-> | ->]; done.
    + rewrite FrameFromDocument_Document by apply Hdok. apply doc_le_refl.
  - split; [|by left]. split; cbn; [|apply doc_le_refl|by left]. split; [done|]. intros ? [= <-].
    destruct Hu as [Hu|Hu]; [congruence|]. unfold ValidateText, fail_if in Hu. case_if; [injection Hu as <-; by left|done].
Qed.

Lemma handle_line_effect s line now :
  ws_ok (iworkspace s) → in_int64 now → utf8_valid line = true →
  Revision (at_pad s) < uint64_max → Timestamp (at_pad s) < int64_max →
  let n := handle_line session_says pad line now s in
  effect s n ∧ (n.2 = None → at_pad n.1.1 = at_pad s ∨ mentions n.1.2 (at_pad n.1.1)).
Proof using pad_good x_open.
  intros Hw Hnow Hu Hr Ht. unfold handle_line. cbv zeta.
  case_if; [split; [|left; cbn; by rewrite writeDocument_state]|case_if; [|case_if]].
  - apply go_on_effect; [done|apply writeDocument_state].
  - apply publish_edit_effect; auto.
  - split; [by apply say_bye_effect|by left].
  - apply publish_edit_effect; auto.
Qed.

Definition weight (f : Frame) : nat := if IsDocumentUpdate f || String.eqb (FType f) FramePing then 2 else 1.
Definition total (fs : list Frame) : nat := sum_list (weight <$> fs).

Lemma handle_frame_effect s d f :
  ws_ok (iworkspace s) → frame_from d f →
  let n := handle_frame session_says pad f s in
  effect s n ∧ (total n.1.2 < weight f)%nat ∧
  (IsDocumentUpdate f = true → doc_le (Frame_Document f) (at_pad n.1.1)) ∧
  (at_pad n.1.1 = at_pad s ∨ IsDocumentUpdate f = true ∧ at_pad n.1.1 = Frame_Document f).
Proof using pad_good x_open.
  intros Hw (Hv & Hp & Hu). destruct pad_good as (pad_norm & pad_valid & _).
  unfold handle_frame. rewrite Hp, pad_norm, String.eqb_refl. rewrite andb_false_r.
  destruct (IsDocumentUpdate f) eqn:Ed.
  - destruct Hu as [Hle Hty]; [done|].
    pose proof (ApplyRemote_spec (iworkspace s) (Frame_Document f)) as Hs.
    assert (Hpd : Pad (Frame_Document f) = pad) by (unfold Frame_Document; cbn; by rewrite Hp).
    assert (Hwp : with_pad (Frame_Document f) (NormalizePad (Pad (Frame_Document f))) = Frame_Document f)
      by (rewrite Hpd, pad_norm, <- Hpd; by destruct (Frame_Document f)).
    rewrite Hwp in Hs. pose proof (ApplyRemote_ok (iworkspace s) (Frame_Document f)) as Hok.
    destruct (ApplyRemote (iworkspace s) (Frame_Document f)) as [[[applied shown] w']|e] eqn:Ea.
    + destruct Hs as (Hvd & Hat & Hch & Hle1 & Hle2 & Hdocs & Hshown). rewrite Hpd in *. specialize (Hok _ _ _ Hw Hty eq_refl).
      assert (Hrev : Revision shown ≠ 0).
      { assert (Revision shown = Revision (doc_at w' pad)) as -> by (rewrite Hshown; unfold currentDocument; by case_if).
        apply doc_ok_pos in Hvd as [Hr0 _]. destruct Hty as [Hr1 _]. apply doc_le_lex in Hle1. unfold in_uint64 in Hr1. lia. }
      set (s' := if applied then _ else _).
      assert (Hs' : iworkspace s' = w') by (subst s'; by destruct applied).
      destruct (sending_effect s s' (if applied then writeDocument "Remote" shown s' else s') (ack pad shown)
        (fun s => go_on (if applied then writeDocument "Remote" shown s else s))) as (He & Ha & Hone & _).
      * done.
      * destruct applied; [apply writeDocument_state|done].
      * by rewrite Hs'.
      * by rewrite Hs'.
      * by apply ack_from.
      * cbv zeta. fold s'. split; [exact He|]. rewrite Ha, Hs'. split; [|split].
        -- unfold weight. rewrite Ed. cbn [orb]. destruct Hone as [-> | ->]; unfold total; cbn; lia.
        -- done.
        -- rewrite (Hat pad). destruct (decide _); [by right|by left].
    + exfalso. unfold Frame_Validate in Hv. res_inv. unfold IsDocumentUpdate in Ed. rewrite Ed in *. congruence.
  - assert (Hpos : (0 < weight f)%nat) by (unfold weight; case_if; lia).
    assert (Hsame : ∀ s' : interactive, iworkspace s' = iworkspace s →
      effect s (go_on s') ∧ (total (go_on (E:=session_error) s').1.2 < weight f)%nat ∧
      (false = true → doc_le (Frame_Document f) (at_pad (go_on (E:=session_error) s').1.1)) ∧
      (at_pad (go_on (E:=session_error) s').1.1 = at_pad s ∨ false = true ∧ at_pad (go_on (E:=session_error) s').1.1 = Frame_Document f)).
    { intros s' Es. split; [by apply go_on_effect|]. cbn. rewrite Es. split_and!; [done|done|by left]. }
    destruct (String.eqb (FType f) FrameAck); [by apply Hsame|]. destruct (String.eqb (FType f) FramePing) eqn:Hping.
    + destruct (sending_effect s s s (pong pad) go_on) as (He & Ha & Hone & _); [done..|apply doc_le_refl|apply control_from; auto|].
      split; [exact He|]. rewrite Ha. split; [|split; [done|by left]]. unfold weight. rewrite Hping, orb_true_r.
      destruct Hone as [-> | ->]; unfold total; cbn; lia.
    + repeat case_if; try by apply Hsame. split; [|split_and!; [done|done|by left]]. split; cbn; [by split|apply doc_le_refl|by left].
Qed.
End pair.

(** ** The pair *)

(** An upper bound of the deliveries to come: a document is answered, and the
    answer is not. *)
Definition in_flight (s : peer * peer) : nat := 2 * (length (pinbox s.1) + length (pinbox s.2)).

Lemma total_app fs gs : total (fs ++ gs) = (total fs + total gs)%nat.
Proof using Type. unfold total. rewrite fmap_app. induction (weight <$> fs) as [|w l IH]; cbn; [done|lia]. Qed.
Lemma total_bound fs : (total fs ≤ 2 * length fs)%nat.
Proof using Type. unfold total. induction fs as [|f fs IH]; cbn; [lia|]. unfold weight at 1. case_if; lia. Qed.
Lemma wire_length key seq fs : length (wire key seq fs) = length fs.
Proof using Type. revert seq. induction fs as [|f fs IH]; intros seq; cbn; [done|by rewrite IH]. Qed.

Section converge.
Context (pad : string).
Hypothesis pad_good : pad_ok pad.

Definition doc_of (a : peer) : Document := doc_at (iworkspace (pstate a)) pad.

(** [fs] is on its way from [a] to [b]: frames [a] stands for, under the numbers
    [b] expects; and while [a] runs, [b] has, or will get, a document that is not
    less than that of [a]. *)
Record told (fs : list Frame) (a b : peer) : Prop := {
  told_carried : carries (psession a) (psession b) fs (pinbox b);
  told_frames : Forall (frame_from pad (doc_of a)) fs;
  told_covers : pended a = None → doc_le (doc_of a) (doc_of b) ∨ mentions fs (doc_of a);
}.

Record pair_inv (fs gs : list Frame) (s : peer * peer) : Prop := {
  pi_left : peer_ok (pstate s.1) (pended s.1) ∧ session_open (psession s.1);
  pi_right : peer_ok (pstate s.2) (pended s.2) ∧ session_open (psession s.2);
  pi_told : told fs s.1 s.2;
  pi_heard : told gs s.2 s.1;
}.

Lemma pair_inv_swap fs gs a b : pair_inv fs gs (a, b) → pair_inv gs fs (b, a).
Proof using Type. by intros [? ? ? ?]. Qed.

Lemma mentions_app_l fs gs d : mentions fs d → mentions (fs ++ gs) d.
Proof using Type. intros (f & ? & ?). exists f. split; [|done]. apply elem_of_app. by left. Qed.
Lemma mentions_app_r fs gs d : mentions gs d → mentions (fs ++ gs) d.
Proof using Type. intros (f & ? & ?). exists f. split; [|done]. apply elem_of_app. by right. Qed.

(** Sending changes nothing in what the other end's frames meet. *)
Lemma carries_sender_side x y fs inbox : carries y x fs inbox → carries y (after_send x) fs inbox.
Proof using Type. intros [? ? ? ? ?]. by constructor. Qed.

(** An event of [a] keeps the invariant, when it is clear what covers the new
    document of [a], and what covers [b]'s. *)
Lemma peer_event_inv ev a b fs gs :
  let n := handle_event (send_error (psession a)) pad ev (pstate a) in
  session_open (psession a) → peer_ok (pstate b) (pended b) ∧ session_open (psession b) → told fs a b →
  carries (psession b) (psession a) gs (pinbox a) → Forall (frame_from pad (doc_of b)) gs →
  (pended b = None → doc_le (doc_of b) (doc_at (iworkspace n.1.1) pad) ∨ mentions gs (doc_of b)) →
  effect pad (psession a) (pstate a) n →
  (n.2 = None → pended a = None) →
  (n.2 = None → doc_at (iworkspace n.1.1) pad = doc_of a ∨ mentions n.1.2 (doc_at (iworkspace n.1.1) pad) ∨
   doc_le (doc_at (iworkspace n.1.1) pad) (doc_of b)) →
  let s' := peer_event pad ev a b in
  pair_inv (fs ++ n.1.2) gs s' ∧ doc_le (doc_of a) (doc_of s'.1) ∧ doc_of s'.2 = doc_of b.
Proof using pad_good.
  cbn zeta. intros Hoa [Hb Hob] [Hab Hfab Hcab] Hba Hfba. unfold peer_event.
  destruct (handle_event _ pad ev (pstate a)) as [[s sent] o].
  cbn [fst snd] in *. intros Hcba [Hok Hgrow Hfs] Hrun Hcov. cbn [fst snd] in *.
  assert (Hmono : Forall (frame_from pad (doc_at (iworkspace s) pad)) fs) by (eapply Forall_impl; [exact Hfab|]; intros f; by apply frame_from_mono).
  assert (Hcov' : o = None → doc_le (doc_at (iworkspace s) pad) (doc_of b) ∨ mentions (fs ++ sent) (doc_at (iworkspace s) pad)).
  { intros ->. destruct (Hcov eq_refl) as [E|[?|?]]; [|right; by apply mentions_app_r|by left]. rewrite E.
    destruct (Hcab (Hrun eq_refl)) as [?|?]; [by left|right; by apply mentions_app_l]. }
  destruct Hfs as [->|(f & -> & ((Hv & Hp & Hu) & Hver & Hutf) & Hsent)]; cbn [send_all].
  - cbn [fst snd doc_of pstate]. split; [|done]. rewrite app_nil_r in *. split; cbn [fst snd]; [done|done| |].
    + split; cbn; rewrite ?app_nil_r; done.
    + split; done.
  - assert (Eo : outgoing_frame f = f) by (by eapply outgoing_id).
    destruct (session_send_cases (psession a) f Hoa) as [[Hfit Es]|Es]; [by rewrite Eo| |congruence].
    rewrite Es, Eo in *. cbn [fst snd doc_of pstate]. split; [|done]. split; cbn [fst snd]; [done|done| |].
    + split; cbn; [by apply carries_send| |done]. apply Forall_app. split; [done|]. by apply Forall_singleton.
    + split; cbn; [by apply carries_sender_side|done|done].
Qed.

Lemma typing_inv fs gs s s' : pair_inv fs gs s → typing pad s s' → ∃ fs' gs', pair_inv fs' gs' s' ∧
  doc_le (doc_of s.1) (doc_of s'.1) ∧ doc_le (doc_of s.2) (doc_of s'.2).
Proof using pad_good.
  intros Hi Ht. revert fs gs Hi. induction Ht as [a b line now Ho Hnow Hu Hr Hts|a b Ho|a b b' a' _ IH]; intros fs gs Hi.
  - destruct Hi as [[Ha Hoa] Hb Hab [Hba Hfba Hcba]].
    destruct (handle_line_effect pad (psession a) pad_good Hoa (pstate a) line now) as [He Hc]; [apply Ha|done..|].
    destruct (peer_event_inv (Line line now) a b fs gs) as (H1' & H2 & H3); try done.
    { intros Hrb. destruct (Hcba Hrb) as [?|?]; [left; by eapply doc_le_trans; [|apply He]|by right]. }
    { intros Hn. destruct (Hc Hn); auto. }
    eexists _, _. split; [exact H1'|]. split; [done|]. rewrite H3. apply doc_le_refl.
  - destruct Hi as [[Ha Hoa] Hb Hab [Hba Hfba Hcba]].
    pose proof (say_bye_effect pad (psession a) pad_good (pstate a) (proj1 Ha)) as He.
    destruct (peer_event_inv (InputError None) a b fs gs) as (H1' & H2 & H3); try done.
    eexists _, _. split; [exact H1'|]. split; [done|]. rewrite H3. apply doc_le_refl.
  - destruct (IH gs fs) as (gs' & fs' & H1' & H2 & H3); [by apply pair_inv_swap|]. exists fs', gs'. split; [by apply pair_inv_swap|done].
Qed.

Lemma delivery_inv fs gs s s' : pair_inv fs gs s → delivery pad s s' → ∃ fs' gs', pair_inv fs' gs' s' ∧
  doc_le (doc_of s.1) (doc_of s'.1) ∧ doc_le (doc_of s.2) (doc_of s'.2) ∧ (total fs' + total gs' < total fs + total gs)%nat.
Proof using pad_good.
  intros Hi Ht. revert fs gs Hi. induction Ht as [a b p rest Ho Hq|a b b' a' _ IH]; intros fs gs Hi.
  - destruct Hi as [[Ha Hoa] Hb [Hab Hfab Hcab] [Hba Hfba Hcba]]. cbn [fst snd] in *. rewrite Hq in Hba.
    apply carries_recv in Hba as (f & gs' & -> & Hrecv & Hba); [|done|].
    2:{ eapply Forall_impl; [exact Hfba|]. by intros g [? _]. }
    apply Forall_cons in Hfba as [Hf Hfba].
    unfold receive_payload. rewrite Hrecv. set (a0 := MkPeer (pstate a) (pended a) (after_recv (psession a)) rest).
    assert (Hoa0 : session_open (psession a0)) by done.
    assert (Htold : told fs a0 b) by (destruct Hab; by split).
    destruct (handle_frame_effect pad (psession a0) pad_good Hoa0 (pstate a) (doc_of b) f) as (He & Hw & Hle & Hsame); [apply Ha|done|].
    destruct (peer_event_inv (Recv (Received f)) a0 b fs gs') as (H1' & H2 & H3); try done.
    { intros Hrb. destruct (Hcba Hrb) as [?|(g & Hg & Hgu & Hgl)]; [left; by eapply doc_le_trans; [|apply He]|].
      apply elem_of_cons in Hg as [->|Hg]; [left; eapply doc_le_trans; [exact Hgl|by apply Hle]|right; by exists g]. }
    { intros _. destruct Hsame as [?|[Hu Eq]]; [by left|]. right; right.
      refine (eq_ind_r (λ d, doc_le d (doc_of b)) _ Eq). by apply Hf. }
    set (n := handle_frame (send_error (psession a0)) pad f (pstate a)) in *. change (handle_event _ _ _ _) with n in H1'.
    exists (fs ++ n.1.2), gs'. split; [done|]. split; [done|]. split; [cbn [snd]; rewrite H3; apply doc_le_refl|].
    rewrite total_app. unfold total in *. cbn. lia.
  - destruct (IH gs fs) as (gs' & fs' & H1' & H2 & H3 & H4); [by apply pair_inv_swap|].
    exists fs', gs'. split; [by apply pair_inv_swap|]. split; [done|]. split; [done|]. lia.
Qed.

Lemma rtc_delivery_inv fs gs s s' : pair_inv fs gs s → rtc (delivery pad) s s' → ∃ fs' gs', pair_inv fs' gs' s' ∧
  doc_le (doc_of s.1) (doc_of s'.1) ∧ doc_le (doc_of s.2) (doc_of s'.2).
Proof using pad_good.
  intros Hi Hr. revert fs gs Hi. induction Hr as [s|s s1 s2 Hs _ IH]; intros fs gs Hi.
  - exists fs, gs. split; [done|]. split; apply doc_le_refl.
  - destruct (delivery_inv fs gs s s1) as (fs1 & gs1 & H1' & H2 & H3 & _); [done..|]. destruct (IH fs1 gs1) as (fs2 & gs2 & ? & ? & ?); [done|].
    exists fs2, gs2. split; [done|]. split; by eapply doc_le_trans.
Qed.

Lemma reachable_inv fs gs s s' : pair_inv fs gs s → rtc (peers_step pad) s s' → ∃ fs' gs', pair_inv fs' gs' s'.
Proof using pad_good.
  intros Hi Hr. revert fs gs Hi. induction Hr as [s|s s1 s2 Hs _ IH]; intros fs gs Hi; [by exists fs, gs|].
  destruct Hs as [Hs|Hs].
  - destruct (delivery_inv fs gs s s1 Hi Hs) as (fs' & gs' & ? & _). by eapply IH.
  - destruct (typing_inv fs gs s s1 Hi Hs) as (fs' & gs' & ? & _). by eapply IH.
Qed.

Lemma deliveries_total fs gs n s s' : pair_inv fs gs s → nsteps (delivery pad) n s s' → (n ≤ total fs + total gs)%nat.
Proof using pad_good.
  intros Hi Hn. revert fs gs Hi. induction Hn as [s|n s s1 s2 Hs _ IH]; intros fs gs Hi; [lia|].
  destruct (delivery_inv fs gs s s1) as (fs1 & gs1 & H1' & _ & _ & H2); [done..|]. specialize (IH fs1 gs1 H1'). lia.
Qed.

Lemma deliveries_bounded fs gs n s s' : pair_inv fs gs s → nsteps (delivery pad) n s s' → (n ≤ in_flight s)%nat.
Proof using pad_good.
  intros Hi Hn. pose proof (deliveries_total fs gs n s s' Hi Hn) as Hb. pose proof (total_bound fs). pose proof (total_bound gs).
  destruct Hi as [_ _ Hab Hba]. pose proof (ca_wire _ _ _ _ (told_carried _ _ _ Hab)) as E1. pose proof (ca_wire _ _ _ _ (told_carried _ _ _ Hba)) as E2.
  unfold in_flight. rewrite E1, E2, !wire_length. lia.
Qed.

Lemma delivered_all s : nf (delivery pad) s → pended s.1 = None → pended s.2 = None → pinbox s.1 = [] ∧ pinbox s.2 = [].
Proof using Type.
  destruct s as [a b]. cbn. intros Hn Ha Hb. split.
  - destruct (pinbox a) as [|p rest] eqn:E; [done|]. destruct Hn. eexists. by apply DeliverLeft.
  - destruct (pinbox b) as [|p rest] eqn:E; [done|]. destruct Hn.
    destruct (receive_payload pad b a p rest) as [b' a'] eqn:Ee.
    exists (a', b'). apply DeliverRight. rewrite <- Ee. by apply DeliverLeft.
Qed.

Lemma shows_doc a : ws_ok (iworkspace (pstate a)) → shows pad a = with_pad (doc_of a) pad.
Proof using pad_good. intros Hw. unfold shows, doc_of. rewrite Snapshot_doc_at by done. by destruct pad_good as [-> _]. Qed.

(** Nothing on its way: each has what the other shows. *)
Lemma settled fs gs s : pair_inv fs gs s → pended s.1 = None → pended s.2 = None → pinbox s.1 = [] → pinbox s.2 = [] →
  doc_le (doc_of s.1) (doc_of s.2) ∧ doc_le (doc_of s.2) (doc_of s.1).
Proof using Type.
  intros [_ _ [Hab _ Hc] [Hba _ Hc']] Ho1 Ho2 Hq1 Hq2.
  assert (Hno : ∀ l d inbox x y, carries x y l inbox → inbox = [] → ¬ mentions l d).
  { intros l d inbox x y [_ _ Hw _ _] -> (f & Hf & _). by destruct l; [apply not_elem_of_nil in Hf|]. }
  split; [destruct (Hc Ho1) as [|Hm]|destruct (Hc' Ho2) as [|Hm]]; try done; exfalso; by eapply Hno in Hm.
Qed.
End converge.

(** Two clients at the start: linked sessions, nothing on its way and equal
    documents, as [newSession] and [SyncWorkspace] leave them. *)
Definition peers_start (pad : string) (s : peer * peer) : Prop :=
  ws_ok (iworkspace (pstate s.1)) ∧ ws_ok (iworkspace (pstate s.2)) ∧
  linked (psession s.1) (psession s.2) ∧ linked (psession s.2) (psession s.1) ∧ session_open (psession s.1) ∧ session_open (psession s.2) ∧
  pended s.1 = None ∧ pended s.2 = None ∧ pinbox s.1 = [] ∧ pinbox s.2 = [] ∧ shows pad s.1 = shows pad s.2.

Lemma start_inv pad s : pad_ok pad → peers_start pad s → pair_inv pad [] [] s.
Proof.
  destruct s as [[sa oa xa ia] [sb ob xb ib]]. intros Hp. cbn. intros (Ha & Hb & Hl & Hl' & Hox & Hoy & Eo & Eo' & Ei & Ei' & E). cbn in *. subst.
  rewrite !shows_doc in E by done. unfold doc_of in *. cbn in *.
  assert (Hle : ∀ d d' : Document, with_pad d pad = with_pad d' pad → doc_le d d').
  { intros [p t r m] [p' t' r' m'] [= -> -> ->]. unfold doc_le, compareDocuments. cbn.
    rewrite !Z.ltb_irrefl, !Z.gtb_ltb, !Z.ltb_irrefl, str_ltb_irrefl. done. }
  split; cbn; [by split|by split| |]; (split; cbn; [by apply carries_linked|by apply Forall_nil|intros _; left; by apply Hle]).
Qed.

(** C15: two clients of a notepad over linked sessions converge.  Both type lines
    of UTF-8, in any order with the deliveries.  From any state they reach, at
    most [in_flight] payloads are delivered before nothing is left to deliver,
    and then, as long as both still run, they show the same document, no less
    than what either showed before.  A client returns an error only for a line of
    its own that is too long, or for a frame of its own whose envelope exceeds
    4 MiB: every payload of the other end is accepted as the frame that was
    sent. *)
Theorem interactive_converges pad s0 s :
  pad_ok pad → peers_start pad s0 → rtc (peers_step pad) s0 s →
  (∀ n s', nsteps (delivery pad) n s s' → (n ≤ in_flight s)%nat) ∧
  (∀ s', rtc (delivery pad) s s' → nf (delivery pad) s' → pended s'.1 = None → pended s'.2 = None →
     shows pad s'.1 = shows pad s'.2 ∧ doc_le (shows pad s.1) (shows pad s'.1) ∧ doc_le (shows pad s.2) (shows pad s'.1)) ∧
  (∀ e, pended s.1 = Some (Err e) ∨ pended s.2 = Some (Err e) → e = InteractiveNote TextTooLong ∨ e = InteractiveSend SEnvelopeTooLarge).
Proof.
  intros Hp Hs Hr. destruct (reachable_inv pad Hp [] [] s0 s (start_inv pad s0 Hp Hs) Hr) as (fs & gs & Hi).
  split; [intros n s'; by eapply deliveries_bounded|]. split.
  - intros s' Hd Hnf Ho1 Ho2. destruct (rtc_delivery_inv pad Hp fs gs s s' Hi Hd) as (fs' & gs' & Hi' & Hl1 & Hl2).
    destruct (delivered_all pad s' Hnf Ho1 Ho2) as [Hq1 Hq2].
    destruct (settled pad fs' gs' s' Hi' Ho1 Ho2 Hq1 Hq2) as [H12 H21].
    destruct Hi as [[[Hw1 _] _] [[Hw2 _] _] _ _], Hi' as [[[Hw1' _] _] [[Hw2' _] _] _ _].
    rewrite !shows_doc by done. split; [by apply doc_le_antisym|]. split; [done|by eapply doc_le_trans].
  - intros e [He|He]; [by apply Hi in He|by apply Hi in He].
Qed.

(** ** Example *)

Definition deliver_left (pad : string) (s : peer * peer) : option (peer * peer) :=
  match pended s.1, pinbox s.1 with
  | None, payload :: rest => Some (receive_payload pad s.1 s.2 payload rest)
  | _, _ => None
  end.
Definition deliver_right (pad : string) (s : peer * peer) : option (peer * peer) := prod_swap <$> deliver_left pad (s.2, s.1).

Lemma deliver_left_delivery pad s s' : deliver_left pad s = Some s' → delivery pad s s'.
Proof.
  destruct s as [a b]. unfold deliver_left. cbn. destruct (pended a) eqn:Ea; [done|].
  destruct (pinbox a) as [|p rest] eqn:Ei; [done|]. intros [= <-]. by apply DeliverLeft.
Qed.
Lemma deliver_right_delivery pad s s' : deliver_right pad s = Some s' → delivery pad s s'.
Proof.
  destruct s as [a b]. unfold deliver_right. intros ([b' a'] & Hd & ->)%fmap_Some.
  apply DeliverRight. by apply deliver_left_delivery.
Qed.
Lemma nothing_to_deliver pad s : pinbox s.1 = [] → pinbox s.2 = [] → nf (delivery pad) s.
Proof.
  intros H2 H3 [s' Hd]. induction Hd as [a b p rest _ Hq|a b b' a' _ IH]; [|by apply IH]. cbn in H2. congruence.
Qed.

Definition deliver_four (pad : string) (s : peer * peer) : option (peer * peer) :=
  s1 ← deliver_left pad s; s2 ← deliver_right pad s1; s3 ← deliver_left pad s2; deliver_right pad s3.

Lemma deliver_four_deliveries pad s s' : deliver_four pad s = Some s' → rtc (delivery pad) s s'.
Proof.
  unfold deliver_four. intros (s1 & H2 & (s2 & H3 & (s3 & H4 & H5)%bind_Some)%bind_Some)%bind_Some.
  eapply rtc_l; [by apply deliver_left_delivery|]. eapply rtc_l; [by apply deliver_right_delivery|].
  eapply rtc_l; [by apply deliver_left_delivery|]. apply rtc_once. by apply deliver_right_delivery.
Qed.

(** Both ends type a line at the same time. *)
Definition both_type (pad l1 : string) (t1 : Z) (l2 : string) (t2 : Z) (a b : peer) : peer * peer :=
  let s1 := peer_event pad (Line l1 t1) a b in
  let s2 := peer_event pad (Line l2 t2) s1.2 s1.1 in (s2.2, s2.1).

Definition may_type (pad line : string) (a : peer) (now : Z) : Prop :=
  (match pended a with None => True | Some _ => False end) ∧ int64_min ≤ now ∧ now ≤ int64_max ∧ utf8_valid line = true ∧
  Revision (doc_at (iworkspace (pstate a)) pad) < uint64_max ∧ Timestamp (doc_at (iworkspace (pstate a)) pad) < int64_max.

Lemma type_both pad a b l1 t1 l2 t2 :
  may_type pad l1 a t1 → may_type pad l2 (peer_event pad (Line l1 t1) a b).2 t2 →
  rtc (peers_step pad) (a, b) (both_type pad l1 t1 l2 t2 a b).
Proof.
  unfold both_type. set (s1 := peer_event pad (Line l1 t1) a b). set (s2 := peer_event pad (Line l2 t2) s1.2 s1.1).
  intros (A1 & A2 & A3 & A4 & A5 & A6) (B1 & B2 & B3 & B4 & B5 & B6).
  eapply (rtc_l _ _ s1); [right; apply TypeLeft; [by destruct (pended a)|by split|done..]|].
  apply rtc_once. right. destruct s1 as [a1 b1]. cbn in *.
  assert (typing pad (b1, a1) s2) as Ht by (apply TypeLeft; [by destruct (pended b1)|by split|done..]).
  destruct s2 as [b2 a2]. by apply TypeRight.
Qed.
End clients.

(** The ends of one notepad, over the demonstration's cipher and encoders. *)
Section example.
#[local] Existing Instance ascii_tables.
#[local] Existing Instance tagged_crypto.
#[local] Existing Instance demo_note_json.

Definition demo_peer (is_host : bool) : peer := MkPeer (MkInteractive demo_ws "" []) None (demo_end is_host) [].
Definition demo_typed : peer * peer := both_type "main" "hello" 5 "/clear" 7 (demo_peer true) (demo_peer false).

Lemma demo_may_type :
  may_type "main" "hello" (demo_peer true) 5 ∧
  may_type "main" "/clear" (peer_event "main" (Line "hello" 5) (demo_peer true) (demo_peer false)).2 7.
Proof. split; split_and!; by vm_compute. Qed.

Lemma demo_typed_reachable : rtc (peers_step "main") (demo_peer true, demo_peer false) demo_typed.
Proof. exact (type_both "main" (demo_peer true) (demo_peer false) "hello" 5 "/clear" 7 (proj1 demo_may_type) (proj2 demo_may_type)). Qed.

Lemma demo_start : peers_start "main" (demo_peer true, demo_peer false).
Proof. split_and!; [apply demo_ws_ok|apply demo_ws_ok|by split|by split|reflexivity..]. Qed.

Definition is_nil {A} (l : list A) : bool := match l with [] => true | _ => false end.
Definition runs (a : peer) : bool := match pended a with None => true | Some _ => false end.
Definition settled_with (text : string) (o : option (peer * peer)) : bool :=
  match o with
  | Some s => is_nil (pinbox s.1) && is_nil (pinbox s.2) && runs s.1 && runs s.2 && String.eqb (Text (shows "main" s.1)) text
  | None => false
  end.
Lemma settled_checks text o :
  settled_with text o = true → ∃ s, o = Some s ∧
    pinbox s.1 = [] ∧ pinbox s.2 = [] ∧ pended s.1 = None ∧ pended s.2 = None ∧ Text (shows "main" s.1) = text.
Proof.
  unfold settled_with. destruct o as [s|]; [|done]. rewrite !andb_true_iff. unfold runs. intros [[[[H1 H2] H3] H4] H5%String.eqb_eq].
  exists s. destruct (pinbox s.1), (pinbox s.2), (pended s.1), (pended s.2); done.
Qed.

Lemma demo_settles : settled_with "hello" (deliver_four "main" demo_typed) = true.
Proof. vm_compute. reflexivity. Qed.

Lemma interactive_converges_witness :
  ∃ s, rtc (delivery "main") demo_typed s ∧ nf (delivery "main") s ∧
    shows "main" s.1 = shows "main" s.2 ∧ Text (shows "main" s.1) = "hello"%string.
Proof.
  destruct (settled_checks "hello" _ demo_settles) as (s & E & Hq1 & Hq2 & Hr1 & Hr2 & Htext).
  pose proof (deliver_four_deliveries "main" demo_typed s E) as Hd. pose proof (nothing_to_deliver "main" s Hq1 Hq2) as Hn.
  assert (Hp : pad_ok "main") by (split_and!; vm_compute; reflexivity).
  destruct (interactive_converges "main" (demo_peer true, demo_peer false) demo_typed Hp demo_start demo_typed_reachable) as (_ & Hs & _).
  exists s. split; [exact Hd|]. split; [exact Hn|]. split; [exact (proj1 (Hs s Hd Hn Hr1 Hr2))|exact Htext].
Defined.
End example.
