(* ===== verification/RecentStore.v ===== *)
(** * Recent notepads ([internal/note/recent_store.go])

    A JSON file of at most twenty notepads, favourites first, then the most
    recently opened.  [Touch], [SetFavorite] and [Remove] are updates under the
    lock of [AtomicFile.v]; the theorems: the list stays valid, sorted and
    within its limit, and [List] returns what the last update made of it. *)
From Stdlib Require Import ZArith Lia Ascii String.
From stdpp Require Import base tactics numbers list gmap strings sorting.
From S2P Require Import Prelude GoStrings Json GoPath FileSystem Containment AtomicFile Secure NoteDocument.

Definition recentStoreVersion : Z := 1.
Definition recentStoreMaxBytes : Z := Z.shiftl 64 10.
Definition RecentStoreMaxItems : Z := 20.

Record RecentEntry := MkRecent { RCode : string; RPad : string; Favorite : bool; LastOpened : Z }.
Record recentFile := MkRecentFile { RFVersion : Z; RFEntries : list RecentEntry }.

#[export] Instance RecentEntry_eq_dec : EqDecision RecentEntry.
Proof. solve_decision. Defined.
#[export] Instance RecentEntry_countable : Countable RecentEntry.
Proof.
  by apply (inj_countable' (fun e => (RCode e, RPad e, Favorite e, LastOpened e))
    (fun '(a, b, c, d) => MkRecent a b c d)); intros [].
Defined.
#[export] Instance recentFile_eq_dec : EqDecision recentFile.
Proof. solve_decision. Defined.
#[export] Instance recentFile_countable : Countable recentFile.
Proof.
  by apply (inj_countable' (fun f => (RFVersion f, RFEntries f)) (fun '(a, b) => MkRecentFile a b)); intros [].
Defined.

Inductive recent_error :=
  | ErrRecentNotFound
  | RecentCode (e : code_error)
  | RecentNote (e : note_error)
  | RecentFS (e : fs_error)
  | RecentLock (e : lock_error)
  | RecentDecode
  | RecentVersion (v : Z)
  | RecentLimit
  | RecentInvalidEntry
  | RecentDuplicate.

(** What [encoding/json] carries unchanged. *)
Definition recent_utf8 (f : recentFile) : Prop :=
  Forall (fun e => utf8_valid (RCode e) = true ∧ utf8_valid (RPad e) = true) (RFEntries f).

(** [Marshal] is what the encoder of [writeRecentEntries] writes, [Unmarshal]
    what a decoder reads. *)
Class RecentJSON := recent_json :: JSON recentFile recent_utf8.

(** The order of [sortRecentEntries]. *)
Definition recent_before (l r : RecentEntry) : bool :=
  if negb (Bool.eqb (Favorite l) (Favorite r)) then Favorite l
  else if negb (LastOpened l =? LastOpened r) then LastOpened l >? LastOpened r
  else if negb (String.eqb (RCode l) (RCode r)) then str_ltb (RCode l) (RCode r)
  else str_ltb (RPad l) (RPad r).

Definition sortRecentEntries : list RecentEntry → list RecentEntry := sort_stable recent_before.

(** ** The changes of the list *)

Definition same_identity (code pad : string) (e : RecentEntry) : bool :=
  String.eqb (RCode e) code && String.eqb (RPad e) pad.

(** [now] is [s.clock().UnixMilli()]. *)
Definition touch_entries (code pad : string) (now : Z) (entries : list RecentEntry) : list RecentEntry :=
  let favorite := foldl (fun favorite e => if same_identity code pad e then Favorite e else favorite) false entries in
  let kept := filter (fun e => same_identity code pad e = false) entries in
  let entries := sortRecentEntries (kept ++ [MkRecent code pad favorite now]) in
  if Z.of_nat (length entries) >? RecentStoreMaxItems then take (Z.to_nat RecentStoreMaxItems) entries else entries.

(** The first entry of that identity is changed. *)
Fixpoint set_favorite (code pad : string) (favorite : bool) (entries : list RecentEntry) : option (list RecentEntry) :=
  match entries with
  | [] => None
  | e :: entries =>
      if same_identity code pad e then Some (MkRecent (RCode e) (RPad e) favorite (LastOpened e) :: entries)
      else cons e <$> set_favorite code pad favorite entries
  end.

Definition favorite_entries (code pad : string) (favorite : bool) (entries : list RecentEntry)
    : result recent_error (list RecentEntry) :=
  match set_favorite code pad favorite entries with
  | None => Err ErrRecentNotFound
  | Some entries => Ok (sortRecentEntries entries)
  end.

Definition remove_entries (code pad : string) (entries : list RecentEntry) : list RecentEntry :=
  filter (fun e => negb (String.eqb (RCode e) code) || negb (String.eqb (RPad e) pad) = true) entries.

(** ** The file *)

Section store.
Context `{CaseTables} `{RecentJSON}.

Definition validateRecentIdentity (code pad : string) : result recent_error (string * string) :=
  code ← wrap_err RecentCode (ValidateCode code);
  let pad := NormalizePad pad in
  _ ← wrap_err RecentNote (ValidatePad pad);
  Ok (code, pad).

(** The loop over the stored entries; [seen] are the identities so far. *)
Fixpoint check_entries (seen : gset (string * string)) (entries : list RecentEntry)
    : result recent_error (list RecentEntry) :=
  match entries with
  | [] => Ok []
  | e :: entries =>
      match validateRecentIdentity (RCode e) (RPad e) with
      | Err _ => Err RecentInvalidEntry
      | Ok (code, pad) =>
          _ ← fail_if (LastOpened e <=? 0) RecentInvalidEntry;
          _ ← fail_if (bool_decide ((code, pad) ∈ seen)) RecentDuplicate;
          entries ← check_entries ({[(code, pad)]} ∪ seen) entries;
          Ok (MkRecent code pad (Favorite e) (LastOpened e) :: entries)
      end
  end.

(** [file] is what [os.Open] and reading the file give. *)
Definition decode_entries (file : bytes) : result recent_error (list RecentEntry) :=
  stored ← match Unmarshal (take (Z.to_nat (recentStoreMaxBytes + 1)) file) with
           | Some stored => Ok stored | None => Err RecentDecode end;
  _ ← fail_if (negb (RFVersion stored =? recentStoreVersion)) (RecentVersion (RFVersion stored));
  _ ← fail_if (Z.of_nat (length (RFEntries stored)) >? RecentStoreMaxItems) RecentLimit;
  check_entries ∅ (RFEntries stored).

Definition readRecentEntries (path : string) : io recent_error (list RecentEntry) :=
  file ← wrap_io RecentFS (ReadFile path);
  lift (decode_entries file).

Definition writeRecentEntries (fl : disk_faults) (randoms : list string) (path : string) (entries : list RecentEntry)
    : io recent_error unit :=
  wrap_io RecentFS
    (replace_file commit_retry fl randoms ".note-recents-" path (Marshal (MkRecentFile recentStoreVersion entries))).

(** [errors.Is(err, os.ErrNotExist)] *)
Definition recent_missing (e : recent_error) : bool :=
  match e with RecentFS e => IsNotExist e | _ => false end.

(** What a store runs in: its path, the clock its lock reads, the random names
    and the faults of the disk. *)
Record RecentStore := MkRecentStore {
  rpath : string;
  rclock : nat → Z;
  rfuel : nat;
  rrandoms : list string;
  rfaults : disk_faults;
}.

Definition NewRecentStore (path : string) := MkRecentStore (Clean path).

Definition available (s : option RecentStore) : bool :=
  match s with
  | None => false
  | Some s => negb (String.eqb (TrimSpace (rpath s)) "") && negb (String.eqb (rpath s) ".")
  end.

Definition update (s : RecentStore) (change : list RecentEntry → result recent_error (list RecentEntry))
    : io recent_error unit :=
  with_file_lock RecentLock (rfuel s) (rclock s) (rpath s) (
    read ← attempt (readRecentEntries (rpath s));
    entries ← match read with
              | Ok entries => mret entries
              | Err e => if recent_missing e then mret [] else fail e
              end;
    entries ← lift (change entries);
    writeRecentEntries (rfaults s) (rrandoms s) (rpath s) entries).

Definition with_store {A} (s : option RecentStore) (none : result recent_error A) (body : RecentStore → io recent_error A)
    : io recent_error A :=
  match s with
  | Some s' => if available s then body s' else lift none
  | None => lift none
  end.

Definition List_entries (s : option RecentStore) : io recent_error (list RecentEntry) :=
  with_store s (Ok []) (fun s =>
    read ← attempt (readRecentEntries (rpath s));
    match read with
    | Ok entries => mret (sortRecentEntries entries)
    | Err e => if recent_missing e then mret [] else fail e
    end).

Definition Touch (s : option RecentStore) (code pad : string) (now : Z) : io recent_error unit :=
  '(code, pad) ← lift (validateRecentIdentity code pad);
  with_store s (Ok tt) (fun s => update s (fun entries => Ok (touch_entries code pad now entries))).

Definition SetFavorite (s : option RecentStore) (code pad : string) (favorite : bool) : io recent_error unit :=
  '(code, pad) ← lift (validateRecentIdentity code pad);
  with_store s (Err ErrRecentNotFound) (fun s => update s (favorite_entries code pad favorite)).

Definition Remove_entry (s : option RecentStore) (code pad : string) : io recent_error unit :=
  '(code, pad) ← lift (validateRecentIdentity code pad);
  with_store s (Ok tt) (fun s => update s (fun entries => Ok (remove_entries code pad entries))).
End store.

(** ** The order *)

Lemma recent_before_spec l r :
  recent_before l r = true ↔
    (Favorite l = true ∧ Favorite r = false) ∨
    (Favorite l = Favorite r ∧ (LastOpened r < LastOpened l ∨
      (LastOpened l = LastOpened r ∧ (str_ltb (RCode l) (RCode r) = true ∨
        (RCode l = RCode r ∧ str_ltb (RPad l) (RPad r) = true))))).
Proof.
  unfold recent_before. pose proof (str_ltb_irrefl (RCode l)).
  destruct (Bool.eqb_spec (Favorite l) (Favorite r)) as [Ef|Ef]; cbn [negb];
    [|destruct (Favorite l), (Favorite r); naive_solver].
  destruct (Z.eqb_spec (LastOpened l) (LastOpened r)) as [E|E]; cbn [negb].
  - destruct (String.eqb_spec (RCode l) (RCode r)) as [E'|E']; cbn [negb].
    + rewrite E' in *. split; [naive_solver|]. intros [[??]|[_ [?|[_ [?|[_ ?]]]]]]; [congruence|lia|congruence|done].
    + split; [naive_solver|]. intros [[??]|[_ [?|[_ [?|[? _]]]]]]; [congruence|lia|done|done].
  - rewrite Z.gtb_ltb, Z.ltb_lt. split; [naive_solver|]. intros [[??]|[_ [?|[? _]]]]; [congruence|lia|lia].
Qed.

Lemma recent_before_total l r : recent_before l r = false → recent_before r l = false → l = r.
Proof.
  rewrite <- !not_true_iff_false, !recent_before_spec. intros Hl Hr.
  assert (Ef : Favorite l = Favorite r) by (destruct (Favorite l), (Favorite r); naive_solver).
  assert (Eo : LastOpened l = LastOpened r) by (destruct (Z.lt_trichotomy (LastOpened l) (LastOpened r)) as [?|[?|?]]; naive_solver).
  assert (Ec : RCode l = RCode r).
  { apply str_ltb_total; apply not_true_iff_false; intros ?; [apply Hl|apply Hr]; right; (split; [done|]); right; (split; [done|]); by left. }
  assert (Ep : RPad l = RPad r).
  { apply str_ltb_total; apply not_true_iff_false; intros ?; [apply Hl|apply Hr]; right; (split; [done|]); right; (split; [done|]); by right. }
  destruct l, r. cbn in *. by subst.
Qed.

#[export] Instance recent_before_strict : StrictWeak recent_before.
Proof.
  assert (Htrans : ∀ a b c, recent_before a b = true → recent_before b c = true → recent_before a c = true).
  { intros a b c. rewrite !recent_before_spec.
    pose proof (str_ltb_trans (RCode a) (RCode b) (RCode c)). pose proof (str_ltb_trans (RPad a) (RPad b) (RPad c)).
    intros [[??]|[? [?|(?&[?|[E ?]])]]] [[??]|[? [?|(?&[?|[E' ?]])]]]; rewrite ?E, ?E' in *;
      try (left; split; congruence); right; (split; [congruence|]); try (left; lia); right; (split; [lia|]); auto; left; congruence. }
  assert (Hirr : ∀ a, recent_before a a = false).
  { intros a. apply not_true_iff_false. rewrite recent_before_spec, !str_ltb_irrefl. intuition (try congruence; try lia). }
  split.
  - intros a b Hab. apply not_true_iff_false. intros Hba. pose proof (Htrans a b a Hab Hba). by rewrite Hirr in *.
  - intros a b c Hba Hcb. apply not_true_iff_false. intros Hca.
    destruct (recent_before a b) eqn:Hab; [by rewrite (Htrans c a b) in Hcb|].
    by rewrite (recent_before_total a b) in Hca by done; congruence.
Qed.

#[export] Instance recent_antisymm : AntiSymm (=) (not_after recent_before).
Proof. intros l r. unfold not_after. intros ??. by apply recent_before_total. Qed.

Lemma sortRecentEntries_perm es es' : es ≡ₚ es' → sortRecentEntries es = sortRecentEntries es'.
Proof.
  intros Hp. apply (StronglySorted_unique (not_after recent_before)); try by apply sort_stable_sorted; apply _.
  unfold sortRecentEntries. by rewrite !sort_stable_perm.
Qed.

Lemma sorted_id es : StronglySorted (not_after recent_before) es → sortRecentEntries es = es.
Proof.
  intros Hs. apply (StronglySorted_unique (not_after recent_before)); [by apply sort_stable_sorted; apply _|done|].
  apply sort_stable_perm.
Qed.

(** ** Valid lists *)

Definition identity (e : RecentEntry) : string * string := (RCode e, RPad e).

Section valid.
Context `{CaseTables}.

Definition entry_ok (e : RecentEntry) : Prop :=
  validateRecentIdentity (RCode e) (RPad e) = Ok (RCode e, RPad e) ∧ 0 < LastOpened e.

(** What the file may hold. *)
Record entries_ok (es : list RecentEntry) : Prop := {
  eo_each : Forall entry_ok es;
  eo_distinct : NoDup (identity <$> es);
  eo_limit : Z.of_nat (length es) ≤ RecentStoreMaxItems;
}.

#[export] Instance entries_ok_perm : Proper ((≡ₚ) ==> impl) entries_ok.
Proof.
  intros es es' Hp [He Hn Hl]. split; [by rewrite <- Hp|by rewrite <- Hp|by rewrite <- (Permutation_length Hp)].
Qed.

Lemma same_identity_spec code pad e : same_identity code pad e = true ↔ identity e = (code, pad).
Proof.
  unfold same_identity, identity. rewrite andb_true_iff, !String.eqb_eq. split; [by intros [-> ->]|by intros [= -> ->]].
Qed.

Lemma check_entries_ok seen es :
  Forall entry_ok es → NoDup (identity <$> es) → Forall (λ e, identity e ∉ seen) es → check_entries seen es = Ok es.
Proof.
  revert seen. induction es as [|e es IH]; intros seen; [done|]. cbn [check_entries].
  intros [[Hv Hp] Hes]%Forall_cons [Hni Hnd]%NoDup_cons [Hs Hss]%Forall_cons.
  rewrite Hv. unfold fail_if. replace (LastOpened e <=? 0) with false by (symmetry; by apply Z.leb_gt).
  cbn [mbind result_bind]. rewrite bool_decide_eq_false_2 by exact Hs. cbn [mbind result_bind].
  rewrite IH; [cbn; by destruct e|done|done|]. apply Forall_forall. intros x Hx.
  rewrite Forall_forall in Hss. specialize (Hss x Hx). rewrite elem_of_union, elem_of_singleton. intros [E|?]; [|done].
  apply Hni. change (RCode e, RPad e) with (identity e) in E. rewrite <- E. by apply list_elem_of_fmap_2.
Qed.

Lemma validateRecentIdentity_idemp code pad c p :
  validateRecentIdentity code pad = Ok (c, p) → validateRecentIdentity c p = Ok (c, p).
Proof.
  unfold validateRecentIdentity. intros Hv. res_inv.
  match goal with H : ValidateCode _ = Ok _ |- _ => rewrite (ValidateCode_idemp _ _ H) end.
  cbn [wrap_err mbind result_bind]. rewrite NormalizePad_idemp.
  match goal with H : ValidatePad _ = Ok _ |- _ => by rewrite H end.
Qed.

Lemma check_entries_sound seen es es' :
  check_entries seen es = Ok es' →
  Forall entry_ok es' ∧ NoDup (identity <$> es') ∧ Forall (λ e, identity e ∉ seen) es' ∧ length es' = length es.
Proof.
  revert seen es'. induction es as [|e es IH]; intros seen es'; cbn [check_entries].
  { intros [= <-]. split_and!; try done; constructor. }
  destruct (validateRecentIdentity (RCode e) (RPad e)) as [[c p]|] eqn:Ev; [|done]. intros Hc. res_inv. bool_prop.
  match goal with H : check_entries _ _ = Ok _ |- _ => apply IH in H as (He & Hn & Hs & Hl) end.
  split_and!.
  - constructor; [|done]. split; [by eapply validateRecentIdentity_idemp|done].
  - cbn. apply NoDup_cons. split; [|done]. intros (x & E & Hx)%list_elem_of_fmap.
    rewrite Forall_forall in Hs. apply (Hs x Hx). rewrite elem_of_union, elem_of_singleton. left. by rewrite <- E.
  - constructor; [done|]. eapply Forall_impl; [exact Hs|]. intros x Hx Hin. apply Hx. set_solver.
  - cbn. by rewrite Hl.
Qed.
End valid.

(** ** The changes keep the list valid *)

Section changes.
Context `{CaseTables}.
Variables (code pad : string) (now : Z).
Hypothesis ident : validateRecentIdentity code pad = Ok (code, pad).
Hypothesis now_pos : 0 < now.

(** The other entries. *)
Definition others (es : list RecentEntry) : list RecentEntry := filter (fun e => same_identity code pad e = false) es.

Definition was_favorite (es : list RecentEntry) : bool :=
  foldl (fun favorite e => if same_identity code pad e then Favorite e else favorite) false es.

Definition touched (es : list RecentEntry) : RecentEntry := MkRecent code pad (was_favorite es) now.

Lemma touch_entries_eq es :
  touch_entries code pad now es = take (Z.to_nat RecentStoreMaxItems) (sortRecentEntries (touched es :: others es)).
Proof using Type.
  unfold touch_entries. fold (was_favorite es) (others es). fold (touched es).
  rewrite (sortRecentEntries_perm (others es ++ [touched es]) (touched es :: others es)) by (by rewrite Permutation_app_comm).
  case_if; [done|]. bool_prop. rewrite take_ge; [done|]. unfold RecentStoreMaxItems in *. lia.
Qed.

Lemma others_ok es : Forall entry_ok es → NoDup (identity <$> es) →
  Forall entry_ok (touched es :: others es) ∧ NoDup (identity <$> touched es :: others es).
Proof using All.
  intros He Hn. split.
  - constructor; [by split|]. apply Forall_forall. intros e [_ Hin]%list_elem_of_filter. by eapply Forall_forall.
  - cbn. apply NoDup_cons. split.
    + intros (x & E & [Hf _]%list_elem_of_filter)%list_elem_of_fmap.
      apply not_true_iff_false in Hf. apply Hf. by apply same_identity_spec.
    + unfold others. clear He. induction es as [|e es IH]; [constructor|]. cbn in Hn. apply NoDup_cons in Hn as [Hni Hn].
      rewrite filter_cons. case_decide; [|by apply IH]. cbn. apply NoDup_cons. split; [|by apply IH].
      intros (x & E & [_ Hx]%list_elem_of_filter)%list_elem_of_fmap. apply Hni. rewrite E. by apply list_elem_of_fmap_2.
Qed.

Lemma touch_entries_valid es : entries_ok es → entries_ok (touch_entries code pad now es).
Proof using All.
  intros [He Hn Hl]. rewrite touch_entries_eq. destruct (others_ok es He Hn) as [He' Hn'].
  split.
  - apply Forall_take. unfold sortRecentEntries. by rewrite sort_stable_perm.
  - rewrite fmap_take. eapply sublist_NoDup; [|apply sublist_take].
    unfold sortRecentEntries. by rewrite sort_stable_perm.
  - rewrite length_take. unfold RecentStoreMaxItems. lia.
Qed.

(** The whole sorted list, of which the update keeps the front. *)
Lemma touch_split es :
  let dropped := drop (Z.to_nat RecentStoreMaxItems) (sortRecentEntries (touched es :: others es)) in
  touch_entries code pad now es ++ dropped ≡ₚ touched es :: others es ∧
  StronglySorted (not_after recent_before) (touch_entries code pad now es ++ dropped) ∧
  (dropped ≠ [] → Z.of_nat (length (touch_entries code pad now es)) = RecentStoreMaxItems).
Proof using Type.
  intros dropped. subst dropped. rewrite touch_entries_eq, take_drop. split; [apply sort_stable_perm|].
  split; [apply sort_stable_sorted; apply _|]. intros Hd. rewrite length_take.
  destruct (drop _ _) as [|x l] eqn:E; [done|]. apply (f_equal length) in E. rewrite length_drop in E.
  cbn [length] in E. unfold RecentStoreMaxItems in *. lia.
Qed.

Lemma set_favorite_spec favorite es es' : NoDup (identity <$> es) →
  set_favorite code pad favorite es = Some es' →
  ∃ e l r, es = l ++ e :: r ∧ identity e = (code, pad) ∧ es' = l ++ MkRecent code pad favorite (LastOpened e) :: r.
Proof using Type.
  revert es'. induction es as [|x es IH]; intros es' Hn; [done|]. cbn [set_favorite].
  destruct (same_identity code pad x) eqn:Ex.
  - intros [= <-]. apply same_identity_spec in Ex. exists x, [], es. split; [done|]. split; [done|].
    unfold identity in Ex. injection Ex as -> ->. done.
  - destruct (set_favorite code pad favorite es) as [es1|] eqn:E; [|done]. intros [= <-].
    destruct (IH es1) as (e & l & r & -> & Hi & ->); [by apply NoDup_cons in Hn as [_ ?]|done|].
    by exists e, (x :: l), r.
Qed.

Lemma favorite_entries_valid favorite es es' :
  entries_ok es → favorite_entries code pad favorite es = Ok es' → entries_ok es'.
Proof using Type.
  intros [He Hn Hl]. unfold favorite_entries. destruct (set_favorite _ _ _ _) as [es1|] eqn:E; [|done]. intros [= <-].
  apply set_favorite_spec in E as (e & l & r & -> & Hi & ->); [|done].
  eapply entries_ok_perm; [symmetry; apply sort_stable_perm|]. unfold identity in Hi. injection Hi as Hc Hp.
  rewrite Forall_app, Forall_cons in He. destruct He as (? & [He1 He2] & ?). rewrite Hc, Hp in He1.
  rewrite fmap_app, fmap_cons in Hn. unfold identity at 2 in Hn. rewrite Hc, Hp in Hn. split.
  - apply Forall_app. split; [done|]. by constructor.
  - by rewrite fmap_app, fmap_cons.
  - rewrite length_app in *. cbn in *. lia.
Qed.

Lemma remove_entries_others es : remove_entries code pad es = others es.
Proof using Type.
  unfold remove_entries, others. induction es as [|e es IH]; [done|]. rewrite !filter_cons, IH.
  unfold same_identity. by destruct (String.eqb (RCode e) code), (String.eqb (RPad e) pad).
Qed.

Lemma remove_entries_valid es : entries_ok es → entries_ok (remove_entries code pad es).
Proof using All.
  intros [He Hn Hl]. rewrite remove_entries_others. destruct (others_ok es He Hn) as [He' Hn'].
  split; [by inversion He'|by apply NoDup_cons in Hn' as [_ ?]|].
  unfold others. pose proof (length_filter (λ e, same_identity code pad e = false) es). lia.
Qed.
End changes.

(** ** What [List] returns after an update *)

Section updates.
Local Opaque walk max_links ReadFile.
Context `{CaseTables} `{RecentJSON}.

(** The update as a change of the file's bytes. *)
Definition modify_entries (change : list RecentEntry → result recent_error (list RecentEntry))
    (old : result fs_error bytes) : result recent_error bytes :=
  entries ← match wrap_err RecentFS old ≫= decode_entries with
            | Ok entries => Ok entries
            | Err e => if recent_missing e then Ok [] else Err e
            end;
  entries ← change entries;
  Ok (Marshal (MkRecentFile recentStoreVersion entries)).

Lemma update_rmw s change w :
  update s change w =
  with_file_lock RecentLock (rfuel s) (rclock s) (rpath s)
    (read_modify_write RecentFS commit_retry (rfaults s) (rrandoms s) ".note-recents-" (rpath s) (modify_entries change)) w.
Proof.
  unfold update. apply with_file_lock_ext. intros v. unfold read_modify_write, modify_entries, readRecentEntries, writeRecentEntries.
  unfold mbind, io_bind, attempt, lift, wrap_io. rewrite ReadFile_pure.
  destruct (fst (ReadFile (rpath s) v)) as [file|e]; cbn [wrap_err].
  - cbn [mbind result_bind]. destruct (decode_entries file) as [es|e]; cbn [wrap_err].
    + cbn. by destruct (change es).
    + destruct (recent_missing e); [|done]. cbn. by destruct (change []).
  - cbn [mbind result_bind]. destruct (recent_missing (RecentFS e)); [|done]. cbn. by destruct (change []).
Qed.

(** The store is usable: a plain absolute path in an existing directory, names
    for temporary files, a clock that goes on, no rename that fails twice. *)
Record store_ready (s : RecentStore) (parts : list string) (name : string) : Prop := {
  sr_path : rpath s = target_path parts name;
  sr_parts : plain parts;
  sr_name : plain [name];
  sr_lock : plain [name +:+ ".lock"];
  sr_temps : Forall (λ r, plain [".note-recents-" +:+ r +:+ ".tmp"] ∧ ".note-recents-" +:+ r +:+ ".tmp" ≠ name) (rrandoms s);
  sr_faults : rename_fault (rfaults s) = None ∨ ∃ e, remove_fault (rfaults s) = Some e ∧ IsNotExist e = false;
  sr_clock : ∃ N, (N + 1 < rfuel s)%nat ∧ ∀ m, (N ≤ m)%nat → rclock s 0 + lock_timeout < rclock s m;
  sr_available : available (Some s) = true;
}.

Lemma List_read s w : available (Some s) = true →
  fst (List_entries (Some s) w) =
    match wrap_err RecentFS (fst (ReadFile (rpath s) w)) ≫= decode_entries with
    | Ok es => Ok (sortRecentEntries es)
    | Err e => if recent_missing e then Ok [] else Err e
    end.
Proof.
  intros Ha. unfold List_entries, with_store. rewrite Ha. unfold readRecentEntries, mbind, io_bind, attempt, wrap_io, lift.
  rewrite ReadFile_pure. destruct (fst (ReadFile (rpath s) w)) as [file|e]; cbn [wrap_err fst]; unfold result_bind.
  - destruct (decode_entries file) as [es|e]; [reflexivity|]. cbn [wrap_err]. destruct (recent_missing e); reflexivity.
  - destruct (recent_missing (RecentFS e)); reflexivity.
Qed.

Lemma decode_Marshal es :
  entries_ok es → recent_utf8 (MkRecentFile recentStoreVersion es) →
  Z.of_nat (length (Marshal (MkRecentFile recentStoreVersion es))) ≤ recentStoreMaxBytes →
  decode_entries (Marshal (MkRecentFile recentStoreVersion es)) = Ok es.
Proof.
  intros [He Hn Hl] Hu Hsz. unfold decode_entries. rewrite take_ge by lia. rewrite Unmarshal_Marshal by done.
  cbn [mbind result_bind RFVersion RFEntries]. rewrite Z.eqb_refl. unfold fail_if. cbn [negb mbind result_bind].
  rewrite Z.gtb_ltb. replace (_ <? _) with false by (symmetry; by apply Z.ltb_ge). cbn [mbind result_bind].
  apply check_entries_ok; [done|done|]. apply Forall_forall. intros ? _. apply not_elem_of_empty.
Qed.

(** An update either makes the change on what [List] returned, or fails and
    leaves it. *)
Lemma update_List s parts name w change es :
  store_ready s parts name → updatable parts name w →
  fst (List_entries (Some s) w) = Ok es →
  (∀ es0 es1, sortRecentEntries es0 = es → change es0 = Ok es1 →
     entries_ok es1 ∧ recent_utf8 (MkRecentFile recentStoreVersion es1) ∧
     Z.of_nat (length (Marshal (MkRecentFile recentStoreVersion es1))) ≤ recentStoreMaxBytes) →
  match update s change w with
  | (Ok _, w') => updatable parts name w' ∧
      ∃ es0 es1, sortRecentEntries es0 = es ∧ change es0 = Ok es1 ∧ fst (List_entries (Some s) w') = Ok (sortRecentEntries es1)
  | (Err e, w') => updatable parts name w' ∧ fst (List_entries (Some s) w') = Ok es
  end.
Proof.
  intros [Hpath Hp Hn Hl Ht Hf (N & Hfuel & Hclock) Ha] Hup Hes Hch. rewrite update_rmw, Hpath.
  pose proof (locked_update RecentLock RecentFS commit_retry _ parts name ".note-recents-" (rrandoms s) Hp Hn Hl Ht
    (rfaults s) (rfuel s) (rclock s) (modify_entries change) w N Hup Hf Hclock Hfuel) as Hu. cbv zeta in Hu.
  rewrite (List_read s w Ha), Hpath in Hes.
  destruct (with_file_lock _ _ _ _ _ w) as [[[]|e] w'].
  - destruct Hu as (Hup' & data & Hm & Hread). split; [done|]. rewrite List_read, Hpath, Hread by done.
    unfold modify_entries in Hm.
    assert (∃ es0, sortRecentEntries es0 = es ∧ match wrap_err RecentFS (fst (ReadFile (target_path parts name) w)) ≫= decode_entries with
      | Ok entries => Ok entries | Err e => if recent_missing e then Ok [] else Err e end = Ok es0) as (es0 & Hs0 & He0).
    { destruct (wrap_err RecentFS _ ≫= decode_entries) as [es0|e]; [injection Hes as <-; by eexists|].
      destruct (recent_missing e); [|done]. injection Hes as <-. by exists []. }
    rewrite He0 in Hm. cbn [mbind result_bind] in Hm. destruct (change es0) as [es1|e] eqn:Ec; [|done].
    cbn [mbind result_bind] in Hm. injection Hm as <-. exists es0, es1. split; [done|]. split; [done|].
    destruct (Hch es0 es1 Hs0 Ec) as (? & ? & ?). cbn [wrap_err mbind result_bind]. by rewrite decode_Marshal.
  - destruct Hu as (Hup' & Hread & _). split; [done|]. by rewrite List_read, Hpath, Hread.
Qed.


Lemma decode_entries_ok file es : decode_entries file = Ok es → entries_ok es.
Proof.
  unfold decode_entries. intros Hd. res_inv. bool_prop.
  match goal with H : check_entries _ _ = Ok _ |- _ => apply check_entries_sound in H as (? & ? & _ & Hl) end.
  split; [done|done|]. rewrite Hl. lia.
Qed.

Lemma List_ok s w es : available (Some s) = true → fst (List_entries (Some s) w) = Ok es → entries_ok es.
Proof.
  intros Ha. rewrite List_read by done. destruct (wrap_err _ _ ≫= decode_entries) as [es0|e] eqn:E.
  - intros [= <-]. eapply entries_ok_perm; [symmetry; apply sort_stable_perm|].
    destruct (wrap_err _ _) as [file|]; [|done]. by eapply decode_entries_ok.
  - destruct (recent_missing e); [|done]. intros [= <-]. split; [constructor|constructor|done].
Qed.

Lemma was_favorite_spec code pad es : NoDup (identity <$> es) →
  was_favorite code pad es = true ↔ ∃ e, e ∈ es ∧ identity e = (code, pad) ∧ Favorite e = true.
Proof.
  unfold was_favorite. intros Hn.
  assert (Hgen : ∀ acc, foldl (λ favorite e, if same_identity code pad e then Favorite e else favorite) acc es = true ↔
    (∃ e, e ∈ es ∧ identity e = (code, pad) ∧ Favorite e = true) ∨
    (acc = true ∧ ∀ e, e ∈ es → identity e ≠ (code, pad))).
  { induction es as [|x l IH]; intros acc; cbn [foldl].
    { split; [intros ?; right; split; [done|by intros e ?%not_elem_of_nil]|].
      by intros [(e & ?%not_elem_of_nil & _)|[? _]]. }
    cbn in Hn. apply NoDup_cons in Hn as [Hx Hn]. rewrite IH by done. setoid_rewrite elem_of_cons.
    destruct (same_identity code pad x) eqn:E.
    - apply same_identity_spec in E.
      assert (Hl : ∀ e, e ∈ l → identity e ≠ (code, pad)) by (intros e He Hi; apply Hx; rewrite E, <- Hi; by apply list_elem_of_fmap_2).
      naive_solver.
    - assert (identity x ≠ (code, pad)) by (rewrite <- same_identity_spec; by rewrite E). naive_solver. }
  rewrite Hgen. naive_solver.
Qed.

Lemma touch_entries_perm code pad now es es' : NoDup (identity <$> es) → es ≡ₚ es' →
  touch_entries code pad now es = touch_entries code pad now es'.
Proof.
  intros Hn Hp. rewrite !touch_entries_eq. f_equal. apply sortRecentEntries_perm.
  assert (was_favorite code pad es = was_favorite code pad es') as Hw.
  { apply eq_true_iff_eq. rewrite !was_favorite_spec by (done || by rewrite <- Hp). by setoid_rewrite Hp. }
  unfold touched. rewrite Hw. f_equiv. unfold others. by rewrite Hp.
Qed.

(** Opening a notepad puts it into the list: after a successful [Touch],
    [List] returns at most twenty distinct valid notepads, favourites first and
    then by the time they were opened, among them the one just opened with the
    favourite mark it had; nobody else is changed, and only entries behind
    twenty others fall off.  A [Touch] that fails, at whatever step, leaves what
    [List] returns. *)
Theorem Touch_List s parts name w code pad c p now es :
  store_ready s parts name → updatable parts name w →
  fst (List_entries (Some s) w) = Ok es → validateRecentIdentity code pad = Ok (c, p) → 0 < now →
  recent_utf8 (MkRecentFile recentStoreVersion (touch_entries c p now es)) →
  Z.of_nat (length (Marshal (MkRecentFile recentStoreVersion (touch_entries c p now es)))) ≤ recentStoreMaxBytes →
  match Touch (Some s) code pad now w with
  | (Ok _, w') => updatable parts name w' ∧ ∃ es' dropped,
      fst (List_entries (Some s) w') = Ok es' ∧ entries_ok es' ∧
      es' ++ dropped ≡ₚ MkRecent c p (was_favorite c p es) now :: others c p es ∧
      StronglySorted (not_after recent_before) (es' ++ dropped) ∧
      (dropped ≠ [] → Z.of_nat (length es') = RecentStoreMaxItems)
  | (Err _, w') => updatable parts name w' ∧ fst (List_entries (Some s) w') = Ok es
  end.
Proof.
  intros Hs Hup Hes Hv Hnow Hu Hsz. pose proof (sr_available _ _ _ Hs) as Ha.
  pose proof (List_ok s w es Ha Hes) as Hok. pose proof (validateRecentIdentity_idemp _ _ _ _ Hv) as Hid.
  unfold Touch, mbind, io_bind, lift, with_store. rewrite Hv, Ha.
  assert (Hperm : ∀ es0, sortRecentEntries es0 = es → touch_entries c p now es0 = touch_entries c p now es).
  { intros es0 Hs0. symmetry. apply touch_entries_perm; [apply Hok|]. rewrite <- Hs0. apply sort_stable_perm. }
  pose proof (update_List s parts name w (λ entries, Ok (touch_entries c p now entries)) es Hs Hup Hes) as Hupd.
  destruct (update s _ w) as [[u|e] w'].
  - destruct Hupd as (Hup' & es0 & es1 & Hs0 & [= <-] & Hl).
    { intros es0 es1 Hs0 [= <-]. rewrite Hperm by done. split; [by apply touch_entries_valid|done]. }
    destruct (touch_split c p now es) as (H1 & H2 & H3).
    split; [done|]. rewrite Hperm, sorted_id in Hl by (done || by eapply StronglySorted_app_1_l).
    exists (touch_entries c p now es), (drop (Z.to_nat RecentStoreMaxItems) (sortRecentEntries (touched c p now es :: others c p es))).
    split; [done|]. split; [by apply touch_entries_valid|]. done.
  - apply Hupd. intros es0 es1 Hs0 [= <-]. rewrite Hperm by done. split; [by apply touch_entries_valid|done].
Qed.
End updates.

(** ** Example *)

Definition recent_entry_fields (e : RecentEntry) : list bytes :=
  [to_bytes (RCode e); to_bytes (RPad e); bool_field (Favorite e); num_field (LastOpened e)].
Fixpoint fields_recent_entries (l : list bytes) : option (list RecentEntry) :=
  match l with
  | [] => Some []
  | c :: p :: f :: t :: l =>
      t ← field_num t; es ← fields_recent_entries l; Some (MkRecent (of_bytes c) (of_bytes p) (field_bool f) t :: es)
  | _ => None
  end.
Definition recent_fields (f : recentFile) : list bytes :=
  num_field (RFVersion f) :: concat (recent_entry_fields <$> RFEntries f).
Definition fields_recent (l : list bytes) : option recentFile :=
  match l with v :: l => v ← field_num v; es ← fields_recent_entries l; Some (MkRecentFile v es) | _ => None end.

Lemma recent_fields_law f : fields_recent (recent_fields f) = Some f.
Proof.
  destruct f as [v es]. unfold recent_fields, fields_recent. cbn [RFVersion RFEntries]. rewrite field_num_field. cbn [mbind option_bind].
  assert (fields_recent_entries (concat (recent_entry_fields <$> es)) = Some es) as ->; [|done].
  induction es as [|[c p f t] es IH]; [done|]. rewrite fmap_cons.
  cbn [concat recent_entry_fields app fields_recent_entries RCode RPad Favorite LastOpened].
  rewrite field_num_field. cbn [mbind option_bind]. rewrite IH. cbn [mbind option_bind].
  by rewrite field_bool_field, !string_of_list_ascii_of_string.
Qed.

Definition demo_recent_json : RecentJSON := fields_json recent_utf8 recent_fields fields_recent recent_fields_law.

Definition demo_recents : list RecentEntry := [MkRecent "AB2C3D" "main" true 7; MkRecent "XY2C3D" "side" false 9].
Definition demo_recent_fs : fs :=
  let Hj := demo_recent_json in
  MkFS {[ ["c"; "r.json"]%string := NFile 0; ["c"]%string := NDir 448 0 ]}
    {[ 0%nat := MkInode (Marshal (MkRecentFile 1 demo_recents)) 384 0 ]} 1 [].
Definition demo_recent_store : RecentStore := MkRecentStore "/c/r.json" (fun n => Z.of_nat n * 3 * second) 4 ["17"]%string no_faults.

Lemma demo_recent_ready : store_ready demo_recent_store ["c"]%string "r.json".
Proof.
  split.
  - reflexivity.
  - split; repeat constructor.
  - split; repeat constructor.
  - split; repeat constructor.
  - constructor; [|constructor]. split; [split; repeat constructor|discriminate].
  - by left.
  - exists 1%nat. split; [cbn; lia|]. intros m Hm. unfold demo_recent_store, lock_timeout, second. cbn [rclock]. lia.
  - reflexivity.
Qed.

Lemma demo_recent_updatable : updatable ["c"]%string "r.json" demo_recent_fs.
Proof.
  split.
  - intros [|[|n]] Hn; [cbn in Hn; lia| |cbn in Hn; lia]. exists 448, 0. by vm_compute.
  - intros n. vm_compute. intros [= <-]. by eexists.
  - intros m t. vm_compute. done.
  - intros k i. unfold demo_recent_fs. cbn [entries next_ino].
    intros [[_ [= <-]]|[_ [_ [=]]%lookup_singleton_Some]]%lookup_insert_Some. lia.
Qed.

Lemma Touch_List_witness :
  let Ht := ascii_tables in let Hj := demo_recent_json in
  ∃ es', fst (List_entries (Some demo_recent_store) (snd (Touch (Some demo_recent_store) "xy2-c3d" " side" 12 demo_recent_fs))) = Ok es' ∧
    entries_ok es'.
Proof.
  intros Ht Hj.
  assert (H1 : fst (List_entries (Some demo_recent_store) demo_recent_fs) = Ok demo_recents) by (vm_compute; reflexivity).
  assert (H2 : validateRecentIdentity "xy2-c3d" " side" = Ok ("XY2C3D", "side")%string) by (vm_compute; reflexivity).
  assert (H3 : recent_utf8 (MkRecentFile recentStoreVersion (touch_entries "XY2C3D" "side" 12 demo_recents)))
    by (apply (bool_decide_eq_true_1 _); vm_compute; reflexivity).
  assert (H4 : Z.of_nat (length (Marshal (MkRecentFile recentStoreVersion (touch_entries "XY2C3D" "side" 12 demo_recents)))) ≤ recentStoreMaxBytes)
    by (vm_compute; discriminate).
  pose proof (Touch_List demo_recent_store ["c"]%string "r.json" demo_recent_fs "xy2-c3d" " side" "XY2C3D" "side" 12 demo_recents
    demo_recent_ready demo_recent_updatable H1 H2 eq_refl H3 H4) as Hx.
  assert (Hok : is_ok (fst (Touch (Some demo_recent_store) "xy2-c3d" " side" 12 demo_recent_fs)) = true) by (vm_compute; reflexivity).
  destruct (Touch (Some demo_recent_store) "xy2-c3d" " side" 12 demo_recent_fs) as [[u|e] w']; [|discriminate Hok].
  destruct Hx as (_ & es' & dropped & Ha & Hb & _). exists es'. split; [exact Ha|exact Hb].
Defined.
