(* ===== verification/RouteHistory.v ===== *)
(** * The route history ([internal/app/route_history.go])

    Which routes worked from a network, how fast, and how they failed lately: a
    JSON file of one profile per network, updated under a lock file after each
    attempt.  A client that failed to connect directly several times in a row
    stops trying for a while, and connections get weights by their past rates.
    Theorems: what recording an observation changes and keeps; the profiles that
    are forgotten; the bounds of the weights; and that, through the file, direct
    attempts are deferred exactly after three failures in a row. *)
From Stdlib Require Import ZArith Lia Ascii String SpecFloat.
From stdpp Require Import base tactics numbers list gmap strings sorting.
From S2P Require Import Prelude Float64 GoStrings Json GoPath FileSystem Containment AtomicFile Transport.

Definition routeHistoryVersion : Z := 2.
Definition maxRouteHistoryBytes : Z := 2 ^ 20.
Definition maxRouteHistoryProfiles : Z := 16.
Definition directHistoryFailureThreshold : Z := 3.
Definition directHistoryCooldown : Z := 30 * 60 * second.
Definition defaultRouteHistoryScope : string := "unscoped".
Definition historyRouteDirect : string := "direct".
Definition historyRouteRelay : string := "relay".
Definition historyRouteWebRTC : string := "webrtc".
Definition validHistoryRoute (kind : string) : bool :=
  String.eqb kind historyRouteDirect || String.eqb kind historyRouteRelay || String.eqb kind historyRouteWebRTC.

(** ** Data *)

Record routePathHistoryEntry := MkPathEntry { PSamples : Z; PSent : Z; PNanos : Z; PRate : float64 }.
Record routeHistoryEntry := MkEntry {
  Attempts : Z; Successes : Z; Failures : Z; ConsecutiveFailures : Z;
  ESent : Z; EReceived : Z; DurationMillis : Z; ERate : float64;
  LastSuccess : Z; LastFailure : Z;
  EPaths : gmap string routePathHistoryEntry;
}.
Record routeHistoryProfile := MkProfile { LastSeen : Z; PRoutes : gmap string routeHistoryEntry }.
Record routeHistoryFile := MkHistory {
  HVersion : Z; Profiles : gmap string routeHistoryProfile; HRoutes : gmap string routeHistoryEntry   (* version 1 *)
}.
Definition f64_0 : float64 := S754_zero false.
Definition zero_path_entry : routePathHistoryEntry := MkPathEntry 0 0 0 f64_0.
Definition zero_entry : routeHistoryEntry := MkEntry 0 0 0 0 0 0 0 f64_0 0 0 ∅.
Definition zero_profile : routeHistoryProfile := MkProfile 0 ∅.

(** [routeObservation] *)
Record routeObservation := MkObservation {
  OKind : string; ScopeID : string; Success : bool; OSent : Z; OReceived : Z; Duration : Z; OPaths : list PhysicalPathStats;
}.

(** ** Recording *)

(** The moving average of rates. *)
Definition ewma (old rate : float64) : float64 :=
  if f64_eq old f64_0 then rate else f64_add (f64_mul old (f64_const 3 4)) (f64_mul rate (f64_const 1 4)).

Definition record_path (paths : gmap string routePathHistoryEntry) (st : PhysicalPathStats) : gmap string routePathHistoryEntry :=
  if (PSConnection st <=? 0) || (PSSentBytes st <=? 0) || (PSSendNanos st <=? 0) then paths
  else
    let key := Itoa (PSConnection st) in
    let e := default zero_path_entry (paths !! key) in
    let rate := f64_div (f64_of_Z (PSSentBytes st)) (f64_div (f64_of_Z (PSSendNanos st)) (f64_of_Z second)) in
    <[key := MkPathEntry (wrap64 (PSamples e + 1)) (wrap64 (PSent e + PSSentBytes st)) (wrap64 (PNanos e + PSSendNanos st)) (ewma (PRate e) rate)]> paths.

Definition record_entry (e : routeHistoryEntry) (o : routeObservation) (now : Z) : routeHistoryEntry :=
  let attempts := wrap64 (Attempts e + 1) in
  let sent := wrap64 (ESent e + Z.max (OSent o) 0) in
  let received := wrap64 (EReceived e + Z.max (OReceived o) 0) in
  let millis := if Duration o >? 0 then wrap64 (DurationMillis e + Z.quot (Duration o) 1000000) else DurationMillis e in
  let paths := foldl record_path (EPaths e) (OPaths o) in
  if Success o then
    let totalBytes := wrap64 (OSent o + OReceived o) in
    let rate := if (Duration o >? 0) && (totalBytes >? 0) then ewma (ERate e) (f64_div (f64_of_Z totalBytes) (Seconds (Duration o))) else ERate e in
    MkEntry attempts (wrap64 (Successes e + 1)) (Failures e) 0 sent received millis rate now (LastFailure e) paths
  else
    MkEntry attempts (Successes e) (wrap64 (Failures e + 1)) (wrap64 (ConsecutiveFailures e + 1)) sent received millis (ERate e) (LastSuccess e) now paths.

Definition newRouteHistory : routeHistoryFile := MkHistory routeHistoryVersion ∅ ∅.
Definition migrateRouteHistory (h : routeHistoryFile) (scopeID : string) (now : Z) : routeHistoryFile :=
  if HVersion h =? routeHistoryVersion then h
  else MkHistory routeHistoryVersion {[scopeID := MkProfile now (HRoutes h)]} ∅.

(** The oldest profiles go first, never the current one. *)
Definition older (a b : string * Z) : bool := if a.2 =? b.2 then str_ltb a.1 b.1 else a.2 <? b.2.
Fixpoint prune_loop (ids : list string) (profiles : gmap string routeHistoryProfile) : gmap string routeHistoryProfile :=
  match ids with
  | [] => profiles
  | id :: ids => if Z.of_nat (size profiles) >? maxRouteHistoryProfiles then prune_loop ids (delete id profiles) else profiles
  end.
Definition prune_order (profiles : gmap string routeHistoryProfile) (keep : string) : list string :=
  (sort_stable older ((fun ip : string * routeHistoryProfile => (ip.1, LastSeen ip.2)) <$>
     filter (fun ip : string * routeHistoryProfile => ip.1 ≠ keep) (map_to_list profiles))).*1.
Definition pruneRouteHistoryProfiles (h : routeHistoryFile) (keep : string) : routeHistoryFile :=
  if Z.of_nat (size (Profiles h)) <=? maxRouteHistoryProfiles then h
  else MkHistory (HVersion h) (prune_loop (prune_order (Profiles h) keep) (Profiles h)) (HRoutes h).

Definition scope_or_default (o : routeObservation) : string := if String.eqb (ScopeID o) "" then defaultRouteHistoryScope else ScopeID o.

(** The body of [recordRouteObservation]. *)
Definition observe (h : routeHistoryFile) (o : routeObservation) (now : Z) : routeHistoryFile :=
  let scopeID := scope_or_default o in
  let h := migrateRouteHistory h scopeID now in
  let profile := default zero_profile (Profiles h !! scopeID) in
  let entry := record_entry (default zero_entry (PRoutes profile !! OKind o)) o now in
  pruneRouteHistoryProfiles (MkHistory (HVersion h) (<[scopeID := MkProfile now (<[OKind o := entry]> (PRoutes profile))]> (Profiles h)) (HRoutes h)) scopeID.

(** ** The file *)

Definition f64_finite (x : float64) : bool := match x with S754_infinity _ | S754_nan => false | _ => true end.
(** What [encoding/json] carries unchanged: names of valid UTF-8, no infinite rates. *)
Definition entry_faithful (e : routeHistoryEntry) : bool :=
  f64_finite (ERate e) && forallb (fun kp : string * routePathHistoryEntry => utf8_valid kp.1 && f64_finite (PRate kp.2)) (map_to_list (EPaths e)).
Definition routes_faithful (rs : gmap string routeHistoryEntry) : bool :=
  forallb (fun ke : string * routeHistoryEntry => utf8_valid ke.1 && entry_faithful ke.2) (map_to_list rs).
Definition history_faithful (h : routeHistoryFile) : Prop :=
  routes_faithful (HRoutes h) &&
  forallb (fun ip : string * routeHistoryProfile => utf8_valid ip.1 && routes_faithful (PRoutes ip.2)) (map_to_list (Profiles h)) = true.

(** [Marshal] is what the encoder writes, [Unmarshal] what the decoder reads of
    the beginning of a file. *)
Class HistoryJSON := history_json :: JSON routeHistoryFile history_faithful.

Inductive history_error := HFS (e : fs_error) | HLock (e : lock_error) | HDecode | UnsupportedHistory (v : Z).

(** Where a history is kept, as a [RecentStore]. *)
Record history_env := MkHistoryEnv { hpath : string; hclock : nat → Z; hfuel : nat; hrandoms : list string; hfaults : disk_faults }.

Section file.
Context `{HistoryJSON}.

Definition decode_history (file : bytes) : result history_error routeHistoryFile :=
  match Unmarshal (take (Z.to_nat maxRouteHistoryBytes) file) with
  | None => Err HDecode
  | Some h => if negb (HVersion h =? 1) && negb (HVersion h =? routeHistoryVersion) then Err (UnsupportedHistory (HVersion h)) else Ok h
  end.
Definition loadRouteHistory (path : string) : io history_error routeHistoryFile :=
  file ← wrap_io HFS (ReadFile path);
  lift (decode_history file).
Definition writeRouteHistory (fl : disk_faults) (randoms : list string) (path : string) (h : routeHistoryFile) : io history_error unit :=
  wrap_io HFS (replace_file commit_defer fl randoms ".route-history-" path (Marshal h)).

Definition recordRouteObservation (env : history_env) (o : routeObservation) (now : Z) : io history_error unit :=
  if String.eqb (hpath env) "" || negb (validHistoryRoute (OKind o)) then mret tt
  else
    with_file_lock HLock (hfuel env) (hclock env) (hpath env) (
      read ← attempt (loadRouteHistory (hpath env));
      let h := match read with Ok h => h | Err _ => newRouteHistory end in
      writeRouteHistory (hfaults env) (hrandoms env) (hpath env) (observe h o now)).

(** ** Reports *)

Record routePathHistorySummary := MkPathSummary { SConnection : Z; SSamples : Z; SPathSent : Z; SPathRate : float64; SWeight : float64 }.
Record routeHistorySummary := MkSummary {
  SAttempts : Z; SSuccesses : Z; SFailures : Z; SSuccessRate : float64; SConsecutiveFailures : Z; SAverageMillis : Z;
  SRate : float64; SLastSuccess : Z; SLastFailure : Z; SPaths : list routePathHistorySummary;
}.
Record doctorHistoryReport := MkHistoryReport {
  HEnabled : bool; HScope : string; HLegacy : bool; HReport : gmap string routeHistorySummary; HError : option history_error;
}.

Definition clampRoutePathWeight (w : float64) : float64 :=
  if f64_lt w (f64_const 1 2) then f64_const 1 2 else if f64_lt (f64_of_Z 2) w then f64_of_Z 2 else w.

Definition positive_rates (l : list routePathHistorySummary) : list float64 :=
  filter (fun r => f64_lt f64_0 r = true) (SPathRate <$> l).
(** [total / float64(count)] *)
Definition average (rates : list float64) : float64 := f64_div (foldl f64_add f64_0 rates) (f64_of_Z (Z.of_nat (length rates))).
Definition with_weight (s : routePathHistorySummary) (w : float64) : routePathHistorySummary :=
  MkPathSummary (SConnection s) (SSamples s) (SPathSent s) (SPathRate s) w.

Definition path_summary (kp : string * routePathHistoryEntry) : option routePathHistorySummary :=
  match ParseInt kp.1 with
  | Some n => if n <=? 0 then None else Some (MkPathSummary n (PSamples kp.2) (PSent kp.2) (PRate kp.2) (f64_of_Z 1))
  | None => None
  end.
Definition summarizeRoutePaths (paths : gmap string routePathHistoryEntry) : list routePathHistorySummary :=
  let out := sort_stable (fun a b => SConnection a <? SConnection b) (omap path_summary (map_to_list paths)) in
  if Nat.eqb (length (positive_rates out)) 0 then out
  else
    let avg := average (positive_rates out) in
    (fun s => if f64_le (SPathRate s) f64_0 then s else with_weight s (clampRoutePathWeight (f64_div (SPathRate s) avg))) <$> out.

Definition summarize_entry (e : routeHistoryEntry) : routeHistorySummary :=
  MkSummary (Attempts e) (Successes e) (Failures e)
    (if Attempts e >? 0 then f64_div (f64_of_Z (Successes e)) (f64_of_Z (Attempts e)) else f64_0)
    (ConsecutiveFailures e) (if Attempts e >? 0 then Z.quot (DurationMillis e) (Attempts e) else 0)
    (ERate e) (LastSuccess e) (LastFailure e) (summarizeRoutePaths (EPaths e)).
Definition summarizeRouteEntries (rs : gmap string routeHistoryEntry) : gmap string routeHistorySummary := summarize_entry <$> rs.

(** [enabled] is whether there is a history at all, [scope] the detected network. *)
Definition inspectRouteHistory (enabled : bool) (path scope : string) : io history_error doctorHistoryReport :=
  if negb enabled || String.eqb path "" then mret (MkHistoryReport false "" false ∅ None)
  else
    read ← attempt (loadRouteHistory path);
    mret (match read with
          | Err (HFS e) => if IsNotExist e then MkHistoryReport true scope false ∅ None else MkHistoryReport true scope false ∅ (Some (HFS e))
          | Err e => MkHistoryReport true scope false ∅ (Some e)
          | Ok h =>
              if HVersion h =? 1 then MkHistoryReport true scope true (summarizeRouteEntries (HRoutes h)) None
              else MkHistoryReport true scope false (summarizeRouteEntries (PRoutes (default zero_profile (Profiles h !! scope)))) None
          end).

(** [now] in nanoseconds *)
Definition shouldDeferDirectFromHistory (r : doctorHistoryReport) (now : Z) : bool :=
  if negb (HEnabled r) || bool_decide (HError r ≠ None) then false
  else
    match HReport r !! historyRouteDirect with
    | None => false
    | Some s =>
        if (SConsecutiveFailures s <? directHistoryFailureThreshold) || (SLastFailure s <=? 0) then false
        else let age := now - SLastFailure s * 1000000 in (age >=? 0) && (age <? directHistoryCooldown)
    end.

Definition usable_path (n : nat) (s : routePathHistorySummary) : bool :=
  negb ((SConnection s <=? 0) || (SConnection s >=? Z.of_nat n) || f64_le (SPathRate s) f64_0).
Definition weigh (avg : float64) (weights : list float64) (s : routePathHistorySummary) : list float64 :=
  if usable_path (length weights) s then <[Z.to_nat (SConnection s) := clampRoutePathWeight (f64_div (SPathRate s) avg)]> weights else weights.
(** The weights of a route's connections by its past rates. *)
Definition routePathWeights (r : doctorHistoryReport) (kind : string) (connectionCount : Z) : list float64 :=
  let n := Z.to_nat connectionCount in
  let weights := replicate n (f64_of_Z 1) in
  if (connectionCount <=? 1) || negb (validHistoryRoute kind) || negb (HEnabled r) || bool_decide (HError r ≠ None) then weights
  else
    match HReport r !! kind with
    | None => weights
    | Some s =>
        let usable := filter (fun p => usable_path n p = true) (SPaths s) in
        if Nat.eqb (length usable) 0 then weights
        else foldl (weigh (average (SPathRate <$> usable))) weights (SPaths s)
    end.
End file.

(** ** Weights *)

Lemma f64_pos_of_not_le x : f64_finite x = true → f64_le x f64_0 = false → f64_pos_finite x = true.
Proof. destruct x as [[]|[]| |[] m e]; try done. Qed.

Lemma clampRoutePathWeight_bounds w : is_nan w = false → f64_le (f64_const 1 2) (clampRoutePathWeight w) = true ∧ f64_le (clampRoutePathWeight w) (f64_of_Z 2) = true.
Proof.
  intros Hn. unfold clampRoutePathWeight. destruct (f64_lt w (f64_const 1 2)) eqn:E1; [by split; vm_compute|].
  destruct (f64_lt (f64_of_Z 2) w) eqn:E2; [by split; vm_compute|].
  assert (Hle : ∀ x y, is_nan x = false → is_nan y = false → f64_lt x y = false → f64_le y x = true).
  { intros x y Hx Hy. unfold f64_lt, f64_le, SFltb, SFleb, SFcompare. destruct x as [[]|[]| |[] mx ex], y as [[]|[]| |[] my ey]; try done.
    - fold (Pos.compare mx my) (Pos.compare my mx). rewrite (Z.compare_antisym ey ex), (Pos.compare_antisym my mx).
      destruct (ey ?= ex); cbn; try done; by destruct (my ?= mx)%positive.
    - fold (Pos.compare mx my) (Pos.compare my mx). rewrite (Z.compare_antisym ey ex), (Pos.compare_antisym my mx).
      destruct (ey ?= ex); cbn; try done; by destruct (my ?= mx)%positive. }
  split; by apply Hle.
Qed.

Lemma sum_nonneg rates acc : f64_nonneg acc = true → Forall (λ r, f64_pos_finite r = true) rates → f64_nonneg (foldl f64_add acc rates) = true.
Proof.
  intros Ha Hr. revert acc Ha. induction Hr as [|r rates Hr _ IH]; intros acc Ha; [done|]. cbn [foldl]. apply IH, f64_add_nonneg; [done|].
  by apply f64_pos_finite_nonneg.
Qed.

Lemma average_nonneg rates :
  Forall (λ r, f64_pos_finite r = true) rates → 0 < Z.of_nat (length rates) < 2 ^ 53 → f64_nonneg (average rates) = true.
Proof. intros Hr Hl. unfold average. apply f64_div_pos; [by apply sum_nonneg|by apply f64_of_Z_pos]. Qed.

Definition weight_ok (w : float64) : Prop := f64_le (f64_const 1 2) w = true ∧ f64_le w (f64_of_Z 2) = true.

Lemma usable_pos n s : f64_finite (SPathRate s) = true → usable_path n s = true → f64_pos_finite (SPathRate s) = true.
Proof. intros Hf Hu. apply f64_pos_of_not_le; [done|]. unfold usable_path in Hu. destruct (f64_le _ _); [|done]. by rewrite orb_true_r in Hu. Qed.

Lemma weigh_ok avg weights s :
  f64_nonneg avg = true → f64_finite (SPathRate s) = true → Forall weight_ok weights →
  let weights' := weigh avg weights s in
  length weights' = length weights ∧ Forall weight_ok weights' ∧ head weights' = head weights.
Proof.
  intros Ha Hf Hw. cbv zeta. unfold weigh. destruct (usable_path (length weights) s) eqn:Hu; [|done]. pose proof (usable_pos _ _ Hf Hu) as Hp.
  split; [by rewrite length_insert|]. split.
  - apply Forall_insert; [done|]. apply clampRoutePathWeight_bounds. by apply f64_nonneg_nan, f64_div_nonneg.
  - unfold usable_path in Hu. destruct (Z.leb_spec (SConnection s) 0); [done|]. destruct weights as [|w ws]; [done|].
    destruct (Z.to_nat (SConnection s)) eqn:E; [lia|done].
Qed.

(** The weights of the connections are between a half and two, one for each
    connection, and the first connection always weighs one, whatever the history. *)
Theorem routePathWeights_bounds r kind n :
  (∀ s p, HReport r !! kind = Some s → p ∈ SPaths s → f64_finite (SPathRate p) = true) →
  (∀ s, HReport r !! kind = Some s → Z.of_nat (length (SPaths s)) < 2 ^ 53) →
  length (routePathWeights r kind n) = Z.to_nat n ∧ Forall weight_ok (routePathWeights r kind n) ∧
  (0 < n → head (routePathWeights r kind n) = Some (f64_of_Z 1)).
Proof.
  intros Hfin Hlen. assert (Hone : weight_ok (f64_of_Z 1)) by (by split; vm_compute).
  assert (Hrep : length (replicate (Z.to_nat n) (f64_of_Z 1)) = Z.to_nat n ∧ Forall weight_ok (replicate (Z.to_nat n) (f64_of_Z 1)) ∧
    (0 < n → head (replicate (Z.to_nat n) (f64_of_Z 1)) = Some (f64_of_Z 1))).
  { split; [apply length_replicate|]. split; [by apply Forall_replicate|]. intros Hn. by destruct (Z.to_nat n) eqn:E; [lia|]. }
  unfold routePathWeights. destruct (_ || _) eqn:Eg; [done|]. destruct (HReport r !! kind) as [s|] eqn:Hs; [|done].
  set (usable := filter _ (SPaths s)). destruct (Nat.eqb_spec (length usable) 0) as [|Hne]; [done|].
  assert (Hrates : Forall (λ x, f64_pos_finite x = true) (SPathRate <$> usable)).
  { apply Forall_fmap, Forall_forall. intros p [Hu Hp]%list_elem_of_filter. cbn. eapply usable_pos; [by eapply Hfin|done]. }
  assert (Havg : f64_nonneg (average (SPathRate <$> usable)) = true).
  { apply average_nonneg; [done|]. rewrite length_fmap. specialize (Hlen s eq_refl). pose proof (length_filter (fun p => usable_path (Z.to_nat n) p = true) (SPaths s)).
    fold usable in H. lia. }
  revert Hrep. generalize (replicate (Z.to_nat n) (f64_of_Z 1)) as ws. assert (Hall : ∀ p, p ∈ SPaths s → f64_finite (SPathRate p) = true) by (intros p; by apply Hfin).
  clear -Havg Hall. revert Hall. generalize (SPaths s) as ps. induction ps as [|p ps IH]; intros Hall ws (H1 & H2 & H3); [done|]. cbn [foldl].
  destruct (weigh_ok (average (SPathRate <$> usable)) ws p) as (W1 & W2 & W3); [done|apply Hall; by left|done|].
  apply IH; [intros q Hq; apply Hall; by right|]. split; [congruence|]. split; [done|]. intros Hn. rewrite W3. by apply H3.
Qed.

(** ** What an observation changes *)

Lemma prune_loop_spec ids profiles keep :
  keep ∉ ids → let m := prune_loop ids profiles in
  m ⊆ profiles ∧ m !! keep = profiles !! keep ∧
  (Z.of_nat (size profiles) ≤ maxRouteHistoryProfiles + Z.of_nat (length ids) → NoDup ids → Forall (λ i, is_Some (profiles !! i)) ids →
   Z.of_nat (size m) ≤ maxRouteHistoryProfiles).
Proof.
  revert profiles. induction ids as [|id ids IH]; intros profiles Hk; cbv zeta; cbn [prune_loop].
  { split; [done|]. split; [done|]. cbn. lia. }
  apply not_elem_of_cons in Hk as [Hne Hk]. rewrite Z.gtb_ltb. destruct (Z.ltb_spec maxRouteHistoryProfiles (Z.of_nat (size profiles))) as [Hgt|Hle]; [|done].
  destruct (IH (delete id profiles) Hk) as (H1 & H2 & H3). split; [etrans; [exact H1|apply delete_subseteq]|]. split; [by rewrite H2, lookup_delete_ne|].
  intros Hsz [Hni Hnd]%NoDup_cons [[p Hp] Hall]%Forall_cons. apply H3; [|done|].
  - assert (size profiles = S (size (delete id profiles))) as E; [|cbn in Hsz; lia].
    rewrite <- (insert_id profiles id p Hp) at 1. rewrite <- insert_delete_eq. apply map_size_insert_None, lookup_delete_eq.
  - apply Forall_forall. intros i Hi. rewrite Forall_forall in Hall. rewrite lookup_delete_ne; [by apply Hall|]. intros ->. done.
Qed.

Lemma prune_order_spec profiles keep i : i ∈ prune_order profiles keep ↔ i ≠ keep ∧ is_Some (profiles !! i).
Proof.
  unfold prune_order. rewrite list_elem_of_fmap. setoid_rewrite elem_of_sort_stable. setoid_rewrite list_elem_of_fmap. split.
  - intros ([k a] & -> & [k' p] & [= -> ->] & [Hne Hin%elem_of_map_to_list]%list_elem_of_filter). cbn in *. by split; [|eexists].
  - intros (Hne & p & Hp). exists (i, LastSeen p). split; [done|]. exists (i, p). split; [done|]. apply list_elem_of_filter. split; [done|by apply elem_of_map_to_list].
Qed.
Lemma prune_order_NoDup profiles keep : NoDup (prune_order profiles keep).
Proof.
  unfold prune_order. rewrite sort_stable_perm, <- list_fmap_compose.
  change (NoDup ((filter (λ ip : string * routeHistoryProfile, ip.1 ≠ keep) (map_to_list profiles)).*1)).
  eapply sublist_NoDup; [apply (NoDup_fst_map_to_list profiles)|]. apply fmap_sublist, sublist_filter.
Qed.

(** At most sixteen networks are remembered, the current one among them. *)
Lemma prune_spec h keep :
  let h' := pruneRouteHistoryProfiles h keep in
  Profiles h' ⊆ Profiles h ∧ Profiles h' !! keep = Profiles h !! keep ∧ Z.of_nat (size (Profiles h')) ≤ maxRouteHistoryProfiles ∧
  (Z.of_nat (size (Profiles h)) ≤ maxRouteHistoryProfiles → h' = h) ∧ HVersion h' = HVersion h.
Proof.
  cbv zeta. unfold pruneRouteHistoryProfiles. destruct (Z.leb_spec (Z.of_nat (size (Profiles h))) maxRouteHistoryProfiles) as [|Hgt]; [done|].
  cbn [Profiles HVersion]. destruct (prune_loop_spec (prune_order (Profiles h) keep) (Profiles h) keep) as (H1 & H2 & H3).
  { rewrite prune_order_spec. naive_solver. }
  split; [done|]. split; [done|]. split; [|split; [lia|done]]. apply H3; [|apply prune_order_NoDup|].
  - assert (Hlen : (size (Profiles h) ≤ S (length (prune_order (Profiles h) keep)))%nat); [|unfold maxRouteHistoryProfiles; lia].
    rewrite <- (size_dom (D := gset string)), <- (size_list_to_set (C := gset string) (prune_order (Profiles h) keep)) by apply prune_order_NoDup.
    etrans; [apply (subseteq_size _ ({[keep]} ∪ list_to_set (prune_order (Profiles h) keep)))|].
    + intros i Hi. apply elem_of_dom in Hi. apply elem_of_union. destruct (decide (i = keep)) as [->|]; [left; by apply elem_of_singleton|right]. by apply elem_of_list_to_set, prune_order_spec.
    + rewrite size_union_alt, size_singleton. change (1 + ?n)%nat with (S n). apply le_n_S, subseteq_size. intros x. rewrite elem_of_difference. tauto.
  - apply Forall_forall. intros i. rewrite prune_order_spec. tauto.
Qed.

Definition entry_at (h : routeHistoryFile) (scope kind : string) : option routeHistoryEntry :=
  PRoutes (default zero_profile (Profiles h !! scope)) !! kind.

(** One entry changes, the others stay, unless more than sixteen networks are known. *)
Lemma observe_spec h o now (scopes : gset string) :
  HVersion h = routeHistoryVersion → dom (Profiles h) ⊆ scopes → scope_or_default o ∈ scopes → Z.of_nat (size scopes) ≤ maxRouteHistoryProfiles →
  HVersion (observe h o now) = routeHistoryVersion ∧ dom (Profiles (observe h o now)) ⊆ scopes ∧
  ∀ scope kind, entry_at (observe h o now) scope kind =
    if decide (scope = scope_or_default o ∧ kind = OKind o) then Some (record_entry (default zero_entry (entry_at h scope kind)) o now)
    else entry_at h scope kind.
Proof.
  intros Hv Hd Hs Hsz. unfold observe, migrateRouteHistory. cbv zeta. rewrite Hv, Z.eqb_refl. set (s := scope_or_default o) in *.
  set (h1 := MkHistory _ (<[s := _]> (Profiles h)) _). assert (Hd1 : dom (Profiles h1) ⊆ scopes) by (unfold h1; cbn [Profiles]; rewrite dom_insert; set_solver).
  destruct (prune_spec h1 s) as (_ & _ & _ & Heq & _). rewrite Heq.
  2:{ rewrite <- (size_dom (D := gset string)). pose proof (subseteq_size _ _ Hd1). lia. }
  split; [done|]. split; [done|]. intros scope kind. unfold entry_at, h1. cbn [Profiles]. destruct (decide (scope = s ∧ kind = OKind o)) as [[-> ->]|Hne].
  - rewrite lookup_insert_eq. cbn [from_option id PRoutes]. apply lookup_insert_eq.
  - destruct (decide (scope = s)) as [->|Hs']; [|by rewrite lookup_insert_ne]. rewrite lookup_insert_eq. cbn [from_option id PRoutes].
    rewrite lookup_insert_ne by naive_solver. done.
Qed.

(** ** Direct attempts *)

Definition direct_on (scope : string) (o : routeObservation) : bool := String.eqb (scope_or_default o) scope && String.eqb (OKind o) historyRouteDirect.
(** The times of the direct attempts that failed since the last one that did not,
    the latest first. *)
Fixpoint leading_failures (scope : string) (latest_first : list (routeObservation * Z)) : list Z :=
  match latest_first with
  | [] => []
  | (o, t) :: rest =>
      if direct_on scope o then if Success o then [] else t :: leading_failures scope rest else leading_failures scope rest
  end.
Definition recent_failures (scope : string) (obs : list (routeObservation * Z)) : list Z := leading_failures scope (rev obs).
Definition scopes_of (obs : list (routeObservation * Z)) : gset string := list_to_set (scope_or_default ∘ fst <$> obs).
Definition history_after (obs : list (routeObservation * Z)) : routeHistoryFile := foldl (fun h ot => observe h ot.1 ot.2) newRouteHistory obs.

Lemma leading_failures_length scope l : (length (leading_failures scope l) ≤ length l)%nat.
Proof. induction l as [|[o t] l IH]; cbn; [done|]. destruct (direct_on scope o); [destruct (Success o)|]; cbn; lia. Qed.

Lemma history_after_spec scope obs scopes :
  scopes_of obs ⊆ scopes → Z.of_nat (size scopes) ≤ maxRouteHistoryProfiles → Z.of_nat (length obs) < 2 ^ 62 →
  let h := history_after obs in let e := default zero_entry (entry_at h scope historyRouteDirect) in
  HVersion h = routeHistoryVersion ∧ dom (Profiles h) ⊆ scopes ∧
  ConsecutiveFailures e = Z.of_nat (length (recent_failures scope obs)) ∧
  match recent_failures scope obs with [] => True | t :: _ => LastFailure e = t end.
Proof.
  intros Hs Hsz. induction obs as [|[o t] obs IH] using rev_ind; intros Hlen; cbv zeta; [by split_and!|].
  rewrite length_app in Hlen. cbn [length] in Hlen. unfold scopes_of in Hs. rewrite fmap_app, list_to_set_app in Hs. cbn in Hs.
  destruct IH as (Hv & Hd & Hc & Hl); [unfold scopes_of; set_solver|lia|]. unfold history_after. rewrite foldl_app. cbn [foldl fst snd].
  change (foldl _ newRouteHistory obs) with (history_after obs). destruct (observe_spec (history_after obs) o t scopes Hv Hd ltac:(set_solver) Hsz) as (Hv' & Hd' & He).
  split; [done|]. split; [done|]. rewrite He. unfold recent_failures in *. rewrite rev_app_distr. cbn [rev app leading_failures]. unfold direct_on.
  destruct (decide (scope = scope_or_default o ∧ historyRouteDirect = OKind o)) as [[Es Ek]|Hne].
  - rewrite <- Es, <- Ek, !String.eqb_refl. cbn [andb from_option id]. unfold record_entry. cbv zeta. destruct (Success o); [done|].
    cbn [ConsecutiveFailures LastFailure length]. split; [|done]. rewrite Hc. pose proof (leading_failures_length scope (rev obs)) as Hle.
    rewrite length_rev in Hle. rewrite wrap64_id by (unfold in_int64, int64_min, int64_max; lia). lia.
  - destruct (String.eqb_spec (scope_or_default o) scope), (String.eqb_spec (OKind o) historyRouteDirect); cbn [andb]; try done. exfalso. apply Hne. done.
Qed.

(** ** Through the file *)

Section file_spec.
Context `{HistoryJSON}.
Local Opaque walk max_links ReadFile.

(** The history in a file, an unreadable one counting as none. *)
Definition loaded (read : result fs_error bytes) : routeHistoryFile :=
  match wrap_err HFS read ≫= decode_history with Ok h => h | Err _ => newRouteHistory end.

Record history_ready (env : history_env) (parts : list string) (name : string) : Prop := {
  hr_path : hpath env = target_path parts name;
  hr_parts : plain parts;
  hr_name : plain [name];
  hr_lock : plain [name +:+ ".lock"];
  hr_temps : Forall (λ r, plain [".route-history-" +:+ r +:+ ".tmp"] ∧ ".route-history-" +:+ r +:+ ".tmp" ≠ name) (hrandoms env);
  hr_clock : ∃ N, (N + 1 < hfuel env)%nat ∧ ∀ m, (N ≤ m)%nat → hclock env 0 + lock_timeout < hclock env m;
}.

Lemma target_path_nonempty parts name : target_path parts name ≠ ""%string.
Proof. unfold target_path, target, render_path. by destruct (parts ++ [name]). Qed.

Lemma record_one env parts name o now w :
  history_ready env parts name → updatable parts name w → validHistoryRoute (OKind o) = true →
  match recordRouteObservation env o now w with
  | (Ok _, w') => updatable parts name w' ∧ fst (ReadFile (hpath env) w') = Ok (Marshal (observe (loaded (fst (ReadFile (hpath env) w))) o now))
  | (Err e, w') => updatable parts name w' ∧ fst (ReadFile (hpath env) w') = fst (ReadFile (hpath env) w)
  end.
Proof.
  intros [Hpath Hp Hn Hl Ht (N & Hfuel & Hclock)] Hup Hk. unfold recordRouteObservation. rewrite Hk, orb_false_r.
  destruct (String.eqb_spec (hpath env) "") as [E|_]; [exfalso; rewrite Hpath in E; by apply target_path_nonempty in E|].
  set (modify := λ old, Ok (E := history_error) (Marshal (observe (loaded old) o now))).
  rewrite (with_file_lock_ext _ _ _ _ _ (read_modify_write HFS commit_defer (hfaults env) (hrandoms env) ".route-history-" (hpath env) modify)).
  2:{ intros v. unfold read_modify_write, loadRouteHistory, writeRouteHistory, mbind, io_bind, attempt, lift, wrap_io. rewrite ReadFile_pure.
      unfold modify, loaded. destruct (fst (ReadFile (hpath env) v)) as [file|e]; cbn [wrap_err mbind result_bind]; [by destruct (decode_history file)|done]. }
  rewrite Hpath.
  pose proof (locked_update HLock HFS commit_defer (fun _ => True) parts name ".route-history-" (hrandoms env) Hp Hn Hl Ht
    (hfaults env) (hfuel env) (hclock env) modify w N Hup I Hclock Hfuel) as Hu. cbv zeta in Hu.
  destruct (with_file_lock _ _ _ _ _ w) as [[[]|e] w'].
  - destruct Hu as (Hup' & data & [= <-] & Hread). by split.
  - by destruct Hu as (Hup' & Hread & _).
Qed.

Lemma loaded_Marshal h :
  HVersion h = routeHistoryVersion → history_faithful h → Z.of_nat (length (Marshal h)) ≤ maxRouteHistoryBytes → loaded (Ok (Marshal h)) = h.
Proof.
  intros Hv Hf Hsz. unfold loaded, decode_history. cbn [wrap_err mbind result_bind]. rewrite take_ge by lia. rewrite Unmarshal_Marshal by done. by rewrite Hv.
Qed.

Fixpoint record_all (env : history_env) (obs : list (routeObservation * Z)) : io history_error unit :=
  match obs with [] => mret tt | (o, t) :: obs => _ ← recordRouteObservation env o t; record_all env obs end.

Definition storable (h : routeHistoryFile) : Prop := history_faithful h ∧ Z.of_nat (length (Marshal h)) ≤ maxRouteHistoryBytes.

Lemma record_all_spec env parts name w obs w' :
  history_ready env parts name → updatable parts name w → fst (ReadFile (hpath env) w) = Err ENOENT →
  Forall (λ ot, validHistoryRoute (OKind ot.1) = true) obs → Z.of_nat (length obs) < 2 ^ 62 →
  Z.of_nat (size (scopes_of obs)) ≤ maxRouteHistoryProfiles → (∀ n, storable (history_after (take n obs))) →
  record_all env obs w = (Ok tt, w') →
  if decide (obs = []) then fst (ReadFile (hpath env) w') = Err ENOENT else fst (ReadFile (hpath env) w') = Ok (Marshal (history_after obs)).
Proof.
  intros Hr Hup Hnone Hk Hlen Hsz Hst Hrun. assert (Hgen : ∀ done_ rest w,
    obs = done_ ++ rest → updatable parts name w → loaded (fst (ReadFile (hpath env) w)) = history_after done_ → record_all env rest w = (Ok tt, w') →
    if decide (rest = []) then w' = w else fst (ReadFile (hpath env) w') = Ok (Marshal (history_after obs))).
  { clear w Hup Hnone Hrun. intros done_ rest. revert done_. induction rest as [|[o t] rest IH]; intros done_ w Hobs Hup Hl Hrun.
    { rewrite decide_True by done. by injection Hrun as <-. }
    rewrite decide_False by done. cbn [record_all] in Hrun. unfold mbind, io_bind in Hrun.
    assert (Hko : validHistoryRoute (OKind o) = true) by (rewrite Hobs in Hk; apply Forall_app in Hk as [_ [? _]%Forall_cons]; done).
    pose proof (record_one env parts name o t w Hr Hup Hko) as H1. destruct (recordRouteObservation env o t w) as [[[]|e] w1]; [|done].
    destruct H1 as [Hup1 Hread]. rewrite Hl in Hread.
    assert (Hafter : observe (history_after done_) o t = history_after (done_ ++ [(o, t)])) by (unfold history_after; by rewrite foldl_app).
    rewrite Hafter in Hread. assert (Ht : take (length (done_ ++ [(o, t)])) obs = done_ ++ [(o, t)]).
    { rewrite Hobs. change ((o, t) :: rest) with ([(o, t)] ++ rest). rewrite (assoc_L (++)). apply take_app_length. }
    specialize (IH (done_ ++ [(o, t)]) w1). rewrite <- (assoc_L (++)) in IH. specialize (IH Hobs Hup1).
    assert (Hload : loaded (fst (ReadFile (hpath env) w1)) = history_after (done_ ++ [(o, t)])).
    { rewrite Hread. destruct (Hst (length (done_ ++ [(o, t)]))) as [Hf Hm]. rewrite Ht in Hf, Hm. apply loaded_Marshal; [|done..].
      destruct (history_after_spec "" (done_ ++ [(o, t)]) (scopes_of obs)) as (Hv & _); [|done| |done].
      - rewrite Hobs. unfold scopes_of. rewrite !fmap_app, !list_to_set_app. cbn. set_solver.
      - rewrite Hobs, length_app in Hlen. rewrite length_app. cbn in *. lia. }
    specialize (IH Hload Hrun). destruct (decide (rest = [])) as [->|]; [|done]. subst w1. rewrite Hread. by rewrite Hobs. }
  specialize (Hgen [] obs w eq_refl Hup). rewrite Hnone in Hgen. specialize (Hgen eq_refl Hrun). destruct (decide (obs = [])); [by subst w'|done].
Qed.

(** C33: kigo stops trying to connect directly on a network exactly after three
    failures in a row, for half an hour.  Starting without a history and recording
    any attempts, of any kind and on up to sixteen networks, through the history
    file, what a client then reads there tells it to defer direct attempts if and
    only if at least three direct attempts on its network failed since the last
    one that succeeded and the latest of them was less than thirty minutes ago. *)
Theorem direct_backs_off env parts name w obs w' scope now :
  history_ready env parts name → updatable parts name w → fst (ReadFile (hpath env) w) = Err ENOENT →
  Forall (λ ot, validHistoryRoute (OKind ot.1) = true ∧ 0 < ot.2) obs → Z.of_nat (length obs) < 2 ^ 62 →
  Z.of_nat (size (scopes_of obs)) ≤ maxRouteHistoryProfiles → (∀ n, storable (history_after (take n obs))) →
  record_all env obs w = (Ok tt, w') →
  ∃ r, fst (inspectRouteHistory true (hpath env) scope w') = Ok r ∧
    (shouldDeferDirectFromHistory r now = true ↔
     ∃ t rest, recent_failures scope obs = t :: rest ∧ (2 ≤ length rest)%nat ∧ 0 ≤ now - t * 1000000 < directHistoryCooldown).
Proof.
  intros Hr Hup Hnone Hk Hlen Hsz Hst Hrun.
  assert (Hk1 : Forall (λ ot, validHistoryRoute (OKind ot.1) = true) obs) by (eapply Forall_impl; [exact Hk|]; naive_solver).
  pose proof (record_all_spec env parts name w obs w' Hr Hup Hnone Hk1 Hlen Hsz Hst Hrun) as Hread.
  unfold inspectRouteHistory. destruct (String.eqb_spec (hpath env) "") as [E|_]; [exfalso; rewrite (hr_path _ _ _ Hr) in E; by apply target_path_nonempty in E|].
  cbn [negb orb]. unfold loadRouteHistory, mbind, io_bind, attempt, wrap_io, lift. rewrite ReadFile_pure. destruct (decide (obs = [])) as [->|Hne].
  { rewrite Hread. eexists. split; [reflexivity|]. split; [done|]. by intros (t & rest & E & _). }
  rewrite Hread. destruct (history_after_spec scope obs (scopes_of obs)) as (Hv & _ & Hc & Hl); [done..|].
  destruct (Hst (length obs)) as [Hf Hm]. rewrite firstn_all in Hf, Hm.
  assert (Hdec : decode_history (Marshal (history_after obs)) = Ok (history_after obs)).
  { unfold decode_history. rewrite take_ge by lia. by rewrite Unmarshal_Marshal, Hv. }
  cbn [wrap_err]. rewrite Hdec. cbv beta iota. rewrite Hv. change (routeHistoryVersion =? 1) with false. eexists. split; [reflexivity|].
  unfold shouldDeferDirectFromHistory. cbn [HEnabled HError HReport negb orb]. rewrite bool_decide_eq_false_2 by (intros Hx; apply Hx; reflexivity).
  unfold summarizeRouteEntries. rewrite lookup_fmap. change (PRoutes (default zero_profile (Profiles (history_after obs) !! scope)) !! historyRouteDirect)
    with (entry_at (history_after obs) scope historyRouteDirect).
  destruct (entry_at (history_after obs) scope historyRouteDirect) as [e|] eqn:Ee; cbn [fmap option_fmap option_map from_option id] in *.
  2:{ split; [done|]. intros (t & rest & E & Hlr & _). rewrite E in Hc. cbn in Hc. lia. }
  cbn [summarize_entry SConsecutiveFailures SLastFailure]. rewrite Hc. unfold directHistoryFailureThreshold.
  assert (Hpos : ∀ t rest, recent_failures scope obs = t :: rest → 0 < t).
  { intros t rest Ef. assert (Hin : t ∈ recent_failures scope obs) by (rewrite Ef; left). clear -Hk Hin. unfold recent_failures in Hin.
    assert (Hk' : Forall (λ ot, 0 < ot.2) (rev obs)) by (apply Forall_rev; eapply Forall_impl; [exact Hk|]; naive_solver). revert Hin Hk'.
    induction (rev obs) as [|[o t'] l IH]; cbn [leading_failures]; [by intros ?%not_elem_of_nil|]. intros Hin [? Hl]%Forall_cons.
    destruct (direct_on scope o); [destruct (Success o); [by apply not_elem_of_nil in Hin|apply elem_of_cons in Hin as [->|]]|]; auto. }
  destruct (recent_failures scope obs) as [|t rest] eqn:Ef; [split; [done|naive_solver]|]. specialize (Hpos t rest eq_refl). rewrite Hl. cbn [length].
  destruct (Z.ltb_spec (Z.of_nat (S (length rest))) 3); cbn [orb].
  { split; [done|]. intros (? & ? & [= <- <-] & ? & _). lia. }
  destruct (Z.leb_spec t 0); [lia|]. cbv zeta. rewrite andb_true_iff, Z.geb_le, Z.ltb_lt. split.
  - intros [? ?]. exists t, rest. split; [done|]. split; [lia|done].
  - intros (? & ? & [= <- <-] & _ & ?). done.
Qed.
End file_spec.

(** ** Witness *)

#[export] Instance float_eq_dec : EqDecision float64.
Proof. solve_decision. Defined.
#[export] Instance float_countable : Countable float64.
Proof.
  by apply (inj_countable' (fun x => match x with
      | S754_zero s => (0, s, 1%positive, 0) | S754_infinity s => (1, s, 1%positive, 0) | S754_nan => (2, true, 1%positive, 0)
      | S754_finite s m e => (3, s, m, e) end)
    (fun '(k, s, m, e) => if k =? 0 then S754_zero s else if k =? 1 then S754_infinity s else if k =? 2 then S754_nan else S754_finite s m e)); intros [].
Defined.
#[export] Instance path_entry_eq_dec : EqDecision routePathHistoryEntry.
Proof. solve_decision. Defined.
#[export] Instance path_entry_countable : Countable routePathHistoryEntry.
Proof.
  by apply (inj_countable' (fun e => (PSamples e, PSent e, PNanos e, PRate e)) (fun '(a, b, c, d) => MkPathEntry a b c d)); intros [].
Defined.

(** The records of a file as nested fields. *)
Definition scalars : Type := (Z * Z * Z * Z) * (Z * Z * Z * float64) * (Z * Z).
Definition entry_parts (e : routeHistoryEntry) : scalars * gmap string routePathHistoryEntry :=
  (((Attempts e, Successes e, Failures e, ConsecutiveFailures e), (ESent e, EReceived e, DurationMillis e, ERate e), (LastSuccess e, LastFailure e)), EPaths e).
Definition parts_entry (p : scalars * gmap string routePathHistoryEntry) : routeHistoryEntry :=
  let '(((a, b, c, d), (e, f, g, h), (i, j)), k) := p in MkEntry a b c d e f g h i j k.
Definition routes_fields : gmap string routeHistoryEntry → list bytes := map_fields (pair_fields leaf_fields (map_fields leaf_fields) ∘ entry_parts).
Definition read_routes : field_reader (gmap string routeHistoryEntry) := read_map (read_as parts_entry (read_pair read_leaf (read_map read_leaf))).
Definition profiles_fields : gmap string routeHistoryProfile → list bytes :=
  map_fields (pair_fields leaf_fields routes_fields ∘ (fun p => (LastSeen p, PRoutes p))).
Definition read_profiles : field_reader (gmap string routeHistoryProfile) :=
  read_map (read_as (fun '(a, b) => MkProfile a b) (read_pair read_leaf read_routes)).
Definition history_fields : routeHistoryFile → list bytes :=
  pair_fields leaf_fields (pair_fields profiles_fields routes_fields) ∘ (fun h => (HVersion h, (Profiles h, HRoutes h))).
Definition read_history : field_reader routeHistoryFile :=
  read_as (fun '(a, (b, c)) => MkHistory a b c) (read_pair read_leaf (read_pair read_profiles read_routes)).

Lemma routes_fields_law : reads_back routes_fields read_routes.
Proof.
  apply read_map_law, read_as_law; [|by intros []]. apply read_pair_law; [apply read_leaf_law|apply read_map_law, read_leaf_law].
Qed.
Lemma history_fields_law : reads_back history_fields read_history.
Proof.
  apply read_as_law; [|by intros []]. apply read_pair_law; [apply read_leaf_law|]. apply read_pair_law; [|apply routes_fields_law].
  apply read_map_law, read_as_law; [|by intros []]. apply read_pair_law; [apply read_leaf_law|apply routes_fields_law].
Qed.
Definition demo_history_json : HistoryJSON := nested_json history_faithful history_fields read_history history_fields_law.
Definition demo_history_env : history_env := MkHistoryEnv "/c/h.json" (fun n => Z.of_nat n * 3 * second) 4 ["17"]%string no_faults.
Definition demo_history_fs : fs := MkFS {[ ["c"]%string := NDir 448 0 ]} ∅ 1 [].
Definition demo_failure (t : Z) : routeObservation * Z := (MkObservation historyRouteDirect "net1" false 0 0 second [], t).
Definition demo_attempts : list (routeObservation * Z) := [demo_failure 1000; demo_failure 2000; demo_failure 3000].

Lemma demo_history_ready : history_ready demo_history_env ["c"]%string "h.json".
Proof.
  split.
  - reflexivity.
  - split; repeat constructor.
  - split; repeat constructor.
  - split; repeat constructor.
  - constructor; [|constructor]. split; [split; repeat constructor|discriminate].
  - exists 1%nat. split; [cbn; lia|]. intros m Hm. unfold demo_history_env, lock_timeout, second. cbn [hclock]. lia.
Qed.
Lemma demo_history_updatable : updatable ["c"]%string "h.json" demo_history_fs.
Proof.
  split.
  - intros [|[|n]] Hn; [cbn in Hn; lia| |cbn in Hn; lia]. exists 448, 0. by vm_compute.
  - intros n. vm_compute. done.
  - intros m t. vm_compute. done.
  - intros k i. unfold demo_history_fs. cbn [entries]. by intros [_ [=]]%lookup_singleton_Some.
Qed.

Lemma direct_backs_off_witness :
  let Hj := demo_history_json in
  ∃ w' r, record_all demo_history_env demo_attempts demo_history_fs = (Ok tt, w') ∧
    fst (inspectRouteHistory true "/c/h.json" "net1" w') = Ok r ∧ shouldDeferDirectFromHistory r (4000 * 1000000) = true.
Proof.
  intros Hj. destruct (record_all demo_history_env demo_attempts demo_history_fs) as [res w'] eqn:E.
  assert (Hres : res = Ok tt) by (apply (f_equal fst) in E; vm_compute in E; congruence). rewrite Hres in E.
  assert (Hst : ∀ n, storable (history_after (take n demo_attempts))).
  { intros [|[|[|n]]]; [..|replace (take (S (S (S n))) demo_attempts) with demo_attempts by (by destruct n)];
      (split; [vm_compute; reflexivity|vm_compute; discriminate]). }
  assert (Hnone : fst (ReadFile (hpath demo_history_env) demo_history_fs) = Err ENOENT) by (vm_compute; reflexivity).
  assert (Hvalid : Forall (λ ot : routeObservation * Z, validHistoryRoute (OKind ot.1) = true ∧ 0 < ot.2) demo_attempts) by (repeat constructor).
  assert (Hlen : Z.of_nat (length demo_attempts) < 2 ^ 62) by reflexivity.
  assert (Hsz : Z.of_nat (size (scopes_of demo_attempts)) ≤ maxRouteHistoryProfiles) by (vm_compute; discriminate).
  destruct (direct_backs_off demo_history_env ["c"]%string "h.json" demo_history_fs demo_attempts w' "net1" (4000 * 1000000)
    demo_history_ready demo_history_updatable Hnone Hvalid Hlen Hsz Hst E) as (r & Hr & Hd).
  exists w', r. split; [by rewrite Hres|]. split; [exact Hr|]. apply Hd. exists 3000, [2000; 1000]. split; [reflexivity|]. split; [cbn; lia|].
  unfold directHistoryCooldown, second. lia.
Defined.
