(* ===== verification/PersistentNote.v ===== *)
(** * Persistent notepads: records and messages ([internal/note/persistent.go])

    A notepad that is kept by the service: the clients seal the document under a
    key derived from the code, the service stores the sealed record and never
    sees the text.  Here are the records, the messages, the sealing and opening,
    and what a client session does with a message ([persistent_session.go]). *)
From Stdlib Require Import ZArith Lia Ascii String.
From stdpp Require Import base tactics numbers list gmap strings.
From S2P Require Import Prelude GoStrings Json Secure NoteDocument.

Definition PersistentProtocolVersion : Z := 1.
Definition PersistentRecordVersion : Z := 1.
Definition MaxPersistentMessageSize : Z := Z.shiftl 3 20.
Definition MaxPersistentRecordSize : Z := Z.shiftl 2 20.
Definition persistentKeyInfo : string := "kigo-note-store-v1".

Definition PersistentState : string := "state".
Definition PersistentPut : string := "put".
Definition PersistentError : string := "error".

Record PersistentRecord := MkPRecord { PVersion : Z; Salt : bytes; Nonce : bytes; PCiphertext : bytes }.

#[export] Instance PersistentRecord_eq_dec : EqDecision PersistentRecord.
Proof. solve_decision. Defined.
#[export] Instance PersistentRecord_countable : Countable PersistentRecord.
Proof.
  by apply (inj_countable' (fun r => (PVersion r, Salt r, Nonce r, PCiphertext r))
    (fun '(a, b, c, d) => MkPRecord a b c d)); intros [].
Defined.

Record PersistentMessage := MkPMessage {
  MType : string;
  MVersion : Z;
  Generation : Z;       (* uint64 *)
  BaseGeneration : Z;   (* uint64 *)
  MRecord : option PersistentRecord;
  MError : string;
}.

#[export] Instance PersistentMessage_eq_dec : EqDecision PersistentMessage.
Proof. solve_decision. Defined.

Inductive persistent_error :=
  | PCode (e : code_error)
  | PNote (e : note_error)
  | PRecordVersion (v : Z)
  | PSalt
  | PNonce
  | PCiphertextSize
  | PDecrypt
  | PDecode
  | PValidate (e : note_error)
  | PPadMismatch
  | PProtocolVersion (v : Z)
  | PMessageType (ty : string)
  | PRecordMissing
  | PServerError (msg : string)
  | PStateMissingRecord
  | PPadSelected (selected pad : string)
  | PFrameUnsupported (ty : string).

(** [encoding/json] on documents: strings of valid UTF-8 survive, a number
    outside the type of its field is refused, and a decoded string is valid
    UTF-8, for the decoder replaces what is not. *)
Definition document_faithful (d : Document) : Prop :=
  doc_typed d ∧ utf8_valid (Pad d) = true ∧ utf8_valid (Text d) = true.
Class DocumentJSON := {
  document_json :: JSON Document document_faithful;
  document_decoded b d : Unmarshal b = Some d → document_faithful d;
}.

(** ** Records *)

Definition PersistentRecord_Validate (r : PersistentRecord) : result persistent_error unit :=
  _ ← fail_if (negb (PVersion r =? PersistentRecordVersion)) (PRecordVersion (PVersion r));
  _ ← fail_if (negb (Z.of_nat (length (Salt r)) =? 16)) PSalt;
  _ ← fail_if (negb (Z.of_nat (length (Nonce r)) =? 12)) PNonce;
  fail_if ((Z.of_nat (length (PCiphertext r)) <? 16) || (Z.of_nat (length (PCiphertext r)) >? MaxPersistentRecordSize))
    PCiphertextSize.

Definition ValidateClient (m : PersistentMessage) : result persistent_error unit :=
  _ ← fail_if (negb (MVersion m =? PersistentProtocolVersion)) (PProtocolVersion (MVersion m));
  _ ← fail_if (negb (String.eqb (MType m) PersistentPut)) (PMessageType (MType m));
  match MRecord m with
  | None => Err PRecordMissing
  | Some record => PersistentRecord_Validate record
  end.

Definition validatePersistentState (m : PersistentMessage) : result persistent_error unit :=
  _ ← fail_if (negb (MVersion m =? PersistentProtocolVersion)) (PProtocolVersion (MVersion m));
  _ ← fail_if (String.eqb (MType m) PersistentError) (PServerError (MError m));
  _ ← fail_if (negb (String.eqb (MType m) PersistentState)) (PMessageType (MType m));
  match MRecord m with
  | Some record => PersistentRecord_Validate record
  | None => fail_if (negb (Generation m =? 0)) PStateMissingRecord
  end.

Section sealing.
Context `{CaseTables} `{Crypto} `{DocumentJSON}.

Definition PersistentPadToken (pad : string) : result persistent_error string :=
  let pad := NormalizePad pad in
  _ ← wrap_err PNote (ValidatePad pad);
  Ok (hex_encode (sha256 (to_bytes ("kigo-note-pad:" +:+ pad)))).

(** The AES-GCM key of [persistentAEAD]. *)
Definition persistentAEAD (code : string) (salt : bytes) : bytes :=
  hkdf (to_bytes (NormalizeCode code)) salt (to_bytes persistentKeyInfo) 16.

Definition persistentAAD (pad : string) : bytes :=
  to_bytes persistentKeyInfo ++ [byte_of 0] ++ to_bytes (NormalizePad pad).

(** [salt] and [nonce] are what [rand.Read] draws. *)
Definition SealPersistentDocument (salt nonce : bytes) (code : string) (document : Document)
    : result persistent_error PersistentRecord :=
  code ← wrap_err PCode (ValidateCode code);
  let document := with_pad document (NormalizePad (Pad document)) in
  _ ← wrap_err PNote (ValidateDocument document);
  let plaintext := Marshal document in
  let record := MkPRecord PersistentRecordVersion salt nonce
    (gcm_seal (persistentAEAD code salt) nonce plaintext (persistentAAD (Pad document))) in
  _ ← PersistentRecord_Validate record;
  Ok record.

Definition OpenPersistentDocument (code pad : string) (record : PersistentRecord) : result persistent_error Document :=
  code ← wrap_err PCode (ValidateCode code);
  let pad := NormalizePad pad in
  _ ← wrap_err PNote (ValidatePad pad);
  _ ← PersistentRecord_Validate record;
  plaintext ← match gcm_open (persistentAEAD code (Salt record)) (Nonce record) (PCiphertext record) (persistentAAD pad) with
              | Some plaintext => Ok plaintext | None => Err PDecrypt end;
  document ← match Unmarshal plaintext with Some document => Ok document | None => Err PDecode end;
  let document := with_pad document (NormalizePad (Pad document)) in
  _ ← fail_if (negb (String.eqb (Pad document) pad)) PPadMismatch;
  _ ← wrap_err PValidate (ValidateDocument document);
  Ok document.

(** ** The client session *)

(** What the session shares between its reader and its caller.  [sworkspace] is
    the caller's workspace once [SyncWorkspace] has been given it. *)
Record PersistentSession := MkPSession {
  scode : string;
  spad : string;
  sgeneration : Z;
}.

Definition set_generation (s : PersistentSession) (g : Z) : PersistentSession :=
  MkPSession (scode s) (spad s) g.

(** The message [publishDocument] writes. *)
Definition publishDocument (s : PersistentSession) (salt nonce : bytes) (document : Document)
    : result persistent_error PersistentMessage :=
  let document := with_pad document (NormalizePad (Pad document)) in
  _ ← fail_if (negb (String.eqb (Pad document) (spad s))) (PPadSelected (spad s) (Pad document));
  record ← SealPersistentDocument salt nonce (scode s) document;
  Ok (MkPMessage PersistentPut PersistentProtocolVersion 0 (sgeneration s) (Some record) "").

Definition frameTypeForDocument (document : Document) : string :=
  if String.eqb (Text document) "" then FrameClear else FrameUpdate.

(** [OpenPersistentSession] after the connection is made: the first message. *)
Definition OpenPersistentSession (code pad : string) (initial : PersistentMessage)
    : result persistent_error PersistentSession :=
  code ← wrap_err PCode (ValidateCode code);
  let pad := NormalizePad pad in
  _ ← wrap_err PNote (ValidatePad pad);
  _ ← validatePersistentState initial;
  Ok (MkPSession code pad (Generation initial)).

(** [SyncWorkspace]: the documents applied, the workspace, the message written. *)
Definition SyncWorkspace (s : PersistentSession) (initial : PersistentMessage) (salt nonce : bytes)
    (w : Workspace) (pad : string) : result persistent_error (list Document * Workspace * option PersistentMessage) :=
  let pad := NormalizePad pad in
  _ ← fail_if (negb (String.eqb pad (spad s))) (PPadSelected (spad s) pad);
  '(applied, remote, w) ←
    match MRecord initial with
    | None => Ok ([], zero_document, w)
    | Some record =>
        document ← OpenPersistentDocument (scode s) (spad s) record;
        '(changed, current, w) ← wrap_err PNote (ApplyRemote w document);
        Ok (if (changed : bool) then [current] else [], document, w)
    end;
  let current := Snapshot w (spad s) in
  if (Revision current >? 0) && (bool_decide (MRecord initial = None) || (compareDocuments current remote >? 0)) then
    message ← publishDocument s salt nonce current;
    Ok (applied, w, Some message)
  else Ok (applied, w, None).

(** [Send] of a frame: a message, the end of the session, or nothing. *)
Inductive sent := Published (m : PersistentMessage) | SessionClosed | NothingSent.

Definition PersistentSession_Send (s : PersistentSession) (salt nonce : bytes) (frame : Frame)
    : result persistent_error sent :=
  let frame := MkFrame (FType frame) ProtocolVersion (if String.eqb (FPad frame) "" then spad s else FPad frame)
                 (FRevision frame) (FTimestamp frame) (FText frame) in
  _ ← wrap_err PNote (Frame_Validate frame);
  if String.eqb (FType frame) FrameUpdate || String.eqb (FType frame) FrameClear then
    Published <$> publishDocument s salt nonce (Frame_Document frame)
  else if String.eqb (FType frame) FrameBye then Ok SessionClosed
  else if String.eqb (FType frame) FrameAck || String.eqb (FType frame) FramePing || String.eqb (FType frame) FramePong
    then Ok NothingSent
  else Err (PFrameUnsupported (FType frame)).

(** One event of the reader: a frame for the caller or an error. *)
Inductive persistentSessionEvent := EventFrame (f : Frame) | EventError (e : persistent_error).

(** The first half of a turn of [readLoop], under the session's mutex: the
    message is dropped, or its generation becomes the session's. *)
Definition readLoop_accept (s : PersistentSession) (m : PersistentMessage)
    : PersistentSession * option (result persistent_error PersistentMessage) :=
  if String.eqb (MType m) PersistentError then (s, Some (Err (PServerError (MError m))))
  else match validatePersistentState m with
       | Err e => (s, Some (Err e))
       | Ok _ => if Generation m <? sgeneration s then (s, None)
                 else (set_generation s (Generation m), Some (Ok m))
       end.

(** The second half: the event emitted, the message written. *)
Definition readLoop_compare (s : PersistentSession) (m : PersistentMessage) (salt nonce : bytes) (w : Workspace)
    : list persistentSessionEvent * option PersistentMessage :=
  let publish current := match publishDocument s salt nonce current with
                         | Ok message => ([], Some message)
                         | Err e => ([EventError e], None)
                         end in
  match MRecord m with
  | None =>
      let current := Snapshot w (spad s) in
      if Revision current >? 0 then publish current else ([], None)
  | Some record =>
      match OpenPersistentDocument (scode s) (spad s) record with
      | Err e => ([EventError e], None)
      | Ok document =>
          let current := Snapshot w (spad s) in
          let c := compareDocuments document current in
          if c =? 1 then ([EventFrame (FrameFromDocument (frameTypeForDocument document) document)], None)
          else if c =? -1 then publish current
          else ([EventFrame (MkFrame FrameAck ProtocolVersion (spad s) (Revision document) (Timestamp document) "")], None)
      end
  end.
End sealing.

(** ** Sealing and opening *)

Section roundtrip.
Context `{CaseTables} `{Crypto} `{DocumentJSON}.

Lemma SealPersistentDocument_inv salt nonce code d r :
  SealPersistentDocument salt nonce code d = Ok r →
  ∃ c, ValidateCode code = Ok c ∧ let d' := with_pad d (NormalizePad (Pad d)) in
    ValidateDocument d' = Ok tt ∧ PersistentRecord_Validate r = Ok tt ∧
    r = MkPRecord PersistentRecordVersion salt nonce
          (gcm_seal (persistentAEAD c salt) nonce (Marshal d') (persistentAAD (Pad d'))).
Proof.
  unfold SealPersistentDocument. intros Hs.
  destruct (ValidateCode code) as [c|]; [|done]. cbn [wrap_err mbind result_bind] in Hs.
  destruct (ValidateDocument _) as [[]|] eqn:Hd; [|done]. cbn [wrap_err mbind result_bind] in Hs.
  destruct (PersistentRecord_Validate _) as [[]|] eqn:Hr; [|done]. injection Hs as <-. exists c. by split_and!.
Qed.

Lemma Open_Seal salt nonce code code' d pad r :
  SealPersistentDocument salt nonce code d = Ok r → NormalizeCode code' = NormalizeCode code →
  NormalizePad pad = NormalizePad (Pad d) → document_faithful (with_pad d (NormalizePad (Pad d))) →
  OpenPersistentDocument code' pad r = Ok (with_pad d (NormalizePad (Pad d))).
Proof.
  intros Hs Hc Hp Hu. apply SealPersistentDocument_inv in Hs as (c & Hv & Hd & Hr & ->).
  assert (Hv' : ValidateCode code' = Ok c) by (revert Hv; unfold ValidateCode; by rewrite Hc).
  unfold OpenPersistentDocument. rewrite Hv'. cbn [wrap_err mbind result_bind].
  assert (Hvp : ValidatePad (NormalizePad pad) = Ok tt).
  { rewrite Hp. unfold ValidateDocument in Hd. cbn [with_pad Pad] in Hd. by destruct (ValidatePad (NormalizePad (Pad d))) as [[]|]. }
  rewrite Hvp. cbn [wrap_err mbind result_bind]. rewrite Hr. cbn [mbind result_bind Salt Nonce PCiphertext].
  unfold persistentAAD. rewrite Hp. cbn [with_pad Pad]. rewrite !NormalizePad_idemp, gcm_open_seal. cbn [mbind result_bind].
  rewrite Unmarshal_Marshal by done. cbn [mbind result_bind with_pad Pad Text Revision Timestamp].
  rewrite !NormalizePad_idemp. rewrite String.eqb_refl. unfold fail_if. cbn [negb mbind result_bind].
  change (with_pad (with_pad d (NormalizePad (Pad d))) (NormalizePad (Pad d))) with (with_pad d (NormalizePad (Pad d))).
  by rewrite Hd.
Qed.

Lemma Open_faithful code pad r d : OpenPersistentDocument code pad r = Ok d →
  doc_ok d ∧ Pad d = NormalizePad pad ∧ doc_typed d ∧ utf8_valid (Text d) = true.
Proof.
  unfold OpenPersistentDocument. intros Ho.
  destruct (ValidateCode code) as [c|]; [|done]. cbn [wrap_err mbind result_bind] in Ho.
  destruct (ValidatePad _) as [[]|]; [|done]. cbn [wrap_err mbind result_bind] in Ho.
  destruct (PersistentRecord_Validate r) as [[]|]; [|done]. cbn [mbind result_bind] in Ho.
  destruct (gcm_open _ _ _ _) as [pt|]; [|done]. cbn [mbind result_bind] in Ho.
  destruct (Unmarshal pt) as [d0|] eqn:Eu; [|done]. cbn [mbind result_bind with_pad Pad] in Ho.
  destruct (String.eqb_spec (NormalizePad (Pad d0)) (NormalizePad pad)) as [E|]; [|done]. cbn [negb fail_if mbind result_bind] in Ho.
  destruct (ValidateDocument _) as [[]|] eqn:Hd; [|done]. injection Ho as <-.
  apply document_decoded in Eu as (? & _ & ?). split_and!; try done. split; [done|]. cbn. apply NormalizePad_idemp.
Qed.

Lemma Open_ok code pad r d : OpenPersistentDocument code pad r = Ok d → doc_ok d ∧ Pad d = NormalizePad pad ∧ doc_typed d.
Proof. intros Ho. by destruct (Open_faithful code pad r d Ho) as (? & ? & ? & _). Qed.
End roundtrip.
