(* ===== verification/NoteServer.v ===== *)
(** * Persistent notepads: the service ([internal/service/persistent_note.go])

    One hub per notepad: the sealed record with its generation number, when it
    expires, and the clients that are connected.  A put is accepted only when it
    is based on the hub's generation; it is written to disk first, then sent to
    every client.  A hub is a pointer in the source; here it is an address in a
    store of hubs, because handlers go on holding hubs that have been replaced. *)
From Stdlib Require Import ZArith Lia Ascii String.
From stdpp Require Import base tactics numbers list gmap strings.
From S2P Require Import Prelude GoStrings Json GoPath FileSystem ManifestCheck Collect Containment AtomicFile Secure NoteDocument PersistentNote.

Definition persistentNoteMaxClients : Z := 16.
Definition persistentNoteDiskVersion : Z := 1.
Definition millisecond : Z := 1000000.
Definition defaultPersistentNoteTTL : Z := 30 * 24 * 3600 * second.

(** Times are nanoseconds since the epoch. *)
Definition UnixMilli (t : Z) : Z := t / millisecond.
Definition of_UnixMilli (ms : Z) : Z := ms * millisecond.

Definition client_id : Type := nat.
Definition hub_ptr : Type := nat.

Record persistentNoteHub := MkHub {
  hkey : string;
  hgeneration : Z;    (* uint64 *)
  hrecord : option PersistentRecord;
  hupdated : Z;
  hexpires : Z;
  hclients : gset client_id;
}.

Record persistentNoteDiskRecord := MkDisk {
  DVersion : Z;
  DGeneration : Z;    (* uint64 *)
  DUpdatedAt : Z;     (* int64 *)
  DExpiresAt : Z;
  DRecord : PersistentRecord;
}.

#[export] Instance disk_eq_dec : EqDecision persistentNoteDiskRecord.
Proof. solve_decision. Defined.
#[export] Instance disk_countable : Countable persistentNoteDiskRecord.
Proof.
  by apply (inj_countable' (fun r => (DVersion r, DGeneration r, DUpdatedAt r, DExpiresAt r, DRecord r))
    (fun '(a, b, c, d, e) => MkDisk a b c d e)); intros [].
Defined.

(** [encoding/json] on byte strings and numbers; a number outside the type of
    its field is refused. *)
Definition disk_typed (r : persistentNoteDiskRecord) : Prop := in_uint64 (DGeneration r).
Class DiskJSON := {
  disk_json :: JSON persistentNoteDiskRecord disk_typed;
  disk_decoded b r : Unmarshal b = Some r → disk_typed r;
}.

Inductive server_error :=
  | TooManyClients
  | NoteExpired
  | PersistFailed (e : server_error)
  | DiskInvalid
  | DiskRecordInvalid (e : persistent_error)
  | DiskFS (e : fs_error)
  | QuarantineFailed (e : fs_error).

Record noteConfig := MkNoteConfig { NoteStore : string; NoteTTL : Z }.

(** The part of the server's state the notepads use. *)
Record Server := MkServer {
  notes : gmap string hub_ptr;
  hubs : gmap hub_ptr persistentNoteHub;
  next_hub : hub_ptr;
}.

Definition set_hub (s : Server) (p : hub_ptr) (h : persistentNoteHub) : Server :=
  MkServer (notes s) (<[p := h]> (hubs s)) (next_hub s).

Definition set_clients (h : persistentNoteHub) (cs : gset client_id) : persistentNoteHub :=
  MkHub (hkey h) (hgeneration h) (hrecord h) (hupdated h) (hexpires h) cs.

(** [/api/note-sync/<room>/<pad>] *)
Definition persistentNotePath `{CaseTables} (path : string) : option (string * string) :=
  let value := of_bytes (trim_bytes [[slash]] (to_bytes (trim_prefix path "/api/note-sync/"))) in
  match split_on slash value with
  | [room; pad] =>
      if (str_len pad =? 64) && forall_bytes is_hex pad && String.eqb (ToLower pad) pad then Some (room, pad) else None
  | _ => None
  end.

Definition isRoomToken (token : string) : bool := (str_len token =? 64) && forall_bytes is_hex token.

(** ** Joining and leaving *)

Definition persistentNoteStateLocked (h : persistentNoteHub) : PersistentMessage :=
  MkPMessage PersistentState PersistentProtocolVersion (hgeneration h) 0 (hrecord h) "".

Definition addPersistentNoteClient (s : Server) (p : hub_ptr) (h : persistentNoteHub) (client : client_id)
    : result server_error (hub_ptr * PersistentMessage) * Server :=
  if Z.of_nat (size (hclients h)) >=? persistentNoteMaxClients then (Err TooManyClients, s)
  else (Ok (p, persistentNoteStateLocked h), set_hub s p (set_clients h ({[client]} ∪ hclients h))).

(** The first look for the hub, under [noteMu]. *)
Definition join_existing (s : Server) (key : string) (client : client_id)
    : option (result server_error (hub_ptr * PersistentMessage) * Server) :=
  p ← notes s !! key; h ← hubs s !! p; Some (addPersistentNoteClient s p h client).

(** The second look, with what was loaded from disk in between. *)
Definition join_loaded (s : Server) (loaded : option persistentNoteHub) (key : string) (client : client_id)
    : result server_error (hub_ptr * PersistentMessage) * Server :=
  match join_existing s key client with
  | Some r => r
  | None =>
      let h := default (MkHub key 0 None 0 0 ∅) loaded in
      let p := next_hub s in
      addPersistentNoteClient (MkServer (<[key := p]> (notes s)) (<[p := h]> (hubs s)) (S p)) p h client
  end.

(** [s.notes[hub.key] == hub] *)
Definition is_current (s : Server) (p : hub_ptr) : option persistentNoteHub :=
  h ← hubs s !! p; if bool_decide (notes s !! hkey h = Some p) then Some h else None.

Definition leavePersistentNote (s : Server) (p : hub_ptr) (client : client_id) : Server :=
  match is_current s p with
  | None => s
  | Some h =>
      let h := set_clients h (hclients h ∖ {[client]}) in
      let s := set_hub s p h in
      if bool_decide (hclients h = ∅) && bool_decide (hrecord h = None)
      then MkServer (delete (hkey h) (notes s)) (hubs s) (next_hub s) else s
  end.

(** ** The file of a notepad *)

Section disk.
Context `{Crypto} `{DiskJSON} (cfg : noteConfig).

Definition notePath (key : string) : string :=
  if String.eqb (TrimSpace (NoteStore cfg)) "" then ""
  else Join (Clean (NoteStore cfg)) (hex_encode (sha256 (to_bytes ("kigo-persistent-note:" +:+ key))) +:+ ".json").

Definition validatePersistentNoteDiskRecord (r : persistentNoteDiskRecord) : result server_error unit :=
  _ ← fail_if (negb (DVersion r =? persistentNoteDiskVersion) || (DGeneration r =? 0) || (DUpdatedAt r <=? 0)
               || (DExpiresAt r <=? DUpdatedAt r)) DiskInvalid;
  wrap_err DiskRecordInvalid (PersistentRecord_Validate (DRecord r)).

(** [fmt.Sprintf("%s.corrupt-%d", path, now)]; [now] is in nanoseconds. *)
Definition quarantinePersistentNote (path : string) (now : Z) : io server_error unit :=
  renamed ← attempt (Rename path (path +:+ ".corrupt-" +:+ Itoa now));
  match renamed with
  | Ok _ => mret tt
  | Err e => if IsNotExist e then mret tt else fail (QuarantineFailed e)
  end.

(** What decoding the file gives: a directory can be opened but not read. *)
Definition decode_disk (file : result fs_error bytes) : result fs_error (option persistentNoteDiskRecord) :=
  match file with
  | Ok data => Ok (Unmarshal (take (Z.to_nat (MaxPersistentMessageSize + 1)) data))
  | Err EISDIR => Ok None
  | Err e => Err e
  end.

Definition loadPersistentNote (key : string) (now : Z) : io server_error (option persistentNoteHub) :=
  let path := notePath key in
  if String.eqb path "" then mret None
  else
    file ← attempt (ReadFile path);
    match decode_disk file with
    | Err e => if IsNotExist e then mret None else fail (DiskFS e)
    | Ok None => _ ← quarantinePersistentNote path now; mret None
    | Ok (Some r) =>
        if negb (is_ok (validatePersistentNoteDiskRecord r)) then _ ← quarantinePersistentNote path now; mret None
        else if DExpiresAt r <=? UnixMilli now then
          _ ← attempt (E:=fs_error) (Remove path); mret None
        else mret (Some (MkHub key (DGeneration r) (Some (DRecord r)) (of_UnixMilli (DUpdatedAt r)) (of_UnixMilli (DExpiresAt r)) ∅))
    end.

(** [fl] and [randoms]: the faults of the disk and the names of temporary files. *)
Definition writePersistentNote (fl : disk_faults) (randoms : list string) (key : string) (r : persistentNoteDiskRecord)
    : io server_error unit :=
  let path := notePath key in
  if String.eqb path "" then mret tt
  else
    _ ← lift (validatePersistentNoteDiskRecord r);
    wrap_io DiskFS (replace_file commit_sync fl randoms ".note-" path (Marshal r)).

Definition joinPersistentNote (s : Server) (key : string) (client : client_id) (now : Z)
    : io server_error (result server_error (hub_ptr * PersistentMessage) * Server) :=
  match join_existing s key client with
  | Some r => mret r
  | None => loaded ← loadPersistentNote key now; mret (join_loaded s loaded key client)
  end.

(** ** Puts *)

(** The record of the next generation. *)
Definition next_disk (h : persistentNoteHub) (record : PersistentRecord) (now : Z) : persistentNoteDiskRecord :=
  MkDisk persistentNoteDiskVersion (wrapu64 (hgeneration h + 1)) (UnixMilli now) (UnixMilli (now + NoteTTL cfg)) record.

Definition next_hub_state (h : persistentNoteHub) (record : PersistentRecord) (now : Z) : persistentNoteHub :=
  let next := next_disk h record now in
  MkHub (hkey h) (DGeneration next) (Some record) now (of_UnixMilli (DExpiresAt next)) (hclients h).

(** The messages written to the clients.  [ValidateClient] has checked that the
    message carries a record. *)
Definition applyPersistentNote (fl : disk_faults) (randoms : list string) (s : Server) (p : hub_ptr)
    (client : client_id) (m : PersistentMessage) (now : Z)
    : io server_error (Server * list (client_id * PersistentMessage)) :=
  match is_current s p with
  | None => fail NoteExpired
  | Some h =>
      if negb (BaseGeneration m =? hgeneration h) then mret (s, [(client, persistentNoteStateLocked h)])
      else
        let record := default (MkPRecord 0 [] [] []) (MRecord m) in
        written ← attempt (writePersistentNote fl randoms (hkey h) (next_disk h record now));
        match written with
        | Err e => fail (PersistFailed e)
        | Ok _ =>
            let h := next_hub_state h record now in
            mret (set_hub s p h, (fun c => (c, persistentNoteStateLocked h)) <$> elements (hclients h))
        end
  end.

(** What the handler does with one message of a client: [None] stands for bytes
    that are no message; an error goes back to the client as a message. *)
Definition handle_message (fl : disk_faults) (randoms : list string) (s : Server) (p : hub_ptr)
    (client : client_id) (m : option PersistentMessage) (now : Z) (error_text : server_error + persistent_error → string)
    : io server_error (Server * list (client_id * PersistentMessage)) :=
  let refuse text := mret (s, [(client, MkPMessage PersistentError PersistentProtocolVersion 0 0 None text)]) in
  match m with
  | None => refuse "decode persistent note message"%string
  | Some m =>
      match ValidateClient m with
      | Err e => refuse (error_text (inr e))
      | Ok _ =>
          applied ← attempt (applyPersistentNote fl randoms s p client m now);
          match applied with
          | Ok r => mret r
          | Err e => refuse (error_text (inl e))
          end
      end
  end.

(** ** Expiry *)

Definition hub_expired (h : persistentNoteHub) (now : Z) : bool :=
  bool_decide (hclients h = ∅) && bool_decide (hrecord h ≠ None) && negb (now <? hexpires h).

Definition cleanup_hub (s : Server) (p : hub_ptr) (now : Z) : io server_error Server :=
  match is_current s p with
  | None => mret s
  | Some h =>
      if hub_expired h now then
        let path := notePath (hkey h) in
        _ ← (if negb (String.eqb path "") then _ ← attempt (E:=fs_error) (Remove path); mret tt else mret tt);
        mret (MkServer (delete (hkey h) (notes s)) (hubs s) (next_hub s))
      else mret s
  end.

Fixpoint cleanup_hubs (s : Server) (ps : list hub_ptr) (now : Z) : io server_error Server :=
  match ps with
  | [] => mret s
  | p :: ps => s ← cleanup_hub s p now; cleanup_hubs s ps now
  end.

(** One entry of the directory of the store. *)
Definition cleanup_file (path name : string) (n : node) (now : Z) : io server_error unit :=
  if Collect.is_dir_node n || negb (String.eqb (Ext name) ".json") then mret tt
  else
    let filePath := Join path name in
    file ← attempt (ReadFile filePath);
    match decode_disk file with
    | Err _ => mret tt
    | Ok None => _ ← attempt (E:=server_error) (F:=server_error) (quarantinePersistentNote filePath now); mret tt
    | Ok (Some r) =>
        if negb (is_ok (validatePersistentNoteDiskRecord r)) then
          _ ← attempt (E:=server_error) (F:=server_error) (quarantinePersistentNote filePath now); mret tt
        else if DExpiresAt r <=? UnixMilli now then
          _ ← attempt (E:=fs_error) (Remove filePath); mret tt
        else mret tt
    end.

Fixpoint cleanup_files (path : string) (names : list (string * node)) (now : Z) : io server_error unit :=
  match names with
  | [] => mret tt
  | (name, n) :: names => _ ← cleanup_file path name n now; cleanup_files path names now
  end.

Definition cleanupPersistentNoteFiles (now : Z) : io server_error unit :=
  let path := TrimSpace (NoteStore cfg) in
  if String.eqb path "" then mret tt
  else
    names ← gets (fun w => ReadDir w path);
    match names with
    | Err _ => mret tt
    | Ok names => cleanup_files path names now
    end.

Definition cleanupPersistentNotes (s : Server) (now : Z) : io server_error Server :=
  s ← cleanup_hubs s ((map_to_list (notes s)).*2) now;
  _ ← cleanupPersistentNoteFiles now;
  mret s.
End disk.

(** ** The hubs *)

(** Every name leads to a hub of that name with room for its clients, and a hub
    without a record has generation 0, which is what clients insist on. *)
Record hub_ok (key : string) (h : persistentNoteHub) : Prop := {
  ho_key : hkey h = key;
  ho_clients : Z.of_nat (size (hclients h)) ≤ persistentNoteMaxClients;
  ho_empty : hrecord h = None → hgeneration h = 0;
  ho_gen : in_uint64 (hgeneration h);
  ho_record : ∀ r, hrecord h = Some r → PersistentRecord_Validate r = Ok tt;
}.

Record notes_ok (s : Server) : Prop := {
  no_hub : ∀ key p, notes s !! key = Some p → ∃ h, hubs s !! p = Some h ∧ hub_ok key h;
  no_next : ∀ p h, hubs s !! p = Some h → (p < next_hub s)%nat;
  no_fresh : ∀ key p, notes s !! key = Some p → (p < next_hub s)%nat;
}.

Lemma is_current_Some s p h :
  is_current s p = Some h ↔ hubs s !! p = Some h ∧ notes s !! hkey h = Some p.
Proof.
  unfold is_current. destruct (hubs s !! p) as [h'|]; cbn [mbind option_bind]; [|naive_solver].
  case_bool_decide; naive_solver.
Qed.

Lemma set_hub_ok s p h h' :
  notes_ok s → is_current s p = Some h → hub_ok (hkey h) h' → notes_ok (set_hub s p h').
Proof.
  intros [Hh Hn Hf] [Hp Hk]%is_current_Some Hok. split; cbn [set_hub notes hubs next_hub].
  - intros key q Hq. destruct (decide (q = p)) as [->|Hqp].
    + exists h'. rewrite lookup_insert_eq. split; [done|]. destruct (Hh _ _ Hq) as (h0 & E & Ho).
      assert (h0 = h) as -> by congruence. by rewrite <- (ho_key _ _ Ho).
    + rewrite lookup_insert_ne by done. by apply Hh.
  - intros q h0 [[<- _]|[_ Hq]]%lookup_insert_Some; [by eapply Hn|by eapply Hn].
  - done.
Qed.

Lemma addPersistentNoteClient_ok s p h client r s' :
  notes_ok s → is_current s p = Some h → addPersistentNoteClient s p h client = (r, s') → notes_ok s'.
Proof.
  intros Hs Hc. unfold addPersistentNoteClient. case_if; intros [= <- <-]; [done|]. bool_prop.
  eapply set_hub_ok; [done|done|]. apply is_current_Some in Hc as [Hp Hk].
  destruct (no_hub _ Hs _ _ Hk) as (h0 & E & [H1 H2 H3 H4 H5]). assert (h0 = h) as -> by congruence.
  split; [done| |done..]. cbn [set_clients hclients]. unfold persistentNoteMaxClients in *.
  pose proof (size_union_alt {[client]} (hclients h)) as Hu. rewrite Hu, size_singleton.
  pose proof (subseteq_size (hclients h ∖ {[client]}) (hclients h)) as Hle. specialize (Hle ltac:(set_solver)). lia.
Qed.

Lemma join_loaded_ok s loaded key client r s' :
  notes_ok s → (∀ h, loaded = Some h → hub_ok key h) → join_loaded s loaded key client = (r, s') → notes_ok s'.
Proof.
  intros Hs Hl. unfold join_loaded, join_existing. destruct (notes s !! key) as [p|] eqn:Ep; cbn [mbind option_bind].
  - destruct (no_hub _ Hs _ _ Ep) as (h & Hp & Ho). rewrite Hp. cbn [mbind option_bind]. apply addPersistentNoteClient_ok; [done|].
    apply is_current_Some. by rewrite (ho_key _ _ Ho).
  - set (h := default _ loaded). assert (Ho : hub_ok key h).
    { unfold h. destruct loaded as [h'|]; [by apply Hl|]. split; try done. }
    apply addPersistentNoteClient_ok.
    + split; cbn [notes hubs next_hub].
      * intros k q. intros [[<- <-]|[Hne Hq]]%lookup_insert_Some.
        { exists h. by rewrite lookup_insert_eq. }
        destruct (no_hub _ Hs _ _ Hq) as (h' & Hh & ?). exists h'.
        rewrite lookup_insert_ne; [done|]. pose proof (no_next _ Hs _ _ Hh). lia.
      * intros q h' [[<- _]|[_ Hq]]%lookup_insert_Some; [lia|]. pose proof (no_next _ Hs _ _ Hq). lia.
      * intros k q [[_ <-]|[_ Hq]]%lookup_insert_Some; [lia|]. pose proof (no_fresh _ Hs _ _ Hq). lia.
    + apply is_current_Some. cbn [notes hubs]. by rewrite (ho_key _ _ Ho), !lookup_insert_eq.
Qed.

Lemma delete_note_ok s key : notes_ok s → notes_ok (MkServer (delete key (notes s)) (hubs s) (next_hub s)).
Proof.
  intros [Hh Hn Hf]. split; cbn [notes hubs next_hub]; [|done|].
  - intros k p [_ Hk]%lookup_delete_Some. by apply Hh.
  - intros k p [_ Hk]%lookup_delete_Some. by eapply Hf.
Qed.

Lemma leavePersistentNote_ok s p client : notes_ok s → notes_ok (leavePersistentNote s p client).
Proof.
  intros Hs. unfold leavePersistentNote. destruct (is_current s p) as [h|] eqn:Hc; [|done].
  assert (Hok : notes_ok (set_hub s p (set_clients h (hclients h ∖ {[client]})))).
  { eapply set_hub_ok; [done|done|]. apply is_current_Some in Hc as [Hp Hk].
    destruct (no_hub _ Hs _ _ Hk) as (h0 & E & [H1 H2 H3 H4 H5]). assert (h0 = h) as -> by congruence.
    split; [done| |done..]. cbn [set_clients hclients].
    pose proof (subseteq_size (hclients h ∖ {[client]}) (hclients h)) as Hle. specialize (Hle ltac:(set_solver)). lia. }
  cbn zeta. case_if; [|done]. by apply (delete_note_ok (set_hub s p _)).
Qed.

(** ** A put *)

Section put.
Context `{Crypto} `{DiskJSON} (cfg : noteConfig).
Local Opaque walk max_links ReadFile.

Lemma ValidateClient_record m : ValidateClient m = Ok tt →
  PersistentRecord_Validate (default (MkPRecord 0 [] [] []) (MRecord m)) = Ok tt.
Proof. unfold ValidateClient. intros Hv. res_inv. by destruct (MRecord m). Qed.

(** What a put can do, whatever the disk does. *)
Lemma applyPersistentNote_cases fl randoms s p client m now w h :
  is_current s p = Some h →
  match applyPersistentNote cfg fl randoms s p client m now w with
  | (Ok (s', out), w') =>
      (BaseGeneration m ≠ hgeneration h ∧ s' = s ∧ out = [(client, persistentNoteStateLocked h)] ∧ w' = w) ∨
      (BaseGeneration m = hgeneration h ∧
       let record := default (MkPRecord 0 [] [] []) (MRecord m) in
       let h' := next_hub_state cfg h record now in
       s' = set_hub s p h' ∧ out = (fun c => (c, persistentNoteStateLocked h')) <$> elements (hclients h') ∧
       writePersistentNote cfg fl randoms (hkey h) (next_disk cfg h record now) w = (Ok tt, w'))
  | (Err e, w') => BaseGeneration m = hgeneration h ∧
      ∃ e', e = PersistFailed e' ∧
        writePersistentNote cfg fl randoms (hkey h) (next_disk cfg h (default (MkPRecord 0 [] [] []) (MRecord m)) now) w = (Err e', w')
  end.
Proof.
  intros Hc. unfold applyPersistentNote. rewrite Hc. destruct (Z.eqb_spec (BaseGeneration m) (hgeneration h)) as [E|E]; cbn [negb].
  - unfold mbind, io_bind, attempt. destruct (writePersistentNote _ _ _ _ _ w) as [[[]|e] w'] eqn:Ew.
    + cbn. right. by split_and!.
    + cbn. split; [done|]. by eexists.
  - cbn. left. by split_and!.
Qed.

Lemma applyPersistentNote_ok fl randoms s p client m now w s' out w' :
  notes_ok s → ValidateClient m = Ok tt → applyPersistentNote cfg fl randoms s p client m now w = (Ok (s', out), w') → notes_ok s'.
Proof.
  intros Hs Hv Ha. destruct (is_current s p) as [h|] eqn:Hc.
  - pose proof (applyPersistentNote_cases fl randoms s p client m now w h Hc) as Hx. rewrite Ha in Hx.
    destruct Hx as [(_ & -> & _)|(_ & -> & _)]; [done|]. eapply set_hub_ok; [done|done|].
    apply is_current_Some in Hc as [Hp Hk]. destruct (no_hub _ Hs _ _ Hk) as (h0 & E & [H1 H2 H3 H4 H5]).
    assert (h0 = h) as -> by congruence. split; [done|done|done|apply wrapu64_range|]. cbn. intros r [= <-].
    by apply ValidateClient_record.
  - unfold applyPersistentNote in Ha. rewrite Hc in Ha. done.
Qed.

Lemma handle_message_ok fl randoms s p client m now err w s' out w' :
  notes_ok s → handle_message cfg fl randoms s p client m now err w = (Ok (s', out), w') → notes_ok s'.
Proof.
  intros Hs. unfold handle_message. destruct m as [m|]; [|by intros [= <- <- <-]].
  destruct (ValidateClient m) as [[]|e] eqn:Hv; [|by intros [= <- <- <-]]. unfold mbind, io_bind, attempt.
  destruct (applyPersistentNote _ _ _ _ _ _ _ _ w) as [[[s1 out1]|e] w1] eqn:Ea; [|by intros [= <- <- <-]].
  intros [= <- <- <-]. by eapply applyPersistentNote_ok.
Qed.

Lemma cleanup_hub_ok s p now w s' w' : notes_ok s → cleanup_hub cfg s p now w = (Ok s', w') → notes_ok s'.
Proof.
  intros Hs. unfold cleanup_hub. destruct (is_current s p) as [h|]; [|by intros [= <- <-]].
  destruct (hub_expired h now); [|by intros [= <- <-]]. intros Hc. cbv zeta in Hc.
  apply io_bind_Ok in Hc as (u & w1 & _ & Hr). apply mret_Ok in Hr as [-> _]. by apply delete_note_ok.
Qed.

Lemma decode_disk_typed file r : decode_disk file = Ok (Some r) → in_uint64 (DGeneration r).
Proof.
  unfold decode_disk. destruct file as [data|e]; [|by destruct e]. intros [= Hu]. by apply disk_decoded in Hu.
Qed.

Lemma loadPersistentNote_hub key now w h w' :
  loadPersistentNote cfg key now w = (Ok (Some h), w') →
  hkey h = key ∧ hclients h = ∅ ∧ (∃ r, hrecord h = Some r ∧ PersistentRecord_Validate r = Ok tt) ∧ in_uint64 (hgeneration h).
Proof.
  unfold loadPersistentNote. case_if; [done|]. unfold mbind at 1, io_bind at 1, attempt at 1. rewrite ReadFile_pure. cbv beta iota.
  destruct (decode_disk _) as [[r|]|e] eqn:Ed.
  - destruct (validatePersistentNoteDiskRecord r) as [[]|e] eqn:Ev; [|intros Hx; cbn in Hx; by io_inv]. cbn [is_ok negb].
    case_if; [intros Hx; by io_inv|]. intros [[= ->] _]%mret_Ok.
    split_and!; [done|done| |by eapply decode_disk_typed]. cbn. eexists. split; [done|].
    unfold validatePersistentNoteDiskRecord in Ev. by res_inv.
  - intros Hx. by io_inv.
  - case_if; intros Hx; by io_inv.
Qed.

(** Every operation on the notepads keeps the hubs in order: names lead to hubs
    of their own, no hub has more than sixteen clients, and one without a record
    is at generation 0. *)
Inductive server_step : Server → Server → Prop :=
  | StepJoin s key client now w r s' w' :
      joinPersistentNote cfg s key client now w = (Ok (r, s'), w') → server_step s s'
  | StepLeave s p client : server_step s (leavePersistentNote s p client)
  | StepMessage fl randoms s p client m now err w s' out w' :
      handle_message cfg fl randoms s p client m now err w = (Ok (s', out), w') → server_step s s'
  | StepCleanup s now w s' w' : cleanupPersistentNotes cfg s now w = (Ok s', w') → server_step s s'.

Definition empty_server : Server := MkServer ∅ ∅ 0%nat.

Lemma server_step_ok s s' : server_step s s' → notes_ok s → notes_ok s'.
Proof.
  intros Hst Hs. destruct Hst as [s key client now w r s' w' Hj|s p client|fl randoms s p client m now err w s' out w' Hm|s now w s' w' Hc].
  - unfold joinPersistentNote in Hj. destruct (join_existing s key client) as [[r0 s0]|] eqn:Ej.
    + injection Hj as <- <- _. assert (Hl : join_loaded s None key client = (r0, s0)) by (unfold join_loaded; by rewrite Ej).
      eapply join_loaded_ok; [exact Hs| |exact Hl]. intros h [=].
    + apply io_bind_Ok in Hj as (loaded & w1 & Hl & Hr). apply mret_Ok in Hr as [Hr _].
      eapply join_loaded_ok; [exact Hs| |symmetry; exact Hr]. intros h ->. apply loadPersistentNote_hub in Hl as (Hk & Hcl & (x & Hx & Hxv) & Hg).
      split; [done|rewrite Hcl, size_empty; unfold persistentNoteMaxClients; lia|congruence|done|congruence].
  - by apply leavePersistentNote_ok.
  - by eapply handle_message_ok.
  - unfold cleanupPersistentNotes in Hc. apply io_bind_Ok in Hc as (s1 & w1 & Hc & Hr).
    apply io_bind_Ok in Hr as (u & w2 & _ & Hr). apply mret_Ok in Hr as [-> _].
    revert Hc. generalize (map_to_list (notes s)).*2. intros ps. revert s w Hs. induction ps as [|p ps IH]; intros s w Hs Hc.
    + cbn in Hc. injection Hc as <- _. done.
    + cbn [cleanup_hubs] in Hc. apply io_bind_Ok in Hc as (s2 & w3 & Hp & Hc). eapply IH; [|exact Hc]. by eapply cleanup_hub_ok.
Qed.

(** In every state the service reaches, whatever clients join, leave and
    send, whatever the disk does and whenever the expiry runs: every notepad's
    name leads to its own hub, at most sixteen clients are connected to it, and
    a hub without a record is at generation 0, as the clients demand. *)
Theorem notes_always_ok s : rtc server_step empty_server s → notes_ok s.
Proof.
  intros Hr. assert (Hi : notes_ok empty_server) by by split.
  revert Hi. induction Hr as [|s1 s2 s3 Hst _ IH]; [done|]. intros Hi. apply IH. by eapply server_step_ok.
Qed.

(** A service started on this disk loads the record, until it expires. *)
Definition restart_loads (key : string) (generation : Z) (record : PersistentRecord) (expiry : Z) (w : fs) : Prop :=
  ∀ now', UnixMilli now' < expiry → ∃ h,
    fst (loadPersistentNote cfg key now' w) = Ok (Some h) ∧ hgeneration h = generation ∧ hrecord h = Some record.

Lemma next_disk_valid h record now :
  PersistentRecord_Validate record = Ok tt → 0 < UnixMilli now → millisecond ≤ NoteTTL cfg → 0 ≤ hgeneration h < uint64_max →
  validatePersistentNoteDiskRecord (next_disk cfg h record now) = Ok tt ∧
  DGeneration (next_disk cfg h record now) = hgeneration h + 1.
Proof.
  intros Hv Hnow Httl Hg.
  assert (Hpos : UnixMilli now < UnixMilli (now + NoteTTL cfg)).
  { unfold UnixMilli. pose proof (Z.div_le_mono (now + 1 * millisecond) (now + NoteTTL cfg) millisecond ltac:(unfold millisecond; lia) ltac:(lia)) as Hd.
    rewrite Z.div_add in Hd by (unfold millisecond; lia). lia. }
  assert (Hgen : wrapu64 (hgeneration h + 1) = hgeneration h + 1) by (apply wrapu64_id; unfold in_uint64, uint64_max in *; lia).
  split; [|exact Hgen]. unfold validatePersistentNoteDiskRecord, next_disk. cbn [DVersion DGeneration DUpdatedAt DExpiresAt DRecord]. rewrite Hgen.
  replace (hgeneration h + 1 =? 0) with false by (symmetry; apply Z.eqb_neq; lia).
  replace (UnixMilli now <=? 0) with false by (symmetry; by apply Z.leb_gt).
  replace (UnixMilli (now + NoteTTL cfg) <=? UnixMilli now) with false by (symmetry; by apply Z.leb_gt).
  cbn. by rewrite Hv.
Qed.

Lemma written_loads key r w :
  disk_typed r → validatePersistentNoteDiskRecord r = Ok tt → Z.of_nat (length (Marshal r)) ≤ MaxPersistentMessageSize →
  notePath cfg key ≠ ""%string → fst (ReadFile (notePath cfg key) w) = Ok (Marshal r) →
  restart_loads key (DGeneration r) (DRecord r) (DExpiresAt r) w.
Proof.
  intros Hr Hv Hfit Hne Hread now' Hnow'. unfold loadPersistentNote. rewrite (proj2 (String.eqb_neq _ _) Hne).
  unfold mbind, io_bind, attempt. rewrite ReadFile_pure, Hread. cbn [decode_disk].
  rewrite take_ge by (unfold MaxPersistentMessageSize in *; lia).
  rewrite Unmarshal_Marshal by done. rewrite Hv. cbn [is_ok negb].
  replace (DExpiresAt r <=? UnixMilli now') with false by (symmetry; by apply Z.leb_gt).
  eexists. split; [reflexivity|]. done.
Qed.

(** C19: a put is a durable compare-and-swap.  Based on another generation than
    the hub's it changes nothing, and its sender alone gets the current record.
    Based on the hub's, it makes the record the next generation, which every
    connected client is sent, and which a restarted service loads from disk
    until the record expires; or it is refused, and then no file reads
    differently.  One refused put is not undone: when only the sync of the
    directory failed, the file is already replaced, and a restarted service
    loads the record that was refused. *)
Theorem applyPersistentNote_durable fl randoms s p client m record now w h parts name :
  is_current s p = Some h → MRecord m = Some record → PersistentRecord_Validate record = Ok tt →
  notePath cfg (hkey h) = target_path parts name → plain parts → plain [name] →
  replaceable parts name w → inodes_known w →
  Forall (λ r, plain [".note-" +:+ r +:+ ".tmp"] ∧ ".note-" +:+ r +:+ ".tmp" ≠ name) randoms →
  0 < UnixMilli now → millisecond ≤ NoteTTL cfg → 0 ≤ hgeneration h < uint64_max →
  Z.of_nat (length (Marshal (next_disk cfg h record now))) ≤ MaxPersistentMessageSize →
  let stored := restart_loads (hkey h) (hgeneration h + 1) record (UnixMilli (now + NoteTTL cfg)) in
  match applyPersistentNote cfg fl randoms s p client m now w with
  | (Ok (s', out), w') =>
      (BaseGeneration m ≠ hgeneration h ∧ s' = s ∧ out = [(client, persistentNoteStateLocked h)] ∧ w' = w) ∨
      (BaseGeneration m = hgeneration h ∧ ∃ h', is_current s' p = Some h' ∧
        hgeneration h' = hgeneration h + 1 ∧ hrecord h' = Some record ∧ hclients h' = hclients h ∧
        (∀ c x, (c, x) ∈ out ↔ c ∈ hclients h ∧ x = persistentNoteStateLocked h') ∧ stored w')
  | (Err _, w') => BaseGeneration m = hgeneration h ∧
      ((∀ q, fst (ReadFile q w') = fst (ReadFile q w)) ∨ is_Some (dirsync_fault fl) ∧ stored w')
  end.
Proof.
  intros Hc Hm Hv Hpath Hp Hn Hrep Hk Ht Hnow Httl Hg Hfit stored.
  pose proof (applyPersistentNote_cases fl randoms s p client m now w h Hc) as Hx.
  rewrite Hm in Hx. cbv zeta in Hx. change (default (MkPRecord 0 [] [] []) (Some record)) with record in Hx.
  assert (Hne : String.eqb (target_path parts name) "" = false) by reflexivity.
  destruct (next_disk_valid h record now Hv Hnow Httl Hg) as [Hvr Hgen].
  set (r := next_disk cfg h record now) in *.
  pose proof (replace_file_spec commit_sync (fun fl => dirsync_fault fl = None) parts name ".note-" randoms (dirsync_ok fl) (Marshal r) w w Hp Hn Hrep Hk Ht
    (MkdirAll_noop w parts 448 Hp (proj1 Hrep)) eq_refl) as Hrf.
  assert (Hw : writePersistentNote cfg fl randoms (hkey h) r w =
    wrap_io DiskFS (replace_file commit_sync fl randoms ".note-" (target_path parts name) (Marshal r)) w).
  { unfold writePersistentNote. rewrite Hpath, Hne. unfold mbind, io_bind, lift. by rewrite Hvr. }
  rewrite Hw in Hx. unfold wrap_io in Hx. rewrite replace_file_dirsync in Hx.
  assert (Hst : ∀ w2, fst (ReadFile (target_path parts name) w2) = Ok (Marshal r) → stored w2).
  { intros w2 Hread. unfold stored. rewrite <- Hgen. apply (written_loads (hkey h) r); [by apply wrapu64_range|done|done|by rewrite Hpath|by rewrite Hpath]. }
  destruct (replace_file _ (dirsync_ok fl) _ _ _ _ w) as [[[]|fe] w2]; destruct (dirsync_fault fl) as [de|]; cbn [wrap_err] in Hx;
    destruct (applyPersistentNote _ _ _ _ _ _ _ _ w) as [[[s' out]|e] w'].
  all: try (by left; destruct Hx as [Hx|(_ & _ & _ & [=])]).
  all: try (by destruct Hx as (_ & e' & _ & [=])).
  - destruct Hx as (Hb & e' & -> & [= _ <-]). split; [done|]. right. split; [done|]. by apply Hst, Hrf.
  - destruct Hx as [Hx|(Hb & -> & -> & [= ->])]; [by left|right]. split; [done|].
    exists (next_hub_state cfg h record now). apply is_current_Some in Hc as [Hh Hnk].
    split; [apply is_current_Some; cbn; by rewrite lookup_insert_eq|].
    split; [exact Hgen|]. split; [done|]. split; [done|]. split; [|by apply Hst, Hrf].
    intros c x. rewrite list_elem_of_fmap. setoid_rewrite elem_of_elements. naive_solver.
  - destruct Hx as (Hb & e' & -> & [= _ <-]). split; [done|]. left. apply Hrf.
  - destruct Hx as (Hb & e' & -> & [= _ <-]). split; [done|]. left. apply Hrf.
Qed.
End put.

(** ** Examples *)

Definition disk_fields (r : persistentNoteDiskRecord) : list bytes :=
  [num_field (DVersion r); num_field (DGeneration r); num_field (DUpdatedAt r); num_field (DExpiresAt r);
   num_field (PVersion (DRecord r)); Salt (DRecord r); Nonce (DRecord r); PCiphertext (DRecord r)].
Definition fields_disk (l : list bytes) : option persistentNoteDiskRecord :=
  match l with
  | [v; g; u; e; pv; s; n; c] =>
      v ← field_num v; g ← field_num g; u ← field_num u; e ← field_num e; pv ← field_num pv;
      Some (MkDisk v g u e (MkPRecord pv s n c))
  | _ => None
  end.
Lemma disk_fields_law r : fields_disk (disk_fields r) = Some r.
Proof. destruct r as [v g u e [pv s n c]]. unfold disk_fields, fields_disk. cbn. by rewrite !field_num_field. Qed.
#[export] Instance disk_typed_dec r : Decision (disk_typed r).
Proof. unfold disk_typed, in_uint64. apply _. Defined.

Definition unmarshal_disk (b : bytes) : option persistentNoteDiskRecord :=
  r ← fields_disk (dec_fields [] b); if decide (disk_typed r) then Some r else None.

Lemma unmarshal_disk_law r : disk_typed r → unmarshal_disk (enc_fields (disk_fields r)) = Some r.
Proof.
  intros Hr. unfold unmarshal_disk. rewrite dec_enc_fields, disk_fields_law. cbn [mbind option_bind].
  by rewrite decide_True.
Qed.

Lemma unmarshal_disk_typed b r : unmarshal_disk b = Some r → disk_typed r.
Proof. unfold unmarshal_disk. destruct (fields_disk _); [|done]. cbn [mbind option_bind]. case_decide; [|done]. by intros [= <-]. Qed.

Definition demo_disk_json : DiskJSON := {|
  disk_json := {| Marshal r := enc_fields (disk_fields r); Unmarshal := unmarshal_disk; Unmarshal_Marshal := unmarshal_disk_law |};
  disk_decoded := unmarshal_disk_typed;
|}.

Definition demo_note_cfg : noteConfig := MkNoteConfig "/s" defaultPersistentNoteTTL.
Definition demo_record : PersistentRecord := MkPRecord 1 (replicate 16 "0"%char) (replicate 12 "0"%char) (replicate 16 "x"%char).
Definition demo_put (base : Z) : PersistentMessage := MkPMessage PersistentPut 1 0 base (Some demo_record) "".
Definition demo_server : Server := MkServer {[ "k"%string := 0%nat ]} {[ 0%nat := MkHub "k" 0 None 0 0 {[ 5%nat; 6%nat ]} ]} 1%nat.
Definition demo_note_fs : fs := MkFS {[ ["s"]%string := NDir 448 0 ]} ∅ 0 [].
Definition demo_note_name : string :=
  let Hc := fixed_crypto in hex_encode (sha256 (to_bytes "kigo-persistent-note:k")) +:+ ".json".
Definition demo_now : Z := 5 * millisecond.

Lemma demo_note_name_plain : plain [demo_note_name].
Proof. split; (constructor; [vm_compute; reflexivity|constructor]). Qed.

(** The directory cannot be synced after the rename. *)
Definition dirsync_fails : disk_faults := MkFaults None None None None None None None (Some EINVAL).

Lemma applyPersistentNote_durable_witness :
  let Hc := fixed_crypto in let Hj := demo_disk_json in
  let put fl := applyPersistentNote demo_note_cfg fl ["17"]%string demo_server 0%nat 5%nat (demo_put 0) demo_now demo_note_fs in
  (is_ok (fst (put no_faults)) = true ∧ fst (put dirsync_fails) = Err (PersistFailed (DiskFS EINVAL))) ∧
  ∀ fl, fl = no_faults ∨ fl = dirsync_fails →
    restart_loads demo_note_cfg "k" 1 demo_record (UnixMilli (demo_now + NoteTTL demo_note_cfg)) (snd (put fl)).
Proof.
  intros Hc Hj put. split; [by split; vm_compute|]. intros fl Hfl.
  assert (Hdirs : real_dirs demo_note_fs ["s"]%string).
  { intros [|[|n]] Hn; [cbn in Hn; lia| |cbn in Hn; lia]. exists 448, 0. vm_compute. reflexivity. }
  assert (Hrep : replaceable ["s"]%string demo_note_name demo_note_fs).
  { split; [exact Hdirs|]. intros m t. vm_compute. discriminate. }
  assert (Hknown : inodes_known demo_note_fs).
  { intros k i. unfold demo_note_fs. cbn [entries]. intros [_ [=]]%lookup_singleton_Some. }
  assert (Htemps : Forall (λ r, plain [".note-" +:+ r +:+ ".tmp"] ∧ ".note-" +:+ r +:+ ".tmp" ≠ demo_note_name) ["17"]%string).
  { constructor; [|constructor]. split; [split; repeat constructor|vm_compute; discriminate]. }
  assert (Hfit : Z.of_nat (length (Marshal (next_disk demo_note_cfg (MkHub "k" 0 None 0 0 {[ 5%nat; 6%nat ]}) demo_record demo_now))) ≤ MaxPersistentMessageSize)
    by (vm_compute; discriminate).
  assert (Hpath : notePath demo_note_cfg "k" = target_path ["s"]%string demo_note_name) by (vm_compute; reflexivity).
  assert (Hplain : plain ["s"]%string) by (split; repeat constructor).
  assert (Hpos : 0 < UnixMilli demo_now) by (vm_compute; reflexivity).
  assert (Httl : millisecond ≤ NoteTTL demo_note_cfg) by (vm_compute; discriminate).
  assert (Hgen : 0 ≤ 0 < uint64_max) by (unfold uint64_max; lia).
  pose proof (applyPersistentNote_durable demo_note_cfg fl ["17"]%string demo_server 0%nat 5%nat (demo_put 0) demo_record demo_now
    demo_note_fs (MkHub "k" 0 None 0 0 {[ 5%nat; 6%nat ]}) ["s"]%string demo_note_name
    eq_refl eq_refl eq_refl Hpath Hplain demo_note_name_plain Hrep Hknown Htemps Hpos Httl Hgen Hfit) as Hx.
  fold (put fl) in Hx. 
  assert (Hr : fl = no_faults ∧ is_ok (fst (put fl)) = true ∨
    fst (ReadFile (notePath demo_note_cfg "k") (snd (put fl))) ≠ fst (ReadFile (notePath demo_note_cfg "k") demo_note_fs) ∧ is_ok (fst (put fl)) = false)
    by (destruct Hfl as [-> | ->]; [left; split; vm_compute; reflexivity|right; split; vm_compute; [discriminate|reflexivity]]).
  destruct (put fl) as [[[s' out]|e] w']; cbn [fst snd] in *.
  - destruct Hx as [(Hne & _)|(_ & h' & _ & _ & _ & _ & _ & Hload)]; [exfalso; apply Hne; reflexivity|exact Hload].
  - destruct Hr as [[_ [=]]|[Hr _]], Hx as [_ [Hsame|[_ Hload]]]; [by destruct Hr|exact Hload].
Defined.

Lemma notes_always_ok_witness :
  let Hc := fixed_crypto in let Hj := demo_disk_json in
  ∃ s, rtc (server_step demo_note_cfg) empty_server s ∧ notes_ok s ∧ notes s !! "k"%string = Some 0%nat.
Proof.
  intros Hc Hj.
  set (s := snd (join_loaded empty_server None "k" 7%nat)).
  assert (Hr : rtc (server_step demo_note_cfg) empty_server s).
  { apply rtc_once. apply (StepJoin demo_note_cfg empty_server "k" 7%nat 5 demo_note_fs (fst (join_loaded empty_server None "k" 7%nat)) s demo_note_fs).
    vm_compute. reflexivity. }
  exists s. split; [exact Hr|]. split; [exact (notes_always_ok demo_note_cfg s Hr)|vm_compute; reflexivity].
Defined.
