(* ===== verification/NoteSync.v ===== *)
(** * Clients of a persistent notepad and the service together

    Any number of clients join, edit, read and leave while the service accepts
    one put after the other; the connections are first-in first-out queues.  A
    client has two threads, the reader of [persistent_session.go] and the loop
    of [interactive.go], which interleave: reading a message, comparing it,
    applying the event, editing and sending are steps of their own.  The
    theorems: a client that has read everything is never behind the service;
    when each client does one thing at a time, all agree once nothing is on its
    way; and a run in which they do not, because an edit slips in between. *)
From Stdlib Require Import ZArith Lia Ascii String.
From stdpp Require Import base tactics numbers list gmap strings relations.
From S2P Require Import Prelude GoStrings Json FileSystem AtomicFile Secure NoteDocument PersistentNote NoteServer.

(** ** The system *)

(** A connected client: its hub, the state message its join has captured but not
    yet written, the two queues of the connection, the session once the first
    message is read, the message its reader is at, the events for the caller,
    the caller's workspace, and the frame the caller is about to send. *)
Record conn := MkConn {
  cptr : hub_ptr;
  pending : option PersistentMessage;
  to_client : list PersistentMessage;
  to_server : list (option PersistentMessage);
  session : option PersistentSession;
  reading : option PersistentMessage;
  cevents : list persistentSessionEvent;
  cws : Workspace;
  outbox : option Frame;
}.

Record system := MkSystem { srv : Server; disk : fs; conns : gmap client_id conn }.

Definition with_conn (s : system) (c : client_id) (k : conn) : system :=
  MkSystem (srv s) (disk s) (<[c := k]> (conns s)).

Definition push_client (m : PersistentMessage) (k : conn) : conn :=
  MkConn (cptr k) (pending k) (to_client k ++ [m]) (to_server k) (session k) (reading k) (cevents k) (cws k) (outbox k).

(** The writes of a handler. *)
Definition deliver (out : list (client_id * PersistentMessage)) (ks : gmap client_id conn) : gmap client_id conn :=
  foldl (fun ks '(c, m) => alter (push_client m) c ks) ks out.

Definition send_server (k : conn) (m : option PersistentMessage) : conn :=
  MkConn (cptr k) (pending k) (to_client k) (match m with Some m => to_server k ++ [Some m] | None => to_server k end)
    (session k) (reading k) (cevents k) (cws k) (outbox k).

Section system.
Context `{CaseTables} `{Crypto} `{DocumentJSON} `{DiskJSON}.
Context (cfg : noteConfig) (code pad key : string) (err : server_error + persistent_error → string).

(** The connection of a client whose join returned [m]; it brings a workspace. *)
Definition joined (p : hub_ptr) (m : PersistentMessage) (w : Workspace) : conn :=
  MkConn p (Some m) [] [] None None [] w None.

Definition write_pending (k : conn) (m : PersistentMessage) : conn :=
  MkConn (cptr k) None (to_client k ++ [m]) (to_server k) (session k) (reading k) (cevents k) (cws k) (outbox k).

Definition synced (k : conn) (rest : list PersistentMessage) (ps : PersistentSession) (w : Workspace) : conn :=
  MkConn (cptr k) (pending k) rest (to_server k) (Some ps) (reading k) (cevents k) w (outbox k).

(** [readLoop]'s first half with the message [m]. *)
Definition read_message (k : conn) (ps : PersistentSession) (m : PersistentMessage) (rest : list PersistentMessage) : conn :=
  let '(ps, r) := readLoop_accept ps m in
  MkConn (cptr k) (pending k) rest (to_server k) (Some ps)
    (match r with Some (Ok m) => Some m | _ => None end)
    (match r with Some (Err e) => cevents k ++ [EventError e] | _ => cevents k end) (cws k) (outbox k).

(** Its second half. *)
Definition compare_message (k : conn) (ps : PersistentSession) (m : PersistentMessage) (salt nonce : bytes) : conn :=
  let '(evs, out) := readLoop_compare ps m salt nonce (cws k) in
  send_server (MkConn (cptr k) (pending k) (to_client k) (to_server k) (session k) None (cevents k ++ evs) (cws k) (outbox k)) out.

(** [RunInteractive] on a received frame: a document is applied and
    acknowledged, and the session sends no acknowledgements; [None]: it returns. *)
Definition consume_frame (w : Workspace) (f : Frame) : option Workspace :=
  if String.eqb (FType f) FrameUpdate || String.eqb (FType f) FrameClear then
    match ApplyRemote w (Frame_Document f) with Ok (_, _, w) => Some w | Err _ => None end
  else if String.eqb (FType f) FrameBye then None
  else Some w.

Definition consumed (k : conn) (rest : list persistentSessionEvent) (w : Workspace) : conn :=
  MkConn (cptr k) (pending k) (to_client k) (to_server k) (session k) (reading k) rest w (outbox k).

Definition edited (k : conn) (w : Workspace) (f : option Frame) : conn :=
  MkConn (cptr k) (pending k) (to_client k) (to_server k) (session k) (reading k) (cevents k) w f.

Definition take_served (k : conn) (rest : list (option PersistentMessage)) : conn :=
  MkConn (cptr k) (pending k) (to_client k) rest (session k) (reading k) (cevents k) (cws k) (outbox k).

(** A line typed by the user, [None] for [/clear]. *)
Definition edit (w : Workspace) (line : option string) (now : Z) : result note_error (Document * Workspace) :=
  match line with Some text => Update w pad text now | None => Clear w pad now end.
Definition edit_frame (line : option string) (d : Document) : Frame :=
  FrameFromDocument (if line then FrameUpdate else FrameClear) d.

Inductive step (s : system) : system → Prop :=
  | SysJoin c now w p m srv' disk' :
      conns s !! c = None → ws_ok w →
      joinPersistentNote cfg (srv s) key c now (disk s) = (Ok (Ok (p, m), srv'), disk') →
      step s (MkSystem srv' disk' (<[c := joined p m w]> (conns s)))
  | SysWriteInitial c k m :
      conns s !! c = Some k → pending k = Some m → step s (with_conn s c (write_pending k m))
  | SysSync c k m rest ps applied w out salt nonce :
      conns s !! c = Some k → session k = None → to_client k = m :: rest →
      OpenPersistentSession code pad m = Ok ps → SyncWorkspace ps m salt nonce (cws k) pad = Ok (applied, w, out) →
      step s (with_conn s c (send_server (synced k rest ps w) out))
  | SysRead c k ps m rest :
      conns s !! c = Some k → session k = Some ps → reading k = None → to_client k = m :: rest →
      step s (with_conn s c (read_message k ps m rest))
  | SysCompare c k ps m salt nonce :
      conns s !! c = Some k → session k = Some ps → reading k = Some m →
      step s (with_conn s c (compare_message k ps m salt nonce))
  | SysConsume c k f rest w :
      conns s !! c = Some k → outbox k = None → cevents k = EventFrame f :: rest → consume_frame (cws k) f = Some w →
      step s (with_conn s c (consumed k rest w))
  | SysEdit c k ps line now d w :
      conns s !! c = Some k → session k = Some ps → outbox k = None → in_int64 now →
      Revision (doc_at (cws k) pad) < uint64_max → Timestamp (doc_at (cws k) pad) < int64_max →
      edit (cws k) line now = Ok (d, w) →
      step s (with_conn s c (edited k w (Some (edit_frame line d))))
  | SysSend c k ps f salt nonce m :
      conns s !! c = Some k → session k = Some ps → outbox k = Some f →
      PersistentSession_Send ps salt nonce f = Ok (Published m) →
      step s (with_conn s c (send_server (edited k (cws k) None) (Some m)))
  | SysServe c k m rest fl randoms now srv' out disk' :
      conns s !! c = Some k → to_server k = m :: rest →
      handle_message cfg fl randoms (srv s) (cptr k) c m now err (disk s) = (Ok (srv', out), disk') →
      step s (MkSystem srv' disk' (deliver out (<[c := take_served k rest]> (conns s))))
  | SysForge c k m :
      conns s !! c = Some k → step s (with_conn s c (take_served k (to_server k ++ [m])))
  | SysLeave c k :
      conns s !! c = Some k →
      step s (MkSystem (leavePersistentNote (srv s) (cptr k) c) (disk s) (delete c (conns s)))
  | SysCleanup now srv' disk' :
      cleanupPersistentNotes cfg (srv s) now (disk s) = (Ok srv', disk') →
      step s (MkSystem srv' disk' (conns s)).

Definition system_start (s : system) : Prop := srv s = empty_server ∧ conns s = ∅.
End system.

(** The messages of a broadcast that are for one client. *)
Lemma filter_broadcast (m : PersistentMessage) (X : gset client_id) c :
  filter (λ x, fst x = c) ((λ c, (c, m)) <$> elements X) = if decide (c ∈ X) then [(c, m)] else [].
Proof.
  assert (Hgen : ∀ l, NoDup l → filter (λ x : client_id * PersistentMessage, fst x = c) ((λ c, (c, m)) <$> l) =
    if decide (c ∈ l) then [(c, m)] else []).
  { induction 1 as [|x l Hx _ IH]; [done|]. rewrite fmap_cons, filter_cons, IH. cbn [fst].
    destruct (decide (x = c)) as [->|Hne].
    - rewrite (decide_False (P:=c ∈ l)) by done. rewrite decide_True by by left. done.
    - destruct (decide (c ∈ l)) as [Hl|Hl].
      + rewrite decide_True by by right. done.
      + rewrite decide_False; [done|]. intros [->|?]%elem_of_cons; done. }
  rewrite Hgen by apply NoDup_elements. by repeat case_decide; set_solver.
Qed.

(** ** What holds of a client *)

Section invariant.
Context `{CaseTables} `{Crypto} `{DocumentJSON} `{DiskJSON}.
Context (cfg : noteConfig) (code pad key : string) (err : server_error + persistent_error → string).
Hypothesis code_ok : ValidateCode code = Ok code.
Hypothesis pad_ok : NormalizePad pad = pad.

Local Abbreviation state h := (persistentNoteStateLocked h).

(** A message on its way to a client is the hub's present or past state, or an
    error. *)
Definition message_ok (h : persistentNoteHub) (m : PersistentMessage) : Prop :=
  MType m = PersistentState → Generation m ≤ hgeneration h ∧ (Generation m = hgeneration h → m = state h).

(** The present state is still to be read. *)
Definition state_coming (h : persistentNoteHub) (k : conn) : Prop :=
  state h ∈ to_client k ∨ pending k = Some (state h).

(** The caller has, or will be told, the document [d]. *)
Definition knows (h : persistentNoteHub) (k : conn) (d : Document) : Prop :=
  doc_le d (Snapshot (cws k) pad) ∨ reading k = Some (state h) ∨
  ∃ f, EventFrame f ∈ cevents k ∧ IsDocumentUpdate f = true ∧ Frame_Document f = d.

Record client_inv (h : persistentNoteHub) (k : conn) : Prop := {
  ci_client : ∀ m, m ∈ to_client k → message_ok h m;
  ci_pending : ∀ m, pending k = Some m → message_ok h m;
  ci_new : session k = None → state_coming h k;
  ci_session : ∀ ps, session k = Some ps → scode ps = code ∧ spad ps = pad ∧ sgeneration ps ≤ hgeneration h ∧
    (sgeneration ps < hgeneration h → state_coming h k);
  ci_reading : ∀ m, reading k = Some m → MType m = PersistentState ∧
    ∃ ps, session k = Some ps ∧ Generation m = sgeneration ps ∧ (Generation m = hgeneration h → m = state h);
  ci_doc : ∀ ps r d, session k = Some ps → sgeneration ps = hgeneration h →
    hrecord h = Some r → OpenPersistentDocument code pad r = Ok d → knows h k d;
  ci_ws : ws_ok (cws k);
  ci_events : ∀ f, EventFrame f ∈ cevents k → IsDocumentUpdate f = true → doc_typed (Frame_Document f);
}.

Lemma client_inv_ext h h' k :
  state h = state h' → client_inv h k → client_inv h' k.
Proof.
  intros Hs. assert (Hg : hgeneration h' = hgeneration h) by (unfold persistentNoteStateLocked in Hs; congruence).
  assert (Hr : hrecord h' = hrecord h) by (unfold persistentNoteStateLocked in Hs; congruence).
  intros [I1 I2 I3 I4 I5 I6 I7 I8].
  split; unfold message_ok, state_coming, knows in *; rewrite ?Hg, ?Hr, <- ?Hs; done.
Qed.

Lemma state_ok h : message_ok h (state h).
Proof. intros _. split; [cbn; lia|done]. Qed.

(** The session's first message. *)
Lemma validatePersistentState_type m : validatePersistentState m = Ok tt → MType m = PersistentState.
Proof.
  unfold validatePersistentState. intros Hv. res_inv. bool_prop.
  match goal with H : String.eqb (MType m) PersistentState = true |- _ => by apply String.eqb_eq in H end.
Qed.

Lemma state_valid h : hub_ok key h → validatePersistentState (state h) = Ok tt.
Proof.
  intros Hh. unfold validatePersistentState. cbn. destruct (hrecord h) as [r|] eqn:E; [by apply (ho_record _ _ Hh)|].
  by rewrite (ho_empty _ _ Hh).
Qed.

(** What the reader's two halves do to the invariant. *)
Lemma read_message_inv h k ps m rest :
  hub_ok key h → session k = Some ps → reading k = None → to_client k = m :: rest →
  client_inv h k → client_inv h (read_message k ps m rest).
Proof.
  intros Hh Hs Hr Ht [I1 I2 I3 I4 I5 I6 I7 I8]. destruct (I4 ps Hs) as (Hc & Hp & Hle & Hlt).
  assert (Hm : message_ok h m) by (apply I1; rewrite Ht; by left).
  assert (Hrest : ∀ x, x ∈ rest → message_ok h x) by (intros x Hx; apply I1; rewrite Ht; by right).
  unfold read_message, readLoop_accept.
  (* a message that changes nothing but the queue and the events *)
  assert (Hskip : ∀ evs, (∃ more, evs = cevents k ++ more ∧ ∀ f, EventFrame f ∉ more) → m ≠ state h ∨ hgeneration h ≤ sgeneration ps →
    client_inv h (MkConn (cptr k) (pending k) rest (to_server k) (Some ps) None evs (cws k) (outbox k))).
  { intros evs (more & -> & Hmore) Hne. split; cbn [to_client pending session reading cevents cws]; try done.
    - intros ps' [= <-]. split_and!; try done. intros Hl. destruct (Hlt Hl) as [Hin|Hin]; [|by right].
      left. rewrite Ht in Hin. cbn [to_client]. apply elem_of_cons in Hin as [<-|Hin]; [|done]. destruct Hne; [done|lia].
    - intros ps' r d [= <-] Hg Hrec Ho. destruct (I6 ps r d Hs Hg Hrec Ho) as [?|[?|(f & ? & ?)]]; [by left|congruence|].
      right; right. exists f. split; [|done]. cbn. apply elem_of_app. by left.
    - intros f [Hf|Hf]%elem_of_app; [by apply I8|by apply Hmore in Hf]. }
  assert (Herr : ∀ e f, EventFrame f ∉ [EventError e]) by (by intros e f [=]%list_elem_of_singleton).
  destruct (String.eqb_spec (MType m) PersistentError) as [Ee|Ee].
  { apply Hskip; [by eexists|]. left. by intros ->. }
  destruct (validatePersistentState m) as [[]|e] eqn:Ev.
  2:{ apply Hskip; [by eexists|]. left. intros ->. by rewrite (state_valid h Hh) in Ev. }
  apply validatePersistentState_type in Ev. destruct (Hm Ev) as [Hgm Hst].
  destruct (Generation m <? sgeneration ps) eqn:Eg; bool_prop.
  { apply Hskip; [exists []; split; [by rewrite app_nil_r|by intros f ?%not_elem_of_nil]|]. left. intros ->. cbn in *. lia. }
  cbn. split; cbn [to_client pending session reading cevents cws]; try done.
  - intros ps' [= <-]. cbn. split_and!; try done. intros Hl.
    destruct Hlt as [Hin|Hin]; [lia| |by right]. left. rewrite Ht in Hin. cbn.
    apply elem_of_cons in Hin as [<-|Hin]; [|done]. cbn in Hl. lia.
  - intros m' [= <-]. split; [done|]. eexists. split; [done|]. by cbn.
  - intros ps' r d [= <-] Hg Hrec Ho. right; left. cbn in *. by rewrite Hst.
Qed.

(** ** Workspaces only grow *)

Lemma Snapshot_le w d : doc_le d (Snapshot w pad) ↔ doc_le d (doc_at w pad).
Proof. unfold Snapshot, doc_at. rewrite pad_ok. by destruct (docs w !! pad). Qed.

Definition grows (w w' : Workspace) : Prop := doc_le (doc_at w pad) (doc_at w' pad).

Lemma knows_grows h k w' d ev rd :
  grows (cws k) w' → knows h k d → reading k = rd → (∀ f, EventFrame f ∈ cevents k → EventFrame f ∈ ev) →
  ∀ p tc ts ss ob, knows h (MkConn p (pending k) tc ts ss rd ev w' ob) d.
Proof.
  intros Hg [Hd|[Hr|(f & Hf & ?)]] <- Hev p tc ts ss ob.
  - left. cbn [cws]. rewrite Snapshot_le in *. by eapply doc_le_trans.
  - right; by left.
  - right; right. exists f. split; [by apply Hev|done].
Qed.

Lemma ApplyRemote_grows w d c x w' : ApplyRemote w d = Ok (c, x, w') → grows w w'.
Proof.
  intros Ha. pose proof (ApplyRemote_spec w d) as Hs. rewrite Ha in Hs. destruct Hs as (_ & Hat & _ & _ & Hold & _ & _).
  unfold grows. destruct (decide (pad = Pad (with_pad d (NormalizePad (Pad d))))) as [E|E]; [by rewrite E|].
  rewrite (Hat pad), decide_False by (by intros []). apply doc_le_refl.
Qed.

Lemma Update_grows w text now d w' :
  ws_ok w → in_int64 now → Revision (doc_at w pad) < uint64_max → Timestamp (doc_at w pad) < int64_max →
  Update w pad text now = Ok (d, w') → ws_ok w' ∧ grows w w' ∧ Snapshot w' pad = d ∧ doc_ok d ∧ doc_typed d ∧ Pad d = pad.
Proof.
  intros Hw Hnow Hr Ht. unfold Update. rewrite pad_ok.
  destruct (ValidatePad pad) as [[]|] eqn:Hp; [|done]. destruct (ValidateText text) as [[]|] eqn:Hx; [|done].
  cbn [mbind result_bind]. set (cur := doc_at w pad) in *. set (ts := if now <=? Timestamp cur then _ else _).
  intros [= <- <-].
  assert (Hcur : 0 ≤ Revision cur ∧ 0 ≤ Timestamp cur).
  { unfold cur, doc_at. destruct (docs w !! pad) as [c|] eqn:E; [|done].
    apply Hw in E as (_ & [Hv _] & [? _] & _). simpl. apply doc_ok_pos in Hv. lia. }
  assert (Hrev : wrapu64 (Revision cur + 1) = Revision cur + 1) by (apply wrapu64_id; unfold in_uint64, uint64_max in *; lia).
  assert (Hts : Timestamp cur < ts ∧ in_int64 ts).
  { unfold ts. case_if; bool_prop; [|done]. rewrite wrap64_id; unfold in_int64, int64_min, int64_max in *; lia. }
  assert (Hok : ValidateDocument (MkDocument pad text (wrapu64 (Revision cur + 1)) ts) = Ok tt).
  { unfold ValidateDocument. cbn [Pad Text Revision Timestamp]. rewrite Hp, Hx, Hrev. cbn [mbind result_bind]. unfold fail_if.
    replace (Revision cur + 1 =? 0) with false by (symmetry; apply Z.eqb_neq; lia). cbn [mbind result_bind].
    by replace (ts <=? 0) with false by (symmetry; apply Z.leb_gt; lia). }
  assert (Hty : doc_typed (MkDocument pad text (wrapu64 (Revision cur + 1)) ts)) by (split; [apply wrapu64_range|by destruct Hts]).
  split_and!; try done.
  - intros q d0. cbn [docs]. intros [[<- <-]|[_ Hl]]%lookup_insert_Some; [|by apply Hw]. split; [done|]. split; [by split|done].
  - unfold grows, doc_at. cbn [docs]. rewrite lookup_insert_eq. cbn [default from_option id]. fold (doc_at w pad) cur.
    rewrite doc_le_lex. cbn [Revision]. rewrite Hrev. lia.
  - unfold Snapshot. rewrite pad_ok. cbn [docs]. by rewrite lookup_insert_eq.
Qed.

(** ** The steps of one client *)

Lemma client_inv_fields h k k' :
  to_client k' = to_client k → pending k' = pending k → session k' = session k → reading k' = reading k →
  cevents k' = cevents k → cws k' = cws k → client_inv h k → client_inv h k'.
Proof.
  intros E1 E2 E3 E4 E5 E6 [I1 I2 I3 I4 I5 I6 I7 I8].
  split; unfold message_ok, state_coming, knows in *; rewrite ?E1, ?E2, ?E3, ?E4, ?E5, ?E6; done.
Qed.

Lemma write_pending_inv h k m : pending k = Some m → client_inv h k → client_inv h (write_pending k m).
Proof.
  intros Hp [I1 I2 I3 I4 I5 I6 I7 I8].
  assert (Hcoming : state_coming h k → state_coming h (write_pending k m)).
  { intros [Hin|Hin]; left; cbn; apply elem_of_app; [by left|right]. rewrite Hp in Hin. injection Hin as ->. by apply list_elem_of_singleton. }
  split; cbn [write_pending to_client pending session reading cevents cws]; try done.
  - intros x [Hx|Hx%list_elem_of_singleton]%elem_of_app; [by apply I1|]. subst x. by apply I2.
  - intros Hs. by apply Hcoming, I3.
  - intros ps Hs. destruct (I4 ps Hs) as (? & ? & ? & ?). split_and!; auto.
Qed.

Lemma push_client_inv h k m : message_ok h m → client_inv h k → client_inv h (push_client m k).
Proof.
  intros Hm [I1 I2 I3 I4 I5 I6 I7 I8].
  assert (Hcoming : state_coming h k → state_coming h (push_client m k)).
  { intros [Hin|Hin]; [left; cbn; apply elem_of_app; by left|by right]. }
  split; cbn [push_client to_client pending session reading cevents cws]; try done.
  - intros x [Hx|Hx%list_elem_of_singleton]%elem_of_app; [by apply I1|]. by subst x.
  - intros Hs. by apply Hcoming, I3.
  - intros ps Hs. destruct (I4 ps Hs) as (? & ? & ? & ?). split_and!; auto.
Qed.

(** A put that was accepted is told to every client. *)
Lemma broadcast_inv h h' k :
  hgeneration h < hgeneration h' → client_inv h k → client_inv h' (push_client (state h') k).
Proof.
  intros Hlt [I1 I2 I3 I4 I5 I6 I7 I8].
  assert (Hold : ∀ m, message_ok h m → message_ok h' m).
  { intros m Hm Ht. destruct (Hm Ht) as [? _]. split; [lia|]. intros E. exfalso. lia. }
  assert (Hnew : state_coming h' (push_client (state h') k)).
  { left. cbn. apply elem_of_app. right. by apply list_elem_of_singleton. }
  split; cbn [push_client to_client pending session reading cevents cws]; try done.
  - intros x [Hx|Hx%list_elem_of_singleton]%elem_of_app; [by apply Hold, I1|]. subst x. apply state_ok.
  - intros m Hp. by apply Hold, I2.
  - intros ps Hs. destruct (I4 ps Hs) as (? & ? & ? & ?). split_and!; auto; lia.
  - intros m Hr. destruct (I5 m Hr) as (Ht & ps & Hs & Hg & _). split; [done|]. exists ps. split; [done|]. split; [done|].
    intros E. exfalso. destruct (I4 ps Hs) as (_ & _ & ? & _). lia.
  - intros ps r d Hs Hg. exfalso. destruct (I4 ps Hs) as (_ & _ & ? & _). lia.
Qed.

Lemma compare_message_inv h k ps m salt nonce :
  session k = Some ps → reading k = Some m → client_inv h k → client_inv h (compare_message k ps m salt nonce).
Proof.
  intros Hs Hr [I1 I2 I3 I4 I5 I6 I7 I8]. destruct (I5 m Hr) as (Ht & ps' & Hs' & Hg & Hst).
  rewrite Hs in Hs'. injection Hs' as <-. destruct (I4 ps Hs) as (Hc & Hp & _).
  unfold compare_message. destruct (readLoop_compare ps m salt nonce (cws k)) as [evs out] eqn:Ec.
  assert (Hevs : (∀ f, EventFrame f ∈ evs → IsDocumentUpdate f = true → doc_typed (Frame_Document f)) ∧
    ∀ r d, MRecord m = Some r → OpenPersistentDocument code pad r = Ok d →
      doc_le d (Snapshot (cws k) pad) ∨ ∃ f, EventFrame f ∈ evs ∧ IsDocumentUpdate f = true ∧ Frame_Document f = d).
  { unfold readLoop_compare in Ec. rewrite Hc, Hp in Ec.
    assert (Hpub : ∀ current, match publishDocument ps salt nonce current with
       | Ok message => ([], Some message) | Err e => ([EventError e], None) end = (evs, out) → ∀ f, EventFrame f ∉ evs).
    { intros current Hpub f. destruct (publishDocument ps salt nonce current); injection Hpub as <- _.
      - by intros ?%not_elem_of_nil.
      - intros Hf%list_elem_of_singleton. discriminate Hf. }
    destruct (MRecord m) as [r|].
    2:{ split; [|done]. destruct (Revision _ >? 0); [intros f Hf; by destruct (Hpub _ Ec f)|].
        injection Ec as <- _. by intros f ?%not_elem_of_nil. }
    destruct (OpenPersistentDocument code pad r) as [d|e] eqn:Eo.
    2:{ injection Ec as <- _. split; [intros f Hf%list_elem_of_singleton; discriminate Hf|]. intros r' d' [= <-]. congruence. }
    destruct (Open_ok code pad r d Eo) as ([Hv Hn] & _ & Hty). set (cur := Snapshot (cws k) pad) in *.
    assert (Hle : compareDocuments d cur ≠ 1 → doc_le d cur).
    { unfold doc_le. destruct (compare_cases d cur) as [[? _]|[[? _]|[? _]]]; lia. }
    destruct (Z.eqb_spec (compareDocuments d cur) 1) as [E1|E1].
    { injection Ec as <- _. set (f := FrameFromDocument _ d).
      assert (Hf : IsDocumentUpdate f = true) by (unfold f, frameTypeForDocument, IsDocumentUpdate; by destruct (String.eqb (Text d) "")).
      assert (Hd : Frame_Document f = d) by by apply FrameFromDocument_Document.
      split; [intros f' Hf'%list_elem_of_singleton _; injection Hf' as ->; by rewrite Hd|].
      intros r' d' [= <-] E. rewrite Eo in E. injection E as <-. right. exists f. split; [by apply list_elem_of_singleton|done]. }
    assert (Hother : ∀ f, EventFrame f ∈ evs → IsDocumentUpdate f = false).
    { destruct (Z.eqb_spec (compareDocuments d cur) (-1)) as [E2|E2]; [intros f Hf; by destruct (Hpub _ Ec f)|].
      injection Ec as <- _. intros f Hf%list_elem_of_singleton. by injection Hf as ->. }
    split; [intros f Hf; by rewrite Hother|]. intros r' d' [= <-] E. rewrite Eo in E. injection E as <-. left. by apply Hle. }
  destruct Hevs as [Hty Hdoc].
  split; cbn [send_server to_client pending session reading cevents cws]; try done.
  - intros ps' r d Hs' Hg' Hrec Ho. rewrite Hs in Hs'. injection Hs' as <-.
    rewrite Hst in Hdoc by congruence. destruct (Hdoc r d) as [?|(f & ? & ?)]; [done|done|by left|].
    right; right. exists f. split; [|done]. cbn. apply elem_of_app. by right.
  - intros f [Hf|Hf]%elem_of_app; [by apply I8|by apply Hty].
Qed.

(** Applying an opened document. *)
Lemma apply_opened r d w c x w' :
  OpenPersistentDocument code pad r = Ok d → ws_ok w → ApplyRemote w d = Ok (c, x, w') →
  ws_ok w' ∧ doc_le d (Snapshot w' pad).
Proof.
  intros Ho Hw Ha. destruct (Open_ok code pad r d Ho) as ([Hv Hn] & Hp & Hty). rewrite pad_ok in Hp.
  split; [by eapply ApplyRemote_ok|]. rewrite Snapshot_le.
  pose proof (ApplyRemote_spec w d) as Hs. rewrite Ha in Hs. destruct Hs as (_ & _ & _ & Hle & _).
  assert (with_pad d (NormalizePad (Pad d)) = d) as Hd by (rewrite Hn; by destruct d).
  by rewrite Hd, Hp in Hle.
Qed.

Lemma sync_inv h k m rest ps applied w out salt nonce :
  hub_ok key h → session k = None → to_client k = m :: rest →
  OpenPersistentSession code pad m = Ok ps → SyncWorkspace ps m salt nonce (cws k) pad = Ok (applied, w, out) →
  client_inv h k → client_inv h (send_server (synced k rest ps w) out).
Proof.
  intros Hh Hs Ht Ho Hsync [I1 I2 I3 I4 I5 I6 I7 I8].
  assert (Hps : validatePersistentState m = Ok tt ∧ ps = MkPSession code pad (Generation m)).
  { unfold OpenPersistentSession in Ho. rewrite code_ok, pad_ok in Ho. cbn [wrap_err mbind result_bind] in Ho.
    destruct (ValidatePad pad) as [[]|]; [|done]. cbn [wrap_err mbind result_bind] in Ho.
    destruct (validatePersistentState m) as [[]|]; [|done]. by injection Ho as <-. }
  destruct Hps as [Hv ->]. apply validatePersistentState_type in Hv.
  assert (Hm : message_ok h m) by (apply I1; rewrite Ht; by left). destruct (Hm Hv) as [Hle Hst].
  assert (Hw : ws_ok w ∧ ∀ r d, MRecord m = Some r → OpenPersistentDocument code pad r = Ok d → doc_le d (Snapshot w pad)).
  { unfold SyncWorkspace in Hsync. cbn [spad scode] in Hsync. rewrite pad_ok, String.eqb_refl in Hsync. cbn [negb fail_if mbind result_bind] in Hsync.
    destruct (MRecord m) as [r|].
    - destruct (OpenPersistentDocument code pad r) as [d|] eqn:Eo; [|done]. cbn [mbind result_bind] in Hsync.
      destruct (ApplyRemote (cws k) d) as [[[c x] w1]|] eqn:Ea; [|done]. cbn [wrap_err mbind result_bind] in Hsync.
      destruct (apply_opened r d (cws k) c x w1 Eo I7 Ea) as [Hok Hd].
      assert (w = w1) as ->; [|split; [done|intros r' d' [= <-] E; rewrite Eo in E; by injection E as <-]].
      destruct (_ && _); [|by injection Hsync]. destruct (publishDocument _ _ _ _); [|done]. by injection Hsync.
    - cbn [mbind result_bind] in Hsync. assert (w = cws k) as ->; [|done].
      destruct (_ && _); [|by injection Hsync]. destruct (publishDocument _ _ _ _); [|done]. by injection Hsync. }
  destruct Hw as [Hwok Hdoc].
  split; cbn [send_server synced to_client pending session reading cevents cws]; try done.
  - intros x Hx. apply I1. rewrite Ht. by right.
  - intros ps' [= <-]. cbn [scode spad sgeneration]. split_and!; try done. intros Hlt.
    destruct (I3 Hs) as [Hin|Hin]; [|by right]. left. rewrite Ht in Hin. cbn.
    apply elem_of_cons in Hin as [<-|Hin]; [cbn in Hlt; lia|done].
  - intros m' Hr. destruct (I5 m' Hr) as (_ & ps' & Hs' & _). congruence.
  - intros ps' r d [= <-] Hg Hrec Hod. cbn in Hg. rewrite Hst in Hdoc by done. left. by apply (Hdoc r d).
Qed.

Lemma consume_inv h k f rest w :
  cevents k = EventFrame f :: rest → consume_frame (cws k) f = Some w →
  client_inv h k → client_inv h (consumed k rest w).
Proof.
  intros He Hf [I1 I2 I3 I4 I5 I6 I7 I8].
  assert (Hw : ws_ok w ∧ grows (cws k) w ∧ ∀ r d, OpenPersistentDocument code pad r = Ok d → IsDocumentUpdate f = true →
    Frame_Document f = d → doc_le d (Snapshot w pad)).
  { unfold consume_frame in Hf. destruct (String.eqb (FType f) FrameUpdate || String.eqb (FType f) FrameClear) eqn:Ef.
    - destruct (ApplyRemote (cws k) (Frame_Document f)) as [[[c x] w1]|] eqn:Ea; [|done]. injection Hf as <-.
      assert (Hty : doc_typed (Frame_Document f)) by (apply I8; [rewrite He; by left|exact Ef]).
      split; [by eapply ApplyRemote_ok|]. split; [by eapply ApplyRemote_grows|].
      intros r d Ho _ Hd. rewrite Hd in Ea. by eapply apply_opened.
    - destruct (String.eqb (FType f) FrameBye); [done|]. injection Hf as <-. split; [done|]. split; [apply doc_le_refl|].
      intros r d _ Hup. unfold IsDocumentUpdate in Hup. congruence. }
  destruct Hw as (Hwok & Hgrow & Hdoc).
  split; cbn [consumed to_client pending session reading cevents cws]; try done.
  - intros ps r d Hs Hg Hrec Ho. destruct (I6 ps r d Hs Hg Hrec Ho) as [Hd|[Hr|(f' & Hin & Hup & Hfd)]].
    + left. cbn [cws]. rewrite Snapshot_le in *. by eapply doc_le_trans.
    + right; by left.
    + rewrite He in Hin. apply elem_of_cons in Hin as [[= ->]|Hin].
      * left. cbn [cws]. by eapply Hdoc.
      * right; right. by exists f'.
  - intros f' Hin. apply I8. rewrite He. by right.
Qed.

Lemma edit_inv h k line now d w f :
  in_int64 now → Revision (doc_at (cws k) pad) < uint64_max → Timestamp (doc_at (cws k) pad) < int64_max →
  edit pad (cws k) line now = Ok (d, w) → client_inv h k → client_inv h (edited k w f).
Proof.
  intros Hn Hr Ht Hed [I1 I2 I3 I4 I5 I6 I7 I8].
  assert (Hup : ws_ok w ∧ grows (cws k) w).
  { unfold edit, Clear in Hed. destruct line as [text|];
      (destruct (Update_grows _ _ _ _ _ I7 Hn Hr Ht Hed) as (? & ? & _); by split). }
  destruct Hup as [Hok Hg].
  split; cbn [edited to_client pending session reading cevents cws]; try done.
  intros ps r d' Hs Hgen Hrec Ho. destruct (I6 ps r d' Hs Hgen Hrec Ho) as [Hd|?]; [left|by right].
  cbn [cws]. rewrite Snapshot_le in *. by eapply doc_le_trans.
Qed.

(** ** The whole system *)

Record sys_inv (s : system) : Prop := {
  si_notes : notes_ok (srv s);
  si_conn : ∀ c k, conns s !! c = Some k → ∃ h, is_current (srv s) (cptr k) = Some h ∧ hkey h = key ∧
    c ∈ hclients h ∧ client_inv h k;
}.

Lemma current_hub_ok s p h : notes_ok s → is_current s p = Some h → hkey h = key → hub_ok key h.
Proof.
  intros Hs [Hp Hk]%is_current_Some Hkey. destruct (no_hub _ Hs _ _ Hk) as (h0 & E & Ho).
  assert (h0 = h) as -> by congruence. by rewrite <- Hkey.
Qed.

(** Only one hub has the key. *)
Lemma current_unique s p q h h' :
  is_current s p = Some h → is_current s q = Some h' → hkey h = hkey h' → p = q ∧ h = h'.
Proof.
  rewrite !is_current_Some. intros [Hp Hk] [Hq Hk'] E. assert (p = q) as <- by congruence. split; [done|congruence].
Qed.

(** A step that touches one client only. *)
Lemma with_conn_inv s c k k' h :
  sys_inv s → conns s !! c = Some k → cptr k' = cptr k →
  is_current (srv s) (cptr k) = Some h → client_inv h k' → sys_inv (with_conn s c k').
Proof.
  intros [Hn Hc] Hk Hp Hh Hi. split; [done|]. cbn [with_conn conns srv]. intros c' k0.
  intros [[<- <-]|[_ Hl]]%lookup_insert_Some; [|by apply Hc].
  destruct (Hc c k Hk) as (h' & Hh' & ? & ? & _). assert (h' = h) as -> by congruence. exists h. by rewrite Hp.
Qed.

Lemma deliver_lookup out ks c :
  deliver out ks !! c = (λ k, foldl (λ k m, push_client m k) k (snd <$> filter (λ x, fst x = c) out)) <$> ks !! c.
Proof.
  revert ks. induction out as [|[c' m] out IH]; intros ks; cbn [deliver foldl].
  { destruct (ks !! c); done. }
  change (foldl _ _ out) with (deliver out (alter (push_client m) c' ks)). rewrite IH, filter_cons. cbn [fst].
  destruct (decide (c' = c)) as [->|Hne].
  - rewrite lookup_alter_eq. destruct (ks !! c); done.
  - rewrite lookup_alter_ne by done. done.
Qed.

(** The generation goes up by one, because a record of generation 0 is not
    written. *)
Lemma written_generation fl randoms h record now w w' :
  notePath cfg key ≠ ""%string → hkey h = key → in_uint64 (hgeneration h) →
  writePersistentNote cfg fl randoms (hkey h) (next_disk cfg h record now) w = (Ok tt, w') →
  hgeneration (next_hub_state cfg h record now) = hgeneration h + 1.
Proof.
  intros Hpath -> Hu. unfold writePersistentNote. destruct (String.eqb_spec (notePath cfg key) "") as [?|_]; [done|].
  intros Hw. apply io_bind_Ok in Hw as ([] & w1 & [Hv _]%lift_Ok & _).
  unfold validatePersistentNoteDiskRecord in Hv. res_inv. bool_prop. cbn in *.
  unfold in_uint64, uint64_max, wrapu64 in *.
  destruct (decide (hgeneration h = 2 ^ 64 - 1)) as [E|E]; [exfalso; rewrite E in *; done|].
  apply Z.mod_small. lia.
Qed.

Hypothesis stored : notePath cfg key ≠ ""%string.

Lemma handle_message_cases fl randoms s p c m now w srv' out w' h :
  notes_ok s → is_current s p = Some h → hkey h = key →
  handle_message cfg fl randoms s p c m now err w = (Ok (srv', out), w') →
  (srv' = s ∧ ∃ x, out = [(c, x)] ∧ message_ok h x ∧
     (MType x = PersistentError ∨ ∃ y, m = Some y ∧ BaseGeneration y ≠ hgeneration h)) ∨
  (∃ h', srv' = set_hub s p h' ∧ out = (λ c, (c, state h')) <$> elements (hclients h) ∧
     hgeneration h' = hgeneration h + 1 ∧ hclients h' = hclients h ∧ hkey h' = key ∧
     hrecord h' = m ≫= MRecord ∧ is_Some (m ≫= MRecord) ∧ (∃ x, m = Some x ∧ BaseGeneration x = hgeneration h)).
Proof.
  intros Hn Hh Hk. unfold handle_message.
  assert (Herr : ∀ text, message_ok h (MkPMessage PersistentError PersistentProtocolVersion 0 0 None text)) by (by intros text [=]).
  destruct m as [m|]; [|intros [= <- <- <-]; left; split; [done|eexists; split_and!; [done|exact (Herr _)|by left]]].
  destruct (ValidateClient m) as [[]|e] eqn:Hv; [|intros [= <- <- <-]; left; split; [done|eexists; split_and!; [done|exact (Herr _)|by left]]].
  unfold mbind at 1, io_bind at 1, attempt at 1.
  pose proof (applyPersistentNote_cases cfg fl randoms s p c m now w h Hh) as Hx.
  destruct (applyPersistentNote _ _ _ _ _ _ _ _ w) as [[[s1 out1]|e] w1];
    [|intros [= <- <- <-]; left; split; [done|eexists; split_and!; [done|exact (Herr _)|by left]]].
  intros [= <- <- <-]. destruct Hx as [(Hne & -> & -> & _)|(Hb & -> & -> & Hw)].
  - left. split; [done|]. eexists. split; [done|]. split; [apply state_ok|]. right. by exists m.
  - right. assert (Hrec : ∃ r, MRecord m = Some r).
    { unfold ValidateClient in Hv. res_inv. destruct (MRecord m) as [r|]; [by exists r|done]. }
    destruct Hrec as [r Hr]. rewrite Hr in Hw |- *. change (default (MkPRecord 0 [] [] []) (Some r)) with r in *.
    pose proof (current_hub_ok s p h Hn Hh Hk) as Hho.
    exists (next_hub_state cfg h r now). split_and!; try done.
    + eapply written_generation; [done|done|apply (ho_gen _ _ Hho)|exact Hw].
    + by exists m.
Qed.

Lemma serve_inv s c k m rest fl randoms now srv' out disk' :
  sys_inv s → conns s !! c = Some k → to_server k = m :: rest →
  handle_message cfg fl randoms (srv s) (cptr k) c m now err (disk s) = (Ok (srv', out), disk') →
  sys_inv (MkSystem srv' disk' (deliver out (<[c := take_served k rest]> (conns s)))).
Proof.
  intros [Hn Hc] Hk Ht Hm. destruct (Hc c k Hk) as (h & Hh & Hkey & Hin & Hi).
  split; [by eapply handle_message_ok|]. cbn [conns srv]. intros c0 k0. rewrite deliver_lookup.
  (* the connection before the writes *)
  assert (Hbefore : ∀ k1, <[c := take_served k rest]> (conns s) !! c0 = Some k1 →
    cptr k1 = cptr k ∧ c0 ∈ hclients h ∧ client_inv h k1).
  { intros k1 [[<- <-]|[_ Hl]]%lookup_insert_Some.
    - split_and!; [done|done|]. by eapply client_inv_fields; [..|exact Hi].
    - destruct (Hc c0 k1 Hl) as (h1 & Hh1 & Hkey1 & Hin1 & Hi1).
      destruct (current_unique _ _ _ _ _ Hh1 Hh) as [-> ->]; [congruence|done]. }
  intros (k1 & (Hp1 & Hin1 & Hi1)%Hbefore & ->)%fmap_Some.
  destruct (handle_message_cases _ _ _ _ _ _ _ _ _ _ _ h Hn Hh Hkey Hm) as [(-> & x & -> & Hx & _)|(h' & -> & -> & Hg & Hcl & Hk' & _)].
  - rewrite filter_cons. cbn [fst]. case_decide; cbn [fmap list_fmap foldl snd filter list_filter].
    + exists h. cbn [push_client cptr]. rewrite Hp1. split_and!; try done. by apply push_client_inv.
    + exists h. rewrite Hp1. by split_and!.
  - rewrite filter_broadcast, decide_True by done. cbn [fmap list_fmap foldl snd]. exists h'.
    cbn [push_client cptr]. rewrite Hp1, Hcl. split_and!; try done.
    + apply is_current_Some in Hh as [Hh1 Hh2]. apply is_current_Some. cbn [set_hub hubs notes].
      rewrite lookup_insert_eq. split; [done|]. rewrite Hk'. by rewrite <- Hkey.
    + eapply broadcast_inv; [|exact Hi1]. lia.
Qed.

(** A join: the hub of the key with the client added, or a new one. *)
Lemma join_spec s c now p m srv' disk' :
  sys_inv s → joinPersistentNote cfg (srv s) key c now (disk s) = (Ok (Ok (p, m), srv'), disk') →
  ∃ h, is_current srv' p = Some h ∧ hkey h = key ∧ c ∈ hclients h ∧ m = state h ∧
    ∀ c' k, conns s !! c' = Some k →
      cptr k = p ∧ ∃ h0, is_current (srv s) p = Some h0 ∧ state h0 = state h ∧ hclients h0 ⊆ hclients h.
Proof.
  intros [Hn Hc] Hj. unfold joinPersistentNote in Hj.
  (* added to a hub that is there *)
  assert (Hex : ∀ q h0, is_current (srv s) q = Some h0 → hkey h0 = key → addPersistentNoteClient (srv s) q h0 c = (Ok (p, m), srv') →
    ∃ h, is_current srv' p = Some h ∧ hkey h = key ∧ c ∈ hclients h ∧ m = state h ∧
      ∀ c' k, conns s !! c' = Some k → cptr k = p ∧ ∃ h0, is_current (srv s) p = Some h0 ∧ state h0 = state h ∧ hclients h0 ⊆ hclients h).
  { intros q h0 Hq Hk0 Ha. unfold addPersistentNoteClient in Ha. destruct (_ >=? _); [done|]. injection Ha as <- <- <-.
    exists (set_clients h0 ({[c]} ∪ hclients h0)). pose proof Hq as [Hq1 Hq2]%is_current_Some.
    split; [apply is_current_Some; cbn [set_hub hubs notes]; rewrite lookup_insert_eq; by split|].
    split; [done|]. split; [cbn; set_solver|]. split; [done|].
    intros c' k Hk. destruct (Hc c' k Hk) as (h1 & Hh1 & Hkey1 & _).
    destruct (current_unique _ _ _ _ _ Hh1 Hq) as [-> ->]; [congruence|]. split; [done|]. exists h0.
    split; [done|]. split; [done|cbn; set_solver]. }
  destruct (join_existing (srv s) key c) as [[r0 s0]|] eqn:Ej.
  - injection Hj as -> -> _. unfold join_existing in Ej. destruct (notes (srv s) !! key) as [q|] eqn:Eq; [|done].
    cbn [mbind option_bind] in Ej. destruct (hubs (srv s) !! q) as [h0|] eqn:Eh; [|done]. cbn [mbind option_bind] in Ej. injection Ej as Ej.
    destruct (no_hub _ Hn _ _ Eq) as (h1 & E1 & Ho). assert (h1 = h0) as -> by congruence.
    eapply (Hex q h0); [apply is_current_Some; by rewrite (ho_key _ _ Ho)|apply (ho_key _ _ Ho)|exact Ej].
  - apply io_bind_Ok in Hj as (loaded & w1 & Hl & Hr). apply mret_Ok in Hr as [Hr _]. unfold join_loaded in Hr. rewrite Ej in Hr.
    assert (Hno2 : notes (srv s) !! key = None).
    { unfold join_existing in Ej. destruct (notes (srv s) !! key) as [q|] eqn:Eq; [|done]. cbn [mbind option_bind] in Ej.
      destruct (no_hub _ Hn _ _ Eq) as (h1 & E1 & _). by rewrite E1 in Ej. }
    set (h := default _ loaded) in *. assert (Hkh : hkey h = key).
    { unfold h. destruct loaded as [h1|]; [by apply loadPersistentNote_hub in Hl as (? & _)|done]. }
    unfold addPersistentNoteClient in Hr. destruct (_ >=? _); [done|]. injection Hr as -> -> ->.
    exists (set_clients h ({[c]} ∪ hclients h)).
    split; [apply is_current_Some; cbn [set_hub hubs notes set_clients hkey]; rewrite lookup_insert_eq; split; [done|]; by rewrite Hkh, lookup_insert_eq|].
    split; [done|]. split; [cbn; set_solver|]. split; [done|].
    intros c' k Hk. exfalso. destruct (Hc c' k Hk) as (h1 & [_ Hh1]%is_current_Some & Hkey1 & _). congruence.
Qed.

Lemma join_inv s c now w p m srv' disk' :
  sys_inv s → conns s !! c = None → ws_ok w →
  joinPersistentNote cfg (srv s) key c now (disk s) = (Ok (Ok (p, m), srv'), disk') →
  sys_inv (MkSystem srv' disk' (<[c := joined p m w]> (conns s))).
Proof.
  intros Hs Hno Hw Hj. pose proof Hs as [Hn Hc].
  split; [eapply server_step_ok; [eapply StepJoin; exact Hj|done]|]. cbn [conns srv].
  destruct (join_spec s c now p m srv' disk' Hs Hj) as (h & Hh & Hkey & Hin & -> & Hothers).
  intros c' k [[<- <-]|[_ Hl]]%lookup_insert_Some.
  - exists h. cbn [joined cptr]. split_and!; try done. split; cbn [joined to_client pending session reading cevents cws]; try done.
    + by intros x ?%not_elem_of_nil.
    + intros x [= <-]. apply state_ok.
    + intros _. by right.
    + by intros f ?%not_elem_of_nil.
  - destruct (Hothers c' k Hl) as (Hp & h0 & Hh0 & Hst & Hsub). destruct (Hc c' k Hl) as (h1 & Hh1 & _ & Hin1 & Hi1).
    rewrite Hp in *. assert (h1 = h0) as -> by congruence. exists h. split_and!; try done.
    + by apply Hsub.
    + by eapply client_inv_ext.
Qed.

(** A client that leaves takes only itself away, and the hub stays for the others. *)
Lemma leave_current s p h c :
  is_current s p = Some h → hclients h ∖ {[c]} ≠ ∅ →
  is_current (leavePersistentNote s p c) p = Some (set_clients h (hclients h ∖ {[c]})).
Proof.
  intros Hh Hne. unfold leavePersistentNote. rewrite Hh. cbn [set_clients hclients].
  rewrite (bool_decide_eq_false_2 (hclients h ∖ {[c]} = ∅)) by done. cbn [andb].
  apply is_current_Some in Hh as [Hh1 Hh2]. apply is_current_Some. cbn [set_hub hubs notes]. by rewrite lookup_insert_eq.
Qed.

Lemma leave_inv s c k :
  sys_inv s → conns s !! c = Some k →
  sys_inv (MkSystem (leavePersistentNote (srv s) (cptr k) c) (disk s) (delete c (conns s))).
Proof.
  intros [Hn Hc] Hk. split; [by apply leavePersistentNote_ok|]. cbn [conns srv].
  destruct (Hc c k Hk) as (h & Hh & Hkey & _).
  intros c' k' [Hne Hl]%lookup_delete_Some. destruct (Hc c' k' Hl) as (h' & Hh' & Hkey' & Hin & Hi).
  destruct (current_unique _ _ _ _ _ Hh' Hh) as [E ->]; [congruence|]. rewrite E.
  assert (Hin' : c' ∈ hclients h ∖ {[c]}) by set_solver.
  eexists. split; [apply leave_current; [done|]; intros Hno; by rewrite Hno in Hin'|].
  split_and!; [done|done|]. by eapply client_inv_ext; [|exact Hi].
Qed.

(** The expiry leaves a hub that has clients alone. *)
Lemma cleanup_hub_current s q now w s' w' p h :
  cleanup_hub cfg s q now w = (Ok s', w') → is_current s p = Some h → hclients h ≠ ∅ → is_current s' p = Some h.
Proof.
  unfold cleanup_hub. destruct (is_current s q) as [h'|] eqn:Hq; [|by intros [= <- _]].
  destruct (hub_expired h' now) eqn:He; [|by intros [= <- _]]. intros Hc. cbv zeta in Hc.
  apply io_bind_Ok in Hc as (u & w1 & _ & Hr). apply mret_Ok in Hr as [-> _].
  intros Hp Hne. pose proof Hp as [Hp1 Hp2]%is_current_Some. pose proof Hq as [Hq1 Hq2]%is_current_Some.
  apply is_current_Some. cbn [hubs notes]. split; [done|]. rewrite lookup_delete_ne; [done|]. intros E.
  destruct (current_unique _ _ _ _ _ Hp Hq) as [_ ->]; [done|].
  unfold hub_expired in He. rewrite bool_decide_eq_false_2 in He by done. done.
Qed.

Lemma cleanup_hubs_current ps now s w s' w' p h :
  cleanup_hubs cfg s ps now w = (Ok s', w') → is_current s p = Some h → hclients h ≠ ∅ → is_current s' p = Some h.
Proof.
  revert s w. induction ps as [|q ps IH]; intros s w; cbn [cleanup_hubs].
  - by intros [= <- _].
  - intros (s1 & w1 & Hq & Hps)%io_bind_Ok Hp Hne. eapply IH; [exact Hps| |done]. by eapply cleanup_hub_current.
Qed.

Lemma cleanup_inv s now srv' disk' :
  sys_inv s → cleanupPersistentNotes cfg (srv s) now (disk s) = (Ok srv', disk') →
  sys_inv (MkSystem srv' disk' (conns s)).
Proof.
  intros [Hn Hc] Hcl. split; [eapply server_step_ok; [eapply (StepCleanup cfg); exact Hcl|done]|]. cbn [conns srv].
  apply io_bind_Ok in Hcl as (s1 & w1 & Hcl & Hr). apply io_bind_Ok in Hr as (u & w2 & _ & Hr). apply mret_Ok in Hr as [-> _].
  intros c k Hk. destruct (Hc c k Hk) as (h & Hh & Hkey & Hin & Hi). exists h.
  split; [|done]. eapply cleanup_hubs_current; [exact Hcl|done|]. intros E. by rewrite E in Hin.
Qed.

Lemma step_inv s s' : step cfg code pad key err s s' → sys_inv s → sys_inv s'.
Proof.
  intros Hst Hs. pose proof Hs as [Hn Hc].
  destruct Hst as [c now w p m srv' disk' Hno Hw Hj|c k m Hk Hp|c k m rest ps applied w out salt nonce Hk Hse Ht Ho Hsy
    |c k ps m rest Hk Hse Hr Ht|c k ps m salt nonce Hk Hse Hr|c k f rest w Hk Hob Hev Hf|c k ps line now d w Hk Hse Hob Hnow Hrev Hts Hed
    |c k ps f salt nonce m Hk Hse Hob Hm|c k m rest fl randoms now srv' out disk' Hk Ht Hm|c k m Hk|c k Hk|now srv' disk' Hcl];
    try (destruct (Hc c k Hk) as (h & Hh & Hkey & Hin & Hi)).
  - by eapply join_inv.
  - eapply with_conn_inv; [done..|]. by apply write_pending_inv.
  - eapply with_conn_inv; [done..|]. eapply sync_inv; [by eapply current_hub_ok|done..].
  - eapply with_conn_inv; [done|done| |done|eapply read_message_inv; [by eapply current_hub_ok|done..]].
    unfold read_message. by destruct (readLoop_accept ps m).
  - eapply with_conn_inv; [done|done| |done|by apply compare_message_inv].
    unfold compare_message. by destruct (readLoop_compare _ _ _ _ _).
  - eapply with_conn_inv; [done..|]. by eapply consume_inv.
  - eapply with_conn_inv; [done..|]. by eapply edit_inv.
  - eapply with_conn_inv; [done..|]. eapply client_inv_fields; [..|exact Hi]; done.
  - by eapply serve_inv.
  - eapply with_conn_inv; [done..|]. eapply client_inv_fields; [..|exact Hi]; done.
  - by eapply leave_inv.
  - by eapply cleanup_inv.
Qed.

Lemma reach_inv s0 s : system_start s0 → rtc (step cfg code pad key err) s0 s → sys_inv s.
Proof.
  intros [Hsrv Hno] Hr. assert (Hi : sys_inv s0).
  { split; [by rewrite Hsrv|]. rewrite Hno. by intros c k ?%lookup_empty_Some. }
  clear Hsrv Hno. induction Hr as [|s1 s2 s3 Hst _ IH]; [done|]. by apply IH; eapply step_inv.
Qed.

(** C21: a client that has read everything it was sent is not behind the
    service.  Whatever clients join, edit, send, forge, leave, in whatever order
    the readers and callers take their steps, whatever the disk does and whenever
    the expiry runs: when nothing more is on its way to a client, its session is
    at the generation of the notepad on the service, and its workspace holds that
    document or a greater one. *)
Theorem client_catches_up s0 s c k ps :
  system_start s0 → rtc (step cfg code pad key err) s0 s →
  conns s !! c = Some k → session k = Some ps →
  to_client k = [] → pending k = None → reading k = None → cevents k = [] →
  ∃ h, notes (srv s) !! key = Some (cptr k) ∧ hubs (srv s) !! cptr k = Some h ∧ sgeneration ps = hgeneration h ∧
    ∀ r d, hrecord h = Some r → OpenPersistentDocument code pad r = Ok d → doc_le d (Snapshot (cws k) pad).
Proof.
  intros Hstart Hr Hk Hs Ht Hp Hrd He. destruct (reach_inv s0 s Hstart Hr) as [_ Hc].
  destruct (Hc c k Hk) as (h & [Hh1 Hh2]%is_current_Some & Hkey & _ & Hi). exists h. rewrite Hkey in Hh2.
  destruct (ci_session h k Hi ps Hs) as (_ & _ & Hle & Hlt).
  assert (Hg : sgeneration ps = hgeneration h).
  { destruct (decide (sgeneration ps < hgeneration h)) as [Hl|]; [|lia]. destruct (Hlt Hl) as [Hin|Hin].
    - rewrite Ht in Hin. by apply not_elem_of_nil in Hin.
    - congruence. }
  split_and!; try done. intros r d Hrec Ho. destruct (ci_doc h k Hi ps r d Hs Hg Hrec Ho) as [?|[?|(f & Hf & _)]]; [done|congruence|].
  rewrite He in Hf. by apply not_elem_of_nil in Hf.
Qed.
End invariant.

(** ** Runs

    A schedule of actions is executed step by step. *)

Inductive action :=
  | ActJoin (c : client_id) (now : Z)
  | ActWriteInitial (c : client_id)
  | ActSync (c : client_id) (salt nonce : bytes)
  | ActRead (c : client_id)
  | ActCompare (c : client_id) (salt nonce : bytes)
  | ActConsume (c : client_id)
  | ActEdit (c : client_id) (line : option string) (now : Z)
  | ActSend (c : client_id) (salt nonce : bytes)
  | ActServe (c : client_id) (now : Z) (randoms : list string)
  | ActForge (c : client_id) (m : option PersistentMessage)
  | ActLeave (c : client_id).

Section run.
Context `{CaseTables} `{Crypto} `{DocumentJSON} `{DiskJSON}.
Context (cfg : noteConfig) (code pad key : string) (err : server_error + persistent_error → string).

Definition act (s : system) (a : action) : option system :=
  match a with
  | ActJoin c now =>
      match conns s !! c, joinPersistentNote cfg (srv s) key c now (disk s) with
      | None, (Ok (Ok (p, m), srv'), disk') => Some (MkSystem srv' disk' (<[c := joined p m NewWorkspace]> (conns s)))
      | _, _ => None
      end
  | ActWriteInitial c => k ← conns s !! c; m ← pending k; Some (with_conn s c (write_pending k m))
  | ActSync c salt nonce =>
      k ← conns s !! c;
      match session k, to_client k with
      | None, m :: rest =>
          match OpenPersistentSession code pad m with
          | Ok ps => match SyncWorkspace ps m salt nonce (cws k) pad with
                     | Ok (_, w, out) => Some (with_conn s c (send_server (synced k rest ps w) out))
                     | Err _ => None
                     end
          | Err _ => None
          end
      | _, _ => None
      end
  | ActRead c =>
      k ← conns s !! c; ps ← session k;
      match reading k, to_client k with
      | None, m :: rest => Some (with_conn s c (read_message k ps m rest))
      | _, _ => None
      end
  | ActCompare c salt nonce =>
      k ← conns s !! c; ps ← session k; m ← reading k; Some (with_conn s c (compare_message k ps m salt nonce))
  | ActConsume c =>
      k ← conns s !! c;
      match outbox k, cevents k with
      | None, EventFrame f :: rest => w ← consume_frame (cws k) f; Some (with_conn s c (consumed k rest w))
      | _, _ => None
      end
  | ActEdit c line now =>
      k ← conns s !! c; _ ← session k;
      match outbox k, edit pad (cws k) line now with
      | None, Ok (d, w) =>
          if bool_decide (int64_min ≤ now ≤ int64_max) && bool_decide (Revision (doc_at (cws k) pad) < uint64_max)
             && bool_decide (Timestamp (doc_at (cws k) pad) < int64_max)
          then Some (with_conn s c (edited k w (Some (edit_frame line d)))) else None
      | _, _ => None
      end
  | ActSend c salt nonce =>
      k ← conns s !! c; ps ← session k; f ← outbox k;
      match PersistentSession_Send ps salt nonce f with
      | Ok (Published m) => Some (with_conn s c (send_server (edited k (cws k) None) (Some m)))
      | _ => None
      end
  | ActServe c now randoms =>
      k ← conns s !! c;
      match to_server k with
      | m :: rest =>
          match handle_message cfg no_faults randoms (srv s) (cptr k) c m now err (disk s) with
          | (Ok (srv', out), disk') => Some (MkSystem srv' disk' (deliver out (<[c := take_served k rest]> (conns s))))
          | _ => None
          end
      | [] => None
      end
  | ActForge c m => k ← conns s !! c; Some (with_conn s c (take_served k (to_server k ++ [m])))
  | ActLeave c => k ← conns s !! c; Some (MkSystem (leavePersistentNote (srv s) (cptr k) c) (disk s) (delete c (conns s)))
  end.

Lemma act_step s a s' : act s a = Some s' → step cfg code pad key err s s'.
Proof.
  destruct a as [c now|c|c salt nonce|c|c salt nonce|c|c line now|c salt nonce|c now randoms|c m|c]; cbn [act]; intros Ha.
  { destruct (conns s !! c) eqn:Hk; [done|]. destruct (joinPersistentNote _ _ _ _ _ _) as [[[[[p m]|e] srv']|e] disk'] eqn:Ej; try done.
    injection Ha as <-. eapply SysJoin; [done| |exact Ej]. intros q d Hl. discriminate Hl. }
  all: apply bind_Some in Ha as (k & Hk & Ha).
  - apply bind_Some in Ha as (m & Hp & [= <-]). by apply SysWriteInitial.
  - destruct (session k) eqn:Hs; [done|]. destruct (to_client k) as [|m rest] eqn:Ht; [done|].
    destruct (OpenPersistentSession code pad m) as [ps|] eqn:Ho; [|done].
    destruct (SyncWorkspace _ _ _ _ _ _) as [[[applied w] out]|] eqn:Hsy; [|done]. injection Ha as <-. by eapply SysSync.
  - apply bind_Some in Ha as (ps & Hs & Ha). destruct (reading k) eqn:Hr; [done|].
    destruct (to_client k) as [|m rest] eqn:Ht; [done|]. injection Ha as <-. by eapply SysRead.
  - apply bind_Some in Ha as (ps & Hs & Ha). apply bind_Some in Ha as (m & Hr & [= <-]). by eapply SysCompare.
  - destruct (outbox k) eqn:Hb; [done|]. destruct (cevents k) as [|[f|e] rest] eqn:He; try done.
    apply bind_Some in Ha as (w & Hf & [= <-]). by eapply SysConsume.
  - apply bind_Some in Ha as (ps & Hs & Ha). destruct (outbox k) eqn:Hb; [done|].
    destruct (edit pad (cws k) line now) as [[d w]|] eqn:He; [|done]. case_if; [|done]. injection Ha as <-. bool_prop.
    by eapply SysEdit.
  - apply bind_Some in Ha as (ps & Hs & Ha). apply bind_Some in Ha as (f & Hb & Ha).
    destruct (PersistentSession_Send _ _ _ _) as [[m| |]|] eqn:Hm; try done. injection Ha as <-. by eapply SysSend.
  - destruct (to_server k) as [|m rest] eqn:Ht; [done|].
    destruct (handle_message _ _ _ _ _ _ _ _ _ _) as [[[srv' out]|e] disk'] eqn:Hm; [|done]. injection Ha as <-. by eapply SysServe.
  - injection Ha as <-. by apply SysForge.
  - injection Ha as <-. by apply SysLeave.
Qed.

Definition run (s : system) (acts : list action) : option system := foldl (fun s a => s ≫= fun s => act s a) (Some s) acts.

Lemma acts_steps s acts s' : run s acts = Some s' → rtc (step cfg code pad key err) s s'.
Proof.
  unfold run. revert s. induction acts as [|a acts IH]; intros s; cbn [foldl]; [by intros [= <-]|].
  cbn [mbind option_bind]. destruct (act s a) as [s1|] eqn:E.
  - intros Hr. eapply rtc_l; [by eapply act_step|by apply IH].
  - intros Hr. exfalso. revert Hr. clear. induction acts as [|a acts IH]; [done|]. cbn [foldl mbind option_bind]. done.
Qed.
End run.

(** ** An example

    Two clients; the first writes a document, which the reader of the second
    accepts and hands to its caller. *)

Definition document_fields (d : Document) : list bytes :=
  [to_bytes (Pad d); to_bytes (Text d); num_field (Revision d); num_field (Timestamp d)].
Definition fields_document (l : list bytes) : option Document :=
  match l with
  | [p; t; r; s] => r ← field_num r; s ← field_num s; Some (MkDocument (of_bytes p) (of_bytes t) r s)
  | _ => None
  end.
Lemma document_fields_law d : fields_document (document_fields d) = Some d.
Proof. destruct d. unfold document_fields, fields_document. cbn. rewrite !field_num_field. cbn. by rewrite !string_of_list_ascii_of_string. Qed.

#[export] Instance document_faithful_dec d : Decision (document_faithful d).
Proof. unfold document_faithful, doc_typed, in_uint64, in_int64. apply _. Defined.

Definition unmarshal_document (b : bytes) : option Document :=
  d ← fields_document (dec_fields [] b); if decide (document_faithful d) then Some d else None.

Lemma unmarshal_document_law d : document_faithful d → unmarshal_document (enc_fields (document_fields d)) = Some d.
Proof.
  intros Hd. unfold unmarshal_document. rewrite dec_enc_fields, document_fields_law. cbn [mbind option_bind].
  by rewrite decide_True.
Qed.

Lemma unmarshal_document_faithful b d : unmarshal_document b = Some d → document_faithful d.
Proof. unfold unmarshal_document. destruct (fields_document _); [|done]. cbn [mbind option_bind]. case_decide; [|done]. by intros [= <-]. Qed.

Definition demo_document_json : DocumentJSON := {|
  document_json := {| Marshal d := enc_fields (document_fields d); Unmarshal := unmarshal_document; Unmarshal_Marshal := unmarshal_document_law |};
  document_decoded := unmarshal_document_faithful;
|}.

Definition demo_start : system := MkSystem empty_server demo_note_fs ∅.
Definition demo_salt : bytes := replicate 16 "s"%char.
Definition demo_nonce : bytes := replicate 12 "n"%char.

Definition demo_run (acts : list action) : option system :=
  let Ht := ascii_tables in let Hc := fixed_crypto in let Hj := demo_document_json in let Hd := demo_disk_json in
  run demo_note_cfg "AB2C3D" "main" "k" (fun _ => "refused"%string) demo_start acts.

Definition alice : client_id := 1%nat.
Definition bob : client_id := 2%nat.
Definition carol : client_id := 3%nat.

Definition one_edit : list action :=
  [ActJoin alice demo_now; ActWriteInitial alice; ActSync alice demo_salt demo_nonce;
   ActJoin bob demo_now; ActWriteInitial bob; ActSync bob demo_salt demo_nonce;
   ActEdit alice (Some "hi"%string) 100; ActSend alice demo_salt demo_nonce; ActServe alice demo_now ["17"%string]].
Definition one_read (c : client_id) : list action :=
  [ActRead c; ActCompare c demo_salt demo_nonce; ActConsume c].


(** Nothing is on its way to the client, and it has nothing left to do. *)
Definition idle (k : conn) : Prop :=
  to_client k = [] ∧ to_server k = [] ∧ pending k = None ∧ reading k = None ∧ cevents k = [] ∧ outbox k = None.
#[export] Instance idle_dec k : Decision (idle k).
Proof. unfold idle. apply _. Defined.

(** The state after a schedule. *)
Definition demo_state (acts : list action) : system := default demo_start (demo_run acts).
Definition is_some {A} (o : option A) : bool := match o with Some _ => true | None => false end.

Lemma demo_state_steps acts :
  is_some (demo_run acts) = true →
  let Ht := ascii_tables in let Hc := fixed_crypto in let Hj := demo_document_json in let Hd := demo_disk_json in
  rtc (step demo_note_cfg "AB2C3D" "main" "k" (fun _ => "refused"%string)) demo_start (demo_state acts).
Proof. unfold demo_state. destruct (demo_run acts) as [s|] eqn:E; [|done]. intros _. by eapply acts_steps. Qed.

(** A client that is idle at generation [g] and shows [d]. *)
Definition at_rest (s : system) (c : client_id) (g : Z) (d : Document) : bool :=
  match conns s !! c with
  | Some k => bool_decide (idle k) && bool_decide (Snapshot (cws k) "main" = d)
      && match session k with Some ps => sgeneration ps =? g | None => false end
  | None => false
  end.

Lemma at_rest_spec s c g d : at_rest s c g d = true →
  ∃ k ps, conns s !! c = Some k ∧ session k = Some ps ∧ sgeneration ps = g ∧ idle k ∧ Snapshot (cws k) "main" = d.
Proof.
  unfold at_rest. destruct (conns s !! c) as [k|]; [|done]. destruct (session k) as [ps|] eqn:E; intros ?; bool_prop; [|done].
  exists k, ps. by split_and!.
Qed.

Definition demo_hi : Document := MkDocument "main" "hi" 1 100.
Definition demo_late : Document := MkDocument "main" "late" 1 50.

Lemma client_catches_up_witness :
  let Ht := ascii_tables in let Hc := fixed_crypto in let Hj := demo_document_json in let Hd := demo_disk_json in
  let s := demo_state (one_edit ++ one_read bob) in
  ∃ k h, conns s !! bob = Some k ∧ hubs (srv s) !! cptr k = Some h ∧ hgeneration h = 1 ∧ Snapshot (cws k) "main" = demo_hi.
Proof.
  intros Ht Hc Hj Hd s.
  assert (Hrun : is_some (demo_run (one_edit ++ one_read bob)) = true) by (vm_compute; reflexivity).
  assert (Hrest : at_rest s bob 1 demo_hi = true) by (vm_compute; reflexivity).
  apply at_rest_spec in Hrest as (k & ps & Hk & Hs & Hg & (I1 & I2 & I3 & I4 & I5 & I6) & Hd1).
  assert (Hcode : ValidateCode "AB2C3D" = Ok "AB2C3D"%string) by (vm_compute; reflexivity).
  assert (Hpad : NormalizePad "main" = "main"%string) by (vm_compute; reflexivity).
  assert (Hpath : notePath demo_note_cfg "k" ≠ ""%string) by (vm_compute; discriminate).
  assert (Hstart : system_start demo_start) by (split; reflexivity).
  destruct (client_catches_up demo_note_cfg "AB2C3D" "main" "k" (fun _ => "refused"%string) Hcode Hpad Hpath
    demo_start s bob k ps Hstart (demo_state_steps _ Hrun) Hk Hs I1 I3 I4 I5) as (h & _ & Hh & Hgen & _).
  exists k, h. split; [exact Hk|]. split; [exact Hh|]. split; [rewrite <- Hgen; exact Hg|exact Hd1].
Defined.

(** The reader makes a newer record's generation its own before the caller has
    applied the document, so an edit made in between is put on top of that
    record although its document is smaller.  Alice, whose clock is ahead,
    writes and leaves; Bob's reader accepts the record, Bob edits, and only then
    is Alice's document applied.  The service keeps Bob's edit, Bob shows Alice's
    document, Carol joins and shows Bob's edit, and no message is left that would
    make them agree. *)
Definition overwritten : list action :=
  one_edit ++ [ActLeave alice; ActRead bob; ActCompare bob demo_salt demo_nonce;
    ActEdit bob (Some "late"%string) 50; ActSend bob demo_salt demo_nonce; ActServe bob demo_now ["18"%string];
    ActRead bob; ActCompare bob demo_salt demo_nonce; ActConsume bob; ActConsume bob;
    ActJoin carol demo_now; ActWriteInitial carol; ActSync carol demo_salt demo_nonce].

Lemma overwritten_diverges :
  let Ht := ascii_tables in let Hc := fixed_crypto in let Hj := demo_document_json in let Hd := demo_disk_json in
  let s := demo_state overwritten in
  rtc (step demo_note_cfg "AB2C3D" "main" "k" (fun _ => "refused"%string)) demo_start s ∧
  dom (conns s) = {[ bob; carol ]} ∧ at_rest s bob 2 demo_hi = true ∧ at_rest s carol 2 demo_late = true.
Proof.
  intros Ht Hc Hj Hd s. split; [|split; [|split; vm_compute; reflexivity]].
  - apply demo_state_steps. vm_compute. reflexivity.
  - apply (bool_decide_eq_true_1 _). vm_compute. reflexivity.
Qed.
