(* ===== verification/NoteConverge.v ===== *)
(** * Convergence of a persistent notepad

    The clients of [NoteSync] under the assumption that each does one thing at a
    time: reading a message, comparing it and applying what comes of it are one
    step, and so are an edit and its publication.  Such runs are runs of the full
    system; in them, once nothing is on its way any more, every client shows the
    same document, the one the service keeps. *)
From Stdlib Require Import ZArith Lia Ascii String.
From stdpp Require Import base tactics numbers list gmap strings relations.
From S2P Require Import Prelude GoStrings Json FileSystem AtomicFile Secure NoteDocument PersistentNote NoteServer NoteSync.

Section atomic.
Context `{CaseTables} `{Crypto} `{DocumentJSON} `{DiskJSON}.
Context (cfg : noteConfig) (code pad key : string) (err : server_error + persistent_error → string).

(** After the reader has taken a message: it is compared and the event handled. *)
Definition absorb (k : conn) (ps : PersistentSession) (salt nonce : bytes) : option conn :=
  match reading k with
  | None => Some k
  | Some m =>
      let k := compare_message k ps m salt nonce in
      match cevents k with
      | EventFrame f :: rest => w ← consume_frame (cws k) f; Some (consumed k rest w)
      | _ => Some k
      end
  end.

(** The session after the message. *)
Definition accepted (k : conn) (ps : PersistentSession) : PersistentSession := default ps (session k).

Inductive atomic (s : system) : system → Prop :=
  | AtJoin c now w p m srv' disk' :
      conns s !! c = None → ws_ok w → utf8_valid (Text (Snapshot w pad)) = true →
      joinPersistentNote cfg (srv s) key c now (disk s) = (Ok (Ok (p, m), srv'), disk') →
      atomic s (MkSystem srv' disk' (<[c := joined p m w]> (conns s)))
  | AtWriteInitial c k m :
      conns s !! c = Some k → pending k = Some m → atomic s (with_conn s c (write_pending k m))
  | AtSync c k m rest ps applied w out salt nonce :
      conns s !! c = Some k → session k = None → to_client k = m :: rest →
      OpenPersistentSession code pad m = Ok ps → SyncWorkspace ps m salt nonce (cws k) pad = Ok (applied, w, out) →
      atomic s (with_conn s c (send_server (synced k rest ps w) out))
  | AtRead c k ps m rest salt nonce k' :
      conns s !! c = Some k → session k = Some ps → to_client k = m :: rest → cevents k = [] →
      absorb (read_message k ps m rest) (accepted (read_message k ps m rest) ps) salt nonce = Some k' →
      atomic s (with_conn s c k')
  | AtEdit c k ps line now d w salt nonce m :
      conns s !! c = Some k → session k = Some ps → cevents k = [] → in_int64 now →
      Revision (doc_at (cws k) pad) < uint64_max → Timestamp (doc_at (cws k) pad) < int64_max →
      edit pad (cws k) line now = Ok (d, w) → utf8_valid (Text d) = true →
      PersistentSession_Send ps salt nonce (edit_frame line d) = Ok (Published m) →
      atomic s (with_conn s c (send_server (edited k w None) (Some m)))
  | AtServe c k m rest fl randoms now srv' out disk' :
      conns s !! c = Some k → to_server k = m :: rest →
      handle_message cfg fl randoms (srv s) (cptr k) c m now err (disk s) = (Ok (srv', out), disk') →
      atomic s (MkSystem srv' disk' (deliver out (<[c := take_served k rest]> (conns s))))
  | AtLeave c k :
      conns s !! c = Some k →
      atomic s (MkSystem (leavePersistentNote (srv s) (cptr k) c) (disk s) (delete c (conns s)))
  | AtCleanup now srv' disk' :
      cleanupPersistentNotes cfg (srv s) now (disk s) = (Ok srv', disk') →
      atomic s (MkSystem srv' disk' (conns s)).

(** Between such steps no client is in the middle of anything. *)
Definition resting (s : system) : Prop :=
  ∀ c k, conns s !! c = Some k → reading k = None ∧ outbox k = None.

Lemma with_conn_twice s c k1 k2 : with_conn (with_conn s c k1) c k2 = with_conn s c k2.
Proof. unfold with_conn. cbn [conns srv disk]. by rewrite insert_insert_eq. Qed.

Lemma read_message_fields k ps m rest :
  let k' := read_message k ps m rest in
  session k' = Some (accepted k' ps) ∧ outbox k' = outbox k ∧ cws k' = cws k ∧ to_server k' = to_server k ∧
  to_client k' = rest ∧ pending k' = pending k ∧ cptr k' = cptr k.
Proof. unfold read_message, accepted. by destruct (readLoop_accept ps m). Qed.

Lemma compare_message_fields k ps m salt nonce :
  let k' := compare_message k ps m salt nonce in
  session k' = session k ∧ outbox k' = outbox k ∧ reading k' = None ∧ cws k' = cws k ∧ to_client k' = to_client k ∧
  pending k' = pending k ∧ cptr k' = cptr k.
Proof. unfold compare_message. by destruct (readLoop_compare ps m salt nonce (cws k)). Qed.

(** Each step is a short run of the full system. *)
Lemma atomic_steps s s' : resting s → atomic s s' → rtc (step cfg code pad key err) s s'.
Proof.
  intros Hrest Hst.
  destruct Hst as [c now w p m srv' disk' Hno Hw _ Hj|c k m Hk Hp|c k m rest ps applied w out salt nonce Hk Hse Ht Ho Hsy
    |c k ps m rest salt nonce k' Hk Hse Ht Hev Ha|c k ps line now d w salt nonce m Hk Hse Hev Hnow Hrev Hts Hed _ Hm
    |c k m rest fl randoms now srv' out disk' Hk Ht Hm|c k Hk|now srv' disk' Hcl].
  - apply rtc_once. by eapply SysJoin.
  - apply rtc_once. by apply SysWriteInitial.
  - apply rtc_once. by eapply SysSync.
  - destruct (Hrest c k Hk) as [Hr Hob]. set (k1 := read_message k ps m rest) in *.
    destruct (read_message_fields k ps m rest) as (Hs1 & Ho1 & _). fold k1 in Hs1, Ho1.
    apply rtc_l with (with_conn s c k1); [by eapply SysRead|]. unfold absorb in Ha.
    destruct (reading k1) as [m1|] eqn:Er; [|by injection Ha as <-].
    set (k2 := compare_message k1 _ _ salt nonce) in *.
    destruct (compare_message_fields k1 (accepted k1 ps) m1 salt nonce) as (Hs2 & Ho2 & _). fold k2 in Hs2, Ho2.
    apply rtc_l with (with_conn s c k2).
    { rewrite <- (with_conn_twice s c k1 k2). eapply SysCompare; [apply lookup_insert_eq|done|done]. }
    destruct (cevents k2) as [|[f|e] fs] eqn:Ee; [by injection Ha as <-| |by injection Ha as <-].
    destruct (consume_frame (cws k2) f) as [w|] eqn:Ef; [|done]. injection Ha as <-.
    rewrite <- (with_conn_twice s c k2 (consumed k2 fs w)). apply rtc_once. eapply SysConsume; [apply lookup_insert_eq|congruence|done|done].
  - destruct (Hrest c k Hk) as [Hr Hob]. set (k1 := edited k w (Some (edit_frame line d))).
    apply rtc_l with (with_conn s c k1); [by eapply SysEdit|]. rewrite <- (with_conn_twice s c k1 (send_server (edited k w None) (Some m))). apply rtc_once.
    change (edited k w None) with (edited k1 (cws k1) None). eapply SysSend; [apply lookup_insert_eq|done..].
  - apply rtc_once. by eapply SysServe.
  - apply rtc_once. by apply SysLeave.
  - apply rtc_once. by eapply SysCleanup.
Qed.
End atomic.

(** ** Every document is covered *)

Section covered.
Context `{CaseTables} `{Crypto} `{DocumentJSON} `{DiskJSON}.
Context (cfg : noteConfig) (code pad key : string) (err : server_error + persistent_error → string).
Hypothesis code_ok : ValidateCode code = Ok code.
Hypothesis pad_ok : NormalizePad pad = pad.
Hypothesis pad_text : utf8_valid pad = true.
Hypothesis stored : notePath cfg key ≠ ""%string.

Local Abbreviation state h := (persistentNoteStateLocked h).
Local Abbreviation here k := (Snapshot (cws k) pad).

(** An error is on its way to the client or has reached it. *)
Definition failed (k : conn) : Prop :=
  (∃ m, m ∈ to_client k ∧ MType m = PersistentError) ∨ ∃ e, EventError e ∈ cevents k.

(** The record opens to a document as great as [d]. *)
Definition holds (r : option PersistentRecord) (d : Document) : Prop :=
  ∃ r' d', r = Some r' ∧ OpenPersistentDocument code pad r' = Ok d' ∧ doc_le d d'.

(** The client's document is not forgotten: the service has it, or a put of it
    on the current generation is on its way, or a newer generation will be
    compared with it. *)
Definition covered (h : persistentNoteHub) (k : conn) : Prop :=
  ∀ ps, session k = Some ps →
    failed k ∨ sgeneration ps < hgeneration h ∨ Revision (here k) = 0 ∨ holds (hrecord h) (here k) ∨
    ∃ m, Some m ∈ to_server k ∧ BaseGeneration m = sgeneration ps ∧ holds (MRecord m) (here k).

Record at_inv (h : persistentNoteHub) (k : conn) : Prop := {
  at_idle : reading k = None ∧ outbox k = None;
  at_text : utf8_valid (Text (here k)) = true;
  at_covered : covered h k;
}.

Lemma Snapshot_typed w : ws_ok w → doc_typed (Snapshot w pad) ∧ Pad (Snapshot w pad) = pad.
Proof using pad_ok.
  intros Hw. unfold Snapshot. rewrite pad_ok. destruct (docs w !! pad) as [d|] eqn:E; [|done].
  apply Hw in E as (? & _ & ?). done.
Qed.

(** A published document can be opened again. *)
Lemma publish_holds ps salt nonce d m :
  scode ps = code → doc_typed d → Pad d = pad → utf8_valid (Text d) = true →
  publishDocument ps salt nonce d = Ok m → BaseGeneration m = sgeneration ps ∧ holds (MRecord m) d.
Proof using pad_ok pad_text.
  intros Hc Hty Hp Hu. unfold publishDocument. rewrite Hp, pad_ok.
  assert (Hd : with_pad d pad = d) by (rewrite <- Hp; by destruct d). rewrite Hd.
  destruct (negb _); [done|]. cbn [fail_if mbind result_bind]. rewrite Hc.
  destruct (SealPersistentDocument salt nonce code d) as [r|] eqn:Es; [|done]. cbn [mbind result_bind]. intros [= <-].
  split; [done|]. exists r, d. split; [done|]. split; [|apply doc_le_refl].
  pose proof (Open_Seal salt nonce code code d pad r Es eq_refl) as Ho. rewrite Hp, pad_ok, Hd in Ho.
  apply Ho; [done|]. split; [done|]. by rewrite Hp.
Qed.

(** The document after an opened one was applied. *)
Lemma apply_shows w d r c x w' :
  ws_ok w → OpenPersistentDocument code pad r = Ok d → ApplyRemote w d = Ok (c, x, w') →
  Snapshot w' pad = (if compareDocuments d (Snapshot w pad) <=? 0 then Snapshot w pad else d).
Proof using pad_ok.
  intros Hw Ho. destruct (Open_ok code pad r d Ho) as ([Hv Hn] & Hp & _). rewrite pad_ok in Hp.
  assert (Hd : with_pad d pad = d) by (rewrite <- Hp; by destruct d).
  unfold ApplyRemote. rewrite Hn, Hp, Hd, Hv, Hp. cbn [mbind result_bind].
  assert (Hcmp : compareDocuments d (Snapshot w pad) = compareDocuments d (doc_at w pad)).
  { unfold Snapshot, doc_at. rewrite pad_ok. by destruct (docs w !! pad). }
  rewrite Hcmp. destruct (_ <=? 0); intros [= <- <- <-]; [done|].
  unfold Snapshot. rewrite pad_ok. cbn [docs]. by rewrite lookup_insert_eq.
Qed.

Lemma revision_pos w : ws_ok w → (Revision (Snapshot w pad) >? 0) = false → Revision (Snapshot w pad) = 0.
Proof using pad_ok. intros [[[? _] _] _]%Snapshot_typed ?. bool_prop. lia. Qed.

(** What the first message leaves behind. *)
Lemma sync_covers ps m salt nonce w0 applied w out :
  ws_ok w0 → ws_ok w → utf8_valid (Text (Snapshot w0 pad)) = true → scode ps = code → spad ps = pad →
  SyncWorkspace ps m salt nonce w0 pad = Ok (applied, w, out) →
  utf8_valid (Text (Snapshot w pad)) = true ∧
  (Revision (Snapshot w pad) = 0 ∨ holds (MRecord m) (Snapshot w pad) ∨
   ∃ x, out = Some x ∧ BaseGeneration x = sgeneration ps ∧ holds (MRecord x) (Snapshot w pad)).
Proof using pad_ok pad_text.
  intros Hw0 Hw Hu Hc Hp. unfold SyncWorkspace. rewrite Hc, Hp, pad_ok, String.eqb_refl. cbn [negb fail_if mbind result_bind].
  (* the document to publish, if any *)
  assert (Hpub : ∀ (b : bool) remote, utf8_valid (Text (Snapshot w pad)) = true →
    (if (Revision (Snapshot w pad) >? 0) && (b || (compareDocuments (Snapshot w pad) remote >? 0))
     then message ← publishDocument ps salt nonce (Snapshot w pad); Ok (applied, w, Some message)
     else Ok (applied, w, None)) = Ok (applied, w, out) →
    (b = false → holds (MRecord m) remote) →
    (Revision (Snapshot w pad) = 0 ∨ holds (MRecord m) (Snapshot w pad) ∨
     ∃ x, out = Some x ∧ BaseGeneration x = sgeneration ps ∧ holds (MRecord x) (Snapshot w pad))).
  { intros b remote Hu' Hout Hrem. destruct (Revision (Snapshot w pad) >? 0) eqn:Er; cbn [andb] in Hout.
    2:{ left. by apply revision_pos. }
    destruct (b || _) eqn:Eb.
    - destruct (publishDocument _ _ _ _) as [x|] eqn:Ex; [|done]. injection Hout as <-. right; right. exists x. split; [done|].
      destruct (Snapshot_typed w Hw). by eapply publish_holds.
    - right; left. apply orb_false_elim in Eb as [-> Eb]. destruct (Hrem eq_refl) as (r & d' & ? & ? & ?). exists r, d'.
      split; [done|]. split; [done|]. eapply doc_le_trans; [|done]. unfold doc_le. bool_prop. lia. }
  destruct (MRecord m) as [r|] eqn:Em.
  - destruct (OpenPersistentDocument code pad r) as [d|] eqn:Eo; [|done]. cbn [mbind result_bind].
    destruct (ApplyRemote w0 d) as [[[c x] w1]|] eqn:Ea; [|done]. cbn [wrap_err mbind result_bind]. intros Hout.
    assert (w = w1 ∧ applied = if (c : bool) then [x] else []) as [-> ->].
    { clear Hpub. destruct (_ && _); [|by injection Hout]. destruct (publishDocument _ _ _ _); [|done]. by injection Hout. }
    assert (Hu' : utf8_valid (Text (Snapshot w1 pad)) = true).
    { rewrite (apply_shows w0 d r c x w1 Hw0 Eo Ea). case_if; [done|]. by apply Open_faithful in Eo as (_ & _ & _ & ?). }
    split; [done|]. eapply (Hpub _ d Hu' Hout). intros _. exists r, d. split; [done|]. split; [done|apply doc_le_refl].
  - cbn [mbind result_bind]. intros Hout.
    assert (w = w0 ∧ applied = []) as [-> ->].
    { clear Hpub. destruct (_ && _); [|by injection Hout]. destruct (publishDocument _ _ _ _); [|done]. by injection Hout. }
    split; [done|]. eapply (Hpub _ zero_document Hu Hout). by intros [=].
Qed.

Lemma sync_at h k m rest ps applied w out salt nonce :
  hub_ok key h → session k = None → to_client k = m :: rest →
  OpenPersistentSession code pad m = Ok ps → SyncWorkspace ps m salt nonce (cws k) pad = Ok (applied, w, out) →
  client_inv code pad h k → at_inv h k → at_inv h (send_server (synced k rest ps w) out).
Proof using code_ok pad_ok pad_text.
  intros Hh Hs Ht Ho Hsy Hi [Hidle Hu Hcov].
  pose proof (sync_inv code pad key code_ok pad_ok h k m rest ps applied w out salt nonce Hh Hs Ht Ho Hsy Hi) as Hi'.
  destruct (ci_session _ _ _ _ Hi' ps eq_refl) as (Hc & Hp & Hle & _).
  assert (Hw : ws_ok w) by exact (ci_ws _ _ _ _ Hi').
  destruct (sync_covers ps m salt nonce (cws k) applied w out) as [Hu' Hd]; [apply (ci_ws _ _ _ _ Hi)|done..|].
  split; [done|done|]. cbn [send_server synced cws session to_server hrecord]. intros ps' [= <-].
  right. destruct (decide (sgeneration ps < hgeneration h)) as [|Hge]; [by left|right].
  assert (Hm : validatePersistentState m = Ok tt ∧ ps = MkPSession code pad (Generation m)).
  { unfold OpenPersistentSession in Ho. rewrite code_ok, pad_ok in Ho. cbn [wrap_err mbind result_bind] in Ho.
    destruct (ValidatePad pad) as [[]|]; [|done]. cbn [wrap_err mbind result_bind] in Ho.
    destruct (validatePersistentState m) as [[]|]; [|done]. by injection Ho as <-. }
  destruct Hm as [Hv ->]. apply validatePersistentState_type in Hv. cbn [sgeneration] in *.
  destruct (ci_client _ _ _ _ Hi m ltac:(rewrite Ht; by left) Hv) as [_ Hst].
  assert (Hrec : hrecord h = MRecord m) by (rewrite Hst by lia; done). rewrite Hrec.
  destruct Hd as [?|[?|(x & -> & Hb & Hx)]]; [by left|by right; left|right; right]. exists x. split; [|done].
  apply elem_of_app. right. by apply list_elem_of_singleton.
Qed.

(** What the reader's comparison leaves behind, the event handled. *)
Lemma compare_covers k ps m salt nonce k' :
  ws_ok (cws k) → utf8_valid (Text (here k)) = true → scode ps = code → spad ps = pad → cevents k = [] → outbox k = None →
  reading k = Some m → session k = Some ps → absorb k ps salt nonce = Some k' →
  session k' = Some ps ∧ reading k' = None ∧ outbox k' = None ∧ utf8_valid (Text (here k')) = true ∧
  (failed k' ∨ Revision (here k') = 0 ∨ holds (MRecord m) (here k') ∨
   ∃ x, Some x ∈ to_server k' ∧ BaseGeneration x = sgeneration ps ∧ holds (MRecord x) (here k')).
Proof using pad_ok pad_text.
  intros Hw Hu Hc Hp Hev Hob Hr Hs. unfold absorb. rewrite Hr. destruct (Snapshot_typed (cws k) Hw) as [Hty Hpad].
  unfold compare_message. destruct (readLoop_compare ps m salt nonce (cws k)) as [evs out] eqn:Ec.
  cbn [send_server cevents cws]. rewrite Hev. cbn [app]. unfold readLoop_compare in Ec. rewrite Hc, Hp in Ec.
  (* a publication, or the error that it cannot be made *)
  assert (Hpub : match publishDocument ps salt nonce (here k) with
     | Ok message => ([], Some message) | Err e => ([EventError e], None) end = (evs, out) →
    (∃ x, evs = [] ∧ out = Some x ∧ BaseGeneration x = sgeneration ps ∧ holds (MRecord x) (here k)) ∨ ∃ e, evs = [EventError e]).
  { destruct (publishDocument ps salt nonce (here k)) as [x|e] eqn:Ex; intros [= <- <-]; [left|right; by eexists].
    exists x. split; [done|]. split; [done|]. by eapply publish_holds. }
  assert (Hdone : (∃ x, evs = [] ∧ out = Some x ∧ BaseGeneration x = sgeneration ps ∧ holds (MRecord x) (here k)) ∨ (∃ e, evs = [EventError e]) →
    match evs with EventFrame f :: rest => w ← consume_frame (cws k) f; Some (consumed (send_server (MkConn (cptr k) (pending k) (to_client k)
      (to_server k) (session k) None evs (cws k) (outbox k)) out) rest w)
    | _ => Some (send_server (MkConn (cptr k) (pending k) (to_client k) (to_server k) (session k) None evs (cws k) (outbox k)) out) end = Some k' →
    session k' = Some ps ∧ reading k' = None ∧ outbox k' = None ∧ utf8_valid (Text (here k')) = true ∧
    (failed k' ∨ Revision (here k') = 0 ∨ holds (MRecord m) (here k') ∨
     ∃ x, Some x ∈ to_server k' ∧ BaseGeneration x = sgeneration ps ∧ holds (MRecord x) (here k'))).
  { intros [(x & -> & -> & Hb & Hx)|(e & ->)] [= <-]; cbn [send_server session reading outbox cws]; split_and!; try done.
    - right; right; right. exists x. split; [|done]. cbn. apply elem_of_app. right. by apply list_elem_of_singleton.
    - left; right. exists e. by left. }
  destruct (MRecord m) as [r|].
  2:{ destruct (Revision (here k) >? 0) eqn:Er; [intros Ha; by eapply Hdone; [apply Hpub|]|].
      injection Ec as <- <-. intros [= <-]. cbn [send_server session reading outbox cws]. split_and!; try done.
      right; left. by apply revision_pos. }
  destruct (OpenPersistentDocument code pad r) as [d|e] eqn:Eo; [|intros Ha; eapply Hdone; [right; injection Ec as <- _; by eexists|exact Ha]].
  destruct (Open_faithful code pad r d Eo) as ([Hv Hn] & Hdp & Hdt & Hdu). rewrite pad_ok in Hdp.
  destruct (Z.eqb_spec (compareDocuments d (here k)) 1) as [E1|E1].
  - injection Ec as <- <-. set (f := FrameFromDocument _ d). unfold consume_frame.
    assert (Hf : String.eqb (FType f) FrameUpdate || String.eqb (FType f) FrameClear = true)
      by (unfold f, frameTypeForDocument; by destruct (String.eqb (Text d) "")).
    assert (Hd : Frame_Document f = d) by by apply FrameFromDocument_Document.
    rewrite Hf, Hd. destruct (ApplyRemote (cws k) d) as [[[c x] w]|] eqn:Ea; [|done]. cbn [mbind option_bind]. intros [= <-].
    cbn [consumed send_server session reading outbox cws].
    rewrite (apply_shows (cws k) d r c x w Hw Eo Ea), E1. cbn. split_and!; try done.
    right; right; left. exists r, d. split; [done|]. split; [done|apply doc_le_refl].
  - destruct (Z.eqb_spec (compareDocuments d (here k)) (-1)) as [E2|E2]; [intros Ha; by eapply Hdone; [apply Hpub|]|].
    injection Ec as <- <-. cbn. intros [= <-]. cbn [consumed send_server session reading outbox cws]. split_and!; try done.
    right; right; left. exists r, d. split; [done|]. split; [done|]. unfold doc_le.
    destruct (compare_cases d (here k)) as [[? ?]|[[? ?]|(? & ? & _)]]; lia.
Qed.

Lemma absorb_cptr k ps salt nonce k' : absorb k ps salt nonce = Some k' → cptr k' = cptr k.
Proof.
  unfold absorb. destruct (reading k) as [m|]; [|by intros [= <-]].
  destruct (compare_message_fields k ps m salt nonce) as (_ & _ & _ & _ & _ & _ & Hp).
  destruct (cevents (compare_message k ps m salt nonce)) as [|[f|e] l]; [by intros [= <-]| |by intros [= <-]].
  destruct (consume_frame _ f) as [w|]; [|done]. by intros [= <-].
Qed.

Lemma absorb_none k ps salt nonce : reading k = None → absorb k ps salt nonce = Some k.
Proof. unfold absorb. by intros ->. Qed.

Lemma read_at h k ps m rest salt nonce k' :
  hub_ok key h → session k = Some ps → to_client k = m :: rest → cevents k = [] →
  absorb (read_message k ps m rest) (accepted (read_message k ps m rest) ps) salt nonce = Some k' →
  client_inv code pad h k → at_inv h k → at_inv h k'.
Proof using pad_ok pad_text.
  intros Hh Hs Ht Hev Ha Hi [[Hr Hob] Hu Hcov]. specialize (Hcov ps Hs). destruct (ci_session _ _ _ _ Hi ps Hs) as (Hc & Hp & Hle & _).
  revert Ha. unfold read_message, readLoop_accept, accepted.
  destruct (String.eqb_spec (MType m) PersistentError) as [Ee|Ee].
  { rewrite absorb_none by done. intros [= <-]. split; [done|done|]. intros ps' _. left; right. eexists. apply elem_of_app. right. by left. }
  destruct (validatePersistentState m) as [[]|e] eqn:Ev.
  2:{ rewrite absorb_none by done. intros [= <-]. split; [done|done|]. intros ps' _. left; right. eexists. apply elem_of_app. right. by left. }
  destruct (Generation m <? sgeneration ps) eqn:Eg; bool_prop.
  { rewrite absorb_none by done. intros [= <-]. split; [done|done|]. intros ps' [= <-]. cbn [to_client cws to_server hrecord].
    destruct Hcov as [[(x & Hx & Hxe)|(e & He)]|?]; [left; left|left; right; by exists e|by right].
    exists x. split; [|done]. rewrite Ht in Hx. apply elem_of_cons in Hx as [->|]; done. }
  apply validatePersistentState_type in Ev. destruct (ci_client _ _ _ _ Hi m ltac:(rewrite Ht; by left) Ev) as [Hgm Hst].
  cbn [session default from_option id]. intros Ha.
  destruct (compare_covers (MkConn (cptr k) (pending k) rest (to_server k) (Some (set_generation ps (Generation m))) (Some m)
    (cevents k) (cws k) (outbox k)) (set_generation ps (Generation m)) m salt nonce k') as (Hs' & Hr' & Ho' & Hu' & Hd);
    [apply (ci_ws _ _ _ _ Hi)|done..|].
  split; [done|done|]. intros ps' Hps. rewrite Hs' in Hps. injection Hps as <-. cbn [sgeneration set_generation] in *.
  destruct (decide (Generation m < hgeneration h)) as [|Hge]; [by right; left|].
  assert (hrecord h = MRecord m) as -> by (rewrite Hst by lia; done). destruct Hd as [?|[?|[?|?]]]; auto.
Qed.

Lemma edit_at h k ps line now d w salt nonce m :
  session k = Some ps → in_int64 now →
  Revision (doc_at (cws k) pad) < uint64_max → Timestamp (doc_at (cws k) pad) < int64_max →
  edit pad (cws k) line now = Ok (d, w) → utf8_valid (Text d) = true →
  PersistentSession_Send ps salt nonce (edit_frame line d) = Ok (Published m) →
  client_inv code pad h k → at_inv h k → at_inv h (send_server (edited k w None) (Some m)).
Proof using pad_ok pad_text.
  intros Hs Hnow Hrev Hts Hed Hu Hm Hi [[Hr Hob] _ _]. destruct (ci_session _ _ _ _ Hi ps Hs) as (Hc & Hp & _).
  assert (Hup : Snapshot w pad = d ∧ doc_ok d ∧ doc_typed d ∧ Pad d = pad).
  { unfold edit, Clear in Hed. destruct line as [text|];
      (destruct (Update_grows pad pad_ok _ _ _ _ _ (ci_ws _ _ _ _ Hi) Hnow Hrev Hts Hed) as (_ & _ & ? & ? & ? & ?); done). }
  destruct Hup as (Hsnap & [_ Hn] & Hty & Hpd).
  split; cbn [send_server edited reading outbox cws]; [done|by rewrite Hsnap|]. intros ps' Hs'. cbn in Hs'. rewrite Hs in Hs'. injection Hs' as <-.
  assert (Hpub : publishDocument ps salt nonce d = Ok m).
  { unfold PersistentSession_Send in Hm. set (f := MkFrame _ _ _ _ _ _) in Hm.
    assert (Hf : Frame_Document f = d ∧ (String.eqb (FType f) FrameUpdate || String.eqb (FType f) FrameClear) = true).
    { split; [|by destruct line]. rewrite <- (FrameFromDocument_Document (FType f) d Hn). unfold f, edit_frame. rewrite Hp.
      unfold FrameFromDocument, Frame_Document. cbn [FPad FText FRevision FTimestamp FType]. rewrite Hpd, pad_ok.
      pose proof (NormalizePad_ne pad) as Hne. rewrite pad_ok in Hne. destruct (String.eqb_spec pad ""); [congruence|by rewrite pad_ok]. }
    destruct Hf as [Hf1 Hf2]. rewrite Hf2 in Hm. destruct (Frame_Validate f) as [[]|]; [|done]. cbn [wrap_err mbind result_bind] in Hm.
    rewrite Hf1 in Hm. destruct (publishDocument ps salt nonce d); [|done]. by injection Hm as ->. }
  cbn [send_server edited cws to_server]. rewrite Hsnap. right; right; right; right. exists m. split; [apply elem_of_app; right; by apply list_elem_of_singleton|].
  by eapply publish_holds.
Qed.

(** ** The system *)

Definition all_at (s : system) : Prop :=
  ∀ c k h, conns s !! c = Some k → is_current (srv s) (cptr k) = Some h → at_inv h k.

Lemma at_inv_ext h h' k : state h = state h' → at_inv h k → at_inv h' k.
Proof.
  intros Hs [I1 I2 I3]. assert (Hg : hgeneration h' = hgeneration h) by (unfold persistentNoteStateLocked in Hs; congruence).
  assert (Hr : hrecord h' = hrecord h) by (unfold persistentNoteStateLocked in Hs; congruence).
  split; [done|done|]. unfold covered. by rewrite Hg, Hr.
Qed.

(** The connections whose hub a step leaves in the same state. *)
Lemma all_at_with s c k k' :
  sys_inv code pad key s → all_at s → conns s !! c = Some k → cptr k' = cptr k →
  (∀ h, is_current (srv s) (cptr k) = Some h → hub_ok key h → client_inv code pad h k → at_inv h k → at_inv h k') →
  all_at (with_conn s c k').
Proof.
  intros [Hn Hc] Hall Hk Hp Hstep c' k0 h. cbn [with_conn conns srv]. intros [[<- <-]|[_ Hl]]%lookup_insert_Some Hh; [|by eapply Hall].
  rewrite Hp in Hh. destruct (Hc c k Hk) as (h0 & Hh0 & Hkey & _ & Hi). assert (h0 = h) as -> by congruence.
  apply Hstep; [done|by eapply current_hub_ok|done|by eapply Hall].
Qed.

Lemma serve_at s c k m rest fl randoms now srv' out disk' :
  sys_inv code pad key s → all_at s → conns s !! c = Some k → to_server k = m :: rest →
  handle_message cfg fl randoms (srv s) (cptr k) c m now err (disk s) = (Ok (srv', out), disk') →
  all_at (MkSystem srv' disk' (deliver out (<[c := take_served k rest]> (conns s)))).
Proof using pad_ok stored.
  intros [Hn Hc] Hall Hk Ht Hm. destruct (Hc c k Hk) as (h & Hh & Hkey & Hin & Hi).
  intros c0 k0 h0. cbn [conns srv]. rewrite deliver_lookup.
  destruct (handle_message_cases cfg key err stored _ _ _ _ _ _ _ _ _ _ _ h Hn Hh Hkey Hm)
    as [(-> & x & -> & _ & Hx)|(h' & -> & -> & Hg & Hcl & Hk' & _)].
  - intros (k1 & Hk1 & ->)%fmap_Some. rewrite filter_cons. cbn [fst]. destruct (decide (c = c0)) as [<-|Hne].
    + rewrite lookup_insert_eq in Hk1. injection Hk1 as <-. cbn [fmap list_fmap foldl snd filter list_filter push_client take_served cptr].
      intros Hh0. assert (h0 = h) as -> by congruence. destruct (Hall c k h Hk Hh) as [I1 I2 I3]. split; [done|done|].
      intros ps Hs. cbn [session push_client take_served] in Hs. specialize (I3 ps Hs). destruct (ci_session _ _ _ _ Hi ps Hs) as (_ & _ & Hle & _).
      unfold failed. cbn [to_client cevents cws to_server push_client take_served].
      destruct (decide (sgeneration ps < hgeneration h)) as [|Hge]; [by right; left|].
      destruct I3 as [[(y & ? & ?)|?]|[?|[?|[?|(y & Hy & Hb & Hd)]]]]; [left; left; exists y; rewrite elem_of_app; auto|auto..|].
      rewrite Ht in Hy. apply elem_of_cons in Hy as [<-|Hy]; [|right; right; right; right; by exists y].
      left; left. exists x. split; [apply elem_of_app; right; by apply list_elem_of_singleton|].
      destruct Hx as [?|(y' & [= <-] & ?)]; [done|lia].
    + rewrite lookup_insert_ne in Hk1 by done. cbn [fmap list_fmap foldl snd filter list_filter]. intros Hh0. by eapply Hall.
  - intros (k1 & Hk1 & ->)%fmap_Some. rewrite filter_broadcast.
    assert (Hk1' : ∃ k2, conns s !! c0 = Some k2 ∧ reading k2 = reading k1 ∧ outbox k2 = outbox k1 ∧ cws k2 = cws k1 ∧
      session k2 = session k1 ∧ cptr k2 = cptr k1).
    { apply lookup_insert_Some in Hk1 as [[<- <-]|[_ Hl]]; [by exists k|by exists k1]. }
    destruct Hk1' as (k2 & Hk2 & E1 & E2 & E3 & E4 & E5). destruct (Hc c0 k2 Hk2) as (h2 & Hh2 & Hkey2 & Hin2 & Hi2).
    destruct (current_unique _ _ _ _ _ Hh2 Hh) as [Ep ->]; [congruence|]. rewrite decide_True by done.
    cbn [fmap list_fmap foldl snd push_client cptr]. intros Hh0. rewrite <- E5, Ep in Hh0. apply is_current_Some in Hh0 as [Hh0 _].
    cbn [set_hub hubs] in Hh0. rewrite lookup_insert_eq in Hh0. injection Hh0 as <-.
    destruct (Hall c0 k2 h Hk2 Hh2) as [I1 I2 I3]. rewrite E1, E2 in I1. rewrite E3 in I2. split; [done|done|].
    intros ps Hs. cbn in Hs. rewrite <- E4 in Hs. destruct (ci_session _ _ _ _ Hi2 ps Hs) as (_ & _ & Hle & _). right; left. lia.
Qed.

Lemma atomic_at s s' :
  sys_inv code pad key s → all_at s → atomic cfg code pad key err s s' → all_at s'.
Proof using code_ok pad_ok pad_text stored.
  intros Hs Hall Hst. pose proof Hs as [Hn Hc].
  destruct Hst as [c now w p m srv' disk' Hno Hw Hu Hj|c k m Hk Hp|c k m rest ps applied w out salt nonce Hk Hse Ht Ho Hsy
    |c k ps m rest salt nonce k' Hk Hse Ht Hev Ha|c k ps line now d w salt nonce m Hk Hse Hev Hnow Hrev Hts Hed Hu Hm
    |c k m rest fl randoms now srv' out disk' Hk Ht Hm|c k Hk|now srv' disk' Hcl].
  - pose proof (join_inv cfg code pad key code_ok pad_ok stored s c now w p m srv' disk' Hs Hno Hw Hj) as [Hn' Hc'].
    intros c0 k0 h Hl Hh. cbn [conns srv] in *. pose proof Hl as Hl'. apply lookup_insert_Some in Hl as [[<- <-]|[Hne Hl]]; [by split|].
    destruct (Hc c0 k0 Hl) as (h0 & Hh0 & Hkey0 & _). destruct (join_spec cfg code pad key code_ok pad_ok stored s c now p m srv' disk' Hs Hj) as (h1 & Hh1 & _ & _ & _ & Hothers).
    destruct (Hothers c0 k0 Hl) as (Hp & h2 & Hh2 & Hst & _). rewrite Hp in *. assert (h1 = h) as -> by congruence.
    eapply at_inv_ext; [exact Hst|]. by eapply (Hall c0 k0 h2 Hl); rewrite Hp.
  - eapply all_at_with; [done..|]. intros h _ _ _ [I1 I2 I3]. split; [done|done|]. intros ps Hps. specialize (I3 ps Hps).
    unfold failed in *. cbn [to_client cevents cws to_server write_pending].
    destruct I3 as [[(y & ? & ?)|?]|?]; [left; left; exists y; rewrite elem_of_app; auto|auto..].
  - eapply all_at_with; [done..|]. intros h _ Ho' Hi Hat. eapply sync_at; done.
  - eapply all_at_with; [done|done|done| |intros h _ Ho' Hi Hat; by eapply read_at].
    apply absorb_cptr in Ha as ->. by destruct (read_message_fields k ps m rest) as (_ & _ & _ & _ & _ & _ & ?).
  - eapply all_at_with; [done|done|done|done|]. intros h _ Ho' Hi Hat. by eapply edit_at.
  - by eapply serve_at.
  - intros c0 k0 h. cbn [conns srv]. intros [Hne Hl]%lookup_delete_Some Hh.
    destruct (Hc c k Hk) as (h1 & Hh1 & Hkey1 & _). destruct (Hc c0 k0 Hl) as (h0 & Hh0 & Hkey0 & _).
    destruct (current_unique _ _ _ _ _ Hh0 Hh1) as [E ->]; [congruence|].
    rewrite E, (leave_current _ _ _ _ Hh1) in Hh; [injection Hh as <-|intros Hno; set_solver].
    eapply at_inv_ext; [|by eapply (Hall c0 k0 h1 Hl)]. done.
  - intros c0 k0 h. cbn [conns srv]. intros Hl Hh. destruct (Hc c0 k0 Hl) as (h0 & Hh0 & Hkey0 & Hin & _).
    eapply at_inv_ext; [|by eapply (Hall c0 k0 h0 Hl)].
    apply io_bind_Ok in Hcl as (s1 & w1 & Hcl & Hr). apply io_bind_Ok in Hr as (u & w2 & _ & Hr). apply mret_Ok in Hr as [-> _].
    assert (Hh' : is_current s1 (cptr k0) = Some h0) by (eapply cleanup_hubs_current; [exact Hcl|done|]; intros E; by rewrite E in Hin).
    congruence.
Qed.


(** What every state of an atomic run satisfies. *)
Lemma atomic_run s0 s : system_start s0 → rtc (atomic cfg code pad key err) s0 s →
  sys_inv code pad key s ∧ all_at s ∧ rtc (step cfg code pad key err) s0 s.
Proof using code_ok pad_ok pad_text stored.
  intros Hstart Hr. revert Hstart. assert (Hi : system_start s0 → sys_inv code pad key s0 ∧ all_at s0).
  { intros Hstart. split; [eapply (reach_inv cfg code pad key err); [done..|apply rtc_refl]|]. destruct Hstart as [_ Hno]. intros c k h. by rewrite Hno. }
  intros [Hs0 Ha0]%Hi. clear Hi. induction Hr as [s|s1 s2 s3 Hst _ IH]; [by split_and!; [| |apply rtc_refl]|].
  assert (Hrest : resting s1).
  { intros c k Hk. destruct (si_conn _ _ _ _ Hs0 c k Hk) as (h & Hh & _). by apply (at_idle _ _ (Ha0 c k h Hk Hh)). }
  assert (Hsteps : rtc (step cfg code pad key err) s1 s2) by by eapply atomic_steps.
  destruct IH as (? & ? & ?).
  - clear -Hsteps Hs0 code_ok pad_ok stored. induction Hsteps as [|s1 s2 s3 Hst _ IH]; [done|]. apply IH. by eapply step_inv.
  - by eapply atomic_at.
  - split_and!; [done|done|]. by etrans.
Qed.

(** A client with nothing left to read shows the service's document. *)
Lemma quiet_client h k :
  client_inv code pad h k → at_inv h k → to_client k = [] → pending k = None → to_server k = [] → cevents k = [] →
  (here k = MkDocument pad "" 0 0 ∨ holds (hrecord h) (here k)) ∧
  ∀ r d, hrecord h = Some r → OpenPersistentDocument code pad r = Ok d → doc_le d (here k).
Proof using pad_ok.
  intros Hi [[Hrd _] _ Hcov] Q1 Q2 Q3 Q4.
  assert (Hno : ¬ state_coming h k) by (intros [Hin|Hin]; [rewrite Q1 in Hin; by apply not_elem_of_nil in Hin|congruence]).
  destruct (session k) as [ps|] eqn:Hs; [|by destruct Hno; apply (ci_new _ _ _ _ Hi)].
  destruct (ci_session _ _ _ _ Hi ps Hs) as (_ & _ & Hle & Hlt).
  assert (Hg : sgeneration ps = hgeneration h) by (destruct (decide (sgeneration ps < hgeneration h)); [by destruct Hno; apply Hlt|lia]).
  split.
  - destruct (Hcov ps Hs) as [[(m & Hm & _)|(e & He)]|[?|[Hz|[?|(m & Hm & _)]]]].
    + rewrite Q1 in Hm. by apply not_elem_of_nil in Hm.
    + rewrite Q4 in He. by apply not_elem_of_nil in He.
    + lia.
    + left. unfold Snapshot in *. rewrite pad_ok in *. destruct (docs (cws k) !! pad) as [d|] eqn:Ed; [|done].
      apply (ci_ws _ _ _ _ Hi) in Ed as (_ & [Hv _] & _). by apply doc_ok_pos in Hv as [? _].
    + by right.
    + rewrite Q3 in Hm. by apply not_elem_of_nil in Hm.
  - intros r d Hrec Ho. destruct (ci_doc _ _ _ _ Hi ps r d Hs Hg Hrec Ho) as [?|[?|(f & Hf & _)]]; [done|congruence|].
    rewrite Q4 in Hf. by apply not_elem_of_nil in Hf.
Qed.

Lemma quiet_document h k r d :
  client_inv code pad h k → at_inv h k → to_client k = [] → pending k = None → to_server k = [] → cevents k = [] →
  hrecord h = Some r → OpenPersistentDocument code pad r = Ok d → here k = d.
Proof using pad_ok.
  intros Hi Ha Q1 Q2 Q3 Q4 Hrec Ho. destruct (quiet_client h k Hi Ha Q1 Q2 Q3 Q4) as [[Hz|(r' & d' & Hr' & Ho' & Hle)] Hge];
    specialize (Hge r d Hrec Ho); destruct (Open_ok code pad r d Ho) as ([Hv _] & Hp & [Hu _]).
  - exfalso. rewrite Hz in Hge. pose proof (zero_lt_doc d Hv Hu) as Hpos. unfold doc_le, compareDocuments in *.
    cbn [zero_document Revision Timestamp Text] in *. lia.
  - assert (d' = d) as -> by congruence. apply doc_le_antisym; [done|done|].
    destruct (Snapshot_typed (cws k) (ci_ws _ _ _ _ Hi)) as [_ ->]. by rewrite Hp.
Qed.

(** Nothing is on its way, and no client has been told of an error. *)
Definition quiet (s : system) : Prop :=
  ∀ c k, conns s !! c = Some k → to_client k = [] ∧ pending k = None ∧ to_server k = [] ∧ cevents k = [].

(** C20: convergence.  When each client reads, compares and applies a message, and
    edits and publishes, without another step of its own in between, then
    whatever clients join, edit and leave, however their messages interleave,
    and whichever puts the service refuses or the disk fails: once nothing is on
    its way any more, all clients show the same document, and it is the one the
    service keeps. *)
Theorem notepad_converges s0 s c k c' k' :
  system_start s0 → rtc (atomic cfg code pad key err) s0 s → quiet s →
  conns s !! c = Some k → conns s !! c' = Some k' →
  Snapshot (cws k) pad = Snapshot (cws k') pad ∧
  ∃ h, notes (srv s) !! key = Some (cptr k) ∧ hubs (srv s) !! cptr k = Some h ∧
    ∀ r d, hrecord h = Some r → OpenPersistentDocument code pad r = Ok d → Snapshot (cws k) pad = d.
Proof using code_ok pad_ok pad_text stored.
  intros Hstart Hr Hq Hk Hk'. destruct (atomic_run s0 s Hstart Hr) as ([Hn Hc] & Hall & _).
  destruct (Hc c k Hk) as (h & Hh & Hkey & _ & Hi). destruct (Hc c' k' Hk') as (h' & Hh' & Hkey' & _ & Hi').
  destruct (current_unique _ _ _ _ _ Hh' Hh) as [E ->]; [congruence|].
  destruct (Hq c k Hk) as (Q1 & Q2 & Q3 & Q4). destruct (Hq c' k' Hk') as (R1 & R2 & R3 & R4).
  rewrite E in Hh'. pose proof (Hall c k h Hk Hh) as Ha. pose proof (Hall c' k' h Hk' ltac:(by rewrite E)) as Ha'.
  split.
  - destruct (quiet_client h k Hi Ha Q1 Q2 Q3 Q4) as [[Hz|(r & d & Hrec & Ho & _)] _];
      [|by rewrite (quiet_document h k r d), (quiet_document h k' r d)].
    destruct (quiet_client h k' Hi' Ha' R1 R2 R3 R4) as [[Hz'|(r & d & Hrec & Ho & _)] _]; [by rewrite Hz, Hz'|].
    by rewrite (quiet_document h k r d), (quiet_document h k' r d).
  - exists h. apply is_current_Some in Hh as [Hh1 Hh2]. rewrite Hkey in Hh2. split_and!; [done|done|].
    intros r d Hrec Ho. by eapply quiet_document.
Qed.
End covered.

(** ** An example

    Two clients join, both edit before they have heard of each other, and read
    what comes. *)

Section run.
Context `{CaseTables} `{Crypto} `{DocumentJSON} `{DiskJSON}.
Context (cfg : noteConfig) (code pad key : string) (err : server_error + persistent_error → string).

Inductive round :=
  | RoundJoin (c : client_id) (now : Z) (salt nonce : bytes)
  | RoundEdit (c : client_id) (line : option string) (now : Z) (salt nonce : bytes)
  | RoundRead (c : client_id) (salt nonce : bytes)
  | RoundServe (c : client_id) (now : Z) (randoms : list string).

Local Abbreviation act := (act cfg code pad key err).

(** The actions of a round; the client reads only when it holds no event. *)
Definition play (s : system) (r : round) : option system :=
  match r with
  | RoundJoin c now salt nonce =>
      s1 ← act s (ActJoin c now); s2 ← act s1 (ActWriteInitial c); act s2 (ActSync c salt nonce)
  | RoundEdit c line now salt nonce =>
      k ← conns s !! c; ps ← session k;
      match cevents k, edit pad (cws k) line now with
      | [], Ok (d, w) =>
          if bool_decide (int64_min ≤ now ≤ int64_max) && bool_decide (Revision (doc_at (cws k) pad) < uint64_max)
             && bool_decide (Timestamp (doc_at (cws k) pad) < int64_max) && utf8_valid (Text d)
          then match PersistentSession_Send ps salt nonce (edit_frame line d) with
               | Ok (Published m) => Some (with_conn s c (send_server (edited k w None) (Some m)))
               | _ => None
               end
          else None
      | _, _ => None
      end
  | RoundRead c salt nonce =>
      k ← conns s !! c; ps ← session k;
      match cevents k, to_client k with
      | [], m :: rest => k' ← absorb (read_message k ps m rest) (accepted (read_message k ps m rest) ps) salt nonce; Some (with_conn s c k')
      | _, _ => None
      end
  | RoundServe c now randoms => act s (ActServe c now randoms)
  end.

Lemma play_atomic s r s' : play s r = Some s' → rtc (atomic cfg code pad key err) s s'.
Proof.
  destruct r as [c now salt nonce|c line now salt nonce|c salt nonce|c now randoms]; cbn [play act]; intros Hp.
  - apply bind_Some in Hp as (s1 & H1' & Hp). apply bind_Some in Hp as (s2 & H2' & H3').
    destruct (conns s !! c) eqn:Hk; [done|]. destruct (joinPersistentNote _ _ _ _ _ _) as [[[[[p m]|e] srv']|e] disk'] eqn:Ej; try done.
    injection H1' as <-. eapply rtc_l; [eapply (AtJoin _ _ _ _ _ s c now NewWorkspace); [done| | |exact Ej]; [intros q d Hl; discriminate Hl|done]|].
    apply bind_Some in H2' as (k & Hk1 & H2'). apply bind_Some in H2' as (m1 & Hm1 & [= <-]).
    eapply rtc_l; [by eapply AtWriteInitial|]. apply bind_Some in H3' as (k2 & Hk2 & H3').
    destruct (session k2) eqn:Hs; [done|]. destruct (to_client k2) as [|m2 rest] eqn:Ht; [done|].
    destruct (OpenPersistentSession code pad m2) as [ps|] eqn:Ho; [|done].
    destruct (SyncWorkspace _ _ _ _ _ _) as [[[applied w] out]|] eqn:Hsy; [|done]. injection H3' as <-.
    apply rtc_once. by eapply AtSync.
  - apply bind_Some in Hp as (k & Hk & Hp). apply bind_Some in Hp as (ps & Hs & Hp). destruct (cevents k) eqn:He; [|done].
    destruct (edit pad (cws k) line now) as [[d w]|] eqn:Hed; [|done]. case_if; [|done].
    destruct (PersistentSession_Send _ _ _ _) as [[m| |]|] eqn:Hm; try done. injection Hp as <-. bool_prop.
    apply rtc_once. by eapply AtEdit.
  - apply bind_Some in Hp as (k & Hk & Hp). apply bind_Some in Hp as (ps & Hs & Hp). destruct (cevents k) eqn:He; [|done].
    destruct (to_client k) as [|m rest] eqn:Ht; [done|]. apply bind_Some in Hp as (k' & Ha & [= <-]). apply rtc_once. by eapply AtRead.
  - apply bind_Some in Hp as (k & Hk & Hp). destruct (to_server k) as [|m rest] eqn:Ht; [done|].
    destruct (handle_message _ _ _ _ _ _ _ _ _ _) as [[[srv' out]|e] disk'] eqn:Hm; [|done]. injection Hp as <-.
    apply rtc_once. by eapply AtServe.
Qed.

Definition plays (s : system) (rs : list round) : option system := foldl (fun s r => s ≫= fun s => play s r) (Some s) rs.

Lemma plays_atomic s rs s' : plays s rs = Some s' → rtc (atomic cfg code pad key err) s s'.
Proof.
  assert (Hnone : ∀ rs, foldl (fun s r => s ≫= fun s => play s r) None rs = None).
  { clear. intros rs. induction rs as [|r rs IH]; [done|exact IH]. }
  unfold plays. revert s. induction rs as [|r rs IH]; intros s; cbn [foldl]; [by intros [= <-]|].
  cbn [mbind option_bind]. destruct (play s r) as [s1|] eqn:E; [|by rewrite Hnone].
  intros Hr. etrans; [by eapply play_atomic|by apply IH].
Qed.
End run.

Definition demo_rounds : list round :=
  [RoundJoin alice demo_now demo_salt demo_nonce; RoundJoin bob demo_now demo_salt demo_nonce;
   RoundEdit alice (Some "hi"%string) 100 demo_salt demo_nonce; RoundEdit bob (Some "late"%string) 50 demo_salt demo_nonce;
   RoundServe bob demo_now ["17"%string]; RoundServe alice demo_now ["18"%string];
   RoundRead alice demo_salt demo_nonce; RoundRead alice demo_salt demo_nonce; RoundRead bob demo_salt demo_nonce;
   RoundServe alice demo_now ["19"%string]; RoundServe alice demo_now ["20"%string];
   RoundRead alice demo_salt demo_nonce; RoundRead alice demo_salt demo_nonce; RoundRead bob demo_salt demo_nonce].

Definition demo_played : option system :=
  let Ht := ascii_tables in let Hc := fixed_crypto in let Hj := demo_document_json in let Hd := demo_disk_json in
  plays demo_note_cfg "AB2C3D" "main" "k" (fun _ => "refused"%string) demo_start demo_rounds.
Definition demo_end_state : system := default demo_start demo_played.

Lemma at_rest_quiet s : map_Forall (fun _ k => idle k) (conns s) → quiet s.
Proof. intros Hall c k Hk. by destruct (Hall c k Hk) as (? & ? & ? & ? & ? & ?). Qed.

Lemma notepad_converges_witness :
  let Ht := ascii_tables in let Hc := fixed_crypto in let Hj := demo_document_json in let Hd := demo_disk_json in
  ∃ k k', conns demo_end_state !! alice = Some k ∧ conns demo_end_state !! bob = Some k' ∧
    Snapshot (cws k) "main" = Snapshot (cws k') "main" ∧ Snapshot (cws k) "main" = demo_hi.
Proof.
  intros Ht Hc Hj Hd.
  assert (Hrun : is_some demo_played = true) by (vm_compute; reflexivity).
  assert (Hquiet : map_Forall (fun _ k => idle k) (conns demo_end_state)) by (apply (bool_decide_eq_true_1 _); vm_compute; reflexivity).
  assert (Ha : at_rest demo_end_state alice 2 demo_hi = true) by (vm_compute; reflexivity).
  assert (Hb : at_rest demo_end_state bob 2 demo_hi = true) by (vm_compute; reflexivity).
  apply at_rest_spec in Ha as (k & ps & Hk & _ & _ & _ & Hda). apply at_rest_spec in Hb as (k' & ps' & Hk' & _).
  assert (Hcode : ValidateCode "AB2C3D" = Ok "AB2C3D"%string) by (vm_compute; reflexivity).
  assert (Hpad : NormalizePad "main" = "main"%string) by (vm_compute; reflexivity).
  assert (Htext : utf8_valid "main" = true) by (vm_compute; reflexivity).
  assert (Hpath : notePath demo_note_cfg "k" ≠ ""%string) by (vm_compute; discriminate).
  assert (Hstart : system_start demo_start) by (split; reflexivity).
  assert (Hsteps : rtc (atomic demo_note_cfg "AB2C3D" "main" "k" (fun _ => "refused"%string)) demo_start demo_end_state).
  { revert Hrun. unfold demo_end_state. destruct demo_played as [s|] eqn:E; [|discriminate]. intros _. cbn [default from_option id].
    exact (plays_atomic _ _ _ _ _ _ _ _ E). }
  destruct (notepad_converges demo_note_cfg "AB2C3D" "main" "k" (fun _ => "refused"%string) Hcode Hpad Htext Hpath
    demo_start demo_end_state alice k bob k' Hstart Hsteps (at_rest_quiet _ Hquiet) Hk Hk') as [Heq _].
  exists k, k'. split; [exact Hk|]. split; [exact Hk'|]. split; [exact Heq|exact Hda].
Defined.
