(* ===== verification/Routing.v ===== *)
(** * Route negotiation ([internal/routing/negotiate.go])

    What two clients can do, and the route the service chooses for them.  The
    theorem says what a choice can be relied on for: a native route joins native
    clients only, a client that wants to stay on the local network is never sent
    to a relay, and the choice does not depend on which of the two is the
    sender. *)
From Stdlib Require Import ZArith Lia Ascii String.
From stdpp Require Import base tactics numbers list strings.
From S2P Require Import Prelude GoStrings.

Definition NegotiationVersion : Z := 1.
Definition ProtocolTransfer : string := "transfer".
Definition ProtocolNote : string := "note".
Definition ClientNative : string := "native".
Definition ClientWeb : string := "web".
Definition ClientWebRTC : string := "webrtc".
Definition RouteNative : string := "native".
Definition RouteWebRTC : string := "webrtc".
Definition FeatureParallelData : string := "parallel-data-v1".
Definition FeatureUnorderedData : string := "unordered-data-v1".

Record Capability := MkCapability {
  CType : string;
  CVersion : Z;
  Client : string;
  CProtocol : string;
  NativeRelay : string;
  NativeLocal : bool;
  NativeDirect : bool;
  CFeatures : list string;
}.

Record Response := MkResponse {
  RType : string;
  RVersion : Z;
  Route : string;
  RPair : string;
  Relay : string;
  RelayCredential : string;
  Direct : bool;
  Local : bool;
  Reason : string;
  RFeatures : list string;
  RError : string;
}.

Inductive routing_error :=
  | NegotiationUnsupported
  | InvalidClient
  | NotNative
  | InvalidRelay (value : string)
  | InvalidProtocol (value : string).

#[export] Instance routing_error_eq_dec : EqDecision routing_error.
Proof. solve_decision. Defined.

Section routing.
Context `{CaseTables}.

Definition NormalizeProtocol (value : string) : result routing_error string :=
  let value := ToLower (TrimSpace value) in
  if String.eqb value "" || String.eqb value ProtocolTransfer then Ok ProtocolTransfer
  else if String.eqb value ProtocolNote then Ok ProtocolNote
  else Err (InvalidProtocol value).

Definition ValidateNativeRelay (value : string) : result routing_error unit :=
  let value := TrimSpace value in
  match SplitHostPort value with
  | None => Err (InvalidRelay value)
  | Some (host, port) =>
      fail_if (String.eqb (TrimSpace host) "" || String.eqb (TrimSpace port) "") (InvalidRelay value)
  end.

Definition ValidateCapability (c : Capability) : result routing_error unit :=
  _ ← fail_if (negb (String.eqb (CType c) "negotiate") || negb (CVersion c =? NegotiationVersion)) NegotiationUnsupported;
  _ ← fail_if (negb (String.eqb (Client c) ClientNative) && negb (String.eqb (Client c) ClientWeb)
               && negb (String.eqb (Client c) ClientWebRTC)) InvalidClient;
  _ ← NormalizeProtocol (CProtocol c);
  _ ← fail_if (negb (String.eqb (Client c) ClientNative)
               && (negb (String.eqb (NativeRelay c) "") || NativeLocal c || NativeDirect c)) NotNative;
  if negb (String.eqb (NativeRelay c) "") then ValidateNativeRelay (NativeRelay c) else Ok tt.

(** [contains] of this package is the loop of [containsString]. *)
Definition CommonFeatures (left right : list string) : list string :=
  filter (fun supported => containsString left supported && containsString right supported = true)
    [FeatureParallelData; FeatureUnorderedData].

Definition Pair (left right : string) : string :=
  let left := ToLower (TrimSpace left) in
  let right := ToLower (TrimSpace right) in
  let '(first, second) := if str_ltb right left then (right, left) else (left, right) in
  if String.eqb first "" || String.eqb second "" then "" else first +:+ "-" +:+ second.

Definition relaysMatch (left right : string) : bool :=
  let left := TrimSpace left in
  let right := TrimSpace right in
  negb (String.eqb left "") && EqualFold left right.

Definition Choose (sender receiver : Capability) (serverRelay : string) : Response :=
  let response route relay direct local reason :=
    MkResponse "negotiated" NegotiationVersion route (Pair (Client sender) (Client receiver)) relay "" direct local
      reason (CommonFeatures (CFeatures sender) (CFeatures receiver)) "" in
  if negb (String.eqb (Client sender) ClientNative) || negb (String.eqb (Client receiver) ClientNative)
  then response RouteWebRTC "" false false "browser-or-webrtc-peer"
  else if NativeLocal sender || NativeLocal receiver then
    if NativeLocal sender && NativeLocal receiver
    then response RouteNative "" false true "common-lan-discovery"
    else response RouteWebRTC "" false false "no-common-native-route"
  else if relaysMatch (NativeRelay sender) (NativeRelay receiver)
  then response RouteNative (TrimSpace (NativeRelay sender)) (NativeDirect sender && NativeDirect receiver) false "common-native-relay"
  else if negb (String.eqb (TrimSpace serverRelay) "")
  then response RouteNative (TrimSpace serverRelay) (NativeDirect sender && NativeDirect receiver) false "service-native-relay"
  else if NativeDirect sender && NativeDirect receiver
  then response RouteNative "" true false "signaling-direct"
  else response RouteWebRTC "" false false "no-common-native-relay".
End routing.

(** ** What a choice promises *)

Section choice.
Context `{CaseTables}.
(** [strings.EqualFold] is symmetric, and only the empty string is equal to it. *)
Hypothesis fold_symmetric : ∀ a b, unicode_fold a b = unicode_fold b a.
Hypothesis fold_empty : ∀ a, a ≠ ""%string → unicode_fold a "" = false.

Lemma EqualFold_sym a b : EqualFold a b = EqualFold b a.
Proof using fold_symmetric.
  unfold EqualFold. rewrite (andb_comm (forall_bytes _ a)). case_match; [apply String.eqb_sym|apply fold_symmetric].
Qed.

Lemma EqualFold_empty a : EqualFold a "" = String.eqb a "".
Proof using fold_empty.
  unfold EqualFold. cbn [forall_bytes]. rewrite andb_true_r. destruct (forall_bytes is_ascii_byte a) eqn:E; [by destruct a|].
  destruct (String.eqb_spec a "") as [->|?]; [done|by apply fold_empty].
Qed.

Lemma relaysMatch_sym a b : relaysMatch a b = relaysMatch b a.
Proof using fold_symmetric fold_empty.
  unfold relaysMatch. rewrite (EqualFold_sym (TrimSpace a)).
  destruct (String.eqb_spec (TrimSpace a) "") as [->|Ha]; destruct (String.eqb_spec (TrimSpace b) "") as [->|Hb]; cbn [negb andb]; try done.
  - rewrite EqualFold_empty. by apply String.eqb_neq in Hb as ->.
  - rewrite EqualFold_sym, EqualFold_empty. by apply String.eqb_neq in Ha as ->.
Qed.

Lemma Pair_sym a b : Pair a b = Pair b a.
Proof using Type.
  unfold Pair. set (x := ToLower (TrimSpace a)). set (y := ToLower (TrimSpace b)).
  destruct (str_ltb y x) eqn:E1; destruct (str_ltb x y) eqn:E2; try done.
  - apply str_ltb_asym in E1. congruence.
  - by rewrite (str_ltb_total x y E2 E1).
Qed.

Lemma CommonFeatures_sym l r : CommonFeatures l r = CommonFeatures r l.
Proof using Type. apply list_filter_iff. intros x. by rewrite andb_comm. Qed.

Lemma CommonFeatures_spec l r x : x ∈ CommonFeatures l r ↔ x ∈ l ∧ x ∈ r ∧ x ∈ [FeatureParallelData; FeatureUnorderedData].
Proof using Type. unfold CommonFeatures. rewrite list_elem_of_filter, andb_true_iff, !containsString_elem. tauto. Qed.

(** When two native clients can be joined without WebRTC. *)
Definition native_route (s r : Capability) (relay : string) : bool :=
  if NativeLocal s || NativeLocal r then NativeLocal s && NativeLocal r
  else relaysMatch (NativeRelay s) (NativeRelay r) || negb (String.eqb (TrimSpace relay) "") || (NativeDirect s && NativeDirect r).

Local Ltac settle Hf Hd := split_and!; first [done | exact Hf | exact Hd | solve [clear; intuition discriminate] | solve [clear Hf; intuition (discriminate || congruence)] | idtac].

(** What the two peers can rely on.  The native route is chosen exactly for
    two native clients that have one in common; a client that wants to stay on
    its local network is given neither a relay nor a direct connection through
    the service; direct connections are used only when both offered them, and
    features only when both named them; a relay is one both clients named, or the
    service's own; and swapping sender and receiver changes nothing, apart from
    the spelling of a relay both of them named. *)
Theorem Choose_sound s r relay :
  let c := Choose s r relay in let c' := Choose r s relay in
  (Route c = RouteNative ↔ Client s = ClientNative ∧ Client r = ClientNative ∧ native_route s r relay = true) ∧
  (NativeLocal s = true ∨ NativeLocal r = true → Relay c = ""%string ∧ Direct c = false) ∧
  (Local c = true → NativeLocal s = true ∧ NativeLocal r = true) ∧
  (Direct c = true → NativeDirect s = true ∧ NativeDirect r = true) ∧
  (∀ x, x ∈ RFeatures c ↔ x ∈ CFeatures s ∧ x ∈ CFeatures r ∧ x ∈ [FeatureParallelData; FeatureUnorderedData]) ∧
  (Relay c ≠ ""%string → Route c = RouteNative ∧ (Relay c = TrimSpace relay ∨
     Relay c = TrimSpace (NativeRelay s) ∧ EqualFold (Relay c) (TrimSpace (NativeRelay r)) = true)) ∧
  Route c' = Route c ∧ Direct c' = Direct c ∧ Local c' = Local c ∧ Reason c' = Reason c ∧ RPair c' = RPair c ∧
  RFeatures c' = RFeatures c ∧ (Relay c' = Relay c ∨ EqualFold (Relay c') (Relay c) = true).
Proof using fold_symmetric fold_empty.
  assert (Hmatch : relaysMatch (NativeRelay s) (NativeRelay r) = true →
    EqualFold (TrimSpace (NativeRelay s)) (TrimSpace (NativeRelay r)) = true) by (unfold relaysMatch; by intros [_ ?]%andb_true_iff).
  intros c c'. unfold c', c, Choose, native_route. rewrite (Pair_sym (Client r)), (CommonFeatures_sym (CFeatures r)),
    (relaysMatch_sym (NativeRelay r)), (orb_comm (negb (String.eqb (Client r) _))), (orb_comm (NativeLocal r)),
    (andb_comm (NativeLocal r)), (andb_comm (NativeDirect r)).
  pose proof (CommonFeatures_spec (CFeatures s) (CFeatures r)) as Hf.
  assert (Hd : NativeDirect s && NativeDirect r = true → NativeDirect s = true ∧ NativeDirect r = true) by by intros ?%andb_true_iff.
  destruct (String.eqb_spec (Client s) ClientNative) as [Es|Es]; destruct (String.eqb_spec (Client r) ClientNative) as [Er|Er];
    cbn [negb orb Route Relay Direct Local Reason RPair RFeatures]; [|settle Hf Hd..].
  destruct (NativeLocal s) eqn:Ls; destruct (NativeLocal r) eqn:Lr; cbn [orb andb Route Relay Direct Local Reason RPair RFeatures]; [settle Hf Hd..|].
  destruct (relaysMatch (NativeRelay s) (NativeRelay r)); cbn [orb andb Route Relay Direct Local Reason RPair RFeatures].
  { settle Hf Hd. right. rewrite EqualFold_sym. by apply Hmatch. }
  destruct (String.eqb_spec (TrimSpace relay) "") as [Ez|Ez]; cbn [negb orb andb Route Relay Direct Local Reason RPair RFeatures].
  - destruct (NativeDirect s && NativeDirect r) eqn:Ed; cbn [Route Relay Direct Local Reason RPair RFeatures]; settle Hf Hd.
  - settle Hf Hd.
Qed.
End choice.

Definition demo_native (relay : string) (direct : bool) : Capability :=
  MkCapability "negotiate" 1 ClientNative "" relay false direct [FeatureUnorderedData; FeatureParallelData; "other"].

Lemma Choose_sound_witness :
  let Ht := ascii_tables in
  let c := Choose (demo_native "Relay.example:9001 " true) (demo_native "relay.example:9001" true) "svc:1" in
  Relay c = "Relay.example:9001"%string ∧ Direct c = true ∧ Route c = RouteNative ∧
  EqualFold (Relay c) "relay.example:9001" = true.
Proof.
  intros Ht c.
  destruct (Choose_sound (H:=ascii_tables) (λ a b, String.eqb_sym a b) (λ a Ha, proj2 (String.eqb_neq a "") Ha)
    (demo_native "Relay.example:9001 " true) (demo_native "relay.example:9001" true) "svc:1")
    as (_ & _ & _ & _ & _ & Hrelay & _).
  destruct Hrelay as [Hroute [Hbad|[Hr Hf]]]; [vm_compute; discriminate|vm_compute in Hbad; discriminate Hbad|].
  split; [vm_compute; reflexivity|]. split; [vm_compute; reflexivity|]. split; [exact Hroute|exact Hf].
Defined.
