(* ===== verification/RelayCredential.v ===== *)
(** * Credentials of the native relay ([internal/relay/credential.go])

    The service signs a room token and an expiry; the relay checks the signature
    and the clock.  The theorem: an issued credential opens its own room until it
    expires, and no other room, and every accepted credential was made by someone
    who can sign for that room and expiry. *)
From Stdlib Require Import ZArith Lia Ascii String DecimalString.
From stdpp Require Import base tactics numbers list strings.
From S2P Require Import Prelude GoStrings Json Base64.

(** ** [base64.RawURLEncoding] *)

Definition to_url (c : ascii) : ascii :=
  if Ascii.eqb c "+" then "-"%char else if Ascii.eqb c "/" then "_"%char else c.
Definition from_url (c : ascii) : option ascii :=
  if Ascii.eqb c "-" then Some "+"%char else if Ascii.eqb c "_" then Some "/"%char
  else if Ascii.eqb c "+" || Ascii.eqb c "/" || Ascii.eqb c "=" then None else Some c.
Definition not_padding (c : ascii) : bool := negb (Ascii.eqb c "=").
(** The padding the standard encoding would have. *)
Definition pad4 (n : nat) : bytes :=
  match (n mod 4)%nat with 2%nat => ["="; "="]%char | 3%nat => ["="]%char | _ => [] end.

Definition RawURLEncode (data : bytes) : string := of_bytes (to_url <$> List.filter not_padding (base64_encode data)).
Definition RawURLDecode (s : string) : option bytes :=
  l ← mapM from_url (List.filter (fun c => negb (line_break c)) (to_bytes s));
  base64_decode (l ++ pad4 (length l)).

Lemma url_char_run :
  forallb (fun n => match from_url (to_url (base64_char (N.of_nat n))) with Some c => Ascii.eqb c (base64_char (N.of_nat n)) | None => false end &&
                    negb (line_break (to_url (base64_char (N.of_nat n)))) && negb (Ascii.eqb (to_url (base64_char (N.of_nat n))) "."))
    (seq 0 64) = true.
Proof. vm_compute. reflexivity. Qed.

Lemma url_char d : (d < 64)%N →
  from_url (to_url (base64_char d)) = Some (base64_char d) ∧ line_break (to_url (base64_char d)) = false ∧
  Ascii.eqb (to_url (base64_char d)) "." = false.
Proof.
  intros Hd. pose proof url_char_run as Hr. rewrite forallb_forall in Hr.
  specialize (Hr (N.to_nat d)). rewrite N2Nat.id in Hr. specialize (Hr ltac:(apply in_seq; lia)). bool_prop.
  destruct (from_url (to_url (base64_char d))) as [c|]; [|done].
  match goal with Hx : Ascii.eqb c (base64_char d) = true |- _ => apply Ascii.eqb_eq in Hx as -> end. by split_and!.
Qed.

(** The characters of an encoding without its padding. *)
Lemma stripped l : ∃ ds, Forall (fun d => (d < 64)%N) ds ∧ List.filter not_padding (base64_encode l) = base64_char <$> ds ∧
  base64_encode l = (base64_char <$> ds) ++ pad4 (length ds).
Proof.
  assert (Hkeep : ∀ d l, (d < 64)%N → List.filter not_padding (base64_char d :: l) = base64_char d :: List.filter not_padding l).
  { intros d k Hd. cbn [List.filter]. unfold not_padding at 1. by destruct (digit_char d Hd) as (_ & -> & _). }
  induction l as [|a|a b|a b c l IH] using triple_ind; cbn [base64_encode].
  - by exists [].
  - exists [(N_of_ascii a / 4)%N; (N_of_ascii a mod 4 * 16)%N]. split; [repeat constructor; digit_bound|].
    rewrite !Hkeep by digit_bound. done.
  - exists [(N_of_ascii a / 4)%N; (N_of_ascii a mod 4 * 16 + N_of_ascii b / 16)%N; (N_of_ascii b mod 16 * 4)%N].
    split; [repeat constructor; digit_bound|]. rewrite !Hkeep by digit_bound. done.
  - destruct IH as (ds & Hds & Hf & He).
    exists ((N_of_ascii a / 4)%N :: (N_of_ascii a mod 4 * 16 + N_of_ascii b / 16)%N :: (N_of_ascii b mod 16 * 4 + N_of_ascii c / 64)%N :: (N_of_ascii c mod 64)%N :: ds).
    split; [repeat constructor; [digit_bound..|done]|]. rewrite !Hkeep by digit_bound. rewrite Hf. split; [done|].
    cbn [fmap list_fmap app length]. rewrite He. do 4 f_equal. f_equal. unfold pad4.
    replace (S (S (S (S (length ds))))) with (length ds + 1 * 4)%nat by lia. by rewrite Nat.Div0.mod_add.
Qed.

Lemma RawURLDecode_Encode data : RawURLDecode (RawURLEncode data) = Some data.
Proof.
  destruct (stripped data) as (ds & Hds & Hf & He). unfold RawURLDecode, RawURLEncode.
  rewrite list_ascii_of_string_of_list_ascii, Hf.
  assert (Hl : List.filter (fun c => negb (line_break c)) (to_url <$> (base64_char <$> ds)) = to_url <$> (base64_char <$> ds)).
  { clear Hf He. induction Hds as [|d ds Hd _ IH]; [done|]. cbn [fmap list_fmap List.filter].
    destruct (url_char d Hd) as (_ & -> & _). cbn [negb]. by rewrite IH. }
  assert (Hm : mapM from_url (to_url <$> (base64_char <$> ds)) = Some (base64_char <$> ds)).
  { clear Hf He Hl. induction Hds as [|d ds Hd _ IH]; [done|]. cbn [fmap list_fmap mapM].
    destruct (url_char d Hd) as (-> & _). cbn [mbind option_bind]. by rewrite IH. }
  rewrite Hl, Hm. cbn [mbind option_bind]. rewrite length_fmap, <- He. apply base64_roundtrip.
Qed.

Lemma RawURLEncode_no_dot data : has_byte "."%char (RawURLEncode data) = false.
Proof.
  destruct (stripped data) as (ds & Hds & Hf & _). unfold RawURLEncode. rewrite Hf. clear Hf.
  induction Hds as [|d ds Hd _ IH]; [done|]. cbn [fmap list_fmap of_bytes string_of_list_ascii has_byte].
  destruct (url_char d Hd) as (_ & _ & ->). exact IH.
Qed.

(** ** Credentials *)

(** [crypto/hmac] with SHA-256: key, message. *)
Class Hmac := {
  hmac_sha256 : bytes → bytes → bytes;
  hmac_length key msg : length (hmac_sha256 key msg) = 32%nat;
}.

Definition relayCredentialVersion : string := "v1".
Definition second_ns : Z := 10 ^ 9.
(** [t.Unix()] of a time in nanoseconds. *)
Definition Unix (t : Z) : Z := t / second_ns.
(** The zero [time.Time], midnight of January 1 of year 1. *)
Definition zero_time : Z := -62135596800 * second_ns.

Inductive credential_error := SecretEmpty | RoomTokenEmpty | ExpiryEmpty.

Section credential.
Context `{Hmac}.

Definition line_feed : string := of_bytes [byte_of 10].
Definition credential_message (roomToken expiry : string) : bytes :=
  to_bytes ("kigo-relay-v1" +:+ line_feed +:+ roomToken +:+ line_feed +:+ expiry).
Definition signCredential (secret roomToken expiry : string) : bytes :=
  hmac_sha256 (to_bytes secret) (credential_message roomToken expiry).

Definition IssueCredential (secret roomToken : string) (expires : Z) : result credential_error string :=
  _ ← fail_if (String.eqb secret "") SecretEmpty;
  _ ← fail_if (String.eqb roomToken "") RoomTokenEmpty;
  _ ← fail_if (expires =? zero_time) ExpiryEmpty;
  let expiry := Itoa (Unix expires) in
  let signature := signCredential secret roomToken expiry in
  Ok (relayCredentialVersion +:+ "." +:+ expiry +:+ "." +:+ RawURLEncode signature).

Definition ValidateCredential (secret roomToken credential : string) (now : Z) : bool :=
  if String.eqb secret "" || String.eqb roomToken "" || String.eqb credential "" then false
  else match split_on "."%char credential with
       | [version; expiry; encoded] =>
           if negb (String.eqb version relayCredentialVersion) then false
           else match ParseInt expiry with
                | None => false
                | Some expires =>
                    if negb (now <? expires * second_ns) then false
                    else match RawURLDecode encoded with
                         | None => false
                         | Some signature =>
                             if negb (Z.of_nat (length signature) =? 32) then false
                             else bool_decide (signature = signCredential secret roomToken expiry)
                         end
                end
       | _ => false
       end.

Lemma uint_no_dot u : has_byte "."%char (NilEmpty.string_of_uint u) = false.
Proof. by induction u. Qed.

Lemma Itoa_no_dot z : has_byte "."%char (Itoa z) = false.
Proof.
  unfold Itoa, NilZero.string_of_int.
  assert (Hu : ∀ u, has_byte "."%char (NilZero.string_of_uint u) = false) by (intros u; destruct u; try done; apply uint_no_dot).
  destruct (Z.to_int z) as [u|u]; [apply Hu|]. cbn [has_byte]. apply Hu.
Qed.

(** What an accepted credential is. *)
Lemma Validate_inv secret room cred now :
  ValidateCredential secret room cred now = true →
  secret ≠ ""%string ∧ room ≠ ""%string ∧ ∃ expiry encoded expires,
    cred = relayCredentialVersion +:+ "." +:+ expiry +:+ "." +:+ encoded ∧
    has_byte "."%char expiry = false ∧ has_byte "."%char encoded = false ∧
    ParseInt expiry = Some expires ∧ now < expires * second_ns ∧
    RawURLDecode encoded = Some (signCredential secret room expiry).
Proof.
  unfold ValidateCredential. destruct (_ || _) eqn:E; [done|].
  apply orb_false_elim in E as [[E1 E2]%orb_false_elim _]. apply String.eqb_neq in E1, E2.
  pose proof (join_split "."%char cred) as Hj. pose proof (split_on_parts "."%char cred) as Hp.
  destruct (split_on "."%char cred) as [|v [|e [|x [|? ?]]]]; try done. cbn [join_with] in Hj.
  destruct (String.eqb_spec v relayCredentialVersion) as [->|]; [|done]. cbn [negb].
  destruct (ParseInt e) as [expires|] eqn:Ep; [|done]. destruct (now <? expires * second_ns) eqn:En; [|done]. cbn [negb].
  destruct (RawURLDecode x) as [sig|] eqn:Ed; [|done]. destruct (_ =? 32); [|done]. cbn [negb].
  intros Hs%bool_decide_eq_true_1. subst sig. split_and!; try done. exists e, x, expires.
  rewrite !Forall_cons in Hp. destruct Hp as (_ & Hpe & Hpx & _). bool_prop. by split_and!.
Qed.

(** The expiry is the part after the last line feed. *)
Lemma digits_no_line s u : NilEmpty.uint_of_string s = Some u → has_byte (byte_of 10) s = false.
Proof.
  revert u. induction s as [|c s IH]; intros u; [done|]. cbn [NilEmpty.uint_of_string has_byte].
  destruct (NilEmpty.uint_of_string s) as [v|]; [|done]. intros Hu. destruct (Ascii.eqb_spec c (byte_of 10)) as [->|]; [done|]. by eapply IH.
Qed.

Lemma ParseInt_no_line s z : ParseInt s = Some z → has_byte (byte_of 10) s = false.
Proof.
  intros Hp. assert (Hd : ∀ d v, parse_digits d = Some v → has_byte (byte_of 10) d = false).
  { intros d v. unfold parse_digits. destruct (NilZero.uint_of_string d) as [u|] eqn:Eu; [|done]. intros _.
    destruct d; [done|]. by eapply digits_no_line. }
  unfold ParseInt in Hp. destruct s as [|c s]; [done|].
  destruct (Ascii.eqb_spec c "+"%char) as [->|Hplus].
  { destruct (parse_digits s) eqn:E; [|done]. cbn. by eapply Hd. }
  destruct (Ascii.eqb_spec c "-"%char) as [->|Hminus].
  { destruct (parse_digits s) eqn:E; [|done]. cbn. by eapply Hd. }
  assert (parse_digits (String c s) ≠ None).
  { intros E. destruct c as [[] [] [] [] [] [] [] []]; rewrite ?E in Hp; done. }
  destruct (parse_digits (String c s)) eqn:E; [by eapply Hd|done].
Qed.

Lemma last_part c x y a b :
  has_byte c a = false → has_byte c b = false → x +:+ String c a = y +:+ String c b → x = y ∧ a = b.
Proof.
  intros Ha Hb. revert y. induction x as [|d x IH]; intros [|e y]; cbn [String.append].
  - by intros [= ->].
  - intros [= _ E]. rewrite E, has_byte_app in Ha. cbn [has_byte] in Ha. by rewrite Ascii.eqb_refl, orb_true_r in Ha.
  - intros [= _ E]. rewrite <- E, has_byte_app in Hb. cbn [has_byte] in Hb. by rewrite Ascii.eqb_refl, orb_true_r in Hb.
  - intros [= -> E]. by destruct (IH y E) as [-> ->].
Qed.

Lemma credential_message_inj room room' expiry expiry' :
  has_byte (byte_of 10) expiry = false → has_byte (byte_of 10) expiry' = false →
  credential_message room expiry = credential_message room' expiry' → room = room' ∧ expiry = expiry'.
Proof.
  unfold credential_message. intros He He' E.
  assert (Hs : "kigo-relay-v1" +:+ line_feed +:+ room +:+ line_feed +:+ expiry =
               "kigo-relay-v1" +:+ line_feed +:+ room' +:+ line_feed +:+ expiry').
  { rewrite <- (string_of_list_ascii_of_string (_ +:+ line_feed +:+ room +:+ _)), E. apply string_of_list_ascii_of_string. }
  apply string_app_inj_l, string_app_inj_l in Hs. by eapply last_part.
Qed.

Lemma Itoa_no_line z : in_int64 z → has_byte (byte_of 10) (Itoa z) = false.
Proof. intros Hz. eapply ParseInt_no_line. by apply ParseInt_Itoa. Qed.

(** Two messages with one signature. *)
Definition collision (secret : string) (m m' : bytes) : Prop :=
  m ≠ m' ∧ hmac_sha256 (to_bytes secret) m = hmac_sha256 (to_bytes secret) m'.

Lemma Validate_issued secret room expires cred room' now :
  IssueCredential secret room expires = Ok cred → in_int64 (Unix expires) →
  ValidateCredential secret room' cred now = true ↔
    room' ≠ ""%string ∧ now < Unix expires * second_ns ∧
    (room' = room ∨ collision secret (credential_message room (Itoa (Unix expires))) (credential_message room' (Itoa (Unix expires)))).
Proof.
  intros Hi Hr.
  set (e := Itoa (Unix expires)). set (sig := signCredential secret room e).
  assert (cred = relayCredentialVersion +:+ "." +:+ e +:+ "." +:+ RawURLEncode sig ∧ secret ≠ ""%string) as [Hc Hsec].
  { unfold IssueCredential in Hi. destruct (String.eqb_spec secret ""); [done|]. destruct (String.eqb room ""); [done|].
    destruct (expires =? zero_time); [done|]. by injection Hi as <-. }
  assert (Hsplit : split_on "."%char cred = [relayCredentialVersion; e; RawURLEncode sig]).
  { rewrite Hc. apply (split_join "."%char [relayCredentialVersion; e; RawURLEncode sig]); [done|].
    repeat constructor; [apply Itoa_no_dot|apply RawURLEncode_no_dot]. }
  assert (Hne : String.eqb cred "" = false) by by rewrite Hc.
  unfold ValidateCredential. rewrite Hsplit. unfold e at 1. rewrite ParseInt_Itoa, RawURLDecode_Encode by done.
  rewrite String.eqb_refl. unfold sig at 1, signCredential at 1. rewrite hmac_length, Hne, orb_false_r. cbn [negb].
  destruct (String.eqb_spec secret "") as [->|_]; [done|]. cbn [orb].
  destruct (String.eqb_spec room' "") as [->|Hroom]; [split; [done|by intros [? _]]|].
  destruct (now <? _) eqn:En; bool_prop; cbn [negb]; [|split; [done|lia]].
  replace (Z.of_nat 32 =? 32) with true by done. cbn [negb]. rewrite bool_decide_eq_true. unfold collision, sig, signCredential. split.
  - intros E. split; [done|]. split; [lia|].
    destruct (decide (credential_message room e = credential_message room' e)) as [Em|]; [|by right].
    left. by destruct (credential_message_inj room room' e e) as [-> _]; [apply Itoa_no_line..|exact Em|].
  - by intros (_ & _ & [->|[_ ?]]).
Qed.

(** C25: an issued credential is accepted before the second it expires in for the
    room it was issued for, and for another room only if the signatures of the
    two rooms' messages collide.  Whatever is accepted at all carries the
    signature of that very room and expiry; so whatever is accepted with the
    issued signature, though it names another room or another expiry, is a
    collision of the keyed hash on two different messages. *)
Theorem credential_opens_its_room secret room expires cred :
  IssueCredential secret room expires = Ok cred → in_int64 (Unix expires) →
  (∀ room' now, ValidateCredential secret room' cred now = true ↔
     room' ≠ ""%string ∧ now < Unix expires * second_ns ∧
     (room' = room ∨ collision secret (credential_message room (Itoa (Unix expires))) (credential_message room' (Itoa (Unix expires))))) ∧
  (∀ cred' room' now, ValidateCredential secret room' cred' now = true → ∃ expiry encoded expires' signature,
     cred' = relayCredentialVersion +:+ "." +:+ expiry +:+ "." +:+ encoded ∧ ParseInt expiry = Some expires' ∧
     now < expires' * second_ns ∧ RawURLDecode encoded = Some signature ∧ signature = signCredential secret room' expiry ∧
     (signature = signCredential secret room (Itoa (Unix expires)) →
        room' = room ∧ expiry = Itoa (Unix expires) ∨
        collision secret (credential_message room (Itoa (Unix expires))) (credential_message room' expiry))).
Proof.
  intros Hi Hr. split; [intros room' now; by apply Validate_issued|].
  intros cred' room' now (_ & _ & expiry & encoded & e & ? & _ & _ & Hp & ? & ?)%Validate_inv.
  exists expiry, encoded, e, (signCredential secret room' expiry). split_and!; try done. intros Hs.
  destruct (decide (room' = room ∧ expiry = Itoa (Unix expires))) as [|Hne]; [by left|right]. split; [|done].
  intros Hm. apply Hne. apply credential_message_inj in Hm as [-> ->]; [done|by apply Itoa_no_line|by eapply ParseInt_no_line].
Qed.
End credential.

Lemma demo_hmac_length (key msg : bytes) : length (take 32 (rev msg ++ replicate 32 "0"%char)) = 32%nat.
Proof. rewrite length_take, length_app, length_replicate. lia. Qed.
Definition demo_hmac : Hmac := {|
  hmac_sha256 key msg := take 32 (rev msg ++ replicate 32 "0"%char);
  hmac_length := demo_hmac_length;
|}.

(** The signature of the demonstration reads the expiry: another expiry under the
    issued signature is refused. *)
Lemma credential_opens_its_room_witness :
  let Hh := demo_hmac in
  ∃ cred, IssueCredential "secret" "room" (1700000000 * second_ns + 5) = Ok cred ∧
    ValidateCredential "secret" "room" cred (1699999999 * second_ns) = true ∧
    ValidateCredential "secret" "room" cred (1700000000 * second_ns) = false ∧
    ∃ other, IssueCredential "secret" "room" (1700000001 * second_ns) = Ok other ∧
      signCredential "secret" "room" "1700000001" ≠ signCredential "secret" "room" "1700000000" ∧
      ∃ expiry encoded, other = relayCredentialVersion +:+ "." +:+ expiry +:+ "." +:+ encoded ∧
        RawURLDecode encoded = Some (signCredential "secret" "room" expiry).
Proof.
  intros Hh.
  destruct (IssueCredential "secret" "room" (1700000000 * second_ns + 5)) as [cred|] eqn:E; [|vm_compute in E; discriminate E].
  assert (Hr : in_int64 (Unix (1700000000 * second_ns + 5))) by (vm_compute; split; discriminate).
  destruct (credential_opens_its_room "secret" "room" (1700000000 * second_ns + 5) cred E Hr) as [Hv Hall].
  exists cred. split; [reflexivity|]. split; [|split].
  - apply Hv. split; [discriminate|]. split; [vm_compute; reflexivity|left; reflexivity].
  - apply not_true_is_false. intros [_ [Hlt _]]%Hv. vm_compute in Hlt. discriminate Hlt.
  - destruct (IssueCredential "secret" "room" (1700000001 * second_ns)) as [other|] eqn:Eo; [|vm_compute in Eo; discriminate Eo].
    exists other. split; [reflexivity|]. split; [vm_compute; discriminate|].
    destruct (Hall other "room"%string 0) as (expiry & encoded & e & sig & Ho & _ & _ & Hd & -> & _).
    { injection Eo as <-. vm_compute. reflexivity. }
    exists expiry, encoded. split; [exact Ho|exact Hd].
Defined.
