(* ===== verification/Netip.v ===== *)
(** * IP addresses ([net/netip])

    Parsing of addresses and the classes of addresses the program asks about.
    An address is its bytes, four or sixteen, and the zone of an IPv6 address. *)
From Stdlib Require Import ZArith Lia Ascii String.
From stdpp Require Import base tactics numbers list strings.
From S2P Require Import Prelude GoStrings.

Record Addr := MkAddr { octets : list Z; azone : string }.
#[export] Instance Addr_eq_dec : EqDecision Addr.
Proof. solve_decision. Defined.

Definition Is4 (a : Addr) : bool := Nat.eqb (length (octets a)) 4.
Definition Is6 (a : Addr) : bool := Nat.eqb (length (octets a)) 16.

(** ** Parsing *)

(** One field of a dotted address: digits without a leading zero, at most 255. *)
Definition ipv4_field (s : string) : option Z :=
  if negb (forall_bytes is_digit s) then None
  else match parse_digits s with
       | Some z => if (str_len s >? 1) && has_prefix s "0" then None else if z >? 255 then None else Some z
       | None => None
       end.

Definition parseIPv4Fields (s : string) : option (list Z) :=
  match split_on "."%char s with
  | [a; b; c; d] => a ← ipv4_field a; b ← ipv4_field b; c ← ipv4_field c; d ← ipv4_field d; Some [a; b; c; d]
  | _ => None
  end.

Definition hex_value (c : ascii) : option Z :=
  let n := Z.of_N (N_of_ascii c) in
  if is_digit c then Some (n - 48)
  else if in_byte_range "a"%char "f"%char c then Some (n - 87)
  else if in_byte_range "A"%char "F"%char c then Some (n - 55)
  else None.

(** The digits of one group: at most four of them, their value, what follows. *)
Fixpoint hex_group (off : Z) (acc : Z) (s : bytes) : option (Z * Z * bytes) :=
  match s with
  | [] => Some (off, acc, [])
  | c :: rest =>
      match hex_value c with
      | None => Some (off, acc, s)
      | Some d => if off >? 3 then None else hex_group (off + 1) (acc * 16 + d) rest
      end
  end.

(** The groups: bytes so far, position of the ellipsis; at most eight turns. *)
Fixpoint ipv6_groups (fuel : nat) (s : bytes) (ip : list Z) (ellipsis : option nat) : option (bytes * list Z * option nat) :=
  match fuel with
  | O => Some (s, ip, ellipsis)
  | S fuel =>
      '(off, acc, rest) ← hex_group 0 0 s;
      if off =? 0 then None
      else match rest with
           | "."%char :: _ =>
               if bool_decide (ellipsis = None) && negb (Nat.eqb (length ip) 12) then None
               else if (12 <? length ip)%nat then None
               else v4 ← parseIPv4Fields (of_bytes s); Some ([], ip ++ v4, ellipsis)
           | _ =>
               let ip := ip ++ [acc / 256; acc mod 256] in
               match rest with
               | [] => Some ([], ip, ellipsis)
               | c :: s =>
                   if negb (Ascii.eqb c ":") then None
                   else match s with
                        | [] => None
                        | ":"%char :: s' =>
                            if bool_decide (ellipsis ≠ None) then None
                            else match s' with
                                 | [] => Some ([], ip, Some (length ip))
                                 | _ => ipv6_groups fuel s' ip (Some (length ip))
                                 end
                        | _ => ipv6_groups fuel s ip ellipsis
                        end
               end
           end
  end.

Definition ipv6_bytes (s : bytes) : option (list Z) :=
  let '(s, ellipsis, empty) :=
    match s with
    | ":"%char :: ":"%char :: rest => (rest, Some 0%nat, bool_decide (rest = []))
    | _ => (s, None, false)
    end in
  if empty : bool then Some (replicate 16 0)
  else
    '(rest, ip, ellipsis) ← ipv6_groups 8 s [] ellipsis;
    if negb (bool_decide (rest = [])) then None
    else if (length ip <? 16)%nat then
      e ← ellipsis; Some (take e ip ++ replicate (16 - length ip) 0 ++ drop e ip)
    else if bool_decide (ellipsis ≠ None) then None else Some ip.

(** The part before the first ["%"] and the zone after it. *)
Definition cut_zone (s : bytes) : bytes * option bytes :=
  match index_byte "%"%char s with Some i => (take i s, Some (drop (S i) s)) | None => (s, None) end.

Definition parseIPv6 (s : bytes) : option Addr :=
  match cut_zone s with
  | (_, Some []) => None
  | (s, zone) => ip ← ipv6_bytes s; Some (MkAddr ip (of_bytes (default [] zone)))
  end.

Fixpoint first_mark (s : bytes) : option ascii :=
  match s with
  | [] => None
  | c :: s => if Ascii.eqb c "." || Ascii.eqb c ":" || Ascii.eqb c "%" then Some c else first_mark s
  end.

Definition ParseAddr (s : string) : option Addr :=
  match first_mark (to_bytes s) with
  | Some "."%char => ip ← parseIPv4Fields s; Some (MkAddr ip "")
  | Some ":"%char => parseIPv6 (to_bytes s)
  | _ => None
  end.

(** ** Classes *)

(** An IPv4 address mapped into IPv6. *)
Definition Is4In6 (a : Addr) : bool :=
  Is6 a && bool_decide (take 12 (octets a) = replicate 10 0 ++ [255; 255]).
Definition Unmap (a : Addr) : Addr := if Is4In6 a then MkAddr (drop 12 (octets a)) "" else a.

Definition octet (a : Addr) (i : nat) : Z := nth i (octets a) 0.

Definition IsLoopback (a : Addr) : bool :=
  let a := if Is4In6 a then Unmap a else a in
  if Is4 a then octet a 0 =? 127
  else bool_decide (octets a = replicate 15 0 ++ [1]).
Definition IsUnspecified (a : Addr) : bool :=
  bool_decide (a = MkAddr (replicate 4 0) "") || bool_decide (a = MkAddr (replicate 16 0) "").
Definition IsPrivate (a : Addr) : bool :=
  let a := if Is4In6 a then Unmap a else a in
  if Is4 a then
    (octet a 0 =? 10) || ((octet a 0 =? 172) && (Z.land (octet a 1) 240 =? 16)) || ((octet a 0 =? 192) && (octet a 1 =? 168))
  else Z.land (octet a 0) 254 =? 252.
Definition IsMulticast (a : Addr) : bool :=
  let a := if Is4In6 a then Unmap a else a in
  if Is4 a then Z.land (octet a 0) 240 =? 224 else octet a 0 =? 255.
Definition IsLinkLocalUnicast (a : Addr) : bool :=
  let a := if Is4In6 a then Unmap a else a in
  if Is4 a then (octet a 0 =? 169) && (octet a 1 =? 254)
  else (octet a 0 =? 254) && (Z.land (octet a 1) 192 =? 128).
Definition IsGlobalUnicast (a : Addr) : bool :=
  let b := if Is4In6 a then Unmap a else a in
  if Is4 b && (bool_decide (octets b = replicate 4 0) || bool_decide (octets b = replicate 4 255)) then false
  else negb (IsUnspecified a) && negb (IsLoopback a) && negb (IsMulticast a) && negb (IsLinkLocalUnicast a).

Example parse_v4 : ParseAddr "192.168.0.17" = Some (MkAddr [192; 168; 0; 17] "").
Proof. reflexivity. Qed.
Example parse_v4_bad : ParseAddr <$> ["1.2.3"; "1.2.3.4.5"; "01.2.3.4"; "256.1.1.1"; "1.2.3."; "1.2.3.4 "; ""; "host"]%string = replicate 8 None.
Proof. reflexivity. Qed.
Example parse_v6 : ParseAddr "2001:db8::1%eth0" = Some (MkAddr ([32; 1; 13; 184] ++ replicate 11 0 ++ [1]) "eth0").
Proof. reflexivity. Qed.
Example parse_mapped : Unmap <$> ParseAddr "::ffff:10.0.0.1" = Some (MkAddr [10; 0; 0; 1] "").
Proof. reflexivity. Qed.
Example parse_v6_bad : ParseAddr <$> ["::1%"; "1::2::3"; "1:2:3:4:5:6:7"; "1:2:3:4:5:6:7:8:9"; "12345::"; "1:2:3:4:5:6:7:8::"; ":1"; "1:"; "%eth0"]%string = replicate 9 None.
Proof. reflexivity. Qed.
