(* ===== verification/DirectCandidate.v ===== *)
(** * Candidates for a direct connection ([internal/directcandidate])

    The addresses a client offers to be reached at, with their kinds and
    priorities.  The theorem: merging what a peer advertised yields at most eight
    distinct valid candidates, highest priority first, one for each usable
    address among the first, and the metadata a peer may attach cannot smuggle in
    an address it did not advertise. *)
From Stdlib Require Import ZArith Lia Ascii String.
From stdpp Require Import base tactics numbers list strings sorting.
From S2P Require Import Prelude GoStrings Netip.

Definition MaxCandidates : Z := 8.
Definition KindManual : string := "manual".
Definition KindIPv6Global : string := "ipv6-global".
Definition KindLAN : string := "lan".
Definition KindPublic : string := "public".
Definition KindLoopback : string := "loopback".
Definition KindUnknown : string := "unknown".
Definition PriorityManual : Z := 100.
Definition PriorityIPv6Global : Z := 90.
Definition PriorityLAN : Z := 70.
Definition PriorityUnknown : Z := 50.
Definition PriorityPublic : Z := 30.
Definition PriorityLoopback : Z := 20.

Record Candidate := MkCandidate { Address : string; Kind : string; Priority : Z }.
#[export] Instance Candidate_eq_dec : EqDecision Candidate.
Proof. solve_decision. Defined.

Inductive candidate_error :=
  | InvalidCandidate (address : string)
  | InvalidKind (kind : string)
  | InvalidPriority (priority : Z)
  | TooManyCandidates (n : Z)
  | TooManyMetadata (n : Z)
  | NotAdvertised (address : string)
  | DuplicateMetadata (address : string).

#[export] Instance candidate_error_eq_dec : EqDecision candidate_error.
Proof. solve_decision. Defined.

Definition ValidateAddress (address : string) : result candidate_error unit :=
  _ ← fail_if (String.eqb address "" || negb (String.eqb (TrimSpace address) address)) (InvalidCandidate address);
  match SplitHostPort address with
  | None => Err (InvalidCandidate address)
  | Some (host, portText) =>
      _ ← fail_if (String.eqb (TrimSpace host) "" || negb (String.eqb (TrimSpace host) host)) (InvalidCandidate address);
      match ParseInt portText with
      | None => Err (InvalidCandidate address)
      | Some port => fail_if ((port <? 1) || (port >? 65535)) (InvalidCandidate address)
      end
  end.

Definition ValidKind (kind : string) : bool :=
  containsString [KindManual; KindIPv6Global; KindLAN; KindPublic; KindLoopback; KindUnknown] kind.

Definition Validate (c : Candidate) : result candidate_error unit :=
  _ ← ValidateAddress (Address c);
  _ ← fail_if (negb (ValidKind (Kind c))) (InvalidKind (Kind c));
  fail_if ((Priority c <? 0) || (Priority c >? 100)) (InvalidPriority (Priority c)).

Definition FromAddress (address : string) (manual : bool) : result candidate_error Candidate :=
  _ ← ValidateAddress address;
  if manual then Ok (MkCandidate address KindManual PriorityManual)
  else
    let host := match SplitHostPort address with Some (host, _) => host | None => ""%string end in
    match ParseAddr host with
    | None => Ok (MkCandidate address KindUnknown PriorityUnknown)
    | Some ip =>
        let ip := Unmap ip in
        if IsLoopback ip then Ok (MkCandidate address KindLoopback PriorityLoopback)
        else if IsPrivate ip then Ok (MkCandidate address KindLAN PriorityLAN)
        else if Is6 ip && IsGlobalUnicast ip then Ok (MkCandidate address KindIPv6Global PriorityIPv6Global)
        else Ok (MkCandidate address KindUnknown PriorityUnknown)
    end.

Definition FromRelayObservation (address : string) : result candidate_error Candidate :=
  candidate ← FromAddress address false;
  if String.eqb (Kind candidate) KindIPv6Global then Ok candidate
  else Ok (MkCandidate address KindPublic PriorityPublic).

(** The loops of [ValidateSet], with the addresses seen so far. *)
Fixpoint validate_addresses (addresses : list string) : result candidate_error unit :=
  match addresses with
  | [] => Ok tt
  | a :: addresses => _ ← ValidateAddress a; validate_addresses addresses
  end.
Fixpoint validate_metadata (known seen : list string) (metadata : list Candidate) : result candidate_error unit :=
  match metadata with
  | [] => Ok tt
  | c :: metadata =>
      _ ← Validate c;
      _ ← fail_if (negb (containsString known (Address c))) (NotAdvertised (Address c));
      _ ← fail_if (containsString seen (Address c)) (DuplicateMetadata (Address c));
      validate_metadata known (Address c :: seen) metadata
  end.

Definition ValidateSet (addresses : list string) (metadata : list Candidate) : result candidate_error unit :=
  _ ← fail_if (Z.of_nat (length addresses) >? MaxCandidates) (TooManyCandidates (Z.of_nat (length addresses)));
  _ ← fail_if (Z.of_nat (length metadata) >? MaxCandidates) (TooManyMetadata (Z.of_nat (length metadata)));
  _ ← validate_addresses addresses;
  validate_metadata addresses [] metadata.

(** [byAddress]: the first valid entry of each address. *)
Definition by_address (metadata : list Candidate) (address : string) : option Candidate :=
  List.find (fun c => String.eqb (Address c) address && is_ok (Validate c)) metadata.

(** The loop over the addresses, with those taken so far. *)
Fixpoint merge_loop (metadata : list Candidate) (addresses : list string) (out : list Candidate) : list Candidate :=
  match addresses with
  | [] => out
  | a :: addresses =>
      if Z.of_nat (length out) >=? MaxCandidates then out
      else if containsString (Address <$> out) a then merge_loop metadata addresses out
      else match by_address metadata a with
           | Some c => merge_loop metadata addresses (out ++ [c])
           | None => match FromAddress a false with
                     | Ok c => merge_loop metadata addresses (out ++ [c])
                     | Err _ => merge_loop metadata addresses out
                     end
           end
  end.

Definition higher_priority (a b : Candidate) : bool := Priority a >? Priority b.

Definition Merge (addresses : list string) (metadata : list Candidate) : list Candidate :=
  sort_stable higher_priority (merge_loop metadata addresses []).

Fixpoint addresses_loop (candidates : list Candidate) (out : list string) : list string :=
  match candidates with
  | [] => out
  | c :: candidates =>
      if Z.of_nat (length out) >=? MaxCandidates then out
      else if negb (is_ok (Validate c)) then addresses_loop candidates out
      else if containsString out (Address c) then addresses_loop candidates out
      else addresses_loop candidates (out ++ [Address c])
  end.
Definition Addresses (candidates : list Candidate) : list string := addresses_loop candidates [].

(** ** What merging gives *)

Lemma Validate_address c : Validate c = Ok tt → ValidateAddress (Address c) = Ok tt.
Proof. unfold Validate. destruct (ValidateAddress (Address c)) as [[]|]; [done|]. intros [=]. Qed.

Lemma FromAddress_ok a manual c : FromAddress a manual = Ok c → Address c = a ∧ Validate c = Ok tt.
Proof.
  unfold FromAddress, Validate. destruct (ValidateAddress a) as [[]|e] eqn:E; [|done]. cbn [mbind result_bind].
  intros Hc. repeat case_match; injection Hc as <-; cbn [Address]; by rewrite E.
Qed.
Lemma FromAddress_total a manual : ValidateAddress a = Ok tt → ∃ c, FromAddress a manual = Ok c.
Proof.
  unfold FromAddress. intros ->. cbn [mbind result_bind]. repeat case_match; eauto.
Qed.

Lemma by_address_Some metadata a c : by_address metadata a = Some c → c ∈ metadata ∧ Address c = a ∧ Validate c = Ok tt.
Proof.
  unfold by_address. intros [Hin Hb]%List.find_some. apply andb_true_iff in Hb as [Ha%String.eqb_eq Hv].
  split; [by apply list_elem_of_In|]. split; [done|]. by destruct (Validate c) as [[]|].
Qed.

(** Where a merged candidate comes from. *)
Definition origin (metadata : list Candidate) (c : Candidate) : Prop :=
  by_address metadata (Address c) = Some c ∨ (by_address metadata (Address c) = None ∧ FromAddress (Address c) false = Ok c).

Lemma merge_loop_spec metadata addresses out :
  let out' := merge_loop metadata addresses out in
  Z.of_nat (length out) ≤ MaxCandidates → NoDup (Address <$> out) → Forall (origin metadata) out →
  Z.of_nat (length out') ≤ MaxCandidates ∧ NoDup (Address <$> out') ∧ Forall (origin metadata) out' ∧
  (∀ c, c ∈ out' → c ∈ out ∨ Address c ∈ addresses) ∧ (Address <$> out) `prefix_of` (Address <$> out') ∧
  (Z.of_nat (length out') < MaxCandidates → ∀ a, a ∈ addresses → ValidateAddress a = Ok tt → a ∈ Address <$> out').
Proof.
  revert out. induction addresses as [|a addresses IH]; intros out; cbn [merge_loop].
  { intros Hl Hn Ho. split_and!; try done; [by left|by intros _ a ?%not_elem_of_nil]. }
  intros Hl Hn Ho. destruct (Z.geb_spec (Z.of_nat (length out)) MaxCandidates) as [Hfull|Hroom].
  { split_and!; try done; [by left|lia]. }
  destruct (containsString (Address <$> out) a) eqn:Es.
  { apply containsString_elem in Es. destruct (IH out Hl Hn Ho) as (H1 & H2 & H3 & H4 & H5 & H6). split_and!; try done.
    - intros c Hc. destruct (H4 c Hc); [by left|right; by right].
    - intros Hlt x [->|Hx]%elem_of_cons Hv; [by eapply elem_of_prefix|by apply H6]. }
  assert (Hnew : a ∉ Address <$> out) by (intros Hin%containsString_elem; congruence).
  (* a candidate is added *)
  assert (Hadd : ∀ c, Address c = a → origin metadata c →
    let out' := merge_loop metadata addresses (out ++ [c]) in
    Z.of_nat (length out') ≤ MaxCandidates ∧ NoDup (Address <$> out') ∧ Forall (origin metadata) out' ∧
    (∀ c, c ∈ out' → c ∈ out ∨ Address c ∈ a :: addresses) ∧ (Address <$> out) `prefix_of` (Address <$> out') ∧
    (Z.of_nat (length out') < MaxCandidates → ∀ x, x ∈ a :: addresses → ValidateAddress x = Ok tt → x ∈ Address <$> out')).
  { intros c Ha Hc out'. destruct (IH (out ++ [c])) as (H1 & H2 & H3 & H4 & H5 & H6).
    - rewrite length_app. cbn. lia.
    - rewrite fmap_app. apply NoDup_app. split; [done|]. split; [|apply NoDup_singleton].
      intros x Hx Hx'. apply list_elem_of_singleton in Hx'. subst x. by rewrite Ha in Hx.
    - apply Forall_app. split; [done|by apply Forall_singleton].
    - fold out' in H1, H2, H3, H4, H5, H6. split_and!; try done.
      + intros x Hx. destruct (H4 x Hx) as [[?|Hx']%elem_of_app|?]; [by left|right|right; by right].
        apply list_elem_of_singleton in Hx'. subst x. rewrite Ha. by left.
      + etrans; [|exact H5]. rewrite fmap_app. by apply prefix_app_r.
      + intros Hlt x [->|Hx]%elem_of_cons Hv; [|by apply H6]. eapply elem_of_prefix; [|exact H5]. rewrite fmap_app, elem_of_app.
        right. apply list_elem_of_singleton. done. }
  destruct (by_address metadata a) as [c|] eqn:Eb.
  { apply Hadd; [by apply by_address_Some in Eb as (_ & ? & _)|left]. pose proof (by_address_Some _ _ _ Eb) as (_ & -> & _). done. }
  destruct (FromAddress a false) as [c|e] eqn:Ef.
  { pose proof (FromAddress_ok _ _ _ Ef) as [Ha _]. apply Hadd; [done|]. right. by rewrite Ha. }
  destruct (IH out Hl Hn Ho) as (H1 & H2 & H3 & H4 & H5 & H6). split_and!; try done.
  - intros c Hc. destruct (H4 c Hc); [by left|right; by right].
  - intros Hlt x [->|Hx]%elem_of_cons Hv; [|by apply H6]. destruct (FromAddress_total a false Hv) as [c Hc]. congruence.
Qed.

#[export] Instance higher_priority_weak : StrictWeak higher_priority.
Proof. split; unfold higher_priority; intros; rewrite Z.gtb_ltb in *; bool_prop; lia. Qed.

Lemma StronglySorted_weaken {A} (R S : A → A → Prop) l : (∀ a b, R a b → S a b) → StronglySorted R l → StronglySorted S l.
Proof. intros Hi. induction 1 as [|a l _ IH Hall]; constructor; [done|]. eapply Forall_impl; [done|auto]. Qed.

(** Merging a peer's advertisement.  The result holds at most eight
    candidates, all valid, with distinct addresses, highest priority first; every
    one has an address the peer advertised, with the kind and priority of the
    peer's first valid entry for it or else those its address tells; and unless
    eight were found, no valid address is left out.  [Addresses] gives them back
    in that order. *)
Theorem Merge_sound addresses metadata :
  let out := Merge addresses metadata in
  Z.of_nat (length out) ≤ MaxCandidates ∧ NoDup (Address <$> out) ∧
  StronglySorted (λ a b, Priority b ≤ Priority a) out ∧
  (∀ c, c ∈ out → Validate c = Ok tt ∧ Address c ∈ addresses ∧
     (by_address metadata (Address c) = Some c ∨ by_address metadata (Address c) = None ∧ FromAddress (Address c) false = Ok c)) ∧
  (Z.of_nat (length out) < MaxCandidates → ∀ a, a ∈ addresses → ValidateAddress a = Ok tt → a ∈ Address <$> out) ∧
  Addresses out = Address <$> out.
Proof.
  intros out. unfold out, Merge. set (raw := merge_loop metadata addresses []).
  destruct (merge_loop_spec metadata addresses []) as (H1 & H2 & H3 & H4 & _ & H6); [done|constructor|constructor|].
  fold raw in H1, H2, H3, H4, H6. pose proof (sort_stable_perm higher_priority raw) as Hp. set (sorted := sort_stable _ raw) in *.
  assert (Hlen : Z.of_nat (length sorted) ≤ MaxCandidates) by by rewrite Hp.
  assert (Hnd : NoDup (Address <$> sorted)) by by rewrite Hp.
  assert (Hval : ∀ c, c ∈ sorted → Validate c = Ok tt).
  { intros c. rewrite Hp. intros Hc. rewrite Forall_forall in H3. destruct (H3 c Hc) as [Hb|[_ Hb]].
    - by apply by_address_Some in Hb as (_ & _ & ?). - by apply FromAddress_ok in Hb as [_ ?]. }
  split_and!; [done|done| | | |].
  - eapply StronglySorted_weaken; [|apply (sort_stable_sorted higher_priority raw)]. unfold not_after, higher_priority. intros a b ?. bool_prop. lia.
  - intros c Hc. split; [by apply Hval|]. rewrite Hp in Hc. split; [by destruct (H4 c Hc) as [?%not_elem_of_nil|?]|].
    rewrite Forall_forall in H3. by apply H3.
  - rewrite Hp. intros Hlt a Ha Hv. rewrite Hp. by apply H6.
  - unfold Addresses. assert (Hgen : ∀ l out, NoDup (out ++ (Address <$> l)) → Z.of_nat (length (out ++ (Address <$> l))) ≤ MaxCandidates →
      (∀ c, c ∈ l → Validate c = Ok tt) → addresses_loop l out = out ++ (Address <$> l)).
    { induction l as [|c l IH]; intros acc Hn Hl Hv; cbn [addresses_loop fmap list_fmap]; [by rewrite app_nil_r|].
      rewrite fmap_cons in Hn, Hl. rewrite Hv by by left. cbn [is_ok negb].
      destruct (Z.geb_spec (Z.of_nat (length acc)) MaxCandidates); [rewrite length_app in Hl; cbn [length] in Hl; lia|].
      destruct (containsString acc (Address c)) eqn:Es.
      { exfalso. apply containsString_elem in Es. apply NoDup_app in Hn as (_ & Hn & _). apply (Hn _ Es). by left. }
      rewrite IH; [by rewrite <- (assoc_L (++))| | |]; rewrite <- ?(assoc_L (++)); [done|done|]. intros x Hx. apply Hv. by right. }
    apply (Hgen sorted []); [done|cbn [app]; by rewrite length_fmap|done].
Qed.

Example merge_example :
  Merge ["10.0.0.2:9000"; "bad"; "[2001:db8::1]:9000"; "10.0.0.2:9000"; "host:1"]
    [MkCandidate "host:1" KindManual 100; MkCandidate "10.0.0.9:1" KindLAN 99] =
  [MkCandidate "host:1" KindManual 100; MkCandidate "[2001:db8::1]:9000" KindIPv6Global 90; MkCandidate "10.0.0.2:9000" KindLAN 70].
Proof. reflexivity. Qed.
