(* ===== verification/DirectHello.v ===== *)
(** * The greeting of a direct connection ([internal/app/direct.go])

    Before a TCP connection between two clients carries a transfer, its ends tell
    each other the room they pair in, their role, which connection of the transfer
    it is and how many they want; with simultaneous dialling also who dialled.
    Reading and writing a greeting, the five ways to verify the other end, and
    what two ends that run them learn.  Deadlines and the closing of connections
    that are refused are in [DirectConnect.v]. *)
From Stdlib Require Import ZArith Lia Ascii String.
From stdpp Require Import base tactics numbers list strings.
From S2P Require Import Prelude GoStrings Json Frame.

Definition directProtocol : string := "kigo-direct-v1".
Definition maxDirectHelloSize : Z := 4 * 1024.
Definition preferredDirectInitiator : string := "receiver".

Record directHello := MkHello {
  Protocol : string; HRoomToken : string; HRole : string; InitiatorRole : string; HIndex : Z; HCount : Z;
}.
#[export] Instance directHello_eq_dec : EqDecision directHello.
Proof. solve_decision. Defined.

Definition hello_utf8 (h : directHello) : Prop :=
  utf8_valid (Protocol h) = true ∧ utf8_valid (HRoomToken h) = true ∧ utf8_valid (HRole h) = true ∧ utf8_valid (InitiatorRole h) = true.
Class HelloJSON := hello_json :: JSON directHello hello_utf8.

Inductive hello_error :=
  | HelloTooLarge | HelloIO (e : frame_error) | InvalidHelloSize | HelloDecode
  | InvalidDirectRole | InvalidPeerHello | InvalidPeerAck | InvalidInitiator.

Definition peerDirectRole (role : string) : result hello_error string :=
  if String.eqb role "sender" then Ok "receiver"%string
  else if String.eqb role "receiver" then Ok "sender"%string
  else Err InvalidDirectRole.
Definition normalizedDirectConnectionCount (count : Z) : Z := if count <=? 0 then 1 else count.
Definition validateDirectConnectionCount (count : Z) : bool := negb ((count <? 1) || (count >? 8)).

Definition newDirectHello (roomToken role initiatorRole : string) (index count : Z) : directHello :=
  MkHello directProtocol roomToken role initiatorRole index count.

(** The peer's count, and whether its greeting is the expected one. *)
Definition directHelloConnectionCount (h : directHello) (roomToken peerRole : string) (expectedIndex : Z) : Z * bool :=
  let peerCount := normalizedDirectConnectionCount (HCount h) in
  (peerCount,
   String.eqb (Protocol h) directProtocol && String.eqb (HRoomToken h) roomToken && String.eqb (HRole h) peerRole &&
   (HIndex h =? expectedIndex) && validateDirectConnectionCount peerCount).

Section hello.
Context `{HelloJSON}.

(** [writeDirectHello]; the loop of [writeDirectBytes] repeats short writes, which
    only a failing connection makes. *)
Definition writeDirectHello (w : writer) (h : directHello) : writer * option hello_error :=
  let payload := Marshal h in
  if Z.of_nat (length payload) >? maxDirectHelloSize then (w, Some HelloTooLarge)
  else
    let '(w, err) := Write w (PutUint32 (uint32 (Z.of_nat (length payload)))) in
    match err with
    | Some e => (w, Some (HelloIO e))
    | None => let '(w, err) := Write w payload in (w, HelloIO <$> err)
    end.

Definition readDirectHello (r : bytes) : result hello_error directHello * bytes :=
  match ReadFull r 4 with
  | (Err e, r) => (Err (HelloIO e), r)
  | (Ok header, r) =>
      let size := Uint32 header in
      if (size =? 0) || (size >? maxDirectHelloSize) then (Err InvalidHelloSize, r)
      else match ReadFull r (Z.to_nat size) with
           | (Err e, r) => (Err (HelloIO e), r)
           | (Ok payload, r) => match Unmarshal payload with Some h => (Ok h, r) | None => (Err HelloDecode, r) end
           end
  end.

(** One end of a connection. *)
Record endpoint := MkEnd { e_token : string; e_role : string; e_index : Z; e_count : Z }.

(** What a verification yields: its result, the bytes not read, the writer. *)
Definition verified (A : Type) : Type := result hello_error A * bytes * writer.

(** The first part of every acceptor. *)
Definition accept_hello {A} (own : endpoint) (r : bytes) (w : writer) (k : string → directHello → bytes → verified A) : verified A :=
  match peerDirectRole (e_role own) with
  | Err e => (Err e, r, w)
  | Ok peerRole => match readDirectHello r with (Err e, r) => (Err e, r, w) | (Ok h, r) => k peerRole h r end
  end.
Definition answer {A} (a : A) (h : directHello) (r : bytes) (w : writer) : verified A :=
  match writeDirectHello w h with (w, Some e) => (Err e, r, w) | (w, None) => (Ok a, r, w) end.

Definition verifyDirectAcceptorIndexed (own : endpoint) (r : bytes) (w : writer) : verified Z :=
  accept_hello own r w (fun peerRole h r =>
    let '(peerCount, ok) := directHelloConnectionCount h (e_token own) peerRole (e_index own) in
    if negb ok then (Err InvalidPeerHello, r, w)
    else answer peerCount (newDirectHello (e_token own) (e_role own) "" (e_index own) (e_count own)) r w).

Definition verifyDirectAcceptorAny (own : endpoint) (r : bytes) (w : writer) : verified (Z * Z) :=
  accept_hello own r w (fun peerRole h r =>
    let '(peerCount, ok) := directHelloConnectionCount h (e_token own) peerRole (HIndex h) in
    if negb ok || (HIndex h <=? 0) || (HIndex h >=? e_count own) then (Err InvalidPeerHello, r, w)
    else answer (HIndex h, peerCount) (newDirectHello (e_token own) (e_role own) "" (HIndex h) (e_count own)) r w).

Definition verifyBidirectionalDirectAcceptorIndexed (own : endpoint) (r : bytes) (w : writer) : verified (Z * string) :=
  accept_hello own r w (fun peerRole h r =>
    let '(peerCount, ok) := directHelloConnectionCount h (e_token own) peerRole (e_index own) in
    if negb ok || negb (String.eqb (InitiatorRole h) peerRole) then (Err InvalidPeerHello, r, w)
    else answer (peerCount, peerRole) (newDirectHello (e_token own) (e_role own) peerRole (e_index own) (e_count own)) r w).

(** A dialer greets first and then reads the answer. *)
Definition dial_hello (own : endpoint) (initiator : string) (w : writer) : result hello_error string * writer :=
  match peerDirectRole (e_role own) with
  | Err e => (Err e, w)
  | Ok peerRole =>
      match writeDirectHello w (newDirectHello (e_token own) (e_role own) initiator (e_index own) (e_count own)) with
      | (w, Some e) => (Err e, w)
      | (w, None) => (Ok peerRole, w)
      end
  end.
Definition dial_answer {A} (own : endpoint) (peerRole : string) (r : bytes) (k : Z → directHello → result hello_error A) : result hello_error A * bytes :=
  match readDirectHello r with
  | (Err e, r) => (Err e, r)
  | (Ok h, r) =>
      let '(peerCount, ok) := directHelloConnectionCount h (e_token own) peerRole (e_index own) in
      if negb ok then (Err InvalidPeerAck, r) else (k peerCount h, r)
  end.

Definition verifyDirectDialerIndexed (own : endpoint) (w : writer) (r : bytes) : verified Z :=
  match dial_hello own "" w with
  | (Err e, w) => (Err e, r, w)
  | (Ok peerRole, w) => let '(res, r) := dial_answer own peerRole r (fun peerCount _ => Ok peerCount) in (res, r, w)
  end.

Definition verifyBidirectionalDirectDialerIndexed (own : endpoint) (w : writer) (r : bytes) : verified (Z * string) :=
  match dial_hello own (e_role own) w with
  | (Err e, w) => (Err e, r, w)
  | (Ok peerRole, w) =>
      let '(res, r) := dial_answer own peerRole r (fun peerCount h =>
        if String.eqb (InitiatorRole h) (e_role own) then Ok (peerCount, e_role own)
        else if String.eqb (InitiatorRole h) peerRole then Ok (peerCount, preferredDirectInitiator)
        else Err InvalidInitiator) in
      (res, r, w)
  end.
End hello.

(** ** Reading what was written *)

Section promises.
Context `{HelloJSON}.

Definition hello_fits (h : directHello) : Prop := hello_utf8 h ∧ 0 < Z.of_nat (length (Marshal h)) ≤ maxDirectHelloSize.
Definition hello_bytes (h : directHello) : bytes := frame_bytes (Marshal h).

Lemma writeDirectHello_ok w h w' : writeDirectHello w h = (w', None) → written w' = written w ++ hello_bytes h.
Proof.
  unfold writeDirectHello, hello_bytes, frame_bytes. destruct (_ >? _); [done|].
  destruct (Write w _) as [w1 [e|]] eqn:E1; [done|]. destruct (Write w1 _) as [w2 [e|]] eqn:E2; [done|]. intros [= <-].
  rewrite (Write_ok _ _ _ E2), (Write_ok _ _ _ E1). by rewrite <- (assoc_L (++)).
Qed.

Lemma writeDirectHello_room w h : hello_fits h → (4 + length (Marshal h) ≤ room w)%nat → ∃ w', writeDirectHello w h = (w', None).
Proof.
  intros [_ Hsz] Hr. unfold writeDirectHello. rewrite Z.gtb_ltb. replace (_ <? _) with false by (symmetry; apply Z.ltb_ge; lia).
  unfold Write at 1. rewrite length_PutUint32. replace (4 <=? room w)%nat with true by (symmetry; apply Nat.leb_le; lia).
  unfold Write. cbn [room]. replace (_ <=? _)%nat with true by (symmetry; apply Nat.leb_le; lia). by eexists.
Qed.

Lemma readDirectHello_bytes h rest : hello_fits h → readDirectHello (hello_bytes h ++ rest) = (Ok h, rest).
Proof.
  intros [Hu Hsz]. unfold readDirectHello, hello_bytes, frame_bytes. rewrite <- (assoc_L (++)).
  set (p := Marshal h) in *. assert (Hsize : Uint32 (PutUint32 (uint32 (Z.of_nat (length p)))) = Z.of_nat (length p)).
  { unfold uint32. unfold maxDirectHelloSize in Hsz. rewrite Z.mod_small by lia. apply Uint32_PutUint32. lia. }
  change 4%nat with (length (PutUint32 (uint32 (Z.of_nat (length p))))). rewrite ReadFull_app, Hsize.
  replace (Z.of_nat (length p) =? 0) with false by (symmetry; apply Z.eqb_neq; lia).
  rewrite Z.gtb_ltb. replace (_ <? _) with false by (symmetry; apply Z.ltb_ge; lia). cbn [orb]. rewrite Nat2Z.id, ReadFull_app.
  unfold p. by rewrite Unmarshal_Marshal.
Qed.

(** A greeting that is read was on the wire, under the length before it. *)
Lemma readDirectHello_sound r h rest :
  readDirectHello r = (Ok h, rest) → ∃ header payload, r = header ++ payload ++ rest ∧ length header = 4%nat ∧
    Uint32 header = Z.of_nat (length payload) ∧ 0 < Z.of_nat (length payload) ≤ maxDirectHelloSize ∧ Unmarshal payload = Some h.
Proof.
  unfold readDirectHello, ReadFull. destruct (Nat.leb_spec 4 (length r)) as [H4|]; [|done]. set (size := Uint32 (take 4 r)).
  destruct (Z.eqb_spec size 0); [done|]. rewrite Z.gtb_ltb. destruct (Z.ltb_spec maxDirectHelloSize size); [done|]. cbn [orb].
  destruct (Nat.leb_spec (Z.to_nat size) (length (drop 4 r))) as [Hl|]; [|done].
  destruct (Unmarshal _) as [h'|] eqn:Hu; [|done]. intros [= <- <-]. exists (take 4 r), (take (Z.to_nat size) (drop 4 r)).
  pose proof (Uint32_range (take 4 r)) as Hrange. fold size in Hrange.
  rewrite !take_drop. split; [done|]. rewrite !length_take. split; [lia|]. rewrite length_drop in *. split_and!; try done; fold size; lia.
Qed.

(** ** Who is let in *)

Lemma peerDirectRole_spec role peer : peerDirectRole role = Ok peer → peerDirectRole peer = Ok role ∧ role ≠ peer.
Proof.
  unfold peerDirectRole. destruct (String.eqb_spec role "sender") as [->|]; [by intros [= <-]|].
  destruct (String.eqb_spec role "receiver") as [->|]; [by intros [= <-]|done].
Qed.

Lemma directHelloConnectionCount_true h token peer idx n :
  directHelloConnectionCount h token peer idx = (n, true) →
  Protocol h = directProtocol ∧ HRoomToken h = token ∧ HRole h = peer ∧ HIndex h = idx ∧ n = normalizedDirectConnectionCount (HCount h) ∧ 1 ≤ n ≤ 8.
Proof.
  unfold directHelloConnectionCount. cbv zeta. intros [= <- Hok]. rewrite !andb_true_iff, !String.eqb_eq, Z.eqb_eq in Hok.
  destruct Hok as ((((-> & ->) & ->) & ->) & Hc). unfold validateDirectConnectionCount in Hc. rewrite Z.gtb_ltb in Hc.
  apply negb_true_iff, orb_false_iff in Hc as [Hc1%Z.ltb_ge Hc2%Z.ltb_ge]. split_and!; done.
Qed.

Lemma accept_hello_inv {A} own r w (k : string → directHello → bytes → verified A) a rest w' :
  accept_hello own r w k = (Ok a, rest, w') → ∃ peer h r', peerDirectRole (e_role own) = Ok peer ∧ readDirectHello r = (Ok h, r') ∧ k peer h r' = (Ok a, rest, w').
Proof.
  unfold accept_hello. destruct (peerDirectRole _) as [peer|]; [|done]. destruct (readDirectHello r) as [[h|] r'] eqn:E; [|done]. intros Hk. by exists peer, h, r'.
Qed.

(** The bytes before [rest] are the greeting of the other end of connection
    [idx]: of the same room, in the opposite role. *)
Definition greeted (own : endpoint) (idx : Z) (r rest : bytes) (h : directHello) (n : Z) : Prop :=
  (∃ header payload, r = header ++ payload ++ rest ∧ length header = 4%nat ∧ Uint32 header = Z.of_nat (length payload) ∧ Unmarshal payload = Some h) ∧
  Protocol h = directProtocol ∧ HRoomToken h = e_token own ∧ peerDirectRole (e_role own) = Ok (HRole h) ∧ HIndex h = idx ∧
  n = normalizedDirectConnectionCount (HCount h) ∧ 1 ≤ n ≤ 8.

Lemma greeted_intro own idx peer r rest h n :
  peerDirectRole (e_role own) = Ok peer → readDirectHello r = (Ok h, rest) → directHelloConnectionCount h (e_token own) peer idx = (n, true) →
  greeted own idx r rest h n.
Proof.
  intros Hp (header & payload & ? & ? & ? & _ & ?)%readDirectHello_sound (? & ? & Hr & ? & ? & ?)%directHelloConnectionCount_true.
  split; [by exists header, payload|]. subst peer. done.
Qed.

(** An end is accepted only after its greeting was read. *)
Lemma acceptors_greeted own r w rest w' :
  (∀ n, verifyDirectAcceptorIndexed own r w = (Ok n, rest, w') → ∃ h, greeted own (e_index own) r rest h n) ∧
  (∀ i n, verifyDirectAcceptorAny own r w = (Ok (i, n), rest, w') → 0 < i < e_count own ∧ ∃ h, greeted own i r rest h n) ∧
  (∀ n i, verifyBidirectionalDirectAcceptorIndexed own r w = (Ok (n, i), rest, w') →
     ∃ h, greeted own (e_index own) r rest h n ∧ i = HRole h ∧ InitiatorRole h = HRole h).
Proof.
  assert (Hans : ∀ {A} (a b : A) h r0 w1, answer a h r0 w1 = (Ok b, rest, w') → a = b ∧ r0 = rest).
  { intros A a b h r0 w1. unfold answer. destruct (writeDirectHello w1 h) as [? [?|]]; [done|]. by intros [= -> -> _]. }
  split_and!.
  - intros n (peer & h & r' & Hp & Hr & Hk)%accept_hello_inv. cbv beta in Hk. destruct (directHelloConnectionCount _ _ _ _) as [c []] eqn:Ec; [|done]. cbn [negb orb] in Hk.
    apply Hans in Hk as [-> ->]. exists h. by eapply greeted_intro.
  - intros i n (peer & h & r' & Hp & Hr & Hk)%accept_hello_inv. cbv beta in Hk. destruct (directHelloConnectionCount _ _ _ _) as [c []] eqn:Ec; [|done]. cbn [negb orb] in Hk.
    cbn [negb orb] in Hk. destruct (Z.leb_spec (HIndex h) 0); [done|]. cbn [orb] in Hk. rewrite Z.geb_leb in Hk.
    destruct (Z.leb_spec (e_count own) (HIndex h)); [done|]. apply Hans in Hk as [[= <- <-] ->]. split; [lia|]. exists h. by eapply greeted_intro.
  - intros n i (peer & h & r' & Hp & Hr & Hk)%accept_hello_inv. cbv beta in Hk. destruct (directHelloConnectionCount _ _ _ _) as [c []] eqn:Ec; [|done]. cbn [negb orb] in Hk.
    cbn [negb orb] in Hk. destruct (String.eqb_spec (InitiatorRole h) peer) as [Ei|]; [|done]. apply Hans in Hk as [[= <- <-] ->].
    exists h. split; [by eapply greeted_intro|]. apply directHelloConnectionCount_true in Ec as (_ & _ & -> & _). by split.
Qed.

(** ** Both ends *)

Definition wire : writer := MkWriter [] (Z.to_nat 8192).
(** A dialer and an acceptor at the ends of a connection: what each learns. *)
Definition exchange {A B} (dialer : writer → bytes → verified A) (acceptor : bytes → writer → verified B) : result hello_error A * result hello_error B :=
  let wa := (dialer wire []).2 in
  let '(rb, _, wb) := acceptor (written wa) wire in
  ((dialer wire (written wb)).1.1, rb).
(** Two dialers that meet in the network. *)
Definition cross {A B} (left : writer → bytes → verified A) (right : writer → bytes → verified B) : result hello_error A * result hello_error B :=
  ((left wire (written (right wire []).2)).1.1, (right wire (written (left wire []).2)).1.1).

Definition matching (a b : endpoint) : Prop := e_token a = e_token b ∧ peerDirectRole (e_role a) = Ok (e_role b) ∧ e_index a = e_index b.
#[export] Instance matching_dec a b : Decision (matching a b).
Proof.
  unfold matching. destruct (decide (e_token a = e_token b)); [|right; tauto]. destruct (decide (e_index a = e_index b)); [|right; tauto].
  destruct (peerDirectRole (e_role a)) as [p|]; [|right; by intros (_ & ? & _)]. destruct (decide (p = e_role b)) as [->|]; [by left|right; naive_solver].
Defined.
Record end_ok (a : endpoint) : Prop := {
  eo_count : 1 ≤ e_count a ≤ 8;
  eo_fits : ∀ i, i ∈ [""; "sender"; "receiver"]%string → hello_fits (newDirectHello (e_token a) (e_role a) i (e_index a) (e_count a));
}.

Definition own_hello (a : endpoint) (i : string) : directHello := newDirectHello (e_token a) (e_role a) i (e_index a) (e_count a).

Lemma write_wire a i : end_ok a → i ∈ [""; "sender"; "receiver"]%string → ∃ w', writeDirectHello wire (own_hello a i) = (w', None) ∧ written w' = hello_bytes (own_hello a i).
Proof.
  intros Ha Hi. pose proof (eo_fits a Ha i Hi) as Hf. destruct (writeDirectHello_room wire (own_hello a i) Hf) as [w' Hw].
  { destruct Hf as [_ Hf]. unfold maxDirectHelloSize in Hf. unfold own_hello, wire. cbn [room]. lia. }
  exists w'. split; [done|]. by rewrite (writeDirectHello_ok _ _ _ Hw).
Qed.

Lemma count_own a b i peer : end_ok b → matching a b → peerDirectRole (e_role a) = Ok peer →
  directHelloConnectionCount (own_hello b i) (e_token a) peer (e_index a) = (e_count b, true).
Proof.
  intros [Hc _] (Ht & Hr & Hi) Hp. rewrite Hr in Hp. injection Hp as <-. unfold directHelloConnectionCount, own_hello, newDirectHello. cbn.
  rewrite Ht, Hi, !String.eqb_refl, Z.eqb_refl. unfold normalizedDirectConnectionCount, validateDirectConnectionCount.
  destruct (Z.leb_spec (e_count b) 0); [lia|]. cbn [andb]. f_equal. rewrite Z.gtb_ltb. apply negb_true_iff, orb_false_iff. split; apply Z.ltb_ge; lia.
Qed.
Lemma count_other a b i peer : ¬ matching a b → peerDirectRole (e_role a) = Ok peer →
  (directHelloConnectionCount (own_hello b i) (e_token a) peer (e_index a)).2 = false.
Proof.
  intros Hm Hp. unfold directHelloConnectionCount, own_hello, newDirectHello. cbn [snd Protocol HRoomToken HRole HIndex HCount].
  rewrite String.eqb_refl. cbn [andb]. destruct (String.eqb_spec (e_token b) (e_token a)) as [Et|]; [|done].
  destruct (String.eqb_spec (e_role b) peer) as [Er|]; [|done]. destruct (Z.eqb_spec (e_index b) (e_index a)) as [Ei|]; [|done].
  exfalso. apply Hm. split; [done|]. split; [by rewrite Hp, Er|done].
Qed.
Lemma matching_sym a b : matching a b → matching b a.
Proof. intros (Ht & Hr & Hi). split; [done|]. split; [by apply peerDirectRole_spec in Hr as [? _]|done]. Qed.

Lemma dial_hello_ok a i peer : end_ok a → i ∈ [""; "sender"; "receiver"]%string → peerDirectRole (e_role a) = Ok peer →
  ∃ w', dial_hello a i wire = (Ok peer, w') ∧ written w' = hello_bytes (own_hello a i).
Proof.
  intros Ha Hi Hp. destruct (write_wire a i Ha Hi) as (w' & Hw & Hb). exists w'. unfold dial_hello. rewrite Hp. fold (own_hello a i). by rewrite Hw.
Qed.
Lemma dial_hello_bad a i e : peerDirectRole (e_role a) = Err e → dial_hello a i wire = (Err e, wire).
Proof. intros Hp. unfold dial_hello. by rewrite Hp. Qed.

(** What a dialer makes of an answer, and an acceptor of a greeting. *)
Lemma dial_answer_other {A} a b i peer (k : Z → directHello → result hello_error A) :
  end_ok b → i ∈ [""; "sender"; "receiver"]%string → peerDirectRole (e_role a) = Ok peer →
  (matching a b → dial_answer a peer (hello_bytes (own_hello b i)) k = (k (e_count b) (own_hello b i), [])) ∧
  (¬ matching a b → dial_answer a peer (hello_bytes (own_hello b i)) k = (Err InvalidPeerAck, [])).
Proof.
  intros Hb Hi Hp. pose proof (eo_fits b Hb i Hi) as Hf. unfold dial_answer.
  rewrite <- (app_nil_r (hello_bytes (own_hello b i))), readDirectHello_bytes by exact Hf. split; intros Hm.
  - by rewrite (count_own a b i peer Hb Hm Hp).
  - pose proof (count_other a b i peer Hm Hp) as Hc. destruct (directHelloConnectionCount _ _ _ _) as [c ok]. cbn in Hc. by subst ok.
Qed.
Lemma dial_answer_nothing {A} a peer (k : Z → directHello → result hello_error A) : dial_answer a peer [] k = (Err (HelloIO EOF), []).
Proof. done. Qed.

Lemma accept_hello_other {A} b a i peer (k : string → directHello → bytes → verified A) :
  end_ok a → i ∈ [""; "sender"; "receiver"]%string → peerDirectRole (e_role b) = Ok peer →
  accept_hello b (hello_bytes (own_hello a i)) wire k = k peer (own_hello a i) [].
Proof.
  intros Ha Hi Hp. unfold accept_hello. rewrite Hp, <- (app_nil_r (hello_bytes (own_hello a i))), readDirectHello_bytes; [done|by apply eo_fits].
Qed.

Lemma answer_ok {A} (a : A) b i r : end_ok b → i ∈ [""; "sender"; "receiver"]%string →
  ∃ w', answer a (own_hello b i) r wire = (Ok a, r, w') ∧ written w' = hello_bytes (own_hello b i).
Proof. intros Hb Hi. destruct (write_wire b i Hb Hi) as (w' & Hw & Hbytes). exists w'. unfold answer. by rewrite Hw. Qed.

Lemma accept_hello_silent {A} b (k : string → directHello → bytes → verified A) : ∃ e, accept_hello b [] wire k = (Err e, [], wire).
Proof. unfold accept_hello. destruct (peerDirectRole _); [|by eexists]. by eexists. Qed.
Lemma accept_hello_bad {A} b e r (k : string → directHello → bytes → verified A) : peerDirectRole (e_role b) = Err e → accept_hello b r wire k = (Err e, r, wire).
Proof. intros Hp. unfold accept_hello. by rewrite Hp. Qed.

Lemma role_listed role peer : peerDirectRole role = Ok peer → role ∈ [""; "sender"; "receiver"]%string ∧ peer ∈ [""; "sender"; "receiver"]%string.
Proof.
  unfold peerDirectRole. destruct (String.eqb_spec role "sender") as [->|]; [intros [= <-]; rewrite !list_elem_of_In; cbn; tauto|].
  destruct (String.eqb_spec role "receiver") as [->|]; [intros [= <-]; rewrite !list_elem_of_In; cbn; tauto|done].
Qed.
Lemma no_role : "" ∈ [""; "sender"; "receiver"]%string.
Proof. left. Qed.

Definition both_refused {A B} (r : result hello_error A * result hello_error B) : Prop := is_ok r.1 = false ∧ is_ok r.2 = false.

Definition dials (a : endpoint) := verifyDirectDialerIndexed a.
Definition accepts (b : endpoint) := verifyDirectAcceptorIndexed b.
Definition dials_both_ways (a : endpoint) := verifyBidirectionalDirectDialerIndexed a.
Definition accepts_both_ways (b : endpoint) := verifyBidirectionalDirectAcceptorIndexed b.

Lemma plain_handshake a b : end_ok a → end_ok b →
  (matching a b → exchange (dials a) (accepts b) = (Ok (e_count b), Ok (e_count a))) ∧ (¬ matching a b → both_refused (exchange (dials a) (accepts b))).
Proof.
  intros Ha Hb. unfold exchange, dials, accepts, verifyDirectDialerIndexed, verifyDirectAcceptorIndexed. destruct (peerDirectRole (e_role a)) as [pa|ea] eqn:Hpa.
  2:{ rewrite !(dial_hello_bad a "" ea Hpa). cbn [snd wire written]. split; [intros (_ & Hr & _); congruence|]. intros _.
      destruct (accept_hello_silent b (fun peerRole h r => let '(peerCount, ok) := directHelloConnectionCount h (e_token b) peerRole (e_index b) in
        if negb ok then (Err InvalidPeerHello, r, wire) else answer peerCount (newDirectHello (e_token b) (e_role b) "" (e_index b) (e_count b)) r wire)) as [e He].
      unfold wire in He |- *. rewrite He. done. }
  destruct (dial_hello_ok a "" pa Ha no_role Hpa) as (w1 & -> & Hw1). rewrite dial_answer_nothing. cbn [snd]. rewrite Hw1.
  destruct (peerDirectRole (e_role b)) as [pb|eb] eqn:Hpb.
  2:{ rewrite (accept_hello_bad b eb _ _ Hpb). cbn [wire written fst]. rewrite dial_answer_nothing. split; [|done]. intros (_ & Hr & _). rewrite Hr in Hpa.
      apply peerDirectRole_spec in Hr as [Hr _]. congruence. }
  rewrite (accept_hello_other b a "" pb) by (done || apply no_role). destruct (decide (matching b a)) as [Hm|Hm].
  - rewrite (count_own b a "" pb Ha Hm Hpb). cbn [negb]. destruct (answer_ok (e_count a) b "" [] Hb no_role) as (w2 & Hans & Hw2).
    unfold own_hello in Hans. rewrite Hans. rewrite Hw2. destruct (dial_answer_other a b "" pa (fun n _ => Ok n) Hb no_role Hpa) as [Hd _].
    rewrite Hd by by apply matching_sym. split; [done|]. intros Hn. exfalso. by apply Hn, matching_sym.
  - pose proof (count_other b a "" pb Hm Hpb) as Hc. destruct (directHelloConnectionCount _ _ _ _) as [c ok]. cbn in Hc. subst ok. cbn [negb wire written fst].
    rewrite dial_answer_nothing. split; [intros Hm'; by apply matching_sym in Hm'|done].
Qed.

Lemma not_empty_role role peer : peerDirectRole role = Ok peer → role ≠ ""%string ∧ peer ≠ ""%string.
Proof.
  unfold peerDirectRole. destruct (String.eqb_spec role "sender") as [->|]; [by intros [= <-]|].
  destruct (String.eqb_spec role "receiver") as [->|]; [by intros [= <-]|done].
Qed.

(** A dialer whose greeting is out reads what [bs] holds. *)
Lemma dials_both_ways_run a pa : end_ok a → peerDirectRole (e_role a) = Ok pa →
  ∃ w', written w' = hello_bytes (own_hello a (e_role a)) ∧ ∀ r, dials_both_ways a wire r =
    (let '(res, rest) := dial_answer a pa r (fun peerCount h =>
        if String.eqb (InitiatorRole h) (e_role a) then Ok (peerCount, e_role a)
        else if String.eqb (InitiatorRole h) pa then Ok (peerCount, preferredDirectInitiator)
        else Err InvalidInitiator) in (res, rest, w')).
Proof.
  intros Ha Hpa. destruct (role_listed _ _ Hpa) as [Hl _]. destruct (dial_hello_ok a (e_role a) pa Ha Hl Hpa) as (w' & Hd & Hw). exists w'. split; [done|].
  intros r. unfold dials_both_ways, verifyBidirectionalDirectDialerIndexed. by rewrite Hd.
Qed.
Lemma dials_both_ways_bad a e r : peerDirectRole (e_role a) = Err e → dials_both_ways a wire r = (Err e, r, wire).
Proof. intros Hp. unfold dials_both_ways, verifyBidirectionalDirectDialerIndexed. by rewrite (dial_hello_bad a _ e Hp). Qed.

Lemma both_ways_handshake a b : end_ok a → end_ok b →
  (matching a b → exchange (dials_both_ways a) (accepts_both_ways b) = (Ok (e_count b, e_role a), Ok (e_count a, e_role a))) ∧
  (¬ matching a b → both_refused (exchange (dials_both_ways a) (accepts_both_ways b))).
Proof.
  intros Ha Hb. unfold exchange. destruct (peerDirectRole (e_role a)) as [pa|ea] eqn:Hpa.
  2:{ rewrite !(dials_both_ways_bad a ea) by done. cbn [snd]. unfold accepts_both_ways, verifyBidirectionalDirectAcceptorIndexed.
      destruct (accept_hello_silent b (fun peerRole h r => let '(peerCount, ok) := directHelloConnectionCount h (e_token b) peerRole (e_index b) in
        if negb ok || negb (String.eqb (InitiatorRole h) peerRole) then (Err InvalidPeerHello, r, wire)
        else answer (peerCount, peerRole) (newDirectHello (e_token b) (e_role b) peerRole (e_index b) (e_count b)) r wire)) as [e He].
      unfold wire in He |- *. cbn [written]. rewrite He. split; [intros (_ & Hr & _); congruence|]. intros _. split; [|done].
      cbn [written]. by rewrite (dials_both_ways_bad a ea _ Hpa). }
  destruct (dials_both_ways_run a pa Ha Hpa) as (w1 & Hw1 & Hrun). rewrite !Hrun. rewrite dial_answer_nothing. cbn [snd]. rewrite Hw1.
  destruct (role_listed _ _ Hpa) as [Hla Hlpa]. unfold accepts_both_ways, verifyBidirectionalDirectAcceptorIndexed.
  destruct (peerDirectRole (e_role b)) as [pb|eb] eqn:Hpb.
  2:{ rewrite (accept_hello_bad b eb _ _ Hpb). cbn [wire written]. rewrite Hrun, dial_answer_nothing. split; [|done]. intros (_ & Hr & _).
      apply peerDirectRole_spec in Hr as [Hr _]. congruence. }
  rewrite (accept_hello_other b a (e_role a) pb) by done. destruct (decide (matching b a)) as [Hm|Hm].
  - rewrite (count_own b a (e_role a) pb Ha Hm Hpb). assert (pb = e_role a) as -> by (destruct Hm as (_ & Hr & _); congruence).
    cbn [own_hello newDirectHello InitiatorRole]. rewrite String.eqb_refl. cbn [negb orb].
    destruct (answer_ok (e_count a, e_role a) b (e_role a) [] Hb Hla) as (w2 & Hans & Hw2). unfold own_hello in Hans. rewrite Hans, Hw2, Hrun.
    destruct (dial_answer_other a b (e_role a) pa (fun peerCount h => if String.eqb (InitiatorRole h) (e_role a) then Ok (peerCount, e_role a)
        else if String.eqb (InitiatorRole h) pa then Ok (peerCount, preferredDirectInitiator) else Err InvalidInitiator) Hb Hla Hpa) as [Hd _].
    rewrite Hd by by apply matching_sym. cbn [own_hello newDirectHello InitiatorRole]. rewrite String.eqb_refl. split; [done|].
    intros Hn. exfalso. by apply Hn, matching_sym.
  - pose proof (count_other b a (e_role a) pb Hm Hpb) as Hc. destruct (directHelloConnectionCount _ _ _ _) as [c ok]. cbn in Hc. subst ok. cbn [negb orb wire written].
    rewrite Hrun, dial_answer_nothing. split; [intros Hm'; by apply matching_sym in Hm'|done].
Qed.

Lemma crossing_end a b : end_ok a → end_ok b → ∀ pa, peerDirectRole (e_role a) = Ok pa →
  let r := (dials_both_ways a wire (hello_bytes (own_hello b (e_role b)))).1.1 in
  is_ok (peerDirectRole (e_role b)) = true →
  (matching a b → r = Ok (e_count b, preferredDirectInitiator)) ∧ (¬ matching a b → is_ok r = false).
Proof.
  intros Ha Hb pa Hpa r Hokb. unfold r. destruct (peerDirectRole (e_role b)) as [pb|] eqn:Hpb; [|done]. destruct (role_listed _ _ Hpb) as [Hlb _].
  destruct (dials_both_ways_run a pa Ha Hpa) as (w1 & Hw1 & Hrun). rewrite Hrun.
  destruct (dial_answer_other a b (e_role b) pa (fun peerCount h => if String.eqb (InitiatorRole h) (e_role a) then Ok (peerCount, e_role a)
        else if String.eqb (InitiatorRole h) pa then Ok (peerCount, preferredDirectInitiator) else Err InvalidInitiator) Hb Hlb Hpa) as [Hd Hd'].
  split; intros Hm; [|by rewrite Hd']. rewrite Hd by done. cbn [own_hello newDirectHello InitiatorRole].
  destruct Hm as (_ & Hr & _). destruct (peerDirectRole_spec _ _ Hr) as [_ Hne].
  destruct (String.eqb_spec (e_role b) (e_role a)); [congruence|]. assert (e_role b = pa) as -> by congruence. by rewrite String.eqb_refl.
Qed.

Lemma crossing a b : end_ok a → end_ok b →
  (matching a b → cross (dials_both_ways a) (dials_both_ways b) = (Ok (e_count b, preferredDirectInitiator), Ok (e_count a, preferredDirectInitiator))) ∧
  (¬ matching a b → both_refused (cross (dials_both_ways a) (dials_both_ways b))).
Proof.
  intros Ha Hb. unfold cross. assert (Hsilent : ∀ c, is_ok (dials_both_ways c wire (written wire)).1.1 = false).
  { intros c. unfold dials_both_ways, verifyBidirectionalDirectDialerIndexed. destruct (dial_hello c _ wire) as [[p|e] w]; [|done]. cbn [wire written]. by rewrite dial_answer_nothing. }
  assert (Hbad : ∀ c e r, peerDirectRole (e_role c) = Err e → is_ok (dials_both_ways c wire r).1.1 = false) by (intros c e r He; by rewrite (dials_both_ways_bad c e r He)).
  destruct (peerDirectRole (e_role a)) as [pa|ea] eqn:Hpa.
  2:{ split; [intros (_ & Hr & _); congruence|]. intros _. split; [by eapply Hbad|]. cbn [snd]. rewrite (dials_both_ways_bad a ea [] Hpa). apply Hsilent. }
  destruct (peerDirectRole (e_role b)) as [pb|eb] eqn:Hpb.
  2:{ split; [intros (_ & Hr & _); apply peerDirectRole_spec in Hr as [Hr _]; congruence|]. intros _. split; [|by eapply Hbad].
      cbn [fst]. rewrite (dials_both_ways_bad b eb [] Hpb). apply Hsilent. }
  destruct (dials_both_ways_run a pa Ha Hpa) as (w1 & Hw1 & Hruna), (dials_both_ways_run b pb Hb Hpb) as (w2 & Hw2 & Hrunb).
  assert (Ea : written (dials_both_ways a wire []).2 = hello_bytes (own_hello a (e_role a))) by (rewrite Hruna; by destruct (dial_answer _ _ _ _)).
  assert (Eb : written (dials_both_ways b wire []).2 = hello_bytes (own_hello b (e_role b))) by (rewrite Hrunb; by destruct (dial_answer _ _ _ _)).
  rewrite Ea, Eb. destruct (crossing_end a b Ha Hb pa Hpa) as [Ha1 Ha2]; [by rewrite Hpb|]. destruct (crossing_end b a Hb Ha pb Hpb) as [Hb1 Hb2]; [by rewrite Hpa|].
  split; intros Hm; [by rewrite Ha1, Hb1 by (done || by apply matching_sym)|]. split; cbn [fst snd]; [by apply Ha2|]. apply Hb2. intros Hm'. by apply Hm, matching_sym.
Qed.

(** C32: the two ends of a direct connection agree.  When one dials and the other
    accepts, plainly or for simultaneous dialling, or when both dial and meet, the
    connection is accepted at both ends or at neither: at both exactly when they
    name the same room and the same connection of the transfer in opposite roles;
    and then each end knows how many connections the other wants, so both settle
    on the same number, and both name the same end as the one that dialled. *)
Theorem direct_ends_agree a b : end_ok a → end_ok b →
  (matching a b →
     exchange (dials a) (accepts b) = (Ok (e_count b), Ok (e_count a)) ∧
     exchange (dials_both_ways a) (accepts_both_ways b) = (Ok (e_count b, e_role a), Ok (e_count a, e_role a)) ∧
     cross (dials_both_ways a) (dials_both_ways b) = (Ok (e_count b, preferredDirectInitiator), Ok (e_count a, preferredDirectInitiator))) ∧
  (¬ matching a b →
     both_refused (exchange (dials a) (accepts b)) ∧ both_refused (exchange (dials_both_ways a) (accepts_both_ways b)) ∧
     both_refused (cross (dials_both_ways a) (dials_both_ways b))).
Proof.
  intros Ha Hb. destruct (plain_handshake a b Ha Hb) as [P1 P2], (both_ways_handshake a b Ha Hb) as [B1 B2], (crossing a b Ha Hb) as [C1 C2].
  split; intros Hm; split_and!; auto; by apply P2 || by apply B2 || by apply C2.
Qed.
End promises.

(** ** Witness *)

Definition demo_hello_fields (h : directHello) : list bytes :=
  [to_bytes (Protocol h); to_bytes (HRoomToken h); to_bytes (HRole h); to_bytes (InitiatorRole h); num_field (HIndex h); num_field (HCount h)].
Definition demo_fields_hello (l : list bytes) : option directHello :=
  match l with
  | [a; b; c; d; i; n] => i ← field_num i; n ← field_num n; Some (MkHello (of_bytes a) (of_bytes b) (of_bytes c) (of_bytes d) i n)
  | _ => None
  end.
Lemma demo_hello_law h : demo_fields_hello (demo_hello_fields h) = Some h.
Proof. destruct h. unfold demo_fields_hello, demo_hello_fields. cbn. by rewrite !field_num_field, !string_of_list_ascii_of_string. Qed.
Definition demo_hello_json : HelloJSON := fields_json hello_utf8 demo_hello_fields demo_fields_hello demo_hello_law.

Lemma direct_ends_agree_witness :
  let Hj := demo_hello_json in
  let a := MkEnd "room" "receiver" 0 4 in let b := MkEnd "room" "sender" 0 3 in
  cross (dials_both_ways a) (dials_both_ways b) = (Ok (3, "receiver"%string), Ok (4, "receiver"%string)).
Proof.
  intros Hj a b.
  assert (Ha : end_ok a).
  { split; [cbn; lia|]. intros i [->|[->|[->|[]%elem_of_nil]%elem_of_cons]%elem_of_cons]%elem_of_cons; (split; [repeat split|split; vm_compute; [reflexivity|discriminate]]). }
  assert (Hb : end_ok b).
  { split; [cbn; lia|]. intros i [->|[->|[->|[]%elem_of_nil]%elem_of_cons]%elem_of_cons]%elem_of_cons; (split; [repeat split|split; vm_compute; [reflexivity|discriminate]]). }
  assert (Hm : matching a b) by (split; [reflexivity|split; reflexivity]).
  destruct (direct_ends_agree a b Ha Hb) as [H1 _]. destruct (H1 Hm) as (_ & _ & Hc). exact Hc.
Defined.
