(* ===== verification/DirectConnect.v ===== *)
(** * Establishing a direct connection ([internal/app/direct.go], [direct_bidirectional.go])

    One end listens and the other dials every address the first advertised, or
    both do both; the connections that pass the greeting of [DirectHello.v] are
    the first and then the further ones of a transfer.  What happens outside — who
    connects, how greetings end, when a deadline passes — is a sequence of events.
    The theorems: whatever the events, every connection that was opened is either
    returned or closed, a bundle is complete with each connection at its own
    index, and simultaneous dialling prefers the connection the receiver dialled. *)
From Stdlib Require Import ZArith Lia Ascii String.
From stdpp Require Import base tactics numbers list gmap strings sorting.
From S2P Require Import Prelude GoStrings Json Frame DirectCandidate DirectHello.

Definition millisecond : Z := 1000000.
Definition directLANStartDelay : Z := 40 * millisecond.
Definition directOtherStartDelay : Z := 100 * millisecond.

Definition conn_id := nat.

(** ** Candidates to dial *)

Record directDialCandidate := MkDial { dcandidate : Candidate; startDelay : Z }.

Definition directCandidateStartDelay (priority highestPriority : Z) : Z :=
  if (priority =? highestPriority) || (priority >=? PriorityIPv6Global) then 0
  else if priority >=? PriorityLAN then directLANStartDelay
  else directOtherStartDelay.

Section rank.
Definition rankDirectCandidates (addresses : list string) (metadata : list Candidate) : list directDialCandidate :=
  match Merge addresses metadata with
  | [] => []
  | c :: cs => (fun x => MkDial x (directCandidateStartDelay (Priority x) (Priority c))) <$> c :: cs
  end.
End rank.

(** [uniqueCandidates]: at most eight addresses, each once. *)
Fixpoint unique_loop (candidates out : list string) : list string :=
  match candidates with
  | [] => out
  | c :: cs =>
      if Z.of_nat (length out) >=? MaxCandidates then out
      else if String.eqb c "" || negb (bool_decide (is_Some (SplitHostPort c))) || containsString out c then unique_loop cs out
      else unique_loop cs (out ++ [c])
  end.
Definition uniqueCandidates (candidates : list string) : list string := unique_loop candidates [].

(** ** The race between the candidates *)

Inductive direct_error :=
  | NoDirectAddress | DirectTimeoutNotPositive | InvalidConnectionCount | CandidatesFailed (failures : list string)
  | NoVerifiedConnection | DirectCanceled | AcceptFailed | AuxiliaryTimeout | AuxiliaryFailed | PeerCountDiffers (n : Z)
  | NoAuxiliaryCandidate | MissingConnection | BidirectionalFailed (failures : list direct_error) | PhaseEnded | NoListener | BadRole.

(** [directConnectResult] *)
Record directConnect := MkConnect { dconn : conn_id; dcandidate_addr : string; peerConnectionCount : Z; initiatorRole : string }.
Definition attempt_result : Type := result string directConnect.   (* the error with its candidate *)

(** What an attempt at one candidate meets: whether the race ended during its
    delay, the connection if dialling succeeds, and how the greeting ends. *)
Record attempt_env (A : Type) := MkAttempt { early_end : bool; dial_outcome : option conn_id; greeting_outcome : option A }.
Arguments MkAttempt {A}.
Arguments early_end {A}.
Arguments dial_outcome {A}.
Arguments greeting_outcome {A}.

(** What it reports, and the connection it closes when the greeting fails. *)
Definition dial_attempt {A} (candidate : directDialCandidate) (env : attempt_env A) (connected : conn_id → A → directConnect) : attempt_result * list conn_id :=
  let address := Address (dcandidate candidate) in
  if (startDelay candidate >? 0) && early_end env then (Err address, [])
  else
    match dial_outcome env with
    | None => (Err address, [])
    | Some c => match greeting_outcome env with Some a => (Ok (connected c a), []) | None => (Err address, [c]) end
    end.
Definition dialDirectCandidate (candidate : directDialCandidate) (env : attempt_env Z) : attempt_result * list conn_id :=
  dial_attempt candidate env (fun c peerCount => MkConnect c (Address (dcandidate candidate)) peerCount "").
(** The first that succeeds; the connections of those after it are closed. *)
Fixpoint race_results (results : list attempt_result) (failures : list string) : result direct_error directConnect * list conn_id :=
  match results with
  | [] => (Err (CandidatesFailed failures), [])
  | Ok r :: rest => (Ok r, omap (fun o => match o with Ok x => Some (dconn x) | Err _ => None end) rest)
  | Err e :: rest => race_results rest (failures ++ [e])
  end.
Definition raceDirectCandidates (results : list attempt_result) : result direct_error directConnect * list conn_id := race_results results [].

(** The attempts at the ranked candidates, in the order in which they report. *)
Definition connectDirectPrimary (candidates : list string) (metadata : list Candidate) (timeout : Z)
    (attempts : list (directDialCandidate * attempt_env Z)) : result direct_error directConnect * list conn_id :=
  if Nat.eqb (length (rankDirectCandidates candidates metadata)) 0 then (Err NoDirectAddress, [])
  else if timeout <=? 0 then (Err DirectTimeoutNotPositive, [])
  else
    let reports := (fun ce => dialDirectCandidate ce.1 ce.2) <$> attempts in
    let '(r, losers) := raceDirectCandidates reports.*1 in (r, mjoin reports.*2 ++ losers).

(** ** Accepting *)

(** What a listener sees: a connection, whether it passed the greeting, and
    whether the deadline had passed by then; or an error. *)
Inductive accept_error := AcceptTimeout | AcceptCanceled | AcceptBroken.
Inductive accept_event (A : Type) :=
  | Accepted (c : conn_id) (greeting : option A) (late : bool)
  | Refused (e : accept_error).
Arguments Accepted {A} c greeting late.
Arguments Refused {A} e.

(** [acceptDirectPrimary]; [None] while it still waits. *)
Fixpoint acceptDirectPrimary (evs : list (accept_event Z)) (closed : list conn_id)
    : option (result direct_error (conn_id * Z) * list conn_id * list (accept_event Z)) :=
  match evs with
  | [] => None
  | Refused e :: rest =>
      Some (Err (match e with AcceptCanceled => DirectCanceled | AcceptTimeout => NoVerifiedConnection | AcceptBroken => AcceptFailed end), closed, rest)
  | Accepted c (Some peerCount) _ :: rest => Some (Ok (c, peerCount), closed, rest)
  | Accepted c None late :: rest => if late then Some (Err NoVerifiedConnection, closed ++ [c], rest) else acceptDirectPrimary rest (closed ++ [c])
  end.

(** [acceptDirectAuxiliariesRole]: [conns] has a slot for each connection. *)
Notation slots := (list (option conn_id)).
Definition filled (conns : slots) : list conn_id := omap id conns.
Fixpoint accept_auxiliaries (count : Z) (evs : list (accept_event (Z * Z))) (remaining : nat) (conns : slots) (closed : list conn_id)
    : option (option direct_error * slots * list conn_id * list (accept_event (Z * Z))) :=
  match remaining with
  | O => Some (None, conns, closed, evs)
  | S remaining' =>
      match evs with
      | [] => None
      | Refused e :: rest =>
          Some (Some (match e with AcceptCanceled => DirectCanceled | AcceptTimeout => AuxiliaryTimeout | AcceptBroken => AcceptFailed end), conns, closed, rest)
      | Accepted c g late :: rest =>
          let bad := if late then Some (Some AuxiliaryTimeout, conns, closed ++ [c], rest) else accept_auxiliaries count rest remaining conns (closed ++ [c]) in
          match g with
          | None => bad
          | Some (index, peerCount) =>
              if negb (peerCount =? count) || (index <=? 0) || (index >=? count) || bool_decide (mjoin (conns !! Z.to_nat index) ≠ None) then bad
              else accept_auxiliaries count rest remaining' (<[Z.to_nat index := Some c]> conns) closed
          end
      end
  end.

(** ** Dialling the further connections *)

(** What dialling one of them meets: the connection if dialling succeeds, and the
    number of connections the peer's greeting names if the greeting passes. *)
Record auxiliary_env := MkAuxiliary { aux_dial : option conn_id; aux_greeting : option Z }.

(** What it reports, and the connection it closes when the greeting fails or names
    another number. *)
Definition dial_auxiliary (count : Z) (env : auxiliary_env) : result direct_error conn_id * list conn_id :=
  match aux_dial env with
  | None => (Err AuxiliaryFailed, [])
  | Some c =>
      match aux_greeting env with
      | None => (Err AuxiliaryFailed, [c])
      | Some peerCount => if peerCount =? count then (Ok c, []) else (Err (PeerCountDiffers peerCount), [c])
      end
  end.

(** The loop over the reports, in order of arrival: each goes to its slot, the
    first error is kept. *)
Fixpoint connect_auxiliaries (outcomes : list (nat * result direct_error conn_id)) (conns : slots) (firstErr : option direct_error)
    : slots * option direct_error :=
  match outcomes with
  | [] => (conns, firstErr)
  | (i, Ok c) :: rest => connect_auxiliaries rest (<[i := Some c]> conns) firstErr
  | (_, Err e) :: rest => connect_auxiliaries rest conns (match firstErr with Some e => Some e | None => Some e end)
  end.

(** [connectDirectAuxiliariesRoleWithDialer]: the slots, the first error, and the
    connections the attempts closed themselves. *)
Definition connectDirectAuxiliaries (count : Z) (aux : list (nat * auxiliary_env)) (conns : slots) : slots * option direct_error * list conn_id :=
  let reports := (fun o => (o.1, dial_auxiliary count o.2)) <$> aux in
  let '(conns, firstErr) := connect_auxiliaries ((fun r => (r.1, r.2.1)) <$> reports) conns None in
  (conns, firstErr, mjoin ((fun r => r.2.2) <$> reports)).

(** [directTransportBundle] *)
Definition directTransportBundle (conns : slots) : result direct_error (list conn_id) :=
  if Nat.eqb (length conns) 0 then Err MissingConnection
  else if forallb (fun c : option conn_id => if c then true else false) conns then Ok (filled conns)
  else Err MissingConnection.

Definition first_slot (selected : Z) (primary : conn_id) : slots := Some primary :: replicate (Z.to_nat selected - 1) None.

(** The connections after the first, accepted or dialled: an error closes all. *)
Definition accept_rest (selected : Z) (primary : conn_id) (aux : list (accept_event (Z * Z))) (closed : list conn_id)
    : option (result direct_error (list conn_id) * list conn_id) :=
  let conns := first_slot selected primary in
  if selected >? 1 then
    '(err, conns, closed, _) ← accept_auxiliaries selected aux (Z.to_nat selected - 1) conns closed;
    match err with
    | Some e => Some (Err e, closed ++ filled conns)
    | None => Some (directTransportBundle conns, closed)
    end
  else Some (directTransportBundle conns, closed).
Definition dial_rest (selected : Z) (primary : conn_id) (aux : list (nat * auxiliary_env)) (closed : list conn_id)
    : result direct_error (list conn_id) * list conn_id :=
  let conns := first_slot selected primary in
  if selected >? 1 then
    match connectDirectAuxiliaries selected aux conns with
    | (conns, Some e, failed) => (Err e, closed ++ failed ++ filled conns)
    | (conns, None, failed) => (directTransportBundle conns, closed ++ failed)
    end
  else (directTransportBundle conns, closed).

(** [acceptDirectBundle]: the events of the first and of the further connections. *)
Definition acceptDirectBundle (requested : Z) (evs : list (accept_event Z)) (aux : list (accept_event (Z * Z)))
    : option (result direct_error (list conn_id) * list conn_id) :=
  if negb (validateDirectConnectionCount requested) then Some (Err InvalidConnectionCount, [])
  else
    '(primary, closed, _) ← acceptDirectPrimary evs [];
    match primary with
    | Err e => Some (Err e, closed)
    | Ok (c, peerCount) => accept_rest (Z.min requested peerCount) c aux closed
    end.

(** [connectDirectBundle] *)
Definition connectDirectBundle (candidates : list string) (metadata : list Candidate) (timeout connections : Z)
    (attempts : list (directDialCandidate * attempt_env Z)) (aux : list (nat * auxiliary_env)) : result direct_error (list conn_id) * list conn_id :=
  if negb (validateDirectConnectionCount connections) then (Err InvalidConnectionCount, [])
  else
    let '(primary, closed) := connectDirectPrimary candidates metadata timeout attempts in
    match primary with
    | Err e => (Err e, closed)
    | Ok r => dial_rest (Z.min connections (peerConnectionCount r)) (dconn r) aux closed
    end.

(** ** Simultaneous dialling *)

(** [preferredDirectPhaseBudget]: the receiver's time before the sender dials too. *)
Definition preferredDirectPhaseBudget (timeout : Z) : Z :=
  let budget := Z.quot (wrap64 (timeout * 2)) 3 in
  let budget := if budget <? 250 * millisecond then 250 * millisecond else budget in
  if budget >? timeout then timeout else budget.
(** [normalizedDirectPunchStart]; [None] is the zero time. *)
Definition normalizedDirectPunchStart (punchAt : option Z) (now : Z) : Z :=
  match punchAt with
  | None => now
  | Some t => if (t <? now) || (t >? now + 2000 * millisecond) then now else t
  end.

(** The outcomes of accepting and of dialling, and the end of the phase. *)
Inductive both_ways_event := Outcome (r : result direct_error directConnect) | PhaseDone.
Definition outcomes_of (evs : list both_ways_event) : list (result direct_error directConnect) :=
  omap (fun e => match e with Outcome r => Some r | PhaseDone => None end) evs.
Definition opened_by (rs : list (result direct_error directConnect)) : list conn_id := omap (fun r => match r with Ok o => Some (dconn o) | Err _ => None end) rs.
(** [finishBidirectionalPrimary] waits for the outcomes still to come. *)
Definition finish_primary (rest : list both_ways_event) : list conn_id := opened_by (outcomes_of rest).
Definition close_fallback (fallback : option directConnect) : list conn_id := match fallback with Some f => [dconn f] | None => [] end.

(** The loop of [connectBidirectionalDirectPrimary]. *)
Fixpoint primary_loop (evs : list both_ways_event) (remaining : nat) (fallback : option directConnect) (failures : list direct_error)
    : option (result direct_error directConnect * list conn_id) :=
  match remaining with
  | O => Some (match fallback with Some f => Ok f | None => Err (BidirectionalFailed failures) end, [])
  | S remaining =>
      match evs with
      | [] => None
      | Outcome (Err e) :: rest =>
          match fallback with
          | Some f => if Nat.eqb remaining 0 then Some (Ok f, []) else primary_loop rest remaining fallback (failures ++ [e])
          | None => primary_loop rest remaining fallback (failures ++ [e])
          end
      | Outcome (Ok o) :: rest =>
          if String.eqb (initiatorRole o) preferredDirectInitiator then Some (Ok o, close_fallback fallback ++ finish_primary rest)
          else if Nat.eqb remaining 0 then Some (Ok o, [])
          else primary_loop rest remaining (Some o) failures
      | PhaseDone :: rest =>
          match fallback with
          | Some f => Some (Ok f, finish_primary rest)
          | None => Some (Err (match failures with [] => PhaseEnded | _ => BidirectionalFailed failures end), finish_primary rest)
          end
      end
  end.

Definition connectBidirectionalDirectPrimary (ownRole : string) (timeout : Z) (evs : list both_ways_event)
    : option (result direct_error directConnect * list conn_id) :=
  if timeout <=? 0 then Some (Err DirectTimeoutNotPositive, [])
  else match peerDirectRole ownRole with Err _ => Some (Err BadRole, []) | Ok _ => primary_loop evs 2 None [] end.

(** [connectBidirectionalDirectBundle]: the receiver dials the further
    connections, the sender accepts them. *)
Definition connectBidirectionalDirectBundle (listening : bool) (ownRole : string) (candidates : list string) (metadata : list Candidate)
    (timeout connections : Z) (evs : list both_ways_event) (dialled : list (nat * auxiliary_env)) (aux : list (accept_event (Z * Z)))
    : option (result direct_error (list conn_id) * list conn_id) :=
  if negb listening then Some (Err NoListener, [])
  else if negb (is_ok (peerDirectRole ownRole)) then Some (Err BadRole, [])
  else if negb (validateDirectConnectionCount connections) then Some (Err InvalidConnectionCount, [])
  else
    '(primary, closed) ← connectBidirectionalDirectPrimary ownRole timeout evs;
    match primary with
    | Err e => Some (Err e, closed)
    | Ok r =>
        let selected := Z.min connections (peerConnectionCount r) in
        if String.eqb ownRole "receiver" then
          if (selected >? 1) && String.eqb (dcandidate_addr r) "" && Nat.eqb (length (rankDirectCandidates candidates metadata)) 0
          then Some (Err NoAuxiliaryCandidate, closed ++ [dconn r])
          else Some (dial_rest selected (dconn r) dialled closed)
        else accept_rest selected (dconn r) aux closed
    end.

(** ** Slots *)

Lemma filled_app l l' : filled (l ++ l') = filled l ++ filled l'.
Proof. unfold filled. by rewrite omap_app. Qed.
Lemma filled_insert conns i c : conns !! i = Some None → filled (<[i := Some c]> conns) ≡ₚ c :: filled conns.
Proof.
  intros Hi. assert (Ef : filled conns = filled (take i conns ++ None :: drop (S i) conns)) by (by rewrite (take_drop_middle _ _ _ Hi)).
  rewrite Ef, insert_take_drop by (by eapply lookup_lt_Some). rewrite !filled_app. cbn. by rewrite <- Permutation_middle.
Qed.
Lemma filled_length conns : (length (filled conns) ≤ length conns)%nat.
Proof. unfold filled. induction conns as [|[c|] conns IH]; cbn; lia. Qed.
Lemma filled_full conns : length (filled conns) = length conns → conns = Some <$> filled conns.
Proof.
  induction conns as [|[c|] conns IH]; [done| |]; cbn.
  - intros [= E]. f_equal. by apply IH.
  - pose proof (filled_length conns). intros E. unfold filled in *. cbn in *. lia.
Qed.
Lemma bundle_full conns : conns ≠ [] → length (filled conns) = length conns → directTransportBundle conns = Ok (filled conns).
Proof.
  intros Hne Hf%filled_full. unfold directTransportBundle. destruct (Nat.eqb_spec (length conns) 0); [by destruct conns|].
  replace (forallb _ conns) with true; [done|]. symmetry. rewrite Hf. apply forallb_forall. intros x Hx%list_elem_of_In.
  apply list_elem_of_fmap in Hx as (y & -> & _). done.
Qed.
Lemma first_slot_spec selected c : 1 ≤ selected →
  length (first_slot selected c) = Z.to_nat selected ∧ filled (first_slot selected c) = [c] ∧ (length (filled (first_slot selected c)) + (Z.to_nat selected - 1) = Z.to_nat selected)%nat.
Proof.
  intros Hs. unfold first_slot. assert (Hf : ∀ n, filled (replicate n None) = []) by (intros n; induction n; done).
  split; [cbn; rewrite length_replicate; lia|]. unfold filled in *. cbn. rewrite Hf. cbn. split; [done|lia].
Qed.

(** ** Nothing leaks *)

Definition accepted_in {A} (evs : list (accept_event A)) : list conn_id := omap (fun e => match e with Accepted c _ _ => Some c | Refused _ => None end) evs.

Lemma accept_primary_spec evs closed res closed' rest :
  acceptDirectPrimary evs closed = Some (res, closed', rest) →
  ∃ used, evs = used ++ rest ∧ closed ++ accepted_in used ≡ₚ closed' ++ match res with Ok (c, _) => [c] | Err _ => [] end ∧
    match res with Ok (c, n) => ∃ late, Accepted c (Some n) late ∈ used | Err _ => True end.
Proof.
  revert closed. induction evs as [|[c [n|] late|e] evs IH]; intros closed; cbn [acceptDirectPrimary]; [done|..].
  - intros [= <- <- <-]. exists [Accepted c (Some n) late]. split; [done|]. split; [done|]. exists late. by left.
  - destruct late.
    + intros [= <- <- <-]. exists [Accepted c None true]. split; [done|]. cbn. by rewrite app_nil_r.
    + intros Hl. apply IH in Hl as (used & -> & Hp & Hr). exists (Accepted c None false :: used). split; [done|]. split.
      * rewrite <- Hp, <- (assoc_L (++)). done.
      * destruct res as [[c' n]|]; [|done]. destruct Hr as [late Hr]. exists late. by right.
  - intros [= <- <- <-]. exists [Refused e]. split; [done|]. by destruct e; cbn; rewrite !app_nil_r.
Qed.

Lemma accept_auxiliaries_spec count evs remaining conns closed err conns' closed' rest :
  0 ≤ count → length conns = Z.to_nat count → accept_auxiliaries count evs remaining conns closed = Some (err, conns', closed', rest) →
  ∃ used, evs = used ++ rest ∧ filled conns ++ closed ++ accepted_in used ≡ₚ filled conns' ++ closed' ∧ length conns' = length conns ∧
    (err = None → (length (filled conns) + remaining = length conns)%nat → length (filled conns') = length conns') ∧
    conns' !! 0%nat = conns !! 0%nat ∧
    ∀ i c, conns' !! i = Some (Some c) → conns !! i = Some (Some c) ∨ ∃ late, Accepted c (Some (Z.of_nat i, count)) late ∈ used.
Proof.
  intros Hc. revert remaining conns closed. induction evs as [|[c g late|e] evs IH]; intros remaining conns closed Hlen.
  all: destruct remaining as [|remaining]; cbn [accept_auxiliaries]; [intros [= <- <- <- <-]; exists []; cbn; rewrite app_nil_r; split_and!; try done; [intros; lia|intros; by left]|].
  1: done.
  - assert (Hbad : (if late then Some (Some AuxiliaryTimeout, conns, closed ++ [c], evs) else accept_auxiliaries count evs (S remaining) conns (closed ++ [c])) = Some (err, conns', closed', rest) →
      ∃ used, Accepted c g late :: evs = used ++ rest ∧ filled conns ++ closed ++ accepted_in used ≡ₚ filled conns' ++ closed' ∧ length conns' = length conns ∧
        (err = None → (length (filled conns) + S remaining = length conns)%nat → length (filled conns') = length conns') ∧
        conns' !! 0%nat = conns !! 0%nat ∧
        ∀ i c0, conns' !! i = Some (Some c0) → conns !! i = Some (Some c0) ∨ ∃ late, Accepted c0 (Some (Z.of_nat i, count)) late ∈ used).
    { destruct late.
      - intros [= <- <- <- <-]. exists [Accepted c g true]. split; [done|]. split; [done|]. split; [done|]. split; [done|]. split; [done|by left].
      - intros Hl. apply IH in Hl as (used & -> & Hp & Hl & He & H0 & Hi); [|done]. exists (Accepted c g false :: used). split; [done|]. split.
        + rewrite <- Hp. cbn. by rewrite <- (assoc_L (++)).
        + split; [done|]. split; [done|]. split; [done|]. intros i c0 Hic. destruct (Hi i c0 Hic) as [|[late ?]]; [by left|right]. exists late. by right. }
    destruct g as [[index peerCount]|]; [|exact Hbad].
    destruct (negb (peerCount =? count) || (index <=? 0) || (index >=? count) || bool_decide (mjoin (conns !! Z.to_nat index) ≠ None)) eqn:Eb; [exact Hbad|]. clear Hbad.
    apply orb_false_iff in Eb as [Eb Hnone]. apply orb_false_iff in Eb as [Eb Hhi]. apply orb_false_iff in Eb as [Eq Hlo].
    apply negb_false_iff, Z.eqb_eq in Eq. apply Z.leb_gt in Hlo. rewrite Z.geb_leb in Hhi. apply Z.leb_gt in Hhi. apply bool_decide_eq_false, dec_stable in Hnone.
    assert (Hslot : conns !! Z.to_nat index = Some None).
    { destruct (lookup_lt_is_Some_2 conns (Z.to_nat index)) as [x Hx]; [lia|]. rewrite Hx in Hnone |- *. cbn in Hnone. by rewrite Hnone. }
    intros Hl. apply IH in Hl as (used & -> & Hp & Hlen' & He & H0 & Hi); [|by rewrite length_insert]. exists (Accepted c (Some (index, peerCount)) late :: used).
    pose proof (filled_insert conns (Z.to_nat index) c Hslot) as Hf. split; [done|]. rewrite Hf in Hp. rewrite length_insert in Hlen'. split.
    + rewrite <- Hp. cbn. by rewrite <- Permutation_middle, <- Permutation_middle.
    + split; [done|]. split.
      * intros Herr Hsum. apply He; [done|]. apply Permutation_length in Hf. rewrite Hf, length_insert. cbn. lia.
      * split; [rewrite H0; apply list_lookup_insert_ne; lia|].
        intros i c0 Hic. destruct (Hi i c0 Hic) as [Hin|[late' ?]]; [|right; exists late'; by right].
        destruct (decide (i = Z.to_nat index)) as [->|Hne]; [|left; by rewrite list_lookup_insert_ne in Hin].
        rewrite list_lookup_insert_eq in Hin by (apply lookup_lt_Some in Hslot; lia). injection Hin as ->. right. exists late. subst peerCount. rewrite Z2Nat.id by lia. by left.
  - intros [= <- <- <- <-]. exists [Refused e]. split; [done|]. cbn. rewrite app_nil_r. split; [done|]. split; [done|]. split; [by destruct e|]. split; [done|by left].
Qed.

Definition dialled_in (outcomes : list (nat * result direct_error conn_id)) : list conn_id := omap (fun o : nat * result direct_error conn_id => match o.2 with Ok c => Some c | Err _ => None end) outcomes.

Lemma connect_auxiliaries_spec outcomes conns firstErr conns' err :
  NoDup outcomes.*1 → (∀ i, i ∈ outcomes.*1 → conns !! i = Some None) → connect_auxiliaries outcomes conns firstErr = (conns', err) →
  filled conns' ≡ₚ filled conns ++ dialled_in outcomes ∧ length conns' = length conns ∧
  (err = None ↔ firstErr = None ∧ ∀ i e, (i, Err e) ∉ outcomes) ∧
  (∀ i c, conns' !! i = Some (Some c) ↔ conns !! i = Some (Some c) ∨ (i, Ok c) ∈ outcomes).
Proof.
  revert conns firstErr. induction outcomes as [|[i [c|e]] outcomes IH]; intros conns firstErr Hnd Hslot; cbn [connect_auxiliaries].
  - intros [= <- <-]. cbn. rewrite app_nil_r. split; [done|]. split; [done|]. split; [split; [intros ->; split; [done|by intros ? ? ?%not_elem_of_nil]|by intros [-> _]]|].
    intros i c. split; [by left|intros [?|?%not_elem_of_nil]; done].
  - cbn [fmap list_fmap fst] in Hnd, Hslot. apply NoDup_cons in Hnd as [Hni Hnd]. assert (Hi : conns !! i = Some None) by (apply Hslot; by left).
    intros Hrun. apply IH in Hrun as (Hf & Hl & He & Hc); [|done|].
    2:{ intros j Hj. rewrite list_lookup_insert_ne by (intros ->; done). apply Hslot. by right. }
    rewrite length_insert in Hl. split; [rewrite Hf, (filled_insert _ _ _ Hi); cbn; by rewrite Permutation_middle|]. split; [done|].
    split; [rewrite He; setoid_rewrite elem_of_cons; naive_solver|]. intros j c0. rewrite Hc, elem_of_cons.
    destruct (decide (j = i)) as [->|Hne].
    + rewrite list_lookup_insert_eq by by eapply lookup_lt_Some. rewrite Hi. split; [intros [[= ->]|?]; auto|intros [?|[[= ->]|?]]; [done|by left|by right]].
    + rewrite list_lookup_insert_ne by done. split; [intros [?|?]; auto|intros [?|[[= -> ->]|?]]; [by left|done|by right]].
  - cbn [fmap list_fmap fst] in Hnd, Hslot. apply NoDup_cons in Hnd as [Hni Hnd]. intros Hrun. apply IH in Hrun as (Hf & Hl & He & Hc); [|done|intros j Hj; apply Hslot; by right].
    split; [done|]. split; [done|]. split.
    + rewrite He. split; [by destruct firstErr; intros [? _]|]. intros [_ Hne]. exfalso. apply (Hne i e). by left.
    + intros j c0. rewrite Hc, elem_of_cons. split; [intros [?|?]; auto|intros [?|[[=]|?]]; auto].
Qed.

Definition returned (r : result direct_error (list conn_id)) : list conn_id := match r with Ok cs => cs | Err _ => [] end.

Lemma one_slot selected c : selected = 1 → directTransportBundle (first_slot selected c) = Ok [c].
Proof. by intros ->. Qed.

Lemma filled_lookup conns i c : length (filled conns) = length conns → filled conns !! i = Some c ↔ conns !! i = Some (Some c).
Proof.
  intros Hf%filled_full. rewrite Hf at 2. rewrite list_lookup_fmap. destruct (filled conns !! i); cbn; split; congruence.
Qed.

(** The further connections, accepted. *)
Lemma accept_rest_spec selected c aux closed res closed' :
  1 ≤ selected → accept_rest selected c aux closed = Some (res, closed') →
  ∃ used rest, aux = used ++ rest ∧ c :: closed ++ accepted_in used ≡ₚ returned res ++ closed' ∧
    match res with
    | Ok cs => cs !! 0%nat = Some c ∧ length cs = Z.to_nat selected ∧
        ∀ i x, (0 < i)%nat → cs !! i = Some x → ∃ late, Accepted x (Some (Z.of_nat i, selected)) late ∈ used
    | Err _ => True
    end.
Proof.
  intros Hs. unfold accept_rest. cbv zeta. destruct (first_slot_spec selected c Hs) as (Hlen & Hfill & Hsum). rewrite Z.gtb_ltb. destruct (Z.ltb_spec 1 selected) as [Hgt|Hle].
  2:{ rewrite (one_slot selected c) by lia. intros [= <- <-]. exists [], aux. split; [done|]. cbn. rewrite app_nil_r. split; [done|]. split; [done|].
      split; [lia|]. intros [|i] x ?; [lia|done]. }
  destruct (accept_auxiliaries _ _ _ _ _) as [[[[err conns] closed0] rest]|] eqn:E; [|done]. cbn [mbind option_bind].
  apply accept_auxiliaries_spec in E as (used & Haux & Hp & Hl & He & H0 & Hi); [|lia|done]. rewrite Hfill in Hp. destruct err as [e|]; intros [= <- <-]; exists used, rest; split; try done.
  - split; [|done]. cbn [returned app]. rewrite (comm (++) closed0). by rewrite <- Hp.
  - specialize (He eq_refl). rewrite Hlen in He. specialize (He Hsum). assert (Hcons : conns ≠ []) by (intros ->; cbn in Hl; lia).
    rewrite (bundle_full _ Hcons He). cbn [returned]. split; [by rewrite <- Hp|].
    split; [by apply (filled_lookup _ _ _ He)|]. split; [lia|].
    intros i x Hpos Hx%(filled_lookup _ _ _ He). destruct (Hi i x Hx) as [Hf|?]; [|done]. exfalso. destruct i as [|i]; [lia|]. cbn in Hf.
    apply lookup_replicate in Hf as [? _]. done.
Qed.

(** The further connections, dialled: what the attempts reported, and what they
    opened. *)
Definition aux_reports (count : Z) (aux : list (nat * auxiliary_env)) : list (nat * result direct_error conn_id) :=
  (fun o : nat * auxiliary_env => (o.1, (dial_auxiliary count o.2).1)) <$> aux.
Definition dialled_aux (aux : list (nat * auxiliary_env)) : list conn_id := omap (fun o : nat * auxiliary_env => aux_dial o.2) aux.

Lemma aux_reports_ids count aux : (aux_reports count aux).*1 = aux.*1.
Proof. unfold aux_reports. rewrite <- list_fmap_compose. done. Qed.

Lemma aux_reports_Ok count aux i c :
  (i, Ok c) ∈ aux_reports count aux ↔ (i, MkAuxiliary (Some c) (Some count)) ∈ aux.
Proof.
  unfold aux_reports. rewrite list_elem_of_fmap. split.
  - intros ([j [[d|] [n|]]] & E & Hin); injection E as -> E; cbn in E; try discriminate E.
    revert E. destruct (Z.eqb_spec n count) as [->|]; [|done]. by intros [= ->].
  - intros Hin. eexists. split; [|exact Hin]. cbn. by rewrite Z.eqb_refl.
Qed.

Lemma aux_reports_Err count aux i e :
  (i, Err e) ∈ aux_reports count aux → ∃ env, (i, env) ∈ aux ∧ ∀ c, env ≠ MkAuxiliary (Some c) (Some count).
Proof.
  unfold aux_reports. intros ([j env] & E & Hin)%list_elem_of_fmap. cbn [fst snd] in E. injection E as -> E. exists env. split; [done|].
  intros c ->. cbn in E. by rewrite Z.eqb_refl in E.
Qed.

Lemma dial_auxiliaries_settle count aux :
  dialled_aux aux ≡ₚ dialled_in (aux_reports count aux) ++ mjoin ((fun o : nat * auxiliary_env => (dial_auxiliary count o.2).2) <$> aux).
Proof.
  induction aux as [|[i [[c|] g]] aux IH]; [done| |exact IH]. unfold dialled_aux, dialled_in, aux_reports in *. cbn [omap list_omap fmap list_fmap fst snd aux_dial].
  cbn [mjoin list_join]. rewrite IH. unfold dial_auxiliary. cbn [aux_dial aux_greeting]. destruct g as [n|]; [destruct (n =? count)|]; cbn [fst snd app]; solve_Permutation.
Qed.

Lemma aux_failed count aux :
  ¬ (None (A := direct_error) = None ∧ ∀ i e, (i, Err e) ∉ aux_reports count aux) →
  ∃ i env, (i, env) ∈ aux ∧ ∀ x, env ≠ MkAuxiliary (Some x) (Some count).
Proof.
  intros Hn. destruct (list_find (fun o : nat * result direct_error conn_id => is_ok o.2 = false) (aux_reports count aux)) as [[k [i r]]|] eqn:Ef.
  - apply list_find_Some in Ef as (Hk%list_elem_of_lookup_2 & Hr & _). destruct r as [|e']; [done|]. exists i. by eapply aux_reports_Err.
  - exfalso. apply Hn. split; [done|]. intros i e' Hin. apply list_find_None in Ef. rewrite Forall_forall in Ef. by apply (Ef _ Hin).
Qed.

Lemma all_dialled outcomes : (∀ i e, (i, Err e) ∉ outcomes) → length (dialled_in outcomes) = length outcomes.
Proof.
  intros Hall. unfold dialled_in. induction outcomes as [|[i [x|e]] outcomes IH]; [done| |].
  - cbn. f_equal. apply IH. intros j e Hj. apply (Hall j e). by right.
  - exfalso. apply (Hall i e). by left.
Qed.

Lemma connectDirectAuxiliaries_eq count aux conns :
  connectDirectAuxiliaries count aux conns =
  (connect_auxiliaries (aux_reports count aux) conns None, mjoin ((fun o : nat * auxiliary_env => (dial_auxiliary count o.2).2) <$> aux)).
Proof.
  unfold connectDirectAuxiliaries. cbv zeta. rewrite <- !list_fmap_compose. change (_ <$> aux) with (aux_reports count aux) at 1.
  by destruct (connect_auxiliaries _ conns None).
Qed.

Lemma dial_rest_spec selected c aux closed res closed' :
  1 ≤ selected → aux.*1 ≡ₚ seq 1 (Z.to_nat selected - 1) → dial_rest selected c aux closed = (res, closed') →
  c :: closed ++ dialled_aux aux ≡ₚ returned res ++ closed' ∧
    match res with
    | Ok cs => cs !! 0%nat = Some c ∧ length cs = Z.to_nat selected ∧
        ∀ i x, (0 < i)%nat → cs !! i = Some x ↔ (i, MkAuxiliary (Some x) (Some selected)) ∈ aux
    | Err _ => ∃ i env, (i, env) ∈ aux ∧ ∀ x, env ≠ MkAuxiliary (Some x) (Some selected)
    end.
Proof.
  intros Hs Hperm. unfold dial_rest. cbv zeta. destruct (first_slot_spec selected c Hs) as (Hlen & Hfill & Hsum). rewrite Z.gtb_ltb. destruct (Z.ltb_spec 1 selected) as [Hgt|Hle].
  2:{ rewrite one_slot by lia. intros [= <- <-]. assert (aux = []) as ->.
      { apply Permutation_length in Hperm. rewrite length_fmap, length_seq in Hperm. apply length_zero_iff_nil. lia. }
      cbn. rewrite app_nil_r. split; [done|]. split; [done|]. split; [lia|]. intros [|i] x Hi; [lia|]. cbn. split; [done|by intros ?%not_elem_of_nil]. }
  rewrite connectDirectAuxiliaries_eq. pose proof (dial_auxiliaries_settle selected aux) as Hsettle. set (failed := mjoin _) in *. clearbody failed.
  rewrite <- (aux_reports_ids selected) in Hperm.
  destruct (connect_auxiliaries (aux_reports selected aux) _ None) as [conns err] eqn:E. apply connect_auxiliaries_spec in E as (Hf & Hl & He & Hc).
  2:{ rewrite Hperm. apply NoDup_seq. }
  2:{ intros i Hi. rewrite Hperm in Hi. apply elem_of_seq in Hi. unfold first_slot. destruct i as [|i]; [lia|]. cbn. apply lookup_replicate. split; [done|lia]. }
  rewrite Hfill in Hf. destruct err as [e|]; intros [= <- <-].
  - cbn [returned app]. rewrite Hf, Hsettle. split; [solve_Permutation|]. apply aux_failed. intros Hall. enough (Some e = None) by done. by apply He.
  - destruct (proj1 He eq_refl) as [_ Hall].
    assert (Hfull : length (filled conns) = length conns).
    { apply Permutation_length in Hf. rewrite Hf, Hl, Hlen. cbn [app length]. rewrite (all_dialled _ Hall).
      apply Permutation_length in Hperm. rewrite length_fmap, length_seq in Hperm. lia. }
    assert (Hcons : conns ≠ []) by (intros ->; cbn in Hl; lia). rewrite (bundle_full _ Hcons Hfull). cbn [returned].
    split; [rewrite Hf, Hsettle; solve_Permutation|]. split; [|split; [lia|]].
    + apply (filled_lookup _ _ _ Hfull), Hc. by left.
    + intros i x Hi. rewrite (filled_lookup _ _ _ Hfull), Hc, aux_reports_Ok. split; [intros [Hx|?]; [exfalso|done]|by right].
      destruct i as [|i]; [lia|]. cbn in Hx. by apply lookup_replicate in Hx as [? _].
Qed.

Definition opened_attempts (results : list attempt_result) : list conn_id := omap (fun o => match o with Ok x => Some (dconn x) | Err _ => None end) results.
Definition fastest (results : list attempt_result) : option directConnect := head (omap (fun o => match o with Ok x => Some x | Err _ => None end) results).

Lemma race_results_spec results failures res closed :
  race_results results failures = (res, closed) →
  opened_attempts results ≡ₚ match res with Ok r => [dconn r] | Err _ => [] end ++ closed ∧
  match res with Ok r => fastest results = Some r | Err _ => fastest results = None ∧ opened_attempts results = [] end.
Proof.
  revert failures. induction results as [|[r|e] results IH]; intros failures; cbn [race_results].
  - by intros [= <- <-].
  - by intros [= <- <-].
  - intros Hr. by apply IH in Hr.
Qed.

(** Everything an attempt dialled it reports or closes. *)
Definition dialled_by {A} (candidate : directDialCandidate) (env : attempt_env A) : list conn_id :=
  if (startDelay candidate >? 0) && early_end env then [] else option_list (dial_outcome env).

Lemma dial_attempt_settles {A} candidate (env : attempt_env A) connected :
  (∀ c a, dconn (connected c a) = c) →
  dialled_by candidate env = opened_attempts [(dial_attempt candidate env connected).1] ++ (dial_attempt candidate env connected).2.
Proof.
  intros Hc. unfold dialled_by, dial_attempt. destruct (_ && _); [done|]. destruct (dial_outcome env) as [c|]; [|done].
  destruct (greeting_outcome env) as [a|]; [|done]. cbn. by rewrite Hc.
Qed.

Lemma attempts_settle {A} (dial : directDialCandidate → attempt_env A → attempt_result * list conn_id) attempts :
  (∀ c e, dialled_by c e = opened_attempts [(dial c e).1] ++ (dial c e).2) →
  (attempts ≫= fun ce => dialled_by ce.1 ce.2) ≡ₚ
    opened_attempts ((fun ce => dial ce.1 ce.2) <$> attempts).*1 ++ mjoin ((fun ce => dial ce.1 ce.2) <$> attempts).*2.
Proof.
  intros Hd. induction attempts as [|[c e] l IH]; [done|]. rewrite bind_cons, IH. cbn [fst snd]. rewrite Hd, !fmap_cons. cbn [fst snd mjoin list_join].
  unfold opened_attempts. destruct (dial c e) as [[o|x] cl]; cbn [omap list_omap fst snd app]; solve_Permutation.
Qed.

(** The first of the attempts to pass its greeting. *)
Definition fastest_attempt (attempts : list (directDialCandidate * attempt_env Z)) : option directConnect :=
  fastest ((fun ce => (dialDirectCandidate ce.1 ce.2).1) <$> attempts).
Definition dialled (attempts : list (directDialCandidate * attempt_env Z)) : list conn_id := attempts ≫= fun ce => dialled_by ce.1 ce.2.

Lemma connectDirectPrimary_spec candidates metadata timeout attempts res closed :
  attempts.*1 ≡ₚ rankDirectCandidates candidates metadata → 0 < timeout →
  connectDirectPrimary candidates metadata timeout attempts = (res, closed) →
  dialled attempts ≡ₚ match res with Ok r => [dconn r] | Err _ => [] end ++ closed ∧
  match res with Ok r => fastest_attempt attempts = Some r | Err _ => fastest_attempt attempts = None end.
Proof.
  intros Hrank Ht. unfold connectDirectPrimary. destruct (Nat.eqb_spec (length (rankDirectCandidates candidates metadata)) 0) as [H0|_].
  { intros [= <- <-]. apply Permutation_length in Hrank. rewrite H0, length_fmap in Hrank. apply length_zero_iff_nil in Hrank as ->. done. }
  destruct (Z.leb_spec timeout 0); [lia|]. cbv zeta. destruct (raceDirectCandidates _) as [r losers] eqn:E. intros [= <- <-].
  apply race_results_spec in E as [Hp Hf]. unfold dialled, fastest_attempt.
  rewrite (attempts_settle dialDirectCandidate attempts) by (intros c e; by apply dial_attempt_settles). rewrite Hp.
  rewrite <- list_fmap_compose in Hf. split; [solve_Permutation|]. destruct r; [exact Hf|apply Hf].
Qed.

(** C31: establishing a direct connection one way leaks nothing.  Whatever
    connects to a listening client, and however dialling and greeting the
    candidates of a dialling one ends, in any order: of the connections that were
    opened, those of failed greetings included, those returned and those closed
    are together all of them, each once.  What is returned is complete: the first
    connection, the fastest one that passed the greeting, in front, and each
    further one at the index it was greeted for, as many as both ends want; and a
    dialling client fails only when an attempt it needed failed. *)
Theorem direct_bundle_settles requested :
  1 ≤ requested ≤ 8 →
  (∀ evs aux res closed, (∀ c n late, Accepted c (Some n) late ∈ evs → 1 ≤ n) →
     acceptDirectBundle requested evs aux = Some (res, closed) →
     ∃ used rest used' rest', evs = used ++ rest ∧ aux = used' ++ rest' ∧ accepted_in used ++ accepted_in used' ≡ₚ returned res ++ closed ∧
       match res with
       | Ok cs => ∃ c n late, Accepted c (Some n) late ∈ used ∧ cs !! 0%nat = Some c ∧ length cs = Z.to_nat (Z.min requested n) ∧
           ∀ i x, (0 < i)%nat → cs !! i = Some x → ∃ late, Accepted x (Some (Z.of_nat i, Z.min requested n)) late ∈ used'
       | Err _ => True
       end) ∧
  (∀ candidates metadata timeout attempts aux res closed,
     attempts.*1 ≡ₚ rankDirectCandidates candidates metadata → 0 < timeout →
     (∀ r, fastest_attempt attempts = Some r → 1 ≤ peerConnectionCount r) →
     aux.*1 ≡ₚ (match fastest_attempt attempts with Some r => seq 1 (Z.to_nat (Z.min requested (peerConnectionCount r)) - 1) | None => [] end) →
     connectDirectBundle candidates metadata timeout requested attempts aux = (res, closed) →
     dialled attempts ++ dialled_aux aux ≡ₚ returned res ++ closed ∧
     match res with
     | Ok cs => ∃ r, fastest_attempt attempts = Some r ∧ cs !! 0%nat = Some (dconn r) ∧ length cs = Z.to_nat (Z.min requested (peerConnectionCount r)) ∧
         ∀ i x, (0 < i)%nat → cs !! i = Some x ↔ (i, MkAuxiliary (Some x) (Some (Z.min requested (peerConnectionCount r)))) ∈ aux
     | Err _ => fastest_attempt attempts = None ∨ ∃ r i env, fastest_attempt attempts = Some r ∧ (i, env) ∈ aux ∧
         ∀ x, env ≠ MkAuxiliary (Some x) (Some (Z.min requested (peerConnectionCount r)))
     end).
Proof.
  intros Hreq. assert (Hv : validateDirectConnectionCount requested = true).
  { unfold validateDirectConnectionCount. rewrite Z.gtb_ltb. apply negb_true_iff, orb_false_iff. split; apply Z.ltb_ge; lia. }
  split.
  - intros evs aux res closed Hn. unfold acceptDirectBundle. rewrite Hv. cbn [negb]. destruct (acceptDirectPrimary evs []) as [[[prim closed0] rest]|] eqn:E; [|done].
    cbn [mbind option_bind]. apply accept_primary_spec in E as (used & Hevs & Hp & Hin). cbn [app] in Hp. destruct prim as [[c n]|e].
    + destruct Hin as [late Hin]. assert (1 ≤ n) by (apply (Hn c n late); rewrite Hevs; set_solver). intros Hr. apply accept_rest_spec in Hr as (used' & rest' & Haux & Hp' & Hres); [|lia].
      exists used, rest, used', rest'. split; [done|]. split; [done|]. split.
      * rewrite <- Hp', Hp. rewrite (comm (++) closed0 [c]). done.
      * destruct res as [cs|]; [|done]. exists c, n, late. done.
    + intros [= <- <-]. exists used, rest, [], aux. split; [done|]. split; [done|]. split; [|done]. cbn. rewrite app_nil_r in *. done.
  - intros candidates metadata timeout attempts aux res closed Hrank Ht Hcount Haux. unfold connectDirectBundle. rewrite Hv. cbn [negb].
    destruct (connectDirectPrimary candidates metadata timeout attempts) as [prim closed0] eqn:E.
    apply connectDirectPrimary_spec in E as [Hp Hf]; [|done..]. destruct prim as [r|e]; rewrite Hf in Haux.
    + specialize (Hcount r Hf). intros Hr. apply dial_rest_spec in Hr as [Hp' Hres]; [|lia|done]. split; [by rewrite Hp, <- Hp'|].
      destruct res as [cs|]; [exists r; done|right]. destruct Hres as (i & env & Hres). by exists r, i, env.
    + apply Permutation_nil_r in Haux. assert (aux = []) as -> by by destruct aux. intros [= <- <-].
      split; [by rewrite Hp, app_nil_r|by left].
Qed.

(** Dialling both ways ends and picks the receiver's connection.  The outcomes
    of accepting and of dialling come in any order, and the phase may end before
    them: the call always returns, everything opened is returned or closed, a
    connection the sender dialled is taken only if the receiver's was not there or
    the phase was over, and an error means that nothing was opened in time. *)
Theorem both_ways_settles role peer timeout acc dial evs :
  peerDirectRole role = Ok peer → 0 < timeout →
  (∀ o, acc = Ok o → initiatorRole o = peer) → (∀ o, dial = Ok o → initiatorRole o = role ∨ initiatorRole o = preferredDirectInitiator) →
  outcomes_of evs ≡ₚ [acc; dial] →
  ∃ res closed, connectBidirectionalDirectPrimary role timeout evs = Some (res, closed) ∧
    opened_by [acc; dial] ≡ₚ match res with Ok o => [dconn o] | Err _ => [] end ++ closed ∧
    match res with
    | Ok o => (acc = Ok o ∨ dial = Ok o) ∧
        (initiatorRole o ≠ preferredDirectInitiator → PhaseDone ∈ evs ∨ ∀ o', acc = Ok o' ∨ dial = Ok o' → initiatorRole o' ≠ preferredDirectInitiator)
    | Err _ => opened_by [acc; dial] = [] ∨ PhaseDone ∈ evs
    end.
Proof.
  intros Hrole Ht Hacc Hdial Hevs. unfold connectBidirectionalDirectPrimary. destruct (Z.leb_spec timeout 0); [lia|]. rewrite Hrole.
  assert (Hone : ∀ o o', acc = Ok o → dial = Ok o' → initiatorRole o = preferredDirectInitiator ∨ initiatorRole o' = preferredDirectInitiator).
  { intros o o' Ho Ho'. rewrite (Hacc o Ho). revert Hrole. unfold peerDirectRole. destruct (String.eqb_spec role "sender"); [intros [= <-]; by left|].
    destruct (String.eqb_spec role "receiver") as [->|]; [|done]. intros _. right. by destruct (Hdial o' Ho'). }
  assert (Hcases : ∀ r1 r2, (acc = r1 ∧ dial = r2) ∨ (acc = r2 ∧ dial = r1) → outcomes_of evs = [r1; r2] →
    ∃ res closed, primary_loop evs 2 None [] = Some (res, closed) ∧ opened_by [r1; r2] ≡ₚ match res with Ok o => [dconn o] | Err _ => [] end ++ closed ∧
    match res with
    | Ok o => (r1 = Ok o ∨ r2 = Ok o) ∧ (initiatorRole o ≠ preferredDirectInitiator → PhaseDone ∈ evs ∨ ∀ o', r1 = Ok o' ∨ r2 = Ok o' → initiatorRole o' ≠ preferredDirectInitiator)
    | Err _ => opened_by [r1; r2] = [] ∨ PhaseDone ∈ evs
    end).
  { intros r1 r2 Hr Ho. assert (Hpref : ∀ o o', r1 = Ok o → r2 = Ok o' → initiatorRole o = preferredDirectInitiator ∨ initiatorRole o' = preferredDirectInitiator).
    { destruct Hr as [[<- <-]|[<- <-]]; intros o o' E E'; [by eapply Hone|]. destruct (Hone o' o); auto. }
    clear -Ho Hpref. destruct evs as [|[ra|] evs]; [done| |].
    2:{ cbn [primary_loop]. eexists _, _. split; [done|]. unfold finish_primary, outcomes_of. cbn in Ho. rewrite Ho. split; [done|]. right. by left. }
    cbn in Ho. injection Ho as -> Ho. cbn [primary_loop]. destruct r1 as [o1|e1].
    - destruct (String.eqb_spec (initiatorRole o1) preferredDirectInitiator) as [Hp|Hp].
      { eexists _, _. split; [done|]. unfold finish_primary, outcomes_of. cbn [close_fallback app]. rewrite Ho. split; [by destruct r2|]. split; [by left|done]. }
      cbn [Nat.eqb]. destruct evs as [|[rb|] evs]; [done| |].
      2:{ cbn [primary_loop]. eexists _, _. split; [done|]. unfold finish_primary, outcomes_of. cbn in Ho. rewrite Ho. split; [by destruct r2|]. split; [by left|].
          intros _. left. right. by left. }
      cbn in Ho. injection Ho as -> Ho. cbn [primary_loop]. destruct r2 as [o2|e2].
      + destruct (Hpref o1 o2 eq_refl eq_refl) as [?|Hp2]; [done|]. rewrite Hp2. change (String.eqb _ _) with true. cbn iota.
        eexists _, _. split; [done|]. unfold finish_primary, outcomes_of. rewrite Ho. cbn. split; [by constructor|]. split; [by right|]. by rewrite Hp2.
      + cbn [Nat.eqb]. eexists _, _. split; [done|]. split; [done|]. split; [by left|]. intros _. right. intros o' [[= <-]|[=]]. done.
    - destruct evs as [|[rb|] evs]; [done| |].
      2:{ cbn [primary_loop]. eexists _, _. split; [done|]. unfold finish_primary, outcomes_of. cbn in Ho. rewrite Ho. split; [by destruct r2|]. right. right. by left. }
      cbn in Ho. injection Ho as -> Ho. cbn [primary_loop]. destruct r2 as [o2|e2].
      + destruct (String.eqb_spec (initiatorRole o2) preferredDirectInitiator) as [Hp|Hp]; cbn [Nat.eqb].
        * eexists _, _. split; [done|]. unfold finish_primary, outcomes_of. rewrite Ho. cbn. split; [done|]. split; [by right|done].
        * eexists _, _. split; [done|]. split; [done|]. split; [by right|]. intros _. right. intros o' [[=]|[= <-]]. done.
      + eexists _, _. split; [by destruct evs|]. split; [done|]. by left. }
  apply Permutation_sym, Permutation_length_2_inv in Hevs as [E|E].
  - destruct (Hcases acc dial) as (res & closed & Hrun & Hres); [by left|done|]. exists res, closed. split; [done|]. exact Hres.
  - destruct (Hcases dial acc) as (res & closed & Hrun & Hop & Hres); [by right|done|]. exists res, closed. split; [done|]. split.
    + rewrite <- Hop. destruct acc, dial; cbn; try done. by constructor.
    + destruct res as [o|]; [|destruct Hres as [Hn|]; [left|by right]; by destruct acc, dial]. destruct Hres as [Hin Hp]. split; [tauto|].
      intros Hne. destruct (Hp Hne) as [?|Hall]; [by left|right]. intros o' Ho'. apply Hall. tauto.
Qed.

(** Three candidates: the first peer fails the greeting, the second passes it
    first, the third later. *)
Definition demo_addresses : list string := ["10.0.0.2:7000"; "10.0.0.3:7000"; "10.0.0.4:7000"]%string.
Definition demo_attempts : list (directDialCandidate * attempt_env Z) :=
  zip (rankDirectCandidates demo_addresses [])
    [MkAttempt false (Some 3%nat) None; MkAttempt false (Some 4%nat) (Some 2); MkAttempt false (Some 5%nat) (Some 2)].

Lemma direct_bundle_settles_witness :
  (∃ used rest used' rest' : list _, [Accepted 7%nat None false; Accepted 1%nat (Some 3) false] = used ++ rest ∧
     [Accepted 9%nat (Some (1, 3)) false; Accepted 2%nat (Some (1, 2)) false] = used' ++ rest' ∧
     accepted_in used ++ accepted_in used' ≡ₚ [1; 2]%nat ++ [7; 9]%nat) ∧
  dialled demo_attempts ++ dialled_aux [(1%nat, MkAuxiliary (Some 6%nat) (Some 2))] ≡ₚ [4; 6]%nat ++ [3; 5]%nat ∧
  dialled demo_attempts ++ dialled_aux [(1%nat, MkAuxiliary (Some 6%nat) (Some 1))] ≡ₚ [3; 5; 6; 4]%nat.
Proof.
  assert (Hrank : demo_attempts.*1 ≡ₚ rankDirectCandidates demo_addresses []) by (replace (demo_attempts.*1) with (rankDirectCandidates demo_addresses []); [reflexivity|vm_compute; reflexivity]).
  assert (Hcount : ∀ r, fastest_attempt demo_attempts = Some r → 1 ≤ peerConnectionCount r).
  { intros r Hr. vm_compute in Hr. injection Hr as <-. vm_compute. discriminate. }
  split; [|split].
  - destruct (proj1 (direct_bundle_settles 2 ltac:(lia)) [Accepted 7%nat None false; Accepted 1%nat (Some 3) false]
      [Accepted 9%nat (Some (1, 3)) false; Accepted 2%nat (Some (1, 2)) false] (Ok [1; 2]%nat) [7; 9]%nat) as (used & rest & used' & rest' & H1 & H2 & H3 & _).
    + intros c n late Hin. rewrite list_elem_of_In in Hin. destruct Hin as [E|[E|[]]]; [discriminate E|]. injection E as _ <- _. lia.
    + vm_compute. reflexivity.
    + exists used, rest, used', rest'. split; [exact H1|]. split; [exact H2|exact H3].
  - refine (proj1 (proj2 (direct_bundle_settles 2 ltac:(lia)) demo_addresses [] millisecond demo_attempts _ (Ok [4; 6]%nat) [3; 5]%nat Hrank _ Hcount _ _)).
    + vm_compute. reflexivity.
    + vm_compute. reflexivity.
    + vm_compute. reflexivity.
  - refine (proj1 (proj2 (direct_bundle_settles 2 ltac:(lia)) demo_addresses [] millisecond demo_attempts _ (Err (PeerCountDiffers 1)) [3; 5; 6; 4]%nat Hrank _ Hcount _ _)).
    + vm_compute. reflexivity.
    + vm_compute. reflexivity.
    + vm_compute. reflexivity.
Defined.

Lemma both_ways_settles_witness :
  ∃ res closed, connectBidirectionalDirectPrimary "sender" millisecond
      [Outcome (Ok (MkConnect 2%nat "10.0.0.2:7000" 2 "sender")); Outcome (Ok (MkConnect 1%nat "10.0.0.9:7000" 2 "receiver"))] = Some (res, closed) ∧
    [1; 2]%nat ≡ₚ match res with Ok o => [dconn o] | Err _ => [] end ++ closed.
Proof.
  destruct (both_ways_settles "sender" "receiver" millisecond (Ok (MkConnect 1%nat "10.0.0.9:7000" 2 "receiver")) (Ok (MkConnect 2%nat "10.0.0.2:7000" 2 "sender"))
    [Outcome (Ok (MkConnect 2%nat "10.0.0.2:7000" 2 "sender")); Outcome (Ok (MkConnect 1%nat "10.0.0.9:7000" 2 "receiver"))]) as (res & closed & Hrun & Hop & _).
  - reflexivity.
  - reflexivity.
  - intros o [= <-]. reflexivity.
  - intros o [= <-]. left. reflexivity.
  - vm_compute. apply Permutation_swap.
  - exists res, closed. split; [exact Hrun|exact Hop].
Defined.

(** ** One attempt *)

Definition dialBidirectionalCandidate (candidate : directDialCandidate) (env : attempt_env (Z * string)) : attempt_result * list conn_id :=
  dial_attempt candidate env (fun c a => MkConnect c (Address (dcandidate candidate)) a.1 a.2).

(** [acceptBidirectionalDirectPrimary]: [late] is whether the phase was over when
    the greeting failed. *)
Fixpoint acceptBidirectionalDirectPrimary (evs : list (accept_event (Z * string))) (closed : list conn_id)
    : option (result direct_error directConnect * list conn_id) :=
  match evs with
  | [] => None
  | Refused e :: _ => Some (Err (match e with AcceptCanceled => DirectCanceled | _ => AcceptFailed end), closed)
  | Accepted c (Some (peerCount, initiator)) _ :: _ => Some (Ok (MkConnect c "" peerCount initiator), closed)
  | Accepted c None late :: rest =>
      if late then Some (Err DirectCanceled, closed ++ [c]) else acceptBidirectionalDirectPrimary rest (closed ++ [c])
  end.

(** [dialBidirectionalDirectPrimary]: the attempts are listed in the order in
    which they report. *)
Definition dialBidirectionalDirectPrimary (addresses : list string) (metadata : list Candidate)
    (attempts : list (directDialCandidate * attempt_env (Z * string))) : result direct_error directConnect * list conn_id :=
  if Nat.eqb (length (rankDirectCandidates addresses metadata)) 0 then (Err NoDirectAddress, [])
  else
    let reports := (fun ce => dialBidirectionalCandidate ce.1 ce.2) <$> attempts in
    let '(r, losers) := raceDirectCandidates reports.*1 in (r, mjoin reports.*2 ++ losers).

(** [waitForDirectPunch]: how long it waits, when the phase does not end first. *)
Definition waitForDirectPunch (punchAt : option Z) (now : Z) : Z :=
  match punchAt with
  | None => 0
  | Some p => if p <=? now then 0 else if p >? now + 2 * 1000 * millisecond then 0 else p - now
  end.

Lemma accept_both_ways_spec evs closed res closed' :
  acceptBidirectionalDirectPrimary evs closed = Some (res, closed') →
  ∃ used rest, evs = used ++ rest ∧ closed ++ accepted_in used ≡ₚ match res with Ok o => [dconn o] | Err _ => [] end ++ closed'.
Proof.
  revert closed. induction evs as [|[c [[n i]|] late|e] evs IH]; intros closed; cbn [acceptBidirectionalDirectPrimary]; [done| | |].
  - intros [= <- <-]. exists [Accepted c (Some (n, i)) late], evs. split; [done|]. cbn. by rewrite (comm (++)).
  - destruct late.
    + intros [= <- <-]. exists [Accepted c None true], evs. done.
    + intros (used & rest & -> & Hp)%IH. exists (Accepted c None false :: used), rest. split; [done|]. rewrite <- Hp. cbn. by rewrite <- app_assoc.
  - intros [= <- <-]. exists [Refused e], evs. split; [done|]. cbn. by rewrite app_nil_r.
Qed.

(** What was dialled both ways is returned or closed. *)
Lemma dial_both_ways_settles addresses metadata attempts res closed :
  rankDirectCandidates addresses metadata ≠ [] →
  dialBidirectionalDirectPrimary addresses metadata attempts = (res, closed) →
  (attempts ≫= fun ce => dialled_by ce.1 ce.2) ≡ₚ match res with Ok o => [dconn o] | Err _ => [] end ++ closed.
Proof.
  intros Hr. unfold dialBidirectionalDirectPrimary. destruct (Nat.eqb_spec (length (rankDirectCandidates addresses metadata)) 0) as [E|_].
  { by destruct (rankDirectCandidates addresses metadata). }
  cbv zeta. destruct (raceDirectCandidates _) as [r losers] eqn:E. intros [= <- <-]. apply race_results_spec in E as [Hp _].
  rewrite (attempts_settle dialBidirectionalCandidate attempts) by (intros c e; by apply dial_attempt_settles).
  rewrite Hp. solve_Permutation.
Qed.
