(* ===== verification/Rendezvous.v ===== *)
(** * Rendezvous rooms of the service ([internal/service/rendezvous_ws.go])

    Two clients that name the same room token meet here: the first waits, the
    second completes the room and both are told the outcome on a channel of one
    place.  The registry is generic in what the clients announce and in what they
    are told; negotiation and direct connections are its two uses.  The lemmas
    keep the registry in order under every operation; because a waiting client's
    channel is always empty, completing a room never blocks, which matters because
    the server's mutex is held meanwhile. *)
From Stdlib Require Import ZArith Lia Ascii String.
From stdpp Require Import base tactics numbers list gmap strings relations.
From S2P Require Import Prelude GoStrings Routing NoteServer.

(** ** The registry *)

Inductive rendezvous_error :=
  | InvalidRoom (name : string)
  | AlreadyNegotiating (role : string)
  | AlreadyWaiting (role name : string)
  | RoomExpired (name : string)
  | ProtocolMismatch (sender receiver : string)
  | IssueCredentialFailed.

#[export] Instance rendezvous_error_eq_dec : EqDecision rendezvous_error.
Proof. solve_decision. Defined.

Definition isSignalRole (role : string) : bool := String.eqb role "sender" || String.eqb role "receiver".

Definition peer_ptr := nat.

Section registry.
Context {C R : Type}.

Definition rendezvousOutcome : Type := result rendezvous_error R.

(** The channel of a peer is the list of the outcomes in it. *)
Record rendezvousPeer := MkPeer { prole : string; pcap : C; ppassive : bool; presult : list rendezvousOutcome }.
Record rendezvousRoom := MkRendezvousRoom { rexpires : Z; rslots : gmap string peer_ptr }.
Record rendezvousRegistry := MkRegistry {
  rrooms : gmap string rendezvousRoom;
  peers : gmap peer_ptr rendezvousPeer;
  next_peer : peer_ptr;
  rname : string;
  passiveTTL : Z;
}.

Definition newRendezvousRegistry (name : string) (passiveTTL : Z) : rendezvousRegistry :=
  MkRegistry ∅ ∅ 0%nat name passiveTTL.

Definition with_rooms (r : rendezvousRegistry) (rooms : gmap string rendezvousRoom) : rendezvousRegistry :=
  MkRegistry rooms (peers r) (next_peer r) (rname r) (passiveTTL r).
Definition with_peer (r : rendezvousRegistry) (p : peer_ptr) (x : rendezvousPeer) : rendezvousRegistry :=
  MkRegistry (rrooms r) (<[p := x]> (peers r)) (next_peer r) (rname r) (passiveTTL r).
Definition push_result (x : rendezvousPeer) (o : rendezvousOutcome) : rendezvousPeer :=
  MkPeer (prole x) (pcap x) (ppassive x) (presult x ++ [o]).

(** [select] with a default: nothing is sent when the channel is full. *)
Definition offer (r : rendezvousRegistry) (p : peer_ptr) (o : rendezvousOutcome) : rendezvousRegistry :=
  match peers r !! p with
  | Some x => if ppassive x then r else if bool_decide (presult x = []) then with_peer r p (push_result x o) else r
  | None => r
  end.
(** A plain send: [None] when it blocks. *)
Definition send (skip_passive : bool) (p : peer_ptr) (o : rendezvousOutcome) (r : rendezvousRegistry) : option rendezvousRegistry :=
  match peers r !! p with
  | Some x =>
      if skip_passive && ppassive x then Some r
      else if bool_decide (presult x = []) then Some (with_peer r p (push_result x o)) else None
  | None => Some r
  end.

Definition complete (r : rendezvousRegistry) (token : string) : rendezvousRegistry :=
  with_rooms r (delete token (rrooms r)).

Definition expire (r : rendezvousRegistry) (token : string) (room : rendezvousRoom) : rendezvousRegistry :=
  let err := Err (RoomExpired (rname r)) in
  let r := foldl (fun r p => offer r p err) r ((map_to_list (rslots room)).*2) in
  complete r token.

Definition expireBefore (r : rendezvousRegistry) (now : Z) : rendezvousRegistry :=
  foldl (fun r '(token, room) => if now >? rexpires room then expire r token room else r) r (map_to_list (rrooms r)).

(** The room of a token; an expired one is dropped first. *)
Definition find_room (r : rendezvousRegistry) (token : string) (now : Z) : option rendezvousRoom * rendezvousRegistry :=
  match rrooms r !! token with
  | Some room => if now >? rexpires room then (None, expire r token room) else (Some room, r)
  | None => (None, r)
  end.

Definition new_room (r : rendezvousRegistry) (is_passive : bool) (now ttl : Z) : rendezvousRoom :=
  MkRendezvousRoom (if is_passive && (passiveTTL r >? 0) then now + passiveTTL r else now + ttl) ∅.

(** The slot is taken, [Some None] by a peer a passive one may share. *)
Definition slot_taken (r : rendezvousRegistry) (room : rendezvousRoom) (role : string) (is_passive : bool)
    : option (peer_ptr + rendezvous_error) :=
  existing ← rslots room !! role;
  x ← peers r !! existing;
  if is_passive then Some (inl existing)
  else if negb (ppassive x) then
    Some (inr (if passiveTTL r =? 0 then AlreadyWaiting role (rname r) else AlreadyNegotiating role))
  else None.

(** The registry as the method leaves it, with the peer, its room and whether
    anything changed. *)
Definition join (r : rendezvousRegistry) (token role : string) (capability : C) (is_passive : bool) (now ttl : Z)
    : result rendezvous_error (peer_ptr * rendezvousRoom * bool) * rendezvousRegistry :=
  if negb (isRoomToken token) || negb (isSignalRole role) then (Err (InvalidRoom (rname r)), r)
  else
    let '(found, r) := find_room r token now in
    let room := default (new_room r is_passive now ttl) found in
    let r := with_rooms r (<[token := room]> (rrooms r)) in
    match slot_taken r room role is_passive with
    | Some (inl existing) => (Ok (existing, room, false), r)
    | Some (inr e) => (Err e, r)
    | None =>
        let p := next_peer r in
        let expires := if negb is_passive && (rexpires room <? now + ttl) then now + ttl else rexpires room in
        let room := MkRendezvousRoom expires (<[role := p]> (rslots room)) in
        (Ok (p, room, true),
         MkRegistry (<[token := room]> (rrooms r)) (<[p := MkPeer role capability is_passive []]> (peers r)) (S p) (rname r) (passiveTTL r))
    end.

Definition leave (r : rendezvousRegistry) (token role : string) (p : peer_ptr) : rendezvousRegistry :=
  match rrooms r !! token with
  | None => r
  | Some room =>
      if bool_decide (rslots room !! role = Some p) then
        let slots := delete role (rslots room) in
        with_rooms r (if bool_decide (slots = ∅) then delete token (rrooms r)
                      else <[token := MkRendezvousRoom (rexpires room) slots]> (rrooms r))
      else r
  end.

(** Completing a room of two: the outcomes are sent, then the room is dropped. *)
Definition complete_pair (skip_passive : bool) (outcomes : C → C → rendezvousOutcome * rendezvousOutcome)
    (r : rendezvousRegistry) (token : string) (room : rendezvousRoom) : option rendezvousRegistry :=
  match rslots room !! "sender"%string, rslots room !! "receiver"%string with
  | Some s, Some t =>
      match peers r !! s, peers r !! t with
      | Some sender, Some receiver =>
          let '(to_sender, to_receiver) := outcomes (pcap sender) (pcap receiver) in
          r ← send skip_passive s to_sender r;
          r ← send skip_passive t to_receiver r;
          Some (complete r token)
      | _, _ => Some r
      end
  | _, _ => Some r
  end.

(** A handler receives its outcome. *)
Definition take_result (r : rendezvousRegistry) (p : peer_ptr) : option (rendezvousOutcome * rendezvousRegistry) :=
  match peers r !! p with
  | Some x => match presult x with
              | o :: rest => Some (o, with_peer r p (MkPeer (prole x) (pcap x) (ppassive x) rest))
              | [] => None
              end
  | None => None
  end.
End registry.
Arguments rendezvousOutcome : clear implicits.
Arguments rendezvousPeer : clear implicits.
Arguments rendezvousRegistry : clear implicits.

(** ** The registry stays in order *)

Section invariant.
Context {C R : Type}.
Implicit Types (r : rendezvousRegistry C R) (x : rendezvousPeer C R).

(** Every slot leads to a waiting peer of that role, which has been told nothing
    yet, and no peer waits in two rooms. *)
Record reg_ok r : Prop := {
  ro_slot : ∀ token room role p, rrooms r !! token = Some room → rslots room !! role = Some p →
    ∃ x, peers r !! p = Some x ∧ prole x = role ∧ presult x = [];
  ro_fresh : ∀ p x, peers r !! p = Some x → (p < next_peer r)%nat;
  ro_one : ∀ t t' room room' role role' p, rrooms r !! t = Some room → rrooms r !! t' = Some room' →
    rslots room !! role = Some p → rslots room' !! role' = Some p → t = t';
}.

(** Operations that drop a room and talk to its peers only. *)
Lemma drop_room_ok r r' token :
  reg_ok r → rrooms r' = delete token (rrooms r) → next_peer r' = next_peer r →
  (∀ p x', peers r' !! p = Some x' → is_Some (peers r !! p)) →
  (∀ p, (∀ room role, rrooms r !! token = Some room → rslots room !! role ≠ Some p) → peers r' !! p = peers r !! p) →
  reg_ok r'.
Proof.
  intros [Hs Hf Ho] Hrooms Hnext Hdom Hsame. split.
  - intros t room role p. rewrite Hrooms. intros [Hne Ht]%lookup_delete_Some Hp.
    destruct (Hs t room role p Ht Hp) as (x & Hx & ? & ?). exists x. split; [|done].
    rewrite Hsame; [done|]. intros room' role' Ht' Hp'. apply Hne. by eapply Ho.
  - intros p x' Hx. destruct (Hdom p x' Hx) as [x Hx']. rewrite Hnext. by eapply Hf.
  - intros t t' room room' role role' p. rewrite Hrooms. intros [_ Ht]%lookup_delete_Some [_ Ht']%lookup_delete_Some. by eapply Ho.
Qed.

(** Offering errors touches the named peers only. *)
Lemma offer_other r p o q : q ≠ p → peers (offer r p o) !! q = peers r !! q.
Proof.
  intros Hne. unfold offer. destruct (peers r !! p) as [x|]; [|done]. repeat case_match; try done.
  cbn [with_peer peers]. by rewrite lookup_insert_ne.
Qed.
Lemma offer_fields r p o :
  rrooms (offer r p o) = rrooms r ∧ next_peer (offer r p o) = next_peer r ∧ rname (offer r p o) = rname r ∧
  passiveTTL (offer r p o) = passiveTTL r ∧ (∀ q x, peers (offer r p o) !! q = Some x → is_Some (peers r !! q)).
Proof.
  unfold offer. destruct (peers r !! p) as [x|] eqn:E; [|by split_and!]. repeat case_match; try by split_and!.
  cbn [with_peer rrooms next_peer peers]. split_and!; try done. intros q y [[<- _]|[_ Hl]]%lookup_insert_Some; [by rewrite E|by exists y].
Qed.

Lemma offers_spec ps o r :
  let r' := foldl (λ r p, offer r p o) r ps in
  rrooms r' = rrooms r ∧ next_peer r' = next_peer r ∧ rname r' = rname r ∧ passiveTTL r' = passiveTTL r ∧
  (∀ q x, peers r' !! q = Some x → is_Some (peers r !! q)) ∧
  (∀ q, q ∉ ps → peers r' !! q = peers r !! q).
Proof.
  revert r. induction ps as [|p ps IH]; intros r; cbn [foldl]; [by split_and!|].
  destruct (IH (offer r p o)) as (-> & -> & -> & -> & I5 & I6). destruct (offer_fields r p o) as (-> & -> & -> & -> & O5).
  split_and!; try done.
  - intros q x Hq. destruct (I5 q x Hq) as [y Hy]. by eapply O5.
  - intros q Hq. rewrite I6 by set_solver. apply offer_other. set_solver.
Qed.

Lemma in_slots (room : rendezvousRoom) p : p ∈ (map_to_list (rslots room)).*2 ↔ ∃ role, rslots room !! role = Some p.
Proof.
  rewrite list_elem_of_fmap. split.
  - intros ([role q] & -> & Hin%elem_of_map_to_list). by exists role.
  - intros [role Hp]. exists (role, p). by rewrite elem_of_map_to_list.
Qed.

Lemma expire_ok r token room : reg_ok r → rrooms r !! token = Some room → reg_ok (expire r token room).
Proof.
  intros Hr Ht. unfold expire. set (ps := (map_to_list (rslots room)).*2).
  destruct (offers_spec ps (Err (RoomExpired (rname r))) r) as (H1 & H2 & _ & _ & H5 & H6).
  eapply (drop_room_ok r _ token); [done| | | |]; cbn [complete with_rooms rrooms next_peer peers].
  - by rewrite H1.
  - done.
  - exact H5.
  - intros p Hp. apply H6. unfold ps. rewrite in_slots. intros [role Hrole]. by eapply Hp.
Qed.

Lemma expire_fields r token room :
  rrooms (expire r token room) = delete token (rrooms r) ∧ next_peer (expire r token room) = next_peer r ∧
  rname (expire r token room) = rname r ∧ passiveTTL (expire r token room) = passiveTTL r.
Proof.
  unfold expire. destruct (offers_spec (map_to_list (rslots room)).*2 (Err (RoomExpired (rname r))) r) as (H1 & H2 & H3 & H4 & _).
  cbn [complete with_rooms rrooms next_peer rname passiveTTL]. by rewrite H1.
Qed.

Lemma find_room_ok r token now found r' :
  reg_ok r → find_room r token now = (found, r') →
  reg_ok r' ∧ rrooms r' !! token = found ∧ next_peer r' = next_peer r ∧ rname r' = rname r ∧ passiveTTL r' = passiveTTL r.
Proof.
  intros Hr. unfold find_room. destruct (rrooms r !! token) as [room|] eqn:E; [|by intros [= <- <-]].
  destruct (now >? rexpires room); intros [= <- <-]; [|by rewrite E].
  destruct (expire_fields r token room) as (Hrooms & ? & ? & ?). split; [by apply expire_ok|].
  rewrite Hrooms, lookup_delete_eq. done.
Qed.

(** A room without peers more. *)
Lemma new_room_ok r token room : reg_ok r → rrooms r !! token = None → rslots room = ∅ → reg_ok (with_rooms r (<[token := room]> (rrooms r))).
Proof.
  intros [Hs Hf Ho] Hno He. assert (Hempty : ∀ role p, rslots room !! role = Some p → False) by (intros role p; rewrite He; by rewrite lookup_empty).
  split; cbn [with_rooms rrooms peers next_peer].
  - intros t room' role p [[<- <-]|[_ Ht]]%lookup_insert_Some Hp; [by apply Hempty in Hp|by eapply Hs].
  - done.
  - intros t t' r1 r2 role role' p [[<- <-]|[_ Ht]]%lookup_insert_Some [[<- <-]|[_ Ht']]%lookup_insert_Some Hp Hp';
      [done|by apply Hempty in Hp|by apply Hempty in Hp'|by eapply Ho].
Qed.

(** What joining does: the peer waits in the room it is given, alone in its slot. *)
Lemma join_ok r token role c is_passive now ttl res r' :
  reg_ok r → join r token role c is_passive now ttl = (res, r') →
  reg_ok r' ∧
  match res with
  | Ok (p, room, changed) =>
      rrooms r' !! token = Some room ∧ rslots room !! role = Some p ∧
      (changed = true → peers r' !! p = Some (MkPeer role c is_passive []) ∧ p = next_peer r)
  | Err _ => True
  end.
Proof.
  intros Hr. unfold join. destruct (negb _ || negb _); [by intros [= <- <-]|].
  destruct (find_room r token now) as [found r1] eqn:Ef.
  destruct (find_room_ok r token now found r1 Hr Ef) as (Hr1 & Hfound & Hnext & Hname & Httl).
  set (room := default _ found). set (r2 := with_rooms r1 (<[token := room]> (rrooms r1))).
  assert (Hr2 : reg_ok r2).
  { unfold r2, room. destruct found as [room0|]; cbn [default from_option id].
    - unfold with_rooms. rewrite insert_id by done. by destruct r1.
    - by apply new_room_ok. }
  assert (Hroom2 : rrooms r2 !! token = Some room) by apply lookup_insert_eq.
  destruct (slot_taken r2 room role is_passive) as [[existing|e]|] eqn:Et; intros [= <- <-].
  - split; [done|]. split; [done|]. split; [|done]. unfold slot_taken in Et.
    destruct (rslots room !! role) as [q|]; [|done]. cbn [mbind option_bind] in Et.
    destruct (peers r2 !! q); [|done]. cbn [mbind option_bind] in Et. repeat case_match; by simplify_eq.
  - done.
  - destruct Hr2 as [Hs Hf Ho]. assert (Hnext2 : next_peer r2 = next_peer r) by done.
    assert (Hold : ∀ t room' role' q, rrooms r2 !! t = Some room' → rslots room' !! role' = Some q → (q < next_peer r2)%nat).
    { intros t room' role' q Ht Hq. destruct (Hs t room' role' q Ht Hq) as (x & Hx & _). by eapply Hf. }
    split; [split; cbn [rrooms peers next_peer]|cbn [rrooms peers]; rewrite !lookup_insert_eq; split_and!; try done; cbn; by rewrite lookup_insert_eq].
    + intros t room' role' q [[<- <-]|[Hne Ht]]%lookup_insert_Some; cbn [rslots].
      * intros [[<- <-]|[Hne Hq]]%lookup_insert_Some; [eexists; by rewrite lookup_insert_eq|].
        destruct (Hs token room role' q Hroom2 Hq) as (x & Hx & ? & ?). exists x.
        rewrite lookup_insert_ne; [done|]. apply (Hf q x) in Hx. lia.
      * intros Hq. destruct (Hs t room' role' q Ht Hq) as (x & Hx & ? & ?). exists x.
        rewrite lookup_insert_ne; [done|]. apply (Hf q x) in Hx. lia.
    + intros q x [[<- _]|[_ Hx]]%lookup_insert_Some; [lia|]. apply (Hf q x) in Hx. lia.
    + assert (Hcase : ∀ t room' role' q, <[token := MkRendezvousRoom (if negb is_passive && (rexpires room <? now + ttl) then now + ttl else rexpires room)
          (<[role := next_peer r2]> (rslots room))]> (rrooms r2) !! t = Some room' → rslots room' !! role' = Some q →
          (t = token ∧ q = next_peer r2) ∨ (∃ room0 role0, rrooms r2 !! t = Some room0 ∧ rslots room0 !! role0 = Some q ∧ (q < next_peer r2)%nat)).
      { intros t room' role' q [[<- <-]|[Hne Ht]]%lookup_insert_Some; cbn [rslots].
        - intros [[_ <-]|[_ Hq]]%lookup_insert_Some; [by left|]. right. exists room, role'. split; [done|]. split; [done|by eapply Hold].
        - intros Hq. right. exists room', role'. split; [done|]. split; [done|by eapply Hold]. }
      intros t t' ra rb role1 role2 q Ht Ht' Hq Hq'.
      destruct (Hcase _ _ _ _ Ht Hq) as [[-> E1]|(? & ? & ? & ? & ?)]; destruct (Hcase _ _ _ _ Ht' Hq') as [[-> E2]|(? & ? & ? & ? & ?)];
        [done|lia|lia|by eapply Ho].
Qed.

Lemma leave_ok r token role p : reg_ok r → reg_ok (leave r token role p).
Proof.
  intros Hr. unfold leave. destruct (rrooms r !! token) as [room|] eqn:E; [|done]. case_bool_decide as Hp; [|done].
  case_bool_decide as Hempty.
  - eapply (drop_room_ok r _ token); [done|done|done|by intros q x Hq; exists x|done].
  - destruct Hr as [Hs Hf Ho]. split; cbn [with_rooms rrooms peers next_peer]; [|done|].
    + intros t room' role' q [[<- <-]|[_ Ht]]%lookup_insert_Some; cbn [rslots]; [|by eapply Hs].
      intros [_ Hq]%lookup_delete_Some. by eapply Hs.
    + assert (Hback : ∀ t room' role' q, <[token := MkRendezvousRoom (rexpires room) (delete role (rslots room))]> (rrooms r) !! t = Some room' →
        rslots room' !! role' = Some q → ∃ room0, rrooms r !! t = Some room0 ∧ rslots room0 !! role' = Some q).
      { intros t room' role' q [[<- <-]|[_ Ht]]%lookup_insert_Some; cbn [rslots]; [intros [_ Hq]%lookup_delete_Some|]; eauto. }
      intros t t' ra rb role1 role2 q Ht Ht' Hq Hq'.
      destruct (Hback _ _ _ _ Ht Hq) as (? & ? & ?). destruct (Hback _ _ _ _ Ht' Hq') as (? & ? & ?). by eapply Ho.
Qed.

Lemma take_result_ok r p o r' : reg_ok r → take_result r p = Some (o, r') → reg_ok r'.
Proof.
  intros [Hs Hf Ho]. unfold take_result. destruct (peers r !! p) as [x|] eqn:E; [|done].
  destruct (presult x) as [|o' rest] eqn:Ex; [done|]. intros [= <- <-]. split; cbn [with_peer rrooms peers next_peer]; [| |done].
  - intros t room role q Ht Hq. destruct (Hs t room role q Ht Hq) as (y & Hy & ? & Hr). exists y.
    rewrite lookup_insert_ne; [done|]. intros ->. congruence.
  - intros q y [[<- _]|[_ Hy]]%lookup_insert_Some; by eapply Hf.
Qed.

(** Completing a room never blocks. *)
Lemma complete_pair_ok skip f r token room :
  reg_ok r → rrooms r !! token = Some room →
  ∃ r', complete_pair skip f r token room = Some r' ∧ reg_ok r' ∧
    match rslots room !! "sender"%string, rslots room !! "receiver"%string with
    | Some s, Some t => ∃ xs xt, peers r !! s = Some xs ∧ peers r !! t = Some xt ∧ s ≠ t ∧
        rrooms r' = delete token (rrooms r) ∧
        peers r' !! s = Some (if skip && ppassive xs then xs else push_result xs (f (pcap xs) (pcap xt)).1) ∧
        peers r' !! t = Some (if skip && ppassive xt then xt else push_result xt (f (pcap xs) (pcap xt)).2) ∧
        ∀ q, q ≠ s → q ≠ t → peers r' !! q = peers r !! q
    | _, _ => r' = r
    end.
Proof.
  intros Hr Ht. unfold complete_pair. destruct (rslots room !! "sender"%string) as [s|] eqn:Es; [|by exists r].
  destruct (rslots room !! "receiver"%string) as [t|] eqn:Et; [|by exists r].
  destruct (ro_slot _ Hr _ _ _ _ Ht Es) as (xs & Hxs & Hrs & Hqs). destruct (ro_slot _ Hr _ _ _ _ Ht Et) as (xt & Hxt & Hrt & Hqt).
  assert (Hne : s ≠ t) by (intros ->; rewrite Hxs in Hxt; injection Hxt as ->; rewrite Hrs in Hrt; discriminate Hrt).
  rewrite Hxs, Hxt. destruct (f (pcap xs) (pcap xt)) as [os ot] eqn:Ef.
  set (r1 := if skip && ppassive xs then r else with_peer r s (push_result xs os)).
  set (r2 := if skip && ppassive xt then r1 else with_peer r1 t (push_result xt ot)).
  assert (E1 : send skip s os r = Some r1).
  { unfold send, r1. rewrite Hxs. destruct (skip && ppassive xs); [done|]. by rewrite bool_decide_eq_true_2. }
  assert (Hxt1 : peers r1 !! t = Some xt) by (unfold r1; case_match; [done|cbn; by rewrite lookup_insert_ne]).
  assert (E2 : send skip t ot r1 = Some r2).
  { unfold send, r2. rewrite Hxt1. destruct (skip && ppassive xt); [done|]. by rewrite bool_decide_eq_true_2. }
  rewrite E1. cbn [mbind option_bind]. rewrite E2. cbn [mbind option_bind]. eexists. split; [done|].
  assert (Hrooms : rrooms r2 = rrooms r ∧ next_peer r2 = next_peer r) by (unfold r2, r1; repeat case_match; done).
  destruct Hrooms as [Hrooms Hnext].
  assert (Hother : ∀ q, q ≠ s → q ≠ t → peers r2 !! q = peers r !! q).
  { intros q Hs' Ht'. unfold r2, r1. repeat case_match; cbn [with_peer peers]; by rewrite ?lookup_insert_ne. }
  assert (Hs2 : peers r2 !! s = Some (if skip && ppassive xs then xs else push_result xs os)).
  { assert (Hs1 : peers r1 !! s = Some (if skip && ppassive xs then xs else push_result xs os))
      by (unfold r1; destruct (skip && ppassive xs); [done|cbn; by rewrite lookup_insert_eq]).
    unfold r2. destruct (skip && ppassive xt); [done|]. cbn. by rewrite lookup_insert_ne. }
  assert (Ht2 : peers r2 !! t = Some (if skip && ppassive xt then xt else push_result xt ot)).
  { unfold r2. destruct (skip && ppassive xt); [done|]. cbn. by rewrite lookup_insert_eq. }
  split; [|exists xs, xt; rewrite Ef; cbn [complete with_rooms rrooms peers]; rewrite Hrooms; split_and!; [done|done|done|done|exact Hs2|exact Ht2|exact Hother]].
  eapply (drop_room_ok r _ token); [done|by cbn; rewrite Hrooms|done| |]; cbn [complete with_rooms peers].
  - intros q x Hq. destruct (decide (q = s)) as [->|]; [by rewrite Hxs|]. destruct (decide (q = t)) as [->|]; [by rewrite Hxt|].
    rewrite Hother in Hq by done. by exists x.
  - intros q Hq. apply Hother; intros ->; by eapply Hq.
Qed.

Lemma expireBefore_ok r now : reg_ok r → reg_ok (expireBefore r now).
Proof.
  intros Hr. unfold expireBefore. pose proof (NoDup_fst_map_to_list (rrooms r)) as Hnd.
  assert (Hin : ∀ t room, (t, room) ∈ map_to_list (rrooms r) → rrooms r !! t = Some room) by (intros t room; apply elem_of_map_to_list).
  revert Hr Hnd Hin. generalize (map_to_list (rrooms r)). intros l. revert r. induction l as [|[t room] l IH]; intros r Hr Hnd Hin; [done|].
  cbn [foldl]. apply NoDup_cons in Hnd as [Hnotin Hnd]. assert (Ht : rrooms r !! t = Some room) by (apply Hin; by left).
  apply IH; [case_match; [by apply expire_ok|done]|done|].
  intros t' room' Hl. assert (Ht' : rrooms r !! t' = Some room') by (apply Hin; by right). case_match; [|done].
  destruct (expire_fields r t room) as (-> & _). rewrite lookup_delete_ne; [done|]. intros ->. apply Hnotin.
  apply list_elem_of_fmap. by exists (t', room').
Qed.
End invariant.
