(* ===== verification/Negotiation.v ===== *)
(** * Negotiation and direct rendezvous ([internal/service/negotiate.go], [direct.go])

    The two uses of the rendezvous registry: choosing a route for two clients,
    with a credential for the relay when the service's own is chosen, and
    exchanging what two clients need for a direct connection.  The theorems: no
    request ever blocks the server, however clients join, leave and expire, and
    the second client of a pair and the one that waits for it are told the same
    route, with a credential the relay accepts. *)
From Stdlib Require Import ZArith Lia Ascii String.
From stdpp Require Import base tactics numbers list gmap strings relations.
From S2P Require Import Prelude GoStrings NoteServer Routing RelayCredential Rendezvous Netip DirectCandidate.

Definition passiveNegotiationTTL : Z := 30 * second_ns.

Record serviceConfig := MkServiceConfig {
  RoomTTL : Z;
  ServiceRelay : string;               (* Config.NativeRelay *)
  NativeRelaySecret : string;
  NativeRelayCredentialTTL : Z;
}.

Definition negotiationRegistry : Type := rendezvousRegistry Capability Response.
Definition newNegotiationRegistry : negotiationRegistry := newRendezvousRegistry "negotiation" passiveNegotiationTTL.

Definition set_credential (r : Response) (credential : string) : Response :=
  MkResponse (RType r) (RVersion r) (Route r) (RPair r) (Relay r) credential (Direct r) (Local r) (Reason r) (RFeatures r) (RError r).

Section negotiation.
Context `{CaseTables} `{Hmac} (cfg : serviceConfig).

(** What the two peers are told. *)
Definition negotiation_outcome (token : string) (now : Z) (sender receiver : Capability) : rendezvousOutcome Response :=
  let protocol c := match NormalizeProtocol (CProtocol c) with Ok p => p | Err _ => ""%string end in
  if negb (String.eqb (protocol sender) (protocol receiver)) then Err (ProtocolMismatch (protocol sender) (protocol receiver))
  else
    let response := Choose sender receiver (ServiceRelay cfg) in
    if String.eqb (Reason response) "service-native-relay" && negb (String.eqb (NativeRelaySecret cfg) "") then
      match IssueCredential (NativeRelaySecret cfg) token (now + NativeRelayCredentialTTL cfg) with
      | Ok credential => Ok (set_credential response credential)
      | Err _ => Err IssueCredentialFailed
      end
    else Ok response.

Definition completeNegotiationLocked (r : negotiationRegistry) (token : string) (room : rendezvousRoom) (now : Z)
    : option negotiationRegistry :=
  complete_pair true (fun sender receiver => let outcome := negotiation_outcome token now sender receiver in (outcome, outcome)) r token room.

Definition joinNegotiation (r : negotiationRegistry) (token role : string) (capability : Capability) (is_passive : bool) (now : Z)
    : option (result rendezvous_error peer_ptr * negotiationRegistry) :=
  match join r token role capability is_passive now (RoomTTL cfg) with
  | (Err e, r) => Some (Err e, r)
  | (Ok (p, room, false), r) => Some (Ok p, r)
  | (Ok (p, room, true), r) => r ← completeNegotiationLocked r token room now; Some (Ok p, r)
  end.

(** A signaling client that cannot negotiate. *)
Definition observeWebRTCOnlyProtocol (r : negotiationRegistry) (token role protocol : string) (now : Z)
    : option (result rendezvous_error peer_ptr * negotiationRegistry) :=
  joinNegotiation r token role (MkCapability "negotiate" NegotiationVersion "webrtc" protocol "" false false []) true now.

Definition leaveNegotiation (r : negotiationRegistry) (token : string) (p : peer_ptr) : negotiationRegistry :=
  match peers r !! p with Some x => leave r token (prole x) p | None => r end.
End negotiation.

(** ** Direct connections *)

Definition directRendezvousVersion : Z := 1.
Definition NATClasses : list string := ["unknown"; "open"; "cone"; "symmetric"]%string.
Definition ValidNATClass (value : string) : bool := containsString NATClasses value.

Record directCapability := MkDirectCapability {
  DType : string;
  DVersion : Z;
  Candidates : list string;
  CandidateMetadata : list Candidate;
  ConnectionCount : Z;
  Preference : string;
  Bidirectional : bool;
  RelayFallback : bool;
  NATProbe : bool;
  NATClass : string;
  UDPPunch : bool;
  UDPCandidates : list string;
}.

Record directResponse := MkDirectResponse {
  DRType : string;
  DRVersion : Z;
  PeerCandidates : list string;
  PeerCandidateMetadata : list Candidate;
  PeerConnectionCount : Z;
  PeerPreference : string;
  PeerBidirectional : bool;
  PunchAtMillis : Z;
  PeerRelayFallback : bool;
  PeerNATProbe : bool;
  PeerNATClass : string;
  PeerUDPPunch : bool;
  PeerUDPCandidates : list string;
}.

Inductive direct_error :=
  | DirectUnsupported
  | DirectConnectionCount
  | DirectPreference
  | DirectNATClass
  | DirectNATClassWithoutProbe
  | DirectProbeWithoutClass
  | PunchWithoutCandidates
  | PunchWithoutBidirectional
  | CandidatesWithoutPunch
  | BidirectionalWithoutCandidates
  | DirectCandidates (e : candidate_error).

Definition validateDirectCapability (c : directCapability) : result direct_error unit :=
  _ ← fail_if (negb (String.eqb (DType c) "direct") || negb (DVersion c =? directRendezvousVersion)) DirectUnsupported;
  _ ← fail_if ((ConnectionCount c <? 1) || (ConnectionCount c >? 8)) DirectConnectionCount;
  _ ← fail_if (negb (String.eqb (Preference c) "prefer-direct") && negb (String.eqb (Preference c) "prefer-relay")) DirectPreference;
  _ ← fail_if (negb (String.eqb (NATClass c) "") && negb (ValidNATClass (NATClass c))) DirectNATClass;
  _ ← fail_if (negb (String.eqb (NATClass c) "") && negb (NATProbe c)) DirectNATClassWithoutProbe;
  _ ← fail_if (NATProbe c && String.eqb (NATClass c) "") DirectProbeWithoutClass;
  _ ← fail_if (UDPPunch c && Nat.eqb (length (UDPCandidates c)) 0) PunchWithoutCandidates;
  _ ← fail_if (UDPPunch c && negb (Bidirectional c)) PunchWithoutBidirectional;
  _ ← fail_if (negb (UDPPunch c) && (0 <? length (UDPCandidates c))%nat) CandidatesWithoutPunch;
  _ ← wrap_err DirectCandidates (ValidateSet (UDPCandidates c) []);
  _ ← fail_if (Bidirectional c && Nat.eqb (length (Candidates c)) 0) BidirectionalWithoutCandidates;
  wrap_err DirectCandidates (ValidateSet (Candidates c) (CandidateMetadata c)).

Definition directRegistry : Type := rendezvousRegistry directCapability directResponse.
Definition newDirectRegistry : directRegistry := newRendezvousRegistry "direct rendezvous" 0.

Definition directPeerResponse (peer : directCapability) (punchAtMillis : Z) : directResponse :=
  MkDirectResponse "direct_peer" directRendezvousVersion (Candidates peer) (CandidateMetadata peer) (ConnectionCount peer)
    (Preference peer) (Bidirectional peer) punchAtMillis (RelayFallback peer) (NATProbe peer) (NATClass peer) (UDPPunch peer)
    (UDPCandidates peer).

(** When both can connect at once they are told the same moment to do so. *)
Definition punch_at (sender receiver : directCapability) (now : Z) : Z :=
  if Bidirectional sender && Bidirectional receiver then UnixMilli (now + 150 * millisecond) else 0.

Definition completeDirectLocked (r : directRegistry) (token : string) (room : rendezvousRoom) (now : Z) : option directRegistry :=
  complete_pair false (fun sender receiver =>
    let punchAtMillis := punch_at sender receiver now in
    (Ok (directPeerResponse receiver punchAtMillis), Ok (directPeerResponse sender punchAtMillis))) r token room.

Definition joinDirect (cfg : serviceConfig) (r : directRegistry) (token role : string) (capability : directCapability) (now : Z)
    : option (result rendezvous_error peer_ptr * directRegistry) :=
  match join r token role capability false now (RoomTTL cfg) with
  | (Err e, r) => Some (Err e, r)
  | (Ok (p, room, _), r) => r ← completeDirectLocked r token room now; Some (Ok p, r)
  end.

Definition leaveDirect (r : directRegistry) (token : string) (p : peer_ptr) : directRegistry :=
  match peers r !! p with Some x => leave r token (prole x) p | None => r end.

(** ** Runs *)

Section steps.
Context `{CaseTables} `{Hmac} (cfg : serviceConfig).

(** What clients, handlers and the clean-up do to the negotiations. *)
Inductive negotiation_step (r : negotiationRegistry) : negotiationRegistry → Prop :=
  | NegJoin token role capability now res r' :
      ValidateCapability capability = Ok tt → joinNegotiation cfg r token role capability false now = Some (res, r') → negotiation_step r r'
  | NegObserve token role protocol now res r' :
      observeWebRTCOnlyProtocol cfg r token role protocol now = Some (res, r') → negotiation_step r r'
  | NegResult p o r' : take_result r p = Some (o, r') → negotiation_step r r'
  | NegLeave token p : negotiation_step r (leaveNegotiation r token p)
  | NegExpire now : negotiation_step r (expireBefore r now).

Inductive direct_step (r : directRegistry) : directRegistry → Prop :=
  | DirJoin token role capability now res r' :
      validateDirectCapability capability = Ok tt → joinDirect cfg r token role capability now = Some (res, r') → direct_step r r'
  | DirResult p o r' : take_result r p = Some (o, r') → direct_step r r'
  | DirLeave token p : direct_step r (leaveDirect r token p)
  | DirExpire now : direct_step r (expireBefore r now).

(** Joining and completing together. *)
Lemma joinNegotiation_spec r token role c is_passive now :
  reg_ok r → ∃ res r', joinNegotiation cfg r token role c is_passive now = Some (res, r') ∧ reg_ok r'.
Proof.
  intros Hr. unfold joinNegotiation. destruct (join r token role c is_passive now (RoomTTL cfg)) as [res r1] eqn:Ej.
  destruct (join_ok r token role c is_passive now (RoomTTL cfg) res r1 Hr Ej) as [Hr1 Hres].
  destruct res as [[[p room] [|]]|e]; [|by eexists _, _|by eexists _, _]. destruct Hres as (Hroom & _).
  unfold completeNegotiationLocked. match goal with |- context [complete_pair true ?f r1 token room] => destruct (complete_pair_ok true f r1 token room Hr1 Hroom) as (r2 & -> & Hr2 & _) end.
  by eexists _, _.
Qed.

Lemma joinDirect_spec r token role c now :
  reg_ok r → ∃ res r', joinDirect cfg r token role c now = Some (res, r') ∧ reg_ok r'.
Proof.
  intros Hr. unfold joinDirect. destruct (join r token role c false now (RoomTTL cfg)) as [res r1] eqn:Ej.
  destruct (join_ok r token role c false now (RoomTTL cfg) res r1 Hr Ej) as [Hr1 Hres].
  destruct res as [[[p room] b]|e]; [|by eexists _, _]. destruct Hres as (Hroom & _).
  unfold completeDirectLocked. match goal with |- context [complete_pair false ?f r1 token room] => destruct (complete_pair_ok false f r1 token room Hr1 Hroom) as (r2 & -> & Hr2 & _) end.
  by eexists _, _.
Qed.

Lemma negotiation_step_ok r r' : negotiation_step r r' → reg_ok r → reg_ok r'.
Proof.
  intros Hst Hr. destruct Hst as [token role c now res r' _ Hj|token role protocol now res r' Hj|p o r' Ht|token p|now].
  - destruct (joinNegotiation_spec r token role c false now Hr) as (res' & r2 & Hj' & ?). rewrite Hj in Hj'. by injection Hj' as -> ->.
  - unfold observeWebRTCOnlyProtocol in Hj. set (c := MkCapability _ _ _ _ _ _ _ _) in Hj.
    destruct (joinNegotiation_spec r token role c true now Hr) as (res' & r2 & Hj' & ?). rewrite Hj in Hj'. by injection Hj' as -> ->.
  - by eapply take_result_ok.
  - unfold leaveNegotiation. destruct (peers r !! p); [by apply leave_ok|done].
  - by apply expireBefore_ok.
Qed.

Lemma direct_step_ok r r' : direct_step r r' → reg_ok r → reg_ok r'.
Proof.
  intros Hst Hr. destruct Hst as [token role c now res r' _ Hj|p o r' Ht|token p|now].
  - destruct (joinDirect_spec r token role c now Hr) as (res' & r2 & Hj' & ?). rewrite Hj in Hj'. by injection Hj' as -> ->.
  - by eapply take_result_ok.
  - unfold leaveDirect. destruct (peers r !! p); [by apply leave_ok|done].
  - by apply expireBefore_ok.
Qed.

Lemma empty_registry_ok {C R} (r : rendezvousRegistry C R) : rrooms r = ∅ → peers r = ∅ → reg_ok r.
Proof.
  intros H1 H2. split; rewrite ?H1, ?H2; intros until 0; rewrite ?lookup_empty; done.
Qed.

Lemma reachable_ok {A} (P : A → Prop) (step : A → A → Prop) a b : (∀ x y, step x y → P x → P y) → P a → rtc step a b → P b.
Proof. intros Hst Ha. induction 1 as [|x y z Hxy _ IH]; [done|]. eauto. Qed.

(** The server answers every request: whatever clients have joined, left,
    been told their outcome or expired before, a client that asks for a
    negotiation or a direct rendezvous, and one that is only observed, is
    answered or registered, and never makes the server wait on a full channel
    while it holds its mutex. *)
Theorem rendezvous_never_blocks (rn : negotiationRegistry) (rd : directRegistry) :
  rtc negotiation_step newNegotiationRegistry rn → rtc direct_step newDirectRegistry rd →
  ∀ token role now,
    (∀ c is_passive, ∃ res r', joinNegotiation cfg rn token role c is_passive now = Some (res, r')) ∧
    (∀ c, ∃ res r', joinDirect cfg rd token role c now = Some (res, r')).
Proof.
  intros Hn Hd token role now.
  assert (Hrn : reg_ok rn) by (refine (reachable_ok _ _ _ _ negotiation_step_ok _ Hn); apply empty_registry_ok; reflexivity).
  assert (Hrd : reg_ok rd) by (refine (reachable_ok _ _ _ _ direct_step_ok _ Hd); apply empty_registry_ok; reflexivity).
  split.
  - intros c is_passive. destruct (joinNegotiation_spec rn token role c is_passive now Hrn) as (res & r' & ? & _). by exists res, r'.
  - intros c. destruct (joinDirect_spec rd token role c now Hrd) as (res & r' & ? & _). by exists res, r'.
Qed.

(** The two places of a room. *)
Definition opposite (role : string) : string := if String.eqb role "sender" then "receiver" else "sender".

Lemma negotiation_outcome_Ok token now s t response :
  isRoomToken token = true → negotiation_outcome cfg token now s t = Ok response →
  (Reason response = "service-native-relay"%string → NativeRelaySecret cfg ≠ ""%string →
   in_int64 (Unix (now + NativeRelayCredentialTTL cfg)) →
   ∀ later, later < Unix (now + NativeRelayCredentialTTL cfg) * second_ns →
     ValidateCredential (NativeRelaySecret cfg) token (RelayCredential response) later = true) ∧
  response = set_credential (Choose s t (ServiceRelay cfg)) (RelayCredential response).
Proof.
  intros Ht. unfold negotiation_outcome. destruct (negb (String.eqb _ _)); [done|].
  assert (Hplain : set_credential (Choose s t (ServiceRelay cfg)) (RelayCredential (Choose s t (ServiceRelay cfg))) = Choose s t (ServiceRelay cfg))
    by (by destruct (Choose s t (ServiceRelay cfg))).
  destruct (String.eqb_spec (Reason (Choose s t (ServiceRelay cfg))) "service-native-relay") as [Er|Er]; cbn [andb].
  2:{ intros [= <-]. split; [by intros|done]. }
  destruct (String.eqb_spec (NativeRelaySecret cfg) "") as [Es|Es]; cbn [negb].
  { intros [= <-]. split; [by intros|done]. }
  destruct (IssueCredential _ _ _) as [cred|] eqn:Ei; [|done]. intros [= <-]. split; [|done].
  intros _ _ Hin later Hl. apply (Validate_issued _ token (now + NativeRelayCredentialTTL cfg) cred); [done|done|].
  split; [by intros ->|]. split; [done|by left].
Qed.

(** C24: two clients that meet are told the same.  When a client asks for a
    negotiation under a token whose other place is held by a waiting client, both
    are told one outcome, once, and the room is gone: the route chosen for the two
    of them, or that their protocols differ; when the route is the service's own
    relay and it has a secret, the outcome carries a credential that the relay
    accepts for this token, and for no longer than the credential lives. *)
Theorem negotiation_pairs r token role c now room q x res r' :
  rtc negotiation_step newNegotiationRegistry r →
  rrooms r !! token = Some room → now ≤ rexpires room → rslots room !! opposite role = Some q → peers r !! q = Some x →
  ppassive x = false → (∀ p y, rslots room !! role = Some p → peers r !! p = Some y → ppassive y = true) →
  isRoomToken token = true → isSignalRole role = true →
  joinNegotiation cfg r token role c false now = Some (res, r') →
  let o := if String.eqb role "sender" then negotiation_outcome cfg token now c (pcap x) else negotiation_outcome cfg token now (pcap x) c in
  ∃ p, res = Ok p ∧ p ≠ q ∧ rrooms r' !! token = None ∧
    peers r' !! p = Some (MkPeer role c false [o]) ∧ peers r' !! q = Some (MkPeer (opposite role) (pcap x) false [o]) ∧
    (∀ response, o = Ok response →
       (Reason response = "service-native-relay"%string → NativeRelaySecret cfg ≠ ""%string →
        in_int64 (Unix (now + NativeRelayCredentialTTL cfg)) →
        ∀ later, later < Unix (now + NativeRelayCredentialTTL cfg) * second_ns →
          ValidateCredential (NativeRelaySecret cfg) token (RelayCredential response) later = true) ∧
       ∃ s t, response = set_credential (Choose s t (ServiceRelay cfg)) (RelayCredential response) ∧
         ((s = c ∧ t = pcap x) ∨ (s = pcap x ∧ t = c))).
Proof.
  intros Hreach Hroom Hlive Hq Hx Hxp Hmine Htoken Hrole. unfold joinNegotiation.
  assert (Hr : reg_ok r) by (refine (reachable_ok _ _ _ _ negotiation_step_ok _ Hreach); apply empty_registry_ok; reflexivity).
  destruct (join r token role c false now (RoomTTL cfg)) as [jres r1] eqn:Ej.
  destruct (join_ok r token role c false now (RoomTTL cfg) jres r1 Hr Ej) as [Hr1 Hres].
  assert (Hj : ∃ room1, jres = Ok (next_peer r, room1, true) ∧ rslots room1 = <[role := next_peer r]> (rslots room) ∧
    peers r1 = <[next_peer r := MkPeer role c false []]> (peers r)).
  { unfold join in Ej. rewrite Htoken, Hrole in Ej. cbn [negb orb] in Ej. unfold find_room in Ej. rewrite Hroom in Ej.
    assert (now >? rexpires room = false) as Hgt by (rewrite Z.gtb_ltb; by apply Z.ltb_ge). rewrite Hgt in Ej. cbn [default from_option id] in Ej.
    assert (with_rooms r (<[token := room]> (rrooms r)) = r) as Hsame by (unfold with_rooms; rewrite insert_id by done; by destruct r).
    rewrite Hsame in Ej.
    assert (slot_taken r room role false = None) as Hst.
    { unfold slot_taken. destruct (rslots room !! role) as [p|] eqn:Ep; [|done]. cbn [mbind option_bind].
      destruct (peers r !! p) as [y|] eqn:Ey; [|done]. cbn [mbind option_bind]. by rewrite (Hmine p y). }
    rewrite Hst in Ej. injection Ej as <- <-. eexists. by split_and!. }
  destruct Hj as (room1 & -> & Hslots & Hpeers). destruct Hres as (Hroom1 & _).
  assert (Hnq : next_peer r ≠ q) by (intros <-; apply (ro_fresh _ Hr) in Hx; lia).
  assert (Hxrole : prole x = opposite role ∧ presult x = []).
  { destruct (ro_slot _ Hr _ _ _ _ Hroom Hq) as (y & Hy & ? & ?). assert (y = x) as -> by congruence. done. }
  destruct Hxrole as [Hxr Hxe].
  unfold completeNegotiationLocked.
  match goal with |- context [complete_pair true ?f r1 token room1] => set (outcomes := f);
    destruct (complete_pair_ok true outcomes r1 token room1 Hr1 Hroom1) as (r2 & Hc & Hr2 & Hspec) end.
  rewrite Hc. cbn [mbind option_bind]. intros [= <- <-].
  set (s := if String.eqb role "sender" then next_peer r else q). set (t := if String.eqb role "sender" then q else next_peer r).
  set (cs := if String.eqb role "sender" then c else pcap x). set (ct := if String.eqb role "sender" then pcap x else c).
  assert (Hst : rslots room1 !! "sender"%string = Some s ∧ rslots room1 !! "receiver"%string = Some t).
  { rewrite Hslots. unfold s, t, opposite in *. unfold isSignalRole in Hrole.
    destruct (String.eqb_spec role "sender") as [->|]; [by rewrite lookup_insert_eq, lookup_insert_ne|].
    destruct (String.eqb_spec role "receiver") as [->|]; [by rewrite lookup_insert_eq, lookup_insert_ne|done]. }
  destruct Hst as [Hs1 Ht1]. rewrite Hs1, Ht1 in Hspec.
  destruct Hspec as (xs & xt & Hxs & Hxt & Hne & Hrooms & Hps & Hpt & _).
  set (o := if String.eqb role "sender" then negotiation_outcome cfg token now c (pcap x) else negotiation_outcome cfg token now (pcap x) c).
  assert (Ho : o = negotiation_outcome cfg token now cs ct) by (unfold o, cs, ct; by destruct (String.eqb role "sender")).
  assert (Hpair : peers r2 !! next_peer r = Some (MkPeer role c false [o]) ∧ peers r2 !! q = Some (MkPeer (opposite role) (pcap x) false [o])).
  { assert (Hx' : x = MkPeer (opposite role) (pcap x) false []) by (rewrite <- Hxr, <- Hxe, <- Hxp; by destruct x).
    rewrite Hpeers in Hxs, Hxt. rewrite Ho. unfold outcomes in *. unfold s, t, cs, ct in *. destruct (String.eqb role "sender").
    - rewrite lookup_insert_eq in Hxs. injection Hxs as <-. rewrite lookup_insert_ne in Hxt by done.
      assert (xt = x) as -> by congruence. rewrite Hxp in Hpt. split; [exact Hps|]. rewrite Hpt. unfold push_result. by rewrite Hxr, Hxe, Hxp.
    - rewrite lookup_insert_eq in Hxt. injection Hxt as <-. rewrite lookup_insert_ne in Hxs by done.
      assert (xs = x) as -> by congruence. rewrite Hxp in Hps. split; [exact Hpt|]. rewrite Hps. unfold push_result. by rewrite Hxr, Hxe, Hxp. }
  destruct Hpair as [Hp1 Hp2]. exists (next_peer r). split; [done|]. split; [done|]. split; [by rewrite Hrooms, lookup_delete_eq|].
  split; [done|]. split; [done|]. intros response Hok. rewrite Ho in Hok.
  destruct (negotiation_outcome_Ok token now cs ct response Htoken Hok) as [Hv Heq]. split; [exact Hv|].
  exists cs, ct. split; [exact Heq|]. unfold cs, ct. destruct (String.eqb role "sender"); [by left|by right].
Qed.
End steps.

(** ** An example *)

Definition demo_service : serviceConfig := MkServiceConfig (600 * second_ns) "relay.example:9001" "secret" (7200 * second_ns).
Definition demo_token : string := of_bytes (replicate 64 "a"%char).
Definition demo_time : Z := 1700000000 * second_ns.

Definition demo_waiting : negotiationRegistry :=
  let Ht := ascii_tables in let Hh := demo_hmac in
  match joinNegotiation demo_service newNegotiationRegistry demo_token "sender" (demo_native "" true) false demo_time with
  | Some (_, r) => r
  | None => newNegotiationRegistry
  end.

Lemma demo_waiting_reached :
  let Ht := ascii_tables in let Hh := demo_hmac in
  rtc (negotiation_step demo_service) newNegotiationRegistry demo_waiting.
Proof.
  intros Ht Hh. apply rtc_once.
  apply (NegJoin demo_service newNegotiationRegistry demo_token "sender" (demo_native "" true) demo_time (Ok 0%nat) demo_waiting);
    vm_compute; reflexivity.
Qed.

Lemma rendezvous_never_blocks_witness :
  let Ht := ascii_tables in let Hh := demo_hmac in
  ∃ res r', joinNegotiation demo_service demo_waiting demo_token "receiver" (demo_native "" true) false demo_time = Some (res, r').
Proof.
  intros Ht Hh.
  destruct (rendezvous_never_blocks demo_service demo_waiting newDirectRegistry demo_waiting_reached (rtc_refl _ _)
    demo_token "receiver" demo_time) as [Hn _].
  exact (Hn (demo_native "" true) false).
Defined.

Lemma negotiation_pairs_witness :
  let Ht := ascii_tables in let Hh := demo_hmac in
  ∃ res r' p o, joinNegotiation demo_service demo_waiting demo_token "receiver" (demo_native "" true) false demo_time = Some (res, r') ∧
    res = Ok p ∧ peers r' !! p = Some (MkPeer "receiver" (demo_native "" true) false [Ok o]) ∧ Relay o = "relay.example:9001"%string ∧
    ValidateCredential "secret" demo_token (RelayCredential o) (demo_time + 7199 * second_ns) = true.
Proof.
  intros Ht Hh.
  destruct (joinNegotiation demo_service demo_waiting demo_token "receiver" (demo_native "" true) false demo_time) as [[res r']|] eqn:Ej;
    [|exfalso; vm_compute in Ej; discriminate Ej].
  assert (Hroom : rrooms demo_waiting !! demo_token = Some (MkRendezvousRoom (demo_time + 600 * second_ns) {[ "sender"%string := 0%nat ]})) by (vm_compute; reflexivity).
  assert (Hlive : demo_time ≤ demo_time + 600 * second_ns) by (vm_compute; discriminate).
  assert (Hpeer : peers demo_waiting !! 0%nat = Some (MkPeer "sender" (demo_native "" true) false [])) by (vm_compute; reflexivity).
  assert (Hmine : ∀ (p : peer_ptr) y, ({[ "sender"%string := 0%nat ]} : gmap string peer_ptr) !! "receiver"%string = Some p →
    peers demo_waiting !! p = Some y → ppassive y = true) by (intros p y Hp; discriminate Hp).
  assert (Htoken : isRoomToken demo_token = true) by (vm_compute; reflexivity).
  destruct (negotiation_pairs demo_service demo_waiting demo_token "receiver" (demo_native "" true) demo_time _ 0%nat _ res r'
    demo_waiting_reached Hroom Hlive eq_refl Hpeer eq_refl Hmine Htoken eq_refl Ej) as (p & Hres & _ & _ & Hp & _ & Ho).
  change (String.eqb "receiver" "sender") with false in Hp, Ho. cbv iota in Hp, Ho. cbn [pcap] in Hp, Ho.
  destruct (negotiation_outcome demo_service demo_token demo_time (demo_native "" true) (demo_native "" true)) as [o|e] eqn:Eo;
    [|exfalso; vm_compute in Eo; discriminate Eo].
  destruct (Ho o eq_refl) as [Hv [s [t [Heq Hst]]]].
  assert (Hreason : Reason o = "service-native-relay"%string ∧ Relay o = "relay.example:9001"%string)
    by (vm_compute in Eo; injection Eo as <-; split; reflexivity).
  exists res, r', p, o. split; [reflexivity|]. split; [exact Hres|]. split; [exact Hp|]. split; [apply Hreason|].
  apply Hv; [apply Hreason|discriminate|vm_compute; split; discriminate|vm_compute; reflexivity].
Defined.
