(* ===== verification/SignalRooms.v ===== *)
(** * Signaling rooms of the service ([internal/service/service.go])

    Two clients that name the same room token exchange signaling messages through
    the service.  Clients that give a role and speak the reconnect protocol get a
    token with which they alone can take their place again; older clients only
    join.  Rooms and clients are shared objects, so both live in a heap.  The
    theorems: however clients join, forward, leave and expire, no room has more
    than two clients, no message goes to a closed channel and no send waits on a
    full one while the server's mutex is held; once two clients have paired,
    nobody else gets in without a reconnect token. *)
From Stdlib Require Import ZArith Lia Ascii String.
From stdpp Require Import base tactics numbers list gmap strings relations.
From S2P Require Import Prelude GoStrings NoteServer Routing Rendezvous.

Definition maxPendingSignals : Z := 64.
Definition signalSendQueueCapacity : Z := maxPendingSignals + 16.

(** A message on its way to a client: the answer to its join, the notice that
    its room expired, or what the other client sent. *)
Inductive signal :=
  | SignalReady (role : string) (supported : bool) (reconnectToken : string) (generation : Z)
  | SignalExpired
  | SignalPayload (payload : bytes).
#[export] Instance signal_eq_dec : EqDecision signal.
Proof. solve_decision. Defined.

Definition room_ptr := nat.
Definition client_ptr := nat.

Record client := MkClient {
  croom : room_ptr;
  csend : list signal;
  crole : string;
  explicitRole : bool;
  cgeneration : Z;
  closed : bool;
}.

Record room := MkRoom {
  token : string;
  protocol : string;
  expires : Z;
  locked : bool;
  clients : gset client_ptr;
  slots : gmap string client_ptr;
  reconnectTokens : gmap string string;
  reconnectEnabled : bool;
  generation : Z;      (* uint64 *)
  needsNewGeneration : bool;
  rpending : list bytes;
}.

Record SignalServer := MkSignal {
  rooms : gmap string room_ptr;
  room_heap : gmap room_ptr room;
  client_heap : gmap client_ptr client;
  next_ptr : nat;
}.

Inductive signal_error :=
  | InvalidSignalRole
  | InvalidSignalProtocol (e : routing_error)
  | RoomProtocolMismatch (room_protocol protocol : string)
  | AlreadyConnected (role : string)
  | InvalidReconnectToken
  | TokenGeneration
  | RoomLocked
  | RoomFull.

(** What stops the whole server: a send to a closed channel, and a send to a full
    one, which is made with the mutex held. *)
Inductive fault := SendOnClosed (c : client_ptr) | SendBlocked (c : client_ptr).

(** ** Parts of the state *)

Definition set_room (s : SignalServer) (p : room_ptr) (r : room) : SignalServer :=
  MkSignal (rooms s) (<[p := r]> (room_heap s)) (client_heap s) (next_ptr s).
Definition set_client (s : SignalServer) (c : client_ptr) (x : client) : SignalServer :=
  MkSignal (rooms s) (room_heap s) (<[c := x]> (client_heap s)) (next_ptr s).
Definition drop_token (s : SignalServer) (t : string) : SignalServer :=
  MkSignal (delete t (rooms s)) (room_heap s) (client_heap s) (next_ptr s).

Definition room_members (r : room) (cs : gset client_ptr) (ss : gmap string client_ptr) : room :=
  MkRoom (token r) (protocol r) (expires r) (locked r) cs ss (reconnectTokens r) (reconnectEnabled r)
    (generation r) (needsNewGeneration r) (rpending r).
Definition room_locked (r : room) (enabled : bool) : room :=
  MkRoom (token r) (protocol r) (expires r) true (clients r) (slots r) (reconnectTokens r) enabled
    (generation r) (needsNewGeneration r) (rpending r).
Definition room_token (r : room) (role t : string) : room :=
  MkRoom (token r) (protocol r) (expires r) (locked r) (clients r) (slots r) (<[role := t]> (reconnectTokens r)) (reconnectEnabled r)
    (generation r) (needsNewGeneration r) (rpending r).
Definition room_generation (r : room) (g : Z) (needs : bool) (p : list bytes) : room :=
  MkRoom (token r) (protocol r) (expires r) (locked r) (clients r) (slots r) (reconnectTokens r) (reconnectEnabled r) g needs p.

Definition client_send (x : client) (q : list signal) : client :=
  MkClient (croom x) q (crole x) (explicitRole x) (cgeneration x) (closed x).
Definition client_role (x : client) (role : string) : client :=
  MkClient (croom x) (csend x) role (explicitRole x) (cgeneration x) (closed x).
Definition client_close (x : client) : client :=
  MkClient (croom x) (csend x) (crole x) (explicitRole x) (cgeneration x) true.

Definition queue_full (x : client) : bool := Z.of_nat (length (csend x)) >=? signalSendQueueCapacity.

(** A plain send. *)
Definition send_signal (c : client_ptr) (m : signal) (s : SignalServer) : result fault SignalServer :=
  match client_heap s !! c with
  | None => Ok s
  | Some x =>
      if closed x then Err (SendOnClosed c)
      else if queue_full x then Err (SendBlocked c)
      else Ok (set_client s c (client_send x (csend x ++ [m])))
  end.
Fixpoint send_all (c : client_ptr) (ms : list signal) (s : SignalServer) : result fault SignalServer :=
  match ms with
  | [] => Ok s
  | m :: ms => s ← send_signal c m s; send_all c ms s
  end.
(** [select] with a default; a closed channel still panics. *)
Definition offer_signal (c : client_ptr) (m : signal) (s : SignalServer) : result fault SignalServer :=
  match client_heap s !! c with
  | None => Ok s
  | Some x =>
      if closed x then Err (SendOnClosed c)
      else if queue_full x then Ok s
      else Ok (set_client s c (client_send x (csend x ++ [m])))
  end.
Fixpoint offer_all (cs : list client_ptr) (m : signal) (s : SignalServer) : result fault SignalServer :=
  match cs with
  | [] => Ok s
  | c :: cs => s ← offer_signal c m s; offer_all cs m s
  end.

(** Closing is guarded by the flag. *)
Definition closeClient (c : client_ptr) (s : SignalServer) : SignalServer :=
  match client_heap s !! c with
  | Some x => if closed x then s else set_client s c (client_close x)
  | None => s
  end.

Definition oppositeSignalRole (role : string) : string := if String.eqb role "sender" then "receiver" else "sender".
Definition signalReadyPayload (role : string) (supported : bool) (reconnectToken : string) (generation : Z) : signal :=
  SignalReady role supported (if supported then reconnectToken else "") generation.
Definition reconnect_token (r : room) (role : string) : string := default ""%string (reconnectTokens r !! role).

Definition roomSupportsReconnect (r : room) : bool :=
  locked r && reconnectEnabled r && negb (String.eqb (reconnect_token r "sender") "")
  && negb (String.eqb (reconnect_token r "receiver") "").

Definition roomHasTwoExplicitRoles (s : SignalServer) (r : room) : bool :=
  let explicit role := match c ← slots r !! role; client_heap s !! c with Some x => explicitRole x | None => false end in
  explicit "sender"%string && explicit "receiver"%string.

(** ** Joining *)

Section rooms.
Context `{CaseTables}.

(** [for existing := range r.clients]: the first one that qualifies; the map's
    order does not matter, because an open room has one client at most. *)
Definition first_client (s : SignalServer) (r : room) (f : client → bool) : option (client_ptr * client) :=
  head (omap (fun c => x ← client_heap s !! c; if f x then Some (c, x) else None) (elements (clients r))).

(** The room expires: its clients are told and closed, and it loses its name. *)
Fixpoint expire_clients (cs : list client_ptr) (s : SignalServer) : result fault SignalServer :=
  match cs with
  | [] => Ok s
  | c :: cs => s ← offer_signal c SignalExpired s; expire_clients cs (closeClient c s)
  end.
Definition expireRoomLocked (s : SignalServer) (t : string) (r : room) : result fault SignalServer :=
  s ← expire_clients (elements (clients r)) s; Ok (drop_token s t).

(** The first reconnection after a client with a role left: everybody still there
    is from the old generation. *)
Definition remove_slots (s : SignalServer) (r : room) : gmap string client_ptr :=
  foldl (fun ss c => match client_heap s !! c with
                     | Some x => if negb (String.eqb (crole x) "") && bool_decide (ss !! crole x = Some c) then delete (crole x) ss else ss
                     | None => ss
                     end) (slots r) (elements (clients r)).
Definition startReconnectGenerationLocked (s : SignalServer) (p : room_ptr) (r : room) : room * SignalServer :=
  let r' := room_generation (room_members r ∅ (remove_slots s r)) (wrapu64 (generation r + 1)) false [] in
  (r', set_room (foldl (fun s c => closeClient c s) s (elements (clients r))) p r').

(** Taking a place in a locked room. *)
Definition admit_locked (s : SignalServer) (p : room_ptr) (r : room) (role reconnectToken : string)
    : result signal_error (room * SignalServer) :=
  if bool_decide (slots r !! role ≠ None) then Err (AlreadyConnected role)
  else if String.eqb (reconnect_token r role) "" || String.eqb reconnectToken ""
          || negb (String.eqb (reconnect_token r role) reconnectToken) then Err InvalidReconnectToken
  else Ok (if needsNewGeneration r then startReconnectGenerationLocked s p r else (r, s)).

(** Taking a place in an open room; a room nobody is in disappears on an error.
    [fresh] is what the generator of tokens returns. *)
Definition drop_empty (s : SignalServer) (r : room) : SignalServer :=
  if bool_decide (clients r = ∅) then drop_token s (token r) else s.
Definition admit_open (s : SignalServer) (p : room_ptr) (r : room) (role reconnectToken : string) (fresh : option string)
    : result signal_error room * SignalServer :=
  if negb (String.eqb reconnectToken "")
     && (String.eqb (reconnect_token r role) "" || negb (String.eqb (reconnect_token r role) reconnectToken))
  then (Err InvalidReconnectToken, drop_empty s r)
  else if bool_decide (slots r !! role ≠ None) then (Err (AlreadyConnected role), s)
  else
    let '(r, s) :=
      match first_client s r (fun x => String.eqb (crole x) "") with
      | Some (c, x) =>
          let r := room_members r (clients r) (<[oppositeSignalRole role := c]> (slots r)) in
          (r, set_room (set_client s c (client_role x (oppositeSignalRole role))) p r)
      | None => (r, s)
      end in
    if String.eqb (reconnect_token r role) "" then
      match fresh with
      | None => (Err TokenGeneration, drop_empty s r)
      | Some t => let r := room_token r role t in (Ok r, set_room s p r)
      end
    else (Ok r, s).

(** The client takes the place. *)
Definition seat (s : SignalServer) (p : room_ptr) (r : room) (role : string) : result fault (client_ptr * SignalServer) :=
  let c := next_ptr s in
  let s := MkSignal (rooms s) (room_heap s) (<[c := MkClient p [] role true (generation r) false]> (client_heap s)) (S c) in
  let r := room_members r ({[c]} ∪ clients r) (<[role := c]> (slots r)) in
  let full := Nat.eqb (size (clients r)) 2 in
  let r := if full then room_locked r (reconnectEnabled r || roomHasTwoExplicitRoles s r) else r in
  let reconnectSupported := (size (clients r) <? 2)%nat || reconnectEnabled r in
  let s := set_room s p r in
  s ← send_all c (signalReadyPayload role reconnectSupported (reconnect_token r role) (generation r) :: (SignalPayload <$> rpending r)) s;
  Ok (c, s).

Fixpoint tell_explicit (cs : list client_ptr) (generation : Z) (s : SignalServer) : result fault SignalServer :=
  match cs with
  | [] => Ok s
  | c :: cs =>
      match client_heap s !! c with
      | Some x => if explicitRole x then s ← send_signal c (signalReadyPayload (crole x) false "" generation) s; tell_explicit cs generation s
                  else tell_explicit cs generation s
      | None => tell_explicit cs generation s
      end
  end.

Definition joinLegacyLocked (s : SignalServer) (p : room_ptr) (r : room)
    : result fault (result signal_error client_ptr * SignalServer) :=
  if locked r then Ok (Err RoomLocked, s)
  else if (2 <=? size (clients r))%nat then Ok (Err RoomFull, s)
  else
    let c := next_ptr s in
    let role := match first_client s r (fun x => negb (String.eqb (crole x) "")) with
                | Some (_, x) => oppositeSignalRole (crole x)
                | None => ""%string
                end in
    let s := MkSignal (rooms s) (room_heap s) (<[c := MkClient p [] role false (generation r) false]> (client_heap s)) (S c) in
    let r := room_members r ({[c]} ∪ clients r) (if String.eqb role "" then slots r else <[role := c]> (slots r)) in
    let full := Nat.eqb (size (clients r)) 2 in
    let r := if full then room_locked r (reconnectEnabled r) else r in
    let s := set_room s p r in
    s ← (if full then tell_explicit (elements (clients r)) (generation r) s else Ok s);
    s ← send_all c (SignalPayload <$> rpending r) s;
    Ok (Ok c, s).

(** The room of a token, expired ones dropped, or a new one. *)
Definition open_room (s : SignalServer) (t protocol : string) (now ttl : Z) : result fault (room_ptr * room * SignalServer) :=
  let create s :=
    let p := next_ptr s in
    let r := MkRoom t protocol (now + ttl) false ∅ ∅ ∅ false 0 false [] in
    (p, r, MkSignal (<[t := p]> (rooms s)) (<[p := r]> (room_heap s)) (client_heap s) (S p)) in
  match (p ← rooms s !! t; r ← room_heap s !! p; Some (p, r)) with
  | Some (p, r) => if now >? expires r then s ← expireRoomLocked s t r; Ok (create s) else Ok (p, r, s)
  | None => Ok (create s)
  end.

Definition joinWithRoleProtocol (s : SignalServer) (t role reconnectToken protocol_text : string) (now ttl : Z) (fresh : option string)
    : result fault (result signal_error client_ptr * SignalServer) :=
  if negb (String.eqb role "") && negb (isSignalRole role) then Ok (Err InvalidSignalRole, s)
  else match NormalizeProtocol protocol_text with
  | Err e => Ok (Err (InvalidSignalProtocol e), s)
  | Ok wanted =>
      '(p, r, s) ← open_room s t wanted now ttl;
      if negb (String.eqb (protocol r) wanted) then Ok (Err (RoomProtocolMismatch (protocol r) wanted), s)
      else if String.eqb role "" then joinLegacyLocked s p r
      else if locked r then
        match admit_locked s p r role reconnectToken with
        | Err e => Ok (Err e, s)
        | Ok (r, s) => '(c, s) ← seat s p r role; Ok (Ok c, s)
        end
      else
        match admit_open s p r role reconnectToken fresh with
        | (Err e, s) => Ok (Err e, s)
        | (Ok r, s) => '(c, s) ← seat s p r role; Ok (Ok c, s)
        end
  end.

(** ** Forwarding, leaving, expiry *)

Definition push_pending (pending : list bytes) (payload : bytes) : list bytes :=
  (if Z.of_nat (length pending) >=? maxPendingSignals then take (Z.to_nat (maxPendingSignals - 1)) (drop 1 pending) else pending) ++ [payload].

Definition forward (s : SignalServer) (from : client_ptr) (payload : bytes) : result fault SignalServer :=
  match client_heap s !! from with
  | None => Ok s
  | Some x =>
      match room_heap s !! croom x with
      | None => Ok s
      | Some r =>
          if closed x || negb (cgeneration x =? generation r) || negb (bool_decide (from ∈ clients r)) then Ok s
          else
            let s := set_room s (croom x) (room_generation r (generation r) (needsNewGeneration r) (push_pending (rpending r) payload)) in
            offer_all (elements (clients r ∖ {[from]})) (SignalPayload payload) s
      end
  end.

Definition leave_room (s : SignalServer) (c : client_ptr) (x : client) (r : room) : SignalServer :=
  let r := room_members r (clients r ∖ {[c]}) (slots r) in
  let r := if negb (String.eqb (crole x) "") && bool_decide (slots r !! crole x = Some c) then
             room_generation (room_members r (clients r) (delete (crole x) (slots r))) (generation r)
               (needsNewGeneration r || (locked r && explicitRole x)) (rpending r)
           else r in
  let s := set_room s (croom x) r in
  if bool_decide (clients r = ∅) && negb (roomSupportsReconnect r) then drop_token s (token r) else s.
Definition leave (s : SignalServer) (c : client_ptr) : SignalServer :=
  match client_heap s !! c with
  | None => s
  | Some x =>
      closeClient c (match room_heap s !! croom x with Some r => leave_room s c x r | None => s end)
  end.

Fixpoint expire_rooms (ts : list (string * room_ptr)) (s : SignalServer) (now : Z) : result fault SignalServer :=
  match ts with
  | [] => Ok s
  | (t, p) :: ts =>
      match room_heap s !! p with
      | Some r => if now >? expires r then s ← expireRoomLocked s t r; expire_rooms ts s now else expire_rooms ts s now
      | None => expire_rooms ts s now
      end
  end.
Definition cleanup (s : SignalServer) (now : Z) : result fault SignalServer := expire_rooms (map_to_list (rooms s)) s now.

(** The writer of a client takes the next message. *)
Definition write_next (s : SignalServer) (c : client_ptr) : option (signal * SignalServer) :=
  x ← client_heap s !! c;
  match csend x with
  | m :: rest => Some (m, set_client s c (client_send x rest))
  | [] => None
  end.
End rooms.

Definition empty_signals : SignalServer := MkSignal ∅ ∅ ∅ 0%nat.

(** ** The rooms stay in order *)

(** Every client of a room has its place, every place its client; an open room
    has one client at most and a locked one two; when reconnect tokens were given
    out every client has a role; the channels of a room's clients are closed
    together. *)
Record room_ok (s : SignalServer) (p : room_ptr) (r : room) : Prop := {
  rk_client : ∀ c, c ∈ clients r → ∃ x, client_heap s !! c = Some x ∧ croom x = p ∧
    (crole x = ""%string ∨ isSignalRole (crole x) = true ∧ slots r !! crole x = Some c);
  rk_slot : ∀ role c, slots r !! role = Some c → isSignalRole role = true ∧ c ∈ clients r ∧ ∃ x, client_heap s !! c = Some x ∧ crole x = role;
  rk_size : (size (clients r) ≤ (if locked r then 2 else 1))%nat;
  rk_tokens : ∀ role, reconnect_token r role ≠ ""%string → ∀ c x, c ∈ clients r → client_heap s !! c = Some x → crole x ≠ ""%string;
  rk_same : (∀ c x, c ∈ clients r → client_heap s !! c = Some x → closed x = true) ∨
            (∀ c x, c ∈ clients r → client_heap s !! c = Some x → closed x = false);
  rk_pending : Z.of_nat (length (rpending r)) ≤ maxPendingSignals;
  rk_queue : locked r = false → ∀ c x, c ∈ clients r → client_heap s !! c = Some x → closed x = false →
    Z.of_nat (length (csend x)) ≤ maxPendingSignals + 1;
}.

(** A room that has its name has open clients, and somebody who holds its tokens. *)
Definition named_ok (s : SignalServer) (r : room) : Prop :=
  (∀ c x, c ∈ clients r → client_heap s !! c = Some x → closed x = false) ∧
  (locked r = false → ∀ role, reconnect_token r role ≠ ""%string → clients r ≠ ∅).

Record sig_ok (s : SignalServer) : Prop := {
  so_name : ∀ t p, rooms s !! t = Some p → ∃ r, room_heap s !! p = Some r ∧ token r = t ∧ named_ok s r;
  so_room : ∀ p r, room_heap s !! p = Some r → room_ok s p r;
  so_fresh_client : ∀ c x, client_heap s !! c = Some x → (c < next_ptr s)%nat;
  so_fresh_room : ∀ p r, room_heap s !! p = Some r → (p < next_ptr s)%nat;
}.

(** A room whose clients are as they were. *)
Lemma room_ok_ext s s' p r :
  (∀ c x, c ∈ clients r → client_heap s !! c = Some x → client_heap s' !! c = Some x) → room_ok s p r → room_ok s' p r.
Proof.
  intros Hsame [I1 I2 I3 I4 I5 I6 I7].
  assert (Hback : ∀ c x, c ∈ clients r → client_heap s' !! c = Some x → client_heap s !! c = Some x).
  { intros c x Hc Hx. destruct (I1 c Hc) as (y & Hy & _). pose proof (Hsame c y Hc Hy). congruence. }
  split; [| |done| | |done|]; eauto.
  - intros c Hc. destruct (I1 c Hc) as (x & Hx & ? & ?). exists x. by split; [apply Hsame|].
  - intros role c Hs. destruct (I2 role c Hs) as (? & Hc & x & Hx & ?). split; [done|]. split; [done|]. exists x. by split; [apply Hsame|].
  - destruct I5; [left|right]; eauto.
Qed.

(** A change to one room and its clients. *)
Lemma sig_ok_local s s' p r' :
  sig_ok s → (∀ q, q ≠ p → room_heap s' !! q = room_heap s !! q) → room_heap s' !! p = Some r' → room_ok s' p r' →
  (∀ c x, client_heap s !! c = Some x → croom x ≠ p → client_heap s' !! c = Some x) →
  (∀ c x, client_heap s' !! c = Some x → (c < next_ptr s')%nat) → (next_ptr s ≤ next_ptr s')%nat → (p < next_ptr s')%nat →
  (∀ t q, rooms s' !! t = Some q → (q ≠ p ∧ rooms s !! t = Some q) ∨
     (q = p ∧ token r' = t ∧ named_ok s' r')) →
  sig_ok s'.
Proof.
  intros [S1 S2 S3 S4] Hrooms Hp Hr' Hcl Hfresh Hnext Hpn Hnames.
  assert (Hother : ∀ q r c x, q ≠ p → room_heap s !! q = Some r → c ∈ clients r → client_heap s !! c = Some x → client_heap s' !! c = Some x).
  { intros q r c x Hne Hq Hc Hx. apply Hcl; [done|]. destruct (rk_client _ _ _ (S2 q r Hq) c Hc) as (y & Hy & Hroom & _). congruence. }
  split; [| |done|].
  - intros t q Ht. destruct (Hnames t q Ht) as [[Hne Ht0]|(-> & ? & ?)]; [|by exists r'].
    destruct (S1 t q Ht0) as (r & Hq & Htok & Hopen & Htoks). exists r. rewrite Hrooms by done. split; [done|]. split; [done|].
    split; [|done]. intros c x Hc Hx. destruct (rk_client _ _ _ (S2 q r Hq) c Hc) as (y & Hy & _). pose proof (Hother q r c y Hne Hq Hc Hy).
    assert (x = y) as -> by congruence. by eapply Hopen.
  - intros q r Hq. destruct (decide (q = p)) as [->|Hne]; [by assert (r = r') as -> by congruence|].
    rewrite Hrooms in Hq by done. eapply room_ok_ext; [|by apply S2]. intros c x. by eapply Hother.
  - intros q r Hq. destruct (decide (q = p)) as [->|Hne]; [done|]. rewrite Hrooms in Hq by done. apply S4 in Hq. lia.
Qed.

(** Taking a name away. *)
Lemma drop_token_ok s t : sig_ok s → sig_ok (drop_token s t).
Proof.
  intros [S1 S2 S3 S4]. split; [|intros p r Hp; eapply room_ok_ext; [|by apply S2]; done|done|done].
  cbn [drop_token rooms]. intros t' p [_ Ht]%lookup_delete_Some. by apply S1.
Qed.

(** ** Sending *)

Lemma set_client_id s c x : client_heap s !! c = Some x → set_client s c x = s.
Proof. intros Hx. unfold set_client. rewrite insert_id by done. by destruct s. Qed.

Lemma send_all_ok c ms s x :
  client_heap s !! c = Some x → closed x = false → Z.of_nat (length (csend x) + length ms) ≤ signalSendQueueCapacity →
  send_all c ms s = Ok (set_client s c (client_send x (csend x ++ ms))).
Proof.
  revert s x. induction ms as [|m ms IH]; intros s x Hx Hc Hl; cbn [send_all].
  - rewrite app_nil_r. rewrite set_client_id; [done|]. rewrite Hx. by destruct x.
  - unfold send_signal. rewrite Hx, Hc. unfold queue_full. cbn [length] in Hl.
    destruct (Z.geb_spec (Z.of_nat (length (csend x))) signalSendQueueCapacity); [lia|]. cbn [mbind result_bind].
    rewrite (IH _ (client_send x (csend x ++ [m]))).
    + unfold set_client. cbn [client_heap rooms room_heap next_ptr]. rewrite insert_insert_eq.
      unfold client_send. cbn [csend croom crole explicitRole cgeneration closed]. by rewrite <- (assoc_L (++)).
    + cbn [set_client client_heap]. by rewrite lookup_insert_eq.
    + done.
    + cbn [client_send csend]. rewrite length_app. cbn [length]. lia.
Qed.

(** Messages offered to open clients change queues only. *)
Lemma offer_all_ok cs m s :
  (∀ c x, c ∈ cs → client_heap s !! c = Some x → closed x = false) →
  ∃ s', offer_all cs m s = Ok s' ∧ rooms s' = rooms s ∧ room_heap s' = room_heap s ∧ next_ptr s' = next_ptr s ∧
    (∀ c, client_heap s !! c = None → client_heap s' !! c = None) ∧
    ∀ c x, client_heap s !! c = Some x → ∃ q, client_heap s' !! c = Some (client_send x q) ∧ (c ∉ cs → q = csend x).
Proof.
  revert s. induction cs as [|c cs IH]; intros s Hopen; cbn [offer_all].
  { exists s. split_and!; try done. intros c x Hx. exists (csend x). split; [|done]. rewrite Hx. by destruct x. }
  unfold offer_signal. destruct (client_heap s !! c) as [x|] eqn:Hx.
  2:{ cbn [mbind result_bind]. destruct (IH s) as (s' & E & ? & ? & ? & ? & Hq); [intros c' x' Hc; apply Hopen; by right|].
      exists s'. split_and!; try done. intros c' x' Hx'. destruct (Hq c' x' Hx') as (q & ? & Hn). exists q. split; [done|].
      intros Hnot. apply Hn. set_solver. }
  rewrite (Hopen c x) by (done || by left).
  assert (Hstep : ∃ q, (if queue_full x then Ok s else Ok (set_client s c (client_send x (csend x ++ [m])))) = Ok (E:=fault) (set_client s c (client_send x q))).
  { destruct (queue_full x); [exists (csend x)|by eexists]. rewrite set_client_id; [done|]. rewrite Hx. by destruct x. }
  destruct Hstep as [q1 ->]. cbn [mbind result_bind].
  destruct (IH (set_client s c (client_send x q1))) as (s' & E & ? & ? & ? & Hnone & Hq).
  { intros c' x' Hc. cbn [set_client client_heap]. intros [[<- <-]|[_ Hx']]%lookup_insert_Some; [cbn; apply (Hopen c x); [by left|done]|].
    apply (Hopen c' x'); [by right|done]. }
  exists s'. split_and!; try done.
  - intros c' Hc'. apply Hnone. cbn [set_client client_heap]. rewrite lookup_insert_ne; [done|congruence].
  - intros c' x' Hx'. destruct (decide (c' = c)) as [->|Hne].
    + assert (x' = x) as -> by congruence. destruct (Hq c (client_send x q1)) as (q & Hs' & _).
      { cbn [set_client client_heap]. by rewrite lookup_insert_eq. }
      exists q. split; [done|]. intros Hnot. set_solver.
    + destruct (Hq c' x') as (q & Hs' & Hn); [cbn [set_client client_heap]; by rewrite lookup_insert_ne|].
      exists q. split; [done|]. intros Hnot. apply Hn. set_solver.
Qed.

(** ** Expiry and generations *)

Lemma expire_clients_ok cs s :
  NoDup cs → (∀ c x, c ∈ cs → client_heap s !! c = Some x → closed x = false) →
  ∃ s', expire_clients cs s = Ok s' ∧ rooms s' = rooms s ∧ room_heap s' = room_heap s ∧ next_ptr s' = next_ptr s ∧
    (∀ c, c ∉ cs ∨ client_heap s !! c = None → client_heap s' !! c = client_heap s !! c) ∧
    ∀ c x, c ∈ cs → client_heap s !! c = Some x → ∃ q, client_heap s' !! c = Some (client_close (client_send x q)).
Proof.
  revert s. induction cs as [|c cs IH]; intros s Hnd Hopen; cbn [expire_clients].
  { exists s. split_and!; try done. by intros c x ?%not_elem_of_nil. }
  apply NoDup_cons in Hnd as [Hnot Hnd]. unfold offer_signal.
  destruct (client_heap s !! c) as [x|] eqn:Hx.
  2:{ cbn [mbind result_bind]. unfold closeClient. rewrite Hx. destruct (IH s Hnd) as (s' & E & ? & ? & ? & Hn & Hc).
      { intros c' x' Hc'. apply Hopen. by right. }
      exists s'. split_and!; try done.
      - intros c' [Hc'|Hc']; apply Hn; [left; set_solver|by right].
      - intros c' x' [->|Hc']%elem_of_cons Hx'; [congruence|by apply Hc]. }
  rewrite (Hopen c x) by (done || by left).
  assert (Hstep : ∃ q, (if queue_full x then Ok s else Ok (set_client s c (client_send x (csend x ++ [SignalExpired])))) = Ok (E:=fault) (set_client s c (client_send x q))).
  { destruct (queue_full x); [exists (csend x)|by eexists]. rewrite set_client_id; [done|]. rewrite Hx. by destruct x. }
  destruct Hstep as [q1 ->]. cbn [mbind result_bind].
  assert (Hclosed : closeClient c (set_client s c (client_send x q1)) = set_client s c (client_close (client_send x q1))).
  { unfold closeClient. cbn [set_client client_heap]. rewrite lookup_insert_eq. cbn [client_send closed].
    rewrite (Hopen c x) by (done || by left). unfold set_client. cbn [client_heap rooms room_heap next_ptr]. by rewrite insert_insert_eq. }
  rewrite Hclosed.
  destruct (IH (set_client s c (client_close (client_send x q1))) Hnd) as (s' & E & ? & ? & ? & Hn & Hc).
  { intros c' x' Hc'. cbn [set_client client_heap]. rewrite lookup_insert_ne by (intros ->; done). apply Hopen. by right. }
  cbn [set_client client_heap] in *. exists s'. split_and!; try done.
  - intros c' Hor. destruct (decide (c' = c)) as [->|Hne]; [destruct Hor; [set_solver|congruence]|].
    rewrite Hn by (rewrite lookup_insert_ne by done; destruct Hor; [left; set_solver|by right]). by rewrite lookup_insert_ne.
  - intros c' x' [->|Hc']%elem_of_cons Hx'.
    + assert (x' = x) as -> by congruence. exists q1. rewrite Hn by by left. by rewrite lookup_insert_eq.
    + apply Hc; [done|]. rewrite lookup_insert_ne; [done|]. by intros ->.
Qed.

Lemma expireRoomLocked_ok s t p r :
  sig_ok s → rooms s !! t = Some p → room_heap s !! p = Some r →
  ∃ s', expireRoomLocked s t r = Ok s' ∧ sig_ok s' ∧ rooms s' = delete t (rooms s) ∧ room_heap s' = room_heap s.
Proof.
  intros Hs Ht Hp. destruct (so_name s Hs t p Ht) as (r0 & Hp0 & Htok & Hopen & _). assert (r0 = r) as -> by congruence.
  pose proof (so_room s Hs p r Hp) as Hr. unfold expireRoomLocked.
  destruct (expire_clients_ok (elements (clients r)) s (NoDup_elements _)) as (s' & -> & E1 & E2 & E3 & Hn & Hc).
  { intros c x Hin. apply elem_of_elements in Hin. by apply Hopen. }
  cbn [mbind result_bind]. eexists. split; [done|]. cbn [drop_token rooms room_heap]. rewrite E1, E2. split; [|done].
  destruct Hr as [I1 I2 I3 I4 I5 I6 I7].
  assert (Hcl : ∀ c x', c ∈ clients r → client_heap s' !! c = Some x' → ∃ x q, client_heap s !! c = Some x ∧ x' = client_close (client_send x q)).
  { intros c x' Hin Hx'. destruct (I1 c Hin) as (x & Hx & _). destruct (Hc c x) as [q Hq]; [by apply elem_of_elements|done|].
    exists x, q. split; [done|congruence]. }
  assert (Hfwd : ∀ c x, c ∈ clients r → client_heap s !! c = Some x → ∃ q, client_heap s' !! c = Some (client_close (client_send x q))).
  { intros c x Hin Hx. apply Hc; [by apply elem_of_elements|done]. }
  eapply (sig_ok_local s _ p r Hs); cbn [drop_token rooms room_heap client_heap next_ptr].
  - intros q _. by rewrite E2.
  - by rewrite E2.
  - split; [| |done| | |done|].
    + intros c Hin. destruct (I1 c Hin) as (x & Hx & ? & ?). destruct (Hfwd c x Hin Hx) as [q Hq].
      eexists. split; [exact Hq|done].
    + intros role c Hsl. destruct (I2 role c Hsl) as (? & Hin & x & Hx & ?). split; [done|]. split; [done|].
      destruct (Hfwd c x Hin Hx) as [q Hq]. eexists. by split; [exact Hq|].
    + intros role Hne c x' Hin Hx'. destruct (Hcl c x' Hin Hx') as (x & q & Hx & ->). exact (I4 role Hne c x Hin Hx).
    + left. intros c x' Hin Hx'. by destruct (Hcl c x' Hin Hx') as (x & q & Hx & ->).
    + intros _ c x' Hin Hx'. destruct (Hcl c x' Hin Hx') as (x & q & Hx & ->). by cbn.
  - intros c x Hx Hroom. rewrite Hn; [done|]. left. intros Hin%elem_of_elements. destruct (I1 c Hin) as (y & Hy & ? & _). congruence.
  - intros c x' Hx'. rewrite E3. destruct (client_heap s !! c) as [x|] eqn:Hx; [by eapply so_fresh_client|].
    discriminate (eq_trans (eq_sym Hx') (eq_trans (Hn c (or_intror Hx)) Hx)).
  - lia.
  - rewrite E3. by eapply so_fresh_room.
  - rewrite E1. intros t' q [Hne Ht']%lookup_delete_Some. left. split; [|done]. intros ->.
    destruct (so_name s Hs t' p Ht') as (r1 & Hp1 & Htok1 & _). congruence.
Qed.

(** The slots of a room belong to its clients, so all of them are given up. *)
Lemma remove_slots_empty s p r : room_ok s p r → remove_slots s r = ∅.
Proof.
  intros [I1 I2 _ _ _ _ _]. unfold remove_slots. set (f := λ (ss : gmap string client_ptr) c, _).
  assert (Hgen : ∀ cs ss, (∀ role c, ss !! role = Some c → slots r !! role = Some c) →
    ∀ role c, foldl f ss cs !! role = Some c → slots r !! role = Some c ∧ c ∉ cs).
  { induction cs as [|c0 cs IH]; intros ss Hss role c; cbn [foldl]; [intros ?; split; [by apply Hss|apply not_elem_of_nil]|].
    intros Hl. destruct (IH (f ss c0)) with (role := role) (c := c) as [Hsl Hnot]; [|done|].
    - intros role' c'. unfold f. repeat case_match; [intros [_ ?]%lookup_delete_Some|..]; by auto.
    - split; [done|]. intros [->|?]%elem_of_cons; [|done]. destruct (I2 role c0 Hsl) as (Hrole & Hin & x & Hx & Hxr).
      assert (Hgone : f ss c0 !! role = None).
      { unfold f. rewrite Hx, Hxr. destruct (String.eqb_spec role "") as [->|_]; [done|]. cbn [negb andb].
        case_bool_decide as Hd; [by rewrite lookup_delete_eq|]. destruct (ss !! role) as [c1|] eqn:E; [|done].
        apply Hss in E. congruence. }
      assert (Hmono : ∀ cs ss, ss !! role = None → foldl f ss cs !! role = None).
      { clear. induction cs as [|c1 cs IH]; intros ss Hn; cbn [foldl]; [done|]. apply IH. unfold f. repeat case_match; try done.
        by rewrite lookup_delete_None; right. }
      rewrite Hmono in Hl by done. done. }
  apply map_empty. intros role. destruct (foldl f (slots r) (elements (clients r)) !! role) as [c|] eqn:E; [|done].
  apply Hgen in E as [Hsl Hnot]; [|done]. destruct (I2 role c Hsl) as (_ & Hin & _). by destruct Hnot; apply elem_of_elements.
Qed.

Lemma close_all_spec cs s :
  let s' := foldl (λ s c, closeClient c s) s cs in
  rooms s' = rooms s ∧ room_heap s' = room_heap s ∧ next_ptr s' = next_ptr s ∧
  (∀ c, c ∉ cs → client_heap s' !! c = client_heap s !! c) ∧ (∀ c x, client_heap s' !! c = Some x → is_Some (client_heap s !! c)).
Proof.
  revert s. induction cs as [|c cs IH]; intros s; cbn [foldl] in *; cbv zeta in *; [split_and!; try done; by eexists|].
  destruct (IH (closeClient c s)) as (E1 & E2 & E3 & Hn & Hd).
  assert (Hc : rooms (closeClient c s) = rooms s ∧ room_heap (closeClient c s) = room_heap s ∧ next_ptr (closeClient c s) = next_ptr s ∧
    (∀ c', c' ≠ c → client_heap (closeClient c s) !! c' = client_heap s !! c') ∧
    ∀ c' x, client_heap (closeClient c s) !! c' = Some x → is_Some (client_heap s !! c')).
  { unfold closeClient. destruct (client_heap s !! c) as [x|] eqn:Hx; [|split_and!; try done; by eexists]. destruct (closed x); [split_and!; try done; by eexists|].
    cbn [set_client rooms room_heap next_ptr client_heap]. split_and!; try done.
    - intros c' Hne. by rewrite lookup_insert_ne.
    - intros c' y [[<- _]|[_ Hl]]%lookup_insert_Some; [by exists x|by exists y]. }
  destruct Hc as (R1 & R2 & R3 & Hc4 & Hc5). split_and!; [congruence..| |].
  - intros c' Hnot. rewrite Hn, Hc4 by set_solver. done.
  - intros c' x Hx. destruct (Hd c' x Hx) as [y Hy]. by eapply Hc5.
Qed.

Lemma startReconnectGeneration_ok s t p r r' s' :
  sig_ok s → rooms s !! t = Some p → room_heap s !! p = Some r → locked r = true → startReconnectGenerationLocked s p r = (r', s') →
  sig_ok s' ∧ rooms s' = rooms s ∧ room_heap s' !! p = Some r' ∧ clients r' = ∅ ∧ slots r' = ∅ ∧ locked r' = locked r ∧
  token r' = token r ∧ reconnectTokens r' = reconnectTokens r ∧ next_ptr s' = next_ptr s.
Proof.
  intros Hs Ht Hp Hlock. pose proof (so_room s Hs p r Hp) as Hr. unfold startReconnectGenerationLocked. rewrite (remove_slots_empty s p r Hr).
  set (s1 := foldl _ s _). destruct (close_all_spec (elements (clients r)) s) as (E1 & E2 & E3 & Hn & Hd). fold s1 in E1, E2, E3, Hn, Hd.
  intros [= <- <-]. cbn [set_room rooms room_heap next_ptr]. rewrite E1. split_and!; try done; [|by rewrite lookup_insert_eq].
  destruct (so_name s Hs t p Ht) as (r0 & Hp0 & Htok & _). assert (r0 = r) as -> by congruence.
  eapply (sig_ok_local s _ p _ Hs); cbn [set_room rooms room_heap client_heap next_ptr].
  - intros q Hne. by rewrite lookup_insert_ne, E2.
  - by rewrite lookup_insert_eq.
  - split; cbn [room_generation room_members clients slots locked rpending reconnectTokens].
    + intros c []%not_elem_of_empty.
    + intros role c. by rewrite lookup_empty.
    + rewrite size_empty. destruct (locked r); lia.
    + intros role _ c x []%not_elem_of_empty.
    + left. intros c x []%not_elem_of_empty.
    + unfold maxPendingSignals. cbn [length]. lia.
    + intros _ c x []%not_elem_of_empty.
  - intros c x Hx Hroom. rewrite Hn; [done|]. intros Hin%elem_of_elements. destruct (rk_client _ _ _ Hr c Hin) as (y & Hy & ? & _). congruence.
  - intros c x Hx. rewrite E3. destruct (Hd c x Hx) as [y Hy]. by eapply so_fresh_client.
  - by rewrite E3.
  - rewrite E3. by eapply so_fresh_room.
  - rewrite E1. intros t' q Ht'. destruct (decide (q = p)) as [->|]; [right|by left]. split; [done|].
    destruct (so_name s Hs t' p Ht') as (r1 & Hp1 & Htok1 & _). split; [by assert (r1 = r) as -> by congruence|].
    split; cbn [room_generation room_members clients locked]; [set_solver|]. congruence.
Qed.

(** ** Taking a place *)

Lemma first_client_Some s r f c x :
  first_client s r f = Some (c, x) → c ∈ clients r ∧ client_heap s !! c = Some x ∧ f x = true.
Proof.
  unfold first_client. intros Hh. apply head_Some_elem_of in Hh. apply list_elem_of_omap in Hh as (c' & Hc & Hf).
  destruct (client_heap s !! c') as [y|] eqn:Hy; cbn in Hf; [|done]. destruct (f y) eqn:Hfy; [|done]. injection Hf as -> ->.
  split_and!; try done. by apply elem_of_elements.
Qed.
Lemma first_client_None s r f c x :
  first_client s r f = None → c ∈ clients r → client_heap s !! c = Some x → f x = false.
Proof.
  unfold first_client. intros Hh Hc Hx. destruct (f x) eqn:Hf; [|done].
  assert (Hin : (c, x) ∈ omap (fun c => x ← client_heap s !! c; if f x then Some (c, x) else None) (elements (clients r))).
  { apply list_elem_of_omap. exists c. split; [by apply elem_of_elements|]. rewrite Hx. cbn. by rewrite Hf. }
  destruct (omap _ _); [by apply not_elem_of_nil in Hin|done].
Qed.

Lemma small_room (X : gset client_ptr) c c' : (size X ≤ 1)%nat → c ∈ X → c' ∈ X → c = c'.
Proof.
  intros Hs Hc Hc'. destruct (decide (c = c')) as [|Hne]; [done|]. exfalso.
  assert (Hsub : {[c; c']} ⊆ X) by set_solver. apply subseteq_size in Hsub. rewrite size_union in Hsub by set_solver.
  rewrite !size_singleton in Hsub. lia.
Qed.
Lemma at_most_one (X : gset client_ptr) : (∀ c c', c ∈ X → c' ∈ X → c = c') → (size X ≤ 1)%nat.
Proof.
  intros Heq. destruct (decide (X = ∅)) as [->|[c Hc]%set_choose_L]; [rewrite size_empty; lia|].
  assert (X = {[c]}) as ->; [|rewrite size_singleton; lia]. apply set_eq. intros c'. rewrite elem_of_singleton.
  split; [intros Hc'; by apply Heq|by intros ->].
Qed.

Lemma signal_roles role role' :
  isSignalRole role = true → isSignalRole role' = true → role ≠ role' → role' = oppositeSignalRole role.
Proof.
  unfold isSignalRole, oppositeSignalRole. intros [->%String.eqb_eq| ->%String.eqb_eq]%orb_prop [->%String.eqb_eq| ->%String.eqb_eq]%orb_prop ?; done.
Qed.
Lemma opposite_role role : isSignalRole role = true → isSignalRole (oppositeSignalRole role) = true ∧ oppositeSignalRole role ≠ role.
Proof. unfold isSignalRole, oppositeSignalRole. by intros [->%String.eqb_eq| ->%String.eqb_eq]%orb_prop. Qed.
Lemma role_nonempty role : isSignalRole role = true → role ≠ ""%string.
Proof. by intros ? ->. Qed.

(** In a room where everybody has a role, a free place leaves one client at most. *)
Lemma free_place s p r role :
  room_ok s p r → isSignalRole role = true → slots r !! role = None →
  (∀ c x, c ∈ clients r → client_heap s !! c = Some x → crole x ≠ ""%string) → (size (clients r) ≤ 1)%nat.
Proof.
  intros Hr Hrole Hfree Hroles. apply at_most_one.
  assert (Hother : ∀ c, c ∈ clients r → slots r !! oppositeSignalRole role = Some c).
  { intros c Hc. destruct (rk_client _ _ _ Hr c Hc) as (x & Hx & _ & [He|[Hs Hsl]]); [by destruct (Hroles c x Hc Hx)|].
    rewrite <- (signal_roles role (crole x)); [done|done|done|]. congruence. }
  intros c c' Hc%Hother Hc'%Hother. congruence.
Qed.

(** A place is free and one client at most is there. *)
Record place (s : SignalServer) (t : string) (p : room_ptr) (r : room) (role : string) : Prop := {
  pl_ok : sig_ok s;
  pl_name : rooms s !! t = Some p;
  pl_room : room_heap s !! p = Some r;
  pl_role : isSignalRole role = true;
  pl_free : slots r !! role = None;
  pl_size : (size (clients r) ≤ 1)%nat;
  pl_roles : ∀ c x, c ∈ clients r → client_heap s !! c = Some x → crole x ≠ ""%string;
}.

Lemma admit_locked_ok s t p r role reconnectToken r' s' :
  sig_ok s → rooms s !! t = Some p → room_heap s !! p = Some r → isSignalRole role = true → locked r = true →
  admit_locked s p r role reconnectToken = Ok (r', s') →
  place s' t p r' role ∧ reconnect_token r role = reconnectToken ∧ reconnectToken ≠ ""%string.
Proof.
  intros Hs Ht Hp Hrole Hlock. unfold admit_locked. case_bool_decide as Hslot; [done|].
  destruct (String.eqb_spec (reconnect_token r role) ""); [done|]. destruct (String.eqb_spec reconnectToken ""); [done|].
  destruct (String.eqb_spec (reconnect_token r role) reconnectToken); [|done]. cbn [orb negb].
  assert (Hfree : slots r !! role = None) by (destruct (slots r !! role); [by destruct Hslot|done]).
  pose proof (so_room s Hs p r Hp) as Hr. assert (Hroles := rk_tokens _ _ _ Hr role n).
  destruct (needsNewGeneration r).
  - destruct (startReconnectGenerationLocked s p r) as [r1 s1] eqn:E. intros [= <- <-].
    destruct (startReconnectGeneration_ok s t p r r1 s1 Hs Ht Hp Hlock E) as (? & Hn & Hp' & Hcl & Hsl & _ & _ & _ & _).
    split; [|done]. split; try done.
    + by rewrite Hn.
    + by rewrite Hsl, lookup_empty.
    + rewrite Hcl, size_empty. lia.
    + intros c x. rewrite Hcl. by intros ?%not_elem_of_empty.
  - intros [= <- <-]. split; [|done]. split; try done. by eapply free_place.
Qed.

(** An open room: the legacy client that waits there gets the other role. *)
Lemma take_role_ok s t p r role c x :
  sig_ok s → rooms s !! t = Some p → room_heap s !! p = Some r → isSignalRole role = true → slots r !! role = None →
  locked r = false → c ∈ clients r → client_heap s !! c = Some x → crole x = ""%string →
  let r' := room_members r (clients r) (<[oppositeSignalRole role := c]> (slots r)) in
  place (set_room (set_client s c (client_role x (oppositeSignalRole role))) p r') t p r' role.
Proof.
  intros Hs Ht Hp Hrole Hfree Hlock Hc Hx Hxr. cbv zeta. set (r' := room_members _ _ _).
  destruct (opposite_role role Hrole) as [Hop Hne]. pose proof (so_room s Hs p r Hp) as Hr. destruct Hr as [I1 I2 I3 I4 I5 I6 I7].
  destruct (so_name s Hs t p Ht) as (r0 & Hp0 & Htok & Hopen & _). assert (r0 = r) as -> by congruence.
  rewrite Hlock in I3. assert (Hone : ∀ c', c' ∈ clients r → c' = c) by (intros c' Hc'; by eapply small_room).
  assert (Hcroom : croom x = p) by (destruct (I1 c Hc) as (y & Hy & ? & _); congruence).
  assert (Hslots : slots r = ∅).
  { apply map_empty. intros role'. destruct (slots r !! role') as [c'|] eqn:E; [|done].
    destruct (I2 role' c' E) as (Hs' & Hc' & y & Hy & Hyr). apply Hone in Hc' as ->. apply role_nonempty in Hs'. congruence. }
  assert (Hnotok : ∀ role', reconnect_token r role' = ""%string).
  { intros role'. destruct (decide (reconnect_token r role' = ""%string)) as [|Hn]; [done|]. by destruct (I4 role' Hn c x Hc Hx). }
  set (s' := set_room _ _ _).
  assert (Hcl : ∀ c' y, c' ∈ clients r → client_heap s' !! c' = Some y → y = client_role x (oppositeSignalRole role)).
  { intros c' y Hc' Hy. apply Hone in Hc' as ->. unfold s' in Hy. cbn [set_room set_client client_heap] in Hy.
    rewrite lookup_insert_eq in Hy. congruence. }
  assert (Hx' : client_heap s' !! c = Some (client_role x (oppositeSignalRole role))).
  { unfold s'. cbn [set_room set_client client_heap]. by rewrite lookup_insert_eq. }
  split; try done.
  - eapply (sig_ok_local s s' p r' Hs).
    + intros q Hq. unfold s'. cbn [set_room set_client room_heap]. by rewrite lookup_insert_ne.
    + unfold s'. cbn [set_room set_client room_heap]. by rewrite lookup_insert_eq.
    + split; unfold r'; cbn [room_members clients slots locked rpending].
      * intros c' Hc'. apply Hone in Hc' as ->. eexists. split; [exact Hx'|]. split; [done|]. right. split; [done|].
        cbn [client_role crole]. by rewrite lookup_insert_eq.
      * intros role' c' [[<- <-]|[? E]]%lookup_insert_Some; [|by rewrite Hslots, lookup_empty in E].
        split; [done|]. split; [done|]. by eexists; split; [exact Hx'|].
      * rewrite Hlock. exact I3.
      * intros role' Hn. by destruct Hn; apply Hnotok.
      * right. intros c' y Hc' Hy. rewrite (Hcl c' y Hc' Hy). cbn. by apply (Hopen c x).
      * done.
      * intros _ c' y Hc' Hy. rewrite (Hcl c' y Hc' Hy). cbn. intros _. apply (I7 Hlock c x); [done|done|]. by apply (Hopen c x).
    + intros c' y Hy Hyr. unfold s'. cbn [set_room set_client client_heap]. rewrite lookup_insert_ne; [done|]. intros ->. congruence.
    + intros c' y. unfold s'. cbn [set_room set_client client_heap next_ptr].
      intros [[<- _]|[_ Hy]]%lookup_insert_Some; by eapply so_fresh_client.
    + done.
    + exact (so_fresh_room s Hs p r Hp).
    + intros t' q Ht'. destruct (decide (q = p)) as [->|]; [right|by left]. split; [done|].
      destruct (so_name s Hs t' p Ht') as (r1 & Hp1 & Htok1 & _). split; [by assert (r1 = r) as -> by congruence|].
      split; [intros c' y Hc' Hy; rewrite (Hcl c' y Hc' Hy); cbn; by apply (Hopen c x)|].
      intros _ role' Hn. by destruct Hn; apply Hnotok.
  - unfold s'. cbn [set_room set_client room_heap]. by rewrite lookup_insert_eq.
  - unfold r'. cbn [room_members slots]. rewrite lookup_insert_ne by done. by rewrite Hslots, lookup_empty.
  - intros c' y Hc' Hy. rewrite (Hcl c' y Hc' Hy). cbn. by apply role_nonempty.
Qed.

(** ** A new member of a room *)

Definition with_member (s : SignalServer) (p : room_ptr) (r' : room) (x : client) : SignalServer :=
  MkSignal (rooms s) (<[p := r']> (room_heap s)) (<[next_ptr s := x]> (client_heap s)) (S (next_ptr s)).

(** The room with the newcomer, whichever way it joined. *)
Record member (s : SignalServer) (p : room_ptr) (r r' : room) (x : client) : Prop := {
  mb_token : token r' = token r;
  mb_clients : clients r' = {[next_ptr s]} ∪ clients r;
  mb_slots : slots r' = (if String.eqb (crole x) "" then slots r else <[crole x := next_ptr s]> (slots r));
  mb_pending : rpending r' = rpending r;
  mb_locked : locked r' = (locked r || Nat.eqb (size (clients r')) 2);
  mb_size : (size (clients r) ≤ 1)%nat;
  mb_room : croom x = p;
  mb_open : closed x = false;
  mb_queue : Z.of_nat (length (csend x)) ≤ maxPendingSignals + 1;
  mb_role : (crole x = ""%string ∨ isSignalRole (crole x) = true) ∧ slots r !! crole x = None;
  mb_roles : ∀ role, reconnect_token r' role ≠ ""%string →
    crole x ≠ ""%string ∧ ∀ c y, c ∈ clients r → client_heap s !! c = Some y → crole y ≠ ""%string;
}.

Lemma fresh_member s p r : sig_ok s → room_heap s !! p = Some r → next_ptr s ∉ clients r.
Proof.
  intros Hs Hp Hc. destruct (rk_client _ _ _ (so_room s Hs p r Hp) _ Hc) as (x & Hx & _).
  apply (so_fresh_client s Hs) in Hx. lia.
Qed.

(** Who is in the room with the newcomer. *)
Lemma member_cases s p r r' x : member s p r r' x → ∀ c, c ∈ clients r' → c = next_ptr s ∨ (c ≠ next_ptr s ∧ c ∈ clients r).
Proof. intros Hm c. rewrite (mb_clients _ _ _ _ _ Hm). destruct (decide (c = next_ptr s)); set_solver. Qed.

Lemma member_room_ok s t p r r' x :
  sig_ok s → rooms s !! t = Some p → room_heap s !! p = Some r → member s p r r' x → room_ok (with_member s p r' x) p r'.
Proof.
  intros Hs Ht Hp Hm. pose proof (member_cases _ _ _ _ _ Hm) as Hmem. pose proof (fresh_member s p r Hs Hp) as Hfresh.
  pose proof (so_room s Hs p r Hp) as [I1 I2 I3 I4 I5 I6 I7]. destruct (so_name s Hs t p Ht) as (r0 & Hp0 & _ & Hopen & _).
  assert (r0 = r) as -> by congruence. destruct Hm as [Et Ec Es Ep El Hsz Hxr Hxo Hxq [Hrole Hfree] Hroles].
  assert (Hold : ∀ c y, c ∈ clients r → <[next_ptr s := x]> (client_heap s) !! c = Some y → client_heap s !! c = Some y).
  { intros c y Hc. rewrite lookup_insert_ne; [done|]. by intros <-. }
  assert (Hnew : ∀ y, <[next_ptr s := x]> (client_heap s) !! next_ptr s = Some y → y = x) by (intros y; rewrite lookup_insert_eq; congruence).
  split; cbn [with_member client_heap].
  - intros c [->|[Hne Hc]]%Hmem.
    + exists x. rewrite lookup_insert_eq. split; [done|]. split; [done|]. destruct Hrole as [?|Hrl]; [by left|right]. split; [done|].
      rewrite Es. destruct (String.eqb_spec (crole x) ""); [by apply role_nonempty in Hrl|]. by rewrite lookup_insert_eq.
    + destruct (I1 c Hc) as (y & Hy & Hcr & Hsl). exists y. rewrite lookup_insert_ne by done. split; [done|]. split; [done|].
      destruct Hsl as [|[? Hsl]]; [by left|right]. split; [done|]. rewrite Es. destruct (String.eqb _ _); [done|].
      rewrite lookup_insert_ne; [done|]. intros E. rewrite <- E in Hsl. congruence.
  - assert (Hrest : ∀ role c, slots r !! role = Some c → isSignalRole role = true ∧ c ∈ clients r' ∧
      ∃ y, <[next_ptr s := x]> (client_heap s) !! c = Some y ∧ crole y = role).
    { intros role c E. destruct (I2 role c E) as (? & Hc & y & Hy & ?). split; [done|]. split; [rewrite Ec; set_solver|]. exists y.
      rewrite lookup_insert_ne; [done|]. by intros <-. }
    intros role c E. rewrite Es in E. destruct (String.eqb_spec (crole x) "") as [He|He]; [by apply Hrest|].
    apply lookup_insert_Some in E as [[<- <-]|[_ E]]; [|by apply Hrest]. destruct Hrole as [?|Hrl]; [done|].
    split; [done|]. split; [rewrite Ec; set_solver|]. exists x. by rewrite lookup_insert_eq.
  - rewrite El, Ec, size_union, size_singleton by set_solver. destruct (locked r), (Nat.eqb_spec (1 + size (clients r)) 2); cbn [orb]; lia.
  - intros role Hn c y Hc Hy. destruct (Hroles role Hn) as [Hx Hall]. apply Hmem in Hc as [->|[_ Hc]]; [by rewrite (Hnew y Hy)|].
    by apply (Hall c y Hc), Hold.
  - right. intros c y [->|[_ Hc]]%Hmem Hy; [by rewrite (Hnew y Hy)|]. apply (Hopen c y Hc). by apply Hold.
  - by rewrite Ep.
  - rewrite El. intros [Hlock _]%orb_false_elim c y [->|[Hne Hc]]%Hmem Hy Hyo; [by rewrite (Hnew y Hy)|].
    apply (I7 Hlock c y Hc); [by apply Hold|done].
Qed.

Lemma with_member_ok s t p r r' x :
  sig_ok s → rooms s !! t = Some p → room_heap s !! p = Some r → member s p r r' x → sig_ok (with_member s p r' x).
Proof.
  intros Hs Ht Hp Hm. pose proof (member_room_ok _ _ _ _ _ _ Hs Ht Hp Hm) as Hr'. pose proof (member_cases _ _ _ _ _ Hm) as Hmem.
  pose proof (so_fresh_room s Hs p r Hp). destruct (so_name s Hs t p Ht) as (r0 & Hp0 & Htok & Hopen & _). assert (r0 = r) as -> by congruence.
  eapply (sig_ok_local s _ p r' Hs); cbn [with_member rooms room_heap client_heap next_ptr]; [| |exact Hr'| | |lia|lia|].
  - intros q Hq. by rewrite lookup_insert_ne.
  - by rewrite lookup_insert_eq.
  - intros c y Hy Hcr. rewrite lookup_insert_ne; [done|]. intros <-. apply (so_fresh_client s Hs) in Hy. lia.
  - intros c y [[<- _]|[_ Hy]]%lookup_insert_Some; [lia|]. apply (so_fresh_client s Hs) in Hy. lia.
  - intros t' q Ht'. destruct (decide (q = p)) as [->|]; [right|by left]. split; [done|].
    destruct (so_name s Hs t' p Ht') as (r1 & Hp1 & Htok1 & _). split; [rewrite (mb_token _ _ _ _ _ Hm); by assert (r1 = r) as -> by congruence|].
    split; [|intros _ _ _; rewrite (mb_clients _ _ _ _ _ Hm); set_solver].
    intros c y [->|[Hne Hc]]%Hmem Hy.
    + cbn [with_member client_heap] in Hy. rewrite lookup_insert_eq in Hy. injection Hy as <-. by apply (mb_open _ _ _ _ _ Hm).
    + cbn [with_member client_heap] in Hy. rewrite lookup_insert_ne in Hy by done. by apply (Hopen c y).
Qed.

Definition with_tokens (r : room) (m : gmap string string) : room :=
  MkRoom (token r) (protocol r) (expires r) (locked r) (clients r) (slots r) m (reconnectEnabled r)
    (generation r) (needsNewGeneration r) (rpending r).

(** What a client that took its place finds. *)
Definition seated_room (s : SignalServer) (r : room) (role : string) (r' : room) : Prop :=
  token r' = token r ∧ protocol r' = protocol r ∧ expires r' = expires r ∧ clients r' = {[next_ptr s]} ∪ clients r ∧
  slots r' = <[role := next_ptr s]> (slots r) ∧ reconnectTokens r' = reconnectTokens r ∧ generation r' = generation r ∧
  needsNewGeneration r' = needsNewGeneration r ∧ rpending r' = rpending r ∧ locked r' = (locked r || Nat.eqb (size (clients r')) 2).

Lemma seat_set_room s p r1 r role : seat (set_room s p r1) p r role = seat s p r role.
Proof.
  unfold seat. cbn [set_room next_ptr rooms room_heap client_heap]. cbv zeta. unfold set_room. cbn [next_ptr rooms room_heap client_heap].
  by rewrite insert_insert_eq.
Qed.

Lemma seat_ok s t p r role m :
  place s t p r role →
  ∃ r' q, seat s p (with_tokens r m) role = Ok (next_ptr s, with_member s p r' (MkClient p q role true (generation r) false)) ∧
    seated_room s (with_tokens r m) role r' ∧
    q = signalReadyPayload role ((size (clients r') <? 2)%nat || reconnectEnabled r') (default "" (m !! role)) (generation r) :: (SignalPayload <$> rpending r) ∧
    sig_ok (with_member s p r' (MkClient p q role true (generation r) false)).
Proof.
  intros [Hs Ht Hp Hrole Hfree Hsize Hroles]. unfold seat. set (c := next_ptr s). cbv zeta.
  cbn [room_members with_tokens clients slots locked reconnectEnabled reconnectTokens generation rpending].
  set (sc := MkSignal (rooms s) (room_heap s) _ (S c)).
  set (r1 := room_members (with_tokens r m) ({[c]} ∪ clients r) (<[role := c]> (slots r))).
  set (r' := if Nat.eqb (size ({[c]} ∪ clients r)) 2 then _ else r1).
  assert (Hseat : seated_room s (with_tokens r m) role r').
  { unfold seated_room, r', r1. fold c. destruct (Nat.eqb (size ({[c]} ∪ clients r)) 2) eqn:Hfull;
      cbn [room_locked room_members with_tokens token protocol expires clients slots reconnectTokens generation needsNewGeneration rpending locked];
      rewrite Hfull, ?orb_true_r, ?orb_false_r; by split_and!. }
  pose proof Hseat as (Et & Ep & Ee & Ec & Es & Ek & Eg & En & Epd & El).
  cbn [with_tokens token protocol expires clients slots reconnectTokens generation needsNewGeneration rpending locked] in Et, Ep, Ee, Ec, Es, Ek, Eg, En, Epd, El.
  pose proof (rk_pending _ _ _ (so_room s Hs p r Hp)) as Hpend.
  rewrite (send_all_ok c _ (set_room sc p r') (MkClient p [] role true (generation r) false)).
  2:{ cbn [set_room client_heap]. unfold sc. cbn [client_heap]. by rewrite lookup_insert_eq. }
  2: done.
  2:{ cbn [csend length]. rewrite length_fmap, Epd. unfold signalSendQueueCapacity, maxPendingSignals in *. lia. }
  cbn [mbind result_bind]. unfold client_send. cbn [csend croom crole explicitRole cgeneration closed app].
  eexists r', _. split; [unfold with_member, set_client, set_room, sc; cbn [client_heap rooms room_heap next_ptr]; by rewrite insert_insert_eq|].
  split; [done|]. split; [unfold reconnect_token; by rewrite Ec, Ek, Eg, Epd|].
  apply (with_member_ok s t p r r'); [done..|]. split; cbn [crole croom closed csend]; try done.
  - destruct (String.eqb_spec role ""); [by apply role_nonempty in Hrole|done].
  - cbn [length]. rewrite length_fmap, Epd. unfold maxPendingSignals in *. lia.
  - by split; [right|].
  - intros _ _. split; [by apply role_nonempty|done].
Qed.

Lemma with_tokens_id r : with_tokens r (reconnectTokens r) = r.
Proof. by destruct r. Qed.

Lemma drop_empty_ok s r : sig_ok s → sig_ok (drop_empty s r).
Proof. intros Hs. unfold drop_empty. case_bool_decide; [by apply drop_token_ok|done]. Qed.

Lemma admit_open_ok s t p r role reconnectToken fresh out s' :
  sig_ok s → rooms s !! t = Some p → room_heap s !! p = Some r → isSignalRole role = true → locked r = false →
  admit_open s p r role reconnectToken fresh = (out, s') →
  match out with
  | Err _ => sig_ok s'
  | Ok r' => ∃ s0 r0 m, place s0 t p r0 role ∧ r' = with_tokens r0 m ∧ (s' = s0 ∨ s' = set_room s0 p r')
  end.
Proof.
  intros Hs Ht Hp Hrole Hlock. unfold admit_open. destruct (negb _ && _).
  { intros [= <- <-]. by apply drop_empty_ok. }
  case_bool_decide as Hslot; [by intros [= <- <-]|].
  assert (Hfree : slots r !! role = None) by (destruct (slots r !! role); [by destruct Hslot|done]).
  pose proof (so_room s Hs p r Hp) as Hr. assert (Hsize := rk_size _ _ _ Hr). rewrite Hlock in Hsize.
  set (next := match first_client s r _ with Some _ => _ | None => _ end).
  assert (Hnext : place next.2 t p next.1 role).
  { unfold next. destruct (first_client s r _) as [[c x]|] eqn:Ef.
    - apply first_client_Some in Ef as (Hc & Hx & He%String.eqb_eq). by eapply take_role_ok.
    - split; try done. intros c x Hc Hx He. apply (first_client_None _ _ _ _ _ Ef Hc) in Hx. rewrite He in Hx. done. }
  destruct next as [r0 s0]. cbn [fst snd] in Hnext. destruct (String.eqb (reconnect_token r0 role) "").
  - destruct fresh as [tok|]; intros [= <- <-]; [|by apply drop_empty_ok, (pl_ok _ _ _ _ _ Hnext)].
    exists s0, r0, (<[role := tok]> (reconnectTokens r0)). split_and!; [done|done|by right].
  - intros [= <- <-]. exists s0, r0, (reconnectTokens r0). rewrite with_tokens_id. split_and!; [done|done|by left].
Qed.

(** ** Joining as a legacy client *)

Lemma tell_explicit_ok cs g s :
  NoDup cs → (∀ c x, c ∈ cs → client_heap s !! c = Some x → closed x = false ∧ Z.of_nat (length (csend x)) < signalSendQueueCapacity) →
  ∃ s', tell_explicit cs g s = Ok s' ∧ rooms s' = rooms s ∧ room_heap s' = room_heap s ∧ next_ptr s' = next_ptr s ∧
    (∀ c, client_heap s !! c = None → client_heap s' !! c = None) ∧
    ∀ c x, client_heap s !! c = Some x → ∃ q, client_heap s' !! c = Some (client_send x q) ∧ (c ∉ cs ∨ explicitRole x = false → q = csend x).
Proof.
  revert s. induction cs as [|c cs IH]; intros s Hnd Hopen; cbn [tell_explicit].
  { exists s. split_and!; try done. intros c x Hx. exists (csend x). split; [|done]. rewrite Hx. by destruct x. }
  apply NoDup_cons in Hnd as [Hnot Hnd].
  assert (Hskip : ∃ s', tell_explicit cs g s = Ok s' ∧ rooms s' = rooms s ∧ room_heap s' = room_heap s ∧ next_ptr s' = next_ptr s ∧
    (∀ c, client_heap s !! c = None → client_heap s' !! c = None) ∧
    ∀ c x, client_heap s !! c = Some x → ∃ q, client_heap s' !! c = Some (client_send x q) ∧ (c ∉ cs ∨ explicitRole x = false → q = csend x)).
  { apply IH; [done|]. intros c' x' Hc'. apply Hopen. by right. }
  destruct (client_heap s !! c) as [x|] eqn:Hx.
  2:{ destruct Hskip as (s' & ? & ? & ? & ? & ? & Hq). exists s'. split_and!; try done. intros c' x' Hx'.
      destruct (Hq c' x' Hx') as (q & ? & Hn). exists q. split; [done|]. intros Hor. apply Hn. set_solver. }
  destruct (explicitRole x) eqn:He.
  2:{ destruct Hskip as (s' & ? & ? & ? & ? & ? & Hq). exists s'. split_and!; try done. intros c' x' Hx'.
      destruct (Hq c' x' Hx') as (q & ? & Hn). exists q. split; [done|]. intros Hor. apply Hn. set_solver. }
  clear Hskip. destruct (Hopen c x) as [Hco Hcq]; [by left|done|]. unfold send_signal. rewrite Hx, Hco. unfold queue_full.
  destruct (Z.geb_spec (Z.of_nat (length (csend x))) signalSendQueueCapacity); [lia|]. cbn [mbind result_bind].
  set (m := signalReadyPayload _ _ _ _).
  destruct (IH (set_client s c (client_send x (csend x ++ [m]))) Hnd) as (s' & E & ? & ? & ? & Hnone & Hq).
  { intros c' x' Hc'. cbn [set_client client_heap]. rewrite lookup_insert_ne by (by intros ->). apply Hopen. by right. }
  exists s'. split_and!; try done.
  - intros c' Hc'. apply Hnone. cbn [set_client client_heap]. rewrite lookup_insert_ne; [done|congruence].
  - intros c' x' Hx'. destruct (decide (c' = c)) as [->|Hne].
    + assert (x' = x) as -> by congruence. destruct (Hq c (client_send x (csend x ++ [m]))) as (q & Hs' & _).
      { cbn [set_client client_heap]. by rewrite lookup_insert_eq. }
      exists q. split; [done|]. intros [Hn|Hn]; [set_solver|congruence].
    + destruct (Hq c' x') as (q & Hs' & Hn); [cbn [set_client client_heap]; by rewrite lookup_insert_ne|].
      exists q. split; [done|]. intros Hor. apply Hn. set_solver.
Qed.

(** A step that changes queues only. *)
Lemma sig_ok_queues s s' :
  sig_ok s → rooms s' = rooms s → room_heap s' = room_heap s → next_ptr s' = next_ptr s →
  (∀ c, client_heap s !! c = None → client_heap s' !! c = None) →
  (∀ c x, client_heap s !! c = Some x → ∃ q, client_heap s' !! c = Some (client_send x q) ∧
     (∀ r, room_heap s !! croom x = Some r → locked r = false → c ∈ clients r → closed x = false → Z.of_nat (length q) ≤ maxPendingSignals + 1)) →
  sig_ok s'.
Proof.
  intros [S1 S2 S3 S4] E1 E2 E3 Hnone Hq.
  assert (Hback : ∀ c y, client_heap s' !! c = Some y → ∃ x q, client_heap s !! c = Some x ∧ y = client_send x q ∧
     (∀ r, room_heap s !! croom x = Some r → locked r = false → c ∈ clients r → closed x = false → Z.of_nat (length q) ≤ maxPendingSignals + 1)).
  { intros c y Hy. destruct (client_heap s !! c) as [x|] eqn:Hx; [|apply Hnone in Hx; congruence].
    destruct (Hq c x Hx) as (q & Hy' & Hb). exists x, q. split_and!; [done|congruence|done]. }
  split; rewrite ?E1, ?E2, ?E3.
  - intros t p Ht. destruct (S1 t p Ht) as (r & Hp & Htok & Hopen & Htoks). exists r. split; [done|]. split; [done|].
    split; [|done]. intros c y Hc Hy. destruct (Hback c y Hy) as (x & q & Hx & -> & _). exact (Hopen c x Hc Hx).
  - intros p r Hp. pose proof (S2 p r Hp) as [I1 I2 I3 I4 I5 I6 I7]. split; [| |done| | |done|].
    + intros c Hc. destruct (I1 c Hc) as (x & Hx & ? & ?). destruct (Hq c x Hx) as (q & Hy & _). exists (client_send x q). split; [exact Hy|done].
    + intros role c Hs. destruct (I2 role c Hs) as (? & Hc & x & Hx & ?). split; [done|]. split; [done|].
      destruct (Hq c x Hx) as (q & Hy & _). exists (client_send x q). split; [exact Hy|done].
    + intros role Hn c y Hc Hy. destruct (Hback c y Hy) as (x & q & Hx & -> & _). exact (I4 role Hn c x Hc Hx).
    + destruct I5 as [I5|I5]; [left|right]; intros c y Hc Hy; destruct (Hback c y Hy) as (x & q & Hx & -> & _); exact (I5 c x Hc Hx).
    + intros Hl c y Hc Hy Hcl. destruct (Hback c y Hy) as (x & q & Hx & -> & Hb). destruct (I1 c Hc) as (x' & Hx' & Hcr & _).
      assert (x' = x) as -> by congruence. apply (Hb r); [by rewrite Hcr|done|done|done].
  - intros c y Hy. destruct (Hback c y Hy) as (x & q & Hx & _). exact (S3 c x Hx).
  - exact S4.
Qed.

(** The role of a legacy client: none, or the one its partner left. *)
Lemma legacy_role_ok s t p r (role := match first_client s r (fun x => negb (String.eqb (crole x) "")) with
    | Some (_, x) => oppositeSignalRole (crole x) | None => ""%string end) :
  sig_ok s → rooms s !! t = Some p → room_heap s !! p = Some r → locked r = false →
  slots r !! role = None ∧
  ((role = ""%string ∧ ∀ c x, c ∈ clients r → client_heap s !! c = Some x → crole x = ""%string) ∨
   (isSignalRole role = true ∧ ∀ c x, c ∈ clients r → client_heap s !! c = Some x → crole x ≠ ""%string)).
Proof.
  intros Hs Ht Hp Hlock. pose proof (so_room s Hs p r Hp) as [I1 I2 I3 _ _ _ _]. rewrite Hlock in I3.
  assert (Hempty : slots r !! ""%string = None).
  { destruct (slots r !! ""%string) as [c'|] eqn:E; [|done]. by destruct (I2 _ _ E) as [? _]. }
  unfold role. destruct (first_client s r _) as [[c1 x1]|] eqn:Ef.
  - apply first_client_Some in Ef as (Hc1 & Hx1 & Hne). destruct (String.eqb_spec (crole x1) "") as [|Hne1]; [done|].
    destruct (I1 c1 Hc1) as (y & Hy & _ & Hsl). assert (y = x1) as -> by congruence. destruct Hsl as [?|[Hrl Hsl]]; [done|].
    destruct (opposite_role _ Hrl) as [Hop Hopne].
    assert (Hone : ∀ c', c' ∈ clients r → c' = c1) by (intros c' Hc'; by eapply small_room). split.
    + destruct (slots r !! oppositeSignalRole (crole x1)) as [c'|] eqn:E; [|done]. destruct (I2 _ _ E) as (_ & Hc' & y & Hy' & Hyr).
      apply Hone in Hc' as ->. assert (y = x1) as -> by congruence. congruence.
    + right. split; [done|]. intros c' x Hc' Hx. apply Hone in Hc' as ->. congruence.
  - split; [done|]. left. split; [done|]. intros c' x Hc' Hx. apply (first_client_None _ _ _ _ _ Ef Hc') in Hx.
    by apply negb_false_iff, String.eqb_eq in Hx.
Qed.

(** Telling everybody in a full room and sending the newcomer what is pending. *)
Lemma welcome_ok s p r' c x ms (full : bool) :
  sig_ok s → room_heap s !! p = Some r' → locked r' = full → client_heap s !! c = Some x → closed x = false → explicitRole x = false →
  (length (csend x) + length ms ≤ Z.to_nat maxPendingSignals)%nat →
  (∀ c y, c ∈ clients r' → client_heap s !! c = Some y → closed y = false ∧ Z.of_nat (length (csend y)) < signalSendQueueCapacity) →
  ∃ s', (s3 ← (if full then tell_explicit (elements (clients r')) (generation r') s else Ok s); send_all c ms s3) = Ok s' ∧ sig_ok s'.
Proof.
  intros Hs Hp Hfull Hx Hxo Hxe Hl Hopen. assert (Hqueue : ∀ c y r, client_heap s !! c = Some y → room_heap s !! croom y = Some r →
    locked r = false → c ∈ clients r → closed y = false → Z.of_nat (length (csend y)) ≤ maxPendingSignals + 1).
  { intros c' y r Hy Hr Hlr Hc Hyo. exact (rk_queue _ _ _ (so_room _ Hs _ r Hr) Hlr c' y Hc Hy Hyo). }
  assert (Htell : ∃ s3, (if full then tell_explicit (elements (clients r')) (generation r') s else Ok s) = Ok s3 ∧
    sig_ok s3 ∧ room_heap s3 = room_heap s ∧ client_heap s3 !! c = Some x).
  { destruct full; [|by exists s].
    destruct (tell_explicit_ok (elements (clients r')) (generation r') s (NoDup_elements _)) as (s3 & -> & E1 & E2 & E3 & Hnone & Hq).
    { intros c' y Hc'%elem_of_elements. by apply Hopen. }
    exists s3. split; [done|]. split; [|split; [done|]].
    - eapply sig_ok_queues; [exact Hs|done..|]. intros c' y Hy. destruct (Hq c' y Hy) as (q & Hq' & Hn). exists q. split; [done|].
      intros r0 Hr0 Hl0 Hc0 Hy0. rewrite Hn; [by eapply Hqueue|]. left. intros Hin%elem_of_elements.
      destruct (rk_client _ _ _ (so_room _ Hs p r' Hp) c' Hin) as (y' & Hy' & Hcr & _). congruence.
    - destruct (Hq c x Hx) as (q & Hs3c & Hempty). rewrite Hempty in Hs3c by by right. rewrite Hs3c. by destruct x. }
  destruct Htell as (s3 & -> & Hs3 & Eh & Hxc). cbn [mbind result_bind]. unfold maxPendingSignals in Hl.
  rewrite (send_all_ok c _ s3 x Hxc Hxo) by (unfold signalSendQueueCapacity, maxPendingSignals; lia).
  eexists. split; [done|]. eapply sig_ok_queues; [exact Hs3|done..| |]; cbn [set_client client_heap].
  - intros c' Hc'. rewrite lookup_insert_ne; [done|]. intros <-. congruence.
  - intros c' y Hy. destruct (decide (c' = c)) as [->|Hne].
    + assert (y = x) as -> by congruence. eexists. rewrite lookup_insert_eq. split; [done|]. intros _ _ _ _ _. rewrite length_app.
      unfold maxPendingSignals. lia.
    + exists (csend y). rewrite lookup_insert_ne by done. split; [rewrite Hy; by destruct y|].
      intros r0 Hr0 Hl0 Hc0 Hy0. exact (rk_queue _ _ _ (so_room _ Hs3 _ r0 Hr0) Hl0 c' y Hc0 Hy Hy0).
Qed.

Lemma joinLegacyLocked_ok s t p r :
  sig_ok s → rooms s !! t = Some p → room_heap s !! p = Some r →
  ∃ out s', joinLegacyLocked s p r = Ok (out, s') ∧ sig_ok s' ∧ ((∃ c, out = Ok c) → locked r = false).
Proof.
  intros Hs Ht Hp. unfold joinLegacyLocked. destruct (locked r) eqn:Hlock; [eexists _, s; split_and!; [done|done|by intros [c ?]]|].
  destruct (2 <=? size (clients r))%nat; [by eexists _, s|]. destruct (legacy_role_ok s t p r Hs Ht Hp Hlock) as [Hfree Hroles].
  pose proof (so_room s Hs p r Hp) as [_ _ Hsize Htoks _ Hpend Hqueue]. rewrite Hlock in Hsize.
  destruct (so_name s Hs t p Ht) as (r0 & Hp0 & _ & Hopen & Hhold). assert (r0 = r) as -> by congruence.
  set (role := match first_client s r _ with Some _ => _ | None => _ end) in *. cbv zeta. set (c := next_ptr s).
  set (xc := MkClient p [] role false (generation r) false). set (sc := MkSignal (rooms s) (room_heap s) _ (S c)).
  cbn [room_members clients]. set (r1 := room_members r ({[c]} ∪ clients r) _).
  set (full := Nat.eqb (size ({[c]} ∪ clients r)) 2). set (r' := if full then _ else r1).
  assert (Hm : member s p r r' xc).
  { assert (Hr' : token r' = token r ∧ clients r' = {[c]} ∪ clients r ∧ slots r' = (if String.eqb role "" then slots r else <[role := c]> (slots r)) ∧
      reconnectTokens r' = reconnectTokens r ∧ rpending r' = rpending r ∧ locked r' = full) by (unfold r', r1; destruct full; by split_and!).
    destruct Hr' as (Et & Ec & Es & Ek & Ep & El). split; try done.
    - by rewrite El, Hlock, Ec.
    - split; [|done]. by destruct Hroles as [[? _]|[? _]]; [left|right].
    - intros role' Hn. assert (Hn0 : reconnect_token r role' ≠ ""%string) by (unfold reconnect_token in *; by rewrite Ek in Hn).
      destruct (set_choose_L (clients r) (Hhold Hlock role' Hn0)) as [c1 Hc1].
      destruct (rk_client _ _ _ (so_room s Hs p r Hp) c1 Hc1) as (x1 & Hx1 & _). pose proof (Htoks role' Hn0 c1 x1 Hc1 Hx1) as Hne1.
      destruct Hroles as [[_ Hall]|[Hrl Hall]]; [by destruct Hne1; eapply Hall|]. split; [by apply role_nonempty|done]. }
  pose proof (with_member_ok s t p r r' xc Hs Ht Hp Hm) as Hs2. change (set_room sc p r') with (with_member s p r' xc).
  destruct (welcome_ok (with_member s p r' xc) p r' c xc (SignalPayload <$> rpending r') full) as (s' & E & Hs'); try done.
  - exact (lookup_insert_eq _ _ _).
  - rewrite (mb_locked _ _ _ _ _ Hm), Hlock, (mb_clients _ _ _ _ _ Hm). done.
  - exact (lookup_insert_eq _ _ _).
  - rewrite length_fmap, (mb_pending _ _ _ _ _ Hm). unfold xc. cbn [csend length]. lia.
  - intros c' y [->|[Hne Hc']]%(member_cases _ _ _ _ _ Hm) Hy; cbn [with_member client_heap] in Hy.
    + rewrite lookup_insert_eq in Hy. by injection Hy as <-.
    + rewrite lookup_insert_ne in Hy by done. pose proof (Hopen c' y Hc' Hy) as Hyo. split; [done|].
      pose proof (Hqueue Hlock c' y Hc' Hy Hyo). unfold signalSendQueueCapacity. lia.
  - exists (Ok c), s'. split; [|done]. revert E. destruct (if full then tell_explicit _ _ _ else _) as [s3|f]; [|done]. cbn [mbind result_bind]. by intros ->.
Qed.

(** ** Joining *)

Lemma open_room_ok s t wanted now ttl :
  sig_ok s →
  ∃ p r s', open_room s t wanted now ttl = Ok (p, r, s') ∧ sig_ok s' ∧ rooms s' !! t = Some p ∧ room_heap s' !! p = Some r.
Proof.
  intros Hs. set (r0 := MkRoom t wanted (now + ttl) false ∅ ∅ ∅ false 0 false []).
  assert (Hnew : ∀ s, sig_ok s → let p := next_ptr s in
    sig_ok (MkSignal (<[t := p]> (rooms s)) (<[p := r0]> (room_heap s)) (client_heap s) (S p))).
  { clear s Hs. intros s Hs. cbv zeta. eapply (sig_ok_local s _ (next_ptr s) r0 Hs); cbn [rooms room_heap client_heap next_ptr].
    - intros q Hq. by rewrite lookup_insert_ne.
    - by rewrite lookup_insert_eq.
    - split; cbn [r0 clients slots locked rpending].
      + by intros c ?%not_elem_of_empty.
      + intros role c. by rewrite lookup_empty.
      + rewrite size_empty. lia.
      + by intros role _ c x ?%not_elem_of_empty.
      + left. by intros c x ?%not_elem_of_empty.
      + unfold maxPendingSignals. cbn [length]. lia.
      + by intros _ c x ?%not_elem_of_empty.
    - done.
    - intros c x Hx. apply (so_fresh_client s Hs) in Hx. lia.
    - lia.
    - lia.
    - intros t' q [[<- <-]|[Hne Ht']]%lookup_insert_Some; [right|left].
      + split; [done|]. split; [done|]. split; [by intros c x ?%not_elem_of_empty|]. intros _ role Hn. destruct Hn.
        unfold reconnect_token. cbn [r0 reconnectTokens]. by rewrite lookup_empty.
      + split; [|done]. destruct (so_name s Hs t' q Ht') as (r & Hr & _). apply (so_fresh_room s Hs) in Hr. lia. }
  unfold open_room. destruct (rooms s !! t) as [p|] eqn:Ht; cbn [mbind option_bind].
  - destruct (so_name s Hs t p Ht) as (r & Hp & _). rewrite Hp. cbn [mbind option_bind]. destruct (now >? expires r); [|by exists p, r, s].
    destruct (expireRoomLocked_ok s t p r Hs Ht Hp) as (s' & -> & Hs' & _ & _). cbn [mbind result_bind].
    eexists _, _, _. split; [done|]. split; [by apply Hnew|]. cbn. by rewrite !lookup_insert_eq.
  - eexists _, _, _. split; [done|]. split; [by apply Hnew|]. cbn. by rewrite !lookup_insert_eq.
Qed.

(** A join always ends, and leaves the rooms in order. *)
Lemma joinWithRoleProtocol_ok `{CaseTables} s t role reconnectToken protocol_text now ttl fresh :
  sig_ok s →
  ∃ out s', joinWithRoleProtocol s t role reconnectToken protocol_text now ttl fresh = Ok (out, s') ∧ sig_ok s'.
Proof.
  intros Hs. unfold joinWithRoleProtocol. destruct (negb (String.eqb role "") && negb (isSignalRole role)) eqn:Hrole; [by eexists _, s|].
  destruct (NormalizeProtocol protocol_text) as [wanted|e]; [|by eexists _, s].
  destruct (open_room_ok s t wanted now ttl Hs) as (p & r & s1 & -> & Hs1 & Ht & Hp). cbn [mbind result_bind].
  destruct (negb (String.eqb (protocol r) wanted)); [by eexists _, s1|].
  destruct (String.eqb_spec role "") as [|Hne].
  { destruct (joinLegacyLocked_ok s1 t p r Hs1 Ht Hp) as (out & s' & -> & Hs' & _). by eexists _, _. }
  cbn [negb andb] in Hrole. apply negb_false_iff in Hrole. destruct (locked r) eqn:Hlock.
  - destruct (admit_locked s1 p r role reconnectToken) as [[r' s']|e] eqn:Ha; [|by eexists _, s1].
    destruct (admit_locked_ok _ _ _ _ _ _ _ _ Hs1 Ht Hp Hrole Hlock Ha) as (Hpl & _ & _).
    destruct (seat_ok s' t p r' role (reconnectTokens r') Hpl) as (r2 & q & E & _ & _ & Hok). rewrite with_tokens_id in E. rewrite E. by eexists _, _.
  - destruct (admit_open s1 p r role reconnectToken fresh) as [[r'|e] s'] eqn:Ha;
      pose proof (admit_open_ok _ _ _ _ _ _ _ _ _ Hs1 Ht Hp Hrole Hlock Ha) as Hpl; cbn in Hpl; [|by eexists _, s'].
    destruct Hpl as (s0 & r0 & m & Hpl & -> & Hor). destruct (seat_ok s0 t p r0 role m Hpl) as (r2 & q & E & _ & _ & Hok).
    destruct Hor as [->| ->]; [|rewrite seat_set_room]; rewrite E; by eexists _, _.
Qed.

(** ** Forwarding *)

Lemma push_pending_length pending payload :
  Z.of_nat (length pending) ≤ maxPendingSignals → Z.of_nat (length (push_pending pending payload)) ≤ maxPendingSignals.
Proof.
  unfold push_pending, maxPendingSignals. intros Hl. rewrite length_app. cbn [length].
  destruct (Z.geb_spec (Z.of_nat (length pending)) 64); [rewrite length_take|]; lia.
Qed.

Lemma pending_ok s p r q :
  sig_ok s → room_heap s !! p = Some r → Z.of_nat (length q) ≤ maxPendingSignals →
  sig_ok (set_room s p (room_generation r (generation r) (needsNewGeneration r) q)).
Proof.
  intros Hs Hp Hq. pose proof (so_room s Hs p r Hp) as [I1 I2 I3 I4 I5 I6 I7].
  eapply (sig_ok_local s _ p _ Hs); cbn [set_room rooms room_heap client_heap next_ptr].
  - intros p' Hne. by rewrite lookup_insert_ne.
  - by rewrite lookup_insert_eq.
  - by split.
  - done.
  - exact (so_fresh_client s Hs).
  - done.
  - exact (so_fresh_room s Hs p r Hp).
  - intros t p' Ht. destruct (decide (p' = p)) as [->|]; [right|by left]. split; [done|].
    destruct (so_name s Hs t p Ht) as (r0 & Hp0 & Htok & Hn). by assert (r0 = r) as -> by congruence.
Qed.

Lemma forward_ok s from payload : sig_ok s → ∃ s', forward s from payload = Ok s' ∧ sig_ok s'.
Proof.
  intros Hs. unfold forward. destruct (client_heap s !! from) as [x|] eqn:Hx; [|by eexists].
  destruct (room_heap s !! croom x) as [r|] eqn:Hp; [|by eexists]. destruct (closed x) eqn:Hxo; [by eexists|].
  destruct (negb (cgeneration x =? generation r)); [by eexists|]. case_bool_decide as Hfrom; [|by eexists]. cbn [orb negb].
  pose proof (so_room s Hs _ r Hp) as Hr. set (s1 := set_room _ _ _).
  assert (Hs1 : sig_ok s1) by (apply pending_ok; [done..|]; apply push_pending_length, (rk_pending _ _ _ Hr)).
  destruct (offer_all_ok (elements (clients r ∖ {[from]})) (SignalPayload payload) s1) as (s' & -> & E1 & E2 & E3 & Hnone & Hq).
  { intros c y Hc%elem_of_elements Hy. destruct (rk_same _ _ _ Hr) as [Hall|Hall]; [|apply (Hall c y); [set_solver|done]].
    rewrite (Hall from x Hfrom Hx) in Hxo. done. }
  exists s'. split; [done|]. eapply sig_ok_queues; [exact Hs1|done..|]. intros c y Hy. destruct (Hq c y Hy) as (q & Hq' & Hn).
  exists q. split; [done|]. intros r0 Hr0 Hl0 Hc0 Hy0.
  rewrite Hn; [exact (rk_queue _ _ _ (so_room _ Hs1 _ r0 Hr0) Hl0 c y Hc0 Hy Hy0)|]. intros [Hc Hne]%elem_of_elements%elem_of_difference.
  destruct (rk_client _ _ _ Hr c Hc) as (y' & Hy' & Hcr & _). assert (y' = y) as -> by (unfold s1 in Hy; cbn in Hy; congruence).
  unfold s1 in Hr0. cbn [set_room room_heap] in Hr0. rewrite Hcr, lookup_insert_eq in Hr0. injection Hr0 as <-.
  pose proof (rk_size _ _ _ Hr) as Hsz. cbn [room_generation locked] in Hl0. rewrite Hl0 in Hsz.
  apply Hne, elem_of_singleton. by eapply small_room.
Qed.

(** ** Leaving *)

Lemma closeClient_ok s c : sig_ok s → (∀ p r, room_heap s !! p = Some r → c ∉ clients r) → sig_ok (closeClient c s).
Proof.
  intros [S1 S2 S3 S4] Hout. unfold closeClient. destruct (client_heap s !! c) as [x|] eqn:Hx; [|done]. destruct (closed x); [done|].
  assert (Hsame : ∀ p r c' y, room_heap s !! p = Some r → c' ∈ clients r → client_heap (set_client s c (client_close x)) !! c' = Some y →
    client_heap s !! c' = Some y).
  { intros p r c' y Hp Hc'. cbn [set_client client_heap]. rewrite lookup_insert_ne; [done|]. intros <-. by destruct (Hout p r Hp). }
  split; cbn [set_client rooms room_heap next_ptr].
  - intros t p Ht. destruct (S1 t p Ht) as (r & Hp & Htok & Hopen & Hhold). exists r. split; [done|]. split; [done|]. split; [|done].
    intros c' y Hc' Hy. apply (Hopen c' y Hc'). exact (Hsame p r c' y Hp Hc' Hy).
  - intros p r Hp. eapply room_ok_ext; [|exact (S2 p r Hp)]. intros c' y Hc' Hy. cbn [set_client client_heap].
    rewrite lookup_insert_ne; [done|]. intros <-. by destruct (Hout p r Hp).
  - intros c' y. cbn [set_client client_heap]. intros [[<- _]|[_ Hy]]%lookup_insert_Some; [exact (S3 c x Hx)|exact (S3 c' y Hy)].
  - exact S4.
Qed.

(** The room without a client: its place is free. *)
Lemma leave_room_ok s c x r :
  sig_ok s → client_heap s !! c = Some x → room_heap s !! croom x = Some r →
  sig_ok (leave_room s c x r) ∧ ∀ p r', room_heap (leave_room s c x r) !! p = Some r' → c ∉ clients r'.
Proof.
  intros Hs Hx Hp. pose proof (so_room s Hs _ r Hp) as [I1 I2 I3 I4 I5 I6 I7]. unfold leave_room. cbv zeta.
  set (r1 := room_members r (clients r ∖ {[c]}) (slots r)). set (r' := if _ && _ then _ else r1).
  assert (Hr' : token r' = token r ∧ locked r' = locked r ∧ clients r' = clients r ∖ {[c]} ∧ reconnectTokens r' = reconnectTokens r ∧
    rpending r' = rpending r ∧ slots r' = (if negb (String.eqb (crole x) "") && bool_decide (slots r !! crole x = Some c) then delete (crole x) (slots r) else slots r)).
  { unfold r', r1. cbn [room_members slots]. destruct (negb _ && _); by split_and!. }
  destruct Hr' as (Et & El & Ec & Ek & Ep & Es).
  assert (Hslots : ∀ role c', slots r' !! role = Some c' → slots r !! role = Some c' ∧ c' ≠ c).
  { intros role c' E. rewrite Es in E. destruct (I2 role c') as (Hrl & Hc' & y & Hy & Hyr).
    { destruct (negb _ && _); [by apply lookup_delete_Some in E as [_ ?]|done]. }
    destruct (decide (c' = c)) as [->|Hne].
    - assert (y = x) as -> by congruence. rewrite Hyr in E. destruct (String.eqb_spec role ""); [by apply role_nonempty in Hrl|]. cbn [negb andb] in E.
      case_bool_decide as Hb; [by rewrite lookup_delete_eq in E|]. done.
    - split; [|done]. destruct (negb _ && _); [by apply lookup_delete_Some in E as [_ ?]|done]. }
  set (s1 := set_room s (croom x) r').
  assert (Hok : room_ok s1 (croom x) r').
  { split; unfold s1; cbn [set_room client_heap]; rewrite ?Ec, ?El, ?Ep.
    - intros c' [Hc' Hne]%elem_of_difference. destruct (I1 c' Hc') as (y & Hy & Hcr & Hsl). exists y. split; [done|]. split; [done|].
      destruct Hsl as [|[Hrl Hsl]]; [by left|right]. split; [done|]. rewrite Es.
      destruct (negb _ && bool_decide _) eqn:Hd; [|done]. apply andb_prop in Hd as [_ Hd%bool_decide_eq_true_1].
      rewrite lookup_delete_ne; [done|]. intros E. rewrite E in Hd. set_solver.
    - intros role c' [E Hne]%Hslots. destruct (I2 role c' E) as (? & Hc' & ?). split; [done|]. split; [set_solver|done].
    - etrans; [|exact I3]. apply subseteq_size. set_solver.
    - intros role Hn c' y [Hc' _]%elem_of_difference. apply (I4 role); [|done]. unfold reconnect_token in *. by rewrite Ek in Hn.
    - destruct I5 as [I5|I5]; [left|right]; intros c' y [Hc' _]%elem_of_difference; by apply I5.
    - done.
    - intros Hl c' y [Hc' _]%elem_of_difference. by apply I7. }
  set (s2 := if bool_decide (clients r' = ∅) && _ then _ else s1).
  assert (E2 : room_heap s2 = <[croom x := r']> (room_heap s) ∧ client_heap s2 = client_heap s ∧ next_ptr s2 = next_ptr s ∧
    ∀ t p, rooms s2 !! t = Some p → rooms s !! t = Some p ∧ (clients r' = ∅ → roomSupportsReconnect r' = false → t ≠ token r')).
  { unfold s2. destruct (bool_decide (clients r' = ∅)) eqn:He; cbn [andb]; [destruct (roomSupportsReconnect r') eqn:Hsup; cbn [negb]|].
    - by split_and!.
    - split_and!; try done. cbn [drop_token s1 set_room rooms]. intros t p [Hne Ht]%lookup_delete_Some. split; [done|]. by intros _ _ ->.
    - split_and!; try done. intros t p Ht. split; [exact Ht|]. by apply bool_decide_eq_false in He. }
  clearbody s2. destruct E2 as (Eh & Eclients & En & Ern).
  split; [|intros p r1' Hp'; rewrite Eh in Hp'; apply lookup_insert_Some in Hp' as [[<- <-]|[Hne Hp']]; [rewrite Ec; set_solver|]].
  2:{ intros Hc. destruct (rk_client _ _ _ (so_room s Hs p r1' Hp') c Hc) as (y & Hy & Hcr & _). congruence. }
  eapply (sig_ok_local s s2 (croom x) r' Hs); rewrite ?Eh, ?Eclients, ?En.
  - intros q Hq. by rewrite lookup_insert_ne.
  - by rewrite lookup_insert_eq.
  - eapply room_ok_ext; [|exact Hok]. intros c' y _ Hy. by rewrite Eclients.
  - done.
  - exact (so_fresh_client s Hs).
  - done.
  - exact (so_fresh_room s Hs _ r Hp).
  - intros t q [Ht Hdrop]%Ern. destruct (decide (q = croom x)) as [->|]; [right|by left]. split; [done|].
    destruct (so_name s Hs t (croom x) Ht) as (r0 & Hp0 & Htok & Hopen & Hhold). assert (r0 = r) as -> by congruence.
    split; [congruence|]. split; [intros c' y; rewrite Ec, Eclients; intros [Hc' _]%elem_of_difference; apply (Hopen c' y Hc')|].
    intros Hl role _ He. apply (Hdrop He); [|congruence]. unfold roomSupportsReconnect. by rewrite Hl.
Qed.

Lemma leave_signal_ok s c : sig_ok s → sig_ok (leave s c).
Proof.
  intros Hs. unfold leave. destruct (client_heap s !! c) as [x|] eqn:Hx; [|done].
  destruct (room_heap s !! croom x) as [r|] eqn:Hp.
  - destruct (leave_room_ok s c x r Hs Hx Hp) as [? Hout]. by apply closeClient_ok.
  - apply closeClient_ok; [done|]. intros p r Hp' Hc. destruct (rk_client _ _ _ (so_room s Hs p r Hp') c Hc) as (y & Hy & Hcr & _). congruence.
Qed.

(** ** Cleaning up, and the writers *)

Lemma expire_rooms_ok ts s now :
  NoDup ts.*1 → (∀ t p, (t, p) ∈ ts → rooms s !! t = Some p) → sig_ok s → ∃ s', expire_rooms ts s now = Ok s' ∧ sig_ok s'.
Proof.
  revert s. induction ts as [|[t p] ts IH]; intros s Hnd Hin Hs; cbn [expire_rooms]; [by eexists|].
  cbn [fmap list_fmap fst] in Hnd. apply NoDup_cons in Hnd as [Hnot Hnd].
  assert (Hrest : ∀ t' p', (t', p') ∈ ts → rooms s !! t' = Some p') by (intros t' p' ?; apply Hin; by right).
  destruct (room_heap s !! p) as [r|] eqn:Hp; [|by apply IH]. destruct (now >? expires r); [|by apply IH].
  destruct (expireRoomLocked_ok s t p r Hs) as (s' & -> & Hs' & Er & _); [apply Hin; by left|done|]. cbn [mbind result_bind].
  apply IH; [done| |done]. intros t' p' Hin'. rewrite Er, lookup_delete_ne; [by apply Hrest|]. intros ->.
  apply Hnot, list_elem_of_fmap. by exists (t', p').
Qed.
Lemma cleanup_ok s now : sig_ok s → ∃ s', cleanup s now = Ok s' ∧ sig_ok s'.
Proof.
  intros Hs. apply expire_rooms_ok; [apply NoDup_fst_map_to_list| |done]. intros t p. by rewrite elem_of_map_to_list.
Qed.

Lemma write_next_ok s c m s' : sig_ok s → write_next s c = Some (m, s') → sig_ok s'.
Proof.
  intros Hs. unfold write_next. destruct (client_heap s !! c) as [x|] eqn:Hx; [|done]. cbn [mbind option_bind].
  destruct (csend x) as [|m' rest] eqn:Hq; [done|]. intros [= <- <-].
  eapply sig_ok_queues; [exact Hs|done..| |]; cbn [set_client client_heap].
  - intros c' Hc'. rewrite lookup_insert_ne; [done|]. intros <-. congruence.
  - intros c' y Hy. destruct (decide (c' = c)) as [->|Hne].
    + assert (y = x) as -> by congruence. exists rest. rewrite lookup_insert_eq. split; [done|]. intros r Hr Hl Hc Hxo.
      pose proof (rk_queue _ _ _ (so_room _ Hs _ r Hr) Hl c x Hc Hx Hxo) as Hb. rewrite Hq in Hb. cbn [length] in Hb. lia.
    + exists (csend y). rewrite lookup_insert_ne by done. split; [rewrite Hy; by destruct y|].
      intros r Hr Hl Hc Hyo. exact (rk_queue _ _ _ (so_room _ Hs _ r Hr) Hl c' y Hc Hy Hyo).
Qed.

Lemma empty_signals_ok : sig_ok empty_signals.
Proof. split; cbn [empty_signals rooms room_heap client_heap]; intros ? ?; by rewrite lookup_empty. Qed.

(** ** The server as a transition system *)

Section server.
Context `{CaseTables}.

Inductive signal_step : SignalServer → SignalServer → Prop :=
  | signal_join s t role reconnectToken protocol now ttl fresh out s' :
      joinWithRoleProtocol s t role reconnectToken protocol now ttl fresh = Ok (out, s') → signal_step s s'
  | signal_forward s from payload s' : forward s from payload = Ok s' → signal_step s s'
  | signal_leave s c : signal_step s (leave s c)
  | signal_cleanup s now s' : cleanup s now = Ok s' → signal_step s s'
  | signal_write s c m s' : write_next s c = Some (m, s') → signal_step s s'.

Lemma signal_step_ok s s' : signal_step s s' → sig_ok s → sig_ok s'.
Proof.
  intros [s0 t role tok pr now ttl fresh out s1 E|s0 from payload s1 E|s0 c|s0 now s1 E|s0 c m s1 E] Hs.
  - destruct (joinWithRoleProtocol_ok s0 t role tok pr now ttl fresh Hs) as (out' & s2 & E' & ?). congruence.
  - destruct (forward_ok s0 from payload Hs) as (s2 & E' & ?). congruence.
  - by apply leave_signal_ok.
  - destruct (cleanup_ok s0 now Hs) as (s2 & E' & ?). congruence.
  - by eapply write_next_ok.
Qed.
Lemma signal_reachable_ok s : rtc signal_step empty_signals s → sig_ok s.
Proof.
  assert (Hgen : ∀ a, sig_ok a → rtc signal_step a s → sig_ok s).
  { intros a Ha. induction 1 as [|x y z Hxy _ IH]; [done|]. apply IH. by eapply signal_step_ok. }
  apply Hgen, empty_signals_ok.
Qed.

(** C22: whatever clients have joined, sent, left or been expired before, the
    server answers the next request: it never sends on a closed channel, which
    would stop the whole process, and never waits on a full one while it holds the
    mutex; and a room holds one client while it is open and at most two once it is
    locked. *)
Theorem signaling_never_faults s :
  rtc signal_step empty_signals s →
  (∀ t role reconnectToken protocol now ttl fresh, ∃ out s', joinWithRoleProtocol s t role reconnectToken protocol now ttl fresh = Ok (out, s')) ∧
  (∀ from payload, ∃ s', forward s from payload = Ok s') ∧
  (∀ now, ∃ s', cleanup s now = Ok s') ∧
  ∀ p r, room_heap s !! p = Some r → (size (clients r) ≤ (if locked r then 2 else 1))%nat.
Proof.
  intros Hs%signal_reachable_ok. split_and!.
  - intros t role tok pr now ttl fresh. destruct (joinWithRoleProtocol_ok s t role tok pr now ttl fresh Hs) as (out & s' & ? & _). by exists out, s'.
  - intros from payload. destruct (forward_ok s from payload Hs) as (s' & ? & _). by exists s'.
  - intros now. destruct (cleanup_ok s now Hs) as (s' & ? & _). by exists s'.
  - intros p r Hp. exact (rk_size _ _ _ (so_room s Hs p r Hp)).
Qed.

(** Joining by name a room that has not expired. *)
Lemma open_room_found s t wanted now ttl p r :
  rooms s !! t = Some p → room_heap s !! p = Some r → now ≤ expires r → open_room s t wanted now ttl = Ok (p, r, s).
Proof.
  intros Ht Hp He. unfold open_room. rewrite Ht. cbn [mbind option_bind]. rewrite Hp. cbn [mbind option_bind].
  destruct (Z.gtb_spec now (expires r)); [lia|done].
Qed.

(** C23: a room in which two clients have met lets nobody else in: a join that
    succeeds there names a free role and gives the reconnect token that was issued
    to the client of that role, which is not empty; a client without a role never
    gets in. *)
Theorem locked_room_admits_token_holder s t p r role reconnectToken protocol_text now ttl fresh c s' :
  rtc signal_step empty_signals s → rooms s !! t = Some p → room_heap s !! p = Some r → locked r = true → now ≤ expires r →
  joinWithRoleProtocol s t role reconnectToken protocol_text now ttl fresh = Ok (Ok c, s') →
  isSignalRole role = true ∧ slots r !! role = None ∧ reconnectTokens r !! role = Some reconnectToken ∧ reconnectToken ≠ ""%string.
Proof.
  intros Hs%signal_reachable_ok Ht Hp Hlock He. unfold joinWithRoleProtocol.
  destruct (negb (String.eqb role "") && negb (isSignalRole role)) eqn:Hrole; [done|].
  destruct (NormalizeProtocol protocol_text) as [wanted|e]; [|done].
  rewrite (open_room_found s t wanted now ttl p r Ht Hp He). cbn [mbind result_bind].
  destruct (negb (String.eqb (protocol r) wanted)); [done|]. destruct (String.eqb_spec role "") as [|Hne].
  { unfold joinLegacyLocked. by rewrite Hlock. }
  cbn [negb andb] in Hrole. apply negb_false_iff in Hrole. rewrite Hlock.
  destruct (admit_locked s p r role reconnectToken) as [[r' s1]|e] eqn:Ha; [|done]. intros _. split; [done|].
  destruct (admit_locked_ok _ _ _ _ _ _ _ _ Hs Ht Hp Hrole Hlock Ha) as (_ & Htok & Hnonempty).
  unfold admit_locked in Ha. case_bool_decide as Hslot; [done|]. split; [destruct (slots r !! role); [by destruct Hslot|done]|].
  split; [|done]. unfold reconnect_token in Htok. destruct (reconnectTokens r !! role); cbn in Htok; congruence.
Qed.
End server.

(** ** Who receives what *)

Lemma offer_all_exact cs m s s' :
  NoDup cs → offer_all cs m s = Ok s' →
  rooms s' = rooms s ∧ room_heap s' = room_heap s ∧
  ∀ c, client_heap s' !! c =
    (x ← client_heap s !! c; Some (if bool_decide (c ∈ cs) && negb (queue_full x) then client_send x (csend x ++ [m]) else x)).
Proof.
  revert s. induction cs as [|c cs IH]; intros s Hnd; cbn [offer_all].
  { intros [= <-]. split; [done|]. split; [done|]. intros c. by destruct (client_heap s !! c). }
  apply NoDup_cons in Hnd as [Hnot Hnd]. unfold offer_signal.
  assert (Hout : ∀ c' b, c' ≠ c → bool_decide (c' ∈ c :: cs) && b = bool_decide (c' ∈ cs) && b).
  { intros c' b Hne. f_equal. apply bool_decide_ext. rewrite elem_of_cons. naive_solver. }
  destruct (client_heap s !! c) as [x|] eqn:Hx.
  2:{ cbn [mbind result_bind]. intros E%IH; [|done]. destruct E as (? & ? & E). split; [done|]. split; [done|]. intros c'.
      rewrite E. destruct (decide (c' = c)) as [->|Hne]; [by rewrite Hx|]. destruct (client_heap s !! c') as [y|]; [|done]. cbn. by rewrite Hout. }
  destruct (closed x); [done|]. destruct (queue_full x) eqn:Hq; cbn [mbind result_bind]; intros E%IH; try done;
    destruct E as (? & ? & E); (split; [done|]); (split; [done|]); intros c'; rewrite E; cbn [set_client client_heap];
    destruct (decide (c' = c)) as [->|Hne].
  - rewrite Hx. cbn. by rewrite Hq, !andb_false_r.
  - destruct (client_heap s !! c') as [y|]; [|done]. cbn. by rewrite Hout.
  - rewrite lookup_insert_eq, Hx. cbn. rewrite Hq, (bool_decide_eq_false_2 (c ∈ cs)) by done.
    rewrite bool_decide_eq_true_2 by by left. done.
  - rewrite lookup_insert_ne by done. destruct (client_heap s !! c') as [y|]; [|done]. cbn. by rewrite Hout.
Qed.

(** A message goes to the partner and to nobody else: forwarding changes the
    queues of the clients in the sender's own room only, each gets the message
    once, at the end of its queue, unless that queue is full; the sender's own
    queue and every client of another room are left as they were; and a client
    whose place was taken away by expiry or a reconnection reaches nobody. *)
Theorem forward_reaches_partner s from payload x r s' :
  client_heap s !! from = Some x → room_heap s !! croom x = Some r → forward s from payload = Ok s' →
  ∀ c, client_heap s' !! c =
    (y ← client_heap s !! c;
     Some (if bool_decide (c ∈ clients r) && bool_decide (c ≠ from) && bool_decide (from ∈ clients r) &&
              negb (closed x) && (cgeneration x =? generation r) && negb (queue_full y)
           then client_send y (csend y ++ [SignalPayload payload]) else y)).
Proof.
  intros Hx Hp. unfold forward. rewrite Hx, Hp. destruct (closed x).
  { intros [= <-] c. rewrite andb_false_r. by destruct (client_heap s !! c). }
  destruct (cgeneration x =? generation r); [|intros [= <-] c; rewrite andb_false_r; by destruct (client_heap s !! c)].
  destruct (bool_decide (from ∈ clients r)); [|intros [= <-] c; rewrite andb_false_r; by destruct (client_heap s !! c)].
  cbn [orb negb]. intros (_ & _ & E)%offer_all_exact c; [|apply NoDup_elements]. rewrite E. cbn [set_room client_heap].
  destruct (client_heap s !! c) as [y|]; [|done]. cbn [mbind option_bind]. rewrite !andb_true_r.
  assert (bool_decide (c ∈ elements (clients r ∖ {[from]})) = bool_decide (c ∈ clients r) && bool_decide (c ≠ from)) as ->; [|done].
  rewrite <- bool_decide_and. apply bool_decide_ext. set_solver.
Qed.

(** ** Runs *)

Inductive signal_op :=
  | OpJoin (t role reconnectToken protocol : string) (now ttl : Z) (fresh : option string)
  | OpForward (from : client_ptr) (payload : bytes)
  | OpLeave (c : client_ptr)
  | OpCleanup (now : Z).

Section runs.
Context `{CaseTables}.

Definition signal_act (o : signal_op) (s : SignalServer) : result fault (option (result signal_error client_ptr) * SignalServer) :=
  match o with
  | OpJoin t role tok pr now ttl fresh => '(out, s') ← joinWithRoleProtocol s t role tok pr now ttl fresh; Ok (Some out, s')
  | OpForward from payload => s' ← forward s from payload; Ok (None, s')
  | OpLeave c => Ok (None, leave s c)
  | OpCleanup now => s' ← cleanup s now; Ok (None, s')
  end.
Fixpoint signal_run (os : list signal_op) (s : SignalServer) : result fault (list (result signal_error client_ptr) * SignalServer) :=
  match os with
  | [] => Ok ([], s)
  | o :: os => '(out, s) ← signal_act o s; '(outs, s) ← signal_run os s; Ok ((match out with Some x => [x] | None => [] end) ++ outs, s)
  end.

Lemma signal_act_step o s out s' : signal_act o s = Ok (out, s') → signal_step s s'.
Proof.
  destruct o as [t role tok pr now ttl fresh|from payload|c|now]; cbn [signal_act]; intros E.
  - apply bind_Ok_inv in E as ([r1 s1] & E & [= <- <-]). by eapply signal_join.
  - apply bind_Ok_inv in E as (s1 & E & [= <- <-]). by eapply signal_forward.
  - injection E as <- <-. apply signal_leave.
  - apply bind_Ok_inv in E as (s1 & E & [= <- <-]). by eapply signal_cleanup.
Qed.
Lemma signal_run_reach os s outs s' : signal_run os s = Ok (outs, s') → rtc signal_step s s'.
Proof.
  revert s outs. induction os as [|o os IH]; intros s outs; cbn [signal_run]; [by intros [= <- <-]|].
  intros ([out s1] & E1 & ([outs2 s2] & E2 & [= <- <-])%bind_Ok_inv)%bind_Ok_inv.
  eapply rtc_l; [by eapply signal_act_step|by eapply IH].
Qed.
End runs.

(** A sender and a receiver meet and exchange a message; the receiver leaves. *)
Definition demo_ops : list signal_op :=
  [OpJoin "t" "sender" "" "" 0 100 (Some "S"%string); OpJoin "t" "receiver" "" "" 1 100 (Some "R"%string);
   OpForward 1%nat []; OpLeave 2%nat].
Definition demo_rooms : SignalServer :=
  match signal_run (H:=ascii_tables) demo_ops empty_signals with Ok (_, s) => s | Err _ => empty_signals end.
Lemma demo_rooms_reached : rtc (signal_step (H:=ascii_tables)) empty_signals demo_rooms.
Proof.
  unfold demo_rooms. destruct (signal_run (H:=ascii_tables) demo_ops empty_signals) as [[outs s]|] eqn:E; [|apply rtc_refl].
  exact (signal_run_reach (H:=ascii_tables) _ _ _ _ E).
Qed.

Lemma signaling_never_faults_witness : ∃ s', cleanup demo_rooms 200 = Ok s'.
Proof. destruct (signaling_never_faults (H:=ascii_tables) demo_rooms demo_rooms_reached) as (_ & _ & Hc & _). apply Hc. Defined.

Definition room_at (s : SignalServer) (p : room_ptr) : room := default (MkRoom "" "" 0 false ∅ ∅ ∅ false 0 false []) (room_heap s !! p).

Lemma locked_room_admits_token_holder_witness :
  isSignalRole "receiver" = true ∧ slots (room_at demo_rooms 0%nat) !! "receiver"%string = None ∧
  reconnectTokens (room_at demo_rooms 0%nat) !! "receiver"%string = Some "R"%string ∧ "R"%string ≠ ""%string.
Proof.
  apply (locked_room_admits_token_holder (H:=ascii_tables) demo_rooms "t" 0%nat (room_at demo_rooms 0%nat) "receiver" "R" "" 50 100 None
    (match joinWithRoleProtocol (H:=ascii_tables) demo_rooms "t" "receiver" "R" "" 50 100 None with Ok (Ok c, _) => c | _ => 0%nat end)
    (match joinWithRoleProtocol (H:=ascii_tables) demo_rooms "t" "receiver" "R" "" 50 100 None with Ok (_, s) => s | _ => demo_rooms end)
    demo_rooms_reached); vm_compute; first [reflexivity | discriminate].
Defined.

Definition demo_sender : client_ptr := 1%nat.
Definition demo_receiver : client_ptr := 2%nat.
Definition demo_pair : SignalServer :=
  match signal_run (H:=ascii_tables) (take 2 demo_ops) empty_signals with Ok (_, s) => s | Err _ => empty_signals end.
Definition client_at (s : SignalServer) (c : client_ptr) : client := default (MkClient 0%nat [] "" false 0 true) (client_heap s !! c).
Definition forwarded (s : SignalServer) (c : client_ptr) : SignalServer := match forward s c [] with Ok s' => s' | Err _ => s end.
Lemma forward_reaches_partner_witness :
  ∃ y, client_heap demo_pair !! demo_receiver = Some y ∧ client_heap (forwarded demo_pair demo_sender) !! demo_receiver = Some (client_send y (csend y ++ [SignalPayload []])).
Proof.
  assert (Hx : client_heap demo_pair !! demo_sender = Some (client_at demo_pair demo_sender)) by (vm_compute; reflexivity).
  assert (Hp : room_heap demo_pair !! croom (client_at demo_pair demo_sender) = Some (room_at demo_pair 0%nat)) by (vm_compute; reflexivity).
  assert (Hf : forward demo_pair demo_sender [] = Ok (forwarded demo_pair demo_sender)) by (vm_compute; reflexivity).
  assert (Hy : client_heap demo_pair !! demo_receiver = Some (client_at demo_pair demo_receiver)) by (vm_compute; reflexivity).
  exists (client_at demo_pair demo_receiver). split; [exact Hy|].
  pose proof (forward_reaches_partner demo_pair demo_sender [] (client_at demo_pair demo_sender) (room_at demo_pair 0%nat) _ Hx Hp Hf demo_receiver) as E.
  rewrite Hy in E. exact E.
Defined.

(** ** A client of an expired room takes the name of the next one with it

    [leave] gives up the room's name without looking whether the name still leads
    to that room.  A sender waits until its room expires; another client joins
    under the same token and gets a new room; the first sender's connection ends,
    and the name is gone: the partner of the second client gets a third room. *)
Definition stale_ops (stale : list signal_op) : list signal_op :=
  [OpJoin "t" "sender" "" "" 0 100 (Some "S"%string); OpJoin "t" "sender" "" "" 101 100 (Some "S2"%string)] ++ stale ++
  [OpJoin "t" "receiver" "" "" 102 100 (Some "R"%string)].
Definition stale_rooms (stale : list signal_op) : option (room_ptr * room_ptr) :=
  match signal_run (H:=ascii_tables) (stale_ops stale) empty_signals with
  | Ok ([Ok _; Ok second; Ok third], s) => Some (croom (client_at s second), croom (client_at s third))
  | _ => None
  end.
Example leave_takes_the_name :
  stale_rooms [OpLeave 1%nat] = Some (2%nat, 4%nat) ∧ stale_rooms [] = Some (2%nat, 2%nat).
Proof. vm_compute. done. Qed.
