(* ===== verification/RelayServer.v ===== *)
(** * The native relay ([internal/relay/relay.go])

    Clients that name the same room token and connection index are paired, told
    what the other advertised, and from then on each gets the frames the other
    sends.  The waiting rooms are the server's state; connections with what was
    sent on them are the world around it.  The theorems: a connection is paired
    with at most one other, of the opposite role and the very same room token and
    index; what a paired connection receives is a prefix of what its partner sent;
    a client is told of its partner exactly what the partner advertised, cleaned
    up; and after a clean-up no client has been waiting longer than the limit. *)
From Stdlib Require Import ZArith Lia Ascii String.
From stdpp Require Import base tactics numbers list gmap strings relations.
From S2P Require Import Prelude GoStrings NoteServer RelayCredential Rendezvous Netip DirectCandidate Negotiation.

Definition CapabilityRouteChoiceV1 : string := "route-choice-v1".
Definition CapabilityBidirectionalDirectV1 : string := "bidirectional-direct-v1".
Definition CapabilityUDPPunchV1 : string := "udp-punch-v1".
Definition CapabilityLANUpgradeV1 : string := "lan-upgrade-v1".
Definition DirectPreferencePrefer : string := "prefer-direct".
Definition DirectPreferenceRelay : string := "prefer-relay".

Record joinMessage := MkJoin {
  JType : string;
  RoomToken : string;
  Role : string;
  ConnectionIndex : Z;
  JConnectionCount : Z;
  Pass : string;
  JDirect : string;
  DirectCandidates : list string;
  DirectCandidateMetadata : list Candidate;
  JUDPCandidates : list string;
  Capabilities : list string;
  JDirectPreference : string;
}.

Record statusMessage := MkStatus {
  SType : string;
  SError : string;
  PublicAddress : string;
  SPunchAtMillis : Z;
  PeerConnectionCount : Z;
  PeerDirect : string;
  PeerDirectCandidates : list string;
  PeerDirectCandidateMetadata : list Candidate;
  PeerUDPCandidates : list string;
  PeerCapabilities : list string;
  PeerDirectPreference : string;
}.
#[export] Instance statusMessage_eq_dec : EqDecision statusMessage.
Proof. solve_decision. Defined.

Definition error_status (text : string) : statusMessage := MkStatus "error" text "" 0 0 "" [] [] [] [] "".
Definition observed_status (address : string) : statusMessage := MkStatus "punch_observed" "" address 0 0 "" [] [] [] [] "".

(** ** What a client advertises *)

Definition validRole (role : string) : bool := String.eqb role "sender" || String.eqb role "receiver".

(** [add] of [normalizeDirectCandidates]. *)
Definition add_candidate (out : list string) (candidate : string) : list string :=
  if (Z.of_nat (length out) >=? MaxCandidates) || String.eqb candidate "" then out
  else if negb (is_ok (ValidateAddress candidate)) then out
  else if containsString out candidate then out
  else out ++ [candidate].
Definition normalizeDirectCandidates (legacy : string) (candidates : list string) : list string :=
  foldl add_candidate (add_candidate [] legacy) candidates.

Definition add_metadata (known : list string) (out : list Candidate) (candidate : Candidate) : list Candidate :=
  if (Z.of_nat (length out) >=? MaxCandidates) || negb (is_ok (Validate candidate)) then out
  else if negb (containsString known (Address candidate)) then out
  else if containsString (Address <$> out) (Address candidate) then out
  else out ++ [candidate].
Definition normalizeDirectCandidateMetadata (candidates : list string) (metadata : list Candidate) : list Candidate :=
  foldl (add_metadata candidates) [] metadata.

Definition firstCandidate (candidates : list string) : string := default ""%string (head candidates).

Definition maxCapabilities : Z := 16.
Definition maxCapabilityLength : Z := 64.
Definition add_capability (out : list string) (capability : string) : list string :=
  if String.eqb capability "" || (str_len capability >? maxCapabilityLength) || (Z.of_nat (length out) >=? maxCapabilities) then out
  else if containsString out capability then out
  else out ++ [capability].
Definition normalizeCapabilities (capabilities : list string) : list string := foldl add_capability [] capabilities.

Definition hasCapability (capabilities : list string) (target : string) : bool := containsString capabilities target.

Definition normalizeDirectPreference (preference : string) : string :=
  if String.eqb preference DirectPreferencePrefer || String.eqb preference DirectPreferenceRelay then preference else "".

Definition normalizedRelayConnectionCount (count : Z) : Z := if count <=? 0 then 1 else count.

Definition roomKey (token : string) (connectionIndex : Z) : string := token +:+ ":" +:+ Itoa connectionIndex.

(** ** The server *)

Definition conn_id := nat.

(** A joined client; [c_token] is the room token it named, which the server keeps
    only inside the key [croom_key]. *)
Record rclient := MkRClient {
  c_conn : conn_id;
  c_role : string;
  croom_key : string;
  c_token : string;
  c_index : Z;
  c_count : Z;
  c_direct : string;
  c_candidates : list string;
  c_metadata : list Candidate;
  c_udp : list string;
  c_capabilities : list string;
  c_preference : string;
}.

Record rroom := MkRRoom { r_sender : option rclient; r_receiver : option rclient; r_created : Z }.

Record relayConfig := MkRelayConfig { waitTTL : Z; relay_pass : string; tokenSecret : string }.

Inductive relay_error := InvalidJoin | PasswordRequired | AlreadyWaitingRole (role : string).
Definition relay_error_text (e : relay_error) : string :=
  match e with
  | InvalidJoin => "invalid join"
  | PasswordRequired => "relay password required"
  | AlreadyWaitingRole role => role +:+ " already waiting"
  end.

Definition authorize `{Hmac} (cfg : relayConfig) (roomToken credential : string) (now : Z) : bool :=
  if String.eqb (relay_pass cfg) "" && String.eqb (tokenSecret cfg) "" then true
  else if negb (String.eqb (relay_pass cfg) "") && String.eqb credential (relay_pass cfg) then true
  else ValidateCredential (tokenSecret cfg) roomToken credential now.

(** Whose place a client takes in its room, and whose it looks for. *)
Definition takePeer (waiting : gmap string rroom) (c : rclient) (now : Z) : result relay_error (option rclient) * gmap string rroom :=
  let r := default (MkRRoom None None now) (waiting !! croom_key c) in
  let waiting := <[croom_key c := r]> waiting in
  if String.eqb (c_role c) "sender" then
    match r_receiver r, r_sender r with
    | Some peer, _ => (Ok (Some peer), delete (croom_key c) waiting)
    | None, Some _ => (Err (AlreadyWaitingRole "sender"), waiting)
    | None, None => (Ok None, <[croom_key c := MkRRoom (Some c) None (r_created r)]> waiting)
    end
  else if String.eqb (c_role c) "receiver" then
    match r_sender r, r_receiver r with
    | Some peer, _ => (Ok (Some peer), delete (croom_key c) waiting)
    | None, Some _ => (Err (AlreadyWaitingRole "receiver"), waiting)
    | None, None => (Ok None, <[croom_key c := MkRRoom None (Some c) (r_created r)]> waiting)
    end
  else (Ok None, waiting).

Definition directPunchAtMillis (left right : rclient) (now : Z) : Z :=
  if negb (c_index left =? 0) || negb (c_index right =? 0)
     || Nat.eqb (length (c_candidates left)) 0 || Nat.eqb (length (c_candidates right)) 0
     || negb (hasCapability (c_capabilities left) CapabilityBidirectionalDirectV1)
     || negb (hasCapability (c_capabilities right) CapabilityBidirectionalDirectV1)
  then 0 else UnixMilli (now + 150 * millisecond).

Definition ready_status (punchAtMillis : Z) (peer : rclient) : statusMessage :=
  MkStatus "ready" "" "" punchAtMillis (c_count peer) (c_direct peer) (c_candidates peer) (c_metadata peer) (c_udp peer)
    (c_capabilities peer) (c_preference peer).

(** The client a valid join describes. *)
Definition join_count (join : joinMessage) : Z := if JConnectionCount join =? 0 then 1 else JConnectionCount join.
Definition join_valid (join : joinMessage) : bool :=
  String.eqb (JType join) "join" && negb (String.eqb (RoomToken join) "") && validRole (Role join)
  && negb (join_count join <? 1) && negb (join_count join >? 8)
  && negb (ConnectionIndex join <? 0) && negb (ConnectionIndex join >=? join_count join).
Definition join_client (conn : conn_id) (join : joinMessage) : rclient :=
  let candidates := normalizeDirectCandidates (JDirect join) (DirectCandidates join) in
  let capabilities := normalizeCapabilities (Capabilities join) in
  let udp := if hasCapability capabilities CapabilityUDPPunchV1 then normalizeDirectCandidates "" (JUDPCandidates join) else [] in
  MkRClient conn (Role join) (roomKey (RoomToken join) (ConnectionIndex join)) (RoomToken join) (ConnectionIndex join) (join_count join)
    (firstCandidate candidates) candidates (normalizeDirectCandidateMetadata candidates (DirectCandidateMetadata join)) udp capabilities
    (normalizeDirectPreference (JDirectPreference join)).

(** ** The world: connections and what was sent on them *)

Inductive sent := Status (s : statusMessage) | Payload (p : bytes).

(** [k_in]: frames the client sent that the relay has not read; [k_sent]: all it
    sent after its join; [k_out]: what the relay sent to it. *)
Record connection := MkConn { k_in : list bytes; k_sent : list bytes; k_out : list sent; k_closed : bool; k_piped : option conn_id }.

Record world := MkWorld { waiting : gmap string rroom; conns : gmap conn_id connection; ever : gmap conn_id rclient }.

Definition upd (w : world) (k : conn_id) (f : connection → connection) : world :=
  MkWorld (waiting w) (alter f k (conns w)) (ever w).
Definition with_waiting (w : world) (ws : gmap string rroom) : world := MkWorld ws (conns w) (ever w).
Definition send_status (s : statusMessage) (k : connection) : connection :=
  MkConn (k_in k) (k_sent k) (k_out k ++ [Status s]) (k_closed k) (k_piped k).
Definition close_conn (k : connection) : connection := MkConn (k_in k) (k_sent k) (k_out k) true (k_piped k).
Definition pipe_to (d : conn_id) (k : connection) : connection := MkConn (k_in k) (k_sent k) (k_out k) (k_closed k) (Some d).

Section relay.
Context `{Hmac} (cfg : relayConfig).

Definition refuse (w : world) (k : conn_id) (text : string) : world := upd (upd w k (send_status (error_status text))) k close_conn.

(** [handle] of a connection whose join message has been read. *)
Definition handle_join (w : world) (k : conn_id) (join : joinMessage) (now : Z) : world :=
  if negb (join_valid join) then refuse w k (relay_error_text InvalidJoin)
  else if negb (authorize cfg (RoomToken join) (Pass join) now) then refuse w k (relay_error_text PasswordRequired)
  else
    let c := join_client k join in
    match takePeer (waiting w) c now with
    | (Err e, ws) => refuse (with_waiting w ws) k (relay_error_text e)
    | (Ok None, ws) => MkWorld ws (conns w) (<[k := c]> (ever w))
    | (Ok (Some peer), ws) =>
        let punchAtMillis := directPunchAtMillis c peer now in
        let w := MkWorld ws (conns w) (<[k := c]> (ever w)) in
        let w := upd w k (send_status (ready_status punchAtMillis peer)) in
        let w := upd w (c_conn peer) (send_status (ready_status punchAtMillis c)) in
        upd (upd w k (pipe_to (c_conn peer))) (c_conn peer) (pipe_to k)
    end.

(** [handlePublicProbe]: the address the relay sees is sent back. *)
Definition handlePublicProbe (w : world) (k : conn_id) (probe : joinMessage) (address : string) (now : Z) : world :=
  if String.eqb (RoomToken probe) "" || negb (validRole (Role probe)) then refuse w k "invalid punch probe"
  else if negb (authorize cfg (RoomToken probe) (Pass probe) now) then refuse w k (relay_error_text PasswordRequired)
  else if negb (is_ok (ValidateAddress address)) then refuse w k "invalid observed public address"
  else upd (upd w k (send_status (observed_status address))) k close_conn.

Definition handle (w : world) (k : conn_id) (join : joinMessage) (address : string) (now : Z) : world :=
  if String.eqb (JType join) "punch_probe" then handlePublicProbe w k join address now else handle_join w k join now.

(** The rooms whose time is up, and the clients that waited in them. *)
Definition room_expired (now : Z) (r : rroom) : bool := negb (now - r_created r <? waitTTL cfg).
Definition room_clients (r : rroom) : list rclient := option_list (r_sender r) ++ option_list (r_receiver r).
Definition expire_client (w : world) (c : rclient) : world := refuse w (c_conn c) "relay room expired".
Definition cleanupExpired (w : world) (now : Z) : world :=
  let expired := filter (fun r => room_expired now r = true) ((map_to_list (waiting w)).*2) in
  let ws := filter (fun kr : string * rroom => room_expired now kr.2 = false) (waiting w) in
  foldl expire_client (with_waiting w ws) (expired ≫= room_clients).

(** One turn of [pipe]: a frame is read from one end and sent to the other. *)
Definition pipe_frame (w : world) (k : conn_id) : option world :=
  x ← conns w !! k;
  d ← k_piped x;
  y ← conns w !! d;
  if k_closed x || k_closed y then None
  else match k_in x with
       | [] => None
       | p :: rest =>
           Some (upd (upd w k (fun x => MkConn rest (k_sent x) (k_out x) (k_closed x) (k_piped x)))
                   d (fun y => MkConn (k_in y) (k_sent y) (k_out y ++ [Payload p]) (k_closed y) (k_piped y)))
       end.

Inductive relay_step (w : world) : world → Prop :=
  | step_handle k join address now :
      conns w !! k = None →
      relay_step w (handle (MkWorld (waiting w) (<[k := MkConn [] [] [] false None]> (conns w)) (ever w)) k join address now)
  | step_client_sends k p : relay_step w (upd w k (fun x => MkConn (k_in x ++ [p]) (k_sent x ++ [p]) (k_out x) (k_closed x) (k_piped x)))
  | step_pipe k w' : pipe_frame w k = Some w' → relay_step w w'
  | step_close k x d : conns w !! k = Some x → k_piped x = Some d → relay_step w (upd (upd w k close_conn) d close_conn)
  | step_cleanup now : relay_step w (cleanupExpired w now).
Definition empty_relay : world := MkWorld ∅ ∅ ∅.
End relay.

(** ** The invariant *)

Definition opposite_role (role : string) : string := if String.eqb role "sender" then "receiver" else "sender".

(** A client waits in its room on a connection nothing was sent on. *)
Definition waits (w : world) (c : rclient) : Prop :=
  ever w !! c_conn c = Some c ∧ ∃ x, conns w !! c_conn c = Some x ∧ k_piped x = None ∧ k_closed x = false ∧ k_out x = [].

(** One client waits in a room, at the place of its role. *)
Definition room_holds (r : rroom) (c : rclient) : Prop :=
  (c_role c = "sender"%string ∧ r_sender r = Some c ∧ r_receiver r = None) ∨
  (c_role c = "receiver"%string ∧ r_sender r = None ∧ r_receiver r = Some c).

(** Two connections are each other's partners, and each got the other's
    advertisement followed by the frames of the other, in order. *)
Record partners (w : world) (k d : conn_id) (x y : connection) (c c' : rclient) (punch : Z) (ps qs : list bytes) : Prop := {
  pt_conn : conns w !! k = Some x;
  pt_peer : conns w !! d = Some y;
  pt_ne : k ≠ d;
  pt_piped : k_piped x = Some d;
  pt_back : k_piped y = Some k;
  pt_client : ever w !! k = Some c;
  pt_partner : ever w !! d = Some c';
  pt_key : croom_key c = croom_key c';
  pt_role : c_role c' = opposite_role (c_role c);
  pt_out : k_out x = Status (ready_status punch c') :: (Payload <$> ps);
  pt_out_peer : k_out y = Status (ready_status punch c) :: (Payload <$> qs);
  pt_stream : k_sent y = ps ++ k_in y;
  pt_stream_peer : k_sent x = qs ++ k_in x;
}.

Definition is_payload (m : sent) : bool := match m with Payload _ => true | Status _ => false end.

Record relay_ok (w : world) : Prop := {
  ro_room : ∀ key r, waiting w !! key = Some r → ∃ c, room_holds r c ∧ croom_key c = key ∧ waits w c;
  ro_ever : ∀ k c, ever w !! k = Some c → c_conn c = k ∧ croom_key c = roomKey (c_token c) (c_index c) ∧
    0 ≤ c_index c < 8 ∧ validRole (c_role c) = true ∧ is_Some (conns w !! k);
  ro_piped : ∀ k x d, conns w !! k = Some x → k_piped x = Some d →
    ∃ y c c' punch ps qs, partners w k d x y c c' punch ps qs;
  ro_alone : ∀ k x, conns w !! k = Some x → k_piped x = None → Forall (λ m, is_payload m = false) (k_out x) ∧ k_sent x = k_in x;
}.

Lemma partners_sym w k d x y c c' punch ps qs :
  validRole (c_role c) = true → partners w k d x y c c' punch ps qs → partners w d k y x c' c punch qs ps.
Proof.
  intros Hr []. split; try done. rewrite pt_role0. unfold validRole, opposite_role in *.
  destruct (String.eqb_spec (c_role c) "sender") as [->|]; [done|]. cbn in Hr. apply String.eqb_eq in Hr as ->. done.
Qed.

Lemma empty_relay_ok : relay_ok empty_relay.
Proof. split; cbn; intros ? ?; by rewrite lookup_empty. Qed.

Lemma conns_upd w k f j : conns (upd w k f) !! j = if decide (j = k) then f <$> conns w !! k else conns w !! j.
Proof. cbn. destruct (decide (j = k)) as [->|Hne]; [by rewrite lookup_alter_eq|by rewrite lookup_alter_ne]. Qed.

(** Rooms may disappear. *)
Lemma waiting_sub_ok w ws : relay_ok w → (∀ key r, ws !! key = Some r → waiting w !! key = Some r) → relay_ok (with_waiting w ws).
Proof.
  intros [R1 R2 R3 R4] Hsub. split; [intros key r Hk; by apply R1, Hsub|exact R2| |exact R4].
  intros k x d Hx Hd. destruct (R3 k x d Hx Hd) as (y & c & c' & punch & ps & qs & []). by exists y, c, c', punch, ps, qs.
Qed.

(** What a client does to its own connection, and closing a paired one. *)
Lemma upd_own_ok w k f :
  relay_ok w →
  (∀ x, conns w !! k = Some x → k_piped (f x) = k_piped x ∧ k_out (f x) = k_out x ∧
     (k_closed (f x) = k_closed x ∨ is_Some (k_piped x)) ∧ ∃ l, k_sent (f x) = k_sent x ++ l ∧ k_in (f x) = k_in x ++ l) →
  relay_ok (upd w k f).
Proof.
  intros [R1 R2 R3 R4] Hf.
  assert (Hl : ∀ j x, conns w !! j = Some x → ∃ x', conns (upd w k f) !! j = Some x' ∧ k_piped x' = k_piped x ∧ k_out x' = k_out x ∧
     (k_closed x' = k_closed x ∨ is_Some (k_piped x)) ∧ ∃ l, k_sent x' = k_sent x ++ l ∧ k_in x' = k_in x ++ l).
  { intros j x Hx. rewrite conns_upd. destruct (decide (j = k)) as [->|]; [rewrite Hx; exists (f x); split; [done|by apply Hf]|].
    exists x. split_and!; try done; [by left|]. exists []. by rewrite !app_nil_r. }
  assert (Hb : ∀ j x', conns (upd w k f) !! j = Some x' → ∃ x, conns w !! j = Some x).
  { intros j x'. rewrite conns_upd. destruct (decide (j = k)) as [->|]; [|by eexists]. destruct (conns w !! k); [by eexists|done]. }
  split; cbn [upd waiting ever].
  - intros key r Hk. destruct (R1 key r Hk) as (c & Hh & Hkey & He & x & Hx & Hp & Hc & Ho). exists c. split; [done|]. split; [done|]. split; [done|].
    destruct (Hl _ x Hx) as (x' & Hx' & Ep & Eo & Ec & _). exists x'. split; [done|].
    destruct Ec as [Ec|[d Hd]]; [|congruence]. split_and!; congruence.
  - intros j c Hc. destruct (R2 j c Hc) as (? & ? & [? ?] & ? & [x Hx]). destruct (Hl j x Hx) as (x' & Hx' & _). split_and!; [done..|]. exists x'. exact Hx'.
  - intros j x' d Hx' Hd. destruct (Hb j x' Hx') as [x Hx]. destruct (Hl j x Hx) as (x2 & Hx2 & Ep & Eo & _ & l & Es & Ei).
    assert (x2 = x') as -> by congruence. rewrite Ep in Hd.
    destruct (R3 j x d Hx Hd) as (y & c & c' & punch & ps & qs & []). destruct (Hl d y pt_peer0) as (y' & Hy' & Fp & Fo & _ & l' & Fs & Fi).
    exists y', c, c', punch, ps, qs. split; try done; try congruence.
    + by rewrite Fs, Fi, pt_stream0, <- (assoc_L (++)).
    + by rewrite Es, Ei, pt_stream_peer0, <- (assoc_L (++)).
  - intros j x' Hx' Hn. destruct (Hb j x' Hx') as [x Hx]. destruct (Hl j x Hx) as (x2 & Hx2 & Ep & Eo & _ & l & Es & Ei).
    assert (x2 = x') as -> by congruence. destruct (R4 j x Hx) as [? E]; [congruence|]. rewrite Eo, Es, Ei, E. done.
Qed.

(** An error for a connection that is neither paired nor waiting. *)
Definition waiting_on (w : world) (k : conn_id) : Prop := ∃ key r c, waiting w !! key = Some r ∧ room_holds r c ∧ c_conn c = k.
Lemma upd_alone_ok w k f x :
  relay_ok w → conns w !! k = Some x → k_piped x = None → ¬ waiting_on w k →
  k_piped (f x) = None → k_sent (f x) = k_in (f x) → Forall (λ m, is_payload m = false) (k_out (f x)) → relay_ok (upd w k f).
Proof.
  intros [R1 R2 R3 R4] Hx Hp Hw Hfp Hfs Hfo.
  assert (Hne : ∀ j d z, conns w !! j = Some z → k_piped z = Some d → j ≠ k) by (intros j d z Hz Hd ->; congruence).
  split; cbn [upd waiting ever].
  - intros key r Hk. destruct (R1 key r Hk) as (c & Hh & Hkey & He & z & Hz & ?). exists c. split; [done|]. split; [done|]. split; [done|].
    exists z. rewrite conns_upd. destruct (decide (c_conn c = k)) as [E|]; [|done]. destruct Hw. by exists key, r, c.
  - intros j c Hc. destruct (R2 j c Hc) as (? & ? & [? ?] & ? & Hs). split_and!; try done. rewrite conns_upd.
    destruct (decide (j = k)) as [->|]; [rewrite Hx; by eexists|done].
  - intros j z d. rewrite conns_upd. destruct (decide (j = k)) as [->|Hj]; [rewrite Hx; intros [= <-]; congruence|].
    intros Hz Hd. destruct (R3 j z d Hz Hd) as (y & c & c' & punch & ps & qs & []). exists y, c, c', punch, ps, qs.
    split; try done; rewrite conns_upd; (rewrite decide_False; [done|]); [done|by eapply Hne].
  - intros j z. rewrite conns_upd. destruct (decide (j = k)) as [->|Hj]; [rewrite Hx; by intros [= <-]|]. apply R4.
Qed.
Lemma refuse_ok w k x text :
  relay_ok w → conns w !! k = Some x → k_piped x = None → ¬ waiting_on w k → relay_ok (refuse w k text) ∧
  conns (refuse w k text) !! k = Some (close_conn (send_status (error_status text) x)).
Proof.
  intros Hw Hx Hp Hn. destruct (ro_alone w Hw k x Hx Hp) as [Ha Es]. split.
  - assert (relay_ok (upd w k (send_status (error_status text)))) as Hw1.
    { eapply upd_alone_ok; try done. apply Forall_app_2; [done|]. by apply Forall_singleton. }
    unfold refuse. eapply (upd_alone_ok _ k _ (send_status (error_status text) x)); try done.
    + rewrite conns_upd, decide_True by done. by rewrite Hx.
    + apply Forall_app_2; [done|]. by apply Forall_singleton.
  - unfold refuse. rewrite !conns_upd, !decide_True by done. by rewrite Hx.
Qed.

(** ** A connection arrives *)

Lemma validRole_cases role : validRole role = true → role = "sender"%string ∨ role = "receiver"%string.
Proof. unfold validRole. intros [->%String.eqb_eq| ->%String.eqb_eq]%orb_prop; [by left|by right]. Qed.

Lemma waiting_on_ever w k : relay_ok w → ever w !! k = None → ¬ waiting_on w k.
Proof.
  intros Hw Hk (key & r & c & Hr & Hh & <-). destruct (ro_room w Hw key r Hr) as (c0 & Hh0 & _ & He & _).
  assert (c0 = c) as ->; [|congruence]. destruct Hh as [(_ & ? & ?)|(_ & ? & ?)], Hh0 as [(_ & ? & ?)|(_ & ? & ?)]; congruence.
Qed.

Definition accept (w : world) (k : conn_id) : world := MkWorld (waiting w) (<[k := MkConn [] [] [] false None]> (conns w)) (ever w).
Lemma accept_ok w k : relay_ok w → conns w !! k = None → relay_ok (accept w k) ∧ ever w !! k = None.
Proof.
  intros [R1 R2 R3 R4] Hk.
  assert (Hold : ∀ j x, conns w !! j = Some x → <[k := MkConn [] [] [] false None]> (conns w) !! j = Some x).
  { intros j x Hx. rewrite lookup_insert_ne; [done|]. intros <-. congruence. }
  split.
  2:{ destruct (ever w !! k) as [c|] eqn:E; [|done]. destruct (R2 k c E) as (_ & _ & _ & _ & [x Hx]). congruence. }
  split; cbn [accept waiting conns ever].
  - intros key r Hr. destruct (R1 key r Hr) as (c & ? & ? & He & x & Hx & ?). exists c. split; [done|]. split; [done|]. split; [done|].
    exists x. split; [by apply Hold|done].
  - intros j c Hc. destruct (R2 j c Hc) as (? & ? & [? ?] & ? & [x Hx]). split_and!; [done..|]. exists x. by apply Hold.
  - intros j x d Hx Hd. apply lookup_insert_Some in Hx as [[<- <-]|[Hne Hx]]; [done|].
    destruct (R3 j x d Hx Hd) as (y & c & c' & punch & ps & qs & []). exists y, c, c', punch, ps, qs. split; try done; by apply Hold.
  - intros j x Hx Hn. apply lookup_insert_Some in Hx as [[<- <-]|[Hne Hx]]; [by split|]. by eapply R4.
Qed.

(** What [takePeer] finds in a room with one client. *)
Lemma takePeer_spec w c now res ws :
  relay_ok w → validRole (c_role c) = true → takePeer (waiting w) c now = (res, ws) →
  match res with
  | Err e => e = AlreadyWaitingRole (c_role c) ∧ ws = waiting w
  | Ok None => waiting w !! croom_key c = None ∧ ∃ r, room_holds r c ∧ r_created r = now ∧ ws = <[croom_key c := r]> (waiting w)
  | Ok (Some peer) => ws = delete (croom_key c) (waiting w) ∧ c_role peer = opposite_role (c_role c) ∧
      ∃ r, waiting w !! croom_key c = Some r ∧ room_holds r peer
  end.
Proof.
  intros Hw Hrole. unfold takePeer. destruct (waiting w !! croom_key c) as [r|] eqn:Hr.
  - destruct (ro_room w Hw _ r Hr) as (c0 & Hh & _). cbn [default from_option id].
    destruct (validRole_cases _ Hrole) as [E|E]; rewrite E; cbn [String.eqb Ascii.eqb Bool.eqb opposite_role];
      destruct Hh as [(Hc0 & Hs & Ht)|(Hc0 & Hs & Ht)]; rewrite ?Ht, ?Hs; intros [= <- <-].
    + split; [done|]. by rewrite insert_id.
    + split; [by rewrite delete_insert_eq|]. split; [done|]. exists r. split; [done|]. by right.
    + split; [by rewrite delete_insert_eq|]. split; [done|]. exists r. split; [done|]. by left.
    + split; [done|]. by rewrite insert_id.
  - cbn [default from_option id r_sender r_receiver r_created].
    destruct (validRole_cases _ Hrole) as [E|E]; rewrite E; cbn [String.eqb Ascii.eqb Bool.eqb]; intros [= <- <-]; (split; [done|]).
    + exists (MkRRoom (Some c) None now). split; [by left|]. split; [done|]. by rewrite insert_insert_eq.
    + exists (MkRRoom None (Some c) now). split; [by right|]. split; [done|]. by rewrite insert_insert_eq.
Qed.

Section arrival.
Context `{Hmac} (cfg : relayConfig).

Lemma join_valid_inv join : join_valid join = true → RoomToken join ≠ ""%string ∧ validRole (Role join) = true ∧
  0 ≤ ConnectionIndex join < join_count join ∧ 1 ≤ join_count join ≤ 8.
Proof.
  unfold join_valid. rewrite !andb_true_iff, !negb_true_iff. intros [[[[[[_ Ht] Hr] H1] H8] Hi] Hc].
  apply String.eqb_neq in Ht. rewrite Z.gtb_ltb in H8. rewrite Z.geb_leb in Hc. apply Z.ltb_ge in H1, H8, Hi. apply Z.leb_gt in Hc.
  split_and!; try done; lia.
Qed.

(** A client that waits. *)
Lemma wait_ok w k c r :
  relay_ok w → conns w !! k = Some (MkConn [] [] [] false None) → ever w !! k = None → c_conn c = k →
  croom_key c = roomKey (c_token c) (c_index c) → 0 ≤ c_index c < 8 → validRole (c_role c) = true →
  room_holds r c → relay_ok (MkWorld (<[croom_key c := r]> (waiting w)) (conns w) (<[k := c]> (ever w))).
Proof.
  intros [R1 R2 R3 R4] Hk He Hc Hkey Hi Hrole Hh.
  assert (Hev : ∀ j c0, ever w !! j = Some c0 → <[k := c]> (ever w) !! j = Some c0).
  { intros j c0 Hj. rewrite lookup_insert_ne; [done|]. intros <-. congruence. }
  split; cbn [waiting conns ever].
  - intros key r0 [[<- <-]|[Hne Hr0]]%lookup_insert_Some.
    + exists c. split; [done|]. split; [done|]. split; cbn [ever conns]; rewrite Hc; [by rewrite lookup_insert_eq|]. by eexists.
    + destruct (R1 key r0 Hr0) as (c0 & ? & ? & He0 & ?). exists c0. split; [done|]. split; [done|]. split; [by apply Hev|done].
  - intros j c0 [[<- <-]|[Hne Hj]]%lookup_insert_Some; [|by apply R2]. split_and!; try done; try lia.
  - intros j x d Hx Hd. destruct (R3 j x d Hx Hd) as (y & c0 & c' & punch & ps & qs & []). exists y, c0, c', punch, ps, qs.
    split; try done; by apply Hev.
  - exact R4.
Qed.

(** Two clients that meet. *)
Lemma pair_ok w k c peer punch :
  relay_ok w → conns w !! k = Some (MkConn [] [] [] false None) → ever w !! k = None → c_conn c = k →
  croom_key c = roomKey (c_token c) (c_index c) → 0 ≤ c_index c < 8 → validRole (c_role c) = true →
  waits w peer → ¬ waiting_on w (c_conn peer) → croom_key peer = croom_key c → c_role peer = opposite_role (c_role c) →
  relay_ok (upd (upd (upd (upd (MkWorld (waiting w) (conns w) (<[k := c]> (ever w))) k (send_status (ready_status punch peer)))
    (c_conn peer) (send_status (ready_status punch c))) k (pipe_to (c_conn peer))) (c_conn peer) (pipe_to k)).
Proof.
  intros Hw Hk He Hc Hkey Hi Hrole (Hpe & y & Hy & Hyp & Hyc & Hyo) Hnw Hpk Hpr. pose proof (ro_alone w Hw _ y Hy Hyp) as [_ Hys].
  set (d := c_conn peer) in *. destruct (decide (k = d)) as [->|Hkd]; [congruence|].
  set (x' := MkConn [] [] [Status (ready_status punch peer)] false (Some d)).
  set (y' := MkConn (k_in y) (k_sent y) [Status (ready_status punch c)] false (Some k)).
  set (w' := upd _ d (pipe_to k)).
  assert (Hl : ∀ j, conns w' !! j = if decide (j = d) then Some y' else if decide (j = k) then Some x' else conns w !! j).
  { intros j. unfold w'. rewrite !conns_upd. cbn [conns]. repeat (destruct (decide _) as [?|?]; subst; try done).
    - cbn [fmap option_fmap option_map]. rewrite Hy. cbn. unfold pipe_to, send_status, y'. cbn. by rewrite Hyo, Hyc.
    - rewrite Hk. done. }
  assert (Hev : ever w' = <[k := c]> (ever w)) by done.
  assert (Hold : ∀ j c0, ever w !! j = Some c0 → ever w' !! j = Some c0).
  { intros j c0 Hj. rewrite Hev, lookup_insert_ne; [done|]. intros <-. congruence. }
  assert (Hpart : partners w' k d x' y' c peer punch [] []).
  { split; try done; rewrite ?Hl, ?decide_True by done; try done.
    - rewrite decide_False, decide_True by done. done.
    - rewrite Hev. by rewrite lookup_insert_eq.
    - by apply Hold. }
  destruct Hw as [R1 R2 R3 R4]. split.
  - intros key r Hr. destruct (R1 key r Hr) as (c0 & Hh & Hck & Hce & z & Hz & ?). exists c0. split; [done|]. split; [done|]. split; [by apply Hold|].
    exists z. rewrite Hl. rewrite !decide_False; [done| |].
    + intros E. rewrite E in Hce. congruence.
    + intros E. destruct Hnw. by exists key, r, c0.
  - intros j c0. rewrite Hev. intros [[<- <-]|[Hne Hj]]%lookup_insert_Some.
    + split_and!; try done; try lia. rewrite Hl. destruct (decide _); [by eexists|]. by rewrite decide_True.
    + destruct (R2 j c0 Hj) as (? & ? & [? ?] & ? & Hs). split_and!; try done. rewrite Hl. by repeat destruct (decide _).
  - intros j z e. rewrite Hl. destruct (decide (j = d)) as [->|Hjd]; [|destruct (decide (j = k)) as [->|Hjk]].
    + intros [= <-] [= <-]. exists x', peer, c, punch, [], []. by apply partners_sym in Hpart.
    + intros [= <-] [= <-]. by exists y', c, peer, punch, [], [].
    + intros Hz Hze. destruct (R3 j z e Hz Hze) as (z' & c0 & c0' & punch0 & ps & qs & []).
      exists z', c0, c0', punch0, ps, qs. split; try done; try (by apply Hold); rewrite Hl; rewrite !decide_False; try done; intros ->; congruence.
  - intros j z. rewrite Hl. destruct (decide (j = d)) as [->|Hjd]; [by intros [= <-]|]. destruct (decide (j = k)) as [->|Hjk]; [by intros [= <-]|]. apply R4.
Qed.
End arrival.

(** ** Every step keeps the invariant *)

Section steps.
Context `{Hmac} (cfg : relayConfig).

Lemma room_client_unique r c c' : room_holds r c → room_holds r c' → c = c'.
Proof. intros [(_ & ? & ?)|(_ & ? & ?)] [(_ & ? & ?)|(_ & ? & ?)]; congruence. Qed.

(** The client on a waiting connection is the one its room holds. *)
Lemma waiting_on_key w k : relay_ok w → waiting_on w k → ∃ c r, ever w !! k = Some c ∧ waiting w !! croom_key c = Some r ∧ room_holds r c.
Proof.
  intros Hw (key & r & c & Hr & Hh & <-). destruct (ro_room w Hw key r Hr) as (c0 & Hh0 & <- & He & _).
  assert (c0 = c) as -> by (by apply (room_client_unique r)). by exists c, r.
Qed.

Lemma refused_ok w k text :
  relay_ok w → conns w !! k = Some (MkConn [] [] [] false None) → ever w !! k = None → relay_ok (refuse w k text).
Proof. intros Hw Hk He. eapply refuse_ok; try done. by apply waiting_on_ever. Qed.

Lemma handle_join_ok w k join now :
  relay_ok w → conns w !! k = Some (MkConn [] [] [] false None) → ever w !! k = None → relay_ok (handle_join cfg w k join now).
Proof.
  intros Hw Hk He. unfold handle_join. destruct (join_valid join) eqn:Hv; cbn [negb]; [|by apply refused_ok].
  destruct (authorize cfg _ _ now); cbn [negb]; [|by apply refused_ok]. apply join_valid_inv in Hv as (_ & Hrole & Hi & Hn).
  destruct (takePeer (waiting w) (join_client k join) now) as [res ws] eqn:Et.
  pose proof (takePeer_spec w (join_client k join) now res ws Hw Hrole Et) as Hspec. destruct res as [[peer|]|e].
  - destruct Hspec as (-> & Hpr & r & Hr & Hh). destruct (ro_room w Hw _ r Hr) as (c0 & Hh0 & Hkey & Hwt).
    assert (c0 = peer) as -> by (by apply (room_client_unique r)).
    assert (Hw1 : relay_ok (with_waiting w (delete (croom_key (join_client k join)) (waiting w)))).
    { apply waiting_sub_ok; [done|]. by intros key r0 [_ ?]%lookup_delete_Some. }
    apply (pair_ok (with_waiting w _)); try done; cbn [join_client c_index]; [lia|].
    intros Hon. apply waiting_on_key in Hon as (c1 & r1 & Hc1 & Hr1 & _); [|done]. cbn [with_waiting ever] in Hc1. change (delete (croom_key (join_client k join)) (waiting w) !! croom_key c1 = Some r1) in Hr1.
    destruct Hwt as [Hce _]. assert (c1 = peer) as -> by congruence. apply lookup_delete_Some in Hr1 as [Hne _]. congruence.
  - destruct Hspec as (_ & r & Hh & _ & ->). apply (wait_ok w k (join_client k join) r); try done. cbn [join_client c_index]. lia.
  - destruct Hspec as [_ ->]. apply refused_ok; by destruct w.
Qed.

Lemma handle_ok w k join address now :
  relay_ok w → conns w !! k = Some (MkConn [] [] [] false None) → ever w !! k = None → relay_ok (handle cfg w k join address now).
Proof.
  intros Hw Hk He. unfold handle. destruct (String.eqb _ _); [|by apply handle_join_ok]. unfold handlePublicProbe.
  destruct (_ || _); [by apply refused_ok|]. destruct (negb _); [by apply refused_ok|]. destruct (negb _); [by apply refused_ok|].
  assert (Hn : ¬ waiting_on w k) by (by apply waiting_on_ever).
  assert (Hw1 : relay_ok (upd w k (send_status (observed_status address)))).
  { eapply upd_alone_ok; try done. by apply Forall_singleton. }
  eapply (upd_alone_ok _ k _ (send_status (observed_status address) (MkConn [] [] [] false None))); try done.
  - rewrite conns_upd, decide_True by done. by rewrite Hk.
  - by apply Forall_singleton.
Qed.

Lemma pipe_frame_ok w k w' : relay_ok w → pipe_frame w k = Some w' → relay_ok w'.
Proof.
  intros Hw. unfold pipe_frame. destruct (conns w !! k) as [x|] eqn:Hx; [|done]. cbn [mbind option_bind].
  destruct (k_piped x) as [d|] eqn:Hd; [|done]. cbn [mbind option_bind]. destruct (ro_piped w Hw k x d Hx Hd) as (y & c & c' & punch & ps & qs & Hpt).
  pose proof Hpt as []. rewrite pt_peer0. cbn [mbind option_bind]. destruct (k_closed x || k_closed y); [done|].
  destruct (k_in x) as [|p rest] eqn:Hin; [done|]. intros [= <-].
  set (x' := MkConn rest (k_sent x) (k_out x) (k_closed x) (k_piped x)).
  set (y' := MkConn (k_in y) (k_sent y) (k_out y ++ [Payload p]) (k_closed y) (k_piped y)). set (w' := upd _ d _).
  assert (Hl : ∀ j, conns w' !! j = if decide (j = d) then Some y' else if decide (j = k) then Some x' else conns w !! j).
  { intros j. unfold w'. rewrite !conns_upd. repeat (destruct (decide _) as [?|?]; subst; try done); [by rewrite pt_peer0|by rewrite Hx]. }
  assert (Hpart : partners w' k d x' y' c c' punch ps (qs ++ [p])).
  { split; try done; rewrite ?Hl.
    - by rewrite decide_False, decide_True.
    - by rewrite decide_True.
    - unfold y'. cbn [k_out]. by rewrite pt_out_peer0, fmap_app.
    - unfold x'. cbn [k_sent k_in]. rewrite pt_stream_peer0, ?Hin. by rewrite <- (assoc_L (++)). }
  assert (Hrole : validRole (c_role c) = true) by (by destruct (ro_ever w Hw k c pt_client0) as (_ & _ & _ & ? & _)).
  clear Hpt. destruct Hw as [R1 R2 R3 R4]. split.
  - intros key r Hr. destruct (R1 key r Hr) as (c0 & Hh & Hck & Hce & z & Hz & Hzp & ?). exists c0. split; [done|]. split; [done|]. split; [done|].
    exists z. rewrite Hl. rewrite !decide_False; [done|intros E; rewrite E in Hz; congruence..].
  - intros j c0 Hj. destruct (R2 j c0 Hj) as (? & ? & [? ?] & ? & Hs). split_and!; try done. rewrite Hl. by repeat destruct (decide _).
  - intros j z e. rewrite Hl. destruct (decide (j = d)) as [->|Hjd]; [|destruct (decide (j = k)) as [->|Hjk]].
    + intros [= <-] E. cbn [y' k_piped] in E. assert (e = k) as -> by congruence. exists x', c', c, punch, (qs ++ [p]), ps. by apply partners_sym in Hpart.
    + intros [= <-] E. cbn [x' k_piped] in E. assert (e = d) as -> by congruence. by exists y', c, c', punch, ps, (qs ++ [p]).
    + intros Hz Hze. destruct (R3 j z e Hz Hze) as (z' & c0 & c0' & punch0 & ps0 & qs0 & []).
      exists z', c0, c0', punch0, ps0, qs0. split; try done; rewrite Hl; rewrite !decide_False; try done; intros ->; congruence.
  - intros j z. rewrite Hl. destruct (decide (j = d)) as [->|Hjd]; [intros [= <-] E; cbn in E; congruence|].
    destruct (decide (j = k)) as [->|Hjk]; [intros [= <-] E; cbn in E; congruence|]. apply R4.
Qed.

Lemma close_ok w k x d : relay_ok w → conns w !! k = Some x → k_piped x = Some d → relay_ok (upd (upd w k close_conn) d close_conn).
Proof.
  intros Hw Hx Hd. destruct (ro_piped w Hw k x d Hx Hd) as (y & c & c' & punch & ps & qs & []).
  assert (Hw1 : relay_ok (upd w k close_conn)).
  { apply upd_own_ok; [done|]. intros x0 Hx0. assert (x0 = x) as -> by congruence. split_and!; try done; [right; by exists d|].
    exists []. by rewrite !app_nil_r. }
  apply upd_own_ok; [done|]. intros y0. rewrite conns_upd, decide_False by done. intros Hy0. assert (y0 = y) as -> by congruence.
  split_and!; try done; [right; by exists k|]. exists []. by rewrite !app_nil_r.
Qed.

(** ** Cleaning up *)

Definition expiring (w : world) (c : rclient) : Prop := ¬ waiting_on w (c_conn c) ∧ ∃ x, conns w !! c_conn c = Some x ∧ k_piped x = None.
Lemma relay_expire_clients_ok cs w :
  relay_ok w → (∀ c, c ∈ cs → expiring w c) →
  relay_ok (foldl expire_client w cs) ∧ waiting (foldl expire_client w cs) = waiting w ∧
  ∀ c, c ∈ cs → ∃ x, conns (foldl expire_client w cs) !! c_conn c = Some x ∧ k_closed x = true ∧ Status (error_status "relay room expired") ∈ k_out x.
Proof.
  intros Hw Hcs. set (told := λ w' c, ∃ x, conns w' !! c_conn c = Some x ∧ k_closed x = true ∧ Status (error_status "relay room expired") ∈ k_out x).
  change (relay_ok (foldl expire_client w cs) ∧ waiting (foldl expire_client w cs) = waiting w ∧ ∀ c, c ∈ cs → told (foldl expire_client w cs) c).
  assert (Hgen : ∀ cs w, relay_ok w → (∀ c, c ∈ cs → expiring w c) → relay_ok (foldl expire_client w cs) ∧
     waiting (foldl expire_client w cs) = waiting w ∧ ∀ c, c ∈ cs ∨ told w c → told (foldl expire_client w cs) c).
  2:{ destruct (Hgen cs w Hw Hcs) as (? & ? & Ht). split_and!; try done. intros c Hc. apply Ht. by left. }
  clear Hw Hcs w cs. induction cs as [|c cs IH]; intros w Hw Hcs; cbn [foldl].
  { split_and!; try done. by intros c [?%not_elem_of_nil|]. }
  destruct (Hcs c) as (Hn & x & Hx & Hp); [by left|]. destruct (refuse_ok w (c_conn c) x "relay room expired" Hw Hx Hp Hn) as [Hw1 Hx1].
  set (w1 := expire_client w c). change (refuse w (c_conn c) "relay room expired") with w1 in Hw1, Hx1.
  set (x1 := close_conn _) in Hx1.
  assert (Hl : ∀ j, conns w1 !! j = if decide (j = c_conn c) then Some x1 else conns w !! j).
  { intros j. destruct (decide (j = c_conn c)) as [->|Hne]; [done|]. unfold w1, expire_client, refuse. by rewrite !conns_upd, !decide_False. }
  destruct (IH w1 Hw1) as (? & Ew & Ht).
  { intros c' Hc'. destruct (Hcs c') as (Hn' & x' & Hx' & Hp'); [by right|]. split; [done|]. rewrite Hl.
    destruct (decide _); [by exists x1|by exists x']. }
  split_and!; [done|by rewrite Ew|]. intros c' Hc'. apply Ht. destruct (decide (c_conn c' = c_conn c)) as [E|Hne].
  { right. exists x1. rewrite E. split; [done|]. split; [done|]. cbn. set_solver. }
  destruct Hc' as [[->|Hc']%elem_of_cons|(x' & Hx' & ?)]; [done|by left|right]. exists x'. by rewrite Hl, decide_False.
Qed.

Lemma cleanup_spec w now :
  relay_ok w → relay_ok (cleanupExpired cfg w now) ∧
  (∀ key r, waiting (cleanupExpired cfg w now) !! key = Some r ↔ waiting w !! key = Some r ∧ room_expired cfg now r = false) ∧
  ∀ key r c, waiting w !! key = Some r → room_holds r c → room_expired cfg now r = true →
    ∃ x, conns (cleanupExpired cfg w now) !! c_conn c = Some x ∧ k_closed x = true ∧ Status (error_status "relay room expired") ∈ k_out x.
Proof.
  intros Hw. unfold cleanupExpired. cbv zeta. set (ws := filter _ (waiting w)). set (cs := filter _ _ ≫= _).
  assert (Hws : ∀ key r, ws !! key = Some r ↔ waiting w !! key = Some r ∧ room_expired cfg now r = false) by (intros; apply map_lookup_filter_Some).
  assert (Hcs : ∀ c, c ∈ cs ↔ ∃ key r, waiting w !! key = Some r ∧ room_expired cfg now r = true ∧ c ∈ room_clients r).
  { intros c. unfold cs. rewrite list_elem_of_bind. setoid_rewrite list_elem_of_filter. setoid_rewrite list_elem_of_fmap. split.
    - intros (r & Hc & He & [key r'] & -> & Hr). exists key, r'. by rewrite <- elem_of_map_to_list.
    - intros (key & r & Hr & He & Hc). exists r. split; [done|]. split; [done|]. exists (key, r). by rewrite elem_of_map_to_list. }
  assert (Hholds : ∀ key r c, waiting w !! key = Some r → c ∈ room_clients r ↔ room_holds r c).
  { intros key r c Hr. destruct (ro_room w Hw key r Hr) as (c0 & Hh & _). unfold room_clients.
    destruct Hh as [(E & Hs & Ht)|(E & Hs & Ht)]; rewrite Hs, Ht; simpl; rewrite list_elem_of_singleton; split; try (intros ->).
    1: by left. 2: by right. all: intros [(_ & ? & ?)|(_ & ? & ?)]; congruence. }
  assert (Hw1 : relay_ok (with_waiting w ws)) by (apply waiting_sub_ok; [done|]; by intros key r [? _]%Hws).
  destruct (relay_expire_clients_ok cs (with_waiting w ws) Hw1) as (Hok & Ew & Ht).
  { intros c (key & r & Hr & He & Hc%(Hholds key))%Hcs; [|done]. destruct (ro_room w Hw key r Hr) as (c0 & Hh & Hkey & Hce & x & Hx & Hp & _).
    assert (c0 = c) as -> by (by apply (room_client_unique r)). split; [|by exists x].
    intros Hon. apply waiting_on_key in Hon as (c1 & r1 & Hc1 & [Hr1 He1]%Hws & _); [|done]. cbn [with_waiting ever] in Hc1.
    assert (c1 = c) as -> by congruence. rewrite Hkey in Hr1. congruence. }
  split; [done|]. split; [intros key r; by rewrite Ew|]. intros key r c Hr Hh He. apply Ht, Hcs. exists key, r. split; [done|]. split; [done|]. by apply (Hholds key).
Qed.

Lemma relay_step_ok w w' : relay_step cfg w w' → relay_ok w → relay_ok w'.
Proof.
  intros [k join address now Hk|k p|k w1 Hp|k x d Hx Hd|now] Hw.
  - destruct (accept_ok w k Hw Hk) as [Hw1 He]. apply handle_ok; [done| |done]. cbn. by rewrite lookup_insert_eq.
  - apply upd_own_ok; [done|]. intros x Hx. split_and!; try done; [by left|]. by exists [p].
  - by eapply pipe_frame_ok.
  - by eapply close_ok.
  - by apply cleanup_spec.
Qed.
Lemma relay_reach_ok w : rtc (relay_step cfg) empty_relay w → relay_ok w.
Proof. apply (reachable_ok relay_ok); [intros ? ?; apply relay_step_ok|apply empty_relay_ok]. Qed.
End steps.

(** ** What the relay promises *)

Lemma roomKey_inj t t' i i' : 0 ≤ i < 8 → 0 ≤ i' < 8 → roomKey t i = roomKey t' i' → t = t' ∧ i = i'.
Proof.
  intros Hi Hi' E. unfold roomKey in E. apply (f_equal to_bytes) in E. rewrite !to_bytes_app in E.
  assert (Hlen : ∀ j, 0 ≤ j < 8 → length (to_bytes (Itoa j)) = 1%nat ∧ ∃ a, Itoa j = String a EmptyString).
  { intros j Hj. assert (j = 0 ∨ j = 1 ∨ j = 2 ∨ j = 3 ∨ j = 4 ∨ j = 5 ∨ j = 6 ∨ j = 7) as Hc by lia.
    repeat destruct Hc as [->|Hc]; try subst j; (split; [reflexivity|eexists; reflexivity]). }
  apply app_inj_2 in E as [Et E]; [|rewrite !length_app, (proj1 (Hlen i Hi)), (proj1 (Hlen i' Hi')); done].
  apply app_inj_2 in E as [_ E]; [|by rewrite (proj1 (Hlen i Hi)), (proj1 (Hlen i' Hi'))].
  split; [by rewrite <- (string_of_list_ascii_of_string t), <- (string_of_list_ascii_of_string t'); f_equal|].
  apply Itoa_inj; [split; unfold int64_min, int64_max; lia..|].
  rewrite <- (string_of_list_ascii_of_string (Itoa i)), <- (string_of_list_ascii_of_string (Itoa i')). by f_equal.
Qed.

Definition payloads (l : list sent) : list bytes := omap (fun m => match m with Payload p => Some p | Status _ => None end) l.
Lemma payloads_fmap ps : payloads (Payload <$> ps) = ps.
Proof. unfold payloads. induction ps as [|p ps IH]; [done|]. cbn. by rewrite <- IH at 2. Qed.
Lemma payloads_none l : Forall (λ m, is_payload m = false) l → payloads l = [].
Proof. unfold payloads. induction 1 as [|m l Hm _ IH]; [done|]. destruct m; [done|by cbn in Hm]. Qed.

Section promises.
Context `{Hmac} (cfg : relayConfig).

(** C26: a relay connection is isolated.  In every state the relay reaches,
    whoever joined, waited, was refused, expired or lost its connection, a
    connection that is not paired has received no frame; and a paired one has
    exactly one partner, whose partner it is in turn, which named the same room
    token and connection index and the opposite role; it was told first what the
    partner advertised and after that has received a prefix of the frames the
    partner sent, in order, unchanged, each once, and nothing else. *)
Theorem relay_isolates_pairs w k x :
  rtc (relay_step cfg) empty_relay w → conns w !! k = Some x →
  match k_piped x with
  | None => payloads (k_out x) = []
  | Some d => ∃ y c c' punch ps,
      conns w !! d = Some y ∧ k_piped y = Some k ∧ k ≠ d ∧ ever w !! k = Some c ∧ ever w !! d = Some c' ∧
      c_token c' = c_token c ∧ c_index c' = c_index c ∧ c_role c' = opposite_role (c_role c) ∧
      k_out x = Status (ready_status punch c') :: (Payload <$> ps) ∧ k_sent y = ps ++ k_in y
  end.
Proof.
  intros Hw%relay_reach_ok Hx. destruct (k_piped x) as [d|] eqn:Hd; [|by apply payloads_none, (ro_alone w Hw k x Hx Hd)].
  destruct (ro_piped w Hw k x d Hx Hd) as (y & c & c' & punch & ps & qs & []). exists y, c, c', punch, ps.
  destruct (ro_ever w Hw k c pt_client0) as (_ & Hk & Hi & _ & _), (ro_ever w Hw d c' pt_partner0) as (_ & Hk' & Hi' & _ & _).
  destruct (roomKey_inj (c_token c) (c_token c') (c_index c) (c_index c')) as [Ht Hx']; [done..|congruence|]. by split_and!.
Qed.

(** Clients meet.  A client that joins with a valid and authorised message
    while a client of the opposite role waits in its room is paired with it at
    once: both are told, with the same moment to connect directly, what the other
    advertised, and the room is free again.  One that comes to an empty room waits
    there, and one whose place is taken is refused and disturbs nobody. *)
Theorem relay_joins_meet w k join now :
  rtc (relay_step cfg) empty_relay w → conns w !! k = None → join_valid join = true → authorize cfg (RoomToken join) (Pass join) now = true →
  JType join ≠ "punch_probe"%string →
  let c := join_client k join in
  let w' := handle cfg (accept w k) k join "" now in
  match waiting w !! croom_key c with
  | None => waiting w' !! croom_key c = Some (if String.eqb (Role join) "sender" then MkRRoom (Some c) None now else MkRRoom None (Some c) now) ∧
      conns w' !! k = Some (MkConn [] [] [] false None)
  | Some r => ∃ peer, room_holds r peer ∧
      if String.eqb (c_role peer) (Role join)
      then waiting w' = waiting w ∧ conns w' !! k = Some (MkConn [] [] [Status (error_status (Role join +:+ " already waiting"))] true None)
      else waiting w' = delete (croom_key c) (waiting w) ∧
        conns w' !! k = Some (MkConn [] [] [Status (ready_status (directPunchAtMillis c peer now) peer)] false (Some (c_conn peer))) ∧
        ∃ y, conns w !! c_conn peer = Some y ∧
          conns w' !! c_conn peer = Some (MkConn (k_in y) (k_sent y) [Status (ready_status (directPunchAtMillis c peer now) c)] false (Some k))
  end ∧
  ∀ j, j ≠ k → (∀ r peer, waiting w !! croom_key c = Some r → room_holds r peer → j ≠ c_conn peer) → conns w' !! j = conns w !! j.
Proof.
  intros Hreach Hk Hv Ha Hty. assert (Hw := relay_reach_ok cfg w Hreach). cbv zeta. unfold handle.
  destruct (String.eqb_spec (JType join) "punch_probe") as [|_]; [done|]. unfold handle_join. rewrite Hv, Ha. cbn [negb].
  destruct (join_valid_inv join Hv) as (_ & Hrole & _). destruct (accept_ok w k Hw Hk) as [Hw1 He].
  set (c := join_client k join). assert (Hk1 : conns (accept w k) !! k = Some (MkConn [] [] [] false None)) by apply lookup_insert_eq.
  assert (Hother : ∀ j, j ≠ k → conns (accept w k) !! j = conns w !! j) by (intros j Hj; by apply lookup_insert_ne).
  destruct (takePeer (waiting (accept w k)) c now) as [res ws] eqn:Et.
  pose proof (takePeer_spec (accept w k) c now res ws Hw1 Hrole Et) as Hspec. cbn [accept waiting] in Hspec. destruct res as [[peer|]|e].
  - destruct Hspec as (-> & Hpr & r & Hr & Hh). rewrite Hr. destruct (ro_room w Hw _ r Hr) as (c0 & Hh0 & _ & Hce & y & Hy & Hyp & Hyc & Hyo).
    assert (c0 = peer) as -> by (by apply (room_client_unique r)). assert (Hne : c_conn peer ≠ k) by (intros E; rewrite E in Hy; congruence).
    split.
    + exists peer. split; [done|]. assert (String.eqb (c_role peer) (Role join) = false) as ->.
      { rewrite Hpr. cbn [c c_role join_client]. unfold opposite_role. by destruct (validRole_cases _ Hrole) as [->| ->]. }
      split; [done|]. rewrite !conns_upd. cbn [conns].
      rewrite !(decide_False (P := k = c_conn peer)), !(decide_False (P := c_conn peer = k)) by congruence. rewrite !decide_True by done.
      rewrite Hk1. split; [done|]. exists y. split; [done|]. rewrite Hother, Hy by done. unfold pipe_to, send_status. cbn. by rewrite Hyo, Hyc.
    + intros j Hj Hp. rewrite !conns_upd. cbn [conns]. pose proof (Hp r peer eq_refl Hh) as Hjp. rewrite !(decide_False (P := j = k)), !(decide_False (P := j = c_conn peer)) by done. by apply Hother.
  - destruct Hspec as (Hnone & r & Hh & Hcr & ->). rewrite Hnone. cbn [waiting conns]. split; [|intros j Hj _; by apply Hother].
    split; [|done]. rewrite lookup_insert_eq. f_equal. destruct r as [rs rr rc]. cbn [r_created] in Hcr. subst rc.
    destruct Hh as [(E & Hs & Ht)|(E & Hs & Ht)]; cbn in E, Hs, Ht; rewrite E; cbn; by subst.
  - destruct Hspec as [-> ->]. assert (∃ r, waiting w !! croom_key c = Some r) as [r Hr].
    { destruct (waiting w !! croom_key c) eqn:E; [by eexists|]. unfold takePeer in Et. cbn [accept waiting] in Et. rewrite E in Et.
      cbn [default from_option id r_sender r_receiver] in Et. destruct (validRole_cases _ Hrole) as [Er|Er]; cbn [c c_role join_client] in Et; rewrite Er in Et; done. }
    rewrite Hr. destruct (ro_room w Hw _ r Hr) as (peer & Hh & Hkey & Hce & _). split.
    + exists peer. split; [done|]. assert (c_role peer = Role join) as ->.
      { unfold takePeer in Et. cbn [accept waiting] in Et. rewrite Hr in Et. cbn [default from_option id] in Et.
        change (c_role c) with (Role join) in Et. destruct (validRole_cases _ Hrole) as [Er|Er]; rewrite Er in Et |- *; cbn [String.eqb Ascii.eqb Bool.eqb] in Et;
          destruct Hh as [(Hc & Hs & Ht)|(Hc & Hs & Ht)]; rewrite ?Hs, ?Ht in Et; done. }
      rewrite String.eqb_refl. split; [done|]. unfold refuse. rewrite !conns_upd, !decide_True by done. cbn [with_waiting conns].
      change (<[k := _]> (conns w) !! k) with (conns (accept w k) !! k). by rewrite Hk1.
    + intros j Hj _. unfold refuse. rewrite !conns_upd, !decide_False by done. by apply Hother.
Qed.

(** Nobody waits for ever.  After a clean-up every room that is left is
    younger than the limit, no room that was younger is gone, and each client of a
    room that is gone was told that it expired and disconnected. *)
Theorem relay_cleanup w now :
  rtc (relay_step cfg) empty_relay w →
  (∀ key r, waiting (cleanupExpired cfg w now) !! key = Some r ↔ waiting w !! key = Some r ∧ now - r_created r < waitTTL cfg) ∧
  ∀ key r, waiting w !! key = Some r → waitTTL cfg ≤ now - r_created r →
    ∃ c x, room_holds r c ∧ conns (cleanupExpired cfg w now) !! c_conn c = Some x ∧ k_closed x = true ∧
      Status (error_status "relay room expired") ∈ k_out x.
Proof.
  intros Hw%relay_reach_ok. destruct (cleanup_spec cfg w now Hw) as (_ & Hk & Hx). split.
  - intros key r. rewrite Hk. unfold room_expired. by rewrite negb_false_iff, Z.ltb_lt.
  - intros key r Hr He. destruct (ro_room w Hw key r Hr) as (c & Hh & _). destruct (Hx key r c Hr Hh) as (x & ? & ? & ?).
    { unfold room_expired. by rewrite negb_true_iff, Z.ltb_ge. }
    by exists c, x.
Qed.
End promises.

(** ** A pair of clients *)

Definition demo_relay : relayConfig := MkRelayConfig (600 * second_ns) "" "".
Definition demo_join (role address : string) : joinMessage :=
  MkJoin "join" "room" role 0 1 "" address [] [] [] [CapabilityBidirectionalDirectV1] "prefer-direct".
Definition demo_first : world := handle (H:=demo_hmac) demo_relay (accept empty_relay 0%nat) 0%nat (demo_join "sender" "192.0.2.1:9000") "" 0.
Definition demo_met : world := handle (H:=demo_hmac) demo_relay (accept demo_first 1%nat) 1%nat (demo_join "receiver" "192.0.2.2:9000") "" 5.
Definition demo_sent : world :=
  upd demo_met 0%nat (fun x => MkConn (k_in x ++ [["h"%char]]) (k_sent x ++ [["h"%char]]) (k_out x) (k_closed x) (k_piped x)).
Definition demo_relayed : world := default demo_sent (pipe_frame demo_sent 0%nat).
Definition conn_at (w : world) (k : conn_id) : connection := default (MkConn [] [] [] true None) (conns w !! k).

Lemma demo_first_reached : rtc (relay_step (H:=demo_hmac) demo_relay) empty_relay demo_first.
Proof. apply rtc_once. by apply step_handle. Qed.
Lemma demo_relayed_reached : rtc (relay_step (H:=demo_hmac) demo_relay) empty_relay demo_relayed.
Proof.
  etrans; [exact demo_first_reached|]. eapply rtc_l; [apply (step_handle (H:=demo_hmac) demo_relay demo_first 1%nat); by vm_compute|].
  eapply rtc_l; [apply (step_client_sends (H:=demo_hmac) demo_relay _ 0%nat ["h"%char])|]. apply rtc_once. apply step_pipe with (k := 0%nat).
  unfold demo_relayed. destruct (pipe_frame demo_sent 0%nat) eqn:E; [done|]. by vm_compute in E.
Qed.

Lemma relay_isolates_pairs_witness :
  ∃ y c c' punch ps, conns demo_relayed !! 0%nat = Some y ∧ k_piped y = Some 1%nat ∧ (1 : nat)%nat ≠ 0%nat ∧
    ever demo_relayed !! 1%nat = Some c ∧ ever demo_relayed !! 0%nat = Some c' ∧
    c_token c' = c_token c ∧ c_index c' = c_index c ∧ c_role c' = opposite_role (c_role c) ∧
    k_out (conn_at demo_relayed 1%nat) = Status (ready_status punch c') :: (Payload <$> ps) ∧ k_sent y = ps ++ k_in y.
Proof.
  assert (Hx : conns demo_relayed !! 1%nat = Some (conn_at demo_relayed 1%nat)) by (vm_compute; reflexivity).
  pose proof (relay_isolates_pairs (H:=demo_hmac) demo_relay demo_relayed 1%nat _ demo_relayed_reached Hx) as E.
  assert (Hp : k_piped (conn_at demo_relayed 1%nat) = Some 0%nat) by (vm_compute; reflexivity). rewrite Hp in E. exact E.
Defined.

Lemma relay_joins_meet_witness :
  waiting demo_met = delete "room:0"%string (waiting demo_first).
Proof.
  assert (Hr : is_Some (waiting demo_first !! "room:0"%string)) by (vm_compute; eexists; reflexivity).
  pose proof (relay_joins_meet (H:=demo_hmac) demo_relay demo_first 1%nat (demo_join "receiver" "192.0.2.2:9000") 5 demo_first_reached) as E.
  destruct E as [E _]; [vm_compute; reflexivity..|discriminate|].
  vm_compute in E. destruct E as (peer & [(_ & [= <-] & _)|(_ & ? & _)] & E); [|done].
  exact (proj1 E).
Defined.

Lemma relay_cleanup_witness :
  waiting (cleanupExpired demo_relay demo_first (601 * second_ns)) !! "room:0"%string = None.
Proof.
  destruct (relay_cleanup (H:=demo_hmac) demo_relay demo_first (601 * second_ns) demo_first_reached) as [E _].
  destruct (waiting (cleanupExpired demo_relay demo_first (601 * second_ns)) !! "room:0"%string) as [r|] eqn:Hr; [|reflexivity].
  apply E in Hr as [Hr Ht]. exfalso. vm_compute in Hr. injection Hr as <-. vm_compute in Ht. discriminate.
Defined.

(** A client that lost its connection while it waited still holds its place: it
    is refused when it comes back, and its partner is paired with the connection
    nobody reads. *)
Example lost_waiter_is_refused :
  let w := upd demo_first 0%nat close_conn in
  let again := handle (H:=demo_hmac) demo_relay (accept w 1%nat) 1%nat (demo_join "sender" "192.0.2.1:9000") "" 5 in
  let partner := handle (H:=demo_hmac) demo_relay (accept w 1%nat) 1%nat (demo_join "receiver" "192.0.2.2:9000") "" 5 in
  k_out (conn_at again 1%nat) = [Status (error_status "sender already waiting")] ∧
  k_piped (conn_at partner 1%nat) = Some 0%nat ∧ k_closed (conn_at partner 0%nat) = true.
Proof. vm_compute. done. Qed.
