(* ===== verification/RelayClient.v ===== *)
(** * The relay's clients ([internal/relay/relay.go], [race.go], [bundle.go])

    A client joins every relay it knows at once and keeps the best that answers
    soon; over that relay it may open further connections.  The goroutines report
    over a channel, so what the client sees is a sequence of events in any order:
    outcomes, the timer, the end of its context.  The theorems: whatever the order,
    of all connections that were opened one is returned and every other one is
    closed, the one returned is the best of those reported, an answer comes once
    every attempt has reported, and both ends of a pair open the same number of
    connections. *)
From Stdlib Require Import ZArith Lia Ascii String.
From stdpp Require Import base tactics numbers list gmap strings relations sorting.
From S2P Require Import Prelude GoStrings NoteServer RelayCredential Netip DirectCandidate RelayServer.

Definition relaySettleWindow : Z := 120 * millisecond.
Definition publicProbeTimeout : Z := 600 * millisecond.
Definition auxiliaryJoinTimeout : Z := 5 * second_ns.

(** ** One join *)

Inductive join_error := RelayRefused (text : string) | UnexpectedStatus (status : string).

Definition transport_id := nat.
Record JoinResult := MkJoinResult {
  Transport : transport_id;
  JPunchAtMillis : Z;
  JPeerConnectionCount : Z;
  JPeerDirect : string;
  JPeerDirectCandidates : list string;
  JPeerDirectCandidateMetadata : list Candidate;
  JPeerUDPCandidates : list string;
  JPeerCapabilities : list string;
  JPeerDirectPreference : string;
}.

(** What [JoinWithOptions] makes of the relay's answer. *)
Definition join_result (t : transport_id) (status : statusMessage) : result join_error JoinResult :=
  if String.eqb (SType status) "error" then Err (RelayRefused (SError status))
  else if negb (String.eqb (SType status) "ready") then Err (UnexpectedStatus (SType status))
  else
    let candidates := if Nat.eqb (length (PeerDirectCandidates status)) 0 && negb (String.eqb (PeerDirect status) "")
                      then [PeerDirect status] else PeerDirectCandidates status in
    Ok (MkJoinResult t (SPunchAtMillis status) (normalizedRelayConnectionCount (PeerConnectionCount status)) (PeerDirect status) candidates
          (PeerDirectCandidateMetadata status) (PeerUDPCandidates status) (PeerCapabilities status) (PeerDirectPreference status)).

(** What [ProbePublicAddress] makes of it. *)
Inductive probe_error := ProbeRefused (text : string) | UnexpectedProbe (status : string) | ProbeAddress (e : candidate_error).
Definition probe_result (status : statusMessage) : result probe_error string :=
  if String.eqb (SType status) "error" then Err (ProbeRefused (SError status))
  else if negb (String.eqb (SType status) "punch_observed") then Err (UnexpectedProbe (SType status))
  else _ ← wrap_err ProbeAddress (ValidateAddress (PublicAddress status)); Ok (PublicAddress status).

Definition ValidateConnectionCount (count : Z) : bool := negb ((count <? 1) || (count >? 8)).

(** ** Several connections over one relay *)

(** The auxiliary joins report with their index; the first error cancels the
    rest.  [channels] are the connections at their index, [b_closed] those closed. *)
Record bundle_state := MkBundle { channels : gmap nat transport_id; setupErr : bool }.
Definition bundle_outcome (s : bundle_state) (o : nat * option transport_id) : bundle_state :=
  match o.2 with
  | None => MkBundle (channels s) true
  | Some t => MkBundle (<[o.1 := t]> (channels s)) (setupErr s)
  end.

(** The transports of the bundle in order, the number of them, and those closed. *)
Definition bundle_count (primary : JoinResult) (count : Z) : Z := Z.min count (normalizedRelayConnectionCount (JPeerConnectionCount primary)).
Definition JoinBundle (primary : JoinResult) (count : Z) (outcomes : list (nat * option transport_id))
    : list transport_id * Z * list transport_id :=
  let count := bundle_count primary count in
  if count <=? 1 then ([Transport primary], 1, [])
  else
    let n := Z.to_nat count in
    let s := foldl bundle_outcome (MkBundle {[0%nat := Transport primary]} false) outcomes in
    let rest := omap (fun i => channels s !! i) (seq 1 (n - 1)) in
    if setupErr s then ([Transport primary], 1, rest)
    else (Transport primary :: rest, Z.of_nat n, []).

(** ** The race *)

Record RelayCandidate := MkRelayCandidate { Addr : string; RKind : string; RPriority : Z; StartDelay : Z; UseProxy : bool }.
#[export] Instance RelayCandidate_eq_dec : EqDecision RelayCandidate.
Proof. solve_decision. Defined.

Definition betterCandidate (left right : RelayCandidate) : bool :=
  if negb (RPriority left =? RPriority right) then RPriority left <? RPriority right
  else if negb (StartDelay left =? StartDelay right) then StartDelay left <? StartDelay right
  else str_ltb (Addr left) (Addr right).

(** One attempt for each address. *)
Fixpoint normalize_race (seen : list string) (candidates : list RelayCandidate) : list RelayCandidate :=
  match candidates with
  | [] => []
  | c :: candidates =>
      if String.eqb (Addr c) "" || containsString seen (Addr c) then normalize_race seen candidates
      else c :: normalize_race (Addr c :: seen) candidates
  end.
Definition normalizeRaceCandidates (candidates : list RelayCandidate) : list RelayCandidate := normalize_race [] candidates.

(** The observed public address, when there is room for it. *)
Definition appendPublicCandidate (addresses : list string) (metadata : list Candidate) (address : string)
    : list string * list Candidate :=
  if negb (is_ok (ValidateAddress address)) then (addresses, metadata)
  else if containsString addresses address then (addresses, metadata)
  else if Z.of_nat (length addresses) >=? MaxCandidates then (addresses, metadata)
  else match FromRelayObservation address with
       | Err _ => (addresses, metadata)
       | Ok candidate => (addresses ++ [address], metadata ++ [candidate])
       end.

Record RaceResult := MkRaceResult { rr_join : JoinResult; rr_candidate : RelayCandidate }.
Definition race_outcome : Type := result string RaceResult.
Inductive race_event := Arrived (o : race_outcome) | SettleFired | ContextDone.
Inductive race_end := Won (r : RaceResult) | AllFailed (failures : list string) | Cancelled.

Record race_state := MkRace { best : option RaceResult; failures : list string; settling : bool; shut : list transport_id }.
Definition start_race : race_state := MkRace None [] false [].

Definition closeRaceResult (r : option RaceResult) : list transport_id := option_list (Transport ∘ rr_join <$> r).

Definition race_arrived (s : race_state) (o : race_outcome) : race_state :=
  match o with
  | Err e => MkRace (best s) (failures s ++ [e]) (settling s) (shut s)
  | Ok r =>
      match best s with
      | Some b =>
          if betterCandidate (rr_candidate r) (rr_candidate b)
          then MkRace (Some r) (failures s) true (shut s ++ closeRaceResult (best s))
          else MkRace (best s) (failures s) true (shut s ++ [Transport (rr_join r)])
      | None => MkRace (Some r) (failures s) true (shut s)
      end
  end.

Definition event_outcomes (evs : list race_event) : list race_outcome :=
  omap (fun e => match e with Arrived o => Some o | _ => None end) evs.
Definition winners (os : list race_outcome) : list RaceResult := omap (fun o => match o with Ok r => Some r | Err _ => None end) os.

(** [drainCandidateResults]: what arrives later is closed. *)
Definition drainCandidateResults (evs : list race_event) : list transport_id := Transport ∘ rr_join <$> winners (event_outcomes evs).

(** The loop, with [remaining] attempts still to report: how it ends and every
    transport closed, by the loop and by the goroutine that drains the channel.
    [None]: it waits for more events. *)
Fixpoint race_loop (evs : list race_event) (remaining : nat) (s : race_state) : option (race_end * list transport_id) :=
  match remaining with
  | O => Some (match best s with Some r => Won r | None => AllFailed (failures s) end, shut s)
  | S remaining' =>
      match evs with
      | [] => None
      | ContextDone :: evs => Some (Cancelled, shut s ++ closeRaceResult (best s) ++ drainCandidateResults evs)
      | SettleFired :: evs =>
          match (if settling s then best s else None) with
          | Some r => Some (Won r, shut s ++ drainCandidateResults evs)
          | None => race_loop evs remaining s
          end
      | Arrived o :: evs => race_loop evs remaining' (race_arrived s o)
      end
  end.

Inductive race_error := NoCandidates.
Definition RaceJoin (candidates : list RelayCandidate) (evs : list race_event) : result race_error (option (race_end * list transport_id)) :=
  let candidates := normalizeRaceCandidates candidates in
  if Nat.eqb (length candidates) 0 then Err NoCandidates
  else Ok (race_loop evs (length candidates) start_race).

(** ** The order of candidates *)

Lemma betterCandidate_trans a b c : betterCandidate a b = true → betterCandidate b c = true → betterCandidate a c = true.
Proof.
  unfold betterCandidate. intros Hab Hbc.
  destruct (Z.eqb_spec (RPriority a) (RPriority b)) as [E1|E1]; destruct (Z.eqb_spec (RPriority b) (RPriority c)) as [E2|E2];
    destruct (Z.eqb_spec (RPriority a) (RPriority c)) as [E3|E3]; cbn [negb] in *; rewrite ?Z.ltb_lt in *; try lia.
  destruct (Z.eqb_spec (StartDelay a) (StartDelay b)) as [F1|F1]; destruct (Z.eqb_spec (StartDelay b) (StartDelay c)) as [F2|F2];
    destruct (Z.eqb_spec (StartDelay a) (StartDelay c)) as [F3|F3]; cbn [negb] in *; rewrite ?Z.ltb_lt in *; try lia.
  by eapply str_ltb_trans.
Qed.
Lemma betterCandidate_irrefl a : betterCandidate a a = false.
Proof. unfold betterCandidate. by rewrite !Z.eqb_refl, str_ltb_irrefl. Qed.

Lemma normalize_race_spec seen candidates c :
  c ∈ normalize_race seen candidates → c ∈ candidates ∧ Addr c ≠ ""%string ∧ Addr c ∉ seen.
Proof.
  revert seen. induction candidates as [|d cs IH]; intros seen; cbn [normalize_race]; [by intros ?%not_elem_of_nil|].
  destruct (String.eqb_spec (Addr d) "") as [|Hd]; cbn [orb]; [intros (? & ? & ?)%IH; split; [by right|done]|].
  destruct (containsString seen (Addr d)) eqn:E; [intros (? & ? & ?)%IH; split; [by right|done]|].
  intros [->|(? & ? & Hn)%IH]%elem_of_cons.
  - split; [by left|]. split; [done|]. intros Hin%containsString_elem. congruence.
  - split; [by right|]. split; [done|]. set_solver.
Qed.
Lemma normalizeRaceCandidates_NoDup candidates : NoDup (Addr <$> normalizeRaceCandidates candidates).
Proof.
  unfold normalizeRaceCandidates. generalize (@nil string). induction candidates as [|d cs IH]; intros seen; cbn [normalize_race]; [constructor|].
  destruct (_ || _); [apply IH|]. cbn [fmap list_fmap]. apply NoDup_cons. split; [|apply IH].
  intros (c & E & (_ & _ & Hn)%normalize_race_spec)%list_elem_of_fmap. set_solver.
Qed.

(** ** The race *)

Definition opened (os : list race_outcome) : list transport_id := Transport ∘ rr_join <$> winners os.
Definition errors (os : list race_outcome) : list string := omap (fun o => match o with Err e => Some e | Ok _ => None end) os.

(** What the loop has done with the outcomes so far. *)
Record race_inv (s : race_state) (os : list race_outcome) : Prop := {
  ri_opened : opened os ≡ₚ shut s ++ closeRaceResult (best s);
  ri_best : ∀ b, best s = Some b → b ∈ winners os ∧ ∀ r, r ∈ winners os → betterCandidate (rr_candidate r) (rr_candidate b) = false;
  ri_none : best s = None → winners os = [];
  ri_errors : failures s = errors os;
  ri_settling : settling s = true → is_Some (best s);
}.

Lemma winners_app os os' : winners (os ++ os') = winners os ++ winners os'.
Proof. apply omap_app. Qed.
Lemma opened_app os os' : opened (os ++ os') = opened os ++ opened os'.
Proof. unfold opened. by rewrite winners_app, fmap_app. Qed.

Lemma race_arrived_inv s os o : race_inv s os → race_inv (race_arrived s o) (os ++ [o]).
Proof.
  intros [I1 I2 I3 I4 I5]. destruct o as [r|e]; cbn [race_arrived].
  2:{ split; cbn [best failures settling shut]; rewrite ?opened_app, ?winners_app; cbn [opened winners omap list_omap fmap list_fmap]; rewrite ?app_nil_r; try done.
      unfold errors in *. by rewrite omap_app, I4. }
  destruct (best s) as [b|] eqn:Hb.
  - destruct (I2 b eq_refl) as [Hin Hmin]. destruct (betterCandidate (rr_candidate r) (rr_candidate b)) eqn:Hbet;
      (split; cbn [best failures settling shut]; [| |done|unfold errors in *; rewrite omap_app, I4; cbn; by rewrite app_nil_r|by eexists]).
    + rewrite opened_app. cbn. rewrite I1. cbn. done.
    + intros b' [= <-]. rewrite winners_app. cbn. split; [set_solver|]. intros r' [Hr'|Hr'%list_elem_of_singleton]%elem_of_app.
      * destruct (betterCandidate (rr_candidate r') (rr_candidate r)) eqn:E; [|done]. rewrite <- (Hmin r' Hr'). symmetry. by eapply betterCandidate_trans.
      * subst. apply betterCandidate_irrefl.
    + rewrite opened_app. cbn. rewrite I1. cbn. by rewrite <- !(assoc_L (++)), (comm (++) [_] [_]).
    + intros b' [= <-]. rewrite winners_app. cbn. split; [set_solver|]. intros r' [Hr'|Hr'%list_elem_of_singleton]%elem_of_app; [by apply Hmin|by subst].
  - specialize (I3 eq_refl). split; cbn [best failures settling shut].
    + rewrite opened_app. cbn. rewrite I1. cbn. by rewrite app_nil_r.
    + intros b' [= <-]. rewrite winners_app, I3. cbn. split; [set_solver|]. intros r' Hr'%list_elem_of_singleton. subst. apply betterCandidate_irrefl.
    + done.
    + unfold errors in *. rewrite omap_app, I4. cbn. by rewrite app_nil_r.
    + by eexists.
Qed.

Definition returned (e : race_end) : list transport_id := match e with Won r => [Transport (rr_join r)] | _ => [] end.

Lemma race_loop_spec evs n s os :
  race_inv s os → length (event_outcomes evs) = n →
  ∃ e closed os1 os2, race_loop evs n s = Some (e, closed) ∧ event_outcomes evs = os1 ++ os2 ∧
    opened (os ++ os1 ++ os2) ≡ₚ returned e ++ closed ∧
    match e with
    | Won r => r ∈ winners (os ++ os1) ∧ ∀ r', r' ∈ winners (os ++ os1) → betterCandidate (rr_candidate r') (rr_candidate r) = false
    | AllFailed fs => os2 = [] ∧ winners (os ++ os1) = [] ∧ fs = errors (os ++ os1)
    | Cancelled => ContextDone ∈ evs
    end.
Proof.
  revert n s os. induction evs as [|ev evs IH]; intros n s os Hs Hn.
  { cbn in Hn. subst n. destruct Hs as [I1 I2 I3 I4 _]. exists (match best s with Some r => Won r | None => AllFailed (failures s) end), (shut s), [], [].
    split; [done|]. split; [done|]. rewrite !app_nil_r. destruct (best s) as [b|] eqn:Hb; cbn [returned].
    - split; [rewrite I1; cbn; by rewrite (comm (++))|by apply I2].
    - split; [rewrite I1; by rewrite app_nil_r|]. split; [done|]. split; [by apply I3|done]. }
  destruct ev as [o| |].
  - cbn in Hn. subst n. cbn [race_loop]. destruct (IH (length (event_outcomes evs)) (race_arrived s o) (os ++ [o])) as (e & closed & os1 & os2 & Hl & Ho & Hp & He);
      [by apply race_arrived_inv|done|]. exists e, closed, (o :: os1), os2. rewrite <- !(assoc_L (++)) in Hp, He. cbn [app] in Hp, He.
    split; [exact Hl|]. split; [exact (f_equal (cons o) Ho)|]. split; [exact Hp|]. destruct e; [exact He..|by right].
  - change (event_outcomes (SettleFired :: evs)) with (event_outcomes evs) in *. destruct n as [|n].
    + destruct (IH 0%nat s os Hs Hn) as (e & closed & os1 & os2 & Hl & Ho & Hp & He). exists e, closed, os1, os2.
      split; [by destruct evs|]. split; [done|]. split; [done|]. destruct e; try done. by right.
    + cbn [race_loop]. destruct (settling s) eqn:Hset.
      2:{ destruct (IH (S n) s os Hs Hn) as (e & closed & os1 & os2 & ? & ? & ? & He). exists e, closed, os1, os2. split_and!; try done. destruct e; try done. by right. }
      destruct Hs as [I1 I2 I3 I4 I5]. destruct (I5 Hset) as [b Hb]. rewrite Hb.
      exists (Won b), (shut s ++ drainCandidateResults evs), [], (event_outcomes evs). split; [done|]. split; [done|]. rewrite app_nil_r. split; [|by apply I2].
      rewrite opened_app, I1, Hb. cbn [returned closeRaceResult option_list fmap option_fmap option_map].
      change (drainCandidateResults evs) with (opened (event_outcomes evs)). cbn. rewrite <- (assoc_L (++)). cbn. by rewrite <- Permutation_middle.
  - change (event_outcomes (ContextDone :: evs)) with (event_outcomes evs) in *. destruct n as [|n].
    + destruct (IH 0%nat s os Hs Hn) as (e & closed & os1 & os2 & Hl & Ho & Hp & He). exists e, closed, os1, os2.
      split; [by destruct evs|]. split; [done|]. split; [done|]. destruct e; try done. by left.
    + destruct Hs as [I1 I2 I3 I4 I5]. exists Cancelled, (shut s ++ closeRaceResult (best s) ++ drainCandidateResults evs), [], (event_outcomes evs).
      split; [done|]. split; [done|]. split; [|by left]. cbn [returned app]. rewrite opened_app, I1, <- (assoc_L (++)). done.
Qed.

(** C27: joining several relays at once leaks no connection and always ends.
    Once each attempt has reported, in whatever order outcomes, the timer and the
    end of the context come, the race has ended; the connection it returns and
    those it closed are together exactly the connections that were opened, each
    once; the one returned is not worse than any that had been reported when it
    was chosen; and it fails only when every attempt failed, with their errors, or
    when its context ended. *)
Theorem race_settles candidates evs :
  normalizeRaceCandidates candidates ≠ [] → length (event_outcomes evs) = length (normalizeRaceCandidates candidates) →
  ∃ e closed reported later, RaceJoin candidates evs = Ok (Some (e, closed)) ∧ event_outcomes evs = reported ++ later ∧
    opened (event_outcomes evs) ≡ₚ returned e ++ closed ∧
    match e with
    | Won r => r ∈ winners reported ∧ ∀ r', r' ∈ winners reported → betterCandidate (rr_candidate r') (rr_candidate r) = false
    | AllFailed fs => opened (event_outcomes evs) = [] ∧ fs = errors (event_outcomes evs)
    | Cancelled => ContextDone ∈ evs
    end.
Proof.
  intros Hne Hlen. unfold RaceJoin. cbv zeta. destruct (normalizeRaceCandidates candidates) as [|c cs] eqn:Hc; [done|]. cbn [length Nat.eqb].
  destruct (race_loop_spec evs (length (c :: cs)) start_race []) as (e & closed & os1 & os2 & Hl & Ho & Hp & He); [|done|].
  { split; cbn; done. }
  exists e, closed, os1, os2. cbn [app length] in *. rewrite Hl, Ho. split_and!; try done. destruct e as [r|fs|]; try done.
  destruct He as (-> & Hw & ->). rewrite app_nil_r. split; [|done]. unfold opened. by rewrite Hw.
Qed.

(** ** Several connections *)

Lemma bundle_fold os s :
  NoDup os.*1 →
  let s' := foldl bundle_outcome s os in
  (∀ i, i ∉ os.*1 → channels s' !! i = channels s !! i) ∧
  (∀ i o, (i, o) ∈ os → channels s !! i = None → channels s' !! i = o) ∧
  (setupErr s' = true ↔ setupErr s = true ∨ ∃ i, (i, None) ∈ os).
Proof.
  revert s. induction os as [|[i o] os IH]; intros s Hnd; cbv zeta; cbn [foldl].
  { split_and!; [done|by intros i o ?%not_elem_of_nil|]. split; [by left|]. by intros [?|[i ?%not_elem_of_nil]]. }
  cbn [fmap list_fmap fst] in Hnd. apply NoDup_cons in Hnd as [Hnot Hnd]. destruct (IH (bundle_outcome s (i, o)) Hnd) as (I1 & I2 & I3).
  assert (Hother : ∀ j, j ≠ i → channels (bundle_outcome s (i, o)) !! j = channels s !! j).
  { intros j Hj. unfold bundle_outcome. destruct o as [t|]; cbn [snd fst channels]; [by rewrite lookup_insert_ne|done]. }
  split_and!.
  - intros j Hj. cbn [fmap list_fmap fst] in Hj. rewrite I1 by set_solver. apply Hother. set_solver.
  - intros j o' [[= -> ->]|Hin]%elem_of_cons Hj.
    + rewrite I1 by done. unfold bundle_outcome. destruct o as [t|]; cbn [snd fst channels]; [by rewrite lookup_insert_eq|done].
    + apply I2; [done|]. rewrite Hother; [done|]. intros ->. apply Hnot, list_elem_of_fmap. by exists (i, o').
  - rewrite I3. unfold bundle_outcome. destruct o as [t|]; cbn [snd setupErr]; split.
    + intros [?|[j ?]]; [by left|right; exists j; by right].
    + intros [?|[j [[=]|?]%elem_of_cons]]; [by left|right; by exists j].
    + intros _. right. exists i. by left.
    + intros _. by left.
Qed.

Lemma omap_fst {A B C} (f : A → option C) (l : list (A * B)) : omap f l.*1 = omap (f ∘ fst) l.
Proof. induction l as [|[a b] l IH]; [done|]. cbn. by rewrite IH. Qed.

Lemma omap_ext_in {A B} (f g : A → option B) (l : list A) : (∀ x, x ∈ l → f x = g x) → omap f l = omap g l.
Proof.
  induction l as [|a l IH]; intros Hfg; [done|]. cbn. rewrite (Hfg a) by by left. rewrite IH; [done|]. intros x Hx. apply Hfg. by right.
Qed.

(** The further connections of a transfer.  With the outcomes of all the
    auxiliary joins, in any order, the client either uses all of them, each at its
    own index behind the first, or, when one failed, only the first, and then every
    other connection that was opened is closed; and two clients the relay paired
    ask for the same number of connections. *)
Theorem bundle_all_or_one primary count outcomes chs n closed :
  let wanted := Z.to_nat (bundle_count primary count) in
  outcomes.*1 ≡ₚ seq 1 (wanted - 1) → 1 < bundle_count primary count →
  JoinBundle primary count outcomes = (chs, n, closed) →
  ((∃ i, (i, None) ∈ outcomes) → chs = [Transport primary] ∧ n = 1 ∧ closed ≡ₚ omap snd outcomes) ∧
  ((∀ i, (i, None) ∉ outcomes) → n = bundle_count primary count ∧ length chs = wanted ∧ closed = [] ∧ chs !! 0%nat = Some (Transport primary) ∧
     ∀ i t, (i, Some t) ∈ outcomes ↔ (1 ≤ i)%nat ∧ chs !! i = Some t) ∧
  ∀ t t' c c' punch p p', join_result t (ready_status punch c') = Ok p → join_result t' (ready_status punch c) = Ok p' →
    bundle_count p (c_count c) = bundle_count p' (c_count c') ∨ c_count c ≤ 0 ∨ c_count c' ≤ 0.
Proof.
  cbv zeta. intros Hperm Hn Hres. rewrite (assoc (∧)). split.
  2:{ intros t t' c c' punch p p'. unfold join_result. cbn [ready_status SType String.eqb Ascii.eqb Bool.eqb negb]. intros [= <-] [= <-].
      unfold bundle_count, normalizedRelayConnectionCount. cbn [JPeerConnectionCount ready_status PeerConnectionCount].
      destruct (Z.leb_spec (c_count c) 0), (Z.leb_spec (c_count c') 0). all: try lia. left. rewrite !(proj2 (Z.leb_gt _ _)) by done. lia. }
  revert Hres. unfold JoinBundle. cbv zeta. destruct (Z.leb_spec (bundle_count primary count) 1); [lia|].
  set (w := Z.to_nat (bundle_count primary count)) in *. assert (Hnd : NoDup outcomes.*1) by (rewrite Hperm; apply NoDup_seq).
  destruct (bundle_fold outcomes (MkBundle {[0%nat := Transport primary]} false) Hnd) as (F1 & F2 & F3).
  set (s := foldl bundle_outcome _ outcomes) in *. cbn [channels setupErr] in F1, F2, F3.
  assert (Hch : ∀ i o, (i, o) ∈ outcomes → channels s !! i = o).
  { intros i o Hin. apply F2; [done|]. apply lookup_singleton_ne. intros <-. assert (0 ∈ outcomes.*1)%nat as H0 by (apply list_elem_of_fmap; by exists (0%nat, o)).
    rewrite Hperm, elem_of_seq in H0. lia. }
  assert (Hrest : omap (λ i, channels s !! i) (seq 1 (w - 1)) ≡ₚ omap snd outcomes).
  { rewrite <- Hperm, omap_fst. erewrite omap_ext_in; [done|]. intros [i o] Hin. by apply Hch. }
  intros Hres. split; intros Hfail.
  - assert (setupErr s = true) as Herr by (apply F3; by right). rewrite Herr in Hres. injection Hres as <- <- <-. by split_and!.
  - assert (setupErr s = false) as Herr. { apply not_true_iff_false. intros [?|[i Hi]]%F3; [done|]. by apply Hfail in Hi. }
    rewrite Herr in Hres. injection Hres as <- <- <-.
    assert (Hall : ∀ i, (1 ≤ i < w)%nat → ∃ t, channels s !! i = Some t ∧ (i, Some t) ∈ outcomes).
    { intros i Hi. assert (i ∈ outcomes.*1) as ([i' o] & -> & Hin)%list_elem_of_fmap by (rewrite Hperm, elem_of_seq; lia).
      destruct o as [t|]; [|by apply Hfail in Hin]. exists t. split; [by apply Hch|done]. }
    assert (Hlist : ∀ a m, (∀ i, (a ≤ i < a + m)%nat → is_Some (channels s !! i)) →
      length (omap (λ i, channels s !! i) (seq a m)) = m ∧ ∀ j, (j < m)%nat → omap (λ i, channels s !! i) (seq a m) !! j = channels s !! (a + j)%nat).
    { intros a m. revert a. induction m as [|m IH]; intros a Hsome; [split; [done|lia]|]. cbn [seq omap list_omap].
      destruct (Hsome a) as [t Ht]; [lia|]. cbn. rewrite Ht. destruct (IH (S a)) as [IHl IHj]; [intros i Hi; apply Hsome; lia|].
      split; [cbn; by rewrite IHl|]. intros [|j] Hj; [cbn; by rewrite Nat.add_0_r|]. cbn. rewrite IHj by lia. f_equal. lia. }
    destruct (Hlist 1%nat (w - 1)%nat) as [Hlen Hlook]; [intros i Hi; destruct (Hall i) as (t & ? & _); [lia|by exists t]|].
    split; [unfold w; lia|]. split; [cbn; rewrite Hlen; unfold w; lia|]. split; [done|]. split; [done|].
    intros i t. split.
    + intros Hin. assert (i ∈ outcomes.*1) as Hi by (apply list_elem_of_fmap; by exists (i, Some t)). rewrite Hperm, elem_of_seq in Hi.
      split; [lia|]. destruct i as [|i]; [lia|]. cbn. rewrite Hlook by lia. by apply Hch.
    + intros [Hi Hl]. destruct i as [|i]; [lia|]. cbn in Hl. assert (Hiw : (i < w - 1)%nat) by (rewrite <- Hlen; by eapply lookup_lt_Some).
      rewrite Hlook in Hl by done. destruct (Hall (S i)) as (t' & Ht' & Hin); [lia|]. cbn in Hl. assert (t' = t) as -> by congruence. done.
Qed.

(** ** Examples *)

Definition demo_candidate (addr : string) (priority : Z) : RelayCandidate := MkRelayCandidate addr "lan" priority 0 false.
Definition demo_result (t : transport_id) : JoinResult := MkJoinResult t 0 3 "" [] [] [] [] "".
Definition demo_outcome (addr : string) (priority : Z) (t : transport_id) : race_outcome :=
  Ok (MkRaceResult (demo_result t) (demo_candidate addr priority)).

Lemma race_settles_witness :
  ∃ e closed reported later,
    RaceJoin [demo_candidate "a:1" 2; demo_candidate "b:1" 1] [Arrived (demo_outcome "a:1" 2 7%nat); Arrived (demo_outcome "b:1" 1 8%nat)]
      = Ok (Some (e, closed)) ∧
    event_outcomes [Arrived (demo_outcome "a:1" 2 7%nat); Arrived (demo_outcome "b:1" 1 8%nat)] = reported ++ later ∧
    [7; 8]%nat ≡ₚ returned e ++ closed.
Proof.
  destruct (race_settles [demo_candidate "a:1" 2; demo_candidate "b:1" 1]
    [Arrived (demo_outcome "a:1" 2 7%nat); Arrived (demo_outcome "b:1" 1 8%nat)]) as (e & closed & reported & later & E1 & E2 & E3 & _);
    [discriminate|reflexivity|].
  exists e, closed, reported, later. split; [exact E1|]. split; [exact E2|]. exact E3.
Defined.

(** Both ends of a pair race over the same two relays; each keeps the relay whose
    answer reaches it first, when the other's comes after the settle window, and
    closes its connection to the one the other end kept. *)
Example racers_part :
  let candidates := [demo_candidate "a:1" 1; demo_candidate "b:1" 1] in
  let kept evs := match RaceJoin candidates evs with Ok (Some (Won r, closed)) => Some (Addr (rr_candidate r), closed) | _ => None end in
  kept [Arrived (demo_outcome "a:1" 1 1%nat); SettleFired; Arrived (demo_outcome "b:1" 1 2%nat)] = Some ("a:1"%string, [2%nat]) ∧
  kept [Arrived (demo_outcome "b:1" 1 4%nat); SettleFired; Arrived (demo_outcome "a:1" 1 3%nat)] = Some ("b:1"%string, [3%nat]).
Proof. vm_compute. done. Qed.

Lemma bundle_all_or_one_witness :
  ∃ chs closed, JoinBundle (demo_result 0%nat) 4 [(2, Some 12); (1, Some 11)]%nat = (chs, 3, closed) ∧ chs !! 2%nat = Some 12%nat.
Proof.
  pose proof (bundle_all_or_one (demo_result 0%nat) 4 [(2, Some 12); (1, Some 11)]%nat [0; 11; 12]%nat 3 []) as E.
  destruct E as (_ & E & _); [apply perm_swap|vm_compute; reflexivity|vm_compute; reflexivity|].
  destruct E as (_ & _ & _ & _ & E); [intros i Hi; set_solver|].
  exists [0; 11; 12]%nat, []. split; [vm_compute; reflexivity|]. apply E. set_solver.
Defined.
