(* ===== verification/ClientAddress.v ===== *)
(** * Who a request came from ([internal/service/client_address.go])

    Behind trusted proxies the service reads the client's address from the
    headers the proxies add; the address is what its rate limits count by.  The
    theorem: only addresses added by trusted proxies are believed, so whatever a
    client puts into the headers itself, it cannot choose the address it is
    counted under.  The prefixes and the printing of addresses of [net/netip]
    complete [Netip]. *)
From Stdlib Require Import ZArith Lia Ascii String.
From stdpp Require Import base tactics numbers list strings.
From S2P Require Import Prelude GoStrings Netip.

(** ** Prefixes ([netip.Prefix]) *)

Definition BitLen (a : Addr) : Z := 8 * Z.of_nat (length (octets a)).

(** A prefix: its address and the number of bits, negative when invalid. *)
Record Prefix := MkPrefix { PAddr : Addr; Bits : Z }.
Definition prefix_valid (p : Prefix) : bool := (0 <=? Bits p) && (Bits p <=? BitLen (PAddr p)) && (0 <? BitLen (PAddr p)).

(** The first [n] bits of the bytes of an address, the rest cleared. *)
Fixpoint mask_bits (n : Z) (bs : list Z) : list Z :=
  match bs with
  | [] => []
  | b :: bs =>
      (if n >=? 8 then b else if n <=? 0 then 0 else Z.land b (256 - 2 ^ (8 - n))) :: mask_bits (n - 8) bs
  end.
Definition Masked (p : Prefix) : Prefix :=
  if prefix_valid p then MkPrefix (MkAddr (mask_bits (Bits p) (octets (PAddr p))) "") (Bits p) else p.
Definition prefix_contains (p : Prefix) (a : Addr) : bool :=
  prefix_valid p && String.eqb (azone a) "" && (BitLen (PAddr p) =? BitLen a)
  && bool_decide (mask_bits (Bits p) (octets (PAddr p)) = mask_bits (Bits p) (octets a)).

(** [strconv.Atoi] of the bits, without a sign or leading zeros. *)
Definition prefix_bits (s : string) : option Z :=
  if (str_len s >? 1) && negb (match s with String c _ => in_byte_range "1"%char "9"%char c | EmptyString => false end) then None
  else ParseInt s.
Definition ParsePrefix (s : string) : option Prefix :=
  match last_index_byte "/"%char (to_bytes s) with
  | None => None
  | Some i =>
      ip ← ParseAddr (of_bytes (take i (to_bytes s)));
      if negb (String.eqb (azone ip) "") then None
      else bits ← prefix_bits (of_bytes (drop (S i) (to_bytes s)));
           if (bits <? 0) || (bits >? BitLen ip) then None else Some (MkPrefix ip bits)
  end.

(** ** Printing ([netip.Addr.String]) *)

Definition hex_digit (z : Z) : ascii := nth (Z.to_nat z) (to_bytes "0123456789abcdef") "0"%char.
Fixpoint hex_digits (fuel : nat) (z : Z) (acc : bytes) : bytes :=
  match fuel with
  | O => acc
  | S fuel => let acc := hex_digit (z mod 16) :: acc in if z / 16 =? 0 then acc else hex_digits fuel (z / 16) acc
  end.
Definition append_hex (z : Z) : bytes := hex_digits 4 z [].

Fixpoint groups (bs : list Z) : list Z :=
  match bs with a :: b :: rest => (a * 256 + b) :: groups rest | _ => [] end.
Fixpoint zero_run (gs : list Z) : nat := match gs with g :: gs => if g =? 0 then S (zero_run gs) else O | [] => O end.

(** The first longest run of at least two zero groups. *)
Fixpoint longest_run (i : nat) (gs : list Z) (best : nat * nat) : nat * nat :=
  match gs with
  | [] => best
  | _ :: rest =>
      let l := zero_run gs in
      longest_run (S i) rest (if ((2 <=? l) && (best.2 - best.1 <? l))%nat then (i, i + l)%nat else best)
  end.
Fixpoint print_groups (fuel i : nat) (gs : list Z) (run : nat * nat) : bytes :=
  match fuel with
  | O => []
  | S fuel =>
      if (8 <=? i)%nat then []
      else if bool_decide (run.1 < run.2)%nat && Nat.eqb i run.1 then
        to_bytes "::" ++
        (if (8 <=? run.2)%nat then [] else append_hex (nth run.2 gs 0) ++ print_groups fuel (S run.2) gs run)
      else (if (0 <? i)%nat then [":"%char] else []) ++ append_hex (nth i gs 0) ++ print_groups fuel (S i) gs run
  end.
Definition print_v4 (bs : list Z) : string := join_with "."%char (Itoa <$> bs).
Definition AddrString (a : Addr) : string :=
  if Is4 a then print_v4 (octets a)
  else
    let zone := if String.eqb (azone a) "" then ""%string else "%" +:+ azone a in
    if Is4In6 a then "::ffff:" +:+ print_v4 (drop 12 (octets a)) +:+ zone
    else let gs := groups (octets a) in of_bytes (print_groups 9 0 gs (longest_run 0 gs (0, 0)%nat)) +:+ zone.

Example print_v6 : option_map AddrString ∘ ParseAddr <$> ["2001:db8:0:0:1:0:0:1"; "::"; "::1"; "fe80::"; "1:0:2:3:4:5:6:7"; "::ffff:1.2.3.4"; "10.0.0.255"]%string
  = Some <$> ["2001:db8::1:0:0:1"; "::"; "::1"; "fe80::"; "1:0:2:3:4:5:6:7"; "::ffff:1.2.3.4"; "10.0.0.255"]%string.
Proof. reflexivity. Qed.

(** ** The service's proxies *)

Inductive proxy_error := InvalidTrustedProxy (raw : string).

Definition parse_proxy (raw : string) : result proxy_error Prefix :=
  match ParsePrefix raw with
  | Some p => Ok (Masked p)
  | None =>
      match ParseAddr raw with
      | None => Err (InvalidTrustedProxy raw)
      | Some a => if negb (String.eqb (azone a) "") then Err (InvalidTrustedProxy raw) else Ok (Masked (MkPrefix a (BitLen a)))
      end
  end.
Fixpoint parse_proxies (raws : list string) : result proxy_error (list Prefix) :=
  match raws with
  | [] => Ok []
  | raw :: raws =>
      let raw := TrimSpace raw in
      if String.eqb raw "" then parse_proxies raws
      else p ← parse_proxy raw; ps ← parse_proxies raws; Ok (p :: ps)
  end.
Definition parseTrustedProxies (value : string) : result proxy_error (list Prefix) := parse_proxies (split_on ","%char value).

Definition isTrustedProxy (proxies : list Prefix) (a : Addr) : bool := existsb (fun p => prefix_contains p a) proxies.

Definition parseAddress (value : string) : option Addr :=
  let value := TrimSpace value in
  let value := match SplitHostPort value with Some (host, _) => host | None => value end in
  let value := of_bytes (trim_bytes [["["%char]; ["]"%char]] (to_bytes value)) in
  a ← ParseAddr value;
  if negb (String.eqb (azone a) "") then None else Some (Unmap a).

(** The entries from the last to the first: the first one that no trusted proxy
    has, or the last one read. *)
Fixpoint walk_forwarded (proxies : list Prefix) (remote : Addr) (leftmost : option Addr) (rev_parts : list string) : option Addr + string :=
  match rev_parts with
  | [] => inl leftmost
  | part :: rest =>
      match parseAddress (TrimSpace part) with
      | None => inr (AddrString remote)
      | Some a => if isTrustedProxy proxies a then walk_forwarded proxies remote (Some a) rest else inr (AddrString a)
      end
  end.

(** [forwarded] are the values of the X-Forwarded-For headers, [real_ip] that of X-Real-IP. *)
Definition clientAddress (proxies : list Prefix) (remoteAddr : string) (forwarded : list string) (real_ip : string) : string :=
  match parseAddress remoteAddr with
  | None => remoteAddr
  | Some remote =>
      if negb (isTrustedProxy proxies remote) then remoteAddr
      else
        let joined := join_with ","%char forwarded in
        let from_real := match parseAddress (TrimSpace real_ip) with Some a => AddrString a | None => AddrString remote end in
        if String.eqb joined "" then from_real
        else match walk_forwarded proxies remote None (rev (split_on ","%char joined)) with
             | inr s => s
             | inl (Some leftmost) => AddrString leftmost
             | inl None => from_real
             end
  end.

(** ** What can be believed *)

(** An entry of the header, as the service reads it. *)
Definition entry_addr (part : string) : option Addr := parseAddress (TrimSpace part).

Lemma walk_trusted proxies remote left ps rest :
  Forall (λ p, ∃ a, entry_addr p = Some a ∧ isTrustedProxy proxies a = true) ps →
  ∃ left', walk_forwarded proxies remote left (ps ++ rest) = walk_forwarded proxies remote left' rest.
Proof.
  intros Hps. revert left. induction Hps as [|p ps (a & Ha & Ht) _ IH]; intros left; [by exists left|].
  cbn [app walk_forwarded]. unfold entry_addr in Ha. rewrite Ha, Ht. apply IH.
Qed.

(** C28: a client cannot choose the address it is counted under.  A request that
    does not come from a trusted proxy is counted under its own connection,
    whatever headers it has.  One that does is counted under the last address in
    the forwarding headers that is not a trusted proxy's own, or under the proxy
    when an entry after it is not an address: what stands before it, which a
    client can write, and the X-Real-IP header change nothing. *)
Theorem client_address_not_forged proxies remoteAddr real_ip :
  (∀ forwarded, (∀ a, parseAddress remoteAddr = Some a → isTrustedProxy proxies a = false) →
     clientAddress proxies remoteAddr forwarded real_ip = remoteAddr) ∧
  ∀ remote forwarded forged part trusted,
    parseAddress remoteAddr = Some remote → isTrustedProxy proxies remote = true →
    split_on ","%char (join_with ","%char forwarded) = forged ++ part :: trusted →
    Forall (λ p, ∃ a, entry_addr p = Some a ∧ isTrustedProxy proxies a = true) trusted →
    join_with ","%char forwarded ≠ ""%string →
    (∀ a, entry_addr part = Some a → isTrustedProxy proxies a = false) →
    clientAddress proxies remoteAddr forwarded real_ip = AddrString (default remote (entry_addr part)).
Proof.
  split.
  - intros forwarded Hnot. unfold clientAddress. destruct (parseAddress remoteAddr) as [a|]; [|done]. by rewrite Hnot.
  - intros remote forwarded forged part trusted Hr Ht Hsplit Htrusted Hne Hpart. unfold clientAddress. rewrite Hr, Ht. cbv zeta. cbn [negb].
    apply String.eqb_neq in Hne as ->. rewrite Hsplit, rev_app_distr. cbn [rev]. rewrite <- (assoc_L (++)). cbn [app].
    destruct (walk_trusted proxies remote None (rev trusted) (part :: rev forged)) as [left ->]; [by apply Forall_rev|].
    cbn [walk_forwarded]. unfold entry_addr in *. destruct (parseAddress (TrimSpace part)) as [a|]; [|done]. by rewrite Hpart.
Qed.

Definition demo_proxies : list Prefix :=
  match parseTrustedProxies "10.0.0.0/8, 2001:db8::/32" with Ok ps => ps | Err _ => [] end.
Lemma client_address_not_forged_witness :
  clientAddress demo_proxies "10.1.2.3:4711" ["1.1.1.1, 203.0.113.9"; "10.9.9.9"]%string "8.8.8.8" = "203.0.113.9"%string.
Proof.
  destruct (client_address_not_forged demo_proxies "10.1.2.3:4711" "8.8.8.8") as [_ E].
  rewrite (E (MkAddr [10; 1; 2; 3] "") ["1.1.1.1, 203.0.113.9"; "10.9.9.9"]%string ["1.1.1.1"]%string " 203.0.113.9" ["10.9.9.9"]%string);
    [vm_compute; reflexivity|vm_compute; reflexivity|vm_compute; reflexivity|vm_compute; reflexivity| |discriminate|].
  - apply Forall_singleton. exists (MkAddr [10; 9; 9; 9] ""). split; vm_compute; reflexivity.
  - intros a Ha. vm_compute in Ha. injection Ha as <-. vm_compute. reflexivity.
Defined.

(** Addresses are unmapped before they are compared, prefixes are not: a proxy
    configured by its IPv4-mapped address is accepted and never recognised. *)
Example mapped_proxy_unknown :
  match parseTrustedProxies "::ffff:10.0.0.1" with
  | Ok ps => option_map (isTrustedProxy ps) (parseAddress "[::ffff:10.0.0.1]:80") = Some false
  | Err _ => False
  end.
Proof. vm_compute. reflexivity. Qed.
