(* ===== verification/RateLimit.v ===== *)
(** * Rate limits of the service ([internal/service/service.go])

    Requests are counted per host over the last minute.  The theorem: however
    requests and clean-ups of the counters follow each other, each request is
    admitted exactly when fewer than the limit were admitted from its host within
    the minute before it. *)
From Stdlib Require Import ZArith Lia Ascii String.
From stdpp Require Import base tactics numbers list gmap strings sorting.
From S2P Require Import Prelude GoStrings RelayCredential.

Definition Minute : Z := 60 * second_ns.

(** [recentRateEvents]: the events after the start of the window, in place. *)
Definition recentRateEvents (events : list Z) (windowStart : Z) : list Z := filter (fun e => windowStart < e) events.

Definition rate_host (remote : string) : string := match SplitHostPort remote with Some (host, _) => host | None => remote end.

Definition allowRate (limits : gmap string (list Z)) (remote : string) (maximum now : Z) : bool * gmap string (list Z) :=
  if maximum <? 0 then (true, limits)
  else
    let host := rate_host remote in
    let keep := recentRateEvents (default [] (limits !! host)) (now - Minute) in
    if Z.of_nat (length keep) >=? maximum then (false, <[host := keep]> limits)
    else (true, <[host := keep ++ [now]]> limits).

Definition cleanup_limits (limits : gmap string (list Z)) (now : Z) : gmap string (list Z) :=
  omap (fun events => let keep := recentRateEvents events (now - Minute) in if Nat.eqb (length keep) 0 then None else Some keep) limits.

(** Both tables of the server, and the clean-up of both. *)
Record rate_tables := MkTables { signalLimits : gmap string (list Z); iceLimits : gmap string (list Z) }.
Definition cleanupRateLimitsLocked (t : rate_tables) (now : Z) : rate_tables :=
  MkTables (cleanup_limits (signalLimits t) now) (cleanup_limits (iceLimits t) now).
Definition allow (t : rate_tables) (remote : string) (perMinute now : Z) : bool * rate_tables :=
  let '(ok, limits) := allowRate (signalLimits t) remote perMinute now in (ok, MkTables limits (iceLimits t)).
Definition allowICE (t : rate_tables) (remote : string) (perMinute now : Z) : bool * rate_tables :=
  let '(ok, limits) := allowRate (iceLimits t) remote perMinute now in (ok, MkTables (signalLimits t) limits).

(** ** Runs *)

Inductive rate_op := SignalRequest (remote : string) (now : Z) | ICERequest (remote : string) (now : Z) | RateCleanup (now : Z).
Definition op_time (o : rate_op) : Z := match o with SignalRequest _ t | ICERequest _ t | RateCleanup t => t end.

Section limits.
Context (signalMax iceMax : Z).

Definition rate_act (t : rate_tables) (o : rate_op) : option bool * rate_tables :=
  match o with
  | SignalRequest remote now => let '(ok, t) := allow t remote signalMax now in (Some ok, t)
  | ICERequest remote now => let '(ok, t) := allowICE t remote iceMax now in (Some ok, t)
  | RateCleanup now => (None, cleanupRateLimitsLocked t now)
  end.
Fixpoint rate_run (t : rate_tables) (os : list rate_op) : list (option bool) :=
  match os with
  | [] => []
  | o :: os => let '(ok, t) := rate_act t o in ok :: rate_run t os
  end.

(** The reference: the admitted requests of both kinds so far, with their hosts
    and times; nothing is ever forgotten. *)
Definition admitted_recently (history : list (string * Z)) (host : string) (now : Z) : Z :=
  Z.of_nat (length (filter (fun e => e.1 = host ∧ now - Minute < e.2) history)).
Definition admits (maximum : Z) (history : list (string * Z)) (remote : string) (now : Z) : bool :=
  (maximum <? 0) || (admitted_recently history (rate_host remote) now <? maximum).
Definition record_admitted (ok : bool) (history : list (string * Z)) (remote : string) (now : Z) : list (string * Z) :=
  if ok then history ++ [(rate_host remote, now)] else history.
Fixpoint reference_run (signal ice : list (string * Z)) (os : list rate_op) : list (option bool) :=
  match os with
  | [] => []
  | SignalRequest remote now :: os =>
      let ok := admits signalMax signal remote now in Some ok :: reference_run (record_admitted ok signal remote now) ice os
  | ICERequest remote now :: os =>
      let ok := admits iceMax ice remote now in Some ok :: reference_run signal (record_admitted ok ice remote now) os
  | RateCleanup _ :: os => None :: reference_run signal ice os
  end.

(** ** The tables know all that counts *)

(** For every window that starts at [from] or later the table of a limited kind
    holds the admitted times of each host. *)
Definition of_host (history : list (string * Z)) (host : string) : list Z :=
  omap (fun e => if String.eqb e.1 host then Some e.2 else None) history.
Definition knows (maximum : Z) (limits : gmap string (list Z)) (history : list (string * Z)) (from : Z) : Prop :=
  0 ≤ maximum → ∀ host w, from ≤ w → recentRateEvents (default [] (limits !! host)) w = recentRateEvents (of_host history host) w.

Lemma recent_recent l w w' : w ≤ w' → recentRateEvents (recentRateEvents l w) w' = recentRateEvents l w'.
Proof.
  intros Hw. unfold recentRateEvents. rewrite list_filter_filter. apply list_filter_iff. intros x. lia.
Qed.
Lemma knows_later maximum limits history from from' : knows maximum limits history from → from ≤ from' → knows maximum limits history from'.
Proof. intros Hk Hle Hm host w Hw. apply Hk; [done|lia]. Qed.

Lemma of_host_app history host h now : of_host (history ++ [(h, now)]) host = of_host history host ++ (if String.eqb h host then [now] else []).
Proof. unfold of_host. rewrite omap_app. f_equal. cbn. by destruct (String.eqb h host). Qed.

Lemma admitted_recently_eq history host now :
  admitted_recently history host now = Z.of_nat (length (recentRateEvents (of_host history host) (now - Minute))).
Proof.
  unfold admitted_recently, recentRateEvents, of_host. f_equal. induction history as [|[h t] history IH]; [done|].
  rewrite filter_cons. cbn [fst snd omap list_omap]. destruct (String.eqb_spec h host) as [->|Hne].
  - rewrite filter_cons. destruct (decide (now - Minute < t)) as [Ht|Ht].
    + rewrite decide_True by done. cbn. by rewrite IH.
    + rewrite decide_False by tauto. done.
  - rewrite decide_False by tauto. done.
Qed.

Lemma allowRate_knows maximum limits history from remote now ok limits' :
  knows maximum limits history from → from ≤ now - Minute → allowRate limits remote maximum now = (ok, limits') →
  ok = admits maximum history remote now ∧ knows maximum limits' (record_admitted ok history remote now) (now - Minute).
Proof.
  intros Hk Hfrom. unfold allowRate, admits. destruct (Z.ltb_spec maximum 0) as [Hneg|Hpos].
  { intros [= <- <-]. split; [done|]. intros Hm. lia. }
  cbv zeta. cbn [orb]. rewrite (Hk Hpos (rate_host remote) (now - Minute) Hfrom), admitted_recently_eq.
  set (keep := recentRateEvents (of_host history (rate_host remote)) (now - Minute)).
  assert (Hins : ∀ l h, (∀ w, now - Minute ≤ w → recentRateEvents l w = recentRateEvents (of_host h (rate_host remote)) w) →
    (∀ host, host ≠ rate_host remote → of_host h host = of_host history host) → knows maximum (<[rate_host remote := l]> limits) h (now - Minute)).
  { intros l h Hl Hh _ host w Hw. destruct (decide (host = rate_host remote)) as [->|Hne].
    - rewrite lookup_insert_eq. by apply Hl.
    - rewrite lookup_insert_ne by done. rewrite Hh by done. apply Hk; [done|lia]. }
  destruct (Z.geb_spec (Z.of_nat (length keep)) maximum) as [Hge|Hlt]; intros [= <- <-].
  - split; [symmetry; apply Z.ltb_ge; lia|]. cbn [record_admitted]. apply Hins; [|done]. intros w Hw. by apply recent_recent.
  - split; [symmetry; apply Z.ltb_lt; lia|]. cbn [record_admitted]. apply Hins.
    + intros w Hw. rewrite of_host_app, String.eqb_refl. unfold recentRateEvents. rewrite !filter_app. f_equal. by apply recent_recent.
    + intros host Hne. rewrite of_host_app. apply not_eq_sym, String.eqb_neq in Hne as ->. by rewrite app_nil_r.
Qed.

Lemma cleanup_knows maximum limits history from now :
  knows maximum limits history from → from ≤ now - Minute → knows maximum (cleanup_limits limits now) history (now - Minute).
Proof.
  intros Hk Hfrom Hm host w Hw. rewrite <- (Hk Hm host w) by lia. unfold cleanup_limits. rewrite lookup_omap.
  destruct (limits !! host) as [events|]; [|done]. cbn [mbind option_bind default from_option id]. rewrite <- (recent_recent events (now - Minute) w) by done.
  by destruct (recentRateEvents events (now - Minute)).
Qed.

(** C29: the limits count exactly the last minute.  For requests and clean-ups at
    times that do not go back, each request is answered as the reference answers
    that forgets nothing: admitted exactly when its limit is off or fewer than the
    limit of its kind were admitted from the same host within the minute before
    it.  Clean-ups and requests of other hosts or the other kind never matter. *)
Theorem rate_limit_exact os :
  Sorted (λ a b, op_time a ≤ op_time b) os →
  rate_run (MkTables ∅ ∅) os = reference_run [] [] os.
Proof.
  intros Hs. apply Sorted_StronglySorted in Hs; [|intros a b c; lia].
  assert (Hgen : ∀ os t sig ice from, StronglySorted (λ a b, op_time a ≤ op_time b) os → Forall (λ o, from + Minute ≤ op_time o) os →
    knows signalMax (signalLimits t) sig from → knows iceMax (iceLimits t) ice from → rate_run t os = reference_run sig ice os).
  { clear os Hs. induction os as [|o os IH]; intros t sig ice from Hs Hf Hsig Hice; [done|].
    apply StronglySorted_inv in Hs as [Hs Hall]. apply Forall_cons in Hf as [Ho Hf].
    assert (Hfrom : from ≤ op_time o - Minute) by lia.
    assert (Hnext : Forall (λ o', op_time o - Minute + Minute ≤ op_time o') os) by (eapply Forall_impl; [exact Hall|]; cbn; lia).
    destruct o as [remote now|remote now|now]; cbn [rate_run rate_act reference_run op_time] in *.
    - unfold allow. destruct (allowRate (signalLimits t) remote signalMax now) as [ok limits'] eqn:E.
      destruct (allowRate_knows _ _ _ _ _ _ _ _ Hsig Hfrom E) as [-> Hsig']. f_equal.
      apply (IH _ _ _ (now - Minute)); [done|done|done|by eapply knows_later].
    - unfold allowICE. destruct (allowRate (iceLimits t) remote iceMax now) as [ok limits'] eqn:E.
      destruct (allowRate_knows _ _ _ _ _ _ _ _ Hice Hfrom E) as [-> Hice']. f_equal.
      apply (IH _ _ _ (now - Minute)); [done|done|by eapply knows_later|done].
    - f_equal. apply (IH _ _ _ (now - Minute)); [done|done|by eapply cleanup_knows|by eapply cleanup_knows]. }
  destruct os as [|o os]; [done|]. apply (Hgen _ _ _ _ (op_time o - Minute)); [done| |by intros|by intros].
  apply StronglySorted_inv in Hs as [_ Hall]. constructor; [lia|]. eapply Forall_impl; [exact Hall|]. cbn. lia.
Qed.
End limits.

Lemma rate_limit_exact_witness :
  rate_run 2 1 (MkTables ∅ ∅) [SignalRequest "10.0.0.1:5" 0; SignalRequest "10.0.0.1:6" 1; ICERequest "10.0.0.1:6" 1; RateCleanup 2; SignalRequest "10.0.0.1:7" 2;
    SignalRequest "10.0.0.2:7" 3; SignalRequest "10.0.0.1:8" Minute] = [Some true; Some true; Some true; None; Some false; Some true; Some true].
Proof.
  rewrite rate_limit_exact; [vm_compute; reflexivity|]. repeat constructor; discriminate.
Defined.
