(* ===== verification/TurnQuota.v ===== *)
(** * Quotas of the built-in TURN server ([internal/service/turn_control.go])

    The TURN library asks before it makes an allocation, and reports allocations
    made and deleted; every relayed packet is charged to token buckets.  The
    theorems: the counters are exactly the numbers of live allocations in all, per
    user and per source address, none of which ever exceeds its limit, and every
    live allocation is found by its client's and its relayed address; and a packet
    is charged to all its buckets or to none, and refused only when one of them
    has too little. *)
From Stdlib Require Import ZArith Lia Ascii String SpecFloat.
From stdpp Require Import base tactics numbers list gmap strings relations.
From S2P Require Import Prelude Float64 GoStrings RelayCredential RateLimit.

(** [turnAllocationIdentity] *)
Record identity := MkIdentity { IUser : string; IIP : string; ClientKey : string; RelayKey : string }.
#[export] Instance identity_eq_dec : EqDecision identity.
Proof. solve_decision. Defined.

(** [turnByteBucket]; [None] is the zero time. *)
Record bucket := MkBucket { Tokens : float64; Last : option Z }.
Definition f64_zero : float64 := S754_zero false.
Definition new_bucket : bucket := MkBucket f64_zero None.

Record quota := MkQuota {
  maxTotal : Z; maxPerUser : Z; maxPerIP : Z;
  total : Z;
  byUser : gmap string Z; byIP : gmap string Z;
  byClient : gmap string identity; byRelay : gmap string identity;   (* allocationsByClient, allocationsByRelay *)
  egressWindow : Z; maxEgressBytes : Z; maxEgressPerUser : Z; maxEgressPerIP : Z;
  globalBucket : bucket; userBuckets : gmap string bucket; ipBuckets : gmap string bucket;
  egressBytes : Z; droppedBytes : Z; quotaExceeded : Z;
  lastBucketCleanup : option Z;
}.

Definition newTURNAllocationQuota (maxTotal maxPerUser maxPerIP : Z) : quota :=
  MkQuota maxTotal maxPerUser maxPerIP 0 ∅ ∅ ∅ ∅ 0 (-1) (-1) (-1) new_bucket ∅ ∅ 0 0 0 None.
Definition ConfigureTraffic (q : quota) (window maxTotal' maxPerUser' maxPerIP' : Z) : quota :=
  MkQuota (maxTotal q) (maxPerUser q) (maxPerIP q) (total q) (byUser q) (byIP q) (byClient q) (byRelay q)
    window maxTotal' maxPerUser' maxPerIP' (globalBucket q) (userBuckets q) (ipBuckets q) (egressBytes q) (droppedBytes q) (quotaExceeded q)
    (lastBucketCleanup q).
Definition set_allocations (q : quota) (n : Z) (us is_ : gmap string Z) (cs rs : gmap string identity) : quota :=
  MkQuota (maxTotal q) (maxPerUser q) (maxPerIP q) n us is_ cs rs (egressWindow q) (maxEgressBytes q) (maxEgressPerUser q) (maxEgressPerIP q)
    (globalBucket q) (userBuckets q) (ipBuckets q) (egressBytes q) (droppedBytes q) (quotaExceeded q) (lastBucketCleanup q).
Definition set_buckets (q : quota) (g : bucket) (us is_ : gmap string bucket) (cleaned : option Z) : quota :=
  MkQuota (maxTotal q) (maxPerUser q) (maxPerIP q) (total q) (byUser q) (byIP q) (byClient q) (byRelay q)
    (egressWindow q) (maxEgressBytes q) (maxEgressPerUser q) (maxEgressPerIP q) g us is_ (egressBytes q) (droppedBytes q) (quotaExceeded q) cleaned.
Definition set_traffic (q : quota) (egress dropped exceeded : Z) : quota :=
  MkQuota (maxTotal q) (maxPerUser q) (maxPerIP q) (total q) (byUser q) (byIP q) (byClient q) (byRelay q)
    (egressWindow q) (maxEgressBytes q) (maxEgressPerUser q) (maxEgressPerIP q) (globalBucket q) (userBuckets q) (ipBuckets q)
    egress dropped exceeded (lastBucketCleanup q).

(** ** Allocations *)

Definition belowQuota (current maximum : Z) : bool := (maximum <? 0) || (current <? maximum).
Definition counter (counters : gmap string Z) (key : string) : Z := default 0 (counters !! key).
Definition incrementCounter (counters : gmap string Z) (key : string) : gmap string Z := <[key := counter counters key + 1]> counters.
Definition decrementCounter (counters : gmap string Z) (key : string) : gmap string Z :=
  if counter counters key <=? 1 then delete key counters else <[key := counter counters key - 1]> counters.

Section allocations.
Context `{CaseTables}.

(** Addresses print as strings; a nil address as the empty one. *)
Definition addressHost (addr : string) : string :=
  if String.eqb addr "" then "" else match SplitHostPort addr with Some (host, _) => ToLower host | None => ToLower addr end.
Definition addressKey (addr : string) : string := ToLower addr.

Definition Allow (q : quota) (username srcAddr : string) : bool :=
  let host := addressHost srcAddr in
  belowQuota (total q) (maxTotal q) && belowQuota (counter (byUser q) username) (maxPerUser q) && belowQuota (counter (byIP q) host) (maxPerIP q).

Definition Created (q : quota) (srcAddr username relayAddr : string) : quota :=
  let identity := MkIdentity username (addressHost srcAddr) (addressKey srcAddr) (addressKey relayAddr) in
  set_allocations q (total q + 1) (incrementCounter (byUser q) username) (incrementCounter (byIP q) (IIP identity))
    (if String.eqb (ClientKey identity) "" then byClient q else <[ClientKey identity := identity]> (byClient q))
    (if String.eqb (RelayKey identity) "" then byRelay q else <[RelayKey identity := identity]> (byRelay q)).

Definition Deleted (q : quota) (srcAddr username : string) : quota :=
  let clientKey := addressKey srcAddr in
  let '(cs, rs) := match byClient q !! clientKey with
                   | Some identity => (delete clientKey (byClient q), delete (RelayKey identity) (byRelay q))
                   | None => (byClient q, byRelay q)
                   end in
  set_allocations q (Z.max (total q - 1) 0) (decrementCounter (byUser q) username) (decrementCounter (byIP q) (addressHost srcAddr)) cs rs.

Record turnStats := MkTurnStats {
  Active : Z; Users : nat; IPs : nat; StatEgress : Z; StatDropped : Z; StatExceeded : Z; TrafficUsers : nat; TrafficIPs : nat;
  StatMaxEgress : Z; StatMaxPerUser : Z; StatMaxPerIP : Z; StatWindow : Z;
}.
Definition Stats (q : quota) : turnStats :=
  MkTurnStats (total q) (size (byUser q)) (size (byIP q)) (egressBytes q) (droppedBytes q) (quotaExceeded q)
    (size (userBuckets q)) (size (ipBuckets q)) (maxEgressBytes q) (maxEgressPerUser q) (maxEgressPerIP q) (egressWindow q).

(** ** Live allocations *)

(** The allocations the TURN library holds, by their client's address: an address
    has one allocation at most, and two allocations never share a relayed one. *)
Record live_allocation := MkLive { l_src : string; l_user : string; l_relay : string }.

(** The library's calls: an allocation is asked for and made when allowed, or
    deleted. *)
Inductive turn_step : quota * gmap string live_allocation → quota * gmap string live_allocation → Prop :=
  | turn_allocate q live src user relay :
      addressKey src ≠ ""%string → addressKey relay ≠ ""%string → live !! addressKey src = None →
      (∀ k a, live !! k = Some a → addressKey (l_relay a) ≠ addressKey relay) →
      turn_step (q, live)
        (if Allow q user src then (Created q src user relay, <[addressKey src := MkLive src user relay]> live) else (q, live))
  | turn_delete q live a : live !! addressKey (l_src a) = Some a → turn_step (q, live) (Deleted q (l_src a) (l_user a), delete (addressKey (l_src a)) live).

Definition count (P : live_allocation → bool) (live : gmap string live_allocation) : Z :=
  Z.of_nat (size (filter (fun ka : string * live_allocation => P ka.2 = true) live)).

Lemma count_insert P live k a : live !! k = None → count P (<[k := a]> live) = count P live + (if P a then 1 else 0).
Proof.
  intros Hk. unfold count. destruct (P a) eqn:E.
  - rewrite map_filter_insert_True by done. rewrite map_size_insert_None; [lia|]. apply map_lookup_filter_None. by left.
  - rewrite map_filter_insert_False by (cbn; congruence). rewrite delete_id by done. lia.
Qed.
Lemma count_delete P live k a : live !! k = Some a → count P (delete k live) = count P live - (if P a then 1 else 0).
Proof.
  intros Hk. rewrite <- (insert_id live k a Hk) at 2. rewrite <- insert_delete_eq. rewrite (count_insert P (delete k live) k a); [|apply lookup_delete_eq].
  destruct (P a); lia.
Qed.
Lemma count_nonneg P live : 0 ≤ count P live.
Proof. unfold count. lia. Qed.

Definition has_user (u : string) (a : live_allocation) : bool := String.eqb (l_user a) u.
Definition has_host (h : string) (a : live_allocation) : bool := String.eqb (addressHost (l_src a)) h.

(** A table of counters holds the counts that are not zero. *)
Definition counts (m : gmap string Z) (f : string → Z) : Prop := ∀ k, m !! k = (if f k =? 0 then None else Some (f k)).
Lemma counts_counter m f k : counts m f → counter m k = f k.
Proof. intros Hc. unfold counter. rewrite Hc. destruct (Z.eqb_spec (f k) 0); cbn; lia. Qed.
Lemma counts_increment m f g key :
  counts m f → (∀ k, 0 ≤ f k) → (∀ k, g k = f k + (if String.eqb key k then 1 else 0)) → counts (incrementCounter m key) g.
Proof.
  intros Hc Hf Hg k. unfold incrementCounter. rewrite (counts_counter m f) by done. rewrite (Hg k). destruct (String.eqb_spec key k) as [<-|Hne].
  - rewrite lookup_insert_eq. specialize (Hf key). destruct (Z.eqb_spec (f key + 1) 0); [lia|done].
  - rewrite lookup_insert_ne by done. rewrite Hc, Z.add_0_r. done.
Qed.
Lemma counts_decrement m f g key :
  counts m f → 0 < f key → (∀ k, g k = f k - (if String.eqb key k then 1 else 0)) → counts (decrementCounter m key) g.
Proof.
  intros Hc Hf Hg k. unfold decrementCounter. rewrite (counts_counter m f) by done. rewrite (Hg k).
  destruct (String.eqb_spec key k) as [<-|Hne]; destruct (Z.leb_spec (f key) 1).
  - rewrite lookup_delete_eq. assert (f key = 1) as -> by lia. done.
  - rewrite lookup_insert_eq. destruct (Z.eqb_spec (f key - 1) 0); [lia|done].
  - rewrite lookup_delete_ne by done. rewrite Hc, Z.sub_0_r. done.
  - rewrite lookup_insert_ne by done. rewrite Hc, Z.sub_0_r. done.
Qed.

Definition identity_of (a : live_allocation) : identity :=
  MkIdentity (l_user a) (addressHost (l_src a)) (addressKey (l_src a)) (addressKey (l_relay a)).

Record quota_ok (q : quota) (live : gmap string live_allocation) : Prop := {
  qo_total : total q = Z.of_nat (size live);
  qo_user : counts (byUser q) (fun u => count (has_user u) live);
  qo_ip : counts (byIP q) (fun h => count (has_host h) live);
  qo_client : ∀ k, byClient q !! k = identity_of <$> live !! k;
  qo_key : ∀ k a, live !! k = Some a → addressKey (l_src a) = k;
  qo_relay : ∀ r i, byRelay q !! r = Some i ↔ ∃ k a, live !! k = Some a ∧ i = identity_of a ∧ r = addressKey (l_relay a);
  qo_distinct : ∀ k k' a a', live !! k = Some a → live !! k' = Some a' → addressKey (l_relay a) = addressKey (l_relay a') → k = k';
  qo_max : (0 ≤ maxTotal q → total q ≤ maxTotal q) ∧ (∀ u, 0 ≤ maxPerUser q → count (has_user u) live ≤ maxPerUser q) ∧
    (∀ h, 0 ≤ maxPerIP q → count (has_host h) live ≤ maxPerIP q);
}.

Lemma created_ok q live src user relay :
  quota_ok q live → addressKey src ≠ ""%string → addressKey relay ≠ ""%string → live !! addressKey src = None →
  (∀ k a, live !! k = Some a → addressKey (l_relay a) ≠ addressKey relay) → Allow q user src = true →
  quota_ok (Created q src user relay) (<[addressKey src := MkLive src user relay]> live).
Proof.
  intros [Q1 Q2 Q3 Q4 Q5 Q6 Q7 (Q8 & Q9 & Q10)] Hsrc Hrelay Hfree Hrel Hallow. unfold Allow, belowQuota in Hallow.
  apply andb_prop in Hallow as [Hallow Hip]. apply andb_prop in Hallow as [Htot Huser].
  rewrite (counts_counter _ _ _ Q2) in Huser. rewrite (counts_counter _ _ _ Q3) in Hip.
  set (a := MkLive src user relay). unfold Created. cbn [ClientKey RelayKey IIP]. apply String.eqb_neq in Hsrc as ->. apply String.eqb_neq in Hrelay as ->.
  split; cbn [set_allocations total byUser byIP byClient byRelay maxTotal maxPerUser maxPerIP].
  - rewrite map_size_insert_None by done. lia.
  - eapply counts_increment; [exact Q2|intros; apply count_nonneg|]. intros k. by rewrite count_insert.
  - eapply counts_increment; [exact Q3|intros; apply count_nonneg|]. intros k. by rewrite count_insert.
  - intros k. destruct (decide (k = addressKey src)) as [->|Hne]; [by rewrite !lookup_insert_eq|]. rewrite !lookup_insert_ne by done. apply Q4.
  - intros k b [[<- <-]|[_ Hb]]%lookup_insert_Some; [done|by apply Q5].
  - intros r i. rewrite lookup_insert_Some. split.
    + intros [[<- <-]|[Hne Hr]]; [exists (addressKey src), a; by rewrite lookup_insert_eq|]. apply Q6 in Hr as (k & b & Hb & -> & ->).
      exists k, b. rewrite lookup_insert_ne; [done|]. intros <-. congruence.
    + intros (k & b & [[<- <-]|[Hne Hb]]%lookup_insert_Some & -> & ->); [by left|right]. split; [|apply Q6; by exists k, b]. apply not_eq_sym. by eapply Hrel.
  - intros k k' b b' [[<- <-]|[Hne Hb]]%lookup_insert_Some [[<- <-]|[Hne' Hb']]%lookup_insert_Some E; [done| | |by eapply Q7].
    + exfalso. by eapply (Hrel k' b').
    + exfalso. by eapply (Hrel k b).
  - apply orb_prop in Htot, Huser, Hip. rewrite !Z.ltb_lt in Htot, Huser, Hip. split_and!.
    + intros Hm. lia.
    + intros u Hm. rewrite count_insert by done. unfold has_user at 2. cbn [a l_user]. destruct (String.eqb_spec user u) as [<-|]; [lia|].
      specialize (Q9 u Hm). lia.
    + intros h Hm. rewrite count_insert by done. unfold has_host at 2. cbn [a l_src]. destruct (String.eqb_spec (addressHost src) h) as [<-|]; [lia|].
      specialize (Q10 h Hm). lia.
Qed.

Lemma deleted_ok q live a :
  quota_ok q live → live !! addressKey (l_src a) = Some a → quota_ok (Deleted q (l_src a) (l_user a)) (delete (addressKey (l_src a)) live).
Proof.
  intros [Q1 Q2 Q3 Q4 Q5 Q6 Q7 (Q8 & Q9 & Q10)] Ha. unfold Deleted. cbv zeta. set (key := addressKey (l_src a)) in *.
  rewrite Q4, Ha. cbn [fmap option_fmap option_map]. assert (Hsz : size live = S (size (delete key live))).
  { rewrite <- (insert_id live key a Ha) at 1. rewrite <- insert_delete_eq. rewrite map_size_insert_None; [done|apply lookup_delete_eq]. }
  assert (Hpos : ∀ P, P a = true → 0 < count P live).
  { intros P HP. rewrite <- (insert_id live key a Ha), <- insert_delete_eq, count_insert, HP by apply lookup_delete_eq.
    pose proof (count_nonneg P (delete key live)). lia. }
  split; cbn [set_allocations total byUser byIP byClient byRelay maxTotal maxPerUser maxPerIP].
  - rewrite Q1, Hsz. lia.
  - eapply counts_decrement; [exact Q2|apply Hpos; unfold has_user; by rewrite String.eqb_refl|]. intros k. by rewrite (count_delete _ _ _ a).
  - eapply counts_decrement; [exact Q3|apply Hpos; unfold has_host; by rewrite String.eqb_refl|]. intros k. by rewrite (count_delete _ _ _ a).
  - intros k. destruct (decide (k = key)) as [->|Hne]; [by rewrite !lookup_delete_eq|]. rewrite !lookup_delete_ne by done. apply Q4.
  - intros k b [_ Hb]%lookup_delete_Some. by apply Q5.
  - intros r i. rewrite lookup_delete_Some. cbn [identity_of RelayKey]. rewrite Q6. split.
    + intros (Hne & k & b & Hb & -> & ->). exists k, b. split; [|done]. apply lookup_delete_Some. split; [|done]. intros <-. congruence.
    + intros (k & b & [Hne Hb]%lookup_delete_Some & -> & ->). split; [|by exists k, b]. intros E. apply Hne. by eapply Q7.
  - intros k k' b b' [_ Hb]%lookup_delete_Some [_ Hb']%lookup_delete_Some. by eapply Q7.
  - split_and!; [intros; lia|intros u Hm; specialize (Q9 u Hm)|intros h Hm; specialize (Q10 h Hm)]; rewrite (count_delete _ _ _ a) by done; case_match; lia.
Qed.

(** C30: the quota counts exactly the live allocations and keeps every limit.  In
    every state reached by allocations, allowed or not, and deletions, the total
    and the counters of each user and source address are the numbers of live
    allocations, a counter is kept only while it is not zero, no number exceeds
    its limit, a further allocation is allowed exactly when each is below its own,
    and exactly the live allocations are found by the addresses of their client
    and of their relay, under the right user and source. *)
Theorem turn_quota_exact maxTotal' maxPerUser' maxPerIP' q live :
  rtc turn_step (newTURNAllocationQuota maxTotal' maxPerUser' maxPerIP', ∅) (q, live) →
  total q = Z.of_nat (size live) ∧
  (∀ u, byUser q !! u = (if count (has_user u) live =? 0 then None else Some (count (has_user u) live))) ∧
  (∀ h, byIP q !! h = (if count (has_host h) live =? 0 then None else Some (count (has_host h) live))) ∧
  (0 ≤ maxTotal' → total q ≤ maxTotal') ∧ (∀ u, 0 ≤ maxPerUser' → count (has_user u) live ≤ maxPerUser') ∧
  (∀ h, 0 ≤ maxPerIP' → count (has_host h) live ≤ maxPerIP') ∧
  (∀ u src, Allow q u src = true ↔
     (maxTotal' < 0 ∨ Z.of_nat (size live) < maxTotal') ∧ (maxPerUser' < 0 ∨ count (has_user u) live < maxPerUser') ∧
     (maxPerIP' < 0 ∨ count (has_host (addressHost src)) live < maxPerIP')) ∧
  (∀ k, byClient q !! k = identity_of <$> live !! k) ∧
  (∀ r i, byRelay q !! r = Some i ↔ ∃ k a, live !! k = Some a ∧ i = identity_of a ∧ r = addressKey (l_relay a)).
Proof.
  intros Hreach.
  assert (Hinv : quota_ok q live ∧ maxTotal q = maxTotal' ∧ maxPerUser q = maxPerUser' ∧ maxPerIP q = maxPerIP').
  { remember (newTURNAllocationQuota maxTotal' maxPerUser' maxPerIP', ∅ : gmap string live_allocation) as start eqn:E0.
    assert (Hstart : quota_ok start.1 start.2 ∧ maxTotal start.1 = maxTotal' ∧ maxPerUser start.1 = maxPerUser' ∧ maxPerIP start.1 = maxPerIP').
    { subst start. split; [|done]. split; cbn [fst snd newTURNAllocationQuota total byUser byIP byClient byRelay maxTotal maxPerUser maxPerIP].
      - by rewrite map_size_empty.
      - intros k. unfold count. by rewrite map_filter_empty, map_size_empty, lookup_empty.
      - intros k. unfold count. by rewrite map_filter_empty, map_size_empty, lookup_empty.
      - intros k. by rewrite !lookup_empty.
      - intros k a. by rewrite lookup_empty.
      - intros r i. rewrite lookup_empty. split; [done|]. intros (k & a & Ha & _). by rewrite lookup_empty in Ha.
      - intros k k' a a'. by rewrite lookup_empty.
      - unfold count. split_and!; intros; rewrite ?map_filter_empty, ?map_size_empty; lia. }
    clear E0. remember (q, live) as target eqn:Et. change (quota_ok q live) with (quota_ok (q, live).1 (q, live).2).
    change (maxTotal q) with (maxTotal (q, live).1). change (maxPerUser q) with (maxPerUser (q, live).1). change (maxPerIP q) with (maxPerIP (q, live).1).
    rewrite <- Et. clear Et. induction Hreach as [|x y z Hxy _ IH]; [done|]. apply IH. destruct Hstart as [Hok Hmax].
    destruct Hxy as [q0 live0 src user relay Hs Hr Hf Hrel|q0 live0 a Ha].
    - destruct (Allow q0 user src) eqn:Hallow; [|done]. split; [by apply created_ok|exact Hmax].
    - split; [by apply deleted_ok|]. unfold Deleted. cbn [fst snd] in *. by destruct (byClient q0 !! _). }
  destruct Hinv as ([Q1 Q2 Q3 Q4 _ Q6 _ (Q8 & Q9 & Q10)] & E1 & E2 & E3). rewrite E1, E2, E3 in *.
  split_and!; try done. intros u src. unfold Allow, belowQuota. rewrite E1, E2, E3, (counts_counter _ _ _ Q2), (counts_counter _ _ _ Q3), Q1.
  rewrite !andb_true_iff, !orb_true_iff, !Z.ltb_lt. tauto.
Qed.
End allocations.

(** ** Traffic *)

Definition refillBucket (b : bucket) (limit window now : Z) : bucket :=
  match Last b with
  | None => MkBucket (f64_of_Z limit) (Some now)
  | Some last =>
      if now - last >? 0 then
        MkBucket (f64_min (f64_of_Z limit)
                    (f64_add (Tokens b) (f64_div (f64_mul (Seconds (now - last)) (f64_of_Z limit)) (Seconds window)))) (Some now)
      else b
  end.

(** A bucket untouched for a whole window, of nobody with an allocation. *)
Definition bucket_idle (window now : Z) (b : bucket) : bool := match Last b with None => true | Some last => now - last >=? window end.
Definition cleanup_buckets (counters : gmap string Z) (window now : Z) (buckets : gmap string bucket) : gmap string bucket :=
  filter (fun kb : string * bucket => (counter counters kb.1 =? 0) && bucket_idle window now kb.2 = false) buckets.
Definition cleanupBucketsLocked (q : quota) (now : Z) : quota :=
  if (egressWindow q <=? 0) || match lastBucketCleanup q with None => false | Some last => now - last <? Minute end then q
  else set_buckets q (globalBucket q) (cleanup_buckets (byUser q) (egressWindow q) now (userBuckets q))
         (cleanup_buckets (byIP q) (egressWindow q) now (ipBuckets q)) (Some now).

(** The buckets a packet is charged to, by reference. *)
Inductive bucket_ref := GlobalBucket | UserBucket (user : string) | IPBucket (ip : string).
#[export] Instance bucket_ref_eq_dec : EqDecision bucket_ref.
Proof. solve_decision. Defined.
Definition read_bucket (q : quota) (r : bucket_ref) : bucket :=
  match r with
  | GlobalBucket => globalBucket q
  | UserBucket u => default new_bucket (userBuckets q !! u)
  | IPBucket i => default new_bucket (ipBuckets q !! i)
  end.
Definition write_bucket (q : quota) (r : bucket_ref) (b : bucket) : quota :=
  match r with
  | GlobalBucket => set_buckets q b (userBuckets q) (ipBuckets q) (lastBucketCleanup q)
  | UserBucket u => set_buckets q (globalBucket q) (<[u := b]> (userBuckets q)) (ipBuckets q) (lastBucketCleanup q)
  | IPBucket i => set_buckets q (globalBucket q) (userBuckets q) (<[i := b]> (ipBuckets q)) (lastBucketCleanup q)
  end.
(** [bucketFor]: a missing bucket is made. *)
Definition bucketFor (q : quota) (r : bucket_ref) : quota := write_bucket q r (read_bucket q r).

Definition bucket_limits (q : quota) (i : identity) : list (bucket_ref * Z) :=
  (if maxEgressBytes q >=? 0 then [(GlobalBucket, maxEgressBytes q)] else []) ++
  (if maxEgressPerUser q >=? 0 then [(UserBucket (IUser i), maxEgressPerUser q)] else []) ++
  (if maxEgressPerIP q >=? 0 then [(IPBucket (IIP i), maxEgressPerIP q)] else []).

(** The buckets are refilled in turn until one has too little. *)
Fixpoint check_buckets (rs : list (bucket_ref * Z)) (bytes now : Z) (q : quota) : bool * quota :=
  match rs with
  | [] => (true, q)
  | (r, limit) :: rs =>
      let q := write_bucket q r (refillBucket (read_bucket q r) limit (egressWindow q) now) in
      if f64_lt (Tokens (read_bucket q r)) (f64_of_Z bytes)
      then (false, set_traffic q (egressBytes q) (wrap64 (droppedBytes q + bytes)) (wrap64 (quotaExceeded q + 1)))
      else check_buckets rs bytes now q
  end.
Definition charge (bytes : Z) (q : quota) (r : bucket_ref) : quota :=
  let b := read_bucket q r in write_bucket q r (MkBucket (f64_sub (Tokens b) (f64_of_Z bytes)) (Last b)).

Definition consume (q : quota) (found : option identity) (bytes now : Z) : bool * quota :=
  match found with
  | None => (true, q)
  | Some i =>
      if bytes <=? 0 then (true, q)
      else
        let q := cleanupBucketsLocked q now in
        let rs := bucket_limits q i in
        let q := foldl bucketFor q (rs.*1) in
        match check_buckets rs bytes now q with
        | (false, q) => (false, q)
        | (true, q) => let q := foldl (charge bytes) q (rs.*1) in
                       (true, set_traffic q (wrap64 (egressBytes q + bytes)) (droppedBytes q) (quotaExceeded q))
        end
  end.

Definition ConsumeClient `{CaseTables} (q : quota) (addr : string) (bytes now : Z) : bool * quota :=
  consume q (byClient q !! addressKey addr) bytes now.
Definition ConsumeRelay (q : quota) (key : string) (bytes now : Z) : bool * quota := consume q (byRelay q !! key) bytes now.

(** [WriteTo]: a packet that is refused is dropped without an error. *)
Definition WriteTo `{CaseTables} (q : quota) (lookupRelay : bool) (key addr : string) (payload : Z) (now : Z) : bool * quota :=
  if lookupRelay then ConsumeRelay q key payload now else ConsumeClient q addr payload now.

(** ** All or nothing *)

Lemma read_write q r r' b : read_bucket (write_bucket q r b) r' = if decide (r' = r) then b else read_bucket q r'.
Proof.
  destruct (decide (r' = r)) as [->|Hne]; [destruct r; cbn; by rewrite ?lookup_insert_eq|].
  destruct r, r'; cbn; try done; rewrite lookup_insert_ne by congruence; done.
Qed.
Lemma bucket_limits_NoDup q i : NoDup (bucket_limits q i).*1.
Proof.
  unfold bucket_limits. repeat case_match; cbn; repeat constructor; rewrite ?list_elem_of_In; cbn; naive_solver.
Qed.

(** What refilling leaves of a bucket before the packet. *)
Definition refilled (q : quota) (now : Z) (rl : bucket_ref * Z) : bucket := refillBucket (read_bucket q rl.1) rl.2 (egressWindow q) now.

Definition same_rest (q q' : quota) : Prop :=
  egressWindow q' = egressWindow q ∧ egressBytes q' = egressBytes q ∧ droppedBytes q' = droppedBytes q ∧ quotaExceeded q' = quotaExceeded q ∧
  total q' = total q ∧ byClient q' = byClient q ∧ byRelay q' = byRelay q ∧ byUser q' = byUser q ∧ byIP q' = byIP q.
Lemma write_same_rest q r b : same_rest q (write_bucket q r b).
Proof. by destruct r. Qed.

Lemma same_rest_trans q1 q2 q3 : same_rest q1 q2 → same_rest q2 q3 → same_rest q1 q3.
Proof. intros (?&?&?&?&?&?&?&?&?) (?&?&?&?&?&?&?&?&?). split_and!; congruence. Qed.

Lemma check_buckets_spec rs bytes now q ok q' :
  NoDup rs.*1 → check_buckets rs bytes now q = (ok, q') →
  if ok : bool
  then same_rest q q' ∧ (∀ rl, rl ∈ rs → read_bucket q' rl.1 = refilled q now rl ∧ f64_lt (Tokens (refilled q now rl)) (f64_of_Z bytes) = false) ∧
    ∀ r, r ∉ rs.*1 → read_bucket q' r = read_bucket q r
  else (∃ rl, rl ∈ rs ∧ f64_lt (Tokens (refilled q now rl)) (f64_of_Z bytes) = true) ∧
    egressBytes q' = egressBytes q ∧ droppedBytes q' = wrap64 (droppedBytes q + bytes) ∧ quotaExceeded q' = wrap64 (quotaExceeded q + 1) ∧
    ∀ r, read_bucket q' r = read_bucket q r ∨ ∃ limit, (r, limit) ∈ rs ∧ read_bucket q' r = refilled q now (r, limit).
Proof.
  revert q. induction rs as [|[r limit] rs IH]; intros q Hnd; cbn [check_buckets].
  { intros [= <- <-]. split; [done|]. split; [by intros ? ?%not_elem_of_nil|done]. }
  cbn [fmap list_fmap fst] in Hnd. apply NoDup_cons in Hnd as [Hnot Hnd]. cbv zeta. rewrite read_write, decide_True by done.
  set (q1 := write_bucket q r _). assert (Hread : ∀ r', read_bucket q1 r' = if decide (r' = r) then refilled q now (r, limit) else read_bucket q r').
  { intros r'. apply read_write. }
  assert (Hw : same_rest q q1) by apply write_same_rest.
  assert (Href : ∀ rl, rl ∈ rs → refilled q1 now rl = refilled q now rl).
  { intros [r' l] Hrl. unfold refilled. cbn [fst snd]. rewrite Hread, decide_False; [by destruct Hw as (-> & _)|]. intros ->.
    apply Hnot, list_elem_of_fmap. by exists (r, l). }
  change (refillBucket (read_bucket q r) limit (egressWindow q) now) with (refilled q now (r, limit)).
  destruct (f64_lt (Tokens (refilled q now (r, limit))) (f64_of_Z bytes)) eqn:Hlt.
  - intros [= <- <-]. split; [exists (r, limit); split; [by left|done]|]. destruct Hw as (_ & ? & ? & ? & _).
    split; [done|]. split; [cbn; congruence|]. split; [cbn; congruence|]. intros r'.
    change (read_bucket (set_traffic q1 (egressBytes q1) (wrap64 (droppedBytes q1 + bytes)) (wrap64 (quotaExceeded q1 + 1))) r') with (read_bucket q1 r').
    rewrite Hread. destruct (decide (r' = r)) as [->|]; [right; exists limit; split; [by left|done]|by left].
  - intros E. specialize (IH q1 Hnd E). destruct ok.
    + destruct IH as (Hs & Hin & Hout). split.
      { by eapply same_rest_trans. }
      split.
      * intros rl [->|Hrl]%elem_of_cons; cbn [fst]; [|rewrite <- Href by done; by apply Hin].
        rewrite Hout by done. rewrite Hread, decide_True by done. done.
      * intros r' Hr'. cbn [fmap list_fmap fst] in Hr'. rewrite Hout by set_solver. rewrite Hread, decide_False by set_solver. done.
    + destruct IH as ((rl & Hrl & Hl) & E1 & E2 & E3 & Hall). destruct Hw as (_ & W1 & W2 & W3 & _).
      split; [exists rl; rewrite <- Href by done; split; [by right|done]|]. split; [congruence|]. split; [congruence|]. split; [congruence|].
      intros r'. destruct (Hall r') as [Hsame|(l & Hl' & Hre)].
      * rewrite Hsame, Hread. destruct (decide (r' = r)) as [->|]; [right; exists limit; split; [by left|done]|by left].
      * right. exists l. split; [by right|]. by rewrite Hre, Href.
Qed.

Lemma charge_all_spec bytes rs q :
  NoDup rs →
  let q' := foldl (charge bytes) q rs in
  same_rest q q' ∧
  ∀ r, read_bucket q' r = if decide (r ∈ rs) then MkBucket (f64_sub (Tokens (read_bucket q r)) (f64_of_Z bytes)) (Last (read_bucket q r)) else read_bucket q r.
Proof.
  revert q. induction rs as [|r rs IH]; intros q Hnd; cbv zeta; cbn [foldl]; [split; [done|intros r; by rewrite decide_False by apply not_elem_of_nil]|].
  apply NoDup_cons in Hnd as [Hnot Hnd]. destruct (IH (charge bytes q r) Hnd) as [Hs Hr].
  assert (Hread : ∀ r', read_bucket (charge bytes q r) r' = if decide (r' = r) then MkBucket (f64_sub (Tokens (read_bucket q r)) (f64_of_Z bytes)) (Last (read_bucket q r)) else read_bucket q r').
  { intros r'. apply read_write. }
  split.
  - pose proof (write_same_rest q r (MkBucket (f64_sub (Tokens (read_bucket q r)) (f64_of_Z bytes)) (Last (read_bucket q r)))) as Hw.
    unfold charge in Hs. by eapply same_rest_trans.
  - intros r'. rewrite Hr, Hread. destruct (decide (r' = r)) as [->|Hne].
    + rewrite (decide_False (P := r ∈ rs)) by done. rewrite decide_True by by left. done.
    + destruct (decide (r' ∈ rs)); [rewrite decide_True by by right|rewrite decide_False by set_solver]; done.
Qed.

Lemma bucketFor_read rs q r : read_bucket (foldl bucketFor q rs) r = read_bucket q r ∧ same_rest q (foldl bucketFor q rs).
Proof.
  revert q. induction rs as [|r0 rs IH]; intros q; cbn [foldl]; [by split|]. destruct (IH (bucketFor q r0)) as [E Hs]. split.
  - rewrite E. unfold bucketFor. rewrite read_write. by destruct (decide _) as [->|].
  - pose proof (write_same_rest q r0 (read_bucket q r0)). unfold bucketFor in *. by eapply same_rest_trans.
Qed.

(** A relayed packet is charged to all its buckets or to none.  A packet of an
    address without an allocation, or without a byte, passes and changes nothing.
    Any other is looked at after the sweep of idle buckets, with each limited
    bucket — the global one, its user's and its source's — refilled for the time
    that passed: it passes exactly when none of them then holds fewer tokens than
    it has bytes, and then each pays its bytes, no other bucket changes and the
    bytes sent grow by them; otherwise no bucket pays anything (some are merely
    refilled), and the dropped bytes and the refusals are counted. *)
Theorem consume_all_or_nothing q found bytes now allowed q' :
  consume q found bytes now = (allowed, q') →
  match found with
  | None => allowed = true ∧ q' = q
  | Some i =>
      if bytes <=? 0 then allowed = true ∧ q' = q
      else
        let swept := cleanupBucketsLocked q now in
        let rs := bucket_limits swept i in
        (allowed = true ↔ ∀ rl, rl ∈ rs → f64_lt (Tokens (refilled swept now rl)) (f64_of_Z bytes) = false) ∧
        if allowed
        then egressBytes q' = wrap64 (egressBytes q + bytes) ∧ droppedBytes q' = droppedBytes q ∧ quotaExceeded q' = quotaExceeded q ∧
          (∀ rl, rl ∈ rs → read_bucket q' rl.1 =
             MkBucket (f64_sub (Tokens (refilled swept now rl)) (f64_of_Z bytes)) (Last (refilled swept now rl))) ∧
          (∀ r, r ∉ rs.*1 → read_bucket q' r = read_bucket swept r)
        else egressBytes q' = egressBytes q ∧ droppedBytes q' = wrap64 (droppedBytes q + bytes) ∧ quotaExceeded q' = wrap64 (quotaExceeded q + 1) ∧
          (∀ r, read_bucket q' r = read_bucket swept r ∨ ∃ limit, (r, limit) ∈ rs ∧ read_bucket q' r = refilled swept now (r, limit))
  end.
Proof.
  unfold consume. destruct found as [i|]; [|by intros [= <- <-]]. destruct (bytes <=? 0); [by intros [= <- <-]|].
  cbv zeta. set (swept := cleanupBucketsLocked q now). set (rs := bucket_limits swept i).
  assert (Hsw : egressBytes swept = egressBytes q ∧ droppedBytes swept = droppedBytes q ∧ quotaExceeded swept = quotaExceeded q).
  { unfold swept, cleanupBucketsLocked. by destruct (_ || _). }
  destruct Hsw as (S1 & S2 & S3). set (made := foldl bucketFor swept (rs.*1)).
  assert (Hmade : ∀ r, read_bucket made r = read_bucket swept r) by (intros r; apply bucketFor_read).
  assert (Hrest : same_rest swept made) by apply (bucketFor_read _ _ GlobalBucket).
  assert (Href : ∀ rl, refilled made now rl = refilled swept now rl).
  { intros rl. unfold refilled. by destruct Hrest as (-> & _), (Hmade rl.1). }
  destruct (check_buckets rs bytes now made) as [ok q1] eqn:E. pose proof (check_buckets_spec _ _ _ _ _ _ (bucket_limits_NoDup swept i) E) as Hspec.
  destruct Hrest as (_ & R1 & R2 & R3 & _). destruct ok.
  - destruct Hspec as ((_ & E1 & E2 & E3 & _) & Hin & Hout). intros [= <- <-].
    destruct (charge_all_spec bytes rs.*1 q1 (bucket_limits_NoDup swept i)) as [(_ & C1 & C2 & C3 & _) Hread]. cbn [set_traffic egressBytes droppedBytes quotaExceeded].
    split; [split; [intros _ rl Hrl; rewrite <- Href; by apply Hin|done]|]. split; [congruence|]. split; [congruence|]. split; [congruence|].
    change (read_bucket (set_traffic ?q0 ?a ?b ?c)) with (read_bucket q0). split.
    + intros rl Hrl. rewrite Hread, decide_True by (apply list_elem_of_fmap; by exists rl). destruct (Hin rl Hrl) as [-> _]. by rewrite Href.
    + intros r Hr. rewrite Hread, decide_False, Hout, Hmade by done. done.
  - destruct Hspec as ((rl & Hrl & Hlt) & E1 & E2 & E3 & Hall). intros [= <- <-].
    split; [split; [done|intros Hok; rewrite Href, Hok in Hlt; done]|]. split; [congruence|]. split; [congruence|]. split; [congruence|].
    intros r. destruct (Hall r) as [Hs|(limit & Hl & Hs)]; [left; by rewrite Hs|right; exists limit; by rewrite Hs, Href].
Qed.

(** ** Witnesses *)

Section witnesses.
#[local] Existing Instance ascii_tables.

Lemma turn_quota_exact_witness :
  let q := Created (newTURNAllocationQuota 10 2 (-1)) "10.0.0.1:4000" "Ann" "9.9.9.9:50000" in
  rtc turn_step (newTURNAllocationQuota 10 2 (-1), ∅) (q, <["10.0.0.1:4000"%string := MkLive "10.0.0.1:4000" "Ann" "9.9.9.9:50000"]> ∅) ∧
  total q = 1.
Proof.
  cbv zeta. set (live := <["10.0.0.1:4000"%string := MkLive "10.0.0.1:4000" "Ann" "9.9.9.9:50000"]> (∅ : gmap string live_allocation)).
  assert (Hreach : rtc turn_step (newTURNAllocationQuota 10 2 (-1), ∅)
                     (Created (newTURNAllocationQuota 10 2 (-1)) "10.0.0.1:4000" "Ann" "9.9.9.9:50000", live)).
  { apply rtc_once. refine (turn_allocate (newTURNAllocationQuota 10 2 (-1)) ∅ "10.0.0.1:4000" "Ann" "9.9.9.9:50000" _ _ _ _); done. }
  split; [exact Hreach|]. rewrite (proj1 (turn_quota_exact 10 2 (-1) _ live Hreach)). reflexivity.
Defined.

(** Ten thousand bytes a minute for each user: the second packet of six thousand
    is refused half a second later. *)
Definition demo_quota : quota :=
  ConfigureTraffic (Created (newTURNAllocationQuota 10 2 (-1)) "10.0.0.1:4000" "Ann" "9.9.9.9:50000") (60 * second_ns) (-1) 10000 (-1).
Definition demo_time : Z := 1700000000 * second_ns.

Lemma consume_all_or_nothing_witness :
  let '(first, q1) := ConsumeRelay demo_quota "9.9.9.9:50000" 6000 demo_time in
  let '(second, q2) := ConsumeRelay q1 "9.9.9.9:50000" 6000 (demo_time + 500000000) in
  first = true ∧ second = false ∧ egressBytes q2 = 6000 ∧ droppedBytes q2 = 6000.
Proof.
  set (i := MkIdentity "Ann" "10.0.0.1" "10.0.0.1:4000" "9.9.9.9:50000").
  destruct (ConsumeRelay demo_quota "9.9.9.9:50000" 6000 demo_time) as [first q1] eqn:E1.
  destruct (ConsumeRelay q1 "9.9.9.9:50000" 6000 (demo_time + 500000000)) as [second q2] eqn:E2.
  assert (H1 : consume demo_quota (Some i) 6000 demo_time = (first, q1)) by (rewrite <- E1; vm_compute; reflexivity).
  assert (Hf : first = true) by (apply (f_equal fst) in E1; vm_compute in E1; congruence).
  pose proof (f_equal snd E1) as Hq1. cbn [snd] in Hq1.
  assert (H2 : consume q1 (Some i) 6000 (demo_time + 500000000) = (second, q2)) by (rewrite <- E2, <- Hq1; vm_compute; reflexivity).
  assert (Hs : second = false) by (apply (f_equal fst) in E2; rewrite <- Hq1 in E2; vm_compute in E2; congruence).
  apply consume_all_or_nothing in H1, H2. rewrite Hf in H1. rewrite Hs in H2. cbn in H1, H2.
  destruct H1 as [_ (G1 & G2 & _)]. destruct H2 as [_ (G3 & G4 & _)]. split; [done|]. split; [done|]. split; [by rewrite G3, G1|by rewrite G4, G2].
Defined.
End witnesses.
