(* ===== verification/RoutePlan.v ===== *)
(** * Choosing a route ([internal/app/app.go], [negotiate.go], [direct_nat.go])

    What a client decides before it connects: the options that follow from the
    negotiation, the plan they mean, whether it prefers a direct connection, and
    how long it tries.  The theorem [negotiated_routes_meet] joins the choice of
    the service ([Routing.v]) to both clients: they dial the same way. *)
From Stdlib Require Import ZArith Lia Ascii String.
From stdpp Require Import base tactics numbers list gmap strings.
From S2P Require Import Prelude GoStrings Base64 DirectCandidate Routing RelayServer RelayClient Rendezvous RelayCredential Negotiation.

(** ** Options *)

(** The fields of [globalOptions] that decide about routes. *)
Record globalOptions := MkOptions {
  OTransport : string;
  OSignalDirect : bool;
  ORelay : string;
  ORelayPass : string;
  OProxy : string;
  ONoDirect : bool;
  OUDPProbe : bool;
  ONoTCPProbe : bool;
  ONoLAN : bool;
  OLocal : bool;
  OLANTimeout : Z;
  ONoReconnect : bool;
  OReconnectAttempts : Z;
  OReconnectDelay : Z;
  OPairTimeout : Z;
  ODirectAdvertise : string;
  ODirectTimeout : Z;
  OConnections : Z;
  OProtocol : string;
  OallowLANUpgrade : bool;
}.

(** The copies [resolveTransportOptions], [webRTCOptions] and [relayOnlyOptions]
    make, with what they change. *)
Definition with_route (g : globalOptions) (relay : string) (localOnly signalDirect : bool) : globalOptions :=
  MkOptions (OTransport g) signalDirect relay (ORelayPass g) (OProxy g) (ONoDirect g) (OUDPProbe g) (ONoTCPProbe g) (ONoLAN g) localOnly
    (OLANTimeout g) (ONoReconnect g) (OReconnectAttempts g) (OReconnectDelay g) (OPairTimeout g) (ODirectAdvertise g) (ODirectTimeout g)
    (OConnections g) (OProtocol g) (OallowLANUpgrade g).
Definition with_protocol (g : globalOptions) (protocol pass : string) : globalOptions :=
  MkOptions (OTransport g) (OSignalDirect g) (ORelay g) pass (OProxy g) (ONoDirect g) (OUDPProbe g) (ONoTCPProbe g) (ONoLAN g) (OLocal g)
    (OLANTimeout g) (ONoReconnect g) (OReconnectAttempts g) (OReconnectDelay g) (OPairTimeout g) (ODirectAdvertise g) (ODirectTimeout g)
    (OConnections g) protocol (OallowLANUpgrade g).
Definition no_direct (g : globalOptions) (upgrade : bool) : globalOptions :=
  MkOptions (OTransport g) false (ORelay g) (ORelayPass g) (OProxy g) true (OUDPProbe g) (ONoTCPProbe g) (ONoLAN g) (OLocal g)
    (OLANTimeout g) (ONoReconnect g) (OReconnectAttempts g) (OReconnectDelay g) (OPairTimeout g) (ODirectAdvertise g) (ODirectTimeout g)
    (OConnections g) (OProtocol g) upgrade.

Inductive routeKind := routeWebRTC | routeSignalDirect | routeRelayOnly | routeDirectRelayFallback.
#[export] Instance routeKind_eq_dec : EqDecision routeKind.
Proof. solve_decision. Defined.
Record routePlan := MkPlan { PKind : routeKind; Primary : string; Fallback : string; Description : string }.

Definition nativeDirectDisabled (g : globalOptions) : bool := ONoDirect g || negb (String.eqb (TrimSpace (OProxy g)) "").

Definition planNativeRoute (g : globalOptions) : routePlan :=
  let directDisabled := nativeDirectDisabled g in
  if OSignalDirect g && negb directDisabled && negb (OLocal g) then
    MkPlan routeSignalDirect "direct TCP via signaling rendezvous"
      (if String.eqb (ORelay g) "" then "WebRTC DataChannel" else "native TCP relay")
      "native peers exchange direct candidates through signaling without sending payload through the rendezvous service"
  else if String.eqb (ORelay g) "" && negb (OLocal g) then
    MkPlan routeWebRTC "WebRTC DataChannel" "ICE may use STUN/TURN when configured by signaling service"
      "native CLI pairs through signaling and transfers over WebRTC"
  else if directDisabled then
    MkPlan routeRelayOnly (if OLocal g then "sender-hosted or discovered LAN TCP relay" else "native TCP relay") "none"
      (if OLocal g then "the sender hosts a temporary LAN relay and the receiver discovers it"
       else "native CLI sends all frames through the configured relay")
  else if OLocal g then
    MkPlan routeDirectRelayFallback "direct TCP via LAN relay rendezvous" "sender-hosted or discovered LAN relay"
      "the sender hosts a temporary LAN relay, exchanges direct candidates, and retains that relay as fallback"
  else
    MkPlan routeDirectRelayFallback "direct TCP via relay rendezvous" "native TCP relay"
      "native CLI advertises direct candidates, retries a LAN upgrade when needed, then falls back to relay".

(** The branch of [dialTransport]. *)
Inductive dialer := DialSignaledDirect | DialRelay | DialWebRTC.
#[export] Instance dialer_eq_dec : EqDecision dialer.
Proof. solve_decision. Defined.
Definition dialTransport (g : globalOptions) (role : string) : option dialer :=
  if negb (validRole role) then None
  else Some (match PKind (planNativeRoute g) with
             | routeSignalDirect => DialSignaledDirect
             | routeRelayOnly | routeDirectRelayFallback => DialRelay
             | routeWebRTC => DialWebRTC
             end).

Definition webRTCOptions (g : globalOptions) : globalOptions := with_route g "" false false.
Definition relayOnlyOptions (g : globalOptions) : globalOptions := no_direct g (negb (nativeDirectDisabled g)).

(** ** Negotiation *)

Definition transportModeAuto : string := "auto".

Inductive route_error :=
  | InvalidTransport (value : string)
  | NativeWithoutRoute
  | NegotiatedWithoutRoute
  | UnsupportedRoute (route : string)
  | NegotiationCanceled
  | InvalidNegotiationRole
  | NegotiationFailed (text : string)
  | UnsupportedResponse
  | NegotiationIO.

Section negotiate.
Context `{CaseTables}.

Definition normalizeTransportMode (value : string) : result route_error string :=
  let value := ToLower (TrimSpace value) in
  let value := if String.eqb value "" then transportModeAuto else value in
  if String.eqb value transportModeAuto || String.eqb value RouteNative || String.eqb value RouteWebRTC then Ok value
  else Err (InvalidTransport value).

Definition negotiationCapability (g : globalOptions) (protocol : string) : Capability :=
  MkCapability "negotiate" NegotiationVersion ClientNative protocol (TrimSpace (ORelay g)) (OLocal g) (negb (nativeDirectDisabled g)) [].

(** [exchange]: what the service answers, [None] when the connection fails. *)
Definition negotiateTransportRoute (exchange : Capability → option Response) (g : globalOptions) (role protocol : string)
    : result route_error Response :=
  if negb (validRole role) then Err InvalidNegotiationRole
  else
    match exchange (negotiationCapability g protocol) with
    | None => Err NegotiationIO
    | Some r =>
        if String.eqb (RType r) "error" then
          Err (NegotiationFailed (if String.eqb (RError r) "" then "transport negotiation failed" else RError r))
        else if negb (String.eqb (RType r) "negotiated") || negb (RVersion r =? NegotiationVersion) then Err UnsupportedResponse
        else Ok r
    end.

(** [resolveTransportOptions]; [canceled]: the context ended while negotiating. *)
Definition resolveTransportOptions (exchange : Capability → option Response) (canceled : bool) (g : globalOptions) (role protocol : string)
    : result route_error globalOptions :=
  mode ← normalizeTransportMode (OTransport g);
  let webrtc := with_protocol (webRTCOptions g) protocol (ORelayPass g) in
  if String.eqb mode RouteWebRTC then Ok webrtc
  else if String.eqb mode RouteNative then
    if String.eqb (ORelay g) "" && negb (OLocal g) && nativeDirectDisabled g then Err NativeWithoutRoute
    else Ok (with_protocol (with_route g (ORelay g) (OLocal g) (negb (OLocal g) && negb (nativeDirectDisabled g))) protocol (ORelayPass g))
  else
    match negotiateTransportRoute exchange g role protocol with
    | Err _ =>
        if canceled then Err NegotiationCanceled
        else if negb (String.eqb (ORelay g) "") || OLocal g then Ok (with_protocol g protocol (ORelayPass g))
        else Ok webrtc
    | Ok response =>
        if String.eqb (Route response) RouteNative then
          let pass := if String.eqb (RelayCredential response) "" then ORelayPass g else RelayCredential response in
          let resolved := with_route g (Relay response) (Local response) (Direct response && negb (nativeDirectDisabled g)) in
          if String.eqb (ORelay resolved) "" && negb (OLocal resolved) && negb (OSignalDirect resolved) then Err NegotiatedWithoutRoute
          else Ok (with_protocol resolved protocol pass)
        else if String.eqb (Route response) RouteWebRTC then Ok webrtc
        else Err (UnsupportedRoute (Route response))
    end.
End negotiate.

(** ** Preferences *)

(** [deferred] is what [shouldDeferDirectFromHistory] says ([RouteHistory.v]). *)
Definition localDirectPreference (g : globalOptions) (deferred : bool) : string :=
  if nativeDirectDisabled g || deferred then DirectPreferenceRelay else DirectPreferencePrefer.

Definition peersShouldAttemptDirect (join : joinMessage) (peer : JoinResult) : bool :=
  if negb (hasCapability (Capabilities join) CapabilityRouteChoiceV1) || negb (hasCapability (JPeerCapabilities peer) CapabilityRouteChoiceV1)
  then true
  else negb (String.eqb (JDirectPreference join) DirectPreferenceRelay) && negb (String.eqb (JPeerDirectPreference peer) DirectPreferenceRelay).

Definition relayPreferenceReason (join : joinMessage) (peer : JoinResult) : string :=
  if String.eqb (JDirectPreference join) DirectPreferenceRelay && String.eqb (JPeerDirectPreference peer) DirectPreferenceRelay
  then "both peers deferred direct"
  else if String.eqb (JDirectPreference join) DirectPreferenceRelay then "local direct history"
  else "peer direct history".

Definition lanUpgradeEnabled (g : globalOptions) : bool :=
  negb (ONoLAN g) && String.eqb (TrimSpace (OProxy g)) "" && (negb (ONoDirect g) || OallowLANUpgrade g).

Definition tcpPublicProbeEnabled (g : globalOptions) : bool :=
  negb (nativeDirectDisabled g || ONoTCPProbe g || String.eqb (ORelay g) "" || negb (String.eqb (ODirectAdvertise g) "")).

(** ** How long to try *)

Definition ms : Z := 1000000.
Definition adaptiveDirectTimeout (base : Z) (own peer : string) : Z * string :=
  if base <=? 0 then (base, "configured direct timeout is invalid"%string)
  else if String.eqb own "symmetric" && String.eqb peer "symmetric" then
    (Z.min base (500 * ms), "both peers reported destination-dependent UDP mappings"%string)
  else if String.eqb own "symmetric" || String.eqb peer "symmetric" then
    (Z.min base (700 * ms), "one peer reported a destination-dependent UDP mapping"%string)
  else if String.eqb own "open" || String.eqb peer "open" then
    (Z.max base (3500 * ms), "an openly reachable UDP mapping justifies a longer direct probe"%string)
  else if String.eqb own "cone" && String.eqb peer "cone" then
    (Z.max base (1500 * ms), "both peers reported stable UDP mappings"%string)
  else (base, "NAT mapping is unknown; using configured direct timeout"%string).

(** A probe's report: whether it succeeded, and the class it found. *)
Definition directNATClass (report : bool * string) : string := if report.1 && ValidNATClass report.2 then report.2 else "unknown".

Definition directTimeoutForPeer (g : globalOptions) (report : bool * string) (peer : directResponse) : Z * string :=
  if negb (OUDPProbe g) || negb (PeerNATProbe peer) then (ODirectTimeout g, ""%string)
  else adaptiveDirectTimeout (ODirectTimeout g) (directNATClass report)
         (if ValidNATClass (PeerNATClass peer) then PeerNATClass peer else "unknown").

(** ** Both clients take the same way *)

Section meet.
Context `{CaseTables} `{Hmac} (cfg : serviceConfig).

Definition allows_direct (g : globalOptions) : bool := negb (nativeDirectDisabled g).
(** What two clients dial after a negotiation that names [relay]. *)
Definition meeting_dialer (gs gr : globalOptions) (relay : string) : dialer :=
  if OLocal gs || OLocal gr then if OLocal gs && OLocal gr then DialRelay else DialWebRTC
  else if allows_direct gs && allows_direct gr then DialSignaledDirect
  else if String.eqb relay "" then DialWebRTC else DialRelay.

(** What one client makes of a response chosen for it and its peer. *)
Lemma resolve_chosen canceled g role protocol response other :
  normalizeTransportMode (OTransport g) = Ok transportModeAuto → validRole role = true →
  RType response = "negotiated"%string → RVersion response = NegotiationVersion →
  Route response = (if Local response || Direct response || negb (String.eqb (Relay response) "") then RouteNative else RouteWebRTC) →
  (Local response = true → Relay response = ""%string) → Direct response = (negb (Local response) && Direct response && allows_direct g && other) →
  ∃ r, resolveTransportOptions (fun _ => Some response) canceled g role protocol = Ok r ∧
    ORelay r = Relay response ∧ OLocal r = Local response ∧ OSignalDirect r = Direct response ∧ OProtocol r = protocol ∧
    (RelayCredential response ≠ ""%string → Route response = RouteNative → ORelayPass r = RelayCredential response) ∧
    dialTransport r role = Some (if Direct response then DialSignaledDirect else if Local response || negb (String.eqb (Relay response) "") then DialRelay else DialWebRTC).
Proof.
  intros Hmode Hrole Htype Hver Hroute Hlocal Hdirect. unfold resolveTransportOptions. rewrite Hmode. cbn [mbind result_bind]. cbv zeta.
  change (String.eqb transportModeAuto RouteWebRTC) with false. change (String.eqb transportModeAuto RouteNative) with false. cbn iota.
  unfold negotiateTransportRoute. rewrite Hrole, Htype, Hver. change (String.eqb "negotiated" "error") with false.
  change (String.eqb "negotiated" "negotiated") with true. rewrite Z.eqb_refl. cbn [negb orb]. rewrite Hroute.
  assert (Hd : Direct response && negb (nativeDirectDisabled g) = Direct response).
  { rewrite Hdirect. unfold allows_direct. by destruct (Local response), (Direct response), (nativeDirectDisabled g), other. }
  destruct (Local response || Direct response || negb (String.eqb (Relay response) "")) eqn:Enat.
  - change (String.eqb RouteNative RouteNative) with true. cbn iota. rewrite Hd. cbn [ORelay OLocal OSignalDirect with_route].
    assert (Hsome : String.eqb (Relay response) "" && negb (Local response) && negb (Direct response) = false)
      by (by destruct (String.eqb (Relay response) ""), (Local response), (Direct response)).
    rewrite Hsome. eexists. split; [done|]. cbn [ORelay OLocal OSignalDirect OProtocol ORelayPass with_route with_protocol].
    split; [done|]. split; [done|]. split; [done|]. split; [done|]. split.
    { intros Hc _. by apply String.eqb_neq in Hc as ->. }
    unfold dialTransport. rewrite Hrole. cbn [negb]. f_equal. unfold planNativeRoute, nativeDirectDisabled.
    cbn [ORelay OLocal OSignalDirect ONoDirect OProxy with_route with_protocol]. fold (nativeDirectDisabled g).
    destruct (Direct response) eqn:Ed.
    + cbn [andb] in Hd. rewrite Hd. assert (Local response = false) as -> by (destruct (Local response); [by rewrite Hdirect in Ed|done]). done.
    + destruct (Local response) eqn:El; [rewrite (Hlocal eq_refl); cbn; by destruct (nativeDirectDisabled g)|].
      cbn [orb negb andb] in Enat |- *. apply negb_true_iff in Enat. rewrite Enat. cbn. by destruct (nativeDirectDisabled g).
  - change (String.eqb RouteWebRTC RouteNative) with false. change (String.eqb RouteWebRTC RouteWebRTC) with true. cbn iota.
    apply orb_false_iff in Enat as [[El Ed]%orb_false_iff Er%negb_false_iff%String.eqb_eq]. eexists. split; [done|].
    cbn. rewrite Er, El, Ed. split; [done|]. split; [done|]. split; [done|]. split; [done|]. split; [done|].
    unfold dialTransport. rewrite Hrole. done.
Qed.

(** What the service chooses for two native clients. *)
Lemma Choose_native gs gr protocol relay :
  let response := Choose (negotiationCapability gs protocol) (negotiationCapability gr protocol) relay in
  RType response = "negotiated"%string ∧ RVersion response = NegotiationVersion ∧
  Route response = (if Local response || Direct response || negb (String.eqb (Relay response) "") then RouteNative else RouteWebRTC) ∧
  (Local response = true → Relay response = ""%string) ∧
  Direct response = (negb (Local response) && Direct response && allows_direct gs && allows_direct gr) ∧
  (if Direct response then DialSignaledDirect else if Local response || negb (String.eqb (Relay response) "") then DialRelay else DialWebRTC) =
    meeting_dialer gs gr (Relay response) ∧
  Local response = (OLocal gs && OLocal gr).
Proof.
  unfold Choose, negotiationCapability, meeting_dialer, allows_direct. cbn [Client NativeLocal NativeRelay NativeDirect CFeatures].
  change (String.eqb ClientNative ClientNative) with true. cbn [negb orb].
  destruct (OLocal gs), (OLocal gr); cbn; try (repeat split; done).
  destruct (relaysMatch _ _) eqn:Em.
  - cbn. assert (String.eqb (TrimSpace (TrimSpace (ORelay gs))) "" = false) as Hn.
    { unfold relaysMatch in Em. apply andb_true_iff in Em as [Em%negb_true_iff _]. done. }
    rewrite Hn. cbn. destruct (nativeDirectDisabled gs), (nativeDirectDisabled gr); cbn; repeat split; try done.
  - destruct (String.eqb (TrimSpace relay) "") eqn:Es; cbn.
    + destruct (nativeDirectDisabled gs), (nativeDirectDisabled gr); cbn; repeat split; try done.
    + rewrite Es. cbn. destruct (nativeDirectDisabled gs), (nativeDirectDisabled gr); cbn; repeat split; try done.
Qed.

Lemma set_credential_fields r credential :
  RType (set_credential r credential) = RType r ∧ RVersion (set_credential r credential) = RVersion r ∧ Route (set_credential r credential) = Route r ∧
  Relay (set_credential r credential) = Relay r ∧ Direct (set_credential r credential) = Direct r ∧ Local (set_credential r credential) = Local r.
Proof. done. Qed.

(** C36: two clients that negotiate meet.  Two clients of the same protocol that
    leave the choice to the service and get its answer both resolve it, neither
    fails, and both then dial in the same way, to the same relay: over a LAN relay
    when both are local and over WebRTC when only one is; otherwise directly when
    both allow it, else through the relay the service named and, when there is
    none, over WebRTC; and both use the credential the answer carries. *)
Theorem negotiated_routes_meet token now gs gr protocol response canceled :
  normalizeTransportMode (OTransport gs) = Ok transportModeAuto → normalizeTransportMode (OTransport gr) = Ok transportModeAuto →
  negotiation_outcome cfg token now (negotiationCapability gs protocol) (negotiationCapability gr protocol) = Ok response →
  ∃ rs rr,
    resolveTransportOptions (fun _ => Some response) canceled gs "sender" protocol = Ok rs ∧
    resolveTransportOptions (fun _ => Some response) canceled gr "receiver" protocol = Ok rr ∧
    dialTransport rs "sender" = Some (meeting_dialer gs gr (ORelay rs)) ∧ dialTransport rr "receiver" = dialTransport rs "sender" ∧
    ORelay rr = ORelay rs ∧ OLocal rs = (OLocal gs && OLocal gr) ∧ OLocal rr = OLocal rs ∧
    (RelayCredential response ≠ ""%string → Route response = RouteNative →
       ORelayPass rs = RelayCredential response ∧ ORelayPass rr = RelayCredential response).
Proof.
  intros Hs Hr Ho. assert (Hres : response = set_credential (Choose (negotiationCapability gs protocol) (negotiationCapability gr protocol) (ServiceRelay cfg)) (RelayCredential response)).
  { unfold negotiation_outcome in Ho. cbv zeta in Ho. destruct (negb (String.eqb _ _)); [done|]. destruct (String.eqb _ _ && _).
    - destruct (IssueCredential _ _ _); [|done]. by injection Ho as <-.
    - injection Ho as <-. by destruct (Choose _ _ _). }
  destruct (Choose_native gs gr protocol (ServiceRelay cfg)) as (Ht & Hv & Hroute & Hl & Hd & Hdial & Hlocal).
  destruct (set_credential_fields (Choose (negotiationCapability gs protocol) (negotiationCapability gr protocol) (ServiceRelay cfg)) (RelayCredential response))
    as (Et & Ev & Er & Erl & Ed & El).
  rewrite <- Hres in Et, Ev, Er, Erl, Ed, El. rewrite <- Et in Ht. rewrite <- Ev in Hv. rewrite <- Er, <- El, <- Ed, <- Erl in Hroute. rewrite <- El, <- Erl in Hl.
  rewrite <- El, <- Ed in Hd. rewrite <- Ed, <- El, <- Erl in Hdial. rewrite <- El in Hlocal.
  destruct (resolve_chosen canceled gs "sender" protocol response (allows_direct gr) Hs eq_refl Ht Hv Hroute Hl Hd) as (rs & Hrs & R1 & R2 & R3 & R4 & R5 & R6).
  destruct (resolve_chosen canceled gr "receiver" protocol response (allows_direct gs) Hr eq_refl Ht Hv Hroute Hl) as (rr & Hrr & S1 & S2 & S3 & S4 & S5 & S6).
  { rewrite Hd. by destruct (Local response), (Direct response), (allows_direct gs), (allows_direct gr). }
  exists rs, rr. rewrite R6, S6, R1, S1, R2, S2, Hdial. split_and!; try done.
  - intros Hc Hn. split; [by apply R5|by apply S5].
Qed.
End meet.

Definition demo_options (relay : string) (localOnly noDirect : bool) : globalOptions :=
  MkOptions "" false relay "" "" noDirect false false false localOnly (600 * ms) false 3 0 0 "" (1500 * ms) 4 "" false.
Definition demo_choice : Response :=
  MkResponse "negotiated" 1 "native" "native-native" "relay.example:9001" "v1.1700007200.MDAyNzAwMDA3MQphYWFhYWFhYWFhYWFhYWFhYWFhYWE" true false
    "service-native-relay" [] "".

Lemma negotiated_routes_meet_witness :
  ∃ rs rr,
    @resolveTransportOptions ascii_tables (fun _ => Some demo_choice) false (demo_options "" false false) "sender" "transfer" = Ok rs ∧
    @resolveTransportOptions ascii_tables (fun _ => Some demo_choice) false (demo_options "other:1" false false) "receiver" "transfer" = Ok rr ∧
    dialTransport rs "sender" = Some DialSignaledDirect ∧ dialTransport rr "receiver" = dialTransport rs "sender".
Proof.
  destruct (@negotiated_routes_meet ascii_tables demo_hmac demo_service demo_token demo_time (demo_options "" false false) (demo_options "other:1" false false)
    "transfer" demo_choice false) as (rs & rr & H1 & H2 & H3 & H4 & _).
  - vm_compute. reflexivity.
  - vm_compute. reflexivity.
  - vm_compute. reflexivity.
  - exists rs, rr. split; [exact H1|]. split; [exact H2|]. split; [exact H3|exact H4].
Defined.
