(* ===== verification/DialRoute.v ===== *)
(** * Connecting along a route ([internal/app/app.go], [lan_relay.go], [direct_signal.go])

    [dialRelayTransport] and [dialSignaledDirect] as functions of what the client
    meets — whether it can listen, what its relay or the service answer, how a
    direct attempt ends — with a log of what they open, close and report.  The
    theorems: the two peers that meet at a relay, or at the service, take
    matching parts, but for the cases the theorems name; and whatever happens the
    listener, the embedded relay and the relay connection are closed, handed on or
    returned.  A client's verdict on its route history ([d_deferred]) is one value
    of a call; the program evaluates [localDirectPreference] before it joins or
    asks and again afterwards, so a verdict that expires in between is not
    covered. *)
From Stdlib Require Import ZArith Lia Ascii String.
From stdpp Require Import base tactics numbers list gmap strings.
From S2P Require Import Prelude GoStrings NoteServer DirectCandidate DirectHello DirectConnect Routing RelayServer RelayClient RouteHistory Rendezvous Negotiation RoutePlan.

(** ** Candidates for the relay *)

Inductive relay_candidates_error := LocalWithoutLAN | LANTimeoutNotPositive | DiscoveryFailed | NoLANRelay | NoRelayCandidates.

(** [discovered]: the addresses found on the LAN, or [None] when the discovery
    failed other than by its deadline. *)
Definition relayCandidates (discovered : option (list string)) (g : globalOptions) (extra : list RelayCandidate)
    : result relay_candidates_error (list RelayCandidate) :=
  if OLocal g && ONoLAN g then Err LocalWithoutLAN
  else
    let hasEmbedded := existsb (fun c => String.eqb (RKind c) "embedded") extra in
    found ← (if negb (ONoLAN g) && negb hasEmbedded then
               if OLANTimeout g <=? 0 then Err LANTimeoutNotPositive
               else match discovered with
                    | None => if OLocal g then Err DiscoveryFailed else Ok []
                    | Some addresses => Ok ((fun a => MkRelayCandidate a "lan" 0 0 false) <$> addresses)
                    end
             else Ok []);
    let candidates := extra ++ found in
    let candidates :=
      if negb (OLocal g) && negb (String.eqb (ORelay g) "") then
        candidates ++ [MkRelayCandidate (ORelay g) "external" 1 (if Nat.eqb (length candidates) 0 then 0 else 180 * ms)
                         (negb (String.eqb (TrimSpace (OProxy g)) ""))]
      else candidates in
    if Nat.eqb (length candidates) 0 then Err (if OLocal g then NoLANRelay else NoRelayCandidates) else Ok candidates.

(** [net.JoinHostPort] *)
Definition JoinHostPort (host port : string) : string :=
  if has_byte ":"%char host then "[" +:+ host +:+ "]:" +:+ port else host +:+ ":" +:+ port.

(** What a client advertises of the addresses of its listener: [hosts] are those
    of its interfaces. *)
Definition advertised_addresses (g : globalOptions) (addr : string) (hosts : list string) : list string :=
  if negb (String.eqb (ODirectAdvertise g) "") then uniqueCandidates (split_on ","%char (ODirectAdvertise g))
  else match SplitHostPort addr with
       | None => [addr]
       | Some (host, port) =>
           if negb (String.eqb host "") && negb (String.eqb host "::") && negb (String.eqb host "0.0.0.0") then [JoinHostPort host port]
           else (fun h => JoinHostPort h port) <$> hosts
       end.
Definition advertisedDirectCandidateSet (g : globalOptions) (addr : string) (hosts : list string) : list string * list Candidate :=
  let addresses := advertised_addresses g addr hosts in
  let manual := negb (String.eqb (ODirectAdvertise g) "") in
  let metadata := omap (fun a => match FromAddress a manual with Ok c => Some c | Err _ => None end) addresses in
  let metadata := Merge addresses metadata in
  (Addresses metadata, metadata).

Definition appendDirectCandidate (addresses : list string) (metadata : list Candidate) (candidate : Candidate) : list string * list Candidate :=
  if negb (is_ok (Validate candidate)) then (addresses, metadata)
  else if containsString addresses (Address candidate) then (addresses, metadata)
  else if Z.of_nat (length addresses) >=? MaxCandidates then (addresses, metadata)
  else
    let merged := Merge (addresses ++ [Address candidate]) (metadata ++ [candidate]) in
    (Addresses merged, merged).

(** ** Dialling through a relay *)

Inductive effect :=
  | StartEmbedded | StopEmbedded          (* the sender's own relay on the LAN *)
  | Listen | CloseListener | HandListener (* handed to the direct attempt, which closes it *)
  | CloseRelay                            (* the connection of the joined relay *)
  | RouteFailed (kind : string).          (* [recordRouteFailure] *)
#[export] Instance effect_eq_dec : EqDecision effect.
Proof. solve_decision. Defined.

(** What a client meets: the relay it can start, what it can advertise when
    listening works, the public address seen by a probe, the NAT probe's report
    and the puncher it leaves, and the verdict of its route history. *)
Record dial_env := MkDialEnv {
  d_embedded : option string;
  d_listen : option (list string * list Candidate);
  d_netreuse : bool;
  d_public : option Candidate;
  d_nat : bool * string;
  d_puncher : option (list string);
  d_deferred : bool;
}.

(** The three direct attempts, with what they are given. *)
Inductive direct_call :=
  | BothWays (candidates : list string) (metadata : list Candidate) (punchAt timeout : Z) (punch : option (list string))
  | AcceptOnly (timeout : Z)
  | DialOnly (candidates : list string) (metadata : list Candidate) (timeout : Z).
Inductive relay_mode := TakeRelay | Attempt (call : direct_call).

Record routed := MkRouted { rd_kind : string; rd_count : Z; rd_label : string }.
Inductive dial_error := BadConnectionCount | EmbeddedFailed | RelayJoinFailed | DirectSkipped | DirectFailed | ExchangeFailed | WebRTCFailed | BadDialRole.

Section dial.
Variable envPass : string.   (* KIGO_RELAY_PASS *)
Definition relayPass (g : globalOptions) : string := if String.eqb (ORelayPass g) "" then envPass else ORelayPass g.

Definition relay_listener (g : globalOptions) (role : string) (env : dial_env) : option (list string * list Candidate) :=
  if negb (nativeDirectDisabled g) && (String.eqb role "sender" || String.eqb (localDirectPreference g (d_deferred env)) DirectPreferencePrefer)
  then d_listen env else None.
Definition can_both_ways (env : dial_env) (listener : option (list string * list Candidate)) : bool :=
  match listener with Some (candidates, _) => d_netreuse env && negb (Nat.eqb (length candidates) 0) | None => false end.
Definition relay_puncher (g : globalOptions) (env : dial_env) (bidirectional : bool) : option (list string) :=
  if bidirectional && OUDPProbe g then d_puncher env else None.

Definition relay_join (g : globalOptions) (roomToken role : string) (env : dial_env) : joinMessage :=
  let listener := relay_listener g role env in
  let candidates := match listener with Some (cs, _) => cs | None => [] end in
  let metadata := match listener with Some (_, ms) => ms | None => [] end in
  let bidirectional := can_both_ways env listener in
  let puncher := relay_puncher g env bidirectional in
  let capabilities := [CapabilityRouteChoiceV1] ++ (if bidirectional then [CapabilityBidirectionalDirectV1] else [])
                      ++ (if puncher then [CapabilityUDPPunchV1] else []) ++ (if lanUpgradeEnabled g then [CapabilityLANUpgradeV1] else []) in
  MkJoin "join" roomToken role 0 (OConnections g) (relayPass g) (firstCandidate candidates) candidates metadata (default [] puncher)
    capabilities (localDirectPreference g (d_deferred env)).

(** [joinCandidate] adds the address its probe of the relay showed; it probes for
    a listener whose addresses were not given by hand. *)
Definition probes_relay (g : globalOptions) (role : string) (env : dial_env) : bool :=
  match relay_listener g role env with Some _ => negb (ONoTCPProbe g) && String.eqb (ODirectAdvertise g) "" | None => false end.
Definition probed_join (g : globalOptions) (role : string) (env : dial_env) (observed : option string) (join : joinMessage) : joinMessage :=
  match (if probes_relay g role env then observed else None) with
  | None => join
  | Some address =>
      let '(cs, ms) := appendPublicCandidate (RelayServer.DirectCandidates join) (DirectCandidateMetadata join) address in
      MkJoin (JType join) (RoomToken join) (Role join) (ConnectionIndex join) (JConnectionCount join) (Pass join) (firstCandidate cs) cs ms
        (JUDPCandidates join) (Capabilities join) (JDirectPreference join)
  end.

Definition choose_mode (g : globalOptions) (role : string) (env : dial_env) (join : joinMessage) (peer : JoinResult) : relay_mode :=
  let listener := relay_listener g role env in
  let bidirectional := can_both_ways env listener in
  if String.eqb role "sender" && negb (if listener then true else false) then TakeRelay
  else if String.eqb role "receiver" && (nativeDirectDisabled g || Nat.eqb (length (JPeerDirectCandidates peer)) 0) then TakeRelay
  else if negb (peersShouldAttemptDirect join peer) then TakeRelay
  else if bidirectional && hasCapability (JPeerCapabilities peer) CapabilityBidirectionalDirectV1 && (JPunchAtMillis peer >? 0) then
    Attempt (BothWays (JPeerDirectCandidates peer) (JPeerDirectCandidateMetadata peer) (JPunchAtMillis peer) (ODirectTimeout g)
      (if relay_puncher g env bidirectional
       then if hasCapability (JPeerCapabilities peer) CapabilityUDPPunchV1 then Some (JPeerUDPCandidates peer) else None else None))
  else if String.eqb role "sender" then Attempt (AcceptOnly (ODirectTimeout g))
  else Attempt (DialOnly (JPeerDirectCandidates peer) (JPeerDirectCandidateMetadata peer) (ODirectTimeout g)).

Definition shouldAttemptLANUpgrade (g : globalOptions) (result : RaceResult) (join : joinMessage) : bool :=
  lanUpgradeEnabled g && String.eqb (RKind (rr_candidate result)) "external"
  && hasCapability (Capabilities join) CapabilityLANUpgradeV1 && hasCapability (JPeerCapabilities (rr_join result)) CapabilityLANUpgradeV1.

(** [upgrade]: the connections of a LAN upgrade that succeeds; [bundle]: those of
    [JoinBundle]; the flag: the embedded relay stays, for the route to stop. *)
Definition finalizeRelayRoute (upgrade : option Z) (bundle : Z) (g : globalOptions) (result : RaceResult) (join : joinMessage)
    (embedded : bool) : routed * bool * list effect :=
  match (if shouldAttemptLANUpgrade g result join then upgrade else None) with
  | Some count =>
      (MkRouted historyRouteDirect count "LAN direct upgrade", false, [CloseRelay] ++ if embedded then [StopEmbedded] else [])
  | None =>
      let kind := RKind (rr_candidate result) in
      let keep := String.eqb kind "embedded" && embedded in
      let label := if String.eqb kind "embedded" then "embedded LAN relay" else if String.eqb kind "lan" then "LAN relay" else "relay" in
      (MkRouted historyRouteRelay bundle label, keep, if embedded && negb keep then [StopEmbedded] else [])
  end.

Variable race : joinMessage → list RelayCandidate → option RaceResult.
Variable direct : direct_call → option Z.
Variables (upgrade : option Z) (bundle : Z).

(** [dialRelayTransport] *)
Definition dial_relay_with (embedded : option string) (g : globalOptions) (roomToken role : string) (env : dial_env)
    : result dial_error routed * bool * list effect :=
  let listener := relay_listener g role env in
  let closing := if listener then [CloseListener] else [] in
  let join := relay_join g roomToken role env in
  let extra := match embedded with Some addr => [MkRelayCandidate addr "embedded" 0 0 false] | None => [] end in
  let opened := if listener then [Listen] else [] in
  match race join extra with
  | None => (Err RelayJoinFailed, false, opened ++ [RouteFailed historyRouteRelay] ++ closing)
  | Some result =>
      let '(relayed, keep, finish) := finalizeRelayRoute upgrade bundle g result join (if embedded then true else false) in
      match choose_mode g role env join (rr_join result) with
      | TakeRelay => (Ok relayed, keep, opened ++ closing ++ finish)
      | Attempt call =>
          let before := match call with DialOnly _ _ _ => closing | _ => [HandListener] end in
          match direct call with
          | None => (Ok relayed, keep, opened ++ before ++ [RouteFailed historyRouteDirect] ++ finish)
          | Some count => (Ok (MkRouted historyRouteDirect count "direct"), false, opened ++ before ++ [CloseRelay])
          end
      end
  end.
Definition dialRelayTransport (g : globalOptions) (roomToken role : string) (env : dial_env) : result dial_error routed * list effect :=
  if negb (ValidateConnectionCount (OConnections g)) then (Err BadConnectionCount, [])
  else
    let starts := String.eqb role "sender" && negb (ONoLAN g) in
    let embedded := if starts then d_embedded env else None in
    if starts && negb (if embedded then true else false) && OLocal g then (Err EmbeddedFailed, [])
    else
      let '(outcome, keep, effects) := dial_relay_with embedded g roomToken role env in
      (outcome, (if embedded then [StartEmbedded] else []) ++ effects ++ (if embedded then if keep then [] else [StopEmbedded] else [])).

(** ** Dialling after an exchange through the service *)

Inductive exchange_error :=
  | InvalidDirectRole | DirectIO | DirectRefused (text : string) | UnsupportedDirect | InvalidPeerCount | InvalidPeerPreference
  | InvalidPeerNATClass | ClassWithoutProbe | ProbeWithoutClass | PeerPunchWithoutCandidates | PeerPunchWithoutBidirectional
  | PeerCandidatesWithoutPunch | InvalidPeerCandidates (e : candidate_error) | PeerBidirectionalWithoutCandidates | PeerWithoutPunchTime.

(** What [exchangeDirectCapability] demands of the answer. *)
Definition check_direct_response (r : directResponse) : result exchange_error unit :=
  _ ← fail_if (negb (String.eqb (DRType r) "direct_peer") || negb (DRVersion r =? directRendezvousVersion)) UnsupportedDirect;
  _ ← fail_if ((Negotiation.PeerConnectionCount r <? 1) || (Negotiation.PeerConnectionCount r >? 8)) InvalidPeerCount;
  _ ← fail_if (negb (String.eqb (PeerPreference r) DirectPreferencePrefer) && negb (String.eqb (PeerPreference r) DirectPreferenceRelay))
        InvalidPeerPreference;
  _ ← fail_if (negb (String.eqb (PeerNATClass r) "") && negb (ValidNATClass (PeerNATClass r))) InvalidPeerNATClass;
  _ ← fail_if (negb (String.eqb (PeerNATClass r) "") && negb (PeerNATProbe r)) ClassWithoutProbe;
  _ ← fail_if (PeerNATProbe r && String.eqb (PeerNATClass r) "") ProbeWithoutClass;
  _ ← fail_if (PeerUDPPunch r && Nat.eqb (length (Negotiation.PeerUDPCandidates r)) 0) PeerPunchWithoutCandidates;
  _ ← fail_if (PeerUDPPunch r && negb (PeerBidirectional r)) PeerPunchWithoutBidirectional;
  _ ← fail_if (negb (PeerUDPPunch r) && negb (Nat.eqb (length (Negotiation.PeerUDPCandidates r)) 0)) PeerCandidatesWithoutPunch;
  _ ← wrap_err InvalidPeerCandidates (ValidateSet (Negotiation.PeerUDPCandidates r) []);
  _ ← fail_if (PeerBidirectional r && Nat.eqb (length (PeerCandidates r)) 0) PeerBidirectionalWithoutCandidates;
  _ ← fail_if (PeerBidirectional r && (PunchAtMillis r <=? 0)) PeerWithoutPunchTime;
  wrap_err InvalidPeerCandidates (ValidateSet (PeerCandidates r) (PeerCandidateMetadata r)).

(** The listener and what it advertises, its public address included. *)
Definition signaled_listener (g : globalOptions) (env : dial_env) : option (list string * list Candidate) :=
  if String.eqb (localDirectPreference g (d_deferred env)) DirectPreferencePrefer then
    match d_listen env with
    | Some (cs, ms) => Some (match (if tcpPublicProbeEnabled g then d_public env else None) with
                             | Some c => appendDirectCandidate cs ms c
                             | None => (cs, ms)
                             end)
    | None => None
    end
  else None.

(** [prepareDirectUDP] *)
Definition direct_udp (g : globalOptions) (env : dial_env) : (bool * string) * option (list string) :=
  if OUDPProbe g then (d_nat env, d_puncher env) else ((false, "unknown"%string), None).
Definition signaled_puncher (g : globalOptions) (env : dial_env) (bidirectional : bool) : option (list string) :=
  if bidirectional then snd (direct_udp g env) else None.

Definition direct_capability (g : globalOptions) (env : dial_env) : directCapability :=
  let listener := signaled_listener g env in
  let bidirectional := can_both_ways env listener in
  let udp := default [] (signaled_puncher g env bidirectional) in
  MkDirectCapability "direct" directRendezvousVersion (match listener with Some (cs, _) => cs | None => [] end)
    (match listener with Some (_, ms) => ms | None => [] end) (OConnections g) (localDirectPreference g (d_deferred env)) bidirectional
    (negb (String.eqb (ORelay g) "")) (OUDPProbe g) (if OUDPProbe g then directNATClass (fst (direct_udp g env)) else "")
    (negb (Nat.eqb (length udp) 0)) udp.

(** [exchange]: the service's answer, an error text, or nothing. *)
Definition exchangeDirectCapability (exchange : directCapability → option (result string directResponse)) (g : globalOptions) (role : string)
    (env : dial_env) : result exchange_error directResponse :=
  if negb (validRole role) then Err InvalidDirectRole
  else
    match exchange (direct_capability g env) with
    | None => Err DirectIO
    | Some (Err text) => Err (DirectRefused (if String.eqb text "" then "direct rendezvous failed" else text))
    | Some (Ok r) => _ ← check_direct_response r; Ok r
    end.

Inductive signaled_mode := SkipDirect | SignaledAttempt (call : direct_call).
Definition choose_signaled (g : globalOptions) (role : string) (env : dial_env) (peer : directResponse) : signaled_mode :=
  let listener := signaled_listener g env in
  let bidirectional := can_both_ways env listener in
  let directAvailable :=
    if String.eqb role "sender" then match listener with Some (cs, _) => negb (Nat.eqb (length cs) 0) | None => false end
    else negb (Nat.eqb (length (PeerCandidates peer)) 0) in
  if negb directAvailable || String.eqb (localDirectPreference g (d_deferred env)) DirectPreferenceRelay
     || String.eqb (PeerPreference peer) DirectPreferenceRelay
  then SkipDirect
  else
    let timeout := fst (directTimeoutForPeer g (fst (direct_udp g env)) peer) in
    if bidirectional && PeerBidirectional peer then
      SignaledAttempt (BothWays (PeerCandidates peer) (PeerCandidateMetadata peer) (PunchAtMillis peer) timeout
        (if PeerUDPPunch peer then match signaled_puncher g env bidirectional with Some _ => Some (Negotiation.PeerUDPCandidates peer) | None => None end else None))
    else if String.eqb role "sender" then SignaledAttempt (AcceptOnly timeout)
    else SignaledAttempt (DialOnly (PeerCandidates peer) (PeerCandidateMetadata peer) timeout).

(** How a call ends; [NilListener] is the run-time panic of [Close] on a nil
    listener. *)
Inductive dial_outcome := Connected (r : routed) | DialFailed (e : dial_error) | NilListener.
Definition outcome_of (r : result dial_error routed) : dial_outcome := match r with Ok x => Connected x | Err e => DialFailed e end.

Context `{CaseTables}.
Variable webrtc : bool.   (* whether [dialWebRTCTransport] succeeds *)

Definition dialWebRTCTransport : dial_outcome * list effect :=
  if webrtc then (Connected (MkRouted historyRouteWebRTC 1 "webrtc"), []) else (DialFailed WebRTCFailed, [RouteFailed historyRouteWebRTC]).
Definition dialAfterSignaledDirect (g : globalOptions) (roomToken role : string) (env : dial_env) (useRelay : bool) (e : dial_error)
    : dial_outcome * list effect :=
  if useRelay then let '(r, effects) := dialRelayTransport (relayOnlyOptions g) roomToken role env in (outcome_of r, effects)
  else match normalizeTransportMode (OTransport g) with
       | Ok mode => if String.eqb mode RouteNative then (DialFailed e, []) else dialWebRTCTransport
       | Err _ => dialWebRTCTransport
       end.

(** [dialSignaledDirect] *)
Definition dialSignaledDirect (exchange : directCapability → option (result string directResponse)) (g : globalOptions)
    (roomToken role : string) (env : dial_env) : dial_outcome * list effect :=
  if negb (validRole role) then (DialFailed BadDialRole, [])
  else
    let listener := signaled_listener g env in
    let opened := if listener then [Listen] else [] in
    let closing := if listener then [CloseListener] else [] in
    let after useRelay e before := let '(o, effects) := dialAfterSignaledDirect g roomToken role env useRelay e in (o, opened ++ before ++ effects) in
    match exchangeDirectCapability exchange g role env with
    | Err _ => after (negb (String.eqb (ORelay g) "")) ExchangeFailed closing
    | Ok peer =>
        let useRelay := negb (String.eqb (ORelay g) "") && PeerRelayFallback peer in
        match choose_signaled g role env peer with
        | SkipDirect => after useRelay DirectSkipped closing
        | SignaledAttempt call =>
            match call, listener with
            | DialOnly _ _ _, None => (NilListener, opened)
            | _, _ =>
                let before := match call with DialOnly _ _ _ => closing | _ => [HandListener] end in
                match direct call with
                | Some count => (Connected (MkRouted historyRouteDirect count "direct via signaling"), opened ++ before)
                | None => after useRelay DirectFailed (before ++ [RouteFailed historyRouteDirect])
                end
            end
        end
    end.
End dial.

(** ** Peers that meet at a relay *)

Lemma directPunchAtMillis_sym c d now : directPunchAtMillis c d now = directPunchAtMillis d c now.
Proof.
  unfold directPunchAtMillis. by destruct (c_index c =? 0), (c_index d =? 0), (Nat.eqb (length (c_candidates c)) 0), (Nat.eqb (length (c_candidates d)) 0),
    (hasCapability (c_capabilities c) CapabilityBidirectionalDirectV1), (hasCapability (c_capabilities d) CapabilityBidirectionalDirectV1).
Qed.

Lemma localDirectPreference_cases g deferred :
  localDirectPreference g deferred = DirectPreferencePrefer ∨ localDirectPreference g deferred = DirectPreferenceRelay.
Proof. unfold localDirectPreference. destruct (_ || _); auto. Qed.

(** The client the relay sees of a join, and what its peer learns of it. *)
Definition met (pass : string) (g : globalOptions) (token role : string) (env : dial_env) (observed : option string) (k : RelayServer.conn_id) : rclient :=
  join_client k (probed_join g role env observed (relay_join pass g token role env)).

Record met_as (g : globalOptions) (role : string) (env : dial_env) (c : rclient) : Prop := {
  ma_index : c_index c = 0;
  ma_choice : hasCapability (c_capabilities c) CapabilityRouteChoiceV1 = true;
  ma_both : hasCapability (c_capabilities c) CapabilityBidirectionalDirectV1 = can_both_ways env (relay_listener g role env);
  ma_upgrade : hasCapability (c_capabilities c) CapabilityLANUpgradeV1 = lanUpgradeEnabled g;
  ma_preference : c_preference c = localDirectPreference g (d_deferred env);
  ma_direct : c_direct c = firstCandidate (c_candidates c);
  ma_silent : relay_listener g role env = None → c_candidates c = [];
}.

Lemma probed_join_fields g role env observed j :
  Capabilities (probed_join g role env observed j) = Capabilities j ∧ JDirectPreference (probed_join g role env observed j) = JDirectPreference j ∧
  ConnectionIndex (probed_join g role env observed j) = ConnectionIndex j.
Proof. unfold probed_join. destruct (if probes_relay g role env then observed else None); [|done]. by destruct (appendPublicCandidate _ _ _). Qed.

Lemma met_spec pass g token role env observed k : met_as g role env (met pass g token role env observed k).
Proof.
  unfold met. destruct (probed_join_fields g role env observed (relay_join pass g token role env)) as (Ec & Ep & Ei).
  assert (Hcaps : ∀ bidirectional puncher upgrade : bool, let caps := normalizeCapabilities ([CapabilityRouteChoiceV1]
      ++ (if bidirectional then [CapabilityBidirectionalDirectV1] else []) ++ (if puncher then [CapabilityUDPPunchV1] else [])
      ++ (if upgrade then [CapabilityLANUpgradeV1] else [])) in
    hasCapability caps CapabilityRouteChoiceV1 = true ∧ hasCapability caps CapabilityBidirectionalDirectV1 = bidirectional ∧
    hasCapability caps CapabilityLANUpgradeV1 = upgrade) by (by intros [] [] []).
  destruct (Hcaps (can_both_ways env (relay_listener g role env)) (if relay_puncher g env (can_both_ways env (relay_listener g role env)) then true else false)
    (lanUpgradeEnabled g)) as (H1 & H2 & H3).
  assert (Heq : Capabilities (relay_join pass g token role env) = [CapabilityRouteChoiceV1]
      ++ (if can_both_ways env (relay_listener g role env) then [CapabilityBidirectionalDirectV1] else [])
      ++ (if (if relay_puncher g env (can_both_ways env (relay_listener g role env)) then true else false) then [CapabilityUDPPunchV1] else [])
      ++ (if lanUpgradeEnabled g then [CapabilityLANUpgradeV1] else [])).
  { unfold relay_join. cbn [Capabilities]. by destruct (relay_puncher _ _ _). }
  rewrite <- Heq, <- Ec in H1, H2, H3. split; unfold join_client; cbn [c_index c_capabilities c_preference c_direct c_candidates]; try done.
  - rewrite Ep. unfold relay_join. cbn [JDirectPreference]. by destruct (localDirectPreference_cases g (d_deferred env)) as [->| ->].
  - intros Hl. unfold probed_join, probes_relay. rewrite Hl. unfold relay_join. rewrite Hl. done.
Qed.

(** What the relay tells a client of its peer. *)
Definition told (t : transport_id) (punchAtMillis : Z) (peer : rclient) : JoinResult :=
  MkJoinResult t punchAtMillis (normalizedRelayConnectionCount (c_count peer)) (c_direct peer) (c_candidates peer) (c_metadata peer) (c_udp peer)
    (c_capabilities peer) (c_preference peer).
Lemma told_spec g role env t punchAtMillis c : met_as g role env c → join_result t (ready_status punchAtMillis c) = Ok (told t punchAtMillis c).
Proof.
  intros Hc. unfold join_result, ready_status, told. cbn. change (String.eqb "ready" "error") with false. change (String.eqb "ready" "ready") with true. cbn.
  rewrite (ma_direct _ _ _ _ Hc). by destruct (c_candidates c).
Qed.

Definition matching_modes (cs cr : rclient) (sm rm : relay_mode) : Prop :=
  match sm, rm with
  | TakeRelay, TakeRelay => True
  | Attempt (BothWays c1 m1 p1 _ _), Attempt (BothWays c2 m2 p2 _ _) =>
      p1 = p2 ∧ c1 = c_candidates cr ∧ m1 = c_metadata cr ∧ c2 = c_candidates cs ∧ m2 = c_metadata cs
  | Attempt (AcceptOnly _), Attempt (DialOnly c m _) => c = c_candidates cs ∧ m = c_metadata cs
  | Attempt (AcceptOnly _), TakeRelay => c_candidates cs = []
  | _, _ => False
  end.

Lemma should_attempt pass g token role env t punch c g' role' env' :
  met_as g' role' env' c →
  peersShouldAttemptDirect (relay_join pass g token role env) (told t punch c) =
    negb (String.eqb (localDirectPreference g (d_deferred env)) DirectPreferenceRelay) && negb (String.eqb (localDirectPreference g' (d_deferred env')) DirectPreferenceRelay).
Proof.
  intros Hc. unfold peersShouldAttemptDirect, told. cbn [JPeerCapabilities JPeerDirectPreference]. rewrite (ma_choice _ _ _ _ Hc), (ma_preference _ _ _ _ Hc).
  unfold relay_join. cbn [Capabilities JDirectPreference]. by destruct (can_both_ways _ _), (relay_puncher _ _ _), (lanUpgradeEnabled g).
Qed.

Lemma punch_positive c d now :
  0 ≤ now → c_index c = 0 → c_index d = 0 →
  (directPunchAtMillis c d now >? 0) = negb (Nat.eqb (length (c_candidates c)) 0) && negb (Nat.eqb (length (c_candidates d)) 0)
    && hasCapability (c_capabilities c) CapabilityBidirectionalDirectV1 && hasCapability (c_capabilities d) CapabilityBidirectionalDirectV1.
Proof.
  intros Hnow Hc Hd. unfold directPunchAtMillis. rewrite Hc, Hd. cbn [Z.eqb negb orb].
  assert (Hpos : UnixMilli (now + 150 * NoteServer.millisecond) >? 0 = true).
  { rewrite Z.gtb_ltb. apply Z.ltb_lt. unfold UnixMilli, NoteServer.millisecond. apply Z.div_str_pos. lia. }
  destruct (Nat.eqb (length (c_candidates c)) 0), (Nat.eqb (length (c_candidates d)) 0), (hasCapability (c_capabilities c) CapabilityBidirectionalDirectV1),
    (hasCapability (c_capabilities d) CapabilityBidirectionalDirectV1); cbn [orb andb negb]; done.
Qed.

(** The sender's and the receiver's part, when the relay told each of the other. *)
Definition sender_mode (pass : string) (g : globalOptions) (token : string) (env : dial_env) (result : JoinResult) : relay_mode :=
  choose_mode g "sender" env (relay_join pass g token "sender" env) result.
Definition receiver_mode (pass : string) (g : globalOptions) (token : string) (env : dial_env) (result : JoinResult) : relay_mode :=
  choose_mode g "receiver" env (relay_join pass g token "receiver" env) result.

Lemma both_ways_of pass g token role env t punch c g' role' env' listener :
  met_as g' role' env' c → relay_listener g role env = Some listener →
  (if String.eqb role "receiver" then (nativeDirectDisabled g || Nat.eqb (length (c_candidates c)) 0) else false) = false →
  localDirectPreference g (d_deferred env) ≠ DirectPreferenceRelay → localDirectPreference g' (d_deferred env') ≠ DirectPreferenceRelay →
  can_both_ways env (relay_listener g role env) = true → can_both_ways env' (relay_listener g' role' env') = true → punch >? 0 = true →
  ∃ timeout p, choose_mode g role env (relay_join pass g token role env) (told t punch c) = Attempt (BothWays (c_candidates c) (c_metadata c) punch timeout p).
Proof.
  intros Hc Hl Hrecv Hg Hg' Hb Hb' Hp. unfold choose_mode. rewrite (should_attempt _ _ _ _ _ _ _ _ _ _ _ Hc). cbv zeta. rewrite Hb. rewrite Hl.
  rewrite andb_false_r. unfold told. cbn [JPeerDirectCandidates JPeerDirectCandidateMetadata JPeerCapabilities JPunchAtMillis].
  rewrite (ma_both _ _ _ _ Hc), Hb', Hp. apply String.eqb_neq in Hg as ->. apply String.eqb_neq in Hg' as ->. cbn [negb andb].
  destruct (String.eqb role "receiver"); cbn [andb]; [rewrite Hrecv|]; eexists _, _; done.
Qed.

Lemma no_both_ways_of pass g token role env t punch c g' role' env' :
  met_as g' role' env' c →
  can_both_ways env (relay_listener g role env) && can_both_ways env' (relay_listener g' role' env') && (punch >? 0) = false →
  choose_mode g role env (relay_join pass g token role env) (told t punch c) =
    if String.eqb role "sender" && negb (if relay_listener g role env then true else false) then TakeRelay
    else if String.eqb role "receiver" && (nativeDirectDisabled g || Nat.eqb (length (c_candidates c)) 0) then TakeRelay
    else if String.eqb (localDirectPreference g (d_deferred env)) DirectPreferenceRelay || String.eqb (localDirectPreference g' (d_deferred env')) DirectPreferenceRelay then TakeRelay
    else if String.eqb role "sender" then Attempt (AcceptOnly (ODirectTimeout g)) else Attempt (DialOnly (c_candidates c) (c_metadata c) (ODirectTimeout g)).
Proof.
  intros Hc Hb. unfold choose_mode. rewrite (should_attempt _ _ _ _ _ _ _ _ _ _ _ Hc). cbv zeta. unfold told.
  cbn [JPeerDirectCandidates JPeerDirectCandidateMetadata JPeerCapabilities JPunchAtMillis]. rewrite (ma_both _ _ _ _ Hc), Hb.
  by rewrite negb_andb, !negb_involutive.
Qed.

Lemma can_both_ways_listens g role env : can_both_ways env (relay_listener g role env) = true → ∃ l, relay_listener g role env = Some l ∧ nativeDirectDisabled g = false.
Proof.
  intros Hb. destruct (relay_listener g role env) as [l|] eqn:El; [|done]. exists l. split; [done|]. unfold relay_listener in El. by destruct (nativeDirectDisabled g).
Qed.

Lemma upgrade_symmetric pass g token role env t punch c g' role' env' cand :
  met_as g' role' env' c → RKind cand = "external"%string →
  shouldAttemptLANUpgrade g (MkRaceResult (told t punch c) cand) (relay_join pass g token role env) = lanUpgradeEnabled g && lanUpgradeEnabled g'.
Proof.
  intros Hc Hk. unfold shouldAttemptLANUpgrade, told. cbn [rr_candidate rr_join JPeerCapabilities]. rewrite Hk, (ma_upgrade _ _ _ _ Hc). unfold relay_join. cbn [Capabilities].
  destruct (lanUpgradeEnabled g); [|done]. by destruct (can_both_ways _ _), (relay_puncher _ _ _).
Qed.

Lemma deferred_mode pass g token role env t punch c g' role' env' :
  met_as g' role' env' c →
  localDirectPreference g (d_deferred env) = DirectPreferenceRelay ∨ localDirectPreference g' (d_deferred env') = DirectPreferenceRelay →
  choose_mode g role env (relay_join pass g token role env) (told t punch c) = TakeRelay.
Proof.
  intros Hc Hp. unfold choose_mode. rewrite (should_attempt _ _ _ _ _ _ _ _ _ _ _ Hc).
  assert (Hb : ∀ a b : bool, a = true ∨ b = true → negb (negb a && negb b) = true) by (by intros [] [] [|]). rewrite Hb.
  - by repeat case_match.
  - destruct Hp as [-> | ->]; [left|right]; apply String.eqb_refl.
Qed.

(** The sender waits for a connection that the receiver does not make. *)
Definition waits_in_vain (sm rm : relay_mode) : Prop :=
  match sm, rm with Attempt (AcceptOnly _), TakeRelay => True | _, _ => False end.

(** C34: two peers that meet at a relay take matching parts, but for one case.
    Whatever their options, listeners, probes and histories: when the relay has
    paired a sender and a receiver and told each of the other, either both keep
    the relay, or both connect both ways at the same moment and to what the other
    advertised, or the sender waits and the receiver dials what the sender
    advertised, or the sender waits in vain while the receiver keeps the relay.
    The last happens exactly when the sender listens and advertises no address
    (as when none given by hand is valid) and neither peer prefers the relay.
    When both found the relay outside the LAN they also agree on whether to try a
    LAN upgrade.  Each peer's verdict on its history is one value here, where the
    program asks for it before joining and again afterwards. *)
Theorem relay_peers_match passS passR gs gr token es er os or ks kr ts tr now :
  0 ≤ now →
  let cs := met passS gs token "sender" es os ks in
  let cr := met passR gr token "receiver" er or kr in
  ∃ xs xr, join_result ts (ready_status (directPunchAtMillis cs cr now) cr) = Ok xs ∧
    join_result tr (ready_status (directPunchAtMillis cr cs now) cs) = Ok xr ∧
    matching_modes cs cr (sender_mode passS gs token es xs) (receiver_mode passR gr token er xr) ∧
    (waits_in_vain (sender_mode passS gs token es xs) (receiver_mode passR gr token er xr) ↔
       is_Some (relay_listener gs "sender" es) ∧ c_candidates cs = [] ∧
       localDirectPreference gs (d_deferred es) ≠ DirectPreferenceRelay ∧ localDirectPreference gr (d_deferred er) ≠ DirectPreferenceRelay) ∧
    (∀ cand cand', RKind cand = "external"%string → RKind cand' = "external"%string →
       shouldAttemptLANUpgrade gs (MkRaceResult xs cand) (relay_join passS gs token "sender" es) =
       shouldAttemptLANUpgrade gr (MkRaceResult xr cand') (relay_join passR gr token "receiver" er)).
Proof.
  intros Hnow cs cr. pose proof (met_spec passS gs token "sender" es os ks : met_as gs "sender" es cs) as Hs.
  pose proof (met_spec passR gr token "receiver" er or kr : met_as gr "receiver" er cr) as Hr.
  rewrite (directPunchAtMillis_sym cr cs). exists (told ts (directPunchAtMillis cs cr now) cr), (told tr (directPunchAtMillis cs cr now) cs).
  split; [by eapply told_spec|]. split; [by eapply told_spec|]. apply and_assoc. split.
  2:{ intros cand cand' H1 H2. rewrite (upgrade_symmetric _ _ _ _ _ _ _ _ _ _ _ _ Hr H1), (upgrade_symmetric _ _ _ _ _ _ _ _ _ _ _ _ Hs H2). apply andb_comm. }
  pose proof (punch_positive cs cr now Hnow (ma_index _ _ _ _ Hs) (ma_index _ _ _ _ Hr)) as Hpos. rewrite (ma_both _ _ _ _ Hs), (ma_both _ _ _ _ Hr) in Hpos.
  set (punch := directPunchAtMillis cs cr now) in *.
  set (bs := can_both_ways es (relay_listener gs "sender" es)) in *. set (br := can_both_ways er (relay_listener gr "receiver" er)) in *.
  destruct (String.eqb_spec (localDirectPreference gs (d_deferred es)) DirectPreferenceRelay) as [Ps|Ps].
  { unfold sender_mode, receiver_mode. rewrite (deferred_mode _ _ _ _ _ _ _ _ _ _ _ Hr (or_introl Ps)), (deferred_mode _ _ _ _ _ _ _ _ _ _ _ Hs (or_intror Ps)).
    split; [done|]. split; [done|]. by intros (_ & _ & ? & _). }
  destruct (String.eqb_spec (localDirectPreference gr (d_deferred er)) DirectPreferenceRelay) as [Pr|Pr].
  { unfold sender_mode, receiver_mode. rewrite (deferred_mode _ _ _ _ _ _ _ _ _ _ _ Hr (or_intror Pr)), (deferred_mode _ _ _ _ _ _ _ _ _ _ _ Hs (or_introl Pr)).
    split; [done|]. split; [done|]. by intros (_ & _ & _ & ?). }
  destruct (punch >? 0) eqn:Ep.
  - symmetry in Hpos. apply andb_true_iff in Hpos as [[[Hcs Hcr]%andb_true_iff Hbs]%andb_true_iff Hbr].
    destruct (can_both_ways_listens _ _ _ Hbs) as (ls & Hls & _), (can_both_ways_listens _ _ _ Hbr) as (lr & Hlr & Hdr).
    destruct (both_ways_of passS gs token "sender" es ts punch cr gr "receiver" er ls Hr Hls eq_refl Ps Pr Hbs Hbr Ep) as (t1 & p1 & Hms).
    destruct (both_ways_of passR gr token "receiver" er tr punch cs gs "sender" es lr Hs Hlr) as (t2 & p2 & Hmr); try done.
    { change (String.eqb "receiver" "receiver") with true. rewrite Hdr. by apply negb_true_iff in Hcs. }
    unfold sender_mode, receiver_mode. rewrite Hms, Hmr. split; [done|]. split; [done|]. intros (_ & E & _). by rewrite E in Hcs.
  - unfold sender_mode, receiver_mode. rewrite (no_both_ways_of _ _ _ _ _ _ _ _ _ _ _ Hr) by (rewrite Ep; apply andb_false_r).
    rewrite (no_both_ways_of _ _ _ _ _ _ _ _ _ _ _ Hs) by (rewrite Ep; apply andb_false_r).
    apply String.eqb_neq in Ps as Ps'. apply String.eqb_neq in Pr as Pr'. rewrite Ps', Pr'. cbn [String.eqb Ascii.eqb Bool.eqb andb orb negb].
    destruct (relay_listener gs "sender" es) as [ls|] eqn:El; cbn [negb].
    + assert (nativeDirectDisabled gr = false) as -> by (unfold localDirectPreference in Pr; by destruct (nativeDirectDisabled gr)). cbn [orb].
      destruct (Nat.eqb_spec (length (c_candidates cs)) 0) as [E|E].
      * apply nil_length_inv in E. split; [exact E|]. split; [intros _; by split_and!|done].
      * split; [done|]. split; [done|]. intros (_ & E' & _). by rewrite E' in E.
    + rewrite (ma_silent _ _ _ _ Hs El). cbn. rewrite orb_true_r. split; [done|]. split; [done|]. by intros [[? ?] _].
Qed.

(** ** What a call leaves behind *)

Definition times (x : effect) (es : list effect) : nat := length (List.filter (fun y => bool_decide (y = x)) es).
Lemma times_app x es es' : times x (es ++ es') = (times x es + times x es')%nat.
Proof. unfold times. by rewrite List.filter_app, length_app. Qed.

Lemma times_cons x y es : times x (y :: es) = ((if bool_decide (y = x) then 1 else 0) + times x es)%nat.
Proof. unfold times. cbn [List.filter]. by destruct (bool_decide _). Qed.

(** Every listener is closed or handed to the direct attempt. *)
Definition balanced (es : list effect) : Prop := times Listen es = (times CloseListener es + times HandListener es)%nat.
Lemma balanced_app es es' : balanced es → balanced es' → balanced (es ++ es').
Proof. unfold balanced. rewrite !times_app. lia. Qed.
Lemma balanced_none es : Forall (λ x, x ≠ Listen ∧ x ≠ CloseListener ∧ x ≠ HandListener) es → balanced es.
Proof.
  intros Hes. unfold balanced, times. induction Hes as [|x es (H1 & H2 & H3) _ IH]; [done|]. cbn [List.filter].
  by rewrite !bool_decide_eq_false_2 by done.
Qed.

Section left_behind.
Variable envPass : string.
Variable race : joinMessage → list RelayCandidate → option RaceResult.
Variable direct : direct_call → option Z.
Variables (upgrade : option Z) (bundle : Z).

(** How the connection of a joined relay fares: closed exactly when the route is a
    direct one. *)
Definition relay_settled (r : routed) (es : list effect) : Prop :=
  times CloseRelay es = if String.eqb (rd_kind r) historyRouteDirect then 1%nat else 0%nat.

Lemma finalize_spec g result join embedded r keep es :
  finalizeRelayRoute upgrade bundle g result join embedded = (r, keep, es) →
  balanced es ∧ relay_settled r es ∧ (keep = true → rd_label r = "embedded LAN relay"%string) ∧ times StartEmbedded es = 0%nat.
Proof.
  unfold finalizeRelayRoute. destruct (if shouldAttemptLANUpgrade g result join then upgrade else None) as [count|].
  - intros [= <- <- <-]. by destruct embedded.
  - cbv zeta. intros [= <- <- <-]. destruct (String.eqb (RKind (rr_candidate result)) "embedded") eqn:E, embedded; done.
Qed.

Lemma dial_relay_with_spec embedded g token role env res keep es :
  dial_relay_with envPass race direct upgrade bundle embedded g token role env = (res, keep, es) →
  balanced es ∧ times StartEmbedded es = 0%nat ∧ (keep = true → ∃ r, res = Ok r ∧ rd_label r = "embedded LAN relay"%string) ∧
  match res with
  | Ok r => relay_settled r es
  | Err _ => times CloseRelay es = 0%nat ∧ race (relay_join envPass g token role env) (match embedded with Some addr => [MkRelayCandidate addr "embedded" 0 0 false] | None => [] end) = None
  end.
Proof.
  unfold dial_relay_with. cbv zeta. destruct (race _ _) as [result|] eqn:Er.
  2:{ intros [= <- <- <-]. by destruct (relay_listener g role env). }
  destruct (finalizeRelayRoute _ _ _ _ _ _) as [[r k] fin] eqn:Ef. apply finalize_spec in Ef as (Hb & Hs & Hk & Hst).
  assert (Hgen : ∀ pre : list effect, balanced pre → times StartEmbedded pre = 0%nat → times CloseRelay pre = 0%nat →
    balanced (pre ++ fin) ∧ times StartEmbedded (pre ++ fin) = 0%nat ∧ (k = true → ∃ r', Ok r = Ok (E := dial_error) r' ∧ rd_label r' = "embedded LAN relay"%string) ∧ relay_settled r (pre ++ fin)).
  { intros pre Hp Hq Hc. split; [by apply balanced_app|]. split; [by rewrite times_app, Hq|]. split; [intros Hkt; exists r; auto|]. unfold relay_settled. by rewrite times_app, Hc, Hs. }
  destruct (choose_mode g role env _ _) as [|call] eqn:Em.
  { intros [= <- <- <-]. rewrite app_assoc. by apply Hgen; destruct (relay_listener g role env). }
  assert (Hbefore : ∀ post : list effect, balanced post →
    balanced ((if relay_listener g role env then [Listen] else []) ++ (match call with DialOnly _ _ _ => if relay_listener g role env then [CloseListener] else [] | _ => [HandListener] end) ++ post)).
  { intros post Hp. rewrite app_assoc. apply balanced_app; [|done]. destruct call as [cs ms p t u|t|cs ms t]; [| |by destruct (relay_listener g role env)].
    - assert (∃ l, relay_listener g role env = Some l) as [l ->]; [|done]. unfold choose_mode in Em. cbv zeta in Em.
      destruct (relay_listener g role env) as [l|]; [by exists l|]. cbn [can_both_ways andb] in Em. by repeat case_match.
    - assert (∃ l, relay_listener g role env = Some l) as [l ->]; [|done]. unfold choose_mode in Em. cbv zeta in Em.
      destruct (relay_listener g role env) as [l|]; [by exists l|]. cbn [can_both_ways andb negb] in Em. rewrite andb_true_r in Em. by repeat case_match. }
  destruct (direct call) as [count|].
  - intros [= <- <- <-]. split; [by apply Hbefore|]. rewrite !times_app. by destruct (relay_listener g role env), call.
  - intros [= <- <- <-]. assert (Hassoc : ∀ a b c d : list effect, a ++ b ++ c ++ d = (a ++ b ++ c) ++ d) by (intros; by rewrite !app_assoc).
    rewrite (Hassoc _ _ [RouteFailed historyRouteDirect] fin).
    apply Hgen; [by apply Hbefore|..]; rewrite !times_app; by destruct (relay_listener g role env), call.
Qed.

Lemma dial_relay_spec g token role env res es :
  dialRelayTransport envPass race direct upgrade bundle g token role env = (res, es) →
  balanced es ∧ (times StartEmbedded es ≠ 0%nat → times StopEmbedded es ≠ 0%nat ∨ ∃ r, res = Ok r ∧ rd_label r = "embedded LAN relay"%string) ∧
  match res with
  | Ok r => relay_settled r es
  | Err _ => times CloseRelay es = 0%nat ∧
      (ValidateConnectionCount (OConnections g) = true → (∀ j cs, race j cs ≠ None) → String.eqb role "sender" && negb (ONoLAN g) && OLocal g = true ∧ d_embedded env = None)
  end.
Proof.
  unfold dialRelayTransport. destruct (ValidateConnectionCount _); cbn [negb]; [|by intros [= <- <-]]. cbv zeta.
  destruct (String.eqb role "sender" && negb (ONoLAN g)) eqn:Estart; cbn [andb].
  - destruct (d_embedded env) as [addr|] eqn:Ee; cbn [negb andb].
    + destruct (dial_relay_with _ _ _ _ _ _ _ _ _ _) as [[o k] fx] eqn:E. apply dial_relay_with_spec in E as (Hb & Hst & Hk & Hr). intros [= <- <-].
      split; [apply (balanced_app [StartEmbedded]); [done|apply (balanced_app fx); [done|by destruct k]]|]. split.
      * intros _. destruct k; [right; by apply Hk|left]. cbn [app]. rewrite times_cons, times_app. change (times StopEmbedded [StopEmbedded]) with 1%nat. by rewrite Nat.add_assoc, Nat.add_comm.
      * destruct o as [r|e]; [unfold relay_settled in *; cbn [app]; rewrite times_cons, times_app, Hr; by destruct k, (String.eqb _ _)|]. destruct Hr as [Hc Hn]. split; [cbn [app]; rewrite times_cons, times_app, Hc; by destruct k|].
        intros _ Hrace. exfalso. by eapply Hrace.
    + destruct (OLocal g) eqn:El; [by intros [= <- <-]|]. destruct (dial_relay_with _ _ _ _ _ _ _ _ _ _) as [[o k] fx] eqn:E. apply dial_relay_with_spec in E as (Hb & Hst & _ & Hr).
      intros [= <- <-]. cbn [app]. rewrite app_nil_r. split; [done|]. split; [by rewrite Hst|]. destruct o as [r|e]; [done|]. destruct Hr as [Hc Hn]. split; [done|]. intros _ Hrace. exfalso. by eapply Hrace.
  - destruct (dial_relay_with _ _ _ _ _ _ _ _ _ _) as [[o k] fx] eqn:E. apply dial_relay_with_spec in E as (Hb & Hst & _ & Hr).
    intros [= <- <-]. cbn [app]. rewrite app_nil_r. split; [done|]. split; [by rewrite Hst|]. destruct o as [r|e]; [done|]. destruct Hr as [Hc Hn]. split; [done|]. intros _ Hrace. exfalso. by eapply Hrace.
Qed.
End left_behind.

Section signaled.
Context `{CaseTables}.
Variable envPass : string.
Variable race : joinMessage → list RelayCandidate → option RaceResult.
Variable direct : direct_call → option Z.
Variables (upgrade : option Z) (bundle : Z) (webrtc : bool).
Variable exchange : directCapability → option (result string directResponse).

Lemma after_balanced g token role env useRelay e :
  balanced (snd (dialAfterSignaledDirect envPass race direct upgrade bundle webrtc g token role env useRelay e)) ∧
  fst (dialAfterSignaledDirect envPass race direct upgrade bundle webrtc g token role env useRelay e) ≠ NilListener.
Proof.
  unfold dialAfterSignaledDirect. destruct useRelay.
  - destruct (dialRelayTransport _ _ _ _ _ _ _ _ _) as [r es] eqn:E. apply dial_relay_spec in E as (Hb & _). split; [done|]. by destruct r.
  - assert (Hw : balanced (snd (dialWebRTCTransport webrtc)) ∧ fst (dialWebRTCTransport webrtc) ≠ NilListener) by by destruct webrtc.
    destruct (normalizeTransportMode (OTransport g)) as [mode|]; [|done]. by destruct (String.eqb mode RouteNative).
Qed.

(** When the receiver of a signaled direct connection closes a listener it does
    not have. *)
Definition nil_listener (g : globalOptions) (role : string) (env : dial_env) : Prop :=
  role = "receiver"%string ∧ d_listen env = None ∧ localDirectPreference g (d_deferred env) = DirectPreferencePrefer ∧
  ∃ peer, exchangeDirectCapability exchange g role env = Ok peer ∧ PeerCandidates peer ≠ [] ∧ PeerPreference peer ≠ DirectPreferenceRelay.

Lemma choose_signaled_nil g role env peer :
  validRole role = true → signaled_listener g env = None →
  match choose_signaled g role env peer with
  | SkipDirect => ¬ (role = "receiver"%string ∧ localDirectPreference g (d_deferred env) = DirectPreferencePrefer ∧ PeerCandidates peer ≠ [] ∧ PeerPreference peer ≠ DirectPreferenceRelay)
  | SignaledAttempt (DialOnly _ _ _) => role = "receiver"%string ∧ localDirectPreference g (d_deferred env) = DirectPreferencePrefer ∧ PeerCandidates peer ≠ [] ∧ PeerPreference peer ≠ DirectPreferenceRelay
  | SignaledAttempt _ => False
  end.
Proof.
  intros Hrole Hl. unfold choose_signaled. rewrite Hl. cbn [can_both_ways andb]. unfold validRole in Hrole. destruct (String.eqb_spec role "sender") as [->|Hs]; cbn [negb orb].
  { by intros (? & _). }
  destruct (String.eqb_spec role "receiver") as [->|]; [|done]. destruct (localDirectPreference_cases g (d_deferred env)) as [E|E]; rewrite E.
  - change (String.eqb DirectPreferencePrefer DirectPreferenceRelay) with false. destruct (Nat.eqb_spec (length (PeerCandidates peer)) 0) as [El|El]; cbn [negb orb].
    { intros (_ & _ & Hc & _). by apply nil_length_inv in El. }
    destruct (String.eqb_spec (PeerPreference peer) DirectPreferenceRelay) as [Ep|Ep]; cbn [orb]; [by intros (_ & _ & _ & ?)|].
    split; [done|]. split; [done|]. split; [by intros E'; rewrite E' in El|done].
  - change (String.eqb DirectPreferenceRelay DirectPreferenceRelay) with true. rewrite orb_true_r. cbn. by intros (_ & ? & _).
Qed.

Lemma choose_signaled_listens g role env peer l :
  signaled_listener g env = Some l → ∀ call, choose_signaled g role env peer = SignaledAttempt call →
  balanced ([Listen] ++ match call with DialOnly _ _ _ => [CloseListener] | _ => [HandListener] end).
Proof. intros _ [] _; done. Qed.

Lemma signaled_listener_None g env :
  signaled_listener g env = None → localDirectPreference g (d_deferred env) = DirectPreferencePrefer → d_listen env = None.
Proof. unfold signaled_listener. intros Hl Hp. rewrite Hp in Hl. change (String.eqb _ _) with true in Hl. cbn iota in Hl. by destruct (d_listen env) as [[]|]. Qed.

Lemma dial_signaled_spec g token role env o es :
  dialSignaledDirect envPass race direct upgrade bundle webrtc exchange g token role env = (o, es) →
  (o = NilListener ↔ nil_listener g role env) ∧ balanced es.
Proof.
  unfold dialSignaledDirect. destruct (validRole role) eqn:Hrole; cbn [negb].
  2:{ intros [= <- <-]. split; [|done]. split; [done|]. by intros (-> & _). }
  cbv zeta. set (opened := if signaled_listener g env then [Listen] else []). set (closing := if signaled_listener g env then [CloseListener] else []).
  assert (Hafter : ∀ useRelay e before, balanced (opened ++ before) → ¬ nil_listener g role env →
    (let '(o, effects) := dialAfterSignaledDirect envPass race direct upgrade bundle webrtc g token role env useRelay e in (o, opened ++ before ++ effects)) = (o, es) →
    (o = NilListener ↔ nil_listener g role env) ∧ balanced es).
  { intros useRelay e before Hb Hn. destruct (after_balanced g token role env useRelay e) as [Hab Han].
    destruct (dialAfterSignaledDirect _ _ _ _ _ _ _ _ _ _ _ _) as [o' fx]. cbn in Hab, Han. intros [= <- <-]. split; [tauto|]. rewrite app_assoc. by apply balanced_app. }
  assert (Hoc : balanced (opened ++ closing)) by (unfold opened, closing; by destruct (signaled_listener g env)).
  destruct (exchangeDirectCapability exchange g role env) as [peer|ee] eqn:Ee.
  2:{ apply Hafter; [done|]. intros (_ & _ & _ & peer & Hp & _). by rewrite Ee in Hp. }
  destruct (signaled_listener g env) as [l|] eqn:El.
  - assert (Hn : ¬ nil_listener g role env) by (intros (_ & Hd & _); unfold signaled_listener in El; destruct (String.eqb _ _); [by rewrite Hd in El|done]).
    destruct (choose_signaled g role env peer) as [|call]; [by apply Hafter|].
    assert (Hcb : balanced (opened ++ match call with DialOnly _ _ _ => closing | _ => [HandListener] end)) by by destruct call.
    destruct call as [cs ms p t u|t|cs ms t]; (destruct (direct _) as [count|]; [intros [= <- <-]; split; [done|done]|]; apply Hafter; [|done]; rewrite app_assoc; by apply balanced_app).
  - pose proof (choose_signaled_nil g role env peer Hrole El) as Hc. destruct (choose_signaled g role env peer) as [|[cs ms p t u|t|cs ms t]]; [|done|done|].
    + apply Hafter; [done|]. intros (Hr & _ & Hp & peer' & Hpeer & Hcand & Hpref). rewrite Ee in Hpeer. injection Hpeer as <-. by apply Hc.
    + intros [= <- <-]. split; [|done].
      split; [|done]. intros _. destruct Hc as (Hr & Hp & Hcand & Hpref). split; [done|]. split; [by eapply signaled_listener_None|]. split; [done|]. by exists peer.
Qed.
End signaled.

(** C37: connecting leaves nothing behind.  Whatever a client meets, each listener
    it opened is closed or handed to the direct attempt, which closes it; the
    relay a sender starts is stopped, unless the route it returns runs over it
    and stops it when closed; once a relay was joined the call gives a route, and
    the connection to the relay is closed exactly when that route is a direct one.
    After an exchange through the service the same holds for the listener; but a
    receiver that wanted a direct connection and could not listen fails at run
    time as soon as the sender advertises an address: it closes a nil listener. *)
Theorem dialling_settles `{CaseTables} envPass race direct upgrade bundle webrtc exchange g token role env :
  (let '(res, es) := dialRelayTransport envPass race direct upgrade bundle g token role env in
   balanced es ∧
   (times StartEmbedded es ≠ 0%nat → times StopEmbedded es ≠ 0%nat ∨ ∃ r, res = Ok r ∧ rd_label r = "embedded LAN relay"%string) ∧
   match res with
   | Ok r => relay_settled r es
   | Err _ => times CloseRelay es = 0%nat ∧
       (ValidateConnectionCount (OConnections g) = true → (∀ j cs, race j cs ≠ None) →
        String.eqb role "sender" && negb (ONoLAN g) && OLocal g = true ∧ d_embedded env = None)
   end) ∧
  (let '(o, es) := dialSignaledDirect envPass race direct upgrade bundle webrtc exchange g token role env in
   balanced es ∧ (o = NilListener ↔ nil_listener exchange g role env)).
Proof.
  split.
  - destruct (dialRelayTransport _ _ _ _ _ _ _ _ _) as [res es] eqn:E. by apply dial_relay_spec in E.
  - destruct (dialSignaledDirect _ _ _ _ _ _ _ _ _ _ _) as [o es] eqn:E. apply dial_signaled_spec in E. tauto.
Qed.

(** ** The messages of a LAN upgrade *)

Record lanUpgradeMessage := MkLANMessage { LType : string; LVersion : Z; LCandidates : list string; LMetadata : list Candidate; LError : string }.
Definition lanUpgradeVersion : Z := 1.
Definition lanUpgradeTimeout : Z := 2000 * ms.
Definition lanUpgradeRequest : lanUpgradeMessage := MkLANMessage "lan_upgrade_request" lanUpgradeVersion [] [] "".

(** [tryLANUpgrade]: how long it may take. *)
Definition upgrade_timeout (g : globalOptions) : Z := lanUpgradeTimeout + if ODirectTimeout g >? 0 then ODirectTimeout g else 0.
(** [remainingLANUpgradeTime] *)
Definition remainingLANUpgradeTime (deadline : option Z) (now : Z) : Z :=
  match deadline with None => lanUpgradeTimeout | Some d => if d - now <=? 0 then 1 else d - now end.

(** [tryLANUpgradeSender]: the reply, and whether the sender then accepts;
    [listen]: the address of a new listener, or why there is none. *)
Definition tryLANUpgradeSender (g : globalOptions) (hosts : list string) (request : option lanUpgradeMessage) (listen : result string string)
    : option lanUpgradeMessage * bool * list effect :=
  match request with
  | None => (None, false, [])
  | Some m =>
      if negb (String.eqb (LType m) "lan_upgrade_request") || negb (LVersion m =? lanUpgradeVersion) then (None, false, [])
      else match listen with
           | Err e => (Some (MkLANMessage "lan_upgrade_response" lanUpgradeVersion [] [] e), false, [])
           | Ok addr =>
               let lanOptions := MkOptions (OTransport g) (OSignalDirect g) (ORelay g) (ORelayPass g) (OProxy g) (ONoDirect g) (OUDPProbe g) (ONoTCPProbe g)
                 (ONoLAN g) (OLocal g) (OLANTimeout g) (ONoReconnect g) (OReconnectAttempts g) (OReconnectDelay g) (OPairTimeout g) "" (ODirectTimeout g)
                 (OConnections g) (OProtocol g) (OallowLANUpgrade g) in
               let '(candidates, metadata) := advertisedDirectCandidateSet lanOptions addr hosts in
               if Nat.eqb (length candidates) 0
               then (Some (MkLANMessage "lan_upgrade_response" lanUpgradeVersion [] [] "LAN upgrade listener has no candidates"), false, [Listen; CloseListener])
               else (Some (MkLANMessage "lan_upgrade_response" lanUpgradeVersion candidates metadata ""), true, [Listen; HandListener])
           end
  end.

(** [tryLANUpgradeReceiver], after its request was sent *)
Definition tryLANUpgradeReceiver (response : option lanUpgradeMessage) (timeout : Z) : option direct_call :=
  match response with
  | None => None
  | Some m =>
      if negb (String.eqb (LType m) "lan_upgrade_response") || negb (LVersion m =? lanUpgradeVersion) then None
      else if negb (String.eqb (LError m) "") then None
      else if negb (is_ok (ValidateSet (LCandidates m) (LMetadata m))) then None
      else Some (DialOnly (LCandidates m) (LMetadata m) timeout)
  end.


(** ** Peers that meet at the service *)

Lemma check_of_valid c punchAt :
  validateDirectCapability c = Ok tt →
  check_direct_response (directPeerResponse c punchAt) = if Bidirectional c && (punchAt <=? 0) then Err PeerWithoutPunchTime else Ok tt.
Proof.
  unfold validateDirectCapability, check_direct_response, directPeerResponse.
  cbn [DRType DRVersion Negotiation.PeerConnectionCount PeerPreference PeerNATClass PeerNATProbe PeerUDPPunch Negotiation.PeerUDPCandidates PeerBidirectional PeerCandidates PeerCandidateMetadata PunchAtMillis].
  change (String.eqb "direct_peer" "direct_peer") with true. rewrite Z.eqb_refl. cbn [negb orb fail_if].
  change "prefer-direct"%string with DirectPreferencePrefer. change "prefer-relay"%string with DirectPreferenceRelay.
  intros Hv. repeat (let S := fresh "S" in apply bind_Ok_inv in Hv as ([] & S & Hv); (apply fail_if_Ok in S || apply wrap_err_Ok in S);
    try (rewrite S; cbn [fail_if mbind result_bind])).
  assert (Hudp : negb (UDPPunch c) && negb (Nat.eqb (length (UDPCandidates c)) 0) = false).
  { match goal with Hx : negb (UDPPunch c) && (0 <? length (UDPCandidates c))%nat = false |- _ => rewrite <- Hx end.
    by destruct (UDPPunch c), (UDPCandidates c). }
  rewrite Hudp. cbn [fail_if mbind result_bind].
  cbn [wrap_err fail_if mbind result_bind].
  apply wrap_err_Ok in Hv. rewrite Hv. by destruct (Bidirectional c && (punchAt <=? 0)).
Qed.

Definition matching_signaled (cs cr : directCapability) (sm rm : signaled_mode) : Prop :=
  match sm, rm with
  | SkipDirect, SkipDirect => True
  | SignaledAttempt (BothWays c1 m1 p1 _ _), SignaledAttempt (BothWays c2 m2 p2 _ _) =>
      p1 = p2 ∧ c1 = Candidates cr ∧ m1 = CandidateMetadata cr ∧ c2 = Candidates cs ∧ m2 = CandidateMetadata cs
  | SignaledAttempt (AcceptOnly _), SignaledAttempt (DialOnly c m _) => c = Candidates cs ∧ m = CandidateMetadata cs
  | _, _ => False
  end.

Lemma exchange_valid g role env c punchAt :
  validRole role = true → validateDirectCapability c = Ok tt →
  exchangeDirectCapability (fun _ => Some (Ok (directPeerResponse c punchAt))) g role env =
    if Bidirectional c && (punchAt <=? 0) then Err PeerWithoutPunchTime else Ok (directPeerResponse c punchAt).
Proof.
  intros Hr Hv. unfold exchangeDirectCapability. rewrite Hr. cbn [negb]. rewrite (check_of_valid c punchAt Hv). by destruct (Bidirectional c && (punchAt <=? 0)).
Qed.

Lemma signaled_modes_match gs gr es er punchAt :
  Bidirectional (direct_capability gs es) = Bidirectional (direct_capability gr er) →
  matching_signaled (direct_capability gs es) (direct_capability gr er)
    (choose_signaled gs "sender" es (directPeerResponse (direct_capability gr er) punchAt))
    (choose_signaled gr "receiver" er (directPeerResponse (direct_capability gs es) punchAt)).
Proof.
  intros Hb. unfold choose_signaled. change (String.eqb "sender" "sender") with true. change (String.eqb "receiver" "sender") with false.
  unfold directPeerResponse. cbn [PeerCandidates PeerCandidateMetadata PeerBidirectional PeerPreference PunchAtMillis]. cbn iota.
  rewrite <- Hb. assert (Hown : Bidirectional (direct_capability gr er) = can_both_ways er (signaled_listener gr er)) by done. rewrite <- Hown, <- Hb.
  assert (Hown' : Bidirectional (direct_capability gs es) = can_both_ways es (signaled_listener gs es)) by done. rewrite <- Hown'.
  assert (Hp : Preference (direct_capability gs es) = localDirectPreference gs (d_deferred es)) by done. rewrite Hp.
  assert (Hp' : Preference (direct_capability gr er) = localDirectPreference gr (d_deferred er)) by done. rewrite Hp'.
  assert (Hc : Candidates (direct_capability gs es) = match signaled_listener gs es with Some (cs, _) => cs | None => [] end) by done.
  assert (Havail : match signaled_listener gs es with Some (cs, _) => negb (Nat.eqb (length cs) 0) | None => false end =
    negb (Nat.eqb (length (Candidates (direct_capability gs es))) 0)) by (rewrite Hc; by destruct (signaled_listener gs es) as [[]|]). rewrite Havail.
  destruct (negb (Nat.eqb (length (Candidates (direct_capability gs es))) 0)); cbn [negb orb]; [|done].
  destruct (String.eqb (localDirectPreference gs (d_deferred es)) DirectPreferenceRelay); cbn [orb]; [by rewrite orb_true_r|].
  destruct (String.eqb (localDirectPreference gr (d_deferred er)) DirectPreferenceRelay); cbn [orb]; [done|].
  by destruct (Bidirectional (direct_capability gs es)).
Qed.

(** C35: two peers that meet at the service for a direct connection.  When both or
    neither can connect both ways, both accept the service's answer, take
    matching parts — both skip, both connect both ways at one moment, or the
    sender waits and the receiver dials what it advertised — and fall back to the
    relay only together.  When one can and the other cannot, the other refuses
    the answer, which names no moment to connect, while the first goes on: the
    service tells a client of its peer's ability even when it has none. *)
Theorem signaled_peers_match gs gr es er now :
  let cs := direct_capability gs es in
  let cr := direct_capability gr er in
  let to_sender := directPeerResponse cr (punch_at cs cr now) in
  let to_receiver := directPeerResponse cs (punch_at cs cr now) in
  validateDirectCapability cs = Ok tt → validateDirectCapability cr = Ok tt → 0 ≤ now →
  (Bidirectional cs = Bidirectional cr →
     exchangeDirectCapability (fun _ => Some (Ok to_sender)) gs "sender" es = Ok to_sender ∧
     exchangeDirectCapability (fun _ => Some (Ok to_receiver)) gr "receiver" er = Ok to_receiver ∧
     matching_signaled cs cr (choose_signaled gs "sender" es to_sender) (choose_signaled gr "receiver" er to_receiver) ∧
     negb (String.eqb (ORelay gs) "") && PeerRelayFallback to_sender = negb (String.eqb (ORelay gr) "") && PeerRelayFallback to_receiver) ∧
  (Bidirectional cs = true → Bidirectional cr = false →
     exchangeDirectCapability (fun _ => Some (Ok to_sender)) gs "sender" es = Ok to_sender ∧
     exchangeDirectCapability (fun _ => Some (Ok to_receiver)) gr "receiver" er = Err PeerWithoutPunchTime) ∧
  (Bidirectional cs = false → Bidirectional cr = true →
     exchangeDirectCapability (fun _ => Some (Ok to_sender)) gs "sender" es = Err PeerWithoutPunchTime ∧
     exchangeDirectCapability (fun _ => Some (Ok to_receiver)) gr "receiver" er = Ok to_receiver).
Proof.
  intros cs cr to_sender to_receiver Hs Hr Hnow. unfold to_sender, to_receiver.
  assert (Hpunch : punch_at cs cr now <=? 0 = negb (Bidirectional cs && Bidirectional cr)).
  { unfold punch_at. destruct (Bidirectional cs && Bidirectional cr); [|done]. apply Z.leb_gt. unfold UnixMilli, NoteServer.millisecond. apply Z.div_str_pos. lia. }
  rewrite (exchange_valid gs "sender" es cr _ eq_refl Hr), (exchange_valid gr "receiver" er cs _ eq_refl Hs), Hpunch. split_and!.
  - intros Hb. assert (Hx : Bidirectional cr && negb (Bidirectional cs && Bidirectional cr) = false ∧ Bidirectional cs && negb (Bidirectional cs && Bidirectional cr) = false).
    { rewrite Hb. by destruct (Bidirectional cr). }
    destruct Hx as [-> ->]. split; [done|]. split; [done|]. split; [by apply signaled_modes_match|]. cbn [PeerRelayFallback directPeerResponse]. apply andb_comm.
  - intros -> ->. done.
  - intros -> ->. done.
Qed.
(** ** Examples *)

Definition demo_env (listen : option (list string * list Candidate)) : dial_env :=
  MkDialEnv (Some "127.0.0.1:7001"%string) listen true None (false, "unknown"%string) None false.
Definition demo_listener : option (list string * list Candidate) :=
  Some (["192.168.1.5:40000"%string], [MkCandidate "192.168.1.5:40000" KindLAN PriorityLAN]).
(** A sender on a system without shared ports. *)
Definition demo_plain_sender : directCapability :=
  direct_capability (demo_options "" false false) (MkDialEnv None demo_listener false None (false, "unknown"%string) None false).

Lemma relay_peers_match_witness :
  ∃ xs xr,
    join_result 1%nat (ready_status (directPunchAtMillis (met "" (demo_options "r:1" false false) "t" "sender" (demo_env demo_listener) None 1%nat)
      (met "" (demo_options "r:1" false false) "t" "receiver" (demo_env demo_listener) None 2%nat) 0)
      (met "" (demo_options "r:1" false false) "t" "receiver" (demo_env demo_listener) None 2%nat)) = Ok xs ∧
    matching_modes (met "" (demo_options "r:1" false false) "t" "sender" (demo_env demo_listener) None 1%nat)
      (met "" (demo_options "r:1" false false) "t" "receiver" (demo_env demo_listener) None 2%nat)
      (sender_mode "" (demo_options "r:1" false false) "t" (demo_env demo_listener) xs)
      (receiver_mode "" (demo_options "r:1" false false) "t" (demo_env demo_listener) xr).
Proof.
  destruct (relay_peers_match "" "" (demo_options "r:1" false false) (demo_options "r:1" false false) "t" (demo_env demo_listener) (demo_env demo_listener)
    None None 1%nat 2%nat 1%nat 2%nat 0 ltac:(lia)) as (xs & xr & Hxs & Hxr & Hm & _).
  exists xs, xr. split; [exact Hxs|exact Hm].
Defined.

(** An address given by hand that is no address: the sender listens, advertises
    nothing and waits, while the receiver goes on over the relay. *)
Definition mistyped : globalOptions :=
  let g := demo_options "r:1" false false in
  MkOptions (OTransport g) (OSignalDirect g) (ORelay g) (ORelayPass g) (OProxy g) (ONoDirect g) (OUDPProbe g) (ONoTCPProbe g) (ONoLAN g) (OLocal g)
    (OLANTimeout g) (ONoReconnect g) (OReconnectAttempts g) (OReconnectDelay g) (OPairTimeout g) "my-host" (ODirectTimeout g) (OConnections g)
    (OProtocol g) (OallowLANUpgrade g).
Example mistyped_sender_waits :
  let advertised := advertisedDirectCandidateSet mistyped "0.0.0.0:40000" ["192.168.1.5"%string] in
  let cs := met "" mistyped "t" "sender" (demo_env (Some advertised)) None 1%nat in
  let gr := demo_options "r:1" false false in
  let cr := met "" gr "t" "receiver" (demo_env demo_listener) None 2%nat in
  advertised = ([], []) ∧
  sender_mode "" mistyped "t" (demo_env (Some advertised)) (told 1%nat (directPunchAtMillis cs cr 0) cr) = Attempt (AcceptOnly (1500 * ms)) ∧
  receiver_mode "" gr "t" (demo_env demo_listener) (told 2%nat (directPunchAtMillis cr cs 0) cs) = TakeRelay.
Proof. vm_compute. done. Qed.

(** A receiver that cannot listen meets a sender that can. *)
Example nil_listener_panics :
  fst (@dialSignaledDirect "" (fun _ _ => None) (fun _ => None) None 0 ascii_tables false
    (fun _ => Some (Ok (directPeerResponse demo_plain_sender 0))) (demo_options "" false false) "t" "receiver" (demo_env None)) = NilListener.
Proof. vm_compute. reflexivity. Qed.

(** A relay that announces itself on the LAN: the sender, which joined it by name,
    waits for a LAN upgrade; the receiver, which discovered it, never asks for one. *)
Example lan_upgrade_one_sided :
  let g := demo_options "r:1" false true in
  let g := no_direct g true in
  let c role := met "" g "t" role (demo_env None) None 1%nat in
  let join role := relay_join "" g "t" role (demo_env None) in
  (match relayCandidates (Some ["r:1"%string]) g [] with Ok l => head (normalizeRaceCandidates l) | Err _ => None end) = Some (MkRelayCandidate "r:1" "lan" 0 0 false) ∧
  shouldAttemptLANUpgrade g (MkRaceResult (told 1%nat 0 (c "receiver"%string)) (MkRelayCandidate "r:1" "external" 1 0 false)) (join "sender"%string) = true ∧
  shouldAttemptLANUpgrade g (MkRaceResult (told 2%nat 0 (c "sender"%string)) (MkRelayCandidate "r:1" "lan" 0 0 false)) (join "receiver"%string) = false.
Proof. vm_compute. done. Qed.

Definition demo_sender : directCapability := direct_capability (demo_options "" false false) (demo_env demo_listener).
(** A receiver whose history defers direct connections. *)
Definition demo_deferring : dial_env := MkDialEnv None demo_listener true None (false, "unknown"%string) None true.
Definition demo_deferred : directCapability := direct_capability (demo_options "" false false) demo_deferring.

Lemma signaled_peers_match_witness :
  validateDirectCapability demo_sender = Ok tt ∧ validateDirectCapability demo_deferred = Ok tt ∧ Bidirectional demo_sender = true ∧ Bidirectional demo_deferred = false ∧
  exchangeDirectCapability (fun _ => Some (Ok (directPeerResponse demo_deferred (punch_at demo_sender demo_deferred 0)))) (demo_options "" false false) "sender" (demo_env demo_listener)
    = Ok (directPeerResponse demo_deferred (punch_at demo_sender demo_deferred 0)) ∧
  exchangeDirectCapability (fun _ => Some (Ok (directPeerResponse demo_sender (punch_at demo_sender demo_deferred 0)))) (demo_options "" false false) "receiver" demo_deferring
    = Err PeerWithoutPunchTime.
Proof.
  assert (H1 : validateDirectCapability demo_sender = Ok tt) by (vm_compute; reflexivity).
  assert (H2 : validateDirectCapability demo_deferred = Ok tt) by (vm_compute; reflexivity).
  assert (H3 : Bidirectional demo_sender = true) by (vm_compute; reflexivity).
  assert (H4 : Bidirectional demo_deferred = false) by (vm_compute; reflexivity).
  split; [exact H1|]. split; [exact H2|]. split; [exact H3|]. split; [exact H4|].
  exact (proj1 (proj2 (signaled_peers_match (demo_options "" false false) (demo_options "" false false) (demo_env demo_listener) demo_deferring 0 H1 H2 ltac:(lia))) H3 H4).
Defined.
