(* ===== verification/Outbound.v ===== *)
(** * The way out ([internal/netpolicy], [internal/app/network_policy.go])

    Which network interface a client sends through: the one the user named, a
    physical one that avoids or beats a VPN, or what the operating system picks.
    A policy binds sockets to the addresses of that interface.  The theorems:
    [outbound_selects] says when each choice is made, [outbound_order] that it
    does not depend on the order interfaces are listed in, and [policy_binds] that
    a configured client only uses source addresses of its interface.  The
    interfaces of the machine, the parsing of URLs and the probes are
    parameters. *)
From Stdlib Require Import ZArith Lia Ascii String.
From stdpp Require Import base tactics numbers list gmap strings.
From S2P Require Import Prelude GoStrings Netip ClientAddress.

(** ** [net.IP] *)

(** An address of four or sixteen bytes; IPv4 may be written either way. *)
Definition IP : Type := list Z.

Definition To4 (ip : IP) : option IP :=
  if Nat.eqb (length ip) 4 then Some ip
  else if Is4In6 (MkAddr ip "") then Some (drop 12 ip) else None.
Definition To16 (ip : IP) : option IP :=
  if Nat.eqb (length ip) 4 then Some (replicate 10 0 ++ [255; 255] ++ ip)
  else if Nat.eqb (length ip) 16 then Some ip else None.
Definition canonical (ip : IP) : IP := default ip (To4 ip).
Definition IPEqual (a b : IP) : bool := bool_decide (canonical a = canonical b).
Definition IPString (ip : IP) : string := AddrString (MkAddr (canonical ip) "").
Definition ip_is (class : Addr → bool) (ip : IP) : bool := class (MkAddr (canonical ip) "").

(** [net.ParseIP]: no zone, always sixteen bytes. *)
Definition ParseIP (s : string) : option IP :=
  match ParseAddr s with
  | Some a => if String.eqb (azone a) "" then To16 (octets a) else None
  | None => None
  end.

(** ** The policy ([policy.go]) *)

Record Policy := MkPolicy { interfaceName : string; pips : list IP; ipv4 : option IP; ipv6 : option IP }.

(** What the operating system says of an interface. *)
Record net_interface := MkNetInterface { NIName : string; NIUp : bool; NIAddrs : option (list IP) }.

Inductive policy_error :=
  | InterfaceUnknown (name : string)
  | InterfaceDown (name : string)
  | InterfaceAddresses (name : string)
  | InterfaceUnusable (name : string)
  | NoIPv4 (name : string)
  | NoIPv6 (name : string)
  | NoUsableAddress
  | NetworkTarget (address : string)
  | NetworkUnsupported (network : string)
  | DialFailed (failures : list string)
  | DialContextEnded
  | RelayTarget
  | HealthURL
  | ListenAddress
  | ListenOther (host interface : string).

Definition usableIP (ip : IP) : bool :=
  negb (ip_is IsUnspecified ip) && negb (ip_is IsMulticast ip) && negb (ip_is IsLinkLocalUnicast ip).

Definition ContainsIP (p : option Policy) (ip : IP) : bool :=
  match p with Some p => existsb (fun c => IPEqual c ip) (pips p) | None => false end.

Definition or_first (current : option IP) (ip : IP) : option IP :=
  match current with Some _ => current | None => Some ip end.

Definition add_ip (p : Policy) (ip : IP) : Policy :=
  if negb (usableIP ip) || ContainsIP (Some p) ip then p
  else match To4 ip with
       | Some ip4 => MkPolicy (interfaceName p) (pips p ++ [ip4]) (or_first (ipv4 p) ip4) (ipv6 p)
       | None => MkPolicy (interfaceName p) (pips p ++ [ip]) (ipv4 p) (or_first (ipv6 p) ip)
       end.

Section machine.
(** [net.InterfaceByName]. *)
Variable InterfaceByName : string → option net_interface.

Definition Resolve (name : string) : result policy_error (option Policy) :=
  let name := TrimSpace name in
  if String.eqb name "" then Ok None
  else match InterfaceByName name with
       | None => Err (InterfaceUnknown name)
       | Some iface =>
           _ ← fail_if (negb (NIUp iface)) (InterfaceDown name);
           match NIAddrs iface with
           | None => Err (InterfaceAddresses name)
           | Some addresses =>
               let p := foldl add_ip (MkPolicy (NIName iface) [] None None) addresses in
               _ ← fail_if (bool_decide (pips p = [])) (InterfaceUnusable name);
               Ok (Some p)
           end
       end.
End machine.

Definition InterfaceName (p : option Policy) : string := match p with Some p => interfaceName p | None => "" end.
Definition IPs (p : option Policy) : list IP := match p with Some p => pips p | None => [] end.
Definition IPv4 (p : option Policy) : option IP := p ≫= ipv4.
Definition IPv6 (p : option Policy) : option IP := p ≫= ipv6.
Definition InterfaceFilter (p : option Policy) (name : string) : bool :=
  match p with Some p => String.eqb name (interfaceName p) | None => true end.
Definition IPFilter (p : option Policy) (ip : IP) : bool := match p with Some _ => ContainsIP p ip | None => true end.

Definition preferredIP (p : Policy) (network : string) : result policy_error (IP * string) :=
  match ipv4 p, ipv6 p with
  | Some ip, _ => Ok (ip, network +:+ "4")
  | None, Some ip => Ok (ip, network +:+ "6")
  | None, None => Err NoUsableAddress
  end.

(** [strings.TrimRight(network, "46")] *)
Fixpoint drop_46 (l : bytes) : bytes :=
  match l with c :: l' => if Ascii.eqb c "4" || Ascii.eqb c "6" then drop_46 l' else l | [] => [] end.
Definition trim_right_46 (network : string) : string := of_bytes (rev (drop_46 (rev (to_bytes network)))).

Definition ipForNetwork (p : Policy) (network : string) : result policy_error (IP * string) :=
  if has_suffix network "4" then
    match ipv4 p with None => Err (NoIPv4 (interfaceName p)) | Some ip => Ok (ip, trim_suffix network "4" +:+ "4") end
  else if has_suffix network "6" then
    match ipv6 p with None => Err (NoIPv6 (interfaceName p)) | Some ip => Ok (ip, trim_suffix network "6" +:+ "6") end
  else preferredIP p (trim_right_46 network).

(** A source address; [None] for an address is the wildcard. *)
Definition UDPAddr (p : option Policy) (network : string) : result policy_error (option IP) :=
  match p with
  | None => Ok None
  | Some p => '(ip, _) ← ipForNetwork p network; Ok (Some ip)
  end.

(** [strings.Trim(host, "[]")] *)
Definition trim_brackets (host : string) : string := of_bytes (trim_bytes [to_bytes "["; to_bytes "]"] (to_bytes host)).

Definition cut_last_zone (host : string) : string :=
  match last_index_byte "%"%char (to_bytes host) with
  | Some i => of_bytes (take i (to_bytes host))
  | None => host
  end.

Definition TCPAddrFor (p : option Policy) (address : string) (port : Z) : result policy_error (string * option IP * Z) :=
  match p with
  | None => Ok ("tcp"%string, None, port)
  | Some p =>
      match SplitHostPort address with
      | None => Err (NetworkTarget address)
      | Some (host, _) =>
          '(ip, family) ← match ParseIP (cut_last_zone (trim_brackets host)) with
                          | Some remote => ipForNetwork p (if To4 remote then "tcp4" else "tcp6")
                          | None => preferredIP p "tcp"
                          end;
          Ok (family, Some ip, port)
      end
  end.

Definition dialFamilies (p : Policy) (network : string) : result policy_error (list string) :=
  let prefix := if has_prefix network "udp" then "udp"%string else "tcp"%string in
  if String.eqb network "tcp4" || String.eqb network "udp4" then
    match ipv4 p with None => Err (NoIPv4 (interfaceName p)) | Some _ => Ok [prefix +:+ "4"] end
  else if String.eqb network "tcp6" || String.eqb network "udp6" then
    match ipv6 p with None => Err (NoIPv6 (interfaceName p)) | Some _ => Ok [prefix +:+ "6"] end
  else if String.eqb network "tcp" || String.eqb network "udp" then
    Ok ((if ipv4 p then [prefix +:+ "4"] else []) ++ (if ipv6 p then [prefix +:+ "6"] else []))
  else Err (NetworkUnsupported network).

(** [DialContext] with a policy: the dials of the families report in the order
    [results], a connection or the text of an error; [ended] is [ctx.Err()] once
    they all failed.  The goroutine of a family dials from the address
    [ipForNetwork] gives it. *)
Fixpoint first_dial {C} (results : list (C + string)) (failures : list string) : C + list string :=
  match results with
  | [] => inr failures
  | inl conn :: _ => inl conn
  | inr e :: results => first_dial results (failures ++ [e])
  end.

Definition dial_sources (p : Policy) (families : list string) : list (result policy_error (IP * string)) :=
  ipForNetwork p <$> families.

Definition DialContext {C} (p : Policy) (network : string) (results : list (C + string)) (ended : bool) : result policy_error C :=
  if negb (has_prefix network "tcp") && negb (has_prefix network "udp") then Err (NetworkUnsupported network)
  else families ← dialFamilies p network;
       match first_dial (take (length families) results) [] with
       | inl conn => Ok conn
       | inr failures => if ended : bool then Err DialContextEnded else Err (DialFailed failures)
       end.

(** ** Selecting the way out ([outbound.go]) *)

Definition RTTWinMarginMillis : Z := 5.
Definition PathDefault : string := "default".
Definition PathPhysical : string := "physical".
Definition PathForced : string := "forced".

Definition ReasonUserForcedInterface : string := "user_forced_interface".
Definition ReasonLocalTarget : string := "local_target".
Definition ReasonProxyDefault : string := "proxy_default".
Definition ReasonAvoidVPN : string := "avoid_vpn".
Definition ReasonAvoidVPNNoPhysical : string := "avoid_vpn_no_physical_interface".
Definition ReasonAutoDisabled : string := "auto_interface_disabled".
Definition ReasonNoVPN : string := "no_vpn_detected".
Definition ReasonNoPhysical : string := "no_physical_interface".
Definition ReasonProbeRequired : string := "probe_required".
Definition ReasonDefaultFailedPhysicalOK : string := "default_failed_physical_ok".
Definition ReasonPhysicalLowerRTT : string := "physical_lower_rtt".
Definition ReasonDefaultLowerOrSimilarRTT : string := "default_lower_or_similar_rtt".
Definition ReasonPhysicalFailedDefaultOK : string := "physical_failed_default_ok".
Definition ReasonBothPathsFailed : string := "both_paths_failed".

Record Interface := MkInterface { IName : string; IAddresses : list string; IVPN : bool; ILoopback : bool }.
Record Inventory := MkInventory { Interfaces : list Interface; VPNPresent : bool }.
Record Probe := MkProbe { PrPath : string; PrInterface : string; POK : bool; PLatencyMillis : Z; PError : string }.

Record OutboundOptions := MkOutbound {
  ExplicitInterface : string;
  Proxy : bool;
  LocalTarget : bool;
  AvoidVPN : bool;
  AutoEnabled : bool;
  OInventory : Inventory;
  Probed : bool;
  DefaultProbe : Probe;
  PhysicalProbe : Probe;
}.

Record OutboundSelection := MkSelection {
  Evaluated : bool;
  SPath : string;
  SInterface : string;
  SReason : string;
  SVPNDetected : bool;
  PreferredPhysical : string;
  SProbes : list Probe;
}.

Section outbound.
Context `{CaseTables}.

Definition vpn_prefixes : list string := ["utun"; "tun"; "tap"; "wg"; "ppp"; "ipsec"; "tailscale"; "zt"]%string.
Definition IsVPNInterfaceName (name : string) : bool :=
  let name := ToLower (TrimSpace name) in existsb (fun prefix => has_prefix name prefix) vpn_prefixes.

Definition virtual_prefixes : list string :=
  ["lo"; "awdl"; "llw"; "bridge"; "vmenet"; "vmnet"; "vethernet"; "docker"; "br-"; "gif"; "stf"]%string.
Definition isLikelyVirtualInterfaceName (name : string) : bool :=
  let name := ToLower (TrimSpace name) in
  String.eqb name "" || IsVPNInterfaceName name || existsb (fun prefix => has_prefix name prefix) virtual_prefixes.

Definition physicalInterfaceNameScore (name : string) : Z :=
  let name := ToLower name in
  if String.eqb name "en0" then 120
  else if String.eqb name "en1" then 110
  else if has_prefix name "en" then 90
  else if has_prefix name "eth" || has_prefix name "wl" then 80
  else 10.

(** [CollectInventory]: the interfaces of the machine, sorted by name. *)
Record machine_interface := MkMachine { MName : string; MUp : bool; MLoopback : bool; MAddrs : option (list IP) }.

Definition add_address (known : list string) (ip : IP) : list string :=
  if negb (usableIP ip) || bool_decide (IPString ip ∈ known) then known else known ++ [IPString ip].

Definition collect_interface (inventory : Inventory) (iface : machine_interface) : Inventory :=
  if negb (MUp iface) then inventory
  else
    let vpn := IsVPNInterfaceName (MName iface) in
    let inventory := MkInventory (Interfaces inventory) (VPNPresent inventory || vpn) in
    match MAddrs iface with
    | None => inventory
    | Some addresses =>
        match foldl add_address [] addresses with
        | [] => inventory
        | known => MkInventory (Interfaces inventory ++ [MkInterface (MName iface) known vpn (MLoopback iface)]) (VPNPresent inventory)
        end
    end.

Definition name_before (a b : Interface) : bool := str_ltb (IName a) (IName b).

Definition CollectInventory (interfaces : option (list machine_interface)) : Inventory :=
  match interfaces with
  | None => MkInventory [] false
  | Some interfaces =>
      let inventory := foldl collect_interface (MkInventory [] false) interfaces in
      MkInventory (sort_stable name_before (Interfaces inventory)) (VPNPresent inventory)
  end.

Definition VPNDetected (inventory : Inventory) : bool :=
  VPNPresent inventory || existsb (fun i => IVPN i && negb (ILoopback i)) (Interfaces inventory).

Definition eligible (i : Interface) : bool :=
  negb (ILoopback i || IVPN i || isLikelyVirtualInterfaceName (IName i)).

Definition address_score (name address : string) : Z :=
  physicalInterfaceNameScore name +
  match ParseIP address with Some ip => if To4 ip then 20 else 0 | None => 0 end.

(** [scores[name] += score] *)
Definition add_score (name : string) (scores : gmap string Z) (address : string) : gmap string Z :=
  <[name := default 0 (scores !! name) + address_score name address]> scores.

Definition interface_scores (interfaces : list Interface) : gmap string Z :=
  foldl (fun scores i => if eligible i then foldl (add_score (IName i)) scores (IAddresses i) else scores) ∅ interfaces.

Definition better_score (best entry : string * Z) : string * Z :=
  if (entry.2 >? best.2) || ((entry.2 =? best.2) && (String.eqb best.1 "" || str_ltb entry.1 best.1)) then entry else best.

(** The loop over the map, in the order [entries]. *)
Definition best_interface (entries : list (string * Z)) : string := (foldl better_score ("", -1) entries).1%string.

Definition PreferredPhysicalInterface (inventory : Inventory) : string * bool :=
  let name := best_interface (map_to_list (interface_scores (Interfaces inventory))) in
  (name, negb (String.eqb name "")).

Definition TargetIsLocal (host : string) : bool :=
  let host := cut_last_zone (trim_brackets (TrimSpace host)) in
  if EqualFold host "localhost" then true
  else match ParseIP host with Some ip => ip_is IsLoopback ip | None => false end.

Definition MateriallyFaster (candidateMillis currentMillis : Z) : bool :=
  (candidateMillis >=? 0) && (currentMillis >=? 0) && (wrap64 (candidateMillis + RTTWinMarginMillis) <? currentMillis).

Definition SelectOutbound (o : OutboundOptions) : OutboundSelection :=
  let '(physical, hasPhysical) := PreferredPhysicalInterface (OInventory o) in
  let vpn := VPNDetected (OInventory o) in
  let selected path interface reason probes := MkSelection true path interface reason vpn physical probes in
  let stay reason := selected PathDefault ""%string reason [] in
  if negb (String.eqb (TrimSpace (ExplicitInterface o)) "") then
    selected PathForced (TrimSpace (ExplicitInterface o)) ReasonUserForcedInterface []
  else if LocalTarget o then stay ReasonLocalTarget
  else if Proxy o then stay ReasonProxyDefault
  else if AvoidVPN o then
    if hasPhysical then selected PathPhysical physical ReasonAvoidVPN [] else stay ReasonAvoidVPNNoPhysical
  else if negb (AutoEnabled o) then stay ReasonAutoDisabled
  else if negb vpn then stay ReasonNoVPN
  else if negb hasPhysical then stay ReasonNoPhysical
  else if negb (Probed o) then stay ReasonProbeRequired
  else
    let d := DefaultProbe o in let p := PhysicalProbe o in
    let probes := [d; p] in
    if POK p && negb (POK d) then selected PathPhysical physical ReasonDefaultFailedPhysicalOK probes
    else if POK p && POK d && MateriallyFaster (PLatencyMillis p) (PLatencyMillis d) then
      selected PathPhysical physical ReasonPhysicalLowerRTT probes
    else if POK d && POK p then selected PathDefault ""%string ReasonDefaultLowerOrSimilarRTT probes
    else if POK d then selected PathDefault ""%string ReasonPhysicalFailedDefaultOK probes
    else selected PathDefault ""%string ReasonBothPathsFailed probes.

(** ** Configuring a client ([network_policy.go]) *)

Record outboundProbeTarget := MkTarget { TKind : string; TAddress : string; TURL : string; THost : string; TLocal : bool }.

(** The part of [globalOptions] the functions here use. *)
Record netOptions := MkNetOptions {
  NSignal : string;
  NRelay : string;
  NProxy : string;
  NInterface : string;
  NAvoidVPN : bool;
  NNoAutoInterface : bool;
  NLocal : bool;
  NDirectListen : string;
  networkPolicy : option Policy;
  outboundSelection : OutboundSelection;
  noutboundTarget : option outboundProbeTarget;
}.

Definition Label (t : outboundProbeTarget) : string :=
  if negb (String.eqb (TAddress t) "") then TAddress t else TURL t.

(** [apiURL(signal, "/api/health")] with the host [url.Parse] finds in it. *)
Variable health_url : string → option (string * string).

Definition outboundTarget (g : netOptions) : result policy_error outboundProbeTarget :=
  if NLocal g then Ok (MkTarget "lan" "" "" "" true)
  else if negb (String.eqb (TrimSpace (NRelay g)) "") then
    match SplitHostPort (NRelay g) with
    | None => Err RelayTarget
    | Some (host, _) => Ok (MkTarget "relay_tcp" (NRelay g) "" host (TargetIsLocal host))
    end
  else match health_url (NSignal g) with
       | None => Err HealthURL
       | Some (url, host) => Ok (MkTarget "signaling_http" "" url host (TargetIsLocal host))
       end.

Variable InterfaceByName : string → option net_interface.
(** What probing the default path and the path of a policy finds. *)
Variable probeOutboundPaths : outboundProbeTarget → option Policy → Probe * Probe.

Definition configureNetworkPolicy (g : netOptions) (autoAllowed : bool) (inventory : Inventory)
    : result policy_error netOptions :=
  target ← (if autoAllowed then outboundTarget g else Ok (MkTarget "none" "" "" "" true));
  let options probed d p := MkOutbound (NInterface g) (negb (String.eqb (TrimSpace (NProxy g)) "")) (TLocal target)
    (NAvoidVPN g) (autoAllowed && negb (NNoAutoInterface g)) inventory probed d p in
  let none := MkProbe "" "" false 0 "" in
  let selection := SelectOutbound (options false none none) in
  selection ← (if String.eqb (SReason selection) ReasonProbeRequired then
      physicalPolicy ← Resolve InterfaceByName (PreferredPhysical selection);
      let '(d, p) := probeOutboundPaths target physicalPolicy in
      Ok (SelectOutbound (options true d p))
    else Ok selection);
  policy ← Resolve InterfaceByName (SInterface selection);
  Ok (MkNetOptions (NSignal g) (NRelay g) (NProxy g)
        (if negb (String.eqb (SInterface selection) "") then SInterface selection else NInterface g)
        (NAvoidVPN g) (NNoAutoInterface g) (NLocal g) (NDirectListen g) policy selection (Some target)).

Definition directListenAddress (g : netOptions) : string :=
  match networkPolicy g with
  | None => NDirectListen g
  | Some p =>
      match SplitHostPort (NDirectListen g) with
      | None => NDirectListen g
      | Some (host, port) =>
          if negb (String.eqb host "") && negb (String.eqb host "0.0.0.0") && negb (String.eqb host "::") then NDirectListen g
          else JoinHostPort (match ipv4 p with Some ip => IPString ip | None => match ipv6 p with Some ip => IPString ip | None => "<nil>" end end) port
      end
  end.

Definition validateDirectListenPolicy (g : netOptions) : result policy_error unit :=
  match networkPolicy g with
  | None => Ok tt
  | Some p =>
      match SplitHostPort (NDirectListen g) with
      | None => Err ListenAddress
      | Some (host, _) =>
          let host := trim_brackets (TrimSpace host) in
          if String.eqb host "" || String.eqb host "0.0.0.0" || String.eqb host "::" then Ok tt
          else match ParseIP host with
               | None => Err (ListenOther (interfaceName p) host)
               | Some ip => fail_if (negb (ContainsIP (Some p) ip)) (ListenOther (interfaceName p) host)
               end
      end
  end.

Definition policyAdvertiseHosts (advertiseHosts : list string) (g : netOptions) : list string :=
  match networkPolicy g with None => advertiseHosts | Some p => IPString <$> pips p end.

Definition webRTCIncludeLoopbackCandidate (g : netOptions) : bool :=
  match networkPolicy g with None => false | Some p => existsb (ip_is IsLoopback) (pips p) end.

Record STUNOptions := MkSTUNOptions { StIPv4 : option IP; StIPv6 : option IP; InterfaceIPs : list IP }.
Definition outboundSTUNOptions (g : netOptions) : STUNOptions :=
  match networkPolicy g with
  | None => MkSTUNOptions None None []
  | Some _ => MkSTUNOptions (IPv4 (networkPolicy g)) (IPv6 (networkPolicy g)) (IPs (networkPolicy g))
  end.
End outbound.

(** ** The preferred interface *)

Definition beats (e r : string * Z) : Prop := r.2 < e.2 ∨ (r.2 = e.2 ∧ str_ltb e.1 r.1 = true).

Lemma better_score_cases best e : e.1 ≠ ""%string →
  (better_score best e = e ∧ (best.1 = ""%string ∧ best.2 ≤ e.2 ∨ beats e best)) ∨ (better_score best e = best ∧ ¬ beats e best).
Proof.
  intros He. unfold better_score, beats. rewrite Z.gtb_ltb.
  destruct (Z.ltb_spec best.2 e.2); cbn [orb]; [left; split; [done|by auto]|].
  destruct (Z.eqb_spec e.2 best.2); cbn [andb]; [|right; split; [done|lia]].
  destruct (String.eqb_spec best.1 ""); cbn [orb]; [left; split; [done|left; split; [done|lia]]|].
  destruct (str_ltb e.1 best.1) eqn:E; [left; split; [done|right; right; split; [lia|done]]|right; split; [done|]].
  intros [?|[_ ?]]; [lia|congruence].
Qed.

Lemma beats_trans a b c : beats a b → beats b c → beats a c.
Proof.
  unfold beats. pose proof (str_ltb_trans a.1 b.1 c.1). intros [?|[? ?]] [?|[? ?]]; try (left; lia).
  right. split; [lia|auto].
Qed.

Lemma beats_total a b : ¬ beats a b → ¬ beats b a → a = b.
Proof.
  intros H1 H2. unfold beats in *. assert (a.2 = b.2) by (destruct (Z.lt_trichotomy a.2 b.2) as [?|[?|?]]; tauto || lia).
  destruct a as [n s], b as [m t]. cbn in *. subst. f_equal.
  apply str_ltb_total; apply not_true_iff_false; intros ?; [apply H1|apply H2]; by right.
Qed.

(** What the loop over the scores finds. *)
Definition is_best (entries : list (string * Z)) (r : string * Z) : Prop :=
  r ∈ entries ∧ ∀ e, e ∈ entries → ¬ beats e r.

Lemma is_best_unique es r r' : is_best es r → is_best es r' → r = r'.
Proof. intros [H1 H2] [H3 H4]. apply beats_total; auto. Qed.

Definition score_ok (e : string * Z) : Prop := e.1 ≠ ""%string ∧ 0 ≤ e.2.

Lemma beats_irrefl r : ¬ beats r r.
Proof. unfold beats. rewrite str_ltb_irrefl. intros [?|[_ ?]]; [lia|done]. Qed.

Lemma fold_best acc es : score_ok acc → Forall score_ok es → is_best (acc :: es) (foldl better_score acc es).
Proof.
  revert acc. induction es as [|e es IH]; intros acc Ha Hes.
  { cbn. split; [by left|]. intros x ->%list_elem_of_singleton. apply beats_irrefl. }
  apply Forall_cons in Hes as [He Hes]. cbn [foldl].
  destruct (better_score_cases acc e (proj1 He)) as [[-> [[? _]|Hb]]|[-> Hb]].
  - by destruct Ha.
  - destruct (IH e He Hes) as [Hin Hmax]. split; [by right|]. intros x [->|Hx]%elem_of_cons; [|by apply Hmax].
    intros Hx. apply (Hmax e); [by left|]. by eapply beats_trans.
  - destruct (IH acc Ha Hes) as [Hin Hmax]. split; [rewrite !elem_of_cons in *; tauto|].
    intros x [->|[->|Hx]%elem_of_cons]%elem_of_cons; [apply Hmax; by left| |apply Hmax; by right].
    intros Hx. destruct (decide (acc = foldl better_score acc es)) as [Eq|Hne]; [rewrite <- Eq in Hx; done|].
    apply Hb. eapply beats_trans; [exact Hx|].
    pose proof (Hmax acc ltac:(by left)) as Hacc. unfold beats in *.
    destruct (Z.lt_trichotomy acc.2 (foldl better_score acc es).2) as [?|[Eq|?]]; [by left| |tauto].
    right. split; [done|]. destruct (str_ltb (foldl better_score acc es).1 acc.1) eqn:E1; [done|].
    exfalso. apply Hne. apply beats_total; unfold beats; [tauto|]. rewrite E1. intros [?|[? ?]]; [lia|done].
Qed.

Lemma best_interface_spec es : Forall score_ok es →
  (es = [] ∧ best_interface es = ""%string) ∨ ∃ r, is_best es r ∧ best_interface es = r.1.
Proof.
  intros Hes. destruct es as [|e es]; [by left|]. right. apply Forall_cons in Hes as [He Hes].
  unfold best_interface. cbn [foldl].
  assert (better_score (""%string, -1) e = e) as ->.
  { unfold better_score. cbn. destruct He. by replace (e.2 >? -1) with true by (symmetry; rewrite Z.gtb_ltb; apply Z.ltb_lt; lia). }
  eexists. split; [by apply fold_best|done].
Qed.

(** The order of the loop does not matter. *)
Lemma best_interface_perm es es' : Forall score_ok es → es ≡ₚ es' → best_interface es = best_interface es'.
Proof.
  intros Hes Hp. assert (Hes' : Forall score_ok es') by by rewrite <- Hp.
  destruct (best_interface_spec es Hes) as [[-> ->]|(r & Hr & ->)].
  - apply Permutation_nil in Hp as ->. done.
  - destruct (best_interface_spec es' Hes') as [[-> _]|(r' & Hr' & ->)].
    + apply Permutation_sym, Permutation_nil in Hp as ->. by destruct Hr as [?%not_elem_of_nil _].
    + f_equal. eapply is_best_unique; [done|]. destruct Hr' as [H1 H2]. split; [by rewrite Hp|]. intros e. rewrite Hp. apply H2.
Qed.

Lemma foldl_commute {A B} (f : A → B → A) l l' x :
  (∀ x a b, f (f x a) b = f (f x b) a) → l ≡ₚ l' → foldl f x l = foldl f x l'.
Proof.
  intros Hf Hp. revert x. induction Hp as [|a l l' _ IH|a b l|l1 l2 l3 _ IH1 _ IH2]; intros x; cbn; [done|apply IH|by rewrite Hf|].
  by rewrite IH1.
Qed.

Section preferred.
Context `{CaseTables}.

(** The scores each interface adds. *)
Definition contribution (i : Interface) : list (string * Z) :=
  if eligible i then (fun a => (IName i, address_score (IName i) a)) <$> IAddresses i else [].
Definition add_pair (scores : gmap string Z) (e : string * Z) : gmap string Z :=
  <[e.1 := default 0 (scores !! e.1) + e.2]> scores.

Lemma interface_scores_pairs l : interface_scores l = foldl add_pair ∅ (concat (contribution <$> l)).
Proof.
  unfold interface_scores. generalize (∅ : gmap string Z). induction l as [|i l IH]; intros s; [done|].
  rewrite fmap_cons. cbn [concat foldl]. rewrite IH, foldl_app. f_equal. unfold contribution.
  destruct (eligible i); [|done]. clear. revert s. induction (IAddresses i) as [|a l IH]; intros s; [done|]. cbn. by rewrite IH.
Qed.

Lemma add_pair_commute s a b : add_pair (add_pair s a) b = add_pair (add_pair s b) a.
Proof.
  unfold add_pair. destruct a as [n x], b as [m y]. cbn. destruct (decide (n = m)) as [->|Hne].
  - rewrite !lookup_insert_eq, !insert_insert_eq. cbn. f_equal. lia.
  - rewrite !lookup_insert_ne by done. by apply insert_insert_ne.
Qed.

Lemma interface_scores_perm l l' : l ≡ₚ l' → interface_scores l = interface_scores l'.
Proof.
  intros Hp. rewrite !interface_scores_pairs. apply foldl_commute; [apply add_pair_commute|].
  induction Hp as [|a l l' _ IH|a b l|l1 l2 l3 _ IH1 _ IH2]; rewrite ?fmap_cons; cbn [concat].
  - done.
  - by rewrite IH.
  - rewrite !app_assoc. f_equiv. apply Permutation_app_comm.
  - by rewrite IH1.
Qed.

(** The score of a name: the sum over its addresses. *)
Fixpoint pair_total (n : string) (es : list (string * Z)) : Z :=
  match es with [] => 0 | e :: es => (if String.eqb e.1 n then e.2 else 0) + pair_total n es end.
Definition interface_score (l : list Interface) (n : string) : Z := pair_total n (concat (contribution <$> l)).

Lemma add_pairs_total es s n :
  default 0 (foldl add_pair s es !! n) = default 0 (s !! n) + pair_total n es ∧
  (is_Some (foldl add_pair s es !! n) ↔ is_Some (s !! n) ∨ n ∈ es.*1).
Proof.
  revert s. induction es as [|e es IH]; intros s; cbn [foldl pair_total fmap list_fmap].
  { rewrite Z.add_0_r. split; [done|]. rewrite elem_of_nil. tauto. }
  destruct (IH (add_pair s e)) as [-> ->]. rewrite elem_of_cons. unfold add_pair.
  destruct (String.eqb_spec e.1 n) as [->|Hne].
  - rewrite lookup_insert_eq. cbn. split; [lia|]. split; [by auto|by eauto].
  - rewrite lookup_insert_ne by done. split; [lia|]. split; [tauto|]. intros [?|[->|?]]; [by auto|done|by auto].
Qed.

Lemma contribution_names l n : n ∈ (concat (contribution <$> l)).*1 ↔
  ∃ i, i ∈ l ∧ IName i = n ∧ eligible i = true ∧ IAddresses i ≠ [].
Proof.
  induction l as [|i l IH]; cbn [fmap list_fmap concat].
  { split; [by intros ?%not_elem_of_nil|by intros (? & ?%not_elem_of_nil & _)]. }
  rewrite fmap_app, elem_of_app, IH. setoid_rewrite elem_of_cons.
  assert (n ∈ (contribution i).*1 ↔ IName i = n ∧ eligible i = true ∧ IAddresses i ≠ []) as ->; [|naive_solver].
  unfold contribution. destruct (eligible i); [|split; [by intros ?%not_elem_of_nil|by intros (_ & ? & _)]].
  rewrite <- list_fmap_compose, list_elem_of_fmap. split.
  - intros (a & -> & Ha). split_and!; [done|done|]. intros E. rewrite E in Ha. by apply not_elem_of_nil in Ha.
  - intros (<- & _ & Hne). destruct (IAddresses i) as [|a l']; [done|]. exists a. split; [done|by left].
Qed.

Lemma scores_lookup l n t :
  interface_scores l !! n = Some t ↔
  t = interface_score l n ∧ ∃ i, i ∈ l ∧ IName i = n ∧ eligible i = true ∧ IAddresses i ≠ [].
Proof.
  rewrite interface_scores_pairs. destruct (add_pairs_total (concat (contribution <$> l)) ∅ n) as [Ht Hs].
  rewrite lookup_empty in *. fold (interface_score l n) in Ht. cbn in Ht.
  rewrite contribution_names in Hs. destruct (foldl add_pair ∅ _ !! n) as [u|]; cbn in Ht.
  - split; [|intros [-> _]; f_equal; lia]. intros [= <-]. split; [lia|].
    destruct (proj1 Hs ltac:(eauto)) as [[? ?]|?]; done.
  - split; [done|]. intros [_ He]. destruct (proj2 Hs) as [? ?]; [by right|done].
Qed.

Lemma address_score_pos n a : 0 < address_score n a.
Proof.
  unfold address_score, physicalInterfaceNameScore. cbv zeta.
  destruct (ParseIP a) as [ip|]; [destruct (To4 ip)|]; repeat case_if; lia.
Qed.

Lemma interface_score_nonneg l n : 0 ≤ interface_score l n.
Proof.
  unfold interface_score. assert (Forall (λ e : string * Z, 0 ≤ e.2) (concat (contribution <$> l))) as Hf.
  { apply Forall_concat, Forall_fmap, Forall_forall. intros i _. unfold compose, contribution. destruct (eligible i); [|constructor].
    apply Forall_fmap, Forall_forall. intros a _. cbn. pose proof (address_score_pos (IName i) a). lia. }
  induction Hf as [|e es ? _ IH]; cbn [pair_total]; [lia|]. case_if; lia.
Qed.

Lemma eligible_named i : eligible i = true → IName i ≠ ""%string.
Proof.
  unfold eligible. intros He E. rewrite E in He. unfold isLikelyVirtualInterfaceName in He.
  apply negb_true_iff in He. apply orb_false_iff in He as [_ He]. by vm_compute in He.
Qed.

Lemma scores_ok l : Forall score_ok (map_to_list (interface_scores l)).
Proof.
  apply Forall_forall. intros [n t] Hin%elem_of_map_to_list. apply scores_lookup in Hin as (-> & i & _ & <- & He & _).
  split; [by apply eligible_named|apply interface_score_nonneg].
Qed.

(** An interface the machine could prefer. *)
Definition candidate (l : list Interface) (n : string) : Prop :=
  ∃ i, i ∈ l ∧ IName i = n ∧ eligible i = true ∧ IAddresses i ≠ [].

(** The preferred interface: the candidate with the highest score, the first by
    name among those; none when there is no candidate. *)
Lemma PreferredPhysicalInterface_spec inv :
  match PreferredPhysicalInterface inv with
  | (n, true) => candidate (Interfaces inv) n ∧ ∀ m, candidate (Interfaces inv) m →
      interface_score (Interfaces inv) m < interface_score (Interfaces inv) n ∨
      (interface_score (Interfaces inv) m = interface_score (Interfaces inv) n ∧ str_ltb m n = false)
  | (n, false) => n = ""%string ∧ ∀ m, ¬ candidate (Interfaces inv) m
  end.
Proof.
  unfold PreferredPhysicalInterface. set (l := Interfaces inv).
  destruct (best_interface_spec (map_to_list (interface_scores l)) (scores_ok l)) as [[E ->]|([n t] & [Hin Hmax] & ->)].
  - cbn. split; [done|]. intros m (i & Hi). apply map_to_list_empty_iff in E.
    assert (interface_scores l !! m = Some (interface_score l m)) as Hs by (apply scores_lookup; split; [done|by exists i]).
    by rewrite E in Hs.
  - cbn [fst]. pose proof Hin as Hin'. apply elem_of_map_to_list, scores_lookup in Hin' as (-> & Hc).
    destruct (String.eqb_spec n "") as [->|_]; cbn [negb].
    { destruct Hc as (i & _ & Hn & He & _). by apply eligible_named in He. }
    split; [done|]. intros m Hm.
    assert ((m, interface_score l m) ∈ map_to_list (interface_scores l)) as Hme by (apply elem_of_map_to_list, scores_lookup; by split).
    apply Hmax in Hme. unfold beats in Hme. cbn in Hme.
    destruct (str_ltb m n) eqn:E; [left; destruct (Z.lt_trichotomy (interface_score l m) (interface_score l n)) as [?|[?|?]]; [done|exfalso; apply Hme; right; auto|exfalso; apply Hme; by left]|].
    destruct (Z.lt_trichotomy (interface_score l m) (interface_score l n)) as [?|[?|?]]; [by left|by right|exfalso; apply Hme; by left].
Qed.

Lemma VPNDetected_perm inv inv' : Interfaces inv ≡ₚ Interfaces inv' → VPNPresent inv = VPNPresent inv' → VPNDetected inv = VPNDetected inv'.
Proof.
  intros Hp Hv. unfold VPNDetected. rewrite Hv. f_equal. apply eq_true_iff_eq. rewrite !existsb_exists.
  setoid_rewrite <- list_elem_of_In. by setoid_rewrite Hp.
Qed.

Lemma PreferredPhysicalInterface_perm inv inv' : Interfaces inv ≡ₚ Interfaces inv' →
  PreferredPhysicalInterface inv = PreferredPhysicalInterface inv'.
Proof. intros Hp. unfold PreferredPhysicalInterface. by rewrite (interface_scores_perm _ _ Hp). Qed.
End preferred.

(** ** Addresses of a policy *)

Lemma To4_length ip ip4 : To4 ip = Some ip4 → length ip4 = 4%nat.
Proof.
  unfold To4, Is4In6, Is6. cbn [octets]. destruct (Nat.eqb_spec (length ip) 4) as [?|_]; [by intros [= <-]|].
  destruct (Nat.eqb_spec (length ip) 16) as [E|_]; cbn [andb]; [|done]. case_if; [|done]. intros [= <-]. rewrite length_drop. lia.
Qed.

Lemma canonical_idemp ip : canonical (canonical ip) = canonical ip.
Proof.
  unfold canonical. destruct (To4 ip) as [ip4|] eqn:E; cbn; [|by rewrite E].
  apply To4_length in E. unfold To4. by rewrite E.
Qed.

Lemma usableIP_canonical ip : usableIP (canonical ip) = usableIP ip.
Proof. unfold usableIP, ip_is. by rewrite !canonical_idemp. Qed.

(** What a policy may hold, when an interface has the addresses [known]. *)
Record policy_ok (known : list IP) (p : Policy) : Prop := {
  po_known : ∀ ip, ip ∈ pips p → usableIP ip = true ∧ ∃ a, a ∈ known ∧ ip = canonical a;
  po_distinct : NoDup (pips p);
  po_ipv4 : ∀ ip, ipv4 p = Some ip → ip ∈ pips p ∧ length ip = 4%nat;
  po_ipv6 : ∀ ip, ipv6 p = Some ip → ip ∈ pips p ∧ To4 ip = None;
  po_some : pips p ≠ [] → is_Some (ipv4 p) ∨ is_Some (ipv6 p);
}.

Lemma ContainsIP_in p ip : ip ∈ pips p → ContainsIP (Some p) ip = true.
Proof.
  intros Hin. apply existsb_exists. exists ip. split; [by apply list_elem_of_In|]. unfold IPEqual. by apply bool_decide_eq_true_2.
Qed.

Lemma add_ip_name p ip : interfaceName (add_ip p ip) = interfaceName p.
Proof. unfold add_ip. case_if; [done|]. by destruct (To4 ip). Qed.

Lemma add_ip_ok known p ip : policy_ok known p → policy_ok (known ++ [ip]) (add_ip p ip).
Proof.
  intros Hp. assert (Hmono : ∀ x, x ∈ known → x ∈ known ++ [ip]) by (intros; apply elem_of_app; by left).
  assert (Hold : ∀ x, x ∈ pips p → usableIP x = true ∧ ∃ a, a ∈ known ++ [ip] ∧ x = canonical a).
  { intros x Hx. apply Hp in Hx as (? & a & ? & ?). split; [done|]. exists a. by auto. }
  unfold add_ip. destruct (negb (usableIP ip) || ContainsIP (Some p) ip) eqn:Eg.
  { destruct Hp as [_ ? ? ? ?]. by split. }
  apply orb_false_iff in Eg as [Hu Hnc]. apply negb_false_iff in Hu.
  assert (Hnew : canonical ip ∉ pips p).
  { intros Hin. apply ContainsIP_in in Hin. unfold ContainsIP in *. rewrite existsb_exists in Hin. destruct Hin as (x & Hx & Hxe).
    apply not_true_iff_false in Hnc. apply Hnc. apply existsb_exists. exists x. split; [done|].
    unfold IPEqual in *. by rewrite canonical_idemp in Hxe. }
  assert (Hin : ∀ x, x ∈ pips p ++ [canonical ip] → usableIP x = true ∧ ∃ a, a ∈ known ++ [ip] ∧ x = canonical a).
  { intros x [Hx | ->%list_elem_of_singleton]%elem_of_app; [by apply Hold|]. split; [by rewrite usableIP_canonical|].
    exists ip. split; [|done]. apply elem_of_app. right. by apply list_elem_of_singleton. }
  assert (Hnd : NoDup (pips p ++ [canonical ip])).
  { apply NoDup_app. split; [apply Hp|]. split; [|apply NoDup_singleton]. by intros x Hx ->%list_elem_of_singleton. }
  assert (Hl : ∀ x l, x ∈ pips p → x ∈ pips p ++ [l]) by (intros; apply elem_of_app; by left).
  assert (Hr : canonical ip ∈ pips p ++ [canonical ip]) by (apply elem_of_app; right; by apply list_elem_of_singleton).
  unfold canonical in Hin, Hnd, Hr. destruct (To4 ip) as [ip4|] eqn:E4; cbn in Hin, Hnd, Hr.
  - pose proof (To4_length _ _ E4). split; cbn; [done|done| | |].
    + unfold or_first. destruct (ipv4 p) as [x|] eqn:Ex; intros x' [= <-]; [|done]. apply Hp in Ex as [? ?]. by auto.
    + intros x Hx. apply Hp in Hx as [? ?]. by auto.
    + intros _. left. unfold or_first. destruct (ipv4 p); by eexists.
  - split; cbn; [done|done| | |].
    + intros x Hx. apply Hp in Hx as [? ?]. by auto.
    + unfold or_first. destruct (ipv6 p) as [x|] eqn:Ex; intros x' [= <-]; [|done]. apply Hp in Ex as [? ?]. by auto.
    + intros _. right. unfold or_first. destruct (ipv6 p); by eexists.
Qed.

Lemma add_ips_ok known p addresses : policy_ok known p →
  policy_ok (known ++ addresses) (foldl add_ip p addresses) ∧ interfaceName (foldl add_ip p addresses) = interfaceName p.
Proof.
  revert known p. induction addresses as [|ip l IH]; intros known p Hp; [by rewrite app_nil_r|].
  destruct (IH (known ++ [ip]) (add_ip p ip)) as [H1 H2]; [by apply add_ip_ok|].
  rewrite <- app_assoc in H1. cbn [foldl]. split; [done|]. by rewrite H2, add_ip_name.
Qed.

(** What resolving an interface gives. *)
Lemma Resolve_spec lookup name :
  match Resolve lookup name with
  | Ok None => TrimSpace name = ""%string
  | Ok (Some p) => TrimSpace name ≠ ""%string ∧ ∃ iface addresses,
      lookup (TrimSpace name) = Some iface ∧ NIUp iface = true ∧ NIAddrs iface = Some addresses ∧
      interfaceName p = NIName iface ∧ policy_ok addresses p ∧ pips p ≠ []
  | Err _ => TrimSpace name ≠ ""%string
  end.
Proof.
  unfold Resolve. destruct (String.eqb_spec (TrimSpace name) "") as [E|Hne]; [done|].
  destruct (lookup (TrimSpace name)) as [iface|] eqn:El; [|done]. unfold fail_if.
  destruct (NIUp iface) eqn:Eu; cbn [negb mbind result_bind]; [|done].
  destruct (NIAddrs iface) as [addresses|] eqn:Ea; [|done].
  destruct (add_ips_ok [] (MkPolicy (NIName iface) [] None None) addresses) as [H1 H2].
  { split; cbn; try done; [by intros ? ?%not_elem_of_nil|constructor]. }
  case_bool_decide; cbn [mbind result_bind]; [done|]. split; [done|]. by exists iface, addresses.
Qed.

Lemma ipForNetwork_in known p network ip family :
  policy_ok known p → ipForNetwork p network = Ok (ip, family) → ip ∈ pips p.
Proof.
  intros Hp. unfold ipForNetwork, preferredIP. repeat case_if.
  - destruct (ipv4 p) eqn:E; [|done]. intros [= <- _]. by apply Hp in E as [? _].
  - destruct (ipv6 p) eqn:E; [|done]. intros [= <- _]. by apply Hp in E as [? _].
  - destruct (ipv4 p) eqn:E; [intros [= <- _]; by apply Hp in E as [? _]|].
    destruct (ipv6 p) eqn:E6; [|done]. intros [= <- _]. by apply Hp in E6 as [? _].
Qed.

(** The family of an address. *)
Definition of_family (family : string) (ip : IP) : Prop :=
  (family = "tcp4"%string ∧ length ip = 4%nat) ∨ (family = "tcp6"%string ∧ To4 ip = None).

Lemma TCPAddrFor_spec known p address port family source port' :
  policy_ok known p → TCPAddrFor (Some p) address port = Ok (family, source, port') →
  port' = port ∧ ∃ ip, source = Some ip ∧ ip ∈ pips p ∧ of_family family ip ∧
    (∀ host n remote, SplitHostPort address = Some (host, n) → ParseIP (cut_last_zone (trim_brackets host)) = Some remote →
      family = (if To4 remote then "tcp4" else "tcp6")%string).
Proof.
  intros Hp. unfold TCPAddrFor. destruct (SplitHostPort address) as [[host n]|]; [|done]. intros Hr. res_inv.
  match goal with x : IP * string |- _ => destruct x as [ip fam] end. simplify_eq. split; [done|]. exists ip. split; [done|].
  assert (H4 : ∀ x, ipv4 p = Some x → x ∈ pips p ∧ of_family "tcp4" x) by (intros x Hx; apply Hp in Hx as [? ?]; split; [done|by left]).
  assert (H6 : ∀ x, ipv6 p = Some x → x ∈ pips p ∧ of_family "tcp6" x) by (intros x Hx; apply Hp in Hx as [? ?]; split; [done|by right]).
  destruct (ParseIP _) as [remote|] eqn:Er.
  - assert (family = (if To4 remote then "tcp4" else "tcp6")%string ∧ ip ∈ pips p ∧ of_family family ip) as (-> & ? & ?).
    { destruct (To4 remote); unfold ipForNetwork in *; cbn in *.
      - destruct (ipv4 p); simplify_eq. split; [done|]. by apply H4.
      - destruct (ipv6 p); simplify_eq. split; [done|]. by apply H6. }
    split_and!; [done|done|]. intros ? ? ? [= <- <-]. rewrite Er. by intros [= <-].
  - assert (ip ∈ pips p ∧ of_family family ip) as [? ?].
    { unfold preferredIP in *. destruct (ipv4 p); simplify_eq; [by apply H4|]. destruct (ipv6 p); simplify_eq. by apply H6. }
    split_and!; [done|done|]. intros ? ? ? [= <- <-]. by rewrite Er.
Qed.

(** ** The choice *)

Section choice.
Context `{CaseTables}.

(** When the physical interface is taken. *)
Definition physical_wins (o : OutboundOptions) : bool :=
  negb (LocalTarget o) && negb (Proxy o) && (PreferredPhysicalInterface (OInventory o)).2 &&
  (AvoidVPN o ||
   AutoEnabled o && VPNDetected (OInventory o) && Probed o && POK (PhysicalProbe o) &&
   (negb (POK (DefaultProbe o)) || MateriallyFaster (PLatencyMillis (PhysicalProbe o)) (PLatencyMillis (DefaultProbe o)))).

(** The path chosen: the interface the user named; else, away from local targets
    and proxies, the preferred physical interface when a VPN is to be avoided, or
    when one is present and the probes went better without it; else the default.
    Probes are asked for exactly when they decide. *)
Theorem outbound_selects o :
  let s := SelectOutbound o in
  let forced := negb (String.eqb (TrimSpace (ExplicitInterface o)) "") in
  SPath s = (if forced then PathForced else if physical_wins o then PathPhysical else PathDefault) ∧
  SInterface s = (if forced then TrimSpace (ExplicitInterface o)
                  else if physical_wins o then (PreferredPhysicalInterface (OInventory o)).1 else "")%string ∧
  (SReason s = ReasonProbeRequired ↔
     forced = false ∧ LocalTarget o = false ∧ Proxy o = false ∧ AvoidVPN o = false ∧ AutoEnabled o = true ∧
     VPNDetected (OInventory o) = true ∧ (PreferredPhysicalInterface (OInventory o)).2 = true ∧ Probed o = false).
Proof.
  cbv zeta. unfold SelectOutbound, physical_wins. destruct (PreferredPhysicalInterface (OInventory o)) as [physical has]. cbn [fst snd].
  destruct (negb (String.eqb (TrimSpace (ExplicitInterface o)) "")), (LocalTarget o), (Proxy o), (AvoidVPN o), has, (AutoEnabled o),
    (VPNDetected (OInventory o)), (Probed o), (POK (PhysicalProbe o)), (POK (DefaultProbe o)),
    (MateriallyFaster (PLatencyMillis (PhysicalProbe o)) (PLatencyMillis (DefaultProbe o))); cbn; split_and!; try done;
    split; try done; intros (? & ? & ? & ? & ? & ? & ? & ?); done.
Qed.

(** The choice is a function of the set of interfaces: the order they are listed
    in, and the order of the map the loop goes through, do not matter. *)
Theorem outbound_order o inventory :
  Interfaces (OInventory o) ≡ₚ Interfaces inventory → VPNPresent (OInventory o) = VPNPresent inventory →
  SelectOutbound o = SelectOutbound (MkOutbound (ExplicitInterface o) (Proxy o) (LocalTarget o) (AvoidVPN o) (AutoEnabled o) inventory
    (Probed o) (DefaultProbe o) (PhysicalProbe o)).
Proof.
  intros Hp Hv. unfold SelectOutbound. cbn [OInventory ExplicitInterface LocalTarget Proxy AvoidVPN AutoEnabled Probed DefaultProbe PhysicalProbe].
  by rewrite (PreferredPhysicalInterface_perm _ _ Hp), (VPNDetected_perm _ _ Hp Hv).
Qed.

(** A configured client is bound: the policy holds usable addresses of the
    interface chosen, every source address of a connection is one of them and of
    the family of its target, and so is every address it advertises or listens
    at, when it was not given one by hand. *)
Theorem policy_binds health_url lookup probes g auto inventory g' :
  configureNetworkPolicy health_url lookup probes g auto inventory = Ok g' →
  TrimSpace (SInterface (outboundSelection g')) = ""%string ∧ networkPolicy g' = None ∨
  ∃ p iface addresses, networkPolicy g' = Some p ∧ NInterface g' = SInterface (outboundSelection g') ∧
    lookup (TrimSpace (NInterface g')) = Some iface ∧ NIUp iface = true ∧ NIAddrs iface = Some addresses ∧ interfaceName p = NIName iface ∧
    policy_ok addresses p ∧ pips p ≠ [] ∧
    (∀ address port family source port', TCPAddrFor (networkPolicy g') address port = Ok (family, source, port') →
       ∃ ip, source = Some ip ∧ ip ∈ pips p ∧ of_family family ip) ∧
    (∀ hosts h, h ∈ policyAdvertiseHosts hosts g' → ∃ ip, ip ∈ pips p ∧ h = IPString ip) ∧
    (∀ host port, SplitHostPort (NDirectListen g) = Some (host, port) → host ∈ [""; "0.0.0.0"; "::"]%string →
       ∃ ip, ip ∈ pips p ∧ directListenAddress g' = JoinHostPort (IPString ip) port).
Proof.
  unfold configureNetworkPolicy. intros Hc.
  destruct (if auto then _ else _) as [target|e]; [|discriminate Hc]. cbn [mbind result_bind] in Hc. cbv zeta in Hc.
  match type of Hc with (?c ≫= ?k) = _ => destruct c as [selection|e] eqn:Esel end; [|discriminate Hc]. clear Esel. cbn [mbind result_bind] in Hc.
  pose proof (Resolve_spec lookup (SInterface selection)) as Hs.
  destruct (Resolve lookup (SInterface selection)) as [[p|]|e]; [| |discriminate Hc]; cbn [mbind result_bind] in Hc; injection Hc as <-.
  - right. destruct Hs as (Hne & iface & addresses & Hl & Hu & Ha & Hname & Hok & Hsome). exists p, iface, addresses.
    cbn [networkPolicy outboundSelection NInterface NDirectListen policyAdvertiseHosts].
    assert (Hsel : SInterface selection ≠ ""%string) by by intros E; rewrite E in Hne.
    rewrite (proj2 (String.eqb_neq _ _) Hsel). cbn [negb]. split_and!; try done.
    + intros address port family source port' Ht. destruct (TCPAddrFor_spec addresses p address port family source port' Hok Ht) as (_ & ip & ? & ? & ? & _).
      by exists ip.
    + intros hosts h (ip & -> & Hin)%list_elem_of_fmap. by exists ip.
    + intros host port Hsp Hh. unfold directListenAddress. cbn [networkPolicy NDirectListen]. rewrite Hsp.
      replace (negb (String.eqb host "") && negb (String.eqb host "0.0.0.0") && negb (String.eqb host "::")) with false.
      2:{ symmetry. rewrite !elem_of_cons in Hh. by destruct Hh as [-> | [-> | [-> | Hh%not_elem_of_nil]]]. }
      destruct (ipv4 p) as [ip|] eqn:E4; [exists ip; split; [by apply Hok in E4 as [? _]|done]|].
      destruct (ipv6 p) as [ip|] eqn:E6; [exists ip; split; [by apply Hok in E6 as [? _]|done]|].
      exfalso. destruct (po_some _ _ Hok Hsome) as [[? E]|[? E]]; congruence.
  - left. by split.
Qed.
End choice.
