(* ===== verification/Retry.v ===== *)
(** * Reconnecting ([internal/app/retry.go], [pair_timeout.go], [FormatError] of [app.go])

    A transfer is attempted again while its failures look like a lost connection.
    The theorem [retry_exact] says which attempts are made, what the call returns
    and that every connection it dialled was closed before the next was dialled. *)
From Stdlib Require Import ZArith Lia Ascii String.
From stdpp Require Import base tactics numbers list gmap strings.
From S2P Require Import Prelude GoStrings RoutePlan.

(** ** Errors *)

(** What [errors.Is] finds in an error. *)
Inductive error_target :=
  | Canceled | DeadlineExceeded | EOF | UnexpectedEOF | TransportClosed | NetClosed | PairTimeout
  | ECONNRESET | ECONNREFUSED | ECONNABORTED | EPIPE | ETIMEDOUT | ENETDOWN | ENETUNREACH | EHOSTUNREACH.
#[export] Instance error_target_eq_dec : EqDecision error_target.
Proof. solve_decision. Defined.

(** [net_error]: of a [net.Error], whether it is a timeout and whether temporary. *)
Record go_error := MkGoError { targets : list error_target; net_error : option (bool * bool); message : string }.
Definition Is (e : go_error) (t : error_target) : bool := bool_decide (t ∈ targets e).

Definition retryable_targets : list error_target :=
  [ECONNRESET; ECONNREFUSED; ECONNABORTED; EPIPE; ETIMEDOUT; ENETDOWN; ENETUNREACH; EHOSTUNREACH].
Definition retryable_phrases : list string :=
  ["all relay candidates failed"; "broken pipe"; "connection closed"; "connection lost"; "connection reset"; "data channel closed";
   "failed to connect"; "network is unreachable"; "use of closed network connection"]%string.

Section retry.
Context `{CaseTables}.

Definition isRetryableTransferError (e : go_error) : bool :=
  if Is e Canceled then false
  else if Is e PairTimeout then false
  else if Is e DeadlineExceeded || Is e EOF || Is e UnexpectedEOF || Is e TransportClosed || Is e NetClosed then true
  else if (match net_error e with Some (timeout, temporary) => timeout || temporary | None => false end) then true
  else if existsb (Is e) retryable_targets then true
  else existsb (str_contains (ToLower (message e))) retryable_phrases.

(** [FormatError] *)
Definition FormatError (e : go_error) : string :=
  let lower := ToLower (message e) in
  let has := str_contains lower in
  if Is e PairTimeout then message e +:+ "; start a new transfer and enter the fresh code promptly"
  else if Is e Canceled then "canceled"
  else if Is e DeadlineExceeded then "timed out; check that both sides are online and try again"
  else if Is e EOF || Is e TransportClosed || Is e NetClosed then
    "connection closed before the transfer completed; automatic same-code reconnect was exhausted"
  else if has "relay password required" then "relay password rejected; check --relay-pass or KIGO_RELAY_PASS"
  else if has "relay room expired" || has "room expired" then "pairing room expired; start a new transfer to get a fresh code"
  else if has "sender already waiting" || has "receiver already waiting" || has "room is full" || has "room is locked" then
    "pairing code is already in use; start a new transfer and use the new code"
  else if has "connection refused" then "connection refused; check that the signaling service or relay is running and reachable"
  else if has "no such host" then "host not found; check the signaling or relay address"
  else if has "i/o timeout" || has "timed out" then "timed out; check the code, network, and that both sides are online"
  else if has "websocket" && (has "bad handshake" || has "unexpected response") then
    "signaling handshake failed; check the --signal URL and reverse proxy WebSocket support"
  else if has "websocket" || has "signaling" then "signaling connection failed; check the --signal URL and try again"
  else if has "use of closed network connection" || has "broken pipe" || has "connection reset by peer" then
    "peer disconnected before the transfer completed; automatic same-code reconnect was exhausted"
  else if has "expected resume" || has "expected complete" then "peer disconnected or spoke an incompatible transfer protocol"
  else message e.

(** ** Attempts *)

Inductive attempts_error := AttemptsBelowOne | NegativeDelay.
Definition totalReconnectAttempts (g : globalOptions) (webRTCReconnectConfigured : bool) : result attempts_error Z :=
  if ONoReconnect g || (bool_decide (PKind (planNativeRoute g) = routeWebRTC) && negb webRTCReconnectConfigured) then Ok 1
  else if OReconnectAttempts g <? 1 then Err AttemptsBelowOne
  else if OReconnectDelay g <? 0 then Err NegativeDelay
  else Ok (OReconnectAttempts g).

Definition conn_id := nat.
(** What happens: dialling at the n-th attempt, the transfer over a connection,
    the gate's verdict, and the error of the context when it ends during the wait after it. *)
Record script := MkScript {
  s_dial : nat → result go_error conn_id;
  s_attempt : nat → conn_id → option go_error;
  s_gate : option (nat → bool);
  s_canceled : nat → option go_error;
}.
Inductive retry_event := Dialled (c : conn_id) | ClosedConn (c : conn_id) | Waited.

(** What the n-th attempt gives, and what it did. *)
Definition attempt_outcome (s : script) (n : nat) : option go_error * list retry_event :=
  match s_dial s n with
  | Err e => (Some e, [])
  | Ok c => (s_attempt s n c, [Dialled c; ClosedConn c])
  end.
Definition gives_up (s : script) (max n : nat) (e : go_error) : bool :=
  Nat.leb max n || negb (isRetryableTransferError e) || match s_gate s with Some gate => negb (gate n) | None => false end.

(** The loop of [runTransferWithReconnectGate]: [tries] are left, of which the next
    is number [current]; the result is [None] for success. *)
Fixpoint retry_loop (s : script) (max tries current : nat) : option go_error * list retry_event :=
  match tries with
  | O => (None, [])
  | S tries =>
      let '(outcome, events) := attempt_outcome s current in
      match outcome with
      | None => (None, events)
      | Some e =>
          if gives_up s max current e then (Some e, events)
          else match s_canceled s current with
               | Some ended => (Some ended, events)
               | None => let '(r, events') := retry_loop s max tries (S current) in (r, events ++ Waited :: events')
               end
      end
  end.
Definition runTransferWithReconnectGate (g : globalOptions) (s : script) : result attempts_error (option go_error * list retry_event) :=
  maxAttempts ← totalReconnectAttempts g (if s_gate s then true else false);
  Ok (retry_loop s (Z.to_nat maxAttempts) (Z.to_nat maxAttempts) 1).
Definition runTransferWithReconnect (g : globalOptions) (s : script) : result attempts_error (option go_error * list retry_event) :=
  runTransferWithReconnectGate g (MkScript (s_dial s) (s_attempt s) None (s_canceled s)).

(** ** The pairing window *)

Definition defaultPairTimeout : Z := 300 * 1000 * ms.
Definition normalizedPairTimeout (g : globalOptions) : Z := if OPairTimeout g <=? 0 then defaultPairTimeout else OPairTimeout g.
Definition validatePairTimeout (timeout : Z) : bool := negb (timeout <=? 0).
Record pairingWindow := MkWindow { w_timeout : Z; w_deadline : Z }.
Definition newPairingWindow (g : globalOptions) (now : Z) : pairingWindow := MkWindow (normalizedPairTimeout g) (now + normalizedPairTimeout g).
(** The deadline of the n-th dial, from 1. *)
Definition dial_deadline (w : pairingWindow) (n : nat) (now : Z) : Z := if Nat.eqb n 1 then w_deadline w else now + w_timeout w.

(** [withPairingDeadline]: [before], [after]: the parent's error before and after
    the operation, [expired]: whether its own deadline ended it. *)
Definition pairTimeoutError (text : string) : go_error := MkGoError [PairTimeout] None ("pairing timed out after " +:+ text +:+ " waiting for peer").
Definition withPairingDeadline {A} (before after : option go_error) (expired : bool) (deadline now : Z) (timeout_text : string)
    (operation : result go_error A) : result go_error A :=
  match before with
  | Some e => Err e
  | None =>
      match operation with
      | Ok a => Ok a
      | Err e =>
          match after with
          | Some parent => Err parent
          | None => if expired || negb (now <? deadline) then Err (pairTimeoutError timeout_text) else Err e
          end
      end
  end.
End retry.

(** ** What the loop does *)

Section exact.
Context `{CaseTables}.

(** The events of the attempts [n], [n+1], …, [n+k-1], with a wait between two. *)
Fixpoint events_from (s : script) (n k : nat) : list retry_event :=
  match k with
  | O => []
  | S k' => (attempt_outcome s n).2 ++ match k' with O => [] | _ => Waited :: events_from s (S n) k' end
  end.

(** An attempt after which another follows. *)
Definition tried_again (s : script) (max n : nat) : Prop :=
  ∃ e, (attempt_outcome s n).1 = Some e ∧ isRetryableTransferError e = true ∧ (n < max)%nat ∧
    (∀ gate, s_gate s = Some gate → gate n = true) ∧ s_canceled s n = None.

(** The result when attempt [n] is the last one. *)
Definition last_result (s : script) (max n : nat) (r : option go_error) : Prop :=
  match (attempt_outcome s n).1 with
  | None => r = None
  | Some e =>
      (r = Some e ∧ (n = max ∨ isRetryableTransferError e = false ∨ ∃ gate, s_gate s = Some gate ∧ gate n = false)) ∨
      (isRetryableTransferError e = true ∧ (n < max)%nat ∧ r = s_canceled s n ∧ r ≠ None)
  end.

Lemma gives_up_spec s max n e :
  (n ≤ max)%nat → if gives_up s max n e
  then n = max ∨ isRetryableTransferError e = false ∨ ∃ gate, s_gate s = Some gate ∧ gate n = false
  else isRetryableTransferError e = true ∧ (n < max)%nat ∧ ∀ gate, s_gate s = Some gate → gate n = true.
Proof.
  intros Hn. unfold gives_up. destruct (Nat.leb_spec max n) as [Hle|Hlt]; cbn [orb]; [left; lia|].
  destruct (isRetryableTransferError e); cbn [negb orb]; [|by right; left].
  destruct (s_gate s) as [gate|]; cbn.
  - destruct (gate n) eqn:Eg; cbn; [|right; right; by exists gate]. split; [done|]. split; [done|]. by intros ? [= <-].
  - done.
Qed.

Lemma retry_loop_spec s max tries n :
  (1 ≤ tries)%nat → (n + tries = S max)%nat →
  ∃ k, (1 ≤ k ≤ tries)%nat ∧ (∀ j, (n ≤ j < n + k - 1)%nat → tried_again s max j) ∧
    last_result s max (n + k - 1) (retry_loop s max tries n).1 ∧ (retry_loop s max tries n).2 = events_from s n k.
Proof.
  revert n. induction tries as [|tries IH]; intros n Ht Hn; [lia|]. cbn [retry_loop].
  destruct (attempt_outcome s n) as [outcome events] eqn:Eo.
  assert (Hone : ∀ r, last_result s max n r → ∃ k, (1 ≤ k ≤ S tries)%nat ∧ (∀ j, (n ≤ j < n + k - 1)%nat → tried_again s max j) ∧
    last_result s max (n + k - 1) r ∧ events = events_from s n k).
  { intros r Hr. exists 1%nat. split; [lia|]. split; [intros j Hj; lia|]. replace (n + 1 - 1)%nat with n by lia. split; [done|]. cbn. by rewrite Eo, app_nil_r. }
  destruct outcome as [e|]; [|apply Hone; unfold last_result; by rewrite Eo].
  pose proof (gives_up_spec s max n e ltac:(lia)) as Hg. destruct (gives_up s max n e).
  { apply Hone. unfold last_result. rewrite Eo. by left. }
  destruct Hg as (Hr & Hlt & Hgate). destruct (s_canceled s n) as [ended|] eqn:Ec.
  { apply Hone. unfold last_result. rewrite Eo, Ec. by right. }
  destruct (IH (S n)) as (k & Hk & Hall & Hlast & Hev); [lia|lia|]. destruct (retry_loop s max tries (S n)) as [r events'].
  cbn [fst snd] in *. exists (S k). split; [lia|]. split.
  - intros j Hj. destruct (decide (j = n)) as [->|Hne]; [|apply Hall; lia]. exists e. rewrite Eo. done.
  - replace (n + S k - 1)%nat with (S n + k - 1)%nat by lia. split; [done|]. cbn [events_from]. rewrite Eo, Hev. destruct k; [lia|]. done.
Qed.

(** Every connection dialled by the attempts was closed, before anything else. *)
Definition closed_at_once (events : list retry_event) : Prop :=
  ∃ cs : list (option conn_id), events = cs ≫= fun c => match c with Some c => [Dialled c; ClosedConn c] | None => [Waited] end.
Lemma events_from_closed s n k : closed_at_once (events_from s n k).
Proof.
  revert n. induction k as [|k IH]; intros n; [by exists []|]. cbn [events_from]. unfold attempt_outcome.
  destruct (IH (S n)) as [cs Hcs]. destruct k as [|k'].
  - destruct (s_dial s n) as [c|e]; [by exists [Some c]|by exists []].
  - rewrite Hcs. destruct (s_dial s n) as [c|e]; [by exists (Some c :: None :: cs)|by exists (None :: cs)].
Qed.

(** C38: reconnecting is bounded and exact.  With a valid configuration of at most
    [m] attempts the call ends after some number [k] of attempts, between one and
    [m]: each of the first [k-1] failed with an error that looks like a lost
    connection, with the gate open and the context alive; the result is that of
    the [k]-th attempt, which succeeded, or was the [m]-th, or failed otherwise or
    against a closed gate; or it is the error of the context, which ended during
    the wait.  Each connection it dialled it closed before it did anything else. *)
Theorem retry_exact g s m :
  totalReconnectAttempts g (if s_gate s then true else false) = Ok m →
  ∃ k r, 1 ≤ Z.of_nat k ≤ m ∧
    runTransferWithReconnectGate g s = Ok (r, events_from s 1 k) ∧
    (∀ j, (1 ≤ j < k)%nat → tried_again s (Z.to_nat m) j) ∧
    last_result s (Z.to_nat m) k r ∧ closed_at_once (events_from s 1 k).
Proof.
  intros Hm. unfold runTransferWithReconnectGate. rewrite Hm. cbn [mbind result_bind].
  assert (Hpos : 1 ≤ m).
  { revert Hm. unfold totalReconnectAttempts. destruct (ONoReconnect g || _); [intros [= <-]; lia|].
    destruct (Z.ltb_spec (OReconnectAttempts g) 1); [done|]. destruct (OReconnectDelay g <? 0); [done|]. intros [= <-]. lia. }
  destruct (retry_loop_spec s (Z.to_nat m) (Z.to_nat m) 1 ltac:(lia) ltac:(lia)) as (k & Hk & Hall & Hlast & Hev).
  destruct (retry_loop s (Z.to_nat m) (Z.to_nat m) 1) as [r events]. cbn [fst snd] in *. subst events.
  exists k, r. split; [lia|]. split; [done|]. split; [intros j Hj; apply Hall; lia|]. split; [by replace (1 + k - 1)%nat with k in Hlast by lia|]. apply events_from_closed.
Qed.
End exact.

Definition demo_broken : go_error := MkGoError [EPIPE] None "write: broken pipe".
Definition demo_script : script :=
  MkScript (fun n => if Nat.eqb n 1 then Err demo_broken else Ok n) (fun n _ => if Nat.eqb n 2 then Some demo_broken else None) None (fun _ => None).

Lemma retry_exact_witness :
  ∃ k r, 1 ≤ Z.of_nat k ≤ 3 ∧ @runTransferWithReconnectGate ascii_tables (demo_options "r:1" false false) demo_script = Ok (r, events_from demo_script 1 k).
Proof.
  destruct (@retry_exact ascii_tables (demo_options "r:1" false false) demo_script 3) as (k & r & Hk & Hrun & _).
  - vm_compute. reflexivity.
  - exists k, r. split; [exact Hk|exact Hrun].
Defined.
