(* ===== verification/NativeTask.v ===== *)
(** * Tasks and their output ([internal/app/native_task.go])

    The state of the one task a local client runs at a time, and the writer that
    cuts the output of a task into lines.  The theorems: the lines do not depend
    on how the output was cut into writes, and what the interface shows of a task
    is that task's alone, whatever late events of earlier ones still arrive. *)
From Stdlib Require Import ZArith Lia Ascii String.
From stdpp Require Import base tactics numbers list gmap strings.
From S2P Require Import Prelude GoStrings RoutePlan Retry.

Definition nativeTaskMaxLogLines : nat := 240.

Inductive event_kind := EventLine | EventCode | EventLink.
Record nativeTaskEvent := MkEvent { NKind : event_kind; NText : string; NValue : string }.

(** [clientTaskOutput.line], [code] and [link] *)
Definition line_event (text : string) : nativeTaskEvent := MkEvent EventLine text "".
Definition code_event (code : string) : nativeTaskEvent := MkEvent EventCode ("Code: " +:+ code) code.
Definition link_event (link : string) : nativeTaskEvent := MkEvent EventLink ("Link: " +:+ link) link.

(** ** The line writer *)

Definition newline : ascii := byte_of 10.
Definition carriage_return : string := of_bytes [byte_of 13].

(** [strings.IndexByte]: the bytes before the first newline and those after it. *)
Fixpoint cut_line (pending : bytes) : option (bytes * bytes) :=
  match pending with
  | [] => None
  | b :: rest => if Ascii.eqb b newline then Some ([], rest) else '(line, rest) ← cut_line rest; Some (b :: line, rest)
  end.

Definition emitLine (line : string) : list nativeTaskEvent :=
  if String.eqb (TrimSpace line) "" then [] else [line_event line].

(** The loop of [Write]; a round takes at least the newline away, so the length of
    the pending bytes is enough fuel. *)
Fixpoint write_loop (fuel : nat) (pending : bytes) : list nativeTaskEvent * bytes :=
  match fuel with
  | O => ([], pending)
  | S fuel =>
      match cut_line pending with
      | None => ([], pending)
      | Some (line, rest) =>
          let '(events, rest) := write_loop fuel rest in (emitLine (trim_suffix (of_bytes line) carriage_return) ++ events, rest)
      end
  end.
Definition Write (pending data : bytes) : list nativeTaskEvent * bytes := write_loop (S (length (pending ++ data))) (pending ++ data).
Definition Flush (pending : bytes) : list nativeTaskEvent := match pending with [] => [] | _ => emitLine (of_bytes pending) end.

(** A task that writes its output in chunks and then ends. *)
Fixpoint write_all (pending : bytes) (chunks : list bytes) : list nativeTaskEvent :=
  match chunks with
  | [] => Flush pending
  | chunk :: chunks => let '(events, pending) := Write pending chunk in events ++ write_all pending chunks
  end.

(** ** The task store *)

Record nativeTaskSnapshot := MkSnapshot {
  TID : Z;
  TKind : string;
  TRunning : bool;
  TCanceled : bool;
  TFailed : bool;
  TStartedAt : Z;
  TFinishedAt : Z;
  TCode : string;
  TLink : string;
  TError : string;
  TLogs : list string;
}.
(** [t_cancel]: the task whose context [Cancel] would end. *)
Record nativeTaskStore := MkTaskStore { t_state : nativeTaskSnapshot; t_cancel : option Z; t_sequence : Z }.
Definition newTaskStore : nativeTaskStore := MkTaskStore (MkSnapshot 0 "" false false false 0 0 "" "" "" []) None 0.

Inductive task_error := AnotherRunning.

(** [Start]: the state and the id of the new task, whose goroutine runs then. *)
Definition Start (s : nativeTaskStore) (kind : string) (now : Z) : result task_error Z * nativeTaskStore :=
  if TRunning (t_state s) then (Err AnotherRunning, s)
  else
    let id := wrapu64 (t_sequence s + 1) in
    (Ok id, MkTaskStore (MkSnapshot id kind true false false now 0 "" "" "" []) (Some id) id).

Definition last_lines (logs : list string) : list string :=
  if Nat.ltb nativeTaskMaxLogLines (length logs) then drop (length logs - nativeTaskMaxLogLines) logs else logs.

Definition appendEvent (s : nativeTaskStore) (id : Z) (event : nativeTaskEvent) : nativeTaskStore :=
  let line := TrimSpace (NText event) in
  if String.eqb line "" && String.eqb (NValue event) "" then s
  else
    let t := t_state s in
    if negb (TID t =? id) then s
    else
      let logs := if String.eqb line "" then TLogs t else last_lines (TLogs t ++ [line]) in
      let code := match NKind event with EventCode => NValue event | _ => TCode t end in
      let link := match NKind event with EventLink => NValue event | _ => TLink t end in
      MkTaskStore (MkSnapshot (TID t) (TKind t) (TRunning t) (TCanceled t) (TFailed t) (TStartedAt t) (TFinishedAt t) code link (TError t) logs)
        (t_cancel s) (t_sequence s).

Section errors.
Context `{CaseTables}.

(** [nativeTaskError]: the latest line that is an error, else the error itself. *)
Fixpoint last_error (lines_latest_first : list string) : option string :=
  match lines_latest_first with
  | [] => None
  | raw :: rest =>
      let line := TrimSpace raw in
      if has_prefix (ToLower line) "error:" then Some (TrimSpace (of_bytes (drop 6 (to_bytes line)))) else last_error rest
  end.
Definition nativeTaskError (e : go_error) (lines : list string) : string := default (FormatError e) (last_error (rev lines)).

Definition finish (s : nativeTaskStore) (id : Z) (outcome : option go_error) (now : Z) : nativeTaskStore :=
  let t := t_state s in
  if negb (TID t =? id) then s
  else
    let '(canceled, failed, text) :=
      match outcome with
      | None => (TCanceled t, TFailed t, TError t)
      | Some e => if Is e Canceled then (true, TFailed t, TError t) else (TCanceled t, true, nativeTaskError e (TLogs t))
      end in
    MkTaskStore (MkSnapshot (TID t) (TKind t) false canceled failed (TStartedAt t) now (TCode t) (TLink t) text (TLogs t)) None (t_sequence s).
(** [Cancel]: the task whose context ends, if any. *)
Definition Cancel (s : nativeTaskStore) : option Z := t_cancel s.
End errors.

(** ** The lines of an output *)

Lemma cut_line_Some p line rest : cut_line p = Some (line, rest) → p = line ++ newline :: rest ∧ newline ∉ line.
Proof.
  revert line rest. induction p as [|b p IH]; intros line rest; cbn [cut_line]; [done|]. destruct (Ascii.eqb_spec b newline) as [->|Hb].
  - intros [= <- <-]. split; [done|by intros ?%not_elem_of_nil].
  - destruct (cut_line p) as [[l r]|]; [|done]. cbn. intros [= <- <-]. destruct (IH l r eq_refl) as [-> Hn]. split; [done|]. by intros [?|?]%elem_of_cons; [congruence|].
Qed.
Lemma cut_line_None p : cut_line p = None → newline ∉ p.
Proof.
  induction p as [|b p IH]; cbn [cut_line]; [by intros _ ?%not_elem_of_nil|]. destruct (Ascii.eqb_spec b newline) as [->|Hb]; [done|].
  destruct (cut_line p) as [[]|]; [done|]. intros _ [?|Hin]%elem_of_cons; [congruence|by apply IH].
Qed.
Lemma cut_line_found line rest : newline ∉ line → cut_line (line ++ newline :: rest) = Some (line, rest).
Proof.
  induction line as [|b line IH]; intros Hn; cbn [app cut_line]; [done|]. destruct (Ascii.eqb_spec b newline) as [->|Hb]; [by destruct Hn; left|]. apply not_elem_of_cons in Hn as [_ Hn].
  rewrite IH by done. done.
Qed.

Definition run_writer (p : bytes) : list nativeTaskEvent * bytes := write_loop (S (length p)) p.
Lemma write_loop_fuel n m p : (length p < n)%nat → (length p < m)%nat → write_loop n p = write_loop m p.
Proof.
  revert m p. induction n as [|n IH]; intros [|m] p Hn Hm; [lia..|]. cbn [write_loop]. destruct (cut_line p) as [[line rest]|] eqn:E; [|done].
  apply cut_line_Some in E as [-> _]. rewrite length_app in Hn, Hm. cbn in Hn, Hm. rewrite (IH m rest) by lia. done.
Qed.
Lemma run_writer_eq p :
  run_writer p = match cut_line p with
                 | None => ([], p)
                 | Some (line, rest) => let '(events, rest) := run_writer rest in (emitLine (trim_suffix (of_bytes line) carriage_return) ++ events, rest)
                 end.
Proof.
  unfold run_writer. cbn [write_loop]. destruct (cut_line p) as [[line rest]|] eqn:E; [|done]. apply cut_line_Some in E as [-> _].
  rewrite (write_loop_fuel _ (S (length rest))); [done| |lia]. rewrite length_app. cbn. lia.
Qed.

Lemma run_writer_app p q e r : run_writer p = (e, r) → run_writer (p ++ q) = let '(e', r') := run_writer (r ++ q) in (e ++ e', r').
Proof.
  remember (length p) as n eqn:Hn. revert p e r Hn. induction (lt_wf n) as [n _ IH]. intros p e r ->. rewrite run_writer_eq.
  destruct (cut_line p) as [[line rest]|] eqn:E.
  - apply cut_line_Some in E as [-> Hline]. destruct (run_writer rest) as [e' r'] eqn:E'. intros [= <- <-].
    rewrite (run_writer_eq ((_ ++ _) ++ q)), <- app_assoc. cbn [app]. rewrite cut_line_found by done.
    rewrite (IH (length rest) ltac:(rewrite length_app; cbn; lia) rest e' r' eq_refl E'). destruct (run_writer (r' ++ q)). by rewrite app_assoc.
  - intros [= <- <-]. cbn [app]. by destruct (run_writer (p ++ q)).
Qed.

(** The events of a whole output: one for each line that is not blank, without the
    carriage return before a newline. *)
Fixpoint lines_from (parts : list string) : list nativeTaskEvent :=
  match parts with
  | [] => []
  | [last] => emitLine last
  | part :: parts => emitLine (trim_suffix part carriage_return) ++ lines_from parts
  end.
Definition output_events (text : bytes) : list nativeTaskEvent := lines_from (split_on newline (of_bytes text)).

Lemma split_on_none l : newline ∉ l → split_on newline (of_bytes l) = [of_bytes l].
Proof.
  induction l as [|b l IH]; intros Hn; [done|]. change (of_bytes (b :: l)) with (String b (of_bytes l)). cbn [split_on]. destruct (Ascii.eqb_spec b newline) as [->|]; [by destruct Hn; left|]. apply not_elem_of_cons in Hn as [_ Hn].
  rewrite IH by done. done.
Qed.
Lemma split_on_found line rest : newline ∉ line → split_on newline (of_bytes (line ++ newline :: rest)) = of_bytes line :: split_on newline (of_bytes rest).
Proof.
  induction line as [|b l IH]; intros Hn; cbn [app]; [done|].
  change (of_bytes (b :: ?x)) with (String b (of_bytes x)). cbn [split_on]. destruct (Ascii.eqb_spec b newline) as [->|]; [by destruct Hn; left|]. apply not_elem_of_cons in Hn as [_ Hn]. rewrite IH by done. done.
Qed.
Lemma run_writer_output p : (let '(events, rest) := run_writer p in events ++ Flush rest) = output_events p.
Proof.
  remember (length p) as n eqn:Hn. revert p Hn. induction (lt_wf n) as [n _ IH]. intros p ->. rewrite run_writer_eq.
  destruct (cut_line p) as [[line rest]|] eqn:E.
  - apply cut_line_Some in E as [-> Hline]. specialize (IH (length rest) ltac:(rewrite length_app; cbn; lia) rest eq_refl).
    destruct (run_writer rest) as [e r]. unfold output_events in *. rewrite split_on_found by done. rewrite <- app_assoc, IH.
    destruct (split_on_cons newline (of_bytes rest)) as (x & l & ->). done.
  - apply cut_line_None in E. unfold output_events. rewrite split_on_none by done. by destruct p.
Qed.

Lemma write_all_run pending chunks :
  cut_line pending = None → write_all pending chunks = let '(events, rest) := run_writer (pending ++ concat chunks) in events ++ Flush rest.
Proof.
  revert pending. induction chunks as [|c chunks IH]; intros pending Hp; cbn [write_all concat].
  - rewrite app_nil_r, run_writer_eq, Hp. done.
  - unfold Write. change (write_loop _ _) with (run_writer (pending ++ c)). destruct (run_writer (pending ++ c)) as [e r] eqn:E.
    rewrite (app_assoc pending), (run_writer_app _ _ _ _ E), IH; [by destruct (run_writer (r ++ concat chunks)); rewrite app_assoc|].
    clear -E. remember (length (pending ++ c)) as n eqn:Hn. revert Hn E. generalize (pending ++ c). intros p Hn E. revert p e Hn E.
    induction (lt_wf n) as [n _ IH]. intros p e -> E. rewrite run_writer_eq in E. destruct (cut_line p) as [[line rest]|] eqn:Ec; [|by injection E as <- <-].
    apply cut_line_Some in Ec as [-> _]. destruct (run_writer rest) as [e' r'] eqn:E'. injection E as <- <-.
    eapply IH; [|done|exact E']. rewrite length_app. cbn. lia.
Qed.

(** C39: the output of a task is cut into lines exactly.  However a task cuts its
    output into writes, in the middle of lines or with many lines in one, the
    interface gets one event for every line that is not blank, in their order and
    without the carriage return that may end a line, and for what follows the last
    newline when the task ends. *)
Theorem line_writer_exact chunks : write_all [] chunks = output_events (concat chunks).
Proof. rewrite write_all_run by done. apply run_writer_output. Qed.

(** ** Tasks kept apart *)

Section tasks.
Context `{CaseTables}.

(** What the interface and the goroutines of the tasks do, in the order in which
    they get the lock. *)
Inductive task_action :=
  | DoStart (kind : string) (now : Z)
  | DoEvent (id : Z) (event : nativeTaskEvent)
  | DoFinish (id : Z) (outcome : option go_error) (now : Z).
Definition act (s : nativeTaskStore) (a : task_action) : nativeTaskStore :=
  match a with
  | DoStart kind now => snd (Start s kind now)
  | DoEvent id event => appendEvent s id event
  | DoFinish id outcome now => finish s id outcome now
  end.
Definition after (h : list task_action) : nativeTaskStore := foldl act newTaskStore h.
(** Only a task that was started acts. *)
Definition started (s : nativeTaskStore) (a : task_action) : Prop :=
  match a with DoStart _ _ => True | DoEvent id _ | DoFinish id _ _ => 1 ≤ id ≤ t_sequence s end.
Definition real (h : list task_action) : Prop := ∀ n a, h !! n = Some a → started (after (take n h)) a.

(** What a task itself said and how it ended. *)
Definition visible (e : nativeTaskEvent) : bool := negb (String.eqb (TrimSpace (NText e)) "" && String.eqb (NValue e) "").
Definition events_of (id : Z) (h : list task_action) : list nativeTaskEvent :=
  omap (fun a => match a with DoEvent i e => if i =? id then Some e else None | _ => None end) h.
Definition finishes_of (id : Z) (h : list task_action) : list (option go_error) :=
  omap (fun a => match a with DoFinish i o _ => if i =? id then Some o else None | _ => None end) h.
Definition said (evs : list nativeTaskEvent) : list string := filter (fun l => l ≠ ""%string) (TrimSpace ∘ NText <$> evs).
Definition latest (kind : event_kind → bool) (evs : list nativeTaskEvent) : string :=
  default ""%string (last (omap (fun e => if kind (NKind e) && visible e then Some (NValue e) else None) evs)).
Definition is_code (k : event_kind) : bool := match k with EventCode => true | _ => false end.
Definition is_link (k : event_kind) : bool := match k with EventLink => true | _ => false end.

(** The latest [nativeTaskMaxLogLines] lines. *)
Definition kept (lines : list string) : list string := drop (length lines - nativeTaskMaxLogLines) lines.

Record store_ok (h : list task_action) (s : nativeTaskStore) : Prop := {
  so_id : TID (t_state s) = t_sequence s;
  so_bound : 0 ≤ t_sequence s ≤ Z.of_nat (length h);
  so_future : ∀ id, t_sequence s < id → events_of id h = [] ∧ finishes_of id h = [];
  so_running : TRunning (t_state s) = bool_decide (0 < t_sequence s ∧ finishes_of (t_sequence s) h = []);
  so_cancel : t_cancel s = if TRunning (t_state s) then Some (t_sequence s) else None;
  so_logs : TLogs (t_state s) = kept (said (events_of (t_sequence s) h));
  so_code : TCode (t_state s) = latest is_code (events_of (t_sequence s) h);
  so_link : TLink (t_state s) = latest is_link (events_of (t_sequence s) h);
  so_canceled : TCanceled (t_state s) = existsb (fun o => match o with Some e => Is e Canceled | None => false end) (finishes_of (t_sequence s) h);
  so_failed : TFailed (t_state s) = existsb (fun o => match o with Some e => negb (Is e Canceled) | None => false end) (finishes_of (t_sequence s) h);
}.

Lemma keep_snoc lines l : last_lines (kept lines ++ [l]) = kept (lines ++ [l]).
Proof.
  unfold last_lines, kept. generalize nativeTaskMaxLogLines. intros m. rewrite !length_app, length_drop. cbn [length].
  destruct (Nat.ltb_spec m (length lines - (length lines - m) + 1)) as [Hlt|Hge].
  - rewrite <- (drop_app_le lines [l] (length lines - m)) by lia. rewrite drop_drop. f_equal. lia.
  - rewrite <- (drop_app_le lines [l] (length lines - m)) by lia. f_equal. lia.
Qed.

Lemma events_of_app id h h' : events_of id (h ++ h') = events_of id h ++ events_of id h'.
Proof. apply omap_app. Qed.
Lemma finishes_of_app id h h' : finishes_of id (h ++ h') = finishes_of id h ++ finishes_of id h'.
Proof. apply omap_app. Qed.
Lemma said_app l l' : said (l ++ l') = said l ++ said l'.
Proof. unfold said. by rewrite fmap_app, filter_app. Qed.
Lemma latest_snoc kind l e : latest kind (l ++ [e]) = if kind (NKind e) && visible e then NValue e else latest kind l.
Proof.
  unfold latest. rewrite omap_app. cbn [omap list_omap]. destruct (kind (NKind e) && visible e); [by rewrite last_snoc|by rewrite app_nil_r].
Qed.

(** An action of a task that is not the current one changes nothing and is not
    among what the current one did. *)
Lemma store_ok_other h s a :
  store_ok h s → started s a →
  match a with DoStart _ _ => TRunning (t_state s) = true | DoEvent id _ | DoFinish id _ _ => id ≠ t_sequence s end → store_ok (h ++ [a]) s.
Proof.
  intros [] Ha Hother. assert (He : events_of (t_sequence s) (h ++ [a]) = events_of (t_sequence s) h).
  { rewrite events_of_app. destruct a; cbn; rewrite ?app_nil_r; try done. destruct (Z.eqb_spec id (t_sequence s)); [done|by rewrite app_nil_r]. }
  assert (Hf : finishes_of (t_sequence s) (h ++ [a]) = finishes_of (t_sequence s) h).
  { rewrite finishes_of_app. destruct a; cbn; rewrite ?app_nil_r; try done. destruct (Z.eqb_spec id (t_sequence s)); [done|by rewrite app_nil_r]. }
  split; rewrite ?He, ?Hf; try done.
  - rewrite length_app. cbn. lia.
  - intros id Hid. rewrite events_of_app, finishes_of_app. destruct (so_future0 id Hid) as [-> ->].
    destruct a as [|i e|i o t]; cbn; [done| |]; cbn in Ha; destruct (Z.eqb_spec i id); [lia|done|lia|done].
Qed.

Lemma act_ok h s a : store_ok h s → started s a → Z.of_nat (length h) < uint64_max → store_ok (h ++ [a]) (act s a).
Proof.
  intros Hok Ha Hlen. pose proof Hok as []. destruct a as [kind now|id e|id o now]; cbn [act].
  - unfold Start. destruct (TRunning (t_state s)) eqn:Er; [by apply store_ok_other|]. cbn [snd].
    assert (Hw : wrapu64 (t_sequence s + 1) = t_sequence s + 1) by (unfold wrapu64; apply Z.mod_small; unfold uint64_max in Hlen; lia). rewrite Hw.
    destruct (so_future0 (t_sequence s + 1) ltac:(lia)) as [He Hf].
    assert (He' : events_of (t_sequence s + 1) (h ++ [DoStart kind now]) = []) by by rewrite events_of_app, He.
    assert (Hf' : finishes_of (t_sequence s + 1) (h ++ [DoStart kind now]) = []) by by rewrite finishes_of_app, Hf.
    split; cbn [t_state t_sequence t_cancel TID TRunning TCanceled TFailed TLogs TCode TLink]; rewrite ?He', ?Hf'; try done.
    + rewrite length_app. cbn. lia.
    + intros id Hid. rewrite events_of_app, finishes_of_app. destruct (so_future0 id ltac:(lia)) as [-> ->]. done.
    + symmetry. apply bool_decide_eq_true_2. split; [lia|done].
  - destruct (decide (id = t_sequence s)) as [->|Hne].
    2:{ unfold appendEvent. destruct (_ && _); [by apply store_ok_other|]. cbv zeta. rewrite so_id0. destruct (Z.eqb_spec (t_sequence s) id); [congruence|]. by apply store_ok_other. }
    assert (He : events_of (t_sequence s) (h ++ [DoEvent (t_sequence s) e]) = events_of (t_sequence s) h ++ [e]) by (rewrite events_of_app; cbn; by rewrite Z.eqb_refl).
    assert (Hf : finishes_of (t_sequence s) (h ++ [DoEvent (t_sequence s) e]) = finishes_of (t_sequence s) h) by (rewrite finishes_of_app; cbn; by rewrite app_nil_r).
    assert (Hfut : ∀ i, t_sequence s < i → events_of i (h ++ [DoEvent (t_sequence s) e]) = [] ∧ finishes_of i (h ++ [DoEvent (t_sequence s) e]) = []).
    { intros i Hi. rewrite events_of_app, finishes_of_app. destruct (so_future0 i Hi) as [-> ->]. cbn. destruct (Z.eqb_spec (t_sequence s) i); [lia|done]. }
    assert (Hlen' : 0 ≤ t_sequence s ≤ Z.of_nat (length (h ++ [DoEvent (t_sequence s) e]))) by (rewrite length_app; cbn; lia).
    assert (Hsaid : said [e] = if String.eqb (TrimSpace (NText e)) "" then [] else [TrimSpace (NText e)]).
    { unfold said. change ((TrimSpace ∘ NText) <$> [e]) with [TrimSpace (NText e)]. destruct (String.eqb_spec (TrimSpace (NText e)) "") as [E|E]; [by rewrite filter_cons_False by tauto|by rewrite filter_cons_True]. }
    unfold appendEvent. destruct (String.eqb (TrimSpace (NText e)) "" && String.eqb (NValue e) "") eqn:Evis.
    + assert (Hv : visible e = false) by (unfold visible; by rewrite Evis).
      split; rewrite ?He, ?Hf; try done; rewrite ?latest_snoc, ?Hv, ?andb_false_r; try done.
      apply andb_true_iff in Evis as [Et _]. rewrite said_app, Hsaid, Et, app_nil_r. done.
    + assert (Hv : visible e = true) by (unfold visible; by rewrite Evis). cbv zeta. rewrite so_id0, Z.eqb_refl. cbn [negb].
      split; cbn [t_state t_sequence t_cancel TID TRunning TCanceled TFailed TLogs TCode TLink]; rewrite ?He, ?Hf; try done.
      * rewrite said_app, Hsaid. destruct (String.eqb (TrimSpace (NText e)) ""); [by rewrite app_nil_r|]. rewrite so_logs0. apply keep_snoc.
      * rewrite latest_snoc, Hv, andb_true_r. by destruct (NKind e).
      * rewrite latest_snoc, Hv, andb_true_r. by destruct (NKind e).
  - destruct (decide (id = t_sequence s)) as [->|Hne].
    2:{ unfold finish. cbv zeta. rewrite so_id0. destruct (Z.eqb_spec (t_sequence s) id); [congruence|]. by apply store_ok_other. }
    assert (He : events_of (t_sequence s) (h ++ [DoFinish (t_sequence s) o now]) = events_of (t_sequence s) h) by (rewrite events_of_app; cbn; by rewrite app_nil_r).
    assert (Hf : finishes_of (t_sequence s) (h ++ [DoFinish (t_sequence s) o now]) = finishes_of (t_sequence s) h ++ [o]) by (rewrite finishes_of_app; cbn; by rewrite Z.eqb_refl).
    unfold finish. cbv zeta. rewrite so_id0, Z.eqb_refl. cbn [negb].
    assert (Hfut : ∀ i, t_sequence s < i → events_of i (h ++ [DoFinish (t_sequence s) o now]) = [] ∧ finishes_of i (h ++ [DoFinish (t_sequence s) o now]) = []).
    { intros i Hi. rewrite events_of_app, finishes_of_app. destruct (so_future0 i Hi) as [-> ->]. cbn. destruct (Z.eqb_spec (t_sequence s) i); [lia|done]. }
    assert (Hlen' : 0 ≤ t_sequence s ≤ Z.of_nat (length (h ++ [DoFinish (t_sequence s) o now]))) by (rewrite length_app; cbn; lia).
    destruct o as [e|]; [destruct (Is e Canceled) eqn:Ec|];
      (split; cbn [t_state t_sequence t_cancel TID TRunning TCanceled TFailed TLogs TCode TLink]; rewrite ?He, ?Hf, ?existsb_app; cbn [existsb]; rewrite ?Ec, ?orb_false_r, ?orb_true_r; try done;
       symmetry; apply bool_decide_eq_false_2; intros [_ Hnil]; by apply app_nil in Hnil as [_ ?]).
Qed.

(** Tasks are kept apart.  Whatever the interface starts and whatever the
    goroutines of started tasks report, in any order and also after their end or
    after the next task began: at most one task runs; the one shown is the latest
    that was started, running until it reports its end, and can then no longer be
    cancelled; its lines are the latest 240 it said, its code and its link the
    latest it announced, and it counts as cancelled or failed by its own result
    alone. *)
Theorem tasks_apart h : real h → Z.of_nat (length h) ≤ uint64_max → store_ok h (after h).
Proof.
  induction h as [|a h IH] using rev_ind; intros Hreal Hlen.
  - split; cbn; try done; lia.
  - unfold after. rewrite foldl_app. cbn [foldl]. rewrite length_app in Hlen. cbn in Hlen. apply act_ok; [apply IH| |lia].
    + intros n x Hx. rewrite <- (take_app_le h [a]) by (apply lookup_lt_Some in Hx; lia). apply Hreal. by apply lookup_app_l_Some.
    + lia.
    + specialize (Hreal (length h) a). rewrite take_app_length in Hreal. apply Hreal. apply list_lookup_middle. done.
Qed.

End tasks.

Definition demo_history : list task_action :=
  [DoStart "send" 1; DoEvent 1 (code_event "one"); DoFinish 1 None 5; DoStart "recv" 6; DoEvent 1 (line_event "late"); DoEvent 2 (line_event " hello ")].
Lemma tasks_apart_witness : store_ok demo_history (@after ascii_tables demo_history) ∧ TLogs (t_state (@after ascii_tables demo_history)) = ["hello"%string].
Proof.
  split; [|vm_compute; reflexivity]. apply tasks_apart; [|vm_compute; discriminate].
  intros n a Ha. do 6 (destruct n as [|n]; [injection Ha as <-; vm_compute; first [exact I|split; discriminate]|]). discriminate Ha.
Defined.
