(* ===== verification/Doctor.v ===== *)
(** * The route doctor ([internal/app/app.go], [applyRouteHistory] of [route_history.go])

    Which routes a client could take, how they are scored, which one is preferred
    for each pair of clients, and what the user is told.  The theorem
    [doctor_ranks]: scores stay between 1 and 100 for usable routes, and each pair
    of clients has exactly one preferred route, with none better. *)
From Stdlib Require Import ZArith Lia Ascii String.
From stdpp Require Import base tactics numbers list gmap strings.
From Stdlib Require Import SpecFloat.
From S2P Require Import Prelude GoStrings Float64 RelayServer RouteHistory RoutePlan.

(** ** Numbers as the report shows them *)

(** [n / 2^k] to the nearest integer, ties to even. *)
Definition round_half_even (n k : Z) : Z :=
  let q := Z.shiftr n k in
  let r := n - Z.shiftl q k in
  let half := Z.shiftl 1 (k - 1) in
  if (r >? half) || ((r =? half) && Z.odd q) then q + 1 else q.
(** [%.df] of [fmt]: the exact value, correctly rounded. *)
Definition format_fixed (d : nat) (x : float64) : string :=
  let scaled m e := if 0 <=? e then Zpos m * 10 ^ Z.of_nat d * 2 ^ e else round_half_even (Zpos m * 10 ^ Z.of_nat d) (- e) in
  let digits n :=
    let whole := n / 10 ^ Z.of_nat d in
    let part := Itoa (n mod 10 ^ Z.of_nat d) in
    Itoa whole +:+ (if Nat.eqb d 0 then "" else "." +:+ of_bytes (replicate (d - String.length part) "0"%char) +:+ part) in
  match x with
  | S754_nan => "NaN"
  | S754_infinity s => if s then "-Inf" else "+Inf"
  | S754_zero s => (if s then "-" else "") +:+ digits 0
  | S754_finite s m e => (if s then "-" else "") +:+ digits (scaled m e)
  end.
(** [int(math.Round(x))]: halves away from zero; a value that does not fit becomes
    the least integer, as on amd64. *)
Definition round_int (x : float64) : Z :=
  match x with
  | S754_finite s m e =>
      let n := if 0 <=? e then Zpos m * 2 ^ e else Z.shiftr (Zpos m + Z.shiftl 1 (- e - 1)) (- e) in
      let n := if s then - n else n in
      if (int64_min <=? n) && (n <=? int64_max) then n else int64_min
  | S754_zero _ => 0
  | _ => int64_min
  end.

(** [mebibyteLimit] *)
Inductive limit_error := LimitNotPositive | LimitTooLarge.
Definition mebibyteLimit (value : Z) : result limit_error Z :=
  if value =? -1 then Ok (-1)
  else if value <=? 0 then Err LimitNotPositive
  else if value >? Z.quot int64_max (2 ^ 20) then Err LimitTooLarge
  else Ok (wrap64 (value * 2 ^ 20)).

(** ** Reports *)

Record iceServer := MkICEServer { URLs : list string; IUsername : string; ICredential : string }.
Record iceSummary := MkICE { Total : Z; STUN : Z; TURN : Z; TURNWithAuth : Z; TURNWithoutAuth : Z }.
Record doctorSignalReport := MkSignal { SigOK : bool; SigLatency : Z; SigICE : iceSummary; SigCapabilities : list string; SigError : string }.
Record doctorRelayReport := MkRelay { RelConfigured : bool; RelOK : bool; RelAddr : string; RelLatency : Z; RelError : string }.
Record doctorLANReport := MkLAN { LanOK : bool; LanRelays : list string; LanError : string }.
Record doctorDirectReport := MkDirect { DirEnabled : bool; DirOK : bool; DirAdvertise : string; DirError : string }.
Record stunReport := MkSTUN { StunOK : bool; StunClass : string }.
Record routeProbeReport := MkProbe { ProbeKind : string; ProbeOK : bool; ProbeLatency : Z }.
Record routeCandidate := MkRoute {
  RoPair : string;
  RoKind : routeKind;
  RoName : string;
  RoScore : Z;
  RoAvailable : bool;
  RoPrimary : bool;
  RoFallback : string;
  RoRequires : list string;
  RoReasons : list string;
  RoWarnings : list string;
  RoHistory : option routeHistorySummary;
  RoProbe : option routeProbeReport;
}.

Definition reason (r : string) (c : routeCandidate) : routeCandidate :=
  MkRoute (RoPair c) (RoKind c) (RoName c) (RoScore c) (RoAvailable c) (RoPrimary c) (RoFallback c) (RoRequires c) (RoReasons c ++ [r]) (RoWarnings c) (RoHistory c) (RoProbe c).
Definition warning (w : string) (c : routeCandidate) : routeCandidate :=
  MkRoute (RoPair c) (RoKind c) (RoName c) (RoScore c) (RoAvailable c) (RoPrimary c) (RoFallback c) (RoRequires c) (RoReasons c) (RoWarnings c ++ [w]) (RoHistory c) (RoProbe c).
Definition score (f : Z → Z) (c : routeCandidate) : routeCandidate :=
  MkRoute (RoPair c) (RoKind c) (RoName c) (wrap64 (f (RoScore c))) (RoAvailable c) (RoPrimary c) (RoFallback c) (RoRequires c) (RoReasons c) (RoWarnings c) (RoHistory c) (RoProbe c).
Definition primary (p : bool) (c : routeCandidate) : routeCandidate :=
  MkRoute (RoPair c) (RoKind c) (RoName c) (RoScore c) (RoAvailable c) p (RoFallback c) (RoRequires c) (RoReasons c) (RoWarnings c) (RoHistory c) (RoProbe c).
Definition probe (p : routeProbeReport) (c : routeCandidate) : routeCandidate :=
  MkRoute (RoPair c) (RoKind c) (RoName c) (RoScore c) (RoAvailable c) (RoPrimary c) (RoFallback c) (RoRequires c) (RoReasons c) (RoWarnings c) (RoHistory c) (Some p).
Definition history (h : routeHistorySummary) (c : routeCandidate) : routeCandidate :=
  MkRoute (RoPair c) (RoKind c) (RoName c) (RoScore c) (RoAvailable c) (RoPrimary c) (RoFallback c) (RoRequires c) (RoReasons c) (RoWarnings c) (Some h) (RoProbe c).
(** [if cond { … }] on a candidate *)
Definition when (cond : bool) (f : routeCandidate → routeCandidate) (c : routeCandidate) : routeCandidate := if cond then f c else c.
Definition clampScore (c : routeCandidate) : routeCandidate := score (fun s => Z.max 1 (Z.min 100 s)) c.

(** ** Scores *)

Definition live_adjustment (latencyMillis : Z) : Z :=
  if latencyMillis <=? 50 then 4 else if latencyMillis <=? 150 then 2 else if latencyMillis >? 750 then -8 else if latencyMillis >? 300 then -4 else 0.
Definition applyLiveProbe (kind : string) (latencyMillis : Z) (c : routeCandidate) : routeCandidate :=
  if latencyMillis <=? 0 then c
  else clampScore (score (fun s => s + live_adjustment latencyMillis)
         (reason ("live " +:+ kind +:+ " probe " +:+ Itoa latencyMillis +:+ "ms") (probe (MkProbe kind true latencyMillis) c))).

Definition applyNativeNATHeuristic (report : stunReport) (c : routeCandidate) : routeCandidate :=
  if negb (RoAvailable c) || negb (StunOK report) then c
  else
    let class := StunClass report in
    let c :=
      if String.eqb class "open" then reason "STUN indicates an openly reachable UDP mapping" (score (fun s => s + 5) c)
      else if String.eqb class "cone" then reason "STUN mapping is stable across destinations" (score (fun s => s + 2) c)
      else if String.eqb class "symmetric" then
        warning "UDP mapping varies by destination; keep relay or WebRTC fallback available" (score (fun s => s - 12) c)
      else if String.eqb class "unknown" then reason "STUN mapping observed but a second destination is needed for NAT classification" c
      else c in
    when (negb (String.eqb class "unknown")) (reason "UDP NAT class is a heuristic and does not guarantee TCP reachability") (clampScore c).

Definition applyWebRTCNATHeuristic (report : stunReport) (ice : iceSummary) (c : routeCandidate) : routeCandidate :=
  if negb (RoAvailable c) || negb (StunOK report) then c
  else
    let class := StunClass report in
    clampScore
      (if String.eqb class "open" then reason "local UDP mapping appears openly reachable" (score (fun s => s + 3) c)
       else if String.eqb class "cone" then reason "local UDP mapping is stable across STUN destinations" (score (fun s => s + 2) c)
       else if String.eqb class "symmetric" then
         if TURN ice >? 0 then reason "destination-dependent UDP mapping is covered by TURN fallback" (score (fun s => s + 3) c)
         else warning "destination-dependent UDP mapping detected; WebRTC may fail without TURN" (score (fun s => s - 15) c)
       else c).

(** ** The candidates *)

Definition iceFallbackText (ice : iceSummary) : string :=
  if TURN ice >? 0 then "TURN fallback available" else if STUN ice >? 0 then "STUN only" else "no ICE servers advertised".

Definition blank_route (pair : string) (kind : routeKind) (name : string) (available : bool) (fallback : string) (requires : list string) : routeCandidate :=
  MkRoute pair kind name 0 available false fallback requires [] [] None None.

Definition signal_problem (signal : doctorSignalReport) (c : routeCandidate) : routeCandidate :=
  when (negb (SigOK signal)) (fun c => when (negb (String.eqb (SigError signal) "")) (reason (SigError signal)) (warning "signaling service is not reachable" c)) c.
Definition direct_problem (direct : doctorDirectReport) (c : routeCandidate) : routeCandidate :=
  when (DirEnabled direct && negb (DirOK direct)) (fun c => when (negb (String.eqb (DirError direct) "")) (reason (DirError direct)) (warning "direct listen is not available" c))
    (when (negb (DirEnabled direct)) (warning "direct TCP disabled") c).

Definition signalingDirectCandidate (signal : doctorSignalReport) (relay : doctorRelayReport) (direct : doctorDirectReport) (stun : stunReport) : routeCandidate :=
  let supportsDirect := hasCapability (SigCapabilities signal) "direct-rendezvous-v1" in
  let relayUsable := RelConfigured relay && RelOK relay in
  let c := blank_route "native-native" routeSignalDirect "direct TCP via signaling rendezvous"
    (SigOK signal && supportsDirect && DirEnabled direct && DirOK direct) (if relayUsable then "native TCP relay" else "WebRTC DataChannel")
    ["signaling direct rendezvous"; "direct listen socket"]%string in
  let c := signal_problem signal c in
  let c := when (SigOK signal && negb supportsDirect) (warning "signaling service does not advertise direct rendezvous") c in
  let c := direct_problem direct c in
  if negb (RoAvailable c) then c
  else
    let c := reason "rendezvous exchanges metadata only; payload stays peer-to-peer" (score (fun _ => 92) c) in
    let c := applyNativeNATHeuristic stun c in
    let c := reason (if relayUsable then "native relay fallback available" else "WebRTC fallback available") c in
    applyLiveProbe "signaling" (SigLatency signal) c.

Definition webrtcCandidate (pair : string) (signal : doctorSignalReport) (stun : stunReport) : routeCandidate :=
  let c := blank_route pair routeWebRTC "WebRTC DataChannel via signaling" (SigOK signal) (iceFallbackText (SigICE signal)) ["signaling service"%string] in
  if negb (SigOK signal) then signal_problem signal c
  else
    let ice := SigICE signal in
    let c := reason "browser-compatible route" (score (fun _ => 70) c) in
    let c := if TURN ice >? 0 then reason "TURN fallback advertised" (score (fun s => s + 15) c)
             else if STUN ice >? 0 then reason "STUN advertised" (score (fun s => s + 5) c)
             else warning "no ICE servers advertised" c in
    let c := when (String.eqb pair "web-web" || String.eqb pair "native-web")
               (fun c => reason "required whenever a browser participates" (score (fun s => s + 5) c)) c in
    let c := when (TURN ice =? 0) (warning "strict NAT networks may fail without TURN") c in
    applyLiveProbe "signaling" (SigLatency signal) (applyWebRTCNATHeuristic stun ice c).

Definition relayCandidate (relay : doctorRelayReport) (directDisabled : bool) : routeCandidate :=
  let c := blank_route "native-native" routeRelayOnly "native TCP relay" (RelConfigured relay && RelOK relay) "" ["native relay service"%string] in
  let c := when directDisabled (reason "direct TCP disabled") c in
  if negb (RelConfigured relay) then warning "relay is not configured" c
  else if negb (RelOK relay) then when (negb (String.eqb (RelError relay) "")) (reason (RelError relay)) (warning "relay is not reachable" c)
  else
    let c := applyLiveProbe "relay" (RelLatency relay) (score (fun _ => 72) c) in
    when directDisabled (score (fun s => s + 5)) (warning "relay carries transfer bandwidth" (reason "stable fallback for installed clients" c)).

Definition directRelayFallbackCandidate (relay : doctorRelayReport) (direct : doctorDirectReport) (stun : stunReport) : routeCandidate :=
  let c := blank_route "native-native" routeDirectRelayFallback "direct TCP via relay rendezvous"
    (RelConfigured relay && RelOK relay && DirEnabled direct && DirOK direct) "native TCP relay" ["native relay service"; "direct listen socket"]%string in
  let c := when (negb (RelConfigured relay)) (warning "relay is required for rendezvous but is not configured") c in
  let c := when (RelConfigured relay && negb (RelOK relay))
             (fun c => when (negb (String.eqb (RelError relay) "")) (reason (RelError relay)) (warning "relay rendezvous is not reachable" c)) c in
  let c := direct_problem direct c in
  if negb (RoAvailable c) then c
  else
    let c := applyLiveProbe "relay rendezvous" (RelLatency relay) (score (fun _ => 92) c) in
    let c := applyNativeNATHeuristic stun c in
    let c := reason "falls back to relay if direct connect fails" (reason "best native-native throughput when peers can connect directly" c) in
    when (negb (String.eqb (DirAdvertise direct) "")) (reason ("advertise " +:+ DirAdvertise direct)) c.

(** ** The preferred route of each pair *)

Definition betterRoute (a b : routeCandidate) : bool :=
  if negb (Bool.eqb (RoAvailable a) (RoAvailable b)) then RoAvailable a
  else if negb (RoScore a =? RoScore b) then RoScore a >? RoScore b
  else str_ltb (RoName a) (RoName b).

(** [bestByPair]: the index of the best route of each pair; the routes are visited
    in order. *)
Definition better_index (routes : list routeCandidate) (best : gmap string nat) (i : nat) : gmap string nat :=
  match routes !! i with
  | None => best
  | Some route =>
      match best !! RoPair route ≫= fun j => routes !! j with
      | Some current => if betterRoute route current then <[RoPair route := i]> best else best
      | None => <[RoPair route := i]> best
      end
  end.
Definition best_by_pair (routes : list routeCandidate) : gmap string nat := foldl (better_index routes) ∅ (seq 0 (length routes)).
Definition markPrimaryRoutes (routes : list routeCandidate) : list routeCandidate :=
  let best := (map_to_list (best_by_pair routes)).*2 in
  imap (fun i route => primary (existsb (Nat.eqb i) best) route) routes.

Definition planRouteCandidates (signal : doctorSignalReport) (relay : doctorRelayReport) (direct : doctorDirectReport) (stun : stunReport)
    (g : globalOptions) : list routeCandidate :=
  let directDisabled := nativeDirectDisabled g in
  markPrimaryRoutes
    ((if negb (OLocal g) && negb directDisabled then [signalingDirectCandidate signal relay direct stun] else [])
     ++ (if String.eqb (ORelay g) "" && negb (OLocal g) then [webrtcCandidate "native-native" signal stun]
         else (if negb directDisabled then [directRelayFallbackCandidate relay direct stun] else []) ++ [relayCandidate relay directDisabled])
     ++ [webrtcCandidate "native-web" signal stun; webrtcCandidate "web-web" signal (MkSTUN false "")]).

(** ** History *)

Definition routeCandidateHistoryKind (c : routeCandidate) : string :=
  match RoKind c with
  | routeSignalDirect | routeDirectRelayFallback => historyRouteDirect
  | routeRelayOnly => historyRouteRelay
  | routeWebRTC => historyRouteWebRTC
  end.

Definition history_adjustment (s : routeHistorySummary) : Z :=
  wrap64 (round_int (f64_mul (f64_sub (SSuccessRate s) (f64_const 1 2)) (f64_of_Z 20)) - Z.min (wrap64 (SConsecutiveFailures s * 3)) 12).
Definition history_reasons (s : routeHistorySummary) (c : routeCandidate) : routeCandidate :=
  let c := reason ("history: " +:+ Itoa (SSuccesses s) +:+ "/" +:+ Itoa (SAttempts s) +:+ " successful") (history s c) in
  let c := when (f64_lt f64_0 (SRate s))
    (reason ("history throughput " +:+ format_fixed 1 (f64_div (SRate s) (f64_of_Z (1024 * 1024))) +:+ " MB/s")) c in
  when (negb (Nat.eqb (length (SPaths s)) 0))
    (reason ("historical path weights " +:+ join_with " "%char
       ((fun p => "p" +:+ Itoa (SConnection p) +:+ "=" +:+ format_fixed 2 (SWeight p)) <$> SPaths s))) c.
Definition with_history (report : doctorHistoryReport) (c : routeCandidate) : routeCandidate :=
  match HReport report !! routeCandidateHistoryKind c with
  | None => c
  | Some s =>
      if SAttempts s =? 0 then c
      else
        let c := history_reasons s c in
        if negb (RoAvailable c) then c
        else when (SConsecutiveFailures s >? 0) (warning (Itoa (SConsecutiveFailures s) +:+ " consecutive historical failure(s)"))
               (clampScore (score (fun x => x + history_adjustment s) c))
  end.
Definition applyRouteHistory (routes : list routeCandidate) (report : doctorHistoryReport) : list routeCandidate :=
  if negb (HEnabled report) || bool_decide (HError report ≠ None) then routes else markPrimaryRoutes (with_history report <$> routes).

(** ** What the user is told *)

Definition primaryRoute (routes : list routeCandidate) (pair : string) : option routeCandidate :=
  snd <$> list_find (fun r : routeCandidate => String.eqb (RoPair r) pair && RoPrimary r = true) routes.

Record doctorMatrixEntry := MkMatrix { MPair : string; MPrimary : string; MFallback : string }.
Definition doctorMatrix (routes : list routeCandidate) : list doctorMatrixEntry :=
  (fun pair => match primaryRoute routes pair with
               | None => MkMatrix pair "unavailable" ""
               | Some route => MkMatrix pair (RoName route) (RoFallback route)
               end) <$> ["native-native"; "native-web"; "web-web"]%string.

Record doctorRouteResultHint := MkHint { HPath : string; HReason : string; HDirectAttempted : bool; HDataRelay : bool; HRendezvousRelay : bool }.
Record doctorAssessment := MkAssessment { Diagnosis : string; Recommendation : string; Actions : list string; RouteResult : doctorRouteResultHint }.

Section told.
Context `{CaseTables}.

Definition mentions (text sub : string) : bool := str_contains (ToLower text) sub.

Definition routeResultHint (route : option routeCandidate) (usable : bool) : doctorRouteResultHint :=
  match route with
  | Some r =>
      if negb usable then MkHint "none" "no_available_route" false false false
      else match RoKind r with
           | routeSignalDirect =>
               if mentions (RoFallback r) "relay" then MkHint "direct_or_relay" "direct_probe_then_relay_fallback" true false false
               else MkHint "direct_or_webrtc" "direct_probe_then_webrtc_fallback" true false false
           | routeDirectRelayFallback => MkHint "direct_or_relay" "direct_probe_then_relay_fallback" true false true
           | routeRelayOnly => MkHint "relay" "native_relay_selected" false true true
           | routeWebRTC => MkHint "webrtc" "webrtc_ice_selected" false false false
           end
  | None => MkHint "none" "no_available_route" false false false
  end.

Definition routeDependsOnSignaling (r : routeCandidate) : bool := match RoKind r with routeSignalDirect | routeWebRTC => true | _ => false end.
Definition routeUsesNativeRelay (r : routeCandidate) : bool :=
  (match RoKind r with routeRelayOnly | routeDirectRelayFallback => true | _ => false end) || mentions (RoFallback r) "native tcp relay".

Definition verify_signaling : string := "Verify the signaling /api/ice and /api/health endpoints and reverse-proxy WebSocket upgrade.".

(** [assessDoctorPair] *)
Definition assessDoctorPair (signal : doctorSignalReport) (relay : doctorRelayReport) (direct : doctorDirectReport) (stun : stunReport)
    (routes : list routeCandidate) (pair : string) : doctorAssessment :=
  let pair := if String.eqb pair "all" || String.eqb pair "" then "native-native"%string else pair in
  let found := primaryRoute routes pair in
  let hint usable := routeResultHint found usable in
  match (match found with Some route => if RoAvailable route then Some route else None | None => None end) with
  | None =>
      MkAssessment ("No usable " +:+ pair +:+ " transfer route was found.") (if SigOK signal then "fix_connectivity" else "fix_signaling")
        ((if SigOK signal then [] else [verify_signaling])
         ++ (if RelConfigured relay && negb (RelOK relay) then ["Make the configured native relay reachable or remove the unusable relay configuration."%string] else [])
         ++ (if DirEnabled direct && negb (DirOK direct) then ["Fix the direct TCP listen address or disable direct TCP explicitly."%string] else []))
        (hint false)
  | Some route =>
      let diagnosis := RoName route +:+ " is the preferred " +:+ pair +:+ " route (score " +:+ Itoa (RoScore route) +:+ ")." +:+
        (if negb (String.eqb (RoFallback route) "") && negb (String.eqb (RoFallback route) "none") then " Fallback: " +:+ RoFallback route +:+ "." else "") in
      let told recommendation actions := MkAssessment diagnosis recommendation actions (hint true) in
      if routeDependsOnSignaling route && negb (SigOK signal) then told "fix_signaling"%string [verify_signaling]
      else if routeUsesNativeRelay route && RelConfigured relay && negb (RelOK relay) then
        told "fix_relay"%string ["Make the configured native relay reachable before relying on it for rendezvous or payload fallback."%string]
      else if DirEnabled direct && negb (DirOK direct) && bool_decide (RoKind route = routeRelayOnly) then
        told "fix_direct_or_use_relay"%string ["Fix the direct TCP listen address to restore peer-to-peer transfer, or keep relay-only mode explicit."%string]
      else if bool_decide (RoKind route = routeWebRTC) && (TURN (SigICE signal) =? 0) then
        told "configure_turn"%string ["Configure authenticated TURN before relying on browser transfers across restrictive NAT."%string]
      else if StunOK stun && String.eqb (StunClass stun) "symmetric" && mentions (RoFallback route) "webrtc" && (TURN (SigICE signal) =? 0) then
        told "configure_turn"%string ["Destination-dependent NAT was detected; configure TURN so WebRTC fallback remains usable."%string]
      else
        told (match RoKind route with
              | routeSignalDirect => if mentions (RoFallback route) "relay" then "direct_preferred_with_relay_fallback" else "direct_preferred_with_webrtc_fallback"
              | routeDirectRelayFallback => "direct_preferred_with_relay_fallback"
              | routeRelayOnly => "relay_only"
              | routeWebRTC => "webrtc_with_turn_fallback"
              end)%string []
  end.

(** [summarizeICE] *)
Definition summarize_url (auth : bool) (s : iceSummary) (raw : string) : iceSummary :=
  let u := ToLower raw in
  if has_prefix u "stun:" || has_prefix u "stuns:" then MkICE (Total s + 1) (STUN s + 1) (TURN s) (TURNWithAuth s) (TURNWithoutAuth s)
  else if has_prefix u "turn:" || has_prefix u "turns:" then
    MkICE (Total s + 1) (STUN s) (TURN s + 1) (if auth then TURNWithAuth s + 1 else TURNWithAuth s) (if auth then TURNWithoutAuth s else TURNWithoutAuth s + 1)
  else MkICE (Total s + 1) (STUN s) (TURN s) (TURNWithAuth s) (TURNWithoutAuth s).
Definition summarizeICE (servers : list iceServer) : iceSummary :=
  foldl (fun s server => foldl (summarize_url (negb (String.eqb (IUsername server) "") && negb (String.eqb (ICredential server) ""))) s (URLs server))
    (MkICE 0 0 0 0 0) servers.

Definition validRoutePair (pair : string) : bool := containsString ["all"; "native-native"; "native-web"; "web-web"]%string pair.
Definition filterRouteCandidates (routes : list routeCandidate) (pair : string) : list routeCandidate := filter (fun r => RoPair r = pair) routes.
Definition filterRouteMatrix (matrix : list doctorMatrixEntry) (pair : string) : list doctorMatrixEntry := filter (fun m => MPair m = pair) matrix.

(** [buildDoctorReport], from what the inspections found *)
Record doctorReport := MkReport { ReOK : bool; ReRoute : routePlan; ReRoutes : list routeCandidate; ReMatrix : list doctorMatrixEntry; ReAssessment : doctorAssessment; ReErrors : list string }.
Definition route_relay (relay : doctorRelayReport) (lan : doctorLANReport) : doctorRelayReport :=
  if LanOK lan then MkRelay true true (default ""%string (head (LanRelays lan))) (RelLatency relay) "" else relay.
Definition buildDoctorReport (signal : doctorSignalReport) (stun : stunReport) (lan : doctorLANReport) (relay : doctorRelayReport)
    (direct : doctorDirectReport) (past : doctorHistoryReport) (g : globalOptions) : doctorReport :=
  let routes := applyRouteHistory (planRouteCandidates signal (route_relay relay lan) direct stun g) past in
  let errors :=
    (if negb (SigOK signal) && negb (String.eqb (SigError signal) "") then ["signaling: " +:+ SigError signal] else [])
    ++ (if RelConfigured relay && negb (RelOK relay) && negb (String.eqb (RelError relay) "") then ["relay: " +:+ RelError relay] else [])
    ++ (if OLocal g && negb (LanOK lan) then ["LAN: " +:+ (if String.eqb (LanError lan) "" then "no LAN relay discovered" else LanError lan)] else [])
    ++ (if DirEnabled direct && negb (DirOK direct) && negb (String.eqb (DirError direct) "") then ["direct: " +:+ DirError direct] else []) in
  MkReport (Nat.eqb (length errors) 0) (planNativeRoute g) routes (doctorMatrix routes)
    (assessDoctorPair signal relay direct stun routes "native-native") errors.
End told.

(** ** Scores stay in range *)

Definition score_ok (c : routeCandidate) : Prop := if RoAvailable c then 1 ≤ RoScore c ≤ 100 else RoScore c = 0.
(** What no step of the scoring changes. *)
Definition same_route (c c' : routeCandidate) : Prop :=
  RoPair c' = RoPair c ∧ RoKind c' = RoKind c ∧ RoName c' = RoName c ∧ RoAvailable c' = RoAvailable c.
Lemma same_trans a b c : same_route a b → same_route b c → same_route a c.
Proof. unfold same_route. intuition congruence. Qed.
Lemma when_same cond f c : (∀ x, same_route x (f x)) → same_route c (when cond f c).
Proof. intros Hf. destruct cond; [apply Hf|done]. Qed.
Lemma when_score cond f c : (∀ x, RoScore (f x) = RoScore x) → RoScore (when cond f c) = RoScore c.
Proof. intros Hf. destruct cond; [apply Hf|done]. Qed.

Lemma small_wrap s : -1000 ≤ s ≤ 1000 → wrap64 s = s.
Proof. intros Hs. apply wrap64_id. unfold in_int64, int64_min, int64_max. lia. Qed.

Lemma clampScore_range c : 1 ≤ RoScore (clampScore c) ≤ 100.
Proof. unfold clampScore, score. cbn [RoScore]. rewrite small_wrap; lia. Qed.

Lemma live_adjustment_range l : -8 ≤ live_adjustment l ≤ 4.
Proof. unfold live_adjustment. repeat case_match; lia. Qed.

Lemma applyLiveProbe_score kind l c :
  1 ≤ RoScore c ≤ 100 → same_route c (applyLiveProbe kind l c) ∧ 1 ≤ RoScore (applyLiveProbe kind l c) ≤ 100 ∧ RoScore (applyLiveProbe kind l c) ≤ RoScore c + 4.
Proof.
  intros Hs. unfold applyLiveProbe. destruct (l <=? 0); [split; [done|lia]|]. split; [done|]. pose proof (live_adjustment_range l).
  unfold clampScore, score, reason, probe. cbn [RoScore]. rewrite (small_wrap (RoScore c + _)) by lia. rewrite small_wrap by lia. lia.
Qed.
Lemma applyNative_score report c : 1 ≤ RoScore c ≤ 100 → same_route c (applyNativeNATHeuristic report c) ∧ 1 ≤ RoScore (applyNativeNATHeuristic report c) ≤ 100.
Proof.
  intros Hs. unfold applyNativeNATHeuristic. destruct (negb (RoAvailable c) || negb (StunOK report)); [by split|]. cbv zeta.
  rewrite when_score by done. split; [|apply clampScore_range]. eapply same_trans; [|by apply when_same]. by repeat case_match.
Qed.
Lemma applyWebRTC_score report ice c : 1 ≤ RoScore c ≤ 100 → same_route c (applyWebRTCNATHeuristic report ice c) ∧ 1 ≤ RoScore (applyWebRTCNATHeuristic report ice c) ≤ 100.
Proof.
  intros Hs. unfold applyWebRTCNATHeuristic. destruct (negb (RoAvailable c) || negb (StunOK report)); [by split|]. cbv zeta.
  split; [|apply clampScore_range]. by repeat case_match.
Qed.

Lemma signal_problem_score signal c : same_route c (signal_problem signal c) ∧ RoScore (signal_problem signal c) = RoScore c.
Proof. unfold signal_problem, when. by repeat case_match. Qed.
Lemma direct_problem_score direct c : same_route c (direct_problem direct c) ∧ RoScore (direct_problem direct c) = RoScore c.
Proof. unfold direct_problem, when. by repeat case_match. Qed.

Lemma unavailable_ok c c' : same_route c c' → RoScore c' = 0 → RoAvailable c = false → score_ok c'.
Proof. intros (_ & _ & _ & Ha) Hs Hn. unfold score_ok. by rewrite Ha, Hn. Qed.
Lemma available_ok c c' : same_route c c' → 1 ≤ RoScore c' ≤ 100 → RoAvailable c = true → score_ok c'.
Proof. intros (_ & _ & _ & Ha) Hs Hn. unfold score_ok. by rewrite Ha, Hn. Qed.

Lemma signalingDirectCandidate_ok signal relay direct stun :
  score_ok (signalingDirectCandidate signal relay direct stun) ∧ RoPair (signalingDirectCandidate signal relay direct stun) = "native-native"%string.
Proof.
  unfold signalingDirectCandidate. cbv zeta. set (c0 := blank_route _ _ _ _ _ _).
  set (c1 := when _ (warning "signaling service does not advertise direct rendezvous") (signal_problem signal c0)).
  destruct (signal_problem_score signal c0) as [H1 S1]. assert (H2 : same_route c0 c1 ∧ RoScore c1 = 0).
  { unfold c1. split; [eapply same_trans; [exact H1|by apply when_same]|by rewrite when_score, S1]. }
  destruct H2 as [H2 S2]. destruct (direct_problem_score direct c1) as [H3 S3]. set (c2 := direct_problem direct c1) in *.
  pose proof (same_trans _ _ _ H2 H3) as H4. destruct (RoAvailable c2) eqn:Ea; cbn [negb].
  - set (c3 := reason _ (score (fun _ => 92) c2)). destruct (applyNative_score stun c3) as [H5 S5]; [by cbn|].
    destruct (applyLiveProbe_score "signaling" (SigLatency signal) (reason (if RelConfigured relay && RelOK relay then "native relay fallback available" else "WebRTC fallback available") (applyNativeNATHeuristic stun c3)))
      as (H6 & S6 & _); [exact S5|].
    assert (H7 : same_route c0 (applyLiveProbe "signaling" (SigLatency signal) (reason (if RelConfigured relay && RelOK relay then "native relay fallback available" else "WebRTC fallback available") (applyNativeNATHeuristic stun c3)))).
    { eapply same_trans; [exact H4|]. eapply (same_trans c2 c3); [done|]. eapply same_trans; [exact H5|]. exact H6. }
    split; [|by destruct H7 as (-> & _)]. eapply available_ok; [exact H7|exact S6|]. destruct H4 as (_ & _ & _ & Hx). by rewrite <- Hx.
  - split; [|by destruct H4 as (-> & _)]. eapply unavailable_ok; [exact H4|by rewrite S3|]. destruct H4 as (_ & _ & _ & Hx). by rewrite <- Hx.
Qed.

Lemma webrtcCandidate_ok pair signal stun : score_ok (webrtcCandidate pair signal stun) ∧ RoPair (webrtcCandidate pair signal stun) = pair.
Proof.
  unfold webrtcCandidate. cbv zeta. set (c0 := blank_route _ _ _ _ _ _). destruct (SigOK signal) eqn:Es; cbn [negb].
  - set (c1 := if TURN (SigICE signal) >? 0 then _ else _).
    assert (H1 : same_route c0 c1 ∧ 70 ≤ RoScore c1 ≤ 85) by (unfold c1; by repeat case_match). destruct H1 as [H1 S1].
    set (c2 := when (String.eqb pair "web-web" || _) _ c1).
    assert (H2 : same_route c1 c2 ∧ 70 ≤ RoScore c2 ≤ 90).
    { unfold c2, when. destruct (_ || _); [|split; [done|lia]]. split; [done|]. cbn [reason score RoScore]. rewrite small_wrap by lia. lia. }
    destruct H2 as [H2 S2]. set (c3 := when (TURN (SigICE signal) =? 0) _ c2).
    assert (H3 : same_route c2 c3 ∧ RoScore c3 = RoScore c2) by (unfold c3; split; [by apply when_same|by apply when_score]). destruct H3 as [H3 S3].
    destruct (applyWebRTC_score stun (SigICE signal) c3) as [H4 S4]; [lia|].
    destruct (applyLiveProbe_score "signaling" (SigLatency signal) _ S4) as (H5 & S5 & _).
    assert (H6 : same_route c0 (applyLiveProbe "signaling" (SigLatency signal) (applyWebRTCNATHeuristic stun (SigICE signal) c3))).
    { eapply same_trans; [exact H1|]. eapply same_trans; [exact H2|]. eapply same_trans; [exact H3|]. by eapply same_trans. }
    split; [|by destruct H6 as (-> & _)]. by eapply available_ok; [exact H6|exact S5|].
  - destruct (signal_problem_score signal c0) as [H1 S1]. split; [|by destruct H1 as (-> & _)]. by eapply unavailable_ok; [exact H1|rewrite S1|].
Qed.

Lemma relayCandidate_ok relay disabled : score_ok (relayCandidate relay disabled) ∧ RoPair (relayCandidate relay disabled) = "native-native"%string.
Proof.
  unfold relayCandidate. cbv zeta. set (c0 := blank_route _ _ _ _ _ _). set (c1 := when disabled (reason "direct TCP disabled") c0).
  assert (H1 : same_route c0 c1 ∧ RoScore c1 = 0) by (unfold c1; split; [by apply when_same|by rewrite when_score]). destruct H1 as [H1 S1].
  destruct (RelConfigured relay) eqn:Ec; cbn [negb].
  - destruct (RelOK relay) eqn:Eo; cbn [negb].
    + destruct (applyLiveProbe_score "relay" (RelLatency relay) (score (fun _ => 72) c1)) as (H2 & S2 & S2'); [by cbn|]. change (RoScore (score (fun _ => 72) c1)) with 72 in S2'.
      set (c2 := warning _ (reason _ (applyLiveProbe "relay" _ _))). assert (H3 : same_route c0 c2) by (eapply same_trans; [exact H1|exact H2]).
      assert (S3 : 1 ≤ RoScore c2 ≤ 76) by (change (RoScore c2) with (RoScore (applyLiveProbe "relay" (RelLatency relay) (score (fun _ => 72) c1))); lia).
      destruct disabled; cbn [when]; (split; [|by destruct H3 as (? & _)]).
      * eapply (available_ok c0); [exact H3| |]; [cbn [score RoScore]; rewrite small_wrap by lia; lia|unfold c0; cbn [RoAvailable blank_route]; rewrite ?Ec, ?Eo; done].
      * eapply (available_ok c0); [exact H3|lia|unfold c0; cbn [RoAvailable blank_route]; rewrite ?Ec, ?Eo; done].
    + split; [|by destruct H1 as (? & _); unfold when; destruct (negb _)]. eapply (unavailable_ok c0); [|rewrite when_score by done; done|unfold c0; cbn [RoAvailable blank_route]; rewrite ?Ec, ?Eo; done].
      eapply same_trans; [exact H1|]. unfold when. by destruct (negb _).
  - split; [|by destruct H1 as (? & _)]. by eapply (unavailable_ok c0); [exact H1| |unfold c0; cbn [RoAvailable blank_route]; rewrite ?Ec; done].
Qed.

Lemma directRelay_ok relay direct stun :
  score_ok (directRelayFallbackCandidate relay direct stun) ∧ RoPair (directRelayFallbackCandidate relay direct stun) = "native-native"%string.
Proof.
  unfold directRelayFallbackCandidate. cbv zeta. set (c0 := blank_route _ _ _ _ _ _). set (c1 := when _ _ (when (negb (RelConfigured relay)) _ c0)).
  assert (H1 : same_route c0 c1 ∧ RoScore c1 = 0) by (unfold c1, when; by repeat case_match). destruct H1 as [H1 S1].
  destruct (direct_problem_score direct c1) as [H2 S2]. set (c2 := direct_problem direct c1) in *. pose proof (same_trans _ _ _ H1 H2) as H3.
  destruct (RoAvailable c2) eqn:Ea; cbn [negb].
  - destruct (applyLiveProbe_score "relay rendezvous" (RelLatency relay) (score (fun _ => 92) c2)) as (H4 & S4 & _); [by cbn|].
    destruct (applyNative_score stun _ S4) as [H5 S5]. set (c3 := reason _ (reason _ (applyNativeNATHeuristic stun _))).
    assert (H6 : same_route c0 c3) by (eapply same_trans; [exact H3|]; eapply same_trans; [exact H4|]; exact H5).
    assert (H7 : same_route c0 (when (negb (String.eqb (DirAdvertise direct) "")) (reason ("advertise " +:+ DirAdvertise direct)) c3)) by (eapply same_trans; [exact H6|by apply when_same]).
    split; [|by destruct H7 as (-> & _)]. eapply available_ok; [exact H7|rewrite when_score by done; exact S5|]. destruct H3 as (_ & _ & _ & Hx). by rewrite <- Hx.
  - split; [|by destruct H3 as (-> & _)]. eapply unavailable_ok; [exact H3|by rewrite S2|]. destruct H3 as (_ & _ & _ & Hx). by rewrite <- Hx.
Qed.

(** ** The preferred routes *)

Lemma betterRoute_irrefl a : betterRoute a a = false.
Proof. unfold betterRoute. rewrite Bool.eqb_reflx, Z.eqb_refl. apply str_ltb_irrefl. Qed.
Lemma betterRoute_trans a b c : betterRoute a b = true → betterRoute b c = true → betterRoute a c = true.
Proof.
  unfold betterRoute. destruct (RoAvailable a), (RoAvailable b), (RoAvailable c); cbn [negb Bool.eqb]; try done;
  destruct (Z.eqb_spec (RoScore a) (RoScore b)), (Z.eqb_spec (RoScore b) (RoScore c)), (Z.eqb_spec (RoScore a) (RoScore c)); cbn [negb]; rewrite ?Z.gtb_lt; try lia; try done;
  apply str_ltb_trans.
Qed.

Definition best_ok (routes : list routeCandidate) (n : nat) (best : gmap string nat) : Prop :=
  (∀ p i, best !! p = Some i → (i < n)%nat ∧ ∃ r, routes !! i = Some r ∧ RoPair r = p ∧
     ∀ j r', (j < n)%nat → routes !! j = Some r' → RoPair r' = p → betterRoute r' r = false) ∧
  (∀ j r, (j < n)%nat → routes !! j = Some r → is_Some (best !! RoPair r)).

Lemma best_by_pair_ok routes : best_ok routes (length routes) (best_by_pair routes).
Proof.
  unfold best_by_pair. assert (Hn : ∀ n, (n ≤ length routes)%nat → best_ok routes n (foldl (better_index routes) ∅ (seq 0 n))); [|by apply Hn].
  induction n as [|n IH]; intros Hle; [split; [by intros|lia]|]. rewrite seq_S, foldl_app. cbn [foldl Nat.add].
  destruct (IH ltac:(lia)) as [Hb Hc]. set (best := foldl (better_index routes) ∅ (seq 0 n)) in *. clearbody best. clear IH.
  destruct (lookup_lt_is_Some_2 routes n ltac:(lia)) as [route Hr]. unfold better_index. rewrite Hr.
  assert (Hkeep : ∀ i cur, best !! RoPair route = Some i → routes !! i = Some cur → betterRoute route cur = false → best_ok routes (S n) best).
  { intros i cur Hi Hcur Hw. split.
    - intros p k Hk. destruct (Hb p k Hk) as (Hkn & r & Hrk & Hp & Hall). split; [lia|]. exists r. split; [done|]. split; [done|]. intros j r' Hj Hr' Hp'.
      destruct (decide (j = n)) as [->|]; [|apply (Hall j); [lia|done..]]. assert (r' = route) as -> by congruence. assert (k = i) as -> by congruence. congruence.
    - intros j r Hj Hrj. destruct (decide (j = n)) as [->|]; [|apply (Hc j); [lia|done]]. assert (r = route) as -> by congruence. by exists i. }
  assert (Hnew : (∀ i cur, best !! RoPair route = Some i → routes !! i = Some cur → betterRoute route cur = true) → best_ok routes (S n) (<[RoPair route := n]> best)).
  { intros Hw. split.
    - intros p k. destruct (decide (p = RoPair route)) as [->|Hne].
      + rewrite lookup_insert_eq. intros [= <-]. split; [lia|]. exists route. split; [done|]. split; [done|]. intros j r' Hj Hr' Hp'.
        destruct (decide (j = n)) as [->|]; [assert (r' = route) as -> by congruence; apply betterRoute_irrefl|]. destruct (Hc j r' ltac:(lia) Hr') as [i Hi]. rewrite Hp' in Hi.
        destruct (Hb _ _ Hi) as (Hin & cur & Hcur & _ & Hall). destruct (betterRoute r' route) eqn:E; [|done]. pose proof (betterRoute_trans _ _ _ E (Hw _ _ Hi Hcur)) as Ht.
        rewrite (Hall j r') in Ht by (lia || done). done.
      + rewrite lookup_insert_ne by done. intros Hk. destruct (Hb p k Hk) as (Hkn & r & Hrk & Hp & Hall). split; [lia|]. exists r. split; [done|]. split; [done|]. intros j r' Hj Hr' Hp'.
        destruct (decide (j = n)) as [->|]; [congruence|]. apply (Hall j); [lia|done..].
    - intros j r Hj Hrj. destruct (decide (RoPair r = RoPair route)) as [->|Hne]; [rewrite lookup_insert_eq; by eexists|]. rewrite lookup_insert_ne by done.
      destruct (decide (j = n)) as [->|]; [congruence|]. apply (Hc j); [lia|done]. }
  destruct (best !! RoPair route) as [i|] eqn:Ei; cbn [mbind option_bind]; [|by apply Hnew].
  destruct (Hb _ _ Ei) as (Hin & cur & Hcur & _). rewrite Hcur. destruct (betterRoute route cur) eqn:E; [|by eapply Hkeep].
  apply Hnew. intros i' cur' [= <-] ?. congruence.
Qed.

(** Of each pair exactly one route is preferred, and no route of the pair is
    better. *)
Definition ranked (routes : list routeCandidate) : Prop :=
  ∀ i r, routes !! i = Some r → ∃ k best, routes !! k = Some best ∧ RoPair best = RoPair r ∧ RoPrimary best = true ∧
    (∀ j r', routes !! j = Some r' → RoPair r' = RoPair r → betterRoute r' best = false ∧ (RoPrimary r' = true → j = k)).

Lemma betterRoute_primary p q a b : betterRoute (primary p a) (primary q b) = betterRoute a b.
Proof. done. Qed.

Lemma markPrimaryRoutes_ranked routes : ranked (markPrimaryRoutes routes).
Proof.
  destruct (best_by_pair_ok routes) as [Hb Hc]. intros i r Hi. unfold markPrimaryRoutes in *. cbv zeta in *.
  rewrite list_lookup_imap in Hi. destruct (routes !! i) as [r0|] eqn:Er; [|done]. injection Hi as <-.
  destruct (Hc i r0 (lookup_lt_Some _ _ _ Er) Er) as [k Hk]. destruct (Hb _ _ Hk) as (Hkn & best & Hbest & Hp & Hall).
  assert (Hprim : ∀ j, existsb (Nat.eqb j) ((map_to_list (best_by_pair routes)).*2) = true ↔ ∃ p, best_by_pair routes !! p = Some j).
  { intros j. rewrite existsb_exists. split.
    - intros (x & Hx & ->%Nat.eqb_eq). apply list_elem_of_In, list_elem_of_fmap in Hx as ([p y] & -> & Hin). exists p. by apply elem_of_map_to_list in Hin.
    - intros [p Hpj]. exists j. split; [|apply Nat.eqb_refl]. apply list_elem_of_In, list_elem_of_fmap. exists (p, j). split; [done|]. by apply elem_of_map_to_list. }
  exists k. eexists. split; [by rewrite list_lookup_imap, Hbest|]. split; [exact Hp|]. split; [cbn [primary RoPrimary]; apply Hprim; by exists (RoPair r0)|].
  intros j r' Hj Hp'. rewrite list_lookup_imap in Hj. destruct (routes !! j) as [r1|] eqn:Er1; [|done]. injection Hj as <-. cbn [primary RoPair] in Hp'. split.
  - rewrite betterRoute_primary. apply (Hall j); [by eapply lookup_lt_Some|done|done].
  - cbn [primary RoPrimary]. intros [p Hpj]%Hprim. destruct (Hb _ _ Hpj) as (_ & r2 & Hr2 & Hp2 & _). assert (r2 = r1) as -> by congruence. congruence.
Qed.

Lemma markPrimaryRoutes_fields routes :
  length (markPrimaryRoutes routes) = length routes ∧ RoPair <$> markPrimaryRoutes routes = RoPair <$> routes ∧
  (Forall score_ok routes → Forall score_ok (markPrimaryRoutes routes)).
Proof.
  unfold markPrimaryRoutes. cbv zeta. split; [apply length_imap|]. split.
  - rewrite fmap_imap. apply list_eq. intros i. rewrite list_lookup_imap, list_lookup_fmap. by destruct (routes !! i).
  - intros Hall. apply Forall_lookup. intros i r Hi. rewrite list_lookup_imap in Hi. destruct (routes !! i) as [r0|] eqn:E; [|done]. injection Hi as <-.
    exact (proj1 (Forall_lookup _ _) Hall i r0 E).
Qed.

Lemma with_history_ok report c : score_ok c → score_ok (with_history report c) ∧ RoPair (with_history report c) = RoPair c.
Proof.
  intros Hc. unfold with_history. destruct (HReport report !! _) as [s|]; [|done]. destruct (SAttempts s =? 0); [done|]. cbv zeta.
  set (c1 := history_reasons s c). assert (H1 : same_route c c1 ∧ RoScore c1 = RoScore c).
  { unfold c1, history_reasons, when. by repeat case_match. }
  destruct H1 as [(Hp & _ & _ & Ha) Hs]. clearbody c1. destruct (RoAvailable c1) eqn:E; cbn [negb].
  - split; [|rewrite <- Hp; unfold when; by destruct (_ >? 0)]. assert (Hav : ∀ x, RoAvailable (when (SConsecutiveFailures s >? 0) (warning x) (clampScore (score (fun y => y + history_adjustment s) c1))) = true).
    { intros x. unfold when. by destruct (_ >? 0). }
    unfold score_ok. rewrite Hav, when_score by done. apply clampScore_range.
  - split; [|done]. unfold score_ok in *. rewrite E, Hs. by rewrite <- Ha in Hc.
Qed.

Lemma planRouteCandidates_ok signal relay direct stun g :
  Forall score_ok (planRouteCandidates signal relay direct stun g) ∧
  ∀ p, p ∈ RoPair <$> planRouteCandidates signal relay direct stun g ↔ p ∈ ["native-native"; "native-web"; "web-web"]%string.
Proof.
  unfold planRouteCandidates. cbv zeta. match goal with |- context [markPrimaryRoutes ?l] => set (rs := l) end.
  destruct (markPrimaryRoutes_fields rs) as (_ & Hp & Hs). rewrite Hp.
  pose proof (signalingDirectCandidate_ok signal relay direct stun) as [S1 P1]. pose proof (directRelay_ok relay direct stun) as [S2 P2].
  pose proof (relayCandidate_ok relay (nativeDirectDisabled g)) as [S3 P3]. pose proof (λ p st, webrtcCandidate_ok p signal st) as W.
  split.
  - assert (W1 : ∀ p st, score_ok (webrtcCandidate p signal st)) by (intros p st; apply W). apply Hs. unfold rs.
    repeat first [apply Forall_nil_2 | apply Forall_cons_2; [by auto|] | apply Forall_app; split | case_match]; auto.
  - intros p. unfold rs. rewrite !fmap_app. cbn [fmap list_fmap]. rewrite (proj2 (W "native-web"%string stun)), (proj2 (W "web-web"%string (MkSTUN false ""))).
    destruct (negb (OLocal g) && negb (nativeDirectDisabled g)), (String.eqb (ORelay g) "" && negb (OLocal g)), (negb (nativeDirectDisabled g));
      cbn [fmap list_fmap app]; rewrite ?P1, ?P2, ?P3, ?(proj2 (W "native-native"%string stun)), ?elem_of_cons, ?elem_of_nil; tauto.
Qed.

(** C40: the doctor ranks routes soundly.  Whatever the inspections found and
    whatever the history holds: a usable route has a score between 1 and 100 and
    an unusable one none; for each pair of clients there is exactly one preferred
    route, and no route of the pair is better, so it is usable whenever one is;
    and the summary has a line for each of the three pairs, naming that route. *)
Theorem doctor_ranks signal relay direct stun past g :
  let routes := applyRouteHistory (planRouteCandidates signal relay direct stun g) past in
  Forall score_ok routes ∧ ranked routes ∧
  (∀ pair, pair ∈ ["native-native"; "native-web"; "web-web"]%string →
     ∃ best, primaryRoute routes pair = Some best ∧ RoPair best = pair ∧ MkMatrix pair (RoName best) (RoFallback best) ∈ doctorMatrix routes ∧
       ∀ r, r ∈ routes → RoPair r = pair → betterRoute r best = false ∧ (RoAvailable r = true → RoAvailable best = true)).
Proof.
  cbv zeta. destruct (planRouteCandidates_ok signal relay direct stun g) as [Hs Hp].
  assert (Hall : ∃ routes, applyRouteHistory (planRouteCandidates signal relay direct stun g) past = routes ∧ Forall score_ok routes ∧ ranked routes ∧
    ∀ p, p ∈ RoPair <$> routes ↔ p ∈ ["native-native"; "native-web"; "web-web"]%string).
  { unfold applyRouteHistory. destruct (negb (HEnabled past) || _).
    - eexists. split; [done|]. split; [done|]. split; [apply markPrimaryRoutes_ranked|done].
    - eexists. split; [done|]. destruct (markPrimaryRoutes_fields (with_history past <$> planRouteCandidates signal relay direct stun g)) as (_ & Hp' & Hs'). split.
      + apply Hs', Forall_fmap. eapply Forall_impl; [exact Hs|]. intros c Hc. by apply with_history_ok.
      + split; [apply markPrimaryRoutes_ranked|]. intros p. rewrite Hp', <- Hp, <- list_fmap_compose.
        erewrite list_fmap_ext; [done|]. intros i c Hc. apply with_history_ok. by eapply (proj1 (Forall_lookup _ _) Hs). }
  destruct Hall as (routes & -> & Hso & Hr & Hpairs). split; [done|]. split; [done|]. intros pair Hpair.
  apply Hpairs, list_elem_of_fmap in Hpair as (r0 & -> & Hr0). apply list_elem_of_lookup in Hr0 as [i Hi]. destruct (Hr i r0 Hi) as (k & best & Hk & Hbp & Hprim & Hall).
  assert (Hfind : primaryRoute routes (RoPair r0) = Some best).
  { unfold primaryRoute. destruct (list_find _ routes) as [[j r]|] eqn:Ef.
    - apply list_find_Some in Ef as (Hj & [Hjp%String.eqb_eq Hjq]%andb_true_iff & _). destruct (Hall j r Hj Hjp) as [_ Hu]. specialize (Hu Hjq). subst j. cbn. congruence.
    - exfalso. apply list_find_None in Ef. rewrite Forall_lookup in Ef. apply (Ef k best Hk). apply andb_true_iff. split; [by apply String.eqb_eq|done]. }
  exists best. split; [done|]. split; [done|]. split.
  - unfold doctorMatrix. apply list_elem_of_fmap. exists (RoPair r0). rewrite Hfind. split; [done|]. apply Hpairs, list_elem_of_fmap. exists r0. split; [done|]. by eapply list_elem_of_lookup_2.
  - intros r [j Hj]%list_elem_of_lookup Hrp. destruct (Hall j r Hj Hrp) as [Hb _]. split; [done|]. intros Hav. destruct (RoAvailable best) eqn:E; [done|].
    unfold betterRoute in Hb. rewrite Hav, E in Hb. done.
Qed.

(** A relay found on the LAN, but none configured: the doctor tells that a direct
    connection falls back to the relay; the client falls back to WebRTC. *)
Example doctor_fallback_diverges :
  let g := with_route (demo_options "" false false) "" false true in
  let routes := planRouteCandidates (MkSignal true 10 (MkICE 0 0 0 0 0) ["direct-rendezvous-v1"%string] "")
    (route_relay (MkRelay false false "" 0 "") (MkLAN true ["192.168.1.9:9000"%string] "")) (MkDirect true true "" "") (MkSTUN false "unknown") g in
  (RoFallback <$> primaryRoute routes "native-native") = Some "native TCP relay"%string ∧ Fallback (planNativeRoute g) = "WebRTC DataChannel"%string.
Proof. vm_compute. done. Qed.
